(* ===== verification/_CoqProject ===== *)
-Q . S2P
Prelude.v
Admission.v
AdmissionInv.v
AdmissionGate.v
AdmissionProps.v
Routing.v
RoutingProps.v
Resilience.v
ResilienceProps.v
GoStrings.v
Valkey.v
Lease.v
LeaseInv.v
LeaseProps.v
Rate.v
RateProps.v
Sse.v
SseProps.v
Canonical.v
Capabilities.v
CapabilitiesProps.v
Capacity.v
Effects.v
Workflow.v
Monitor.v
Protocol.v
WorkflowSpec.v
WorkflowProps.v
Envelope.v
EnvelopeProps.v
UrlPolicy.v
UrlPolicyProps.v
Renewal.v
Wire.v
ProviderRequest.v
ProviderResponse.v
ProviderCatalog.v
ProviderProps.v
ProviderStreamProps.v
ProviderRepresents.v
ProviderEnv.v
ResponseStream.v
ResponseStreamProps.v
Json.v
Sql.v
ResponseTable.v
Responses.v
ResponseProps.v
ResponseVault.v
ResponseDemo.v
ChatParse.v
Present.v
ProtocolProps.v
PublicApi.v
PublicResponses.v
PublicWorkerProps.v
PublicProps.v
PresentProps.v
PublicDemo.v
RequestTable.v
RequestStore.v
RequestHistory.v
RequestProps.v
RequestAcceptance.v
CredentialHealth.v
StoreEnv.v
StoreProps.v
RecoveryProps.v
RequestLogs.v
RequestDemo.v
Password.v
IdentityTable.v
IdentityStore.v
Identity.v
IdentityHistory.v
IdentityProps.v
IdentityDemo.v
SubscriptionTable.v
Subscription.v
SubscriptionProps.v
