(* ===== verification/Prelude.v ===== *)
(** * LLM2API: a verification development beside the gateway

    LLM2API is a Go gateway that takes OpenAI-style chat and Responses requests
    and serves them from pools of provider credentials.  This library models
    the parts that decide what happens to a request, to a stored response, to
    the accounting and to an account, and proves what they guarantee.

    ** The program and how its parts interact

    A request reaches the public API ([publicapi]) with a gateway key, is
    parsed ([protocol]) and given to [requestflow] ([service.go], [chat.go],
    [stream.go]), which accepts it in the accounting ([usage], [store]), waits
    for a place in the admission queue ([admission]), asks the router for a
    credential ([routing]), takes concurrency leases and rate tokens in a
    shared Valkey ([coordination], through
    [requestflow/coordination_adapter.go]), encodes it for the provider
    ([providers]), sends it through an HTTP client that refuses internal
    addresses ([security]), parses the answer or the event stream
    ([canonical/sse.go], [providers]), and on failure decides whether to try
    again ([resilience]).  The answer is presented ([protocol]) and, for the
    Responses API, stored ([responses]); background responses are executed by a
    worker.  Accounts, sessions and gateway keys are managed by [identity],
    plans and who may use them until when by [subscription];
    credentials, keys and stored responses are kept in encrypted envelopes
    ([security/envelope.go]), passwords as Argon2 hashes.

    ** Files and the code they model (paths under src/internal)

    - [Prelude], [GoStrings]: results and their notation, 64-bit integers,
      times, shared lemmas, tactics and the hint database [go]; byte strings
      with Go's white-space trimming.
    - [Admission] (admission/types.go, queue.go), [AdmissionInv],
      [AdmissionGate] (gate.go as a step relation of concurrent callers),
      [AdmissionProps].
    - [Routing], [RoutingProps] (routing/...).
    - [Resilience], [ResilienceProps] (resilience/backoff.go, retry.go,
      circuit.go).
    - [Valkey]: the commands the scripts call; [Lease], [LeaseInv],
      [LeaseProps] (coordination/lease.go and its Lua scripts); [Rate],
      [RateProps] (coordination/rate.go and its Lua scripts).
    - [Sse], [SseProps] (canonical/sse.go); [Canonical] (the data model of
      canonical/ and execution/types.go).
    - [Capabilities], [CapabilitiesProps] (requestflow: validateCapabilities,
      estimate.go); [Capacity], [Renewal]
      (requestflow/coordination_adapter.go: acquisition as one operation, and
      the renewing goroutines as a step relation).
    - [Effects] (requestflow/types.go: the workflow's calls as an indexed type,
      the state monad and its trace), [Workflow] (requestflow/service.go,
      chat.go, stream.go, recovery.go), [Monitor] (weakest preconditions over
      the calls a computation makes, and the class [LawfulEnv] of what the
      workflow relies on), [Protocol] (five monitors: sends, held resources,
      ledger, output, reads), [WorkflowSpec], [WorkflowProps].
    - [Envelope], [EnvelopeProps] (security/envelope.go); [UrlPolicy],
      [UrlPolicyProps] (security/url_policy.go, ssrf_transport.go).
    - [Wire] (providers/capabilities.go, policy.go, kimi.go, zhipu.go,
      agnes.go, model_profile.go, catalog.go, errors.go), [ProviderRequest]
      (request.go, request_options.go, messages.go, tools.go),
      [ProviderResponse] (response.go, stream.go), [ProviderCatalog]
      (registry/types.go: the capability conversions), [ProviderProps],
      [ProviderStreamProps], [ProviderRepresents],
      [ProviderEnv] (the adapters as the environment of the workflow).
    - [ResponseStream], [ResponseStreamProps]
      (protocol/responses_present.go, publicapi/responses_stream_state.go,
      responses_stream.go): the numbered events of a Responses stream.
    - [Json] (json.Valid), [Sql] (statements over tables with constraints),
      [ResponseTable] (store/response_repository.go and its statements),
      [Responses] (responses/service.go), [ResponseProps], [ResponseVault],
      [ResponseDemo].
    - [ChatParse] (protocol/chat.go, responses_parse.go),
      [Present] (protocol/present.go), [ProtocolProps], [PresentProps].
    - [PublicApi] (publicapi/auth.go, chat.go, models.go), [PublicResponses]
      (responses.go, responses_background.go), [PublicProps],
      [PublicWorkerProps], [PublicDemo].
    - [RequestTable] (the statements of store/db/requests.sql.go and those of
      providers, subscriptions and identity that accounting and routing run),
      [RequestStore] (store/request_repository.go, request_acceptance.go,
      request_resolution.go, usage_repository.go, usage/service.go,
      requestflow/usage_adapter.go), [RequestHistory], [RequestProps],
      [RequestAcceptance], [CredentialHealth] (permits and observations),
      [StoreEnv] (the workflow over the store), [StoreProps],
      [RecoveryProps], [RequestLogs] (the log of requests), [RequestDemo].
    - [Password] (encoding/base64, security/password.go, token.go).
    - [IdentityTable] (store/db/identity.sql.go), [IdentityStore]
      (store/identity_repository.go, administrator_recovery.go), [Identity]
      (identity/service.go, recovery.go, member_mutation.go,
      gateway_key_mutation.go), [IdentityHistory] (what every call keeps, and
      the records of mutations), [IdentityProps] (the operations as sequences
      of calls, the stores they reach, and the theorems), [IdentityDemo].
    - [SubscriptionTable] (store/db/subscriptions.sql.go), [Subscription]
      (store/plan_repository.go, subscription_repository.go,
      subscription/service.go), [SubscriptionProps] (what every call keeps, the
      theorems and concrete runs).

    ** How state and effects are modelled

    A mutable Go struct is a record that operations take and return; a method
    that can fail returns a [result] or an option.  Integers that can overflow
    are wrapped where the code computes.  Code under a mutex is one step of a
    relation; goroutines are its participants.  A Lua script is a function on
    the key space of [Valkey], which runs it atomically.  The workflow's calls
    to anything outside it are operations of [Effects.Op], answered by an
    arbitrary environment; a run leaves a trace, and theorems are about every
    trace.

    A SQL statement is an atomic function on its tables, with the constraints
    of the schema, that may fail instead.  A transaction is a sequence of
    statements whose effect is kept when the commit is; a commit may take
    effect and be reported as failed.  Where an operation runs several
    statements or transactions, others act in between: the theorems are about
    any such history.  A transaction is one instant: those of [identity] are
    serializable; those of the accounting and of [subscription] lock the rows
    they change, and what they read besides is read at that instant.

    Go's libraries enter as written-out functions where that is short (strings,
    net/netip, ParseInt, base64, json.Valid) and as arguments where it is not
    (decoding and encoding of JSON, the block cipher, SHA-256, HMAC, Argon2,
    URL and address parsing, uuid.Parse, DNS, and of PostgreSQL lower, ILIKE and
    the order of texts); what is assumed of an argument is a class or a
    hypothesis, with an instance in a witness.

    ** What the theorems show

    - Workflow: no upstream request is sent again unless the previous one was
      turned away; everything taken is given back once; a request is settled
      in the accounting exactly as it ended; a client's stream comes from one
      attempt and ends after completion is recorded; runs end.
    - Admission: bookkeeping invariant, the scheduler refines a ring, dispatch
      partitions the tickets, the concurrent gate is safe and makes progress;
      newcomers can overtake (a finding).
    - Routing, resilience: the chosen candidate is a best one and weighted
      choice is exact; backoff equals its closed form; retries are bounded;
      the circuit breaker counts and recovers.
    - Coordination: acquisition is all or none, limits are never exceeded,
      live leases are kept, fixed windows keep their quota, refunds happen
      once, released leases stop renewing.
    - Streams and providers: the event decoder and the stream parser do not
      depend on how bytes are cut into chunks; a stream ends once and keeps
      one identity; accepted responses are well formed; errors are classified
      within what the workflow relies on; catalogue facts survive storage; a
      validated request is never refused for a capability.
    - Public API: parsed requests are well formed; the events of a Responses
      stream are numbered and ordered and end in the answer; errors of
      providers are hidden; stored conversations are replayed as they were;
      responses are seen by their owner only; the worker settles what it
      claims.
    - Stored responses: executions that lost their claim cannot write, ended
      responses are final, what is stored comes back.
    - Accounting: the tables stay coherent, requests settle once, acceptance
      is exactly the entitlement and idempotent, results of the workflow are
      recorded, the recovery leaves nothing behind, a sick credential is
      probed by one request at a time, logs are private.
    - Identity: one administrator; mutations happen once, and one that fails
      changes nothing; a deleted member is locked out for ever; secrets and
      tokens let in exactly while their rows say so; members manage nobody.
    - Plans: the versions of a plan are numbered without gaps and never
      change; a published plan is the draft; a subscription keeps its member
      and version, canceled is final, no edit is lost, and the status that is
      shown is the one by which requests are let in.
    - Security: envelopes round-trip and open only what was sealed; dialled
      addresses are within the policy; stored password hashes verify their
      password and cannot ask for more work than the limits.

    ** Bounds and fuel

    [Sse.consumeLines] has the length of the buffer plus one as fuel, each
    round takes at least a byte.  [Workflow]: the loop over candidates has one
    round per candidate plus one, the loop over attempts [MaxAttempts] plus the
    number of candidates plus one, which [workflow_ends] proves to be enough;
    the reads of a response body are as many as the environment gives, so a
    stream takes their number as fuel and running out of it is a separate
    outcome.  Trimming takes the length of the string, the chain of previous
    responses the depth the code allows, printing a number 20 digits, which an
    unsigned 64-bit integer has at most.

    ** Not modelled

    [registry] (beyond the capability conversions) with its repositories and
    statements, the administration of providers, models, pools and credentials:
    validation in front of single statements; the selection and the health of
    credentials are modelled with the accounting.
    [providers] presets and probes, [credentialprobe], the login guard, and
    [security/redact.go].  [controlapi], [httpserver], [app], [config],
    [observability], [operations], [siteprofile], [releasearchive] and
    [buildinfo] are HTTP, configuration and process glue. *)

From stdpp Require Export base tactics numbers list gmap strings sorting.
From stdpp Require Export relations.
From Stdlib Require Export ZArith Lia.

Open Scope Z_scope.

(** ** Results of fallible Go functions

    [func f(...) (A, error)] becomes a function into [result E A]. *)

Inductive result (E A : Type) : Type :=
| Ok (a : A)
| Err (e : E).
Arguments Ok {E A} a.
Arguments Err {E A} e.

Declare Scope go_scope.
Delimit Scope go_scope with go.
Open Scope go_scope.

(** [let? x := c in k] is [x, err := c; if err != nil { return err }; k]. *)
Notation "'let?' x ':=' c 'in' k" :=
  (match c with Ok x => k | Err e => Err e end)
  (at level 10, x pattern, c at level 100, k at level 200,
   format "'[v' 'let?'  x  ':='  c  'in' '/' k ']'") : go_scope.

Definition is_ok {E A} (r : result E A) : bool :=
  match r with Ok _ => true | Err _ => false end.

(** ** Machine integers

    [int], [int64] and [time.Duration] are 64-bit two's complement, [uint64]
    is modulo [2^64]; the wrap-around is applied where the Go code computes. *)

Definition min_int64 : Z := - 2 ^ 63.
Definition max_int64 : Z := 2 ^ 63 - 1.

Definition wrap64 (z : Z) : Z := (z + 2 ^ 63) `mod` 2 ^ 64 - 2 ^ 63.
Definition wrapu64 (z : Z) : Z := z `mod` 2 ^ 64.

Definition int64_ok (z : Z) : Prop := min_int64 <= z <= max_int64.

Lemma wrap64_id z : int64_ok z -> wrap64 z = z.
Proof.
  unfold int64_ok, min_int64, max_int64, wrap64. intros H.
  rewrite Z.mod_small; lia.
Qed.

Lemma wrap64_range z : int64_ok (wrap64 z).
Proof.
  unfold int64_ok, min_int64, max_int64, wrap64.
  pose proof (Z.mod_pos_bound (z + 2 ^ 63) (2 ^ 64)). lia.
Qed.

Lemma wrapu64_id z : 0 <= z < 2 ^ 64 -> wrapu64 z = z.
Proof. intros H. unfold wrapu64. by apply Z.mod_small. Qed.

Lemma wrapu64_range z : 0 <= wrapu64 z < 2 ^ 64.
Proof. unfold wrapu64. apply Z.mod_pos_bound. lia. Qed.

(** Go's integer division truncates; on the non-negative operands the code
    uses it on, it is the Euclidean one. *)
Lemma quot_div_nonneg a b : 0 <= a -> 0 < b -> Z.quot a b = a `div` b.
Proof. intros. apply Z.quot_div_nonneg; lia. Qed.

(** ** Times and durations

    A [time.Time] is the number of nanoseconds since Go's zero time, so
    [IsZero] is the comparison with 0.  [Time.Add] is exact in that range,
    [Time.Sub] saturates at the bounds of [time.Duration]. *)

Definition IsZero (t : Z) : bool := t =? 0.
Definition Before (t u : Z) : bool := t <? u.
Definition After (t u : Z) : bool := u <? t.
Definition time_add (t d : Z) : Z := t + d.
Definition time_sub (t u : Z) : Z :=
  if t - u <? min_int64 then min_int64
  else if max_int64 <? t - u then max_int64 else t - u.

Definition Nanosecond : Z := 1.
Definition Millisecond : Z := 1000000.
Definition Second : Z := 1000 * Millisecond.
Definition Minute : Z := 60 * Second.
Definition Hour : Z := 60 * Minute.

(** [time.UnixMilli]: the Unix epoch is 62135596800 s after the zero time. *)
Definition unixEpoch : Z := 62135596800 * Second.
Definition UnixMilli (ms : Z) : Z := unixEpoch + ms * Millisecond.

(** [Duration.Milliseconds] *)
Definition Milliseconds (d : Z) : Z := Z.quot d Millisecond.

Lemma IsZero_true t : IsZero t = true <-> t = 0.
Proof. unfold IsZero. lia. Qed.
Lemma IsZero_false t : IsZero t = false <-> t <> 0.
Proof. unfold IsZero. lia. Qed.

Lemma time_sub_exact t u : int64_ok (t - u) -> time_sub t u = t - u.
Proof.
  unfold int64_ok, time_sub. intros H.
  destruct (Z.ltb_spec (t - u) min_int64); [lia|].
  destruct (Z.ltb_spec max_int64 (t - u)); lia.
Qed.

(** ** Hints

    [go] closes the goals about ranges and about every element of a list that
    most lemmas end in. *)

Create HintDb go discriminated.
#[export] Hint Resolve wrap64_range wrapu64_range : go.
#[export] Hint Resolve Forall_nil_2 Forall_cons_2 Forall_app_2 : go.

(** ** Tactics of the development *)

(** Splits every [match]/[if] of the goal or the hypotheses and cleans up. *)
Ltac split_matches := repeat (case_match; simplify_eq/=).

(** Turns the boolean comparisons produced by [split_matches] into
    propositions. *)
Ltac to_prop :=
  repeat match goal with
  | H : (_ && _)%bool = true |- _ => apply andb_true_iff in H as [? ?]
  | H : (_ || _)%bool = false |- _ => apply orb_false_iff in H as [? ?]
  | H : negb _ = true |- _ => apply negb_true_iff in H
  | H : negb _ = false |- _ => apply negb_false_iff in H
  | H : (_ =? _)%Z = true |- _ => apply Z.eqb_eq in H
  | H : (_ =? _)%Z = false |- _ => apply Z.eqb_neq in H
  | H : (_ <? _)%Z = true |- _ => apply Z.ltb_lt in H
  | H : (_ <? _)%Z = false |- _ => apply Z.ltb_ge in H
  | H : (_ <=? _)%Z = true |- _ => apply Z.leb_le in H
  | H : (_ <=? _)%Z = false |- _ => apply Z.leb_gt in H
  | H : bool_decide _ = true |- _ => apply bool_decide_eq_true in H
  | H : bool_decide _ = false |- _ => apply bool_decide_eq_false in H
  | H : String.eqb _ _ = true |- _ => apply String.eqb_eq in H
  | H : String.eqb _ _ = false |- _ => apply String.eqb_neq in H
  end.

(** ** Lists

    Generic facts the components share. *)

Section list_facts.
Context {A B : Type}.
Implicit Types (l : list A) (x : A).

Lemma elem_of_delete_NoDup l i x y :
  NoDup l -> l !! i = Some x -> (y ∈ delete i l <-> y ∈ l /\ y <> x).
Proof.
  intros Hnd Hi. pose proof (list_elem_of_split_length l i x Hi) as (l1 & l2 & -> & ->).
  rewrite delete_middle.
  apply NoDup_app in Hnd as (Hnd1 & Hd & [Hx Hnd2]%NoDup_cons).
  set_unfold. naive_solver.
Qed.

Lemma NoDup_delete l i : NoDup l -> NoDup (delete i l).
Proof. intros H. eapply sublist_NoDup; [exact H|]. apply sublist_delete. Qed.

Lemma filter_all (P : A -> Prop) `{!forall x, Decision (P x)} l :
  (forall x, x ∈ l -> P x) -> filter P l = l.
Proof.
  induction l as [|x l IH]; intros Hall; [done|].
  rewrite filter_cons_True by (apply Hall; left). f_equal. apply IH. intros y Hy. apply Hall. by right.
Qed.

Lemma filter_none (P : A -> Prop) `{!forall x, Decision (P x)} l :
  (forall x, x ∈ l -> ~ P x) -> filter P l = [].
Proof.
  induction l as [|x l IH]; intros Hall; [done|].
  rewrite filter_cons_False by (apply Hall; left). apply IH. intros y Hy. apply Hall. by right.
Qed.

Lemma filter_ext_in (P Q : A -> Prop) `{!forall x, Decision (P x), !forall x, Decision (Q x)} l :
  (forall x, x ∈ l -> P x <-> Q x) -> filter P l = filter Q l.
Proof.
  induction l as [|x l IH]; intros Hall; [done|]. rewrite !filter_cons.
  rewrite IH by (intros y Hy; apply Hall; by right).
  apply decide_ext. apply Hall. left.
Qed.

Lemma NoDup_fmap_filter (f : A -> B) (P : A -> Prop) `{!forall x, Decision (P x)} l :
  NoDup (f <$> l) -> NoDup (f <$> filter P l).
Proof.
  induction l as [|x l IH]; [done|]. rewrite fmap_cons, filter_cons. intros [Hx Hl]%NoDup_cons.
  case_decide; [|auto]. rewrite fmap_cons. apply NoDup_cons. split; [|auto].
  rewrite list_elem_of_fmap in *. setoid_rewrite list_elem_of_filter. naive_solver.
Qed.

(** A boolean test splits a list. *)
Lemma filter_partition (f : A -> bool) l :
  l ≡ₚ filter (λ x, f x = true) l ++ filter (λ x, f x = false) l.
Proof.
  induction l as [|x l IH]; [done|]. destruct (f x) eqn:Hf.
  - rewrite filter_cons_True, filter_cons_False by congruence. simpl. by rewrite <- IH.
  - rewrite filter_cons_False, filter_cons_True by congruence.
    rewrite <- Permutation_middle. by rewrite <- IH.
Qed.
End list_facts.

Lemma bind_partition {A B} (f : B -> bool) (g : A -> list B) (l : list A) :
  l ≫= g ≡ₚ (l ≫= λ x, filter (λ y, f y = true) (g x)) ++
             (l ≫= λ x, filter (λ y, f y = false) (g x)).
Proof.
  induction l as [|x l IH]; csimpl; [done|]. rewrite IH, (filter_partition f (g x)) at 1.
  rewrite <- !app_assoc. apply Permutation_app_head.
  rewrite !app_assoc. apply Permutation_app_tail. apply Permutation_app_comm.
Qed.

(** Elements that contribute nothing can be left out of a bind. *)
Lemma bind_filter {A B} (P : A -> Prop) `{!forall x, Decision (P x)} (g : A -> list B) (l : list A) :
  (forall x, ~ P x -> g x = []) -> filter P l ≫= g = l ≫= g.
Proof.
  intros Hg. induction l as [|x l IH]; [done|]. rewrite filter_cons. case_decide; csimpl.
  - by f_equal.
  - by rewrite Hg, IH.
Qed.
