(* ===== verification/Admission.v ===== *)
(** * Admission: the bounded fair queue and the gate in front of it

    Models [src/internal/admission/types.go], [queue.go] and [gate.go].

    [Queue] is the data structure behind one mutex: every exported method
    locks it for its whole body, so an operation is one atomic state
    transformer.  The clock is the argument [now] of the operations that read
    it.  Go maps are [gmap]s, a missing entry of [waiting] or [activeByUser]
    reads as the zero value.  The backing arrays of the slices are never
    shared between two map entries, so slices are lists. *)

From S2P Require Import Prelude.

Local Open Scope Z_scope.

(** ** types.go *)

Record Config := mkConfig {
  MaxQueued : Z;
  MaxActive : Z;
  MaxQueueWait : Z;
}.

Inductive ErrorKind :=
| ErrorInvalidConfiguration
| ErrorInvalidRequest
| ErrorQueueFull
| ErrorDuplicateTicket.

Record Error := mkError {
  Kind : ErrorKind;
  Message : string;
  ErrTicketID : string;
}.

Definition newError (kind : ErrorKind) (message ticketID : string) : Error :=
  mkError kind message ticketID.

Definition Config_validate (c : Config) : option Error :=
  if MaxQueued c <=? 0 then
    Some (newError ErrorInvalidConfiguration "max queued must be positive" "")
  else if MaxActive c <=? 0 then
    Some (newError ErrorInvalidConfiguration "max active must be positive" "")
  else if MaxQueueWait c <=? 0 then
    Some (newError ErrorInvalidConfiguration "max queue wait must be positive" "")
  else None.

Record Request := mkRequest {
  ReqID : string;
  ReqUserID : string;
  QueueTimeout : Z;
}.

Record Ticket := mkTicket {
  ID : string;
  UserID : string;
  EnqueuedAt : Z;
  Deadline : Z;
}.

#[export] Instance Ticket_eq_dec : EqDecision Ticket.
Proof. solve_decision. Defined.

Record Admission := mkAdmission { AdmTicket : Ticket; AdmittedAt : Z }.
Record Expiration := mkExpiration { ExpTicket : Ticket; ExpiredAt : Z }.
Record Cancellation := mkCancellation {
  CanTicket : Ticket;
  CanceledAt : Z;
  WasActive : bool;
}.
Record Dispatch := mkDispatch {
  Expired : list Expiration;
  Admitted_ : list Admission;
}.
Record Snapshot := mkSnapshot {
  Waiting : Z;
  Active : Z;
  WaitingByUser : gmap string Z;
  ActiveByUser : gmap string Z;
}.

(** ** queue.go *)

Record Queue := mkQueue {
  config : Config;
  waiting : gmap string (list Ticket);
  waitingTicket : gmap string string;
  userOrder : list string;
  cursor : nat;
  waitingCount : Z;
  active : gmap string Ticket;
  activeByUser : gmap string Z;
}.

(** A read [q.waiting[user]] of the Go map. *)
Definition waitingOf (q : Queue) (user : string) : list Ticket :=
  default [] (waiting q !! user).

(** The [clock == nil] test of [NewQueue] is the argument [clock_present]. *)
Definition NewQueue (c : Config) (clock_present : bool) : result Error Queue :=
  match Config_validate c with
  | Some e => Err e
  | None =>
      if negb clock_present then
        Err (newError ErrorInvalidConfiguration "clock is required" "")
      else Ok (mkQueue c ∅ ∅ [] 0%nat 0 ∅ ∅)
  end.

Definition Enqueue (now : Z) (request : Request) (q : Queue) : result Error (Ticket * Queue) :=
  if (bool_decide (ReqID request = "") || bool_decide (ReqUserID request = ""))%bool then
    Err (newError ErrorInvalidRequest "ticket and user IDs are required" (ReqID request))
  else if bool_decide (is_Some (waitingTicket q !! ReqID request)) then
    Err (newError ErrorDuplicateTicket "ticket is already queued" (ReqID request))
  else if bool_decide (is_Some (active q !! ReqID request)) then
    Err (newError ErrorDuplicateTicket "ticket is already active" (ReqID request))
  else if MaxQueued (config q) <=? waitingCount q then
    Err (newError ErrorQueueFull "admission queue is full" (ReqID request))
  else
    let timeout :=
      if QueueTimeout request =? 0 then MaxQueueWait (config q) else QueueTimeout request in
    if ((timeout <? 0) || (MaxQueueWait (config q) <? timeout))%bool then
      Err (newError ErrorInvalidRequest
             "queue timeout must be positive and within the configured maximum" (ReqID request))
    else
      let ticket := mkTicket (ReqID request) (ReqUserID request) now (time_add now timeout) in
      let user := ReqUserID request in
      let order :=
        match waitingOf q user with [] => userOrder q ++ [user] | _ => userOrder q end in
      Ok (ticket,
          mkQueue (config q)
            (<[user := waitingOf q user ++ [ticket]]> (waiting q))
            (<[ReqID request := user]> (waitingTicket q))
            order (cursor q) (waitingCount q + 1) (active q) (activeByUser q)).

(** The body of the [for offset] loop of [takeNextLocked]: [remaining] is
    [len(q.userOrder) - offset]. *)
Fixpoint takeNext_from (remaining offset : nat) (q : Queue) : option (Ticket * Queue) :=
  match remaining with
  | O => None
  | S remaining' =>
      let len := length (userOrder q) in
      let index := ((cursor q + offset) mod len)%nat in
      let userID := default "" (userOrder q !! index) in
      match waitingOf q userID with
      | [] => takeNext_from remaining' (S offset) q
      | ticket :: rest =>
          let waitingTicket' := delete (ID ticket) (waitingTicket q) in
          let count' := waitingCount q - 1 in
          match rest with
          | [] =>
              let order' := delete index (userOrder q) in
              let cursor' :=
                match order' with [] => 0%nat | _ => (index mod length order')%nat end in
              Some (ticket,
                    mkQueue (config q) (delete userID (waiting q)) waitingTicket'
                      order' cursor' count' (active q) (activeByUser q))
          | _ =>
              Some (ticket,
                    mkQueue (config q) (<[userID := rest]> (waiting q)) waitingTicket'
                      (userOrder q) ((index + 1) mod len)%nat count' (active q) (activeByUser q))
          end
      end
  end.

Definition takeNextLocked (q : Queue) : option (Ticket * Queue) :=
  if ((waitingCount q =? 0) || bool_decide (userOrder q = []))%bool then None
  else takeNext_from (length (userOrder q)) 0 q.

(** The inner loop of [expireLocked] over one user's queue: the expired
    tickets, the kept ones, and the two counters it updates. *)
Definition elapsed (now : Z) (t : Ticket) : bool := negb (Before now (Deadline t)).

Fixpoint expire_user (now : Z) (queue : list Ticket)
    (st : gmap string string * Z * list Expiration) :
    list Ticket * (gmap string string * Z * list Expiration) :=
  match queue with
  | [] => ([], st)
  | ticket :: queue' =>
      let '(wt, count, expired) := st in
      if elapsed now ticket then
        expire_user now queue'
          (delete (ID ticket) wt, count - 1, expired ++ [mkExpiration ticket now])
      else
        let '(kept, st') := expire_user now queue' st in (ticket :: kept, st')
  end.

(** The outer loop of [expireLocked] over the users that were in the order. *)
Fixpoint expire_users (now : Z) (users : list string)
    (st : gmap string (list Ticket) * list string * (gmap string string * Z * list Expiration)) :
    gmap string (list Ticket) * list string * (gmap string string * Z * list Expiration) :=
  match users with
  | [] => st
  | userID :: users' =>
      let '(waiting, order, inner) := st in
      let '(kept, inner') := expire_user now (default [] (waiting !! userID)) inner in
      match kept with
      | [] => expire_users now users' (delete userID waiting, order, inner')
      | _ => expire_users now users' (<[userID := kept]> waiting, order ++ [userID], inner')
      end
  end.

(** [for index, userID := range order { if userID == anchor { ...; break } }] *)
Fixpoint index_of (anchor : string) (order : list string) (index : nat) : nat :=
  match order with
  | [] => 0
  | userID :: order' =>
      if bool_decide (userID = anchor) then index else index_of anchor order' (S index)
  end.

Definition expireLocked (now : Z) (q : Queue) : list Expiration * Queue :=
  if waitingCount q =? 0 then ([], q)
  else
    let anchor :=
      match userOrder q with
      | [] => ""
      | _ => default "" (userOrder q !! (cursor q mod length (userOrder q))%nat)
      end in
    let '(waiting', order, (wt, count, expired)) :=
      expire_users now (userOrder q)
        (waiting q, [], (waitingTicket q, waitingCount q, [])) in
    (expired,
     mkQueue (config q) waiting' wt order (index_of anchor order 0) count
       (active q) (activeByUser q)).

(** The [for len(q.active) < q.config.MaxActive] loop of [Dispatch].  Each
    turn takes one waiting ticket, so [waitingCount] bounds the turns. *)
Fixpoint admit_loop (fuel : nat) (now : Z) (q : Queue) : list Admission * Queue :=
  match fuel with
  | O => ([], q)
  | S fuel' =>
      if Z.of_nat (size (active q)) <? MaxActive (config q) then
        match takeNextLocked q with
        | None => ([], q)
        | Some (ticket, q1) =>
            let q2 :=
              mkQueue (config q1) (waiting q1) (waitingTicket q1) (userOrder q1) (cursor q1)
                (waitingCount q1) (<[ID ticket := ticket]> (active q1))
                (<[UserID ticket := default 0 (activeByUser q1 !! UserID ticket) + 1]>
                   (activeByUser q1)) in
            let '(admitted, q3) := admit_loop fuel' now q2 in
            (mkAdmission ticket now :: admitted, q3)
        end
      else ([], q)
  end.

Definition Dispatch_op (now : Z) (q : Queue) : Dispatch * Queue :=
  let '(expired, q1) := expireLocked now q in
  let '(admitted, q2) := admit_loop (S (Z.to_nat (waitingCount q1))) now q1 in
  (mkDispatch expired admitted, q2).

Definition decrementActiveLocked (userID : string) (activeByUser : gmap string Z) : gmap string Z :=
  let count := default 0 (activeByUser !! userID) - 1 in
  let decremented := <[userID := count]> activeByUser in
  if count =? 0 then delete userID decremented else decremented.

(** [removeUserLocked] on the pair (userOrder, cursor); [index] counts the
    users already passed. *)
Fixpoint find_user (userID : string) (order : list string) (index : nat) : option nat :=
  match order with
  | [] => None
  | candidate :: order' =>
      if bool_decide (candidate = userID) then Some index
      else find_user userID order' (S index)
  end.

Definition removeUserLocked (userID : string) (order : list string) (cur : nat) :
    list string * nat :=
  match find_user userID order 0 with
  | None => (order, cur)
  | Some index =>
      let order' := delete index order in
      (order',
       match order' with
       | [] => 0%nat
       | _ =>
           if (index <? cur)%nat then (cur - 1)%nat
           else if (length order' <=? cur)%nat then 0%nat else cur
       end)
  end.

(** Position and value of the first ticket with the given ID. *)
Fixpoint find_ticket (ticketID : string) (queue : list Ticket) (index : nat) :
    option (nat * Ticket) :=
  match queue with
  | [] => None
  | ticket :: queue' =>
      if bool_decide (ID ticket = ticketID) then Some (index, ticket)
      else find_ticket ticketID queue' (S index)
  end.

Definition removeWaitingLocked (userID ticketID : string) (q : Queue) : option (Ticket * Queue) :=
  let queue := waitingOf q userID in
  match find_ticket ticketID queue 0 with
  | None => None
  | Some (index, ticket) =>
      let queue' := delete index queue in
      let wt := delete ticketID (waitingTicket q) in
      let count := waitingCount q - 1 in
      match queue' with
      | [] =>
          let '(order, cur) := removeUserLocked userID (userOrder q) (cursor q) in
          Some (ticket, mkQueue (config q) (delete userID (waiting q)) wt order cur count
                          (active q) (activeByUser q))
      | _ =>
          Some (ticket, mkQueue (config q) (<[userID := queue']> (waiting q)) wt (userOrder q)
                          (cursor q) count (active q) (activeByUser q))
      end
  end.

Definition Cancel (now : Z) (ticketID : string) (q : Queue) : option Cancellation * Queue :=
  match active q !! ticketID with
  | Some ticket =>
      (Some (mkCancellation ticket now true),
       mkQueue (config q) (waiting q) (waitingTicket q) (userOrder q) (cursor q) (waitingCount q)
         (delete ticketID (active q))
         (decrementActiveLocked (UserID ticket) (activeByUser q)))
  | None =>
      match waitingTicket q !! ticketID with
      | None => (None, q)
      | Some userID =>
          match removeWaitingLocked userID ticketID q with
          | None => (None, q)
          | Some (ticket, q') => (Some (mkCancellation ticket now false), q')
          end
      end
  end.

Definition Release (ticketID : string) (q : Queue) : bool * Queue :=
  match active q !! ticketID with
  | None => (false, q)
  | Some ticket =>
      (true,
       mkQueue (config q) (waiting q) (waitingTicket q) (userOrder q) (cursor q) (waitingCount q)
         (delete ticketID (active q))
         (decrementActiveLocked (UserID ticket) (activeByUser q)))
  end.

Definition Snapshot_op (q : Queue) : Snapshot :=
  mkSnapshot (waitingCount q) (Z.of_nat (size (active q)))
    ((λ tickets : list Ticket, Z.of_nat (length tickets)) <$> waiting q) (activeByUser q).

(** [NextDeadline] ranges over the map in Go's unspecified order; the order is
    the one of [map_to_list] here, and [NextDeadline_earliest] shows the
    result does not depend on it. *)
Definition earlier (earliest : Z) (ticket : Ticket) : Z :=
  if (IsZero earliest || Before (Deadline ticket) earliest)%bool then Deadline ticket else earliest.

Definition NextDeadline (q : Queue) : Z * bool :=
  let earliest :=
    foldl (λ acc (entry : string * list Ticket), foldl earlier acc (snd entry))
      0 (map_to_list (waiting q)) in
  (earliest, negb (IsZero earliest)).
