(* ===== verification/AdmissionInv.v ===== *)
(** * Invariant of the admission queue

    The bookkeeping invariant of [Admission.Queue] and the lemmas that each
    primitive update of the waiting maps, of the rotation and of the active
    maps keeps it. *)

From S2P Require Import Prelude Admission.

Local Open Scope Z_scope.

(** ** The waiting tickets

    [waiting] and [waitingTicket] index the same tickets: by user and by ID. *)

Record WaitOk (w : gmap string (list Ticket)) (wt : gmap string string) : Prop := {
  wo_nonempty : forall u l, w !! u = Some l -> l <> [];
  wo_owner : forall u l t, w !! u = Some l -> t ∈ l -> UserID t = u /\ wt !! ID t = Some u;
  wo_indexed : forall id u, wt !! id = Some u -> exists l t, w !! u = Some l /\ t ∈ l /\ ID t = id;
  wo_ids : forall u l, w !! u = Some l -> NoDup (ID <$> l);
}.

(** Storing a user's queue, dropping the entry when it becomes empty. *)
Definition put_user (u : string) (l : list Ticket) (w : gmap string (list Ticket)) :=
  match l with [] => delete u w | _ => <[u := l]> w end.

Lemma lookup_put_user u l w u' :
  put_user u l w !! u' =
    if decide (u = u') then match l with [] => None | _ => Some l end else w !! u'.
Proof. destruct l; simpl; [rewrite lookup_delete|rewrite lookup_insert]; done. Qed.

Lemma put_user_put u l l' w : put_user u l (put_user u l' w) = put_user u l w.
Proof.
  apply map_eq; intros u'. rewrite !lookup_put_user. by case_decide.
Qed.

Lemma put_user_id u l w : w !! u = Some l -> l <> [] -> put_user u l w = w.
Proof. intros Hl Hne. destruct l; [done|]. by apply insert_id. Qed.

Lemma put_user_absent u w : w !! u = None -> put_user u [] w = w.
Proof. intros H. by apply delete_id. Qed.

Lemma WaitOk_empty : WaitOk ∅ ∅.
Proof. split; intros *; rewrite ?lookup_empty; done. Qed.

(** Two waiting tickets with one ID are the same ticket. *)
Lemma WaitOk_inj w wt u u' l l' t t' :
  WaitOk w wt -> w !! u = Some l -> w !! u' = Some l' -> t ∈ l -> t' ∈ l' ->
  ID t = ID t' -> t = t'.
Proof.
  intros [_ Hown _ Hids] Hl Hl' Ht Ht' Heq.
  destruct (Hown _ _ _ Hl Ht) as [_ H1], (Hown _ _ _ Hl' Ht') as [_ H2].
  rewrite Heq, H2 in H1. simplify_eq.
  pose proof (Hids _ _ Hl) as Hnd.
  apply list_elem_of_lookup in Ht as [i Hi], Ht' as [j Hj].
  assert (i = j) as ->; [|congruence].
  apply (NoDup_lookup _ i j (ID t) Hnd); rewrite list_lookup_fmap, ?Hi, ?Hj; simpl; congruence.
Qed.

(** A new ticket at the end of its user's queue. *)
Lemma WaitOk_push w wt u t :
  WaitOk w wt -> UserID t = u -> wt !! ID t = None ->
  WaitOk (<[u := default [] (w !! u) ++ [t]]> w) (<[ID t := u]> wt).
Proof.
  intros [Hne Hown Hidx Hids] Hu Hnone. split.
  - intros v l. rewrite lookup_insert. case_decide; [|eauto]. intros [= <-].
    by intros [_ ?]%app_nil.
  - intros v l t'. rewrite lookup_insert. case_decide as Hv.
    + intros [= <-] Ht'. apply elem_of_app in Ht' as [Ht'| ->%list_elem_of_singleton].
      * destruct (w !! u) as [l0|] eqn:Hl0; simpl in Ht'; [|by apply not_elem_of_nil in Ht'].
        destruct (Hown _ _ _ Hl0 Ht') as [? Hw]. split; [congruence|].
        rewrite lookup_insert_ne; congruence.
      * rewrite lookup_insert_eq. naive_solver.
    + intros Hl Ht'. destruct (Hown _ _ _ Hl Ht') as [? Hw]. split; [done|].
      rewrite lookup_insert_ne; congruence.
  - intros id v. rewrite lookup_insert. case_decide as Hid.
    + intros [= <-]. exists (default [] (w !! u) ++ [t]), t.
      rewrite lookup_insert_eq. set_solver.
    + intros Hw. destruct (Hidx _ _ Hw) as (l & t' & Hl & Ht' & Hid').
      destruct (decide (u = v)) as [<-|].
      * exists (default [] (w !! u) ++ [t]), t'. rewrite lookup_insert_eq, Hl. set_solver.
      * exists l, t'. rewrite lookup_insert_ne; done.
  - intros v l. rewrite lookup_insert. case_decide; [|eauto]. intros [= <-].
    rewrite fmap_app. apply NoDup_app. split_and!; [| |apply NoDup_singleton].
    + destruct (w !! u) eqn:Hl; [eauto|apply NoDup_nil_2].
    + intros id Hin ->%list_elem_of_singleton. apply list_elem_of_fmap in Hin as (t' & Heq & Hin).
      destruct (w !! u) as [l0|] eqn:Hl; simpl in Hin; [|by apply not_elem_of_nil in Hin].
      destruct (Hown _ _ _ Hl Hin). congruence.
Qed.

(** Removing one ticket, wherever it stands in its user's queue. *)
Lemma WaitOk_remove w wt u l1 t l2 :
  WaitOk (put_user u (l1 ++ t :: l2) w) wt ->
  WaitOk (put_user u (l1 ++ l2) w) (delete (ID t) wt) /\ wt !! ID t = Some u.
Proof.
  intros Hok. assert (Hl : put_user u (l1 ++ t :: l2) w !! u = Some (l1 ++ t :: l2)).
  { rewrite lookup_put_user, decide_True by done. by destruct l1. }
  pose proof Hok as [Hne Hown Hidx Hids].
  pose proof (Hids _ _ Hl) as Hnd. rewrite fmap_app, fmap_cons in Hnd.
  apply NoDup_app in Hnd as (Hnd1 & Hdis & [Hnt Hnd2]%NoDup_cons).
  assert (Hsame : forall v l, u <> v -> w !! v = Some l ->
            put_user u (l1 ++ t :: l2) w !! v = Some l).
  { intros v l Hv Hl'. by rewrite lookup_put_user, decide_False. }
  assert (Hothers : forall t', t' ∈ l1 ++ l2 -> ID t' <> ID t).
  { intros t' [Ht'|Ht']%elem_of_app Heq.
    - apply (Hdis (ID t')); [by apply list_elem_of_fmap_2|]. rewrite Heq. left.
    - apply Hnt. rewrite <- Heq. by apply list_elem_of_fmap_2. }
  split; [split|].
  - intros v l. rewrite lookup_put_user. case_decide as Hv.
    + destruct (l1 ++ l2); congruence.
    + intros Hl'. eapply Hne. by apply (Hsame v l).
  - intros v l t'. rewrite lookup_put_user. case_decide as Hv.
    + intros Hl' Ht'. assert (l = l1 ++ l2) as -> by (destruct (l1 ++ l2); congruence).
      subst v. assert (Hin : t' ∈ l1 ++ t :: l2) by set_solver.
      destruct (Hown _ _ _ Hl Hin). split; [done|].
      rewrite lookup_delete_ne; [done|]. intros Heq. by apply (Hothers t').
    + intros Hl' Ht'. destruct (Hown _ _ _ (Hsame _ _ Hv Hl') Ht') as [Hu' Hw].
      split; [done|]. rewrite lookup_delete_ne; [done|]. intros Heq.
      destruct (Hown _ _ t Hl) as [Hu'' _]; [set_solver|].
      assert (t = t') by (eapply (WaitOk_inj _ _ u v); [exact Hok|exact Hl|by apply Hsame|set_solver|done|done]).
      congruence.
  - intros id v [Hid Hw]%lookup_delete_Some.
    destruct (Hidx _ _ Hw) as (l & t' & Hl' & Ht' & Hid').
    destruct (decide (u = v)) as [<-|Hv].
    + rewrite Hl in Hl'. injection Hl' as <-.
      assert (Hin : t' ∈ l1 ++ l2) by (set_unfold; naive_solver).
      exists (l1 ++ l2), t'. split_and!; [|done|done].
      rewrite lookup_put_user, decide_True by done. destruct (l1 ++ l2); [set_solver|done].
    + rewrite lookup_put_user, decide_False in Hl' by done.
      exists l, t'. by rewrite lookup_put_user, decide_False.
  - intros v l. rewrite lookup_put_user. case_decide as Hv.
    + intros Hl'. assert (l = l1 ++ l2) as -> by (destruct (l1 ++ l2); congruence).
      rewrite fmap_app. apply NoDup_app. split_and!; [done| |done].
      intros id Hin Hin'. apply (Hdis id Hin). by right.
    + intros Hl'. eapply Hids. by apply (Hsame v l).
  - apply (Hown u _ t Hl). set_solver.
Qed.

(** ** The rotation

    [ring order cur] is the order in which users are served next: from the
    cursor to the end, then from the start. *)

Definition ring (order : list string) (cur : nat) : list string :=
  drop cur order ++ take cur order.

Record OrderOk (w : gmap string (list Ticket)) (order : list string) (cur : nat) : Prop := {
  oo_nodup : NoDup order;
  oo_users : forall u, u ∈ order <-> is_Some (w !! u);
  oo_cursor : (cur < length order)%nat \/ order = [] /\ cur = 0%nat;
}.

Lemma elem_of_ring order cur u : u ∈ ring order cur <-> u ∈ order.
Proof.
  unfold ring. rewrite <- (take_drop cur order) at 3. set_solver.
Qed.

Lemma ring_Permutation order cur : ring order cur ≡ₚ order.
Proof. unfold ring. rewrite <- (take_drop cur order) at 3. apply Permutation_app_comm. Qed.

Lemma ring_NoDup order cur : NoDup order -> NoDup (ring order cur).
Proof. by rewrite ring_Permutation. Qed.

Lemma ring_at (o1 : list string) u o2 : ring (o1 ++ u :: o2) (length o1) = u :: o2 ++ o1.
Proof. unfold ring. by rewrite drop_app_length, take_app_length. Qed.

(** The cursor of a well-formed rotation splits it. *)
Lemma OrderOk_split w order cur :
  OrderOk w order cur -> order <> [] ->
  exists o1 u o2, order = o1 ++ u :: o2 /\ cur = length o1.
Proof.
  intros [_ _ [Hlt|[-> _]]] Hne; [|done].
  destruct (lookup_lt_is_Some_2 order cur Hlt) as [u Hu].
  destruct (list_elem_of_split_length _ _ _ Hu) as (o1 & o2 & -> & ->). eauto.
Qed.

(** Serving a user that keeps tickets moves it to the back of the ring. *)
Lemma ring_advance (o1 : list string) u o2 :
  ring (o1 ++ u :: o2) ((length o1 + 1) mod length (o1 ++ u :: o2)) = o2 ++ o1 ++ [u].
Proof.
  rewrite length_app; simpl. destruct o2 as [|v o2]; simpl.
  - replace (length o1 + 1)%nat with (length o1 + 1)%nat by lia.
    rewrite Nat.Div0.mod_same. unfold ring. by rewrite drop_0, take_0, app_nil_r.
  - rewrite Nat.mod_small by lia. unfold ring.
    rewrite (cons_middle u o1 (v :: o2)), app_assoc.
    by rewrite drop_app_length', take_app_length' by (rewrite length_app; simpl; lia).
Qed.

(** Serving the last ticket of a user removes it from the ring. *)
Definition cursor_after_removal (index : nat) (order : list string) : nat :=
  match order with [] => 0%nat | _ => (index mod length order)%nat end.

Lemma ring_drop_current (o1 o2 : list string) :
  ring (o1 ++ o2) (cursor_after_removal (length o1) (o1 ++ o2)) = o2 ++ o1.
Proof.
  unfold ring, cursor_after_removal. destruct o2 as [|v o2].
  - rewrite app_nil_r. destruct o1 as [|w o1]; [done|].
    rewrite Nat.Div0.mod_same. by rewrite drop_0, take_0, app_nil_r.
  - destruct (o1 ++ v :: o2) eqn:Heq; [by destruct o1|]. rewrite <- Heq.
    rewrite Nat.mod_small by (rewrite length_app; simpl; lia).
    by rewrite drop_app_length, take_app_length.
Qed.

(** [find_user] finds the unique position of a user. *)
Lemma find_user_app u (o1 o2 : list string) i :
  u ∉ o1 -> find_user u (o1 ++ u :: o2) i = Some (i + length o1)%nat.
Proof.
  revert i. induction o1 as [|v o1 IH]; intros i Hnin; simpl.
  - rewrite bool_decide_true by done. f_equal. lia.
  - rewrite bool_decide_false by set_solver. rewrite IH by set_solver. f_equal. lia.
Qed.

(** Filtering the order filters the ring, with the cursor moved to the number
    of kept users before it. *)
Lemma ring_filter (P : string -> Prop) `{!forall x, Decision (P x)} (order : list string) cur :
  ring (filter P order) (length (filter P (take cur order))) = filter P (ring order cur).
Proof.
  assert (Hsplit : filter P order = filter P (take cur order) ++ filter P (drop cur order)).
  { by rewrite <- filter_app, take_drop. }
  unfold ring. by rewrite filter_app, Hsplit, drop_app_length, take_app_length.
Qed.

Lemma ring_end (order : list string) : ring order (length order) = ring order 0.
Proof. unfold ring. by rewrite drop_all, take_ge, drop_0, take_0, app_nil_r. Qed.

Lemma filter_ne_notin (u : string) (l : list string) : u ∉ l -> filter (λ v, v <> u) l = l.
Proof. intros Hl. apply filter_all. set_solver. Qed.

(** Removing any user keeps the service order of the others. *)
Lemma ring_removeUser w order cur u order' cur' :
  OrderOk w order cur -> u ∈ order -> removeUserLocked u order cur = (order', cur') ->
  ring order' cur' = filter (λ v, v <> u) (ring order cur) /\
  order' = filter (λ v, v <> u) order /\
  ((cur' < length order')%nat \/ order' = [] /\ cur' = 0%nat).
Proof.
  intros [Hnd _ Hcur] Hin Hrem.
  destruct (list_elem_of_split _ _ Hin) as (o1 & o2 & ->).
  apply NoDup_app in Hnd as (Hnd1 & Hdis & [Hnu Hnd2]%NoDup_cons).
  assert (Hu1 : u ∉ o1) by (intros ?; apply (Hdis u); [done|left]).
  unfold removeUserLocked in Hrem. rewrite find_user_app in Hrem by done.
  simpl in Hrem. rewrite delete_middle in Hrem. rewrite <- ring_filter.
  assert (Hfilter : filter (λ v, v <> u) (o1 ++ u :: o2) = o1 ++ o2).
  { rewrite filter_app, filter_cons_False by naive_solver. by rewrite !filter_ne_notin. }
  rewrite Hfilter.
  set (n := length (filter (λ v, v <> u) (take cur (o1 ++ u :: o2)))).
  assert (Hcl : (cur < length o1 + S (length o2))%nat).
  { destruct Hcur as [Hcur|[Hcur _]]; [by rewrite length_app in Hcur|by destruct o1]. }
  assert (Hn : n = if (length o1 <? cur)%nat then (cur - 1)%nat else cur).
  { subst n. destruct (Nat.ltb_spec (length o1) cur).
    - rewrite take_app_ge by lia. destruct (cur - length o1)%nat as [|k] eqn:Hk; [lia|]. simpl.
      rewrite filter_app, filter_cons_False by naive_solver.
      rewrite !filter_ne_notin by (done || (intros (?&?&?)%elem_of_take; eauto using list_elem_of_lookup_2)).
      rewrite length_app, length_take. lia.
    - rewrite take_app_le by lia.
      rewrite filter_ne_notin by (intros (?&?&?)%elem_of_take; eauto using list_elem_of_lookup_2).
      rewrite length_take. lia. }
  clearbody n. injection Hrem as <- <-.
  destruct (o1 ++ o2) as [|v o] eqn:Ho; [by destruct n; naive_solver|].
  assert (Hlen : (length o1 + length o2 = length (v :: o))%nat)
    by (rewrite <- Ho, length_app; done).
  destruct (Nat.ltb_spec (length o1) cur).
  { subst n. split_and!; [done|done|left; lia]. }
  destruct (Nat.leb_spec (length (v :: o)) cur).
  - assert (n = length (v :: o)) as -> by lia. rewrite ring_end.
    split_and!; [done|done|left; simpl; lia].
  - subst n. split_and!; [done|done|by left].
Qed.

(** ** The active tickets

    [activeByUser] is the per-user size of [active], without zero entries. *)

Definition active_count (a : gmap string Ticket) (u : string) : Z :=
  Z.of_nat (size (filter (λ kv : string * Ticket, UserID kv.2 = u) a)).

Record ActiveOk (a : gmap string Ticket) (abu : gmap string Z) : Prop := {
  ao_key : forall id t, a !! id = Some t -> ID t = id;
  ao_count : forall u, abu !! u =
    if active_count a u =? 0 then None else Some (active_count a u);
}.

Lemma ActiveOk_default a abu u : ActiveOk a abu -> default 0 (abu !! u) = active_count a u.
Proof. intros [_ H]. rewrite H. destruct (Z.eqb_spec (active_count a u) 0); simpl; lia. Qed.

Lemma active_count_nonneg a u : 0 <= active_count a u.
Proof. unfold active_count. lia. Qed.

Lemma active_count_insert a t u :
  a !! ID t = None ->
  active_count (<[ID t := t]> a) u = active_count a u + (if decide (UserID t = u) then 1 else 0).
Proof.
  intros Hnone. unfold active_count. case_decide as Hu.
  - rewrite map_filter_insert_True by done.
    rewrite map_size_insert_None by (apply map_lookup_filter_None; left; done). lia.
  - rewrite map_filter_insert_False by done. rewrite delete_id by done. lia.
Qed.

Lemma active_count_delete a id t u :
  a !! id = Some t ->
  active_count (delete id a) u = active_count a u - (if decide (UserID t = u) then 1 else 0).
Proof.
  intros Hsome. unfold active_count. rewrite map_filter_delete. case_decide as Hu.
  - assert (Hin : filter (λ kv : string * Ticket, UserID kv.2 = u) a !! id = Some t).
    { by apply map_lookup_filter_Some. }
    rewrite map_size_delete_Some by eauto.
    pose proof (map_size_ne_0_lookup_2 _ _ (ex_intro _ _ Hin)).
    lia.
  - rewrite delete_id; [lia|]. apply map_lookup_filter_None. right. naive_solver.
Qed.

Lemma ActiveOk_empty : ActiveOk ∅ ∅.
Proof.
  split; intros *; rewrite ?lookup_empty; [done|].
  unfold active_count. by rewrite map_filter_empty, map_size_empty.
Qed.

Lemma ActiveOk_admit a abu t :
  ActiveOk a abu -> a !! ID t = None ->
  ActiveOk (<[ID t := t]> a) (<[UserID t := default 0 (abu !! UserID t) + 1]> abu).
Proof.
  intros Hok Hnone. pose proof (active_count_nonneg a (UserID t)). split.
  - intros id t'. rewrite lookup_insert. case_decide; [congruence|apply Hok].
  - intros u. rewrite lookup_insert, active_count_insert, (ActiveOk_default a) by done.
    case_decide; simplify_eq.
    + destruct (Z.eqb_spec (active_count a (UserID t) + 1) 0); [lia|done].
    + rewrite Z.add_0_r. apply Hok.
Qed.

Lemma ActiveOk_release a abu id t :
  ActiveOk a abu -> a !! id = Some t ->
  ActiveOk (delete id a) (decrementActiveLocked (UserID t) abu).
Proof.
  intros Hok Hsome. split.
  - intros id' t' [_ ?]%lookup_delete_Some. by apply Hok.
  - intros u. unfold decrementActiveLocked. rewrite (ActiveOk_default a) by done.
    rewrite (active_count_delete a id t) by done. case_decide as Hu; subst.
    + destruct (Z.eqb_spec (active_count a (UserID t) - 1) 0).
      * by rewrite lookup_delete_eq.
      * by rewrite lookup_insert_eq.
    + rewrite Z.sub_0_r. destruct (Z.eqb_spec (active_count a (UserID t) - 1) 0).
      * rewrite lookup_delete_ne, lookup_insert_ne by done. apply Hok.
      * rewrite lookup_insert_ne by done. apply Hok.
Qed.

(** ** The invariant of the whole queue *)

Record Inv (q : Queue) : Prop := {
  inv_wait : WaitOk (waiting q) (waitingTicket q);
  inv_order : OrderOk (waiting q) (userOrder q) (cursor q);
  inv_count : waitingCount q = Z.of_nat (size (waitingTicket q));
  inv_active : ActiveOk (active q) (activeByUser q);
  inv_disjoint : forall id, is_Some (active q !! id) -> waitingTicket q !! id = None;
  inv_max_queued : waitingCount q <= MaxQueued (config q);
  inv_max_active : Z.of_nat (size (active q)) <= MaxActive (config q);
}.

(** Tickets waiting in the queue, in service order of the users. *)
Definition all_waiting (q : Queue) : list Ticket :=
  ring (userOrder q) (cursor q) ≫= waitingOf q.

(** The abstract state of the queue: the ring of users with their tickets. *)
Definition abs (q : Queue) : list (string * list Ticket) :=
  (λ u, (u, waitingOf q u)) <$> ring (userOrder q) (cursor q).

Lemma all_waiting_abs q : all_waiting q = abs q ≫= snd.
Proof.
  unfold all_waiting, abs. induction (ring _ _) as [|u l IH]; csimpl; [done|]. by f_equal.
Qed.

Lemma waitingOf_Some q u l : waiting q !! u = Some l -> waitingOf q u = l.
Proof. unfold waitingOf. by intros ->. Qed.

Lemma elem_of_all_waiting q t :
  Inv q -> t ∈ all_waiting q <-> exists u l, waiting q !! u = Some l /\ t ∈ l.
Proof.
  intros Hi. unfold all_waiting. rewrite list_elem_of_bind. split.
  - intros (u & Ht & Hu). rewrite elem_of_ring in Hu.
    apply (oo_users _ _ _ (inv_order _ Hi)) in Hu as [l Hl].
    rewrite (waitingOf_Some _ _ _ Hl) in Ht. eauto.
  - intros (u & l & Hl & Ht). exists u. rewrite elem_of_ring, (waitingOf_Some _ _ _ Hl).
    split; [done|]. apply (oo_users _ _ _ (inv_order _ Hi)). eauto.
Qed.

Lemma elem_of_waitingTicket q t :
  Inv q -> t ∈ all_waiting q -> waitingTicket q !! ID t = Some (UserID t).
Proof.
  intros Hi (u & l & Hl & Ht)%elem_of_all_waiting; [|done].
  by destruct (wo_owner _ _ (inv_wait _ Hi) _ _ _ Hl Ht) as [-> ?].
Qed.

Lemma Inv_order_nil q : Inv q -> userOrder q = [] <-> waitingCount q = 0.
Proof.
  intros Hi. rewrite (inv_count _ Hi). split.
  - intros Hnil. destruct (map_choose_or_empty (waitingTicket q)) as [(id & u & Hid)| -> ]; [|done].
    destruct (wo_indexed _ _ (inv_wait _ Hi) _ _ Hid) as (l & t & Hl & _).
    assert (u ∈ userOrder q) by (apply (oo_users _ _ _ (inv_order _ Hi)); eauto).
    rewrite Hnil in *. set_solver.
  - intros Hz. assert (waitingTicket q = ∅) as He by (apply map_size_empty_inv; lia).
    destruct (userOrder q) as [|u o] eqn:Ho; [done|].
    assert (is_Some (waiting q !! u)) as [l Hl].
    { apply (oo_users _ _ _ (inv_order _ Hi)). rewrite Ho. left. }
    destruct l as [|t l]; [by destruct (wo_nonempty _ _ (inv_wait _ Hi) _ _ Hl)|].
    destruct (wo_owner _ _ (inv_wait _ Hi) _ _ t Hl) as [_ Hw]; [left|].
    rewrite He, lookup_empty in Hw. done.
Qed.

(** * Correctness of the admission queue's operations

    Every operation of [Admission.Queue] keeps [AdmissionInv.Inv], and the
    waiting part of the queue refines a ring of users, each with a FIFO. *)

(** ** The abstract ring

    What the queue promises: serve the oldest ticket of the user at the head
    of the ring, and move that user to the back while it still has tickets. *)

Definition Ring := list (string * list Ticket).

Definition ring_take (r : Ring) : option (Ticket * Ring) :=
  match r with
  | (u, t :: ts) :: rest =>
      Some (t, match ts with [] => rest | _ => rest ++ [(u, ts)] end)
  | _ => None
  end.

(** Removing a ticket from a user's FIFO, and the user when it was the last. *)
Definition ring_keep (keep : Ticket -> bool) (r : Ring) : Ring :=
  r ≫= λ e, match filter (λ t, keep t = true) e.2 with [] => [] | l => [(e.1, l)] end.

(** ** Initial state *)

Lemma NewQueue_Inv c present q :
  NewQueue c present = Ok q -> Inv q /\ abs q = [] /\ active q = ∅ /\ config q = c.
Proof.
  unfold NewQueue, Config_validate. intros H. split_matches; to_prop.
  split; [|done]. constructor; simpl; rewrite ?map_size_empty; try lia.
  - apply WaitOk_empty.
  - constructor; simpl; [apply NoDup_nil_2| |by right].
    intros u. rewrite lookup_empty. split; [set_solver|by intros []].
  - apply ActiveOk_empty.
  - intros id. rewrite lookup_empty. by intros [].
Qed.

(** ** Serving *)

Section take.
Context (q : Queue) (Hi : Inv q).

(** What [takeNextLocked] computes on a well-formed non-empty queue. *)
Lemma takeNext_eq :
  userOrder q <> [] ->
  exists o1 u o2 t ts,
    userOrder q = o1 ++ u :: o2 /\ cursor q = length o1 /\
    waiting q !! u = Some (t :: ts) /\
    takeNextLocked q = Some (t,
      mkQueue (config q) (put_user u ts (waiting q)) (delete (ID t) (waitingTicket q))
        (match ts with [] => o1 ++ o2 | _ => userOrder q end)
        (match ts with
         | [] => cursor_after_removal (length o1) (o1 ++ o2)
         | _ => (length o1 + 1) mod length (userOrder q)
         end)%nat
        (waitingCount q - 1) (active q) (activeByUser q)).
Proof using Hi.
  intros Hne. destruct (OrderOk_split _ _ _ (inv_order _ Hi) Hne) as (o1 & u & o2 & Ho & Hc).
  assert (is_Some (waiting q !! u)) as [l Hl].
  { apply (oo_users _ _ _ (inv_order _ Hi)). rewrite Ho. set_solver. }
  destruct l as [|t ts]; [by destruct (wo_nonempty _ _ (inv_wait _ Hi) _ _ Hl)|].
  exists o1, u, o2, t, ts. split_and!; [done..|].
  unfold takeNextLocked.
  destruct (Z.eqb_spec (waitingCount q) 0) as [Hz|_];
    [by apply (Inv_order_nil _ Hi) in Hz|].
  rewrite bool_decide_false by done. simpl.
  assert (Hlen : length (userOrder q) = S (length o1 + length o2)).
  { rewrite Ho, length_app. simpl. lia. }
  rewrite Hlen at 1. cbn [takeNext_from].
  rewrite Nat.add_0_r, Hc, Nat.mod_small by lia.
  assert (userOrder q !! length o1 = Some u) as -> by (rewrite Ho; apply list_lookup_middle; done).
  simpl. rewrite (waitingOf_Some _ _ _ Hl). destruct ts; [|done].
  by rewrite Ho, delete_middle.
Qed.

Lemma abs_nil : abs q = [] <-> userOrder q = [].
Proof.
  unfold abs. split.
  - intros H%fmap_nil_inv. apply Permutation_nil_r. rewrite <- H. symmetry. apply ring_Permutation.
  - intros ->. unfold ring. by rewrite drop_nil, take_nil.
Qed.

Lemma takeNext_nil : userOrder q = [] -> takeNextLocked q = None.
Proof. intros H. unfold takeNextLocked. rewrite H, orb_comm. done. Qed.
End take.

(** Other users' queues are the same after [put_user]. *)
Lemma abs_other (w : gmap string (list Ticket)) u l (us : list string) :
  u ∉ us ->
  ((λ v, (v, default [] (put_user u l w !! v))) <$> us) = ((λ v, (v, default [] (w !! v))) <$> us).
Proof.
  intros Hu. apply list_fmap_ext. intros i v Hv. simpl. rewrite lookup_put_user, decide_False; [done|].
  intros ->. apply Hu. by eapply list_elem_of_lookup_2.
Qed.

Lemma OrderOk_middle w o1 u o2 cur :
  OrderOk w (o1 ++ u :: o2) cur -> (u ∉ o1 ++ o2) /\ NoDup (o1 ++ o2) /\
  (forall v, v ∈ o1 ++ o2 <-> v <> u /\ is_Some (w !! v)).
Proof.
  intros [Hnd Hus _]. rewrite <- Permutation_middle in Hnd.
  apply NoDup_cons in Hnd as [Hu Hnd]. split_and!; [done..|].
  intros v. rewrite <- Hus. set_unfold. naive_solver.
Qed.

(** [takeNextLocked] implements [ring_take] and keeps the invariant. *)
Lemma takeNext_spec q :
  Inv q ->
  match takeNextLocked q with
  | None => abs q = []
  | Some (t, q') =>
      ring_take (abs q) = Some (t, abs q') /\ Inv q' /\
      waitingTicket q !! ID t = Some (UserID t) /\ waitingTicket q' = delete (ID t) (waitingTicket q) /\
      active q' = active q /\ activeByUser q' = activeByUser q /\ config q' = config q
  end.
Proof.
  intros Hi. destruct (decide (userOrder q = [])) as [Hnil|Hne].
  { rewrite takeNext_nil by done. by apply abs_nil. }
  destruct (takeNext_eq q Hi Hne) as (o1 & u & o2 & t & ts & Ho & Hc & Hl & ->).
  assert (Hput : WaitOk (put_user u ([] ++ t :: ts) (waiting q)) (waitingTicket q)).
  { rewrite put_user_id by done. apply Hi. }
  apply WaitOk_remove in Hput as [Hput Hwt].
  pose proof (inv_order _ Hi) as Hord. rewrite Ho in Hord.
  destruct (OrderOk_middle _ _ _ _ _ Hord) as (Hu & Hnd & Hus).
  assert (Hsz : Z.of_nat (size (delete (ID t) (waitingTicket q))) = waitingCount q - 1).
  { rewrite map_size_delete_Some by eauto. rewrite (inv_count _ Hi).
    pose proof (map_size_ne_0_lookup_2 _ _ (ex_intro _ _ Hwt)). lia. }
  destruct (wo_owner _ _ (inv_wait _ Hi) _ _ t Hl) as [Hown _]; [left|].
  split_and!; simpl; try done; [| |congruence].
  - unfold abs; simpl. rewrite Hc, Ho, ring_at. simpl.
    rewrite (waitingOf_Some _ _ _ Hl). simpl. do 2 f_equal.
    unfold waitingOf; simpl. destruct ts as [|t' ts].
    + rewrite ring_drop_current.
      rewrite (abs_other (waiting q) u []) by set_solver. done.
    + rewrite ring_advance. rewrite app_assoc, !fmap_app.
      rewrite !(abs_other (waiting q) u (t' :: ts)) by set_solver. simpl.
      by rewrite lookup_insert_eq.
  - constructor; simpl; try apply Hi; [done| |lia| |].
    + constructor.
      * destruct ts; [done|]. apply Hi.
      * intros v. rewrite lookup_put_user. destruct ts as [|t' ts].
        -- rewrite Hus. case_decide; naive_solver.
        -- rewrite (oo_users _ _ _ (inv_order _ Hi)). case_decide; naive_solver.
      * destruct ts; [|left; apply Nat.mod_upper_bound; by rewrite Ho, length_app; simpl; lia].
        unfold cursor_after_removal. destruct (o1 ++ o2); [by right|].
        left. apply Nat.mod_upper_bound. done.
    + intros id Ha. apply lookup_delete_None. right. by apply Hi.
    + pose proof (inv_max_queued _ Hi). lia.
Qed.

(** ** Expiry *)

Section expire.
Context (now : Z).

#[local] Abbreviation gone := (λ t : Ticket, elapsed now t = true).
#[local] Abbreviation kept := (λ t : Ticket, elapsed now t = false).

Definition drop_tickets (wt : gmap string string) (ts : list Ticket) : gmap string string :=
  foldl (λ m t, delete (ID t) m) wt ts.

Lemma expire_user_eq l wt c e :
  expire_user now l (wt, c, e) =
    (filter kept l,
     (drop_tickets wt (filter gone l), c - Z.of_nat (length (filter gone l)),
      e ++ ((λ t, mkExpiration t now) <$> filter gone l))).
Proof.
  revert wt c e. induction l as [|t l IH]; intros wt c e; simpl.
  - by rewrite Z.sub_0_r, app_nil_r.
  - destruct (elapsed now t) eqn:He.
    + rewrite filter_cons_False, filter_cons_True by congruence. rewrite IH. simpl.
      rewrite <- app_assoc. simpl.
      replace (c - 1 - Z.of_nat (length (filter gone l)))
        with (c - Z.of_nat (S (length (filter gone l)))) by lia. done.
    + rewrite filter_cons_True, filter_cons_False by congruence. by rewrite IH.
Qed.

Lemma WaitOk_expire_user w wt u pre l :
  WaitOk (put_user u (pre ++ l) w) wt ->
  let wt' := drop_tickets wt (filter gone l) in
  WaitOk (put_user u (pre ++ filter kept l) w) wt' /\ wt' ⊆ wt /\
  (size wt' + length (filter gone l) = size wt)%nat.
Proof.
  revert wt pre. induction l as [|t l IH]; intros wt pre Hok; simpl.
  { split_and!; [done|done|lia]. }
  destruct (elapsed now t) eqn:He.
  - rewrite filter_cons_False, filter_cons_True by congruence. simpl.
    apply WaitOk_remove in Hok as [Hok Hwt]. apply IH in Hok as (Hok & Hsub & Hsz).
    split_and!; [done| |].
    + etrans; [exact Hsub|]. apply delete_subseteq.
    + rewrite map_size_delete_Some in Hsz by eauto.
      pose proof (map_size_ne_0_lookup_2 _ _ (ex_intro _ _ Hwt)). unfold drop_tickets in *. simpl in *. lia.
  - rewrite filter_cons_True, filter_cons_False by congruence.
    rewrite !(cons_middle t pre), !app_assoc in *. by apply IH.
Qed.

(** The users that keep a ticket. *)
Definition survives (w : gmap string (list Ticket)) (u : string) : Prop :=
  filter kept (default [] (w !! u)) <> [].

#[local] Instance survives_dec w u : Decision (survives w u).
Proof. unfold survives. apply _. Defined.

Lemma expire_users_cons u users w order wt c e :
  expire_users now (u :: users) (w, order, (wt, c, e)) =
    let l := default [] (w !! u) in
    expire_users now users
      (put_user u (filter kept l) w,
       order ++ (if decide (survives w u) then [u] else []),
       (drop_tickets wt (filter gone l), c - Z.of_nat (length (filter gone l)),
        e ++ ((λ t, mkExpiration t now) <$> filter gone l))).
Proof.
  simpl. rewrite expire_user_eq. destruct (decide (survives w u)) as [Hs|Hs];
    unfold survives in Hs; destruct (filter kept (default [] (w !! u))); simpl; try done.
  - by rewrite app_nil_r.
  - by destruct Hs.
Qed.

(** The loop over users that are not touched by a change of [w] at [u]. *)
Lemma expire_ext u l w users :
  u ∉ users ->
  (users ≫= λ v, filter gone (default [] (put_user u l w !! v))) =
    (users ≫= λ v, filter gone (default [] (w !! v))) /\
  filter (survives (put_user u l w)) users = filter (survives w) users.
Proof.
  induction users as [|v users IH]; intros Hu; [done|].
  destruct IH as [IH1 IH2]; [set_solver|].
  assert (Hv : put_user u l w !! v = w !! v)
    by (rewrite lookup_put_user, decide_False; [done|set_solver]).
  csimpl. rewrite Hv, IH1. split; [done|]. rewrite !filter_cons, IH2.
  apply decide_ext. unfold survives. by rewrite Hv.
Qed.

Lemma expire_users_spec users w order wt e :
  NoDup users -> (forall u, u ∈ users -> is_Some (w !! u)) -> WaitOk w wt ->
  exists w' wt',
    expire_users now users (w, order, (wt, Z.of_nat (size wt), e)) =
      (w', order ++ filter (survives w) users,
       (wt', Z.of_nat (size wt'),
        e ++ ((λ t, mkExpiration t now) <$>
                (users ≫= λ u, filter gone (default [] (w !! u)))))) /\
    WaitOk w' wt' /\ wt' ⊆ wt /\
    (forall v, w' !! v =
       if decide (v ∈ users) then
         match filter kept (default [] (w !! v)) with [] => None | l => Some l end
       else w !! v).
Proof.
  revert w order wt e. induction users as [|u users IH]; intros w order wt e Hnd Hus Hok.
  { exists w, wt. simpl. by rewrite !app_nil_r. }
  apply NoDup_cons in Hnd as [Hu Hnd]. destruct (Hus u) as [l Hl]; [left|].
  pose proof Hok as Hok'. rewrite <- (put_user_id u l w) in Hok' by (done || by apply (wo_nonempty _ _ Hok u)).
  apply (WaitOk_expire_user _ _ _ []) in Hok' as (Hok' & Hsub & Hsz). simpl in Hok'.
  rewrite expire_users_cons, Hl. cbn [default from_option id].
  replace (Z.of_nat (size wt) - Z.of_nat (length (filter gone l)))
    with (Z.of_nat (size (drop_tickets wt (filter gone l)))) by lia.
  edestruct (IH (put_user u (filter kept l) w)) as (w' & wt' & Heq & Hok2 & Hsub2 & Hw'); [done| |exact Hok'|].
  { intros v Hv. rewrite lookup_put_user, decide_False by set_solver. apply Hus. by right. }
  exists w', wt'. split_and!; [|done|by etrans|].
  - rewrite Heq. destruct (expire_ext u (filter kept l) w users Hu) as [-> ->].
    rewrite <- !app_assoc, <- fmap_app. csimpl. rewrite Hl, filter_cons. by case_decide.
  - intros v. rewrite Hw', lookup_put_user. destruct (decide (u = v)) as [<-|Hv].
    + rewrite decide_False by done. rewrite decide_True by left. rewrite Hl. simpl. by destruct (filter kept l).
    + apply decide_ext. set_solver.
Qed.
End expire.

#[export] Existing Instance survives_dec.

Lemma index_of_notin a (l : list string) i : a ∉ l -> index_of a l i = 0%nat.
Proof.
  revert i. induction l as [|v l IH]; intros i Ha; simpl; [done|].
  rewrite bool_decide_false by set_solver. apply IH. set_solver.
Qed.

Lemma index_of_middle a (l1 l2 : list string) i :
  a ∉ l1 -> index_of a (l1 ++ a :: l2) i = (i + length l1)%nat.
Proof.
  revert i. induction l1 as [|v l1 IH]; intros i Ha; simpl.
  - rewrite bool_decide_true by done. lia.
  - rewrite bool_decide_false by set_solver. rewrite IH by set_solver. lia.
Qed.

Record expire_post (now : Z) (q : Queue) (expired : list Expiration) (q' : Queue) : Prop := {
  ep_inv : Inv q';
  ep_expired : expired = (λ t, mkExpiration t now) <$>
     (userOrder q ≫= λ u, filter (λ t, elapsed now t = true) (waitingOf q u));
  ep_kept : forall u, waitingOf q' u = filter (λ t, elapsed now t = false) (waitingOf q u);
  ep_order : userOrder q' = filter (survives now (waiting q)) (userOrder q);
  ep_ring : match ring (userOrder q) (cursor q) with
            | u :: _ => survives now (waiting q) u ->
                ring (userOrder q') (cursor q') =
                  filter (survives now (waiting q)) (ring (userOrder q) (cursor q))
            | [] => True
            end;
  ep_index : waitingTicket q' ⊆ waitingTicket q;
  ep_active : active q' = active q;
  ep_config : config q' = config q;
}.

(** The cursor of [expireLocked] stays on the anchor when the anchor stays. *)
Lemma expire_cursor (P : string -> Prop) `{!forall u, Decision (P u)} (o1 : list string) a o2 :
  NoDup (o1 ++ a :: o2) -> P a ->
  ring (filter P (o1 ++ a :: o2)) (index_of a (filter P (o1 ++ a :: o2)) 0) =
    filter P (ring (o1 ++ a :: o2) (length o1)).
Proof.
  intros (Hnd1 & Hdis & _)%NoDup_app Ha. rewrite ring_at, filter_app, filter_cons_True by done.
  rewrite index_of_middle by (intros [_ ?]%list_elem_of_filter; apply (Hdis a); [done|left]).
  simpl. rewrite ring_at. by rewrite filter_cons_True, filter_app.
Qed.

Lemma expireLocked_spec now q expired q' :
  Inv q -> expireLocked now q = (expired, q') -> expire_post now q expired q'.
Proof.
  intros Hi. unfold expireLocked.
  destruct (Z.eqb_spec (waitingCount q) 0) as [Hz|Hz].
  { intros [= <- <-]. apply (Inv_order_nil _ Hi) in Hz as Ho.
    assert (Hw : forall u, waitingOf q u = []).
    { intros u. unfold waitingOf. destruct (waiting q !! u) eqn:Hl; [|done].
      assert (u ∈ userOrder q) by (apply (oo_users _ _ _ (inv_order _ Hi)); eauto).
      rewrite Ho in *. set_solver. }
    constructor; try done; rewrite ?Ho; try done.
    - intros u. by rewrite Hw.
    - unfold ring. by rewrite drop_nil, take_nil. }
  assert (Hne : userOrder q <> []) by (intros Hnil; by apply (Inv_order_nil _ Hi) in Hnil).
  destruct (OrderOk_split _ _ _ (inv_order _ Hi) Hne) as (o1 & a & o2 & Ho & Hc).
  assert (Hanchor : userOrder q !! (cursor q `mod` length (userOrder q))%nat = Some a).
  { rewrite Nat.mod_small by (rewrite Hc, Ho, length_app; simpl; lia).
    rewrite Hc, Ho. by apply list_lookup_middle. }
  rewrite (inv_count _ Hi).
  edestruct (expire_users_spec now (userOrder q) (waiting q) [] (waitingTicket q) [])
    as (w' & wt' & Heq & Hok & Hsub & Hw').
  { apply (inv_order _ Hi). }
  { intros u. apply (inv_order _ Hi). }
  { apply Hi. }
  rewrite Heq. simpl. rewrite Hanchor. destruct (userOrder q) as [|u0 o0] eqn:Hord; [done|].
  rewrite <- Hord in *. clear Hord u0 o0. simpl. intros [= <- <-].
  pose proof (inv_order _ Hi) as Hoo. destruct Hoo as [Hnd Hus _].
  assert (Hw'' : forall v, w' !! v =
            match filter (λ t, elapsed now t = false) (waitingOf q v) with [] => None | l => Some l end).
  { intros v. rewrite Hw'. case_decide as Hv; [done|].
    destruct (waiting q !! v) as [l|] eqn:Hl; [destruct Hv; apply Hus; eauto|].
    unfold waitingOf. by rewrite Hl. }
  constructor; simpl; try done.
  - constructor; simpl; try apply Hi; try done.
    + constructor.
      * by apply NoDup_filter.
      * intros v. rewrite list_elem_of_filter, Hus, Hw''. unfold survives, waitingOf.
        destruct (waiting q !! v); simpl; [|naive_solver].
        destruct (filter _ l); naive_solver.
      * destruct (decide (a ∈ filter (survives now (waiting q)) (userOrder q))) as [Ha|Ha].
        -- left. destruct (list_elem_of_split_l _ _ Ha) as (l1 & l2 & -> & Hl1).
           rewrite index_of_middle, length_app by done. simpl. lia.
        -- rewrite index_of_notin by done. destruct (filter _ _); [by right|left; simpl; lia].
    + intros id Ha. apply (inv_disjoint _ Hi) in Ha. by eapply lookup_weaken_None.
    + pose proof (inv_max_queued _ Hi). rewrite (inv_count _ Hi) in *.
      apply map_subseteq_size in Hsub. lia.
  - intros u. unfold waitingOf at 1; simpl. rewrite Hw''.
    by destruct (filter (λ t, elapsed now t = false) (waitingOf q u)).
  - rewrite Ho, Hc, ring_at. intros Ha. rewrite <- ring_at. apply expire_cursor; [by rewrite <- Ho|done].
Qed.

(** ** Dispatch *)

(** [n] services of the abstract ring. *)
Fixpoint ring_takes (n : nat) (r : Ring) : option (list Ticket * Ring) :=
  match n with
  | O => Some ([], r)
  | S n' =>
      match ring_take r with
      | None => None
      | Some (t, r1) =>
          match ring_takes n' r1 with
          | None => None
          | Some (ts, r2) => Some (t :: ts, r2)
          end
      end
  end.

Lemma ring_take_perm r t r' : ring_take r = Some (t, r') -> r ≫= snd ≡ₚ t :: (r' ≫= snd).
Proof.
  destruct r as [|[u [|t0 ts]] rest]; [done..|]. simpl. intros [= <- <-].
  csimpl. destruct ts as [|t1 ts]; [done|].
  rewrite bind_app. csimpl. rewrite app_nil_r. apply Permutation_skip.
  apply (Permutation_app_comm (t1 :: ts)).
Qed.

(** The permit of a ticket: the loop body's update of the active maps. *)
Definition activate (t : Ticket) (q : Queue) : Queue :=
  mkQueue (config q) (waiting q) (waitingTicket q) (userOrder q) (cursor q) (waitingCount q)
    (<[ID t := t]> (active q))
    (<[UserID t := default 0 (activeByUser q !! UserID t) + 1]> (activeByUser q)).

Lemma activate_Inv t q :
  Inv q -> active q !! ID t = None -> waitingTicket q !! ID t = None ->
  Z.of_nat (size (active q)) < MaxActive (config q) -> Inv (activate t q).
Proof.
  intros Hi Ha Hw Hlt. constructor; simpl; try apply Hi.
  - by apply ActiveOk_admit; [apply Hi|].
  - intros id. rewrite lookup_insert. case_decide; [by subst|apply Hi].
  - rewrite map_size_insert_None by done. lia.
Qed.

Record admit_post (now : Z) (q : Queue) (adm : list Admission) (q' : Queue) : Prop := {
  ap_inv : Inv q';
  ap_ring : ring_takes (length adm) (abs q) = Some (AdmTicket <$> adm, abs q');
  ap_perm : all_waiting q ≡ₚ (AdmTicket <$> adm) ++ all_waiting q';
  ap_now : Forall (λ a, AdmittedAt a = now) adm;
  ap_new : Forall (λ a, active q' !! ID (AdmTicket a) = Some (AdmTicket a)) adm;
  ap_old : active q ⊆ active q';
  ap_only : forall id t, active q' !! id = Some t ->
    active q !! id = Some t \/ t ∈ AdmTicket <$> adm;
  ap_size : (size (active q') = size (active q) + length adm)%nat;
  ap_config : config q' = config q;
}.

Lemma admit_loop_spec fuel now q adm q' :
  Inv q -> (Z.to_nat (waitingCount q) < fuel)%nat -> admit_loop fuel now q = (adm, q') ->
  admit_post now q adm q' /\
  (Z.of_nat (size (active q')) = MaxActive (config q) \/ waitingCount q' = 0).
Proof.
  revert q adm q'. induction fuel as [|fuel IH]; intros q adm q' Hi Hfuel; [lia|]. simpl.
  assert (Hstop : admit_post now q [] q) by (constructor; done || simpl; lia || eauto).
  pose proof (inv_max_active _ Hi).
  destruct (Z.ltb_spec (Z.of_nat (size (active q))) (MaxActive (config q))) as [Hlt|Hge].
  2:{ intros [= <- <-]. split; [done|]. left. lia. }
  pose proof (takeNext_spec q Hi) as Ht. destruct (takeNextLocked q) as [[t q1]|].
  2:{ intros [= <- <-]. split; [done|]. right. by apply (Inv_order_nil _ Hi), abs_nil. }
  destruct Ht as (Htake & Hi1 & Hwt & Hwt1 & Ha1 & Hb1 & Hc1).
  assert (Hna : active q !! ID t = None).
  { destruct (active q !! ID t) eqn:Ha; [|done].
    rewrite (inv_disjoint _ Hi) in Hwt by eauto. done. }
  assert (Hi2 : Inv (activate t q1)).
  { apply activate_Inv; [done|congruence|by rewrite Hwt1, lookup_delete_eq|congruence]. }
  assert (Hcnt : waitingCount q1 = waitingCount q - 1).
  { rewrite (inv_count _ Hi), (inv_count _ Hi1), Hwt1, map_size_delete_Some by eauto.
    pose proof (map_size_ne_0_lookup_2 _ _ (ex_intro _ _ Hwt)). lia. }
  fold (activate t q1). destruct (admit_loop fuel now (activate t q1)) as [adm2 q2] eqn:Hloop.
  intros [= <- <-]. pose proof (inv_count _ Hi1).
  apply IH in Hloop as [Hpost Hdone]; [|done|simpl; lia].
  split; [|simpl in Hdone; by rewrite Hc1 in Hdone].
  destruct Hpost as [? Hring Hperm Hnow Hnew Hold Honly Hsize Hconf].
  change (abs (activate t q1)) with (abs q1) in Hring.
  change (all_waiting (activate t q1)) with (all_waiting q1) in Hperm.
  simpl in Hold, Hsize, Hconf. rewrite Ha1 in Hold, Hsize. constructor; simpl.
  - done.
  - by rewrite Htake, Hring.
  - apply ring_take_perm in Htake. rewrite !all_waiting_abs in *. by rewrite Htake, Hperm.
  - by constructor.
  - constructor; [|done]. eapply lookup_weaken; [|exact Hold]. apply lookup_insert_eq.
  - etrans; [|exact Hold]. by apply insert_subseteq.
  - intros id t' Ht'. apply Honly in Ht' as [Ht'|?]; [|right; by right].
    simpl in Ht'. rewrite Ha1 in Ht'. apply lookup_insert_Some in Ht' as [[_ <-]|[_ ?]]; [|by left].
    right. left.
  - rewrite Hsize, map_size_insert_None by done. lia.
  - congruence.
Qed.

(** What [Dispatch] does to a well-formed queue. *)
Record dispatch_post (now : Z) (q : Queue) (d : Dispatch) (q' : Queue) : Prop := {
  dp_inv : Inv q';
  dp_expired : forall t, t ∈ ExpTicket <$> Expired d <-> t ∈ all_waiting q /\ elapsed now t = true;
  dp_partition : all_waiting q ≡ₚ
    (ExpTicket <$> Expired d) ++ (AdmTicket <$> Admitted_ d) ++ all_waiting q';
  dp_live : Forall (λ t, elapsed now t = false) ((AdmTicket <$> Admitted_ d) ++ all_waiting q');
  dp_new : Forall (λ a, active q' !! ID (AdmTicket a) = Some (AdmTicket a)) (Admitted_ d);
  dp_old : active q ⊆ active q';
  dp_only : forall id t, active q' !! id = Some t ->
    active q !! id = Some t \/ t ∈ AdmTicket <$> Admitted_ d;
  dp_size : (size (active q') = size (active q) + length (Admitted_ d))%nat;
  dp_full : Z.of_nat (size (active q')) = MaxActive (config q) \/ waitingCount q' = 0;
  dp_config : config q' = config q;
}.

Lemma expire_partition now q expired q' :
  Inv q -> expire_post now q expired q' ->
  all_waiting q ≡ₚ (ExpTicket <$> expired) ++ all_waiting q' /\
  Forall (λ t, elapsed now t = true) (ExpTicket <$> expired) /\
  Forall (λ t, elapsed now t = false) (all_waiting q').
Proof.
  intros Hi [Hi' -> Hk Ho _ _ _ _]. unfold all_waiting.
  assert (Hmap : ExpTicket <$> ((λ t, mkExpiration t now) <$>
    (userOrder q ≫= λ u, filter (λ t, elapsed now t = true) (waitingOf q u))) =
    (userOrder q ≫= λ u, filter (λ t, elapsed now t = true) (waitingOf q u))).
  { rewrite <- list_fmap_compose. apply list_fmap_id. }
  rewrite Hmap. split_and!.
  - rewrite !ring_Permutation, (bind_partition (elapsed now)). apply Permutation_app_head.
    rewrite Ho, bind_filter.
    + apply reflexive_eq. apply list_bind_ext; [intros u; by rewrite Hk|done].
    + intros u Hs. rewrite Hk.
      destruct (decide (filter (λ t, elapsed now t = false) (waitingOf q u) = [])) as [|Hne]; [done|].
      by destruct Hs.
  - apply Forall_forall. intros t (u & Ht & _)%list_elem_of_bind. by apply list_elem_of_filter in Ht as [? _].
  - apply Forall_forall. intros t (u & Ht & _)%list_elem_of_bind. rewrite Hk in Ht.
    by apply list_elem_of_filter in Ht as [? _].
Qed.

Lemma Dispatch_spec now q d q' :
  Inv q -> Dispatch_op now q = (d, q') -> dispatch_post now q d q'.
Proof.
  intros Hi. unfold Dispatch_op. destruct (expireLocked now q) as [expired q1] eqn:Hexp.
  apply expireLocked_spec in Hexp; [|done].
  destruct (expire_partition _ _ _ _ Hi Hexp) as (Hpart & Hgone & Hkept).
  destruct Hexp as [Hi1 _ _ _ _ _ Ha1 Hc1].
  destruct (admit_loop _ now q1) as [adm q2] eqn:Hadm. intros [= <- <-].
  apply admit_loop_spec in Hadm as [[Hi2 _ Hperm _ Hnew Hold Honly Hsize Hc2] Hfull]; [|done|lia].
  constructor; simpl; rewrite <- ?Hc1, <- ?Ha1; try done.
  - intros t. rewrite Hpart, elem_of_app. rewrite !Forall_forall in *. split.
    + intros Ht. naive_solver.
    + intros [[?|Ht] He]; [done|]. rewrite (Hkept _ Ht) in He. done.
  - by rewrite Hpart, Hperm.
  - by rewrite <- Hperm.
Qed.

(** ** Enqueue, Cancel, Release *)

(** Changing one user's queue by one ticket changes the multiset by it. *)
Lemma bind_one (order : list string) (g g' : string -> list Ticket) u t :
  NoDup order -> u ∈ order -> (forall v, v <> u -> g' v = g v) -> g' u ≡ₚ t :: g u ->
  order ≫= g' ≡ₚ t :: (order ≫= g).
Proof.
  intros Hnd Hu Hsame Hu'. destruct (list_elem_of_split _ _ Hu) as (o1 & o2 & ->).
  rewrite <- Permutation_middle in Hnd. apply NoDup_cons in Hnd as [Hnin _].
  assert (Hext : forall o, u ∉ o -> o ≫= g' = o ≫= g).
  { intros o Ho. apply Forall_bind_ext, Forall_forall. intros v Hv. apply Hsame. by intros ->. }
  rewrite !bind_app. csimpl. rewrite !Hext by set_solver. rewrite Hu'.
  simpl. by rewrite <- Permutation_middle.
Qed.

Record enqueue_post (now : Z) (r : Request) (q : Queue) (t : Ticket) (q' : Queue) : Prop := {
  np_inv : Inv q';
  np_ticket : ID t = ReqID r /\ UserID t = ReqUserID r /\ EnqueuedAt t = now;
  np_deadline : 0 < MaxQueueWait (config q) -> now < Deadline t <= now + MaxQueueWait (config q);
  np_fresh : waitingTicket q !! ID t = None /\ active q !! ID t = None;
  np_fifo : forall u, waitingOf q' u =
    if decide (u = UserID t) then waitingOf q u ++ [t] else waitingOf q u;
  np_perm : all_waiting q' ≡ₚ t :: all_waiting q;
  np_index : waitingTicket q' = <[ID t := UserID t]> (waitingTicket q);
  np_active : active q' = active q;
  np_config : config q' = config q;
}.

Lemma waitingOf_nil q u : Inv q -> waitingOf q u = [] <-> waiting q !! u = None.
Proof.
  intros Hi. unfold waitingOf. destruct (waiting q !! u) eqn:Hl; simpl; [|done].
  split; [|done]. intros ->. by destruct (wo_nonempty _ _ (inv_wait _ Hi) _ _ Hl).
Qed.

Lemma Enqueue_spec now r q t q' :
  Inv q -> Enqueue now r q = Ok (t, q') -> enqueue_post now r q t q'.
Proof.
  intros Hi. unfold Enqueue.
  case_bool_decide as H1; [done|]. case_bool_decide as H2; [done|]. simpl.
  case_bool_decide as H3; [done|]. case_bool_decide as H4; [done|].
  destruct (Z.leb_spec (MaxQueued (config q)) (waitingCount q)) as [|Hroom]; [done|].
  set (timeout := if QueueTimeout r =? 0 then _ else _).
  destruct ((timeout <? 0) || (MaxQueueWait (config q) <? timeout))%bool eqn:Hto; [done|].
  to_prop. intros [= <- <-].
  rewrite <- eq_None_not_Some in H3. rewrite <- eq_None_not_Some in H4.
  set (t := mkTicket _ _ _ _). set (u := ReqUserID r).
  assert (Hord : forall v, v ∈ match waitingOf q u with [] => userOrder q ++ [u] | _ => userOrder q end
                 <-> v = u \/ v ∈ userOrder q).
  { intros v. destruct (waitingOf q u) as [|t0 l0] eqn:Hw; [set_solver|].
    split; [by right|]. intros [->|]; [|done]. apply (oo_users _ _ _ (inv_order _ Hi)).
    destruct (waiting q !! u) eqn:Hl; [eauto|]. unfold waitingOf in Hw. by rewrite Hl in Hw. }
  assert (Hnd : NoDup (match waitingOf q u with [] => userOrder q ++ [u] | _ => userOrder q end)).
  { destruct (waitingOf q u) eqn:Hw; [|apply Hi]. apply NoDup_app. split_and!; [apply Hi| |apply NoDup_singleton].
    intros v Hv ->%list_elem_of_singleton. apply (oo_users _ _ _ (inv_order _ Hi)) in Hv as [? Hv].
    apply (waitingOf_nil _ _ Hi) in Hw. congruence. }
  assert (Hfifo : forall v, default [] (<[u := waitingOf q u ++ [t]]> (waiting q) !! v) =
            if decide (v = u) then waitingOf q v ++ [t] else waitingOf q v).
  { intros v. rewrite lookup_insert. destruct (decide (u = v)) as [<-|]; [by rewrite decide_True|].
    by rewrite decide_False. }
  constructor; simpl; try done.
  - constructor; simpl; try apply Hi.
    + apply (WaitOk_push _ _ u t); [apply Hi|done|done].
    + constructor; [done| |].
      * intros v. rewrite Hord, lookup_insert. destruct (decide (u = v)); [naive_solver|].
        rewrite (oo_users _ _ _ (inv_order _ Hi)). naive_solver.
      * left. destruct (oo_cursor _ _ _ (inv_order _ Hi)) as [?|[Ho Hc]].
        -- destruct (waitingOf q u); [rewrite length_app; simpl|]; lia.
        -- rewrite Hc. pose proof (Hord u) as [_ Hu]. specialize (Hu (or_introl eq_refl)).
           apply list_elem_of_lookup in Hu as [i Hi0]. apply lookup_lt_Some in Hi0. lia.
    + rewrite map_size_insert_None by done. rewrite (inv_count _ Hi). lia.
    + intros id Ha. rewrite lookup_insert_ne; [by apply Hi|]. intros <-. destruct Ha. congruence.
    + lia.
  - intros Hpos. subst timeout. unfold time_add. destruct (Z.eqb_spec (QueueTimeout r) 0); lia.
  - unfold all_waiting. rewrite !ring_Permutation. simpl.
    rewrite (bind_one _ (waitingOf q) _ u t); [|done|apply Hord; by left| |].
    + apply Permutation_skip. destruct (waitingOf q u) eqn:Hw; [|done].
      rewrite bind_app. csimpl. by rewrite Hw, !app_nil_r.
    + intros v Hv. unfold waitingOf at 1. simpl. by rewrite Hfifo, decide_False.
    + unfold waitingOf at 1. simpl. rewrite Hfifo, decide_True by done.
      by rewrite Permutation_app_comm.
Qed.

Lemma find_ticket_spec id l i :
  match find_ticket id l i with
  | Some (j, t) => exists l1 l2, l = l1 ++ t :: l2 /\ j = (i + length l1)%nat /\ ID t = id
  | None => forall t, t ∈ l -> ID t <> id
  end.
Proof.
  revert i. induction l as [|t l IH]; intros i; simpl; [set_solver|].
  case_bool_decide as Ht; [exists [], l; simpl; split_and!; [done|lia|done]|].
  specialize (IH (S i)). destruct (find_ticket id l (S i)) as [[j t']|].
  - destruct IH as (l1 & l2 & -> & -> & ?). exists (t :: l1), l2. simpl. split_and!; [done|lia|done].
  - set_solver.
Qed.

Record cancel_waiting_post (id : string) (q : Queue) (t : Ticket) (q' : Queue) : Prop := {
  cp_inv : Inv q';
  cp_id : ID t = id;
  cp_perm : all_waiting q ≡ₚ t :: all_waiting q';
  cp_fifo : forall u, waitingOf q' u = filter (λ t', ID t' <> id) (waitingOf q u);
  cp_ring : ring (userOrder q') (cursor q') =
    filter (λ u, waitingOf q' u <> []) (ring (userOrder q) (cursor q));
  cp_index : waitingTicket q' = delete id (waitingTicket q);
  cp_active : active q' = active q;
  cp_config : config q' = config q;
}.

Lemma filter_id_split id l1 t l2 :
  NoDup (ID <$> l1 ++ t :: l2) -> ID t = id ->
  filter (λ t', ID t' <> id) (l1 ++ t :: l2) = l1 ++ l2.
Proof.
  rewrite fmap_app, fmap_cons. intros (_ & Hdis & [Hnin _]%NoDup_cons)%NoDup_app <-.
  rewrite filter_app, filter_cons_False by naive_solver. f_equal; apply filter_all.
  - intros t' Ht' Heq. apply (Hdis (ID t')); [by apply list_elem_of_fmap_2|]. rewrite Heq. left.
  - intros t' Ht' Heq. apply Hnin. rewrite <- Heq. by apply list_elem_of_fmap_2.
Qed.

Lemma removeWaiting_spec u id q :
  Inv q -> waitingTicket q !! id = Some u ->
  exists t q', removeWaitingLocked u id q = Some (t, q') /\ cancel_waiting_post id q t q'.
Proof.
  intros Hi Hwt. destruct (wo_indexed _ _ (inv_wait _ Hi) _ _ Hwt) as (l & t0 & Hl & Ht0 & Hid0).
  unfold removeWaitingLocked. rewrite (waitingOf_Some _ _ _ Hl).
  pose proof (find_ticket_spec id l 0) as Hf.
  destruct (find_ticket id l 0) as [[j t]|]; [|by destruct (Hf t0)].
  destruct Hf as (l1 & l2 & Heql & -> & Hid). simpl.
  assert (Hdel : delete (length l1) l = l1 ++ l2) by (rewrite Heql; apply delete_middle).
  pose proof (inv_wait _ Hi) as Hok. rewrite <- (put_user_id u l (waiting q)), Heql in Hok
    by (done || by apply (wo_nonempty _ _ (inv_wait _ Hi) u)).
  apply WaitOk_remove in Hok as [Hok _]. rewrite Hid in Hok.
  pose proof (wo_ids _ _ (inv_wait _ Hi) _ _ Hl) as Hids. rewrite Heql in Hids.
  assert (Hkeep : forall v, v <> u -> filter (λ t', ID t' <> id) (waitingOf q v) = waitingOf q v).
  { intros v Hv. apply filter_all. intros t' Ht' Heq. unfold waitingOf in Ht'.
    destruct (waiting q !! v) as [lv|] eqn:Hlv; simpl in Ht'; [|by apply not_elem_of_nil in Ht'].
    destruct (wo_owner _ _ (inv_wait _ Hi) _ _ _ Hlv Ht') as [_ Hw]. congruence. }
  assert (Hsz : Z.of_nat (size (delete id (waitingTicket q))) = waitingCount q - 1).
  { rewrite map_size_delete_Some by eauto. rewrite (inv_count _ Hi).
    pose proof (map_size_ne_0_lookup_2 _ _ (ex_intro _ _ Hwt)). lia. }
  assert (Huo : u ∈ userOrder q) by (apply (oo_users _ _ _ (inv_order _ Hi)); eauto).
  destruct (removeUserLocked u (userOrder q) (cursor q)) as [order' cur'] eqn:Hrem.
  destruct (ring_removeUser _ _ _ _ _ _ (inv_order _ Hi) Huo Hrem) as (Hring & Hord' & Hcur').
  exists t.
  set (q' := mkQueue (config q) (put_user u (l1 ++ l2) (waiting q)) (delete id (waitingTicket q))
    (match l1 ++ l2 with [] => order' | _ => userOrder q end)
    (match l1 ++ l2 with [] => cur' | _ => cursor q end) (waitingCount q - 1) (active q) (activeByUser q)).
  exists q'. split; [rewrite Hdel; subst q'; by destruct (l1 ++ l2)|].
  assert (Hfifo : forall v, waitingOf q' v = filter (λ t', ID t' <> id) (waitingOf q v)).
  { intros v. unfold waitingOf at 1. simpl. rewrite lookup_put_user.
    destruct (decide (u = v)) as [<-|Hv].
    - rewrite (waitingOf_Some _ _ _ Hl), Heql, filter_id_split by done. by destruct (l1 ++ l2).
    - rewrite Hkeep by done. done. }
  assert (Hmem : forall v, v ∈ userOrder q -> waitingOf q' v <> [] <-> v <> u \/ l1 ++ l2 <> []).
  { intros v Hv. rewrite Hfifo. destruct (decide (v = u)) as [->|Hne].
    - rewrite (waitingOf_Some _ _ _ Hl), Heql, filter_id_split by done. naive_solver.
    - rewrite Hkeep by done. apply (oo_users _ _ _ (inv_order _ Hi)) in Hv as [lv Hlv].
      rewrite (waitingOf_Some _ _ _ Hlv). pose proof (wo_nonempty _ _ (inv_wait _ Hi) _ _ Hlv). naive_solver. }
  constructor; try done.
  - constructor; simpl; try apply Hi; try done.
    + constructor.
      * destruct (l1 ++ l2); [subst order'; apply NoDup_filter|]; apply Hi.
      * intros v. rewrite lookup_put_user. destruct (l1 ++ l2).
        -- rewrite Hord', list_elem_of_filter, (oo_users _ _ _ (inv_order _ Hi)). case_decide; naive_solver.
        -- rewrite (oo_users _ _ _ (inv_order _ Hi)). case_decide; naive_solver.
      * destruct (l1 ++ l2); [done|apply Hi].
    + intros id' Ha. apply lookup_delete_None. right. by apply Hi.
    + pose proof (inv_max_queued _ Hi). lia.
  - unfold all_waiting. rewrite !ring_Permutation. simpl.
    rewrite (bind_one (userOrder q) (waitingOf q') _ u t); [|apply Hi|done| |].
    + apply Permutation_skip. destruct (l1 ++ l2) eqn:Hll; [|done].
      rewrite Hord', bind_filter; [done|]. intros v Hv. assert (v = u) as -> by (by destruct (decide (v = u))).
      rewrite Hfifo, (waitingOf_Some _ _ _ Hl), Heql, filter_id_split; done.
    + intros v Hv. rewrite Hfifo. symmetry. by apply Hkeep.
    + rewrite Hfifo, (waitingOf_Some _ _ _ Hl), Heql, filter_id_split by done.
      by rewrite Permutation_middle.
  - subst q'. simpl in *. destruct (l1 ++ l2) eqn:Hll.
    + rewrite Hring. apply filter_ext_in. intros v Hv%elem_of_ring. rewrite Hmem by done. naive_solver.
    + symmetry. apply filter_all. intros v Hv%elem_of_ring. rewrite Hmem by done. naive_solver.
Qed.

(** Giving back the slot of an active ticket: the common body of [Cancel] on an
    active ticket and of [Release]. *)
Definition deactivate (id : string) (t : Ticket) (q : Queue) : Queue :=
  mkQueue (config q) (waiting q) (waitingTicket q) (userOrder q) (cursor q) (waitingCount q)
    (delete id (active q)) (decrementActiveLocked (UserID t) (activeByUser q)).

Lemma deactivate_Inv id t q : Inv q -> active q !! id = Some t -> Inv (deactivate id t q).
Proof.
  intros Hi Ha. constructor; simpl; try apply Hi.
  - by apply ActiveOk_release; [apply Hi|].
  - intros id' [t' [_ Ht']%lookup_delete_Some]. apply Hi. eauto.
  - pose proof (inv_max_active _ Hi). rewrite map_size_delete_Some by eauto. lia.
Qed.

Lemma Cancel_spec now id q c q' :
  Inv q -> Cancel now id q = (c, q') ->
  match c with
  | None => q' = q /\ active q !! id = None /\ waitingTicket q !! id = None
  | Some c =>
      if WasActive c then active q !! id = Some (CanTicket c) /\ q' = deactivate id (CanTicket c) q
      else active q !! id = None /\ cancel_waiting_post id q (CanTicket c) q'
  end.
Proof.
  intros Hi. unfold Cancel. destruct (active q !! id) eqn:Ha; [by intros [= <- <-]|].
  destruct (waitingTicket q !! id) eqn:Hw; [|by intros [= <- <-]].
  destruct (removeWaiting_spec _ _ _ Hi Hw) as (t & q1 & -> & Hpost). by intros [= <- <-].
Qed.

Lemma Release_spec id q b q' :
  Inv q -> Release id q = (b, q') ->
  match active q !! id with
  | None => b = false /\ q' = q
  | Some t => b = true /\ q' = deactivate id t q
  end.
Proof. intros Hi. unfold Release. destruct (active q !! id); by intros [= <- <-]. Qed.

Lemma Cancel_Inv now id q c q' : Inv q -> Cancel now id q = (c, q') -> Inv q'.
Proof.
  intros Hi Hc. apply Cancel_spec in Hc; [|done].
  destruct c as [[t at_ [|]]|]; simpl in Hc.
  - destruct Hc as [Ha ->]. by apply deactivate_Inv.
  - apply Hc.
  - by destruct Hc as [-> _].
Qed.

Lemma Release_Inv id q b q' : Inv q -> Release id q = (b, q') -> Inv q'.
Proof.
  intros Hi Hr. apply Release_spec in Hr; [|done].
  destruct (active q !! id) eqn:Ha; destruct Hr as [_ ->]; [by apply deactivate_Inv|done].
Qed.

(** ** Identity of tickets *)

Lemma all_waiting_NoDup q : Inv q -> NoDup (ID <$> all_waiting q).
Proof.
  intros Hi. unfold all_waiting. pose proof (inv_wait _ Hi) as Hok.
  assert (Hr : NoDup (ring (userOrder q) (cursor q))) by (apply ring_NoDup, Hi).
  assert (Hin : forall u, u ∈ ring (userOrder q) (cursor q) -> is_Some (waiting q !! u)).
  { intros u Hu%elem_of_ring. by apply Hi. }
  induction (ring (userOrder q) (cursor q)) as [|u r IH]; [apply NoDup_nil_2|].
  csimpl. rewrite fmap_app. apply NoDup_cons in Hr as [Hu Hr]. apply NoDup_app.
  destruct (Hin u) as [l Hl]; [left|]. rewrite (waitingOf_Some _ _ _ Hl). split_and!.
  - by apply (wo_ids _ _ Hok u).
  - intros id (t & -> & Ht)%list_elem_of_fmap (t' & Heq & Ht')%list_elem_of_fmap.
    apply list_elem_of_bind in Ht' as (v & Ht' & Hv).
    destruct (Hin v) as [lv Hlv]; [by right|]. rewrite (waitingOf_Some _ _ _ Hlv) in Ht'.
    destruct (wo_owner _ _ Hok _ _ _ Hl Ht) as [_ H1], (wo_owner _ _ Hok _ _ _ Hlv Ht') as [_ H2].
    rewrite Heq in H1. by simplify_eq.
  - apply IH; [done|]. intros v Hv. apply Hin. by right.
Qed.

Lemma all_waiting_not_active q t : Inv q -> t ∈ all_waiting q -> active q !! ID t = None.
Proof.
  intros Hi Ht. apply elem_of_waitingTicket in Ht; [|done].
  destruct (active q !! ID t) eqn:Ha; [|done].
  rewrite (inv_disjoint _ Hi) in Ht by eauto. done.
Qed.

Lemma Dispatch_NoDup now q d q' :
  Inv q -> dispatch_post now q d q' ->
  NoDup (ID <$> (ExpTicket <$> Expired d) ++ (AdmTicket <$> Admitted_ d) ++ all_waiting q').
Proof. intros Hi Hd. rewrite <- (dp_partition _ _ _ _ Hd). by apply all_waiting_NoDup. Qed.
