(* ===== verification/AdmissionGate.v ===== *)
(** * The admission gate: concurrent callers in front of the queue

    Models [src/internal/admission/gate.go].  Each critical section under
    [g.mu] is one atomic state transformer on the gate and the store of the
    result channels; the callers of [Acquire] and the holders of a [Permit]
    are the threads of a step relation, so every interleaving of critical
    sections, context cancellations and timers is a sequence of steps. *)

From S2P Require Import Prelude Admission AdmissionInv.

Local Open Scope Z_scope.

(** ** gate.go *)

(** [gateResult]: an admission, or the error [ErrQueueTimeout]. *)
Inductive gateResult :=
| Delivered (admission : Admission)
| QueueTimeoutErr.

(** [waiters] maps a ticket ID to the channel made by its [Acquire]; [chans]
    is the store of those channels, each a buffer of capacity one.  [blocked]
    records a send on a full buffer, which would block for ever under the
    lock. *)
Record Gate := mkGate {
  gqueue : Queue;
  waiters : gmap string nat;
  chans : gmap nat (list gateResult);
  blocked : bool;
}.

Definition NewGate (c : Config) (clock_present : bool) : result Error Gate :=
  let? q := NewQueue c clock_present in
  Ok (mkGate q ∅ ∅ false).

(** [waiter <- result] on a channel with one free slot. *)
Definition send (c : nat) (r : gateResult) (g : Gate) : Gate :=
  let buffer := default [] (chans g !! c) in
  mkGate (gqueue g) (waiters g) (<[c := buffer ++ [r]]> (chans g))
    (blocked g || negb (bool_decide (buffer = [])))%bool.

Definition deliverLocked (ticketID : string) (r : gateResult) (g : Gate) : bool * Gate :=
  let waiter := waiters g !! ticketID in
  let g1 := mkGate (gqueue g) (delete ticketID (waiters g)) (chans g) (blocked g) in
  match waiter with
  | None => (false, g1)
  | Some c => (true, send c r g1)
  end.

Definition set_queue (q : Queue) (g : Gate) : Gate :=
  mkGate q (waiters g) (chans g) (blocked g).

Definition deliver_expired (e : Expiration) (g : Gate) : Gate :=
  snd (deliverLocked (ID (ExpTicket e)) QueueTimeoutErr g).

Definition deliver_admitted (a : Admission) (g : Gate) : Gate :=
  let '(delivered, g') := deliverLocked (ID (AdmTicket a)) (Delivered a) g in
  if delivered then g' else set_queue (snd (Release (ID (AdmTicket a)) (gqueue g'))) g'.

Definition dispatchLocked (now : Z) (g : Gate) : Gate :=
  let '(d, q') := Dispatch_op now (gqueue g) in
  let g1 := foldl (λ g e, deliver_expired e g) (set_queue q' g) (Expired d) in
  foldl (λ g a, deliver_admitted a g) g1 (Admitted_ d).

(** [dispatch] and [deliver] are the same bodies behind the lock. *)
Definition dispatch (now : Z) (g : Gate) : Gate := dispatchLocked now g.
Definition deliver (ticketID : string) (r : gateResult) (g : Gate) : bool * Gate :=
  deliverLocked ticketID r g.

(** [Acquire] up to its [Unlock]: [c] is the channel it made, [now] and
    [now'] are the two clock readings of [Enqueue] and [Dispatch]. *)
Definition Acquire_begin (now now' : Z) (c : nat) (r : Request) (g : Gate) :
    result Error (Ticket * Gate) :=
  let? (ticket, q') := Enqueue now r (gqueue g) in
  Ok (ticket,
      dispatchLocked now'
        (mkGate q' (<[ID ticket := c]> (waiters g)) (<[c := []]> (chans g)) (blocked g))).

Definition gcancel (now now' : Z) (ticketID : string) (g : Gate) : Gate :=
  let q' := snd (Cancel now ticketID (gqueue g)) in
  dispatchLocked now' (mkGate q' (delete ticketID (waiters g)) (chans g) (blocked g)).

Definition grelease (now : Z) (ticketID : string) (g : Gate) : Gate :=
  dispatchLocked now (set_queue (snd (Release ticketID (gqueue g))) g).

(** ** The system: the gate and its callers

    A call of [Acquire] is named by the channel it makes.  After its first
    critical section it waits in [select]; [select] may take any ready case.
    A [Permit] is held until its first [Release] ([p.once]). *)

Inductive Phase :=
| Selecting (t : Ticket)
| Holding (id : string).

Definition phase_id (p : Phase) : string :=
  match p with Selecting t => ID t | Holding id => id end.

Record System := mkSystem {
  gate : Gate;
  threads : gmap nat Phase;
}.

Definition recv (c : nat) (g : Gate) : Gate :=
  mkGate (gqueue g) (waiters g) (delete c (chans g)) (blocked g).

Inductive gate_step : System -> System -> Prop :=
| step_acquire now now' c r t g g' ts :
    ts !! c = None -> chans g !! c = None ->
    Acquire_begin now now' c r g = Ok (t, g') ->
    gate_step (mkSystem g ts) (mkSystem g' (<[c := Selecting t]> ts))
| step_admitted c t a g ts :
    ts !! c = Some (Selecting t) -> chans g !! c = Some [Delivered a] ->
    gate_step (mkSystem g ts) (mkSystem (recv c g) (<[c := Holding (ID t)]> ts))
| step_timed_out c t g ts :
    ts !! c = Some (Selecting t) -> chans g !! c = Some [QueueTimeoutErr] ->
    gate_step (mkSystem g ts) (mkSystem (recv c g) (delete c ts))
| step_abandon now now' c t g ts :
    (* the cases [<-ctx.Done()] and [<-timer.C] *)
    ts !! c = Some (Selecting t) ->
    gate_step (mkSystem g ts)
      (mkSystem (recv c (gcancel now now' (ID t) g)) (delete c ts))
| step_release now c id g ts :
    ts !! c = Some (Holding id) ->
    gate_step (mkSystem g ts) (mkSystem (grelease now id g) (delete c ts))
| step_dispatch now g ts :
    gate_step (mkSystem g ts) (mkSystem (dispatch now g) ts).

(** The callers' discipline: a ticket ID is not acquired again while an
    [Acquire] or a [Permit] with that ID is outstanding.  The request workflow
    keeps it, since a ticket ID is the ID of one request. *)
Definition disciplined (s s' : System) : Prop :=
  forall c p, threads s !! c = None -> threads s' !! c = Some p ->
  forall c' p', threads s !! c' = Some p' -> phase_id p' <> phase_id p.

Inductive greachable (c : Config) : System -> Prop :=
| greach_init g : NewGate c true = Ok g -> greachable c (mkSystem g ∅)
| greach_step s s' :
    greachable c s -> gate_step s s' -> disciplined s s' -> greachable c s'.

(** ** Invariant

    [GInv s late adm] is the state inside a critical section in which the
    expired tickets [late] and the admitted tickets [adm] still have to be
    delivered; at the end of every critical section both are empty. *)

Record GInv (g : Gate) (ts : gmap nat Phase) (late adm : list Ticket) : Prop := {
  gi_queue : Inv (gqueue g);
  gi_unblocked : blocked g = false;
  gi_waiter : forall id c, waiters g !! id = Some c ->
    exists t, ts !! c = Some (Selecting t) /\ ID t = id /\ chans g !! c = Some [] /\
              t ∈ all_waiting (gqueue g) ++ late ++ adm;
  gi_waiting : forall t, t ∈ all_waiting (gqueue g) ++ late ++ adm ->
    exists c, waiters g !! ID t = Some c /\ ts !! c = Some (Selecting t);
  gi_selecting : forall c t, ts !! c = Some (Selecting t) ->
    waiters g !! ID t = Some c \/
    (exists a, chans g !! c = Some [Delivered a] /\ AdmTicket a = t /\
               active (gqueue g) !! ID t = Some t) \/
    chans g !! c = Some [QueueTimeoutErr];
  gi_holding : forall c id, ts !! c = Some (Holding id) -> is_Some (active (gqueue g) !! id);
  gi_active : forall id t, active (gqueue g) !! id = Some t ->
    (exists c, ts !! c = Some (Holding id)) \/
    (exists c a, ts !! c = Some (Selecting t) /\ chans g !! c = Some [Delivered a]) \/
    t ∈ adm;
  gi_pending : Forall (λ t, active (gqueue g) !! ID t = Some t) adm;
  gi_unique : forall c c' p p', ts !! c = Some p -> ts !! c' = Some p' ->
    phase_id p = phase_id p' -> c = c';
  gi_ids : NoDup (ID <$> all_waiting (gqueue g) ++ late ++ adm);
}.

(** ** Delivery *)

(** Delivering one pending ticket; both kinds of delivery are instances. *)
Lemma deliver_GInv g ts late adm late' adm' t r :
  GInv g ts late adm ->
  late ++ adm ≡ₚ t :: late' ++ adm' ->
  (forall t', t' ∈ adm -> t' ∈ adm' \/ t' = t /\ exists a, r = Delivered a) ->
  (forall t', t' ∈ adm' -> t' ∈ adm) ->
  match r with
  | Delivered a => AdmTicket a = t /\ active (gqueue g) !! ID t = Some t
  | QueueTimeoutErr => True
  end ->
  exists g', deliverLocked (ID t) r g = (true, g') /\ gqueue g' = gqueue g /\ GInv g' ts late' adm'.
Proof.
  intros [Hq Hb Hwr Hwg Hsel Hhold Hact Hpend Huniq Hids] Hperm Hadm Hsub Hr.
  assert (Hin : forall t', t' ∈ all_waiting (gqueue g) ++ late ++ adm <->
                 t' = t \/ t' ∈ all_waiting (gqueue g) ++ late' ++ adm').
  { intros t'. rewrite !(elem_of_app (all_waiting _)), Hperm. set_solver. }
  assert (Hids' : NoDup (ID <$> t :: all_waiting (gqueue g) ++ late' ++ adm')).
  { rewrite Hperm in Hids. by rewrite <- Permutation_middle in Hids. }
  apply NoDup_cons in Hids' as [Hnin Hids']. fold (fmap (M:=list) ID) in Hids', Hnin.
  destruct (Hwg t) as (c & Hc & Htc); [apply Hin; by left|].
  destruct (Hwr _ _ Hc) as (t0 & Ht0 & _ & Hchan & _). assert (t0 = t) as -> by congruence.
  unfold deliverLocked. rewrite Hc. eexists. split; [done|]. split; [done|].
  unfold send. simpl. rewrite Hchan, Hb. simpl.
  constructor; simpl; try done.
  - intros id c' [Hne Hc']%lookup_delete_Some.
    destruct (Hwr _ _ Hc') as (t' & Ht' & Hid & Hch & Hm). exists t'.
    apply Hin in Hm as [->|Hm]; [done|].
    split_and!; [done..| |done]. rewrite lookup_insert_ne; [done|]. intros <-. congruence.
  - intros t' Ht'. destruct (Hwg t') as (c' & Hc' & Htc'); [apply Hin; by right|].
    exists c'. split; [|done]. rewrite lookup_delete_ne; [done|]. intros Heq. apply Hnin.
    rewrite Heq. by apply list_elem_of_fmap_2.
  - intros c' t' Ht'. destruct (decide (c = c')) as [<-|Hne].
    + assert (t' = t) as -> by congruence. right. rewrite lookup_insert_eq.
      destruct r as [a|]; [|by right]. left. exists a. naive_solver.
    + rewrite lookup_insert_ne by done.
      destruct (Hsel _ _ Ht') as [Hw|[H|H]]; [|by right; left|by right; right].
      left. rewrite lookup_delete_ne; [done|]. intros Heq. apply Hne.
      by eapply (Huniq c c' (Selecting t) (Selecting t')).
  - intros id t' Ht'. destruct (Hact _ _ Ht') as [H|[(c' & a & Hc' & Ha)|H]]; [by left| |].
    + right. left. exists c', a. split; [done|]. rewrite lookup_insert_ne; [done|]. intros <-. congruence.
    + apply Hadm in H as [H|[-> [a ->]]]; [by right; right|].
      right. left. exists c, a. by rewrite lookup_insert_eq.
  - rewrite Forall_forall in *. naive_solver.
Qed.

Lemma deliver_expired_GInv now t g ts late adm :
  GInv g ts (t :: late) adm -> GInv (deliver_expired (mkExpiration t now) g) ts late adm.
Proof.
  intros Hg. destruct (deliver_GInv g ts (t :: late) adm late adm t QueueTimeoutErr)
    as (g' & Heq & _ & Hg'); try done; [naive_solver..|].
  unfold deliver_expired. simpl. by rewrite Heq.
Qed.

Lemma deliver_admitted_GInv a g ts adm :
  GInv g ts [] (AdmTicket a :: adm) -> GInv (deliver_admitted a g) ts [] adm.
Proof.
  intros Hg. destruct (deliver_GInv g ts [] (AdmTicket a :: adm) [] adm (AdmTicket a) (Delivered a))
    as (g' & Heq & _ & Hg'); try done.
  - intros t'. rewrite elem_of_cons. naive_solver.
  - intros t'. by right.
  - split; [done|]. pose proof (gi_pending _ _ _ _ Hg) as Hp. by apply Forall_cons in Hp as [Hp _].
  - unfold deliver_admitted. by rewrite Heq.
Qed.

Lemma deliver_all_GInv expired admitted g ts :
  GInv g ts (ExpTicket <$> expired) (AdmTicket <$> admitted) ->
  GInv (foldl (λ g a, deliver_admitted a g)
          (foldl (λ g e, deliver_expired e g) g expired) admitted) ts [] [].
Proof.
  revert g. induction expired as [|[t at_] expired IH]; intros g Hg; simpl in *.
  - revert g Hg. induction admitted as [|a admitted IH]; intros g Hg; simpl in *; [done|].
    by apply IH, deliver_admitted_GInv.
  - by apply IH, deliver_expired_GInv.
Qed.

(** A dispatch keeps the invariant and leaves no slot idle. *)
Definition saturated (q : Queue) : Prop :=
  Z.of_nat (size (active q)) = MaxActive (config q) \/ waitingCount q = 0.

Lemma deliver_expired_queue e g : gqueue (deliver_expired e g) = gqueue g.
Proof.
  unfold deliver_expired, deliverLocked. by destruct (waiters g !! _).
Qed.

Lemma deliver_all_queue expired admitted g ts :
  GInv g ts (ExpTicket <$> expired) (AdmTicket <$> admitted) ->
  gqueue (foldl (λ g a, deliver_admitted a g)
          (foldl (λ g e, deliver_expired e g) g expired) admitted) = gqueue g.
Proof.
  revert g. induction expired as [|[t at_] expired IH]; intros g Hg; simpl in *.
  - revert g Hg. induction admitted as [|a admitted IH]; intros g Hg; simpl in *; [done|].
    rewrite IH by by apply deliver_admitted_GInv.
    destruct (deliver_GInv g ts [] (AdmTicket a :: (AdmTicket <$> admitted)) []
                (AdmTicket <$> admitted) (AdmTicket a) (Delivered a))
      as (g' & Heq & Hq & _); try done.
    + intros t'. rewrite elem_of_cons. naive_solver.
    + intros t'. by right.
    + split; [done|]. pose proof (gi_pending _ _ _ _ Hg) as Hp. by apply Forall_cons in Hp as [Hp _].
    + unfold deliver_admitted. by rewrite Heq.
  - rewrite IH by (by apply deliver_expired_GInv). apply deliver_expired_queue.
Qed.

Lemma dispatchLocked_GInv now g ts :
  GInv g ts [] [] ->
  GInv (dispatchLocked now g) ts [] [] /\ saturated (gqueue (dispatchLocked now g)).
Proof.
  intros Hg. unfold dispatchLocked. destruct (Dispatch_op now (gqueue g)) as [d q'] eqn:Hd.
  pose proof (gi_queue _ _ _ _ Hg) as Hi. apply Dispatch_spec in Hd; [|done].
  pose proof (Dispatch_NoDup _ _ _ _ Hi Hd) as Hnd.
  destruct Hd as [Hi' _ Hpart _ Hnew Hold Honly _ Hfull Hconf].
  assert (Hg1 : GInv (set_queue q' g) ts (ExpTicket <$> Expired d) (AdmTicket <$> Admitted_ d)).
  { destruct Hg as [_ Hb Hwr Hwg Hsel Hhold Hact _ Huniq _].
    assert (Hin : forall t, t ∈ all_waiting (gqueue g) ++ [] ++ [] <->
      t ∈ all_waiting q' ++ (ExpTicket <$> Expired d) ++ (AdmTicket <$> Admitted_ d)).
    { intros t. rewrite !app_nil_r, Hpart. set_solver. }
    constructor; simpl; try done.
    - intros id c Hc. destruct (Hwr _ _ Hc) as (t & ? & ? & ? & Ht). exists t. by rewrite <- Hin.
    - intros t Ht. apply Hwg. by apply Hin.
    - intros c t Ht. destruct (Hsel _ _ Ht) as [H|[(a & Ha & Hat & Hac)|H]]; [by left| |by right; right].
      right. left. exists a. split_and!; [done..|]. by eapply lookup_weaken.
    - intros c id Hc. destruct (Hhold _ _ Hc) as [t Ht]. exists t. by eapply lookup_weaken.
    - intros id t Ht. apply Honly in Ht as [Ht|Ht]; [|by right; right].
      destruct (Hact _ _ Ht) as [?|[?|H]]; [by left|by right; left|by apply not_elem_of_nil in H].
    - rewrite Forall_fmap. exact Hnew.
    - rewrite app_assoc in Hnd. rewrite (Permutation_app_comm (all_waiting q')). done. }
  split; [by apply deliver_all_GInv|]. erewrite deliver_all_queue by exact Hg1.
  unfold saturated. simpl. by rewrite Hconf.
Qed.

(** ** Steps *)

Lemma recv_GInv c g ts : ts !! c = None -> GInv g ts [] [] -> GInv (recv c g) ts [] [].
Proof.
  intros Hc [Hq Hb Hwr Hwg Hsel Hhold Hact Hpend Huniq Hids].
  assert (Hch : forall c', is_Some (ts !! c') -> delete c (chans g) !! c' = chans g !! c').
  { intros c' [p Hp]. rewrite lookup_delete_ne; [done|]. congruence. }
  constructor; simpl; try done.
  - intros id c' Hw. destruct (Hwr _ _ Hw) as (t & ? & ? & ? & ?). exists t. rewrite Hch by eauto. done.
  - intros c' t Ht. rewrite Hch by eauto. by apply Hsel.
  - intros id t Ht. destruct (Hact _ _ Ht) as [?|[(c' & a & ? & ?)|?]]; [by left| |by right; right].
    right. left. exists c', a. rewrite Hch by eauto. done.
Qed.

(** A thread leaves, taking its ticket out of the queue. *)
Lemma leave_GInv c p id q' g ts :
  GInv g ts [] [] -> ts !! c = Some p -> phase_id p = id ->
  Inv q' -> active q' = delete id (active (gqueue g)) ->
  (forall t, t ∈ all_waiting q' <-> t ∈ all_waiting (gqueue g) /\ ID t <> id) ->
  GInv (mkGate q' (delete id (waiters g)) (chans g) (blocked g)) (delete c ts) [] [].
Proof.
  intros [Hq Hb Hwr Hwg Hsel Hhold Hact Hpend Huniq Hids] Hc Hid Hi' Hact' Hw'.
  setoid_rewrite app_nil_r in Hwr. setoid_rewrite app_nil_r in Hwg.
  assert (Hother : forall c' p', c <> c' -> ts !! c' = Some p' -> phase_id p' <> id).
  { intros c' p' Hne Hc' Heq. apply Hne. eapply (Huniq c c'); [done..|congruence]. }
  constructor; simpl; try done; rewrite ?app_nil_r.
  - intros id' c' [Hne Hw]%lookup_delete_Some. destruct (Hwr _ _ Hw) as (t & Ht & Hidt & Hch & Hm).
    exists t. rewrite Hw', lookup_delete_ne by (intros <-; simplify_eq; congruence).
    split_and!; try done. congruence.
  - intros t [Ht Hne]%Hw'. destruct (Hwg _ Ht) as (c' & Hc' & Htc'). exists c'.
    rewrite !lookup_delete_ne; [done| |done]. intros <-. by simplify_eq.
  - intros c' t [Hne Ht]%lookup_delete_Some. pose proof (Hother _ _ Hne Ht) as Hidt. simpl in Hidt.
    destruct (Hsel _ _ Ht) as [H|[(a & Ha & Hat & Hac)|H]]; [left|right; left|by right; right].
    + by rewrite lookup_delete_ne.
    + exists a. by rewrite Hact', lookup_delete_ne.
  - intros c' id' [Hne Ht]%lookup_delete_Some. rewrite Hact', lookup_delete_ne; [eauto|].
    by apply not_eq_sym, (Hother _ _ Hne Ht).
  - intros id' t Ht. rewrite Hact' in Ht. apply lookup_delete_Some in Ht as [Hne Ht].
    assert (Hidt : ID t = id') by (eapply ao_key; [apply (inv_active _ Hq)|done]).
    destruct (Hact _ _ Ht) as [[c' Hc']|[(c' & a & Hc' & Ha)|H]]; [left|right; left|by apply not_elem_of_nil in H].
    + exists c'. rewrite lookup_delete_ne; [done|]. intros <-. by simplify_eq.
    + exists c', a. rewrite lookup_delete_ne; [done|]. intros <-. by simplify_eq.
  - intros c1 c2 p1 p2 [_ H1]%lookup_delete_Some [_ H2]%lookup_delete_Some. by apply Huniq.
  - by apply all_waiting_NoDup.
Qed.

(** [Cancel] takes the ID out of the queue in all its branches. *)
Lemma Cancel_removes now id q :
  Inv q -> let q' := snd (Cancel now id q) in
  Inv q' /\ active q' = delete id (active q) /\ config q' = config q /\
  (forall t, t ∈ all_waiting q' <-> t ∈ all_waiting q /\ ID t <> id).
Proof.
  intros Hi q'. destruct (Cancel now id q) as [c q''] eqn:Hc. subst q'. simpl.
  split; [by eapply Cancel_Inv|]. apply Cancel_spec in Hc; [|done].
  assert (Hkeep : waitingTicket q !! id = None ->
            forall t, t ∈ all_waiting q <-> t ∈ all_waiting q /\ ID t <> id).
  { intros Hn t. split; [|by intros [? _]]. intros Ht. split; [done|]. intros Heq.
    apply elem_of_waitingTicket in Ht; [|done]. congruence. }
  destruct c as [[t at_ [|]]|]; simpl in Hc.
  - destruct Hc as [Ha ->]. split_and!; [done..|]. apply Hkeep. apply Hi. eauto.
  - destruct Hc as [Ha [Hi' Hid Hperm Hf Hr Hidx Hact Hconf]].
    rewrite Hact, delete_id by done. split_and!; [done..|].
    pose proof (all_waiting_NoDup _ Hi) as Hnd. rewrite Hperm in Hnd. rewrite fmap_cons in Hnd.
    apply NoDup_cons in Hnd as [Hnin _]. intros t'. rewrite Hperm, elem_of_cons. split.
    + intros Ht'. split; [by right|]. intros Heq. apply Hnin. rewrite Hid, <- Heq. by apply list_elem_of_fmap_2.
    + intros [[->|?] ?]; [done|done].
  - destruct Hc as (-> & Ha & Hw). rewrite delete_id by done. split_and!; [done..|]. by apply Hkeep.
Qed.

Lemma acquire_GInv now now' c r t g g' ts :
  GInv g ts [] [] -> ts !! c = None ->
  (forall c' p, ts !! c' = Some p -> phase_id p <> ID t) ->
  Acquire_begin now now' c r g = Ok (t, g') ->
  GInv g' (<[c := Selecting t]> ts) [] [] /\ saturated (gqueue g').
Proof.
  intros Hg Hc Hfresh. unfold Acquire_begin.
  destruct (Enqueue now r (gqueue g)) as [[t0 q']|] eqn:He; [|done]. intros [= -> <-].
  pose proof (gi_queue _ _ _ _ Hg) as Hi. apply Enqueue_spec in He; [|done].
  destruct He as [Hi' _ _ [Hnw Hna] _ Hperm _ Hact Hconf].
  apply dispatchLocked_GInv. destruct Hg as [_ Hb Hwr Hwg Hsel Hhold Hactive _ Huniq _].
  setoid_rewrite app_nil_r in Hwr. setoid_rewrite app_nil_r in Hwg.
  assert (Hwc : forall id c', waiters g !! id = Some c' -> c' <> c /\ id <> ID t).
  { intros id c' Hw. destruct (Hwr _ _ Hw) as (t' & Ht' & <- & _).
    split; [congruence|]. by apply (Hfresh c' (Selecting t')). }
  constructor; simpl; try done; rewrite ?app_nil_r.
  - intros id c'. rewrite lookup_insert. destruct (decide (ID t = id)) as [<-|Hne].
    + intros [= <-]. exists t. rewrite !lookup_insert_eq, Hperm. split_and!; try done. left.
    + intros Hw. destruct (Hwr _ _ Hw) as (t' & ? & ? & ? & ?). exists t'.
      destruct (Hwc _ _ Hw). rewrite !lookup_insert_ne, Hperm by done. split_and!; try done. by right.
  - intros t'. rewrite Hperm, elem_of_cons. intros [->|Ht'].
    + exists c. by rewrite !lookup_insert_eq.
    + destruct (Hwg _ Ht') as (c' & Hw & Htc'). destruct (Hwc _ _ Hw). exists c'.
      by rewrite !lookup_insert_ne.
  - intros c' t'. rewrite lookup_insert. destruct (decide (c = c')) as [<-|Hne].
    + intros [= <-]. left. by rewrite lookup_insert_eq.
    + intros Ht'. rewrite (lookup_insert_ne (chans g)) by done. rewrite Hact.
      destruct (Hsel _ _ Ht') as [Hw|H]; [left|by right].
      destruct (Hwc _ _ Hw). by rewrite lookup_insert_ne.
  - intros c' id. rewrite lookup_insert, Hact. case_decide; [done|]. apply Hhold.
  - intros id t' Ht'. rewrite Hact in Ht'.
    destruct (Hactive _ _ Ht') as [[c' H]|[(c' & a & H & Ha)|H]]; [left|right; left|by apply not_elem_of_nil in H].
    + exists c'. rewrite lookup_insert_ne; congruence.
    + exists c', a. rewrite !lookup_insert_ne; [done|congruence..].
  - intros c1 c2 p1 p2 [[-> <-]|[? H1]]%lookup_insert_Some [[-> <-]|[? H2]]%lookup_insert_Some Heq;
      [done| | |by eapply Huniq].
    + by destruct (Hfresh c2 p2).
    + by destruct (Hfresh c1 p1).
  - by apply all_waiting_NoDup.
Qed.

Lemma admitted_GInv c t a g ts :
  GInv g ts [] [] -> ts !! c = Some (Selecting t) -> chans g !! c = Some [Delivered a] ->
  GInv (recv c g) (<[c := Holding (ID t)]> ts) [] [].
Proof.
  intros [Hq Hb Hwr Hwg Hsel Hhold Hact Hpend Huniq Hids] Hc Hch.
  assert (Hactive : active (gqueue g) !! ID t = Some t).
  { destruct (Hsel _ _ Hc) as [Hw|[(a' & _ & _ & ?)|?]]; [|done|congruence].
    destruct (Hwr _ _ Hw) as (? & ? & ? & ? & _). congruence. }
  assert (Hnw : forall id c', waiters g !! id = Some c' -> c <> c').
  { intros id c' Hw <-. destruct (Hwr _ _ Hw) as (? & ? & ? & ? & _). congruence. }
  constructor; simpl; try done.
  - intros id c' Hw. pose proof (Hnw _ _ Hw). destruct (Hwr _ _ Hw) as (t' & ? & ? & ? & ?).
    exists t'. by rewrite lookup_insert_ne, lookup_delete_ne.
  - intros t' Ht'. destruct (Hwg _ Ht') as (c' & Hw & ?). pose proof (Hnw _ _ Hw).
    exists c'. by rewrite lookup_insert_ne.
  - intros c' t'. rewrite lookup_insert. case_decide as Hne; [done|]. intros Ht'.
    rewrite lookup_delete_ne by done. by apply Hsel.
  - intros c' id. rewrite lookup_insert. case_decide; [intros [= <-]; eauto|]. apply Hhold.
  - intros id t' Ht'. destruct (Hact _ _ Ht') as [[c' H]|[(c' & a' & H & Ha)|H]]; [left|..|by right; right].
    + exists c'. rewrite lookup_insert_ne; [done|]. intros <-. congruence.
    + destruct (decide (c = c')) as [<-|Hne].
      * left. exists c. rewrite lookup_insert_eq. simplify_eq.
        do 3 f_equal. eapply ao_key; [apply (inv_active _ Hq)|done].
      * right. left. exists c', a'. by rewrite lookup_insert_ne, lookup_delete_ne.
  - intros c1 c2 p1 p2 [[-> <-]|[? H1]]%lookup_insert_Some [[-> <-]|[? H2]]%lookup_insert_Some Heq;
      [done| | |by eapply Huniq].
    + by apply (Huniq _ _ (Selecting t) p2).
    + by apply (Huniq _ _ p1 (Selecting t)).
Qed.

Lemma timed_out_GInv c t g ts :
  GInv g ts [] [] -> ts !! c = Some (Selecting t) -> chans g !! c = Some [QueueTimeoutErr] ->
  GInv g (delete c ts) [] [].
Proof.
  intros Hg Hc Hch. pose proof Hg as [Hq Hb Hwr Hwg Hsel Hhold Hact Hpend Huniq Hids].
  setoid_rewrite app_nil_r in Hwg.
  assert (Hna : active (gqueue g) !! ID t = None).
  { destruct (active (gqueue g) !! ID t) as [t'|] eqn:Ha; [|done].
    assert (ID t' = ID t) as Hid by (eapply ao_key; [apply (inv_active _ Hq)|done]).
    destruct (Hact _ _ Ha) as [[c' H]|[(c' & a & H & ?)|H]]; [| |by apply not_elem_of_nil in H].
    - assert (c = c') by (by eapply Huniq). simplify_eq.
    - assert (c = c') as <- by (by eapply Huniq). congruence. }
  assert (Hnw : forall t', t' ∈ all_waiting (gqueue g) -> ID t' <> ID t).
  { intros t' Ht' Hid. destruct (Hwg _ Ht') as (c' & Hw & Hc').
    assert (c = c') as <- by (by eapply Huniq).
    destruct (Hwr _ _ Hw) as (? & ? & ? & ? & _). congruence. }
  assert (Hdel : delete (ID t) (waiters g) = waiters g).
  { apply delete_id. destruct (waiters g !! ID t) as [c'|] eqn:Hw; [|done].
    destruct (Hwr _ _ Hw) as (t' & Ht' & Hid & _ & Hm). rewrite app_nil_r in Hm. by destruct (Hnw t'). }
  pose proof (leave_GInv c (Selecting t) (ID t) (gqueue g) g ts Hg Hc eq_refl Hq) as Hleave.
  rewrite Hdel in Hleave. destruct g as [gq gw gc gb]. apply Hleave; simpl in *; [by rewrite delete_id|naive_solver].
Qed.

(** Every disciplined step keeps the invariant, and keeps the queue
    saturated. *)
Lemma gate_step_GInv s s' :
  GInv (gate s) (threads s) [] [] -> saturated (gqueue (gate s)) ->
  gate_step s s' -> disciplined s s' ->
  GInv (gate s') (threads s') [] [] /\ saturated (gqueue (gate s')).
Proof.
  intros Hg Hsat Hstep Hdis. destruct Hstep as
    [now now' c r t g g' ts Hc _ Hacq|c t a g ts Hc Hch|c t g ts Hc Hch|now now' c t g ts Hc|now c id g ts Hc|now g ts];
    simpl in *.
  - eapply acquire_GInv; [done..| |done]. intros c' p Hp.
    eapply (Hdis c (Selecting t) Hc); [apply lookup_insert_eq|exact Hp].
  - split; [by eapply admitted_GInv|done].
  - split; [|done]. apply recv_GInv; [by rewrite lookup_delete_eq|]. by eapply timed_out_GInv.
  - destruct (Cancel_removes now (ID t) (gqueue g)) as (Hi' & Ha' & _ & Hw'); [apply Hg|].
    unfold gcancel.
    pose proof (leave_GInv c (Selecting t) (ID t) _ g ts Hg Hc eq_refl Hi' Ha' Hw') as Hl.
    apply (dispatchLocked_GInv now') in Hl as [Hl Hsat']. split; [|done].
    apply recv_GInv; [by rewrite lookup_delete_eq|done].
  - pose proof (gi_queue _ _ _ _ Hg) as Hi. destruct (gi_holding _ _ _ _ Hg _ _ Hc) as [t Ht].
    unfold grelease, set_queue, Release. rewrite Ht. simpl. fold (deactivate id t (gqueue g)).
    assert (Hnw : forall t', t' ∈ all_waiting (gqueue g) -> ID t' <> id).
    { intros t' Ht' <-. apply all_waiting_not_active in Ht'; [congruence|done]. }
    pose proof (leave_GInv c (Holding id) id (deactivate id t (gqueue g)) g ts Hg Hc eq_refl) as Hl.
    rewrite (delete_id (waiters g) id) in Hl.
    2:{ destruct (waiters g !! id) as [c'|] eqn:Hw; [|done].
        destruct (gi_waiter _ _ _ _ Hg _ _ Hw) as (t' & _ & Hid & _ & Hm).
        rewrite !app_nil_r in Hm. by destruct (Hnw t'). }
    apply dispatchLocked_GInv, Hl; [by apply deactivate_Inv|done|].
    change (all_waiting (deactivate id t (gqueue g))) with (all_waiting (gqueue g)). naive_solver.
  - by apply dispatchLocked_GInv.
Qed.

Lemma greachable_GInv c s :
  greachable c s -> GInv (gate s) (threads s) [] [] /\ saturated (gqueue (gate s)).
Proof.
  induction 1 as [g Hnew|s s' _ [IH Hsat] Hstep Hdis]; [|by eapply gate_step_GInv].
  unfold NewGate in Hnew. destruct (NewQueue c true) as [q|] eqn:Hq; [|done]. injection Hnew as <-.
  apply NewQueue_Inv in Hq as (Hi & Habs & Ha & _).
  assert (Hw : all_waiting q = []) by (by rewrite all_waiting_abs, Habs).
  split; simpl.
  - constructor; simpl; rewrite ?Hw, ?Ha; simpl; try done.
    all: try (intros *; rewrite lookup_empty; done).
    + intros t Ht. by apply not_elem_of_nil in Ht.
    + apply NoDup_nil_2.
  - right. by apply (Inv_order_nil _ Hi), abs_nil.
Qed.
