(* ===== verification/AdmissionProps.v ===== *)
(** * What the admission queue and gate guarantee

    The theorems about [src/internal/admission]: the bookkeeping invariant of
    every reachable queue, fair service as a refinement of a ring of users,
    the partition made by a dispatch, cancellation, the expiry wake-up, the
    safety and progress of the concurrent gate, and the limit of the queue's
    fairness. *)

From stdpp Require Import pretty.
From S2P Require Import Prelude Admission AdmissionInv AdmissionGate.

Local Open Scope Z_scope.

(** ** Reachable queues *)

(** One call of an exported method; a refused [Enqueue] changes nothing. *)
Inductive queue_op :=
| OpEnqueue (now : Z) (r : Request)
| OpDispatch (now : Z)
| OpCancel (now : Z) (id : string)
| OpRelease (id : string).

Definition run_op (q : Queue) (op : queue_op) : Queue :=
  match op with
  | OpEnqueue now r => match Enqueue now r q with Ok (_, q') => q' | Err _ => q end
  | OpDispatch now => snd (Dispatch_op now q)
  | OpCancel now id => snd (Cancel now id q)
  | OpRelease id => snd (Release id q)
  end.

Definition run_ops (q : Queue) (ops : list queue_op) : Queue := foldl run_op q ops.

Lemma run_op_Inv q op : Inv q -> Inv (run_op q op) /\ config (run_op q op) = config q.
Proof.
  intros Hi. destruct op as [now r|now|now id|id]; simpl.
  - destruct (Enqueue now r q) as [[t q']|] eqn:H; [|done].
    apply Enqueue_spec in H; [|done]. split; apply H.
  - destruct (Dispatch_op now q) as [d q'] eqn:H. apply Dispatch_spec in H; [|done]. split; apply H.
  - pose proof (Cancel_removes now id q Hi) as Hr. split; apply Hr.
  - destruct (Release id q) as [b q'] eqn:H. split; [by eapply Release_Inv|].
    apply Release_spec in H; [|done]. by destruct (active q !! id), H as [_ ->].
Qed.

Lemma run_ops_Inv q ops : Inv q -> Inv (run_ops q ops) /\ config (run_ops q ops) = config q.
Proof.
  revert q. induction ops as [|op ops IH]; intros q Hi; simpl; [done|].
  destruct (run_op_Inv q op Hi) as [Hi' <-]. by apply IH.
Qed.

Lemma length_all_waiting q : Inv q -> Z.of_nat (length (all_waiting q)) = waitingCount q.
Proof.
  intros Hi. rewrite (inv_count _ Hi), <- size_dom. f_equal.
  assert (dom (waitingTicket q) = list_to_set (C := gset string) (ID <$> all_waiting q)) as ->.
  { apply set_eq. intros id. rewrite elem_of_dom, elem_of_list_to_set, list_elem_of_fmap. split.
    - intros [u Hu]. destruct (wo_indexed _ _ (inv_wait _ Hi) _ _ Hu) as (l & t & Hl & Ht & <-).
      exists t. split; [done|]. apply elem_of_all_waiting; eauto.
    - intros (t & -> & Ht). apply elem_of_waitingTicket in Ht; eauto. }
  rewrite size_list_to_set by (by apply all_waiting_NoDup). by rewrite length_fmap.
Qed.

(** In every queue reached by any sequence of [Enqueue], [Dispatch],
    [Cancel] and [Release], [Snapshot] reports exact numbers (the waiting
    tickets, per user and in total, and the active tickets, per user and in
    total), both stay within the configured bounds, and no ticket ID is
    waiting twice or waiting and active at once. *)
Theorem queue_invariant c q0 ops :
  NewQueue c true = Ok q0 ->
  let q := run_ops q0 ops in
  let s := Snapshot_op q in
  Waiting s = Z.of_nat (length (all_waiting q)) /\ Waiting s <= MaxQueued c /\
  Active s = Z.of_nat (size (active q)) /\ Active s <= MaxActive c /\
  (forall u, default 0 (WaitingByUser s !! u) = Z.of_nat (length (waitingOf q u))) /\
  (forall u, default 0 (ActiveByUser s !! u) = active_count (active q) u) /\
  NoDup (ID <$> all_waiting q) /\
  (forall t, t ∈ all_waiting q -> active q !! ID t = None).
Proof.
  intros (Hi0 & _ & _ & <-)%NewQueue_Inv q. destruct (run_ops_Inv q0 ops Hi0) as [Hi Hc].
  fold q in Hi, Hc. rewrite <- Hc. simpl. rewrite length_all_waiting by done.
  split_and!; try done; try apply Hi.
  - intros u. unfold waitingOf. rewrite lookup_fmap. by destruct (waiting q !! u).
  - intros u. by apply ActiveOk_default, Hi.
  - by apply all_waiting_NoDup.
  - intros t. by apply all_waiting_not_active.
Qed.

Definition demo_config : Config := mkConfig 4 1 1000.
Definition demo_empty : Queue := mkQueue demo_config ∅ ∅ [] 0 0 ∅ ∅.
Definition demo_ops : list queue_op :=
  [OpEnqueue 10 (mkRequest "t1" "alice" 0); OpEnqueue 11 (mkRequest "t2" "alice" 0);
   OpEnqueue 12 (mkRequest "t3" "bob" 5); OpDispatch 13].

Lemma queue_invariant_witness :
  Waiting (Snapshot_op (run_ops demo_empty demo_ops)) = 2 /\
  Waiting (Snapshot_op (run_ops demo_empty demo_ops)) <= 4.
Proof.
  split; [vm_compute; reflexivity|].
  refine (proj1 (proj2 (queue_invariant demo_config demo_empty demo_ops _))).
  vm_compute. reflexivity.
Defined.

(** ** Fair service *)

(** C6.  [takeNextLocked] refines the ring of users: it serves the oldest
    ticket of the user at the head of the ring and sends that user to the
    back while it still has tickets; it finds nothing exactly when no ticket
    waits, and it leaves the active tickets alone. *)
Theorem takeNext_refines_ring q :
  Inv q ->
  match takeNextLocked q with
  | Some (t, q') => ring_take (abs q) = Some (t, abs q') /\ Inv q' /\ active q' = active q
  | None => abs q = [] /\ waitingCount q = 0
  end.
Proof.
  intros Hi. pose proof (takeNext_spec q Hi) as Ht. destruct (takeNextLocked q) as [[t q']|].
  - naive_solver.
  - split; [done|]. by apply (Inv_order_nil _ Hi), abs_nil.
Qed.

Lemma demo_Inv ops : Inv (run_ops demo_empty ops).
Proof.
  apply run_ops_Inv. eapply (NewQueue_Inv demo_config true). vm_compute. reflexivity.
Qed.

Definition demo_waiting : Queue := run_ops demo_empty (take 3 demo_ops).

Lemma takeNext_refines_ring_witness :
  match takeNextLocked demo_waiting with
  | Some (t, q') => ID t = "t1" /\ ring_take (abs demo_waiting) = Some (t, abs q')
  | None => False
  end.
Proof.
  pose proof (takeNext_refines_ring demo_waiting (demo_Inv _)) as H.
  destruct (takeNextLocked demo_waiting) as [[t q']|] eqn:E.
  - split; [|exact (proj1 H)]. vm_compute in E. injection E as <- _. reflexivity.
  - vm_compute in E. discriminate E.
Defined.

(** A [Dispatch] splits the waiting tickets into the expired ones
    (exactly those whose deadline has passed), the admitted ones and the ones
    still waiting, losing and duplicating none; the admitted tickets become
    active and no other does; and it is work conserving: afterwards every slot
    is taken or nothing waits. *)
Theorem Dispatch_partitions now q :
  Inv q ->
  let '(d, q') := Dispatch_op now q in
  all_waiting q ≡ₚ (ExpTicket <$> Expired d) ++ (AdmTicket <$> Admitted_ d) ++ all_waiting q' /\
  (forall t, t ∈ ExpTicket <$> Expired d <-> t ∈ all_waiting q /\ Deadline t <= now) /\
  (forall id t, active q' !! id = Some t <->
     active q !! id = Some t \/ t ∈ AdmTicket <$> Admitted_ d /\ ID t = id) /\
  (Z.of_nat (size (active q')) = MaxActive (config q) \/ waitingCount q' = 0) /\ Inv q'.
Proof.
  intros Hi. destruct (Dispatch_op now q) as [d q'] eqn:Hd.
  apply Dispatch_spec in Hd; [|done]. pose proof Hd as [Hi' Hexp Hpart _ Hnew Hold Honly _ Hfull _].
  split_and!; try done.
  - intros t. rewrite Hexp. unfold elapsed, Before. destruct (Z.ltb_spec now (Deadline t)); simpl.
    + split; [naive_solver|intros [_ ?]; lia].
    + naive_solver.
  - intros id t. split.
    + intros Ht. assert (Hid : ID t = id) by (eapply ao_key; [apply (inv_active _ Hi')|done]).
      apply Honly in Ht as [?|?]; [by left|by right].
    + intros [Ht|[Ht <-]]; [by eapply lookup_weaken|].
      apply list_elem_of_fmap in Ht as (a & -> & Ha). rewrite Forall_forall in Hnew. by apply Hnew.
Qed.

Lemma Dispatch_partitions_witness :
  AdmTicket <$> Admitted_ (fst (Dispatch_op 100 demo_waiting)) = [mkTicket "t1" "alice" 10 1010] /\
  ExpTicket <$> Expired (fst (Dispatch_op 100 demo_waiting)) = [mkTicket "t3" "bob" 12 17] /\
  (forall t, t ∈ ExpTicket <$> Expired (fst (Dispatch_op 100 demo_waiting)) <->
             t ∈ all_waiting demo_waiting /\ Deadline t <= 100).
Proof.
  split; [vm_compute; reflexivity|]. split; [vm_compute; reflexivity|].
  pose proof (Dispatch_partitions 100 demo_waiting (demo_Inv _)) as H.
  destruct (Dispatch_op 100 demo_waiting) as [d q']. exact (proj1 (proj2 H)).
Defined.

(** The ring after some tickets are dropped: each user keeps its other
    tickets, and leaves when it has none. *)
Lemma ring_keep_abs keep (us : list string) (g g' : string -> list Ticket) :
  (forall u, g' u = filter (λ t, keep t = true) (g u)) ->
  (λ u, (u, g' u)) <$> filter (λ u, g' u <> []) us = ring_keep keep ((λ u, (u, g u)) <$> us).
Proof.
  intros Hg. unfold ring_keep. induction us as [|u us IH]; [done|].
  rewrite filter_cons. case_decide as Hu; csimpl; rewrite <- IH, <- Hg;
    destruct (g' u) eqn:Hu'; naive_solver.
Qed.

Lemma ring_keep_id keep q :
  Inv q -> (forall t, t ∈ all_waiting q -> keep t = true) -> ring_keep keep (abs q) = abs q.
Proof.
  intros Hi Hk. unfold abs. rewrite <- (ring_keep_abs keep _ (waitingOf q) (waitingOf q)).
  - f_equal. apply filter_all. intros u Hu%elem_of_ring.
    apply (oo_users _ _ _ (inv_order _ Hi)) in Hu as [l Hl].
    rewrite (waitingOf_Some _ _ _ Hl). by apply (wo_nonempty _ _ (inv_wait _ Hi) u).
  - intros u. symmetry. apply filter_all. intros t Ht. apply Hk.
    apply elem_of_all_waiting; [done|]. unfold waitingOf in Ht.
    destruct (waiting q !! u) eqn:Hu; [eauto|by apply not_elem_of_nil in Ht].
Qed.

Lemma Cancel_absent now id q :
  active q !! id = None -> waitingTicket q !! id = None -> Cancel now id q = (None, q).
Proof. intros Ha Hw. unfold Cancel. by rewrite Ha, Hw. Qed.

Lemma Cancel_abs now id q :
  Inv q -> abs (snd (Cancel now id q)) = ring_keep (λ t, negb (bool_decide (ID t = id))) (abs q).
Proof.
  intros Hi. destruct (Cancel now id q) as [c q'] eqn:Hc. simpl. apply Cancel_spec in Hc; [|done].
  assert (Hnone : waitingTicket q !! id = None ->
    ring_keep (λ t, negb (bool_decide (ID t = id))) (abs q) = abs q).
  { intros Hn. apply ring_keep_id; [done|]. intros t Ht. apply elem_of_waitingTicket in Ht; [|done].
    rewrite bool_decide_false; [done|congruence]. }
  destruct c as [[t at_ [|]]|]; simpl in Hc.
  - destruct Hc as [Ha ->]. rewrite Hnone; [done|]. apply Hi. eauto.
  - destruct Hc as [_ Hp]. unfold abs. rewrite (cp_ring _ _ _ _ Hp). apply ring_keep_abs.
    intros u. rewrite (cp_fifo _ _ _ _ Hp). apply filter_ext_in. intros t' _.
    rewrite negb_true_iff, bool_decide_eq_false. done.
  - destruct Hc as (-> & _ & Hn). by rewrite Hnone.
Qed.

(**  [Cancel] takes exactly the ticket with the given ID out of the queue,
    waiting or active; the other users keep their service order and the other
    tickets their place, and a second [Cancel] of the same ID finds nothing
    and changes nothing. *)
Theorem Cancel_exact now now' id q :
  Inv q ->
  let '(c, q') := Cancel now id q in
  abs q' = ring_keep (λ t, negb (bool_decide (ID t = id))) (abs q) /\
  active q' = delete id (active q) /\
  (is_Some c <-> is_Some (active q !! id) \/ exists t, t ∈ all_waiting q /\ ID t = id) /\
  Cancel now' id q' = (None, q') /\ Inv q'.
Proof.
  intros Hi. pose proof (Cancel_abs now id q Hi) as Habs.
  pose proof (Cancel_removes now id q Hi) as (Hi' & Hact & _ & Hw).
  destruct (Cancel now id q) as [c q'] eqn:Hc. simpl in *. split_and!; [done..| | |done].
  - apply Cancel_spec in Hc; [|done]. destruct c as [[t at_ [|]]|]; simpl in Hc.
    + destruct Hc as [Ha _]. split; [left|]; eauto.
    + destruct Hc as [_ Hp]. split; [intros _; right; exists t|done].
      rewrite (cp_perm _ _ _ _ Hp). split; [left|exact (cp_id _ _ _ _ Hp)].
    + destruct Hc as (_ & Ha & Hn). split; [by intros []|]. intros [[? ?]|(t & Ht & Hid)]; [congruence|].
      apply elem_of_waitingTicket in Ht; [|done]. congruence.
  - apply Cancel_absent; [by rewrite Hact, lookup_delete_eq|].
    destruct (waitingTicket q' !! id) as [u|] eqn:Hu; [|done].
    destruct (wo_indexed _ _ (inv_wait _ Hi') _ _ Hu) as (l & t & Hl & Ht & Hid).
    assert (t ∈ all_waiting q') as []%Hw by (apply elem_of_all_waiting; eauto). done.
Qed.

Lemma Cancel_exact_witness :
  abs (snd (Cancel 20 "t2" demo_waiting)) =
    [("alice", [mkTicket "t1" "alice" 10 1010]); ("bob", [mkTicket "t3" "bob" 12 17])] /\
  Cancel 21 "t2" (snd (Cancel 20 "t2" demo_waiting)) = (None, snd (Cancel 20 "t2" demo_waiting)).
Proof.
  split; [vm_compute; reflexivity|].
  pose proof (Cancel_exact 20 21 "t2" demo_waiting (demo_Inv _)) as H.
  destruct (Cancel 20 "t2" demo_waiting) as [c q']. exact (proj1 (proj2 (proj2 (proj2 H)))).
Defined.

(** ** The gate *)

Lemma Release_config id q : config (snd (Release id q)) = config q.
Proof. unfold Release. by destruct (active q !! id). Qed.

Lemma deliver_admitted_config a g :
  config (gqueue (deliver_admitted a g)) = config (gqueue g).
Proof.
  unfold deliver_admitted, deliverLocked. destruct (waiters g !! _); [done|]. apply Release_config.
Qed.

Lemma dispatchLocked_config now g :
  Inv (gqueue g) -> config (gqueue (dispatchLocked now g)) = config (gqueue g).
Proof.
  intros Hi. unfold dispatchLocked. destruct (Dispatch_op now (gqueue g)) as [d q'] eqn:Hd.
  apply Dispatch_spec in Hd; [|done]. rewrite <- (dp_config _ _ _ _ Hd).
  transitivity (config (gqueue (foldl (λ g e, deliver_expired e g) (set_queue q' g) (Expired d)))).
  - generalize (foldl (λ g e, deliver_expired e g) (set_queue q' g) (Expired d)).
    induction (Admitted_ d) as [|a l IH]; intros g1; simpl; [done|].
    by rewrite IH, deliver_admitted_config.
  - change (config q') with (config (gqueue (set_queue q' g))). generalize (set_queue q' g).
    induction (Expired d) as [|e l IH]; intros g1; simpl; [done|].
    by rewrite IH, deliver_expired_queue.
Qed.

Lemma gate_step_config s s' :
  Inv (gqueue (gate s)) -> gate_step s s' -> config (gqueue (gate s')) = config (gqueue (gate s)).
Proof.
  intros Hi Hstep. destruct Hstep as
    [now now' c r t g g' ts Hc _ Hacq|c t a g ts Hc Hch|c t g ts Hc Hch|now now' c t g ts Hc|now c id g ts Hc|now g ts];
    simpl in *; try done.
  - unfold Acquire_begin in Hacq. destruct (Enqueue now r (gqueue g)) as [[t' q']|] eqn:He; [|done].
    simplify_eq. apply Enqueue_spec in He; [|done]. rewrite dispatchLocked_config by apply He. apply He.
  - destruct (Cancel_removes now (ID t) (gqueue g) Hi) as (Hi' & _ & <- & _).
    by apply dispatchLocked_config.
  - rewrite <- (Release_config id (gqueue g)). apply dispatchLocked_config. simpl.
    destruct (Release id (gqueue g)) eqn:Hr. by eapply Release_Inv.
  - by apply dispatchLocked_config.
Qed.

Lemma greachable_config c s : greachable c s -> config (gqueue (gate s)) = c.
Proof.
  induction 1 as [g Hnew|s s' Hr IH Hstep _].
  - unfold NewGate in Hnew. destruct (NewQueue c true) as [q|] eqn:Hq; [|done]. simplify_eq/=.
    by apply NewQueue_Inv in Hq as (_ & _ & _ & ->).
  - rewrite <- IH. apply gate_step_config; [|done]. apply (greachable_GInv _ _ Hr).
Qed.

(** The calls that hold a permit. *)
Definition is_holding (p : Phase) : bool := match p with Holding _ => true | Selecting _ => false end.
Definition holders (s : System) : gmap nat Phase := filter (λ e, is_holding e.2 = true) (threads s).

Lemma holders_le_active g ts :
  GInv g ts [] [] -> (size (holders (mkSystem g ts)) <= size (active (gqueue g)))%nat.
Proof.
  intros Hg. rewrite <- !size_dom.
  set (h := holders (mkSystem g ts)).
  transitivity (size (list_to_set (C := gset string) ((λ e : nat * Phase, phase_id e.2) <$> map_to_list h))).
  - rewrite size_list_to_set.
    + rewrite length_fmap, length_map_to_list. by rewrite size_dom.
    + apply NoDup_fmap_2_strong; [|apply NoDup_map_to_list].
      intros [c p] [c' p'] Hc%elem_of_map_to_list Hc'%elem_of_map_to_list Heq. simpl in Heq.
      apply map_lookup_filter_Some in Hc as [Hc _], Hc' as [Hc' _].
      assert (c = c') as <- by (by eapply (gi_unique _ _ _ _ Hg)). simpl in *. congruence.
  - apply subseteq_size. intros id. rewrite elem_of_list_to_set, list_elem_of_fmap, elem_of_dom.
    intros ([c p] & -> & Hc%elem_of_map_to_list). apply map_lookup_filter_Some in Hc as [Hc Hp].
    destruct p; [done|]. by eapply (gi_holding _ _ _ _ Hg).
Qed.


Definition demo_gate : System := mkSystem (mkGate demo_empty ∅ ∅ false) ∅.
Definition demo_acquired : System :=
  match Acquire_begin 10 11 0 (mkRequest "t1" "alice" 0) (gate demo_gate) with
  | Ok (t, g) => mkSystem g {[0%nat := Selecting t]}
  | Err _ => demo_gate
  end.

Lemma demo_acquired_reachable : greachable demo_config demo_acquired.
Proof.
  eapply greach_step; [apply greach_init; vm_compute; reflexivity| |].
  - unfold demo_acquired, demo_gate. simpl. eapply (step_acquire 10 11 0 (mkRequest "t1" "alice" 0)).
    + reflexivity.
    + reflexivity.
    + vm_compute. reflexivity.
  - intros c p _ _ c' p' Hc'. simpl in Hc'. rewrite lookup_empty in Hc'. discriminate Hc'.
Qed.


(** ** The expiry wake-up *)

Lemma earlier_fold (l : list Ticket) (acc : Z) :
  acc <> 0 -> (forall t, t ∈ l -> Deadline t <> 0) ->
  let d := foldl earlier acc l in
  d <> 0 /\ d <= acc /\ (d = acc \/ exists t, t ∈ l /\ Deadline t = d) /\
  forall t, t ∈ l -> d <= Deadline t.
Proof.
  revert acc. induction l as [|t l IH]; intros acc Hacc Hl; simpl.
  { split_and!; [done|lia|by left|]. intros t Ht. by apply not_elem_of_nil in Ht. }
  assert (Ht : Deadline t <> 0) by (apply Hl; left).
  assert (Hearlier : earlier acc t = acc /\ acc <= Deadline t \/
                     earlier acc t = Deadline t /\ Deadline t <= acc).
  { unfold earlier, IsZero, Before. destruct (Z.eqb_spec acc 0); [done|].
    destruct (Z.ltb_spec (Deadline t) acc); simpl; lia. }
  destruct (IH (earlier acc t)) as (Hd & Hle & Hmem & Hmin);
    [destruct Hearlier as [[-> _]|[-> _]]; done|intros t' Ht'; apply Hl; by right|].
  set (d := foldl earlier (earlier acc t) l) in *. split_and!; [done|lia| |].
  - destruct Hmem as [Hd'|(t' & ? & ?)]; [|right; exists t'; set_solver].
    destruct Hearlier as [[He _]|[He _]]; [left; congruence|].
    right. exists t. split; [left|congruence].
  - intros t' [->|Ht']%elem_of_cons; [lia|auto].
Qed.

Lemma foldl_nested (acc : Z) (m : list (string * list Ticket)) :
  foldl (λ acc (e : string * list Ticket), foldl earlier acc (snd e)) acc m =
    foldl earlier acc (m ≫= snd).
Proof.
  revert acc. induction m as [|e m IH]; intros acc; csimpl; [done|].
  by rewrite foldl_app, IH.
Qed.

(** [NextDeadline] is the earliest deadline of a waiting ticket, whatever
    the order in which the map is walked, and reports none exactly when
    nothing waits (deadlines are never Go's zero time). *)
Theorem NextDeadline_earliest q d ok :
  Inv q -> (forall t, t ∈ all_waiting q -> Deadline t <> 0) ->
  NextDeadline q = (d, ok) ->
  (ok = true <-> all_waiting q <> []) /\
  (ok = true -> (exists t, t ∈ all_waiting q /\ Deadline t = d) /\
                forall t, t ∈ all_waiting q -> d <= Deadline t).
Proof.
  intros Hi Hnz [= <- <-]. rewrite foldl_nested.
  assert (Hin : forall t, t ∈ map_to_list (waiting q) ≫= snd <-> t ∈ all_waiting q).
  { intros t. rewrite list_elem_of_bind, elem_of_all_waiting by done. split.
    - intros ([u l] & Ht & Hu%elem_of_map_to_list). eauto.
    - intros (u & l & Hu & Ht). exists (u, l). by rewrite elem_of_map_to_list. }
  destruct (map_to_list (waiting q) ≫= snd) as [|t0 l] eqn:Hl; simpl.
  - assert (all_waiting q = []) as ->; [|done].
    destruct (all_waiting q) as [|t l] eqn:Hw; [done|]. exfalso.
    apply (not_elem_of_nil t). apply Hin. left.
  - change (earlier 0 t0) with (Deadline t0).
    assert (Ht0 : t0 ∈ all_waiting q) by (apply Hin; left).
    destruct (earlier_fold l (Deadline t0)) as (Hd & Hle & Hmem & Hmin).
    { by apply Hnz. } { intros t Ht. apply Hnz, Hin. by right. }
    assert (IsZero (foldl earlier (Deadline t0) l) = false) as -> by (by apply IsZero_false).
    split; [split; [|done]; intros _ Heq; rewrite Heq in Ht0; by apply not_elem_of_nil in Ht0|].
    intros _. split.
    + destruct Hmem as [Heq|(t & Ht & <-)]; [eauto|]. exists t. split; [|done]. apply Hin. by right.
    + intros t Ht%Hin. apply elem_of_cons in Ht as [->|Ht]; [done|auto].
Qed.

Lemma demo_deadlines : forall t, t ∈ all_waiting demo_waiting -> Deadline t <> 0.
Proof.
  assert (Forall (λ t, Deadline t <> 0) (all_waiting demo_waiting)) as H.
  { assert (all_waiting demo_waiting =
      [mkTicket "t1" "alice" 10 1010; mkTicket "t2" "alice" 11 1011; mkTicket "t3" "bob" 12 17])
      as -> by (vm_compute; reflexivity).
    repeat constructor; simpl; lia. }
  by rewrite Forall_forall in H.
Qed.

Lemma NextDeadline_earliest_witness :
  NextDeadline demo_waiting = (17, true) /\
  (forall t, t ∈ all_waiting demo_waiting -> 17 <= Deadline t).
Proof.
  assert (E : NextDeadline demo_waiting = (17, true)) by (vm_compute; reflexivity).
  split; [exact E|].
  exact (proj2 (proj2 (NextDeadline_earliest demo_waiting 17 true (demo_Inv _) demo_deadlines E) eq_refl)).
Defined.

(** ** The limit of the rotation *)

Lemma expire_user_none now l st :
  Forall (λ t, elapsed now t = false) l -> expire_user now l st = (l, st).
Proof.
  induction 1 as [|t l Ht _ IH]; [done|]. destruct st as [[wt count] expired]; simpl.
  by rewrite Ht, IH.
Qed.

Lemma expire_users_none now users w order inner :
  (forall u, u ∈ users -> exists t l, w !! u = Some (t :: l) /\
                               Forall (λ t, elapsed now t = false) (t :: l)) ->
  expire_users now users (w, order, inner) = (w, order ++ users, inner).
Proof.
  revert order. induction users as [|u users IH]; intros order Hu; simpl.
  - by rewrite app_nil_r.
  - destruct (Hu u) as (t & l & Hl & Hlive); [left|]. rewrite Hl. simpl default.
    rewrite expire_user_none by done. rewrite insert_id by done.
    rewrite IH by (intros v Hv; apply Hu; by right). by rewrite <- app_assoc.
Qed.

(** With no elapsed ticket, expiry leaves the queue as it is. *)
Lemma expireLocked_none now q :
  Inv q -> (forall t, t ∈ all_waiting q -> elapsed now t = false) -> expireLocked now q = ([], q).
Proof.
  intros Hi Hlive. unfold expireLocked. destruct (Z.eqb_spec (waitingCount q) 0) as [|Hne]; [done|].
  rewrite expire_users_none.
  2:{ intros u Hu. apply (oo_users _ _ _ (inv_order _ Hi)) in Hu as [l Hl].
      pose proof (wo_nonempty _ _ (inv_wait _ Hi) _ _ Hl). destruct l as [|t l]; [done|].
      exists t, l. split; [done|]. apply Forall_forall. intros t' Ht'. apply Hlive.
      apply elem_of_all_waiting; eauto. }
  simpl. f_equal. destruct q as [cf w wt order cur count act abu]; simpl in *. f_equal.
  pose proof (inv_order _ Hi) as Ho. simpl in Ho. clear Hi Hlive.
  destruct Ho as [Hnd _ [Hlt|[-> ->]]]; [|done].
  destruct (lookup_lt_is_Some_2 order cur Hlt) as [a Ha].
  destruct (list_elem_of_split_length _ _ _ Ha) as (o1 & o2 & -> & ->).
  assert (match o1 ++ a :: o2 with [] => "" | _ => default "" ((o1 ++ a :: o2) !! (length o1 mod length (o1 ++ a :: o2))%nat) end = a) as ->.
  { rewrite Nat.mod_small by (rewrite length_app; simpl; lia). rewrite Ha. by destruct o1. }
  apply NoDup_app in Hnd as (_ & Hdis & _). rewrite index_of_middle; [lia|].
  intros Hin. apply (Hdis a Hin). left.
Qed.

(** One round of the schedule: the holder [z] leaves just after a user never
    seen before joins, and the queue is dispatched. *)
Definition late_ticket (x : string) : Ticket := mkTicket x x 10 1010.

Definition round (z x : string) : list queue_op :=
  [OpEnqueue 10 (mkRequest x x 0); OpRelease z; OpDispatch 10].

(** Alice's second ticket waits at the start of the order, the cursor is past
    her, [y] is next and [z] holds the only slot. *)
Record Passed (y z : string) (q : Queue) : Prop := {
  pa_inv : Inv q;
  pa_config : config q = demo_config;
  pa_order : userOrder q = ["alice"; y];
  pa_cursor : cursor q = 1%nat;
  pa_alice : waitingOf q "alice" = [mkTicket "a2" "alice" 10 1010];
  pa_next : waitingOf q y = [late_ticket y];
  pa_count : waitingCount q = 2;
  pa_active : exists t, active q = {[z := t]};
}.

Lemma all_waiting_order q t :
  Inv q -> t ∈ all_waiting q -> exists u, u ∈ userOrder q /\ t ∈ waitingOf q u.
Proof.
  intros _ (u & Ht & Hu%elem_of_ring)%list_elem_of_bind. eauto.
Qed.

(** The dispatch of one round: with the slot free, the cursor on [y] and [x]
    behind it, [y] is admitted and [x] comes next. *)
Lemma round_dispatch y x q :
  Inv q -> config q = demo_config -> y <> x -> x <> "alice" -> y <> "alice" ->
  userOrder q = ["alice"; y; x] -> cursor q = 1%nat -> waitingCount q = 3 -> active q = ∅ ->
  waitingOf q "alice" = [mkTicket "a2" "alice" 10 1010] ->
  waitingOf q y = [late_ticket y] -> waitingOf q x = [late_ticket x] ->
  Passed x y (snd (Dispatch_op 10 q)) /\ active (snd (Dispatch_op 10 q)) = {[y := late_ticket y]}.
Proof.
  intros Hi Hcf Hyx Hxa Hya Ho Hcur Hcount Hact Ha Hy Hx.
  assert (Hexp : expireLocked 10 q = ([], q)).
  { apply expireLocked_none; [done|]. intros t (u & Hu & Ht)%all_waiting_order; [|done].
    rewrite Ho in Hu. rewrite !elem_of_cons, elem_of_nil in Hu.
    destruct Hu as [Hu|[Hu|[Hu|[]]]]; subst u; rewrite ?Ha, ?Hy, ?Hx in Ht; apply list_elem_of_singleton in Ht as ->; reflexivity. }
  destruct (Dispatch_op 10 q) as [d q'] eqn:Hd. pose proof (Dispatch_spec _ _ _ _ Hi Hd) as Hpost.
  unfold Dispatch_op in Hd. rewrite Hexp, Hcount in Hd.
  change (S (Z.to_nat 3)) with 4%nat in Hd. simpl admit_loop in Hd.
  rewrite Hact, Hcf in Hd. rewrite map_size_empty in Hd. simpl in Hd.
  unfold takeNextLocked in Hd. rewrite Ho, Hcount in Hd. simpl in Hd.
  rewrite Ho, Hcur in Hd. simpl in Hd. rewrite Hy in Hd. simpl in Hd.
  rewrite Hact, Hcf, insert_empty, map_size_singleton in Hd. simpl in Hd. injection Hd as <- <-.
  simpl. split; [|done]. constructor; simpl; try done.
  - apply Hpost.
  - unfold waitingOf. simpl. by rewrite lookup_delete_ne.
  - unfold waitingOf. simpl. by rewrite lookup_delete_ne.
  - by rewrite Hcount.
  - eauto.
Qed.

Lemma Enqueue_late x q :
  config q = demo_config -> x <> "" -> waitingTicket q !! x = None -> active q !! x = None ->
  waitingOf q x = [] -> waitingCount q < 4 ->
  exists q1, Enqueue 10 (mkRequest x x 0) q = Ok (late_ticket x, q1) /\
    userOrder q1 = userOrder q ++ [x] /\ cursor q1 = cursor q /\ waitingCount q1 = waitingCount q + 1.
Proof.
  intros Hcf Hx Hwt Ha Hw Hcount. unfold Enqueue. simpl. rewrite Hwt, Ha, Hw, Hcf.
  rewrite (bool_decide_false (x = "")), (bool_decide_false (is_Some None)) by (done || by intros []).
  simpl. destruct (Z.leb_spec 4 (waitingCount q)); [lia|]. eexists. split; [reflexivity|]. done.
Qed.

Lemma round_Passed y z x q :
  Passed y z q -> x <> "alice" -> x <> "a2" -> x <> "" -> y <> "alice" -> x <> y -> x <> z ->
  Passed x y (run_ops q (round z x)) /\ active (run_ops q (round z x)) = {[y := late_ticket y]}.
Proof.
  intros [Hi Hcf Ho Hcur Ha Hy Hcount [tz Hact]] Hxa Hx2 Hxe Hya Hxy Hxz.
  assert (Hwx : waitingOf q x = []).
  { unfold waitingOf. destruct (waiting q !! x) eqn:Hw; [|done].
    assert (x ∈ userOrder q) as Hin by (apply Hi; eauto). rewrite Ho in Hin. set_solver. }
  assert (Hwt : waitingTicket q !! x = None).
  { destruct (waitingTicket q !! x) as [u|] eqn:Hw; [|done].
    destruct (wo_indexed _ _ (inv_wait _ Hi) _ _ Hw) as (l & t & Hl & Ht & Hid).
    assert (u ∈ userOrder q) as Hin by (apply Hi; eauto). rewrite Ho in Hin.
    rewrite <- (waitingOf_Some _ _ _ Hl) in Ht. rewrite !elem_of_cons, elem_of_nil in Hin.
    destruct Hin as [Hu|[Hu|[]]]; subst u; rewrite ?Ha, ?Hy in Ht; apply list_elem_of_singleton in Ht as ->;
      simpl in Hid; congruence. }
  assert (Hax : active q !! x = None) by (by rewrite Hact, lookup_singleton_ne).
  destruct (Enqueue_late x q) as (q1 & He & Ho1 & Hcur1 & Hcount1); try done; [by rewrite Hcount|].
  pose proof (Enqueue_spec _ _ _ _ _ Hi He) as Hpost. unfold run_ops, round. simpl foldl. rewrite He.
  assert (Hact1 : active q1 = {[z := tz]}) by (by rewrite (np_active _ _ _ _ _ Hpost)).
  unfold Release. rewrite Hact1, lookup_singleton_eq. simpl snd.
  assert (Hi2 : Inv (deactivate z tz q1)).
  { apply deactivate_Inv; [apply Hpost|by rewrite Hact1, lookup_singleton_eq]. }
  unfold deactivate in Hi2. rewrite Hact1 in Hi2.
  assert (Hw : forall u, waitingOf q1 u = if decide (u = x) then waitingOf q u ++ [late_ticket x] else waitingOf q u)
    by apply Hpost.
  apply round_dispatch; try done; simpl.
  - by rewrite (np_config _ _ _ _ _ Hpost).
  - by rewrite Ho1, Ho.
  - by rewrite Hcur1.
  - by rewrite Hcount1, Hcount.
  - by rewrite delete_singleton_eq.
  - fold (waitingOf q1 "alice"). unfold waitingOf at 1. simpl. fold (waitingOf q1 "alice").
    by rewrite Hw, decide_False.
  - unfold waitingOf at 1. simpl. fold (waitingOf q1 y). by rewrite Hw, decide_False.
  - unfold waitingOf at 1. simpl. fold (waitingOf q1 x). by rewrite Hw, decide_True, Hwx.
Qed.

(** The [n]-th newcomer, and the holder it waits for. *)
Definition newcomer (n : nat) : string := "y" +:+ pretty n.
Definition slot_holder (n : nat) : string :=
  match n with O => "a1" | S m => newcomer m end.

Fixpoint overtaking (n : nat) : list queue_op :=
  match n with
  | O => [OpEnqueue 10 (mkRequest "a1" "alice" 0); OpEnqueue 10 (mkRequest "a2" "alice" 0);
          OpEnqueue 10 (mkRequest (newcomer 0) (newcomer 0) 0); OpDispatch 10]
  | S m => overtaking m ++ round (slot_holder m) (newcomer (S m))
  end.

Lemma newcomer_inj n m : newcomer n = newcomer m -> n = m.
Proof. unfold newcomer. intros [= H]. by apply (inj (pretty (A := nat))). Qed.

Lemma newcomer_not_holder n : newcomer (S n) <> slot_holder n.
Proof. destruct n; simpl; [done|]. intros ?%newcomer_inj. lia. Qed.

Lemma overtaking_Passed n :
  Passed (newcomer n) (slot_holder n) (run_ops demo_empty (overtaking n)).
Proof.
  induction n as [|n IH].
  - split; try (vm_compute; reflexivity).
    + apply demo_Inv.
    + exists (mkTicket "a1" "alice" 10 1010). vm_compute. reflexivity.
  - simpl overtaking. unfold run_ops in *. rewrite foldl_app. apply round_Passed; try done; [|apply newcomer_not_holder].
    intros ?%newcomer_inj. lia.
Qed.

(** The rotation does not bound how often a waiting user is passed over.
    There is a schedule in which Alice's second ticket waits while any number
    [n + 1] of users who joined after it, one ticket each, are admitted one
    after the other: newcomers are appended behind the cursor's last position
    and so are served before the cursor wraps around to her. *)
Theorem newcomers_overtake n :
  let q := run_ops demo_empty (overtaking (S n)) in
  waitingOf q "alice" = [mkTicket "a2" "alice" 10 1010] /\
  active q = {[newcomer n := late_ticket (newcomer n)]} /\
  Forall (λ op, match op with OpDispatch now => now < 1010 | _ => True end) (overtaking (S n)).
Proof.
  split; [apply (overtaking_Passed (S n))|]. split.
  - simpl overtaking. unfold run_ops. rewrite foldl_app.
    apply round_Passed; try done; [apply overtaking_Passed| |apply newcomer_not_holder].
    intros ?%newcomer_inj. lia.
  - induction (S n) as [|m IH]; simpl; [|apply Forall_app; split; [done|]]; repeat constructor; lia.
Qed.
