(* ===== verification/Routing.v ===== *)
(** * Routing: the choice of one upstream candidate

    Models [src/internal/routing]: the validation of the input
    ([eligibility.go]), the hard eligibility rules, and the priority and
    weight choice of [router.go].

    [r.random.Intn] is called at most once in a [Select]; the source of
    randomness is the argument [intn].  Identifiers are byte strings, compared
    bytewise as Go compares strings.  A missing map or slice entry reads as
    the zero value. *)

From S2P Require Import Prelude.

Local Open Scope Z_scope.

(** ** types.go *)

Record Candidate := mkCandidate {
  ID : string;
  ModelID : string;
  ResourcePoolID : string;
  ModelPublished : bool;
  CredentialAuthorized : bool;
  CredentialActive : bool;
  Capabilities : list string;
  CooldownUntil : Z;
  Priority : Z;
  Weight : Z;
}.

Definition zeroCandidate : Candidate := mkCandidate "" "" "" false false false [] 0 0 0.

Record Requirements := mkRequirements {
  ReqModelID : string;
  ReqResourcePoolID : string;
  ReqCapabilities : list string;
  ExcludedCandidates : list string;
  At : Z;
}.

Inductive ExclusionReason :=
| ExcludeModelNotPublished
| ExcludeModelMismatch
| ExcludeResourcePoolMismatch
| ExcludeMissingCapability
| ExcludeCredentialUnauthorized
| ExcludeCredentialInactive
| ExcludeCredentialCooling
| ExcludeAttempt.

#[export] Instance ExclusionReason_eq_dec : EqDecision ExclusionReason.
Proof. solve_decision. Defined.

Record Exclusion := mkExclusion {
  Reason : ExclusionReason;
  ExCapability : string;
  AvailableAt : Z;
}.

Record Evaluation := mkEvaluation {
  CandidateID : string;
  EvEligible : bool;
  Exclusions : list Exclusion;
}.

Inductive SelectionMode := SelectionNone | SelectionPriorityWeighted.

Record Decision := mkDecision {
  SelectedCandidateID : string;
  Mode : SelectionMode;
  Eligible : list string;
  Evaluations : list Evaluation;
  NextAvailableAt : Z;
}.

Inductive ErrorKind := ErrorInvalidInput | ErrorInvalidCandidate | ErrorDuplicate | ErrorRandomSource.

Record Error := mkError {
  Kind : ErrorKind;
  Message : string;
  ErrCandidateID : string;
}.

Definition newError (kind : ErrorKind) (message candidateID : string) : Error :=
  mkError kind message candidateID.

(** ** eligibility.go *)

(** [if b { reasons = append(reasons, e) }] *)
Definition exclude_if (b : bool) (e : Exclusion) : list Exclusion := if b then [e] else [].

Definition evaluateEligibility (requirements : Requirements) (candidate : Candidate)
    (excluded : gset string) : list Exclusion :=
  exclude_if (negb (ModelPublished candidate)) (mkExclusion ExcludeModelNotPublished "" 0) ++
  exclude_if (negb (bool_decide (ModelID candidate = ReqModelID requirements)))
    (mkExclusion ExcludeModelMismatch "" 0) ++
  exclude_if (negb (bool_decide (ResourcePoolID candidate = ReqResourcePoolID requirements)))
    (mkExclusion ExcludeResourcePoolMismatch "" 0) ++
  exclude_if (negb (CredentialAuthorized candidate))
    (mkExclusion ExcludeCredentialUnauthorized "" 0) ++
  exclude_if (negb (CredentialActive candidate)) (mkExclusion ExcludeCredentialInactive "" 0) ++
  exclude_if (negb (IsZero (CooldownUntil candidate)) &&
              Before (At requirements) (CooldownUntil candidate))
    (mkExclusion ExcludeCredentialCooling "" (CooldownUntil candidate)) ++
  exclude_if (bool_decide (ID candidate ∈ excluded)) (mkExclusion ExcludeAttempt "" 0) ++
  (ReqCapabilities requirements ≫= λ capability,
     exclude_if (negb (bool_decide (capability ∈ list_to_set (C := gset string) (Capabilities candidate))))
       (mkExclusion ExcludeMissingCapability capability 0)).

(** The loop both validators run over a list of capabilities. *)
Fixpoint checkCapabilities (empty duplicate : Error) (seen : gset string) (capabilities : list string) :
    option Error :=
  match capabilities with
  | [] => None
  | capability :: capabilities' =>
      if bool_decide (capability = "") then Some empty
      else if bool_decide (capability ∈ seen) then Some duplicate
      else checkCapabilities empty duplicate ({[capability]} ∪ seen) capabilities'
  end.

Definition validateRequirements (requirements : Requirements) : option Error :=
  if (bool_decide (ReqModelID requirements = "") ||
      bool_decide (ReqResourcePoolID requirements = "") || IsZero (At requirements))%bool then
    Some (newError ErrorInvalidInput "model, resource pool, and decision time are required" "")
  else
    checkCapabilities
      (newError ErrorInvalidInput "required capability cannot be empty" "")
      (newError ErrorInvalidInput "required capabilities must be unique" "")
      ∅ (ReqCapabilities requirements).

Definition validateCandidate (candidate : Candidate) : option Error :=
  if (bool_decide (ID candidate = "") || bool_decide (ModelID candidate = "") ||
      bool_decide (ResourcePoolID candidate = ""))%bool then
    Some (newError ErrorInvalidCandidate "candidate ID, model, and resource pool are required" (ID candidate))
  else if ((Priority candidate <? 0) || (1000 <? Priority candidate) ||
           (Weight candidate <? 0) || (1000 <? Weight candidate))%bool then
    Some (newError ErrorInvalidCandidate
            "candidate priority and weight are outside supported bounds" (ID candidate))
  else
    checkCapabilities
      (newError ErrorInvalidCandidate "candidate capability cannot be empty" (ID candidate))
      (newError ErrorInvalidCandidate "candidate capabilities must be unique" (ID candidate))
      ∅ (Capabilities candidate).

(** ** router.go *)

Fixpoint candidateByID (id : string) (candidates : list Candidate) : Candidate :=
  match candidates with
  | [] => zeroCandidate
  | candidate :: candidates' =>
      if bool_decide (ID candidate = id) then candidate else candidateByID id candidates'
  end.

Definition effectivePriority (priority : Z) : Z := if priority =? 0 then 100 else priority.
Definition effectiveWeight (weight : Z) : Z := if weight =? 0 then 1 else weight.

Definition candidatePriority (eligible : list string) (candidates : list Candidate) : Z :=
  foldl (λ lowest candidateID,
           let priority := effectivePriority (Priority (candidateByID candidateID candidates)) in
           if priority <? lowest then priority else lowest) 1001 eligible.

(** The check of [ExcludedCandidates] that fills the set [excluded]. *)
Fixpoint collectExcluded (ids : list string) (excluded : gset string) : result Error (gset string) :=
  match ids with
  | [] => Ok excluded
  | candidateID :: ids' =>
      if bool_decide (candidateID = "") then
        Err (newError ErrorInvalidInput "excluded candidate ID cannot be empty" "")
      else collectExcluded ids' ({[candidateID]} ∪ excluded)
  end.

(** One turn of the evaluation loop once the candidate is accepted. *)
Definition record_evaluation (candidate : Candidate) (reasons : list Exclusion) (d : Decision) : Decision :=
  mkDecision (SelectedCandidateID d) (Mode d)
    (match reasons with [] => Eligible d ++ [ID candidate] | _ => Eligible d end)
    (Evaluations d ++ [mkEvaluation (ID candidate) (bool_decide (reasons = [])) reasons])
    (match reasons with
     | [reason] =>
         if (bool_decide (Reason reason = ExcludeCredentialCooling) &&
             (IsZero (NextAvailableAt d) || Before (AvailableAt reason) (NextAvailableAt d)))%bool
         then AvailableAt reason else NextAvailableAt d
     | _ => NextAvailableAt d
     end).

Fixpoint evaluate_all (requirements : Requirements) (excluded seen : gset string)
    (candidates : list Candidate) (d : Decision) : result Error Decision :=
  match candidates with
  | [] => Ok d
  | candidate :: candidates' =>
      match validateCandidate candidate with
      | Some e => Err e
      | None =>
          if bool_decide (ID candidate ∈ seen) then
            Err (newError ErrorDuplicate "candidate IDs must be unique" (ID candidate))
          else
            evaluate_all requirements excluded ({[ID candidate]} ∪ seen) candidates'
              (record_evaluation candidate (evaluateEligibility requirements candidate excluded) d)
      end
  end.

(** The loop that collects the candidates of the best priority and adds up
    their weights.  A weight is at most 1000, so the sum stays far below the
    bound of [int]. *)
Definition weigh (priority : Z) (candidates : list Candidate) (eligible : list string) :
    list string * Z :=
  foldl (λ '(weighted, totalWeight) candidateID,
           let candidate := candidateByID candidateID candidates in
           if bool_decide (effectivePriority (Priority candidate) <> priority) then (weighted, totalWeight)
           else (weighted ++ [candidateID], totalWeight + effectiveWeight (Weight candidate)))
    ([], 0) eligible.

Fixpoint pick (selected : Z) (candidates : list Candidate) (weighted : list string) : string :=
  match weighted with
  | [] => ""
  | candidateID :: weighted' =>
      let selected' := selected - effectiveWeight (Weight (candidateByID candidateID candidates)) in
      if selected' <? 0 then candidateID else pick selected' candidates weighted'
  end.

Definition NewRouter (random_present : bool) : option Error :=
  if negb random_present then
    Some (newError ErrorRandomSource "candidate rotation requires a random source" "")
  else None.

Definition Select (intn : Z -> Z) (requirements : Requirements) (candidates : list Candidate) :
    result Error Decision :=
  match validateRequirements requirements with
  | Some e => Err e
  | None =>
      let? excluded := collectExcluded (ExcludedCandidates requirements) ∅ in
      let? d := evaluate_all requirements excluded ∅ candidates
                  (mkDecision "" SelectionNone [] [] 0) in
      match Eligible d with
      | [] => Ok d
      | _ =>
          let eligible := merge_sort String.le (Eligible d) in
          let priority := candidatePriority eligible candidates in
          let '(weighted, totalWeight) := weigh priority candidates eligible in
          let selected := intn totalWeight in
          if ((selected <? 0) || (totalWeight <=? selected))%bool then
            Err (newError ErrorRandomSource
                   "random source returned a value outside its requested range" "")
          else
            Ok (mkDecision (pick selected candidates weighted) SelectionPriorityWeighted eligible
                  (Evaluations d) (NextAvailableAt d))
      end
  end.
