(* ===== verification/RoutingProps.v ===== *)
(** * What the router guarantees

    The theorems about [src/internal/routing]: when a candidate is eligible,
    that the chosen one is eligible and of the best priority, that the choice
    has exactly the weighted distribution of the random source, that it does
    not depend on the order of the candidates, the earliest recovery time it
    reports, and its errors. *)

From S2P Require Import Prelude Routing.

Local Open Scope Z_scope.

(** ** Eligibility *)

Definition excludedSet (req : Requirements) : gset string := list_to_set (ExcludedCandidates req).

Definition eligible (req : Requirements) (c : Candidate) : bool :=
  bool_decide (evaluateEligibility req c (excludedSet req) = []).

Lemma exclude_if_nil b e : exclude_if b e = [] <-> b = false.
Proof. by destruct b. Qed.

Lemma bind_nil {A B} (f : A -> list B) l : l ≫= f = [] <-> forall x, x ∈ l -> f x = [].
Proof.
  induction l as [|x l IH]; csimpl.
  - split; [|done]. intros _ x Hx. by apply not_elem_of_nil in Hx.
  - rewrite app_nil, IH. split.
    + intros [H1 H2] y [->|Hy]%elem_of_cons; auto.
    + intros H. split; [apply H; left|]. intros y Hy. apply H. by right.
Qed.

(** The hard eligibility rules, read off the specification. *)
Record Allowed (req : Requirements) (c : Candidate) : Prop := {
  al_published : ModelPublished c = true;
  al_model : ModelID c = ReqModelID req;
  al_pool : ResourcePoolID c = ReqResourcePoolID req;
  al_authorized : CredentialAuthorized c = true;
  al_active : CredentialActive c = true;
  al_cool : CooldownUntil c = 0 \/ CooldownUntil c <= At req;
  al_attempt : ID c ∉ ExcludedCandidates req;
  al_capabilities : ReqCapabilities req ⊆ Capabilities c;
}.

Lemma eligible_Allowed req c : eligible req c = true <-> Allowed req c.
Proof.
  unfold eligible. rewrite bool_decide_eq_true. unfold evaluateEligibility.
  rewrite !app_nil, !exclude_if_nil, bind_nil. setoid_rewrite exclude_if_nil.
  rewrite !negb_false_iff, !bool_decide_eq_true, bool_decide_eq_false, andb_false_iff, negb_false_iff.
  rewrite IsZero_true. unfold Before. rewrite Z.ltb_ge. unfold excludedSet. rewrite elem_of_list_to_set.
  setoid_rewrite negb_false_iff. setoid_rewrite bool_decide_eq_true. setoid_rewrite elem_of_list_to_set.
  split.
  - intros (? & ? & ? & ? & ? & ? & ? & Hcap). by split.
  - intros [? ? ? ? ? ? ? Hcap]. split_and!; done.
Qed.

(** ** Valid input *)

Record Valid (req : Requirements) (cands : list Candidate) : Prop := {
  va_requirements : validateRequirements req = None;
  va_excluded : "" ∉ ExcludedCandidates req;
  va_candidates : Forall (λ c, validateCandidate c = None) cands;
  va_unique : NoDup (ID <$> cands);
}.

Lemma collectExcluded_spec ids s :
  collectExcluded ids s =
    if bool_decide ("" ∈ ids) then
      Err (newError ErrorInvalidInput "excluded candidate ID cannot be empty" "")
    else Ok (list_to_set ids ∪ s).
Proof.
  revert s. induction ids as [|id ids IH]; intros s; cbn [collectExcluded].
  - rewrite bool_decide_false by (intros H; by apply not_elem_of_nil in H). f_equal. set_solver.
  - destruct (decide (id = "")) as [->|Hid].
    { rewrite (bool_decide_true ("" ∈ _)) by left. done. }
    rewrite (bool_decide_false (id = "")) by done. rewrite IH.
    rewrite (bool_decide_ext ("" ∈ id :: ids) ("" ∈ ids)).
    2:{ rewrite elem_of_cons. naive_solver. }
    case_bool_decide; [done|]. f_equal. set_solver.
Qed.

Definition evaluate_step (req : Requirements) (d : Decision) (c : Candidate) : Decision :=
  record_evaluation c (evaluateEligibility req c (excludedSet req)) d.

(** The evaluation loop succeeds exactly on valid, unseen, distinct
    candidates, and then folds its body over them. *)
Lemma evaluate_all_spec req seen cands d :
  match evaluate_all req (excludedSet req) seen cands d with
  | Ok d' => d' = foldl (evaluate_step req) d cands /\
      Forall (λ c, validateCandidate c = None /\ ID c ∉ seen) cands /\ NoDup (ID <$> cands)
  | Err _ => ~ (Forall (λ c, validateCandidate c = None /\ ID c ∉ seen) cands /\ NoDup (ID <$> cands))
  end.
Proof.
  revert seen d. induction cands as [|c cands IH]; intros seen d; simpl.
  { split_and!; [done|by constructor|apply NoDup_nil_2]. }
  destruct (validateCandidate c) eqn:Hv; [rewrite Forall_cons; naive_solver|].
  case_bool_decide as Hseen; [rewrite Forall_cons; naive_solver|].
  specialize (IH ({[ID c]} ∪ seen) (evaluate_step req d c)).
  assert (Heq : Forall (λ c', validateCandidate c' = None /\ ID c' ∉ {[ID c]} ∪ seen) cands <->
     Forall (λ c', validateCandidate c' = None /\ ID c' ∉ seen) cands /\ ID c ∉ ID <$> cands).
  { rewrite !Forall_forall, list_elem_of_fmap. set_unfold. naive_solver. }
  fold (evaluate_step req d c).
  destruct (evaluate_all req (excludedSet req) ({[ID c]} ∪ seen) cands (evaluate_step req d c));
    rewrite Heq in IH; rewrite Forall_cons, NoDup_cons; naive_solver.
Qed.

(** What the evaluation loop accumulates. *)
Lemma evaluate_fold_eligible req cands d :
  Eligible (foldl (evaluate_step req) d cands) =
    Eligible d ++ (ID <$> filter (λ c, eligible req c = true) cands).
Proof.
  revert d. induction cands as [|c cands IH]; intros d; simpl; [by rewrite app_nil_r|].
  rewrite IH. unfold evaluate_step, record_evaluation, eligible. simpl.
  rewrite filter_cons. case_decide as Hc; rewrite bool_decide_eq_true in Hc.
  - rewrite Hc. csimpl. by rewrite <- app_assoc.
  - by destruct (evaluateEligibility _ _ _).
Qed.

Definition evaluation (req : Requirements) (c : Candidate) : Evaluation :=
  mkEvaluation (ID c) (eligible req c) (evaluateEligibility req c (excludedSet req)).

Lemma evaluate_fold_evaluations req cands d :
  Evaluations (foldl (evaluate_step req) d cands) = Evaluations d ++ (evaluation req <$> cands).
Proof.
  revert d. induction cands as [|c cands IH]; intros d; simpl; [by rewrite app_nil_r|].
  rewrite IH. simpl. by rewrite <- app_assoc.
Qed.

(** ** Lookup, priority and weight *)

Lemma candidateByID_in cands c :
  NoDup (ID <$> cands) -> c ∈ cands -> candidateByID (ID c) cands = c.
Proof.
  induction cands as [|c' cands IH]; simpl; intros Hnd Hc; [by apply not_elem_of_nil in Hc|].
  apply NoDup_cons in Hnd as [Hnin Hnd]. apply elem_of_cons in Hc as [->|Hc].
  - by rewrite bool_decide_true.
  - rewrite bool_decide_false; [by apply IH|]. intros Heq. apply Hnin. rewrite Heq.
    by apply list_elem_of_fmap_2.
Qed.

Lemma effectiveWeight_bounds c :
  validateCandidate c = None -> 1 <= effectiveWeight (Weight c) <= 1000.
Proof.
  unfold validateCandidate. intros H. split_matches. to_prop. unfold effectiveWeight.
  destruct (Z.eqb_spec (Weight c) 0); lia.
Qed.

Lemma effectivePriority_bounds c :
  validateCandidate c = None -> 1 <= effectivePriority (Priority c) <= 1000.
Proof.
  unfold validateCandidate. intros H. split_matches. to_prop. unfold effectivePriority.
  destruct (Z.eqb_spec (Priority c) 0); lia.
Qed.

Lemma validateCandidate_ID c : validateCandidate c = None -> ID c <> "".
Proof. unfold validateCandidate. intros H. split_matches. by to_prop. Qed.

Definition prio (cands : list Candidate) (id : string) : Z :=
  effectivePriority (Priority (candidateByID id cands)).
Definition weight (cands : list Candidate) (id : string) : Z :=
  effectiveWeight (Weight (candidateByID id cands)).

Lemma candidatePriority_fold cands ids acc :
  let p := foldl (λ lowest id, if prio cands id <? lowest then prio cands id else lowest) acc ids in
  p <= acc /\ (p = acc \/ exists id, id ∈ ids /\ prio cands id = p) /\
  forall id, id ∈ ids -> p <= prio cands id.
Proof.
  revert acc. induction ids as [|id ids IH]; intros acc; simpl.
  { split_and!; [lia|by left|]. intros id Hid. by apply not_elem_of_nil in Hid. }
  set (acc' := if prio cands id <? acc then prio cands id else acc).
  assert (Hacc : acc' <= acc /\ acc' <= prio cands id /\ (acc' = acc \/ acc' = prio cands id)).
  { subst acc'. destruct (Z.ltb_spec (prio cands id) acc); lia. }
  destruct (IH acc') as (Hle & Hmem & Hmin). split_and!; [lia| |].
  - destruct Hmem as [Hm|(id' & ? & ?)]; [|right; exists id'; split; [by right|done]].
    rewrite Hm. destruct Hacc as (_ & _ & [->| ->]); [by left|]. right. exists id. split; [left|done].
  - intros id' [->|Hid']%elem_of_cons; [lia|auto].
Qed.

Lemma candidatePriority_min cands ids :
  ids <> [] -> (forall id, id ∈ ids -> prio cands id <= 1000) ->
  let p := candidatePriority ids cands in
  (exists id, id ∈ ids /\ prio cands id = p) /\ forall id, id ∈ ids -> p <= prio cands id.
Proof.
  intros Hne Hb p. destruct (candidatePriority_fold cands ids 1001) as (_ & Hmem & Hmin).
  fold (candidatePriority ids cands) in *. split; [|exact Hmin].
  destruct Hmem as [Heq|?]; [|done]. exfalso. destruct ids as [|id ids]; [done|].
  specialize (Hmin id (list_elem_of_here _ _)). specialize (Hb id (list_elem_of_here _ _)).
  change (candidatePriority (id :: ids) cands = 1001) in Heq.
  change (candidatePriority (id :: ids) cands <= prio cands id) in Hmin. lia.
Qed.

Definition total_weight (cands : list Candidate) (ids : list string) : Z :=
  foldr (λ id acc, weight cands id + acc) 0 ids.

Lemma weigh_eq p cands ids :
  weigh p cands ids =
    (filter (λ id, prio cands id = p) ids, total_weight cands (filter (λ id, prio cands id = p) ids)).
Proof.
  unfold weigh.
  assert (Hgen : forall acc n, foldl (λ '(weighted, totalWeight) candidateID,
     let candidate := candidateByID candidateID cands in
     if bool_decide (effectivePriority (Priority candidate) <> p) then (weighted, totalWeight)
     else (weighted ++ [candidateID], totalWeight + effectiveWeight (Weight candidate))) (acc, n) ids =
    (acc ++ filter (λ id, prio cands id = p) ids,
     n + total_weight cands (filter (λ id, prio cands id = p) ids))); [|apply (Hgen [] 0)].
  induction ids as [|id ids IH]; intros acc n; simpl; [by rewrite app_nil_r, Z.add_0_r|].
  fold (prio cands id) (weight cands id). rewrite filter_cons. case_decide as Hp.
  - rewrite bool_decide_false by naive_solver. rewrite IH, <- app_assoc. simpl. f_equal. lia.
  - rewrite bool_decide_true by done. apply IH.
Qed.

Lemma total_weight_bounds cands ids :
  (forall id, id ∈ ids -> 1 <= weight cands id <= 1000) ->
  Z.of_nat (length ids) <= total_weight cands ids <= 1000 * Z.of_nat (length ids).
Proof.
  induction ids as [|id ids IH]; simpl; intros Hw; [lia|].
  pose proof (Hw id (list_elem_of_here _ _)).
  assert (Z.of_nat (length ids) <= total_weight cands ids <= 1000 * Z.of_nat (length ids)); [|lia].
  apply IH. intros id' Hid'. apply Hw. by right.
Qed.

(** ** The weighted pick *)

Lemma pick_in v cands ids :
  0 <= v < total_weight cands ids -> pick v cands ids ∈ ids.
Proof.
  revert v. induction ids as [|id ids IH]; intros v; simpl; [lia|]. fold (weight cands id).
  intros Hv. destruct (Z.ltb_spec (v - weight cands id) 0); [left|]. right. apply IH. lia.
Qed.

(** The number of outcomes of the random source that pick [id]. *)
Definition outcomes (cands : list Candidate) (ids : list string) (id : string) : nat :=
  length (filter (λ v, pick v cands ids = id) (seqZ 0 (total_weight cands ids))).

Lemma pick_shift v cands id ids :
  0 <= v -> pick (v + weight cands id) cands (id :: ids) = pick v cands ids.
Proof.
  intros Hv. simpl. fold (weight cands id). destruct (Z.ltb_spec (v + weight cands id - weight cands id) 0).
  - lia.
  - f_equal. lia.
Qed.

Lemma length_filter_fmap {A B} (f : A -> B) (P : B -> Prop) `{!forall x, base.Decision (P x)} l :
  length (filter P (f <$> l)) = length (filter (λ x, P (f x)) l).
Proof.
  induction l as [|x l IH]; [done|]. rewrite fmap_cons, !filter_cons. case_decide; simpl; by rewrite IH.
Qed.

Lemma outcomes_cons cands id ids x :
  1 <= weight cands id -> 0 <= total_weight cands ids ->
  outcomes cands (id :: ids) x =
    ((if decide (id = x) then Z.to_nat (weight cands id) else 0) + outcomes cands ids x)%nat.
Proof.
  intros Hw Ht. unfold outcomes. simpl total_weight.
  rewrite seqZ_app, filter_app, length_app, Z.add_0_l by lia.
  assert (Hsmall : forall v, v ∈ seqZ 0 (weight cands id) -> pick v cands (id :: ids) = id).
  { intros v Hv%elem_of_seqZ. simpl. fold (weight cands id).
    destruct (Z.ltb_spec (v - weight cands id) 0); [done|lia]. }
  f_equal.
  - case_decide as Hx.
    + rewrite filter_all; [by rewrite length_seqZ|]. intros v Hv. by rewrite Hsmall.
    + rewrite filter_none; [done|]. intros v Hv. by rewrite Hsmall.
  - replace (seqZ (weight cands id) (total_weight cands ids)) with
      (Z.add (weight cands id) <$> seqZ 0 (total_weight cands ids))
      by (rewrite fmap_add_seqZ; f_equal; lia).
    rewrite length_filter_fmap. f_equal. apply filter_ext_in. intros v Hv%elem_of_seqZ.
    rewrite Z.add_comm, pick_shift by lia. done.
Qed.

Lemma outcomes_weight cands ids id :
  NoDup ids -> (forall id, id ∈ ids -> 1 <= weight cands id <= 1000) ->
  outcomes cands ids id = if decide (id ∈ ids) then Z.to_nat (weight cands id) else 0%nat.
Proof.
  induction ids as [|id' ids IH]; intros Hnd Hw.
  { rewrite decide_False by (apply not_elem_of_nil). done. }
  apply NoDup_cons in Hnd as [Hnin Hnd].
  assert (Hw' : forall id, id ∈ ids -> 1 <= weight cands id <= 1000) by (intros; apply Hw; by right).
  pose proof (total_weight_bounds cands ids Hw').
  pose proof (Hw id' (list_elem_of_here _ _)).
  rewrite outcomes_cons by lia. rewrite IH by done. destruct (decide (id' = id)) as [->|Hne].
  - rewrite (decide_False (P := id ∈ ids)), decide_True by (done || left). lia.
  - simpl. apply decide_ext. rewrite elem_of_cons. naive_solver.
Qed.

(** ** The decision on valid input *)

Definition eligible_ids (req : Requirements) (cands : list Candidate) : list string :=
  merge_sort String.le (ID <$> filter (λ c, eligible req c = true) cands).

Definition best_ids (req : Requirements) (cands : list Candidate) : list string :=
  filter (λ id, prio cands id = candidatePriority (eligible_ids req cands) cands)
    (eligible_ids req cands).

Definition evaluated (req : Requirements) (cands : list Candidate) : Decision :=
  foldl (evaluate_step req) (mkDecision "" SelectionNone [] [] 0) cands.

Definition out_of_range (v limit : Z) : bool := ((v <? 0) || (limit <=? v))%bool.

Lemma Select_valid intn req cands :
  Valid req cands ->
  Select intn req cands =
    match eligible_ids req cands with
    | [] => Ok (evaluated req cands)
    | _ =>
        let total := total_weight cands (best_ids req cands) in
        if out_of_range (intn total) total then
          Err (newError ErrorRandomSource
                 "random source returned a value outside its requested range" "")
        else
          Ok (mkDecision (pick (intn total) cands (best_ids req cands)) SelectionPriorityWeighted
                (eligible_ids req cands) (Evaluations (evaluated req cands))
                (NextAvailableAt (evaluated req cands)))
    end.
Proof.
  intros [Hreq Hex Hc Hnd]. unfold Select. rewrite Hreq, collectExcluded_spec.
  rewrite bool_decide_false by done. rewrite union_empty_r_L.
  pose proof (evaluate_all_spec req ∅ cands (mkDecision "" SelectionNone [] [] 0)) as Hev.
  unfold excludedSet in *. destruct (evaluate_all _ _ _ _ _) as [d|e].
  2:{ exfalso. apply Hev. split; [|done]. eapply Forall_impl; [exact Hc|]. set_solver. }
  destruct Hev as [-> _]. fold (evaluated req cands). unfold best_ids, eligible_ids.
  assert (Hel : Eligible (evaluated req cands) = ID <$> filter (λ c, eligible req c = true) cands)
    by (unfold evaluated; by rewrite evaluate_fold_eligible).
  rewrite Hel. set (ids := ID <$> filter _ cands).
  pose proof (merge_sort_Permutation String.le ids) as Hperm.
  destruct ids as [|id ids'] eqn:Hids.
  - by apply Permutation_nil_r in Hperm as ->.
  - rewrite weigh_eq. destruct (merge_sort String.le (id :: ids')) eqn:Hs; [|done].
    by apply Permutation_nil_l in Hperm.
Qed.

Lemma checkCapabilities_kind e1 e2 seen caps e :
  checkCapabilities e1 e2 seen caps = Some e -> e = e1 \/ e = e2.
Proof.
  revert seen. induction caps as [|c caps IH]; intros seen; simpl; [done|].
  repeat case_bool_decide; naive_solver.
Qed.

Lemma validateRequirements_kind req e :
  validateRequirements req = Some e -> Kind e = ErrorInvalidInput.
Proof.
  unfold validateRequirements. case_match; [by intros [= <-]|].
  by intros [-> | ->]%checkCapabilities_kind.
Qed.

Lemma validateCandidate_kind c e : validateCandidate c = Some e -> Kind e = ErrorInvalidCandidate.
Proof.
  unfold validateCandidate. repeat (case_match; [by intros [= <-]|]).
  by intros [-> | ->]%checkCapabilities_kind.
Qed.

Lemma evaluate_all_kind req ex seen cands d e :
  evaluate_all req ex seen cands d = Err e -> Kind e <> ErrorRandomSource.
Proof.
  revert seen d. induction cands as [|c cands IH]; intros seen d; simpl; [done|].
  destruct (validateCandidate c) as [e'|] eqn:Hv.
  - intros [= <-]. by rewrite (validateCandidate_kind _ _ Hv).
  - case_bool_decide; [by intros [= <-]|apply IH].
Qed.

Lemma Select_invalid intn req cands :
  ~ Valid req cands -> exists e, Select intn req cands = Err e /\ Kind e <> ErrorRandomSource.
Proof.
  intros Hnv. unfold Select. destruct (validateRequirements req) as [e|] eqn:Hreq.
  { exists e. split; [done|]. by rewrite (validateRequirements_kind _ _ Hreq). }
  rewrite collectExcluded_spec. case_bool_decide as Hex; [by eexists|].
  rewrite union_empty_r_L. fold (excludedSet req).
  pose proof (evaluate_all_spec req ∅ cands (mkDecision "" SelectionNone [] [] 0)) as Hev.
  pose proof (evaluate_all_kind req (excludedSet req) ∅ cands (mkDecision "" SelectionNone [] [] 0)) as Hk.
  destruct (evaluate_all _ _ _ _ _) as [d|e]; [|eauto].
  exfalso. apply Hnv. destruct Hev as (_ & Hc & Hnd). split; try done.
  eapply Forall_impl; [exact Hc|]. naive_solver.
Qed.

Lemma Select_Ok_Valid intn req cands d : Select intn req cands = Ok d -> Valid req cands.
Proof.
  intros Hs. unfold Select in Hs. destruct (validateRequirements req) eqn:Hreq; [done|].
  rewrite collectExcluded_spec in Hs. case_bool_decide as Hex; [done|].
  rewrite union_empty_r_L in Hs. fold (excludedSet req) in Hs.
  pose proof (evaluate_all_spec req ∅ cands (mkDecision "" SelectionNone [] [] 0)) as Hev.
  destruct (evaluate_all _ _ _ _ _) as [d'|e]; [|done].
  destruct Hev as (_ & Hc & Hnd). split; try done. eapply Forall_impl; [exact Hc|]. naive_solver.
Qed.

(** ** The best candidates *)

Section valid_input.
Context (req : Requirements) (cands : list Candidate) (Hvalid : Valid req cands).

Lemma elem_of_eligible_ids id :
  id ∈ eligible_ids req cands <-> exists c, c ∈ cands /\ Allowed req c /\ ID c = id.
Proof using Type.
  unfold eligible_ids. rewrite merge_sort_Permutation, list_elem_of_fmap.
  setoid_rewrite list_elem_of_filter. setoid_rewrite eligible_Allowed. naive_solver.
Qed.

Lemma eligible_ids_NoDup : NoDup (eligible_ids req cands).
Proof using Hvalid.
  unfold eligible_ids. rewrite merge_sort_Permutation.
  apply NoDup_fmap_filter, (va_unique _ _ Hvalid).
Qed.

Lemma prio_in c : c ∈ cands -> prio cands (ID c) = effectivePriority (Priority c).
Proof using Hvalid. intros Hc. unfold prio. by rewrite candidateByID_in by (apply Hvalid || done). Qed.

Lemma weight_in c : c ∈ cands -> weight cands (ID c) = effectiveWeight (Weight c).
Proof using Hvalid. intros Hc. unfold weight. by rewrite candidateByID_in by (apply Hvalid || done). Qed.

Lemma valid_in c : c ∈ cands -> validateCandidate c = None.
Proof using Hvalid. pose proof (va_candidates _ _ Hvalid) as H. rewrite Forall_forall in H. auto. Qed.

(** A candidate of the best priority among the allowed ones. *)
Definition Best (c : Candidate) : Prop :=
  c ∈ cands /\ Allowed req c /\
  forall c', c' ∈ cands -> Allowed req c' ->
    effectivePriority (Priority c) <= effectivePriority (Priority c').

Lemma elem_of_best_ids id : id ∈ best_ids req cands <-> exists c, Best c /\ ID c = id.
Proof using Hvalid.
  unfold best_ids. rewrite list_elem_of_filter.
  pose proof (candidatePriority_min cands (eligible_ids req cands)) as Hmin.
  split.
  - intros [Hp Hid]. pose proof Hid as (c & Hc & Ha & <-)%elem_of_eligible_ids. exists c. split; [|done].
    split_and!; [done..|]. intros c' Hc' Ha'. rewrite <- !prio_in by done. rewrite Hp.
    apply Hmin; [intros Hnil; rewrite Hnil in Hid; by apply not_elem_of_nil in Hid| |].
    + intros id (c0 & Hc0 & _ & <-)%elem_of_eligible_ids. rewrite prio_in by done.
      apply effectivePriority_bounds, valid_in, Hc0.
    + apply elem_of_eligible_ids. eauto.
  - intros (c & (Hc & Ha & Hbest) & <-).
    assert (Hid : ID c ∈ eligible_ids req cands) by (apply elem_of_eligible_ids; eauto).
    split; [|done]. destruct Hmin as [(id' & Hid' & Heq) Hmin].
    + intros Hnil. rewrite Hnil in Hid. by apply not_elem_of_nil in Hid.
    + intros id (c0 & Hc0 & _ & <-)%elem_of_eligible_ids. rewrite prio_in by done.
      apply effectivePriority_bounds, valid_in, Hc0.
    + pose proof (Hmin _ Hid). pose proof Hid' as (c' & Hc' & Ha' & <-)%elem_of_eligible_ids.
      specialize (Hbest _ Hc' Ha'). rewrite <- !prio_in in Hbest by done. lia.
Qed.

Lemma best_ids_weights id : id ∈ best_ids req cands -> 1 <= weight cands id <= 1000.
Proof using Hvalid.
  intros (c & (Hc & _) & <-)%elem_of_best_ids. rewrite weight_in by done.
  by apply effectiveWeight_bounds, valid_in.
Qed.

Lemma best_ids_NoDup : NoDup (best_ids req cands).
Proof using Hvalid. apply NoDup_filter, eligible_ids_NoDup. Qed.

Lemma best_ids_nonempty : eligible_ids req cands <> [] -> best_ids req cands <> [].
Proof using Hvalid.
  intros Hne Hnil. destruct (candidatePriority_min cands (eligible_ids req cands)) as [(id & Hid & Hp) _]; [done| |].
  - intros id (c0 & Hc0 & _ & <-)%elem_of_eligible_ids. rewrite prio_in by done.
    apply effectivePriority_bounds, valid_in, Hc0.
  - apply (not_elem_of_nil id). rewrite <- Hnil. apply list_elem_of_filter. done.
Qed.

(** The limit passed to the random source: positive, and small. *)
Lemma total_best :
  eligible_ids req cands <> [] ->
  0 < total_weight cands (best_ids req cands) <= 1000 * Z.of_nat (length cands).
Proof using Hvalid.
  intros Hne%best_ids_nonempty. pose proof (total_weight_bounds _ _ best_ids_weights) as Hb.
  assert (Hlen : (length (best_ids req cands) <= length cands)%nat).
  { unfold best_ids, eligible_ids. etransitivity; [apply length_filter|].
    rewrite merge_sort_Permutation, length_fmap. apply length_filter. }
  destruct (best_ids req cands); [done|]. simpl in *. lia.
Qed.
End valid_input.

(** ** Theorems *)

Lemma evaluated_unselected req cands :
  SelectedCandidateID (evaluated req cands) = "" /\ Mode (evaluated req cands) = SelectionNone.
Proof.
  unfold evaluated. set (d := mkDecision _ _ _ _ _).
  assert (SelectedCandidateID d = "" /\ Mode d = SelectionNone) as Hd by done.
  revert Hd. generalize d. induction cands as [|c cands IH]; intros d0 Hd; [done|]. apply IH, Hd.
Qed.

Lemma Select_outcome intn req cands d :
  Select intn req cands = Ok d ->
  match Mode d with
  | SelectionNone => SelectedCandidateID d = "" /\ forall c, c ∈ cands -> ~ Allowed req c
  | SelectionPriorityWeighted =>
      exists c, ID c = SelectedCandidateID d /\ Best req cands c
  end.
Proof.
  intros Hs. pose proof (Select_Ok_Valid _ _ _ _ Hs) as Hv. rewrite Select_valid in Hs by done.
  destruct (eligible_ids req cands) as [|id ids] eqn:Hids.
  - injection Hs as <-. destruct (evaluated_unselected req cands) as [-> ->].
    split; [done|]. intros c Hc Ha. apply (not_elem_of_nil (ID c)). rewrite <- Hids.
    apply elem_of_eligible_ids. eauto.
  - cbv zeta in Hs. destruct (out_of_range _ _) eqn:Hr; [done|]. injection Hs as <-. simpl.
    unfold out_of_range in Hr. to_prop.
    assert (Hin : pick (intn (total_weight cands (best_ids req cands))) cands (best_ids req cands) ∈
             best_ids req cands) by (apply pick_in; lia).
    apply elem_of_best_ids in Hin as (c & Hb & Hc); [|done]. eauto.
Qed.

(** A named candidate is one of those offered, allowed, and its name unique. *)
Lemma Select_selected intn req cands d :
  Select intn req cands = Ok d -> SelectedCandidateID d <> "" ->
  NoDup (ID <$> cands) /\ exists c, c ∈ cands /\ ID c = SelectedCandidateID d /\ Allowed req c.
Proof.
  intros Hs Hne. split; [apply (va_unique req), (Select_Ok_Valid _ _ _ _ Hs)|].
  apply Select_outcome in Hs. destruct (Mode d); [by destruct Hs|].
  destruct Hs as (c & Hc & Hin & Ha & _). eauto.
Qed.

(** C8.  A successful [Select] names a candidate exactly when one satisfies
    every hard rule, and the one it names satisfies them and has the best
    priority among those that do; with it comes one evaluation per candidate,
    in the order of the input. *)
Theorem Select_best intn req cands d :
  Select intn req cands = Ok d ->
  Evaluations d = evaluation req <$> cands /\
  match Mode d with
  | SelectionNone => SelectedCandidateID d = "" /\ forall c, c ∈ cands -> ~ Allowed req c
  | SelectionPriorityWeighted =>
      exists c, ID c = SelectedCandidateID d /\ Best req cands c
  end.
Proof.
  intros Hs. split; [|exact (Select_outcome _ _ _ _ Hs)].
  pose proof (Select_Ok_Valid _ _ _ _ Hs) as Hv. rewrite Select_valid in Hs by done.
  pose proof (evaluate_fold_evaluations req cands (mkDecision "" SelectionNone [] [] 0)) as He.
  destruct (eligible_ids req cands) as [|id ids] eqn:Hids.
  - injection Hs as <-. done.
  - cbv zeta in Hs. destruct (out_of_range _ _) eqn:Hr; [done|]. by injection Hs as <-.
Qed.

Definition demo_candidate (id : string) (priority weight cooldown : Z) : Candidate :=
  mkCandidate id "m" "p" true true true ["chat"] cooldown priority weight.
Definition demo_requirements : Requirements := mkRequirements "m" "p" ["chat"] [] 100.
Definition demo_candidates : list Candidate :=
  [demo_candidate "k3" 5 0 0; demo_candidate "k1" 5 3 0; demo_candidate "k2" 0 7 0;
   demo_candidate "k4" 1 1 400].

Lemma Select_best_witness :
  match Select (λ _, 3) demo_requirements demo_candidates with
  | Ok d => SelectedCandidateID d = "k3" /\ Evaluations d = evaluation demo_requirements <$> demo_candidates
  | Err _ => False
  end.
Proof.
  destruct (Select (λ _, 3) demo_requirements demo_candidates) as [d|e] eqn:E.
  - pose proof (Select_best _ _ _ _ E) as [H _]. split; [|exact H].
    vm_compute in E. injection E as <-. reflexivity.
  - vm_compute in E. discriminate E.
Defined.

(** Whether a candidate is eligible is exactly the conjunction of the hard
    rules: published model, same model and pool, authorized and active
    credential, no running cooldown, not excluded for this attempt, and all
    required capabilities. *)
Theorem eligibility_rules req c :
  evaluateEligibility req c (excludedSet req) = [] <-> Allowed req c.
Proof. rewrite <- eligible_Allowed. unfold eligible. by rewrite bool_decide_eq_true. Qed.

(** The outcomes of the random source on which [Select] names [id]. *)
Definition selects (req : Requirements) (cands : list Candidate) (id : string) (v : Z) : bool :=
  match Select (λ _, v) req cands with
  | Ok d => bool_decide (SelectedCandidateID d = id)
  | Err _ => false
  end.

(** On valid input with an allowed candidate, [Select] asks the random
    source once, for a value below a positive limit of at most 1000 per
    candidate, and of the equally likely values exactly [effectiveWeight c]
    select a candidate [c] of the best priority; no other candidate is ever
    selected. *)
Theorem Select_weighted req cands c :
  Valid req cands -> Best req cands c ->
  exists limit,
    0 < limit <= 1000 * Z.of_nat (length cands) /\
    (forall intn, Select intn req cands = Select (λ _, intn limit) req cands) /\
    Z.of_nat (length (filter (λ v, selects req cands (ID c) v = true) (seqZ 0 limit))) =
      effectiveWeight (Weight c) /\
    forall c', c' ∈ cands -> ~ Best req cands c' ->
      filter (λ v, selects req cands (ID c') v = true) (seqZ 0 limit) = [].
Proof.
  intros Hv Hb. pose proof Hb as (Hc & Ha & _).
  assert (Hid : ID c ∈ eligible_ids req cands) by (apply elem_of_eligible_ids; eauto).
  assert (Hne : eligible_ids req cands <> []).
  { intros Hnil. rewrite Hnil in Hid. by apply not_elem_of_nil in Hid. }
  set (limit := total_weight cands (best_ids req cands)).
  assert (Hsel : forall id v, v ∈ seqZ 0 limit ->
    (selects req cands id v = true <-> pick v cands (best_ids req cands) = id)).
  { intros id v Hin%elem_of_seqZ. unfold selects. rewrite Select_valid by done.
    destruct (eligible_ids req cands); [done|]. fold limit. cbv zeta. unfold out_of_range.
    destruct (Z.ltb_spec v 0); [lia|]. destruct (Z.leb_spec limit v); [lia|]. simpl.
    apply bool_decide_eq_true. }
  exists limit. split_and!.
  - apply total_best; done.
  - apply total_best; done.
  - intros intn. rewrite !Select_valid by done. done.
  - rewrite (filter_ext_in _ (λ v, pick v cands (best_ids req cands) = ID c)) by (intros; by apply Hsel).
    trans (Z.of_nat (outcomes cands (best_ids req cands) (ID c))); [done|].
    rewrite outcomes_weight by (by apply best_ids_NoDup || by apply best_ids_weights).
    assert (Hin : ID c ∈ best_ids req cands) by (apply elem_of_best_ids; eauto).
    rewrite decide_True by done. pose proof (best_ids_weights req cands Hv _ Hin).
    rewrite Z2Nat.id by lia. by apply (weight_in req).
  - intros c' Hc' Hnb. apply filter_none. intros v Hin Hs. apply Hsel in Hs; [|done].
    apply Hnb. assert (Hin' : ID c' ∈ best_ids req cands).
    { rewrite <- Hs. apply elem_of_seqZ in Hin. apply pick_in. subst limit. lia. }
    apply elem_of_best_ids in Hin' as (c0 & Hb0 & Heq); [|done].
    assert (c0 = c') as <-; [|done]. pose proof (va_unique _ _ Hv) as Hnd.
    rewrite <- (candidateByID_in cands c0), <- (candidateByID_in cands c'); [by rewrite Heq|done..|apply Hb0].
Qed.

Lemma demo_valid : Valid demo_requirements demo_candidates.
Proof.
  eapply (Select_Ok_Valid (λ _, 0)). vm_compute. reflexivity.
Qed.

Lemma demo_best : Best demo_requirements demo_candidates (demo_candidate "k1" 5 3 0).
Proof.
  destruct (Select (λ _, 0) demo_requirements demo_candidates) as [d|e] eqn:E; [|discriminate E].
  assert (Hin : "k1" ∈ best_ids demo_requirements demo_candidates).
  { assert (best_ids demo_requirements demo_candidates = ["k1"; "k3"]) as -> by (vm_compute; reflexivity).
    left. }
  apply elem_of_best_ids in Hin as (c & Hb & Hid); [|apply demo_valid].
  assert (c = demo_candidate "k1" 5 3 0) as <-; [|done].
  rewrite <- (candidateByID_in demo_candidates c (va_unique _ _ demo_valid)) by apply Hb.
  rewrite Hid. reflexivity.
Qed.

Lemma Select_weighted_witness :
  exists limit, 0 < limit <= 4000 /\
    Z.of_nat (length (filter (λ v, selects demo_requirements demo_candidates "k1" v = true)
                        (seqZ 0 limit))) = 3.
Proof.
  destruct (Select_weighted demo_requirements demo_candidates (demo_candidate "k1" 5 3 0)
              demo_valid demo_best) as (limit & Hl & _ & Hc & _).
  exists limit. split; [exact Hl|exact Hc].
Defined.

(** ** Independence of the input order *)

Lemma Valid_perm req cands cands' : cands ≡ₚ cands' -> Valid req cands -> Valid req cands'.
Proof.
  intros Hp [? ? Hc Hnd]. split; try done.
  - by rewrite <- Hp.
  - by rewrite <- Hp.
Qed.

Lemma candidateByID_perm cands cands' id :
  cands ≡ₚ cands' -> NoDup (ID <$> cands) -> candidateByID id cands = candidateByID id cands'.
Proof.
  intros Hp Hnd. assert (Hnd' : NoDup (ID <$> cands')) by (by rewrite <- Hp).
  assert (Hout : forall l, id ∉ ID <$> l -> candidateByID id l = zeroCandidate).
  { induction l as [|c l IH]; [done|]. rewrite fmap_cons, elem_of_cons. intros Hn. simpl.
    rewrite bool_decide_false by naive_solver. apply IH. naive_solver. }
  destruct (decide (id ∈ ID <$> cands)) as [(c & -> & Hc)%list_elem_of_fmap|Hn].
  - rewrite !candidateByID_in; [done|done| |done|done]. by rewrite <- Hp.
  - rewrite !Hout; [done| |done]. by rewrite <- Hp.
Qed.

Lemma eligible_ids_perm req cands cands' :
  cands ≡ₚ cands' -> eligible_ids req cands = eligible_ids req cands'.
Proof.
  intros Hp. unfold eligible_ids. apply (StronglySorted_unique String.le).
  1-2: apply StronglySorted_merge_sort; apply _.
  rewrite !merge_sort_Permutation. by rewrite Hp.
Qed.

(** The decision does not depend on the order in which the candidates
    are listed: with the same random value the same candidate is selected from
    the same eligible list. *)
Theorem Select_order_independent intn req cands cands' :
  Valid req cands -> cands ≡ₚ cands' ->
  match Select intn req cands, Select intn req cands' with
  | Ok d, Ok d' => SelectedCandidateID d = SelectedCandidateID d' /\ Mode d = Mode d' /\
                   (Mode d = SelectionPriorityWeighted -> Eligible d = Eligible d')
  | Err e, Err e' => e = e'
  | _, _ => False
  end.
Proof.
  intros Hv Hp. pose proof (Valid_perm _ _ _ Hp Hv) as Hv'. rewrite !Select_valid by done.
  assert (Hby : forall id, candidateByID id cands = candidateByID id cands')
    by (intros id; apply candidateByID_perm, Hv; done).
  pose proof (eligible_ids_perm req _ _ Hp) as Hel.
  assert (Hprio : forall ids, candidatePriority ids cands = candidatePriority ids cands').
  { intros ids. unfold candidatePriority. generalize 1001.
    induction ids as [|id ids IH]; intros n; simpl; [done|]. by rewrite Hby, IH. }
  assert (Hbest : best_ids req cands = best_ids req cands').
  { unfold best_ids. rewrite Hel, Hprio. apply filter_ext_in. intros id _. unfold prio. by rewrite Hby. }
  assert (Htot : forall ids, total_weight cands ids = total_weight cands' ids).
  { induction ids as [|id ids IH]; simpl; [done|]. unfold weight. by rewrite Hby, IH. }
  assert (Hpick : forall ids v, pick v cands ids = pick v cands' ids).
  { induction ids as [|id ids IH]; intros v; simpl; [done|]. by rewrite Hby, IH. }
  rewrite Hel, Hbest, Htot. destruct (eligible_ids req cands').
  - destruct (evaluated_unselected req cands) as [-> ->], (evaluated_unselected req cands') as [-> ->]. done.
  - cbv zeta. destruct (out_of_range _ _); [done|]. simpl. by rewrite Hpick.
Qed.

Lemma Select_order_independent_witness :
  match Select (λ _, 2) demo_requirements demo_candidates,
        Select (λ _, 2) demo_requirements (reverse demo_candidates) with
  | Ok d, Ok d' => SelectedCandidateID d = SelectedCandidateID d' /\ SelectedCandidateID d = "k1"
  | _, _ => False
  end.
Proof.
  pose proof (Select_order_independent (λ _, 2) demo_requirements demo_candidates
                (reverse demo_candidates) demo_valid (symmetry (reverse_Permutation _))) as H.
  destruct (Select (λ _, 2) demo_requirements demo_candidates) as [d|] eqn:E; [|discriminate E].
  destruct (Select (λ _, 2) demo_requirements (reverse demo_candidates)) as [d'|] eqn:E';
    [|discriminate E'].
  split; [exact (proj1 H)|]. vm_compute in E. injection E as <-. reflexivity.
Defined.

(** ** Recovery time *)

(** The same request at another time. *)
Definition at_time (req : Requirements) (t : Z) : Requirements :=
  mkRequirements (ReqModelID req) (ReqResourcePoolID req) (ReqCapabilities req)
    (ExcludedCandidates req) t.

(** Only its cooldown keeps the candidate out: it would be allowed when the
    cooldown ends. *)
Definition Recovers (req : Requirements) (c : Candidate) : Prop :=
  CooldownUntil c <> 0 /\ At req < CooldownUntil c /\ Allowed (at_time req (CooldownUntil c)) c.

Definition cooling (t : Z) (c : Candidate) : list Exclusion :=
  exclude_if (negb (IsZero (CooldownUntil c)) && Before t (CooldownUntil c))
    (mkExclusion ExcludeCredentialCooling "" (CooldownUntil c)).

Definition never_cooling (l : list Exclusion) : Prop :=
  Forall (λ e, Reason e <> ExcludeCredentialCooling) l.

Lemma never_cooling_if b e :
  Reason e <> ExcludeCredentialCooling -> never_cooling (exclude_if b e).
Proof. intros He. destruct b; by repeat constructor. Qed.

(** The reasons before and after the cooldown do not depend on the time. *)
Definition reasons_before (req : Requirements) (c : Candidate) : list Exclusion :=
  exclude_if (negb (ModelPublished c)) (mkExclusion ExcludeModelNotPublished "" 0) ++
  exclude_if (negb (bool_decide (ModelID c = ReqModelID req))) (mkExclusion ExcludeModelMismatch "" 0) ++
  exclude_if (negb (bool_decide (ResourcePoolID c = ReqResourcePoolID req)))
    (mkExclusion ExcludeResourcePoolMismatch "" 0) ++
  exclude_if (negb (CredentialAuthorized c)) (mkExclusion ExcludeCredentialUnauthorized "" 0) ++
  exclude_if (negb (CredentialActive c)) (mkExclusion ExcludeCredentialInactive "" 0).

Definition reasons_after (req : Requirements) (c : Candidate) (ex : gset string) : list Exclusion :=
  exclude_if (bool_decide (ID c ∈ ex)) (mkExclusion ExcludeAttempt "" 0) ++
  (ReqCapabilities req ≫= λ capability,
     exclude_if (negb (bool_decide (capability ∈ list_to_set (C := gset string) (Capabilities c))))
       (mkExclusion ExcludeMissingCapability capability 0)).

Lemma evaluateEligibility_split req c ex t :
  evaluateEligibility (at_time req t) c ex =
    reasons_before req c ++ cooling t c ++ reasons_after req c ex.
Proof. unfold reasons_before. by rewrite <- !app_assoc. Qed.

Lemma reasons_never_cooling req c ex :
  never_cooling (reasons_before req c) /\ never_cooling (reasons_after req c ex).
Proof.
  unfold never_cooling, reasons_before, reasons_after. rewrite !Forall_app.
  split_and!; try by apply never_cooling_if.
  induction (ReqCapabilities req) as [|x l IH]; csimpl; [constructor|].
  apply Forall_app. split; [by apply never_cooling_if|done].
Qed.

Lemma cooling_app_singleton t c e (l1 l2 : list Exclusion) :
  never_cooling l1 -> never_cooling l2 -> Reason e = ExcludeCredentialCooling ->
  l1 ++ cooling t c ++ l2 = [e] -> l1 = [] /\ l2 = [] /\ cooling t c = [e].
Proof.
  intros H1 H2 He Heq. destruct l1 as [|x l1]; simpl in Heq.
  - destruct (cooling t c) as [|y l] eqn:Hc; simpl in Heq.
    + subst l2. by apply Forall_cons in H2 as [? _].
    + injection Heq as -> [-> ->]%app_nil. done.
  - injection Heq as -> _. by apply Forall_cons in H1 as [? _].
Qed.

Lemma cooling_running t c :
  CooldownUntil c <> 0 /\ t < CooldownUntil c <->
  cooling t c = [mkExclusion ExcludeCredentialCooling "" (CooldownUntil c)].
Proof.
  unfold cooling, exclude_if, IsZero, Before.
  destruct (Z.eqb_spec (CooldownUntil c) 0), (Z.ltb_spec t (CooldownUntil c)); simpl; naive_solver lia.
Qed.

Lemma Recovers_reasons req c :
  Recovers req c <->
  evaluateEligibility req c (excludedSet req) =
    [mkExclusion ExcludeCredentialCooling "" (CooldownUntil c)].
Proof.
  unfold Recovers. rewrite <- eligible_Allowed. unfold eligible. rewrite bool_decide_eq_true.
  destruct (reasons_never_cooling req c (excludedSet req)) as [H1 H2].
  change (excludedSet (at_time req (CooldownUntil c))) with (excludedSet req).
  replace (evaluateEligibility req) with (evaluateEligibility (at_time req (At req))) by (by destruct req).
  rewrite !evaluateEligibility_split.
  assert (cooling (CooldownUntil c) c = []) as ->.
  { unfold cooling, Before. by rewrite Z.ltb_irrefl, andb_false_r. }
  rewrite app_nil_l. split.
  - intros (Hnz & Hlt & [-> ->]%app_nil). rewrite app_nil_r. by apply cooling_running.
  - intros (-> & -> & Hc)%cooling_app_singleton; [|done..]. apply cooling_running in Hc. naive_solver.
Qed.

(** A single cooling reason carries the end of the cooldown. *)
Lemma single_cooling req c e :
  evaluateEligibility req c (excludedSet req) = [e] -> Reason e = ExcludeCredentialCooling ->
  e = mkExclusion ExcludeCredentialCooling "" (CooldownUntil c).
Proof.
  replace (evaluateEligibility req) with (evaluateEligibility (at_time req (At req))) by (by destruct req).
  rewrite evaluateEligibility_split. destruct (reasons_never_cooling req c (excludedSet req)) as [H1 H2].
  intros Heq He. apply cooling_app_singleton in Heq as (_ & _ & Hc); try done.
  unfold cooling, exclude_if in Hc. by case_match; simplify_eq.
Qed.

(** The update of [NextAvailableAt] in one turn. *)
Lemma next_step req d c :
  (Recovers req c /\ NextAvailableAt (evaluate_step req d c) =
     if (IsZero (NextAvailableAt d) || Before (CooldownUntil c) (NextAvailableAt d))%bool
     then CooldownUntil c else NextAvailableAt d) \/
  (~ Recovers req c /\ NextAvailableAt (evaluate_step req d c) = NextAvailableAt d).
Proof.
  rewrite Recovers_reasons. unfold evaluate_step, record_evaluation. simpl.
  pose proof (single_cooling req c) as Hs.
  destruct (evaluateEligibility req c (excludedSet req)) as [|e [|e' l]]; [by right| |by right].
  case_bool_decide as He; [left|right].
  - rewrite (Hs e) by done. done.
  - split; [|done]. intros [= ->]. done.
Qed.

Lemma next_fold req cands d :
  let n := NextAvailableAt (foldl (evaluate_step req) d cands) in
  ((n = NextAvailableAt d) \/ exists c, c ∈ cands /\ Recovers req c /\ CooldownUntil c = n) /\
  (NextAvailableAt d <> 0 -> n <> 0 /\ n <= NextAvailableAt d) /\
  (forall c, c ∈ cands -> Recovers req c -> n <> 0 /\ n <= CooldownUntil c).
Proof.
  revert d. induction cands as [|c cands IH]; intros d; simpl.
  { split_and!; [by left|done|]. intros c Hc. by apply not_elem_of_nil in Hc. }
  destruct (IH (evaluate_step req d c)) as (Hmem & Hmono & Hmin).
  set (n := NextAvailableAt (foldl _ (evaluate_step req d c) cands)) in *.
  destruct (next_step req d c) as [[Hr Hn]|[Hr Hn]]; rewrite Hn in *.
  - assert (Hnz : CooldownUntil c <> 0) by apply Hr. unfold IsZero, Before in *.
    destruct (Z.eqb_spec (NextAvailableAt d) 0), (Z.ltb_spec (CooldownUntil c) (NextAvailableAt d));
      simpl in *; destruct (Hmono ltac:(lia)) as [Hn0 Hle]; split_and!; try lia.
    all: try (intros c' [->|Hc']%elem_of_cons Hr'; [lia|by apply Hmin]).
    all: destruct Hmem as [Hm|(c' & ? & ? & ?)]; [|right; exists c'; split; [by right|done]].
    all: try (right; exists c; split; [left|done]). by left.
  - split_and!.
    + destruct Hmem as [?|(c' & ? & ? & ?)]; [by left|]. right. exists c'. split; [by right|done].
    + done.
    + intros c' [->|Hc']%elem_of_cons Hr'; [done|]. by apply Hmin.
Qed.

(** [NextAvailableAt] is the earliest time at which a candidate that only
    its cooldown keeps out becomes allowed, and the zero time exactly when
    there is no such candidate. *)
Theorem NextAvailableAt_earliest intn req cands d :
  Select intn req cands = Ok d ->
  let n := NextAvailableAt d in
  (n = 0 /\ (forall c, c ∈ cands -> ~ Recovers req c)) \/
  (n <> 0 /\ (exists c, c ∈ cands /\ Recovers req c /\ CooldownUntil c = n) /\
   (forall c, c ∈ cands -> Recovers req c -> n <= CooldownUntil c)).
Proof.
  intros Hs n. pose proof (Select_Ok_Valid _ _ _ _ Hs) as Hv. rewrite Select_valid in Hs by done.
  assert (Hn : n = NextAvailableAt (evaluated req cands)).
  { subst n. destruct (eligible_ids req cands); [by simplify_eq|]. cbv zeta in Hs. by case_match; simplify_eq. }
  clearbody n. subst n.
  destruct (next_fold req cands (mkDecision "" SelectionNone [] [] 0)) as (Hmem & _ & Hmin).
  fold (evaluated req cands) in *. simpl in *. destruct Hmem as [H0|(c & Hc & Hr & Heq)].
  - left. split; [done|]. intros c Hc Hr. by destruct (Hmin c Hc Hr).
  - right. destruct (Hmin c Hc Hr). split_and!; [done|eauto|]. intros c' Hc' Hr'. by apply Hmin.
Qed.

Lemma NextAvailableAt_earliest_witness :
  match Select (λ _, 2) demo_requirements demo_candidates with
  | Ok d => NextAvailableAt d = 400 /\
      (forall c, c ∈ demo_candidates -> Recovers demo_requirements c -> 400 <= CooldownUntil c)
  | Err _ => False
  end.
Proof.
  destruct (Select (λ _, 2) demo_requirements demo_candidates) as [d|] eqn:E; [|discriminate E].
  pose proof (NextAvailableAt_earliest _ _ _ _ E) as H.
  assert (Hn : NextAvailableAt d = 400) by (vm_compute in E; injection E as <-; reflexivity).
  split; [exact Hn|]. rewrite Hn in H. destruct H as [[H _]|(_ & _ & H)]; [discriminate H|exact H].
Defined.

(** [Select] fails exactly on an invalid input (an empty or duplicate
    identifier or capability, a priority or weight out of bounds) or when the
    random source answers out of its range, and reports the second as
    [ErrorRandomSource]. *)
Theorem Select_errors intn req cands :
  match Select intn req cands with
  | Ok _ => Valid req cands
  | Err e =>
      (Kind e <> ErrorRandomSource /\ ~ Valid req cands) \/
      (Kind e = ErrorRandomSource /\ Valid req cands /\
       exists limit, 0 < limit /\ ~ (0 <= intn limit < limit))
  end.
Proof.
  destruct (Select intn req cands) as [d|e] eqn:Hs; [by eapply Select_Ok_Valid|].
  assert (Hdec : Valid req cands \/ ~ Valid req cands).
  { pose proof (Select_Ok_Valid (λ _, 0) req cands) as H0.
    destruct (Select (λ _, 0) req cands) as [d0|e0] eqn:Hs0; [left; by eapply H0|].
    right. intros Hv. rewrite Select_valid in Hs0 by done.
    pose proof (total_best req cands Hv) as Ht. destruct (eligible_ids req cands); [done|].
    cbv zeta in Hs0. destruct (out_of_range 0 _) eqn:Hr; [|done].
    unfold out_of_range in Hr. specialize (Ht ltac:(done)).
    apply orb_true_iff in Hr as [Hr|Hr]; to_prop; lia. }
  destruct Hdec as [Hv|Hnv].
  - right. rewrite Select_valid in Hs by done. pose proof (total_best req cands Hv) as Ht.
    destruct (eligible_ids req cands); [done|]. cbv zeta in Hs.
    destruct (out_of_range _ _) eqn:Hr; [|done]. injection Hs as <-. split_and!; [done..|].
    eexists. split; [apply Ht; done|]. unfold out_of_range in Hr.
    apply orb_true_iff in Hr as [Hr|Hr]; to_prop; lia.
  - left. split; [|done]. destruct (Select_invalid intn _ _ Hnv) as (e' & He' & Hk). congruence.
Qed.
