(* ===== verification/Resilience.v ===== *)
(** * Resilience: backoff, retry decisions and the circuit breaker

    Models [src/internal/resilience]: [backoff.go], [retry.go] and
    [circuit.go] with the types of [types.go].

    The string enumerations of the Go code are inductive types; a value
    outside the declared constants is the constructor [...Other].  Durations
    and [int64] values are [Z], with the wrap-around of each multiplication
    and addition written out where the operands are not known to be small.
    The clock reading is the argument [now], the random source the argument
    [int63n]. *)

From S2P Require Import Prelude.

Local Open Scope Z_scope.

(** ** types.go *)

Inductive FailureClass :=
| FailureInvalidRequest | FailureAuthentication | FailurePermission | FailureQuota
| FailureRateLimit | FailureProviderTemporary | FailureProviderPermanent | FailureTimeout
| FailureNetwork | FailureCanceled | FailureStreamInterrupted | FailureStorage | FailureUncertain
| FailureOther (s : string).

Inductive SendBoundary :=
| SendNotStarted | SendRejected | SendAccepted | SendUncertain | SendOther (s : string).

Inductive ClientBoundary := ClientUncommitted | ClientCommitted | ClientOther (s : string).

#[export] Instance FailureClass_eq_dec : EqDecision FailureClass.
Proof. solve_decision. Defined.
#[export] Instance SendBoundary_eq_dec : EqDecision SendBoundary.
Proof. solve_decision. Defined.
#[export] Instance ClientBoundary_eq_dec : EqDecision ClientBoundary.
Proof. solve_decision. Defined.

Record RetryAfter := mkRetryAfter { RADelay : Z; RAAt : Z }.

Record RetryInput := mkRetryInput {
  Attempt : Z;
  RequestStartedAt : Z;
  Failure : FailureClass;
  InSendBoundary : SendBoundary;
  InClientBoundary : ClientBoundary;
  IdempotencyGuaranteed : bool;
  InRetryAfter : option RetryAfter;
}.

Inductive RetryAction := RetrySchedule | RetryStop | RetryUncertain.

Inductive RetryReason :=
| ReasonRetryableFailure | ReasonTerminalFailure | ReasonAttemptBudget | ReasonElapsedBudget
| ReasonSendUncertain | ReasonClientCommitted | ReasonCanceled.

Record RetryDecision := mkRetryDecision {
  Action : RetryAction;
  Reason : RetryReason;
  NextAttempt : Z;
  Delay : Z;
  NextAttemptAt : Z;
}.

Inductive ErrorKind := ErrorInvalidConfiguration | ErrorInvalidInput | ErrorRandomSource.

Record Error := mkError { Kind : ErrorKind; Message : string }.

Definition newError (kind : ErrorKind) (message : string) : Error := mkError kind message.

(** ** backoff.go *)

Record BackoffConfig := mkBackoffConfig {
  Initial : Z;
  Maximum : Z;
  MultiplierNumerator : Z;
  MultiplierDenominator : Z;
  JitterPermille : Z;
}.

Definition BackoffConfig_validate (c : BackoffConfig) (random_present : bool) : option Error :=
  if ((Initial c <=? 0) || (Maximum c <? Initial c))%bool then
    Some (newError ErrorInvalidConfiguration "backoff durations must be positive and ordered")
  else if ((MultiplierDenominator c <=? 0) || (1000 <? MultiplierDenominator c) ||
           (MultiplierNumerator c <? MultiplierDenominator c) || (1000 <? MultiplierNumerator c) ||
           (wrap64 (MultiplierDenominator c * 100) <? MultiplierNumerator c))%bool then
    Some (newError ErrorInvalidConfiguration "backoff multiplier must be between one and one hundred")
  else if ((JitterPermille c <? 0) || (1000 <? JitterPermille c))%bool then
    Some (newError ErrorInvalidConfiguration "backoff jitter must be a permille value")
  else if Z.quot max_int64 2000 <? Maximum c then
    Some (newError ErrorInvalidConfiguration "maximum backoff exceeds the fixed-point range")
  else if ((0 <? JitterPermille c) && negb random_present)%bool then
    Some (newError ErrorInvalidConfiguration "backoff jitter requires a random source")
  else None.

(** The [for ordinal] loop; [remaining] is [retryOrdinal - ordinal]. *)
Fixpoint backoff_loop (config : BackoffConfig) (remaining : nat) (base : Z) : Z :=
  match remaining with
  | O => base
  | S remaining' =>
      if base <? Maximum config then
        if Z.quot (wrap64 (Maximum config * MultiplierDenominator config)) (MultiplierNumerator config)
             <? base
        then Maximum config
        else
          let next :=
            Z.quot (wrap64 (wrap64 (wrap64 (base * MultiplierNumerator config) +
                                    MultiplierDenominator config) - 1))
              (MultiplierDenominator config) in
          backoff_loop config remaining'
            (if Maximum config <? next then Maximum config else next)
      else base
  end.

Definition backoffDelay (config : BackoffConfig) (retryOrdinal : Z) (int63n : Z -> Z) :
    result Error Z :=
  let base := backoff_loop config (Z.to_nat (retryOrdinal - 1)) (Initial config) in
  if JitterPermille config =? 0 then Ok base
  else
    let spread := Z.quot (wrap64 (base * JitterPermille config)) 1000 in
    let lower := wrap64 (base - spread) in
    let upper0 := wrap64 (base + spread) in
    let upper := if Maximum config <? upper0 then Maximum config else upper0 in
    let width := wrap64 (wrap64 (upper - lower) + 1) in
    let offset := int63n width in
    if ((offset <? 0) || (width <=? offset))%bool then
      Err (newError ErrorRandomSource "random source returned a value outside its requested range")
    else Ok (wrap64 (lower + offset)).

(** ** retry.go *)

Record RetryConfig := mkRetryConfig {
  MaxAttempts : Z;
  MaxElapsed : Z;
  Backoff : BackoffConfig;
}.

Record RetryPolicy := mkRetryPolicy {
  rp_config : RetryConfig;
  rp_random : Z -> Z;
}.

(** [clock_present] and [random_present] are the tests against nil. *)
Definition NewRetryPolicy (config : RetryConfig) (clock_present : bool) (random : option (Z -> Z)) :
    result Error RetryPolicy :=
  if ((MaxAttempts config <=? 0) || (1000 <? MaxAttempts config))%bool then
    Err (newError ErrorInvalidConfiguration "max attempts must be between one and one thousand")
  else if MaxElapsed config <=? 0 then
    Err (newError ErrorInvalidConfiguration "max elapsed must be positive")
  else if negb clock_present then
    Err (newError ErrorInvalidConfiguration "clock is required")
  else
    match BackoffConfig_validate (Backoff config) (bool_decide (is_Some random)) with
    | Some e => Err e
    | None => Ok (mkRetryPolicy config (default (λ _, 0) random))
    end.

Definition validFailure (failure : FailureClass) : bool :=
  match failure with FailureOther _ => false | _ => true end.
Definition validSendBoundary (boundary : SendBoundary) : bool :=
  match boundary with SendOther _ => false | _ => true end.
Definition validClientBoundary (boundary : ClientBoundary) : bool :=
  match boundary with ClientOther _ => false | _ => true end.

Definition retryableFailure (failure : FailureClass) : bool :=
  match failure with
  | FailureRateLimit | FailureProviderTemporary | FailureTimeout | FailureNetwork
  | FailureStreamInterrupted | FailureUncertain => true
  | _ => false
  end.

Definition stopRetry (reason : RetryReason) : RetryDecision := mkRetryDecision RetryStop reason 0 0 0.

Definition validateRetryInput (input : RetryInput) (now : Z) : option Error :=
  if ((Attempt input <=? 0) || IsZero (RequestStartedAt input) || Before now (RequestStartedAt input))%bool then
    Some (newError ErrorInvalidInput "attempt and request start time are invalid")
  else if (negb (validFailure (Failure input)) || negb (validSendBoundary (InSendBoundary input)) ||
           negb (validClientBoundary (InClientBoundary input)))%bool then
    Some (newError ErrorInvalidInput "retry input contains an invalid state")
  else None.

Definition RetryAfter_delay (retryAfter : RetryAfter) (now : Z) : result Error Z :=
  if ((RADelay retryAfter <? 0) ||
      (negb (IsZero (RAAt retryAfter)) && negb (RADelay retryAfter =? 0)))%bool then
    Err (newError ErrorInvalidInput "retry-after must contain one non-negative delay or deadline")
  else if negb (IsZero (RAAt retryAfter)) then
    if negb (After (RAAt retryAfter) now) then Ok 0
    else Ok (time_sub (RAAt retryAfter) now)
  else Ok (RADelay retryAfter).

Definition Decide (p : RetryPolicy) (now : Z) (input : RetryInput) : result Error RetryDecision :=
  match validateRetryInput input now with
  | Some e => Err e
  | None =>
      if bool_decide (InClientBoundary input = ClientCommitted) then Ok (stopRetry ReasonClientCommitted)
      else if bool_decide (Failure input = FailureCanceled) then Ok (stopRetry ReasonCanceled)
      else if ((bool_decide (Failure input = FailureUncertain) ||
                bool_decide (InSendBoundary input = SendUncertain)) &&
               negb (IdempotencyGuaranteed input))%bool then
        Ok (mkRetryDecision RetryUncertain ReasonSendUncertain 0 0 0)
      else if negb (retryableFailure (Failure input)) then Ok (stopRetry ReasonTerminalFailure)
      else if MaxAttempts (rp_config p) <=? Attempt input then Ok (stopRetry ReasonAttemptBudget)
      else
        let deadline := time_add (RequestStartedAt input) (MaxElapsed (rp_config p)) in
        if negb (Before now deadline) then Ok (stopRetry ReasonElapsedBudget)
        else
          let? delay0 := backoffDelay (Backoff (rp_config p)) (Attempt input) (rp_random p) in
          let? delay :=
            match InRetryAfter input with
            | None => Ok delay0
            | Some ra =>
                let? retryAfterDelay := RetryAfter_delay ra now in
                Ok (if delay0 <? retryAfterDelay then retryAfterDelay else delay0)
            end in
          let nextAttemptAt := time_add now delay in
          if negb (Before nextAttemptAt deadline) then Ok (stopRetry ReasonElapsedBudget)
          else Ok (mkRetryDecision RetrySchedule ReasonRetryableFailure (Attempt input + 1)
                     delay nextAttemptAt)
  end.

(** ** circuit.go *)

Inductive CircuitState := CircuitClosed | CircuitOpen | CircuitHalfOpen.

#[export] Instance CircuitState_eq_dec : EqDecision CircuitState.
Proof. solve_decision. Defined.

Record CircuitConfig := mkCircuitConfig {
  FailureThreshold : Z;
  SuccessThreshold : Z;
  OpenDuration : Z;
  HalfOpenMaxInFlight : Z;
}.

Inductive PermitResult := PermitSucceeded | PermitFailed | PermitReleased | PermitOther (s : string).

Record Circuit := mkCircuit {
  c_config : CircuitConfig;
  c_state : CircuitState;
  generation : Z;
  consecutiveFailures : Z;
  halfOpenSuccesses : Z;
  halfOpenInFlight : Z;
  retryAt : Z;
}.

(** A permit: the generation and the state at which it was issued; its
    [completed] flag and its circuit are part of the system below. *)
Record Permit := mkPermit { p_generation : Z; p_state : CircuitState }.

Record AcquireResult := mkAcquireResult {
  Allowed : bool;
  AcState : CircuitState;
  AcRetryAt : Z;
  AcPermit : option Permit;
}.

Record CircuitSnapshot := mkCircuitSnapshot {
  SnState : CircuitState;
  SnConsecutiveFailures : Z;
  SnHalfOpenSuccesses : Z;
  SnHalfOpenInFlight : Z;
  SnRetryAt : Z;
}.

Definition NewCircuit (config : CircuitConfig) (clock_present : bool) : result Error Circuit :=
  if ((FailureThreshold config <=? 0) || (SuccessThreshold config <=? 0) ||
      (OpenDuration config <=? 0) || (HalfOpenMaxInFlight config <=? 0))%bool then
    Err (newError ErrorInvalidConfiguration
           "circuit thresholds, duration, and probe limit must be positive")
  else if negb clock_present then
    Err (newError ErrorInvalidConfiguration "clock is required")
  else Ok (mkCircuit config CircuitClosed 0 0 0 0 0).

Definition toOpenLocked (now : Z) (c : Circuit) : Circuit :=
  mkCircuit (c_config c) CircuitOpen (wrapu64 (generation c + 1)) 0 0 0
    (time_add now (OpenDuration (c_config c))).

Definition toHalfOpenLocked (c : Circuit) : Circuit :=
  mkCircuit (c_config c) CircuitHalfOpen (wrapu64 (generation c + 1)) (consecutiveFailures c) 0 0 0.

Definition toClosedLocked (c : Circuit) : Circuit :=
  mkCircuit (c_config c) CircuitClosed (wrapu64 (generation c + 1)) 0 0 0 0.

Definition set_failures (n : Z) (c : Circuit) : Circuit :=
  mkCircuit (c_config c) (c_state c) (generation c) n (halfOpenSuccesses c) (halfOpenInFlight c) (retryAt c).
Definition set_successes (n : Z) (c : Circuit) : Circuit :=
  mkCircuit (c_config c) (c_state c) (generation c) (consecutiveFailures c) n (halfOpenInFlight c) (retryAt c).
Definition set_inflight (n : Z) (c : Circuit) : Circuit :=
  mkCircuit (c_config c) (c_state c) (generation c) (consecutiveFailures c) (halfOpenSuccesses c) n (retryAt c).

Definition Acquire (now : Z) (c : Circuit) : AcquireResult * Circuit :=
  let c1 := if (bool_decide (c_state c = CircuitOpen) && negb (Before now (retryAt c)))%bool
            then toHalfOpenLocked c else c in
  if bool_decide (c_state c1 = CircuitOpen) then
    (mkAcquireResult false CircuitOpen (retryAt c1) None, c1)
  else if (bool_decide (c_state c1 = CircuitHalfOpen) &&
           (HalfOpenMaxInFlight (c_config c1) <=? halfOpenInFlight c1))%bool then
    (mkAcquireResult false CircuitHalfOpen 0 None, c1)
  else
    let c2 := if bool_decide (c_state c1 = CircuitHalfOpen)
              then set_inflight (halfOpenInFlight c1 + 1) c1 else c1 in
    (mkAcquireResult true (c_state c2) 0 (Some (mkPermit (generation c2) (c_state c2))), c2).

(** [complete]; [now] is the clock reading of the branches that open the
    circuit. *)
Definition complete (now : Z) (p : Permit) (res : PermitResult) (c : Circuit) : bool * Circuit :=
  if (negb (p_generation p =? generation c) || negb (bool_decide (p_state p = c_state c)))%bool
  then (false, c)
  else
    match c_state c with
    | CircuitClosed =>
        match res with
        | PermitSucceeded => (true, set_failures 0 c)
        | PermitFailed =>
            let c1 := set_failures (consecutiveFailures c + 1) c in
            if FailureThreshold (c_config c1) <=? consecutiveFailures c1
            then (true, toOpenLocked now c1) else (true, c1)
        | _ => (true, c)
        end
    | CircuitHalfOpen =>
        let c1 := if 0 <? halfOpenInFlight c then set_inflight (halfOpenInFlight c - 1) c else c in
        match res with
        | PermitSucceeded =>
            let c2 := set_successes (halfOpenSuccesses c1 + 1) c1 in
            if SuccessThreshold (c_config c2) <=? halfOpenSuccesses c2
            then (true, toClosedLocked c2) else (true, c2)
        | PermitFailed => (true, toOpenLocked now c1)
        | _ => (true, c1)
        end
    | CircuitOpen => (false, c)
    end.

Definition validResult (res : PermitResult) : bool :=
  match res with PermitOther _ => false | _ => true end.

(** [Complete] as one call: the result is refused, or already completed, or
    recorded. *)
Definition Complete (now : Z) (completed : bool) (p : Permit) (res : PermitResult) (c : Circuit) :
    bool * bool * Circuit :=
  if negb (validResult res) then (false, completed, c)
  else if completed then (false, true, c)
  else let '(ok, c') := complete now p res c in (ok, true, c').

Definition CircuitSnapshot_op (c : Circuit) : CircuitSnapshot :=
  mkCircuitSnapshot (c_state c) (consecutiveFailures c) (halfOpenSuccesses c) (halfOpenInFlight c)
    (retryAt c).
