(* ===== verification/ResilienceProps.v ===== *)
(** * What backoff and retry decisions guarantee

    The theorems about [src/internal/resilience/backoff.go] and [retry.go]:
    the capped exponential backoff computed without overflow, the range and
    the reach of the jitter, when a retry is scheduled, and that no policy
    schedules more than its attempt budget. *)

From S2P Require Import Prelude Resilience.

Local Open Scope Z_scope.

(** ** Configuration *)

Record BackoffOk (c : BackoffConfig) : Prop := {
  bo_initial : 0 < Initial c <= Maximum c;
  bo_max : Maximum c <= max_int64 `div` 2000;
  bo_den : 0 < MultiplierDenominator c <= MultiplierNumerator c;
  bo_num : MultiplierNumerator c <= 1000;
  bo_jitter : 0 <= JitterPermille c <= 1000;
}.

Lemma BackoffConfig_validate_ok c present :
  BackoffConfig_validate c present = None -> BackoffOk c.
Proof.
  unfold BackoffConfig_validate. intros H. split_matches. to_prop.
  rewrite quot_div_nonneg in * by (unfold max_int64; lia). split; lia.
Qed.

(** ** The exact growth

    [ideal n] is the backoff after [n] growth steps in unbounded integers:
    multiplied by the ratio each time and rounded up. *)

Definition grow (c : BackoffConfig) (b : Z) : Z :=
  (b * MultiplierNumerator c + MultiplierDenominator c - 1) `div` MultiplierDenominator c.

Definition ideal (c : BackoffConfig) (n : nat) : Z := Nat.iter n (grow c) (Initial c).

Section backoff.
Context (c : BackoffConfig) (Hc : BackoffOk c).

(** [grow] rounds the quotient up. *)
Lemma grow_spec b m :
  0 <= b -> m * MultiplierDenominator c < b * MultiplierNumerator c -> m < grow c b.
Proof using Hc.
  intros Hb Hm. destruct Hc as [_ _ Hden _ _]. unfold grow.
  apply Z.lt_le_trans with (m + 1); [lia|]. apply Z.div_le_lower_bound; nia.
Qed.

Lemma grow_le b m :
  0 <= b -> b * MultiplierNumerator c <= m * MultiplierDenominator c -> grow c b <= m.
Proof using Hc.
  intros Hb Hm. destruct Hc as [_ _ Hden _ _]. unfold grow.
  apply Z.lt_succ_r. apply Z.div_lt_upper_bound; nia.
Qed.

Lemma grow_ge b : 0 <= b -> b <= grow c b.
Proof using Hc.
  intros Hb. destruct Hc as [_ _ Hden _ _]. unfold grow. apply Z.div_le_lower_bound; nia.
Qed.

Lemma grow_mono a b : a <= b -> grow c a <= grow c b.
Proof using Hc. intros Hab. destruct Hc. unfold grow. apply Z.div_le_mono; nia. Qed.

Lemma iter_grow_ge n b : 0 <= b -> b <= Nat.iter n (grow c) b.
Proof using Hc.
  intros Hb. induction n as [|n IH]; simpl; [lia|]. pose proof (grow_ge (Nat.iter n (grow c) b)). lia.
Qed.

(** No intermediate product of the loop overflows. *)
Lemma loop_products b :
  0 < b <= Maximum c ->
  wrap64 (Maximum c * MultiplierDenominator c) = Maximum c * MultiplierDenominator c /\
  wrap64 (wrap64 (wrap64 (b * MultiplierNumerator c) + MultiplierDenominator c) - 1) =
    b * MultiplierNumerator c + MultiplierDenominator c - 1.
Proof using Hc.
  intros Hb. destruct Hc as [Hi Hm Hd Hn _].
  change (max_int64 `div` 2000) with 4611686018427387 in Hm.
  assert (b * MultiplierNumerator c <= Maximum c * 1000) by nia.
  assert (0 <= b * MultiplierNumerator c) by nia.
  split; [|rewrite (wrap64_id (b * _)), (wrap64_id (b * _ + _))];
    try apply wrap64_id; unfold int64_ok; change min_int64 with (-9223372036854775808);
    change max_int64 with 9223372036854775807; nia.
Qed.

(** The loop computes the exact growth, capped at the maximum. *)
Lemma backoff_loop_min n b :
  0 < b <= Maximum c -> backoff_loop c n b = Z.min (Maximum c) (Nat.iter n (grow c) b).
Proof using Hc.
  revert b. induction n as [|n IH]; intros b Hb; simpl; [lia|].
  destruct (loop_products b Hb) as [-> ->]. pose proof Hc as [Hi Hm Hd Hn _].
  rewrite !quot_div_nonneg by nia. fold (grow c b).
  assert (Hswap : grow c (Nat.iter n (grow c) b) = Nat.iter n (grow c) (grow c b)).
  { clear. induction n as [|n IH]; simpl; congruence. }
  rewrite Hswap. pose proof (grow_ge b ltac:(lia)) as Hge.
  pose proof (iter_grow_ge n (grow c b) ltac:(lia)) as Hit.
  destruct (Z.ltb_spec b (Maximum c)); [|lia].
  destruct (Z.ltb_spec ((Maximum c * MultiplierDenominator c) `div` MultiplierNumerator c) b) as [Hbig|Hsmall].
  - assert (Maximum c < grow c b); [|lia]. apply grow_spec; [lia|].
    pose proof (Z.mul_succ_div_gt (Maximum c * MultiplierDenominator c) (MultiplierNumerator c)). nia.
  - destruct (Z.ltb_spec (Maximum c) (grow c b)).
    + rewrite IH by lia. pose proof (iter_grow_ge n (Maximum c) ltac:(lia)). lia.
    + apply IH. lia.
Qed.

Lemma backoff_base n :
  backoff_loop c n (Initial c) = Z.min (Maximum c) (ideal c n).
Proof using Hc. apply backoff_loop_min, Hc. Qed.

Lemma ideal_mono n m : (n <= m)%nat -> 0 < ideal c n <= ideal c m.
Proof using Hc.
  intros Hnm. split.
  - unfold ideal. destruct Hc as [Hi _ _ _ _]. pose proof (iter_grow_ge n (Initial c) ltac:(lia)). lia.
  - replace m with ((m - n) + n)%nat by lia. unfold ideal. rewrite Nat.iter_add.
    apply iter_grow_ge. destruct Hc as [Hi _ _ _ _]. pose proof (iter_grow_ge n (Initial c) ltac:(lia)). lia.
Qed.
End backoff.

(** ** Backoff *)

(** The jitter window around the base, cut off at the maximum. *)
Definition jitter_lower (c : BackoffConfig) (b : Z) : Z := b - (b * JitterPermille c) `div` 1000.
Definition jitter_upper (c : BackoffConfig) (b : Z) : Z :=
  Z.min (Maximum c) (b + (b * JitterPermille c) `div` 1000).

Lemma jitter_window c b :
  BackoffOk c -> 0 < b <= Maximum c ->
  0 <= jitter_lower c b <= b /\ b <= jitter_upper c b <= Maximum c.
Proof.
  intros [_ _ _ _ Hj] Hb. unfold jitter_lower, jitter_upper.
  assert (0 <= (b * JitterPermille c) `div` 1000 <= b); [|lia].
  split; [apply Z.div_pos; nia|]. apply Z.div_le_upper_bound; nia.
Qed.

Lemma backoffDelay_eq c ordinal int63n :
  BackoffOk c ->
  let b := Z.min (Maximum c) (ideal c (Z.to_nat (ordinal - 1))) in
  let width := jitter_upper c b - jitter_lower c b + 1 in
  backoffDelay c ordinal int63n =
    if JitterPermille c =? 0 then Ok b
    else if ((int63n width <? 0) || (width <=? int63n width))%bool then
      Err (newError ErrorRandomSource "random source returned a value outside its requested range")
    else Ok (jitter_lower c b + int63n width).
Proof.
  intros Hc b width. unfold backoffDelay. rewrite backoff_base by done. fold b.
  destruct (JitterPermille c =? 0); [done|].
  assert (Hb : 0 < b <= Maximum c).
  { pose proof (ideal_mono c Hc (Z.to_nat (ordinal - 1)) _ (le_n _)). pose proof (bo_initial _ Hc). lia. }
  pose proof (jitter_window c b Hc Hb) as Hw. pose proof Hc as [_ Hm _ _ Hj].
  change (max_int64 `div` 2000) with 4611686018427387 in Hm.
  assert (Hspread : Z.quot (wrap64 (b * JitterPermille c)) 1000 = (b * JitterPermille c) `div` 1000).
  { rewrite wrap64_id, quot_div_nonneg by (unfold int64_ok; change min_int64 with (-9223372036854775808);
      change max_int64 with 9223372036854775807; nia). done. }
  rewrite Hspread. unfold jitter_lower, jitter_upper in *. subst width.
  set (spread := (b * JitterPermille c) `div` 1000) in *.
  assert (Hwr : forall z, -9223372036854775808 <= z <= 9223372036854775807 -> wrap64 z = z).
  { intros z Hz. apply wrap64_id. unfold int64_ok. exact Hz. }
  rewrite (Hwr (b - spread)), (Hwr (b + spread)) by lia.
  assert (Hup : (if Maximum c <? b + spread then Maximum c else b + spread) =
                Z.min (Maximum c) (b + spread)) by (destruct (Z.ltb_spec (Maximum c) (b + spread)); lia).
  rewrite Hup, (Hwr (Z.min _ _ - _)), (Hwr (_ + 1)) by lia.
  set (w := Z.min (Maximum c) (b + spread) - (b - spread) + 1) in *.
  destruct (_ || _)%bool eqn:Hr; [done|]. to_prop. rewrite Hwr by lia. done.
Qed.

(** Without jitter the delay before retry number [n] is exactly the
    exponential growth of the initial delay, rounded up at each step and
    capped at the maximum: no product of the 64-bit loop overflows and its
    early exit changes nothing. *)
Theorem backoff_exact c present ordinal int63n :
  BackoffConfig_validate c present = None -> JitterPermille c = 0 ->
  backoffDelay c ordinal int63n = Ok (Z.min (Maximum c) (ideal c (Z.to_nat (ordinal - 1)))).
Proof.
  intros Hc%BackoffConfig_validate_ok Hj. rewrite backoffDelay_eq by done. by rewrite Hj.
Qed.

Definition demo_backoff : BackoffConfig := mkBackoffConfig 100 1000 3 2 0.

Lemma backoff_exact_witness :
  backoffDelay demo_backoff 4 (λ _, 0) = Ok 338 /\ ideal demo_backoff 3 = 338 /\
  backoffDelay demo_backoff 50 (λ _, 0) = Ok (Z.min 1000 (ideal demo_backoff 49)).
Proof.
  split; [vm_compute; reflexivity|]. split; [vm_compute; reflexivity|].
  exact (backoff_exact demo_backoff true 50 (λ _, 0) eq_refl eq_refl).
Defined.

(** With jitter the delay lies between the base minus and plus the
    configured permille of it, never above the maximum and never negative;
    the random source is asked for a value below a positive width, and every
    delay of the window is reached by one of its answers. *)
Theorem backoff_jitter c present ordinal :
  BackoffConfig_validate c present = None -> 0 < JitterPermille c ->
  let b := Z.min (Maximum c) (ideal c (Z.to_nat (ordinal - 1))) in
  let spread := (b * JitterPermille c) `div` 1000 in
  exists width, 0 < width /\
    (forall int63n, 0 <= int63n width < width ->
       exists d, backoffDelay c ordinal int63n = Ok d /\
         0 <= d <= Maximum c /\ b - spread <= d <= b + spread) /\
    (forall int63n, ~ (0 <= int63n width < width) ->
       exists e, backoffDelay c ordinal int63n = Err e /\ Kind e = ErrorRandomSource) /\
    (forall d, b - spread <= d <= Z.min (Maximum c) (b + spread) ->
       exists v, 0 <= v < width /\ backoffDelay c ordinal (λ _, v) = Ok d).
Proof.
  intros Hc%BackoffConfig_validate_ok Hj b spread.
  assert (Hb : 0 < b <= Maximum c).
  { pose proof (ideal_mono c Hc (Z.to_nat (ordinal - 1)) _ (le_n _)). pose proof (bo_initial _ Hc). lia. }
  pose proof (jitter_window c b Hc Hb) as Hw.
  exists (jitter_upper c b - jitter_lower c b + 1). split; [lia|].
  assert (Heq : forall int63n, let w := jitter_upper c b - jitter_lower c b + 1 in
     backoffDelay c ordinal int63n =
       if ((int63n w <? 0) || (w <=? int63n w))%bool then
         Err (newError ErrorRandomSource "random source returned a value outside its requested range")
       else Ok (jitter_lower c b + int63n w)).
  { intros int63n w. rewrite backoffDelay_eq by done. destruct (Z.eqb_spec (JitterPermille c) 0); [lia|done]. }
  setoid_rewrite Heq. set (w := jitter_upper c b - jitter_lower c b + 1) in *.
  unfold jitter_lower, jitter_upper in *. fold spread in w, Hw |- *. split_and!.
  - intros int63n Hr. destruct (_ || _)%bool eqn:Hb'; [apply orb_true_iff in Hb' as [?|?]; to_prop; lia|].
    eexists. split; [done|]. lia.
  - intros int63n Hr. destruct (_ || _)%bool eqn:Hb'; [by eexists|]. to_prop. lia.
  - intros d Hd. exists (d - (b - spread)). split; [lia|].
    destruct (_ || _)%bool eqn:Hb'; [apply orb_true_iff in Hb' as [?|?]; to_prop; lia|]. f_equal. lia.
Qed.

Definition demo_jitter : BackoffConfig := mkBackoffConfig 100 1000 2 1 200.

Lemma backoff_jitter_witness :
  backoffDelay demo_jitter 3 (λ _, 0) = Ok 320 /\
  exists v, backoffDelay demo_jitter 3 (λ _, v) = Ok 480.
Proof.
  split; [vm_compute; reflexivity|].
  destruct (backoff_jitter demo_jitter true 3 eq_refl eq_refl) as (w & _ & _ & _ & H).
  destruct (H 480) as (v & _ & Hv); [|exists v; exact Hv].
  change (ideal demo_jitter (Z.to_nat (3 - 1))) with 400. simpl. split; vm_compute; discriminate.
Defined.

(** ** Retry decisions *)

(** When another send is safe: nothing reached the client, the failure is
    transient, and a send whose effect is unknown is repeated only under a
    guarantee of idempotency. *)
Record SafeToRetry (input : RetryInput) : Prop := {
  sr_client : InClientBoundary input = ClientUncommitted;
  sr_failure : retryableFailure (Failure input) = true;
  sr_uncertain : Failure input = FailureUncertain \/ InSendBoundary input = SendUncertain ->
    IdempotencyGuaranteed input = true;
}.

(** The wait a decision at [now] imposes: the backoff, or the provider's
    Retry-After when it is longer. *)
Definition wait (p : RetryPolicy) (now : Z) (input : RetryInput) : result Error Z :=
  let? b := backoffDelay (Backoff (rp_config p)) (Attempt input) (rp_random p) in
  match InRetryAfter input with
  | None => Ok b
  | Some ra => let? r := RetryAfter_delay ra now in Ok (Z.max b r)
  end.

Lemma NewRetryPolicy_ok config present random p :
  NewRetryPolicy config present random = Ok p ->
  rp_config p = config /\ 0 < MaxAttempts config <= 1000 /\ 0 < MaxElapsed config /\
  BackoffOk (Backoff config).
Proof.
  unfold NewRetryPolicy. intros H. split_matches. to_prop.
  split_and!; [done|lia|lia|lia|]. by eapply BackoffConfig_validate_ok.
Qed.

Lemma validateRetryInput_ok input now :
  validateRetryInput input now = None ->
  0 < Attempt input /\ RequestStartedAt input <= now /\ RequestStartedAt input <> 0 /\
  validClientBoundary (InClientBoundary input) = true.
Proof.
  unfold validateRetryInput, IsZero, Before. intros H. split_matches. to_prop. done || (split_and!; done || lia).
Qed.

Lemma uncertain_spec input :
  ((bool_decide (Failure input = FailureUncertain) ||
    bool_decide (InSendBoundary input = SendUncertain)) && negb (IdempotencyGuaranteed input))%bool = false <->
  (Failure input = FailureUncertain \/ InSendBoundary input = SendUncertain ->
   IdempotencyGuaranteed input = true).
Proof.
  rewrite andb_false_iff, orb_false_iff, negb_false_iff, !bool_decide_eq_false. split.
  - intros [[? ?]|?]; naive_solver.
  - intros H. destruct (IdempotencyGuaranteed input); [by right|].
    left. split; intros ?; by discriminate H; auto.
Qed.

Lemma backoffDelay_range c ordinal int63n d :
  BackoffOk c -> backoffDelay c ordinal int63n = Ok d -> 0 <= d <= Maximum c.
Proof.
  intros Hc. rewrite backoffDelay_eq by done. set (b := Z.min _ _).
  assert (Hb : 0 < b <= Maximum c).
  { pose proof (ideal_mono c Hc (Z.to_nat (ordinal - 1)) _ (le_n _)). pose proof (bo_initial _ Hc). lia. }
  pose proof (jitter_window c b Hc Hb) as Hw. destruct (JitterPermille c =? 0); [naive_solver lia|].
  destruct (_ || _)%bool eqn:Hr; [done|]. to_prop. intros [= <-]. lia.
Qed.

Lemma wait_nonneg p now input w :
  BackoffOk (Backoff (rp_config p)) -> wait p now input = Ok w -> 0 <= w.
Proof.
  intros Hc. unfold wait. destruct (backoffDelay _ _ _) as [b|] eqn:Hb; [|done].
  apply backoffDelay_range in Hb; [|done]. destruct (InRetryAfter input) as [ra|]; [|naive_solver lia].
  destruct (RetryAfter_delay ra now); naive_solver lia.
Qed.

(** The last steps of [Decide], when no earlier rule stops it. *)
Lemma Decide_final p now input :
  validateRetryInput input now = None -> SafeToRetry input ->
  Attempt input < MaxAttempts (rp_config p) ->
  now < RequestStartedAt input + MaxElapsed (rp_config p) ->
  Decide p now input =
    let? w := wait p now input in
    Ok (if now + w <? RequestStartedAt input + MaxElapsed (rp_config p)
        then mkRetryDecision RetrySchedule ReasonRetryableFailure (Attempt input + 1) w (now + w)
        else stopRetry ReasonElapsedBudget).
Proof.
  intros Hv [Hcl Hf Hu%uncertain_spec] Hatt Hnow. unfold Decide, wait. rewrite Hv, Hcl.
  rewrite (bool_decide_false (ClientUncommitted = _)) by done.
  rewrite (bool_decide_false (Failure input = FailureCanceled)) by (intros Heq; by rewrite Heq in Hf).
  rewrite Hu, Hf. simpl. destruct (Z.leb_spec (MaxAttempts (rp_config p)) (Attempt input)); [lia|].
  unfold Before, time_add.
  destruct (Z.ltb_spec now (RequestStartedAt input + MaxElapsed (rp_config p))); [|lia]. simpl.
  destruct (backoffDelay _ _ _) as [b|]; [|done].
  destruct (InRetryAfter input) as [ra|]; [destruct (RetryAfter_delay ra now) as [r|]; [|done]|].
  - assert ((if b <? r then r else b) = Z.max b r) as -> by (destruct (Z.ltb_spec b r); lia).
    by destruct (_ <? _).
  - by destruct (_ <? _).
Qed.

(**  For a validated policy and input, [Decide] schedules another attempt
    exactly when it is safe, the attempt budget is not used up, and the wait
    (the backoff or a longer Retry-After) ends before the elapsed-time
    deadline; it then schedules the next attempt at the end of that wait. *)
Theorem Decide_schedules config present random p now input :
  NewRetryPolicy config present random = Ok p -> validateRetryInput input now = None ->
  forall n w at_,
  Decide p now input = Ok (mkRetryDecision RetrySchedule ReasonRetryableFailure n w at_) <->
  SafeToRetry input /\ Attempt input < MaxAttempts config /\ n = Attempt input + 1 /\
  wait p now input = Ok w /\ at_ = now + w /\ at_ < RequestStartedAt input + MaxElapsed config.
Proof.
  intros (Hcfg & Hatt & Hel & Hb)%NewRetryPolicy_ok Hv n w at_. subst config. split.
  - intros Hd. assert (Hpre : SafeToRetry input /\ Attempt input < MaxAttempts (rp_config p) /\
                              now < RequestStartedAt input + MaxElapsed (rp_config p)).
    { pose proof (validateRetryInput_ok _ _ Hv) as (_ & _ & _ & Hcl). unfold Decide in Hd. rewrite Hv in Hd.
      repeat (case_match; simplify_eq/=); to_prop; unfold Before, time_add in *; to_prop;
      (split; [split|]; [by destruct (InClientBoundary input)|done|by apply uncertain_spec|lia]). }
    destruct Hpre as (Hsafe & Ha & Hnow). rewrite Decide_final in Hd by done.
    destruct (wait p now input) as [w'|] eqn:Hw; [|done].
    destruct (Z.ltb_spec (now + w') (RequestStartedAt input + MaxElapsed (rp_config p))); [|done].
    injection Hd as <- <- <-. done.
  - intros (Hsafe & Ha & -> & Hw & -> & Hlt). pose proof (wait_nonneg _ _ _ _ Hb Hw).
    rewrite Decide_final by (done || lia). rewrite Hw.
    destruct (Z.ltb_spec (now + w) (RequestStartedAt input + MaxElapsed (rp_config p))); [done|lia].
Qed.

Definition demo_retry : RetryConfig := mkRetryConfig 3 10000 demo_backoff.
Definition demo_policy : RetryPolicy := mkRetryPolicy demo_retry (λ _, 0).
Definition demo_input : RetryInput :=
  mkRetryInput 2 1000 FailureTimeout SendAccepted ClientUncommitted false (Some (mkRetryAfter 400 0)).

Lemma Decide_schedules_witness :
  Decide demo_policy 2000 demo_input =
    Ok (mkRetryDecision RetrySchedule ReasonRetryableFailure 3 400 2400).
Proof.
  apply (Decide_schedules demo_retry true (Some (λ _, 0)) demo_policy 2000 demo_input eq_refl eq_refl).
  split; [split; [reflexivity|reflexivity|intros [H|H]; discriminate H]|].
  split; [vm_compute; reflexivity|]. split; [reflexivity|]. split; [vm_compute; reflexivity|].
  split; [reflexivity|]. vm_compute. reflexivity.
Defined.

(** One retry of a request that started at [start]: the attempt that failed,
    some time later a decision, and the attempt it schedules. *)
Inductive retry_step (p : RetryPolicy) (start : Z) : Z * Z -> Z * Z -> Prop :=
| retried n t now input d t' :
    t <= now -> Attempt input = n -> RequestStartedAt input = start ->
    Decide p now input = Ok d -> Action d = RetrySchedule -> NextAttemptAt d <= t' ->
    retry_step p start (n, t) (NextAttempt d, t').

Lemma Decide_budget p now input d :
  Decide p now input = Ok d -> Action d = RetrySchedule ->
  NextAttempt d = Attempt input + 1 /\ Attempt input < MaxAttempts (rp_config p) /\
  NextAttemptAt d < RequestStartedAt input + MaxElapsed (rp_config p).
Proof.
  unfold Decide, Before, time_add. intros Hd Ha.
  repeat (case_match; simplify_eq/=); to_prop; lia.
Qed.

Lemma retry_steps p start k s s' :
  nsteps (retry_step p start) k s s' ->
  s'.1 = s.1 + Z.of_nat k /\ (k <> 0%nat -> s'.1 <= MaxAttempts (rp_config p)).
Proof.
  induction 1 as [s|k s1 s2 s3 Hstep Hk IH]; [split; [lia|done]|].
  destruct Hstep as [n t now input d t' _ <- _ Hd Ha _]. simpl in *.
  apply Decide_budget in Hd as (Hn & Hlt & _); [|done]. destruct k as [|k]; [|lia].
  inversion Hk; subst. simpl. lia.
Qed.

(** However failures, clock readings and random values fall, a request
    is attempted at most [MaxAttempts] times: after [k] scheduled retries the
    attempt number is [k + 1], within the budget, and the wait the last
    decision imposed ends before the elapsed-time deadline. *)
Theorem retries_bounded config present random p start k n t :
  NewRetryPolicy config present random = Ok p ->
  nsteps (retry_step p start) k (1, start) (n, t) ->
  n = Z.of_nat k + 1 /\ n <= MaxAttempts config /\
  forall now input d, Attempt input = n -> RequestStartedAt input = start ->
    Decide p now input = Ok d -> Action d = RetrySchedule ->
    n < MaxAttempts config /\ NextAttemptAt d < start + MaxElapsed config.
Proof.
  intros Hp Hk. pose proof (NewRetryPolicy_ok _ _ _ _ Hp) as (<- & Hatt & _ & _).
  apply retry_steps in Hk. simpl in Hk. split; [lia|]. split.
  - destruct k; [lia|]. lia.
  - intros now input d <- <- Hd Ha. apply Decide_budget in Hd; [lia|done].
Qed.

Lemma demo_one_retry : nsteps (retry_step demo_policy 1000) 1 (1, 1000) (2, 2400).
Proof.
  eapply nsteps_l; [|apply nsteps_O].
  apply (retried demo_policy 1000 1 1000 2000
           (mkRetryInput 1 1000 FailureTimeout SendAccepted ClientUncommitted false (Some (mkRetryAfter 400 0)))
           (mkRetryDecision RetrySchedule ReasonRetryableFailure 2 400 2400) 2400); try done.
Qed.

Lemma retries_bounded_witness : (2 : Z) = Z.of_nat 1 + 1 /\ 2 <= 3.
Proof.
  destruct (retries_bounded demo_retry true (Some (λ _, 0)) demo_policy 1000 1 2 2400 eq_refl demo_one_retry)
    as (H1 & H2 & _).
  split; [exact H1|exact H2].
Defined.

(** * What the circuit breaker guarantees

    The theorems about [src/internal/resilience/circuit.go].  A circuit and
    the permits it has issued form a system whose steps are the critical
    sections of [Acquire] and of the two halves of [Permit.Complete] (marking
    the permit, then recording the result), so that every interleaving of
    callers is a sequence of steps. *)

(** ** The circuit and its permits *)

(** A live permit: held by a caller, or marked completed with its result on
    the way to the circuit. *)
Inductive PermitPhase := PHeld | PCompleting (res : PermitResult).

Record CSystem := mkCSystem {
  circuit : Circuit;
  permits : gmap nat (Permit * PermitPhase);
}.

Inductive circuit_step : CSystem -> CSystem -> Prop :=
| cstep_acquire now k c c' r p ps :
    ps !! k = None -> Acquire now c = (r, c') -> AcPermit r = Some p ->
    circuit_step (mkCSystem c ps) (mkCSystem c' (<[k := (p, PHeld)]> ps))
| cstep_denied now c c' r ps :
    Acquire now c = (r, c') -> AcPermit r = None ->
    circuit_step (mkCSystem c ps) (mkCSystem c' ps)
| cstep_mark k p res c ps :
    ps !! k = Some (p, PHeld) -> validResult res = true ->
    circuit_step (mkCSystem c ps) (mkCSystem c (<[k := (p, PCompleting res)]> ps))
| cstep_record now k p res c ps :
    ps !! k = Some (p, PCompleting res) ->
    circuit_step (mkCSystem c ps) (mkCSystem (snd (complete now p res c)) (delete k ps)).

Definition creachable (config : CircuitConfig) (n : nat) (s : CSystem) : Prop :=
  exists c, NewCircuit config true = Ok c /\ nsteps circuit_step n (mkCSystem c ∅) s.

(** The live permits issued in the current generation. *)
Definition of_generation (g : Z) (e : Permit * PermitPhase) : bool := p_generation e.1 =? g.
Definition current (g : Z) (ps : gmap nat (Permit * PermitPhase)) : gmap nat (Permit * PermitPhase) :=
  filter (λ kv, of_generation g kv.2 = true) ps.

Lemma current_insert g k p ph ps :
  ps !! k = None ->
  current g (<[k := (p, ph)]> ps) =
    if p_generation p =? g then <[k := (p, ph)]> (current g ps) else current g ps.
Proof.
  intros Hk. unfold current. rewrite map_filter_insert. unfold of_generation at 1. simpl.
  case_decide as Hd; destruct (p_generation p =? g) eqn:Hg; try done.
  by rewrite delete_id.
Qed.

Lemma size_current_insert g k p ph ps :
  ps !! k = None ->
  Z.of_nat (size (current g (<[k := (p, ph)]> ps))) =
    Z.of_nat (size (current g ps)) + (if p_generation p =? g then 1 else 0).
Proof.
  intros Hk. rewrite current_insert by done. destruct (_ =? g); [|lia].
  rewrite map_size_insert_None; [lia|]. apply map_lookup_filter_None. by left.
Qed.

Lemma size_current_update g k p ph ph' ps :
  ps !! k = Some (p, ph) -> size (current g (<[k := (p, ph')]> ps)) = size (current g ps).
Proof.
  intros Hk. rewrite <- (insert_delete_id ps k (p, ph) Hk) at 2. rewrite <- (insert_delete_eq ps).
  rewrite !current_insert by (by rewrite lookup_delete_eq).
  destruct (_ =? g); [|done]. rewrite !map_size_insert_None; [done|..];
    apply map_lookup_filter_None; left; by rewrite lookup_delete_eq.
Qed.

Lemma size_current_delete g k p ph ps :
  ps !! k = Some (p, ph) ->
  Z.of_nat (size (current g ps)) =
    Z.of_nat (size (current g (delete k ps))) + (if p_generation p =? g then 1 else 0).
Proof.
  intros Hk. rewrite <- (insert_delete_id ps k (p, ph) Hk) at 1.
  by rewrite size_current_insert by (by rewrite lookup_delete_eq).
Qed.

Lemma current_empty g ps :
  (forall k p ph, ps !! k = Some (p, ph) -> p_generation p < g) -> size (current g ps) = 0%nat.
Proof.
  intros H. apply map_size_empty_iff, map_empty. intros k. apply map_lookup_filter_None.
  right. intros [p ph] Hk Hg. simpl in Hg. unfold of_generation in Hg. simpl in Hg.
  pose proof (H _ _ _ Hk). lia.
Qed.

(** ** Invariant *)

Record CInv (n : Z) (s : CSystem) : Prop := {
  ci_config : 0 < FailureThreshold (c_config (circuit s)) /\
    0 < SuccessThreshold (c_config (circuit s)) /\ 0 < HalfOpenMaxInFlight (c_config (circuit s));
  ci_generation : 0 <= generation (circuit s) <= n;
  ci_permits : forall k p ph, permits s !! k = Some (p, ph) ->
    p_generation p <= generation (circuit s) /\
    (p_generation p = generation (circuit s) -> p_state p = c_state (circuit s));
  ci_counts :
    match c_state (circuit s) with
    | CircuitClosed => 0 <= consecutiveFailures (circuit s) < FailureThreshold (c_config (circuit s))
    | CircuitHalfOpen =>
        halfOpenInFlight (circuit s) = Z.of_nat (size (current (generation (circuit s)) (permits s))) /\
        halfOpenInFlight (circuit s) <= HalfOpenMaxInFlight (c_config (circuit s)) /\
        0 <= halfOpenSuccesses (circuit s) < SuccessThreshold (c_config (circuit s))
    | CircuitOpen => size (current (generation (circuit s)) (permits s)) = 0%nat
    end;
}.

Lemma CInv_weaken n m s : n <= m -> CInv n s -> CInv m s.
Proof. intros Hnm [? ? ? ?]. split; try done. lia. Qed.

Lemma wrapu64_succ g n : 0 <= g <= n -> n + 1 < 2 ^ 64 -> wrapu64 (g + 1) = g + 1.
Proof. intros Hg Hn. apply wrapu64_id. lia. Qed.

(** A new generation: every permit issued before is stale. *)
Lemma CInv_new_generation n c c' ps :
  CInv n (mkCSystem c ps) -> n + 1 < 2 ^ 64 ->
  c_config c' = c_config c -> generation c' = wrapu64 (generation c + 1) ->
  consecutiveFailures c' = 0 \/ c_state c' <> CircuitClosed -> halfOpenSuccesses c' = 0 -> halfOpenInFlight c' = 0 ->
  CInv (n + 1) (mkCSystem c' ps).
Proof.
  intros [Hcfg Hg Hp _] Hn Hc' Hg' Hf Hs Hi. simpl in *.
  rewrite (wrapu64_succ _ n) in Hg' by done.
  assert (Hz : size (current (generation c') ps) = 0%nat).
  { apply current_empty. intros k p ph Hk. destruct (Hp _ _ _ Hk). lia. }
  split; simpl; rewrite ?Hc'; try done; [lia| |].
  - intros k p ph Hk. destruct (Hp _ _ _ Hk). lia.
  - destruct (c_state c'); [|done|]; rewrite ?Hs, ?Hi, ?Hz; [destruct Hf as [->|]; [lia|done]|lia].
Qed.

(** Acquire, split into the time-out of an open circuit and the rest. *)
Definition reopen (now : Z) (c : Circuit) : Circuit :=
  if (bool_decide (c_state c = CircuitOpen) && negb (Before now (retryAt c)))%bool
  then toHalfOpenLocked c else c.

Lemma reopen_CInv n now c ps :
  CInv n (mkCSystem c ps) -> n + 1 < 2 ^ 64 -> CInv (n + 1) (mkCSystem (reopen now c) ps).
Proof.
  intros Hc Hn. unfold reopen. case_bool_decide as Ho; simpl; [|by eapply CInv_weaken; [|done]; lia].
  destruct (negb _); [|by eapply CInv_weaken; [|done]; lia].
  eapply CInv_new_generation; try done. by right.
Qed.

Lemma acquire_CInv n now c c' r ps :
  CInv n (mkCSystem c ps) -> n + 1 < 2 ^ 64 -> Acquire now c = (r, c') ->
  match AcPermit r with
  | None => CInv (n + 1) (mkCSystem c' ps)
  | Some p => forall k, ps !! k = None -> CInv (n + 1) (mkCSystem c' (<[k := (p, PHeld)]> ps))
  end.
Proof.
  intros Hc0 Hn Hacq. pose proof (reopen_CInv n now c ps Hc0 Hn) as Hc.
  unfold Acquire in Hacq. fold (reopen now c) in Hacq. set (c1 := reopen now c) in *. clearbody c1.
  destruct Hc as [Hcfg Hg Hp Hcnt]; simpl in *.
  case_bool_decide as Ho; [by injection Hacq as <- <-|].
  destruct (bool_decide (c_state c1 = CircuitHalfOpen)) eqn:Hh; simpl in Hacq;
    [apply bool_decide_eq_true in Hh|apply bool_decide_eq_false in Hh].
  - rewrite Hh in Hcnt. destruct Hcnt as (Hin & Hmax & Hsu).
    destruct (Z.leb_spec (HalfOpenMaxInFlight (c_config c1)) (halfOpenInFlight c1)).
    + injection Hacq as <- <-. split; simpl; try done. by rewrite Hh.
    + injection Hacq as <- <-. simpl. intros k Hk. split; simpl; try done.
      * intros k' p ph [[<- [= <- <-]]|[_ Hk']]%lookup_insert_Some; [done|by eapply Hp].
      * rewrite Hh, size_current_insert by done. simpl. rewrite Z.eqb_refl. lia.
  - injection Hacq as <- <-. simpl. intros k Hk. split; simpl; try done.
    + intros k' p ph [[<- [= <- <-]]|[_ Hk']]%lookup_insert_Some; [done|by eapply Hp].
    + by destruct (c_state c1).
Qed.

(** Recording a result. *)
Lemma complete_CInv n now k p res c ps :
  CInv n (mkCSystem c ps) -> n + 1 < 2 ^ 64 -> ps !! k = Some (p, PCompleting res) ->
  CInv (n + 1) (mkCSystem (snd (complete now p res c)) (delete k ps)).
Proof.
  intros Hc Hn Hk.
  assert (Hdel : p_generation p <> generation c \/ c_state c <> CircuitHalfOpen -> CInv n (mkCSystem c (delete k ps))).
  { destruct Hc as [Hcfg Hg Hp Hcnt]; simpl in *. intros Hor. split; simpl; try done.
    - intros k' p' ph [_ Hk']%lookup_delete_Some. by eapply Hp.
    - pose proof (size_current_delete (generation c) k p _ ps Hk) as Hsz.
      destruct (Z.eqb_spec (p_generation p) (generation c)); destruct (c_state c); naive_solver lia. }
  assert (Hmono : forall m s, m = n -> CInv m s -> CInv (n + 1) s)
    by (intros m s -> ?; eapply CInv_weaken; [|done]; lia).
  unfold complete. destruct (Z.eqb_spec (p_generation p) (generation c)) as [Hg|Hg]; simpl;
    [|by apply (Hmono n), Hdel; [|left]].
  case_bool_decide as Hs; simpl; [|destruct (ci_permits _ _ Hc k p _ Hk) as [_ Hst]; by destruct (Hs (Hst Hg))].
  destruct (c_state c) eqn:Hst.
  - assert (Hc' : CInv n (mkCSystem c (delete k ps))) by (apply Hdel; right; done).
    destruct res; simpl; try by apply (Hmono n).
    + apply (Hmono n); [done|]. destruct Hc' as [Hcfg Hg' Hp Hcnt]; simpl in *.
      split; simpl; try done. rewrite Hst in *. lia.
    + destruct (Z.leb_spec (FailureThreshold (c_config c)) (consecutiveFailures c + 1)); simpl.
      * eapply CInv_new_generation; try done. by left.
      * apply (Hmono n); [done|]. destruct Hc' as [Hcfg Hg' Hp Hcnt]; simpl in *.
        split; simpl; try done. rewrite Hst in *. lia.
  - simpl. apply (Hmono n), Hdel; [done|]. right. congruence.
  - destruct Hc as [Hcfg Hg' Hp Hcnt]; simpl in *. rewrite Hst in Hcnt. destruct Hcnt as (Hin & Hmax & Hsu).
    pose proof (size_current_delete (generation c) k p _ ps Hk) as Hsz. rewrite Hg, Z.eqb_refl in Hsz.
    destruct (Z.ltb_spec 0 (halfOpenInFlight c)); [|lia].
    assert (Hc1 : CInv n (mkCSystem (set_inflight (halfOpenInFlight c - 1) c) (delete k ps))).
    { split; simpl; try done.
      - intros k' p' ph [_ Hk']%lookup_delete_Some. by eapply Hp.
      - rewrite Hst. lia. }
    destruct res; simpl; try by apply (Hmono n).
    + destruct (Z.leb_spec (SuccessThreshold (c_config c)) (halfOpenSuccesses c + 1)); simpl.
      * apply (CInv_new_generation n (set_inflight (halfOpenInFlight c - 1) c)); try done. by left.
      * apply (Hmono n); [done|]. destruct Hc1 as [_ _ Hp1 Hcnt1]; simpl in *.
        split; simpl; try done. rewrite Hst in *. lia.
    + apply (CInv_new_generation n (set_inflight (halfOpenInFlight c - 1) c)); try done. by left.
Qed.

Lemma circuit_step_CInv n s s' :
  CInv n s -> n + 1 < 2 ^ 64 -> circuit_step s s' -> CInv (n + 1) s'.
Proof.
  intros Hc Hn Hstep. destruct Hstep as [now k c c' r p ps Hk Hacq Hp|now c c' r ps Hacq Hp|k p res c ps Hk Hv|now k p res c ps Hk].
  - pose proof (acquire_CInv _ _ _ _ _ _ Hc Hn Hacq) as H. rewrite Hp in H. by apply H.
  - pose proof (acquire_CInv _ _ _ _ _ _ Hc Hn Hacq) as H. by rewrite Hp in H.
  - apply (CInv_weaken n); [lia|]. destruct Hc as [Hcfg Hg Hps Hcnt]; simpl in *. split; simpl; try done.
    + intros k' p' ph [[<- [= <- <-]]|[_ Hk']]%lookup_insert_Some; by eapply Hps.
    + by rewrite (size_current_update _ k p PHeld).
  - by apply complete_CInv.
Qed.

Lemma NewCircuit_CInv config c : NewCircuit config true = Ok c -> CInv 0 (mkCSystem c ∅).
Proof.
  unfold NewCircuit. intros H. split_matches. to_prop. split; simpl; [lia|lia| |lia].
  intros k p ph Hk. by rewrite lookup_empty in Hk.
Qed.

Lemma creachable_CInv config n s :
  creachable config n s -> Z.of_nat n < 2 ^ 64 -> CInv (Z.of_nat n) s.
Proof.
  intros (c & Hnew%NewCircuit_CInv & Hn). revert Hnew. change 0 with (Z.of_nat 0).
  rewrite <- (Nat.add_0_l n). generalize 0%nat.
  induction Hn as [s|n s1 s2 s3 Hstep _ IH]; intros m Hinv Hlt; [by rewrite Nat.add_0_r in *|].
  rewrite <- Nat.add_succ_comm. apply IH; [|by rewrite Nat.add_succ_comm].
  rewrite Nat2Z.inj_succ. eapply circuit_step_CInv; [done|lia|done].
Qed.

Lemma circuit_step_config s s' : circuit_step s s' -> c_config (circuit s') = c_config (circuit s).
Proof.
  destruct 1 as [now k c c' r p ps _ Hacq _|now c c' r ps Hacq _| |now k p res c ps _]; simpl; try done.
  1-2: unfold Acquire in Hacq; repeat (case_match; simplify_eq/=; try done).
  unfold complete. repeat (case_match; simplify_eq/=; try done).
Qed.

Lemma creachable_config config n s : creachable config n s -> c_config (circuit s) = config.
Proof.
  intros (c & Hnew & Hn). assert (Hc : c_config c = config).
  { unfold NewCircuit in Hnew. by split_matches. }
  remember (mkCSystem c ∅) as s0 eqn:Hs0. revert c Hc Hs0 Hnew.
  assert (Hgen : c_config (circuit s) = c_config (circuit s0)).
  { induction Hn as [s|n s1 s2 s3 Hstep _ IH]; [done|]. rewrite IH. by apply circuit_step_config. }
  intros c Hc -> _. by rewrite Hgen.
Qed.

(** ** Theorems *)

(** In every interleaving of fewer than [2^64] steps: a half-open circuit
    counts exactly its live probes and never has more than
    [HalfOpenMaxInFlight] of them; a closed circuit has fewer than
    [FailureThreshold] consecutive failures; an open circuit has no live
    permit of its own generation. *)
Theorem circuit_counts config n s :
  creachable config n s -> Z.of_nat n < 2 ^ 64 ->
  let c := circuit s in
  let live := Z.of_nat (size (current (generation c) (permits s))) in
  match c_state c with
  | CircuitClosed => 0 <= consecutiveFailures c < FailureThreshold config
  | CircuitHalfOpen =>
      live = halfOpenInFlight c /\ live <= HalfOpenMaxInFlight config /\
      0 <= halfOpenSuccesses c < SuccessThreshold config
  | CircuitOpen => live = 0
  end.
Proof.
  intros Hr Hn. rewrite <- (creachable_config _ _ _ Hr). pose proof (ci_counts _ _ (creachable_CInv _ _ _ Hr Hn)).
  simpl. destruct (c_state (circuit s)); lia.
Qed.

Definition demo_circuit_config : CircuitConfig := mkCircuitConfig 2 2 50 1.
Definition demo_circuit : Circuit := mkCircuit demo_circuit_config CircuitClosed 0 0 0 0 0.

Lemma demo_circuit_reachable :
  creachable demo_circuit_config 1
    (mkCSystem demo_circuit {[0%nat := (mkPermit 0 CircuitClosed, PHeld)]}).
Proof.
  exists demo_circuit. split; [reflexivity|]. eapply nsteps_l; [|apply nsteps_O].
  by apply (cstep_acquire 10 0 demo_circuit demo_circuit
              (mkAcquireResult true CircuitClosed 0 (Some (mkPermit 0 CircuitClosed)))
              (mkPermit 0 CircuitClosed) ∅).
Qed.

Lemma circuit_counts_witness : 0 <= consecutiveFailures demo_circuit < 2.
Proof.
  exact (circuit_counts demo_circuit_config 1 _ demo_circuit_reachable ltac:(vm_compute; reflexivity)).
Defined.

(** One step in which every [Acquire] reads a clock before [limit]. *)
Inductive early_step (limit : Z) : CSystem -> CSystem -> Prop :=
| early_acquire now k c c' r p ps :
    now < limit -> ps !! k = None -> Acquire now c = (r, c') -> AcPermit r = Some p ->
    early_step limit (mkCSystem c ps) (mkCSystem c' (<[k := (p, PHeld)]> ps))
| early_denied now c c' r ps :
    now < limit -> Acquire now c = (r, c') -> AcPermit r = None ->
    early_step limit (mkCSystem c ps) (mkCSystem c' ps)
| early_mark k p res c ps :
    ps !! k = Some (p, PHeld) -> validResult res = true ->
    early_step limit (mkCSystem c ps) (mkCSystem c (<[k := (p, PCompleting res)]> ps))
| early_record now k p res c ps :
    ps !! k = Some (p, PCompleting res) ->
    early_step limit (mkCSystem c ps) (mkCSystem (snd (complete now p res c)) (delete k ps)).

(** While the circuit is open and its [retryAt] has not come, no
    interleaving of callers gets a permit or changes the circuit: [Acquire]
    is refused with that time, and late results of earlier permits are
    ignored. *)
Theorem open_circuit_is_isolated s s' :
  c_state (circuit s) = CircuitOpen ->
  rtc (early_step (retryAt (circuit s))) s s' ->
  circuit s' = circuit s /\ dom (permits s') ⊆ dom (permits s) /\
  forall now, now < retryAt (circuit s) ->
    Acquire now (circuit s') = (mkAcquireResult false CircuitOpen (retryAt (circuit s)) None, circuit s).
Proof.
  intros Ho Hr.
  assert (Hden : forall now c, c_state c = CircuitOpen -> now < retryAt c ->
    Acquire now c = (mkAcquireResult false CircuitOpen (retryAt c) None, c)).
  { intros now c Hc Hnow. unfold Acquire, Before. rewrite Hc. destruct (Z.ltb_spec now (retryAt c)); [|lia].
    simpl. by rewrite Hc. }
  assert (Hgen : circuit s' = circuit s /\ dom (permits s') ⊆ dom (permits s)).
  { remember (retryAt (circuit s)) as limit eqn:Hl. revert Hl Ho.
    induction Hr as [s|s1 s2 s3 Hstep _ IH]; intros Hl Ho; [done|].
    assert (H12 : circuit s2 = circuit s1 /\ dom (permits s2) ⊆ dom (permits s1)).
    { destruct Hstep as [now k c c' r p ps Hnow Hk Hacq Hp|now c c' r ps Hnow Hacq Hp|k p res c ps Hk Hv|now k p res c ps Hk];
        simpl in *; subst limit.
      - rewrite Hden in Hacq by done. by injection Hacq as <- <-.
      - rewrite Hden in Hacq by done. by injection Hacq as <- <-.
      - split; [done|]. rewrite dom_insert. apply elem_of_dom_2 in Hk. set_solver.
      - split; [|rewrite dom_delete; set_solver]. unfold complete. rewrite Ho. by destruct (_ || _)%bool. }
    destruct H12 as [H12 Hd]. rewrite <- H12 in Hl, Ho. destruct (IH Hl Ho) as [-> Hd']. split; [done|set_solver]. }
  destruct Hgen as [Heq Hd]. split_and!; [done..|]. intros now Hnow. rewrite Heq. by apply Hden.
Qed.

Definition demo_open : Circuit := toOpenLocked 100 demo_circuit.

Lemma open_circuit_is_isolated_witness :
  retryAt demo_open = 150 /\
  Acquire 149 demo_open = (mkAcquireResult false CircuitOpen 150 None, demo_open).
Proof.
  split; [reflexivity|].
  exact (proj2 (proj2 (open_circuit_is_isolated (mkCSystem demo_open ∅) (mkCSystem demo_open ∅)
                         eq_refl (rtc_refl _ _))) 149 eq_refl).
Defined.

(** ** When a closed circuit opens *)

(** Recording results of permits of the current generation of a closed
    circuit, one after the other; it stops at the first one that opens it. *)
Fixpoint record_closed (now : Z) (rs : list PermitResult) (c : Circuit) : Circuit :=
  match rs with
  | [] => c
  | r :: rs' =>
      match c_state c with
      | CircuitClosed => record_closed now rs' (snd (complete now (mkPermit (generation c) CircuitClosed) r c))
      | _ => c
      end
  end.

Definition is_failed (r : PermitResult) : bool := match r with PermitFailed => true | _ => false end.
Definition is_succeeded (r : PermitResult) : bool := match r with PermitSucceeded => true | _ => false end.

Definition failures (rs : list PermitResult) : Z := Z.of_nat (length (filter (λ r, is_failed r = true) rs)).

(** A stretch without a success that holds enough failures. *)
Definition tripping (threshold : Z) (rs : list PermitResult) : Prop :=
  exists a b d, rs = a ++ b ++ d /\ Forall (λ r, is_succeeded r = false) b /\ threshold <= failures b.

(** The same, with [n] failures already counted before [rs]. *)
Definition tripping_from (threshold n : Z) (rs : list PermitResult) : Prop :=
  (exists b d, rs = b ++ d /\ Forall (λ r, is_succeeded r = false) b /\ threshold <= n + failures b) \/
  tripping threshold rs.

Lemma failures_cons r rs : failures (r :: rs) = (if is_failed r then 1 else 0) + failures rs.
Proof. unfold failures. rewrite filter_cons. destruct (is_failed r); [rewrite decide_True|rewrite decide_False]; simpl; done || lia. Qed.

Lemma failures_nonneg rs : 0 <= failures rs.
Proof. unfold failures. lia. Qed.

(** How one result changes the count of failures in a row. *)
Definition count_result (n : Z) (r : PermitResult) : Z :=
  match r with PermitSucceeded => 0 | PermitFailed => n + 1 | _ => n end.

Lemma count_unsucceeded n r :
  is_succeeded r = false -> count_result n r = n + (if is_failed r then 1 else 0).
Proof. destruct r; simpl; done || lia. Qed.

Lemma tripping_from_cons threshold n r rs :
  0 <= n < threshold ->
  (tripping_from threshold n (r :: rs) <-> tripping_from threshold (count_result n r) rs).
Proof.
  intros Hn. split.
  - assert (Hhead : forall b d m, 0 <= m <= n -> r :: rs = b ++ d ->
      Forall (λ r, is_succeeded r = false) b -> threshold <= m + failures b ->
      tripping_from threshold (count_result n r) rs).
    { intros b d m Hm Heq Hb Hf. destruct b as [|r' b]; [unfold failures in Hf; simpl in Hf; lia|].
      injection Heq as <- ->. apply Forall_cons in Hb as [Hr Hb]. rewrite failures_cons in Hf.
      left. exists b, d. rewrite count_unsucceeded by done. split_and!; [done..|lia]. }
    intros [(b & d & Heq & Hb & Hf)|([|r' a] & b & d & Heq & Hb & Hf)].
    + by apply (Hhead b d n); [lia|..].
    + by apply (Hhead b d 0); [lia|..].
    + injection Heq as _ ->. right. by exists a, b, d.
  - intros [(b & d & -> & Hb & Hf)|(a & b & d & -> & Hb & Hf)].
    + destruct (is_succeeded r) eqn:Hr.
      * right. exists [r], b, d. by destruct r.
      * left. exists (r :: b), d. rewrite failures_cons. rewrite count_unsucceeded in Hf by done.
        split_and!; [done|by constructor|lia].
    + right. by exists (r :: a), b, d.
Qed.

Lemma record_closed_spec now rs c :
  c_state c = CircuitClosed -> 0 <= consecutiveFailures c < FailureThreshold (c_config c) ->
  (c_state (record_closed now rs c) = CircuitOpen <->
   tripping_from (FailureThreshold (c_config c)) (consecutiveFailures c) rs) /\
  (c_state (record_closed now rs c) = CircuitOpen ->
   retryAt (record_closed now rs c) = now + OpenDuration (c_config c)).
Proof.
  revert c. induction rs as [|r rs IH]; intros c Hc Hn.
  { simpl. rewrite Hc. split; [|done]. split; [done|].
    intros [(b & d & Heq & _ & Hf)|(a & b & d & Heq & _ & Hf)].
    - symmetry in Heq. apply app_nil in Heq as [-> ->]. unfold failures in Hf. simpl in Hf. lia.
    - symmetry in Heq. apply app_nil in Heq as [-> [-> ->]%app_nil]. unfold failures in Hf. simpl in Hf. lia. }
  simpl. rewrite Hc, tripping_from_cons by done. unfold complete. simpl. rewrite Z.eqb_refl, Hc. simpl.
  destruct r; simpl; try (by apply IH).
  - apply (IH (set_failures 0 c)); simpl; [done|lia].
  - destruct (Z.leb_spec (FailureThreshold (c_config c)) (consecutiveFailures c + 1)); simpl.
    + assert (Hstop : record_closed now rs (toOpenLocked now (set_failures (consecutiveFailures c + 1) c)) =
                      toOpenLocked now (set_failures (consecutiveFailures c + 1) c)) by (by destruct rs).
      rewrite Hstop. simpl. split; [|done]. split; [|done]. intros _. left. exists [], rs.
      split_and!; [done|constructor|]. unfold failures. simpl. lia.
    + apply (IH (set_failures (consecutiveFailures c + 1) c)); simpl; [done|lia].
Qed.

(** A closed circuit with a clean record opens exactly when the results
    recorded for it contain [FailureThreshold] failures with no success
    between them (released permits count neither way), and it then opens
    until [OpenDuration] after the last of them. *)
Theorem closed_circuit_opens config c now rs :
  NewCircuit config true = Ok c ->
  let c' := record_closed now rs c in
  (c_state c' = CircuitOpen <-> tripping (FailureThreshold config) rs) /\
  (c_state c' = CircuitOpen -> retryAt c' = now + OpenDuration config).
Proof.
  unfold NewCircuit. intros H. split_matches. to_prop.
  destruct (record_closed_spec now rs (mkCircuit config CircuitClosed 0 0 0 0 0)) as [Hiff Hat]; simpl; [done|lia|].
  split; [|done]. rewrite Hiff. simpl. split.
  - intros [(b & d & -> & Hb & Hf)|?]; [|done]. by exists [], b, d.
  - by right.
Qed.

Lemma closed_circuit_opens_witness :
  c_state (record_closed 100 [PermitFailed; PermitReleased; PermitFailed] demo_circuit) = CircuitOpen.
Proof.
  apply (closed_circuit_opens demo_circuit_config demo_circuit 100
           [PermitFailed; PermitReleased; PermitFailed] eq_refl).
  exists [], [PermitFailed; PermitReleased; PermitFailed], [].
  split; [reflexivity|]. split; [repeat constructor|]. vm_compute. discriminate.
Defined.

(** ** Recovery *)

(** Probing: acquire a permit at [now] and report its success, [k] times. *)
Fixpoint probe (now : Z) (k : nat) (c : Circuit) : Circuit :=
  match k with
  | O => c
  | S k' =>
      match Acquire now c with
      | (r, c1) =>
          match AcPermit r with
          | Some p => probe now k' (snd (complete now p PermitSucceeded c1))
          | None => c1
          end
      end
  end.

Lemma probe_half_open now c k :
  c_state c = CircuitHalfOpen -> halfOpenInFlight c = 0 -> 0 < HalfOpenMaxInFlight (c_config c) ->
  halfOpenSuccesses c + Z.of_nat k = SuccessThreshold (c_config c) -> k <> 0%nat ->
  c_state (probe now k c) = CircuitClosed /\ consecutiveFailures (probe now k c) = 0 /\
  c_config (probe now k c) = c_config c.
Proof.
  revert c. induction k as [|k IH]; intros c Hs Hi Hm Hk Hne; [done|]. simpl.
  unfold Acquire. rewrite Hs. simpl. rewrite Hs, Hi. simpl.
  destruct (Z.leb_spec (HalfOpenMaxInFlight (c_config c)) 0); [lia|]. simpl.
  unfold complete. simpl. rewrite Z.eqb_refl, Hs. simpl.
  destruct (Z.leb_spec (SuccessThreshold (c_config c)) (halfOpenSuccesses c + 1)).
  - simpl. destruct k as [|k]; [done|lia].
  - cbn [snd]. destruct k as [|k]; [lia|]. apply (IH (set_successes (halfOpenSuccesses c + 1) (set_inflight 0 (set_inflight 1 c)))); simpl; done || lia.
Qed.

(** An open circuit recovers: once its [retryAt] has come, probing it
    with [SuccessThreshold] successful requests, one at a time, closes it
    with a clean record. *)
Theorem circuit_recovers config n s now :
  creachable config n s -> Z.of_nat n < 2 ^ 64 ->
  c_state (circuit s) = CircuitOpen -> retryAt (circuit s) <= now ->
  let c' := probe now (Z.to_nat (SuccessThreshold config)) (circuit s) in
  c_state c' = CircuitClosed /\ consecutiveFailures c' = 0 /\ c_config c' = config.
Proof.
  intros Hr Hn Ho Hnow. pose proof (creachable_CInv _ _ _ Hr Hn) as Hc.
  pose proof (creachable_config _ _ _ Hr) as Hcfg. destruct (ci_config _ _ Hc) as (_ & Hst & Hmax).
  rewrite Hcfg in *. set (k := Z.to_nat (SuccessThreshold config)).
  assert (Heq : probe now k (circuit s) = probe now k (toHalfOpenLocked (circuit s))).
  { destruct k as [|k'] eqn:Hk; [lia|]. simpl. unfold Acquire, Before. rewrite Ho.
    destruct (Z.ltb_spec now (retryAt (circuit s))); [lia|]. done. }
  simpl. rewrite Heq.
  destruct (probe_half_open now (toHalfOpenLocked (circuit s)) k) as (H1 & H2 & H3); simpl; rewrite ?Hcfg; try done; try lia.
  rewrite H3. simpl. by rewrite Hcfg.
Qed.

Lemma demo_tripped :
  exists s, creachable demo_circuit_config 6 s /\ circuit s = mkCircuit demo_circuit_config CircuitOpen 1 0 0 0 150.
Proof.
  set (p := mkPermit 0 CircuitClosed).
  exists (mkCSystem (mkCircuit demo_circuit_config CircuitOpen 1 0 0 0 150) ∅).
  split; [|reflexivity]. exists demo_circuit. split; [reflexivity|].
  eapply nsteps_l; [by eapply (cstep_acquire 10 0 demo_circuit _ _ p)|].
  eapply nsteps_l; [eapply (cstep_mark 0 p PermitFailed); [apply lookup_insert_eq|done]|].
  eapply nsteps_l; [eapply (cstep_record 100 0 p PermitFailed); apply lookup_insert_eq|].
  rewrite insert_insert_eq, delete_insert_id by done.
  eapply nsteps_l; [by eapply (cstep_acquire 10 0 _ _ _ p)|].
  eapply nsteps_l; [eapply (cstep_mark 0 p PermitFailed); [apply lookup_insert_eq|done]|].
  eapply nsteps_l; [eapply (cstep_record 100 0 p PermitFailed); apply lookup_insert_eq|].
  rewrite insert_insert_eq, delete_insert_id by done. apply nsteps_O.
Qed.

Lemma circuit_recovers_witness :
  c_state (probe 200 2 (mkCircuit demo_circuit_config CircuitOpen 1 0 0 0 150)) = CircuitClosed.
Proof.
  destruct demo_tripped as (s & Hr & Hs). rewrite <- Hs.
  refine (proj1 (circuit_recovers demo_circuit_config 6 s 200 Hr _ _ _)).
  - vm_compute. reflexivity.
  - rewrite Hs. reflexivity.
  - rewrite Hs. vm_compute. discriminate.
Defined.
