(* ===== verification/GoStrings.v ===== *)
(** * Go strings

    A Go string is a byte string.  This file holds the parts of the standard
    library's [strings] and [unicode] packages the modelled code calls. *)

From Stdlib Require Export Ascii.
From S2P Require Import Prelude.

Local Open Scope Z_scope.

Definition byte (n : N) : ascii := ascii_of_N n.
Definition code (c : ascii) : Z := Z.of_N (N_of_ascii c).

(** Removes one white-space rune ([unicode.IsSpace]) from the front of a byte
    string: the ASCII spaces, U+0085, U+00A0, U+1680, U+2000..U+200A, U+2028,
    U+2029, U+202F, U+205F and U+3000 in their UTF-8 encoding.  A byte that is
    not part of a valid encoding is U+FFFD, which is no space. *)
Definition between (lo hi z : Z) : bool := ((lo <=? z) && (z <=? hi))%bool.

Definition skip_space (s : string) : option string :=
  match s with
  | String a r =>
      if (between 9 13 (code a) || (code a =? 32))%bool then Some r
      else
        match r with
        | String b r' =>
            if ((code a =? 194) && ((code b =? 133) || (code b =? 160)))%bool then Some r'
            else
              match r' with
              | String c r'' =>
                  if (((code a =? 225) && (code b =? 154) && (code c =? 128)) ||
                      ((code a =? 226) && (code b =? 128) &&
                         (between 128 138 (code c) || between 168 169 (code c) || (code c =? 175))) ||
                      ((code a =? 226) && (code b =? 129) && (code c =? 159)) ||
                      ((code a =? 227) && (code b =? 128) && (code c =? 128)))%bool
                  then Some r'' else None
              | EmptyString => None
              end
        | EmptyString => None
        end
  | EmptyString => None
  end.

(** [strings.TrimLeftFunc(s, unicode.IsSpace)]; the fuel is the length. *)
Fixpoint trim_left (fuel : nat) (s : string) : string :=
  match fuel with
  | O => s
  | S fuel' => match skip_space s with Some r => trim_left fuel' r | None => s end
  end.

(** [strings.TrimSpace(s) == ""]: trimming the left leaves nothing exactly
    when every rune is a space. *)
Definition blank (s : string) : bool := bool_decide (trim_left (String.length s) s = "").

Lemma skip_space_length s r : skip_space s = Some r -> (String.length r < String.length s)%nat.
Proof.
  destruct s as [|a [|b [|c r']]]; simpl; [done|..]; intros H; repeat case_match; simplify_eq; simpl; lia.
Qed.

(** The length is enough fuel: what is left does not start with a space. *)
Lemma trim_left_done fuel s : (String.length s <= fuel)%nat -> skip_space (trim_left fuel s) = None.
Proof.
  revert s. induction fuel as [|fuel IH]; intros s Hs; simpl.
  - by destruct s; [|simpl in Hs; lia].
  - destruct (skip_space s) as [r|] eqn:Hr; [|done]. apply IH. apply skip_space_length in Hr. lia.
Qed.

Lemma blank_empty : blank "" = true.
Proof. done. Qed.

(** The same from the back: [skip_space_back] takes the reversed byte string. *)
Definition skip_space_back (s : string) : option string :=
  match s with
  | String c r =>
      if (between 9 13 (code c) || (code c =? 32))%bool then Some r
      else
        match r with
        | String b r' =>
            if ((code b =? 194) && ((code c =? 133) || (code c =? 160)))%bool then Some r'
            else
              match r' with
              | String a r'' =>
                  match skip_space (String a (String b (String c EmptyString))) with
                  | Some EmptyString => Some r''
                  | _ => None
                  end
              | EmptyString => None
              end
        | EmptyString => None
        end
  | EmptyString => None
  end.

Fixpoint trim_back (fuel : nat) (s : string) : string :=
  match fuel with
  | O => s
  | S fuel' => match skip_space_back s with Some r => trim_back fuel' r | None => s end
  end.

(** [strings.TrimSpace] *)
Definition TrimSpace (s : string) : string :=
  let left := trim_left (String.length s) s in
  String.rev (trim_back (String.length left) (String.rev left)).

Lemma rev_app_length a b : String.length (String.rev_app a b) = (String.length a + String.length b)%nat.
Proof. revert b. induction a as [|x a IH]; intros b; simpl; [done|]. rewrite IH. simpl. lia. Qed.

Lemma rev_length a : String.length (String.rev a) = String.length a.
Proof. unfold String.rev. rewrite rev_app_length. simpl. lia. Qed.

Lemma trim_left_length fuel s : (String.length (trim_left fuel s) <= String.length s)%nat.
Proof.
  revert s. induction fuel as [|fuel IH]; intros s; simpl; [done|].
  destruct (skip_space s) as [r|] eqn:Hr; [|done]. apply skip_space_length in Hr. specialize (IH r). lia.
Qed.

Lemma trim_back_length fuel s : (String.length (trim_back fuel s) <= String.length s)%nat.
Proof.
  revert s. induction fuel as [|fuel IH]; intros s; simpl; [done|].
  destruct (skip_space_back s) as [r|] eqn:Hr; [|done]. specialize (IH r).
  assert (String.length r < String.length s)%nat; [|lia].
  destruct s as [|a [|b [|c r']]]; simpl in Hr; try done; repeat case_match; simplify_eq; simpl; lia.
Qed.

(** Trimming never makes a string longer. *)
Lemma TrimSpace_length s : (String.length (TrimSpace s) <= String.length s)%nat.
Proof.
  unfold TrimSpace. rewrite rev_length. pose proof (trim_left_length (String.length s) s) as H1.
  pose proof (trim_back_length (String.length (trim_left (String.length s) s)) (String.rev (trim_left (String.length s) s))) as H2.
  rewrite rev_length in H2. lia.
Qed.

Example TrimSpace_sample : TrimSpace (" [DONE]" +:+ String (byte 13) (String (byte 10) "")) = "[DONE]".
Proof. reflexivity. Qed.

(** ** Concatenation *)

Lemma append_inj_l s1 s1' s2 s2' :
  String.length s1 = String.length s1' -> s1 +:+ s2 = s1' +:+ s2' -> s1 = s1' /\ s2 = s2'.
Proof.
  revert s1'. induction s1 as [|a s1 IH]; intros [|a' s1'] Hlen Heq; simpl in *; try done.
  injection Heq as -> Heq. destruct (IH s1') as [-> ->]; [lia|done|done].
Qed.

Lemma append_prefix_inj (p a b : string) : p +:+ a = p +:+ b -> a = b.
Proof. induction p as [|x p IH]; simpl; [done|]. intros [= H]. auto. Qed.

Lemma append_length a b : String.length (a +:+ b) = (String.length a + String.length b)%nat.
Proof. induction a as [|x a IH]; simpl; [done|]. by rewrite IH. Qed.

(** [strings.ReplaceAll(s, "-", "")] *)
Fixpoint drop_dashes (s : string) : string :=
  match s with
  | EmptyString => EmptyString
  | String a s' => if decide (a = byte 45) then drop_dashes s' else String a (drop_dashes s')
  end.
