(* ===== verification/Valkey.v ===== *)
(** * Valkey: the commands the coordination scripts rely on

    The coordinator of [src/internal/coordination] runs Lua scripts inside a
    Valkey server, which is not part of the repository.  The class [Valkey]
    names the commands the scripts call and states, as laws, the documented
    behaviour they rely on: sorted sets ordered by score and then by member,
    hashes, keys that vanish when their expiry time comes, and a script that
    reads one clock and is not interleaved with other commands.

    The theorems about the scripts are proved from the laws; [GmapValkey] is
    a concrete server that satisfies them. *)

From S2P Require Import Prelude.

Local Open Scope Z_scope.

(** ** Sorted sets *)

(** Members in the order of ZRANGE: by score, equal scores by member. *)
Definition entry_le (a b : string * Z) : Prop :=
  a.2 < b.2 \/ a.2 = b.2 /\ String.le a.1 b.1.

#[export] Instance entry_le_dec : RelDecision entry_le.
Proof. intros a b. unfold entry_le. apply _. Defined.

#[export] Instance entry_le_total : Total entry_le.
Proof.
  intros [m x] [m' x']. unfold entry_le. simpl. destruct (Z.lt_trichotomy x x') as [?|[->|?]]; [auto| |auto].
  destruct (String.le_total m m'); [left|right]; auto.
Qed.

#[export] Instance entry_le_trans : Transitive entry_le.
Proof.
  intros [m1 x1] [m2 x2] [m3 x3]. unfold entry_le. simpl.
  intros [?|[-> H1]] [?|[-> H2]]; [left; lia|left; lia|left; lia|right].
  split; [done|]. by transitivity m2.
Qed.

Definition by_score (m : gmap string Z) : list (string * Z) := merge_sort entry_le (map_to_list m).

Lemma by_score_perm m : by_score m ≡ₚ map_to_list m.
Proof. apply merge_sort_Permutation. Qed.

Lemma by_score_sorted m : StronglySorted entry_le (by_score m).
Proof. apply StronglySorted_merge_sort; apply _. Qed.

Lemma elem_of_by_score m k x : (k, x) ∈ by_score m <-> m !! k = Some x.
Proof. by rewrite by_score_perm, elem_of_map_to_list. Qed.

Lemma length_by_score m : length (by_score m) = size m.
Proof. by rewrite by_score_perm, length_map_to_list. Qed.

(** The members with a score above [t]. *)
Definition above (t : Z) (m : gmap string Z) : gmap string Z := filter (λ kv, t < kv.2) m.

Lemma lookup_above t m k x : above t m !! k = Some x <-> m !! k = Some x /\ t < x.
Proof. unfold above. by rewrite map_lookup_filter_Some. Qed.

Lemma above_above t t' m : above t' (above t m) = above (Z.max t t') m.
Proof.
  apply map_eq. intros k. apply option_eq. intros x. rewrite !lookup_above. naive_solver lia.
Qed.

Lemma above_id t m : (forall k x, m !! k = Some x -> t < x) -> above t m = m.
Proof.
  intros H. apply map_eq. intros k. apply option_eq. intros x. rewrite lookup_above. naive_solver.
Qed.

(** ** The interface *)

(** The part of the server's state the scripts see: its clock, the sorted set
    and the hash stored at a key (empty when there is none), whether a key of
    any type exists, and when a key expires. *)
Class Valkey (S : Type) := {
  clock : S -> Z;
  zset : S -> string -> gmap string Z;
  hash : S -> string -> gmap string string;
  flag : S -> string -> bool;
  expiry : S -> string -> option Z;

  ZREMRANGEBYSCORE : string -> Z -> S -> Z * S;
  ZSCORE : string -> string -> S -> option Z;
  ZCARD : string -> S -> Z;
  ZRANGE_WITHSCORES : string -> Z -> Z -> S -> list (string * Z);
  ZREVRANGE_WITHSCORES : string -> Z -> Z -> S -> list (string * Z);
  ZADD : string -> Z -> string -> S -> S;
  ZREM : string -> string -> S -> Z * S;
  HMGET : string -> list string -> S -> list (option string);
  HSET : string -> list (string * string) -> S -> S;
  EXISTS : string -> S -> bool;
  SET_NX_PX : string -> Z -> S -> bool * S;
  DEL : string -> S -> S;
  PEXPIREAT : string -> Z -> S -> S;
  PEXPIRE : string -> Z -> S -> S;
  (** Time passes to [t]; keys whose expiry has come vanish. *)
  elapse : Z -> S -> S;
}.

(** Two states that differ at most in the value stored at [k]. *)
Record same_except {S} `{!Valkey S} (k : string) (s s' : S) : Prop := {
  sx_clock : clock s' = clock s;
  sx_zset : forall k', k' <> k -> zset s' k' = zset s k';
  sx_hash : forall k', k' <> k -> hash s' k' = hash s k';
  sx_flag : forall k', k' <> k -> flag s' k' = flag s k';
  sx_expiry : forall k', k' <> k -> expiry s' k' = expiry s k';
}.

(** Documented behaviour. *)
Class ValkeyLaws (S : Type) `{!Valkey S} := {
  zremrangebyscore_count k t (s : S) :
    (ZREMRANGEBYSCORE k t s).1 = Z.of_nat (size (zset s k)) - Z.of_nat (size (above t (zset s k)));
  zremrangebyscore_zset k t (s : S) : zset (ZREMRANGEBYSCORE k t s).2 k = above t (zset s k);
  zremrangebyscore_expiry k t (s : S) :
    above t (zset s k) <> ∅ -> expiry (ZREMRANGEBYSCORE k t s).2 k = expiry s k;
  zremrangebyscore_frame k t (s : S) : same_except k s (ZREMRANGEBYSCORE k t s).2;
  zscore_zset k m (s : S) : ZSCORE k m s = zset s k !! m;
  zcard_zset k (s : S) : ZCARD k s = Z.of_nat (size (zset s k));
  zrange_one k i (s : S) : 0 <= i ->
    ZRANGE_WITHSCORES k i i s = option_list (by_score (zset s k) !! Z.to_nat i);
  zrevrange_first k (s : S) :
    ZREVRANGE_WITHSCORES k 0 0 s = option_list (last (by_score (zset s k)));
  zadd_zset k x m (s : S) : zset (ZADD k x m s) k = <[m := x]> (zset s k);
  zadd_frame k x m (s : S) : same_except k s (ZADD k x m s);
  zrem_count k m (s : S) : (ZREM k m s).1 = match zset s k !! m with Some _ => 1 | None => 0 end;
  zrem_zset k m (s : S) : zset (ZREM k m s).2 k = delete m (zset s k);
  zrem_frame k m (s : S) : same_except k s (ZREM k m s).2;
  hmget_hash k fs (s : S) : HMGET k fs s = (λ f, hash s k !! f) <$> fs;
  hset_hash k fvs (s : S) : hash (HSET k fvs s) k = foldl (λ h fv, <[fv.1 := fv.2]> h) (hash s k) fvs;
  hset_frame k fvs (s : S) : same_except k s (HSET k fvs s);
  exists_flag k (s : S) : EXISTS k s = flag s k;
  set_nx_px k px (s : S) : 0 < px ->
    (SET_NX_PX k px s).1 = negb (flag s k) /\
    flag (SET_NX_PX k px s).2 k = true /\
    (flag s k = false -> expiry (SET_NX_PX k px s).2 k = Some (clock s + px)) /\
    (flag s k = true -> (SET_NX_PX k px s).2 = s);
  set_nx_px_frame k px (s : S) : same_except k s (SET_NX_PX k px s).2;
  del_zset k (s : S) : zset (DEL k s) k = ∅;
  del_frame k (s : S) : same_except k s (DEL k s);
  pexpireat_key k t (s : S) : clock s < t -> zset s k <> ∅ ->
    zset (PEXPIREAT k t s) k = zset s k /\ expiry (PEXPIREAT k t s) k = Some t;
  pexpireat_frame k t (s : S) : same_except k s (PEXPIREAT k t s);
  pexpire_key k d (s : S) : 0 < d -> hash s k <> ∅ ->
    hash (PEXPIRE k d s) k = hash s k /\ expiry (PEXPIRE k d s) k = Some (clock s + d);
  pexpire_frame k d (s : S) : same_except k s (PEXPIRE k d s);
  elapse_clock t (s : S) : clock s <= t -> clock (elapse t s) = t;
  elapse_zset t k (s : S) : clock s <= t ->
    zset (elapse t s) k = match expiry s k with
                          | Some e => if e <=? t then ∅ else zset s k
                          | None => zset s k
                          end;
  elapse_hash t k (s : S) : clock s <= t ->
    hash (elapse t s) k = match expiry s k with
                          | Some e => if e <=? t then ∅ else hash s k
                          | None => hash s k
                          end;
  elapse_flag t k (s : S) : clock s <= t ->
    flag (elapse t s) k = match expiry s k with
                          | Some e => if e <=? t then false else flag s k
                          | None => flag s k
                          end;
  elapse_expiry t k (s : S) : clock s <= t ->
    expiry (elapse t s) k = match expiry s k with
                            | Some e => if e <=? t then None else Some e
                            | None => None
                            end;
}.

Section frame.
Context {S : Type} `{!Valkey S}.

Lemma same_except_refl k (s : S) : same_except k s s.
Proof. done. Qed.

Lemma same_except_trans k (s1 s2 s3 : S) :
  same_except k s1 s2 -> same_except k s2 s3 -> same_except k s1 s3.
Proof.
  intros [H1 H2 H3 H4 H5] [G1 G2 G3 G4 G5].
  split; [congruence|..]; intros k' Hk'; [rewrite G2, H2|rewrite G3, H3|rewrite G4, H4|rewrite G5, H5]; done.
Qed.
End frame.

(** ** A concrete server *)

Inductive value :=
| VZset (m : gmap string Z)
| VHash (h : gmap string string)
| VFlag.

Record Server := mkServer {
  sv_clock : Z;
  sv_keys : gmap string (value * option Z);
}.

Definition sv_put (k : string) (v : value) (s : Server) : Server :=
  mkServer (sv_clock s) (<[k := (v, (sv_keys s !! k) ≫= snd)]> (sv_keys s)).
Definition sv_del (k : string) (s : Server) : Server := mkServer (sv_clock s) (delete k (sv_keys s)).
Definition sv_expire (k : string) (t : Z) (s : Server) : Server :=
  if t <=? sv_clock s then sv_del k s
  else match sv_keys s !! k with
       | Some (v, _) => mkServer (sv_clock s) (<[k := (v, Some t)]> (sv_keys s))
       | None => s
       end.

Definition sv_zset (s : Server) (k : string) : gmap string Z :=
  match sv_keys s !! k with Some (VZset m, _) => m | _ => ∅ end.
Definition sv_hash (s : Server) (k : string) : gmap string string :=
  match sv_keys s !! k with Some (VHash h, _) => h | _ => ∅ end.
Definition sv_flag (s : Server) (k : string) : bool :=
  match sv_keys s !! k with Some _ => true | None => false end.
Definition sv_expiry (s : Server) (k : string) : option Z := (sv_keys s !! k) ≫= snd.

(** Storing a sorted set; an empty one is no key. *)
Definition sv_put_zset (k : string) (m : gmap string Z) (s : Server) : Server :=
  if decide (m = ∅) then sv_del k s else sv_put k (VZset m) s.

Definition sv_live (t : Z) (e : string * (value * option Z)) : bool :=
  match e.2.2 with Some x => negb (x <=? t) | None => true end.

#[export] Instance GmapValkey : Valkey Server := {|
  clock := sv_clock;
  zset := sv_zset;
  hash := sv_hash;
  flag := sv_flag;
  expiry := sv_expiry;
  ZREMRANGEBYSCORE k t s :=
    (Z.of_nat (size (sv_zset s k)) - Z.of_nat (size (above t (sv_zset s k))),
     sv_put_zset k (above t (sv_zset s k)) s);
  ZSCORE k m s := sv_zset s k !! m;
  ZCARD k s := Z.of_nat (size (sv_zset s k));
  ZRANGE_WITHSCORES k i j s :=
    take (Z.to_nat (j - i + 1)) (drop (Z.to_nat i) (by_score (sv_zset s k)));
  ZREVRANGE_WITHSCORES k i j s :=
    take (Z.to_nat (j - i + 1)) (drop (Z.to_nat i) (reverse (by_score (sv_zset s k))));
  ZADD k x m s := sv_put k (VZset (<[m := x]> (sv_zset s k))) s;
  ZREM k m s := (match sv_zset s k !! m with Some _ => 1 | None => 0 end, sv_put_zset k (delete m (sv_zset s k)) s);
  HMGET k fs s := (λ f, sv_hash s k !! f) <$> fs;
  HSET k fvs s := sv_put k (VHash (foldl (λ h fv, <[fv.1 := fv.2]> h) (sv_hash s k) fvs)) s;
  EXISTS k s := sv_flag s k;
  SET_NX_PX k px s :=
    if sv_flag s k then (false, s)
    else (true, mkServer (sv_clock s) (<[k := (VFlag, Some (sv_clock s + px))]> (sv_keys s)));
  DEL k s := sv_del k s;
  PEXPIREAT k t s := sv_expire k t s;
  PEXPIRE k d s := sv_expire k (sv_clock s + d) s;
  elapse t s := mkServer t (filter (λ e, sv_live t e = true) (sv_keys s));
|}.

Lemma sv_same_except k s s' :
  sv_clock s' = sv_clock s -> (forall k', k' <> k -> sv_keys s' !! k' = sv_keys s !! k') ->
  same_except k s s'.
Proof.
  intros Hc Hk. split; simpl; [done|..]; intros k' Hk'; unfold sv_zset, sv_hash, sv_flag, sv_expiry;
    by rewrite Hk.
Qed.

Lemma sv_put_frame k v s : same_except k s (sv_put k v s).
Proof. apply sv_same_except; [done|]. intros k' Hk'. simpl. by rewrite lookup_insert_ne. Qed.

Lemma sv_del_frame k s : same_except k s (sv_del k s).
Proof. apply sv_same_except; [done|]. intros k' Hk'. simpl. by rewrite lookup_delete_ne. Qed.

Lemma sv_put_zset_frame k m s : same_except k s (sv_put_zset k m s).
Proof. unfold sv_put_zset. case_decide; [apply sv_del_frame|apply sv_put_frame]. Qed.

Lemma sv_expire_frame k t s : same_except k s (sv_expire k t s).
Proof.
  unfold sv_expire. destruct (t <=? sv_clock s); [apply sv_del_frame|].
  destruct (sv_keys s !! k) as [[v e]|]; [|apply same_except_refl].
  apply sv_same_except; [done|]. intros k' Hk'. simpl. by rewrite lookup_insert_ne.
Qed.

Lemma sv_put_zset_zset k m s : sv_zset (sv_put_zset k m s) k = m.
Proof.
  unfold sv_put_zset, sv_zset. case_decide; simpl.
  - by rewrite lookup_delete_eq.
  - by rewrite lookup_insert_eq.
Qed.

Lemma take_one_drop {A} (l : list A) i : take 1 (drop i l) = option_list (l !! i).
Proof. revert i. induction l as [|x l IH]; intros [|i]; simpl; try done. Qed.

Lemma sv_elapse_lookup t k s :
  filter (λ e, sv_live t e = true) (sv_keys s) !! k =
    match sv_keys s !! k with
    | Some (v, Some e) => if e <=? t then None else Some (v, Some e)
    | x => x
    end.
Proof.
  rewrite map_lookup_filter. destruct (sv_keys s !! k) as [[v [e|]]|]; simpl; [|done..].
  unfold sv_live. simpl. by destruct (e <=? t).
Qed.

Lemma sv_set_nx_px k px s :
  0 < px ->
  (SET_NX_PX k px s).1 = negb (flag s k) /\ flag (SET_NX_PX k px s).2 k = true /\
  (flag s k = false -> expiry (SET_NX_PX k px s).2 k = Some (clock s + px)) /\
  (flag s k = true -> (SET_NX_PX k px s).2 = s).
Proof.
  intros Hpx. simpl. destruct (sv_flag s k) eqn:Hf; simpl; [by rewrite Hf|].
  unfold sv_flag, sv_expiry. simpl. rewrite lookup_insert_eq. simpl. done.
Qed.

Lemma sv_expire_key k t s v :
  sv_clock s < t -> sv_keys s !! k = Some v -> sv_keys (sv_expire k t s) !! k = Some (v.1, Some t).
Proof.
  intros Ht Hk. unfold sv_expire. destruct (Z.leb_spec t (sv_clock s)); [lia|].
  rewrite Hk. destruct v. simpl. apply lookup_insert_eq.
Qed.

#[export] Instance GmapValkeyLaws : ValkeyLaws Server.
Proof.
  split.
  - done.
  - intros k t s. apply sv_put_zset_zset.
  - intros k t s Hne. simpl. unfold sv_put_zset, sv_expiry. rewrite decide_False by done. simpl.
    by rewrite lookup_insert_eq.
  - intros k t s. apply sv_put_zset_frame.
  - done.
  - done.
  - intros k i s Hi. simpl. replace (i - i + 1) with 1 by lia. apply take_one_drop.
  - intros k s. simpl. rewrite last_lookup. change (Z.to_nat 0) with 0%nat. rewrite drop_0.
    change (Z.to_nat (0 - 0 + 1)) with 1%nat. set (l := by_score _). clearbody l.
    rewrite <- last_lookup. destruct l as [|x l _] using rev_ind; [done|]. by rewrite reverse_snoc, last_snoc.
  - intros k x m s. simpl. unfold sv_zset at 1. simpl. by rewrite lookup_insert_eq.
  - intros k x m s. apply sv_put_frame.
  - done.
  - intros k m s. apply sv_put_zset_zset.
  - intros k m s. apply sv_put_zset_frame.
  - done.
  - intros k fvs s. simpl. unfold sv_hash at 1. simpl. by rewrite lookup_insert_eq.
  - intros k fvs s. apply sv_put_frame.
  - done.
  - apply sv_set_nx_px.
  - intros k px s. simpl. destruct (sv_flag s k); [apply same_except_refl|].
    apply sv_same_except; [done|]. intros k' Hk'. simpl. by rewrite lookup_insert_ne.
  - intros k s. simpl. unfold sv_zset. simpl. by rewrite lookup_delete_eq.
  - intros k s. apply sv_del_frame.
  - intros k t s Ht Hne. simpl in *. unfold sv_zset, sv_expiry in *.
    destruct (sv_keys s !! k) as [[v e]|] eqn:Hk; [|done]. by rewrite (sv_expire_key _ _ _ _ Ht Hk).
  - intros k t s. apply sv_expire_frame.
  - intros k d s Hd Hne. simpl in *. unfold sv_hash, sv_expiry in *.
    destruct (sv_keys s !! k) as [[v e]|] eqn:Hk; [|done].
    by rewrite (sv_expire_key k (sv_clock s + d) s _ ltac:(lia) Hk).
  - intros k d s. apply sv_expire_frame.
  - done.
  - intros t k s _. simpl. unfold sv_zset, sv_expiry. simpl. rewrite sv_elapse_lookup.
    destruct (sv_keys s !! k) as [[v [e|]]|]; simpl; [destruct (e <=? t)|..]; done.
  - intros t k s _. simpl. unfold sv_hash, sv_expiry. simpl. rewrite sv_elapse_lookup.
    destruct (sv_keys s !! k) as [[v [e|]]|]; simpl; [destruct (e <=? t)|..]; done.
  - intros t k s _. simpl. unfold sv_flag, sv_expiry. simpl. rewrite sv_elapse_lookup.
    destruct (sv_keys s !! k) as [[v [e|]]|]; simpl; [destruct (e <=? t)|..]; done.
  - intros t k s _. simpl. unfold sv_expiry. simpl. rewrite sv_elapse_lookup.
    destruct (sv_keys s !! k) as [[v [e|]]|]; simpl; [destruct (e <=? t)|..]; done.
Qed.
