(* ===== verification/Lease.v ===== *)
(** * Leases: concurrency limits held in Valkey

    Models [src/internal/coordination/types.go], [coordinator.go], [lease.go]
    and the Lua scripts of [lease_script.go].

    A script runs atomically on the server, so it is a function of the server
    state; [now_ms] is the server's clock in milliseconds.  Scores and times
    are integers well below [2^53], which Lua's numbers hold exactly, so
    [math.floor] and [math.ceil] of a score are the identity.  A Lua table is
    a list.  Keyed hashing of identifiers is the argument [hmac]. *)

From S2P Require Import Prelude GoStrings Valkey.

Local Open Scope Z_scope.

(** ** types.go *)

Inductive Scope :=
| ScopeGlobal | ScopeResourcePool | ScopeModel | ScopeProvider | ScopeCredential | ScopeSharedUpstream
| ScopeOther (s : string).

Definition scope_string (s : Scope) : string :=
  match s with
  | ScopeGlobal => "global" | ScopeResourcePool => "resource_pool" | ScopeModel => "model"
  | ScopeProvider => "provider" | ScopeCredential => "credential"
  | ScopeSharedUpstream => "shared_upstream" | ScopeOther s => s
  end.

Record Dimension := mkDimension { DScope : Scope; SubjectID : string }.

Definition GlobalDimension : Dimension := mkDimension ScopeGlobal "".

Record ConcurrencyLimit := mkConcurrencyLimit { LimDimension : Dimension; MaxInFlight : Z }.
Record LeaseRef := mkLeaseRef { LeaseID : string; LeaseDimensions : list Dimension }.
Record ConcurrencyState := mkConcurrencyState { StDimension : Dimension; InUse : Z; Limit : Z }.

Record LeaseDecision := mkLeaseDecision {
  Granted : bool;
  DecLease : LeaseRef;
  ObservedAt : Z;
  ExpiresAt : Z;
  RetryAt : Z;
  DecDimensions : list ConcurrencyState;
}.

Record CleanupResult := mkCleanupResult {
  CleanObservedAt : Z;
  Removed : Z;
  CleanInUse : list ConcurrencyState;
}.

(** The sentinel errors of the package, with the message of the wrapping. *)
Inductive CoordError :=
| ErrInvalidInput (message : string)
| ErrUnavailable (operation message : string)
| ErrLeaseLost.

(** ** lease_script.go *)

Definition leaseKeyGraceMilliseconds : Z := 1000.

Section scripts.
Context {S : Type} `{!Valkey S}.

(** [local function retain_live_key(key)], also inlined in two scripts. *)
Definition retain_live_key (grace_ms : Z) (key : string) (s : S) : S :=
  match ZREVRANGE_WITHSCORES key 0 0 s with
  | [] => DEL key s
  | tail :: _ => PEXPIREAT key (tail.2 + grace_ms) s
  end.

(** The first loop of [acquireLeaseScript]: [counts] and [retry_after_ms]
    accumulate; an error reply aborts the script, keeping its effects. *)
Fixpoint acquire_check (now_ms : Z) (member : string) (keys : list (string * Z)) (counts : list Z)
    (retry_after_ms : Z) (s : S) : result string (list Z * Z) * S :=
  match keys with
  | [] => (Ok (counts, retry_after_ms), s)
  | (key, limit) :: keys' =>
      let s1 := (ZREMRANGEBYSCORE key now_ms s).2 in
      let exists_ := bool_decide (is_Some (ZSCORE key member s1)) in
      let count := ZCARD key s1 in
      if (negb exists_ && (limit <=? count))%bool then
        let blocking_index := count - limit in
        match ZRANGE_WITHSCORES key blocking_index blocking_index s1 with
        | [blocking] =>
            acquire_check now_ms member keys' (counts ++ [count])
              (Z.max retry_after_ms (Z.max 1 (blocking.2 - now_ms))) s1
        | _ => (Err "CORRUPT_COORDINATION_LEASE", s1)
        end
      else acquire_check now_ms member keys' (counts ++ [count]) retry_after_ms s1
  end.

(** The loop that takes the lease on every key. *)
Fixpoint acquire_grant (expires_at_ms grace_ms : Z) (member : string) (keys : list string)
    (counts : list Z) (s : S) : list Z * S :=
  match keys, counts with
  | key :: keys', count :: counts' =>
      let existed := bool_decide (is_Some (ZSCORE key member s)) in
      let s1 := ZADD key expires_at_ms member s in
      let s2 := retain_live_key grace_ms key s1 in
      let '(rest, s3) := acquire_grant expires_at_ms grace_ms member keys' counts' s2 in
      ((if existed then count else count + 1) :: rest, s3)
  | _, _ => ([], s)
  end.

Definition retain_all (grace_ms : Z) (keys : list string) (s : S) : S :=
  foldl (λ s key, retain_live_key grace_ms key s) s keys.

Definition acquireLeaseScript (keys : list (string * Z)) (ttl_ms : Z) (member : string) (grace_ms : Z)
    (s : S) : result string (list Z) * S :=
  let now_ms := clock s in
  let expires_at_ms := now_ms + ttl_ms in
  match acquire_check now_ms member keys [] 0 s with
  | (Err e, s1) => (Err e, s1)
  | (Ok (counts, retry_after_ms), s1) =>
      if retry_after_ms =? 0 then
        let '(counts', s2) := acquire_grant expires_at_ms grace_ms member keys.*1 counts s1 in
        (Ok (1 :: now_ms :: expires_at_ms :: counts'), s2)
      else (Ok (0 :: now_ms :: retry_after_ms :: counts), retain_all grace_ms keys.*1 s1)
  end.

(** [renewLeaseScript] *)
Fixpoint renew_check (now_ms : Z) (member : string) (keys : list string) (held : bool) (s : S) : bool * S :=
  match keys with
  | [] => (held, s)
  | key :: keys' =>
      let s1 := (ZREMRANGEBYSCORE key now_ms s).2 in
      renew_check now_ms member keys'
        (match ZSCORE key member s1 with None => false | Some _ => held end) s1
  end.

Definition renewLeaseScript (keys : list string) (ttl_ms : Z) (member : string) (grace_ms : Z) (s : S) :
    list Z * S :=
  let now_ms := clock s in
  let expires_at_ms := now_ms + ttl_ms in
  let '(held, s1) := renew_check now_ms member keys true s in
  if negb held then
    ([0; now_ms; 0],
     foldl (λ s key, retain_live_key grace_ms key (ZREM key member s).2) s1 keys)
  else
    ([1; now_ms; expires_at_ms],
     foldl (λ s key, retain_live_key grace_ms key (ZADD key expires_at_ms member s)) s1 keys).

(** [releaseLeaseScript] *)
Fixpoint release_loop (now_ms grace_ms : Z) (member : string) (keys : list string) (removed : Z) (s : S) :
    Z * S :=
  match keys with
  | [] => (removed, s)
  | key :: keys' =>
      let s1 := (ZREMRANGEBYSCORE key now_ms s).2 in
      let '(n, s2) := ZREM key member s1 in
      release_loop now_ms grace_ms member keys' (removed + n) (retain_live_key grace_ms key s2)
  end.

Definition releaseLeaseScript (keys : list string) (member : string) (grace_ms : Z) (s : S) : list Z * S :=
  let now_ms := clock s in
  let '(removed, s1) := release_loop now_ms grace_ms member keys 0 s in
  ([now_ms; removed], s1).

(** [cleanupLeaseScript] *)
Fixpoint cleanup_loop (now_ms grace_ms : Z) (keys : list string) (removed : Z) (counts : list Z) (s : S) :
    Z * list Z * S :=
  match keys with
  | [] => (removed, counts, s)
  | key :: keys' =>
      let '(n, s1) := ZREMRANGEBYSCORE key now_ms s in
      let count := ZCARD key s1 in
      cleanup_loop now_ms grace_ms keys' (removed + n) (counts ++ [count]) (retain_live_key grace_ms key s1)
  end.

Definition cleanupLeaseScript (keys : list string) (grace_ms : Z) (s : S) : list Z * S :=
  let now_ms := clock s in
  let '(removed, counts, s1) := cleanup_loop now_ms grace_ms keys 0 [] s in
  (now_ms :: removed :: counts, s1).
End scripts.

(** ** coordinator.go *)

Definition minimumHashKeyBytes : Z := 32.
Definition maximumSubjectBytes : Z := 512.

Definition slen (s : string) : Z := Z.of_nat (String.length s).

(** [prefixPattern]: [^[A-Za-z0-9][A-Za-z0-9:_-]{0,79}$] *)
Definition is_alnum (a : ascii) : bool :=
  (between 48 57 (code a) || between 65 90 (code a) || between 97 122 (code a))%bool.
Definition is_prefix_char (a : ascii) : bool :=
  (is_alnum a || (code a =? 58) || (code a =? 95) || (code a =? 45))%bool.

Fixpoint string_forall (f : ascii -> bool) (s : string) : bool :=
  match s with EmptyString => true | String a s' => (f a && string_forall f s')%bool end.

Definition prefixPattern (s : string) : bool :=
  match s with
  | EmptyString => false
  | String a s' => (is_alnum a && string_forall is_prefix_char s' && (slen s' <=? 79))%bool
  end.

Record Coordinator := mkCoordinator { prefix : string; keyHashSecret : string }.

Definition New (client_present : bool) (prefix secret : string) : result CoordError Coordinator :=
  if negb client_present then Err (ErrInvalidInput "Valkey client is required")
  else if negb (prefixPattern prefix) then
    Err (ErrInvalidInput "prefix must contain 1-80 safe characters")
  else if slen secret <? minimumHashKeyBytes then
    Err (ErrInvalidInput "key hash secret must contain at least 32 bytes")
  else Ok (mkCoordinator prefix secret).

(** [binary.BigEndian.PutUint32(length, uint32(n))] *)
Definition be32 (n : Z) : string :=
  let b i := byte (Z.to_N (Z.land (Z.shiftr n i) 255)) in
  String (b 24) (String (b 16) (String (b 8) (String (b 0) EmptyString))).

(** The bytes written to the MAC: every part after its length. *)
Definition mac_input (parts : list string) : string :=
  foldr (λ part rest, be32 (slen part) +:+ part +:+ rest) "" parts.

Section coordinator.
(** [hmac secret m] is the hex encoding of HMAC-SHA256. *)
Context (hmac : string -> string -> string).

Definition digest (c : Coordinator) (parts : list string) : string :=
  hmac (keyHashSecret c) (mac_input parts).

Definition leaseKey (c : Coordinator) (d : Dimension) : string :=
  prefix c +:+ ":{coordination}:lease:" +:+ scope_string (DScope d) +:+ ":" +:+
  digest c ["dimension"; scope_string (DScope d); SubjectID d].

Definition leaseMember (c : Coordinator) (leaseID : string) : string := digest c ["lease"; leaseID].

Definition validateDimension (d : Dimension) : option CoordError :=
  match DScope d with
  | ScopeGlobal =>
      if negb (bool_decide (SubjectID d = "")) then
        Some (ErrInvalidInput "global dimension cannot have a subject ID")
      else None
  | ScopeOther _ => Some (ErrInvalidInput "unsupported dimension scope")
  | _ =>
      if blank (SubjectID d) then Some (ErrInvalidInput "dimension requires a subject ID")
      else if maximumSubjectBytes <? slen (SubjectID d) then
        Some (ErrInvalidInput "subject ID exceeds 512 bytes")
      else None
  end.

(** ** lease.go *)

Definition maximumLeaseTTL : Z := 24 * Hour.
Definition maximumConcurrencyLimit : Z := 1000000000.
Definition maximumLeaseDimensions : Z := 8.

Definition validateLeaseIDAndTTL (leaseID : string) (ttl : Z) : option CoordError :=
  if ((slen leaseID =? 0) || (maximumSubjectBytes <? slen leaseID))%bool then
    Some (ErrInvalidInput "lease ID must contain 1-512 bytes")
  else if ((ttl <? Millisecond) || (maximumLeaseTTL <? ttl))%bool then
    Some (ErrInvalidInput "lease TTL must be between 1ms and 24h")
  else None.

(** The loop of [prepareLeaseRef] over the dimensions. *)
Fixpoint dimension_keys (c : Coordinator) (dims : list Dimension) (seen : gset string) :
    result CoordError (list string) :=
  match dims with
  | [] => Ok []
  | d :: dims' =>
      match validateDimension d with
      | Some e => Err e
      | None =>
          let key := leaseKey c d in
          if bool_decide (key ∈ seen) then Err (ErrInvalidInput "duplicate lease dimension")
          else let? keys := dimension_keys c dims' ({[key]} ∪ seen) in Ok (key :: keys)
      end
  end.

Definition prepareLeaseRef (c : Coordinator) (lease : LeaseRef) (ttl : Z) : result CoordError (list string) :=
  match validateLeaseIDAndTTL (LeaseID lease) ttl with
  | Some e => Err e
  | None =>
      match LeaseDimensions lease with
      | [] => Err (ErrInvalidInput "at least one lease dimension is required")
      | _ =>
          if maximumLeaseDimensions <? Z.of_nat (length (LeaseDimensions lease)) then
            Err (ErrInvalidInput "at most 8 lease dimensions are supported")
          else dimension_keys c (LeaseDimensions lease) ∅
      end
  end.

(** The loop of [prepareConcurrencyLimits]. *)
Fixpoint limit_keys (c : Coordinator) (limits : list ConcurrencyLimit) (seen : gset string) :
    result CoordError (list string * list Dimension) :=
  match limits with
  | [] => Ok ([], [])
  | limit :: limits' =>
      match validateDimension (LimDimension limit) with
      | Some e => Err e
      | None =>
          if ((MaxInFlight limit <? 1) || (maximumConcurrencyLimit <? MaxInFlight limit))%bool then
            Err (ErrInvalidInput "concurrency limit is outside supported bounds")
          else
            let key := leaseKey c (LimDimension limit) in
            if bool_decide (key ∈ seen) then Err (ErrInvalidInput "duplicate concurrency dimension")
            else
              let? (keys, dims) := limit_keys c limits' ({[key]} ∪ seen) in
              Ok (key :: keys, LimDimension limit :: dims)
      end
  end.

Definition prepareConcurrencyLimits (c : Coordinator) (limits : list ConcurrencyLimit) :
    result CoordError (list string * list Dimension) :=
  match limits with
  | [] => Err (ErrInvalidInput "at least one concurrency limit is required")
  | _ =>
      if maximumLeaseDimensions <? Z.of_nat (length limits) then
        Err (ErrInvalidInput "at most 8 concurrency limits are supported")
      else limit_keys c limits ∅
  end.

Definition prepareLeaseAcquire (c : Coordinator) (leaseID : string) (ttl : Z) (limits : list ConcurrencyLimit) :
    result CoordError (list string * list Dimension) :=
  match validateLeaseIDAndTTL leaseID ttl with
  | Some e => Err e
  | None => prepareConcurrencyLimits c limits
  end.

(** How a script call ends: the reply arrives, the request never reaches the
    server, or the script ran and its reply is lost. *)
Inductive Transport := Replied | RequestLost | ReplyLost.

Definition run_script {S} (tr : Transport) (script : S -> result string (list Z) * S) (s : S) :
    result string (list Z) * S :=
  match tr with
  | Replied => script s
  | RequestLost => (Err "connection", s)
  | ReplyLost => (Err "connection", (script s).2)
  end.


(** The reading of the reply of [acquireLeaseScript]. *)
Fixpoint read_counts (limits : list ConcurrencyLimit) (counts : list Z) : option (list ConcurrencyState) :=
  match limits, counts with
  | limit :: limits', count :: counts' =>
      if count <? 0 then None
      else
        match read_counts limits' counts' with
        | None => None
        | Some states => Some (mkConcurrencyState (LimDimension limit) count (MaxInFlight limit) :: states)
        end
  | _, _ => Some []
  end.

Definition read_acquire (leaseID : string) (dims : list Dimension) (limits : list ConcurrencyLimit)
    (values : list Z) : result CoordError LeaseDecision :=
  match values with
  | v0 :: v1 :: v2 :: counts =>
      if (negb (Z.of_nat (length values) =? 3 + Z.of_nat (length limits)) ||
          (negb (v0 =? 0) && negb (v0 =? 1)) || (v1 <=? 0) || (v2 <=? 0))%bool then
        Err (ErrUnavailable "acquire concurrency lease" "invalid script result")
      else
        let granted := v0 =? 1 in
        match read_counts limits counts with
        | None => Err (ErrUnavailable "acquire concurrency lease" "negative lease count")
        | Some states =>
            Ok (mkLeaseDecision granted
                  (if granted then mkLeaseRef leaseID dims else mkLeaseRef "" [])
                  (UnixMilli v1)
                  (if granted then UnixMilli v2 else 0)
                  (if granted then 0 else time_add (UnixMilli v1) (v2 * Millisecond))
                  states)
        end
  | _ => Err (ErrUnavailable "acquire concurrency lease" "invalid script result")
  end.

Section calls.
Context {S : Type} `{!Valkey S}.

Definition AcquireLease (c : Coordinator) (tr : Transport) (leaseID : string) (ttl : Z)
    (limits : list ConcurrencyLimit) (s : S) : result CoordError LeaseDecision * S :=
  match prepareLeaseAcquire c leaseID ttl limits with
  | Err e => (Err e, s)
  | Ok (keys, dims) =>
      match run_script tr (acquireLeaseScript (zip keys (MaxInFlight <$> limits)) (Milliseconds ttl)
                             (leaseMember c leaseID) leaseKeyGraceMilliseconds) s with
      | (Err e, s') => (Err (ErrUnavailable "acquire concurrency lease" e), s')
      | (Ok values, s') => (read_acquire leaseID dims limits values, s')
      end
  end.

Definition RenewLease (c : Coordinator) (tr : Transport) (lease : LeaseRef) (ttl : Z) (s : S) :
    result CoordError Z * S :=
  match prepareLeaseRef c lease ttl with
  | Err e => (Err e, s)
  | Ok keys =>
      match run_script tr (λ s, let '(v, s') := renewLeaseScript keys (Milliseconds ttl)
                                  (leaseMember c (LeaseID lease)) leaseKeyGraceMilliseconds s in (Ok v, s')) s with
      | (Err e, s') => (Err (ErrUnavailable "renew concurrency lease" e), s')
      | (Ok [v0; v1; v2], s') =>
          if ((negb (v0 =? 0) && negb (v0 =? 1)) || (v1 <=? 0))%bool then
            (Err (ErrUnavailable "renew concurrency lease" "invalid script result"), s')
          else if v0 =? 0 then (Err ErrLeaseLost, s')
          else if v2 <=? v1 then (Err (ErrUnavailable "renew concurrency lease" "invalid expiration"), s')
          else (Ok (UnixMilli v2), s')
      | (Ok _, s') => (Err (ErrUnavailable "renew concurrency lease" "invalid script result"), s')
      end
  end.

Definition ReleaseLease (c : Coordinator) (tr : Transport) (lease : LeaseRef) (s : S) :
    option CoordError * S :=
  match prepareLeaseRef c lease Millisecond with
  | Err e => (Some e, s)
  | Ok keys =>
      match run_script tr (λ s, let '(v, s') := releaseLeaseScript keys (leaseMember c (LeaseID lease))
                                  leaseKeyGraceMilliseconds s in (Ok v, s')) s with
      | (Err e, s') => (Some (ErrUnavailable "release concurrency lease" e), s')
      | (Ok [v0; v1], s') =>
          if ((v0 <=? 0) || (v1 <? 0))%bool
          then (Some (ErrUnavailable "release concurrency lease" "invalid script result"), s')
          else (None, s')
      | (Ok _, s') => (Some (ErrUnavailable "release concurrency lease" "invalid script result"), s')
      end
  end.

Definition CleanupExpiredLeases (c : Coordinator) (tr : Transport) (limits : list ConcurrencyLimit) (s : S) :
    result CoordError CleanupResult * S :=
  match prepareConcurrencyLimits c limits with
  | Err e => (Err e, s)
  | Ok (keys, _) =>
      match run_script tr (λ s, let '(v, s') := cleanupLeaseScript keys leaseKeyGraceMilliseconds s in (Ok v, s')) s with
      | (Err e, s') => (Err (ErrUnavailable "clean expired concurrency leases" e), s')
      | (Ok (v0 :: v1 :: counts), s') =>
          if (negb (2 + Z.of_nat (length counts) =? 2 + Z.of_nat (length limits)) || (v0 <=? 0) || (v1 <? 0))%bool
          then (Err (ErrUnavailable "clean expired concurrency leases" "invalid script result"), s')
          else
            match read_counts limits counts with
            | None => (Err (ErrUnavailable "clean expired concurrency leases" "negative lease count"), s')
            | Some states => (Ok (mkCleanupResult (UnixMilli v0) v1 states), s')
            end
      | (Ok _, s') => (Err (ErrUnavailable "clean expired concurrency leases" "invalid script result"), s')
      end
  end.
End calls.
End coordinator.
