(* ===== verification/LeaseInv.v ===== *)
(** * Leases: lemmas about the scripts

    What each lease script does to the live leases of a key, proved from the
    laws of the Valkey interface. *)

From S2P Require Import Prelude GoStrings Valkey Lease.

Local Open Scope Z_scope.

Section lease_scripts.
Context {S : Type} `{!Valkey S, !ValkeyLaws S}.
Implicit Types (s : S) (k : string).

(** The leases that have not expired: what the sorted set means. *)
Definition live s k : gmap string Z := above (clock s) (zset s k).

(** The expiry of a key is later than every lease stored in it, so that the
    key never vanishes under a live lease. *)
Definition Retained s k : Prop :=
  zset s k = ∅ \/ exists e, expiry s k = Some e /\ forall m x, zset s k !! m = Some x -> x <= e.

(** [s'] differs from [s] only at the given keys. *)
Definition touches (ks : list string) s s' : Prop :=
  clock s' = clock s /\
  forall k, k ∉ ks -> zset s' k = zset s k /\ hash s' k = hash s k /\ flag s' k = flag s k /\
                     expiry s' k = expiry s k.

Lemma touches_refl ks s : touches ks s s.
Proof. done. Qed.

Lemma touches_trans ks s1 s2 s3 : touches ks s1 s2 -> touches ks s2 s3 -> touches ks s1 s3.
Proof.
  intros [Hc1 H1] [Hc2 H2]. split; [congruence|]. intros k Hk.
  destruct (H1 k Hk) as (? & ? & ? & ?), (H2 k Hk) as (? & ? & ? & ?). split_and!; congruence.
Qed.

Lemma touches_one k ks s s' : same_except k s s' -> k ∈ ks -> touches ks s s'.
Proof.
  intros [Hc Hz Hh Hf He] Hk. split; [done|]. intros k' Hk'.
  assert (k' <> k) by (intros ->; done). split_and!; auto.
Qed.

Lemma touches_mono ks ks' s s' : ks ⊆ ks' -> touches ks s s' -> touches ks' s s'.
Proof. intros Hsub [Hc H]. split; [done|]. intros k Hk. apply H. set_solver. Qed.

Lemma touches_live ks s s' k : touches ks s s' -> k ∉ ks -> live s' k = live s k.
Proof. intros [Hc H] Hk. unfold live. destruct (H k Hk) as (-> & _). by rewrite Hc. Qed.

Lemma touches_Retained ks s s' k : touches ks s s' -> k ∉ ks -> Retained s k -> Retained s' k.
Proof. intros [_ H] Hk. unfold Retained. destruct (H k Hk) as (-> & _ & _ & ->). done. Qed.

(** ** One key *)

Lemma last_by_score_max (m : gmap string Z) e :
  last (by_score m) = Some e -> forall k x, m !! k = Some x -> x <= e.2.
Proof.
  intros Hl k x Hk. apply elem_of_by_score in Hk. pose proof (by_score_sorted m) as Hs.
  destruct (by_score m) as [|e' l _] using rev_ind; [done|]. rewrite last_snoc in Hl. injection Hl as ->.
  apply elem_of_app in Hk as [Hk|Hk%list_elem_of_singleton]; [|by subst e].
  assert (Hle : entry_le (k, x) e).
  { clear -Hs Hk. induction l as [|y l IH]; [by apply not_elem_of_nil in Hk|]. simpl in Hs.
    apply StronglySorted_inv in Hs as [Hs Hall]. apply elem_of_cons in Hk as [<-|Hk]; [|by apply IH].
    rewrite Forall_forall in Hall. apply Hall. set_solver. }
  destruct Hle as [?|[? _]]; simpl in *; lia.
Qed.

Lemma by_score_nil (m : gmap string Z) : by_score m = [] <-> m = ∅.
Proof.
  rewrite <- length_zero_iff_nil, length_by_score. apply map_size_empty_iff.
Qed.

(** With nothing expired in the set, [retain_live_key] keeps the set and sets
    the key's expiry behind its last lease. *)
Lemma retain_live_key_spec grace k s :
  0 <= grace -> (forall m x, zset s k !! m = Some x -> clock s < x) ->
  let s' := retain_live_key grace k s in
  zset s' k = zset s k /\ Retained s' k /\ same_except k s s'.
Proof.
  intros Hg Hlive. unfold retain_live_key. rewrite zrevrange_first.
  destruct (last (by_score (zset s k))) as [[m x]|] eqn:Hl; simpl.
  - pose proof (last_by_score_max _ _ Hl) as Hmax. simpl in Hmax.
    apply last_Some_elem_of, elem_of_by_score in Hl.
    assert (Hne : zset s k <> ∅) by (intros Hz; rewrite Hz in Hl; by rewrite lookup_empty in Hl).
    pose proof (Hlive _ _ Hl). destruct (pexpireat_key k (x + grace) s) as [Hz He]; [lia|done|].
    split_and!; [done| |apply pexpireat_frame]. right. exists (x + grace). split; [done|].
    intros m' x' Hm'. rewrite Hz in Hm'. specialize (Hmax _ _ Hm'). lia.
  - apply last_None, by_score_nil in Hl.
    split_and!; [by rewrite del_zset, Hl|left; apply del_zset|apply del_frame].
Qed.

Lemma above_live t (m : gmap string Z) k x : above t m !! k = Some x -> t < x.
Proof. by intros [_ ?]%lookup_above. Qed.

(** Dropping the expired members leaves the live ones. *)
Lemma clean_spec k s :
  let s' := (ZREMRANGEBYSCORE k (clock s) s).2 in
  zset s' k = live s k /\ live s' k = live s k /\ same_except k s s'.
Proof.
  pose proof (zremrangebyscore_frame k (clock s) s) as Hf. simpl.
  unfold live. rewrite (sx_clock _ _ _ Hf), zremrangebyscore_zset. split_and!; [done| |done].
  rewrite above_above. f_equal. lia.
Qed.

Lemma live_insert s k m x : clock s < x -> above (clock s) (<[m := x]> (live s k)) = <[m := x]> (live s k).
Proof.
  intros Hx. apply above_id. intros k' x' [[_ <-]|[_ H]]%lookup_insert_Some; [done|].
  by apply above_live in H.
Qed.

(** ** Loops over distinct keys

    A loop body [f k] that works on key [k] alone, whose effect on the set of
    [k] is [g k], and which leaves [k] retained. *)

Lemma fold_keys (f : string -> S -> S) (now : Z) (ok : gmap string Z -> Prop)
    (g : gmap string Z -> gmap string Z) (keys : list string) s :
  (forall k s, clock s = now -> ok (zset s k) ->
     zset (f k s) k = g (zset s k) /\ Retained (f k s) k /\ same_except k s (f k s)) ->
  NoDup keys -> clock s = now -> (forall k, k ∈ keys -> ok (zset s k)) ->
  let s' := foldl (λ s k, f k s) s keys in
  touches keys s s' /\ forall k, k ∈ keys -> zset s' k = g (zset s k) /\ Retained s' k.
Proof.
  intros Hf Hnd. revert s. induction Hnd as [|k keys Hk Hnd IH]; intros s Hc Hok; simpl.
  { split; [apply touches_refl|]. intros k Hk. by apply not_elem_of_nil in Hk. }
  destruct (Hf k s Hc) as (Hz & Hr & Hfr); [apply Hok; left|].
  destruct (IH (f k s)) as [Ht Hall].
  - by rewrite (sx_clock _ _ _ Hfr).
  - intros k' Hk'. rewrite (sx_zset _ _ _ Hfr) by (intros ->; done). apply Hok. by right.
  - split.
    + eapply touches_trans; [eapply touches_one; [exact Hfr|left]|].
      eapply touches_mono; [|exact Ht]. set_solver.
    + intros k' [->|Hk']%elem_of_cons.
      * destruct Ht as [_ Ht]. destruct (Ht k Hk) as (Hz' & _ & _ & He').
        unfold Retained. rewrite Hz', He', Hz. split; [done|]. unfold Retained in Hr. by rewrite Hz in Hr.
      * destruct (Hall k' Hk') as [Hz' Hr']. split; [|done]. rewrite Hz'.
        f_equal. apply (sx_zset _ _ _ Hfr). intros ->. done.
Qed.

(** The expiry of a key hides no live lease: letting time pass only drops the
    leases whose own time has come. *)
Lemma elapse_live t s k :
  clock s <= t -> Retained s k -> live (elapse t s) k = above t (live s k).
Proof.
  intros Ht Hr. unfold live. rewrite elapse_clock, elapse_zset, above_above by done.
  replace (Z.max (clock s) t) with t by lia. destruct (expiry s k) as [e|] eqn:He; [|done].
  destruct (Z.leb_spec e t); [|done]. destruct Hr as [Hz|(e' & He' & Hle)].
  - by rewrite Hz.
  - apply map_eq. intros m. rewrite (proj2 (eq_None_not_Some _)).
    2:{ intros [x Hx]. apply lookup_above in Hx as [Hx _]. by rewrite lookup_empty in Hx. }
    symmetry. apply eq_None_not_Some. intros [x [Hx Hlt]%lookup_above]. specialize (Hle _ _ Hx).
    assert (e' = e) by congruence. lia.
Qed.

Lemma elapse_Retained t s k : clock s <= t -> Retained s k -> Retained (elapse t s) k.
Proof.
  intros Ht Hr. unfold Retained. rewrite elapse_zset, elapse_expiry by done.
  destruct (expiry s k) as [e|] eqn:He.
  - destruct (Z.leb_spec e t); [by left|]. unfold Retained in Hr. by rewrite He in Hr.
  - unfold Retained in Hr. rewrite He in Hr. destruct Hr as [?|(e & ? & _)]; [by left|done].
Qed.

(** ** acquireLeaseScript *)

(** A key refuses [m]: the lease is not live there and the limit is reached. *)
Definition blocked s (m : string) (kl : string * Z) : bool :=
  (bool_decide (live s kl.1 !! m = None) && (kl.2 <=? Z.of_nat (size (live s kl.1))))%bool.

(** The time until enough of the key's leases have expired. *)
Definition wait_of s (m : string) (kl : string * Z) : Z :=
  if blocked s m kl then
    match by_score (live s kl.1) !! Z.to_nat (Z.of_nat (size (live s kl.1)) - kl.2) with
    | Some e => e.2 - clock s
    | None => 0
    end
  else 0.

(** How many entries of a sorted set lie above a score, around its entry
    number [i]. *)
Lemma size_above_filter t (m : gmap string Z) :
  size (above t m) = length (filter (λ kv, t < kv.2) (by_score m)).
Proof.
  rewrite by_score_perm. unfold above. rewrite map_filter_alt.
  rewrite <- length_map_to_list, map_to_list_to_map; [done|].
  apply NoDup_fmap_filter, NoDup_fst_map_to_list.
Qed.

Lemma above_count (m : gmap string Z) i (e : string * Z) t :
  by_score m !! i = Some e ->
  (t < e.2 -> (size m - i <= size (above t m))%nat) /\
  (e.2 <= t -> (size (above t m) < size m - i)%nat).
Proof.
  intros Hi. rewrite size_above_filter, <- length_by_score. pose proof (by_score_sorted m) as Hs.
  destruct (list_elem_of_split_length _ _ _ Hi) as (l1 & l2 & Heq & ->). rewrite Heq in *. clear Hi Heq m.
  apply StronglySorted_app in Hs as (Hle & _ & [_ Hge]%StronglySorted_inv).
  rewrite filter_app, filter_cons, !length_app. simpl. split; intros Ht.
  - rewrite decide_True by done. rewrite (filter_all _ l2); [simpl; lia|].
    intros e' He'. rewrite Forall_forall in Hge. destruct (Hge e' He') as [?|[? _]]; lia.
  - rewrite decide_False by lia. rewrite (filter_none _ l1); [pose proof (length_filter (λ kv : string * Z, t < kv.2) l2); simpl; lia|].
    intros e' He'. destruct (Hle e' e He') as [?|[? _]]; [left|lia|lia].
Qed.

(** The lease whose expiry frees a slot exists and is in the future. *)
Lemma blocking_entry s m kl :
  blocked s m kl = true -> 1 <= kl.2 ->
  exists e, by_score (live s kl.1) !! Z.to_nat (Z.of_nat (size (live s kl.1)) - kl.2) = Some e /\
            clock s < e.2.
Proof.
  unfold blocked. intros [_ Hle]%andb_true_iff Hpos. to_prop.
  destruct (lookup_lt_is_Some_2 (by_score (live s kl.1))
              (Z.to_nat (Z.of_nat (size (live s kl.1)) - kl.2))) as [[m' x] He].
  { rewrite length_by_score. lia. }
  exists (m', x). split; [done|]. apply list_elem_of_lookup_2, elem_of_by_score in He.
  by apply above_live in He.
Qed.

Lemma wait_of_pos s m kl : 1 <= kl.2 -> (blocked s m kl = true -> 1 <= wait_of s m kl) /\
  (blocked s m kl = false -> wait_of s m kl = 0).
Proof.
  intros Hpos. unfold wait_of. destruct (blocked s m kl) eqn:Hb; [|done]. split; [|done]. intros _.
  destruct (blocking_entry s m kl Hb Hpos) as (e & -> & He). lia.
Qed.

Lemma wait_of_frame s s' m kl :
  live s' kl.1 = live s kl.1 -> clock s' = clock s ->
  blocked s' m kl = blocked s m kl /\ wait_of s' m kl = wait_of s m kl.
Proof. intros Hl Hc. unfold wait_of, blocked. by rewrite Hl, Hc. Qed.

Definition count_of s (kl : string * Z) : Z := Z.of_nat (size (live s kl.1)).
Definition total_wait s (m : string) (keys : list (string * Z)) (acc : Z) : Z :=
  foldl (λ acc kl, Z.max acc (wait_of s m kl)) acc keys.

Lemma acquire_check_spec m keys counts acc s :
  NoDup keys.*1 -> Forall (λ kl, 1 <= kl.2) keys -> 0 <= acc ->
  exists s1, acquire_check (clock s) m keys counts acc s =
      (Ok (counts ++ (count_of s <$> keys), total_wait s m keys acc), s1) /\
    touches keys.*1 s s1 /\ forall k, k ∈ keys.*1 -> zset s1 k = live s k.
Proof.
  revert counts acc s. induction keys as [|[k limit] keys IH]; intros counts acc s Hnd Hpos Hacc.
  { exists s. simpl. rewrite app_nil_r. split; [done|]. split; [apply touches_refl|].
    intros k Hk. by apply not_elem_of_nil in Hk. }
  rewrite fmap_cons in Hnd. apply NoDup_cons in Hnd as [Hk Hnd]. apply Forall_cons in Hpos as [Hl Hpos].
  simpl in Hk, Hl. destruct (clean_spec k s) as (Hz & Hlive & Hfr). cbn [acquire_check].
  set (s1 := (ZREMRANGEBYSCORE k (clock s) s).2) in *.
  assert (Hsame : forall kl, kl ∈ keys -> live s1 kl.1 = live s kl.1).
  { intros kl Hkl. unfold live. rewrite (sx_clock _ _ _ Hfr), (sx_zset _ _ _ Hfr); [done|].
    intros Heq. apply Hk. rewrite <- Heq. by apply list_elem_of_fmap_2. }
  assert (Hcounts : count_of s1 <$> keys = count_of s <$> keys).
  { apply list_fmap_ext. intros i kl Hi%list_elem_of_lookup_2. unfold count_of. by rewrite Hsame. }
  assert (Hwait : forall acc, total_wait s1 m keys acc = total_wait s m keys acc).
  { clear -Hsame Hfr. unfold total_wait. induction keys as [|kl keys IH]; intros acc; simpl; [done|].
    destruct (wait_of_frame s s1 m kl) as [_ ->]; [apply Hsame; left|apply Hfr|].
    apply IH. intros kl' Hkl'. apply Hsame. by right. }
  assert (Hrest : forall acc', 0 <= acc' ->
    exists s2, acquire_check (clock s) m keys (counts ++ [count_of s (k, limit)]) acc' s1 =
      (Ok ((counts ++ [count_of s (k, limit)]) ++ (count_of s <$> keys), total_wait s m keys acc'), s2) /\
      touches (k :: keys.*1) s s2 /\ forall k', k' ∈ k :: keys.*1 -> zset s2 k' = live s k').
  { intros acc' Hacc'. destruct (IH (counts ++ [count_of s (k, limit)]) acc' s1) as (s2 & Heq & Ht & Hzs); [done..|].
    rewrite (sx_clock _ _ _ Hfr), Hcounts, Hwait in Heq. exists s2. split; [done|]. split.
    - eapply touches_trans; [eapply touches_one; [exact Hfr|left]|]. eapply touches_mono; [|exact Ht]. set_solver.
    - intros k' [->|Hk']%elem_of_cons; [destruct Ht as [_ Ht]; destruct (Ht k Hk) as (-> & _); done|].
      rewrite Hzs by done. apply list_elem_of_fmap in Hk' as (kl & -> & Hkl). by apply Hsame. }
  rewrite zscore_zset, zcard_zset, Hz. fold (count_of s (k, limit)).
  change (Z.of_nat (size (live s k))) with (count_of s (k, limit)).
  assert (Hexists : negb (bool_decide (is_Some (live s k !! m))) = bool_decide (live s k !! m = None)).
  { destruct (live s k !! m); [by rewrite bool_decide_true by eauto|]. by rewrite bool_decide_false by (by intros []). }
  rewrite Hexists. change (bool_decide (live s k !! m = None) && (limit <=? count_of s (k, limit)))%bool
    with (blocked s m (k, limit)).
  assert (Hstep : forall a, total_wait s m ((k, limit) :: keys) a = total_wait s m keys (Z.max a (wait_of s m (k, limit)))) by done.
  rewrite fmap_cons, Hstep. replace (counts ++ count_of s (k, limit) :: (count_of s <$> keys)) with
    ((counts ++ [count_of s (k, limit)]) ++ (count_of s <$> keys)) by (by rewrite <- app_assoc).
  destruct (wait_of_pos s m (k, limit) Hl) as [Hw1 Hw0]. destruct (blocked s m (k, limit)) eqn:Hb.
  - destruct (blocking_entry s m (k, limit) Hb Hl) as (e & He & Hgt). simpl in He.
    rewrite zrange_one, Hz by (unfold blocked in Hb; apply andb_true_iff in Hb as [_ Hb]; to_prop; simpl in *; unfold count_of; simpl; lia).
    change (count_of s (k, limit)) with (Z.of_nat (size (live s k))) at 1. rewrite He. simpl option_list.
    assert (Hwe : wait_of s m (k, limit) = e.2 - clock s) by (unfold wait_of; rewrite Hb; simpl; by rewrite He).
    cbv iota beta. rewrite (Z.max_r 1), <- Hwe by lia. apply Hrest. lia.
  - rewrite (Hw0 eq_refl), Z.max_l by lia. by apply Hrest.
Qed.

Lemma total_wait_zero s m keys :
  Forall (λ kl, 1 <= kl.2) keys ->
  (total_wait s m keys 0 = 0 <-> Forall (λ kl, blocked s m kl = false) keys) /\ 0 <= total_wait s m keys 0.
Proof.
  assert (Hgen : forall acc, 0 <= acc -> Forall (λ kl, 1 <= kl.2) keys ->
    (total_wait s m keys acc = 0 <-> acc = 0 /\ Forall (λ kl, blocked s m kl = false) keys) /\
    acc <= total_wait s m keys acc).
  { induction keys as [|kl keys IH]; intros acc Hacc Hpos; simpl.
    - rewrite Forall_nil. split; [naive_solver|lia].
    - apply Forall_cons in Hpos as [Hl Hpos]. rewrite Forall_cons.
      destruct (wait_of_pos s m kl Hl) as [H1 H0].
      destruct (IH (Z.max acc (wait_of s m kl))) as [IHe IHle]; [lia|done|].
      unfold total_wait in *. simpl. split; [|lia]. rewrite IHe.
      destruct (blocked s m kl); [specialize (H1 eq_refl)|specialize (H0 eq_refl)]; naive_solver lia. }
  intros Hpos. destruct (Hgen 0) as [H1 H2]; [lia|done|]. split; [|lia]. rewrite H1. naive_solver.
Qed.

(** Taking the lease on every key. *)
Lemma acquire_grant_spec x grace m (keys : list string) counts s :
  NoDup keys -> 0 <= grace -> clock s < x -> length counts = length keys ->
  (forall k, k ∈ keys -> forall m x, zset s k !! m = Some x -> clock s < x) ->
  exists s', acquire_grant x grace m keys counts s =
      (zip_with (λ k n, n + (if zset s k !! m is Some _ then 0 else 1)) keys counts, s') /\
    touches keys s s' /\
    forall k, k ∈ keys -> zset s' k = <[m := x]> (zset s k) /\ Retained s' k.
Proof.
  intros Hnd Hg. revert counts s. induction Hnd as [|k keys Hk Hnd IH]; intros counts s Hx Hlen Hlive.
  { exists s. split; [by destruct counts|]. split; [apply touches_refl|].
    intros k Hk. by apply not_elem_of_nil in Hk. }
  destruct counts as [|n counts]; [done|]. simpl. rewrite zscore_zset.
  assert (Hz1 : zset (ZADD k x m s) k = <[m := x]> (zset s k)) by apply zadd_zset.
  pose proof (zadd_frame k x m s) as Hf1.
  destruct (retain_live_key_spec grace k (ZADD k x m s) Hg) as (Hz2 & Hr2 & Hf2).
  { rewrite Hz1, (sx_clock _ _ _ Hf1). intros m' x' [[_ <-]|[_ H]]%lookup_insert_Some; [done|].
    eapply (Hlive k); [left|done]. }
  pose proof (same_except_trans _ _ _ _ Hf1 Hf2) as Hf.
  set (s2 := retain_live_key grace k (ZADD k x m s)) in *.
  assert (Hother : forall k', k' ∈ keys -> zset s2 k' = zset s k').
  { intros k' Hk'. apply (sx_zset _ _ _ Hf). intros ->. done. }
  destruct (IH counts s2) as (s3 & Heq & Ht & Hall).
  { by rewrite (sx_clock _ _ _ Hf). } { simpl in Hlen. lia. }
  { intros k' Hk' m' x'. rewrite Hother, (sx_clock _ _ _ Hf) by done. apply Hlive. by right. }
  rewrite Heq. exists s3. split.
  - f_equal. f_equal.
    + destruct (zset s k !! m); [rewrite bool_decide_true by eauto; lia|].
      by rewrite bool_decide_false by (by intros []).
    + clear -Hother. revert counts. induction keys as [|k' keys IH]; intros [|n counts]; simpl; try done.
      rewrite Hother by left. f_equal. apply IH. intros k0 Hk0. apply Hother. by right.
  - split.
    + eapply touches_trans; [eapply touches_one; [exact Hf|left]|]. eapply touches_mono; [|exact Ht]. set_solver.
    + intros k' [->|Hk']%elem_of_cons.
      * destruct Ht as [_ Ht]. destruct (Ht k Hk) as (Hz' & _ & _ & He').
        unfold Retained. rewrite Hz', He'. split; [congruence|]. exact Hr2.
      * destruct (Hall k' Hk') as [Hz' Hr']. split; [|done]. by rewrite Hz', Hother.
Qed.

Lemma cleaned_live s s1 (keys : list string) :
  touches keys s s1 -> (forall k, k ∈ keys -> zset s1 k = live s k) ->
  forall k, k ∈ keys -> forall m x, zset s1 k !! m = Some x -> clock s1 < x.
Proof. intros [Hc _] Hz k Hk m x Hx. rewrite Hz in Hx by done. rewrite Hc. by apply above_live in Hx. Qed.

(** The sets after a script that wrote them: nothing in them has expired. *)
Lemma written_live s s' k (m : gmap string Z) :
  clock s' = clock s -> zset s' k = m -> (forall k' x, m !! k' = Some x -> clock s < x) -> live s' k = m.
Proof. intros Hc Hz Hm. unfold live. rewrite Hz, Hc. by apply above_id. Qed.

Lemma retain_all_spec grace (keys : list string) s :
  NoDup keys -> 0 <= grace ->
  (forall k, k ∈ keys -> forall m x, zset s k !! m = Some x -> clock s < x) ->
  touches keys s (retain_all grace keys s) /\
  forall k, k ∈ keys -> zset (retain_all grace keys s) k = zset s k /\ Retained (retain_all grace keys s) k.
Proof.
  intros Hnd Hg Hlive.
  apply (fold_keys (retain_live_key grace) (clock s)
           (λ z, forall m x, z !! m = Some x -> clock s < x) (λ z, z)); try done.
  intros k s' Hc Hok. apply retain_live_key_spec; [done|]. by rewrite Hc.
Qed.

(** What [acquireLeaseScript] does to the live leases and what it replies. *)
Lemma acquireLeaseScript_spec keys ttl m grace s :
  NoDup keys.*1 -> Forall (λ kl, 1 <= kl.2) keys -> 0 < ttl -> 0 <= grace ->
  exists s', touches keys.*1 s s' /\ (forall k, k ∈ keys.*1 -> Retained s' k) /\
  if bool_decide (Forall (λ kl, blocked s m kl = false) keys) then
    acquireLeaseScript keys ttl m grace s =
      (Ok (1 :: clock s :: clock s + ttl :: (count_of s' <$> keys)), s') /\
    forall k, k ∈ keys.*1 -> live s' k = <[m := clock s + ttl]> (live s k)
  else
    acquireLeaseScript keys ttl m grace s =
      (Ok (0 :: clock s :: total_wait s m keys 0 :: (count_of s <$> keys)), s') /\
    1 <= total_wait s m keys 0 /\
    forall k, k ∈ keys.*1 -> live s' k = live s k.
Proof.
  intros Hnd Hpos Httl Hg. unfold acquireLeaseScript.
  destruct (acquire_check_spec m keys [] 0 s Hnd Hpos ltac:(lia)) as (s1 & -> & Ht1 & Hz1). simpl app.
  destruct (total_wait_zero s m keys Hpos) as [Hzero Hnn].
  pose proof (cleaned_live s s1 keys.*1 Ht1 Hz1) as Hl1. pose proof Ht1 as [Hc1 _].
  case_bool_decide as Hall.
  - apply Hzero in Hall as ->. simpl.
    destruct (acquire_grant_spec (clock s + ttl) grace m keys.*1 (count_of s <$> keys) s1)
      as (s' & -> & Ht2 & Hz2); try done; [lia|by rewrite !length_fmap|].
    exists s'. pose proof (touches_trans _ _ _ _ Ht1 Ht2) as Ht. split; [done|].
    assert (Hlive : forall k, k ∈ keys.*1 -> live s' k = <[m := clock s + ttl]> (live s k)).
    { intros k Hk. destruct (Hz2 k Hk) as [Hz _]. rewrite Hz1 in Hz by done.
      apply (written_live s); [apply Ht|done|].
      intros k' x [[_ <-]|[_ H]]%lookup_insert_Some; [lia|by apply above_live in H]. }
    split; [apply Hz2|]. split; [|done]. do 5 f_equal.
    apply list_eq. intros i. rewrite lookup_zip_with, !list_lookup_fmap.
    destruct (keys !! i) as [kl|] eqn:Hi; simpl; [|done].
    assert (Hkl : kl.1 ∈ keys.*1) by (apply list_elem_of_fmap_2; by eapply list_elem_of_lookup_2).
    unfold count_of. rewrite Hlive, Hz1 by done. f_equal.
    destruct (live s kl.1 !! m) eqn:Hm.
    + rewrite map_size_insert_Some by eauto. lia.
    + rewrite map_size_insert_None by done. lia.
  - destruct (Z.eqb_spec (total_wait s m keys 0) 0) as [He|He]; [by apply Hzero in He|].
    destruct (retain_all_spec grace keys.*1 s1) as [Ht2 Hz2]; try done.
    eexists. pose proof (touches_trans _ _ _ _ Ht1 Ht2) as Ht. split; [done|].
    split; [apply Hz2|]. split; [done|]. split; [lia|]. intros k Hk. destruct (Hz2 k Hk) as [Hz _].
    rewrite Hz1 in Hz by done. apply (written_live s); [apply Ht|done|]. intros k' x. apply above_live.
Qed.

(** ** renewLeaseScript *)

Lemma renew_check_spec m (keys : list string) held s :
  NoDup keys ->
  exists s1, renew_check (clock s) m keys held s =
      ((held && forallb (λ k, bool_decide (is_Some (live s k !! m))) keys)%bool, s1) /\
    touches keys s s1 /\ forall k, k ∈ keys -> zset s1 k = live s k.
Proof.
  intros Hnd. revert held s. induction Hnd as [|k keys Hk Hnd IH]; intros held s; simpl.
  { exists s. rewrite andb_true_r. split; [done|]. split; [apply touches_refl|].
    intros k Hk. by apply not_elem_of_nil in Hk. }
  destruct (clean_spec k s) as (Hz & _ & Hfr). set (s1 := (ZREMRANGEBYSCORE k (clock s) s).2) in *.
  destruct (IH (match ZSCORE k m s1 with None => false | Some _ => held end) s1) as (s2 & Heq & Ht & Hz2).
  rewrite (sx_clock _ _ _ Hfr) in Heq. rewrite Heq, zscore_zset, Hz.
  assert (Hother : forall k', k' ∈ keys -> live s1 k' = live s k').
  { intros k' Hk'. unfold live. rewrite (sx_clock _ _ _ Hfr), (sx_zset _ _ _ Hfr); [done|]. intros ->. done. }
  exists s2. split; [|split].
  - f_equal. rewrite andb_assoc. f_equal.
    + destruct (live s k !! m); [rewrite bool_decide_true by eauto|rewrite bool_decide_false by (by intros [])];
        [by rewrite andb_true_r|by rewrite andb_false_r].
    + clear -Hother. induction keys as [|k' keys IH]; simpl; [done|]. rewrite Hother by left. f_equal.
      apply IH. intros k0 Hk0. apply Hother. by right.
  - eapply touches_trans; [eapply touches_one; [exact Hfr|left]|]. eapply touches_mono; [|exact Ht]. set_solver.
  - intros k' [->|Hk']%elem_of_cons; [destruct Ht as [_ Ht]; by destruct (Ht k Hk) as (-> & _)|].
    rewrite Hz2 by done. by apply Hother.
Qed.

Lemma retain_after (f : S -> S) (g : gmap string Z -> gmap string Z) grace k s :
  0 <= grace -> zset (f s) k = g (zset s k) -> same_except k s (f s) ->
  (forall m x, g (zset s k) !! m = Some x -> clock s < x) ->
  zset (retain_live_key grace k (f s)) k = g (zset s k) /\ Retained (retain_live_key grace k (f s)) k /\
  same_except k s (retain_live_key grace k (f s)).
Proof.
  intros Hg Hz Hf Hlive. destruct (retain_live_key_spec grace k (f s) Hg) as (Hz' & Hr & Hf').
  - rewrite Hz, (sx_clock _ _ _ Hf). exact Hlive.
  - split_and!; [congruence|done|]. by eapply same_except_trans.
Qed.

Lemma renewLeaseScript_spec (keys : list string) ttl m grace s :
  NoDup keys -> 0 < ttl -> 0 <= grace ->
  exists s', touches keys s s' /\ (forall k, k ∈ keys -> Retained s' k) /\
  if forallb (λ k, bool_decide (is_Some (live s k !! m))) keys then
    renewLeaseScript keys ttl m grace s = ([1; clock s; clock s + ttl], s') /\
    forall k, k ∈ keys -> live s' k = <[m := clock s + ttl]> (live s k)
  else
    renewLeaseScript keys ttl m grace s = ([0; clock s; 0], s') /\
    forall k, k ∈ keys -> live s' k = delete m (live s k).
Proof.
  intros Hnd Httl Hg. unfold renewLeaseScript.
  destruct (renew_check_spec m keys true s Hnd) as (s1 & -> & Ht1 & Hz1). simpl.
  pose proof (cleaned_live s s1 keys Ht1 Hz1) as Hl1. pose proof Ht1 as [Hc1 _].
  destruct (forallb _ keys); simpl.
  - destruct (fold_keys (λ k s, retain_live_key grace k (ZADD k (clock s1 + ttl) m s)) (clock s1)
             (λ z, forall m x, z !! m = Some x -> clock s1 < x) (λ z, <[m := clock s1 + ttl]> z) keys s1)
      as [Ht2 Hz2]; try done.
    { intros k s0 Hc0 Hok. apply (retain_after (ZADD k (clock s1 + ttl) m)); try done.
      - apply zadd_zset.
      - apply zadd_frame.
      - rewrite Hc0. intros m' x [[_ <-]|[_ H]]%lookup_insert_Some; [lia|by eapply Hok]. }
    rewrite Hc1 in *. eexists. pose proof (touches_trans _ _ _ _ Ht1 Ht2) as Ht. split; [exact Ht|].
    split; [apply Hz2|]. split; [done|]. intros k Hk. destruct (Hz2 k Hk) as [Hz _].
    rewrite Hz1 in Hz by done. apply (written_live s); [apply Ht|done|].
    intros k' x [[_ <-]|[_ H]]%lookup_insert_Some; [lia|by apply above_live in H].
  - destruct (fold_keys (λ k s, retain_live_key grace k (ZREM k m s).2) (clock s1)
             (λ z, forall m x, z !! m = Some x -> clock s1 < x) (delete m) keys s1)
      as [Ht2 Hz2]; try done.
    { intros k s0 Hc0 Hok. apply (retain_after (λ s, (ZREM k m s).2)); try done.
      - apply zrem_zset.
      - apply zrem_frame.
      - rewrite Hc0. intros m' x [_ H]%lookup_delete_Some. by eapply Hok. }
    eexists. pose proof (touches_trans _ _ _ _ Ht1 Ht2) as Ht. split; [exact Ht|].
    split; [apply Hz2|]. split; [done|]. intros k Hk. destruct (Hz2 k Hk) as [Hz _].
    rewrite Hz1 in Hz by done. apply (written_live s); [apply Ht|done|].
    intros k' x [_ H]%lookup_delete_Some. by apply above_live in H.
Qed.

(** ** releaseLeaseScript and cleanupLeaseScript *)

Lemma release_loop_spec grace m (keys : list string) removed s :
  exists n, 0 <= n /\ release_loop (clock s) grace m keys removed s =
    (removed + n, foldl (λ s0 k, retain_live_key grace k (ZREM k m (ZREMRANGEBYSCORE k (clock s) s0).2).2) s keys).
Proof.
  generalize (clock s). intros now. revert removed s.
  induction keys as [|k keys IH]; intros removed s; simpl; [exists 0; split; [lia|f_equal; lia]|].
  pose proof (zrem_count k m (ZREMRANGEBYSCORE k now s).2) as Hn.
  destruct (ZREM k m (ZREMRANGEBYSCORE k now s).2) as [n s2] eqn:Hz. simpl in *.
  destruct (IH (removed + n) (retain_live_key grace k s2)) as (n' & Hn' & ->).
  exists (n + n'). split; [destruct (zset _ _ !! m); lia|f_equal; lia].
Qed.

Lemma releaseLeaseScript_spec (keys : list string) m grace s :
  NoDup keys -> 0 <= grace ->
  exists n s', 0 <= n /\ releaseLeaseScript keys m grace s = ([clock s; n], s') /\
    touches keys s s' /\
    forall k, k ∈ keys -> live s' k = delete m (live s k) /\ Retained s' k.
Proof.
  intros Hnd Hg. unfold releaseLeaseScript.
  destruct (release_loop_spec grace m keys 0 s) as (n & Hn & ->). exists n. eexists. split; [done|].
  split; [done|].
  destruct (fold_keys (λ k s0, retain_live_key grace k (ZREM k m (ZREMRANGEBYSCORE k (clock s) s0).2).2)
             (clock s) (λ _, True) (λ z, delete m (above (clock s) z)) keys s) as [Ht Hz]; try done.
  { intros k s0 Hc0 _.
    apply (retain_after (λ s0, (ZREM k m (ZREMRANGEBYSCORE k (clock s) s0).2).2) (λ z, delete m (above (clock s) z))); try done.
    - by rewrite zrem_zset, zremrangebyscore_zset.
    - eapply same_except_trans; [apply zremrangebyscore_frame|apply zrem_frame].
    - rewrite Hc0. intros m' x [_ H]%lookup_delete_Some. by apply above_live in H. }
  split; [done|]. intros k Hk. destruct (Hz k Hk) as [Hz' Hr]. split; [|done].
  apply (written_live s); [apply Ht|done|]. intros k' x [_ H]%lookup_delete_Some. by apply above_live in H.
Qed.

Lemma cleanupLeaseScript_spec (keys : list string) grace s :
  NoDup keys -> 0 <= grace ->
  exists n s', 0 <= n /\
    cleanupLeaseScript keys grace s = (clock s :: n :: ((λ k, Z.of_nat (size (live s k))) <$> keys), s') /\
    touches keys s s' /\ forall k, k ∈ keys -> live s' k = live s k /\ Retained s' k.
Proof.
  intros Hnd Hg. unfold cleanupLeaseScript.
  assert (Hgen : forall removed counts s0, clock s0 = clock s ->
    (forall k, k ∈ keys -> zset s0 k = zset s k) ->
    exists n, 0 <= n /\ cleanup_loop (clock s) grace keys removed counts s0 =
      (removed + n, counts ++ ((λ k, Z.of_nat (size (live s k))) <$> keys),
       foldl (λ s0 k, retain_live_key grace k (ZREMRANGEBYSCORE k (clock s) s0).2) s0 keys)).
  { induction Hnd as [|k keys Hk Hnd IH]; intros removed counts s0 Hc Hz; simpl.
    { exists 0. rewrite app_nil_r. split; [lia|]. do 2 f_equal. lia. }
    pose proof (zremrangebyscore_count k (clock s) s0) as Hn.
    pose proof (zremrangebyscore_zset k (clock s) s0) as Hz1.
    pose proof (zremrangebyscore_frame k (clock s) s0) as Hf1.
    destruct (ZREMRANGEBYSCORE k (clock s) s0) as [n s1] eqn:Hrem. simpl in *.
    destruct (retain_live_key_spec grace k s1 Hg) as (_ & _ & Hf2).
    { rewrite Hz1, (sx_clock _ _ _ Hf1), Hc. intros m' x'. apply above_live. }
    pose proof (same_except_trans _ _ _ _ Hf1 Hf2) as Hf.
    destruct (IH (removed + n) (counts ++ [ZCARD k s1]) (retain_live_key grace k s1)) as (n' & Hn' & ->).
    { by rewrite (sx_clock _ _ _ Hf). }
    { intros k' Hk'. rewrite (sx_zset _ _ _ Hf) by (intros ->; done). apply Hz. by right. }
    exists (n + n'). split.
    - assert (size (above (clock s) (zset s0 k)) <= size (zset s0 k))%nat; [|lia].
      apply map_subseteq_size, map_filter_subseteq.
    - rewrite zcard_zset, Hz1, Hz, <- app_assoc by left. simpl. do 2 f_equal. lia. }
  destruct (Hgen 0 [] s) as (n & Hn & ->); [done..|]. exists n. eexists. split; [done|]. split; [done|].
  destruct (fold_keys (λ k s0, retain_live_key grace k (ZREMRANGEBYSCORE k (clock s) s0).2)
             (clock s) (λ _, True) (above (clock s)) keys s) as [Ht Hz]; try done.
  { intros k s0 Hc0 _. apply (retain_after (λ s0, (ZREMRANGEBYSCORE k (clock s) s0).2) (above (clock s))); try done.
    - apply zremrangebyscore_zset.
    - apply zremrangebyscore_frame.
    - rewrite Hc0. intros m' x. apply above_live. }
  split; [done|]. intros k Hk. destruct (Hz k Hk) as [Hz' Hr]. split; [|done].
  apply (written_live s); [apply Ht|done|]. intros k' x. apply above_live.
Qed.
End lease_scripts.
