(* ===== verification/LeaseProps.v ===== *)
(** * What the lease coordinator guarantees

    The theorems about [src/internal/coordination/lease.go], its scripts and
    the keys of [coordinator.go]: all dimensions or none, capacity under any
    history of calls, lost replies and the passing of time, no live lease lost
    to the expiry of its key, the exact retry time of a refusal, renewal,
    idempotent release, and separation of the keys. *)

From S2P Require Import Prelude GoStrings Valkey Lease LeaseInv.

Local Open Scope Z_scope.

Section lease_calls.
Context (hmac : string -> string -> string).
Context {S : Type} `{!Valkey S, !ValkeyLaws S}.
Implicit Types (s : S) (c : Coordinator).

Abbreviation key := (leaseKey hmac).
Abbreviation member := (leaseMember hmac).

(** ** Preparation *)

Lemma validate_ttl leaseID ttl : validateLeaseIDAndTTL leaseID ttl = None -> 1 <= Milliseconds ttl.
Proof.
  unfold validateLeaseIDAndTTL. intros H. split_matches. to_prop. unfold Milliseconds.
  rewrite Z.quot_div_nonneg by (unfold Millisecond in *; lia).
  apply Z.div_le_lower_bound; unfold Millisecond in *; lia.
Qed.

Lemma limit_keys_spec c limits seen keys dims :
  limit_keys hmac c limits seen = Ok (keys, dims) ->
  dims = LimDimension <$> limits /\ keys = key c <$> dims /\ NoDup keys /\
  (forall k, k ∈ keys -> k ∉ seen) /\ Forall (λ l, 1 <= MaxInFlight l) limits.
Proof.
  revert seen keys dims. induction limits as [|l limits IH]; intros seen keys dims; simpl.
  { intros [= <- <-]. split_and!; try done; [apply NoDup_nil_2|].
    intros k Hk. by apply not_elem_of_nil in Hk. }
  destruct (validateDimension _); [done|]. destruct (_ || _)%bool eqn:Hb; [done|].
  case_bool_decide as Hseen; [done|].
  destruct (limit_keys hmac c limits _) as [[keys' dims']|] eqn:Hr; [|done]. intros [= <- <-].
  destruct (IH _ _ _ Hr) as (-> & -> & Hnd & Hns & Hpos). to_prop. split_and!; try done.
  - apply NoDup_cons. split; [|done]. intros Hin. apply (Hns _ Hin). set_solver.
  - intros k [->|Hk]%elem_of_cons; [done|]. specialize (Hns _ Hk). set_solver.
  - by constructor.
Qed.

Lemma prepare_limits_spec c limits keys dims :
  prepareConcurrencyLimits hmac c limits = Ok (keys, dims) ->
  dims = LimDimension <$> limits /\ keys = key c <$> dims /\ NoDup keys /\
  Forall (λ l, 1 <= MaxInFlight l) limits /\ limits <> [].
Proof.
  unfold prepareConcurrencyLimits. destruct limits as [|l limits]; [done|].
  destruct (_ <? _); [done|]. intros (H1 & H2 & H3 & _ & H4)%limit_keys_spec. done.
Qed.

Lemma dimension_keys_spec c dims seen keys :
  dimension_keys hmac c dims seen = Ok keys ->
  keys = key c <$> dims /\ NoDup keys /\ (forall k, k ∈ keys -> k ∉ seen).
Proof.
  revert seen keys. induction dims as [|d dims IH]; intros seen keys; simpl.
  { intros [= <-]. split_and!; [done|apply NoDup_nil_2|]. intros k Hk. by apply not_elem_of_nil in Hk. }
  destruct (validateDimension _); [done|]. case_bool_decide as Hseen; [done|].
  destruct (dimension_keys hmac c dims _) as [keys'|] eqn:Hr; [|done]. intros [= <-].
  destruct (IH _ _ Hr) as (-> & Hnd & Hns). split_and!; try done.
  - apply NoDup_cons. split; [|done]. intros Hin. apply (Hns _ Hin). set_solver.
  - intros k [->|Hk]%elem_of_cons; [done|]. specialize (Hns _ Hk). set_solver.
Qed.

Lemma prepare_ref_spec c lease ttl keys :
  prepareLeaseRef hmac c lease ttl = Ok keys ->
  keys = key c <$> LeaseDimensions lease /\ NoDup keys /\ 1 <= Milliseconds ttl.
Proof.
  unfold prepareLeaseRef. destruct (validateLeaseIDAndTTL _ _) eqn:Hv; [done|].
  apply validate_ttl in Hv. destruct (LeaseDimensions lease) as [|d dims]; [done|].
  destruct (_ <? _); [done|]. intros (H1 & H2 & _)%dimension_keys_spec. done.
Qed.

(** The keys and limits the acquire script receives. *)
Definition limited c (limits : list ConcurrencyLimit) : list (string * Z) :=
  (λ l, (key c (LimDimension l), MaxInFlight l)) <$> limits.

Lemma zip_limited c limits :
  zip (key c <$> (LimDimension <$> limits)) (MaxInFlight <$> limits) = limited c limits.
Proof. unfold limited. induction limits as [|l limits IH]; csimpl; [done|]. by f_equal. Qed.

Lemma limited_keys c limits : (limited c limits).*1 = key c <$> (LimDimension <$> limits).
Proof. unfold limited. by rewrite <- !list_fmap_compose. Qed.

(** Everything the acquire script does, for prepared arguments. *)
Lemma prepared_acquire c leaseID ttl limits keys dims s :
  prepareLeaseAcquire hmac c leaseID ttl limits = Ok (keys, dims) ->
  keys = key c <$> (LimDimension <$> limits) /\ dims = LimDimension <$> limits /\
  NoDup (limited c limits).*1 /\ Forall (λ kl, 1 <= kl.2) (limited c limits) /\
  1 <= Milliseconds ttl /\ zip keys (MaxInFlight <$> limits) = limited c limits.
Proof.
  unfold prepareLeaseAcquire. destruct (validateLeaseIDAndTTL _ _) eqn:Hv; [done|].
  intros (-> & -> & Hnd & Hpos & _)%prepare_limits_spec. apply validate_ttl in Hv.
  rewrite limited_keys, zip_limited. split_and!; try done. unfold limited. by rewrite Forall_fmap.
Qed.

Lemma read_counts_ok limits counts :
  length counts = length limits -> Forall (λ n, 0 <= n) counts ->
  read_counts limits counts =
    Some (zip_with (λ l n, mkConcurrencyState (LimDimension l) n (MaxInFlight l)) limits counts).
Proof.
  revert counts. induction limits as [|l limits IH]; intros [|n counts] Hlen Hpos; try done.
  apply Forall_cons in Hpos as [Hn Hpos]. simpl in *. destruct (Z.ltb_spec n 0); [lia|].
  by rewrite IH by (lia || done).
Qed.

(** The states reported for the dimensions: the live leases of each. *)
Definition in_use c limits s : list ConcurrencyState :=
  (λ l, mkConcurrencyState (LimDimension l) (Z.of_nat (size (live s (key c (LimDimension l))))) (MaxInFlight l))
    <$> limits.

Lemma zip_counts c limits s :
  zip_with (λ l n, mkConcurrencyState (LimDimension l) n (MaxInFlight l)) limits
    (count_of s <$> limited c limits) = in_use c limits s.
Proof. unfold in_use, limited. induction limits as [|l limits IH]; csimpl; [done|]. by f_equal. Qed.

Lemma counts_ok c limits s :
  length (count_of s <$> limited c limits) = length limits /\
  Forall (λ n, 0 <= n) (count_of s <$> limited c limits).
Proof.
  unfold limited. rewrite !length_fmap. split; [done|]. rewrite !Forall_fmap.
  apply Forall_true. intros l. simpl. unfold count_of. lia.
Qed.

(** Every dimension can take the lease: it is already held there, or there is
    room. *)
Definition free c (leaseID : string) limits s : Prop :=
  Forall (λ l, is_Some (live s (key c (LimDimension l)) !! member c leaseID) \/
               Z.of_nat (size (live s (key c (LimDimension l)))) < MaxInFlight l) limits.

Lemma free_unblocked c leaseID limits s :
  Forall (λ kl, blocked s (member c leaseID) kl = false) (limited c limits) <-> free c leaseID limits s.
Proof.
  unfold free, limited. rewrite Forall_fmap, !Forall_forall. split; intros H l Hl; specialize (H l Hl); simpl in *.
  - unfold blocked in H. simpl in H. apply andb_false_iff in H as [H|H]; to_prop; [left|right; lia].
    by destruct (live _ _ !! _); [eauto|].
  - unfold blocked. simpl. apply andb_false_iff. destruct H as [[x Hx]|H]; [left|right].
    + rewrite Hx. by apply bool_decide_false.
    + lia.
Qed.

Lemma free_dec c leaseID limits s : {free c leaseID limits s} + {~ free c leaseID limits s}.
Proof.
  destruct (decide (Forall (λ kl, blocked s (member c leaseID) kl = false) (limited c limits))) as [H|H];
    [left|right]; by rewrite <- free_unblocked.
Qed.

(** The time until a refused request could be granted. *)
Definition wait_time c (leaseID : string) limits s : Z :=
  total_wait s (member c leaseID) (limited c limits) 0.

(** The script of an acquisition, in terms of the dimensions. *)
Lemma acquire_script c leaseID ttl limits keys dims s :
  prepareLeaseAcquire hmac c leaseID ttl limits = Ok (keys, dims) ->
  exists s' values,
    acquireLeaseScript (zip keys (MaxInFlight <$> limits)) (Milliseconds ttl) (member c leaseID)
      leaseKeyGraceMilliseconds s = (Ok values, s') /\
    touches keys s s' /\ (forall k, k ∈ keys -> Retained s' k) /\
    ((free c leaseID limits s /\
      values = 1 :: clock s :: clock s + Milliseconds ttl :: (count_of s' <$> limited c limits) /\
      forall k, k ∈ keys -> live s' k = <[member c leaseID := clock s + Milliseconds ttl]> (live s k)) \/
     (~ free c leaseID limits s /\
      values = 0 :: clock s :: wait_time c leaseID limits s :: (count_of s' <$> limited c limits) /\
      1 <= wait_time c leaseID limits s /\ forall k, k ∈ keys -> live s' k = live s k)).
Proof.
  intros (Hk & _ & Hnd & Hpos & Httl & ->)%(prepared_acquire _ _ _ _ _ _ s).
  destruct (acquireLeaseScript_spec (limited c limits) (Milliseconds ttl) (member c leaseID)
              leaseKeyGraceMilliseconds s Hnd Hpos) as (s' & Ht & Hr & Hif); [lia|done|].
  rewrite limited_keys, <- Hk in Ht, Hr, Hif. case_bool_decide as Hfree.
  - destruct Hif as [-> Hl]. eexists s', _. split; [done|]. split; [done|]. split; [done|]. left.
    rewrite free_unblocked in Hfree. done.
  - destruct Hif as (-> & Hw & Hl). eexists s', _. split; [done|]. split; [done|]. split; [done|]. right.
    rewrite free_unblocked in Hfree. split; [done|]. split; [|done].
    do 3 f_equal. apply list_fmap_ext. intros i kl Hi%list_elem_of_lookup_2. unfold count_of.
    rewrite Hl; [done|]. rewrite Hk, <- limited_keys. by apply list_elem_of_fmap_2.
Qed.

(** ** Acquisition *)

(** A reply that arrives. *)
Lemma AcquireLease_replied c leaseID ttl limits keys dims s :
  prepareLeaseAcquire hmac c leaseID ttl limits = Ok (keys, dims) -> 0 < clock s ->
  exists d s', AcquireLease hmac c Replied leaseID ttl limits s = (Ok d, s') /\
    touches keys s s' /\ DecDimensions d = in_use c limits s' /\ ObservedAt d = UnixMilli (clock s) /\
    ((free c leaseID limits s /\ Granted d = true /\ DecLease d = mkLeaseRef leaseID dims /\
      ExpiresAt d = UnixMilli (clock s + Milliseconds ttl) /\
      forall k, k ∈ keys -> live s' k = <[member c leaseID := clock s + Milliseconds ttl]> (live s k)) \/
     (~ free c leaseID limits s /\ Granted d = false /\ ObservedAt d < RetryAt d /\
      forall k, k ∈ keys -> live s' k = live s k)).
Proof.
  intros Hp Hclock.
  destruct (acquire_script c leaseID ttl limits keys dims s Hp) as (s' & values & Hs & Ht & _ & Hcase).
  pose proof (prepared_acquire _ _ _ _ _ _ s Hp) as (_ & _ & _ & _ & Httl & _).
  destruct (counts_ok c limits s') as [Hlen Hnn].
  unfold AcquireLease. rewrite Hp. simpl run_script. rewrite Hs.
  assert (Hread : forall v0 v2, v0 = 0 \/ v0 = 1 -> 0 < v2 ->
    read_acquire leaseID dims limits (v0 :: clock s :: v2 :: (count_of s' <$> limited c limits)) =
      Ok (mkLeaseDecision (v0 =? 1) (if v0 =? 1 then mkLeaseRef leaseID dims else mkLeaseRef "" [])
            (UnixMilli (clock s)) (if v0 =? 1 then UnixMilli v2 else 0)
            (if v0 =? 1 then 0 else time_add (UnixMilli (clock s)) (v2 * Millisecond)) (in_use c limits s'))).
  { intros v0 v2 Hv0 Hv2. unfold read_acquire. rewrite read_counts_ok, zip_counts by done.
    match goal with |- (if ?b then _ else _) = _ => destruct b eqn:Hb; [exfalso|done] end.
    simpl length in Hb. rewrite Hlen in Hb.
    repeat (apply orb_true_iff in Hb as [Hb|Hb]); to_prop; try lia.
    all: try (apply andb_true_iff in Hb as [? ?]; to_prop; lia). }
  destruct Hcase as [(Hf & -> & Hl)|(Hf & -> & Hw & Hl)]; rewrite Hread by lia; eexists _, s'; simpl;
    split_and!; try done; [left|right]; split_and!; try done.
  unfold time_add, Millisecond. simpl. lia.
Qed.

(** [AcquireLease] takes the lease on every dimension or on none: when
    every dimension has room or already holds it, the lease is live on all of
    them until the promised expiry; otherwise no live lease changes anywhere
    and a retry time in the future is named.  Either way the reported counts
    are the live leases, other keys are untouched, and a call whose reply does
    not arrive is an error, never a grant. *)
Theorem AcquireLease_all_or_none c leaseID ttl limits keys dims s :
  prepareLeaseAcquire hmac c leaseID ttl limits = Ok (keys, dims) -> 0 < clock s ->
  (forall tr, tr <> Replied -> is_ok (AcquireLease hmac c tr leaseID ttl limits s).1 = false) /\
  exists d s', AcquireLease hmac c Replied leaseID ttl limits s = (Ok d, s') /\
    touches keys s s' /\ DecDimensions d = in_use c limits s' /\ ObservedAt d = UnixMilli (clock s) /\
    ((free c leaseID limits s /\ Granted d = true /\ DecLease d = mkLeaseRef leaseID dims /\
      ExpiresAt d = UnixMilli (clock s + Milliseconds ttl) /\
      forall k, k ∈ keys -> live s' k = <[member c leaseID := clock s + Milliseconds ttl]> (live s k)) \/
     (~ free c leaseID limits s /\ Granted d = false /\ ObservedAt d < RetryAt d /\
      forall k, k ∈ keys -> live s' k = live s k)).
Proof.
  intros Hp Hclock. split; [|by apply AcquireLease_replied].
  intros tr Htr. unfold AcquireLease. rewrite Hp. by destruct tr.
Qed.

(** ** Histories of calls *)

Inductive lease_call :=
| CAcquire (tr : Transport) (leaseID : string) (ttl : Z) (limits : list ConcurrencyLimit)
| CRenew (tr : Transport) (lease : LeaseRef) (ttl : Z)
| CRelease (tr : Transport) (lease : LeaseRef)
| CCleanup (tr : Transport) (limits : list ConcurrencyLimit)
| CElapse (t : Z).

(** The effect of a call on the server; time does not run backwards. *)
Definition run_call c s (call : lease_call) : S :=
  match call with
  | CAcquire tr id ttl limits => (AcquireLease hmac c tr id ttl limits s).2
  | CRenew tr lease ttl => (RenewLease hmac c tr lease ttl s).2
  | CRelease tr lease => (ReleaseLease hmac c tr lease s).2
  | CCleanup tr limits => (CleanupExpiredLeases hmac c tr limits s).2
  | CElapse t => elapse (Z.max t (clock s)) s
  end.

Definition run_calls c s (calls : list lease_call) : S := foldl (run_call c) s calls.

(** The member a call works for. *)
Definition call_member c (call : lease_call) : option string :=
  match call with
  | CAcquire _ id _ _ => Some (member c id)
  | CRenew _ lease _ => Some (member c (LeaseID lease))
  | CRelease _ lease => Some (member c (LeaseID lease))
  | _ => None
  end.

(** What a script may do to the live leases of one key: nothing, or give the
    member a new expiry if there is room, or take the member out. *)
Inductive key_change (room : Z -> Prop) (m : option string) (now : Z) (before after : gmap string Z) : Prop :=
| change_none : after = before -> key_change room m now before after
| change_add m' x : m = Some m' -> now < x -> after = <[m' := x]> before ->
    is_Some (before !! m') \/ room (Z.of_nat (size before)) -> key_change room m now before after
| change_remove m' : m = Some m' -> after = delete m' before -> key_change room m now before after.

(** The room an acquisition needs: fewer leases than a limit it states. *)
Definition call_room c (call : lease_call) (k : string) (n : Z) : Prop :=
  match call with
  | CAcquire _ _ _ limits => exists l, l ∈ limits /\ key c (LimDimension l) = k /\ n < MaxInFlight l
  | _ => False
  end.

(** The limits a call states agree with [lim]. *)
Definition agrees c (lim : string -> Z) (call : lease_call) : Prop :=
  match call with
  | CAcquire _ _ _ limits => Forall (λ l, MaxInFlight l = lim (key c (LimDimension l))) limits
  | _ => True
  end.

Definition keeps_time (call : lease_call) : Prop := match call with CElapse _ => False | _ => True end.

Lemma keeps_time_dec call : keeps_time call \/ exists t, call = CElapse t.
Proof using Type. destruct call; simpl; eauto. Qed.

Definition effect c (call : lease_call) s s' : Prop :=
  clock s' = clock s /\
  forall k, key_change (call_room c call k) (call_member c call) (clock s) (live s k) (live s' k) /\
            (Retained s k -> Retained s' k).

Lemma effect_touches c call keys s s' :
  touches keys s s' -> (forall k, k ∈ keys -> Retained s' k) ->
  (forall k, k ∈ keys -> key_change (call_room c call k) (call_member c call) (clock s) (live s k) (live s' k)) ->
  effect c call s s'.
Proof.
  intros Ht Hr Hk. split; [apply Ht|]. intros k. destruct (decide (k ∈ keys)) as [Hin|Hout]; [auto|].
  rewrite (touches_live _ _ _ _ Ht Hout). split; [by apply change_none|by eapply touches_Retained].
Qed.

Lemma effect_refl c call s : effect c call s s.
Proof. split; [done|]. intros k. split; [by apply change_none|done]. Qed.

(** The effect of a call is that of its script, whether or not the reply
    arrives, or nothing. *)
Lemma run_call_effect c call s :
  keeps_time call -> effect c call s (run_call c s call).
Proof.
  intros Hkt. destruct call as [tr id ttl limits|tr lease ttl|tr lease|tr limits|t]; [..|done]; simpl.
  - unfold AcquireLease. destruct (prepareLeaseAcquire hmac c id ttl limits) as [[keys dims]|e] eqn:Hp;
      [|apply effect_refl].
    destruct (acquire_script c id ttl limits keys dims s Hp) as (s' & values & Hs & Ht & Hr & Hcase).
    assert (He : effect c (CAcquire tr id ttl limits) s s').
    { apply (effect_touches c _ keys); [done..|]. intros k Hk.
      destruct Hcase as [(Hf & _ & Hl)|(_ & _ & _ & Hl)]; [|apply change_none; auto].
      pose proof (prepared_acquire _ _ _ _ _ _ s Hp) as (Hkeys & _ & _ & _ & Httl & _).
      eapply change_add; [done| |by apply Hl|]; [lia|].
      rewrite Hkeys, <- list_fmap_compose in Hk. apply list_elem_of_fmap in Hk as (l & -> & Hl').
      unfold free in Hf. rewrite Forall_forall in Hf. simpl.
      destruct (Hf l Hl') as [?|?]; [by left|right; by exists l]. }
    unfold run_script. destruct tr; rewrite ?Hs; simpl; try done. apply effect_refl.
  - unfold RenewLease. destruct (prepareLeaseRef hmac c lease ttl) as [keys|e] eqn:Hp; [|apply effect_refl].
    apply prepare_ref_spec in Hp as (-> & Hnd & Httl).
    destruct (renewLeaseScript_spec _ (Milliseconds ttl) (member c (LeaseID lease)) leaseKeyGraceMilliseconds s Hnd)
      as (s' & Ht & Hr & Hif); [lia|done|].
    assert (He : effect c (CRenew tr lease ttl) s s' /\
      (renewLeaseScript (key c <$> LeaseDimensions lease) (Milliseconds ttl) (member c (LeaseID lease)) leaseKeyGraceMilliseconds s).2 = s').
    { destruct (forallb _ _) eqn:Hall; destruct Hif as [-> Hl]; (split; [|done]);
        apply (effect_touches c _ (key c <$> LeaseDimensions lease)); try done; intros k Hk.
      - eapply change_add; [done| |by apply Hl|]; [lia|]. left. rewrite forallb_forall in Hall.
        apply list_elem_of_In in Hk. specialize (Hall k Hk). by apply bool_decide_eq_true in Hall.
      - eapply change_remove; [done|]. by apply Hl. }
    destruct He as [He Hs].
    assert (Hgoal : forall s0, s0 = s \/ s0 = s' -> effect c (CRenew tr lease ttl) s s0)
      by (intros s0 [->| ->]; [apply effect_refl|done]).
    apply Hgoal. unfold run_script. destruct tr; simpl; [|by left|].
    + destruct (renewLeaseScript _ _ _ _ _) as [v s0]. simpl in Hs. subst s0. right. repeat (case_match; try done).
    + destruct (renewLeaseScript _ _ _ _ _) as [v s0]. simpl in Hs. subst s0. by right.
  - unfold ReleaseLease. destruct (prepareLeaseRef hmac c lease Millisecond) as [keys|e] eqn:Hp; [|apply effect_refl].
    apply prepare_ref_spec in Hp as (-> & Hnd & _).
    destruct (releaseLeaseScript_spec _ (member c (LeaseID lease)) leaseKeyGraceMilliseconds s Hnd)
      as (n & s' & Hn & Hs & Ht & Hk); [done|].
    assert (He : effect c (CRelease tr lease) s s').
    { apply (effect_touches c _ (key c <$> LeaseDimensions lease)); [done|by apply Hk|].
      intros k Hin. eapply change_remove; [done|]. by apply Hk. }
    unfold run_script. destruct tr; simpl; rewrite ?Hs; simpl; [|apply effect_refl|done].
    by destruct (_ || _)%bool.
  - unfold CleanupExpiredLeases. destruct (prepareConcurrencyLimits hmac c limits) as [[keys dims]|e] eqn:Hp;
      [|apply effect_refl].
    apply prepare_limits_spec in Hp as (-> & -> & Hnd & _ & _).
    destruct (cleanupLeaseScript_spec _ leaseKeyGraceMilliseconds s Hnd) as (n & s' & Hn & Hs & Ht & Hk); [done|].
    assert (He : effect c (CCleanup tr limits) s s').
    { apply (effect_touches c _ (key c <$> (LimDimension <$> limits))); [done|by apply Hk|].
      intros k Hin. apply change_none. by apply Hk. }
    unfold run_script. destruct tr; simpl; rewrite ?Hs; simpl; [|apply effect_refl|done].
    destruct (_ || _)%bool; [done|]. by destruct (read_counts _ _).
Qed.

Lemma key_change_size (room : Z -> Prop) lim m now before after :
  key_change room m now before after -> (forall n, room n -> n < lim) ->
  Z.of_nat (size before) <= Z.max 0 lim -> Z.of_nat (size after) <= Z.max 0 lim.
Proof.
  intros [->|m' x _ _ -> Hroom|m' _ ->] Hlim Hle; [done|..].
  - destruct (before !! m') eqn:Hm.
    + rewrite map_size_insert_Some by eauto. done.
    + rewrite map_size_insert_None by done. destruct Hroom as [[? ?]|Hroom%Hlim]; [congruence|lia].
  - assert (size (delete m' before) <= size before)%nat; [|lia]. apply map_subseteq_size, delete_subseteq.
Qed.

Lemma above_size t (m : gmap string Z) : (size (above t m) <= size m)%nat.
Proof. apply map_subseteq_size, map_filter_subseteq. Qed.

Lemma elapse_size t s k : clock s <= t -> (size (live (elapse t s) k) <= size (live s k))%nat.
Proof.
  intros Ht. unfold live. rewrite elapse_clock, elapse_zset by done.
  assert (Hle : (size (above t (zset s k)) <= size (above (clock s) (zset s k)))%nat).
  { apply map_subseteq_size. rewrite map_subseteq_spec. intros m x. rewrite !lookup_above. intros [? ?]. split; [done|lia]. }
  destruct (expiry s k) as [e|]; [destruct (e <=? t)|]; try done.
  assert (size (above t (∅ : gmap string Z)) = 0%nat) as ->; [|lia]. done.
Qed.

(** C9.  Capacity: from a server without leases, after any history of
    acquisitions, renewals, releases and cleanups by any number of gateways,
    with replies or requests lost and time passing in between, no key ever has
    more live leases than the limit stated for it. *)
Theorem lease_capacity c (lim : string -> Z) s calls :
  (forall k, zset s k = ∅) -> Forall (agrees c lim) calls ->
  forall k, Z.of_nat (size (live (run_calls c s calls) k)) <= Z.max 0 (lim k).
Proof.
  intros Hempty Hag.
  assert (Hinit : forall k, Z.of_nat (size (live s k)) <= Z.max 0 (lim k)).
  { intros k. unfold live. rewrite Hempty. change (size (above (clock s) ∅)) with 0%nat. lia. }
  clear Hempty. revert s Hinit. induction Hag as [|call calls Hcall _ IH]; intros s Hinit; [done|].
  apply IH. intros k. destruct (keeps_time_dec call) as [Hkt|(t & ->)].
  - eapply key_change_size; [apply (run_call_effect c call s Hkt)| |apply Hinit].
    intros n Hn. destruct call as [tr id ttl limits| | | |]; try done. destruct Hn as (l & Hl & <- & Hn).
    simpl in Hcall. rewrite Forall_forall in Hcall. by rewrite <- Hcall.
  - simpl. pose proof (elapse_size (Z.max t (clock s)) s k (Z.le_max_r _ _)). specialize (Hinit k). lia.
Qed.

Lemma run_calls_clock c calls s : clock s <= clock (run_calls c s calls).
Proof.
  revert s. induction calls as [|call calls IH]; intros s; simpl; [lia|]. etransitivity; [|apply IH].
  destruct (keeps_time_dec call) as [Hkt|(t & ->)].
  - destruct (run_call_effect c call s Hkt) as [-> _]. lia.
  - simpl. rewrite elapse_clock; lia.
Qed.

(**  A live lease is never lost: after any history of calls by other
    lease holders, lost replies included, and of time passing, a lease is
    still live on its key with its expiry unchanged as long as that expiry has
    not come.  (Keys are retained: a script leaves a key to expire only after
    its last lease.) *)
Theorem live_lease_kept c s calls k m x :
  Retained s k -> live s k !! m = Some x ->
  Forall (λ call, call_member c call <> Some m) calls ->
  clock (run_calls c s calls) < x ->
  live (run_calls c s calls) k !! m = Some x.
Proof.
  intros Hr Hm Hothers. revert s Hr Hm. induction Hothers as [|call calls Hcall _ IH]; intros s Hr Hm Hx; [done|].
  simpl in Hx. pose proof (run_calls_clock c calls (run_call c s call)) as Hclock.
  simpl. destruct (keeps_time_dec call) as [Hkt|(t & ->)].
  - destruct (run_call_effect c call s Hkt) as [_ He]. destruct (He k) as [Hch Hr'].
    apply IH; [by apply Hr'| |done].
    destruct Hch as [->|m' x' Hm' _ -> _|m' Hm' ->]; [done|..].
    + rewrite lookup_insert_ne; [done|]. congruence.
    + rewrite lookup_delete_ne; [done|]. congruence.
  - simpl in *. rewrite elapse_clock in Hclock by lia. apply IH; [apply elapse_Retained; [lia|done]| |done].
    rewrite elapse_live by (lia || done). apply lookup_above. split; [done|]. unfold run_calls in *. lia.
Qed.

(** ** The retry time *)

(** A new lease at a later time: the key blocks it until the wait is over. *)
Lemma blocked_later s s' m kl t :
  1 <= kl.2 -> live s kl.1 !! m = None -> clock s <= t ->
  live s' kl.1 = live s kl.1 -> clock s' = clock s -> Retained s' kl.1 ->
  blocked (elapse t s') m kl = true <-> t < clock s + wait_of s m kl.
Proof.
  intros Hpos Hm Ht Hl Hc Hr. unfold blocked at 1. rewrite elapse_live by (lia || done). rewrite Hl.
  rewrite bool_decide_true.
  2:{ apply eq_None_not_Some. intros [x [Hx _]%lookup_above]. congruence. }
  simpl. rewrite Z.leb_le. destruct (blocked s m kl) eqn:Hb.
  - destruct (blocking_entry s m kl Hb Hpos) as (e & He & Hgt). unfold wait_of. rewrite Hb, He.
    destruct (above_count _ _ _ t He) as [H1 H2].
    unfold blocked in Hb. apply andb_true_iff in Hb as [_ Hb]. to_prop.
    destruct (Z.lt_ge_cases t e.2) as [Hlt|Hge]; [specialize (H1 Hlt)|specialize (H2 Hge)]; lia.
  - destruct (wait_of_pos s m kl Hpos) as [_ H0]. rewrite (H0 Hb). unfold blocked in Hb.
    rewrite Hm, bool_decide_true in Hb by done. simpl in Hb. to_prop.
    pose proof (above_size t (live s kl.1)). lia.
Qed.

Lemma total_wait_le s m keys acc n :
  total_wait s m keys acc <= n <-> acc <= n /\ Forall (λ kl, wait_of s m kl <= n) keys.
Proof.
  revert acc. induction keys as [|kl keys IH]; intros acc; unfold total_wait in *; simpl.
  - rewrite Forall_nil. naive_solver.
  - rewrite IH, Forall_cons. rewrite Z.max_lub_iff. naive_solver.
Qed.

(** The retry time of a refusal is exact: for a lease not yet held, if
    nothing but time intervenes, the request could be granted at a later time
    exactly when the time named by the refusal has come. *)
Theorem retry_time_exact c leaseID ttl limits keys dims s d s' :
  prepareLeaseAcquire hmac c leaseID ttl limits = Ok (keys, dims) ->
  (forall k, k ∈ keys -> live s k !! member c leaseID = None) ->
  AcquireLease hmac c Replied leaseID ttl limits s = (Ok d, s') -> Granted d = false ->
  forall t, clock s <= t -> free c leaseID limits (elapse t s') <-> RetryAt d <= UnixMilli t.
Proof.
  intros Hp Hnew Hacq Hden t Ht.
  destruct (acquire_script c leaseID ttl limits keys dims s Hp) as (s1 & values & Hs & Htch & Hr & Hcase).
  pose proof (prepared_acquire _ _ _ _ _ _ s Hp) as (Hkeys & _ & _ & Hpos & _ & _).
  unfold AcquireLease in Hacq. rewrite Hp in Hacq. simpl run_script in Hacq. rewrite Hs in Hacq.
  injection Hacq as Hread <-. destruct Hcase as [(_ & -> & _)|(_ & -> & Hw & Hl)].
  { exfalso. unfold read_acquire in Hread. repeat (case_match; simplify_eq/=). }
  assert (HR : RetryAt d = UnixMilli (clock s) + wait_time c leaseID limits s * Millisecond).
  { unfold read_acquire in Hread. repeat (case_match; simplify_eq/=). done. }
  rewrite HR, <- free_unblocked.
  assert (Hiff : clock s + wait_time c leaseID limits s <= t <->
     Forall (λ kl, blocked (elapse t s1) (member c leaseID) kl = false) (limited c limits)).
  { assert (clock s + wait_time c leaseID limits s <= t <-> wait_time c leaseID limits s <= t - clock s) as -> by lia.
    unfold wait_time. rewrite total_wait_le. rewrite !Forall_forall. split.
    - intros [_ H] kl Hkl. apply not_true_is_false. intros Hb. specialize (H kl Hkl).
      assert (Hk : kl.1 ∈ keys) by (rewrite Hkeys, <- limited_keys; by apply list_elem_of_fmap_2).
      rewrite Forall_forall in Hpos.
      apply (blocked_later s) in Hb; [lia|auto|auto|lia|auto|apply Htch|auto].
    - intros H. split; [lia|]. intros kl Hkl. specialize (H kl Hkl).
      assert (Hk : kl.1 ∈ keys) by (rewrite Hkeys, <- limited_keys; by apply list_elem_of_fmap_2).
      rewrite Forall_forall in Hpos. destruct (Z.le_gt_cases (wait_of s (member c leaseID) kl) (t - clock s)) as [?|Hgt]; [done|].
      exfalso. assert (blocked (elapse t s1) (member c leaseID) kl = true); [|congruence].
      apply (blocked_later s); [auto|auto|lia|auto|apply Htch|auto|lia]. }
  rewrite <- Hiff. unfold UnixMilli, Millisecond. lia.
Qed.

(** ** Renewal and release *)

(** [RenewLease] succeeds exactly when the lease is live on every one of
    its dimensions, and then gives all of them the new expiry; otherwise it
    reports the lease lost and leaves it on none of them. *)
Theorem RenewLease_all_or_none c lease ttl keys s :
  prepareLeaseRef hmac c lease ttl = Ok keys -> 0 < clock s ->
  let m := member c (LeaseID lease) in
  exists s', touches keys s s' /\
    ((Forall (λ k, is_Some (live s k !! m)) keys /\
      RenewLease hmac c Replied lease ttl s = (Ok (UnixMilli (clock s + Milliseconds ttl)), s') /\
      forall k, k ∈ keys -> live s' k = <[m := clock s + Milliseconds ttl]> (live s k)) \/
     (~ Forall (λ k, is_Some (live s k !! m)) keys /\
      RenewLease hmac c Replied lease ttl s = (Err ErrLeaseLost, s') /\
      forall k, k ∈ keys -> live s' k = delete m (live s k))).
Proof.
  intros Hp Hc m. pose proof (prepare_ref_spec _ _ _ _ Hp) as (_ & Hnd & Httl).
  destruct (renewLeaseScript_spec keys (Milliseconds ttl) m leaseKeyGraceMilliseconds s Hnd)
    as (s' & Ht & _ & Hif); [lia|done|].
  exists s'. split; [done|]. unfold RenewLease. rewrite Hp. simpl run_script. fold m.
  destruct (forallb _ keys) eqn:Hall; destruct Hif as [-> Hl]; [left|right].
  - split; [|split; [|done]].
    + rewrite forallb_forall in Hall. apply Forall_forall. intros k Hk. apply list_elem_of_In in Hk.
      specialize (Hall k Hk). by apply bool_decide_eq_true in Hall.
    + simpl. destruct (Z.leb_spec (clock s) 0); [lia|].
      destruct (Z.leb_spec (clock s + Milliseconds ttl) (clock s)); [lia|done].
  - split; [|split; [|done]].
    + intros Hf. apply not_true_iff_false in Hall. apply Hall. apply forallb_forall.
      intros k Hk. apply list_elem_of_In in Hk. rewrite Forall_forall in Hf. apply bool_decide_eq_true. auto.
    + simpl. by destruct (Z.leb_spec (clock s) 0); [lia|].
Qed.

(** A release that arrives. *)
Lemma ReleaseLease_replied c lease keys s :
  prepareLeaseRef hmac c lease Millisecond = Ok keys -> 0 < clock s ->
  exists s', ReleaseLease hmac c Replied lease s = (None, s') /\ touches keys s s' /\
    forall k, k ∈ keys -> live s' k = delete (member c (LeaseID lease)) (live s k).
Proof.
  intros Hp Hc. pose proof (prepare_ref_spec _ _ _ _ Hp) as (_ & Hnd & _).
  destruct (releaseLeaseScript_spec keys (member c (LeaseID lease)) leaseKeyGraceMilliseconds s Hnd)
    as (n & s' & Hn & Hs & Ht & Hk); [done|]. exists s'. split; [|split; [done|by apply Hk]].
  unfold ReleaseLease. rewrite Hp. simpl run_script. rewrite Hs.
  destruct (Z.leb_spec (clock s) 0); [lia|]. by destruct (Z.ltb_spec n 0); [lia|].
Qed.

(** The server's state does not depend on the fate of the reply. *)
Lemma ReleaseLease_lost c lease s :
  (ReleaseLease hmac c ReplyLost lease s).2 = (ReleaseLease hmac c Replied lease s).2.
Proof.
  unfold ReleaseLease. destruct (prepareLeaseRef hmac c lease Millisecond); [|done]. simpl.
  destruct (releaseLeaseScript _ _ _ s) as [v s']. simpl. destruct v as [|v0 [|v1 [|]]]; try done.
  by destruct (_ || _)%bool.
Qed.

(** [ReleaseLease] takes the lease off every dimension and nothing else,
    and is idempotent: releasing again, or releasing a lease that has expired,
    succeeds and changes no live lease. *)
Theorem ReleaseLease_idempotent c lease keys s :
  prepareLeaseRef hmac c lease Millisecond = Ok keys -> 0 < clock s ->
  let m := member c (LeaseID lease) in
  exists s' s'', ReleaseLease hmac c Replied lease s = (None, s') /\
    ReleaseLease hmac c Replied lease s' = (None, s'') /\
    touches keys s s' /\
    (forall k, k ∈ keys -> live s' k = delete m (live s k)) /\
    (forall k, live s'' k = live s' k).
Proof.
  intros Hp Hc m.
  destruct (ReleaseLease_replied c lease keys s Hp Hc) as (s' & H1 & Ht1 & Hl1).
  destruct (ReleaseLease_replied c lease keys s' Hp) as (s'' & H2 & Ht2 & Hl2); [destruct Ht1 as [-> _]; done|].
  exists s', s''. split_and!; try done. intros k. destruct (decide (k ∈ keys)) as [Hk|Hk].
  - rewrite Hl2, Hl1 by done. apply delete_id, lookup_delete_eq.
  - by eapply touches_live.
Qed.
End lease_calls.

(** ** Concrete instances *)

Definition demo_hmac (secret m : string) : string := m.
Definition demo_coordinator : Coordinator := mkCoordinator "gateway" "0123456789abcdef0123456789abcdef".
Definition demo_server : Server := mkServer 1000 ∅.
Definition demo_limits : list ConcurrencyLimit :=
  [mkConcurrencyLimit GlobalDimension 1; mkConcurrencyLimit (mkDimension ScopeModel "m1") 2].
Definition demo_dims : list Dimension := LimDimension <$> demo_limits.
Definition demo_keys : list string := leaseKey demo_hmac demo_coordinator <$> demo_dims.

Lemma demo_server_clock : 0 < clock demo_server.
Proof. vm_compute. reflexivity. Qed.

Lemma AcquireLease_all_or_none_witness :
  exists d s', AcquireLease demo_hmac demo_coordinator Replied "r1" (5 * Second) demo_limits demo_server = (Ok d, s') /\
    DecDimensions d = in_use demo_hmac demo_coordinator demo_limits s' /\ Granted d = true.
Proof.
  destruct (AcquireLease_all_or_none demo_hmac demo_coordinator "r1" (5 * Second) demo_limits
              demo_keys demo_dims demo_server eq_refl demo_server_clock) as (_ & d & s' & H1 & _ & H2 & _).
  exists d, s'. split; [exact H1|]. split; [exact H2|].
  vm_compute in H1. injection H1 as <- _. reflexivity.
Defined.

Definition demo_calls : list lease_call :=
  [CAcquire Replied "r1" (5 * Second) demo_limits; CAcquire ReplyLost "r2" (5 * Second) demo_limits;
   CElapse 7000; CAcquire Replied "r3" (5 * Second) demo_limits].

Definition demo_lim (k : string) : Z :=
  if bool_decide (k = leaseKey demo_hmac demo_coordinator GlobalDimension) then 1 else 2.

Lemma lease_capacity_witness :
  Z.of_nat (size (live (run_calls demo_hmac demo_coordinator demo_server demo_calls)
                    (leaseKey demo_hmac demo_coordinator GlobalDimension))) <= Z.max 0 1.
Proof.
  refine (lease_capacity demo_hmac demo_coordinator demo_lim demo_server demo_calls _ _
            (leaseKey demo_hmac demo_coordinator GlobalDimension)).
  - intros k. reflexivity.
  - repeat constructor.
Defined.

Definition demo_held : Server :=
  run_calls demo_hmac demo_coordinator demo_server [CAcquire Replied "r1" (5 * Second) demo_limits].

Lemma demo_held_clock : 0 < clock demo_held.
Proof. vm_compute. reflexivity. Qed.

Lemma demo_held_retained k : Retained demo_held k.
Proof.
  destruct (run_call_effect demo_hmac demo_coordinator
              (CAcquire Replied "r1" (5 * Second) demo_limits) demo_server I) as [_ He].
  apply He. by left.
Qed.

Lemma live_lease_kept_witness :
  live (run_calls demo_hmac demo_coordinator demo_held
          [CAcquire Replied "r2" (5 * Second) demo_limits; CElapse 5999])
    (leaseKey demo_hmac demo_coordinator GlobalDimension) !! leaseMember demo_hmac demo_coordinator "r1" = Some 6000.
Proof.
  refine (live_lease_kept demo_hmac demo_coordinator demo_held
            [CAcquire Replied "r2" (5 * Second) demo_limits; CElapse 5999]
            (leaseKey demo_hmac demo_coordinator GlobalDimension)
            (leaseMember demo_hmac demo_coordinator "r1") 6000 _ _ _ _).
  - apply demo_held_retained.
  - vm_compute. reflexivity.
  - repeat constructor; discriminate.
  - vm_compute. reflexivity.
Defined.

Lemma retry_time_exact_witness :
  exists d s', AcquireLease demo_hmac demo_coordinator Replied "r2" (5 * Second) demo_limits demo_held = (Ok d, s') /\
    RetryAt d = UnixMilli 6000 /\
    (free demo_hmac demo_coordinator "r2" demo_limits (elapse 6000 s') <-> RetryAt d <= UnixMilli 6000).
Proof.
  destruct (AcquireLease demo_hmac demo_coordinator Replied "r2" (5 * Second) demo_limits demo_held)
    as [[d|e] s'] eqn:E; [|vm_compute in E; discriminate E].
  assert (Hd : Granted d = false /\ RetryAt d = UnixMilli 6000)
    by (vm_compute in E; injection E as <- _; split; vm_compute; reflexivity).
  exists d, s'. split; [reflexivity|]. split; [apply Hd|].
  refine (retry_time_exact demo_hmac demo_coordinator "r2" (5 * Second) demo_limits demo_keys demo_dims
            demo_held d s' eq_refl _ E (proj1 Hd) 6000 _).
  - assert (H : Forall (λ k, live demo_held k !! leaseMember demo_hmac demo_coordinator "r2" = None) demo_keys)
      by (repeat constructor; vm_compute; reflexivity).
    rewrite Forall_forall in H. exact H.
  - vm_compute. discriminate.
Defined.

Definition demo_lease : LeaseRef := mkLeaseRef "r1" demo_dims.

Lemma RenewLease_all_or_none_witness :
  (RenewLease demo_hmac demo_coordinator Replied demo_lease (7 * Second) demo_held).1 = Ok (UnixMilli 8000) /\
  exists s', touches demo_keys demo_held s' /\
    (RenewLease demo_hmac demo_coordinator Replied demo_lease (7 * Second) demo_held).2 = s'.
Proof.
  split; [vm_compute; reflexivity|].
  destruct (RenewLease_all_or_none demo_hmac demo_coordinator demo_lease (7 * Second) demo_keys demo_held
              eq_refl demo_held_clock) as (s' & Ht & [(_ & H & _)|(_ & H & _)]);
    exists s'; (split; [exact Ht|]); rewrite H; reflexivity.
Defined.

Lemma ReleaseLease_idempotent_witness :
  exists s' s'', ReleaseLease demo_hmac demo_coordinator Replied demo_lease demo_held = (None, s') /\
    ReleaseLease demo_hmac demo_coordinator Replied demo_lease s' = (None, s'').
Proof.
  destruct (ReleaseLease_idempotent demo_hmac demo_coordinator demo_lease demo_keys demo_held eq_refl demo_held_clock)
    as (s' & s'' & H1 & H2 & _).
  exists s', s''. split; [exact H1|exact H2].
Defined.

(** ** Separation of the keys *)

Lemma byte_inj n m : 0 <= n < 256 -> 0 <= m < 256 -> byte (Z.to_N n) = byte (Z.to_N m) -> n = m.
Proof.
  intros Hn Hm Heq. unfold byte in Heq.
  assert (N_of_ascii (ascii_of_N (Z.to_N n)) = N_of_ascii (ascii_of_N (Z.to_N m))) as Hb by congruence.
  rewrite !N_ascii_embedding in Hb by lia. lia.
Qed.

Lemma String_inj a b x y : String a x = String b y -> a = b /\ x = y.
Proof. by intros [= -> ->]. Qed.

(** The byte of a 32-bit number at bit [i]. *)
Lemma byte_at n i : 0 <= n -> 0 <= i -> Z.land (Z.shiftr n i) 255 = (n `div` 2 ^ i) `mod` 256.
Proof.
  intros Hn Hi. change 255 with (Z.ones 8). rewrite Z.land_ones, Z.shiftr_div_pow2 by lia. done.
Qed.

Lemma be32_inj n m : 0 <= n < 2 ^ 32 -> 0 <= m < 2 ^ 32 -> be32 n = be32 m -> n = m.
Proof.
  intros Hn Hm Heq. unfold be32 in Heq. rewrite !byte_at in Heq by lia.
  apply String_inj in Heq as [H24 Heq]. apply String_inj in Heq as [H16 Heq].
  apply String_inj in Heq as [H8 Heq]. apply String_inj in Heq as [H0 _].
  assert (Hb : forall x, 0 <= x `mod` 256 < 256) by (intros; apply Z.mod_pos_bound; lia).
  apply byte_inj in H24, H16, H8, H0; try apply Hb.
  change (2 ^ 24) with 16777216 in *. change (2 ^ 16) with 65536 in *. change (2 ^ 8) with 256 in *.
  change (2 ^ 0) with 1 in *. change (2 ^ 32) with 4294967296 in *.
  rewrite !Z.div_1_r in H0. clear Hb. Z.to_euclidean_division_equations. lia.
Qed.

Lemma slen_nonneg s : 0 <= slen s.
Proof. unfold slen. lia. Qed.

(** The input of the MAC determines the parts: lengths come first. *)
Lemma mac_input_inj parts parts' :
  length parts = length parts' ->
  Forall (λ p, slen p < 2 ^ 32) parts -> Forall (λ p, slen p < 2 ^ 32) parts' ->
  mac_input parts = mac_input parts' -> parts = parts'.
Proof.
  revert parts'. induction parts as [|p parts IH]; intros [|p' parts'] Hlen Hp Hp' Heq; try done.
  apply Forall_cons in Hp as [Hp1 Hp], Hp' as [Hp1' Hp']. simpl in Heq.
  apply append_inj_l in Heq as [Hl Heq]; [|done].
  apply be32_inj in Hl; [|split; [apply slen_nonneg|done]..].
  apply append_inj_l in Heq as [-> Heq]; [|unfold slen in Hl; lia].
  f_equal. apply IH; simpl in Hlen; try done. lia.
Qed.

Lemma scope_string_inj d d' :
  validateDimension d = None -> validateDimension d' = None ->
  scope_string (DScope d) = scope_string (DScope d') -> DScope d = DScope d'.
Proof.
  unfold validateDimension. destruct (DScope d), (DScope d'); simpl; done.
Qed.

Lemma validateDimension_lengths d :
  validateDimension d = None -> slen (SubjectID d) <= 512 /\ slen (scope_string (DScope d)) <= 512.
Proof.
  unfold validateDimension. intros H. split.
  - destruct (DScope d); [case_bool_decide as Hs; [by rewrite Hs|done]|..|done];
      destruct (blank (SubjectID d)); try done;
      (destruct (Z.ltb_spec maximumSubjectBytes (slen (SubjectID d))) as [|Hle]; [done|exact Hle]).
  - by destruct (DScope d).
Qed.

Definition dimension_input (d : Dimension) : string :=
  mac_input ["dimension"; scope_string (DScope d); SubjectID d].

(** Keys are separated up to collisions of the keyed hash: when digests
    have the fixed length of a hex SHA-256, two different valid dimensions
    share a lease key only if the hash maps two different inputs to one
    digest. *)
Theorem leaseKey_separated hmac c d d' :
  (forall m, String.length (hmac (keyHashSecret c) m) = 64%nat) ->
  validateDimension d = None -> validateDimension d' = None -> d <> d' ->
  leaseKey hmac c d = leaseKey hmac c d' ->
  dimension_input d <> dimension_input d' /\
  hmac (keyHashSecret c) (dimension_input d) = hmac (keyHashSecret c) (dimension_input d').
Proof.
  intros Hlen Hd Hd' Hne Heq. unfold leaseKey, digest in Heq. fold (dimension_input d) (dimension_input d') in Heq.
  do 2 apply append_prefix_inj in Heq.
  assert (Hl : String.length (scope_string (DScope d)) = String.length (scope_string (DScope d'))).
  { apply (f_equal String.length) in Heq. rewrite !append_length in Heq. simpl in Heq. rewrite !Hlen in Heq. lia. }
  apply append_inj_l in Heq as [_ Heq]; [|done]. apply append_prefix_inj in Heq. split; [|done].
  intros Hin. apply Hne.
  assert (Hsub : forall d, validateDimension d = None ->
    Forall (λ p, slen p < 2 ^ 32) ["dimension"; scope_string (DScope d); SubjectID d]).
  { intros d0 (Hsub & Hscope)%validateDimension_lengths.
    repeat apply Forall_cons_2; [done|lia|lia|constructor]. }
  apply mac_input_inj in Hin; [|done|by apply Hsub..].
  destruct d as [sc sub], d' as [sc' sub']. simpl in *. injection Hin as Hsc ->.
  f_equal. by apply (scope_string_inj (mkDimension sc sub') (mkDimension sc' sub')).
Qed.

Definition constant_hmac (secret m : string) : string :=
  "0123456789abcdef0123456789abcdef0123456789abcdef0123456789abcdef".

Lemma leaseKey_separated_witness :
  dimension_input (mkDimension ScopeModel "a") <> dimension_input (mkDimension ScopeModel "b") /\
  constant_hmac (keyHashSecret demo_coordinator) (dimension_input (mkDimension ScopeModel "a")) =
  constant_hmac (keyHashSecret demo_coordinator) (dimension_input (mkDimension ScopeModel "b")).
Proof.
  refine (leaseKey_separated constant_hmac demo_coordinator (mkDimension ScopeModel "a")
            (mkDimension ScopeModel "b") _ _ _ _ _).
  - intros m. reflexivity.
  - vm_compute. reflexivity.
  - vm_compute. reflexivity.
  - discriminate.
  - reflexivity.
Defined.
