(* ===== verification/Rate.v ===== *)
(** * Rate limits: token buckets and fixed windows held in Valkey

    Models [src/internal/coordination/rate.go], the Lua scripts of
    [rate_script.go] and the bucket types of [types.go].

    Times, windows and counters are integers below [2^53], which Lua's numbers
    hold exactly, and are [Z].  Token balances may be fractional: they are
    rationals, each arithmetic operation on them rounded by [fl], and stored
    as text by [tostring] and read back by [tonumber].  These three are
    arguments of the model; [LuaNumbers] states what the scripts rely on. *)

From Stdlib Require Export QArith Qround Lqa.
From S2P Require Import Prelude GoStrings Valkey Lease.

Local Open Scope Z_scope.

(** ** types.go *)

Inductive BucketMetric := MetricRequests | MetricTokens | MetricDailyTokens | MetricOther (s : string).

Definition metric_string (m : BucketMetric) : string :=
  match m with
  | MetricRequests => "requests" | MetricTokens => "tokens" | MetricDailyTokens => "daily_tokens"
  | MetricOther s => s
  end.

Record BucketLimit := mkBucketLimit {
  BDimension : Dimension;
  Metric : BucketMetric;
  CapacityTokens : Z;
  RefillTokens : Z;
  RefillInterval : Z;
  RequestedTokens : Z;
  FixedWindow : Z;
  FixedWindowOffset : Z;
}.

Record BucketState := mkBucketState {
  BsDimension : Dimension;
  BsMetric : BucketMetric;
  RemainingTokens : Z;
}.

Record RateDecision := mkRateDecision {
  RGranted : bool;
  RObservedAt : Z;
  RRetryAt : Z;
  RBuckets : list BucketState;
}.

Record RateObservation := mkRateObservation { OObservedAt : Z; OBuckets : list BucketState }.

Record RateRefundDecision := mkRateRefundDecision {
  Applied : bool;
  FObservedAt : Z;
  FBuckets : list BucketState;
}.

(** ** Lua numbers *)

Class Lua := {
  fl : Q -> Q;
  tostring : Q -> string;
  tonumber : string -> option Q;
}.

(** Rounding is monotone and exact on the integers a double holds; the text of
    a number reads back as its rounding to the digits [tostring] keeps, which
    is monotone and exact on integers of up to 14 digits. *)
Class LuaNumbers `{!Lua} := {
  fl_mono x y : (x <= y)%Q -> (fl x <= fl y)%Q;
  fl_exact n : Z.abs n <= 2 ^ 53 -> (fl (inject_Z n) == inject_Z n)%Q;
  text : Q -> Q;
  tonumber_tostring x : tonumber (tostring x) = Some (text x);
  text_mono x y : (x <= y)%Q -> (text x <= text y)%Q;
  text_exact n : Z.abs n < 10 ^ 14 -> (text (inject_Z n) == inject_Z n)%Q;
}.

Definition Qmin2 (x y : Q) : Q := if Qle_bool x y then x else y.
Definition Qmax2 (x y : Q) : Q := if Qle_bool x y then y else x.
Definition Qlt_bool (x y : Q) : bool := negb (Qle_bool y x).

(** The seven arguments of one bucket. *)
Record BucketArgs := mkBucketArgs {
  capacity : Z;
  refill : Z;
  interval_ms : Z;
  requested : Z;
  idle_ttl_ms : Z;
  window_ms : Z;
  window_offset_ms : Z;
}.

(** ** rate_script.go *)

(** One entry of the table [states]: the balance, the time to keep the key,
    and what identifies the stored state. *)
Inductive BucketMark :=
| InWindow (window_index : Z) (can_refund : bool)
| Updated (updated_ms : Q).

Record BucketSt := mkBucketSt {
  st_tokens : Q;
  st_mark : BucketMark;
  st_keep_ms : Q;
}.

Section scripts.
Context `{!Lua} {S : Type} `{!Valkey S}.

Definition window_index_at (now_ms : Z) (a : BucketArgs) : Z :=
  (now_ms - window_offset_ms a) `div` window_ms a.

Definition until_reset (now_ms : Z) (a : BucketArgs) : Z :=
  Z.max 1 ((window_index_at now_ms a + 1) * window_ms a + window_offset_ms a - now_ms).

Definition corrupt {A} : result string A := Err "CORRUPT_COORDINATION_BUCKET".

(** The fixed-window branch, the same in the three scripts ([can_refund] is
    used by the refund script only). *)
Definition read_window (now_ms : Z) (a : BucketArgs) (raw : list (option string)) : result string BucketSt :=
  let index := window_index_at now_ms a in
  let keep := inject_Z (until_reset now_ms a) in
  match raw with
  | [None; None; None; None; None] =>
      Ok (mkBucketSt (inject_Z (capacity a)) (InWindow index false) keep)
  | [Some r1; Some r2; Some r3; Some r4; Some r5] =>
      match tonumber r1, tonumber r2, tonumber r3, tonumber r4, tonumber r5 with
      | Some stored_tokens, Some stored_window, Some stored_capacity, Some stored_window_ms,
        Some stored_offset_ms =>
          if Qlt_bool (inject_Z index) stored_window then corrupt
          else if Qeq_bool stored_window (inject_Z index) then
            if (Qeq_bool stored_capacity (inject_Z (capacity a)) &&
                Qeq_bool stored_window_ms (inject_Z (window_ms a)) &&
                Qeq_bool stored_offset_ms (inject_Z (window_offset_ms a)))%bool
            then Ok (mkBucketSt (Qmin2 (inject_Z (capacity a)) (Qmax2 0 stored_tokens))
                       (InWindow index true) keep)
            else Ok (mkBucketSt 0 (InWindow index false) keep)
          else Ok (mkBucketSt (inject_Z (capacity a)) (InWindow index false) keep)
      | _, _, _, _, _ => corrupt
      end
  | _ => corrupt
  end.

(** The refilling branch, the same in the three scripts; the second component
    is [clock_delay_ms]. *)
Definition read_refill (now_ms : Z) (a : BucketArgs) (raw : list (option string)) :
    result string (BucketSt * Q) :=
  match raw with
  | [None; None] =>
      Ok (mkBucketSt (inject_Z (capacity a)) (Updated (inject_Z now_ms)) (inject_Z (idle_ttl_ms a)), 0%Q)
  | [Some r1; Some r2] =>
      match tonumber r1, tonumber r2 with
      | Some tokens0, Some updated_ms =>
          if (Qlt_bool updated_ms 0 || Qlt_bool (inject_Z (now_ms + idle_ttl_ms a)) updated_ms)%bool then corrupt
          else
            let tokens := Qmin2 (inject_Z (capacity a)) (Qmax2 0 tokens0) in
            if Qle_bool updated_ms (inject_Z now_ms) then
              let refilled :=
                fl (fl (fl (inject_Z now_ms - updated_ms) * inject_Z (refill a)) / inject_Z (interval_ms a)) in
              Ok (mkBucketSt (Qmin2 (inject_Z (capacity a)) (fl (tokens + refilled)))
                    (Updated (inject_Z now_ms)) (inject_Z (idle_ttl_ms a)), 0%Q)
            else
              let clock_delay_ms := fl (updated_ms - inject_Z now_ms) in
              Ok (mkBucketSt tokens (Updated updated_ms) (fl (inject_Z (idle_ttl_ms a) + clock_delay_ms)),
                  clock_delay_ms)
      | _, _ => corrupt
      end
  | _ => corrupt
  end.

Definition window_fields : list string :=
  ["tokens"; "window_index"; "capacity_tokens"; "window_ms"; "window_offset_ms"].
Definition refill_fields : list string := ["tokens"; "updated_ms"].

(** Reading one bucket: its state and the clock delay. *)
Definition read_bucket (now_ms : Z) (key : string) (a : BucketArgs) (s : S) : result string (BucketSt * Q) :=
  if 0 <? window_ms a then
    let? st := read_window now_ms a (HMGET key window_fields s) in Ok (st, 0%Q)
  else read_refill now_ms a (HMGET key refill_fields s).

(** The time until the bucket holds the request; 0 when it does now. *)
Definition bucket_wait (now_ms : Z) (a : BucketArgs) (st : BucketSt) (clock_delay_ms : Q) : Q :=
  if Qlt_bool (st_tokens st) (inject_Z (requested a)) then
    match st_mark st with
    | InWindow _ _ => inject_Z (until_reset now_ms a)
    | Updated _ =>
        let missing := fl (inject_Z (requested a) - st_tokens st) in
        let wait_ms :=
          fl (clock_delay_ms +
              inject_Z (Qceiling (fl (fl (missing * inject_Z (interval_ms a)) / inject_Z (refill a))))) in
        Qmax2 1 wait_ms
    end
  else 0%Q.

(** [HSET] and [PEXPIRE] of one bucket with the balance [remaining].  The
    time to keep is a whole number of milliseconds for the integer
    [updated_ms] the scripts store; [Qfloor] reads it as one. *)
Definition write_bucket (key : string) (a : BucketArgs) (st : BucketSt) (remaining : Q) (s : S) : S :=
  let fields :=
    match st_mark st with
    | InWindow index _ =>
        [("tokens", tostring remaining); ("window_index", tostring (inject_Z index));
         ("capacity_tokens", tostring (inject_Z (capacity a)));
         ("window_ms", tostring (inject_Z (window_ms a)));
         ("window_offset_ms", tostring (inject_Z (window_offset_ms a)))]
    | Updated updated_ms => [("tokens", tostring remaining); ("updated_ms", tostring updated_ms)]
    end in
  PEXPIRE key (Qfloor (st_keep_ms st)) (HSET key fields s).

(** [math.floor(math.max(0, remaining))] *)
Definition reported (remaining : Q) : Z := Qfloor (Qmax2 0 remaining).

(** The first loop of [acquireRateScript]. *)
Fixpoint rate_check (now_ms : Z) (keys : list (string * BucketArgs)) (states : list BucketSt)
    (retry_after_ms : Q) (s : S) : result string (list BucketSt * Q) :=
  match keys with
  | [] => Ok (states, retry_after_ms)
  | (key, a) :: keys' =>
      let? (st, clock_delay_ms) := read_bucket now_ms key a s in
      rate_check now_ms keys' (states ++ [st])
        (Qmax2 retry_after_ms (bucket_wait now_ms a st clock_delay_ms)) s
  end.

(** The second loop: write every bucket and report its balance. *)
Fixpoint rate_write (granted : bool) (keys : list (string * BucketArgs)) (states : list BucketSt) (s : S) :
    list Z * S :=
  match keys, states with
  | (key, a) :: keys', st :: states' =>
      let remaining := if granted then fl (st_tokens st - inject_Z (requested a)) else st_tokens st in
      let '(rest, s') := rate_write granted keys' states' (write_bucket key a st remaining s) in
      (reported remaining :: rest, s')
  | _, _ => ([], s)
  end.

Definition acquireRateScript (keys : list (string * BucketArgs)) (s : S) : result string (list Z) * S :=
  let now_ms := clock s in
  match rate_check now_ms keys [] 0%Q s with
  | Err e => (Err e, s)
  | Ok (states, retry_after_ms) =>
      let granted := Qeq_bool retry_after_ms 0 in
      let '(balances, s') := rate_write granted keys states s in
      (Ok ((if granted then 1 else 0) :: now_ms :: Qfloor retry_after_ms :: balances), s')
  end.

(** [inspectRateScript] reads, refills and writes back one bucket after the
    other. *)
Fixpoint inspect_loop (now_ms : Z) (keys : list (string * BucketArgs)) (balances : list Z) (s : S) :
    result string (list Z) * S :=
  match keys with
  | [] => (Ok balances, s)
  | (key, a) :: keys' =>
      match read_bucket now_ms key a s with
      | Err e => (Err e, s)
      | Ok (st, _) =>
          inspect_loop now_ms keys' (balances ++ [reported (st_tokens st)])
            (write_bucket key a st (st_tokens st) s)
      end
  end.

Definition inspectRateScript (keys : list (string * BucketArgs)) (s : S) : result string (list Z) * S :=
  let now_ms := clock s in
  match inspect_loop now_ms keys [] s with
  | (Ok balances, s') => (Ok (now_ms :: balances), s')
  | (Err e, s') => (Err e, s')
  end.

(** [refundRateScript] *)
Fixpoint refund_read (now_ms : Z) (keys : list (string * BucketArgs)) (states : list BucketSt) (s : S) :
    result string (list BucketSt) :=
  match keys with
  | [] => Ok states
  | (key, a) :: keys' =>
      let? (st, _) := read_bucket now_ms key a s in refund_read now_ms keys' (states ++ [st]) s
  end.

(** The balance after the refund of [requested]. *)
Definition refunded (a : BucketArgs) (st : BucketSt) : Q :=
  match st_mark st with
  | InWindow _ false => st_tokens st
  | _ => Qmin2 (inject_Z (capacity a)) (fl (st_tokens st + inject_Z (requested a)))
  end.

Fixpoint refund_write (applied : bool) (keys : list (string * BucketArgs)) (states : list BucketSt) (s : S) :
    list Z * S :=
  match keys, states with
  | (key, a) :: keys', st :: states' =>
      let remaining := if applied then refunded a st else st_tokens st in
      let s1 := if applied then write_bucket key a st remaining s else s in
      let '(rest, s') := refund_write applied keys' states' s1 in
      (reported remaining :: rest, s')
  | _, _ => ([], s)
  end.

Definition refundRateScript (marker : string) (keys : list (string * BucketArgs)) (marker_ttl_ms : Z) (s : S) :
    result string (list Z) * S :=
  let now_ms := clock s in
  let already_applied := EXISTS marker s in
  match refund_read now_ms keys [] s with
  | Err e => (Err e, s)
  | Ok states =>
      let '(applied, s1) := if negb already_applied then SET_NX_PX marker marker_ttl_ms s else (false, s) in
      let '(balances, s2) := refund_write applied keys states s1 in
      (Ok ((if applied then 1 else 0) :: now_ms :: balances), s2)
  end.
End scripts.

(** ** rate.go *)

Definition maximumBucketTokens : Z := 1000000000000.
Definition maximumRefillInterval : Z := 24 * Hour.
Definition maximumFixedWindow : Z := 31 * 24 * Hour.
Definition maximumFullRefill : Z := 30 * 24 * Hour.
Definition maximumRateDimensions : Z := 16.

Section coordinator.
Context (hmac : string -> string -> string) `{!Lua}.

Definition rateKey (c : Coordinator) (limit : BucketLimit) : string :=
  prefix c +:+ ":{coordination}:rate:" +:+ metric_string (Metric limit) +:+ ":" +:+
  scope_string (DScope (BDimension limit)) +:+ ":" +:+
  digest hmac c ["dimension"; scope_string (DScope (BDimension limit)); SubjectID (BDimension limit)].

Definition rateRefundKey (c : Coordinator) (reference : string) : string :=
  prefix c +:+ ":{coordination}:rate-refund:" +:+ digest hmac c ["rate-refund"; reference].

(** [math.Ceil(float64(capacity) * float64(interval) / float64(refill))]; Go's
    [float64] is the same format as a Lua number. *)
Definition fullRefillMillis (limit : BucketLimit) : Z :=
  Qceiling (fl (fl (inject_Z (CapacityTokens limit) * inject_Z (Milliseconds (RefillInterval limit))) /
                inject_Z (RefillTokens limit))).

(** The checks of one bucket; the result is [idleTTLMillis]. *)
Definition validateBucket (limit : BucketLimit) : result CoordError Z :=
  match validateDimension (BDimension limit) with
  | Some e => Err e
  | None =>
      match Metric limit with
      | MetricOther _ => Err (ErrInvalidInput "unsupported bucket metric")
      | _ =>
          if ((CapacityTokens limit <? 1) || (maximumBucketTokens <? CapacityTokens limit) ||
              (RequestedTokens limit <? 1) || (CapacityTokens limit <? RequestedTokens limit))%bool then
            Err (ErrInvalidInput "bucket token values are outside supported bounds")
          else if ((0 <? FixedWindow limit) || (0 <? FixedWindowOffset limit))%bool then
            if (negb (RefillTokens limit =? 0) || negb (RefillInterval limit =? 0) ||
                (FixedWindow limit <? Millisecond) || (maximumFixedWindow <? FixedWindow limit) ||
                (FixedWindowOffset limit <? 0) || (FixedWindow limit <=? FixedWindowOffset limit))%bool then
              Err (ErrInvalidInput "fixed quota window is invalid")
            else Ok 0
          else if ((RefillTokens limit <? 1) || (maximumBucketTokens <? RefillTokens limit) ||
                   (RefillInterval limit <? Millisecond) || (maximumRefillInterval <? RefillInterval limit))%bool then
            Err (ErrInvalidInput "refill interval must be between 1ms and 24h")
          else if Milliseconds maximumFullRefill <? fullRefillMillis limit then
            Err (ErrInvalidInput "bucket full-refill duration exceeds 30 days")
          else Ok (Z.max (Milliseconds (RefillInterval limit)) (fullRefillMillis limit * 2))
      end
  end.

Definition bucketArgs (limit : BucketLimit) (idleTTLMillis : Z) : BucketArgs :=
  mkBucketArgs (CapacityTokens limit) (RefillTokens limit) (Milliseconds (RefillInterval limit))
    (RequestedTokens limit) idleTTLMillis (Milliseconds (FixedWindow limit))
    (Milliseconds (FixedWindowOffset limit)).

Fixpoint rate_keys (c : Coordinator) (limits : list BucketLimit) (seen : gset string) :
    result CoordError (list (string * BucketArgs)) :=
  match limits with
  | [] => Ok []
  | limit :: limits' =>
      let? idleTTLMillis := validateBucket limit in
      let key := rateKey c limit in
      if bool_decide (key ∈ seen) then Err (ErrInvalidInput "duplicate bucket dimension and metric")
      else
        let? keys := rate_keys c limits' ({[key]} ∪ seen) in
        Ok ((key, bucketArgs limit idleTTLMillis) :: keys)
  end.

Definition prepareRateLimits (c : Coordinator) (limits : list BucketLimit) :
    result CoordError (list (string * BucketArgs)) :=
  match limits with
  | [] => Err (ErrInvalidInput "at least one bucket limit is required")
  | _ =>
      if maximumRateDimensions <? Z.of_nat (length limits) then
        Err (ErrInvalidInput "at most 16 bucket limits are supported")
      else rate_keys c limits ∅
  end.

Fixpoint read_balances (limits : list BucketLimit) (balances : list Z) : option (list BucketState) :=
  match limits, balances with
  | limit :: limits', n :: balances' =>
      if n <? 0 then None
      else
        match read_balances limits' balances' with
        | None => None
        | Some states => Some (mkBucketState (BDimension limit) (Metric limit) n :: states)
        end
  | _, _ => Some []
  end.

Section calls.
Context {S : Type} `{!Valkey S}.

Definition AcquireRate (c : Coordinator) (tr : Transport) (limits : list BucketLimit) (s : S) :
    result CoordError RateDecision * S :=
  match prepareRateLimits c limits with
  | Err e => (Err e, s)
  | Ok keys =>
      match run_script tr (acquireRateScript keys) s with
      | (Err e, s') => (Err (ErrUnavailable "acquire rate tokens" e), s')
      | (Ok (v0 :: v1 :: v2 :: balances), s') =>
          if (negb (3 + Z.of_nat (length balances) =? 3 + Z.of_nat (length limits)) ||
              (negb (v0 =? 0) && negb (v0 =? 1)) || (v1 <=? 0) || (v2 <? 0))%bool then
            (Err (ErrUnavailable "acquire rate tokens" "invalid script result"), s')
          else if (negb (v0 =? 1) && (v2 =? 0))%bool then
            (Err (ErrUnavailable "acquire rate tokens" "missing retry delay"), s')
          else
            match read_balances limits balances with
            | None => (Err (ErrUnavailable "acquire rate tokens" "negative bucket balance"), s')
            | Some states =>
                (Ok (mkRateDecision (v0 =? 1) (UnixMilli v1)
                       (if v0 =? 1 then 0 else time_add (UnixMilli v1) (v2 * Millisecond)) states), s')
            end
      | (Ok _, s') => (Err (ErrUnavailable "acquire rate tokens" "invalid script result"), s')
      end
  end.

Definition InspectRate (c : Coordinator) (tr : Transport) (limits : list BucketLimit) (s : S) :
    result CoordError RateObservation * S :=
  match prepareRateLimits c limits with
  | Err e => (Err e, s)
  | Ok keys =>
      match run_script tr (inspectRateScript keys) s with
      | (Err e, s') => (Err (ErrUnavailable "inspect rate tokens" e), s')
      | (Ok (v0 :: balances), s') =>
          if (negb (1 + Z.of_nat (length balances) =? 1 + Z.of_nat (length limits)) || (v0 <=? 0))%bool then
            (Err (ErrUnavailable "inspect rate tokens" "invalid script result"), s')
          else
            match read_balances limits balances with
            | None => (Err (ErrUnavailable "inspect rate tokens" "negative bucket balance"), s')
            | Some states => (Ok (mkRateObservation (UnixMilli v0) states), s')
            end
      | (Ok _, s') => (Err (ErrUnavailable "inspect rate tokens" "invalid script result"), s')
      end
  end.

Definition RefundRate (c : Coordinator) (tr : Transport) (reference : string) (limits : list BucketLimit)
    (s : S) : result CoordError RateRefundDecision * S :=
  if ((slen reference =? 0) || (maximumSubjectBytes <? slen reference))%bool then
    (Err (ErrInvalidInput "refund reference must contain 1-512 bytes"), s)
  else
    match prepareRateLimits c limits with
    | Err e => (Err e, s)
    | Ok keys =>
        match run_script tr (refundRateScript (rateRefundKey c reference) keys
                               (Milliseconds maximumFullRefill)) s with
        | (Err e, s') => (Err (ErrUnavailable "refund rate tokens" e), s')
        | (Ok (v0 :: v1 :: balances), s') =>
            if (negb (2 + Z.of_nat (length balances) =? 2 + Z.of_nat (length limits)) ||
                (negb (v0 =? 0) && negb (v0 =? 1)) || (v1 <=? 0))%bool then
              (Err (ErrUnavailable "refund rate tokens" "invalid script result"), s')
            else
              match read_balances limits balances with
              | None => (Err (ErrUnavailable "refund rate tokens" "negative bucket balance"), s')
              | Some states => (Ok (mkRateRefundDecision (v0 =? 1) (UnixMilli v1) states), s')
              end
        | (Ok _, s') => (Err (ErrUnavailable "refund rate tokens" "invalid script result"), s')
        end
    end.
End calls.
End coordinator.
