(* ===== verification/RateProps.v ===== *)
(** * What the rate coordinator guarantees

    The theorems about [src/internal/coordination/rate.go] and the scripts of
    [rate_script.go]: every bucket is charged or none, balances stay between
    zero and the capacity, a fixed window never grants more than its capacity,
    and a refund is applied at most once per reference. *)

From S2P Require Import Prelude GoStrings Valkey Lease LeaseInv Rate.

Local Open Scope Z_scope.

(** ** Rational helpers *)

Lemma Qmin2_le_l x y : (Qmin2 x y <= x)%Q.
Proof.
  unfold Qmin2. destruct (Qle_bool x y) eqn:H; [lra|].
  assert (~ (x <= y)%Q) by (intros ?%Qle_bool_iff; congruence). lra.
Qed.

Lemma Qmin2_le_r x y : (Qmin2 x y <= y)%Q.
Proof. unfold Qmin2. destruct (Qle_bool x y) eqn:H; [by apply Qle_bool_iff|lra]. Qed.

Lemma Qmin2_glb x y z : (z <= x)%Q -> (z <= y)%Q -> (z <= Qmin2 x y)%Q.
Proof. unfold Qmin2. by destruct (Qle_bool x y). Qed.

Lemma Qmax2_ge_l x y : (x <= Qmax2 x y)%Q.
Proof. unfold Qmax2. destruct (Qle_bool x y) eqn:H; [by apply Qle_bool_iff|lra]. Qed.

Lemma Qmax2_ge_r x y : (y <= Qmax2 x y)%Q.
Proof.
  unfold Qmax2. destruct (Qle_bool x y) eqn:H; [lra|].
  assert (~ (x <= y)%Q) by (intros ?%Qle_bool_iff; congruence). lra.
Qed.

Lemma Qmax2_lub x y z : (x <= z)%Q -> (y <= z)%Q -> (Qmax2 x y <= z)%Q.
Proof. unfold Qmax2. by destruct (Qle_bool x y). Qed.

Lemma Qlt_bool_true x y : Qlt_bool x y = true <-> (x < y)%Q.
Proof.
  unfold Qlt_bool. rewrite negb_true_iff. split.
  - intros H. assert (~ (y <= x)%Q) by (intros ?%Qle_bool_iff; congruence). lra.
  - intros H. apply not_true_is_false. intros ?%Qle_bool_iff. lra.
Qed.

Lemma Qlt_bool_false x y : Qlt_bool x y = false <-> (y <= x)%Q.
Proof.
  unfold Qlt_bool. rewrite negb_false_iff. apply Qle_bool_iff.
Qed.

Lemma inject_Z_le n m : (inject_Z n <= inject_Z m)%Q <-> n <= m.
Proof. by rewrite Zle_Qle. Qed.

Section rate.
Context {L : Lua} {LN : @LuaNumbers L} {S : Type} {V : Valkey S} {VL : @ValkeyLaws S V}.
Implicit Types (s : S) (a : BucketArgs) (st : BucketSt).

Lemma fl_nonneg x : (0 <= x)%Q -> (0 <= fl x)%Q.
Proof.
  intros H. pose proof (fl_mono 0 x H) as Hm. pose proof (fl_exact 0 ltac:(lia)) as He.
  change (inject_Z 0) with 0%Q in He. lra.
Qed.

Lemma fl_le_int x n : Z.abs n <= 2 ^ 53 -> (x <= inject_Z n)%Q -> (fl x <= inject_Z n)%Q.
Proof. intros Hn Hx. pose proof (fl_mono _ _ Hx). pose proof (fl_exact n Hn). lra. Qed.

Lemma text_le_int x n : Z.abs n < 10 ^ 14 -> (x <= inject_Z n)%Q -> (text x <= inject_Z n)%Q.
Proof. intros Hn Hx. pose proof (text_mono _ _ Hx). pose proof (text_exact n Hn). lra. Qed.

(** Arguments as [prepareRateLimits] makes them. *)
Record ArgsOk a : Prop := {
  ao_capacity : 1 <= capacity a <= 1000000000000;
  ao_requested : 1 <= requested a <= capacity a;
  ao_window : 0 < window_ms a -> 0 <= window_offset_ms a <= window_ms a;
  ao_refill : window_ms a <= 0 -> 1 <= refill a /\ 1 <= interval_ms a /\ 1 <= idle_ttl_ms a;
}.

(** ** One bucket *)

Definition bounded a (x : Q) : Prop := (0 <= x <= inject_Z (capacity a))%Q.

Lemma clamp_bounded a x : 1 <= capacity a -> bounded a (Qmin2 (inject_Z (capacity a)) (Qmax2 0 x)).
Proof.
  intros Hc. split; [|apply Qmin2_le_l]. apply Qmin2_glb; [|apply Qmax2_ge_l].
  change 0%Q with (inject_Z 0). apply inject_Z_le. lia.
Qed.

Lemma capacity_bounded a : 1 <= capacity a -> bounded a (inject_Z (capacity a)).
Proof. intros Hc. split; [|lra]. change 0%Q with (inject_Z 0). apply inject_Z_le. lia. Qed.

Lemma read_window_bounded now a raw st :
  ArgsOk a -> read_window now a raw = Ok st -> bounded a (st_tokens st).
Proof.
  intros [Hc _ _ _] H. unfold read_window, corrupt in H.
  repeat (case_match; simplify_eq/=; try done).
  all: first [by apply capacity_bounded; lia|by apply clamp_bounded; lia|idtac].
  all: pose proof (capacity_bounded a ltac:(lia)) as [? ?]; split; lra.
Qed.

Lemma read_refill_bounded now a raw st d :
  ArgsOk a -> window_ms a <= 0 -> read_refill now a raw = Ok (st, d) -> bounded a (st_tokens st).
Proof.
  intros [Hc _ _ Hr] Hw H. destruct (Hr Hw) as (Hrf & Hiv & _). unfold read_refill, corrupt in H.
  destruct raw as [|[r1|] [|[r2|] [|? ?]]]; try done.
  - destruct (tonumber r1) as [t0|], (tonumber r2) as [u|]; try done.
    destruct (_ || _)%bool; [done|]. set (t := Qmin2 (inject_Z (capacity a)) (Qmax2 0 t0)) in *.
    assert (Ht : bounded a t) by (apply clamp_bounded; lia).
    destruct (Qle_bool u (inject_Z now)) eqn:Hu; simplify_eq/=; [|done].
    split; [|apply Qmin2_le_l]. apply Qmin2_glb; [apply capacity_bounded; lia|]. apply fl_nonneg.
    apply Qle_bool_iff in Hu. destruct Ht as [Ht _].
    assert (0 <= fl (fl (fl (inject_Z now - u) * inject_Z (refill a)) / inject_Z (interval_ms a)))%Q; [|lra].
    apply fl_nonneg, Qmult_le_0_compat; [apply fl_nonneg, Qmult_le_0_compat; [apply fl_nonneg; lra|]|].
    + change 0%Q with (inject_Z 0). apply inject_Z_le. lia.
    + apply Qinv_le_0_compat. change 0%Q with (inject_Z 0). apply inject_Z_le. lia.
  - simplify_eq/=. apply capacity_bounded. lia.
Qed.

Lemma read_bucket_bounded now key a s st d :
  ArgsOk a -> read_bucket now key a s = Ok (st, d) -> bounded a (st_tokens st).
Proof.
  intros Ha H. unfold read_bucket in H. destruct (Z.ltb_spec 0 (window_ms a)).
  - destruct (read_window now a _) as [st'|] eqn:Hr; [|done]. simplify_eq. by eapply read_window_bounded.
  - by eapply read_refill_bounded.
Qed.

(** The wait is zero exactly when the balance covers the request, and at least
    a millisecond otherwise. *)
Lemma bucket_wait_spec now a st d :
  if Qle_bool (inject_Z (requested a)) (st_tokens st) then bucket_wait now a st d = 0%Q
  else (1 <= bucket_wait now a st d)%Q.
Proof.
  unfold bucket_wait, Qlt_bool. destruct (Qle_bool (inject_Z (requested a)) (st_tokens st)); simpl; [done|].
  destruct (st_mark st); [|apply Qmax2_ge_l].
  change 1%Q with (inject_Z 1). apply inject_Z_le. unfold until_reset. lia.
Qed.

(** ** Reading all buckets *)

(** The states the loop reads: each bucket as it is in [s]. *)
Definition reads now s (keys : list (string * BucketArgs)) (states : list BucketSt) : Prop :=
  Forall2 (λ ka st, exists d, read_bucket now ka.1 ka.2 s = Ok (st, d)) keys states.

Definition covers (ka : string * BucketArgs) st : Prop := (inject_Z (requested ka.2) <= st_tokens st)%Q.

Lemma rate_check_spec now keys acc retry s states r :
  rate_check now keys acc retry s = Ok (states, r) -> (0 <= retry)%Q ->
  exists sts, states = acc ++ sts /\ reads now s keys sts /\ (retry <= r)%Q /\
    ((r == 0)%Q <-> (retry == 0)%Q /\ Forall2 covers keys sts) /\ ((r == 0)%Q \/ (1 <= r)%Q \/ (r == retry)%Q).
Proof.
  revert acc retry. induction keys as [|[key a] keys IH]; intros acc retry; cbn [rate_check].
  { intros [= <- <-] Hr. exists []. rewrite app_nil_r. split_and!; try done; [constructor|lra| |].
    - split; [intros ?; split; [done|constructor]|by intros [? _]].
    - right. right. lra. }
  destruct (read_bucket now key a s) as [[st d]|] eqn:Hrd; [|done]. intros Hch Hretry.
  set (w := bucket_wait now a st d) in *. pose proof (bucket_wait_spec now a st d) as Hw. fold w in Hw.
  assert (Hw0 : (0 <= w)%Q) by (destruct (Qle_bool _ _); [rewrite Hw; lra|lra]).
  pose proof (Qmax2_ge_l retry w). pose proof (Qmax2_ge_r retry w).
  destruct (IH _ _ Hch) as (sts & -> & Hrs & Hle & Hiff & Hone); [lra|].
  exists (st :: sts). rewrite <- app_assoc. split; [done|]. split; [by constructor; [exists d|]|].
  split; [lra|].
  assert (Hcov : covers (key, a) st <-> (w == 0)%Q).
  { unfold covers. simpl. rewrite <- Qle_bool_iff. destruct (Qle_bool _ _); [rewrite Hw; split; [lra|done]|].
    split; [done|lra]. }
  assert (Hmax0 : (Qmax2 retry w == 0)%Q <-> (retry == 0)%Q /\ (w == 0)%Q).
  { split; [intros; split; lra|]. intros [? ?]. apply Qle_antisym; [apply Qmax2_lub; lra|lra]. }
  assert (Hmax1 : (Qmax2 retry w == retry)%Q \/ (1 <= Qmax2 retry w)%Q).
  { destruct (Qle_bool (inject_Z (requested a)) (st_tokens st)) eqn:Hq; [left|right; lra].
    rewrite Hw. unfold Qmax2. destruct (Qle_bool retry 0) eqn:Hz; [apply Qle_bool_iff in Hz; lra|lra]. }
  split.
  - rewrite Hiff, Hmax0. split.
    + intros [[? ?] ?]. split; [done|]. constructor; [by apply Hcov|done].
    + intros [? Hf]. apply Forall2_cons_1 in Hf as [? ?]. split; [split; [done|by apply Hcov]|done].
  - destruct Hone as [?|[?|?]]; [by left|by right; left|]. destruct Hmax1; [right; right; lra|right; left; lra].
Qed.

Lemma reads_check now s keys states acc retry :
  reads now s keys states -> exists r, rate_check now keys acc retry s = Ok (acc ++ states, r).
Proof.
  intros H. revert acc retry. induction H as [|[key a] st keys states [d Hd] _ IH]; intros acc retry; simpl.
  - rewrite app_nil_r. eauto.
  - simpl in Hd. rewrite Hd. destruct (IH (acc ++ [st]) (Qmax2 retry (bucket_wait now a st d))) as [r Hr].
    exists r. by rewrite Hr, <- app_assoc.
Qed.

(** ** Writing buckets *)

Lemma Qfloor_ge (n : Z) (x : Q) : (inject_Z n <= x)%Q -> n <= Qfloor x.
Proof. intros Hx%Qfloor_resp_le. by rewrite Qfloor_Z in Hx. Qed.

Lemma keep_pos now key a s st d :
  ArgsOk a -> idle_ttl_ms a <= 2 ^ 53 -> read_bucket now key a s = Ok (st, d) -> 0 < Qfloor (st_keep_ms st).
Proof.
  intros Ha Hmax H. assert (1 <= Qfloor (st_keep_ms st)); [|lia]. apply Qfloor_ge.
  unfold read_bucket in H. destruct (Z.ltb_spec 0 (window_ms a)) as [Hw|Hw].
  - assert (st_keep_ms st = inject_Z (until_reset now a)) as ->.
    { unfold read_window, corrupt in H. repeat (case_match; simplify_eq/=; try done). }
    apply inject_Z_le. unfold until_reset. lia.
  - destruct (ao_refill _ Ha Hw) as (_ & _ & Hidle).
    unfold read_refill, corrupt in H. destruct (HMGET key refill_fields s) as [|[r1|] [|[r2|] [|? ?]]]; try done.
    + destruct (tonumber r1) as [t0|], (tonumber r2) as [u|]; try done.
      destruct (_ || _)%bool; [done|]. destruct (Qle_bool u (inject_Z now)) eqn:Hu; simplify_eq/=.
      * by apply inject_Z_le.
      * assert (Hnle : (inject_Z now < u)%Q).
        { apply Qnot_le_lt. intros ?%Qle_bool_iff. congruence. }
        assert (Hd : (0 <= fl (u - inject_Z now))%Q) by (apply fl_nonneg; lra).
        assert (Hi : (inject_Z (idle_ttl_ms a) <= fl (inject_Z (idle_ttl_ms a) + fl (u - inject_Z now)))%Q).
        { rewrite <- (fl_exact (idle_ttl_ms a)) at 1 by lia. apply fl_mono. lra. }
        assert (inject_Z 1 <= inject_Z (idle_ttl_ms a))%Q by (by apply inject_Z_le). lra.
    + simplify_eq/=. by apply inject_Z_le.
Qed.

(** The hash of a bucket with a given balance. *)
Definition bucket_fields a st (remaining : Q) : list (string * string) :=
  match st_mark st with
  | InWindow index _ =>
      [("tokens", tostring remaining); ("window_index", tostring (inject_Z index));
       ("capacity_tokens", tostring (inject_Z (capacity a)));
       ("window_ms", tostring (inject_Z (window_ms a)));
       ("window_offset_ms", tostring (inject_Z (window_offset_ms a)))]
  | Updated updated_ms => [("tokens", tostring remaining); ("updated_ms", tostring updated_ms)]
  end.

Definition put_fields (fields : list (string * string)) (h : gmap string string) : gmap string string :=
  foldl (λ h fv, <[fv.1 := fv.2]> h) h fields.

Lemma put_fields_tokens a st remaining h :
  put_fields (bucket_fields a st remaining) h !! "tokens" = Some (tostring remaining).
Proof. unfold bucket_fields. destruct (st_mark st); simpl; by simplify_map_eq. Qed.

Lemma write_bucket_spec key a st remaining s :
  0 < Qfloor (st_keep_ms st) ->
  let s' := write_bucket key a st remaining s in
  hash s' key = put_fields (bucket_fields a st remaining) (hash s key) /\
  expiry s' key = Some (clock s + Qfloor (st_keep_ms st)) /\ same_except key s s'.
Proof.
  intros Hk. unfold write_bucket. fold (bucket_fields a st remaining). simpl.
  pose proof (hset_hash key (bucket_fields a st remaining) s) as Hh.
  pose proof (hset_frame key (bucket_fields a st remaining) s) as Hf.
  destruct (pexpire_key key (Qfloor (st_keep_ms st)) (HSET key (bucket_fields a st remaining) s)) as [Hh' He'].
  { done. }
  { intros Hempty. pose proof (put_fields_tokens a st remaining (hash s key)) as Ht.
    unfold put_fields in Ht. rewrite <- Hh, Hempty in Ht. by rewrite lookup_empty in Ht. }
  split; [by rewrite Hh', Hh|]. split; [by rewrite He', (sx_clock _ _ _ Hf)|].
  eapply same_except_trans; [exact Hf|apply pexpire_frame].
Qed.

(** The balance a granted or refused request leaves. *)
Definition left_over (granted : bool) a st : Q :=
  if granted then fl (st_tokens st - inject_Z (requested a)) else st_tokens st.

Lemma rate_write_spec granted keys states s :
  NoDup keys.*1 -> Forall2 (λ _ st, 0 < Qfloor (st_keep_ms st)) keys states ->
  exists s', rate_write granted keys states s =
      (zip_with (λ ka st, reported (left_over granted ka.2 st)) keys states, s') /\
    touches keys.*1 s s' /\
    forall i ka st, keys !! i = Some ka -> states !! i = Some st ->
      hash s' ka.1 = put_fields (bucket_fields ka.2 st (left_over granted ka.2 st)) (hash s ka.1) /\
      expiry s' ka.1 = Some (clock s + Qfloor (st_keep_ms st)).
Proof.
  intros Hnd Hk. revert s Hnd. induction Hk as [|[key a] st keys states Hk _ IH]; intros s Hnd; simpl.
  { exists s. split; [done|]. split; [apply touches_refl|]. intros i ka st Hi. by rewrite lookup_nil in Hi. }
  rewrite fmap_cons in Hnd. apply NoDup_cons in Hnd as [Hnin Hnd]. simpl in Hnin.
  fold (left_over granted a st). set (r := left_over granted a st).
  destruct (write_bucket_spec key a st r s Hk) as (Hh & He & Hf).
  set (s1 := write_bucket key a st r s) in *.
  destruct (IH s1 Hnd) as (s' & -> & Ht & Hall). exists s'. split; [done|]. split.
  - eapply touches_trans; [eapply touches_one; [exact Hf|left]|]. eapply touches_mono; [|exact Ht]. set_solver.
  - intros [|i] ka st' Hi Hst; simpl in *.
    + simplify_eq. simpl. destruct Ht as [_ Ht]. destruct (Ht key Hnin) as (_ & -> & _ & ->). done.
    + destruct (Hall i ka st' Hi Hst) as [Hh' He'].
      assert (Hne : ka.1 <> key).
      { intros <-. apply Hnin. apply list_elem_of_fmap_2. by eapply list_elem_of_lookup_2. }
      rewrite Hh', He', (sx_hash _ _ _ Hf), (sx_clock _ _ _ Hf) by done. done.
Qed.

Lemma left_over_bounded granted a st :
  ArgsOk a -> bounded a (st_tokens st) -> (granted = true -> covers ("", a) st) ->
  bounded a (left_over granted a st).
Proof.
  intros [Hc Hr _ _] [Hlo Hhi] Hcov. unfold left_over. destruct granted; [|done].
  specialize (Hcov eq_refl). unfold covers in Hcov. simpl in Hcov.
  assert (1 <= inject_Z (requested a))%Q by (change 1%Q with (inject_Z 1); apply inject_Z_le; lia).
  split; [apply fl_nonneg; lra|]. apply fl_le_int; [lia|lra].
Qed.

Lemma reported_nonneg x : 0 <= reported x.
Proof. unfold reported. apply (Qfloor_ge 0). apply Qmax2_ge_l. Qed.

Lemma reported_bounded a x : bounded a x -> reported x = Qfloor x.
Proof.
  intros [Hx _]. unfold reported, Qmax2. destruct (Qle_bool 0 x) eqn:H; [done|].
  apply Qle_bool_iff in Hx. change (Qle_bool 0 x = true) in Hx. congruence.
Qed.

(** ** Preparation *)

Context (hmac : string -> string -> string).

Lemma Milliseconds_mono x y : 0 <= x <= y -> 0 <= Milliseconds x <= Milliseconds y.
Proof.
  intros H. unfold Milliseconds. rewrite !Z.quot_div_nonneg by (unfold Millisecond; lia).
  split; [apply Z.div_pos; unfold Millisecond; lia|]. apply Z.div_le_mono; unfold Millisecond; lia.
Qed.

Lemma Milliseconds_ge x : Millisecond <= x -> 1 <= Milliseconds x.
Proof. intros H. apply (Milliseconds_mono Millisecond x). unfold Millisecond in *. lia. Qed.

Lemma Milliseconds_nonpos x : x <= 0 -> Milliseconds x <= 0.
Proof.
  intros H. unfold Milliseconds. replace x with (- (- x)) by lia. rewrite Z.quot_opp_l by (unfold Millisecond; lia).
  pose proof (Z.quot_pos (- x) Millisecond). unfold Millisecond in *. lia.
Qed.

Lemma validateBucket_ok limit idle :
  validateBucket limit = Ok idle -> ArgsOk (bucketArgs limit idle) /\ idle <= 2 ^ 53.
Proof.
  unfold validateBucket. destruct (validateDimension _); [done|]. intros H.
  assert (Hm : (if ((CapacityTokens limit <? 1) || (maximumBucketTokens <? CapacityTokens limit) ||
              (RequestedTokens limit <? 1) || (CapacityTokens limit <? RequestedTokens limit))%bool then
            Err (ErrInvalidInput "bucket token values are outside supported bounds")
          else if ((0 <? FixedWindow limit) || (0 <? FixedWindowOffset limit))%bool then
            if (negb (RefillTokens limit =? 0) || negb (RefillInterval limit =? 0) ||
                (FixedWindow limit <? Millisecond) || (maximumFixedWindow <? FixedWindow limit) ||
                (FixedWindowOffset limit <? 0) || (FixedWindow limit <=? FixedWindowOffset limit))%bool then
              Err (ErrInvalidInput "fixed quota window is invalid")
            else Ok 0
          else if ((RefillTokens limit <? 1) || (maximumBucketTokens <? RefillTokens limit) ||
                   (RefillInterval limit <? Millisecond) || (maximumRefillInterval <? RefillInterval limit))%bool then
            Err (ErrInvalidInput "refill interval must be between 1ms and 24h")
          else if Milliseconds maximumFullRefill <? fullRefillMillis limit then
            Err (ErrInvalidInput "bucket full-refill duration exceeds 30 days")
          else Ok (Z.max (Milliseconds (RefillInterval limit)) (fullRefillMillis limit * 2))) = Ok idle)
    by (by destruct (Metric limit)).
  clear H. destruct (_ || _)%bool eqn:Hcap in Hm; [done|].
  destruct ((0 <? FixedWindow limit) || (0 <? FixedWindowOffset limit))%bool eqn:Hfix.
  - destruct (_ || _)%bool eqn:Hw in Hm; [done|]. injection Hm as <-. to_prop.
    pose proof (Milliseconds_ge (FixedWindow limit) ltac:(lia)).
    pose proof (Milliseconds_mono (FixedWindowOffset limit) (FixedWindow limit) ltac:(lia)).
    split; [split; simpl; unfold maximumBucketTokens in *; lia|lia].
  - destruct (_ || _)%bool eqn:Hr in Hm; [done|].
    destruct (Z.ltb_spec (Milliseconds maximumFullRefill) (fullRefillMillis limit)) as [|Hfull]; [done|].
    injection Hm as <-. to_prop.
    pose proof (Milliseconds_nonpos (FixedWindow limit) ltac:(lia)).
    pose proof (Milliseconds_ge (RefillInterval limit) ltac:(lia)).
    pose proof (Milliseconds_mono (RefillInterval limit) maximumRefillInterval ltac:(unfold Millisecond in *; lia)) as Hi.
    change (Milliseconds maximumRefillInterval) with 86400000 in Hi.
    change (Milliseconds maximumFullRefill) with 2592000000 in Hfull.
    split; [split; simpl; unfold maximumBucketTokens in *; lia|lia].
Qed.

Lemma rate_keys_spec c limits seen keys :
  rate_keys hmac c limits seen = Ok keys ->
  NoDup keys.*1 /\ (forall k, k ∈ keys.*1 -> k ∉ seen) /\ length keys = length limits /\
  Forall (λ ka, ArgsOk ka.2 /\ idle_ttl_ms ka.2 <= 2 ^ 53) keys.
Proof.
  revert seen keys. induction limits as [|l limits IH]; intros seen keys; simpl.
  { intros [= <-]. split_and!; [apply NoDup_nil_2| |done|constructor]. intros k Hk. by apply not_elem_of_nil in Hk. }
  destruct (validateBucket l) as [idle|] eqn:Hv; [|done]. apply validateBucket_ok in Hv as [Hv Hi].
  case_bool_decide as Hseen; [done|].
  destruct (rate_keys hmac c limits _) as [keys'|] eqn:Hr; [|done]. intros [= <-].
  destruct (IH _ _ Hr) as (Hnd & Hns & Hlen & Hall). simpl. split_and!; [| |by rewrite Hlen|by constructor].
  - apply NoDup_cons. split; [|done]. intros Hin. apply (Hns _ Hin). set_solver.
  - intros k [->|Hk]%elem_of_cons; [done|]. specialize (Hns _ Hk). set_solver.
Qed.

Lemma prepareRateLimits_spec c limits keys :
  prepareRateLimits hmac c limits = Ok keys ->
  NoDup keys.*1 /\ length keys = length limits /\
  Forall (λ ka, ArgsOk ka.2 /\ idle_ttl_ms ka.2 <= 2 ^ 53) keys.
Proof.
  unfold prepareRateLimits. destruct limits; [done|]. destruct (_ <? _); [done|].
  intros (H1 & _ & H2 & H3)%rate_keys_spec. done.
Qed.

Lemma read_balances_ok limits balances :
  length balances = length limits -> Forall (λ n, 0 <= n) balances ->
  exists states, read_balances limits balances = Some states /\ RemainingTokens <$> states = balances.
Proof.
  revert balances. induction limits as [|l limits IH]; intros [|n balances] Hlen Hpos; try done.
  { by exists []. }
  apply Forall_cons in Hpos as [Hn Hpos]. simpl in *. destruct (Z.ltb_spec n 0); [lia|].
  destruct (IH balances) as (states & -> & <-); [lia|done|]. by eexists.
Qed.

Lemma reads_keep now s keys states :
  Forall (λ ka, ArgsOk ka.2 /\ idle_ttl_ms ka.2 <= 2 ^ 53) keys -> reads now s keys states ->
  Forall2 (λ _ st, 0 < Qfloor (st_keep_ms st)) keys states.
Proof.
  intros Hok Hr. induction Hr as [|ka st keys states [d Hd] _ IH]; [constructor|].
  apply Forall_cons in Hok as [[Ha Hi] Hok]. constructor; [by eapply keep_pos|by apply IH].
Qed.

(** ** Acquisition *)

(** A reply that arrives. *)
Lemma AcquireRate_replied c limits keys states s :
  prepareRateLimits hmac c limits = Ok keys -> reads (clock s) s keys states -> 0 < clock s ->
  exists d s', AcquireRate hmac c Replied limits s = (Ok d, s') /\
    (RGranted d = true <-> Forall2 covers keys states) /\
    (RGranted d = false -> RObservedAt d < RRetryAt d) /\
    touches keys.*1 s s' /\
    forall i ka st, keys !! i = Some ka -> states !! i = Some st ->
      let r := left_over (RGranted d) ka.2 st in
      bounded ka.2 r /\ hash s' ka.1 !! "tokens" = Some (tostring r) /\
      (RemainingTokens <$> RBuckets d) !! i = Some (Qfloor r).
Proof.
  intros Hp Hr Hc.
  destruct (prepareRateLimits_spec _ _ _ Hp) as (Hnd & Hlen & Hok).
  destruct (reads_check (clock s) s keys states [] 0 Hr) as [w Hw].
  destruct (rate_check_spec _ _ _ _ _ _ _ Hw) as (sts & Hsts & _ & Hle & Hiff & Hone); [lra|].
  simpl in Hsts. subst sts. set (granted := Qeq_bool w 0).
  assert (Hg : granted = true <-> Forall2 covers keys states).
  { unfold granted. rewrite Qeq_bool_iff, Hiff. split; [by intros [_ ?]|done]. }
  destruct (rate_write_spec granted keys states s Hnd) as (s' & Hwr & Ht & Hall).
  { by eapply reads_keep. }
  set (balances := zip_with (λ ka st, reported (left_over granted ka.2 st)) keys states) in *.
  assert (Hblen : length balances = length limits).
  { unfold balances. rewrite length_zip_with, <- (Forall2_length _ _ _ Hr), Nat.min_id. done. }
  destruct (read_balances_ok limits balances Hblen) as (bs & Hbs & Hrem).
  { apply Forall_forall. intros n Hn. unfold balances in Hn. apply elem_of_zip_with in Hn as (? & ? & -> & _).
    apply reported_nonneg. }
  assert (Hw1 : granted = false -> 1 <= Qfloor w).
  { intros Hng. apply Qfloor_ge. unfold granted in Hng. apply Qeq_bool_neq in Hng.
    destruct Hone as [?|[?|?]]; done. }
  set (v0 := if granted then 1 else 0).
  exists (mkRateDecision granted (UnixMilli (clock s))
            (if granted then 0 else time_add (UnixMilli (clock s)) (Qfloor w * Millisecond)) bs), s'.
  assert (Hv0 : (v0 =? 1) = granted) by (unfold v0; by destruct granted).
  split.
  { unfold AcquireRate. rewrite Hp. simpl run_script. unfold acquireRateScript. simpl app in Hw. rewrite Hw.
    fold granted. rewrite Hwr. fold v0. rewrite Hblen, Z.eqb_refl, Hv0, Hbs. simpl negb.
    assert (0 <= Qfloor w) by (apply (Qfloor_ge 0); change (inject_Z 0) with 0%Q; lra).
    destruct (Z.leb_spec (clock s) 0); [lia|]. destruct (Z.ltb_spec (Qfloor w) 0); [lia|].
    destruct granted eqn:Hgr; simpl.
    - unfold v0. done.
    - specialize (Hw1 eq_refl). destruct (Z.eqb_spec (Qfloor w) 0); [lia|]. unfold v0. done. }
  simpl. split; [done|]. split.
  { intros Hng. specialize (Hw1 Hng). rewrite Hng. unfold time_add, Millisecond. lia. }
  split; [done|]. intros i ka st Hi Hst. destruct (Hall i ka st Hi Hst) as [Hh _].
  assert (Hb : bounded ka.2 (left_over granted ka.2 st)).
  { rewrite Forall_forall in Hok. destruct (Hok ka) as [Ha _]; [by eapply list_elem_of_lookup_2|].
    destruct (Forall2_lookup_lr _ _ _ _ _ _ Hr Hi Hst) as [d Hd].
    apply left_over_bounded; [done|by eapply read_bucket_bounded|]. intros Hgr%Hg.
    by apply (Forall2_lookup_lr _ _ _ _ _ _ Hgr Hi Hst). }
  split; [done|]. split; [rewrite Hh; apply put_fields_tokens|].
  rewrite Hrem. unfold balances. rewrite lookup_zip_with, Hi. simpl. rewrite Hst. simpl.
  f_equal. by eapply reported_bounded.
Qed.

(** When every stored bucket is readable, [AcquireRate] charges all
    buckets or none: it grants exactly when every balance covers its request,
    and then stores the balance less the request; otherwise it stores the
    refilled balances uncharged and names a later retry time.  Every stored
    balance lies between zero and the capacity, its whole part is reported,
    no other key is touched, and a lost request or reply is never a grant. *)
Theorem AcquireRate_all_or_none c limits keys states s :
  prepareRateLimits hmac c limits = Ok keys -> reads (clock s) s keys states -> 0 < clock s ->
  (forall tr, tr <> Replied -> is_ok (AcquireRate hmac c tr limits s).1 = false) /\
  exists d s', AcquireRate hmac c Replied limits s = (Ok d, s') /\
    (RGranted d = true <-> Forall2 covers keys states) /\
    (RGranted d = false -> RObservedAt d < RRetryAt d) /\
    touches keys.*1 s s' /\
    forall i ka st, keys !! i = Some ka -> states !! i = Some st ->
      let r := left_over (RGranted d) ka.2 st in
      bounded ka.2 r /\ hash s' ka.1 !! "tokens" = Some (tostring r) /\
      (RemainingTokens <$> RBuckets d) !! i = Some (Qfloor r).
Proof.
  intros Hp Hr Hc. split; [|by eapply AcquireRate_replied].
  intros tr Htr. unfold AcquireRate. rewrite Hp. by destruct tr.
Qed.

(** ** Fixed windows *)

Section window.
Context (key : string) (a0 : BucketArgs).
Context (Ha0 : ArgsOk a0) (Hw0 : 0 < window_ms a0) (Hwmax : window_ms a0 < 10 ^ 14).

Definition same_config a : Prop :=
  capacity a = capacity a0 /\ window_ms a = window_ms a0 /\ window_offset_ms a = window_offset_ms a0.

Abbreviation index now := (window_index_at now a0).
Definition window_end (now : Z) : Z := (index now + 1) * window_ms a0 + window_offset_ms a0.

Lemma index_bounds now : 0 <= now < 10 ^ 14 -> Z.abs (index now) < 10 ^ 14.
Proof using Ha0 Hw0.
  intros Hnow. unfold window_index_at. pose proof (ao_window _ Ha0 Hw0).
  assert (-1 <= (now - window_offset_ms a0) `div` window_ms a0 <= now).
  { split; [apply Z.div_le_lower_bound; lia|]. apply Z.div_le_upper_bound; nia. }
  lia.
Qed.

Lemma in_window now : now < window_end now.
Proof using Hw0.
  unfold window_end, window_index_at.
  pose proof (Z.mul_succ_div_gt (now - window_offset_ms a0) (window_ms a0) Hw0). lia.
Qed.

Lemma same_window now t : index now = index t -> t < window_end now.
Proof using Hw0. intros He. unfold window_end. rewrite He. apply in_window. Qed.

Lemma until_reset_end now : now + until_reset now a0 = window_end now.
Proof using Hw0. pose proof (in_window now). unfold until_reset. fold (window_end now). lia. Qed.

(** [used] tokens of the current window are spent: the stored balance is at
    most the rest, and the key lives to the end of the window. *)
Definition spent s (used : Z) : Prop :=
  0 <= used <= capacity a0 /\
  (used = 0 \/
   exists r t,
     hash s key !! "tokens" = Some r /\ tonumber r = Some t /\
     (t <= inject_Z (capacity a0 - used))%Q /\
     hash s key !! "window_index" = Some (tostring (inject_Z (index (clock s)))) /\
     hash s key !! "capacity_tokens" = Some (tostring (inject_Z (capacity a0))) /\
     hash s key !! "window_ms" = Some (tostring (inject_Z (window_ms a0))) /\
     hash s key !! "window_offset_ms" = Some (tostring (inject_Z (window_offset_ms a0))) /\
     expiry s key = Some (window_end (clock s))).

Lemma Qeq_bool_text n : Z.abs n < 10 ^ 14 -> Qeq_bool (text (inject_Z n)) (inject_Z n) = true.
Proof using Type. intros Hn. apply Qeq_bool_iff. by apply text_exact. Qed.

Lemma read_window_mark now a raw st :
  read_window now a raw = Ok st -> exists b, st_mark st = InWindow (window_index_at now a) b /\
    st_keep_ms st = inject_Z (until_reset now a).
Proof using Type.
  intros H. unfold read_window, corrupt in H. repeat (case_match; simplify_eq/=; try done); eauto.
Qed.

(** A balance read in the window is at most what is left of it. *)
Lemma spent_read s used a st d :
  ArgsOk a -> same_config a -> 0 <= clock s < 10 ^ 14 -> spent s used ->
  read_bucket (clock s) key a s = Ok (st, d) ->
  (st_tokens st <= inject_Z (capacity a0 - used))%Q /\
  exists b, st_mark st = InWindow (index (clock s)) b /\
            Qfloor (st_keep_ms st) = until_reset (clock s) a0.
Proof using Ha0 Hw0 Hwmax LN VL.
  intros Ha (Hc & Hwm & Ho) Hclk [Hused Hcase] Hrd.
  assert (Hidx : window_index_at (clock s) a = index (clock s)) by (unfold window_index_at; by rewrite Hwm, Ho).
  unfold read_bucket in Hrd. rewrite Hwm in Hrd. destruct (Z.ltb_spec 0 (window_ms a0)); [|lia].
  destruct (read_window (clock s) a _) as [st'|] eqn:Hr; [|done]. injection Hrd as -> <-.
  split.
  - destruct Hcase as [->|(r & t & Ht & Hnum & Hle & Hwi & Hcp & Hwn & Hof & _)].
    + rewrite Z.sub_0_r, <- Hc. by eapply read_window_bounded.
    + rewrite hmget_hash in Hr. unfold window_fields in Hr. simpl in Hr.
      rewrite Ht, Hwi, Hcp, Hwn, Hof in Hr. simpl in Hr.
      rewrite Hnum, !tonumber_tostring, Hidx, Hc, Hwm, Ho in Hr.
      pose proof (index_bounds _ Hclk) as Hib. pose proof (ao_window _ Ha0 Hw0) as Hoff.
      pose proof (ao_capacity _ Ha0) as Hcap.
      assert (Hlt : Qlt_bool (inject_Z (index (clock s))) (text (inject_Z (index (clock s)))) = false).
      { apply Qlt_bool_false. pose proof (text_exact _ Hib). lra. }
      rewrite Hlt, !Qeq_bool_text in Hr by lia. simpl in Hr. injection Hr as <-. simpl.
      eapply Qle_trans; [apply Qmin2_le_r|]. apply Qmax2_lub; [|done].
      change 0%Q with (inject_Z 0). apply inject_Z_le. lia.
  - destruct (read_window_mark _ _ _ _ Hr) as (b & -> & ->). exists b. rewrite Hidx. split; [done|].
    rewrite Qfloor_Z. unfold until_reset. by rewrite Hidx, Hwm, Ho.
Qed.

(** Writing a balance of at most what is left. *)
Lemma spent_write s s' used a st b (r : Q) :
  same_config a -> 0 <= used <= capacity a0 -> clock s' = clock s ->
  st_mark st = InWindow (index (clock s)) b ->
  Qfloor (st_keep_ms st) = until_reset (clock s) a0 ->
  (r <= inject_Z (capacity a0 - used))%Q ->
  hash s' key = put_fields (bucket_fields a st r) (hash s key) ->
  expiry s' key = Some (clock s + Qfloor (st_keep_ms st)) ->
  spent s' used.
Proof using Ha0 Hw0 LN.
  intros (Hc & Hwm & Ho) Hused Hclk Hm Hk Hr Hh He. split; [done|]. right.
  exists (tostring r), (text r). rewrite Hh, He, Hk, until_reset_end, Hclk. unfold bucket_fields. rewrite Hm.
  split; [simpl; by simplify_map_eq|]. split; [apply tonumber_tostring|].
  split; [apply text_le_int; [pose proof (ao_capacity _ Ha0); lia|done]|].
  rewrite Hc, Hwm, Ho. simpl. split_and!; by simplify_map_eq.
Qed.

Inductive window_op :=
| WAcquire (keys : list (string * BucketArgs))
| WElapse (t : Z).

(** What a call asks of the bucket. *)
Definition charge (keys : list (string * BucketArgs)) : Z :=
  match list_find (λ ka, ka.1 = key) keys with Some (_, ka) => requested ka.2 | None => 0 end.

(** One step, and the tokens granted in the window it leads to. *)
Definition window_step (st : S * Z) (op : window_op) : S * Z :=
  let '(s, used) := st in
  match op with
  | WAcquire keys =>
      let '(r, s') := acquireRateScript keys s in
      (s', match r with Ok (1 :: _) => used + charge keys | _ => used end)
  | WElapse t =>
      let t' := Z.max t (clock s) in
      (elapse t' s, if index t' =? index (clock s) then used else 0)
  end.

Definition window_op_ok (op : window_op) : Prop :=
  match op with
  | WAcquire keys =>
      NoDup keys.*1 /\ Forall (λ ka, ArgsOk ka.2 /\ idle_ttl_ms ka.2 <= 2 ^ 53) keys /\
      Forall (λ ka, ka.1 = key -> same_config ka.2) keys
  | WElapse t => t < 10 ^ 14
  end.

Lemma spent_frame s s' used :
  clock s' = clock s -> hash s' key = hash s key -> expiry s' key = expiry s key ->
  spent s used -> spent s' used.
Proof using Type. intros Hc Hh He. unfold spent. by rewrite Hc, Hh, He. Qed.

Lemma acquire_spent s used keys :
  window_op_ok (WAcquire keys) -> 0 <= clock s < 10 ^ 14 -> spent s used ->
  let '(s', used') := window_step (s, used) (WAcquire keys) in clock s' = clock s /\ spent s' used'.
Proof using Ha0 Hw0 Hwmax LN VL.
  intros (Hnd & Hok & Hcfg) Hclk Hsp. simpl. unfold acquireRateScript.
  destruct (rate_check (clock s) keys [] 0 s) as [[states w]|e] eqn:Hch; [|done].
  destruct (rate_check_spec _ _ _ _ _ _ _ Hch) as (sts & -> & Hr & _ & Hiff & _); [lra|].
  simpl app. set (granted := Qeq_bool w 0).
  destruct (rate_write_spec granted keys sts s Hnd) as (s' & Hwr & Ht & Hall); [by eapply reads_keep|].
  rewrite Hwr. split; [apply Ht|].
  assert (Hused : (match (if granted then 1 else 0) with 1 => used + charge keys | _ => used end) =
                  if granted then used + charge keys else used) by (by destruct granted).
  rewrite Hused. unfold charge.
  destruct (list_find (λ ka, ka.1 = key) keys) as [[i ka]|] eqn:Hfind.
  - apply list_find_Some in Hfind as (Hi & Hkey & _).
    destruct (Forall2_lookup_l _ _ _ _ _ Hr Hi) as (st & Hst & d & Hd).
    destruct (Hall i ka st Hi Hst) as [Hh He]. rewrite Hkey in Hd, Hh, He.
    rewrite Forall_forall in Hok, Hcfg. assert (Hin : ka ∈ keys) by (by eapply list_elem_of_lookup_2).
    destruct (Hok ka Hin) as [Ha _]. specialize (Hcfg ka Hin Hkey).
    destruct (spent_read s used ka.2 st d Ha Hcfg Hclk Hsp Hd) as (Hle & b & Hm & Hk).
    pose proof Hsp as [Hu _]. pose proof Hcfg as (Hc & _ & _). pose proof (ao_requested _ Ha) as Hreq.
    destruct granted eqn:Hg.
    + assert (Hcov : covers ka st).
      { apply Qeq_bool_iff, Hiff in Hg as [_ Hg]. by apply (Forall2_lookup_lr _ _ _ _ _ _ Hg Hi Hst). }
      unfold covers in Hcov. assert (Hle2 : (inject_Z (requested ka.2) <= inject_Z (capacity a0 - used))%Q)
        by (eapply Qle_trans; [exact Hcov|exact Hle]).
      assert (Hle2z : requested ka.2 <= capacity a0 - used) by (apply (proj1 (inject_Z_le _ _)); exact Hle2).
      pose proof (ao_capacity _ Ha0).
      apply (spent_write s s' _ ka.2 st b (left_over true ka.2 st)); try done; [lia|apply Ht|].
      unfold left_over. apply fl_le_int; [lia|].
      assert (inject_Z (capacity a0 - (used + requested ka.2)) ==
              inject_Z (capacity a0 - used) - inject_Z (requested ka.2))%Q as ->; [|lra].
      replace (capacity a0 - (used + requested ka.2)) with ((capacity a0 - used) + - requested ka.2) by lia.
      rewrite inject_Z_plus, inject_Z_opp. lra.
    + apply (spent_write s s' _ ka.2 st b (left_over false ka.2 st)); try done. apply Ht.
  - apply list_find_None in Hfind. assert (Hnin : key ∉ keys.*1).
    { intros (ka & Hk & Hka)%list_elem_of_fmap. rewrite Forall_forall in Hfind. by apply (Hfind ka). }
    destruct Ht as [Hc Ht]. destruct (Ht key Hnin) as (_ & Hh & _ & He).
    replace (if granted then used + 0 else used) with used by (destruct granted; lia).
    by apply (spent_frame s).
Qed.

Lemma elapse_spent s used t :
  clock s <= t -> spent s used ->
  spent (elapse t s) (if index t =? index (clock s) then used else 0).
Proof using Hw0 VL Ha0.
  intros Ht Hsp. pose proof (ao_capacity _ Ha0). destruct (Z.eqb_spec (index t) (index (clock s))) as [He|]; [|split; [lia|by left]].
  destruct Hsp as [Hu [->|(r & q & H1 & H2 & H3 & H4 & H5 & H6 & H7 & H8)]]; (split; [done|]); [by left|].
  right. exists r, q. rewrite elapse_clock, elapse_hash, elapse_expiry, H8 by done.
  pose proof (same_window (clock s) t (eq_sym He)). destruct (Z.leb_spec (window_end (clock s)) t); [lia|].
  split_and!; try done; [by rewrite He|]. unfold window_end. by rewrite He.
Qed.

Lemma window_steps_spent ops s used :
  Forall window_op_ok ops -> 0 <= clock s < 10 ^ 14 -> spent s used ->
  spent (foldl window_step (s, used) ops).1 (foldl window_step (s, used) ops).2.
Proof using Ha0 Hw0 Hwmax LN VL.
  intros Hops. revert s used. induction Hops as [|op ops Hop _ IH]; intros s used Hclk Hsp; [done|].
  cbn [foldl]. destruct op as [keys|t].
  - pose proof (acquire_spent s used keys Hop Hclk Hsp) as Ha.
    destruct (window_step (s, used) (WAcquire keys)) as [s' used']. destruct Ha as [Hc Hs].
    apply IH; [by rewrite Hc|done].
  - simpl in Hop. cbn [window_step]. apply IH; [rewrite elapse_clock by lia; lia|].
    apply elapse_spent; [lia|done].
Qed.
End window.

End rate.

(** * Refunds of rate tokens

    The theorem about [RefundRate] of [src/internal/coordination/rate.go] and
    [refundRateScript]: a refund adds the tokens back up to the capacity, once
    per reference for as long as the marker is kept; and the concrete numbers
    and inputs on which the theorems of [RateProps] are applied. *)

Section refund.
Context {L : Lua} {LN : @LuaNumbers L} {S : Type} {V : Valkey S} {VL : @ValkeyLaws S V}.
Context (hmac : string -> string -> string) (c : Coordinator).
Implicit Types (s : S) (a : BucketArgs) (st : BucketSt).

(** ** Frames *)

Lemma write_bucket_frame key a st r s : same_except key s (write_bucket key a st r s).
Proof using VL. unfold write_bucket. eapply same_except_trans; [apply hset_frame|apply pexpire_frame]. Qed.

Lemma write_bucket_touches key a st r s ks : key ∈ ks -> touches ks s (write_bucket key a st r s).
Proof using VL. intros Hk. eapply touches_one; [apply write_bucket_frame|done]. Qed.

Lemma rate_write_touches granted keys states s ks :
  (forall ka, ka ∈ keys -> ka.1 ∈ ks) -> touches ks s (rate_write granted keys states s).2.
Proof using VL.
  revert states s. induction keys as [|[key a] keys IH]; intros [|st states] s Hks; cbn; try done.
  match goal with |- context [rate_write _ keys states ?s1] => pose proof (IH states s1) as IH1 end.
  destruct (rate_write _ _ _ _) as [rest s']. cbn in *.
  eapply touches_trans; [apply write_bucket_touches; apply (Hks (key, a)); left|].
  apply IH1. intros ka Hka. apply Hks. by right.
Qed.

Lemma refund_write_touches applied keys states s ks :
  (forall ka, ka ∈ keys -> ka.1 ∈ ks) -> touches ks s (refund_write applied keys states s).2.
Proof using VL.
  revert states s. induction keys as [|[key a] keys IH]; intros [|st states] s Hks; cbn; try done.
  match goal with |- context [refund_write _ keys states ?s1] => pose proof (IH states s1) as IH1 end.
  destruct (refund_write _ _ _ _) as [rest s']. cbn in *.
  eapply touches_trans; [|apply IH1; intros ka Hka; apply Hks; by right].
  destruct applied; [|apply touches_refl]. apply write_bucket_touches, (Hks (key, a)). left.
Qed.

Lemma inspect_loop_touches now keys acc s ks :
  (forall ka, ka ∈ keys -> ka.1 ∈ ks) -> touches ks s (inspect_loop now keys acc s).2.
Proof using VL.
  revert acc s. induction keys as [|[key a] keys IH]; intros acc s Hks; cbn; [done|].
  destruct (read_bucket now key a s) as [[st d]|]; [|done].
  eapply touches_trans; [apply write_bucket_touches; apply (Hks (key, a)); left|].
  apply IH. intros ka Hka. apply Hks. by right.
Qed.

(** ** The marker *)

Abbreviation marker reference := (rateRefundKey hmac c reference).

Lemma marker_not_bucket reference limit : marker reference <> rateKey hmac c limit.
Proof using Type.
  unfold rateRefundKey, rateKey. intros Heq%append_prefix_inj. simpl in Heq. discriminate.
Qed.

Lemma rate_keys_are_rate_keys limits seen keys ka :
  rate_keys hmac c limits seen = Ok keys -> ka ∈ keys -> exists limit, ka.1 = rateKey hmac c limit.
Proof using Type.
  revert seen keys. induction limits as [|l limits IH]; intros seen keys; simpl.
  { intros [= <-] Hin. by apply not_elem_of_nil in Hin. }
  destruct (validateBucket l); [|done]. case_bool_decide; [done|].
  destruct (rate_keys hmac c limits _) eqn:Hr; [|done]. intros [= <-] [->|Hin]%elem_of_cons; [by exists l|].
  by eapply IH.
Qed.

Lemma prepared_keys limits keys ka :
  prepareRateLimits hmac c limits = Ok keys -> ka ∈ keys -> exists limit, ka.1 = rateKey hmac c limit.
Proof using Type.
  unfold prepareRateLimits. destruct limits; [done|]. destruct (_ <? _); [done|]. apply rate_keys_are_rate_keys.
Qed.

(** The marker of [reference] is set and stays so before [e]. *)
Definition marked (reference : string) (e : Z) s : Prop :=
  flag s (marker reference) = true /\ expiry s (marker reference) = Some e.

Lemma touches_marked ks reference e s s' :
  touches ks s s' -> marker reference ∉ ks -> marked reference e s -> marked reference e s'.
Proof using Type. intros [_ Ht] Hk [H1 H2]. destruct (Ht _ Hk) as (_ & _ & H3 & H4). split; congruence. Qed.

(** ** The calls of a gateway *)

Inductive rate_call :=
| RAcquire (tr : Transport) (limits : list BucketLimit)
| RInspect (tr : Transport) (limits : list BucketLimit)
| RRefund (tr : Transport) (reference : string) (limits : list BucketLimit)
| RElapse (t : Z).

Definition run_rate_call s (call : rate_call) : S :=
  match call with
  | RAcquire tr limits => (AcquireRate hmac c tr limits s).2
  | RInspect tr limits => (InspectRate hmac c tr limits s).2
  | RRefund tr reference limits => (RefundRate hmac c tr reference limits s).2
  | RElapse t => elapse (Z.max t (clock s)) s
  end.

(** Whatever the reply is taken for, the state is the one the script left. *)
Lemma AcquireRate_state tr limits s :
  (AcquireRate hmac c tr limits s).2 =
  match prepareRateLimits hmac c limits with Err _ => s | Ok keys => (run_script tr (acquireRateScript keys) s).2 end.
Proof using Type.
  unfold AcquireRate. destruct (prepareRateLimits hmac c limits); [|done].
  destruct (run_script _ _ _) as [[[|? [|? [|? ?]]]|] ?]; simpl; try done.
  repeat (case_match; try done).
Qed.

Lemma InspectRate_state tr limits s :
  (InspectRate hmac c tr limits s).2 =
  match prepareRateLimits hmac c limits with Err _ => s | Ok keys => (run_script tr (inspectRateScript keys) s).2 end.
Proof using Type.
  unfold InspectRate. destruct (prepareRateLimits hmac c limits); [|done].
  destruct (run_script _ _ _) as [[[|? ?]|] ?]; simpl; try done. repeat (case_match; try done).
Qed.

Lemma RefundRate_state tr reference limits s :
  (RefundRate hmac c tr reference limits s).2 =
  if ((slen reference =? 0) || (maximumSubjectBytes <? slen reference))%bool then s
  else match prepareRateLimits hmac c limits with
       | Err _ => s
       | Ok keys => (run_script tr (refundRateScript (marker reference) keys (Milliseconds maximumFullRefill)) s).2
       end.
Proof using Type.
  unfold RefundRate. destruct (_ || _)%bool; [done|]. destruct (prepareRateLimits hmac c limits); [|done].
  destruct (run_script _ _ _) as [[[|? [|? ?]]|] ?]; simpl; try done. repeat (case_match; try done).
Qed.

(** A set marker makes the script a read. *)
Lemma refund_write_skip keys states s : (refund_write false keys states s).2 = s.
Proof using Type.
  revert states. induction keys as [|[key a] keys IH]; intros [|st states]; cbn; try done.
  specialize (IH states). by destruct (refund_write false keys states s).
Qed.

Lemma refundRateScript_marked mk keys ttl s :
  flag s mk = true ->
  (refundRateScript mk keys ttl s).2 = s /\
  match (refundRateScript mk keys ttl s).1 with Ok vs => head vs = Some 0 | Err _ => True end.
Proof using VL.
  intros Hf. unfold refundRateScript. rewrite exists_flag, Hf. simpl.
  destruct (refund_read _ _ _ _) as [states|]; [|done].
  pose proof (refund_write_skip keys states s) as Hs.
  destruct (refund_write false keys states s). by simpl in *.
Qed.

Lemma RefundRate_marked tr reference limits s :
  flag s (marker reference) = true ->
  (RefundRate hmac c tr reference limits s).2 = s /\
  forall d, (RefundRate hmac c tr reference limits s).1 = Ok d -> Applied d = false.
Proof using VL.
  intros Hf. split.
  - rewrite RefundRate_state. destruct (_ || _)%bool; [done|]. destruct (prepareRateLimits hmac c limits) as [keys|]; [|done].
    destruct (refundRateScript_marked (marker reference) keys (Milliseconds maximumFullRefill) s Hf) as [H1 _].
    by destruct tr.
  - intros d. unfold RefundRate. destruct (_ || _)%bool; [done|].
    destruct (prepareRateLimits hmac c limits) as [keys|]; [|done].
    destruct (refundRateScript_marked (marker reference) keys (Milliseconds maximumFullRefill) s Hf) as [_ H2].
    destruct tr; simpl; [|done..].
    destruct (refundRateScript _ _ _ s) as [[[|v0 [|v1 bs]]|] s']; simpl in *; try done.
    injection H2 as ->. destruct (_ || _)%bool; [done|]. destruct (read_balances _ _); [|done].
    by intros [= <-].
Qed.

Lemma marker_not_prepared reference limits keys :
  prepareRateLimits hmac c limits = Ok keys -> marker reference ∉ keys.*1.
Proof using Type.
  intros Hp (ka & Hk & Hin)%list_elem_of_fmap. destruct (prepared_keys _ _ _ Hp Hin) as [l Hl].
  apply (marker_not_bucket reference l). congruence.
Qed.

Lemma keys_in_own (keys : list (string * BucketArgs)) ka : ka ∈ keys -> ka.1 ∈ keys.*1.
Proof using Type. apply list_elem_of_fmap_2. Qed.

Lemma ttl_pos : 0 < Milliseconds maximumFullRefill.
Proof using Type. by vm_compute. Qed.

(** A refund under another reference leaves the marker alone. *)
Lemma refund_marked reference reference' limits keys s e :
  prepareRateLimits hmac c limits = Ok keys -> marked reference e s ->
  marked reference e (refundRateScript (marker reference') keys (Milliseconds maximumFullRefill) s).2.
Proof using VL.
  intros Hp Hm. destruct (decide (marker reference = marker reference')) as [Heq|Hne].
  { rewrite <- Heq. rewrite (proj1 (refundRateScript_marked _ keys _ s (proj1 Hm))). done. }
  unfold refundRateScript. destruct (refund_read _ _ _ _) as [states|]; [|done].
  assert (Hs1 : marked reference e
    (if negb (EXISTS (marker reference') s) then SET_NX_PX (marker reference') (Milliseconds maximumFullRefill) s
     else (false, s)).2).
  { destruct (negb _); [|done]. destruct Hm as [Hm1 Hm2].
    pose proof (set_nx_px_frame (marker reference') (Milliseconds maximumFullRefill) s) as [_ _ _ Hf He].
    split; [by rewrite Hf|by rewrite He]. }
  destruct (if negb _ then _ else _) as [applied s1].
  pose proof (refund_write_touches applied keys states s1 keys.*1 (keys_in_own keys)) as Ht.
  destruct (refund_write applied keys states s1) as [bs s2]. simpl in *.
  eapply touches_marked; [exact Ht|by eapply marker_not_prepared|done].
Qed.

Lemma acquire_script_touches keys s : touches keys.*1 s (acquireRateScript keys s).2.
Proof using VL.
  unfold acquireRateScript. destruct (rate_check _ _ _ _ _) as [[states w]|]; [|done].
  pose proof (rate_write_touches (Qeq_bool w 0) keys states s keys.*1 (keys_in_own keys)) as Ht.
  by destruct (rate_write _ _ _ _).
Qed.

Lemma inspect_script_touches keys s : touches keys.*1 s (inspectRateScript keys s).2.
Proof using VL.
  unfold inspectRateScript.
  pose proof (inspect_loop_touches (clock s) keys [] s keys.*1 (keys_in_own keys)) as Ht.
  by destruct (inspect_loop _ _ _ _) as [[?|?] ?].
Qed.

Lemma run_script_state (tr : Transport) script s :
  (run_script tr script s).2 = s \/ (run_script tr script s).2 = (script s).2.
Proof using Type. destruct tr; simpl; auto. Qed.

Lemma marked_step reference e s call :
  clock (run_rate_call s call) < e -> marked reference e s -> marked reference e (run_rate_call s call).
Proof using VL.
  intros He Hm. destruct call as [tr limits|tr limits|tr reference' limits|t]; simpl in *.
  - rewrite AcquireRate_state. destruct (prepareRateLimits hmac c limits) as [keys|] eqn:Hp; [|done].
    destruct (run_script_state tr (acquireRateScript keys) s) as [-> | ->]; [done|].
    eapply touches_marked; [apply acquire_script_touches|by eapply marker_not_prepared|done].
  - rewrite InspectRate_state. destruct (prepareRateLimits hmac c limits) as [keys|] eqn:Hp; [|done].
    destruct (run_script_state tr (inspectRateScript keys) s) as [-> | ->]; [done|].
    eapply touches_marked; [apply inspect_script_touches|by eapply marker_not_prepared|done].
  - rewrite RefundRate_state. destruct (_ || _)%bool; [done|].
    destruct (prepareRateLimits hmac c limits) as [keys|] eqn:Hp; [|done].
    destruct (run_script_state tr (refundRateScript (marker reference') keys (Milliseconds maximumFullRefill)) s)
      as [-> | ->]; [done|]. by eapply refund_marked.
  - rewrite elapse_clock in He by lia. destruct Hm as [H1 H2].
    split; [rewrite elapse_flag|rewrite elapse_expiry]; try lia; rewrite H2; destruct (Z.leb_spec e (Z.max t (clock s)));
      first [done|lia].
Qed.

Lemma refund_script_clock mk keys ttl s : clock (refundRateScript mk keys ttl s).2 = clock s.
Proof using VL.
  unfold refundRateScript. destruct (refund_read _ _ _ _) as [states|]; [|done].
  assert (Hs1 : clock (if negb (EXISTS mk s) then SET_NX_PX mk ttl s else (false, s)).2 = clock s).
  { destruct (negb _); [|done]. apply (sx_clock _ _ _ (set_nx_px_frame mk ttl s)). }
  destruct (if negb _ then _ else _) as [applied s1].
  pose proof (refund_write_touches applied keys states s1 keys.*1 (keys_in_own keys)) as [Ht _].
  destruct (refund_write applied keys states s1). simpl in *. congruence.
Qed.

Lemma clock_step s call : clock s <= clock (run_rate_call s call).
Proof using VL.
  destruct call as [tr limits|tr limits|tr reference' limits|t]; simpl.
  - rewrite AcquireRate_state. destruct (prepareRateLimits hmac c limits) as [keys|]; [|done].
    destruct (run_script_state tr (acquireRateScript keys) s) as [-> | ->]; [done|].
    by rewrite (proj1 (acquire_script_touches keys s)).
  - rewrite InspectRate_state. destruct (prepareRateLimits hmac c limits) as [keys|]; [|done].
    destruct (run_script_state tr (inspectRateScript keys) s) as [-> | ->]; [done|].
    by rewrite (proj1 (inspect_script_touches keys s)).
  - rewrite RefundRate_state. destruct (_ || _)%bool; [done|].
    destruct (prepareRateLimits hmac c limits) as [keys|]; [|done].
    destruct (run_script_state tr (refundRateScript (marker reference') keys (Milliseconds maximumFullRefill)) s)
      as [-> | ->]; [done|]. by rewrite refund_script_clock.
  - rewrite elapse_clock by lia. lia.
Qed.

Lemma clock_steps ops s : clock s <= clock (foldl run_rate_call s ops).
Proof using VL.
  revert s. induction ops as [|op ops IH]; intros s; simpl; [done|].
  etrans; [apply clock_step|apply IH].
Qed.

Lemma marked_steps reference e ops s :
  clock (foldl run_rate_call s ops) < e -> marked reference e s -> marked reference e (foldl run_rate_call s ops).
Proof using VL.
  revert s. induction ops as [|op ops IH]; intros s He Hm; simpl in *; [done|].
  apply IH; [done|]. apply marked_step; [|done]. pose proof (clock_steps ops (run_rate_call s op)). lia.
Qed.

(** ** The first refund *)

Lemma refund_read_ok now s keys states acc :
  reads now s keys states -> refund_read now keys acc s = Ok (acc ++ states).
Proof using Type.
  intros H. revert acc. induction H as [|[key a] st keys states [d Hd] _ IH]; intros acc; simpl.
  - by rewrite app_nil_r.
  - simpl in Hd. rewrite Hd, IH. by rewrite <- app_assoc.
Qed.

Lemma refunded_bounded a st : ArgsOk a -> bounded a (st_tokens st) -> bounded a (refunded a st).
Proof using LN.
  intros [Hc Hr _ _] [Hlo Hhi]. unfold refunded.
  assert (Hb : bounded a (Qmin2 (inject_Z (capacity a)) (fl (st_tokens st + inject_Z (requested a))))).
  { split; [|apply Qmin2_le_l]. apply Qmin2_glb; [apply capacity_bounded; lia|].
    assert (inject_Z 0 <= inject_Z (requested a))%Q by (apply inject_Z_le; lia).
    change (inject_Z 0) with 0%Q in *. apply fl_nonneg. lra. }
  destruct (st_mark st) as [? []|?]; done.
Qed.

Lemma refund_write_spec keys states s :
  NoDup keys.*1 -> Forall2 (λ _ st, 0 < Qfloor (st_keep_ms st)) keys states ->
  (refund_write true keys states s).1 = zip_with (λ ka st, reported (refunded ka.2 st)) keys states /\
  forall i ka st, keys !! i = Some ka -> states !! i = Some st ->
    hash (refund_write true keys states s).2 ka.1 !! "tokens" = Some (tostring (refunded ka.2 st)).
Proof using VL.
  intros Hnd Hk. revert s Hnd. induction Hk as [|[key a] st keys states Hk _ IH]; intros s Hnd; cbn [refund_write].
  { split; [done|]. intros i ka st Hi. by rewrite lookup_nil in Hi. }
  rewrite fmap_cons in Hnd. apply NoDup_cons in Hnd as [Hnin Hnd]. simpl in Hnin.
  destruct (write_bucket_spec key a st (refunded a st) s Hk) as (Hh & _ & _).
  set (s1 := write_bucket key a st (refunded a st) s) in *.
  destruct (IH s1 Hnd) as [Hb Hall].
  pose proof (refund_write_touches true keys states s1 keys.*1 (keys_in_own keys)) as [_ Ht].
  destruct (refund_write true keys states s1) as [rest s']. simpl in *. split; [by rewrite Hb|].
  intros [|i] ka st' Hi Hst; simpl in *; simplify_eq/=; [|by eapply Hall].
  destruct (Ht key Hnin) as (_ & -> & _). rewrite Hh. apply put_fields_tokens.
Qed.

(** The script on a fresh marker. *)
Lemma refundRateScript_fresh reference limits keys states s :
  prepareRateLimits hmac c limits = Ok keys -> reads (clock s) s keys states ->
  flag s (marker reference) = false ->
  exists s', refundRateScript (marker reference) keys (Milliseconds maximumFullRefill) s =
      (Ok (1 :: clock s :: zip_with (λ ka st, reported (refunded ka.2 st)) keys states), s') /\
    touches (marker reference :: keys.*1) s s' /\ clock s' = clock s /\
    marked reference (clock s + Milliseconds maximumFullRefill) s' /\
    forall i ka st, keys !! i = Some ka -> states !! i = Some st ->
      hash s' ka.1 !! "tokens" = Some (tostring (refunded ka.2 st)).
Proof using LN VL.
  intros Hp Hr Hf. destruct (prepareRateLimits_spec _ _ _ _ Hp) as (Hnd & _ & Hok).
  pose proof (set_nx_px (marker reference) _ s ttl_pos) as (Hn1 & Hn2 & Hn3 & _).
  pose proof (set_nx_px_frame (marker reference) (Milliseconds maximumFullRefill) s) as Hfr.
  unfold refundRateScript. rewrite (refund_read_ok _ _ _ states []) by done. rewrite exists_flag, Hf. cbn [negb app].
  destruct (SET_NX_PX _ _ s) as [applied s1]. simpl in Hn1, Hn2, Hn3, Hfr. rewrite Hf in Hn1. subst applied. simpl negb.
  destruct (refund_write_spec keys states s1 Hnd) as [Hb Hall]; [by eapply reads_keep|].
  pose proof (refund_write_touches true keys states s1 keys.*1 (keys_in_own keys)) as Ht.
  destruct (refund_write true keys states s1) as [bs s2]. simpl in Hb, Hall, Ht. subst bs. simpl.
  exists s2. split; [done|]. split.
  { eapply touches_trans; [eapply touches_one; [exact Hfr|left]|]. eapply touches_mono; [|exact Ht]. set_solver. }
  split; [destruct Ht as [-> _]; apply Hfr|]. split; [|done].
  eapply touches_marked; [exact Ht|by eapply marker_not_prepared|]. split; [done|by apply Hn3].
Qed.

(** A refund is applied once.  With a fresh reference [RefundRate] adds
    the requested tokens back to every readable bucket, never above its
    capacity, and reports the balances.  Once the script has run (even if its
    reply was lost), then for the 30 days the marker is kept, whatever calls
    are made in between, a further refund under the same reference is never
    applied and changes nothing. *)
Theorem RefundRate_once reference limits keys states s :
  0 < slen reference <= maximumSubjectBytes ->
  prepareRateLimits hmac c limits = Ok keys -> reads (clock s) s keys states -> 0 < clock s ->
  flag s (marker reference) = false ->
  (exists d s', RefundRate hmac c Replied reference limits s = (Ok d, s') /\ Applied d = true /\
    touches (marker reference :: keys.*1) s s' /\
    forall i ka st, keys !! i = Some ka -> states !! i = Some st ->
      let r := refunded ka.2 st in
      bounded ka.2 r /\ hash s' ka.1 !! "tokens" = Some (tostring r) /\
      (RemainingTokens <$> FBuckets d) !! i = Some (Qfloor r)) /\
  (forall tr ops tr' limits',
    tr <> RequestLost ->
    let s1 := foldl run_rate_call (RefundRate hmac c tr reference limits s).2 ops in
    clock s1 < clock s + 30 * 24 * 60 * 60 * 1000 ->
    (RefundRate hmac c tr' reference limits' s1).2 = s1 /\
    forall d, (RefundRate hmac c tr' reference limits' s1).1 = Ok d -> Applied d = false).
Proof using LN VL.
  intros Href Hp Hr Hc Hf. destruct (refundRateScript_fresh _ _ _ _ _ Hp Hr Hf) as (s' & Hs & Ht & Hc' & Hm & Hall).
  assert (Hguard : ((slen reference =? 0) || (maximumSubjectBytes <? slen reference))%bool = false) by lia.
  destruct (prepareRateLimits_spec _ _ _ _ Hp) as (_ & Hlen & Hok). split.
  - set (balances := zip_with (λ ka st, reported (refunded ka.2 st)) keys states) in *.
    assert (Hblen : length balances = length limits).
    { unfold balances. rewrite length_zip_with, <- (Forall2_length _ _ _ Hr), Nat.min_id. done. }
    destruct (read_balances_ok limits balances Hblen) as (bs & Hbs & Hrem).
    { apply Forall_forall. intros n Hn. unfold balances in Hn. apply elem_of_zip_with in Hn as (? & ? & -> & _).
      apply reported_nonneg. }
    exists (mkRateRefundDecision true (UnixMilli (clock s)) bs), s'. split.
    { unfold RefundRate. rewrite Hguard, Hp. simpl run_script. rewrite Hs, Hblen, Z.eqb_refl, Hbs. simpl.
      destruct (Z.leb_spec (clock s) 0); [lia|done]. }
    split; [done|]. split; [done|]. intros i ka st Hi Hst. simpl.
    assert (Hb : bounded ka.2 (refunded ka.2 st)).
    { rewrite Forall_forall in Hok. destruct (Hok ka) as [Ha _]; [by eapply list_elem_of_lookup_2|].
      destruct (Forall2_lookup_lr _ _ _ _ _ _ Hr Hi Hst) as [d Hd].
      apply refunded_bounded; [done|by eapply read_bucket_bounded]. }
    split; [done|]. split; [by eapply Hall|].
    rewrite Hrem. unfold balances. rewrite lookup_zip_with, Hi. simpl. rewrite Hst. simpl.
    f_equal. by eapply reported_bounded.
  - intros tr ops tr' limits' Htr s1 Hlt. apply RefundRate_marked.
    assert (Hfirst : (RefundRate hmac c tr reference limits s).2 = s').
    { rewrite RefundRate_state, Hguard, Hp. destruct tr; simpl; [by rewrite Hs|done|by rewrite Hs]. }
    unfold s1 in *. rewrite Hfirst in *. eapply marked_steps; [|exact Hm]. exact Hlt.
Qed.
End refund.

(** ** Concrete instances *)

(** Exact numbers, written in binary. *)
Fixpoint bits (p : positive) : string :=
  match p with
  | xH => ""
  | xO p => String "0" (bits p)
  | xI p => String "1" (bits p)
  end.

Fixpoint unbits (s : string) : positive :=
  match s with
  | EmptyString => xH
  | String b s => if Ascii.eqb b "1" then xI (unbits s) else xO (unbits s)
  end.

Lemma unbits_bits p : unbits (bits p) = p.
Proof. induction p as [p IH|p IH|]; simpl; [by rewrite IH..|done]. Qed.

#[export] Instance ExactLua : Lua := {|
  fl x := x;
  tostring x := bits (encode (Qnum x, Qden x));
  tonumber s := (λ nd : Z * positive, nd.1 # nd.2) <$> decode (unbits s);
|}.

#[export] Instance ExactNumbers : LuaNumbers.
Proof.
  refine {| text := λ x : Q, x |}; try done.
  intros [n d]. unfold tonumber, tostring, ExactLua. rewrite unbits_bits, decode_encode. done.
Defined.

Definition rate_hmac (secret m : string) : string := m.
Definition rate_coordinator : Coordinator := mkCoordinator "gateway" "0123456789abcdef0123456789abcdef".
Definition rate_server : Server := mkServer 1000 ∅.

(** A minute budget refilled at one token a second, and a daily quota. *)
Definition rate_limits : list BucketLimit :=
  [mkBucketLimit GlobalDimension MetricRequests 60 1 Second 2 0 0;
   mkBucketLimit (mkDimension ScopeModel "m1") MetricDailyTokens 500 0 0 300 (24 * Hour) 0].

Definition rate_prepared : list (string * BucketArgs) :=
  Eval vm_compute in
  match prepareRateLimits rate_hmac rate_coordinator rate_limits with Ok keys => keys | Err _ => [] end.

Definition rate_states : list BucketSt :=
  [mkBucketSt (inject_Z 60) (Updated (inject_Z 1000)) (inject_Z 120000);
   mkBucketSt (inject_Z 500) (InWindow 0 false) (inject_Z 86399000)].

Lemma rate_prepared_ok : prepareRateLimits rate_hmac rate_coordinator rate_limits = Ok rate_prepared.
Proof. vm_compute. reflexivity. Qed.

Lemma rate_reads : reads (clock rate_server) rate_server rate_prepared rate_states.
Proof.
  unfold reads, rate_states, rate_prepared.
  repeat (apply Forall2_cons_2; [exists 0%Q; vm_compute; reflexivity|]). apply Forall2_nil_2.
Qed.

Lemma rate_server_clock : 0 < clock rate_server.
Proof. vm_compute. reflexivity. Qed.

Lemma AcquireRate_all_or_none_witness :
  exists d s', AcquireRate rate_hmac rate_coordinator Replied rate_limits rate_server = (Ok d, s') /\
    RGranted d = true /\ RemainingTokens <$> RBuckets d = [58; 200].
Proof.
  destruct (AcquireRate_all_or_none rate_hmac rate_coordinator rate_limits rate_prepared rate_states rate_server
              rate_prepared_ok rate_reads rate_server_clock) as (_ & d & s' & H1 & _).
  exists d, s'. split; [exact H1|]. vm_compute in H1. injection H1 as <- _. split; reflexivity.
Defined.

(** Two calls and a third in the same day, then one on the next day. *)
Definition quota_args : BucketArgs := mkBucketArgs 500 0 0 300 0 86400000 0.
Definition quota_ops : list window_op :=
  [WAcquire [("daily", quota_args)]; WElapse 5000; WAcquire [("daily", quota_args)];
   WElapse 86400001; WAcquire [("daily", quota_args)]].

Lemma quota_args_ok : ArgsOk quota_args.
Proof. split; simpl; lia. Qed.


Definition refund_calls : list rate_call :=
  [RAcquire Replied rate_limits; RElapse 50000; RRefund Replied "request-2" rate_limits].

Lemma RefundRate_once_witness :
  let s1 := foldl (run_rate_call rate_hmac rate_coordinator)
              (RefundRate rate_hmac rate_coordinator ReplyLost "request-1" rate_limits rate_server).2 refund_calls in
  (RefundRate rate_hmac rate_coordinator Replied "request-1" rate_limits s1).2 = s1.
Proof.
  destruct (RefundRate_once rate_hmac rate_coordinator "request-1" rate_limits rate_prepared rate_states rate_server)
    as [_ H].
  - vm_compute. split; [reflexivity|discriminate].
  - exact rate_prepared_ok.
  - exact rate_reads.
  - exact rate_server_clock.
  - vm_compute. reflexivity.
  - apply (H ReplyLost refund_calls Replied rate_limits); [discriminate|]. vm_compute. reflexivity.
Defined.
