(* ===== verification/Sse.v ===== *)
(** * Server-sent events

    Models [src/internal/canonical/sse.go]: the incremental decoder that cuts
    the byte stream of an upstream response into lines and assembles events.
    Byte slices and the strings made from them are lists of bytes. *)

From S2P Require Import Prelude GoStrings.

Local Open Scope Z_scope.

Abbreviation bytes := (list ascii).

Definition LF : ascii := byte 10.
Definition CR : ascii := byte 13.
Definition COLON : ascii := byte 58.
Definition SPACE : ascii := byte 32.
Definition NUL : ascii := byte 0.

Definition blen (b : bytes) : Z := Z.of_nat (length b).

Definition DefaultMaxSSEEventBytes : Z := Z.shiftl 1 20.

Record SSEEvent := mkSSEEvent {
  Event : bytes;
  Data : bytes;
  ID : bytes;
  RetryMilliseconds : option Z;
}.

Record SSEDecoder := mkSSEDecoder {
  maxEventBytes : Z;
  buffer : bytes;
  data : bytes;
  event : bytes;
  id : bytes;
  retry : option Z;
  seenData : bool;
  firstLine : bool;
  closed : bool;
}.

Inductive SSEError :=
| ErrClosed
| ErrLineTooLong
| ErrEventTooLong.

Definition NewSSEDecoder (max : Z) : SSEDecoder :=
  let max := if max <=? 0 then DefaultMaxSSEEventBytes else max in
  mkSSEDecoder max [] [] [] [] None false true false.

Definition set_buffer (b : bytes) (d : SSEDecoder) : SSEDecoder :=
  mkSSEDecoder (maxEventBytes d) b (data d) (event d) (id d) (retry d) (seenData d) (firstLine d) (closed d).
Definition set_data (b : bytes) (d : SSEDecoder) : SSEDecoder :=
  mkSSEDecoder (maxEventBytes d) (buffer d) b (event d) (id d) (retry d) true (firstLine d) (closed d).
Definition set_event (e : bytes) (d : SSEDecoder) : SSEDecoder :=
  mkSSEDecoder (maxEventBytes d) (buffer d) (data d) e (id d) (retry d) (seenData d) (firstLine d) (closed d).
Definition set_id (i : bytes) (d : SSEDecoder) : SSEDecoder :=
  mkSSEDecoder (maxEventBytes d) (buffer d) (data d) (event d) i (retry d) (seenData d) (firstLine d) (closed d).
Definition set_retry (r : option Z) (d : SSEDecoder) : SSEDecoder :=
  mkSSEDecoder (maxEventBytes d) (buffer d) (data d) (event d) (id d) r (seenData d) (firstLine d) (closed d).
Definition clear_firstLine (d : SSEDecoder) : SSEDecoder :=
  mkSSEDecoder (maxEventBytes d) (buffer d) (data d) (event d) (id d) (retry d) (seenData d) false (closed d).
Definition set_closed (d : SSEDecoder) : SSEDecoder :=
  mkSSEDecoder (maxEventBytes d) (buffer d) (data d) (event d) (id d) (retry d) (seenData d) (firstLine d) true.

(** The loop of [nextSSELine]: [None] when it runs to the end of the buffer,
    [Some r] when the function returns [r] from inside it. *)
Fixpoint scan_line (buf : bytes) (index : nat) (rest : bytes) (atEOF : bool) : option (option (bytes * nat)) :=
  match rest with
  | [] => None
  | character :: rest' =>
      if decide (character = LF) then
        let end_ :=
          match index with
          | O => index
          | S before => if decide (buf !! before = Some CR) then before else index
          end in
        Some (Some (take end_ buf, S index))
      else if decide (character = CR) then
        if (bool_decide (S index = length buf) && negb atEOF)%bool then Some None
        else
          let consumed := S index in
          let consumed := if decide (buf !! consumed = Some LF) then S consumed else consumed in
          Some (Some (take index buf, consumed))
      else scan_line buf (S index) rest' atEOF
  end.

Definition nextSSELine (buf : bytes) (atEOF : bool) : option (bytes * nat) :=
  match scan_line buf 0 buf atEOF with
  | Some r => r
  | None => if (atEOF && (0 <? blen buf))%bool then Some (buf, length buf) else None
  end.

(** [bytes.TrimPrefix(line, []byte{0xef, 0xbb, 0xbf})] *)
Definition BOM : bytes := [byte 239; byte 187; byte 191].
Definition trim_bom (line : bytes) : bytes :=
  if decide (take 3 line = BOM) then drop 3 line else line.

(** [bytes.Cut] at the first colon. *)
Fixpoint cut_colon (line : bytes) : bytes * option bytes :=
  match line with
  | [] => ([], None)
  | b :: line' =>
      if decide (b = COLON) then ([], Some line')
      else let '(field, value) := cut_colon line' in (b :: field, value)
  end.

(** [strconv.ParseInt(value, 10, 64)]: an optional sign and decimal digits, in
    the range of [int64]. *)
Fixpoint digits_value (acc : Z) (ds : bytes) : option Z :=
  match ds with
  | [] => Some acc
  | d :: ds' => if between 48 57 (code d) then digits_value (acc * 10 + (code d - 48)) ds' else None
  end.

Definition parse_digits (ds : bytes) : option Z :=
  match ds with [] => None | _ => digits_value 0 ds end.

Definition ParseInt (value : bytes) : option Z :=
  let parsed :=
    match value with
    | [] => None
    | b :: ds =>
        if decide (b = byte 43) then parse_digits ds
        else if decide (b = byte 45) then Z.opp <$> parse_digits ds
        else parse_digits value
    end in
  match parsed with
  | Some n => if ((min_int64 <=? n) && (n <=? max_int64))%bool then Some n else None
  | None => None
  end.

Definition field_is (name : string) (field : bytes) : bool :=
  bool_decide (field = String.list_ascii_of_string name).

(** The field name and value of a line that is no comment. *)
Definition split_field (line : bytes) : bytes * bytes :=
  match cut_colon line with
  | (field, None) => (field, [])
  | (field, Some value) =>
      (field, match value with b :: value' => if decide (b = SPACE) then value' else value | [] => value end)
  end.

Definition consumeField (d : SSEDecoder) (line : bytes) : result SSEError unit * SSEDecoder :=
  if decide (head line = Some COLON) then (Ok tt, d)
  else
    let '(field, value) := split_field line in
    if field_is "data" field then
      let additionalBytes := blen value + (if seenData d then 1 else 0) in
      if maxEventBytes d <? blen (data d) + additionalBytes then (Err ErrEventTooLong, d)
      else (Ok tt, set_data ((if seenData d then data d ++ [LF] else data d) ++ value) d)
    else if field_is "event" field then (Ok tt, set_event value d)
    else if field_is "id" field then
      (Ok tt, if bool_decide (NUL ∈ value) then d else set_id value d)
    else if field_is "retry" field then
      (Ok tt, match ParseInt value with
              | Some milliseconds => if 0 <=? milliseconds then set_retry (Some milliseconds) d else d
              | None => d
              end)
    else (Ok tt, d).

Definition dispatch (d : SSEDecoder) : option SSEEvent * SSEDecoder :=
  if negb (seenData d) then
    (None, mkSSEDecoder (maxEventBytes d) (buffer d) (data d) [] (id d) None (seenData d) (firstLine d) (closed d))
  else
    (Some (mkSSEEvent (event d) (data d) (id d) (retry d)),
     mkSSEDecoder (maxEventBytes d) (buffer d) [] [] (id d) None false (firstLine d) (closed d)).

(** The body of the loop of [consumeLines] for one line, after it is removed
    from the buffer. *)
Definition handle_line (d : SSEDecoder) (line : bytes) : result SSEError (list SSEEvent) * SSEDecoder :=
  if maxEventBytes d <? blen line then (Err ErrLineTooLong, d)
  else
    let line := if firstLine d then trim_bom line else line in
    let d := if firstLine d then clear_firstLine d else d in
    match line with
    | [] => let '(e, d) := dispatch d in (Ok (option_list e), d)
    | _ => match consumeField d line with
           | (Ok _, d) => (Ok [], d)
           | (Err e, d) => (Err e, d)
           end
    end.

(** The loop consumes at least one byte per line: the length of the buffer is
    enough fuel. *)
Fixpoint consumeLines (fuel : nat) (events : list SSEEvent) (d : SSEDecoder) (atEOF : bool) :
    result SSEError (list SSEEvent) * SSEDecoder :=
  match fuel with
  | O => (Ok events, d)
  | S fuel' =>
      match nextSSELine (buffer d) atEOF with
      | None => (Ok events, d)
      | Some (line, consumed) =>
          match handle_line (set_buffer (drop consumed (buffer d)) d) line with
          | (Err e, d) => (Err e, d)
          | (Ok evs, d) => consumeLines fuel' (events ++ evs) d atEOF
          end
      end
  end.

Definition Feed (d : SSEDecoder) (chunk : bytes) : result SSEError (list SSEEvent) * SSEDecoder :=
  if closed d then (Err ErrClosed, d)
  else if blen chunk =? 0 then (Ok [], d)
  else
    let d := set_buffer (buffer d ++ chunk) d in
    match consumeLines (S (length (buffer d))) [] d false with
    | (Err e, d) => (Err e, d)
    | (Ok events, d) =>
        if maxEventBytes d <? blen (buffer d) then (Err ErrLineTooLong, d) else (Ok events, d)
    end.

Definition Close (d : SSEDecoder) : result SSEError (list SSEEvent) * SSEDecoder :=
  if closed d then (Err ErrClosed, d)
  else
    let d := set_closed d in
    match consumeLines (S (length (buffer d))) [] d true with
    | (Err e, d) => (Err e, d)
    | (Ok events, d) => let '(e, d) := dispatch d in (Ok (events ++ option_list e), d)
    end.
