(* ===== verification/SseProps.v ===== *)
(** * What the event decoder guarantees

    A reference reading of an event stream as a whole (lines, blocks, events)
    and the theorems about [src/internal/canonical/sse.go]: however the stream
    is cut into chunks, the decoder yields the events of the reference, and
    what it holds is bounded by its limit. *)

From S2P Require Import Prelude GoStrings Sse.

Local Open Scope Z_scope.

(** ** Reference: lines *)

(** Lines end with LF, CR LF or CR; what follows the last end is a line when
    it is not empty.  [cur] is the line read so far. *)
Fixpoint split_lines (cur bs : bytes) : list bytes :=
  match bs with
  | [] => match cur with [] => [] | _ => [cur] end
  | b :: bs' =>
      if decide (b = LF) then cur :: split_lines [] bs'
      else if decide (b = CR) then
        match bs' with
        | b' :: bs'' => if decide (b' = LF) then cur :: split_lines [] bs'' else cur :: split_lines [] bs'
        | [] => [cur]
        end
      else split_lines (cur ++ [b]) bs'
  end.

(** The lines of a stream; a byte-order mark before the first is dropped. *)
Definition stream_lines (bs : bytes) : list bytes :=
  match split_lines [] bs with
  | [] => []
  | l :: ls => trim_bom l :: ls
  end.

(** ** Reference: blocks and events *)

(** An empty line ends a block; the end of the stream ends the last one. *)
Fixpoint blocks (cur : list bytes) (ls : list bytes) : list (list bytes) :=
  match ls with
  | [] => [cur]
  | [] :: ls' => cur :: blocks [] ls'
  | l :: ls' => blocks (cur ++ [l]) ls'
  end.

(** The values of a field in a block, comments left out. *)
Definition value_of (name : string) (line : bytes) : option bytes :=
  if decide (head line = Some COLON) then None
  else if field_is name (split_field line).1 then Some (split_field line).2 else None.
Definition values (name : string) (block : list bytes) : list bytes := omap (value_of name) block.

Definition join_lines (vs : list bytes) : bytes :=
  match vs with [] => [] | v :: vs' => foldl (λ acc v, acc ++ [LF] ++ v) v vs' end.

Definition next_id (i v : bytes) : bytes := if bool_decide (NUL ∈ v) then i else v.
Definition block_id (i : bytes) (block : list bytes) : bytes := foldl next_id i (values "id" block).

Definition next_retry (r : option Z) (v : bytes) : option Z :=
  match ParseInt v with Some n => if 0 <=? n then Some n else r | None => r end.
Definition block_retry (block : list bytes) : option Z := foldl next_retry None (values "retry" block).

Definition block_name (block : list bytes) : bytes := default [] (last (values "event" block)).

(** A block is an event when it has a [data] field. *)
Definition block_event (i : bytes) (block : list bytes) : option SSEEvent :=
  match values "data" block with
  | [] => None
  | vs => Some (mkSSEEvent (block_name block) (join_lines vs) (block_id i block) (block_retry block))
  end.

Fixpoint block_events (i : bytes) (bls : list (list bytes)) : list SSEEvent :=
  match bls with
  | [] => []
  | bl :: bls' => (option_list (block_event i bl) ++ block_events (block_id i bl) bls')%list
  end.

Definition stream_events (bs : bytes) : list SSEEvent := block_events [] (blocks [] (stream_lines bs)).

(** ** Splitting by chunks *)

Definition clean (l : bytes) : Prop := (LF ∉ l) /\ (CR ∉ l).

(** The complete lines of a buffer and what remains; a final CR waits for the
    byte after it. *)
Fixpoint complete (cur bs : bytes) : list bytes * bytes :=
  match bs with
  | [] => ([], cur)
  | b :: bs' =>
      if decide (b = LF) then let '(ls, r) := complete [] bs' in (cur :: ls, r)
      else if decide (b = CR) then
        match bs' with
        | b' :: bs'' =>
            if decide (b' = LF) then let '(ls, r) := complete [] bs'' in (cur :: ls, r)
            else let '(ls, r) := complete [] bs' in (cur :: ls, r)
        | [] => ([], cur ++ [CR])
        end
      else complete (cur ++ [b]) bs'
  end.

Lemma clean_nil : clean [].
Proof. split; apply not_elem_of_nil. Qed.

Lemma clean_snoc cur b : clean cur -> b <> LF -> b <> CR -> clean (cur ++ [b]).
Proof. intros [H1 H2] ? ?. split; rewrite elem_of_app, list_elem_of_singleton; naive_solver. Qed.

Lemma clean_cons b cur : clean (b :: cur) -> b <> LF /\ b <> CR /\ clean cur.
Proof. intros [H1 H2]. rewrite elem_of_cons in H1, H2. split_and!; [naive_solver..|]. split; naive_solver. Qed.

Lemma CR_ne_LF : CR <> LF.
Proof. done. Qed.

Lemma complete_clean cur0 cur bs : clean cur -> complete cur0 (cur ++ bs) = complete (cur0 ++ cur) bs.
Proof.
  revert cur0. induction cur as [|b cur IH]; intros cur0 Hc; simpl; [by rewrite app_nil_r|].
  apply clean_cons in Hc as (? & ? & Hc). rewrite !decide_False by done. rewrite IH by done. by rewrite <- app_assoc.
Qed.

Lemma split_clean cur0 cur bs : clean cur -> split_lines cur0 (cur ++ bs) = split_lines (cur0 ++ cur) bs.
Proof.
  revert cur0. induction cur as [|b cur IH]; intros cur0 Hc; simpl; [by rewrite app_nil_r|].
  apply clean_cons in Hc as (? & ? & Hc). rewrite !decide_False by done. rewrite IH by done. by rewrite <- app_assoc.
Qed.

(** Induction over a byte stream in steps of one or two bytes. *)
Lemma bytes_ind2 (P : bytes -> Prop) :
  P [] -> (forall b bs, P bs -> (forall b' bs', bs = b' :: bs' -> P bs') -> P (b :: bs)) -> forall bs, P bs.
Proof.
  intros H0 H1 bs. assert (H : forall n bs, (length bs <= n)%nat -> P bs); [|by eapply H].
  induction n as [|n IH]; intros [|b bs'] Hn; simpl in Hn; try done; [lia|].
  apply H1; [apply IH; lia|]. intros b' bs'' ->. apply IH. simpl in Hn. lia.
Qed.

(** What remains is a line without end, perhaps followed by a CR. *)
Lemma complete_rest cur bs :
  clean cur -> exists l, clean l /\ ((complete cur bs).2 = l \/ (complete cur bs).2 = l ++ [CR]).
Proof.
  revert cur. induction bs as [|b bs IH IH2] using bytes_ind2; intros cur Hc; simpl; [by exists cur; auto|].
  assert (Hnil : forall bs, (forall cur, clean cur -> exists l, clean l /\ ((complete cur bs).2 = l \/ (complete cur bs).2 = l ++ [CR])) ->
    exists l, clean l /\ (((let '(ls, r) := complete [] bs in (cur :: ls, r)).2 = l) \/
                          ((let '(ls, r) := complete [] bs in (cur :: ls, r)).2 = l ++ [CR]))).
  { intros bs' H. destruct (H [] clean_nil) as (l & ? & ?). exists l. by destruct (complete [] bs'). }
  case_decide; [by apply Hnil|]. case_decide; [|by apply IH, clean_snoc].
  destruct bs as [|b' bs']; [by exists cur; auto|]. case_decide; [|by apply Hnil].
  apply Hnil. intros. eapply IH2; done.
Qed.

(** Reading in two pieces is reading the whole. *)
Lemma complete_app cur bs cs :
  clean cur ->
  complete cur (bs ++ cs) =
    ((complete cur bs).1 ++ (complete [] ((complete cur bs).2 ++ cs)).1, (complete [] ((complete cur bs).2 ++ cs)).2).
Proof.
  revert cur. induction bs as [|b bs IH IH2] using bytes_ind2; intros cur Hc; cbn [complete app].
  { simpl. rewrite complete_clean by done. by destruct (complete _ cs). }
  destruct (decide (b = LF)) as [->|Hb].
  { specialize (IH [] clean_nil). rewrite IH. by destruct (complete [] bs). }
  destruct (decide (b = CR)) as [->|Hb'].
  - destruct bs as [|b' bs']; cbn [app].
    + simpl. rewrite <- app_assoc, complete_clean by done. simpl app. destruct cs as [|c cs]; [done|].
      cbn [complete]. rewrite (decide_False (P := CR = LF)), (decide_True (P := CR = CR)) by done.
      by destruct (if decide (c = LF) then _ else _).
    + destruct (decide (b' = LF)) as [->|Hb'].
      * specialize (IH2 _ _ eq_refl [] clean_nil). rewrite IH2. by destruct (complete [] bs').
      * specialize (IH [] clean_nil). cbn [app] in IH. rewrite IH. by destruct (complete [] (b' :: bs')).
  - by apply IH, clean_snoc.
Qed.

Lemma split_complete cur bs :
  clean cur -> split_lines cur bs = (complete cur bs).1 ++ split_lines [] (complete cur bs).2.
Proof.
  revert cur. induction bs as [|b bs IH IH2] using bytes_ind2; intros cur Hc; cbn [complete split_lines].
  { simpl. rewrite <- (app_nil_r cur) at 2. rewrite split_clean by done. done. }
  destruct (decide (b = LF)) as [->|Hb].
  { rewrite (IH [] clean_nil). by destruct (complete [] bs). }
  destruct (decide (b = CR)) as [->|Hb']; [|by apply IH, clean_snoc].
  destruct bs as [|b' bs'].
  - simpl. by rewrite split_clean by done.
  - destruct (decide (b' = LF)) as [->|Hb'].
    + rewrite (IH2 _ _ eq_refl [] clean_nil). by destruct (complete [] bs').
    + rewrite (IH [] clean_nil). by destruct (complete [] (b' :: bs')).
Qed.

(** ** [nextSSELine] *)

(** A buffer has no line end, or a first one. *)
Lemma first_end (buf : bytes) :
  clean buf \/ (exists pre post, buf = pre ++ LF :: post /\ clean pre) \/
  (exists pre post, buf = pre ++ CR :: post /\ clean pre).
Proof.
  induction buf as [|b buf IH]; [left; apply clean_nil|].
  destruct (decide (b = LF)) as [->|Hb]; [right; left; exists [], buf; split; [done|apply clean_nil]|].
  destruct (decide (b = CR)) as [->|Hb']; [right; right; exists [], buf; split; [done|apply clean_nil]|].
  assert (Hcons : forall l, clean l -> clean (b :: l)).
  { intros l [? ?]. split; rewrite elem_of_cons; naive_solver. }
  destruct IH as [H|[(pre & post & -> & H)|(pre & post & -> & H)]]; [left; auto|right; left|right; right];
    (exists (b :: pre), post; split; [done|auto]).
Qed.

Lemma scan_line_clean buf cur rest tail atEOF :
  buf = cur ++ rest ++ tail -> clean rest ->
  scan_line buf (length cur) (rest ++ tail) atEOF = scan_line buf (length (cur ++ rest)) tail atEOF.
Proof.
  revert cur. induction rest as [|b rest IH]; intros cur Hbuf Hc; simpl; [by rewrite app_nil_r|].
  apply clean_cons in Hc as (? & ? & Hc). rewrite !decide_False by done.
  specialize (IH (cur ++ [b])). rewrite length_app in IH. simpl in IH. rewrite Nat.add_1_r in IH.
  rewrite IH; [by rewrite <- app_assoc|by rewrite <- app_assoc|done].
Qed.

Lemma next_clean buf atEOF :
  clean buf -> nextSSELine buf atEOF = if (atEOF && (0 <? blen buf))%bool then Some (buf, length buf) else None.
Proof.
  intros Hc. unfold nextSSELine. pose proof (scan_line_clean buf [] buf [] atEOF) as H.
  rewrite app_nil_r in H. simpl in H. rewrite H by done. done.
Qed.

Lemma clean_before pre post b : clean pre -> pre <> [] -> (pre ++ b :: post) !! Nat.pred (length pre) <> Some CR.
Proof.
  intros [_ Hc] Hne H. rewrite lookup_app_l in H; [by apply list_elem_of_lookup_2 in H|].
  destruct pre; simpl; [done|lia].
Qed.

Lemma next_LF pre post atEOF :
  clean pre -> nextSSELine (pre ++ LF :: post) atEOF = Some (pre, S (length pre)).
Proof.
  intros Hc. unfold nextSSELine. rewrite (scan_line_clean _ [] pre (LF :: post)) by done. simpl.
  pose proof (clean_before pre post LF Hc) as Hb.
  assert (He : match length pre with
               | O => length pre
               | S before => if decide ((pre ++ LF :: post) !! before = Some CR) then before else length pre
               end = length pre).
  { destruct (length pre) eqn:Hl; [done|]. rewrite decide_False; [done|]. apply Hb. by destruct pre. }
  rewrite He, take_app_length. done.
Qed.

Lemma next_CR pre post atEOF :
  clean pre ->
  nextSSELine (pre ++ CR :: post) atEOF =
    match post with
    | [] => if atEOF then Some (pre, S (length pre)) else None
    | b :: _ => Some (pre, if decide (b = LF) then S (S (length pre)) else S (length pre))
    end.
Proof.
  intros Hc. unfold nextSSELine. rewrite (scan_line_clean _ [] pre (CR :: post)) by done.
  cbn [app scan_line]. rewrite decide_False, decide_True by done. rewrite take_app_length.
  assert (Hl : (pre ++ CR :: post) !! S (length pre) = head post).
  { rewrite lookup_app_r by lia. replace (S (length pre) - length pre)%nat with 1%nat by lia. by destruct post. }
  rewrite Hl, length_app. cbn [length]. destruct post as [|b post]; cbn [head length].
  - rewrite bool_decide_true by lia. by destruct atEOF.
  - rewrite bool_decide_false by lia. simpl. destruct (decide (b = LF)) as [->|Hb].
    + by rewrite decide_True.
    + rewrite decide_False by congruence. done.
Qed.

Lemma drop_past (pre post : bytes) b : drop (S (length pre)) (pre ++ b :: post) = post.
Proof. rewrite drop_app_ge by lia. by replace (S (length pre) - length pre)%nat with 1%nat by lia. Qed.

Lemma drop_past2 (pre post : bytes) b b' : drop (S (S (length pre))) (pre ++ b :: b' :: post) = post.
Proof. rewrite drop_app_ge by lia. by replace (S (S (length pre)) - length pre)%nat with 2%nat by lia. Qed.

(** Between chunks the decoder takes the complete lines in order. *)
Lemma next_false buf :
  match complete [] buf with
  | ([], r) => nextSSELine buf false = None /\ r = buf
  | (l :: ls, r) => exists n, nextSSELine buf false = Some (l, n) /\ complete [] (drop n buf) = (ls, r) /\
                              (length (drop n buf) < length buf)%nat
  end.
Proof.
  destruct (first_end buf) as [Hc|[(pre & post & -> & Hc)|(pre & post & -> & Hc)]].
  - pose proof (complete_clean [] buf [] Hc) as He. rewrite app_nil_r in He. rewrite He. simpl.
    by rewrite next_clean by done.
  - rewrite complete_clean by done. cbn [app complete]. rewrite decide_True by done.
    destruct (complete [] post) as [ls r] eqn:Hp. exists (S (length pre)).
    rewrite next_LF, drop_past, length_app by done. simpl. split_and!; [done..|lia].
  - rewrite complete_clean by done. cbn [app complete]. rewrite decide_False, decide_True by done.
    rewrite next_CR by done. destruct post as [|b post]; [done|]. destruct (decide (b = LF)) as [->|Hb].
    + destruct (complete [] post) as [ls r] eqn:Hp. exists (S (S (length pre))).
      rewrite drop_past2, length_app. simpl. split_and!; [done..|lia].
    + destruct (complete [] (b :: post)) as [ls r] eqn:Hp. exists (S (length pre)).
      rewrite drop_past, length_app. simpl. split_and!; [done..|lia].
Qed.

(** At the end of the stream it takes all lines. *)
Lemma next_true buf :
  match split_lines [] buf with
  | [] => nextSSELine buf true = None
  | l :: ls => exists n, nextSSELine buf true = Some (l, n) /\ split_lines [] (drop n buf) = ls /\
                         (length (drop n buf) < length buf)%nat
  end.
Proof.
  destruct (first_end buf) as [Hc|[(pre & post & -> & Hc)|(pre & post & -> & Hc)]].
  - pose proof (split_clean [] buf [] Hc) as He. rewrite app_nil_r in He. rewrite He. simpl.
    rewrite next_clean by done. unfold blen. destruct buf as [|b buf]; [done|].
    exists (length (b :: buf)). rewrite drop_all. split_and!; [done..|simpl; lia].
  - rewrite split_clean by done. cbn [app split_lines]. rewrite decide_True by done. exists (S (length pre)).
    rewrite next_LF, drop_past, length_app by done. simpl. split_and!; [done..|lia].
  - rewrite split_clean by done. cbn [app split_lines]. rewrite decide_False, decide_True by done.
    rewrite next_CR by done. destruct post as [|b post].
    + exists (S (length pre)). rewrite drop_past, length_app. simpl. split_and!; [done..|lia].
    + destruct (decide (b = LF)) as [->|Hb]; [exists (S (S (length pre)))|exists (S (length pre))];
        rewrite ?drop_past2, ?drop_past, length_app; simpl; (split_and!; [done..|lia]).
Qed.

(** ** The loop handles lines in order *)

(** The decoder without its buffer. *)
Definition assembling (d : SSEDecoder) : SSEDecoder :=
  mkSSEDecoder (maxEventBytes d) [] (data d) (event d) (id d) (retry d) (seenData d) (firstLine d) false.

Fixpoint handle_lines (d : SSEDecoder) (ls : list bytes) : result SSEError (list SSEEvent) * SSEDecoder :=
  match ls with
  | [] => (Ok [], d)
  | l :: ls' =>
      match handle_line d l with
      | (Err e, d') => (Err e, d')
      | (Ok evs, d') =>
          match handle_lines d' ls' with
          | (Err e, d'') => (Err e, d'')
          | (Ok evs', d'') => (Ok (evs ++ evs'), d'')
          end
      end
  end.

Lemma handle_line_frame d l :
  let '(r, d') := handle_line d l in
  handle_line (assembling d) l = (r, assembling d') /\
  buffer d' = buffer d /\ closed d' = closed d /\ maxEventBytes d' = maxEventBytes d /\
  (is_ok r = true -> firstLine d' = false).
Proof.
  unfold handle_line. cbn [maxEventBytes assembling firstLine].
  destruct (maxEventBytes d <? blen l); [done|]. destruct d as [mx bf dt ev i rt seen first cl]. simpl.
  set (l' := if first then trim_bom l else l). destruct l' as [|b l'].
  { unfold dispatch. destruct first, seen; simpl; done. }
  unfold consumeField. destruct (decide (head (b :: l') = Some COLON)); [by destruct first|].
  destruct (split_field (b :: l')) as [field value].
  destruct (field_is "data" field); [destruct first; simpl; by destruct (mx <? _)|].
  destruct (field_is "event" field); [by destruct first|].
  destruct (field_is "id" field); [destruct first; by destruct (bool_decide _)|].
  destruct (field_is "retry" field); [|by destruct first].
  destruct (ParseInt value) as [ms|]; [destruct (0 <=? ms)|]; by destruct first.
Qed.

Lemma assembling_buffer b d : assembling (set_buffer b d) = assembling d.
Proof. done. Qed.

Lemma consumeLines_false fuel events d :
  (length (buffer d) < fuel)%nat ->
  match handle_lines (assembling d) (complete [] (buffer d)).1 with
  | (Ok evs, d') =>
      exists d1, consumeLines fuel events d false = (Ok (events ++ evs), d1) /\ assembling d1 = d' /\
        buffer d1 = (complete [] (buffer d)).2 /\ closed d1 = closed d /\ maxEventBytes d1 = maxEventBytes d
  | (Err e, _) => exists d1, consumeLines fuel events d false = (Err e, d1)
  end.
Proof.
  revert events d. induction fuel as [|fuel IH]; intros events d Hf; [lia|]. cbn [consumeLines].
  pose proof (next_false (buffer d)) as Hn. destruct (complete [] (buffer d)) as [[|l ls] r] eqn:Hc.
  { destruct Hn as [-> ->]. simpl. exists d. by rewrite app_nil_r. }
  destruct Hn as (n & -> & Hrest & Hlen). cbn [fst handle_lines].
  pose proof (handle_line_frame (set_buffer (drop n (buffer d)) d) l) as Hfr.
  destruct (handle_line (set_buffer _ d) l) as [[evs|e] d'].
  2:{ destruct Hfr as [Hh _]. rewrite assembling_buffer in Hh. rewrite Hh. by exists d'. }
  destruct Hfr as (Hh & Hb & Hcl & Hm & _). rewrite assembling_buffer in Hh. rewrite Hh. simpl in Hb, Hcl, Hm.
  specialize (IH (events ++ evs) d'). rewrite Hb, Hrest in IH. cbn [fst snd] in IH.
  destruct (handle_lines (assembling d') ls) as [[evs'|e] d''].
  - destruct IH as (d1 & -> & Ha & Hb1 & Hc1 & Hm1); [lia|]. exists d1. rewrite <- app_assoc.
    split_and!; try done; congruence.
  - apply IH. lia.
Qed.

Lemma consumeLines_true fuel events d :
  (length (buffer d) < fuel)%nat ->
  match handle_lines (assembling d) (split_lines [] (buffer d)) with
  | (Ok evs, d') =>
      exists d1, consumeLines fuel events d true = (Ok (events ++ evs), d1) /\ assembling d1 = d'
  | (Err e, _) => exists d1, consumeLines fuel events d true = (Err e, d1)
  end.
Proof.
  revert events d. induction fuel as [|fuel IH]; intros events d Hf; [lia|]. cbn [consumeLines].
  pose proof (next_true (buffer d)) as Hn. destruct (split_lines [] (buffer d)) as [|l ls] eqn:Hc.
  { rewrite Hn. simpl. exists d. by rewrite app_nil_r. }
  destruct Hn as (n & -> & Hrest & Hlen). cbn [handle_lines].
  pose proof (handle_line_frame (set_buffer (drop n (buffer d)) d) l) as Hfr.
  destruct (handle_line (set_buffer _ d) l) as [[evs|e] d'].
  2:{ destruct Hfr as [Hh _]. rewrite assembling_buffer in Hh. rewrite Hh. by exists d'. }
  destruct Hfr as (Hh & Hb & _). rewrite assembling_buffer in Hh. rewrite Hh. simpl in Hb.
  specialize (IH (events ++ evs) d'). rewrite Hb, Hrest in IH.
  destruct (handle_lines (assembling d') ls) as [[evs'|e] d''].
  - destruct IH as (d1 & -> & Ha); [lia|]. exists d1. by rewrite <- app_assoc.
  - apply IH. lia.
Qed.

Lemma handle_lines_app d ls ls' :
  handle_lines d (ls ++ ls') =
    match handle_lines d ls with
    | (Err e, d') => (Err e, d')
    | (Ok evs, d') =>
        match handle_lines d' ls' with
        | (Err e, d'') => (Err e, d'')
        | (Ok evs', d'') => (Ok (evs ++ evs'), d'')
        end
    end.
Proof.
  revert d. induction ls as [|l ls IH]; intros d; simpl.
  - by destruct (handle_lines d ls') as [[?|?] ?].
  - destruct (handle_line d l) as [[evs|e] d']; [|done]. rewrite IH.
    destruct (handle_lines d' ls) as [[evs'|e] d'']; [|done].
    destruct (handle_lines d'' ls') as [[evs''|e] d3]; [by rewrite <- app_assoc|done].
Qed.

(** ** Chunks *)

(** Feeding chunks one after the other, then closing. *)
Fixpoint feeds (d : SSEDecoder) (chunks : list bytes) : result SSEError (list SSEEvent) * SSEDecoder :=
  match chunks with
  | [] => (Ok [], d)
  | chunk :: chunks' =>
      match Feed d chunk with
      | (Err e, d') => (Err e, d')
      | (Ok evs, d') =>
          match feeds d' chunks' with
          | (Err e, d'') => (Err e, d'')
          | (Ok evs', d'') => (Ok (evs ++ evs'), d'')
          end
      end
  end.

Definition decode (max : Z) (chunks : list bytes) : result SSEError (list SSEEvent) :=
  match feeds (NewSSEDecoder max) chunks with
  | (Err e, _) => Err e
  | (Ok evs, d) => let? evs' := (Close d).1 in Ok (evs ++ evs')
  end.

(** Lines handled after what was read so far, with what waits in the buffer. *)
Lemma Feed_lines d chunk :
  closed d = false -> complete [] (buffer d) = ([], buffer d) ->
  match handle_lines (assembling d) (complete [] (buffer d ++ chunk)).1 with
  | (Ok evs, d') =>
      let rest := (complete [] (buffer d ++ chunk)).2 in
      exists d1, assembling d1 = d' /\ buffer d1 = rest /\ closed d1 = false /\ maxEventBytes d1 = maxEventBytes d /\
        Feed d chunk = (if ((0 <? blen chunk) && (maxEventBytes d <? blen rest))%bool
                        then Err ErrLineTooLong else Ok evs, d1)
  | (Err e, _) => exists d1, Feed d chunk = (Err e, d1)
  end.
Proof.
  intros Hcl Hw. unfold Feed. rewrite Hcl. unfold blen at 2. destruct (Z.eqb_spec (blen chunk) 0) as [Hz|Hz].
  { assert (chunk = []) as -> by (destruct chunk; [done|unfold blen in Hz; simpl in Hz; lia]).
    rewrite app_nil_r, Hw. simpl. by exists d. }
  pose proof (consumeLines_false (S (length (buffer d ++ chunk))) [] (set_buffer (buffer d ++ chunk) d)) as H.
  cbn [buffer set_buffer] in H |- *. rewrite assembling_buffer in H.
  destruct (handle_lines (assembling d) (complete [] (buffer d ++ chunk)).1) as [[evs|e] d'].
  - destruct H as (d1 & -> & Ha & Hb & Hc & Hm); [lia|]. exists d1. simpl in Hc, Hm. rewrite Hm, Hb.
    assert ((0 <? blen chunk) = true) as -> by (unfold blen in *; lia). simpl.
    split_and!; try done; [congruence|]. unfold blen. by destruct (_ <? _).
  - destruct H as (d1 & ->); [lia|]. by exists d1.
Qed.

Lemma complete_waits bs : complete [] (complete [] bs).2 = ([], (complete [] bs).2).
Proof.
  destruct (complete_rest [] bs clean_nil) as (l & Hl & [-> | ->]).
  - pose proof (complete_clean [] l [] Hl) as H. by rewrite app_nil_r in H.
  - by rewrite complete_clean.
Qed.

(** ** Blocks *)

(** The decoder holds the block [cur], after the id [i]. *)
Record Assembled (d : SSEDecoder) (i : bytes) (cur : list bytes) : Prop := {
  as_event : event d = block_name cur;
  as_data : data d = join_lines (values "data" cur);
  as_seen : seenData d = bool_decide (values "data" cur <> []);
  as_id : id d = block_id i cur;
  as_retry : retry d = block_retry cur;
  as_first : firstLine d = false;
}.

Lemma values_snoc name cur l : values name (cur ++ [l]) = values name cur ++ option_list (value_of name l).
Proof. unfold values. rewrite omap_app. simpl. by destruct (value_of name l). Qed.

Lemma join_lines_snoc vs v :
  join_lines (vs ++ [v]) = (if bool_decide (vs <> []) then join_lines vs ++ [LF] else []) ++ v.
Proof.
  destruct vs as [|w vs]; [done|]. simpl. rewrite foldl_app. simpl. by rewrite <- app_assoc.
Qed.

Lemma field_is_exclusive name name' field :
  field_is name field = true -> name <> name' -> field_is name' field = false.
Proof.
  unfold field_is. intros ->%bool_decide_eq_true Hne. apply bool_decide_eq_false. intros H.
  apply Hne. rewrite <- (String.string_of_list_ascii_of_string name), H. apply String.string_of_list_ascii_of_string.
Qed.

(** A field of another name leaves what a block says of [name]. *)
Lemma values_other name cur l : value_of name l = None -> values name (cur ++ [l]) = values name cur.
Proof. intros H. rewrite values_snoc, H. apply app_nil_r. Qed.

Lemma values_this name cur l v : value_of name l = Some v -> values name (cur ++ [l]) = values name cur ++ [v].
Proof. intros H. by rewrite values_snoc, H. Qed.

Lemma last_this (vs : list bytes) v : default [] (last (vs ++ [v])) = v.
Proof. by rewrite last_snoc. Qed.

Lemma consumeField_step d i cur l :
  Assembled d i cur ->
  match consumeField d l with
  | (Ok _, d') => Assembled d' i (cur ++ [l])
  | (Err _, _) => maxEventBytes d < blen (join_lines (values "data" (cur ++ [l])))
  end.
Proof.
  intros [He Hd Hs Hi Hr Hf]. unfold consumeField.
  assert (Hval : forall name, value_of name l = if decide (head l = Some COLON) then None
     else if field_is name (split_field l).1 then Some (split_field l).2 else None) by done.
  destruct (decide (head l = Some COLON)).
  { split; unfold block_name, block_id, block_retry; by rewrite ?values_other by done. }
  destruct (split_field l) as [field value]. simpl in Hval.
  assert (Hother : forall name name', field_is name field = true -> name <> name' -> value_of name' l = None).
  { intros name name' H Hne. by rewrite Hval, (field_is_exclusive name name' field). }
  destruct (field_is "data" field) eqn:Hdata.
  { assert (Hj : join_lines (values "data" (cur ++ [l])) =
                 (if seenData d then data d ++ [LF] else data d) ++ value).
    { rewrite (values_this "data" _ _ value) by (by rewrite Hval, Hdata). rewrite join_lines_snoc, <- Hs, <- Hd.
      destruct (seenData d) eqn:Hsd; [done|]. symmetry in Hs. apply bool_decide_eq_false in Hs.
      rewrite Hd. destruct (values "data" cur); [done|]. by destruct Hs. }
    rewrite Hj. unfold blen. rewrite length_app.
    destruct (Z.ltb_spec (maxEventBytes d) (Z.of_nat (length (data d)) + (Z.of_nat (length value) + (if seenData d then 1 else 0))));
      [destruct (seenData d); rewrite ?length_app; simpl; lia|].
    split; cbn [set_data data event id retry seenData firstLine]; try done;
      unfold block_name, block_id, block_retry; rewrite ?(values_other "event"), ?(values_other "id"), ?(values_other "retry")
        by (by eapply Hother); try done.
    - symmetry. apply bool_decide_eq_true. rewrite (values_this "data" _ _ value) by (by rewrite Hval, Hdata).
      intros Hn. by destruct (values "data" cur). }
  assert (Hnd : value_of "data" l = None) by (by rewrite Hval, Hdata).
  destruct (field_is "event" field) eqn:Hev; [|destruct (field_is "id" field) eqn:Hid;
    [|destruct (field_is "retry" field) eqn:Hrt]].
  - split; cbn [set_event data event id retry seenData firstLine]; try done;
      unfold block_name, block_id, block_retry; rewrite ?(values_other "data"), ?(values_other "id"), ?(values_other "retry")
        by (first [done|by eapply Hother]); try done.
    rewrite (values_this "event" _ _ value) by (by rewrite Hval, Hev). by rewrite last_this.
  - assert (Hi' : block_id i (cur ++ [l]) = next_id (id d) value).
    { unfold block_id. rewrite (values_this "id" _ _ value) by (by rewrite Hval, Hid).
      rewrite foldl_app. simpl. by rewrite Hi. }
    unfold next_id in Hi'.
    destruct (bool_decide (NUL ∈ value)); split; cbn [set_id data event id retry seenData firstLine]; try done;
      unfold block_name, block_retry; rewrite ?(values_other "data"), ?(values_other "event"), ?(values_other "retry")
        by (first [done|by eapply Hother|by rewrite Hval, Hev]); done.
  - assert (Hr' : block_retry (cur ++ [l]) = next_retry (retry d) value).
    { unfold block_retry. rewrite (values_this "retry" _ _ value) by (by rewrite Hval, Hrt).
      rewrite foldl_app. simpl. by rewrite Hr. }
    unfold next_retry in Hr'.
    destruct (ParseInt value) as [ms|]; [destruct (0 <=? ms)|]; split;
      cbn [set_retry data event id retry seenData firstLine]; try done;
      unfold block_name, block_id; rewrite ?(values_other "data"), ?(values_other "event"), ?(values_other "id")
        by (first [done|by rewrite Hval, ?Hev, ?Hid]); done.
  - split; unfold block_name, block_id, block_retry;
      rewrite ?(values_other "data"), ?(values_other "event"), ?(values_other "id"), ?(values_other "retry")
        by (by rewrite Hval, ?Hdata, ?Hev, ?Hid, ?Hrt); done.
Qed.

Lemma dispatch_step d i cur :
  Assembled d i cur ->
  (dispatch d).1 = block_event i cur /\ Assembled (dispatch d).2 (block_id i cur) [].
Proof.
  intros [He Hd Hs Hi Hr Hf]. unfold dispatch, block_event. rewrite Hs.
  destruct (values "data" cur) as [|v vs] eqn:Hv; simpl.
  - split; [done|by split].
  - split; [by rewrite He, Hd, Hi, Hr|done].
Qed.

Lemma handle_line_step d i cur l :
  Assembled d i cur ->
  match handle_line d l with
  | (Ok evs, d') =>
      match l with
      | [] => evs = option_list (block_event i cur) /\ Assembled d' (block_id i cur) []
      | _ => evs = [] /\ Assembled d' i (cur ++ [l])
      end /\ maxEventBytes d' = maxEventBytes d
  | (Err _, _) => maxEventBytes d < blen l \/
                  l <> [] /\ maxEventBytes d < blen (join_lines (values "data" (cur ++ [l])))
  end.
Proof.
  intros Ha. pose proof (handle_line_frame d l) as Hfr. unfold handle_line in *. rewrite (as_first _ _ _ Ha) in *.
  destruct (Z.ltb_spec (maxEventBytes d) (blen l)); [by left|].
  destruct l as [|b l].
  - destruct (dispatch_step d i cur Ha) as (H1 & H2). destruct (dispatch d) as [e d']. simpl in *.
    destruct Hfr as (_ & _ & _ & Hm & _). split; [split; [by rewrite H1|done]|done].
  - pose proof (consumeField_step d i cur (b :: l) Ha) as Hc.
    destruct (consumeField d (b :: l)) as [[u|e] d']; [|by right].
    destruct Hfr as (_ & _ & _ & Hm & _). done.
Qed.

Lemma join_lines_prefix vs ws : blen (join_lines vs) <= blen (join_lines (vs ++ ws)).
Proof.
  induction ws as [|w ws IH] using rev_ind; [by rewrite app_nil_r|].
  rewrite app_assoc, join_lines_snoc. unfold blen in *. rewrite length_app.
  case_bool_decide as Hne; [rewrite length_app; lia|].
  destruct (vs ++ ws) as [|x l] eqn:He; [simpl in IH; lia|discriminate Hne].
Qed.

(** The block under way is the start of the next one. *)
Lemma blocks_head cur ls : exists rest bls, blocks cur ls = (cur ++ rest) :: bls.
Proof.
  revert cur. induction ls as [|l ls IH]; intros cur; simpl; [exists [], []; by rewrite app_nil_r|].
  destruct l as [|b l]; [exists [], (blocks [] ls); by rewrite app_nil_r|].
  destruct (IH (cur ++ [b :: l])) as (rest & bls & ->). exists ((b :: l) :: rest), bls. by rewrite <- app_assoc.
Qed.

Definition too_long (max : Z) (bl : list bytes) : Prop := max < blen (join_lines (values "data" bl)).

Lemma handle_lines_blocks ls d i cur :
  Assembled d i cur ->
  match handle_lines d ls with
  | (Ok evs, d') => evs ++ option_list (dispatch d').1 = block_events i (blocks cur ls)
  | (Err _, _) => Exists (λ l, maxEventBytes d < blen l) ls \/ Exists (too_long (maxEventBytes d)) (blocks cur ls)
  end.
Proof.
  revert d i cur. induction ls as [|l ls IH]; intros d i cur Ha; cbn [handle_lines blocks].
  { destruct (dispatch_step d i cur Ha) as (-> & _). simpl. by rewrite app_nil_r. }
  pose proof (handle_line_step d i cur l Ha) as Hl. destruct (handle_line d l) as [[evs|e] d'].
  - destruct Hl as (Hl & Hm).
    assert (Hd' : exists i' cur', Assembled d' i' cur' /\
      block_events i (blocks cur (l :: ls)) = evs ++ block_events i' (blocks cur' ls) /\
      (Exists (too_long (maxEventBytes d)) (blocks cur' ls) -> Exists (too_long (maxEventBytes d)) (blocks cur (l :: ls)))).
    { destruct l; destruct Hl as [-> Hl]; [exists (block_id i cur), []|exists i, (cur ++ [a :: l])];
        (split; [done|]); (split; [done|]); [by intros; right|done]. }
    destruct Hd' as (i' & cur' & Ha' & Hev & Hex). cbn [blocks] in Hev, Hex. rewrite Hev.
    specialize (IH d' i' cur' Ha'). rewrite Hm in IH. destruct (handle_lines d' ls) as [[evs'|e] d''].
    + by rewrite <- IH, <- app_assoc.
    + destruct IH as [?|?]; [left; by right|right; auto].
  - destruct Hl as [?|[Hne Hl]]; [left; by left|]. right. destruct l as [|b l]; [done|].
    destruct (blocks_head (cur ++ [b :: l]) ls) as (rest & bls & ->). left. unfold too_long.
    assert (Hv : values "data" ((cur ++ [b :: l]) ++ rest) = values "data" (cur ++ [b :: l]) ++ values "data" rest)
      by apply omap_app.
    rewrite Hv. pose proof (join_lines_prefix (values "data" (cur ++ [b :: l])) (values "data" rest)). lia.
Qed.

(** ** Whole streams *)

Lemma trim_bom_shorter l : blen (trim_bom l) <= blen l.
Proof. unfold trim_bom, blen. case_decide; [rewrite length_drop; lia|lia]. Qed.

Definition limit (max : Z) : Z := maxEventBytes (NewSSEDecoder max).

Lemma limit_pos max : 0 < limit max.
Proof. unfold limit, NewSSEDecoder. destruct (Z.leb_spec max 0); simpl; [|lia]. by vm_compute. Qed.

Lemma Assembled_new max : Assembled (clear_firstLine (assembling (NewSSEDecoder max))) [] [].
Proof. unfold NewSSEDecoder. by destruct (max <=? 0). Qed.

Lemma handle_lines_stream max bs :
  match handle_lines (assembling (NewSSEDecoder max)) (split_lines [] bs) with
  | (Ok evs, d') => evs ++ option_list (dispatch d').1 = stream_events bs
  | (Err _, _) => Exists (λ l, limit max < blen l) (split_lines [] bs) \/
                  Exists (too_long (limit max)) (blocks [] (stream_lines bs))
  end.
Proof.
  unfold stream_events, stream_lines. destruct (split_lines [] bs) as [|l ls]; [done|].
  set (d := assembling (NewSSEDecoder max)). set (d' := clear_firstLine d).
  pose proof (handle_lines_blocks (trim_bom l :: ls) d' [] [] (Assembled_new max)) as H.
  change (maxEventBytes d') with (limit max) in H. cbn [handle_lines] in H |- *.
  destruct (Z.ltb_spec (limit max) (blen l)) as [Hlong|Hok].
  { unfold handle_line. change (maxEventBytes d) with (limit max).
    destruct (Z.ltb_spec (limit max) (blen l)); [|lia]. left. by left. }
  assert (Hh : handle_line d l = handle_line d' (trim_bom l)).
  { unfold handle_line. change (maxEventBytes d) with (limit max). change (maxEventBytes d') with (limit max).
    assert (firstLine d = true) as -> by (unfold d, NewSSEDecoder; by destruct (max <=? 0)).
    change (firstLine d') with false. pose proof (trim_bom_shorter l).
    destruct (Z.ltb_spec (limit max) (blen l)); [lia|]. destruct (Z.ltb_spec (limit max) (blen (trim_bom l))); [lia|done]. }
  rewrite Hh. destruct (handle_line d' (trim_bom l)) as [[evs|e] d2].
  - destruct (handle_lines d2 ls) as [[evs'|e] d3]; [done|].
    destruct H as [H|H]; [|by right]. left. apply Exists_cons in H as [H|H]; [|by right].
    pose proof (trim_bom_shorter l). lia.
  - destruct H as [H|H]; [|by right]. left. apply Exists_cons in H as [H|H]; [|by right].
    pose proof (trim_bom_shorter l). lia.
Qed.

(** Feeding chunks handles the complete lines of what was read. *)
Lemma feeds_lines chunks d :
  closed d = false -> complete [] (buffer d) = ([], buffer d) ->
  match feeds d chunks with
  | (Ok evs, d') =>
      handle_lines (assembling d) (complete [] (buffer d ++ concat chunks)).1 = (Ok evs, assembling d') /\
      buffer d' = (complete [] (buffer d ++ concat chunks)).2 /\ closed d' = false
  | (Err e, _) =>
      (exists d', handle_lines (assembling d) (complete [] (buffer d ++ concat chunks)).1 = (Err e, d')) \/
      exists seen rest, concat chunks = seen ++ rest /\ maxEventBytes d < blen (complete [] (buffer d ++ seen)).2
  end.
Proof.
  revert d. induction chunks as [|chunk chunks IH]; intros d Hcl Hw; cbn [feeds concat].
  { rewrite app_nil_r, Hw. by simpl. }
  pose proof (Feed_lines d chunk Hcl Hw) as Hf.
  rewrite app_assoc, (complete_app [] (buffer d ++ chunk) (concat chunks) clean_nil). cbn [fst snd].
  rewrite handle_lines_app.
  destruct (handle_lines (assembling d) (complete [] (buffer d ++ chunk)).1) as [[evs|e] d'].
  2:{ destruct Hf as (d1 & ->). left. by exists d'. }
  destruct Hf as (d1 & <- & Hb & Hc1 & Hm & ->).
  destruct ((0 <? blen chunk) && (maxEventBytes d <? blen _))%bool eqn:Hlong.
  { right. exists chunk, (concat chunks). split; [done|]. to_prop. done. }
  specialize (IH d1 Hc1). rewrite Hb in IH. specialize (IH (complete_waits _)).
  destruct (feeds d1 chunks) as [[evs'|e] d2].
  - destruct IH as (-> & -> & ->). done.
  - destruct IH as [(d3 & ->)|(seen & rest & Hs & Hlen)]; [left; by exists d3|].
    right. exists (chunk ++ seen), rest. rewrite Hs, <- app_assoc. split; [done|].
    rewrite app_assoc, (complete_app [] (buffer d ++ chunk) seen clean_nil). cbn [snd]. lia.
Qed.

(** The line under way is the start of a line of the stream. *)
Lemma split_head cur bs : cur <> [] -> exists l ls, split_lines cur bs = l :: ls /\ blen cur <= blen l.
Proof.
  revert cur. induction bs as [|b bs IH]; intros cur Hne; simpl; [destruct cur; [done|]; by eexists _, _|].
  destruct (decide (b = LF)); [by eexists _, _|]. destruct (decide (b = CR)).
  - destruct bs as [|b' bs]; [by eexists _, _|]. destruct (decide (b' = LF)); by eexists _, _.
  - destruct (IH (cur ++ [b])) as (l & ls & -> & Hl); [by destruct cur|]. eexists _, _. split; [done|].
    unfold blen in *. rewrite length_app in Hl. lia.
Qed.

Lemma rest_bounded max seen rest :
  0 < max -> Forall (λ l, blen l < max) (split_lines [] (seen ++ rest)) -> blen (complete [] seen).2 <= max.
Proof.
  intros Hmax Hall. rewrite (split_complete [] _ clean_nil), (complete_app [] seen rest clean_nil) in Hall.
  cbn [fst snd] in Hall. rewrite <- app_assoc, <- (split_complete [] _ clean_nil) in Hall.
  apply Forall_app in Hall as [_ Hall].
  destruct (complete_rest [] seen clean_nil) as (l & Hl & [Hr|Hr]); rewrite Hr in *.
  - destruct l as [|b l]; [unfold blen; simpl; lia|]. rewrite (split_clean [] (b :: l)) in Hall by done.
    destruct (split_head ([] ++ b :: l) rest) as (l' & ls & He & Hlen); [done|]. rewrite He in Hall.
    apply Forall_cons in Hall as [Hall _]. simpl in Hlen, Hall. unfold blen in *. simpl in *. lia.
  - rewrite <- app_assoc, (split_clean [] l) in Hall by done.
    assert (exists ls, split_lines ([] ++ l) ([CR] ++ rest) = l :: ls) as [ls He].
    { simpl. destruct rest as [|b rest]; [by eexists|]. destruct (decide (b = LF)); by eexists. }
    rewrite He in Hall. apply Forall_cons in Hall as [Hall _]. unfold blen in *. rewrite length_app. simpl. lia.
Qed.

(** Streams whose lines are below the limit and whose events do not exceed it. *)
Definition fits (max : Z) (bs : bytes) : Prop :=
  Forall (λ l, blen l < max) (split_lines [] bs) /\
  Forall (λ bl, blen (join_lines (values "data" bl)) <= max) (blocks [] (stream_lines bs)).

Lemma Close_lines d :
  closed d = false ->
  match handle_lines (assembling d) (split_lines [] (buffer d)) with
  | (Ok evs, d') => (Close d).1 = Ok (evs ++ option_list (dispatch d').1)
  | (Err e, _) => (Close d).1 = Err e
  end.
Proof.
  intros Hcl. unfold Close. rewrite Hcl. pose proof (consumeLines_true (S (length (buffer d))) [] (set_closed d)) as H.
  change (assembling (set_closed d)) with (assembling d) in H. change (buffer (set_closed d)) with (buffer d) in *.
  destruct (handle_lines (assembling d) (split_lines [] (buffer d))) as [[evs|e] d'].
  - destruct H as (d1 & -> & <-); [lia|]. unfold dispatch. simpl. by destruct (seenData d1).
  - destruct H as (d1 & ->); [lia|done].
Qed.

Lemma decode_agrees max chunks :
  (forall evs, decode max chunks = Ok evs -> evs = stream_events (concat chunks)) /\
  (fits (limit max) (concat chunks) -> decode max chunks = Ok (stream_events (concat chunks))).
Proof.
  set (bs := concat chunks). set (d0 := NewSSEDecoder max).
  assert (Hc0 : closed d0 = false /\ buffer d0 = []) by (unfold d0, NewSSEDecoder; by destruct (max <=? 0)).
  destruct Hc0 as [Hcl Hb0]. pose proof (feeds_lines chunks d0 Hcl) as Hf. rewrite Hb0 in Hf.
  specialize (Hf eq_refl). simpl app in Hf. fold bs in Hf.
  pose proof (handle_lines_stream max bs) as Hs. fold d0 in Hs.
  rewrite (split_complete [] bs clean_nil), handle_lines_app in Hs.
  unfold decode. fold d0. destruct (feeds d0 chunks) as [[evs|e] d1].
  - destruct Hf as (Hh & Hb & Hc1). rewrite Hh, <- Hb in Hs. pose proof (Close_lines d1 Hc1) as Hcz.
    destruct (handle_lines (assembling d1) (split_lines [] (buffer d1))) as [[evs'|e] d2]; rewrite Hcz.
    + rewrite app_assoc, Hs. split; [by intros ? [= <-]|done].
    + split; [done|]. intros [Hl Hbl]. rewrite Hb in Hs. rewrite <- (split_complete [] bs clean_nil) in Hs.
      destruct Hs as [Hs|Hs]; apply Exists_exists in Hs as (x & Hx & Hlt);
        [rewrite Forall_forall in Hl; specialize (Hl _ Hx); lia|].
      rewrite Forall_forall in Hbl. specialize (Hbl _ Hx). unfold too_long in Hlt. lia.
  - split; [done|]. intros [Hl Hbl]. destruct Hf as [(d2 & Hh)|(seen & rest & Heq & Hlen)].
    + rewrite Hh in Hs. rewrite <- (split_complete [] bs clean_nil) in Hs.
      destruct Hs as [Hs|Hs]; apply Exists_exists in Hs as (x & Hx & Hlt);
        [rewrite Forall_forall in Hl; specialize (Hl _ Hx); lia|].
      rewrite Forall_forall in Hbl. specialize (Hbl _ Hx). unfold too_long in Hlt. lia.
    + rewrite Heq in Hl. pose proof (rest_bounded (limit max) seen rest (limit_pos max) Hl).
      change (maxEventBytes d0) with (limit max) in Hlen. lia.
Qed.

(** C11.  However an event stream is cut into chunks, when the decoder accepts
    it the events are exactly those of the reference reading of the whole
    stream: lines ended by LF, CR LF or CR, a leading byte-order mark dropped,
    blocks ended by empty lines or the end of the stream.  It accepts every
    stream whose lines are shorter than the limit and whose events' data do
    not exceed it. *)
Theorem sse_decodes max chunks :
  (forall evs, decode max chunks = Ok evs -> evs = stream_events (concat chunks)) /\
  (fits (limit max) (concat chunks) -> decode max chunks = Ok (stream_events (concat chunks))).
Proof. exact (decode_agrees max chunks). Qed.

(** ** Bounds *)

Record Bounded (d : SSEDecoder) : Prop := {
  bd_max : 0 < maxEventBytes d;
  bd_data : blen (data d) <= maxEventBytes d;
}.

Definition small (max : Z) (evs : list SSEEvent) : Prop := Forall (λ e, blen (Data e) <= max) evs.

Lemma dispatch_bounded d :
  Bounded d -> Bounded (dispatch d).2 /\ small (maxEventBytes d) (option_list (dispatch d).1).
Proof.
  intros [H1 H2]. unfold dispatch, small. destruct (seenData d); simpl.
  - split; [split; simpl; [done|unfold blen; simpl; lia]|by apply Forall_singleton].
  - split; [by split|constructor].
Qed.

Lemma consumeField_bounded d l : Bounded d -> Bounded (consumeField d l).2.
Proof.
  intros [H1 H2]. unfold consumeField. destruct (decide _); [by split|].
  destruct (split_field l) as [field value]. destruct (field_is "data" field).
  { destruct (Z.ltb_spec (maxEventBytes d) (blen (data d) + (blen value + (if seenData d then 1 else 0)))); [by split|].
    split; simpl; [done|]. unfold blen in *. rewrite length_app. destruct (seenData d); rewrite ?length_app; simpl; lia. }
  destruct (field_is "event" field); [by split|].
  destruct (field_is "id" field); [by destruct (bool_decide (NUL ∈ value))|].
  destruct (field_is "retry" field); [|by split].
  destruct (ParseInt value) as [ms|]; [destruct (0 <=? ms)|]; by split.
Qed.

Lemma handle_line_bounded d l evs d' :
  Bounded d -> handle_line d l = (Ok evs, d') -> Bounded d' /\ small (maxEventBytes d) evs.
Proof.
  intros Hb. unfold handle_line. destruct (_ <? _); [done|].
  set (d1 := if firstLine d then clear_firstLine d else d).
  assert (Hd1 : Bounded d1 /\ maxEventBytes d1 = maxEventBytes d) by (split; [|by unfold d1; destruct (firstLine d)]; destruct Hb; by unfold d1; destruct (firstLine d)).
  destruct Hd1 as [Hd1 Hmx]; rewrite <- Hmx. clearbody d1. clear Hmx.
  destruct (if firstLine d then trim_bom l else l) as [|b l'].
  - pose proof (dispatch_bounded d1 Hd1) as H. destruct (dispatch d1) as [e d2]. by intros [= <- <-].
  - pose proof (consumeField_bounded d1 (b :: l') Hd1) as H. destruct (consumeField d1 (b :: l')) as [[u|e] d2]; [|done].
    intros [= <- <-]. split; [done|constructor].
Qed.

Lemma consumeLines_bounded fuel events d atEOF evs d' :
  Bounded d -> small (maxEventBytes d) events -> consumeLines fuel events d atEOF = (Ok evs, d') ->
  Bounded d' /\ maxEventBytes d' = maxEventBytes d /\ small (maxEventBytes d) evs.
Proof.
  revert events d. induction fuel as [|fuel IH]; intros events d Hb Hs; cbn [consumeLines]; [by intros [= <- <-]|].
  destruct (nextSSELine (buffer d) atEOF) as [[l n]|]; [|by intros [= <- <-]].
  set (d1 := set_buffer (drop n (buffer d)) d). assert (Hb1 : Bounded d1) by (destruct Hb; done).
  pose proof (handle_line_frame d1 l) as Hfr.
  destruct (handle_line d1 l) as [[evs1|e] d2] eqn:Hh; [|done].
  destruct (handle_line_bounded _ _ _ _ Hb1 Hh) as [Hb2 Hs2]. destruct Hfr as (_ & _ & Hc & Hm & _).
  change (maxEventBytes d1) with (maxEventBytes d) in *.
  intros H. destruct (IH (events ++ evs1) d2 Hb2) as (? & ? & ?); [rewrite Hm; by apply Forall_app|done|].
  by rewrite Hm in *.
Qed.

Lemma consumeLines_closed fuel events d atEOF : closed (consumeLines fuel events d atEOF).2 = closed d.
Proof.
  revert events d. induction fuel as [|fuel IH]; intros events d; cbn [consumeLines]; [done|].
  destruct (nextSSELine (buffer d) atEOF) as [[l n]|]; [|done].
  pose proof (handle_line_frame (set_buffer (drop n (buffer d)) d) l) as Hfr.
  destruct (handle_line _ l) as [[evs1|e] d2]; destruct Hfr as (_ & _ & Hc & _); [by rewrite IH|done].
Qed.

Lemma Feed_bounded d chunk evs d' :
  Bounded d -> blen (buffer d) <= maxEventBytes d -> Feed d chunk = (Ok evs, d') ->
  Bounded d' /\ maxEventBytes d' = maxEventBytes d /\ blen (buffer d') <= maxEventBytes d /\
  small (maxEventBytes d) evs.
Proof.
  intros Hb Hbuf. unfold Feed. destruct (closed d); [done|].
  destruct (blen chunk =? 0); [intros [= <- <-]; split_and!; try done; apply Forall_nil_2|].
  set (d1 := set_buffer (buffer d ++ chunk) d). assert (Hb1 : Bounded d1) by (destruct Hb; done).
  destruct (consumeLines _ [] d1 false) as [[evs1|e] d2] eqn:Hc; [|done].
  destruct (consumeLines_bounded _ _ _ _ _ _ Hb1 (Forall_nil_2 _) Hc) as (? & Hm & ?).
  change (maxEventBytes d1) with (maxEventBytes d) in *.
  destruct (Z.ltb_spec (maxEventBytes d2) (blen (buffer d2))); [done|]. intros [= <- <-]. split_and!; try done. lia.
Qed.

Lemma feeds_bounded chunks d0 evs d :
  Bounded d0 -> blen (buffer d0) <= maxEventBytes d0 -> feeds d0 chunks = (Ok evs, d) ->
  Bounded d /\ maxEventBytes d = maxEventBytes d0 /\ blen (buffer d) <= maxEventBytes d0 /\
  small (maxEventBytes d0) evs.
Proof.
  revert d0 evs. induction chunks as [|chunk chunks IH]; intros d0 evs Hb Hbuf; cbn [feeds].
  { intros [= <- ->]. split_and!; try done. apply Forall_nil_2. }
  destruct (Feed d0 chunk) as [[evs1|e] d1] eqn:Hfeed; [|done].
  destruct (Feed_bounded _ _ _ _ Hb Hbuf Hfeed) as (Hb1 & Hm1 & Hbuf1 & Hs1).
  destruct (feeds d1 chunks) as [[evs2|e] d2] eqn:Hrest; [|done]. intros [= <- ->].
  destruct (IH d1 evs2) as (? & ? & ? & ?); try done; [by rewrite Hm1|].
  rewrite Hm1 in *. split_and!; try done. by apply Forall_app.
Qed.

Lemma Bounded_new max : Bounded (NewSSEDecoder max) /\ buffer (NewSSEDecoder max) = [].
Proof.
  pose proof (limit_pos max) as H. unfold limit in H.
  split; [|unfold NewSSEDecoder; by destruct (max <=? 0)]. split; [done|].
  assert (data (NewSSEDecoder max) = []) as -> by (unfold NewSSEDecoder; by destruct (max <=? 0)).
  unfold blen. cbn [length]. lia.
Qed.

Lemma Close_bounded d evs : Bounded d -> (Close d).1 = Ok evs -> small (maxEventBytes d) evs.
Proof.
  intros Hb. unfold Close. destruct (closed d); [done|].
  destruct (consumeLines _ [] (set_closed d) true) as [[evs1|e] d1] eqn:Hc; [|done].
  assert (Hb0 : Bounded (set_closed d)) by (by destruct Hb).
  destruct (consumeLines_bounded _ _ _ _ _ _ Hb0 (Forall_nil_2 _) Hc) as (Hb1 & Hm1 & Hs1). simpl in Hm1, Hs1.
  destruct (dispatch_bounded d1 Hb1) as [_ Hs2]. destruct (dispatch d1) as [e d2]. intros [= <-].
  rewrite Hm1 in *. by apply Forall_app.
Qed.

Lemma Close_closed d : closed (Close d).2 = true.
Proof.
  unfold Close. destruct (closed d) eqn:Hcl; [done|].
  pose proof (consumeLines_closed (S (length (buffer (set_closed d)))) [] (set_closed d) true) as Hc.
  destruct (consumeLines _ [] (set_closed d) true) as [[evs1|e] d1]; [|done].
  unfold dispatch. by destruct (seenData d1).
Qed.

(** C12.  What the decoder holds is bounded: after any chunks it accepted, the
    unfinished line and the data collected are at most the limit (1 MiB when
    none is set), and so is the data of every event it returns, at the close
    too.  Once closed it refuses everything and changes no more. *)
Theorem sse_bounded max chunks evs d :
  feeds (NewSSEDecoder max) chunks = (Ok evs, d) ->
  blen (buffer d) <= limit max /\ blen (data d) <= limit max /\ small (limit max) evs /\
  (forall evs', (Close d).1 = Ok evs' -> small (limit max) evs') /\
  (forall chunk, let d' := (Close d).2 in Feed d' chunk = (Err ErrClosed, d') /\ Close d' = (Err ErrClosed, d')).
Proof.
  intros Hfeeds. destruct (Bounded_new max) as [Hb0 Hbuf0].
  assert (Hbuf1 : blen (buffer (NewSSEDecoder max)) <= maxEventBytes (NewSSEDecoder max)).
  { rewrite Hbuf0. pose proof (limit_pos max). unfold limit, blen in *. cbn [length]. lia. }
  destruct (feeds_bounded chunks _ evs d Hb0 Hbuf1 Hfeeds) as (Hb & Hm & Hbuf & Hs).
  fold (limit max) in *. split; [done|]. split; [rewrite <- Hm; apply Hb|]. split; [done|]. split.
  - intros evs' Hc. rewrite <- Hm. by apply Close_bounded.
  - intros chunk. pose proof (Close_closed d) as Hc. cbn zeta. set (d' := (Close d).2) in *. clearbody d'.
    unfold Feed, Close. by rewrite Hc.
Qed.

(** ** Concrete streams *)

Abbreviation B := String.list_ascii_of_string.
Definition crlf : bytes := [CR; LF].

(** A byte-order mark, a comment, two data lines and an unfinished event, cut
    inside CR LF. *)
Definition demo_chunks : list bytes :=
  [BOM ++ B ": hello" ++ crlf ++ B "event: delta" ++ [CR]; [LF] ++ B "data: a" ++ crlf ++ B "da"; [];
   B "ta:b" ++ [LF; LF] ++ B "id: 7" ++ [CR] ++ B "data: c"].

Lemma sse_decodes_witness :
  decode 64 demo_chunks =
    Ok [mkSSEEvent (B "delta") (B "a" ++ [LF] ++ B "b") [] None; mkSSEEvent [] (B "c") (B "7") None].
Proof.
  assert (H : decode 64 demo_chunks = Ok (stream_events (concat demo_chunks))).
  { apply (sse_decodes 64 demo_chunks). split.
    - assert (Hl : forallb (λ l, blen l <? limit 64) (split_lines [] (concat demo_chunks)) = true)
        by (vm_compute; reflexivity).
      apply Forall_forall. intros l Hin. rewrite forallb_forall in Hl. apply Z.ltb_lt, Hl.
      by apply list_elem_of_In.
    - assert (Hl : forallb (λ bl, blen (join_lines (values "data" bl)) <=? limit 64)
                     (blocks [] (stream_lines (concat demo_chunks))) = true) by (vm_compute; reflexivity).
      apply Forall_forall. intros l Hin. rewrite forallb_forall in Hl. apply Z.leb_le, Hl.
      by apply list_elem_of_In. }
  rewrite H. vm_compute. reflexivity.
Defined.

Lemma sse_bounded_witness :
  let d := (feeds (NewSSEDecoder 64) demo_chunks).2 in
  blen (buffer d) <= limit 64 /\ Close (Close d).2 = (Err ErrClosed, (Close d).2).
Proof.
  destruct (feeds (NewSSEDecoder 64) demo_chunks) as [[evs|e] d] eqn:He; [|vm_compute in He; discriminate].
  destruct (sse_bounded 64 demo_chunks evs d He) as (H1 & _ & _ & _ & H2). split; [exact H1|].
  exact (proj2 (H2 [])).
Defined.

(** A line of exactly the limit is accepted in one chunk, and refused when the
    chunk ends between its CR and LF. *)
Lemma chunk_boundary_refused :
  decode 8 [B "data: ab" ++ crlf] = Ok [mkSSEEvent [] (B "ab") [] None] /\
  decode 8 [B "data: ab" ++ [CR]; [LF]] = Err ErrLineTooLong.
Proof. split; vm_compute; reflexivity. Qed.

(** A sign is accepted where the event-stream format asks for digits only. *)
Lemma retry_sign_accepted :
  decode 64 [B "retry: +5" ++ [LF] ++ B "data: x" ++ [LF; LF]] = Ok [mkSSEEvent [] (B "x") [] (Some 5)].
Proof. vm_compute. reflexivity. Qed.
