(* ===== verification/Canonical.v ===== *)
(** * The canonical data model

    Models the provider-neutral types of [src/internal/canonical] ([errors.go],
    [chat.go], [content.go], [tools.go], [reasoning.go], [usage.go],
    [stream.go]) and [src/internal/execution/types.go], with the error values
    of [src/internal/requestflow/types.go] the workflow tells apart.

    Raw JSON is kept as its bytes, a UUID as its text.  Field names that would
    clash carry a short prefix. *)

From Stdlib Require Export QArith.
From S2P Require Import Prelude GoStrings.

Local Open Scope Z_scope.

Definition UUID : Type := string.
Definition uuid_Nil : UUID := "00000000-0000-0000-0000-000000000000".

(** ** Errors *)

Inductive ErrorKind :=
| ErrorInvalidRequest
| ErrorAuthentication
| ErrorPermission
| ErrorQuota
| ErrorAdmissionTimeout
| ErrorRateLimit
| ErrorUnsupportedCapability
| ErrorProviderConfiguration
| ErrorProviderTemporary
| ErrorProviderPermanent
| ErrorStreamInterrupted
| ErrorUncertain
| ErrorStorageUnavailable
| ErrorInternalInvariant.

#[export] Instance ErrorKind_eq_dec : EqDecision ErrorKind.
Proof. solve_decision. Defined.

Record RetryAfter := mkRetryAfter {
  DelaySeconds : option Z;
  At : option Z;
}.

(** [canonical.Error], over the type of its cause. *)
Record ErrorOf (C : Type) := mkError {
  Kind : ErrorKind;
  Code : string;
  Message : string;
  Parameter_ : string;
  Provider : string;
  ProviderType : string;
  EModel : string;
  Capability_ : string;
  ERequestID : string;
  HTTPStatus : Z;
  RetryAfter_ : option RetryAfter;
  ReplaySafe : bool;
  Cause : option C;
}.
Arguments mkError {C}.
Arguments Kind {C} e.
Arguments Code {C} e.
Arguments Message {C} e.
Arguments Parameter_ {C} e.
Arguments Provider {C} e.
Arguments ProviderType {C} e.
Arguments EModel {C} e.
Arguments Capability_ {C} e.
Arguments ERequestID {C} e.
Arguments HTTPStatus {C} e.
Arguments RetryAfter_ {C} e.
Arguments ReplaySafe {C} e.
Arguments Cause {C} e.

(** Go errors: the sentinel values the code compares with, [CapacityError],
    a [canonical.Error], an error wrapped with [%w], and any other. *)
Inductive GoError :=
| ErrContextCanceled
| ErrContextDeadline
| ErrFenced
| ErrNotClaimable
| ErrModelNotFound
| ErrModelNotAuthorized
| ErrNoEligibleUpstream
| ErrCoordinationFailed
| ErrAdmissionQueueFull
| ErrAdmissionTimedOut
| ErrAdmissionCanceled
| ErrIdempotencyConflict
| ErrInvalidAccounting
| CapacityError (RetryAt : Z)
| CanonicalError (e : ErrorOf GoError)
| Wrapped (message : string) (inner : GoError)
| OtherError (message : string).

Definition Error : Type := ErrorOf GoError.

(** [errors.Is(err, target)] for a sentinel, [is_target] being the comparison
    with it: the error itself or one it unwraps to. *)
Fixpoint errors_Is (is_target : GoError -> bool) (err : GoError) : bool :=
  (is_target err ||
   match err with
   | CanonicalError (mkError _ _ _ _ _ _ _ _ _ _ _ _ (Some cause)) => errors_Is is_target cause
   | Wrapped _ inner => errors_Is is_target inner
   | _ => false
   end)%bool.

Definition is_ContextCanceled (e : GoError) : bool := match e with ErrContextCanceled => true | _ => false end.
Definition is_Fenced (e : GoError) : bool := match e with ErrFenced => true | _ => false end.
Definition is_ModelNotFound (e : GoError) : bool := match e with ErrModelNotFound => true | _ => false end.
Definition is_ModelNotAuthorized (e : GoError) : bool := match e with ErrModelNotAuthorized => true | _ => false end.
Definition is_IdempotencyConflict (e : GoError) : bool := match e with ErrIdempotencyConflict => true | _ => false end.
Definition is_InvalidAccounting (e : GoError) : bool := match e with ErrInvalidAccounting => true | _ => false end.
Definition is_AdmissionQueueFull (e : GoError) : bool := match e with ErrAdmissionQueueFull => true | _ => false end.
Definition is_AdmissionTimedOut (e : GoError) : bool := match e with ErrAdmissionTimedOut => true | _ => false end.
Definition is_AdmissionCanceled (e : GoError) : bool := match e with ErrAdmissionCanceled => true | _ => false end.
Definition is_CoordinationFailed (e : GoError) : bool := match e with ErrCoordinationFailed => true | _ => false end.

(** [errors.As(err, &capacityError)] *)
Fixpoint as_CapacityError (err : GoError) : option Z :=
  match err with
  | CapacityError at_ => Some at_
  | CanonicalError (mkError _ _ _ _ _ _ _ _ _ _ _ _ (Some cause)) => as_CapacityError cause
  | Wrapped _ inner => as_CapacityError inner
  | _ => None
  end.

(** [errors.As(err, &providerError)]: the outermost canonical error. *)
Fixpoint as_Error (err : GoError) : option Error :=
  match err with
  | CanonicalError e => Some e
  | Wrapped _ inner => as_Error inner
  | _ => None
  end.

(** An error literal with the remaining fields zero. *)
Definition new_error (kind : ErrorKind) (code message : string) : Error :=
  mkError kind code message "" "" "" "" "" "" 0 None false None.

Definition with_cause (e : Error) (cause : GoError) : Error :=
  mkError (Kind e) (Code e) (Message e) (Parameter_ e) (Provider e) (ProviderType e) (EModel e) (Capability_ e)
    (ERequestID e) (HTTPStatus e) (RetryAfter_ e) (ReplaySafe e) (Some cause).
Definition with_parameter (e : Error) (p : string) : Error :=
  mkError (Kind e) (Code e) (Message e) p (Provider e) (ProviderType e) (EModel e) (Capability_ e)
    (ERequestID e) (HTTPStatus e) (RetryAfter_ e) (ReplaySafe e) (Cause e).
Definition with_status (e : Error) (status : Z) : Error :=
  mkError (Kind e) (Code e) (Message e) (Parameter_ e) (Provider e) (ProviderType e) (EModel e) (Capability_ e)
    (ERequestID e) status (RetryAfter_ e) (ReplaySafe e) (Cause e).
Definition with_retry_at (e : Error) (at_ : Z) : Error :=
  mkError (Kind e) (Code e) (Message e) (Parameter_ e) (Provider e) (ProviderType e) (EModel e) (Capability_ e)
    (ERequestID e) (HTTPStatus e) (Some (mkRetryAfter None (Some at_))) (ReplaySafe e) (Cause e).

(** ** Messages, tools and requests *)

Inductive Role := RoleSystem | RoleDeveloper | RoleUser | RoleAssistant | RoleTool | RoleOther (s : string).

#[export] Instance Role_eq_dec : EqDecision Role.
Proof. solve_decision. Defined.

Inductive ContentPartType :=
| ContentPartText | ContentPartImageURL | ContentPartVideoURL | ContentPartOther (s : string).

#[export] Instance ContentPartType_eq_dec : EqDecision ContentPartType.
Proof. solve_decision. Defined.

Record ImageURL := mkImageURL { ImURL : string; ImDetail : string }.
Record VideoURL := mkVideoURL { ViURL : string }.

Record ContentPart := mkContentPart {
  CpType : ContentPartType;
  CpText : string;
  CpImageURL : option ImageURL;
  CpVideoURL : option VideoURL;
}.

Definition TextContent (text : string) : list ContentPart := [mkContentPart ContentPartText text None None].

Record ToolFunctionCall := mkToolFunctionCall { TfName : string; TfArguments : string }.
Record ToolCall := mkToolCall { TcID : string; TcType : string; TcFunction : ToolFunctionCall }.

Record ToolDefinition := mkToolDefinition {
  TdName : string;
  TdDescription : string;
  TdParameters : string;
  TdStrict : option bool;
}.

Record ToolCallDelta := mkToolCallDelta {
  DeIndex : Z;
  DeID : string;
  DeType : string;
  DeFunctionName : string;
  DeArgumentsFragment : string;
}.

Inductive ToolChoiceMode :=
| ToolChoiceNone | ToolChoiceAuto | ToolChoiceRequired | ToolChoiceFunction | ToolChoiceOther (s : string).

Definition mode_string (m : ToolChoiceMode) : string :=
  match m with
  | ToolChoiceNone => "none" | ToolChoiceAuto => "auto" | ToolChoiceRequired => "required"
  | ToolChoiceFunction => "function" | ToolChoiceOther s => s
  end.

Record ToolChoice := mkToolChoice { Mode : ToolChoiceMode; ChFunctionName : string }.

Inductive ReasoningEffort :=
| ReasoningEffortNone | ReasoningEffortMinimal | ReasoningEffortLow | ReasoningEffortMedium
| ReasoningEffortHigh | ReasoningEffortXHigh | ReasoningEffortMax | ReasoningEffortOther (s : string).

Definition effort_string (e : ReasoningEffort) : string :=
  match e with
  | ReasoningEffortNone => "none" | ReasoningEffortMinimal => "minimal" | ReasoningEffortLow => "low"
  | ReasoningEffortMedium => "medium" | ReasoningEffortHigh => "high" | ReasoningEffortXHigh => "xhigh"
  | ReasoningEffortMax => "max" | ReasoningEffortOther s => s
  end.

Record ReasoningConfig := mkReasoningConfig {
  Enabled : option bool;
  Effort : ReasoningEffort;
  Preserve : option bool;
}.

Record ReasoningContent := mkReasoningContent { RcText : string }.

Record ChatMessage := mkMessage {
  MsRole : Role;
  MsName : string;
  MsContent : list ContentPart;
  MsPartial : bool;
  MsToolCalls : list ToolCall;
  MsToolCallID : string;
  MsReasoning : option ReasoningContent;
}.

Inductive ResponseFormatType :=
| ResponseFormatText | ResponseFormatJSONObject | ResponseFormatJSONSchema | ResponseFormatOther (s : string).

#[export] Instance ResponseFormatType_eq_dec : EqDecision ResponseFormatType.
Proof. solve_decision. Defined.

Record JSONSchema := mkJSONSchema {
  JsName : string;
  JsDescription : string;
  JsSchema : string;
  JsStrict : option bool;
}.

Record ResponseFormat := mkResponseFormat { RfType : ResponseFormatType; RfJSONSchema : option JSONSchema }.

(** A finite [float64] is a rational; the code only compares them. *)
Record ChatRequest := mkChatRequest {
  CrRequestID : string;
  CrModel : string;
  Messages : list ChatMessage;
  Tools : list ToolDefinition;
  ToolChoice_ : option ToolChoice;
  ParallelToolCalls : option bool;
  Stream_ : bool;
  StreamUsage_ : option bool;
  MaxOutputTokens : option Z;
  N_ : option Z;
  Temperature : option Q;
  TopP : option Q;
  TopK : option Q;
  PresencePenalty : option Q;
  FrequencyPenalty : option Q;
  ThinkingBudget : option Z;
  Stop : list string;
  ResponseFormat_ : option ResponseFormat;
  Reasoning_ : option ReasoningConfig;
  PromptCacheKey : string;
  SafetyIdentifier : string;
}.

(** ** Usage and responses *)

Inductive UsageSource := UsageAuthoritative | UsageEstimated | UsageUnknown | UsageSourceOther (s : string).

#[export] Instance UsageSource_eq_dec : EqDecision UsageSource.
Proof. solve_decision. Defined.

(** [canonical.Usage]: counters the upstream may have left out. *)
Record ReportedUsage := mkReportedUsage {
  RuInputTokens : option Z;
  RuOutputTokens : option Z;
  RuTotalTokens : option Z;
  RuCachedInputTokens : option Z;
  RuCacheMissInputTokens : option Z;
  RuReasoningTokens : option Z;
  RuSource : UsageSource;
}.

Inductive FinishReason :=
| FinishReasonStop | FinishReasonLength | FinishReasonToolCalls | FinishReasonContentFilter
| FinishReasonOther (s : string).

Record ChatChoice := mkChatChoice { CcIndex : Z; CcMessage : ChatMessage; CcFinishReason : FinishReason }.

Record ChatResponse := mkChatResponse {
  RsID : string;
  RsRequestID : string;
  RsModel : string;
  RsCreatedAt : Z;
  RsChoices : list ChatChoice;
  RsUsage : option ReportedUsage;
}.

(** ** Stream events *)

Inductive StreamEventType :=
| StreamMessageStart | StreamContentDelta | StreamReasoningDelta | StreamToolCallDelta
| StreamFinish | StreamUsageEvent | StreamErrorEvent | StreamDone | StreamOther (s : string).

#[export] Instance StreamEventType_eq_dec : EqDecision StreamEventType.
Proof. solve_decision. Defined.

Record StreamEvent := mkStreamEvent {
  SeType : StreamEventType;
  SeCompletionID : string;
  SeRequestID : string;
  SeModel : string;
  SeCreatedAt : Z;
  SeChoiceIndex : Z;
  SeRole : Role;
  SeContentDelta : string;
  SeReasoningDelta : string;
  SeToolCallDelta : option ToolCallDelta;
  SeFinishReason : FinishReason;
  SeUsage : option ReportedUsage;
  SeError : option Error;
}.

(** ** Execution claims *)

Record Claim := mkClaim {
  ClRequestID : UUID;
  ClExecutionID : UUID;
  ClGeneration : Z;
}.

Definition Claim_Valid (c : Claim) : bool :=
  (negb (bool_decide (ClRequestID c = uuid_Nil)) && negb (bool_decide (ClExecutionID c = uuid_Nil)) &&
   (0 <? ClGeneration c))%bool.
