(* ===== verification/Capabilities.v ===== *)
(** * What a model supports and what a request costs

    Models [validateCapabilities] and its helpers in
    [src/internal/requestflow/service.go], [src/internal/requestflow/estimate.go],
    the capability record of [src/internal/registry/types.go] and the parameter
    limits of [src/internal/providers/capabilities.go]. *)

From stdpp Require Import pretty.
From S2P Require Import Prelude GoStrings Canonical.

Local Open Scope Z_scope.

(** ** Capability records *)

Record IntegerParameterLimit := mkIntegerLimit {
  IlSupported : bool;
  IlMinimum : option Z;
  IlMaximum : option Z;
  IlExactValues : list Z;
}.

Record NumberParameterLimit := mkNumberLimit {
  NlSupported : bool;
  NlMinimum : option Q;
  NlMaximum : option Q;
  NlExactValues : list Q;
}.

Record SamplingCondition := mkSamplingCondition {
  ScThinkingEnabled : option bool;
  ScTemperatureExact : option Q;
  ScTemperatureAtMost : option Q;
  ScNMaximum : option Z;
}.

Record ParameterCapabilities := mkParameterCapabilities {
  PcMaxOutputTokens : IntegerParameterLimit;
  PcTemperature : NumberParameterLimit;
  PcTopP : NumberParameterLimit;
  PcPresencePenalty : NumberParameterLimit;
  PcFrequencyPenalty : NumberParameterLimit;
  PcN : IntegerParameterLimit;
  PcTopK : NumberParameterLimit;
  PcThinkingBudget : IntegerParameterLimit;
  PcSamplingConditions : list SamplingCondition;
}.

Inductive ReasoningMode :=
| ReasoningToggle | ReasoningEffortMode | ReasoningHybrid | ReasoningAlwaysOnMode | ReasoningModeOther (s : string).

#[export] Instance ReasoningMode_eq_dec : EqDecision ReasoningMode.
Proof. solve_decision. Defined.

Record ModelCapabilities := mkModelCapabilities {
  McChat : bool;
  McStreaming : bool;
  McTools : bool;
  McToolChoiceModes : list string;
  McStrictTools : bool;
  McParallelToolCalls : bool;
  McToolStreaming : bool;
  McImageInput : bool;
  McVideoInput : bool;
  McPartialMode : bool;
  McReasoning : bool;
  McReasoningMode : ReasoningMode;
  McReasoningAlwaysOn : bool;
  McReasoningDefaultEnabled : bool;
  McReasoningConfig : bool;
  McReasoningContent : bool;
  McReasoningPreserve : bool;
  McReasoningEfforts : list string;
  McToolChoiceModesWithReasoning : list string;
  McStructuredOutput : bool;
  McJSONSchemaOutput : bool;
  McMessageName : bool;
  McPromptCacheKey : bool;
  McSafetyIdentifier : bool;
  McResponseUsage : bool;
  McStreamUsage : bool;
  McContextTokens : Z;
  McOutputTokens : Z;
  McParameters : ParameterCapabilities;
}.

(** [requestflow.Model] *)
Record Model := mkModel {
  MoID : UUID;
  MoPublicName : string;
  MoUpstreamName : string;
  MoProviderID : UUID;
  MoProviderSlug : string;
  MoProviderKind : string;
  MoProviderBaseURL : string;
  MoCapabilities : ModelCapabilities;
  MoCreatedAt : Z;
}.

(** ** Validation *)

Definition StatusBadRequest : Z := 400.

(** A sequence of checks, each returning from the function when it fails. *)
Fixpoint first_failure (checks : list (option Error)) : option Error :=
  match checks with
  | [] => None
  | Some e :: _ => Some e
  | None :: checks' => first_failure checks'
  end.

Definition model_error (model : Model) (kind : ErrorKind) (code message parameter capability : string) : Error :=
  mkError kind code message parameter (MoProviderSlug model) "" (MoPublicName model) capability "" StatusBadRequest
    None false None.

Definition unsupported (model : Model) (capability parameter reason : string) : Error :=
  model_error model ErrorUnsupportedCapability "model_capability_unsupported" reason parameter capability.

Definition parameterInvalid (model : Model) (capability parameter message : string) : Error :=
  model_error model ErrorInvalidRequest "model_parameter_invalid" message parameter capability.

Definition reasoningEnabledForModel (capabilities : ModelCapabilities) (request : ChatRequest) : bool :=
  match Reasoning_ request with
  | Some (mkReasoningConfig (Some enabled) _ _) => enabled
  | _ => (McReasoningAlwaysOn capabilities || McReasoningDefaultEnabled capabilities)%bool
  end.

Definition containsCapability (values : list string) (value : string) : bool := existsb (String.eqb value) values.
Definition containsIntegerParameter (values : list Z) (value : Z) : bool := existsb (Z.eqb value) values.
Definition containsNumberParameter (values : list Q) (value : Q) : bool := existsb (Qeq_bool value) values.

Definition Qlt_b (x y : Q) : bool := negb (Qle_bool y x).

Definition validateIntegerParameter (model : Model) (capability parameter : string) (value : option Z)
    (limit : IntegerParameterLimit) : option Error :=
  match value with
  | None => None
  | Some v =>
      if negb (IlSupported limit) then
        Some (unsupported model capability parameter "the selected model does not support this request parameter")
      else if (match IlMinimum limit with Some m => v <? m | None => false end ||
               match IlMaximum limit with Some m => m <? v | None => false end ||
               match IlExactValues limit with [] => false | vs => negb (containsIntegerParameter vs v) end)%bool then
        Some (parameterInvalid model capability parameter "the request parameter is outside the model's supported range")
      else None
  end.

Definition validateNumberParameter (model : Model) (capability parameter : string) (value : option Q)
    (limit : NumberParameterLimit) : option Error :=
  match value with
  | None => None
  | Some v =>
      if negb (NlSupported limit) then
        Some (unsupported model capability parameter "the selected model does not support this request parameter")
      else if (match NlMinimum limit with Some m => Qlt_b v m | None => false end ||
               match NlMaximum limit with Some m => Qlt_b m v | None => false end ||
               match NlExactValues limit with [] => false | vs => negb (containsNumberParameter vs v) end)%bool then
        Some (parameterInvalid model capability parameter "the request parameter is outside the model's supported range")
      else None
  end.

(** The loop over the tools: the first with a strict flag the model does not
    support. *)
Fixpoint check_strict (model : Model) (index : N) (tools : list ToolDefinition) : option Error :=
  match tools with
  | [] => None
  | tool :: tools' =>
      match TdStrict tool with
      | Some _ =>
          if McStrictTools (MoCapabilities model) then check_strict model (N.succ index) tools'
          else Some (unsupported model "tools.strict_schema"
                       ("tools." +:+ pretty index +:+ ".function.strict")
                       "the selected model does not support strict tool schemas")
      | None => check_strict model (N.succ index) tools'
      end
  end.

Definition check_part (model : Model) (part : ContentPart) : option Error :=
  let c := MoCapabilities model in
  if (bool_decide (CpType part = ContentPartImageURL) && negb (McImageInput c))%bool then
    Some (unsupported model "vision.image_url" "messages" "the selected model does not support image URL input")
  else if (bool_decide (CpType part = ContentPartVideoURL) && negb (McVideoInput c))%bool then
    Some (unsupported model "vision.video_url" "messages" "the selected model does not support video URL input")
  else None.

Definition check_message (model : Model) (message : ChatMessage) : option Error :=
  if (negb (String.eqb (MsName message) "") && negb (McMessageName (MoCapabilities model)))%bool then
    Some (unsupported model "messages.name" "messages" "the selected model does not support message names")
  else first_failure (check_part model <$> MsContent message).

(** The loop over the partial messages; [last] tells whether the message is
    the final one. *)
Definition check_partial (model : Model) (last : bool) (message : ChatMessage) : option Error :=
  if negb (MsPartial message) then None
  else if negb (McPartialMode (MoCapabilities model)) then
    Some (unsupported model "extensions.partial_mode" "messages" "the selected model does not support partial mode")
  else if (negb (bool_decide (MsRole message = RoleAssistant)) || negb last)%bool then
    Some (with_status (with_parameter (new_error ErrorInvalidRequest "invalid_partial_mode"
            "partial mode requires the final message to be an assistant message") "messages") StatusBadRequest)
  else None.

Fixpoint check_partials (model : Model) (messages : list ChatMessage) : option Error :=
  match messages with
  | [] => None
  | message :: messages' =>
      match check_partial model (match messages' with [] => true | _ => false end) message with
      | Some e => Some e
      | None => check_partials model messages'
      end
  end.

Definition check_reasoning (model : Model) (request : ChatRequest) : option Error :=
  let c := MoCapabilities model in
  match Reasoning_ request with
  | None => None
  | Some reasoning =>
      first_failure
        [if negb (McReasoning c) then
           Some (unsupported model "reasoning" "thinking" "the selected model does not support thinking or reasoning")
         else None;
         match Enabled reasoning with
         | Some _ =>
             if (negb (bool_decide (McReasoningMode c = ReasoningToggle)) &&
                 negb (bool_decide (McReasoningMode c = ReasoningHybrid)) &&
                 negb (bool_decide (McReasoningMode c = ReasoningAlwaysOnMode)))%bool then
               Some (unsupported model "reasoning.toggle" "thinking"
                       "the selected model does not support explicitly enabling or disabling thinking")
             else None
         | None => None
         end;
         match Enabled reasoning with
         | Some false =>
             if McReasoningAlwaysOn c then
               Some (unsupported model "reasoning.always_on" "thinking.type" "the selected model always enables reasoning")
             else None
         | _ => None
         end;
         if (negb (String.eqb (effort_string (Effort reasoning)) "") &&
             negb (containsCapability (McReasoningEfforts c) (effort_string (Effort reasoning))))%bool then
           Some (unsupported model "reasoning.effort" "reasoning_effort"
                   "the selected model does not support this reasoning effort")
         else None;
         match Preserve reasoning with
         | Some _ =>
             if negb (McReasoningPreserve c) then
               Some (unsupported model "reasoning.preserve" "thinking.keep"
                       "the selected model does not support reasoning replay")
             else None
         | None => None
         end;
         match Preserve reasoning with
         | Some false =>
             if McReasoningAlwaysOn c then
               Some (unsupported model "reasoning.preserve" "thinking.keep"
                       "the selected model always preserves reasoning")
             else None
         | _ => None
         end]
  end.

Definition check_format (model : Model) (request : ChatRequest) : option Error :=
  let c := MoCapabilities model in
  match ResponseFormat_ request with
  | None => None
  | Some format =>
      match RfType format with
      | ResponseFormatJSONObject =>
          if negb (McStructuredOutput c) then
            Some (unsupported model "structured_output.json_object" "response_format"
                    "the selected model does not support JSON object output")
          else None
      | ResponseFormatJSONSchema =>
          if negb (McJSONSchemaOutput c) then
            Some (unsupported model "structured_output.json_schema" "response_format"
                    "the selected model does not support JSON Schema output")
          else None
      | _ => None
      end
  end.

(** One iteration of the loop over the sampling conditions. *)
Definition check_condition (model : Model) (request : ChatRequest) (condition : SamplingCondition) : option Error :=
  if match ScThinkingEnabled condition with
     | Some thinking => negb (Bool.eqb thinking (reasoningEnabledForModel (MoCapabilities model) request))
     | None => false
     end then None
  else if match ScTemperatureExact condition, Temperature request with
          | Some exact, Some t => negb (Qeq_bool t exact)
          | _, _ => false
          end then
    Some (parameterInvalid model "parameters.temperature" "temperature"
            "temperature conflicts with the model's thinking-mode requirement")
  else if match ScTemperatureAtMost condition, Temperature request, ScNMaximum condition, N_ request with
          | Some at_most, Some t, Some n_max, Some n => (Qle_bool t at_most && (n_max <? n))%bool
          | _, _, _, _ => false
          end then
    Some (parameterInvalid model "parameters.n" "n" "n exceeds the model limit for this temperature")
  else None.

Definition validateCapabilities (model : Model) (request : ChatRequest) : option Error :=
  let c := MoCapabilities model in
  let p := McParameters c in
  first_failure
    [if negb (McChat c) then
       Some (unsupported model "chat_completions" "model" "the selected model is not available for chat completions")
     else None;
     if (Stream_ request && negb (McStreaming c))%bool then
       Some (unsupported model "streaming" "stream" "the selected model does not support streaming")
     else None;
     if (match StreamUsage_ request with Some true => true | _ => false end && negb (McStreamUsage c))%bool then
       Some (unsupported model "usage.stream" "stream_options.include_usage"
               "the selected model does not support authoritative stream usage")
     else None;
     if (match Tools request with [] => false | _ => true end && negb (McTools c))%bool then
       Some (unsupported model "tools.function_calling" "tools" "the selected model does not support function tools")
     else None;
     check_strict model 0 (Tools request);
     match ToolChoice_ request with
     | Some choice =>
         if negb (containsCapability (McToolChoiceModes c) (mode_string (Mode choice))) then
           Some (unsupported model "tools.tool_choice" "tool_choice"
                   "the selected model does not support this tool_choice mode")
         else None
     | None => None
     end;
     match ToolChoice_ request with
     | Some choice =>
         if (match McToolChoiceModesWithReasoning c with [] => false | _ => true end &&
             reasoningEnabledForModel c request &&
             negb (containsCapability (McToolChoiceModesWithReasoning c) (mode_string (Mode choice))))%bool then
           Some (model_error model ErrorInvalidRequest "tool_choice_with_thinking"
                   "this model only accepts auto or none tool_choice while thinking is enabled" "tool_choice"
                   "tools.tool_choice")
         else None
     | None => None
     end;
     match ParallelToolCalls request with
     | Some _ =>
         if negb (McParallelToolCalls c) then
           Some (unsupported model "tools.parallel_tool_calls" "parallel_tool_calls"
                   "the selected model does not support parallel tool calls")
         else None
     | None => None
     end;
     if (Stream_ request && match Tools request with [] => false | _ => true end && negb (McToolStreaming c))%bool then
       Some (unsupported model "tools.streaming_tool_calls" "tools"
               "the selected model does not support streaming tool calls")
     else None;
     first_failure (check_message model <$> Messages request);
     check_partials model (Messages request);
     if (negb (String.eqb (PromptCacheKey request) "") && negb (McPromptCacheKey c))%bool then
       Some (unsupported model "extensions.prompt_cache_key" "prompt_cache_key"
               "the selected model does not support prompt cache keys")
     else None;
     if (negb (String.eqb (SafetyIdentifier request) "") && negb (McSafetyIdentifier c))%bool then
       Some (unsupported model "extensions.safety_identifier" "safety_identifier"
               "the selected model does not support safety identifiers")
     else None;
     check_reasoning model request;
     check_format model request;
     match MaxOutputTokens request with
     | Some max =>
         if ((0 <? McOutputTokens c) && (McOutputTokens c <? max))%bool then
           Some (model_error model ErrorInvalidRequest "max_output_tokens_exceeded"
                   "requested output exceeds the model limit" "max_completion_tokens" "limits.output_tokens")
         else None
     | None => None
     end;
     validateIntegerParameter model "parameters.max_completion_tokens" "max_completion_tokens"
       (MaxOutputTokens request) (PcMaxOutputTokens p);
     validateIntegerParameter model "parameters.n" "n" (N_ request) (PcN p);
     validateNumberParameter model "parameters.temperature" "temperature" (Temperature request) (PcTemperature p);
     validateNumberParameter model "parameters.top_p" "top_p" (TopP request) (PcTopP p);
     validateNumberParameter model "parameters.top_k" "top_k" (TopK request) (PcTopK p);
     validateNumberParameter model "parameters.presence_penalty" "presence_penalty" (PresencePenalty request)
       (PcPresencePenalty p);
     validateNumberParameter model "parameters.frequency_penalty" "frequency_penalty" (FrequencyPenalty request)
       (PcFrequencyPenalty p);
     validateIntegerParameter model "parameters.thinking_budget" "thinking_budget" (ThinkingBudget request)
       (PcThinkingBudget p);
     first_failure (check_condition model request <$> PcSamplingConditions p)].

(** ** estimate.go *)

Definition slen_ (s : string) : Z := Z.of_nat (String.length s).

Definition sum_Z (l : list Z) : Z := foldr Z.add 0 l.

Definition call_bytes (call : ToolCall) : Z :=
  slen_ (TcID call) + slen_ (TfName (TcFunction call)) + slen_ (TfArguments (TcFunction call)).

Definition message_bytes (message : ChatMessage) : Z :=
  8 + sum_Z ((λ p, slen_ (CpText p)) <$> MsContent message) + sum_Z (call_bytes <$> MsToolCalls message) +
  match MsReasoning message with Some r => slen_ (RcText r) | None => 0 end.

Definition tool_bytes (tool : ToolDefinition) : Z :=
  slen_ (TdName tool) + slen_ (TdDescription tool) + slen_ (TdParameters tool).

(** Lengths of what is in memory add up far below [2^63]; the estimate of the
    output is the caller's number and may not. *)
Definition EstimateInputTokens (request : ChatRequest) : Z :=
  let bytes := sum_Z (message_bytes <$> Messages request) + sum_Z (tool_bytes <$> Tools request) in
  let input := Z.quot bytes 4 in
  let input := if negb (Z.rem bytes 4 =? 0) then input + 1 else input in
  if input <? 1 then 1 else input.

Definition estimateOutputBudget (request : ChatRequest) : Z :=
  match MaxOutputTokens request with Some max => max | None => 1024 end.

Definition EstimateTokens (request : ChatRequest) : Z :=
  wrap64 (EstimateInputTokens request + estimateOutputBudget request).

Definition event_bytes (event : StreamEvent) : Z :=
  slen_ (SeContentDelta event) + slen_ (SeReasoningDelta event) +
  match SeToolCallDelta event with
  | Some d => slen_ (DeFunctionName d) + slen_ (DeArgumentsFragment d)
  | None => 0
  end.

Definition EstimatedOutputTokens (events : list StreamEvent) : Z :=
  let bytes := sum_Z (event_bytes <$> events) in
  if bytes =? 0 then 0 else Z.quot (bytes + 3) 4.
