(* ===== verification/CapabilitiesProps.v ===== *)
(** * What capability validation guarantees

    The theorems about [validateCapabilities] and the token estimates of
    [src/internal/requestflow]: a declarative statement of what a model
    supports, which the sequence of checks decides. *)

From S2P Require Import Prelude GoStrings Canonical Capabilities.

Local Open Scope Z_scope.

(** ** The contract *)

Definition within_integer (limit : IntegerParameterLimit) (v : Z) : Prop :=
  IlSupported limit = true /\ (forall m, IlMinimum limit = Some m -> m <= v) /\
  (forall m, IlMaximum limit = Some m -> v <= m) /\ (IlExactValues limit <> [] -> v ∈ IlExactValues limit).

Definition within_number (limit : NumberParameterLimit) (v : Q) : Prop :=
  NlSupported limit = true /\ (forall m, NlMinimum limit = Some m -> (m <= v)%Q) /\
  (forall m, NlMaximum limit = Some m -> (v <= m)%Q) /\
  (NlExactValues limit <> [] -> exists w, w ∈ NlExactValues limit /\ (v == w)%Q).

(** What a part of a message asks for. *)
Definition part_supported (c : ModelCapabilities) (part : ContentPart) : Prop :=
  (CpType part = ContentPartImageURL -> McImageInput c = true) /\
  (CpType part = ContentPartVideoURL -> McVideoInput c = true).

Definition message_supported (c : ModelCapabilities) (message : ChatMessage) : Prop :=
  (MsName message <> "" -> McMessageName c = true) /\ Forall (part_supported c) (MsContent message).

Record reasoning_supported (c : ModelCapabilities) (r : ReasoningConfig) : Prop := {
  rs_reasoning : McReasoning c = true;
  rs_toggle : Enabled r <> None -> McReasoningMode c ∈ [ReasoningToggle; ReasoningHybrid; ReasoningAlwaysOnMode];
  rs_always : Enabled r = Some false -> McReasoningAlwaysOn c = false;
  rs_effort : effort_string (Effort r) <> "" -> effort_string (Effort r) ∈ McReasoningEfforts c;
  rs_preserve : Preserve r <> None -> McReasoningPreserve c = true;
  rs_keeps : Preserve r = Some false -> McReasoningAlwaysOn c = false;
}.

(** A sampling condition that applies in the request's reasoning mode. *)
Definition condition_met (c : ModelCapabilities) (r : ChatRequest) (s : SamplingCondition) : Prop :=
  (forall b, ScThinkingEnabled s = Some b -> b = reasoningEnabledForModel c r) ->
  (forall e t, ScTemperatureExact s = Some e -> Temperature r = Some t -> (t == e)%Q) /\
  (forall a t n_max n, ScTemperatureAtMost s = Some a -> Temperature r = Some t -> (t <= a)%Q ->
     ScNMaximum s = Some n_max -> N_ r = Some n -> n <= n_max).

Record Supports (c : ModelCapabilities) (r : ChatRequest) : Prop := {
  su_chat : McChat c = true;
  su_stream : Stream_ r = true -> McStreaming c = true;
  su_usage : StreamUsage_ r = Some true -> McStreamUsage c = true;
  su_tools : Tools r <> [] -> McTools c = true /\ (Stream_ r = true -> McToolStreaming c = true);
  su_strict : (exists t, t ∈ Tools r /\ TdStrict t <> None) -> McStrictTools c = true;
  su_choice : forall ch, ToolChoice_ r = Some ch ->
    mode_string (Mode ch) ∈ McToolChoiceModes c /\
    (McToolChoiceModesWithReasoning c <> [] -> reasoningEnabledForModel c r = true ->
     mode_string (Mode ch) ∈ McToolChoiceModesWithReasoning c);
  su_parallel : ParallelToolCalls r <> None -> McParallelToolCalls c = true;
  su_messages : Forall (message_supported c) (Messages r);
  su_partial : forall i m, Messages r !! i = Some m -> MsPartial m = true ->
    McPartialMode c = true /\ MsRole m = RoleAssistant /\ S i = length (Messages r);
  su_cache : PromptCacheKey r <> "" -> McPromptCacheKey c = true;
  su_safety : SafetyIdentifier r <> "" -> McSafetyIdentifier c = true;
  su_reasoning : forall cfg, Reasoning_ r = Some cfg -> reasoning_supported c cfg;
  su_format : forall f, ResponseFormat_ r = Some f ->
    (RfType f = ResponseFormatJSONObject -> McStructuredOutput c = true) /\
    (RfType f = ResponseFormatJSONSchema -> McJSONSchemaOutput c = true);
  su_output : forall n, MaxOutputTokens r = Some n -> 0 < McOutputTokens c -> n <= McOutputTokens c;
  su_max : forall v, MaxOutputTokens r = Some v -> within_integer (PcMaxOutputTokens (McParameters c)) v;
  su_n : forall v, N_ r = Some v -> within_integer (PcN (McParameters c)) v;
  su_temperature : forall v, Temperature r = Some v -> within_number (PcTemperature (McParameters c)) v;
  su_top_p : forall v, TopP r = Some v -> within_number (PcTopP (McParameters c)) v;
  su_top_k : forall v, TopK r = Some v -> within_number (PcTopK (McParameters c)) v;
  su_presence : forall v, PresencePenalty r = Some v -> within_number (PcPresencePenalty (McParameters c)) v;
  su_frequency : forall v, FrequencyPenalty r = Some v -> within_number (PcFrequencyPenalty (McParameters c)) v;
  su_budget : forall v, ThinkingBudget r = Some v -> within_integer (PcThinkingBudget (McParameters c)) v;
  su_conditions : Forall (condition_met c r) (PcSamplingConditions (McParameters c));
}.

(** ** Each check *)

Lemma first_failure_none checks : first_failure checks = None <-> Forall (λ o, o = None) checks.
Proof.
  induction checks as [|[e|] checks IH]; simpl; [done|..].
  - split; [done|]. by intros [? _]%Forall_cons.
  - rewrite IH, Forall_cons. naive_solver.
Qed.

Lemma first_failure_fmap_none {A} (f : A -> option Error) (l : list A) :
  first_failure (f <$> l) = None <-> Forall (λ x, f x = None) l.
Proof. by rewrite first_failure_none, Forall_fmap. Qed.

Lemma if_none (b : bool) (e : Error) : (if b then Some e else None) = None <-> b = false.
Proof. by destruct b. Qed.

Lemma existsb_false {A} (f : A -> bool) l : negb (existsb f l) = false <-> exists x, x ∈ l /\ f x = true.
Proof. rewrite negb_false_iff, existsb_exists. setoid_rewrite list_elem_of_In. done. Qed.

Lemma contains_capability vs v : negb (containsCapability vs v) = false <-> v ∈ vs.
Proof.
  unfold containsCapability. rewrite existsb_false. setoid_rewrite String.eqb_eq. naive_solver.
Qed.

Lemma Qlt_b_false x y : Qlt_b x y = false <-> (y <= x)%Q.
Proof. unfold Qlt_b. rewrite negb_false_iff. apply Qle_bool_iff. Qed.

Lemma integer_ok model cap par value limit :
  validateIntegerParameter model cap par value limit = None <->
  forall v, value = Some v -> within_integer limit v.
Proof.
  unfold validateIntegerParameter, within_integer. destruct value as [v|]; [|naive_solver].
  destruct (IlSupported limit); simpl; [|naive_solver]. rewrite if_none, !orb_false_iff.
  assert (Hmin : match IlMinimum limit with Some m => v <? m | None => false end = false <->
                 forall m, IlMinimum limit = Some m -> m <= v) by (destruct (IlMinimum limit); rewrite ?Z.ltb_ge; naive_solver).
  assert (Hmax : match IlMaximum limit with Some m => m <? v | None => false end = false <->
                 forall m, IlMaximum limit = Some m -> v <= m) by (destruct (IlMaximum limit); rewrite ?Z.ltb_ge; naive_solver).
  assert (Hex : match IlExactValues limit with [] => false | vs => negb (containsIntegerParameter vs v) end = false <->
                (IlExactValues limit <> [] -> v ∈ IlExactValues limit)).
  { destruct (IlExactValues limit) as [|w vs]; [naive_solver|]. unfold containsIntegerParameter.
    rewrite existsb_false. setoid_rewrite Z.eqb_eq. naive_solver. }
  rewrite Hmin, Hmax, Hex. naive_solver.
Qed.

Lemma number_ok model cap par value limit :
  validateNumberParameter model cap par value limit = None <->
  forall v, value = Some v -> within_number limit v.
Proof.
  unfold validateNumberParameter, within_number. destruct value as [v|]; [|naive_solver].
  destruct (NlSupported limit); simpl; [|naive_solver]. rewrite if_none, !orb_false_iff.
  assert (Hmin : match NlMinimum limit with Some m => Qlt_b v m | None => false end = false <->
                 forall m, NlMinimum limit = Some m -> (m <= v)%Q).
  { destruct (NlMinimum limit); [rewrite Qlt_b_false|]; naive_solver. }
  assert (Hmax : match NlMaximum limit with Some m => Qlt_b m v | None => false end = false <->
                 forall m, NlMaximum limit = Some m -> (v <= m)%Q).
  { destruct (NlMaximum limit); [rewrite Qlt_b_false|]; naive_solver. }
  assert (Hex : match NlExactValues limit with [] => false | vs => negb (containsNumberParameter vs v) end = false <->
                (NlExactValues limit <> [] -> exists w, w ∈ NlExactValues limit /\ (v == w)%Q)).
  { destruct (NlExactValues limit) as [|w vs]; [naive_solver|]. unfold containsNumberParameter.
    rewrite existsb_false. setoid_rewrite Qeq_bool_iff. naive_solver. }
  rewrite Hmin, Hmax, Hex. naive_solver.
Qed.

Lemma strict_ok model n tools :
  check_strict model n tools = None <->
  ((exists t, t ∈ tools /\ TdStrict t <> None) -> McStrictTools (MoCapabilities model) = true).
Proof.
  revert n. induction tools as [|t tools IH]; intros n; simpl.
  { split; [|done]. intros _ (t & Hin & _). by apply not_elem_of_nil in Hin. }
  destruct (TdStrict t) as [b|] eqn:Ht.
  - destruct (McStrictTools (MoCapabilities model)); [rewrite IH; naive_solver|].
    split; [done|]. intros H. exfalso. assert (false = true); [|done]. apply H. exists t. split; [left|congruence].
  - rewrite IH. split; intros H (t' & Hin & Hs); apply H; [apply elem_of_cons in Hin as [->|Hin]; [done|]|]; exists t';
      (split; [|done]); [done|by right].
Qed.

Lemma message_ok model m : check_message model m = None <-> message_supported (MoCapabilities model) m.
Proof.
  unfold check_message, message_supported.
  assert (Hparts : first_failure (check_part model <$> MsContent m) = None <->
                   Forall (part_supported (MoCapabilities model)) (MsContent m)).
  { rewrite first_failure_fmap_none. apply Forall_proper; [|done]. intros p. unfold check_part, part_supported.
    destruct (CpType p); simpl; destruct (McImageInput (MoCapabilities model)), (McVideoInput (MoCapabilities model));
      simpl; naive_solver. }
  destruct (String.eqb_spec (MsName m) "") as [He|He]; simpl; [rewrite Hparts; naive_solver|].
  destruct (McMessageName (MoCapabilities model)); simpl; [rewrite Hparts; naive_solver|naive_solver].
Qed.

Lemma partials_ok model ms :
  check_partials model ms = None <->
  forall i m, ms !! i = Some m -> MsPartial m = true ->
    McPartialMode (MoCapabilities model) = true /\ MsRole m = RoleAssistant /\ S i = length ms.
Proof.
  induction ms as [|m ms IH]; simpl; [naive_solver|].
  assert (Hm : check_partial model (match ms with [] => true | _ => false end) m = None <->
    (MsPartial m = true -> McPartialMode (MoCapabilities model) = true /\ MsRole m = RoleAssistant /\ ms = [])).
  { unfold check_partial. destruct (MsPartial m); simpl; [|naive_solver].
    destruct (McPartialMode (MoCapabilities model)); simpl; [|naive_solver].
    destruct (decide (MsRole m = RoleAssistant)) as [Hr|Hr];
      [rewrite bool_decide_true by done|rewrite bool_decide_false by done]; simpl; [|naive_solver].
    destruct ms; simpl; naive_solver. }
  destruct (check_partial model _ m).
  - split; [done|]. intros H. exfalso. assert (Hp : Some e = None); [|done]. apply Hm. intros Hp.
    destruct (H 0%nat m eq_refl Hp) as (? & ? & Hl). destruct ms; [done|simpl in Hl; lia].
  - rewrite IH. split.
    + intros H [|i] m' Hi Hp; simpl in Hi.
      * injection Hi as <-. destruct (proj1 Hm eq_refl Hp) as (? & ? & ->). done.
      * destruct (H i m' Hi Hp) as (? & ? & ?). split_and!; [done..|lia].
    + intros H i m' Hi Hp. destruct (H (S i) m' Hi Hp) as (? & ? & ?). split_and!; [done..|lia].
Qed.

Lemma reasoning_ok model r :
  check_reasoning model r = None <->
  forall cfg, Reasoning_ r = Some cfg -> reasoning_supported (MoCapabilities model) cfg.
Proof.
  unfold check_reasoning. destruct (Reasoning_ r) as [[en ef pr]|]; [|naive_solver].
  rewrite first_failure_none, !Forall_cons, !if_none. simpl.
  set (c := MoCapabilities model).
  assert (H1 : match en with
               | Some _ => if (negb (bool_decide (McReasoningMode c = ReasoningToggle)) &&
                    negb (bool_decide (McReasoningMode c = ReasoningHybrid)) &&
                    negb (bool_decide (McReasoningMode c = ReasoningAlwaysOnMode)))%bool
                   then Some (unsupported model "reasoning.toggle" "thinking"
                       "the selected model does not support explicitly enabling or disabling thinking") else None
               | None => None end = None <->
    (en <> None -> McReasoningMode c ∈ [ReasoningToggle; ReasoningHybrid; ReasoningAlwaysOnMode])).
  { destruct en; [|naive_solver]. rewrite if_none. rewrite !elem_of_cons. rewrite elem_of_nil.
    repeat case_bool_decide; simpl; naive_solver. }
  rewrite H1. rewrite andb_false_iff, !negb_false_iff, String.eqb_eq.
  rewrite <- (negb_false_iff (containsCapability _ _)), contains_capability.
  split.
  - intros (Hr & Ht & Ha & He & Hp & Hk & _) cfg [= <-]. split; simpl; try done.
    + intros ->. by destruct (McReasoningAlwaysOn c).
    + naive_solver.
    + intros Hne. destruct pr; [|done]. by destruct (McReasoningPreserve c).
    + intros ->. by destruct (McReasoningAlwaysOn c).
  - intros H. destruct (H _ eq_refl) as [Hr Ht Ha He Hp Hk]. simpl in *. split_and!; try done.
    + destruct en as [[]|]; try done. by rewrite Ha.
    + destruct (decide (effort_string ef = "")); [by left|right; auto].
    + destruct pr; [|done]. by rewrite Hp.
    + destruct pr as [[]|]; try done. by rewrite Hk.
Qed.

Lemma condition_ok model r s :
  check_condition model r s = None <-> condition_met (MoCapabilities model) r s.
Proof.
  unfold check_condition, condition_met. set (on := reasoningEnabledForModel (MoCapabilities model) r).
  assert (Hon : match ScThinkingEnabled s with Some b => negb (Bool.eqb b on) | None => false end = false <->
                forall b, ScThinkingEnabled s = Some b -> b = on).
  { destruct (ScThinkingEnabled s) as [b|]; [|naive_solver]. rewrite negb_false_iff, Bool.eqb_true_iff. naive_solver. }
  destruct (match ScThinkingEnabled s with Some b => _ | None => _ end).
  { split; [|done]. intros _ H. apply Hon in H. done. }
  assert (Hall := proj1 Hon eq_refl).
  assert (He : match ScTemperatureExact s, Temperature r with Some e, Some t => negb (Qeq_bool t e) | _, _ => false end = false <->
               forall e t, ScTemperatureExact s = Some e -> Temperature r = Some t -> (t == e)%Q).
  { destruct (ScTemperatureExact s), (Temperature r); rewrite ?negb_false_iff, ?Qeq_bool_iff; naive_solver. }
  destruct (match ScTemperatureExact s with Some _ => _ | None => _ end).
  { split; [done|]. intros H. destruct (H Hall) as [H1 _]. by apply He in H1. }
  rewrite if_none. assert (He' := proj1 He eq_refl).
  assert (Hn : match ScTemperatureAtMost s, Temperature r, ScNMaximum s, N_ r with
      | Some a, Some t, Some n_max, Some n => (Qle_bool t a && (n_max <? n))%bool | _, _, _, _ => false end = false <->
    forall a t n_max n, ScTemperatureAtMost s = Some a -> Temperature r = Some t -> (t <= a)%Q ->
     ScNMaximum s = Some n_max -> N_ r = Some n -> n <= n_max).
  { destruct (ScTemperatureAtMost s) as [a|], (Temperature r) as [t|], (ScNMaximum s) as [m|], (N_ r) as [n|];
      try naive_solver.
    rewrite andb_false_iff. split.
    - intros [H|H] ? ? ? ? [= <-] [= <-] Hle [= <-] [= <-]; [apply Qle_bool_iff in Hle; congruence|lia].
    - intros H. destruct (Qle_bool t a) eqn:Hle; [right|by left]. apply Qle_bool_iff in Hle.
      specialize (H a t m n eq_refl eq_refl Hle eq_refl eq_refl). lia. }
  rewrite Hn. naive_solver.
Qed.

(** ** The whole validation *)

(** A refusal is a client error that names the offending parameter. *)
Definition client_error (model : Model) (e : Error) : Prop :=
  HTTPStatus e = 400 /\ (Kind e = ErrorUnsupportedCapability \/ Kind e = ErrorInvalidRequest) /\
  Parameter_ e <> "" /\ RetryAfter_ e = None /\ ReplaySafe e = false.

Lemma first_failure_some checks e : first_failure checks = Some e -> Some e ∈ checks.
Proof.
  induction checks as [|[e'|] checks IH]; simpl; [done|intros [= ->]; left|]. intros H. right. auto.
Qed.

Lemma first_failure_fmap_some {A} (f : A -> option Error) (P : Error -> Prop) (l : list A) e :
  (forall x e, f x = Some e -> P e) -> first_failure (f <$> l) = Some e -> P e.
Proof. intros Hf (x & Hx & _)%first_failure_some%list_elem_of_fmap. by eapply Hf. Qed.

Lemma model_error_client model kind code message parameter capability :
  kind = ErrorUnsupportedCapability \/ kind = ErrorInvalidRequest -> parameter <> "" ->
  client_error model (model_error model kind code message parameter capability).
Proof. done. Qed.

Lemma unsupported_client model capability parameter reason :
  parameter <> "" -> client_error model (unsupported model capability parameter reason).
Proof. intros. apply model_error_client; auto. Qed.

Lemma parameterInvalid_client model capability parameter message :
  parameter <> "" -> client_error model (parameterInvalid model capability parameter message).
Proof. intros. apply model_error_client; auto. Qed.

(** Each branch that fails fails with such an error. *)
Ltac client_branches :=
  repeat case_match; intros; simplify_eq;
  first [by apply unsupported_client|by apply parameterInvalid_client|by apply model_error_client; auto].

Lemma integer_client model cap par value limit e :
  par <> "" -> validateIntegerParameter model cap par value limit = Some e -> client_error model e.
Proof. intros Hp. unfold validateIntegerParameter. client_branches. Qed.

Lemma number_client model cap par value limit e :
  par <> "" -> validateNumberParameter model cap par value limit = Some e -> client_error model e.
Proof. intros Hp. unfold validateNumberParameter. client_branches. Qed.

Lemma strict_client model n tools e : check_strict model n tools = Some e -> client_error model e.
Proof.
  revert n. induction tools as [|t tools IH]; intros n; simpl; [done|].
  destruct (TdStrict t); [|apply IH]. destruct (McStrictTools _); [apply IH|].
  intros [= <-]. apply unsupported_client. done.
Qed.

Lemma message_client model m e : check_message model m = Some e -> client_error model e.
Proof.
  unfold check_message. destruct (_ && _)%bool; [intros [= <-]; by apply unsupported_client|].
  apply first_failure_fmap_some. intros p e'. unfold check_part. client_branches.
Qed.

Lemma partials_client model ms e : check_partials model ms = Some e -> client_error model e.
Proof.
  induction ms as [|m ms IH]; simpl; [done|].
  destruct (check_partial model _ m) as [e'|] eqn:Hm; [|done]. intros [= ->]. unfold check_partial in Hm.
  destruct (negb (MsPartial m)); [done|]. destruct (negb (McPartialMode _)); [injection Hm as <-; by apply unsupported_client|].
  destruct (_ || _)%bool; [|done]. injection Hm as <-. split_and!; simpl; auto.
Qed.

Lemma reasoning_client model r e : check_reasoning model r = Some e -> client_error model e.
Proof.
  unfold check_reasoning. destruct (Reasoning_ r) as [[en ef pr]|]; [|done]. intros H%first_failure_some.
  revert H. rewrite !elem_of_cons, elem_of_nil. simpl.
  intros H. repeat destruct H as [H|H]; try done; revert H; client_branches.
Qed.

Lemma condition_client model r s e : check_condition model r s = Some e -> client_error model e.
Proof. unfold check_condition. client_branches. Qed.

(** Applies the lemma about a check. *)
Ltac check_client H :=
  first [eapply integer_client; [|exact H]; done|eapply number_client; [|exact H]; done
        |exact (strict_client _ _ _ _ H)|exact (partials_client _ _ _ H)|exact (reasoning_client _ _ _ H)
        |eapply first_failure_fmap_some; [|exact H]; apply message_client
        |eapply first_failure_fmap_some; [|exact H]; apply condition_client
        |revert H; client_branches].

Lemma validate_supports model r : validateCapabilities model r = None <-> Supports (MoCapabilities model) r.
Proof.
  unfold validateCapabilities, check_format. rewrite first_failure_none, !Forall_cons, Forall_nil.
  rewrite !if_none, strict_ok, (first_failure_fmap_none (check_message model)), partials_ok, reasoning_ok, !integer_ok,
    !number_ok, (first_failure_fmap_none (check_condition model r)).
  set (c := MoCapabilities model).
  assert (Hm : Forall (λ x, check_message model x = None) (Messages r) <-> Forall (message_supported c) (Messages r))
    by (apply Forall_proper; [intros m; apply message_ok|done]).
  assert (Hs : Forall (λ x, check_condition model r x = None) (PcSamplingConditions (McParameters c)) <->
               Forall (condition_met c r) (PcSamplingConditions (McParameters c)))
    by (apply Forall_proper; [intros m; apply condition_ok|done]).
  rewrite Hm, Hs. split.
  - intros (H1 & H2 & H3 & H4 & H5 & H6 & H7 & H8 & H9 & H10 & H11 & H12 & H13 & H14 & H15 & H16 & H17 & H18 & H19 & H20 &
      H21 & H22 & H23 & H24 & H25 & _).
    constructor; try done.
    + by destruct (McChat c).
    + intros Hst. rewrite Hst in H2. by destruct (McStreaming c).
    + intros Hst. rewrite Hst in H3. by destruct (McStreamUsage c).
    + intros Ht. destruct (Tools r) as [|t ts]; [done|]. simpl in H4.
      split; [by destruct (McTools c)|]. intros Hst. rewrite Hst in H9. by destruct (McToolStreaming c).
    + intros ch Hch. rewrite Hch in H6, H7. rewrite if_none, contains_capability in H6. split; [done|].
      intros Hne Hon. rewrite Hon, if_none in H7. destruct (McToolChoiceModesWithReasoning c) eqn:Hw; [done|].
      cbn [andb] in H7. by rewrite contains_capability in H7.
    + intros Hp. destruct (ParallelToolCalls r); [|done]. by destruct (McParallelToolCalls c).
    + intros Hp%String.eqb_neq. rewrite Hp in H12. by destruct (McPromptCacheKey c).
    + intros Hp%String.eqb_neq. rewrite Hp in H13. by destruct (McSafetyIdentifier c).
    + intros f Hf. rewrite Hf in H15. split; intros Ht; rewrite Ht in H15; [by destruct (McStructuredOutput c)|].
      by destruct (McJSONSchemaOutput c).
    + intros n Hn Hpos. rewrite Hn, if_none in H16. lia.
  - intros [S1 S2 S3 S4 S5 S6 S7 S8 S9 S10 S11 S12 S13 S14 S15 S16 S17 S18 S19 S20 S21 S22 S23].
    split_and!; try done.
    + by rewrite S1.
    + destruct (Stream_ r); [|done]. by rewrite S2.
    + destruct (StreamUsage_ r) as [[]|]; try done. by rewrite S3.
    + destruct (Tools r); [done|]. by destruct S4 as [-> _].
    + destruct (ToolChoice_ r) as [ch|]; [|done]. destruct (S6 ch eq_refl) as [Hin _].
      by rewrite if_none, contains_capability.
    + destruct (ToolChoice_ r) as [ch|]; [|done]. destruct (S6 ch eq_refl) as [_ Hin]. rewrite if_none.
      destruct (McToolChoiceModesWithReasoning c) eqn:Hw; [done|]. cbn [andb].
      destruct (reasoningEnabledForModel c r); [|done]. cbn [andb]. apply contains_capability. by apply Hin.
    + destruct (ParallelToolCalls r); [|done]. by rewrite S7.
    + destruct (Tools r) as [|t ts]; [by destruct (Stream_ r)|]. destruct (Stream_ r); [|done].
      destruct S4 as [_ Hst]; [done|]. by rewrite Hst.
    + destruct (String.eqb_spec (PromptCacheKey r) ""); [done|]. by rewrite S10.
    + destruct (String.eqb_spec (SafetyIdentifier r) ""); [done|]. by rewrite S11.
    + destruct (ResponseFormat_ r) as [f|]; [|done]. destruct (S13 f eq_refl) as [Ho Hj].
      destruct (RfType f); try done; [by rewrite Ho|by rewrite Hj].
    + destruct (MaxOutputTokens r) as [n|]; [|done]. rewrite if_none. specialize (S14 n eq_refl). lia.
Qed.

(** Capability validation decides the contract: it passes exactly the
    requests the model supports, feature by feature, and a refusal is a 400
    that names the parameter and is never marked safe to replay. *)
Theorem validateCapabilities_exact model r :
  (validateCapabilities model r = None <-> Supports (MoCapabilities model) r) /\
  (forall e, validateCapabilities model r = Some e -> client_error model e).
Proof.
  split.
  - apply validate_supports.
  - intros e H%first_failure_some. revert H. rewrite !elem_of_cons, elem_of_nil. unfold check_format.
    intros H. repeat destruct H as [H|H]; try done; symmetry in H; check_client H.
Qed.

(** ** Concrete models and requests *)

Definition any_integer : IntegerParameterLimit := mkIntegerLimit true (Some 1) None [].
Definition any_number : NumberParameterLimit := mkNumberLimit true None None [].
Definition no_integer : IntegerParameterLimit := mkIntegerLimit false None None [].

Definition demo_parameters : ParameterCapabilities :=
  mkParameterCapabilities any_integer any_number any_number any_number any_number no_integer any_number no_integer [].

Definition demo_capabilities : ModelCapabilities :=
  mkModelCapabilities true true false [] false false false false false false false (ReasoningModeOther "") false false
    false false false [] [] false false false false false true true 8192 0 demo_parameters.

Definition demo_model : Model :=
  mkModel "m" "public" "upstream" "p" "slug" "kind" "https://example.com" demo_capabilities 0.

Definition text_message (text : string) : ChatMessage := mkMessage RoleUser "" (TextContent text) false [] "" None.

Definition demo_request (max n : option Z) : ChatRequest :=
  mkChatRequest "" "public" [text_message "hello"] [] None None true None max n None None None None None None [] None None "" "".

Lemma validateCapabilities_exact_witness :
  Supports demo_capabilities (demo_request (Some 10) None) /\
  ~ Supports demo_capabilities (demo_request (Some 10) (Some 2)) /\
  exists e, validateCapabilities demo_model (demo_request (Some 10) (Some 2)) = Some e /\ client_error demo_model e.
Proof.
  split; [|split].
  - apply (validateCapabilities_exact demo_model). vm_compute. reflexivity.
  - intros H. apply (validateCapabilities_exact demo_model) in H. vm_compute in H. discriminate.
  - destruct (validateCapabilities demo_model (demo_request (Some 10) (Some 2))) as [e|] eqn:He;
      [|vm_compute in He; discriminate].
    exists e. split; [reflexivity|]. exact (proj2 (validateCapabilities_exact _ _) e He).
Defined.

(** Where the profile gives no output limit, the largest [int64] passes the
    validation and the estimate wraps around below zero, so that it is not
    above the model's context either. *)
Lemma estimate_wraps :
  validateCapabilities demo_model (demo_request (Some max_int64) None) = None /\
  EstimateTokens (demo_request (Some max_int64) None) < 0.
Proof. split; [vm_compute; reflexivity|]. vm_compute. reflexivity. Qed.
