(* ===== verification/Capacity.v ===== *)
(** * Capacity of a request: concurrency and rate limits together

    Models the coordination adapter of
    [src/internal/requestflow/coordination_adapter.go] (Acquire, Reconcile,
    Release, InspectCredential) over the leases and rate limits of
    [src/internal/coordination], and the types of
    [src/internal/requestflow/types.go] it exchanges with the workflow.

    Each call to the server has its own fate ([Transport]).  The generated
    lease identifier is an argument. *)

From S2P Require Import Prelude GoStrings Valkey Lease LeaseInv LeaseProps Rate RateProps Canonical.

Local Open Scope Z_scope.

(** ** Types *)

Record Capacity := mkCapacity {
  RequestsPerMinute : Z;
  TokensPerMinute : Z;
  DailyTokens : Z;
  DailyResetMinuteUTC : Z;
  Concurrency : Z;
}.

Record CoordinationConfig := mkCoordinationConfig {
  CfGlobal : Capacity;
  CfResourcePool : Capacity;
  CfModel : Capacity;
  CfProvider : Capacity;
  CfDefaultCredential : Capacity;
  CfLeaseTTL : Z;
}.

Record LeaseRequest := mkLeaseRequest {
  LrRequestID : UUID;
  LrExecutionID : UUID;
  LrModelID : UUID;
  LrProviderID : UUID;
  LrCredentialID : UUID;
  LrResourcePoolID : UUID;
  LrEstimatedTokens : Z;
  LrRPMLimit : option Z;
  LrTPMLimit : option Z;
  LrConcurrency : option Z;
  LrSharedCapacityScope : option string;
  LrSharedRPMLimit : option Z;
  LrSharedTPMLimit : option Z;
  LrSharedConcurrency : option Z;
  LrSharedDailyTokenLimit : option Z;
  LrSharedDailyResetMinuteUTC : option Z;
}.

Record CredentialCapacityInput := mkCredentialCapacityInput {
  CiCredentialID : UUID;
  CiProviderID : UUID;
  CiRPMLimit : option Z;
  CiTPMLimit : option Z;
  CiConcurrencyLimit : option Z;
  CiSharedCapacityScope : option string;
  CiSharedRPMLimit : option Z;
  CiSharedTPMLimit : option Z;
  CiSharedConcurrencyLimit : option Z;
  CiSharedDailyTokenLimit : option Z;
  CiSharedDailyResetMinuteUTC : option Z;
}.

Record CapacityObservation := mkCapacityObservation {
  CoObservedAt : Z;
  RequestsPerMinuteLimit : Z;
  RequestsPerMinuteRemain : Z;
  TokensPerMinuteLimit : Z;
  TokensPerMinuteRemain : Z;
  DailyTokenLimit : Z;
  DailyTokenRemain : Z;
  DailyTokenResetAt : option Z;
  CoConcurrencyLimit : Z;
  ConcurrencyInUse : Z;
}.

Record CredentialCapacity := mkCredentialCapacity { Local_ : CapacityObservation; Shared : option CapacityObservation }.

(** [renewingLease]: what the lease remembers of its acquisition. *)
Record renewingLease := mkRenewingLease {
  reference : LeaseRef;
  tokenRateLimits : list BucketLimit;
  estimatedTokens : Z;
  rateRefundReference : string;
  ttl : Z;
}.

Definition coordination_failed (message : string) : GoError := Wrapped message ErrCoordinationFailed.

(** ** Limits of a request *)

Definition NewCoordinationAdapter (coordinator_present : bool) (config : CoordinationConfig) :
    result string CoordinationConfig :=
  if (negb coordinator_present || (CfLeaseTTL config <? 3 * Second) || (Hour <? CfLeaseTTL config))%bool then
    Err "coordination adapter configuration is invalid"
  else if existsb (λ capacity, (RequestsPerMinute capacity <? 1) || (TokensPerMinute capacity <? 1) ||
                               (Concurrency capacity <? 1))%bool
            [CfGlobal config; CfResourcePool config; CfModel config; CfProvider config; CfDefaultCredential config] then
    Err "all coordination capacity defaults must be positive"
  else Ok config.

Definition effectiveCredentialCapacity (config : CoordinationConfig) (rpm tpm concurrency : option Z) : Capacity :=
  let c := CfDefaultCredential config in
  mkCapacity (default (RequestsPerMinute c) rpm) (default (TokensPerMinute c) tpm) (DailyTokens c)
    (DailyResetMinuteUTC c) (default (Concurrency c) concurrency).

Definition sharedUpstreamCapacity (providerID : UUID) (scope : option string)
    (rpm tpm concurrency dailyTokens dailyResetMinuteUTC : option Z) : result string (option (Dimension * Capacity)) :=
  match scope with
  | None =>
      match rpm, tpm, concurrency, dailyTokens, dailyResetMinuteUTC with
      | None, None, None, None, None => Ok None
      | _, _, _, _, _ => Err "shared upstream limits require a scope"
      end
  | Some scope =>
      let invalid : result string (option (Dimension * Capacity)) :=
        Err "shared upstream scope requires a provider and positive RPM, TPM, and concurrency limits" in
      match rpm, tpm, concurrency with
      | Some rpm, Some tpm, Some concurrency =>
          if (bool_decide (providerID = uuid_Nil) || bool_decide (scope = "") || (rpm <? 1) || (tpm <? 1) ||
              (concurrency <? 1))%bool then invalid
          else
            let dimension := mkDimension ScopeSharedUpstream (providerID +:+ ":" +:+ scope) in
            match dailyTokens, dailyResetMinuteUTC with
            | None, None => Ok (Some (dimension, mkCapacity rpm tpm 0 0 concurrency))
            | Some daily, Some reset =>
                if ((daily <? 1) || (reset <? 0) || (1440 <=? reset))%bool then
                  Err "shared upstream daily token quota requires a positive limit and UTC reset minute"
                else Ok (Some (dimension, mkCapacity rpm tpm daily reset concurrency))
            | _, _ => Err "shared upstream daily token quota requires a positive limit and UTC reset minute"
            end
      | _, _, _ => invalid
      end
  end.

(** The dimensions with their capacities, in order. *)
Definition requestDimensions (request : LeaseRequest) (config : CoordinationConfig) (credentialCapacity : Capacity) :
    result string (list (Dimension * Capacity)) :=
  let own :=
    [(GlobalDimension, CfGlobal config);
     (mkDimension ScopeResourcePool (LrResourcePoolID request), CfResourcePool config);
     (mkDimension ScopeModel (LrModelID request), CfModel config);
     (mkDimension ScopeProvider (LrProviderID request), CfProvider config);
     (mkDimension ScopeCredential (LrCredentialID request), credentialCapacity)] in
  let? shared :=
    sharedUpstreamCapacity (LrProviderID request) (LrSharedCapacityScope request) (LrSharedRPMLimit request)
      (LrSharedTPMLimit request) (LrSharedConcurrency request) (LrSharedDailyTokenLimit request)
      (LrSharedDailyResetMinuteUTC request) in
  Ok (own ++ option_list shared).

Definition minuteBucket (dimension : Dimension) (metric : BucketMetric) (capacity requested : Z) : BucketLimit :=
  mkBucketLimit dimension metric capacity capacity Minute requested 0 0.

Definition dailyTokenBucket (dimension : Dimension) (capacity resetMinuteUTC requested : Z) : BucketLimit :=
  mkBucketLimit dimension MetricDailyTokens capacity 0 0 requested (24 * Hour) (resetMinuteUTC * Minute).

Definition concurrencyLimits (dims : list (Dimension * Capacity)) : list ConcurrencyLimit :=
  (λ dc, mkConcurrencyLimit dc.1 (Concurrency dc.2)) <$> dims.

(** The token buckets of one dimension. *)
Definition token_limits (tokens : Z) (dc : Dimension * Capacity) : list BucketLimit :=
  minuteBucket dc.1 MetricTokens (TokensPerMinute dc.2) tokens ::
  (if 0 <? DailyTokens dc.2 then [dailyTokenBucket dc.1 (DailyTokens dc.2) (DailyResetMinuteUTC dc.2) tokens] else []).

Definition rate_limits (tokens : Z) (dims : list (Dimension * Capacity)) : list BucketLimit :=
  dims ≫= λ dc, minuteBucket dc.1 MetricRequests (RequestsPerMinute dc.2) 1 :: token_limits tokens dc.

(** [time.Date(y, m, d, 0, 0, 0, 0, UTC)] of a time is the start of its day,
    which in UTC begins a whole number of days after the zero time. *)
Definition Day : Z := 24 * Hour.
Definition day_start (t : Z) : Z := t - t `mod` Day.

Definition nextDailyReset (observedAt resetMinuteUTC : Z) : Z :=
  let day := time_add (day_start observedAt) (resetMinuteUTC * Minute) in
  if negb (After day observedAt) then time_add day Day else day.

(** ** Operations *)

Section adapter.
Context (hmac : string -> string -> string) `{!Lua} {S : Type} `{!Valkey S}.
Context (c : Coordinator) (config : CoordinationConfig).

Record Fate := mkFate { on_lease : Transport; on_rate : Transport; on_release : Transport }.

Definition Acquire (newLeaseID : result string string) (fate : Fate) (request : LeaseRequest) (s : S) :
    result GoError renewingLease * S :=
  if bool_decide (LrExecutionID request = uuid_Nil) then
    (Err (coordination_failed "execution id is required"), s)
  else
    let credentialCapacity :=
      effectiveCredentialCapacity config (LrRPMLimit request) (LrTPMLimit request) (LrConcurrency request) in
    match requestDimensions request config credentialCapacity with
    | Err e => (Err (coordination_failed ("shared upstream capacity: " +:+ e)), s)
    | Ok dims =>
        match newLeaseID with
        | Err e => (Err (coordination_failed ("generate concurrency lease id: " +:+ e)), s)
        | Ok leaseID =>
            match AcquireLease hmac c (on_lease fate) leaseID (CfLeaseTTL config) (concurrencyLimits dims) s with
            | (Err e, s1) => (Err (coordination_failed "acquire concurrency"), s1)
            | (Ok leaseDecision, s1) =>
                if negb (Granted leaseDecision) then (Err (CapacityError (RetryAt leaseDecision)), s1)
                else
                  match AcquireRate hmac c (on_rate fate) (rate_limits (LrEstimatedTokens request) dims) s1 with
                  | (Err e, s2) =>
                      let s3 := (ReleaseLease hmac c (on_release fate) (DecLease leaseDecision) s2).2 in
                      (Err (coordination_failed "acquire rate"), s3)
                  | (Ok rateDecision, s2) =>
                      if negb (RGranted rateDecision) then
                        let s3 := (ReleaseLease hmac c (on_release fate) (DecLease leaseDecision) s2).2 in
                        (Err (CapacityError (RRetryAt rateDecision)), s3)
                      else
                        (Ok (mkRenewingLease (DecLease leaseDecision)
                               (dims ≫= token_limits (LrEstimatedTokens request)) (LrEstimatedTokens request)
                               (LeaseID (DecLease leaseDecision)) (CfLeaseTTL config)), s2)
                  end
            end
        end
    end.

Definition with_requested (tokens : Z) (limit : BucketLimit) : BucketLimit :=
  mkBucketLimit (BDimension limit) (Metric limit) (CapacityTokens limit) (RefillTokens limit) (RefillInterval limit)
    tokens (FixedWindow limit) (FixedWindowOffset limit).

Definition Reconcile (tr : Transport) (l : renewingLease) (actualTokens : Z) (s : S) : option GoError * S :=
  if ((actualTokens <? 0) || (estimatedTokens l <=? actualTokens))%bool then (None, s)
  else
    let refund := wrap64 (estimatedTokens l - actualTokens) in
    match RefundRate hmac c tr (rateRefundReference l) (with_requested refund <$> tokenRateLimits l) s with
    | (Err e, s') => (Some (OtherError "reconcile request tokens"), s')
    | (Ok _, s') => (None, s')
    end.

(** [renewingLease.Release] once the renewal has stopped. *)
Definition Release (tr : Transport) (l : renewingLease) (s : S) : option GoError * S :=
  match ReleaseLease hmac c tr (reference l) s with
  | (Some e, s') => (Some (OtherError "release request capacity"), s')
  | (None, s') => (None, s')
  end.

Definition inspectCapacity (tr_rate tr_lease : Transport) (dimension : Dimension) (capacity : Capacity) (s : S) :
    result GoError CapacityObservation * S :=
  let limits :=
    [minuteBucket dimension MetricRequests (RequestsPerMinute capacity) 1;
     minuteBucket dimension MetricTokens (TokensPerMinute capacity) 1] ++
    (if 0 <? DailyTokens capacity
     then [dailyTokenBucket dimension (DailyTokens capacity) (DailyResetMinuteUTC capacity) 1] else []) in
  match InspectRate hmac c tr_rate limits s with
  | (Err e, s1) => (Err (coordination_failed "inspect gateway rates"), s1)
  | (Ok observation, s1) =>
      match CleanupExpiredLeases hmac c tr_lease [mkConcurrencyLimit dimension (Concurrency capacity)] s1 with
      | (Err e, s2) => (Err (coordination_failed "inspect gateway concurrency"), s2)
      | (Ok leases, s2) =>
          let daily := 0 <? DailyTokens capacity in
          match RemainingTokens <$> OBuckets observation, CleanInUse leases, daily with
          | [requests; tokens], [in_use], false =>
              (Ok (mkCapacityObservation (OObservedAt observation) (RequestsPerMinute capacity) requests
                     (TokensPerMinute capacity) tokens 0 0 None (Concurrency capacity) (InUse in_use)), s2)
          | [requests; tokens; daily_tokens], [in_use], true =>
              (Ok (mkCapacityObservation (OObservedAt observation) (RequestsPerMinute capacity) requests
                     (TokensPerMinute capacity) tokens (DailyTokens capacity) daily_tokens
                     (Some (nextDailyReset (OObservedAt observation) (DailyResetMinuteUTC capacity)))
                     (Concurrency capacity) (InUse in_use)), s2)
          | _, _, _ => (Err (coordination_failed "inspect gateway capacity returned incomplete state"), s2)
          end
      end
  end.

Definition InspectCredential (tr1 tr2 tr3 tr4 : Transport) (input : CredentialCapacityInput) (s : S) :
    result GoError CredentialCapacity * S :=
  if bool_decide (CiCredentialID input = uuid_Nil) then (Err (coordination_failed "credential id is required"), s)
  else
    let capacity :=
      effectiveCredentialCapacity config (CiRPMLimit input) (CiTPMLimit input) (CiConcurrencyLimit input) in
    match inspectCapacity tr1 tr2 (mkDimension ScopeCredential (CiCredentialID input)) capacity s with
    | (Err e, s1) => (Err e, s1)
    | (Ok local, s1) =>
        match sharedUpstreamCapacity (CiProviderID input) (CiSharedCapacityScope input) (CiSharedRPMLimit input)
                (CiSharedTPMLimit input) (CiSharedConcurrencyLimit input) (CiSharedDailyTokenLimit input)
                (CiSharedDailyResetMinuteUTC input) with
        | Err e => (Err (coordination_failed "inspect shared upstream capacity"), s1)
        | Ok None => (Ok (mkCredentialCapacity local None), s1)
        | Ok (Some (dimension, sharedCapacity)) =>
            match inspectCapacity tr3 tr4 dimension sharedCapacity s1 with
            | (Err e, s2) => (Err e, s2)
            | (Ok observation, s2) => (Ok (mkCredentialCapacity local (Some observation)), s2)
            end
        end
    end.
End adapter.

(** * What acquiring capacity guarantees

    The theorems about [src/internal/requestflow/coordination_adapter.go]: a
    request holds its lease exactly when it also got its tokens, a failure
    gives the lease back, and the reset time shown to administrators is the
    one the rate script uses. *)

Section adapter.
Context (hmac : string -> string -> string).
Context {L : Lua} {S : Type} {V : Valkey S} {VL : @ValkeyLaws S V}.
Context (c : Coordinator) (config : CoordinationConfig).
Implicit Types (s : S).

(** ** Keys *)

Lemma limit_keys_dims limits seen keys dims :
  limit_keys hmac c limits seen = Ok (keys, dims) -> dimension_keys hmac c dims seen = Ok keys.
Proof using Type.
  revert seen keys dims. induction limits as [|l limits IH]; intros seen keys dims; simpl; [by intros [= <- <-]|].
  destruct (validateDimension (LimDimension l)) eqn:Hv; [done|]. destruct (_ || _)%bool; [done|].
  case_bool_decide as Hs; [done|]. destruct (limit_keys hmac c limits _) as [[keys' dims']|] eqn:Hr; [|done].
  intros [= <- <-]. simpl. rewrite Hv, bool_decide_false by done. by rewrite (IH _ _ _ Hr).
Qed.

Lemma length_limit_keys limits seen keys dims :
  limit_keys hmac c limits seen = Ok (keys, dims) -> length dims = length limits.
Proof using VL. intros (-> & _)%(limit_keys_spec hmac (S:=S)). by rewrite length_fmap. Qed.

(** The reference of a lease taken is valid for releasing it. *)
Lemma granted_reference id ttl limits keys dims :
  prepareLeaseAcquire hmac c id ttl limits = Ok (keys, dims) ->
  prepareLeaseRef hmac c (mkLeaseRef id dims) Millisecond = Ok keys.
Proof using VL.
  unfold prepareLeaseAcquire, prepareConcurrencyLimits, prepareLeaseRef, validateLeaseIDAndTTL. simpl.
  destruct ((slen id =? 0) || (maximumSubjectBytes <? slen id))%bool; [done|].
  destruct (_ || _)%bool; [done|]. destruct limits as [|l limits]; [done|].
  destruct (_ <? _) eqn:Hmax; [done|]. intros H. pose proof (length_limit_keys _ _ _ _ H) as Hlen.
  apply limit_keys_dims in H. destruct dims as [|d dims]; [done|]. rewrite Hlen, Hmax. done.
Qed.

Lemma lease_not_rate d limit : leaseKey hmac c d <> rateKey hmac c limit.
Proof using Type. unfold leaseKey, rateKey. intros Heq%append_prefix_inj. simpl in Heq. discriminate. Qed.

(** Charging tokens leaves leases alone. *)
Lemma AcquireRate_leases tr limits s d :
  clock (AcquireRate hmac c tr limits s).2 = clock s /\
  live (AcquireRate hmac c tr limits s).2 (leaseKey hmac c d) = live s (leaseKey hmac c d).
Proof using VL.
  rewrite AcquireRate_state. destruct (prepareRateLimits hmac c limits) as [keys|] eqn:Hp; [|done].
  assert (Hnin : leaseKey hmac c d ∉ keys.*1).
  { intros (ka & Hk & Hin)%list_elem_of_fmap. destruct (prepared_keys _ _ _ _ _ Hp Hin) as [l Hl].
    apply (lease_not_rate d l). congruence. }
  destruct (run_script_state tr (acquireRateScript keys) s) as [-> | ->]; [done|].
  pose proof (acquire_script_touches keys s) as Ht. split; [apply Ht|by eapply touches_live].
Qed.

(** Giving back a lease that was fresh. *)
Lemma release_fresh tr id keys dims s s' x :
  prepareLeaseRef hmac c (mkLeaseRef id dims) Millisecond = Ok keys -> 0 < clock s' -> tr <> RequestLost ->
  (forall k, k ∈ keys -> live s k !! leaseMember hmac c id = None) ->
  (forall k, k ∈ keys -> live s' k = <[leaseMember hmac c id := x]> (live s k)) ->
  forall k, k ∈ keys -> live (ReleaseLease hmac c tr (mkLeaseRef id dims) s').2 k = live s k.
Proof using VL.
  intros Hp Hc Htr Hfresh Hl k Hk.
  assert (Hst : (ReleaseLease hmac c tr (mkLeaseRef id dims) s').2 =
                (ReleaseLease hmac c Replied (mkLeaseRef id dims) s').2).
  { destruct tr; [done|done|apply ReleaseLease_lost]. }
  rewrite Hst. destruct (ReleaseLease_replied hmac c _ _ _ Hp Hc) as (s'' & -> & _ & Hd). simpl.
  rewrite Hd by done. simpl. rewrite Hl by done. apply delete_insert_id. by apply Hfresh.
Qed.

(** Acquiring capacity settles.  With a fresh lease identifier and the
    lease reply arriving, a request ends in one of two ways.  Either it gets
    its lease, live on all its dimensions for the configured time, and the
    tokens of all its buckets were granted.  Or it gets an error, capacity
    exhausted or coordination unavailable, and once its release has reached
    the server no live lease has changed on any dimension. *)
Theorem Acquire_settles id fate request dims keys refs s :
  LrExecutionID request <> uuid_Nil ->
  requestDimensions request config (effectiveCredentialCapacity config (LrRPMLimit request) (LrTPMLimit request)
                                      (LrConcurrency request)) = Ok dims ->
  prepareLeaseAcquire hmac c id (CfLeaseTTL config) (concurrencyLimits dims) = Ok (keys, refs) -> 0 < clock s ->
  on_lease fate = Replied ->
  (forall k, k ∈ keys -> live s k !! leaseMember hmac c id = None) ->
  let s1 := (AcquireLease hmac c Replied id (CfLeaseTTL config) (concurrencyLimits dims) s).2 in
  let '(r, s') := Acquire hmac c config (Ok id) fate request s in
  match r with
  | Ok l =>
      reference l = mkLeaseRef id refs /\ rateRefundReference l = id /\
      (exists d, AcquireRate hmac c Replied (rate_limits (LrEstimatedTokens request) dims) s1 = (Ok d, s') /\
                 RGranted d = true) /\
      (forall k, k ∈ keys -> live s' k = <[leaseMember hmac c id := clock s + Milliseconds (CfLeaseTTL config)]> (live s k))
  | Err e =>
      ((exists t, e = CapacityError t) \/ errors_Is is_CoordinationFailed e = true) /\
      (on_release fate <> RequestLost -> forall k, k ∈ keys -> live s' k = live s k)
  end.
Proof using VL.
  intros Hex Hdims Hp Hclk Hfate Hfresh s1. unfold Acquire. rewrite bool_decide_false, Hdims, Hfate by done.
  destruct (AcquireLease_replied hmac c id _ _ keys refs s Hp Hclk) as (d & s2 & Hal & Ht & _ & _ & Hcase).
  pose proof (prepared_acquire hmac c id _ _ keys refs s Hp) as (Hkeys & _).
  unfold s1. rewrite Hal. clear s1. cbn [snd].
  destruct Hcase as [(_ & Hg & Hlease & _ & Hlive)|(_ & Hg & _ & Hlive)]; rewrite Hg; cbn [negb].
  2:{ split; [left; by eexists|]. intros _. done. }
  rewrite Hlease. pose proof (granted_reference _ _ _ _ _ Hp) as Href.
  set (limits := rate_limits (LrEstimatedTokens request) dims).
  assert (Hafter : clock (AcquireRate hmac c (on_rate fate) limits s2).2 = clock s /\
    forall k, k ∈ keys -> live (AcquireRate hmac c (on_rate fate) limits s2).2 k =
      <[leaseMember hmac c id := clock s + Milliseconds (CfLeaseTTL config)]> (live s k)).
  { split; [rewrite (proj1 (AcquireRate_leases _ _ _ GlobalDimension)); apply Ht|].
    intros k Hk. rewrite <- Hlive by done. rewrite Hkeys in Hk. apply list_elem_of_fmap in Hk as (d' & -> & _).
    apply AcquireRate_leases. }
  assert (Hrel : forall s3, clock s3 = clock s ->
    (forall k, k ∈ keys -> live s3 k = <[leaseMember hmac c id := clock s + Milliseconds (CfLeaseTTL config)]> (live s k)) ->
    on_release fate <> RequestLost -> forall k, k ∈ keys ->
    live (ReleaseLease hmac c (on_release fate) (mkLeaseRef id refs) s3).2 k = live s k).
  { intros s3 Hc3 Hl3 Hnl. eapply release_fresh; [exact Href|lia|done|done|exact Hl3]. }
  destruct (AcquireRate hmac c (on_rate fate) limits s2) as [[rd|e] s3] eqn:Hrate; simpl in Hafter; destruct Hafter as [Hc3 Hl3].
  - destruct (RGranted rd) eqn:Hrg; simpl.
    + split; [done|]. split; [done|]. split; [|done]. exists rd. split; [|done].
      destruct (on_rate fate); [done|..]; exfalso; revert Hrate; unfold AcquireRate;
        by destruct (prepareRateLimits hmac c limits).
    + split; [left; by eexists|]. by apply Hrel.
  - split; [by right|]. by apply Hrel.
Qed.
End adapter.

(** ** The daily reset *)

Lemma unixEpoch_days : unixEpoch = 719162 * Day.
Proof. vm_compute. reflexivity. Qed.

(** The reset time reported for a daily quota is the end of the window
    the rate script charges: the first instant after the observation at which
    the minute of the day is the reset minute, a whole number of days and that
    minute after the epoch. *)
Theorem nextDailyReset_matches_script now minute d tokens cap idle :
  0 <= now -> 0 <= minute < 1440 ->
  nextDailyReset (UnixMilli now) minute =
  UnixMilli (now + until_reset now (bucketArgs (dailyTokenBucket d cap minute tokens) idle)).
Proof.
  intros Hnow Hmin. unfold until_reset, window_index_at, bucketArgs, dailyTokenBucket. simpl window_ms. simpl window_offset_ms.
  change (Milliseconds (24 * Hour)) with 86400000.
  assert (Hoff : Milliseconds (minute * Minute) = minute * 60000).
  { unfold Milliseconds. replace (minute * Minute) with (minute * 60000 * Millisecond) by (unfold Minute, Second, Millisecond; lia).
    apply Z.quot_mul. unfold Millisecond. lia. }
  rewrite Hoff. set (w := (now - minute * 60000) `div` 86400000).
  pose proof (Z.div_mod (now - minute * 60000) 86400000 ltac:(lia)) as Hdm. fold w in Hdm.
  pose proof (Z.mod_pos_bound (now - minute * 60000) 86400000 ltac:(lia)) as Hmod.
  rewrite Z.max_r by lia.
  unfold nextDailyReset, day_start, UnixMilli. rewrite unixEpoch_days.
  assert (Hday : (719162 * Day + now * Millisecond) `mod` Day = (now `mod` 86400000) * Millisecond).
  { replace (719162 * Day + now * Millisecond) with (now * Millisecond + 719162 * Day) by lia.
    rewrite Z_mod_plus_full. change Day with (86400000 * Millisecond).
    rewrite Zmult_mod_distr_r. done. }
  rewrite Hday. pose proof (Z.div_mod now 86400000 ltac:(lia)) as Hn.
  pose proof (Z.mod_pos_bound now 86400000 ltac:(lia)) as Hnm. set (q := now `div` 86400000) in *.
  set (m := now `mod` 86400000) in *. unfold time_add, After.
  change Day with (86400000 * Millisecond). change Minute with (60000 * Millisecond). unfold Millisecond in *.
  destruct (Z.ltb_spec (719162 * (86400000 * 1000000) + now * 1000000)
              (719162 * (86400000 * 1000000) + now * 1000000 - m * 1000000 + minute * (60000 * 1000000))) as [Hlt|Hge]; simpl.
  - assert (w = q - 1) by nia. nia.
  - assert (w = q) by nia. nia.
Qed.

Lemma nextDailyReset_matches_script_witness :
  nextDailyReset (UnixMilli 90000001) 60 = UnixMilli (172800000 + 3600000).
Proof.
  rewrite (nextDailyReset_matches_script 90000001 60 GlobalDimension 1 100 0) by lia.
  vm_compute. reflexivity.
Defined.

(** ** Concrete requests *)

Definition small : Capacity := mkCapacity 60 1000 0 0 2.
Definition demo_config : CoordinationConfig := mkCoordinationConfig small small small small small (30 * Second).

Definition demo_lease_request (tokens : Z) : LeaseRequest :=
  mkLeaseRequest "req" "exec" "model" "provider" "cred" "pool" tokens None None None (Some "team") (Some 10) (Some 800)
    (Some 1) (Some 5000) (Some 30).

Definition demo_dimensions (tokens : Z) : list (Dimension * Capacity) :=
  match requestDimensions (demo_lease_request tokens) demo_config
          (effectiveCredentialCapacity demo_config None None None) with Ok dims => dims | Err _ => [] end.

Definition lease_keys : list string * list Dimension :=
  Eval vm_compute in
  match prepareLeaseAcquire rate_hmac rate_coordinator "l1" (30 * Second) (concurrencyLimits (demo_dimensions 100)) with
  | Ok kd => kd
  | Err _ => ([], [])
  end.

Definition demo_fate : Fate := mkFate Replied Replied Replied.

Lemma Acquire_settles_witness :
  exists l s', Acquire rate_hmac rate_coordinator demo_config (Ok "l1") demo_fate (demo_lease_request 100) rate_server = (Ok l, s') /\
    reference l = mkLeaseRef "l1" lease_keys.2 /\
    forall k, k ∈ lease_keys.1 -> live s' k = <[leaseMember rate_hmac rate_coordinator "l1" := 31000]> (live rate_server k).
Proof.
  pose proof (Acquire_settles rate_hmac rate_coordinator demo_config "l1" demo_fate (demo_lease_request 100)
                (demo_dimensions 100) lease_keys.1 lease_keys.2 rate_server) as H.
  cbv zeta in H. destruct (Acquire _ _ _ _ _ _ rate_server) as [[l|e] s'] eqn:He.
  - exists l, s'. split; [reflexivity|].
    assert (Hall : reference l = mkLeaseRef "l1" lease_keys.2 /\ rateRefundReference l = "l1" /\
      (exists d, AcquireRate rate_hmac rate_coordinator Replied (rate_limits 100 (demo_dimensions 100))
         (AcquireLease rate_hmac rate_coordinator Replied "l1" (30 * Second) (concurrencyLimits (demo_dimensions 100)) rate_server).2 = (Ok d, s') /\
                 RGranted d = true) /\
      (forall k, k ∈ lease_keys.1 -> live s' k =
         <[leaseMember rate_hmac rate_coordinator "l1" := 1000 + Milliseconds (30 * Second)]> (live rate_server k))).
    { apply H; [discriminate|vm_compute; reflexivity|vm_compute; reflexivity|exact rate_server_clock|reflexivity|].
      intros k _. reflexivity. }
    destruct Hall as (H1 & _ & _ & H2). split; [exact H1|exact H2].
  - vm_compute in He. discriminate.
Defined.

(** A request estimated above the per-minute token capacity is not refused as
    too large: its lease is taken, the bucket check rejects the argument, and
    the caller is told that coordination is unavailable. *)
Lemma oversized_request_unavailable :
  (Acquire rate_hmac rate_coordinator demo_config (Ok "l1") demo_fate (demo_lease_request 801) rate_server).1 =
    Err (coordination_failed "acquire rate").
Proof. vm_compute. reflexivity. Qed.
