(* ===== verification/Effects.v ===== *)
(** * The workflow's calls to the outside

    Models the types of [src/internal/requestflow/types.go] and the calls the
    workflow makes through its interfaces: repository, accounting, admission,
    coordination, secrets, provider adapter, HTTP client, clock and sinks.

    [Op R] is a call with a reply of type [R]; an [Env] answers calls with a
    state of its own, in any way.  A computation of the workflow runs in [M]:
    it threads the environment's state and a trace of every call with its
    reply.  Cancelling a context is the environment's doing: a call may answer
    with an error, [ContextErr] tells whether the context has ended. *)

From S2P Require Import Prelude GoStrings Canonical Capabilities Capacity.

Local Open Scope Z_scope.

(** ** types.go *)

Record Candidate := mkCandidate {
  CaID : UUID;
  CaRPMLimit : option Z;
  CaTPMLimit : option Z;
  CaConcurrencyLimit : option Z;
  CaPriority : Z;
  CaWeight : Z;
  CaSharedCapacityScope : option string;
  CaSharedRPMLimit : option Z;
  CaSharedTPMLimit : option Z;
  CaSharedConcurrencyLimit : option Z;
  CaSharedDailyTokenLimit : option Z;
  CaSharedDailyResetMinuteUTC : option Z;
  CaConsecutiveFailures : Z;
  CaLastSuccessAt : option Z;
  CaCooldownUntil : option Z;
  CaHealthGeneration : Z;
}.

Definition zeroCandidate : Candidate :=
  mkCandidate uuid_Nil None None None 0 0 None None None None None None 0 None None 0.

Inductive CredentialObservationKind := CredentialSucceeded | CredentialFailed.

Record CredentialObservation := mkCredentialObservation {
  ObKind : CredentialObservationKind;
  ObHealthGeneration : Z;
  ObObservedAt : Z;
  ObErrorKind : option ErrorKind;
  ObCooldownUntil : option Z;
}.

(** [requestflow.Usage] *)
Record Usage := mkUsage { InputTokens : Z; OutputTokens : Z; Source : UsageSource }.

Inductive AttemptStatus := StSending | StStreaming | StCompleted | StFailed | StUncertain.

Record AttemptUpdate := mkAttemptUpdate {
  AuStatus : AttemptStatus;
  AuHTTPStatus : option Z;
  AuUpstreamRequestID : option string;
  AuErrorKind : option ErrorKind;
  AuRetryAfterAt : option Z;
  AuSentAt : option Z;
  AuFirstByteAt : option Z;
  AuCompletedAt : option Z;
  AuUsage : option Usage;
  AuCredential : option CredentialObservation;
}.

Record Accepted := mkAccepted { AcRequestID : UUID; AcResourcePoolID : UUID; AcExisting : bool }.

Record AcceptCommand := mkAcceptCommand {
  AmRequestID : UUID;
  AmUserID : UUID;
  AmGatewayKeyID : UUID;
  AmModelID : UUID;
  AmIdempotencyKey : option string;
  AmRequestDigest : string;
  AmStream : bool;
}.

(** The sinks are present or not; calling one is an operation below. *)
Record ChatCommand := mkChatCommand {
  CmKeyID : UUID;
  CmUserID : UUID;
  CmRequest : ChatRequest;
  CmRequestDigest : string;
  CmIdempotencyKey : option string;
  CmRequestID : UUID;
  CmAcceptedSink : bool;
  CmResultSink : bool;
}.

Record ChatResult := mkChatResult { CrsRequestID : UUID; CrsResponse : ChatResponse }.

Record RecoverableCompletion := mkRecoverable { RvClaim : Claim; RvUsage : Usage }.
Record RecoveryResult := mkRecoveryResult { RvCompleted : Z; RvFailedAccepted : Z; RvUncertain : Z }.

(** A lease is known to the workflow by a handle. *)
Definition LeaseHandle : Type := Z.

(** One read of a response body: the bytes, and how the stream goes on. *)
Inductive ReadEnd := ReadMore | ReadEOF | ReadFailed (e : GoError).

(** ** Operations *)

Inductive Op : Type -> Type :=
(* clock and randomness; a random source answers with what it would return *)
| Now : Op Z
| RouterRandom : Op (Z -> Z)
| RetryRandom : Op (Z -> Z)
| NewUUID : Op UUID
| ContextErr : Op (option GoError)
| Wait (delay : Z) : Op (option GoError)
(* repository *)
| ResolveAvailableModel (key : UUID) (name : string) : Op (result GoError Model)
| ListResourcePoolCandidates (pool model : UUID) : Op (result GoError (list Candidate))
| AcquireCredentialHealthPermit (credential : UUID) : Op (result GoError Z)
| ClaimExecution (request execution : UUID) : Op (result GoError Claim)
| MarkExecutionStreaming (claim : Claim) (attempt : UUID) (update : AttemptUpdate) : Op (option GoError)
| MarkExecutionUncertain (claim : Claim) (attempt : UUID) (update : AttemptUpdate) (kind : ErrorKind) (detail : string) :
    Op (option GoError)
| CreateAttempt (claim : Claim) (credential : UUID) (sequence : Z) : Op (result GoError UUID)
| UpdateAttempt (claim : Claim) (attempt : UUID) (update : AttemptUpdate) : Op (option GoError)
| ListRecoverableCompletions (before limit : Z) : Op (result GoError (list RecoverableCompletion))
| ListStaleQueuedRequests (before limit : Z) : Op (result GoError (list UUID))
| RecoverStaleExecutions (before limit : Z) : Op (Z * option GoError)
(* accounting *)
| AcceptRequest (command : AcceptCommand) : Op (result GoError Accepted)
| Complete (claim : Claim) (usage : Usage) : Op (option GoError)
| Fail_ (claim : Claim) (kind detail : string) : Op (option GoError)
| FailAccepted (request : UUID) (kind detail : string) : Op (option GoError)
(* admission and coordination *)
| AdmitterAcquire (request user : UUID) : Op (option GoError)
| AdmissionRelease : Op unit
| CoordinatorAcquire (request : LeaseRequest) : Op (result GoError LeaseHandle)
| LeaseRelease (lease : LeaseHandle) : Op (option GoError)
| LeaseReconcile (lease : LeaseHandle) (actual : Z) : Op (option GoError)
(* heartbeat of the execution *)
| StartHeartbeat (claim : Claim) : Op unit
| StopHeartbeat : Op unit
(* provider adapter, secret and HTTP *)
| FactoryAdapter (model : Model) : Op (option GoError)
| CredentialSecret (credential : UUID) : Op (result GoError string)
| BuildRequest (secret : string) (request : ChatRequest) : Op (option GoError)
| FactoryClient (candidate : Candidate) : Op (option GoError)
| ClientDo : Op (result GoError Z)
| BodyReadAll (limit : Z) : Op (result GoError string)
| BodyRead : Op (string * ReadEnd)
| BodyClose : Op unit
| ClassifyError (status : Z) (body : string) : Op Error
| ParseResponse (status : Z) (body : string) : Op (result GoError ChatResponse)
| ParseStream : Op unit
| ParserFeed (chunk : string) : Op (result GoError (list StreamEvent))
| ParserClose : Op (result GoError (list StreamEvent))
(* sinks and metrics *)
| AcceptedSink (request : UUID) : Op (option GoError)
| ResultSink (result : ChatResult) : Op (option GoError)
| StreamSink (request : UUID) (event : StreamEvent) : Op (option GoError)
| ObserveAttempt (provider outcome error_kind : string) : Op unit.

(** A call with its reply. *)
Inductive Ev :=
| Called (R : Type) (op : Op R) (reply : R).
Arguments Called {R} op reply.

Class Env (W : Type) := { answer : forall R : Type, Op R -> W -> R * W }.

(** ** The monad

    A computation threads the environment and the trace.  It returns no
    result when a loop ran out of fuel; the trace then holds the calls made
    so far. *)

Section monad.
Context {W : Type} `{!Env W}.

Record St := mkSt { world : W; trace : list Ev }.

Definition M (A : Type) : Type := St -> option A * St.

Definition ret {A} (a : A) : M A := λ st, (Some a, st).
Definition out_of_fuel {A} : M A := λ st, (None, st).

Definition bind {A B} (m : M A) (k : A -> M B) : M B := λ st,
  match m st with
  | (Some a, st') => k a st'
  | (None, st') => (None, st')
  end.

Definition call {R} (op : Op R) : M R := λ st,
  let '(r, w) := answer R op (world st) in (Some r, mkSt w (trace st ++ [Called op r])).

(** [defer cleanup(); body] *)
Definition deferred {A} (cleanup : M unit) (body : M A) : M A :=
  bind body (λ a, bind cleanup (λ _, ret a)).

(** [_ = m] *)
Definition ignore {A} (m : M A) : M unit := bind m (λ _, ret tt).
End monad.
Arguments St W : clear implicits.
Arguments mkSt {W} world trace.
Arguments M W A : clear implicits.

Declare Scope flow_scope.
Delimit Scope flow_scope with flow.

Notation "'let!' x ':=' m 'in' k" := (bind m (λ x, k))
  (at level 10, x pattern, m at level 100, k at level 200,
   format "'[v' 'let!'  x  ':='  m  'in' '/' k ']'") : flow_scope.
Notation "m ;; k" := (bind m (λ _, k))
  (at level 100, k at level 200, right associativity) : flow_scope.
