(* ===== verification/Workflow.v ===== *)
(** * The request workflow

    Models [src/internal/requestflow]: [service.go] (construction,
    preparation, the choice of a candidate, error mapping), [chat.go]
    (non-streaming requests, retries, classification), [stream.go]
    (streaming requests) and [recovery.go].

    A method of [Service] is a computation of the monad of [Effects]: every
    call through an interface is an operation, in the order of the code.
    [defer] is [deferred].  The health permit of an attempt has no state in
    the code ([healthPermit.Complete] does nothing), so it is not passed on.

    The loops that pick a candidate and the loop over attempts have the
    fuel the code cannot exceed.  The loop that reads a stream ends when the
    upstream ends it: its fuel [reads] is the number of reads followed. *)

From stdpp Require Import pretty.
From S2P Require Import Prelude Routing Resilience GoStrings Valkey Lease Rate Canonical Capabilities Capacity Effects.

Local Open Scope Z_scope.
Local Open Scope flow_scope.

(** ** Pure helpers *)

Fixpoint strip_dashes (s : string) : string :=
  match s with
  | EmptyString => EmptyString
  | String c s' => if Ascii.eqb c "-"%char then strip_dashes s' else String c (strip_dashes s')
  end.

Definition publicCompletionID (requestID : UUID) : string := "chatcmpl_" +:+ strip_dashes requestID.

(** [string(kind)] *)
Definition kind_string (k : ErrorKind) : string :=
  match k with
  | ErrorInvalidRequest => "invalid_request"
  | ErrorAuthentication => "authentication"
  | ErrorPermission => "permission"
  | ErrorQuota => "quota"
  | ErrorAdmissionTimeout => "admission_timeout"
  | ErrorRateLimit => "rate_limit"
  | ErrorUnsupportedCapability => "unsupported_capability"
  | ErrorProviderConfiguration => "provider_configuration"
  | ErrorProviderTemporary => "provider_temporary"
  | ErrorProviderPermanent => "provider_permanent"
  | ErrorStreamInterrupted => "stream_interrupted"
  | ErrorUncertain => "uncertain"
  | ErrorStorageUnavailable => "storage_unavailable"
  | ErrorInternalInvariant => "internal_invariant"
  end.

Definition workflowError (err : GoError) : Error :=
  if errors_Is is_ModelNotFound err then
    with_status (with_parameter (new_error ErrorInvalidRequest "model_not_found" "model was not found") "model") 404
  else if errors_Is is_ModelNotAuthorized err then
    with_status (with_parameter (new_error ErrorPermission "model_not_authorized"
      "model is not authorized for this key") "model") 403
  else if errors_Is is_IdempotencyConflict err then
    with_status (new_error ErrorInvalidRequest "idempotency_conflict"
      "idempotency key was reused with a different request") 409
  else if errors_Is is_InvalidAccounting err then
    with_status (new_error ErrorInvalidRequest "invalid_request_accounting" "request usage could not be recorded") 400
  else
    with_cause (new_error ErrorStorageUnavailable "request_state_unavailable" "request state could not be persisted") err.

Definition admissionError (err : GoError) : Error :=
  match as_CapacityError err with
  | Some at_ =>
      with_cause (with_retry_at (new_error ErrorRateLimit "admission_capacity_exhausted"
        "request capacity is exhausted; retry after the reported time") at_) err
  | None =>
      if errors_Is is_AdmissionQueueFull err then
        with_cause (with_status (new_error ErrorRateLimit "admission_queue_full" "the request queue is full") 429) err
      else if errors_Is is_AdmissionTimedOut err then
        with_cause (with_status (new_error ErrorRateLimit "admission_timeout"
          "the request waited too long for capacity") 429) err
      else if errors_Is is_AdmissionCanceled err then
        with_cause (with_status (new_error ErrorInvalidRequest "request_canceled"
          "the request was canceled while waiting for capacity") 408) err
      else if errors_Is is_CoordinationFailed err then
        with_cause (with_status (new_error ErrorStorageUnavailable "admission_unavailable"
          "request coordination is temporarily unavailable") 503) err
      else with_cause (new_error ErrorInternalInvariant "admission_failed" "request admission failed") err
  end.

Definition storageError (code : string) (err : GoError) : Error :=
  with_cause (new_error ErrorStorageUnavailable code "request state could not be persisted") err.

Definition asCanonical (err : GoError) (fallbackCode : string) : Error :=
  match as_Error err with
  | Some providerError => providerError
  | None => with_cause (new_error ErrorProviderPermanent fallbackCode "provider returned an invalid response") err
  end.

Definition optionalString (value : string) : option string := if bool_decide (value = "") then None else Some value.

Definition timeOrZero (value : option Z) : Z := default 0 value.
Definition poolUnavailableCode : string := "resource_pool_unavailable".

Definition valueOrNow (value : option Z) (now : Z) : Z :=
  match value with
  | None => now
  | Some t => if IsZero t then now else t
  end.

Definition earlierRetryAt (left right : option Z) : option Z :=
  match left with
  | None => right
  | Some l =>
      if IsZero l then right
      else
        match right with
        | None => left
        | Some r => if (IsZero r || Before l r)%bool then left else right
        end
  end.

Definition circuitUnavailableError (retryAt : option Z) : Error :=
  let providerError :=
    new_error ErrorProviderTemporary "upstream_circuit_open" "all eligible upstream credentials are cooling down" in
  match retryAt with
  | Some at_ => if IsZero at_ then providerError else with_retry_at providerError at_
  | None => providerError
  end.

Definition requiredCapabilities (request : ChatRequest) : list string :=
  ["chat"] ++ (if Stream_ request then ["streaming"] else []) ++
  (if bool_decide (Tools request = []) then [] else ["tools"]) ++
  (match Reasoning_ request with Some _ => ["reasoning"] | None => [] end) ++
  match ResponseFormat_ request with
  | Some format => if bool_decide (RfType format = ResponseFormatText) then [] else ["structured_output"]
  | None => []
  end.

Definition failureClass (kind : ErrorKind) : FailureClass :=
  match kind with
  | ErrorAuthentication => FailureAuthentication
  | ErrorPermission => FailurePermission
  | ErrorQuota => FailureQuota
  | ErrorRateLimit => FailureRateLimit
  | ErrorProviderTemporary => FailureProviderTemporary
  | ErrorProviderPermanent | ErrorProviderConfiguration => FailureProviderPermanent
  | ErrorStreamInterrupted => FailureStreamInterrupted
  | ErrorStorageUnavailable => FailureStorage
  | ErrorUncertain => FailureUncertain
  | _ => FailureInvalidRequest
  end.

Definition shouldTryNextCandidate (providerError : Error) : bool :=
  if negb (ReplaySafe providerError) then false
  else
    match Kind providerError with
    | ErrorAuthentication | ErrorPermission | ErrorQuota | ErrorRateLimit | ErrorProviderTemporary => true
    | _ => false
    end.

Definition retryAfter (value : option RetryAfter) : option Resilience.RetryAfter :=
  match value with
  | None => None
  | Some v =>
      Some (Resilience.mkRetryAfter
              (match DelaySeconds v with Some d => wrap64 (d * Second) | None => 0 end)
              (match Canonical.At v with Some at_ => at_ | None => 0 end))
  end.

Definition retryAfterAt (value : option RetryAfter) (now : Z) : option Z :=
  match value with
  | None => None
  | Some v =>
      match Canonical.At v, DelaySeconds v with
      | Some at_, _ => Some at_
      | None, Some d => Some (time_add now (wrap64 (d * Second)))
      | None, None => None
      end
  end.

Definition tripsCircuit (kind : ErrorKind) : bool :=
  (bool_decide (kind = ErrorRateLimit) || bool_decide (kind = ErrorProviderTemporary) ||
   bool_decide (kind = ErrorStreamInterrupted))%bool.

Definition length_Z (s : string) : Z := Z.of_nat (String.length s).

(** The output tokens estimated for one choice, added to [tokens]. *)
Definition choice_tokens (tokens : Z) (choice : ChatChoice) : Z :=
  let message := CcMessage choice in
  let t1 := foldl (λ t part, wrap64 (t + Z.quot (wrap64 (length_Z (CpText part) + 3)) 4)) tokens (MsContent message) in
  let t2 := match MsReasoning message with
            | Some r => wrap64 (t1 + Z.quot (wrap64 (length_Z (RcText r) + 3)) 4)
            | None => t1
            end in
  foldl (λ t call, wrap64 (t + Z.quot (wrap64 (length_Z (TfName (TcFunction call)) +
                                               length_Z (TfArguments (TcFunction call)) + 3)) 4))
    t2 (MsToolCalls message).

Definition responseUsage (request : ChatRequest) (response : ChatResponse) : Usage :=
  let input := EstimateInputTokens request in
  let output := foldl choice_tokens 0 (RsChoices response) in
  match RsUsage response with
  | None => mkUsage input output UsageEstimated
  | Some u => mkUsage (default input (RuInputTokens u)) (default output (RuOutputTokens u)) (RuSource u)
  end.

Definition credentialSuccess (observedAt healthGeneration : Z) : CredentialObservation :=
  mkCredentialObservation CredentialSucceeded healthGeneration observedAt None None.

(** The error a request leaves with when it never reached a definite answer. *)
Definition uncertainError (retryAt : Z) (cause : GoError) : Error :=
  with_cause (with_retry_at (new_error ErrorUncertain "upstream_outcome_uncertain"
    "upstream request outcome is uncertain") retryAt) cause.

(** ** service.go: construction *)

Record Config := mkConfig {
  MaxResponseBytes : Z;
  ExecutionHeartbeatInterval : Z;
  Circuit_ : CircuitConfig;
}.

(** The configuration and the retry policy of the service; the policy's
    random source is asked for with [RetryRandom]. *)
Record Service := mkService { config : Config; retry : RetryConfig }.

Definition New (dependencies_present : bool) (cfg : Config) (policy : RetryConfig) : result string Service :=
  if negb dependencies_present then Err "request workflow dependencies are required"
  else if MaxResponseBytes cfg <? 1024 then Err "maximum provider response size must be at least 1024 bytes"
  else if ExecutionHeartbeatInterval cfg <=? 0 then Err "execution heartbeat interval must be positive"
  else if OpenDuration (Circuit_ cfg) <=? 0 then Err "request workflow circuit configuration is invalid"
  else Ok (mkService cfg policy).

Record workflowRun := mkRun {
  command : ChatCommand;
  model : Model;
  request : ChatRequest;
  accepted : Accepted;
  claim : Claim;
  candidates : list Candidate;
  estimatedTokens_ : Z;
}.

Definition with_model (r : ChatRequest) (name : string) : ChatRequest :=
  mkChatRequest (CrRequestID r) name (Messages r) (Tools r) (ToolChoice_ r) (ParallelToolCalls r) (Stream_ r)
    (StreamUsage_ r) (MaxOutputTokens r) (N_ r) (Temperature r) (TopP r) (TopK r) (PresencePenalty r)
    (FrequencyPenalty r) (ThinkingBudget r) (Stop r) (ResponseFormat_ r) (Reasoning_ r) (PromptCacheKey r)
    (SafetyIdentifier r).

Definition leaseRequest (cl : Claim) (run : workflowRun) (candidate : Candidate) : LeaseRequest :=
  mkLeaseRequest (ClRequestID cl) (ClExecutionID cl) (MoID (model run)) (MoProviderID (model run)) (CaID candidate)
    (AcResourcePoolID (accepted run)) (estimatedTokens_ run) (CaRPMLimit candidate) (CaTPMLimit candidate)
    (CaConcurrencyLimit candidate) (CaSharedCapacityScope candidate) (CaSharedRPMLimit candidate)
    (CaSharedTPMLimit candidate) (CaSharedConcurrencyLimit candidate) (CaSharedDailyTokenLimit candidate)
    (CaSharedDailyResetMinuteUTC candidate).

Definition with_health (candidate : Candidate) (generation : Z) : Candidate :=
  mkCandidate (CaID candidate) (CaRPMLimit candidate) (CaTPMLimit candidate) (CaConcurrencyLimit candidate)
    (CaPriority candidate) (CaWeight candidate) (CaSharedCapacityScope candidate) (CaSharedRPMLimit candidate)
    (CaSharedTPMLimit candidate) (CaSharedConcurrencyLimit candidate) (CaSharedDailyTokenLimit candidate)
    (CaSharedDailyResetMinuteUTC candidate) (CaConsecutiveFailures candidate) (CaLastSuccessAt candidate)
    (CaCooldownUntil candidate) generation.

(** What [selectCandidate] hands to the router. *)
Definition routeCandidate (run : workflowRun) (candidate : Candidate) : Routing.Candidate :=
  Routing.mkCandidate (CaID candidate) (MoID (model run)) (AcResourcePoolID (accepted run)) true true true
    (requiredCapabilities (request run)) (timeOrZero (CaCooldownUntil candidate)) (CaPriority candidate)
    (CaWeight candidate).

Definition byID (cs : list Candidate) : gmap string Candidate :=
  foldl (λ m candidate, <[CaID candidate := candidate]> m) ∅ cs.

(** ** stream.go: the state of one stream *)

Definition zeroEvent : StreamEvent :=
  mkStreamEvent (StreamOther "") "" "" "" 0 0 (RoleOther "") "" "" None (FinishReasonOther "") None None.

Record streamState := mkStreamState {
  committed : bool;
  done_ : bool;
  firstByteAt : option Z;
  inputTokens : Z;
  outputTokens : Z;
  usageSource : UsageSource;
  doneEvent : StreamEvent;
}.

Definition zeroStreamState : streamState := mkStreamState false false None 0 0 (UsageSourceOther "") zeroEvent.

Definition streamState_usage (state : streamState) : Usage :=
  mkUsage (inputTokens state) (outputTokens state)
    (match usageSource state with UsageSourceOther "" => UsageUnknown | source => source end).

Definition commit (now : Z) (state : streamState) : streamState :=
  mkStreamState true (done_ state) (Some now) (inputTokens state) (outputTokens state) (usageSource state)
    (doneEvent state).

(** The usage an event reports, or an estimate of what it carries. *)
Definition count_usage (event : StreamEvent) (state : streamState) : streamState :=
  match SeUsage event with
  | Some u =>
      mkStreamState (committed state) (done_ state) (firstByteAt state) (default (inputTokens state) (RuInputTokens u))
        (default (outputTokens state) (RuOutputTokens u)) (RuSource u) (doneEvent state)
  | None =>
      mkStreamState (committed state) (done_ state) (firstByteAt state) (inputTokens state)
        (wrap64 (outputTokens state + EstimatedOutputTokens [event])) (usageSource state) (doneEvent state)
  end.

Definition finish (event : StreamEvent) (state : streamState) : streamState :=
  mkStreamState (committed state) true (firstByteAt state) (inputTokens state) (outputTokens state)
    (usageSource state) event.

Definition public_event (run : workflowRun) (event : StreamEvent) : StreamEvent :=
  mkStreamEvent (SeType event) (publicCompletionID (AcRequestID (accepted run))) (SeRequestID event)
    (MoPublicName (model run)) (SeCreatedAt event) (SeChoiceIndex event) (SeRole event) (SeContentDelta event)
    (SeReasoningDelta event) (SeToolCallDelta event) (SeFinishReason event) (SeUsage event) (SeError event).

(** The error [finishBrokenStream] leaves in place of [e]. *)
Definition brokenError (state : streamState) (retryAt : Z) (e : Error) : Error :=
  if committed state then
    mkError ErrorStreamInterrupted (Code e) (Message e) (Parameter_ e) (Provider e) (ProviderType e) (EModel e)
      (Capability_ e) (ERequestID e) (HTTPStatus e) (RetryAfter_ e) (ReplaySafe e) (Cause e)
  else
    with_retry_at (mkError ErrorUncertain "upstream_outcome_uncertain" "upstream request outcome is uncertain"
      (Parameter_ e) (Provider e) (ProviderType e) (EModel e) (Capability_ e) (ERequestID e) 0 (RetryAfter_ e)
      (ReplaySafe e) (Cause e)) retryAt.

(** ** service.go: preparation and the choice of a candidate *)

Section service.
Context {W : Type} `{!Env W} (s : Service).

Definition openDuration : Z := OpenDuration (Circuit_ (config s)).

Definition observeAttempt (kind : string) (err : option Error) : M W unit :=
  match err with
  | None => call (ObserveAttempt kind "succeeded" "none")
  | Some e =>
      let outcome :=
        if (bool_decide (Kind e = ErrorUncertain) || bool_decide (Kind e = ErrorStreamInterrupted))%bool
        then "uncertain" else "failed" in
      call (ObserveAttempt kind outcome (kind_string (Kind e)))
  end.

(** [prepare] once the request is accepted: the candidates, the link to the
    caller, the claim of the execution and its heartbeat. *)
Definition prepare_accepted (cmd : ChatCommand) (mdl : Model) (upstreamRequest : ChatRequest) (estimated : Z)
    (acc : Accepted) : M W (result Error workflowRun) :=
  let! listed := call (ListResourcePoolCandidates (AcResourcePoolID acc) (MoID mdl)) in
  match listed with
  | Err err =>
      call AdmissionRelease ;;
      call (FailAccepted (AcRequestID acc) "candidate_lookup_failed" "upstream candidates could not be read") ;;
      ret (Err (with_cause (new_error ErrorStorageUnavailable "candidate_lookup_failed"
        "upstream candidates could not be read") err))
  | Ok cs =>
      if bool_decide (cs = []) then
        call AdmissionRelease ;;
        call (FailAccepted (AcRequestID acc) "resource_pool_unavailable" "no eligible upstream credential is available") ;;
        ret (Err (new_error ErrorProviderTemporary poolUnavailableCode "no eligible upstream credential is available"))
      else
        let! linked := if CmAcceptedSink cmd then call (AcceptedSink (AcRequestID acc)) else ret None in
        match linked with
        | Some err =>
            call AdmissionRelease ;;
            call (FailAccepted (AcRequestID acc) "acceptance_persistence_failed"
              "accepted request could not be linked to its caller") ;;
            ret (Err (storageError "acceptance_persistence_failed" err))
        | None =>
            let! executionID := call NewUUID in
            let! claimed := call (ClaimExecution (AcRequestID acc) executionID) in
            match claimed with
            | Err err =>
                call AdmissionRelease ;;
                call (FailAccepted (AcRequestID acc) "execution_claim_failed" "request execution could not be claimed") ;;
                ret (Err (storageError "execution_claim_failed" err))
            | Ok cl =>
                call (StartHeartbeat cl) ;;
                ret (Ok (mkRun cmd mdl upstreamRequest acc cl cs estimated))
            end
        end
  end.

Definition prepare (cmd : ChatCommand) : M W (result Error workflowRun) :=
  let! resolved := call (ResolveAvailableModel (CmKeyID cmd) (CrModel (CmRequest cmd))) in
  match resolved with
  | Err err => ret (Err (workflowError err))
  | Ok mdl =>
      match validateCapabilities mdl (CmRequest cmd) with
      | Some validationError => ret (Err validationError)
      | None =>
          let estimated := EstimateTokens (CmRequest cmd) in
          let context := McContextTokens (MoCapabilities mdl) in
          if ((0 <? context) && (context <? estimated))%bool then
            ret (Err (with_status (with_parameter (new_error ErrorInvalidRequest "context_length_exceeded"
              "request exceeds the configured model context") "messages") 400))
          else
            let upstreamRequest := with_model (CmRequest cmd) (MoUpstreamName mdl) in
            let! requestID := if bool_decide (CmRequestID cmd = uuid_Nil) then call NewUUID else ret (CmRequestID cmd) in
            let! admitted := call (AdmitterAcquire requestID (CmUserID cmd)) in
            match admitted with
            | Some err => ret (Err (admissionError err))
            | None =>
                let! acceptance := call (AcceptRequest (mkAcceptCommand requestID (CmUserID cmd) (CmKeyID cmd)
                  (MoID mdl) (CmIdempotencyKey cmd) (CmRequestDigest cmd) (Stream_ (CmRequest cmd)))) in
                match acceptance with
                | Err err => call AdmissionRelease ;; ret (Err (workflowError err))
                | Ok acc =>
                    if AcExisting acc then
                      call AdmissionRelease ;;
                      ret (Err (with_status (new_error ErrorInvalidRequest "request_already_accepted"
                        "idempotent request already exists") 409))
                    else if (negb (bool_decide (AcRequestID acc = requestID)) ||
                             bool_decide (AcResourcePoolID acc = uuid_Nil))%bool then
                      call AdmissionRelease ;;
                      (if bool_decide (AcRequestID acc = uuid_Nil) then ret tt
                       else ignore (call (FailAccepted (AcRequestID acc) "invalid_acceptance"
                              "accepted request is missing its coordination capacity"))) ;;
                      ret (Err (new_error ErrorInternalInvariant "invalid_acceptance"
                        "accepted request is missing required execution capacity"))
                    else
                      prepare_accepted cmd mdl upstreamRequest estimated acc
                end
            end
      end
  end.

Definition selectCandidate (run : workflowRun) (excluded : list string) : M W (result Error Candidate) :=
  let required := requiredCapabilities (request run) in
  let! now := call Now in
  let! intn := call RouterRandom in
  match Routing.Select intn
          (Routing.mkRequirements (MoID (model run)) (AcResourcePoolID (accepted run)) required excluded now)
          (routeCandidate run <$> candidates run) with
  | Err err =>
      ret (Err (with_cause (new_error ErrorInternalInvariant "routing_failed" "upstream routing failed")
                  (OtherError (Routing.Message err))))
  | Ok decision =>
      if bool_decide (Routing.SelectedCandidateID decision = "") then
        let providerError :=
          new_error ErrorProviderTemporary poolUnavailableCode "no eligible upstream credential is available" in
        ret (Err (if IsZero (Routing.NextAvailableAt decision) then providerError
                  else with_retry_at providerError (Routing.NextAvailableAt decision)))
      else ret (Ok (default zeroCandidate (byID (candidates run) !! Routing.SelectedCandidateID decision)))
  end.

(** The loop of [candidateDecision]; also returns [*excluded]. *)
Fixpoint candidate_loop (fuel : nat) (run : workflowRun) (excluded selectionExcluded : list string)
    (earliestRetryAt : option Z) (circuitUnavailable : bool) : M W (result Error Candidate * list string) :=
  match fuel with
  | O => out_of_fuel
  | S fuel' =>
      let! selection := selectCandidate run selectionExcluded in
      match selection with
      | Err selectionError =>
          if negb circuitUnavailable then ret (Err selectionError, excluded)
          else
            let! now := call Now in
            ret (Err (circuitUnavailableError
                        (earlierRetryAt earliestRetryAt (retryAfterAt (RetryAfter_ selectionError) now))), excluded)
      | Ok candidate =>
          let! health := call (AcquireCredentialHealthPermit (CaID candidate)) in
          match health with
          | Err _ =>
              candidate_loop fuel' run (excluded ++ [CaID candidate]) (selectionExcluded ++ [CaID candidate])
                earliestRetryAt true
          | Ok healthGeneration => ret (Ok (with_health candidate healthGeneration), excluded)
          end
      end
  end.

Definition decision_fuel (run : workflowRun) : nat := S (length (candidates run)).

Definition candidateDecision (run : workflowRun) (excluded : list string) :
    M W (result Error Candidate * list string) :=
  candidate_loop (decision_fuel run) run excluded excluded None false.

(** The loop of [attemptDecision]; also returns [*excluded]. *)
Fixpoint attempt_loop (fuel : nat) (run : workflowRun) (excluded : list string)
    (earliestCapacityRetryAt : option Z) (capacityUnavailable : bool) :
    M W (result Error (Candidate * LeaseHandle) * list string) :=
  match fuel with
  | O => out_of_fuel
  | S fuel' =>
      let! (selection, excluded1) := candidateDecision run excluded in
      match selection with
      | Err selectionError =>
          if capacityUnavailable then
            let! now := call Now in
            ret (Err (admissionError (CapacityError (valueOrNow earliestCapacityRetryAt now))), excluded1)
          else ret (Err selectionError, excluded1)
      | Ok candidate =>
          let! leased := call (CoordinatorAcquire (leaseRequest (claim run) run candidate)) in
          match leased with
          | Ok lease => ret (Ok (candidate, lease), excluded1)
          | Err err =>
              match as_CapacityError err with
              | None => ret (Err (admissionError err), excluded1)
              | Some retryAt =>
                  attempt_loop fuel' run (excluded1 ++ [CaID candidate])
                    (earlierRetryAt earliestCapacityRetryAt (Some retryAt)) true
              end
          end
      end
  end.

Definition attemptDecision (run : workflowRun) (excluded : list string) :
    M W (result Error (Candidate * LeaseHandle) * list string) :=
  attempt_loop (decision_fuel run) run excluded None false.

(** ** chat.go *)

(** [readResponse]: the limited read asks for one byte more than the limit. *)
Definition readResponse (limit : Z) : M W (result GoError string) :=
  let! read := call (BodyReadAll (wrap64 (limit + 1))) in
  match read with
  | Err err => ret (Err err)
  | Ok body =>
      if limit <? length_Z body then
        ret (Err (OtherError ("provider response exceeds " +:+ pretty limit +:+ " bytes")))
      else ret (Ok body)
  end.

Definition credentialFailure (providerError : Error) (observedAt : Z) (canceledLocally : bool) (healthGeneration : Z) :
    option CredentialObservation :=
  if (canceledLocally || bool_decide (Code providerError = "client_stream_interrupted"))%bool then None
  else
    let observation cooldownUntil :=
      mkCredentialObservation CredentialFailed healthGeneration observedAt (Some (Kind providerError)) cooldownUntil in
    match Kind providerError with
    | ErrorRateLimit | ErrorProviderTemporary | ErrorStreamInterrupted | ErrorUncertain =>
        let cooldownUntil := time_add observedAt openDuration in
        Some (observation (Some
          (match retryAfterAt (RetryAfter_ providerError) observedAt with
           | Some retryAt => if After retryAt cooldownUntil then retryAt else cooldownUntil
           | None => cooldownUntil
           end)))
    | ErrorAuthentication | ErrorPermission | ErrorQuota | ErrorProviderConfiguration | ErrorProviderPermanent
    | ErrorUnsupportedCapability => Some (observation None)
    | _ => None
    end.

Definition failAttempt (cl : Claim) (attemptID : UUID) (providerError : Error) (status : option Z)
    (healthGeneration : Z) : M W (option GoError) :=
  let! completedAt := call Now in
  call (UpdateAttempt cl attemptID
          (mkAttemptUpdate StFailed status None (Some (Kind providerError))
             (retryAfterAt (RetryAfter_ providerError) completedAt) None None (Some completedAt) None
             (credentialFailure providerError completedAt false healthGeneration))).

Definition markNonStreamUncertain (run : workflowRun) (candidate : Candidate) (attemptID : UUID) (status : option Z)
    (cause : GoError) : M W Error :=
  let! now := call Now in
  let providerError := uncertainError (time_add now openDuration) cause in
  let! completedAt := call Now in
  let! ctxErr := call ContextErr in
  let canceled := (bool_decide (is_Some ctxErr) || errors_Is is_ContextCanceled cause)%bool in
  let! stateErr := call (MarkExecutionUncertain (claim run) attemptID
    (mkAttemptUpdate StUncertain status None (Some (Kind providerError)) None None None (Some completedAt) None
       (credentialFailure providerError completedAt canceled (CaHealthGeneration candidate)))
    (Kind providerError) (Message providerError)) in
  match stateErr with
  | Some e => if errors_Is is_Fenced e then ret providerError else ret (storageError "uncertain_state_failed" e)
  | None => ret providerError
  end.

(** [buildUpstream]: [None] when the adapter, the client and the request are
    ready. *)
Definition buildUpstream (run : workflowRun) (candidate : Candidate) : M W (option Error) :=
  let! adapter := call (FactoryAdapter (model run)) in
  match adapter with
  | Some err =>
      ret (Some (with_cause (new_error ErrorProviderConfiguration "adapter_configuration"
        "provider adapter is invalid") err))
  | None =>
      let! secret := call (CredentialSecret (CaID candidate)) in
      match secret with
      | Err err =>
          ret (Some (with_cause (new_error ErrorProviderConfiguration "credential_decryption_failed"
            "provider credential is unavailable") err))
      | Ok secret =>
          let! built := call (BuildRequest secret (request run)) in
          match built with
          | Some err => ret (Some (asCanonical err "provider_request_invalid"))
          | None =>
              let! client := call (FactoryClient candidate) in
              match client with
              | Some err =>
                  ret (Some (with_cause (new_error ErrorProviderConfiguration "provider_transport_invalid"
                    "provider transport is unavailable") err))
              | None => ret None
              end
          end
      end
  end.

Definition reconcileLease (lease : LeaseHandle) (estimated : Z) (usage : Usage) : M W unit :=
  if (negb (bool_decide (Source usage = UsageAuthoritative)) || (estimated <? 1))%bool then ret tt
  else
    let actualTokens := wrap64 (InputTokens usage + OutputTokens usage) in
    if ((actualTokens <? 0) || (estimated <=? actualTokens))%bool then ret tt
    else ignore (call (LeaseReconcile lease actualTokens)).

Definition ensureClientRetryAfter (providerError : Error) : M W Error :=
  match RetryAfter_ providerError with
  | Some _ => ret providerError
  | None =>
      match Kind providerError with
      | ErrorRateLimit | ErrorProviderTemporary =>
          let! now := call Now in
          ret (with_retry_at providerError (time_add now openDuration))
      | _ => ret providerError
      end
  end.

Definition waitUntil (at_ now : Z) : M W (option GoError) :=
  let delay := time_sub at_ now in
  if delay <=? 0 then ret None else call (Wait delay).

Definition successful (status : Z) : bool := negb ((status <? 200) || (299 <? status))%bool.

Definition public_response (run : workflowRun) (parsed : ChatResponse) : ChatResponse :=
  mkChatResponse (publicCompletionID (AcRequestID (accepted run))) (RsRequestID parsed) (MoPublicName (model run))
    (RsCreatedAt parsed) (RsChoices parsed) (RsUsage parsed).

(** [nonStreamAttempt] once the upstream has answered with [parsed]. *)
Definition finishChat (run : workflowRun) (candidate : Candidate) (attemptID : UUID) (lease : LeaseHandle)
    (status : Z) (parsed : ChatResponse) : M W (result Error ChatResult) :=
  let! completedAt := call Now in
  let usage := responseUsage (request run) parsed in
  let result := mkChatResult (AcRequestID (accepted run)) (public_response run parsed) in
  let! resultPersistenceError := if CmResultSink (command run) then call (ResultSink result) else ret None in
  let! updated := call (UpdateAttempt (claim run) attemptID
    (mkAttemptUpdate StCompleted (Some status) (optionalString (RsRequestID parsed)) None None None
       (Some completedAt) (Some completedAt) (Some usage)
       (Some (credentialSuccess completedAt (CaHealthGeneration candidate))))) in
  match updated with
  | Some err => ret (Err (storageError "attempt_completion_failed" err))
  | None =>
      let! completed := call (Complete (claim run) usage) in
      match completed with
      | Some err => ret (Err (storageError "usage_completion_failed" err))
      | None =>
          reconcileLease lease (estimatedTokens_ run) usage ;;
          match resultPersistenceError with
          | Some err => ret (Err (storageError "result_persistence_failed" err))
          | None => ret (Ok result)
          end
      end
  end.

(** [nonStreamAttempt] once the response has arrived. *)
Definition receiveChat (run : workflowRun) (candidate : Candidate) (attemptID : UUID) (lease : LeaseHandle)
    (status : Z) : M W (result Error ChatResult) :=
  let! read := readResponse (MaxResponseBytes (config s)) in
  match read with
  | Err readError =>
      let! e := markNonStreamUncertain run candidate attemptID (Some status) readError in ret (Err e)
  | Ok body =>
      if negb (successful status) then
        let! providerError := call (ClassifyError status body) in
        if ((500 <=? status) && negb (ReplaySafe providerError))%bool then
          let! e := markNonStreamUncertain run candidate attemptID (Some status) (CanonicalError providerError) in
          ret (Err e)
        else
          failAttempt (claim run) attemptID providerError (Some status) (CaHealthGeneration candidate) ;;
          ret (Err providerError)
      else
        let! parsed := call (ParseResponse status body) in
        match parsed with
        | Err err => let! e := markNonStreamUncertain run candidate attemptID (Some status) err in ret (Err e)
        | Ok parsed => finishChat run candidate attemptID lease status parsed
        end
  end.

(** What both kinds of attempt do up to the call of the upstream: [inl] is an
    attempt that ends before it, [inr] the attempt and the answer. *)
Definition sendAttempt (run : workflowRun) (candidate : Candidate) (sequence : Z) :
    M W (Error + UUID * result GoError Z) :=
  let! created := call (CreateAttempt (claim run) (CaID candidate) sequence) in
  match created with
  | Err err => ret (inl (storageError "attempt_create_failed" err))
  | Ok attemptID =>
      let! buildError := buildUpstream run candidate in
      match buildError with
      | Some e =>
          failAttempt (claim run) attemptID e None (CaHealthGeneration candidate) ;; ret (inl e)
      | None =>
          let! sentAt := call Now in
          let! updated := call (UpdateAttempt (claim run) attemptID
            (mkAttemptUpdate StSending None None None None (Some sentAt) None None None None)) in
          match updated with
          | Some err => ret (inl (storageError "attempt_state_failed" err))
          | None => let! response := call ClientDo in ret (inr (attemptID, response))
          end
      end
  end.

(** The lease of an attempt: the one given, or a new one. *)
Definition attemptLease (run : workflowRun) (candidate : Candidate) (lease : option LeaseHandle) :
    M W (result GoError LeaseHandle) :=
  match lease with
  | Some l => ret (Ok l)
  | None => call (CoordinatorAcquire (leaseRequest (claim run) run candidate))
  end.

Definition nonStreamAttempt (run : workflowRun) (candidate : Candidate) (sequence : Z) (lease : option LeaseHandle) :
    M W (result Error ChatResult) :=
  let! leased := attemptLease run candidate lease in
  match leased with
  | Err err => ret (Err (admissionError err))
  | Ok lease =>
      deferred (ignore (call (LeaseRelease lease)))
        (let! sent := sendAttempt run candidate sequence in
         match sent with
         | inl e => ret (Err e)
         | inr (attemptID, Err err) =>
             let! e := markNonStreamUncertain run candidate attemptID None err in ret (Err e)
         | inr (attemptID, Ok status) =>
             deferred (call BodyClose) (receiveChat run candidate attemptID lease status)
         end)
  end.

(** What the loops of [Chat] and [Stream] do with a failed attempt: [inl] is
    the error to return, [inr] the exclusions of the next attempt. *)
Definition nextAttempt (run : workflowRun) (startedAt attemptNumber : Z) (excluded : list string)
    (candidate : Candidate) (attemptError : Error) : M W (Error + list string) :=
  if (shouldTryNextCandidate attemptError &&
      (Z.of_nat (length excluded) + 1 <? Z.of_nat (length (candidates run))))%bool then
    ret (inr (excluded ++ [CaID candidate]))
  else
    let! _ := call Now in
    let! random := call RetryRandom in
    let! now := call Now in
    match Decide (mkRetryPolicy (retry s) random) now
            (mkRetryInput attemptNumber startedAt (failureClass (Kind attemptError)) SendRejected ClientUncommitted false
               (retryAfter (RetryAfter_ attemptError))) with
    | Ok (mkRetryDecision RetrySchedule _ _ _ nextAttemptAt) =>
        let excluded1 := excluded ++ [CaID candidate] in
        let excluded2 := if bool_decide (length excluded1 = length (candidates run)) then [] else excluded1 in
        let! now := call Now in
        let! waited := waitUntil nextAttemptAt now in
        match waited with
        | Some err =>
            call (Fail_ (claim run) "canceled" "request canceled during retry wait") ;;
            ret (inl (with_cause (new_error ErrorInvalidRequest "request_canceled" "request was canceled") err))
        | None => ret (inr excluded2)
        end
    | _ =>
        let! e := ensureClientRetryAfter attemptError in
        call (Fail_ (claim run) (Code e) (Message e)) ;;
        ret (inl e)
    end.

Fixpoint chat_loop (fuel : nat) (run : workflowRun) (startedAt attemptNumber : Z) (excluded : list string) :
    M W (result Error ChatResult) :=
  match fuel with
  | O => out_of_fuel
  | S fuel' =>
      let! (decision, excluded1) := attemptDecision run excluded in
      match decision with
      | Err selectionError =>
          call (Fail_ (claim run) (Code selectionError) (Message selectionError)) ;;
          ret (Err selectionError)
      | Ok (candidate, lease) =>
          let! attempt := nonStreamAttempt run candidate attemptNumber (Some lease) in
          observeAttempt (MoProviderKind (model run))
            (match attempt with Ok _ => None | Err attemptError => Some attemptError end) ;;
          match attempt with
          | Ok result => ret (Ok result)
          | Err attemptError =>
              if bool_decide (Kind attemptError = ErrorUncertain) then ret (Err attemptError)
              else
                let! next := nextAttempt run startedAt attemptNumber excluded1 candidate attemptError in
                match next with
                | inl e => ret (Err e)
                | inr excluded2 => chat_loop fuel' run startedAt (attemptNumber + 1) excluded2
                end
          end
      end
  end.

(** Attempts 1 to [MaxAttempts] may be retried, and each candidate may follow
    once more as the next one. *)
Definition loop_fuel (run : workflowRun) : nat := S (Z.to_nat (MaxAttempts (retry s)) + length (candidates run)).

Definition Chat (cmd : ChatCommand) : M W (result Error ChatResult) :=
  let! prepared := prepare cmd in
  match prepared with
  | Err prepareError => ret (Err prepareError)
  | Ok run =>
      deferred (call AdmissionRelease) (deferred (call StopHeartbeat)
        (if Stream_ (request run) then
           call (Fail_ (claim run) "invalid_request" "stream request used non-stream workflow") ;;
           ret (Err (with_status (with_parameter (new_error ErrorInvalidRequest "stream_requires_stream_endpoint"
             "streaming request requires a stream sink") "stream") 400))
         else
           let! startedAt := call Now in
           chat_loop (loop_fuel run) run startedAt 1 []))
  end.

(** ** stream.go *)

Definition wants_usage (run : workflowRun) : bool :=
  match StreamUsage_ (request run) with Some b => b | None => false end.

Fixpoint emitEvents (run : workflowRun) (attemptID : UUID) (status : Z) (state : streamState)
    (events : list StreamEvent) : M W (option Error * streamState) :=
  match events with
  | [] => ret (None, state)
  | event0 :: events' =>
      let event := public_event run event0 in
      if bool_decide (SeType event = StreamErrorEvent) then
        ret (Some (match SeError event with
                   | Some e => e
                   | None => new_error ErrorStreamInterrupted "provider_stream_error" "provider stream failed"
                   end), state)
      else
        let! committing :=
          if committed state then ret (Ok state)
          else
            let! now := call Now in
            let! marked := call (MarkExecutionStreaming (claim run) attemptID
              (mkAttemptUpdate StStreaming (Some status) None None None None (Some now) None None None)) in
            match marked with
            | Some err => ret (Err (storageError "stream_commit_failed" err))
            | None => ret (Ok (commit now state))
            end in
        match committing with
        | Err e => ret (Some e, state)
        | Ok state1 =>
            let state2 := count_usage event state1 in
            if bool_decide (SeType event = StreamDone) then emitEvents run attemptID status (finish event state2) events'
            else if (bool_decide (SeType event = StreamUsageEvent) && negb (wants_usage run))%bool then
              emitEvents run attemptID status state2 events'
            else
              let! sunk := call (StreamSink (ClRequestID (claim run)) event) in
              match sunk with
              | Some err =>
                  ret (Some (with_cause (new_error ErrorStreamInterrupted "client_stream_interrupted"
                    "client stopped receiving the stream") err), state2)
              | None => emitEvents run attemptID status state2 events'
              end
        end
  end.

Definition finishBrokenStream (run : workflowRun) (candidate : Candidate) (attemptID : UUID) (state : streamState)
    (e : Error) : M W (bool * option Error) :=
  let! completedAt := call Now in
  let providerError := brokenError state (time_add completedAt openDuration) e in
  let! ctxErr := call ContextErr in
  let canceled :=
    (bool_decide (is_Some ctxErr) || bool_decide (Code providerError = "client_stream_interrupted"))%bool in
  let usage := streamState_usage state in
  let! stateErr := call (MarkExecutionUncertain (claim run) attemptID
    (mkAttemptUpdate StUncertain None None (Some (Kind providerError)) None None (firstByteAt state) (Some completedAt)
       (if bool_decide (Source usage = UsageUnknown) then None else Some usage)
       (credentialFailure providerError completedAt canceled (CaHealthGeneration candidate)))
    (Kind providerError) (Message providerError)) in
  match stateErr with
  | Some err =>
      if errors_Is is_Fenced err then ret (committed state, Some providerError)
      else ret (committed state, Some (storageError "uncertain_state_failed" err))
  | None => ret (committed state, Some providerError)
  end.

(** The read loop: the stream broke with an error, or ended. *)
Fixpoint read_loop (reads : nat) (run : workflowRun) (attemptID : UUID) (status : Z) (state : streamState) :
    M W (option Error * streamState) :=
  match reads with
  | O => out_of_fuel
  | S reads' =>
      let! (chunk, read_end) := call BodyRead in
      let! (broken, state1) :=
        (if bool_decide (chunk = "") then ret (None, state)
         else
           let! fed := call (ParserFeed chunk) in
           match fed with
           | Err parseError => ret (Some (asCanonical parseError "malformed_provider_stream"), state)
           | Ok events => emitEvents run attemptID status state events
           end) in
      match broken with
      | Some e => ret (Some e, state1)
      | None =>
          match read_end with
          | ReadEOF => ret (None, state1)
          | ReadFailed readError =>
              ret (Some (with_cause (new_error ErrorStreamInterrupted "provider_stream_read_failed"
                "provider stream was interrupted") readError), state1)
          | ReadMore => read_loop reads' run attemptID status state1
          end
      end
  end.

(** [parser.Close] and the events it leaves; a stream without a final event
    is incomplete. *)
Definition closeStream (run : workflowRun) (attemptID : UUID) (status : Z) (state : streamState) :
    M W (option Error * streamState) :=
  let! closed := call ParserClose in
  match closed with
  | Err err => ret (Some (asCanonical err "malformed_provider_stream"), state)
  | Ok closingEvents =>
      let! (broken, state1) := emitEvents run attemptID status state closingEvents in
      match broken with
      | Some e => ret (Some e, state1)
      | None =>
          if done_ state1 then ret (None, state1)
          else ret (Some (new_error ErrorStreamInterrupted "provider_stream_incomplete"
                 "provider stream ended without completion"), state1)
      end
  end.

(** [streamAttempt] once the stream is complete. *)
Definition finishStream (run : workflowRun) (candidate : Candidate) (attemptID : UUID) (lease : LeaseHandle)
    (status : Z) (state : streamState) : M W (bool * option Error) :=
  let! completedAt := call Now in
  let usage := streamState_usage state in
  let! updated := call (UpdateAttempt (claim run) attemptID
    (mkAttemptUpdate StCompleted (Some status) None None None None (firstByteAt state) (Some completedAt) (Some usage)
       (Some (credentialSuccess completedAt (CaHealthGeneration candidate))))) in
  match updated with
  | Some err => ret (committed state, Some (storageError "attempt_completion_failed" err))
  | None =>
      let! completed := call (Complete (claim run) usage) in
      match completed with
      | Some err => ret (committed state, Some (storageError "usage_completion_failed" err))
      | None =>
          reconcileLease lease (estimatedTokens_ run) usage ;;
          let! sunk := call (StreamSink (AcRequestID (accepted run)) (doneEvent state)) in
          match sunk with
          | Some err =>
              ret (true, Some (with_cause (new_error ErrorStreamInterrupted "client_stream_interrupted"
                "client stopped receiving the stream completion") err))
          | None => ret (committed state, None)
          end
      end
  end.

(** [streamAttempt] once the response has arrived. *)
Definition receiveStream (reads : nat) (run : workflowRun) (candidate : Candidate) (attemptID : UUID)
    (lease : LeaseHandle) (status : Z) : M W (bool * option Error) :=
  if negb (successful status) then
    let! read := readResponse (MaxResponseBytes (config s)) in
    match read with
    | Err readError =>
        finishBrokenStream run candidate attemptID zeroStreamState
          (with_cause (new_error ErrorProviderTemporary "provider_response_read_failed"
            "provider response could not be read") readError)
    | Ok body =>
        let! providerError := call (ClassifyError status body) in
        if ((500 <=? status) && negb (ReplaySafe providerError))%bool then
          finishBrokenStream run candidate attemptID zeroStreamState providerError
        else
          failAttempt (claim run) attemptID providerError (Some status) (CaHealthGeneration candidate) ;;
          ret (false, Some providerError)
    end
  else
    call ParseStream ;;
    let state :=
      mkStreamState false false None (EstimateInputTokens (request run)) 0 UsageEstimated zeroEvent in
    let! (broken, state1) := read_loop reads run attemptID status state in
    match broken with
    | Some e => finishBrokenStream run candidate attemptID state1 e
    | None =>
        let! (broken, state2) := closeStream run attemptID status state1 in
        match broken with
        | Some e => finishBrokenStream run candidate attemptID state2 e
        | None => finishStream run candidate attemptID lease status state2
        end
    end.

Definition streamAttempt (reads : nat) (run : workflowRun) (candidate : Candidate) (sequence : Z)
    (lease : option LeaseHandle) : M W (bool * option Error) :=
  let! leased := attemptLease run candidate lease in
  match leased with
  | Err err => ret (false, Some (admissionError err))
  | Ok lease =>
      deferred (ignore (call (LeaseRelease lease)))
        (let! sent := sendAttempt run candidate sequence in
         match sent with
         | inl e => ret (false, Some e)
         | inr (attemptID, Err err) =>
             finishBrokenStream run candidate attemptID zeroStreamState
               (with_cause (new_error ErrorUncertain "upstream_outcome_uncertain"
                 "upstream request outcome is uncertain") err)
         | inr (attemptID, Ok status) =>
             deferred (call BodyClose) (receiveStream reads run candidate attemptID lease status)
         end)
  end.

Fixpoint stream_loop (fuel reads : nat) (run : workflowRun) (startedAt attemptNumber : Z) (excluded : list string) :
    M W (option Error) :=
  match fuel with
  | O => out_of_fuel
  | S fuel' =>
      let! (decision, excluded1) := attemptDecision run excluded in
      match decision with
      | Err selectionError =>
          call (Fail_ (claim run) (Code selectionError) (Message selectionError)) ;;
          ret (Some selectionError)
      | Ok (candidate, lease) =>
          let! (sent, attempt) := streamAttempt reads run candidate attemptNumber (Some lease) in
          observeAttempt (MoProviderKind (model run)) attempt ;;
          match attempt with
          | None => ret None
          | Some attemptError =>
              if (sent || bool_decide (Kind attemptError = ErrorUncertain) ||
                  bool_decide (Kind attemptError = ErrorStreamInterrupted))%bool
              then ret (Some attemptError)
              else
                let! next := nextAttempt run startedAt attemptNumber excluded1 candidate attemptError in
                match next with
                | inl e => ret (Some e)
                | inr excluded2 => stream_loop fuel' reads run startedAt (attemptNumber + 1) excluded2
                end
          end
      end
  end.

Definition Stream (reads : nat) (sink_present : bool) (cmd : ChatCommand) : M W (option Error) :=
  if negb sink_present then
    ret (Some (new_error ErrorInternalInvariant "missing_stream_sink" "stream sink is required"))
  else
    let! prepared := prepare cmd in
    match prepared with
    | Err prepareError => ret (Some prepareError)
    | Ok run =>
        deferred (call AdmissionRelease) (deferred (call StopHeartbeat)
          (if negb (Stream_ (request run)) then
             call (Fail_ (claim run) "invalid_request" "non-stream request used stream workflow") ;;
             ret (Some (with_status (with_parameter (new_error ErrorInvalidRequest "stream_not_enabled"
               "stream must be true") "stream") 400))
           else
             let! startedAt := call Now in
             stream_loop (loop_fuel run) reads run startedAt 1 []))
    end.

(** ** recovery.go *)

(** The loop over the completions to repeat; the errors of the loop. *)
Fixpoint recover_completions (completions : list RecoverableCompletion) (completed : Z) (errs : list GoError) :
    M W (Z * list GoError) :=
  match completions with
  | [] => ret (completed, errs)
  | completion :: completions' =>
      let! r := call (Complete (RvClaim completion) (RvUsage completion)) in
      match r with
      | Some err =>
          recover_completions completions' completed
            (if errors_Is is_Fenced err then errs
             else errs ++ [Wrapped ("complete request " +:+ ClRequestID (RvClaim completion)) err])
      | None => recover_completions completions' (wrap64 (completed + 1)) errs
      end
  end.

Fixpoint recover_queued (requests : list UUID) (failed : Z) (errs : list GoError) : M W (Z * list GoError) :=
  match requests with
  | [] => ret (failed, errs)
  | requestID :: requests' =>
      let! r := call (FailAccepted requestID "execution_abandoned" "request was accepted but no execution claimed it") in
      match r with
      | Some err =>
          recover_queued requests' failed
            (if errors_Is is_Fenced err then errs else errs ++ [Wrapped ("fail queued request " +:+ requestID) err])
      | None => recover_queued requests' (wrap64 (failed + 1)) errs
      end
  end.

(** [RecoverOnce] returns the counters with the joined errors, none when the
    list is empty. *)
Definition RecoverOnce (staleBefore batchSize : Z) : M W (RecoveryResult * list GoError) :=
  if (IsZero staleBefore || (batchSize <? 1) || (1000 <? batchSize))%bool then
    ret (mkRecoveryResult 0 0 0, [OtherError "invalid request recovery input"])
  else
    let! completions := call (ListRecoverableCompletions staleBefore batchSize) in
    match completions with
    | Err err => ret (mkRecoveryResult 0 0 0, [Wrapped "list recoverable completions" err])
    | Ok completions =>
        let! (completed, errs1) := recover_completions completions 0 [] in
        let! queued := call (ListStaleQueuedRequests staleBefore batchSize) in
        match queued with
        | Err err => ret (mkRecoveryResult completed 0 0, errs1 ++ [Wrapped "list stale queued requests" err])
        | Ok requests =>
            let! (failed, errs2) := recover_queued requests 0 errs1 in
            let! (uncertain, err) := call (RecoverStaleExecutions staleBefore batchSize) in
            ret (mkRecoveryResult completed failed uncertain,
                 errs2 ++ (match err with Some e => [Wrapped "fence stale executions" e] | None => [] end))
        end
    end.
End service.
