(* ===== verification/Monitor.v ===== *)
(** * Reasoning about the calls a computation makes

    A monitor is an automaton that reads the calls with their replies; it
    refuses a call the specification forbids.  [wp stuck m Q σ] says that,
    whatever the environment answers, the calls of [m] are accepted from the
    state [σ] and that [m] ends with a result and a state satisfying [Q]; when
    it runs out of fuel the state must satisfy [stuck].  With [stuck] false
    everywhere it says in addition that the computation ends. *)

From S2P Require Import Prelude Canonical Effects.

Local Open Scope flow_scope.

Class Monitor (Σ : Type) := { watch : forall R : Type, Op R -> R -> Σ -> option Σ }.
Arguments watch {Σ _ R} op reply σ.

Definition watch_ev {Σ} `{!Monitor Σ} (σ : Σ) (e : Ev) : option Σ :=
  match e with Called op reply => watch op reply σ end.

Fixpoint watches {Σ} `{!Monitor Σ} (σ : Σ) (tr : list Ev) : option Σ :=
  match tr with
  | [] => Some σ
  | e :: tr' => match watch_ev σ e with Some σ' => watches σ' tr' | None => None end
  end.

Lemma watches_app {Σ} `{!Monitor Σ} (σ : Σ) tr1 tr2 :
  watches σ (tr1 ++ tr2) = match watches σ tr1 with Some σ' => watches σ' tr2 | None => None end.
Proof. revert σ. induction tr1 as [|e tr1 IH]; intros σ; simpl; [done|]. by destruct (watch_ev σ e). Qed.

(** Two monitors side by side. *)
#[export] Instance prod_monitor {Σ1 Σ2} `{!Monitor Σ1, !Monitor Σ2} : Monitor (Σ1 * Σ2) := {
  watch R op reply σ :=
    match watch op reply σ.1, watch op reply σ.2 with
    | Some σ1, Some σ2 => Some (σ1, σ2)
    | _, _ => None
    end
}.

Lemma watches_prod {Σ1 Σ2} `{!Monitor Σ1, !Monitor Σ2} (σ σ' : Σ1 * Σ2) tr :
  watches σ tr = Some σ' <-> watches σ.1 tr = Some σ'.1 /\ watches σ.2 tr = Some σ'.2.
Proof.
  revert σ. induction tr as [|[R op reply] tr IH]; intros σ; simpl.
  - destruct σ, σ'; simpl. naive_solver.
  - destruct (watch op reply σ.1), (watch op reply σ.2); simpl; [apply IH|naive_solver..].
Qed.

(** ** The environment's promise

    A provider adapter reports what the upstream said: neither the error it
    makes of a rejection nor the error of building a request speaks of an
    uncertain outcome or a broken stream, which only the workflow can tell. *)

Definition reported (e : Error) : Prop := Kind e <> ErrorUncertain /\ Kind e <> ErrorStreamInterrupted.

Definition allowed {R} (op : Op R) : R -> Prop :=
  match op in Op R return R -> Prop with
  | ClassifyError _ _ => λ e, reported e
  | BuildRequest _ _ => λ reply, forall err e, reply = Some err -> as_Error err = Some e -> reported e
  | _ => λ _, True
  end.

Class LawfulEnv (W : Type) `{!Env W} := { lawful : forall R (op : Op R) w, allowed op (answer R op w).1 }.

Section wp.
Context {W : Type} `{!Env W, !LawfulEnv W} {Σ : Type} `{!Monitor Σ} (stuck : Σ -> Prop).

Definition wp {A} (m : M W A) (Q : A -> Σ -> Prop) (σ : Σ) : Prop :=
  forall st, exists tr σ',
    trace (m st).2 = trace st ++ tr /\ watches σ tr = Some σ' /\
    match (m st).1 with Some a => Q a σ' | None => stuck σ' end.

Lemma wp_ret {A} (a : A) (Q : A -> Σ -> Prop) σ : Q a σ -> wp (ret a) Q σ.
Proof. intros HQ st. exists [], σ. by rewrite app_nil_r. Qed.

Lemma wp_out_of_fuel {A} (Q : A -> Σ -> Prop) σ : stuck σ -> wp out_of_fuel Q σ.
Proof. intros HQ st. exists [], σ. by rewrite app_nil_r. Qed.

Lemma wp_call {R} (op : Op R) (Q : R -> Σ -> Prop) σ :
  (forall reply, allowed op reply -> exists σ', watch op reply σ = Some σ' /\ Q reply σ') -> wp (call op) Q σ.
Proof using Type*.
  intros HQ st. unfold call. pose proof (lawful R op (world st)) as Hl.
  destruct (answer R op (world st)) as [reply w].
  destruct (HQ reply Hl) as (σ' & Hw & Hq). exists [Called op reply], σ'. simpl. by rewrite Hw.
Qed.

Lemma wp_bind {A B} (m : M W A) (k : A -> M W B) Q σ :
  wp m (λ a σ', wp (k a) Q σ') σ -> wp (bind m k) Q σ.
Proof.
  intros Hm st. destruct (Hm st) as (tr & σ' & Htr & Hw & Hr). unfold bind.
  destruct (m st) as [[a|] st']; simpl in *; [|by exists tr, σ'].
  destruct (Hr st') as (tr' & σ'' & Htr' & Hw' & Hr'). exists (tr ++ tr'), σ''.
  by rewrite Htr', Htr, app_assoc, watches_app, Hw.
Qed.

Lemma wp_mono {A} (m : M W A) (Q Q' : A -> Σ -> Prop) σ :
  wp m Q σ -> (forall a σ', Q a σ' -> Q' a σ') -> wp m Q' σ.
Proof.
  intros Hm HQ st. destruct (Hm st) as (tr & σ' & Htr & Hw & Hr). exists tr, σ'. split_and!; try done.
  destruct (m st).1; auto.
Qed.

Lemma wp_deferred {A} (cleanup : M W unit) (body : M W A) Q σ :
  wp body (λ a σ', wp cleanup (λ _ σ'', Q a σ'') σ') σ -> wp (deferred cleanup body) Q σ.
Proof.
  intros H. apply wp_bind. eapply wp_mono; [exact H|]. intros a σ' Hc. apply wp_bind.
  eapply wp_mono; [exact Hc|]. intros ? σ'' HQ. by apply wp_ret.
Qed.

Lemma wp_ignore {A} (m : M W A) Q σ : wp m (λ _ σ', Q tt σ') σ -> wp (ignore m) Q σ.
Proof. intros H. apply wp_bind. eapply wp_mono; [exact H|]. intros a σ' HQ. by apply wp_ret. Qed.
End wp.

(** What a specification says of one run. *)
Lemma wp_run {W} `{!Env W} {Σ} `{!Monitor Σ} (stuck : Σ -> Prop) {A} (m : M W A) (Q : A -> Σ -> Prop) σ st :
  wp stuck m Q σ ->
  exists r st' tr σ', m st = (r, st') /\ trace st' = trace st ++ tr /\ watches σ tr = Some σ' /\
    match r with Some a => Q a σ' | None => stuck σ' end.
Proof.
  intros Hm. destruct (Hm st) as (tr & σ' & Htr & Hw & Hr).
  destruct (m st) as [r st']. by exists r, st', tr, σ'.
Qed.

(** Computes the monitor's answer to a call; redefined beside the monitors. *)
Ltac wp_compute := idtac.

(** A call: every reply, with the monitor's answer to it computed. *)
Ltac wp_reply :=
  apply wp_call;
  let reply := fresh "reply" in
  let H := fresh "Hallowed" in
  intros reply H; cbn [allowed] in H;
  lazymatch type of H with True => clear H | _ => idtac end;
  lazymatch type of reply with
  | result _ _ => destruct reply
  | option _ => destruct reply
  | _ => idtac
  end; (eexists; split; [wp_compute; reflexivity|]).

(** Steps through a computation: the monitor's answers are computed, the
    continuation is left. *)
Ltac wp_step :=
  lazymatch goal with
  | |- wp _ (bind _ _) _ _ => apply wp_bind
  | |- wp _ (ret _) _ _ => apply wp_ret
  | |- wp _ (deferred _ _) _ _ => apply wp_deferred
  | |- wp _ (ignore _) _ _ => apply wp_ignore
  | |- wp _ (call _) _ _ => wp_reply
  | |- wp _ (match ?x with _ => _ end) _ _ => destruct x eqn:?
  end.
Ltac wp_next := wp_step; cbv beta iota zeta.
Ltac wp_steps := repeat wp_next.
