(* ===== verification/Protocol.v ===== *)
(** * What a request may do, as automata over its calls

    Four monitors of the workflow's calls ([Workflow], from
    [src/internal/requestflow]):

    - [Sends]: an upstream request may be sent again only after an answer that
      rejects the earlier one for certain;
    - [Held]: admission, heartbeat, lease and response body are taken once,
      used while held and given back once;
    - [Ledger]: the accepted request is claimed, its usage recorded before it
      is completed, and no request is sent once it is settled;
    - [Out]: the client's stream comes from one attempt, starts once the
      execution is marked as streaming, and ends with the final event only
      after the request is completed. *)

From S2P Require Import Prelude Canonical Capabilities Capacity Effects Monitor Workflow.

Local Open Scope Z_scope.

#[export] Instance Claim_eq_dec : EqDecision Claim.
Proof. solve_decision. Defined.
#[export] Instance Usage_eq_dec : EqDecision Usage.
Proof. solve_decision. Defined.

(** ** Sending *)

Inductive Sends := MaySend | Awaiting (status : Z) | NoMoreSends.

(** An answer after which the upstream has certainly not done the work. *)
Definition rejects (status : Z) (e : Error) : bool :=
  (negb (successful status) && ((status <? 500) || ReplaySafe e))%bool.

Definition watch_sends {R} (op : Op R) : R -> Sends -> option Sends :=
  match op in Op R return R -> Sends -> option Sends with
  | ClientDo => λ reply σ,
      match σ, reply with
      | MaySend, Ok status => Some (Awaiting status)
      | MaySend, Err _ => Some NoMoreSends
      | _, _ => None
      end
  | ClassifyError status _ => λ e σ,
      match σ with
      | Awaiting status' =>
          if ((status =? status') && rejects status e)%bool then Some MaySend else Some NoMoreSends
      | _ => None
      end
  | _ => λ _ σ, Some σ
  end.
#[export] Instance sends_monitor : Monitor Sends := { watch R op := watch_sends op }.

(** ** Resources *)

Record Held := mkHeld { admitted : bool; beating : bool; leased : option LeaseHandle; open_body : bool }.

Definition nothing_held : Held := mkHeld false false None false.

Definition watch_held {R} (op : Op R) : R -> Held -> option Held :=
  match op in Op R return R -> Held -> option Held with
  | AdmitterAcquire _ _ => λ reply h,
      match reply with
      | None => if admitted h then None else Some (mkHeld true (beating h) (leased h) (open_body h))
      | Some _ => Some h
      end
  | AdmissionRelease => λ _ h,
      if admitted h then Some (mkHeld false (beating h) (leased h) (open_body h)) else None
  | StartHeartbeat _ => λ _ h,
      if beating h then None else Some (mkHeld (admitted h) true (leased h) (open_body h))
  | StopHeartbeat => λ _ h,
      if beating h then Some (mkHeld (admitted h) false (leased h) (open_body h)) else None
  | CoordinatorAcquire _ => λ reply h,
      match reply, leased h with
      | Ok l, None => Some (mkHeld (admitted h) (beating h) (Some l) (open_body h))
      | Ok _, Some _ => None
      | Err _, _ => Some h
      end
  | LeaseRelease l => λ _ h,
      if bool_decide (leased h = Some l) then Some (mkHeld (admitted h) (beating h) None (open_body h)) else None
  | LeaseReconcile l _ => λ _ h, if bool_decide (leased h = Some l) then Some h else None
  | ClientDo => λ reply h,
      match admitted h, beating h, leased h, open_body h with
      | true, true, Some _, false =>
          Some (match reply with Ok _ => mkHeld true true (leased h) true | Err _ => h end)
      | _, _, _, _ => None
      end
  | BodyReadAll _ => λ _ h, if open_body h then Some h else None
  | BodyRead => λ _ h, if open_body h then Some h else None
  | BodyClose => λ _ h, if open_body h then Some (mkHeld (admitted h) (beating h) (leased h) false) else None
  | _ => λ _ h, Some h
  end.
#[export] Instance held_monitor : Monitor Held := { watch R op := watch_held op }.

(** ** The ledger *)

Inductive Ledger :=
| NotAccepted
| AcceptedRequest (request : UUID)
| Running (cl : Claim) (recorded : option Usage)
| CompletedRequest (cl : Claim) (usage : Usage)
| Closed (cl : option Claim).

(** Nothing is left to report: no request was accepted, or it is completed or
    closed.  An acceptance without an identifier names no request. *)
Definition at_rest (l : Ledger) : Prop :=
  match l with
  | NotAccepted | CompletedRequest _ _ | Closed _ => True
  | AcceptedRequest request => request = uuid_Nil
  | Running _ _ => False
  end.

Definition watch_ledger {R} (op : Op R) : R -> Ledger -> option Ledger :=
  match op in Op R return R -> Ledger -> option Ledger with
  | AcceptRequest _ => λ reply l,
      match l, reply with
      | NotAccepted, Ok acc =>
          Some (if AcExisting acc then NotAccepted else AcceptedRequest (AcRequestID acc))
      | NotAccepted, Err _ => Some NotAccepted
      | _, _ => None
      end
  | FailAccepted request _ _ => λ _ l,
      match l with
      | AcceptedRequest request' => if bool_decide (request = request') then Some (Closed None) else None
      | _ => None
      end
  | ClaimExecution request _ => λ reply l,
      match l, reply with
      | AcceptedRequest request', Ok cl => if bool_decide (request = request') then Some (Running cl None) else None
      | AcceptedRequest _, Err _ => Some l
      | _, _ => None
      end
  | UpdateAttempt cl _ update => λ reply l,
      match l with
      | Running cl' _ =>
          if bool_decide (cl = cl') then
            match AuStatus update, reply with
            | StCompleted, None => Some (Running cl (AuUsage update))
            | _, _ => Some l
            end
          else None
      | _ => None
      end
  | Complete cl usage => λ reply l,
      match l with
      | Running cl' recorded =>
          if bool_decide (cl = cl' /\ recorded = Some usage) then
            match reply with None => Some (CompletedRequest cl usage) | Some _ => Some l end
          else None
      | _ => None
      end
  | MarkExecutionUncertain cl _ _ _ _ => λ _ l,
      match l with
      | Running cl' _ => if bool_decide (cl = cl') then Some (Closed (Some cl)) else None
      | _ => None
      end
  | Fail_ cl _ _ => λ _ l,
      match l with
      | Running cl' _ => if bool_decide (cl = cl') then Some (Closed (Some cl)) else None
      | CompletedRequest cl' _ => if bool_decide (cl = cl') then Some l else None
      | Closed (Some cl') => if bool_decide (cl = cl') then Some l else None
      | _ => None
      end
  | ClientDo => λ _ l, match l with Running _ None => Some l | _ => None end
  | _ => λ _ l, Some l
  end.
#[export] Instance ledger_monitor : Monitor Ledger := { watch R op := watch_ledger op }.

(** ** The client's stream *)

Inductive Out := Silent | StreamingOut | CompleteOut | EndedOut.

Definition watch_out {R} (op : Op R) : R -> Out -> option Out :=
  match op in Op R return R -> Out -> option Out with
  | MarkExecutionStreaming _ _ _ => λ reply o,
      match o, reply with
      | Silent, None => Some StreamingOut
      | Silent, Some _ => Some Silent
      | _, _ => None
      end
  | Complete _ _ => λ reply o,
      match reply with
      | None => match o with Silent | StreamingOut => Some CompleteOut | _ => None end
      | Some _ => Some o
      end
  | StreamSink _ event => λ reply o,
      match o with
      | StreamingOut =>
          if bool_decide (SeType event = StreamDone) then None
          else match reply with None => Some StreamingOut | Some _ => Some EndedOut end
      | CompleteOut => if bool_decide (SeType event = StreamDone) then Some EndedOut else None
      | _ => None
      end
  | ClientDo => λ _ o, match o with Silent => Some Silent | _ => None end
  | _ => λ _ o, Some o
  end.
#[export] Instance out_monitor : Monitor Out := { watch R op := watch_out op }.

(** ** Reading a response

    Counts the reads of the current response that did not end it. *)

Definition Reads : Type := nat.

Definition watch_reads {R} (op : Op R) : R -> Reads -> option Reads :=
  match op in Op R return R -> Reads -> option Reads with
  | ClientDo => λ _ _, Some 0%nat
  | BodyRead => λ reply n, Some (match reply.2 with ReadMore => S n | _ => n end)
  | _ => λ _ n, Some n
  end.
#[export] Instance reads_monitor : Monitor Reads := { watch R op := watch_reads op }.

(** ** All of them *)

Definition Proto : Type := Sends * Held * Ledger * Out * Reads.

Definition initial : Proto := (MaySend, nothing_held, NotAccepted, Silent, 0%nat).

(** Computes the monitors' answer to a call. *)
Ltac wp_compute ::=
  cbn [watch prod_monitor sends_monitor held_monitor ledger_monitor out_monitor reads_monitor watch_sends watch_held
       watch_ledger watch_out watch_reads fst snd admitted beating leased open_body AuStatus AuUsage];
  rewrite ?bool_decide_eq_true_2 by done;
  cbn [fst snd].
