(* ===== verification/WorkflowSpec.v ===== *)
(** * Specifications of the workflow's parts

    For each part of [Workflow], what it does to the monitors of [Protocol]
    and what its result says, proved with [wp] from the parts it calls.  The
    theorems of [WorkflowProps] follow from them. *)

From S2P Require Import Prelude Routing RoutingProps Resilience ResilienceProps GoStrings Valkey Lease.
From S2P Require Import Rate Canonical Capabilities Capacity Effects Monitor Workflow Protocol.

Local Open Scope Z_scope.
Local Open Scope flow_scope.

(** ** Choosing a candidate *)

Definition index_from (m : gmap string Candidate) (cs : list Candidate) : gmap string Candidate :=
  foldl (λ m candidate, <[CaID candidate := candidate]> m) m cs.

Lemma index_from_other m cs id : id ∉ CaID <$> cs -> index_from m cs !! id = m !! id.
Proof.
  revert m. induction cs as [|c cs IH]; intros m; [done|].
  rewrite fmap_cons, not_elem_of_cons. intros [Hne Hcs]. simpl. rewrite IH by done. by apply lookup_insert_ne.
Qed.

Lemma byID_lookup cs c : c ∈ cs -> NoDup (CaID <$> cs) -> byID cs !! CaID c = Some c.
Proof.
  unfold byID. fold (index_from ∅ cs). generalize (∅ : gmap string Candidate).
  induction cs as [|c' cs IH]; intros m Hin Hnd; [by apply not_elem_of_nil in Hin|].
  rewrite fmap_cons in Hnd. apply NoDup_cons in Hnd as [Hc' Hnd]. simpl.
  apply elem_of_cons in Hin as [<-|Hin]; [|by apply IH].
  rewrite index_from_other by done. apply lookup_insert_eq.
Qed.

(** The candidates not yet excluded. *)
Definition remaining (run : workflowRun) (excluded : list string) : nat :=
  length (filter (λ c, CaID c ∉ excluded) (candidates run)).

Lemma remaining_le run excluded : (remaining run excluded <= length (candidates run))%nat.
Proof. apply length_filter. Qed.

Lemma length_filter_lt {A} (P Q : A -> Prop) `{!forall x, base.Decision (P x), !forall x, base.Decision (Q x)} l x :
  (forall y, Q y -> P y) -> x ∈ l -> P x -> ~ Q x -> (length (filter Q l) < length (filter P l))%nat.
Proof.
  intros HQP Hx HP HnQ.
  assert (Hle : forall l', (length (filter Q l') <= length (filter P l'))%nat).
  { induction l' as [|y l' IH]; [done|]. rewrite !filter_cons. repeat case_decide; simpl; try lia. naive_solver. }
  induction l as [|y l IH]; [by apply not_elem_of_nil in Hx|]. apply elem_of_cons in Hx as [<-|Hx].
  - rewrite (filter_cons_True P), (filter_cons_False Q) by done. simpl. pose proof (Hle l). lia.
  - specialize (IH Hx). rewrite !filter_cons. repeat case_decide; simpl; try lia. naive_solver.
Qed.

Lemma remaining_exclude run excluded c :
  c ∈ candidates run -> CaID c ∉ excluded ->
  (remaining run (excluded ++ [CaID c]) < remaining run excluded)%nat.
Proof.
  intros Hin Hex. apply (length_filter_lt _ _ _ c); [|done..|].
  - intros y. rewrite not_elem_of_app. naive_solver.
  - rewrite not_elem_of_app, not_elem_of_cons. naive_solver.
Qed.

Section specs.
Context {W : Type} `{!Env W, !LawfulEnv W} (s : Service) (stuck : Proto -> Prop).

(** A candidate of the run that is still available. *)
Definition available (run : workflowRun) (excluded : list string) (c : Candidate) : Prop :=
  (CaID c ∉ excluded) /\ exists c', c' ∈ candidates run /\ CaID c' = CaID c.

Lemma selectCandidate_spec run excluded a h l o n :
  wp stuck (selectCandidate run excluded)
    (λ r σ, σ = (a, h, l, o, n) /\ match r with Ok c => available run excluded c | Err _ => True end)
    (a, h, l, o, n).
Proof.
  unfold selectCandidate. wp_next. wp_next. wp_next. wp_next.
  destruct (Routing.Select _ _ _) as [d|e] eqn:Hs; [|by apply wp_ret].
  case_bool_decide as Hd; [by apply wp_ret|]. apply wp_ret. split; [done|].
  apply Select_selected in Hs as (Hnd & rc & Hin & Hid & Ha); [|done].
  apply list_elem_of_fmap in Hin as (c & -> & Hin).
  rewrite <- list_fmap_compose in Hnd. change (NoDup (CaID <$> candidates run)) in Hnd.
  rewrite <- Hid. simpl. rewrite byID_lookup by done. simpl. split; [apply (al_attempt _ _ Ha)|eauto].
Qed.

Lemma available_exclude run excluded c :
  available run excluded c -> (remaining run (excluded ++ [CaID c]) < remaining run excluded)%nat.
Proof. intros (Hex & c' & Hin & Hc). rewrite <- Hc. apply remaining_exclude; [done|]. by rewrite Hc. Qed.

Lemma available_health run excluded c g : available run excluded c -> available run excluded (with_health c g).
Proof. done. Qed.

(** What a choice does to the list of excluded candidates. *)
Definition extends (run : workflowRun) (excluded excluded' : list string) : Prop :=
  (length excluded <= length excluded')%nat /\ (remaining run excluded' <= remaining run excluded)%nat.

Lemma extends_refl run ex : extends run ex ex.
Proof. by split. Qed.

Lemma extends_exclude run ex ex' c :
  extends run ex ex' -> available run ex' c -> extends run ex (ex' ++ [CaID c]).
Proof.
  intros [H1 H2] Ha%available_exclude. split; [rewrite length_app; simpl|]; lia.
Qed.

Lemma extends_trans run ex1 ex2 ex3 : extends run ex1 ex2 -> extends run ex2 ex3 -> extends run ex1 ex3.
Proof. intros [] []. split; lia. Qed.

Lemma candidate_loop_spec fuel run ex earliest flag a h l o n :
  (remaining run ex < fuel)%nat ->
  wp stuck (candidate_loop fuel run ex ex earliest flag)
    (λ r σ, σ = (a, h, l, o, n) /\ extends run ex r.2 /\
            match r.1 with Ok c => available run r.2 c | Err _ => True end)
    (a, h, l, o, n).
Proof.
  revert ex flag. induction fuel as [|fuel IH]; intros ex flag Hfuel; [lia|]. cbn [candidate_loop]. wp_next.
  eapply wp_mono; [apply selectCandidate_spec|]. intros r σ [-> Hr]. destruct r as [c|e].
  - wp_next. wp_next.
    + apply wp_ret. split; [done|]. split; [apply extends_refl|by apply available_health].
    + pose proof (available_exclude _ _ _ Hr). eapply wp_mono; [apply IH; lia|].
      intros r' σ' (-> & Hext & Hr'). split; [done|]. split; [|done].
      eapply extends_trans; [|exact Hext]. apply extends_exclude; [apply extends_refl|done].
  - destruct flag; simpl.
    + wp_next. wp_next. wp_next. split; [done|]. by split; [apply extends_refl|].
    + wp_next. split; [done|]. by split; [apply extends_refl|].
Qed.

Lemma attempt_loop_spec fuel run ex earliest flag a hadm hbeat hbody l o n :
  (remaining run ex < fuel)%nat ->
  wp stuck (attempt_loop fuel run ex earliest flag)
    (λ r σ, extends run ex r.2 /\
            match r.1 with
            | Ok (c, lease) =>
                σ = (a, mkHeld hadm hbeat (Some lease) hbody, l, o, n) /\ available run r.2 c
            | Err _ => σ = (a, mkHeld hadm hbeat None hbody, l, o, n)
            end)
    (a, mkHeld hadm hbeat None hbody, l, o, n).
Proof.
  revert ex earliest flag. induction fuel as [|fuel IH]; intros ex earliest flag Hfuel; [lia|].
  cbn [attempt_loop]. wp_next. eapply wp_mono.
  { apply candidate_loop_spec. pose proof (remaining_le run ex). unfold decision_fuel. lia. }
  intros [r ex1] σ (-> & Hext & Hr). simpl in Hext, Hr. destruct r as [c|e].
  - wp_next. wp_next.
    + apply wp_ret. done.
    + destruct (as_CapacityError _) as [at_|]; [|by apply wp_ret].
      pose proof (available_exclude _ _ _ Hr). destruct Hext as [He1 He2].
      eapply wp_mono; [apply IH; lia|]. intros r' σ' (Hext' & Hr'). split; [|done].
      eapply extends_trans; [|exact Hext']. by apply extends_exclude.
  - destruct flag; wp_steps; done.
Qed.

Lemma attemptDecision_spec run ex a hadm hbeat hbody l o n :
  wp stuck (attemptDecision run ex)
    (λ r σ, extends run ex r.2 /\
            match r.1 with
            | Ok (c, lease) => σ = (a, mkHeld hadm hbeat (Some lease) hbody, l, o, n) /\ available run r.2 c
            | Err _ => σ = (a, mkHeld hadm hbeat None hbody, l, o, n)
            end)
    (a, mkHeld hadm hbeat None hbody, l, o, n).
Proof. apply attempt_loop_spec. pose proof (remaining_le run ex). unfold decision_fuel. lia. Qed.

(** ** Preparation *)

(** Between attempts: admitted, claimed, no lease, nothing sent that may have
    been accepted. *)
Definition ready (lease : option LeaseHandle) (cl : Claim) (n : nat) : Proto :=
  (MaySend, mkHeld true true lease false, Running cl None, Silent, n).

(** Nothing was sent and nothing is left to do. *)
Definition withdrawn (σ : Proto) : Prop :=
  exists l, σ = (MaySend, nothing_held, l, Silent, 0%nat) /\ at_rest l.

Definition prepared (P : ChatRequest -> Prop) (r : result Error workflowRun) (σ : Proto) : Prop :=
  match r with
  | Ok run => σ = ready None (claim run) 0 /\ P (request run)
  | Err _ => withdrawn σ
  end.

Lemma prepare_accepted_spec cmd mdl up est acc :
  wp stuck (prepare_accepted cmd mdl up est acc) (prepared (λ req, req = up))
    (MaySend, mkHeld true false None false, AcceptedRequest (AcRequestID acc), Silent, 0%nat).
Proof. unfold prepare_accepted, prepared, withdrawn. wp_steps; (by eexists) || done. Qed.

(** The request sent upstream is the caller's, for the upstream's model. *)
Definition upstream_of (cmd : ChatCommand) (req : ChatRequest) : Prop := exists name, req = with_model (CmRequest cmd) name.

Lemma prepare_spec cmd : wp stuck (prepare cmd) (prepared (upstream_of cmd)) initial.
Proof.
  unfold prepare, initial, nothing_held.
  wp_steps; (by eexists) || (to_prop; eexists; split; done) || idtac.
  all: eapply wp_mono; [apply prepare_accepted_spec|]; intros [run|e] σ; [|done].
  all: intros [-> Hq]; (split; [done|by eexists]).
Qed.

(** ** An attempt *)

(** The claim can still be reported as failed. *)
Definition failable (cl : Claim) (l : Ledger) : Prop :=
  match l with
  | Running cl' _ | CompletedRequest cl' _ | Closed (Some cl') => cl' = cl
  | _ => False
  end.

(** How an attempt ends in an error: rejected before or by the upstream, with
    an uncertain outcome, or with a state the storage did not take. *)
Definition rejected (cl : Claim) (a : Sends) (l : Ledger) (o : Out) (e : Error) : Prop :=
  a = MaySend /\ l = Running cl None /\ o = Silent /\ reported e.

Definition attempt_error (cl : Claim) (a : Sends) (l : Ledger) (o : Out) (e : Error) : Prop :=
  rejected cl a l o e \/
  (Kind e = ErrorUncertain /\ l = Closed (Some cl)) \/
  (Kind e = ErrorStorageUnavailable /\ failable cl l).

Lemma storageError_reported code err : reported (storageError code err).
Proof. done. Qed.

Lemma buildUpstream_spec run c a h l o n :
  wp stuck (buildUpstream run c)
    (λ r σ, σ = (a, h, l, o, n) /\ match r with Some e => reported e | None => True end) (a, h, l, o, n).
Proof.
  unfold buildUpstream. wp_steps; try done. split; [done|]. unfold asCanonical.
  destruct (as_Error _) as [e|] eqn:He; [|done]. by eapply Hallowed.
Qed.

Lemma failAttempt_spec cl id e status g a h rec o n :
  wp stuck (failAttempt s cl id e status g) (λ _ σ, σ = (a, h, Running cl rec, o, n)) (a, h, Running cl rec, o, n).
Proof. unfold failAttempt. by wp_steps. Qed.

Lemma markNonStreamUncertain_spec run c id status cause a h rec o n :
  wp stuck (markNonStreamUncertain s run c id status cause)
    (λ e σ, σ = (a, h, Closed (Some (claim run)), o, n) /\
            (Kind e = ErrorUncertain \/ Kind e = ErrorStorageUnavailable))
    (a, h, Running (claim run) rec, o, n).
Proof. unfold markNonStreamUncertain. wp_steps; split; auto. Qed.

Lemma readResponse_spec limit a adm beat lease l o n :
  wp stuck (readResponse limit)
    (λ _ σ, σ = (a, mkHeld adm beat lease true, l, o, n)) (a, mkHeld adm beat lease true, l, o, n).
Proof. unfold readResponse. by wp_steps. Qed.

Lemma reconcileLease_spec lease est usage a adm beat body l o n :
  wp stuck (reconcileLease lease est usage)
    (λ _ σ, σ = (a, mkHeld adm beat (Some lease) body, l, o, n)) (a, mkHeld adm beat (Some lease) body, l, o, n).
Proof. unfold reconcileLease. by wp_steps. Qed.

(** The state once the upstream was called, with what the attempt leaves. *)
Definition chat_outcome (run : workflowRun) (r : result Error ChatResult) (a : Sends) (l : Ledger) (o : Out) : Prop :=
  match r with
  | Ok res =>
      res = mkChatResult (AcRequestID (accepted run)) (CrsResponse res) /\
      l = CompletedRequest (claim run) (responseUsage (request run) (CrsResponse res))
  | Err e => attempt_error (claim run) a l o e
  end.

Lemma finishChat_spec run c id lease status parsed a n :
  wp stuck (finishChat run c id lease status parsed)
    (λ r σ, exists l o, σ = (a, mkHeld true true (Some lease) true, l, o, n) /\ chat_outcome run r a l o)
    (a, mkHeld true true (Some lease) true, Running (claim run) None, Silent, n).
Proof.
  unfold finishChat, chat_outcome, attempt_error.
  wp_steps; try (eapply wp_mono; [apply reconcileLease_spec|]; intros ? ? ->); wp_steps;
    do 2 eexists; (split; [reflexivity|]); naive_solver.
Qed.

Lemma classify_watch status body e (h : Held) (l : Ledger) (o : Out) (n : Reads) :
  watch (ClassifyError status body) e (Awaiting status, h, l, o, n) =
  Some (if rejects status e then MaySend else NoMoreSends, h, l, o, n).
Proof. wp_compute. rewrite Z.eqb_refl. by destruct (rejects status e). Qed.

Lemma receiveChat_spec run c id lease status n :
  wp stuck (receiveChat s run c id lease status)
    (λ r σ, exists a l o, σ = (a, mkHeld true true (Some lease) true, l, o, n) /\ chat_outcome run r a l o)
    (Awaiting status, mkHeld true true (Some lease) true, Running (claim run) None, Silent, n).
Proof.
  unfold receiveChat. wp_next. eapply wp_mono; [apply readResponse_spec|]. intros r σ ->.
  assert (Hmark : forall a cause,
    wp stuck (let! e := markNonStreamUncertain s run c id (Some status) cause in ret (Err e))
      (λ r σ, exists a l o, σ = (a, mkHeld true true (Some lease) true, l, o, n) /\ chat_outcome run r a l o)
      (a, mkHeld true true (Some lease) true, Running (claim run) None, Silent, n)).
  { intros a cause. wp_next. eapply wp_mono; [apply markNonStreamUncertain_spec|].
    intros e σ [-> He]. wp_next. do 3 eexists. split; [done|]. unfold chat_outcome, attempt_error. naive_solver. }
  destruct r as [body|e]; [|apply Hmark]. destruct (successful status) eqn:Hst; cbn [negb].
  - wp_next. wp_next; [|apply Hmark]. eapply wp_mono; [apply finishChat_spec|]. naive_solver.
  - wp_next. apply wp_call. intros e He. cbn [allowed] in He.
    eexists. split; [by apply classify_watch|]. unfold rejects. rewrite Hst. cbn [negb andb].
    destruct ((500 <=? status) && negb (ReplaySafe e))%bool eqn:Hu; [apply Hmark|].
    wp_next. eapply wp_mono; [apply failAttempt_spec|]. intros ? σ ->. wp_next. do 3 eexists. split; [done|].
    left. split_and!; try done. rewrite Z.ltb_antisym. by destruct (500 <=? status), (ReplaySafe e).
Qed.

Definition sent_outcome (run : workflowRun) (lease : LeaseHandle) (n : nat)
    (r : Error + UUID * result GoError Z) (σ : Proto) : Prop :=
  match r with
  | inl e => σ = ready (Some lease) (claim run) n /\ reported e
  | inr (_, Err _) => σ = (NoMoreSends, mkHeld true true (Some lease) false, Running (claim run) None, Silent, 0%nat)
  | inr (_, Ok status) =>
      σ = (Awaiting status, mkHeld true true (Some lease) true, Running (claim run) None, Silent, 0%nat)
  end.

Lemma sendAttempt_spec run c seq lease n :
  wp stuck (sendAttempt s run c seq) (sent_outcome run lease n) (ready (Some lease) (claim run) n).
Proof.
  unfold sendAttempt, ready. wp_next. wp_next; [|by wp_steps].
  wp_next. eapply wp_mono; [apply buildUpstream_spec|]. intros r σ [-> Hr]. destruct r as [e|]; [|by wp_steps].
  wp_next. eapply wp_mono; [apply failAttempt_spec|]. intros ? σ ->. by wp_next.
Qed.

Lemma nonStreamAttempt_spec run c seq lease n :
  wp stuck (nonStreamAttempt s run c seq (Some lease))
    (λ r σ, exists a l o k, σ = (a, mkHeld true true None false, l, o, k) /\ chat_outcome run r a l o)
    (ready (Some lease) (claim run) n).
Proof.
  unfold nonStreamAttempt, attemptLease. wp_next. wp_next. wp_next. wp_next.
  eapply wp_mono; [apply sendAttempt_spec|]. intros r σ Hr.
  destruct r as [e|[id [status|err]]]; simpl in Hr.
  - destruct Hr as [-> Hr]. unfold ready. wp_steps; (do 4 eexists; split; [done|by left]).
  - subst σ. wp_next. eapply wp_mono; [apply receiveChat_spec|]. intros r σ (a' & l' & o' & -> & Hr).
    wp_steps; by do 4 eexists.
  - subst σ. wp_next. eapply wp_mono; [apply markNonStreamUncertain_spec|]. intros e σ [-> He].
    wp_steps; (do 4 eexists; split; [done|]; unfold chat_outcome, attempt_error; naive_solver).
Qed.

(** ** After a failed attempt *)

Lemma fail_spec cl kind detail a h l o n :
  failable cl l ->
  wp stuck (call (Fail_ cl kind detail)) (λ _ σ, exists l', σ = (a, h, l', o, n) /\ at_rest l') (a, h, l, o, n).
Proof. intros Hl. destruct l as [| | | |[cl'|]]; simpl in Hl; try done; subst; wp_next; by eexists. Qed.

Lemma Decide_storage p now attempt start after d :
  Decide p now (mkRetryInput attempt start FailureStorage SendRejected ClientUncommitted false after) = Ok d ->
  Action d <> RetrySchedule.
Proof. unfold Decide. intros Hd. repeat (case_match; simplify_eq/=); try done. Qed.

Lemma ensureClientRetryAfter_spec e a h l o n :
  wp stuck (ensureClientRetryAfter s e) (λ _ σ, σ = (a, h, l, o, n)) (a, h, l, o, n).
Proof. unfold ensureClientRetryAfter. by wp_steps. Qed.

(** An attempt that may be followed by another: either within the budget of
    attempts, or by the next candidate. *)
Definition follows (run : workflowRun) (attempt : Z) (ex ex' : list string) : Prop :=
  attempt < MaxAttempts (retry s) \/
  (length ex' = S (length ex) /\ (S (length ex) < length (candidates run))%nat).

Definition next_outcome (run : workflowRun) (attempt : Z) (ex : list string) (k : nat)
    (r : Error + list string) (σ : Proto) : Prop :=
  match r with
  | inl _ => exists a l o, σ = (a, mkHeld true true None false, l, o, k) /\ at_rest l
  | inr ex' => σ = ready None (claim run) k /\ follows run attempt ex ex'
  end.

Lemma nextAttempt_spec run start attempt ex c e a l o k :
  rejected (claim run) a l o e \/ (Kind e = ErrorStorageUnavailable /\ failable (claim run) l) ->
  wp stuck (nextAttempt s run start attempt ex c e) (next_outcome run attempt ex k)
    (a, mkHeld true true None false, l, o, k).
Proof.
  intros He.
  assert (Hl : failable (claim run) l) by (destruct He as [(-> & -> & -> & _)|[_ ?]]; done).
  assert (Hfail : forall e' kind detail,
    wp stuck (call (Fail_ (claim run) kind detail) ;; ret (inl e')) (next_outcome run attempt ex k)
      (a, mkHeld true true None false, l, o, k)).
  { intros e' kind detail. wp_next. eapply wp_mono; [by apply fail_spec|]. intros ? σ (l' & -> & Hr).
    wp_next. by do 3 eexists. }
  unfold nextAttempt. destruct (shouldTryNextCandidate e && _)%bool eqn:Hnext.
  - wp_next. to_prop. destruct He as [(-> & -> & -> & _)|[Hk _]].
    + split; [done|]. right. rewrite length_app. simpl. lia.
    + unfold shouldTryNextCandidate in *. rewrite Hk in *. by destruct (negb _).
  - wp_next. wp_next. wp_next. wp_next. wp_next. wp_next.
    assert (Hstop : wp stuck (let! e' := ensureClientRetryAfter s e in
        call (Fail_ (claim run) (Code e') (Message e')) ;; ret (inl e'))
      (next_outcome run attempt ex k) (a, mkHeld true true None false, l, o, k)).
    { wp_next. eapply wp_mono; [apply ensureClientRetryAfter_spec|]. intros e' σ ->. apply Hfail. }
    destruct (Decide _ _ _) as [[[] reason next delay at_]|e'] eqn:Hd; try exact Hstop.
    wp_next. wp_next. wp_next. unfold waitUntil.
    apply wp_mono with (Q := λ _ σ, σ = (a, mkHeld true true None false, l, o, k)); [by wp_steps|].
    intros [err|] σ ->; [apply Hfail|]. wp_next.
    destruct He as [(-> & -> & -> & _)|[Hk _]].
    + split; [done|]. left. apply Decide_budget in Hd as (_ & Hlt & _); done.
    + rewrite Hk in Hd. by apply Decide_storage in Hd.
Qed.

Lemma observeAttempt_spec kind err a h l o n :
  wp stuck (observeAttempt kind err) (λ _ σ, σ = (a, h, l, o, n)) (a, h, l, o, n).
Proof. unfold observeAttempt. by wp_steps. Qed.

(** ** The loop over attempts *)

(** What bounds the attempts that may still follow. *)
Definition attempts_left (run : workflowRun) (attempt : Z) (ex : list string) : nat :=
  if attempt <? MaxAttempts (retry s) then Z.to_nat (MaxAttempts (retry s) - attempt) + length (candidates run)
  else length (candidates run) - length ex.

Lemma attempts_left_next run attempt ex1 ex2 ex3 :
  extends run ex1 ex2 -> follows run attempt ex2 ex3 ->
  (attempts_left run (attempt + 1) ex3 < attempts_left run attempt ex1)%nat.
Proof.
  unfold extends, follows, attempts_left. intros [Hl _] Hf.
  destruct (Z.ltb_spec attempt (MaxAttempts (retry s))), (Z.ltb_spec (attempt + 1) (MaxAttempts (retry s))); lia.
Qed.

Lemma attempts_left_first run : (attempts_left run 1 [] < loop_fuel s run)%nat.
Proof. unfold attempts_left, loop_fuel. simpl. destruct (Z.ltb_spec 1 (MaxAttempts (retry s))); lia. Qed.

(** A request that ends: everything but the admission and the heartbeat is
    given back, the ledger is at rest, and a result is the completed one. *)
Definition chat_done (run : workflowRun) (r : result Error ChatResult) (l : Ledger) : Prop :=
  match r with
  | Ok res => l = CompletedRequest (claim run) (responseUsage (request run) (CrsResponse res))
  | Err _ => at_rest l
  end.

Lemma chat_loop_spec fuel run start attempt ex k :
  (attempts_left run attempt ex < fuel)%nat ->
  wp stuck (chat_loop s fuel run start attempt ex)
    (λ r σ, exists a l o k', σ = (a, mkHeld true true None false, l, o, k') /\ chat_done run r l)
    (ready None (claim run) k).
Proof.
  revert attempt ex k. induction fuel as [|fuel IH]; intros attempt ex k Hfuel; [lia|].
  cbn [chat_loop]. wp_next. eapply wp_mono; [apply attemptDecision_spec|].
  intros [r ex1] σ [Hext Hr]. simpl in Hext, Hr. destruct r as [[c lease]|e].
  - destruct Hr as [-> _]. wp_next. eapply wp_mono; [apply nonStreamAttempt_spec|].
    intros r σ (a & l & o & k' & -> & Hr). wp_next. eapply wp_mono; [apply observeAttempt_spec|]. intros ? σ ->.
    destruct r as [res|e]; [wp_next; by do 4 eexists; split; [|apply Hr]|].
    case_bool_decide as Hu.
    + wp_next. do 4 eexists. split; [done|]. simpl in Hr. destruct Hr as [(_ & _ & _ & [? _])|[[_ ->]|[Hk _]]];
        [done|done|congruence].
    + wp_next. eapply wp_mono; [apply nextAttempt_spec; unfold chat_outcome, attempt_error in Hr; naive_solver|].
      intros [e'|ex2] σ Hn; simpl in Hn.
      * destruct Hn as (a' & l' & o' & -> & Hrest). wp_next. by do 4 eexists.
      * destruct Hn as [-> Hf]. apply IH. pose proof (attempts_left_next _ _ _ _ _ Hext Hf). lia.
  - subst σ. wp_next. eapply wp_mono; [by apply fail_spec|]. intros ? σ (l' & -> & Hrest).
    wp_next. by do 4 eexists.
Qed.

(** ** Chat *)

(** The end of a request: nothing is held, the ledger is at rest, and a
    result is the completed one. *)
Definition chat_end (cmd : ChatCommand) (r : result Error ChatResult) (σ : Proto) : Prop :=
  exists a l o k, σ = (a, nothing_held, l, o, k) /\ at_rest l /\
  match r with
  | Ok res => exists cl, l = CompletedRequest cl (responseUsage (CmRequest cmd) (CrsResponse res))
  | Err _ => True
  end.

Lemma Chat_spec cmd : wp stuck (Chat s cmd) (chat_end cmd) initial.
Proof.
  unfold Chat. wp_next. eapply wp_mono; [apply prepare_spec|]. intros [run|e] σ; cbn [prepared].
  - intros [-> [name Hreq]]. unfold ready. wp_next. wp_next. destruct (Stream_ (request run)).
    + wp_steps; by do 4 eexists.
    + wp_next. wp_next. eapply wp_mono; [apply (chat_loop_spec _ run _ 1 [] 0), attempts_left_first|].
      intros r σ (a & l & o & k & -> & Hr). wp_next. wp_next. do 4 eexists. split; [done|].
      destruct r as [res|e]; simpl in Hr; [|done]. rewrite Hreq in Hr. subst l. split; [done|]. by eexists.
  - intros (l & -> & Hl). wp_next. by do 4 eexists.
Qed.

(** ** Streams *)

(** The monitor of the client's stream and the state of the attempt agree. *)
Definition tracks (state : streamState) (o : Out) : Prop :=
  o = (if committed state then StreamingOut else Silent) /\
  (done_ state = true -> committed state = true /\ SeType (doneEvent state) = StreamDone).

(** The same for a stream that broke: the client may have stopped it. *)
Definition broke (state : streamState) (o : Out) : Prop :=
  if committed state then o = StreamingOut \/ o = EndedOut else o = Silent.

Lemma tracks_broke state o : tracks state o -> broke state o.
Proof. intros [-> _]. unfold broke. destruct (committed state); auto. Qed.

Definition emitted (run : workflowRun) (a : Sends) (h : Held) (k : nat) (r : option Error * streamState) (σ : Proto) :
    Prop :=
  exists o, σ = (a, h, Running (claim run) None, o, k) /\
    match r.1 with None => tracks r.2 o | Some _ => broke r.2 o end.

Lemma tracks_count event state o : tracks state o -> tracks (count_usage event state) o.
Proof. unfold tracks, count_usage. by destruct (SeUsage event). Qed.

Lemma tracks_commit now state : tracks state Silent -> tracks (commit now state) StreamingOut.
Proof. unfold tracks, commit. simpl. naive_solver. Qed.

Lemma count_committed event state : committed (count_usage event state) = committed state.
Proof. unfold count_usage. by destruct (SeUsage event). Qed.

Lemma emitEvents_spec run id status state events a h o k :
  tracks state o ->
  wp stuck (emitEvents run id status state events) (emitted run a h k) (a, h, Running (claim run) None, o, k).
Proof.
  revert state o. induction events as [|event0 events IH]; intros state o Hst.
  { cbn [emitEvents]. wp_next. by eexists. }
  cbn [emitEvents]. set (event := public_event run event0). case_bool_decide as Herr.
  { wp_next. eexists. split; [done|]. by apply tracks_broke. }
  wp_next. apply wp_mono with (Q := λ r σ, match r with
    | Ok state' => σ = (a, h, Running (claim run) None, StreamingOut, k) /\ tracks state' StreamingOut /\
                   committed state' = true
    | Err _ => σ = (a, h, Running (claim run) None, o, k)
    end).
  { destruct (committed state) eqn:Hc.
    - wp_next. pose proof Hst as [Ho _]. rewrite Hc in Ho. by subst o.
    - pose proof Hst as [Ho _]. rewrite Hc in Ho. subst o. wp_steps; [done|].
      split_and!; [done|by apply tracks_commit|done]. }
  intros [state1|e] σ Hr; [|subst σ; wp_next; eexists; split; [done|by apply tracks_broke]].
  destruct Hr as (-> & Ht & Hc). apply (tracks_count event) in Ht. case_bool_decide as Hdone.
  { apply IH. split; [apply Ht|]. simpl. intros _. by rewrite count_committed. }
  destruct (bool_decide _ && _)%bool; [by apply IH|]. wp_next. apply wp_call. intros reply _. eexists. split.
  { wp_compute. rewrite (bool_decide_eq_false_2 (SeType event = StreamDone)) by done.
    instantiate (1 := (a, h, Running (claim run) None, match reply with None => StreamingOut | Some _ => EndedOut end, k)).
    by destruct reply. }
  destruct reply as [err|]; [|by apply IH]. wp_next. eexists. split; [done|]. unfold broke. simpl.
  rewrite count_committed, Hc. auto.
Qed.

Lemma read_loop_spec reads run id status state a lease o k :
  (forall a h l o, stuck (a, h, l, o, (k + reads)%nat)) ->
  tracks state o ->
  wp stuck (read_loop reads run id status state)
    (λ r σ, exists k', emitted run a (mkHeld true true (Some lease) true) k' r σ)
    (a, mkHeld true true (Some lease) true, Running (claim run) None, o, k).
Proof.
  revert state o k. induction reads as [|reads IH]; intros state o k Hstuck Hst; cbn [read_loop].
  { apply wp_out_of_fuel. rewrite Nat.add_0_r in Hstuck. apply Hstuck. }
  wp_next. wp_next. set (k1 := match snd _ with ReadMore => _ | _ => _ end). destruct reply as [chunk read_end].
  wp_next. apply wp_mono with (Q := emitted run a (mkHeld true true (Some lease) true) k1).
  { case_bool_decide; [wp_next; by eexists|]. wp_next. wp_next.
    - by apply emitEvents_spec.
    - wp_next. eexists. split; [done|]. by apply tracks_broke. }
  intros [[e|] state1] σ (o1 & -> & Hr); simpl in Hr.
  { wp_next. by do 2 eexists. }
  subst k1. destruct read_end; simpl.
  - apply IH; [|done]. intros. replace (S k + reads)%nat with (k + S reads)%nat by lia. auto.
  - wp_next. by do 2 eexists.
  - wp_next. do 2 eexists. split; [done|]. by apply tracks_broke.
Qed.

Lemma closeStream_spec run id status state a h o k :
  tracks state o ->
  wp stuck (closeStream run id status state)
    (λ r σ, emitted run a h k r σ /\ (r.1 = None -> done_ r.2 = true)) (a, h, Running (claim run) None, o, k).
Proof.
  intros Hst. unfold closeStream. wp_next. wp_next.
  - wp_next. eapply wp_mono; [by apply emitEvents_spec|]. intros [[e|] state1] σ (o1 & -> & Hr); simpl in Hr.
    + wp_next. split; [by eexists|done].
    + destruct (done_ state1) eqn:Hd; wp_next; (split; [|done]); eexists; (split; [done|]); [done|].
      by apply tracks_broke.
  - wp_next. split; [|done]. eexists. split; [done|]. by apply tracks_broke.
Qed.

(** How a streaming attempt ends.  Once the client has been sent something a
    failure to store the completion is left to the recovery. *)
Definition unstored (cl : Claim) (l : Ledger) (e : Error) : Prop :=
  Kind e = ErrorStorageUnavailable /\ exists recorded, l = Running cl recorded.

Definition stream_outcome (run : workflowRun) (r : bool * option Error) (a : Sends) (l : Ledger) (o : Out) : Prop :=
  match r with
  | (_, None) => (exists usage, l = CompletedRequest (claim run) usage) /\ o = EndedOut
  | (sent, Some e) =>
      (sent = false /\ rejected (claim run) a l o e) \/
      (at_rest l /\ (Kind e = ErrorUncertain \/ Kind e = ErrorStreamInterrupted)) \/
      (at_rest l /\ Kind e = ErrorStorageUnavailable /\ failable (claim run) l) \/
      (sent = true /\ unstored (claim run) l e)
  end.

Lemma finishBrokenStream_spec run c id state e a h rec o k :
  wp stuck (finishBrokenStream s run c id state e)
    (λ r σ, exists l, σ = (a, h, l, o, k) /\ stream_outcome run r a l o)
    (a, h, Running (claim run) rec, o, k).
Proof.
  unfold finishBrokenStream, stream_outcome, brokenError. wp_steps; eexists; (split; [done|]).
  all: destruct (committed state); simpl; naive_solver.
Qed.

Lemma finishStream_spec run c id lease status state a o k :
  tracks state o -> done_ state = true ->
  wp stuck (finishStream run c id lease status state)
    (λ r σ, exists l o', σ = (a, mkHeld true true (Some lease) true, l, o', k) /\ stream_outcome run r a l o')
    (a, mkHeld true true (Some lease) true, Running (claim run) None, o, k).
Proof.
  intros [Ho Hd] Hdone. destruct (Hd Hdone) as [Hc Ht]. rewrite Hc in Ho. subst o.
  unfold finishStream, stream_outcome. wp_steps.
  - do 2 eexists. split; [done|]. rewrite Hc. unfold unstored. naive_solver.
  - do 2 eexists. split; [done|]. rewrite Hc. unfold unstored. naive_solver.
  - eapply wp_mono; [apply reconcileLease_spec|]. intros ? ? ->. wp_steps; do 2 eexists; (split; [done|]); naive_solver.
Qed.

Lemma receiveStream_spec reads run c id lease status :
  (forall a h l o, stuck (a, h, l, o, reads)) ->
  wp stuck (receiveStream s reads run c id lease status)
    (λ r σ, exists a l o k, σ = (a, mkHeld true true (Some lease) true, l, o, k) /\ stream_outcome run r a l o)
    (Awaiting status, mkHeld true true (Some lease) true, Running (claim run) None, Silent, 0%nat).
Proof.
  intros Hstuck. unfold receiveStream.
  assert (Hbroken : forall a o k state e,
    wp stuck (finishBrokenStream s run c id state e)
      (λ r σ, exists a l o k, σ = (a, mkHeld true true (Some lease) true, l, o, k) /\ stream_outcome run r a l o)
      (a, mkHeld true true (Some lease) true, Running (claim run) None, o, k)).
  { intros. eapply wp_mono; [apply finishBrokenStream_spec|]. naive_solver. }
  destruct (successful status) eqn:Hst; cbn [negb].
  - wp_next. wp_next. wp_next. eapply wp_mono; [by apply (read_loop_spec _ _ _ _ _ _ lease)|].
    intros [[e|] state1] σ (k & o1 & -> & Hr); simpl in Hr; [apply Hbroken|].
    wp_next. eapply wp_mono; [by apply closeStream_spec|].
    intros [[e|] state2] σ [(o2 & -> & Hr2) Hd]; simpl in *; [apply Hbroken|].
    eapply wp_mono; [apply finishStream_spec; auto|]. naive_solver.
  - wp_next. eapply wp_mono; [apply readResponse_spec|]. intros [body|e] σ ->; [|apply Hbroken].
    wp_next. apply wp_call. intros e He. cbn [allowed] in He.
    eexists. split; [by apply classify_watch|]. unfold rejects. rewrite Hst. cbn [negb andb].
    destruct ((500 <=? status) && negb (ReplaySafe e))%bool eqn:Hu; [apply Hbroken|].
    wp_next. eapply wp_mono; [apply failAttempt_spec|]. intros ? σ ->. wp_next. do 4 eexists. split; [done|].
    left. split_and!; try done. rewrite Z.ltb_antisym. by destruct (500 <=? status), (ReplaySafe e).
Qed.

Lemma streamAttempt_spec reads run c seq lease n :
  (forall a h l o, stuck (a, h, l, o, reads)) ->
  wp stuck (streamAttempt s reads run c seq (Some lease))
    (λ r σ, exists a l o k, σ = (a, mkHeld true true None false, l, o, k) /\ stream_outcome run r a l o)
    (ready (Some lease) (claim run) n).
Proof.
  intros Hstuck. unfold streamAttempt, attemptLease. wp_next. wp_next. wp_next. wp_next.
  eapply wp_mono; [apply sendAttempt_spec|]. intros r σ Hr.
  destruct r as [e|[id [status|err]]]; simpl in Hr.
  - destruct Hr as [-> Hr]. unfold ready. wp_steps; (do 4 eexists; split; [done|by left]).
  - subst σ. wp_next. eapply wp_mono; [by apply receiveStream_spec|]. intros r σ (a' & l' & o' & k & -> & Hr).
    wp_steps; by do 4 eexists.
  - subst σ. eapply wp_mono; [apply finishBrokenStream_spec|]. intros r σ (l' & -> & Hr).
    wp_steps; by do 4 eexists.
Qed.

Definition stream_done (r : option Error) (l : Ledger) (o : Out) : Prop :=
  match r with
  | None => (exists cl usage, l = CompletedRequest cl usage) /\ o = EndedOut
  | Some e => at_rest l \/ exists cl, unstored cl l e
  end.

Lemma stream_loop_spec fuel reads run start attempt ex k :
  (forall a h l o, stuck (a, h, l, o, reads)) ->
  (attempts_left run attempt ex < fuel)%nat ->
  wp stuck (stream_loop s fuel reads run start attempt ex)
    (λ r σ, exists a l o k', σ = (a, mkHeld true true None false, l, o, k') /\ stream_done r l o)
    (ready None (claim run) k).
Proof.
  intros Hstuck. revert attempt ex k. induction fuel as [|fuel IH]; intros attempt ex k Hfuel; [lia|].
  cbn [stream_loop]. wp_next. eapply wp_mono; [apply attemptDecision_spec|].
  intros [r ex1] σ [Hext Hr]. simpl in Hext, Hr. destruct r as [[c lease]|e].
  - destruct Hr as [-> _]. wp_next. eapply wp_mono; [by apply streamAttempt_spec|].
    intros [sent r] σ (a & l & o & k' & -> & Hr). wp_next.
    eapply wp_mono; [apply observeAttempt_spec|]. intros ? σ ->.
    destruct r as [e|]; [|wp_next; do 4 eexists; split; [done|]; naive_solver].
    destruct (sent || _ || _)%bool eqn:Hstop.
    + wp_next. do 4 eexists. split; [done|]. simpl in Hr.
      destruct Hr as [[-> (_ & _ & _ & [Hu Hi])]|[[? _]|[[? _]|[_ ?]]]]; [|by left|by left|right; eauto].
      by rewrite !bool_decide_eq_false_2 in Hstop by done.
    + wp_next. to_prop. eapply wp_mono.
      { apply nextAttempt_spec. simpl in Hr. naive_solver. }
      intros [e'|ex2] σ Hn; simpl in Hn.
      * destruct Hn as (a' & l' & o' & -> & Hrest). wp_next. do 4 eexists. split; [done|by left].
      * destruct Hn as [-> Hf]. apply IH. pose proof (attempts_left_next _ _ _ _ _ Hext Hf). lia.
  - subst σ. wp_next. eapply wp_mono; [by apply fail_spec|]. intros ? σ (l' & -> & Hrest).
    wp_next. do 4 eexists. split; [done|by left].
Qed.

Definition stream_end (r : option Error) (σ : Proto) : Prop :=
  exists a l o k, σ = (a, nothing_held, l, o, k) /\ stream_done r l o.

Lemma Stream_spec reads present cmd :
  (forall a h l o, stuck (a, h, l, o, reads)) -> wp stuck (Stream s reads present cmd) stream_end initial.
Proof.
  intros Hstuck. unfold Stream. destruct present; cbn [negb]; [|wp_next; do 4 eexists; split; [done|by left]].
  wp_next. eapply wp_mono; [apply prepare_spec|]. intros [run|e] σ; cbn [prepared].
  - intros [-> [name Hreq]]. unfold ready. wp_next. wp_next. destruct (Stream_ (request run)); cbn [negb].
    + wp_next. wp_next. eapply wp_mono; [apply (stream_loop_spec _ _ run _ 1 [] 0); [done|apply attempts_left_first]|].
      intros r σ (a & l & o & k & -> & Hr). wp_next. wp_next. by do 4 eexists.
    + wp_steps; (do 4 eexists; split; [done|by left]).
  - intros (l & -> & Hl). wp_next. do 4 eexists. split; [done|by left].
Qed.
End specs.
