(* ===== verification/WorkflowProps.v ===== *)
(** * Theorems about the request workflow

    Over any environment that keeps the adapter's promise ([LawfulEnv]):
    what [Chat] and [Stream] send, hold, report and stream, and that they
    end. *)

From S2P Require Import Prelude Routing Resilience ResilienceProps GoStrings Valkey Lease Rate.
From S2P Require Import Canonical Capabilities CapabilitiesProps Capacity Effects Monitor Workflow Protocol WorkflowSpec.

Local Open Scope Z_scope.

(** ** Traces accepted by the monitors *)

Definition is_send (e : Ev) : bool := match e with @Called _ ClientDo _ => true | _ => false end.

Definition is_sink (e : Ev) : bool := match e with @Called _ (StreamSink _ _) _ => true | _ => false end.

(** Between two upstream requests the earlier one was answered with a status
    that rejects it. *)
Definition no_blind_resend (tr : list Ev) : Prop :=
  forall pre r mid r' post,
    tr = pre ++ Called ClientDo r :: mid ++ Called ClientDo r' :: post ->
    exists status body e, r = Ok status /\ Called (ClassifyError status body) e ∈ mid /\ rejects status e = true.

(** What the client receives comes after the last upstream request. *)
Definition one_attempt_streams (tr : list Ev) : Prop :=
  forall pre request event reply post,
    tr = pre ++ Called (StreamSink request event) reply :: post -> Forall (λ e, is_send e = false) post.

(** The final event follows a recorded completion and nothing follows it. *)
Definition done_is_last (tr : list Ev) : Prop :=
  forall pre request event reply post,
    tr = pre ++ Called (StreamSink request event) reply :: post -> SeType event = StreamDone ->
    (exists cl usage, Called (Complete cl usage) None ∈ pre) /\ Forall (λ e, is_sink e = false) post.

Lemma awaiting_step status ev (σ' : Sends) :
  watch_ev (Awaiting status) ev = Some σ' ->
  σ' = Awaiting status \/ σ' = NoMoreSends \/
  exists body e, ev = Called (ClassifyError status body) e /\ rejects status e = true.
Proof.
  destruct ev as [R op reply]. destruct op; simpl; intros H; simplify_eq/=; auto.
  destruct ((_ =? _) && _)%bool eqn:Hb; simplify_eq; [|by auto]. to_prop. subst. right. right. eauto.
Qed.

Lemma no_more_step ev (σ' : Sends) : watch_ev NoMoreSends ev = Some σ' -> σ' = NoMoreSends.
Proof. destruct ev as [R op reply]. destruct op; simpl; intros H; by simplify_eq/=. Qed.

Lemma sends_before (σ σ' : Sends) mid r post :
  watches σ (mid ++ Called ClientDo r :: post) = Some σ' ->
  σ = MaySend \/
  exists status, σ = Awaiting status /\
    exists body e, Called (ClassifyError status body) e ∈ mid /\ rejects status e = true.
Proof.
  revert σ. induction mid as [|ev mid IH]; intros σ Hw; simpl in Hw.
  { destruct σ; [by left|done..]. }
  destruct (watch_ev σ ev) as [σ1|] eqn:Hev; [|done]. specialize (IH _ Hw).
  destruct σ as [|status|]; [by left|right; exists status; split; [done|]|].
  - apply awaiting_step in Hev as [->|[->|(body & e & -> & He)]].
    + destruct IH as [?|(? & [= <-] & body & e & Hin & He)]; [done|]. exists body, e. split; [by right|done].
    + naive_solver.
    + exists body, e. split; [left|done].
  - apply no_more_step in Hev. naive_solver.
Qed.

Lemma sends_no_blind_resend tr (σ : Sends) : watches MaySend tr = Some σ -> no_blind_resend tr.
Proof.
  intros Hw pre r mid r' post ->. rewrite watches_app in Hw.
  destruct (watches MaySend pre) as [σ1|]; [|done]. simpl in Hw.
  destruct σ1 as [|status|]; [|done..]. destruct r as [status|err].
  - apply sends_before in Hw as [?|(? & [= <-] & body & e & Hin & He)]; [done|]. eauto 10.
  - apply sends_before in Hw as [?|(? & ? & _)]; done.
Qed.

(** ** The client's stream *)

Lemma out_step (o o' : Out) ev :
  watch_ev o ev = Some o' -> o <> Silent ->
  o' <> Silent /\ is_send ev = false.
Proof.
  destruct ev as [R op reply]. destruct op; simpl; intros H Ho; simplify_eq/=; repeat (case_match; simplify_eq/=); done.
Qed.

Lemma out_sends (o o' : Out) tr :
  watches o tr = Some o' -> o <> Silent -> Forall (λ e, is_send e = false) tr.
Proof.
  revert o. induction tr as [|ev tr IH]; intros o Hw Ho; [done|]. simpl in Hw.
  destruct (watch_ev o ev) as [o1|] eqn:Hev; [|done]. apply out_step in Hev as [Ho1 Hs]; [|done].
  constructor; [done|]. by apply (IH o1).
Qed.

Lemma ended_quiet (o : Out) tr : watches EndedOut tr = Some o -> Forall (λ e, is_sink e = false) tr.
Proof.
  intros Hw. assert (Hend : forall ev o', watch_ev EndedOut ev = Some o' -> o' = EndedOut /\ is_sink ev = false).
  { intros [R op r] o'. destruct op; simpl; intros H; simplify_eq/=; repeat (case_match; simplify_eq/=); done. }
  induction tr as [|ev tr IH]; [done|]. simpl in Hw.
  destruct (watch_ev EndedOut ev) as [o1|] eqn:Hev; [|done]. apply Hend in Hev as [-> Hne]. constructor; auto.
Qed.

Lemma complete_before (o : Out) tr :
  watches o tr = Some CompleteOut -> o = CompleteOut \/ exists cl usage, Called (Complete cl usage) None ∈ tr.
Proof.
  revert o. induction tr as [|ev tr IH]; intros o Hw; simpl in Hw; [left; congruence|].
  destruct (watch_ev o ev) as [o1|] eqn:Hev; [|done]. apply IH in Hw as [->|(cl & usage & Hin)].
  - destruct ev as [R op reply]. destruct op; simpl in Hev; simplify_eq/=; repeat (case_match; simplify_eq/=); auto.
    all: right; do 2 eexists; left.
  - right. do 2 eexists. by right.
Qed.

Lemma out_discipline tr (o : Out) : watches Silent tr = Some o -> one_attempt_streams tr /\ done_is_last tr.
Proof.
  intros Hw. split.
  - intros pre request event reply post ->. rewrite watches_app in Hw.
    destruct (watches Silent pre) as [o1|]; [|done]. simpl in Hw.
    destruct (match o1 with StreamingOut => _ | _ => _ end) as [o2|] eqn:H2; [|done].
    eapply out_sends; [exact Hw|]. repeat (case_match; simplify_eq/=); done.
  - intros pre request event reply post -> Hd. rewrite watches_app in Hw.
    destruct (watches Silent pre) as [o1|] eqn:Hpre; [|done]. simpl in Hw.
    rewrite !bool_decide_eq_true_2 in Hw by done. destruct o1; try done. split.
    + apply complete_before in Hpre as [?|?]; done.
    + by eapply ended_quiet.
Qed.

(** ** Theorems *)

Section theorems.
Context {W : Type} `{!Env W, !LawfulEnv W} (s : Service) (cmd : ChatCommand).

(** One run of each workflow, as all the monitors see it. *)
Lemma Chat_run st :
  exists r st' tr σ, Chat s cmd st = (Some r, st') /\ trace st' = trace st ++ tr /\
    watches initial tr = Some σ /\ chat_end cmd r σ.
Proof using LawfulEnv0.
  destruct (wp_run _ _ _ _ st (Chat_spec s (λ _, False) cmd)) as (r & st' & tr & σ & Hm & Htr & Hw & Hr).
  destruct r as [r|]; [|done]. by exists r, st', tr, σ.
Qed.

Lemma Stream_run reads present st :
  exists r st' tr σ, Stream s reads present cmd st = (r, st') /\ trace st' = trace st ++ tr /\
    watches initial tr = Some σ /\
    match r with Some r => stream_end r σ | None => σ.2 = reads end.
Proof using LawfulEnv0.
  destruct (wp_run _ _ _ _ st (Stream_spec s (λ σ, σ.2 = reads) reads present cmd (λ _ _ _ _, eq_refl)))
    as (r & st' & tr & σ & Hm & Htr & Hw & Hr).
  by exists r, st', tr, σ.
Qed.

Lemma runs_no_blind_resend reads present st :
  (exists tr, trace (Chat s cmd st).2 = trace st ++ tr /\ no_blind_resend tr) /\
  (exists tr, trace (Stream s reads present cmd st).2 = trace st ++ tr /\ no_blind_resend tr).
Proof using LawfulEnv0.
  split.
  - destruct (Chat_run st) as (r & st' & tr & σ & -> & Htr & Hw & _). exists tr. split; [done|].
    repeat apply watches_prod in Hw as [Hw _]. by eapply sends_no_blind_resend.
  - destruct (Stream_run reads present st) as (r & st' & tr & σ & -> & Htr & Hw & _). exists tr. split; [done|].
    repeat apply watches_prod in Hw as [Hw _]. by eapply sends_no_blind_resend.
Qed.

(** C1.  The upstream is never asked twice for work it may have done: between
    two upstream requests of one workflow, streaming or not, the earlier one
    was answered, the answer's status is not a success, and it is below 500
    or classified as safe to replay. *)
Theorem workflow_no_blind_resend reads present st :
  (exists tr, trace (Chat s cmd st).2 = trace st ++ tr /\ no_blind_resend tr) /\
  (exists tr, trace (Stream s reads present cmd st).2 = trace st ++ tr /\ no_blind_resend tr).
Proof using LawfulEnv0. apply runs_no_blind_resend. Qed.

(** C2.  Admission, heartbeat, lease and response body are each taken at most
    once at a time, every upstream request is sent while admission, heartbeat
    and a lease are held, and however the workflow ends everything taken has
    been given back exactly once. *)
Theorem workflow_gives_back reads present st :
  (exists r st' tr, Chat s cmd st = (Some r, st') /\ trace st' = trace st ++ tr /\
     watches nothing_held tr = Some nothing_held) /\
  (exists r st' tr h, Stream s reads present cmd st = (r, st') /\ trace st' = trace st ++ tr /\
     watches nothing_held tr = Some h /\ (is_Some r -> h = nothing_held)).
Proof using LawfulEnv0.
  split.
  - destruct (Chat_run st) as (r & st' & tr & σ & Hm & Htr & Hw & (a & l & o & k & -> & _)).
    exists r, st', tr. do 3 apply watches_prod in Hw as [Hw _]. apply watches_prod in Hw as [_ Hw]. done.
  - destruct (Stream_run reads present st) as (r & st' & tr & σ & Hm & Htr & Hw & Hr).
    exists r, st', tr, σ.1.1.1.2. do 3 apply watches_prod in Hw as [Hw _]. apply watches_prod in Hw as [_ Hw].
    split_and!; try done. intros [r' ->]. by destruct Hr as (a & l & o & k & -> & _).
Qed.

(** C3.  Every accepted request is reported to the ledger: its usage is
    recorded before it is completed, nothing is sent once it is settled, and
    when [Chat] ends the request is completed, failed or marked uncertain.  A
    result means it is completed, with exactly the usage of the response
    returned. *)
Theorem Chat_settles st :
  exists r st' tr l, Chat s cmd st = (Some r, st') /\ trace st' = trace st ++ tr /\
    watches NotAccepted tr = Some l /\ at_rest l /\
    match r with
    | Ok res => exists cl, l = CompletedRequest cl (responseUsage (CmRequest cmd) (CrsResponse res))
    | Err _ => True
    end.
Proof using LawfulEnv0.
  destruct (Chat_run st) as (r & st' & tr & σ & Hm & Htr & Hw & (a & l & o & k & -> & Hl & Hr)).
  exists r, st', tr, l. do 2 apply watches_prod in Hw as [Hw _]. apply watches_prod in Hw as [_ Hw]. done.
Qed.


(** C5.  The workflows end: [Chat] always returns, and [Stream] returns
    unless one response has been read [reads] times without ending. *)
Theorem workflow_ends reads present st :
  (exists r st', Chat s cmd st = (Some r, st')) /\
  ((Stream s reads present cmd st).1 = None ->
   exists tr, trace (Stream s reads present cmd st).2 = trace st ++ tr /\ watches (0%nat : Reads) tr = Some reads).
Proof using LawfulEnv0.
  split.
  - destruct (Chat_run st) as (r & st' & tr & σ & Hm & _). eauto.
  - destruct (Stream_run reads present st) as (r & st' & tr & σ & -> & Htr & Hw & Hr). simpl. intros ->.
    exists tr. split; [done|]. apply watches_prod in Hw as [_ Hw]. simpl in Hw. by rewrite Hw, Hr.
Qed.
End theorems.

(** ** A concrete environment

    Two credentials; the upstream rejects the first request with 429, answers
    the second, and streams one piece of text and the final event. *)

Definition demo_rejection : Error :=
  mkError ErrorRateLimit "429" "provider request failed" "" "slug" "" "" "" "" 429 None true None.

Definition demo_credential (id : string) : Candidate :=
  mkCandidate id None None None 1 1 None None None None None None 0 None None 0.

Definition demo_event (t : StreamEventType) (text : string) : StreamEvent :=
  mkStreamEvent t "" "" "" 0 0 RoleAssistant text "" None FinishReasonStop None None.

Definition demo_response : ChatResponse :=
  mkChatResponse "up" "up-1" "upstream" 0
    [mkChatChoice 0 (mkMessage RoleAssistant "" (TextContent "good day") false [] "" None) FinishReasonStop] None.

(** The state is the number of requests sent. *)
Definition demo_answer {R} (op : Op R) (w : nat) : R * nat :=
  match op in Op R return R * nat with
  | Now => (1000, w)
  | RouterRandom => (λ _, 0, w)
  | RetryRandom => (λ _, 0, w)
  | NewUUID => ("execution", w)
  | ContextErr => (None, w)
  | Wait _ => (None, w)
  | ResolveAvailableModel _ _ => (Ok demo_model, w)
  | ListResourcePoolCandidates _ _ => (Ok [demo_credential "k1"; demo_credential "k2"], w)
  | AcquireCredentialHealthPermit _ => (Ok 1, w)
  | ClaimExecution request execution => (Ok (mkClaim request execution 1), w)
  | MarkExecutionStreaming _ _ _ => (None, w)
  | MarkExecutionUncertain _ _ _ _ _ => (None, w)
  | CreateAttempt _ _ _ => (Ok "attempt", w)
  | UpdateAttempt _ _ _ => (None, w)
  | ListRecoverableCompletions _ _ => (Ok [], w)
  | ListStaleQueuedRequests _ _ => (Ok [], w)
  | RecoverStaleExecutions _ _ => ((0, None), w)
  | AcceptRequest command => (Ok (mkAccepted (AmRequestID command) "pool" false), w)
  | Complete _ _ => (None, w)
  | Fail_ _ _ _ => (None, w)
  | FailAccepted _ _ _ => (None, w)
  | AdmitterAcquire _ _ => (None, w)
  | AdmissionRelease => (tt, w)
  | CoordinatorAcquire _ => (Ok 7, w)
  | LeaseRelease _ => (None, w)
  | LeaseReconcile _ _ => (None, w)
  | StartHeartbeat _ => (tt, w)
  | StopHeartbeat => (tt, w)
  | FactoryAdapter _ => (None, w)
  | CredentialSecret _ => (Ok "secret", w)
  | BuildRequest _ _ => (None, w)
  | FactoryClient _ => (None, w)
  | ClientDo => (Ok (match w with O => 429 | _ => 200 end), S w)
  | BodyReadAll _ => (Ok "{}", w)
  | BodyRead => (("data", ReadEOF), w)
  | BodyClose => (tt, w)
  | ClassifyError _ _ => (demo_rejection, w)
  | ParseResponse _ _ => (Ok demo_response, w)
  | ParseStream => (tt, w)
  | ParserFeed _ => (Ok [demo_event StreamContentDelta "good day"; demo_event StreamDone ""], w)
  | ParserClose => (Ok [], w)
  | AcceptedSink _ => (None, w)
  | ResultSink _ => (None, w)
  | StreamSink _ _ => (None, w)
  | ObserveAttempt _ _ _ => (tt, w)
  end.

#[local] Instance demo_env : Env nat := { answer R op w := demo_answer op w }.

#[local] Instance demo_lawful : LawfulEnv nat.
Proof. split. intros R op w. by destruct op. Qed.

Definition demo_service : Service :=
  mkService (mkConfig 4096 Second (mkCircuitConfig 3 1 (30 * Second) 1)) demo_retry.

Definition demo_command (stream : bool) : ChatCommand :=
  mkChatCommand "key" "user"
    (mkChatRequest "" "public" [text_message "hello"] [] None None stream None (Some 10) None None None None None None
       None [] None None "" "") "" None "request" false false.

Definition demo_start : St nat := mkSt 0%nat [].

Example demo_chat :
  let '(r, st) := Chat demo_service (demo_command false) demo_start in
  (r, length (filter (λ e, is_send e = true) (trace st)), world st) =
  (Some (Ok (mkChatResult "request"
     (mkChatResponse "chatcmpl_request" "up-1" "public" 0 (RsChoices demo_response) None))), 2%nat, 2%nat).
Proof. vm_compute. reflexivity. Qed.

Example demo_stream :
  let '(r, st) := Stream demo_service 5 true (demo_command true) demo_start in
  (r, length (filter (λ e, is_send e = true) (trace st)), length (filter (λ e, is_sink e = true) (trace st))) =
  (Some None, 2%nat, 2%nat).
Proof. vm_compute. reflexivity. Qed.

Definition demo_chat_run : option (result Error ChatResult) * St nat := Chat demo_service (demo_command false) demo_start.
Definition demo_stream_run (reads : nat) : option (option Error) * St nat :=
  Stream demo_service reads true (demo_command true) demo_start.

Lemma workflow_no_blind_resend_witness :
  no_blind_resend (trace demo_chat_run.2) /\ length (filter (λ e, is_send e = true) (trace demo_chat_run.2)) = 2%nat /\
  no_blind_resend (trace (demo_stream_run 5).2).
Proof.
  destruct (workflow_no_blind_resend demo_service (demo_command false) 5 true demo_start) as [(tr & Htr & H) _].
  destruct (workflow_no_blind_resend demo_service (demo_command true) 5 true demo_start) as [_ (tr' & Htr' & H')].
  split; [|split].
  - unfold demo_chat_run. rewrite Htr. exact H.
  - vm_compute. reflexivity.
  - unfold demo_stream_run. rewrite Htr'. exact H'.
Defined.

Lemma workflow_gives_back_witness :
  watches nothing_held (trace demo_chat_run.2) = Some nothing_held /\
  watches nothing_held (trace (demo_stream_run 5).2) = Some nothing_held.
Proof.
  destruct (workflow_gives_back demo_service (demo_command false) 5 true demo_start)
    as [(r & st' & tr & Hm & Htr & H) _].
  destruct (workflow_gives_back demo_service (demo_command true) 5 true demo_start)
    as [_ (r' & st'' & tr' & h & Hm' & Htr' & H' & Hh)].
  split.
  - unfold demo_chat_run. rewrite Hm. cbn [snd]. rewrite Htr. exact H.
  - unfold demo_stream_run. assert (Hr : r' = Some None).
    { transitivity (Stream demo_service 5 true (demo_command true) demo_start).1; [rewrite Hm'|vm_compute]; reflexivity. }
    rewrite Hm'. cbn [snd]. rewrite Htr'. change (trace demo_start ++ tr') with tr'. rewrite H'. f_equal. apply Hh. rewrite Hr. eauto.
Defined.

Lemma Chat_settles_witness :
  exists cl, watches NotAccepted (trace demo_chat_run.2) =
    Some (CompletedRequest cl (mkUsage 4 2 UsageEstimated)).
Proof.
  destruct (Chat_settles demo_service (demo_command false) demo_start)
    as (r & st' & tr & l & Hm & Htr & Hw & _ & Hr).
  assert (Hres : exists res, r = Ok res /\ responseUsage (CmRequest (demo_command false)) (CrsResponse res) =
    mkUsage 4 2 UsageEstimated).
  { assert (Hd : Some r = demo_chat_run.1) by (unfold demo_chat_run; rewrite Hm; reflexivity).
    vm_compute in Hd. injection Hd as ->. eexists. split; [reflexivity|]. vm_compute. reflexivity. }
  destruct Hres as (res & -> & Hu). destruct Hr as [cl Hl]. exists cl.
  unfold demo_chat_run. rewrite Hm. cbn [snd]. rewrite Htr. change (trace demo_start ++ tr) with tr.
  rewrite Hw, Hl, Hu. reflexivity.
Defined.


Lemma workflow_ends_witness :
  (exists r st', demo_chat_run = (Some r, st')) /\ watches (0%nat : Reads) (trace (demo_stream_run 0).2) = Some 0%nat.
Proof.
  split.
  - exact (proj1 (workflow_ends demo_service (demo_command false) 0 true demo_start)).
  - destruct (proj2 (workflow_ends demo_service (demo_command true) 0 true demo_start)) as (tr & Htr & Hw);
      [vm_compute; reflexivity|]. unfold demo_stream_run. rewrite Htr. exact Hw.
Defined.
