(* ===== verification/Envelope.v ===== *)
(** * Encrypted envelopes

    Models [src/internal/security/envelope.go]: the versioned envelope in
    which secrets are stored, its header, and the rotation of keys.

    Bytes are lists of [ascii].  AES-256-GCM is the class [AEAD]; its laws
    ([AEADLaws]) are those of any authenticated cipher: opening inverts
    sealing, a sealed text is sixteen bytes longer, and nothing else opens.
    The random reader is an argument that returns the bytes asked for or an
    error. *)

From S2P Require Import Prelude GoStrings.

Local Open Scope Z_scope.

Definition bytes : Type := list ascii.

Definition byte_of (z : Z) : ascii := ascii_of_N (Z.to_N (z `mod` 256)).

(** [binary.BigEndian.PutUint32], [PutUint64] and [Uint32]: [k] bytes, most
    significant first. *)
Fixpoint put_be (k : nat) (n : Z) : bytes :=
  match k with
  | O => []
  | S k' => byte_of (n `div` 256 ^ Z.of_nat k') :: put_be k' n
  end.

Definition get_be (b : bytes) : Z := foldl (λ acc c, acc * 256 + code c) 0 b.

Class AEAD := {
  Seal : bytes -> bytes -> bytes -> bytes -> bytes;
  Open : bytes -> bytes -> bytes -> bytes -> option bytes;
}.

Definition NonceSize : nat := 12.
Definition Overhead : nat := 16.

Class AEADLaws `{!AEAD} := {
  open_seal key nonce plaintext ad : Open key nonce (Seal key nonce plaintext ad) ad = Some plaintext;
  seal_length key nonce plaintext ad : length (Seal key nonce plaintext ad) = (length plaintext + Overhead)%nat;
  open_sealed key nonce ciphertext ad plaintext :
    Open key nonce ciphertext ad = Some plaintext -> ciphertext = Seal key nonce plaintext ad;
}.

Definition envelopeMagic : bytes := ["L"; "L"; "M"; "E"]%char.
Definition envelopeFormatVersion : Z := 1.
Definition envelopeHeaderBytes : nat := 10.
Definition envelopeKeyBytes : nat := 32.
Definition envelopeTagBytes : nat := 16.

Inductive EnvelopeErrorKind :=
| EnvelopeConfigurationError
| EnvelopeMalformedError
| EnvelopeUnsupportedError
| EnvelopeUnknownKeyError
| EnvelopeAuthenticationError
| EnvelopeEncryptionError.

Record EnvelopeError := mkEnvelopeError { EeKind : EnvelopeErrorKind; EeKeyVersion : Z; EeCause : option string }.

Definition envelopeError (kind : EnvelopeErrorKind) (keyVersion : Z) (cause : option string) : EnvelopeError :=
  mkEnvelopeError kind keyVersion cause.

Record EnvelopeMetadata := mkEnvelopeMetadata { FormatVersion : Z; KeyVersion : Z }.

(** The cipher of a key version is given by its key. *)
Record EnvelopeCipher := mkEnvelopeCipher { activeKeyVersion : Z; keys : gmap Z bytes }.

Definition invalidKey (entry : Z * bytes) : bool :=
  ((entry.1 =? 0) || negb (bool_decide (length entry.2 = envelopeKeyBytes)))%bool.

(** The error names one of the invalid keys, in the order of the map. *)
Definition NewEnvelopeCipher (active : Z) (ks : gmap Z bytes) : result EnvelopeError EnvelopeCipher :=
  if ((active =? 0) || bool_decide (ks = ∅))%bool then Err (envelopeError EnvelopeConfigurationError active None)
  else
    match List.find invalidKey (map_to_list ks) with
    | Some (version, _) => Err (envelopeError EnvelopeConfigurationError version None)
    | None =>
        match ks !! active with
        | None => Err (envelopeError EnvelopeConfigurationError active None)
        | Some _ => Ok (mkEnvelopeCipher active ks)
        end
    end.

Definition makeEnvelopeHeader (keyVersion : Z) (nonceBytes : nat) : bytes :=
  envelopeMagic ++ [byte_of envelopeFormatVersion] ++ put_be 4 keyVersion ++ [byte_of (Z.of_nat nonceBytes)].

Definition envelopeAuthenticatedData (header additionalData : bytes) : bytes :=
  header ++ put_be 8 (Z.of_nat (length additionalData)) ++ additionalData.

(** The parts of an envelope: metadata, header, nonce and ciphertext. *)
Definition parseEnvelope (envelope : bytes) : result EnvelopeError (EnvelopeMetadata * bytes * bytes * bytes) :=
  if (bool_decide (length envelope < envelopeHeaderBytes)%nat ||
      negb (bool_decide (take 4 envelope = envelopeMagic)))%bool
  then Err (envelopeError EnvelopeMalformedError 0 None)
  else
    let version := default 0 (code <$> envelope !! 4%nat) in
    if negb (version =? envelopeFormatVersion) then Err (envelopeError EnvelopeUnsupportedError 0 None)
    else
      let metadata := mkEnvelopeMetadata version (get_be (take 4 (drop 5 envelope))) in
      let nonceBytes := Z.to_nat (default 0 (code <$> envelope !! 9%nat)) in
      if ((KeyVersion metadata =? 0) || bool_decide (nonceBytes = 0%nat) ||
          bool_decide (length envelope < envelopeHeaderBytes + nonceBytes + envelopeTagBytes)%nat)%bool
      then Err (envelopeError EnvelopeMalformedError (KeyVersion metadata) None)
      else
        Ok (metadata, take envelopeHeaderBytes envelope, take nonceBytes (drop envelopeHeaderBytes envelope),
            drop (envelopeHeaderBytes + nonceBytes) envelope).

Section cipher.
Context `{!AEAD}.

Definition Encrypt (c : EnvelopeCipher) (random : nat -> result string bytes) (plaintext additionalData : bytes) :
    result EnvelopeError bytes :=
  match keys c !! activeKeyVersion c with
  | None => Err (envelopeError EnvelopeConfigurationError (activeKeyVersion c) None)
  | Some key =>
      match random NonceSize with
      | Err err => Err (envelopeError EnvelopeEncryptionError (activeKeyVersion c) (Some err))
      | Ok nonce =>
          let header := makeEnvelopeHeader (activeKeyVersion c) (length nonce) in
          let ciphertext := Seal key nonce plaintext (envelopeAuthenticatedData header additionalData) in
          Ok (header ++ nonce ++ ciphertext)
      end
  end.

Definition Decrypt (c : EnvelopeCipher) (envelope additionalData : bytes) : result EnvelopeError bytes :=
  match parseEnvelope envelope with
  | Err e => Err e
  | Ok (metadata, header, nonce, ciphertext) =>
      match keys c !! KeyVersion metadata with
      | None => Err (envelopeError EnvelopeUnknownKeyError (KeyVersion metadata) None)
      | Some key =>
          if (negb (bool_decide (length nonce = NonceSize)) || bool_decide (length ciphertext < Overhead)%nat)%bool
          then Err (envelopeError EnvelopeMalformedError (KeyVersion metadata) None)
          else
            match Open key nonce ciphertext (envelopeAuthenticatedData header additionalData) with
            | None => Err (envelopeError EnvelopeAuthenticationError (KeyVersion metadata) None)
            | Some plaintext => Ok plaintext
            end
      end
  end.

Definition Metadata (envelope : bytes) : result EnvelopeError EnvelopeMetadata :=
  match parseEnvelope envelope with
  | Err e => Err e
  | Ok (metadata, _, _, _) => Ok metadata
  end.

Definition NeedsReencryption (c : EnvelopeCipher) (envelope additionalData : bytes) : result EnvelopeError bool :=
  match Decrypt c envelope additionalData with
  | Err e => Err e
  | Ok _ =>
      match Metadata envelope with
      | Err e => Err e
      | Ok metadata =>
          match keys c !! KeyVersion metadata with
          | None => Err (envelopeError EnvelopeUnknownKeyError (KeyVersion metadata) None)
          | Some _ => Ok (negb (KeyVersion metadata =? activeKeyVersion c))
          end
      end
  end.
End cipher.

(** ** The header *)

Lemma code_byte_of z : code (byte_of z) = z `mod` 256.
Proof.
  unfold code, byte_of. pose proof (Z.mod_pos_bound z 256). rewrite N_ascii_embedding by lia. lia.
Qed.

Lemma code_range c : 0 <= code c < 256.
Proof. unfold code. pose proof (N_ascii_bounded c). lia. Qed.

Lemma byte_of_code c : byte_of (code c) = c.
Proof.
  unfold byte_of. rewrite Z.mod_small by apply code_range. unfold code. rewrite N2Z.id. apply ascii_N_embedding.
Qed.

Lemma put_be_length k n : length (put_be k n) = k.
Proof. induction k; simpl; auto. Qed.

Lemma get_be_acc b acc :
  foldl (λ acc c, acc * 256 + code c) acc b = acc * 256 ^ Z.of_nat (length b) + get_be b.
Proof.
  unfold get_be. revert acc. induction b as [|c b IH]; intros acc; cbn [foldl length]; [simpl; lia|].
  rewrite IH, (IH (0 * 256 + code c)), Nat2Z.inj_succ, Z.pow_succ_r by lia. lia.
Qed.

Lemma get_put_be k n : 0 <= n < 256 ^ Z.of_nat k -> get_be (put_be k n) = n.
Proof.
  intros Hn. assert (Hgen : forall k, get_be (put_be k n) = n `mod` 256 ^ Z.of_nat k).
  { clear. induction k as [|k IH]; [by rewrite Z.mod_1_r|]. cbn [put_be]. unfold get_be. cbn [foldl].
    rewrite get_be_acc, put_be_length, code_byte_of, IH, Nat2Z.inj_succ, Z.pow_succ_r by lia.
    rewrite (Z.mul_comm 256), Z.rem_mul_r by lia. lia. }
  rewrite Hgen. by apply Z.mod_small.
Qed.

Lemma put_get_be b : put_be (length b) (get_be b) = b.
Proof.
  assert (Hr : forall b, 0 <= get_be b < 256 ^ Z.of_nat (length b)).
  { clear. induction b as [|c b IH]; [done|]. unfold get_be. cbn [foldl]. rewrite get_be_acc. cbn [length].
    rewrite Nat2Z.inj_succ, Z.pow_succ_r by lia. pose proof (code_range c). nia. }
  assert (Hlow : forall k n m, put_be k (n + m * 256 ^ Z.of_nat k) = put_be k n).
  { induction k as [|k IH]; intros n m; [done|]. cbn [put_be]. rewrite Nat2Z.inj_succ, Z.pow_succ_r by lia. f_equal.
    - unfold byte_of. do 2 f_equal.
      replace (n + m * (256 * 256 ^ Z.of_nat k)) with (n + (m * 256) * 256 ^ Z.of_nat k) by lia.
      rewrite Z.div_add by lia. by rewrite Z.mod_add by lia.
    - replace (n + m * (256 * 256 ^ Z.of_nat k)) with (n + (m * 256) * 256 ^ Z.of_nat k) by lia. apply IH. }
  induction b as [|c b IH]; [done|]. cbn [length put_be]. unfold get_be at 1 2. cbn [foldl].
  rewrite get_be_acc. f_equal.
  - rewrite Z.add_comm, Z.div_add by lia. rewrite Z.div_small by apply Hr. simpl. apply byte_of_code.
  - rewrite Z.add_comm, Hlow. apply IH.
Qed.
