(* ===== verification/EnvelopeProps.v ===== *)
(** * Theorems about encrypted envelopes *)

From S2P Require Import Prelude GoStrings Envelope.

Local Open Scope Z_scope.

(** ** Parsing *)

Lemma header_length v n : length (makeEnvelopeHeader v n) = envelopeHeaderBytes.
Proof. unfold makeEnvelopeHeader. by rewrite !length_app, put_be_length. Qed.

(** The first ten bytes of anything longer. *)
Lemma ten_bytes (b : bytes) :
  (10 <= length b)%nat ->
  exists a0 a1 a2 a3 a4 a5 a6 a7 a8 a9 rest, b = a0 :: a1 :: a2 :: a3 :: a4 :: a5 :: a6 :: a7 :: a8 :: a9 :: rest.
Proof.
  intros Hb. destruct b as [|a0 [|a1 [|a2 [|a3 [|a4 [|a5 [|a6 [|a7 [|a8 [|a9 rest]]]]]]]]]]; simpl in Hb; try lia.
  by do 11 eexists.
Qed.

Lemma parse_made v nonce ciphertext :
  0 < v < 2 ^ 32 -> (0 < length nonce < 256)%nat -> (envelopeTagBytes <= length ciphertext)%nat ->
  let header := makeEnvelopeHeader v (length nonce) in
  parseEnvelope (header ++ nonce ++ ciphertext) = Ok (mkEnvelopeMetadata 1 v, header, nonce, ciphertext).
Proof.
  intros Hv Hn Hc header.
  assert (Hlen : length header = 10%nat) by apply header_length.
  assert (Hget : get_be (put_be 4 v) = v) by (apply get_put_be; simpl; lia).
  assert (Hnb : code (byte_of (Z.of_nat (length nonce))) = Z.of_nat (length nonce))
    by (rewrite code_byte_of; apply Z.mod_small; lia).
  unfold parseEnvelope.
  rewrite (bool_decide_eq_false_2 (length _ < envelopeHeaderBytes)%nat)
    by (rewrite length_app, Hlen; unfold envelopeHeaderBytes; lia).
  rewrite (bool_decide_eq_true_2 (take 4 _ = envelopeMagic)) by done.
  change (default 0 (code <$> (header ++ nonce ++ ciphertext) !! 4%nat)) with 1.
  change (take 4 (drop 5 (header ++ nonce ++ ciphertext))) with (put_be 4 v).
  change ((header ++ nonce ++ ciphertext) !! 9%nat) with (Some (byte_of (Z.of_nat (length nonce)))).
  cbn [negb orb fmap option_fmap option_map from_option id]. rewrite Hget, Hnb, Nat2Z.id.
  cbn [KeyVersion]. change (negb (1 =? envelopeFormatVersion)) with false. cbv iota.
  rewrite (proj2 (Z.eqb_neq v 0)) by lia. rewrite (bool_decide_eq_false_2 (length nonce = 0%nat)) by lia.
  rewrite (bool_decide_eq_false_2 (length _ < _)%nat) by (rewrite !length_app, Hlen; unfold envelopeHeaderBytes; lia).
  cbn [orb]. rewrite <- drop_drop, take_app_length', drop_app_length' by done.
  by rewrite take_app_length', drop_app_length'.
Qed.

Lemma parse_inv envelope metadata header nonce ciphertext :
  parseEnvelope envelope = Ok (metadata, header, nonce, ciphertext) ->
  0 < KeyVersion metadata < 2 ^ 32 /\ FormatVersion metadata = 1 /\
  header = makeEnvelopeHeader (KeyVersion metadata) (length nonce) /\
  envelope = header ++ nonce ++ ciphertext /\ (envelopeTagBytes <= length ciphertext)%nat.
Proof.
  unfold parseEnvelope. intros H. case_bool_decide as Hlen; [done|]. simpl in H.
  unfold envelopeHeaderBytes in Hlen.
  destruct (ten_bytes envelope) as (a0&a1&a2&a3&a4&a5&a6&a7&a8&a9&rest&->); [lia|].
  cbn [take drop lookup list_lookup fmap option_fmap option_map from_option id] in H.
  case_bool_decide as Hm; [|done]. simpl in H. injection Hm as -> -> -> ->.
  destruct (Z.eqb_spec (code a4) envelopeFormatVersion) as [Hf|]; [|done]. cbn [negb] in H.
  set (v := get_be [a5; a6; a7; a8]) in *. cbn [KeyVersion] in H.
  destruct (Z.eqb_spec v 0) as [|Hv]; [done|]. case_bool_decide as Hn; [done|].
  case_bool_decide as Hl; [done|]. cbn [orb] in H. injection H as <- <- <- <-.
  unfold envelopeHeaderBytes in Hl. cbn [length] in Hl. cbn [KeyVersion FormatVersion].
  assert (Hrest : (Z.to_nat (code a9) + 16 <= length rest)%nat) by (unfold envelopeTagBytes in Hl; lia).
  unfold envelopeHeaderBytes. cbn [take drop Nat.add]. rewrite ?drop_0, ?take_0. rewrite length_take_le by lia.
  assert (Hput : put_be 4 v = [a5; a6; a7; a8]) by apply (put_get_be [a5; a6; a7; a8]).
  assert (Hr : 0 <= v < 2 ^ 32).
  { subst v. unfold get_be. cbn [foldl]. pose proof (code_range a5). pose proof (code_range a6).
    pose proof (code_range a7). pose proof (code_range a8). lia. }
  split_and!; [lia|lia|by rewrite Hf| | |].
  - unfold makeEnvelopeHeader. rewrite Z2Nat.id by apply code_range. rewrite Hput, byte_of_code, <- Hf, byte_of_code. done.
  - cbn [app]. by rewrite take_drop.
  - rewrite length_drop. unfold envelopeTagBytes. lia.
Qed.

(** The authenticated data determines the header and the additional data. *)
Lemma authenticated_data_inj header header' ad ad' :
  length header = length header' -> Z.of_nat (length ad) < 2 ^ 64 -> Z.of_nat (length ad') < 2 ^ 64 ->
  envelopeAuthenticatedData header ad = envelopeAuthenticatedData header' ad' -> header = header' /\ ad = ad'.
Proof.
  unfold envelopeAuthenticatedData. intros Hh _ _ Heq. apply app_inj_1 in Heq as [-> Heq]; [|done].
  apply app_inj_1 in Heq as [_ ->]; [done|]. by rewrite !put_be_length.
Qed.

Section theorems.
Context {A : AEAD} {L : AEADLaws}.

(** An envelope as [Encrypt] makes it. *)
Definition sealed (v : Z) (key nonce plaintext ad : bytes) : bytes :=
  let header := makeEnvelopeHeader v (length nonce) in
  header ++ nonce ++ Seal key nonce plaintext (envelopeAuthenticatedData header ad).

Lemma parse_sealed v key nonce plaintext ad :
  0 < v < 2 ^ 32 -> length nonce = NonceSize ->
  let header := makeEnvelopeHeader v (length nonce) in
  parseEnvelope (sealed v key nonce plaintext ad) =
    Ok (mkEnvelopeMetadata 1 v, header, nonce, Seal key nonce plaintext (envelopeAuthenticatedData header ad)).
Proof using L.
  intros Hv Hn header. apply parse_made; [done|unfold NonceSize in *; lia|].
  rewrite seal_length. unfold envelopeTagBytes, Overhead. lia.
Qed.

Lemma Decrypt_sealed c v key nonce plaintext ad :
  0 < v < 2 ^ 32 -> length nonce = NonceSize -> keys c !! v = Some key ->
  Decrypt c (sealed v key nonce plaintext ad) ad = Ok plaintext.
Proof using L.
  intros Hv Hn Hk. unfold Decrypt. rewrite parse_sealed by done. cbn [KeyVersion]. rewrite Hk.
  rewrite (bool_decide_eq_true_2 (length nonce = NonceSize)) by done.
  rewrite (bool_decide_eq_false_2 (_ < Overhead)%nat) by (rewrite seal_length; lia). cbn [negb orb].
  by rewrite open_seal.
Qed.

(** C13.  What is encrypted is decrypted: an envelope made by a configured
    cipher opens, with the same additional data, under every cipher that
    still has the key of that version, whatever its active key is; its
    metadata names that version, and it needs re-encryption exactly when the
    version is no longer the active one. *)
Theorem envelope_roundtrip active ks c random plaintext ad envelope c' :
  0 <= active < 2 ^ 32 -> NewEnvelopeCipher active ks = Ok c ->
  (forall nonce, random NonceSize = Ok nonce -> length nonce = NonceSize) ->
  Encrypt c random plaintext ad = Ok envelope -> keys c' !! active = ks !! active ->
  Decrypt c' envelope ad = Ok plaintext /\
  Metadata envelope = Ok (mkEnvelopeMetadata 1 active) /\
  NeedsReencryption c' envelope ad = Ok (negb (active =? activeKeyVersion c')).
Proof using L.
  intros Hactive Hnew Hrandom Henc Hkeys. unfold NewEnvelopeCipher in Hnew.
  destruct (Z.eqb_spec active 0) as [|H0]; [done|]. simpl in Hnew. case_bool_decide; [done|].
  destruct (List.find _ _) as [[]|]; [done|]. destruct (ks !! active) as [key|] eqn:Hk; [|done].
  injection Hnew as <-. unfold Encrypt in Henc. cbn [keys activeKeyVersion] in Henc. rewrite Hk in Henc.
  destruct (random NonceSize) as [nonce|] eqn:Hr; [|done]. injection Henc as Henv.
  change (sealed active key nonce plaintext ad = envelope) in Henv. subst envelope. specialize (Hrandom nonce eq_refl).
  assert (Hd : Decrypt c' (sealed active key nonce plaintext ad) ad = Ok plaintext) by (apply Decrypt_sealed; [lia|done..]).
  assert (Hm : Metadata (sealed active key nonce plaintext ad) = Ok (mkEnvelopeMetadata 1 active))
    by (unfold Metadata; by rewrite parse_sealed by (lia || done)).
  split_and!; [done..|]. unfold NeedsReencryption. rewrite Hd, Hm. cbn [KeyVersion]. by rewrite Hkeys.
Qed.

(** Only what was sealed opens: a decryption succeeds exactly on an
    envelope whose key version the cipher knows and whose ciphertext is the
    sealing of the plaintext, under that key, over this header and this
    additional data.  So an envelope moved to another record, whose
    additional data differs, opens only if one sealed text serves both. *)
Theorem Decrypt_exact c envelope ad plaintext :
  Decrypt c envelope ad = Ok plaintext <->
  exists v key nonce, 0 < v < 2 ^ 32 /\ keys c !! v = Some key /\ length nonce = NonceSize /\
    envelope = sealed v key nonce plaintext ad.
Proof using L.
  split.
  - unfold Decrypt. destruct (parseEnvelope envelope) as [[[[m h] nonce] ct]|] eqn:Hp; [|done].
    apply parse_inv in Hp as (Hv & _ & Hh & Henv & _).
    destruct (keys c !! KeyVersion m) as [key|] eqn:Hk; [|done]. case_bool_decide as Hn; [|done]. simpl.
    case_bool_decide; [done|]. destruct (Open _ _ _ _) as [p|] eqn:Ho; [|done]. intros [= ->].
    apply open_sealed in Ho. exists (KeyVersion m), key, nonce. split_and!; try done; try lia.
    unfold sealed. by rewrite <- Hh, <- Ho.
  - intros (v & key & nonce & Hv & Hk & Hn & ->). by apply Decrypt_sealed.
Qed.
End theorems.

(** ** A concrete cipher: the tag is a constant. *)

Definition demo_tag : bytes := replicate 16 "t"%char.

#[local] Instance demo_aead : AEAD := {
  Seal _ _ plaintext _ := plaintext ++ demo_tag;
  Open _ _ ciphertext _ :=
    let n := (length ciphertext - 16)%nat in
    if bool_decide (drop n ciphertext = demo_tag) then Some (take n ciphertext) else None
}.

#[local] Instance demo_aead_laws : AEADLaws.
Proof.
  split; cbn [Seal Open demo_aead].
  - intros _ _ p _. rewrite length_app. change (length demo_tag) with 16%nat. rewrite Nat.add_sub.
    rewrite bool_decide_eq_true_2 by by rewrite drop_app_length. by rewrite take_app_length.
  - intros _ _ p _. by rewrite length_app.
  - intros _ _ c _ p. case_bool_decide as H; [|done]. intros [= <-]. rewrite <- H at 1. by rewrite take_drop.
Qed.

Definition demo_key (c : ascii) : bytes := replicate 32 c.
Definition old_keys : gmap Z bytes := {[1 := demo_key "a"%char]}.
Definition rotated : EnvelopeCipher := mkEnvelopeCipher 2 (<[2 := demo_key "b"%char]> old_keys).
Definition demo_random (n : nat) : result string bytes := Ok (replicate n "n"%char).
Definition demo_envelope : bytes :=
  Eval vm_compute in
    match Encrypt (mkEnvelopeCipher 1 old_keys) demo_random ["s"; "e"; "c"]%char ["i"; "d"]%char with
    | Ok e => e
    | Err _ => []
    end.

Lemma envelope_roundtrip_witness :
  Decrypt rotated demo_envelope ["i"; "d"]%char = Ok ["s"; "e"; "c"]%char /\
  NeedsReencryption rotated demo_envelope ["i"; "d"]%char = Ok true.
Proof.
  destruct (envelope_roundtrip 1 old_keys (mkEnvelopeCipher 1 old_keys) demo_random ["s"; "e"; "c"]%char
              ["i"; "d"]%char demo_envelope rotated) as (H1 & _ & H3).
  - lia.
  - vm_compute. reflexivity.
  - intros nonce [= <-]. reflexivity.
  - vm_compute. reflexivity.
  - vm_compute. reflexivity.
  - split; [exact H1|exact H3].
Defined.

Lemma Decrypt_exact_witness :
  exists v key nonce, 0 < v < 2 ^ 32 /\ keys rotated !! v = Some key /\ length nonce = NonceSize /\
    demo_envelope = sealed v key nonce ["s"; "e"; "c"]%char ["i"; "d"]%char.
Proof. apply (proj1 (Decrypt_exact rotated demo_envelope ["i"; "d"]%char ["s"; "e"; "c"]%char)). vm_compute. reflexivity. Defined.
