(* ===== verification/UrlPolicy.v ===== *)
(** * Outbound requests: which addresses may be reached

    Models [src/internal/security/url_policy.go] and the dialling and
    redirect rules of [src/internal/security/ssrf_transport.go].

    [netip.Addr] is an IPv4 or IPv6 number, an IPv6 one with its zone;
    [netip.Prefix] an address with a length.  The methods of [net/netip] the
    code calls are written out on the numbers.  The text of a refused address
    in an error is left out: the error carries the host it was resolved from.  [netip.ParseAddr], the
    resolver, the dialler and [strings.ToLower] are arguments. *)

From S2P Require Import Prelude GoStrings.

Local Open Scope Z_scope.

(** ** net/netip *)

Inductive Addr := AddrInvalid | Addr4 (n : Z) | Addr6 (n : Z) (zone : string).

#[export] Instance Addr_eq_dec : EqDecision Addr.
Proof. solve_decision. Defined.

Definition Addr_IsValid (a : Addr) : bool := match a with AddrInvalid => false | _ => true end.
Definition Zone (a : Addr) : string := match a with Addr6 _ zone => zone | _ => "" end.
Definition Is4 (a : Addr) : bool := match a with Addr4 _ => true | _ => false end.
Definition Is6 (a : Addr) : bool := match a with Addr6 _ _ => true | _ => false end.
Definition BitLen (a : Addr) : Z := match a with AddrInvalid => 0 | Addr4 _ => 32 | Addr6 _ _ => 128 end.
Definition value (a : Addr) : Z := match a with AddrInvalid => 0 | Addr4 n | Addr6 n _ => n end.

(** The leading [bits] bits of a number of [len] bits. *)
Definition leading (len bits n : Z) : Z := Z.shiftr n (len - bits).

Definition Is4In6 (a : Addr) : bool := match a with Addr6 n _ => leading 128 96 n =? 65535 | _ => false end.
Definition Unmap (a : Addr) : Addr :=
  match a with Addr6 n _ => if Is4In6 a then Addr4 (n `mod` 2 ^ 32) else a | _ => a end.

Definition IsUnspecified (a : Addr) : bool :=
  match a with Addr4 n => n =? 0 | Addr6 n zone => ((n =? 0) && bool_decide (zone = ""))%bool | AddrInvalid => false end.
Definition IsLoopback (a : Addr) : bool :=
  match a with Addr4 n => leading 32 8 n =? 127 | Addr6 n _ => n =? 1 | AddrInvalid => false end.
Definition IsLinkLocalUnicast (a : Addr) : bool :=
  match a with
  | Addr4 n => leading 32 16 n =? 43518  (* 169.254 *)
  | Addr6 n _ => leading 128 10 n =? 1018  (* fe80::/10 *)
  | AddrInvalid => false
  end.
Definition IsLinkLocalMulticast (a : Addr) : bool :=
  match a with
  | Addr4 n => leading 32 24 n =? 14680064  (* 224.0.0 *)
  | Addr6 n _ => Z.land (leading 128 16 n) 65295 =? 65282  (* ff.2, mask ff0f *)
  | AddrInvalid => false
  end.
Definition IsMulticast (a : Addr) : bool :=
  match a with
  | Addr4 n => leading 32 4 n =? 14
  | Addr6 n _ => leading 128 8 n =? 255
  | AddrInvalid => false
  end.
Definition IsPrivate (a : Addr) : bool :=
  match a with
  | Addr4 n => ((leading 32 8 n =? 10) || (leading 32 12 n =? 2753) || (leading 32 16 n =? 49320))%bool
  | Addr6 n _ => leading 128 7 n =? 126  (* fc00::/7 *)
  | AddrInvalid => false
  end.
Definition IsGlobalUnicast (a : Addr) : bool :=
  match a with
  | AddrInvalid => false
  | Addr4 n =>
      (negb ((n =? 0) || (n =? 4294967295)) && negb (IsLoopback a) && negb (IsMulticast a) &&
       negb (IsLinkLocalUnicast a))%bool
  | Addr6 n _ =>
      (negb (IsUnspecified a) && negb (IsLoopback a) && negb (IsMulticast a) && negb (IsLinkLocalUnicast a))%bool
  end.

Record Prefix := mkPrefix { PfAddr : Addr; Bits : Z }.

Definition Prefix_IsValid (p : Prefix) : bool :=
  (Addr_IsValid (PfAddr p) && (0 <=? Bits p) && (Bits p <=? BitLen (PfAddr p)))%bool.

Definition Masked (p : Prefix) : Prefix :=
  let clear len n := Z.shiftl (leading len (Bits p) n) (len - Bits p) in
  match PfAddr p with
  | AddrInvalid => p
  | Addr4 n => mkPrefix (Addr4 (clear 32 n)) (Bits p)
  | Addr6 n _ => mkPrefix (Addr6 (clear 128 n) "") (Bits p)
  end.

Definition Contains (p : Prefix) (a : Addr) : bool :=
  if (negb (Prefix_IsValid p) || negb (bool_decide (Zone a = "")))%bool then false
  else
    match PfAddr p, a with
    | Addr4 m, Addr4 n => leading 32 (Bits p) n =? leading 32 (Bits p) m
    | Addr6 m _, Addr6 n _ => leading 128 (Bits p) n =? leading 128 (Bits p) m
    | _, _ => false
    end.

(** ** The policy *)

Inductive URLPolicyErrorKind :=
| URLMalformedError | URLSchemeError | URLUserInfoError | URLHostError | URLBlockedAddressError
| URLResolutionError | URLRedirectError.

Record URLPolicyError := mkURLPolicyError { UpKind : URLPolicyErrorKind; UpHost : string }.

(** The certificates of the policy do not take part in the decisions. *)
Record SSRFPolicy := mkSSRFPolicy {
  AllowedPrivatePrefixes : list Prefix;
  AllowedResolvedPrefixes : list Prefix;
  AllowLoopback : bool;
  MaxRedirects : Z;
}.

Record URLValidator := mkURLValidator {
  allowedPrivatePrefixes : list Prefix;
  allowedResolvedPrefixes : list Prefix;
  allowLoopback : bool;
}.

Definition ipv4 (a b c d : Z) : Addr := Addr4 (a * 2 ^ 24 + b * 2 ^ 16 + c * 2 ^ 8 + d).

Definition metadataAddresses : list Addr :=
  [ipv4 169 254 169 254; ipv4 100 100 100 200; ipv4 168 63 129 16;
   Addr6 (64768 * 2 ^ 112 + 3778 * 2 ^ 96 + 596) ""].  (* fd00:ec2::254 *)

Definition reservedAddressPrefixes : list Prefix :=
  [mkPrefix (ipv4 0 0 0 0) 8; mkPrefix (ipv4 100 64 0 0) 10; mkPrefix (ipv4 192 0 0 0) 24; mkPrefix (ipv4 192 0 2 0) 24;
   mkPrefix (ipv4 198 18 0 0) 15; mkPrefix (ipv4 198 51 100 0) 24; mkPrefix (ipv4 203 0 113 0) 24;
   mkPrefix (ipv4 240 0 0 0) 4;
   mkPrefix (Addr6 (256 * 2 ^ 112) "") 64;  (* 100:: *)
   mkPrefix (Addr6 (8193 * 2 ^ 112 + 3512 * 2 ^ 96) "") 32;  (* 2001:db8:: *)
   mkPrefix (Addr6 (65216 * 2 ^ 112) "") 10].  (* fec0:: *)

Definition isMetadataAddress (a : Addr) : bool := bool_decide (a ∈ metadataAddresses).
Definition isReservedAddress (a : Addr) : bool := existsb (λ p, Contains p a) reservedAddressPrefixes.

Definition isMetadataHostname (host : string) : bool :=
  bool_decide (host ∈ ["metadata.google.internal"; "metadata.azure.internal"; "instance-data"]).

Fixpoint validateAllowedPrivatePrefixes (prefixes : list Prefix) : result string (list Prefix) :=
  match prefixes with
  | [] => Ok []
  | prefix :: prefixes' =>
      if (negb (Prefix_IsValid prefix) || Is4In6 (PfAddr prefix))%bool then Err "invalid private prefix"
      else
        let prefix := Masked prefix in
        let address := PfAddr prefix in
        if (negb (IsPrivate address) || IsLoopback address || IsLinkLocalUnicast address)%bool then
          Err "allowed prefix must be a private network"
        else let? validated := validateAllowedPrivatePrefixes prefixes' in Ok (prefix :: validated)
  end.

Fixpoint validateAllowedResolvedPrefixes (prefixes : list Prefix) : result string (list Prefix) :=
  match prefixes with
  | [] => Ok []
  | prefix :: prefixes' =>
      if (negb (Prefix_IsValid prefix) || Is4In6 (PfAddr prefix))%bool then Err "invalid resolved prefix"
      else
        let prefix := Masked prefix in
        if ((Is4 (PfAddr prefix) && (Bits prefix <? 8)) || (Is6 (PfAddr prefix) && (Bits prefix <? 32)))%bool then
          Err "resolved prefix is too broad"
        else let? validated := validateAllowedResolvedPrefixes prefixes' in Ok (prefix :: validated)
  end.

Definition NewURLValidator (policy : SSRFPolicy) : result string URLValidator :=
  let? prefixes := validateAllowedPrivatePrefixes (AllowedPrivatePrefixes policy) in
  let? resolvedPrefixes := validateAllowedResolvedPrefixes (AllowedResolvedPrefixes policy) in
  Ok (mkURLValidator prefixes resolvedPrefixes (AllowLoopback policy)).

(** [None] when the address may be reached. *)
Definition validateAddress (v : URLValidator) (a : Addr) : option URLPolicyErrorKind :=
  if (Addr_IsValid a && bool_decide (Zone a = "") && IsLoopback a && allowLoopback v)%bool then None
  else if (negb (Addr_IsValid a) || negb (bool_decide (Zone a = "")) || isMetadataAddress a || IsUnspecified a ||
           IsLoopback a || IsLinkLocalUnicast a || IsLinkLocalMulticast a || IsMulticast a)%bool
  then Some URLBlockedAddressError
  else if existsb (λ p, Contains p a) (allowedResolvedPrefixes v) then None
  else if IsPrivate a then
    if existsb (λ p, Contains p a) (allowedPrivatePrefixes v) then None else Some URLBlockedAddressError
  else if (negb (IsGlobalUnicast a) || isReservedAddress a)%bool then Some URLBlockedAddressError
  else None.

(** ** URLs *)

(** A parsed URL: what the code reads of [url.URL]. *)
Record URL := mkURL {
  Scheme : string;
  Opaque_ : string;
  UserPresent : bool;
  Host_ : string;
  Hostname : string;
  Port : string;
}.

Fixpoint lower_ascii (s : string) : string :=
  match s with
  | EmptyString => EmptyString
  | String c s' =>
      String (if between 65 90 (code c) then ascii_of_N (N_of_ascii c + 32) else c) (lower_ascii s')
  end.

(** [strings.EqualFold] on ASCII text, which a parsed scheme is. *)
Definition EqualFold (s t : string) : bool := bool_decide (lower_ascii s = lower_ascii t).

Fixpoint TrimSuffix_dot (s : string) : string :=
  match s with
  | EmptyString => EmptyString
  | String c EmptyString => if Ascii.eqb c "."%char then EmptyString else s
  | String c s' => String c (TrimSuffix_dot s')
  end.

Fixpoint HasSuffix (suffix s : string) : bool :=
  (bool_decide (s = suffix) || match s with EmptyString => false | String _ s' => HasSuffix suffix s' end)%bool.

Fixpoint Contains_byte (c : ascii) (s : string) : bool :=
  match s with EmptyString => false | String c' s' => (Ascii.eqb c' c || Contains_byte c s')%bool end.

(** [strconv.ParseUint(s, 10, 16)]: digits only, at most 65535. *)
Fixpoint parse_digits (acc : Z) (s : string) : option Z :=
  match s with
  | EmptyString => Some acc
  | String c s' => if between 48 57 (code c) then parse_digits (acc * 10 + (code c - 48)) s' else None
  end.
Definition ParseUint16 (s : string) : option Z :=
  match s with
  | EmptyString => None
  | _ => match parse_digits 0 s with Some n => if n <=? 65535 then Some n else None | None => None end
  end.

(** A dial the policy refused, or one no address answered. *)
Inductive DialError := DialRefused (e : URLPolicyError) | DialFailed.

Section validator.
Context (ToLower : string -> string) (ParseAddr : string -> option Addr).

Definition validateURLStructure (candidate : option URL) : result URLPolicyError string :=
  match candidate with
  | None => Err (mkURLPolicyError URLMalformedError "")
  | Some u =>
      if (negb (bool_decide (Opaque_ u = "")) || bool_decide (Host_ u = ""))%bool then
        Err (mkURLPolicyError URLMalformedError "")
      else if (negb (EqualFold (Scheme u) "http") && negb (EqualFold (Scheme u) "https"))%bool then
        Err (mkURLPolicyError URLSchemeError "")
      else if UserPresent u then Err (mkURLPolicyError URLUserInfoError "")
      else
        let host := TrimSuffix_dot (ToLower (Hostname u)) in
        if (bool_decide (host = "") || Contains_byte "%"%char host)%bool then Err (mkURLPolicyError URLHostError "")
        else if (bool_decide (host = "localhost") || HasSuffix ".localhost" host || isMetadataHostname host)%bool then
          Err (mkURLPolicyError URLBlockedAddressError host)
        else if bool_decide (Port u = "") then Ok host
        else
          match ParseUint16 (Port u) with
          | None => Err (mkURLPolicyError URLHostError host)
          | Some port => if port =? 0 then Err (mkURLPolicyError URLHostError host) else Ok host
          end
  end.

(** The loop over the resolved addresses; [validated] holds the addresses
    seen. *)
Fixpoint validate_all (v : URLValidator) (host : string) (validated addresses : list Addr) :
    result URLPolicyError (list Addr) :=
  match addresses with
  | [] => Ok validated
  | address0 :: addresses' =>
      let address := Unmap address0 in
      match validateAddress v address with
      | Some kind => Err (mkURLPolicyError kind host)
      | None =>
          if bool_decide (address ∈ validated) then validate_all v host validated addresses'
          else validate_all v host (validated ++ [address]) addresses'
      end
  end.

(** [lookup] is the resolver's answer for the host. *)
Definition resolveAndValidate (v : URLValidator) (lookup : result string (list Addr)) (host : string) :
    result URLPolicyError (list Addr) :=
  match ParseAddr host with
  | Some literal =>
      let literal := Unmap literal in
      match validateAddress v literal with
      | Some kind => Err (mkURLPolicyError kind host)
      | None => Ok [literal]
      end
  | None =>
      match lookup with
      | Err _ => Err (mkURLPolicyError URLResolutionError host)
      | Ok [] => Err (mkURLPolicyError URLResolutionError host)
      | Ok addresses => validate_all v host [] addresses
      end
  end.

Definition ValidateURL (v : URLValidator) (lookup : string -> result string (list Addr)) (candidate : option URL) :
    option URLPolicyError :=
  match validateURLStructure candidate with
  | Err e => Some e
  | Ok host => match resolveAndValidate v (lookup host) host with Err e => Some e | Ok _ => None end
  end.

(** ** ssrf_transport.go *)

(** The loop of [dialContext]: the addresses dialled, in order, and the one
    that connected. *)
Fixpoint dial_loop (network : string) (dial : Addr -> bool) (addresses : list Addr) : list Addr * option Addr :=
  match addresses with
  | [] => ([], None)
  | a :: addresses' =>
      if ((bool_decide (network = "tcp4") && negb (Is4 a)) || (bool_decide (network = "tcp6") && negb (Is6 a)))%bool
      then dial_loop network dial addresses'
      else if dial a then ([a], Some a)
      else let '(dialled, connected) := dial_loop network dial addresses' in (a :: dialled, connected)
  end.

(** The addresses dialled, and the connected one or the error.  [split] is
    [net.SplitHostPort] of the address to dial: its host. *)
Definition dialContext (v : URLValidator) (lookup : string -> result string (list Addr)) (dial : Addr -> bool)
    (network : string) (split : option string) : list Addr * result DialError Addr :=
  match split with
  | None => ([], Err (DialRefused (mkURLPolicyError URLHostError "")))
  | Some host0 =>
      let host := TrimSuffix_dot host0 in
      match resolveAndValidate v (lookup host) host with
      | Err e => ([], Err (DialRefused e))
      | Ok addresses =>
          match dial_loop network dial addresses with
          | (dialled, Some a) => (dialled, Ok a)
          | ([], None) => ([], Err (DialRefused (mkURLPolicyError URLResolutionError host)))
          | (dialled, None) => (dialled, Err DialFailed)
          end
      end
  end.

(** [client.CheckRedirect]; [via] is the number of requests made so far. *)
Definition CheckRedirect (policy : SSRFPolicy) (v : URLValidator) (lookup : string -> result string (list Addr))
    (next : option URL) (via : Z) : option URLPolicyError :=
  if MaxRedirects policy <? via then
    Some (mkURLPolicyError URLRedirectError (match next with Some u => Hostname u | None => "" end))
  else ValidateURL v lookup next.

Definition NewSSRFSafeClient (policy : SSRFPolicy) : result string URLValidator :=
  if ((MaxRedirects policy <? 0) || (20 <? MaxRedirects policy))%bool then
    Err "max redirects must be between 0 and 20"
  else NewURLValidator policy.
End validator.
