(* ===== verification/UrlPolicyProps.v ===== *)
(** * Theorems about outbound addresses *)

From S2P Require Import Prelude GoStrings UrlPolicy.

Local Open Scope Z_scope.

(** ** The policy in terms of networks *)

Definition within (networks : list Prefix) (a : Addr) : Prop := exists p, p ∈ networks /\ Contains p a = true.

Lemma within_existsb networks a : existsb (λ p, Contains p a) networks = true <-> within networks a.
Proof.
  rewrite existsb_exists. unfold within. by setoid_rewrite list_elem_of_In.
Qed.

Definition loopback_networks : list Prefix := [mkPrefix (ipv4 127 0 0 0) 8; mkPrefix (Addr6 1 "") 128].

(** Unspecified, link-local and multicast addresses. *)
Definition closed_networks : list Prefix :=
  [mkPrefix (ipv4 0 0 0 0) 32; mkPrefix (ipv4 169 254 0 0) 16; mkPrefix (ipv4 224 0 0 0) 4;
   mkPrefix (Addr6 0 "") 128; mkPrefix (Addr6 (65152 * 2 ^ 112) "") 10; mkPrefix (Addr6 (65280 * 2 ^ 112) "") 8].

Definition private_networks : list Prefix :=
  [mkPrefix (ipv4 10 0 0 0) 8; mkPrefix (ipv4 172 16 0 0) 12; mkPrefix (ipv4 192 168 0 0) 16;
   mkPrefix (Addr6 (64512 * 2 ^ 112) "") 7].

(** An address of the width of its family. *)
Definition addr_ok (a : Addr) : Prop :=
  match a with AddrInvalid => True | Addr4 n => 0 <= n < 2 ^ 32 | Addr6 n _ => 0 <= n < 2 ^ 128 end.

(** What may be reached: loopback if it is allowed; otherwise nothing
    unspecified, link-local, multicast or a metadata service, and only what an
    allowed network covers or the public networks. *)
Definition Reachable (v : URLValidator) (a : Addr) : Prop :=
  a <> AddrInvalid /\ Zone a = "" /\
  ((allowLoopback v = true /\ within loopback_networks a) \/
   (~ within loopback_networks a /\ ~ within closed_networks a /\ (a ∉ metadataAddresses) /\
    (within (allowedResolvedPrefixes v) a \/
     (within private_networks a /\ within (allowedPrivatePrefixes v) a) \/
     (~ within private_networks a /\ ~ within reservedAddressPrefixes a)))).

Lemma link_local_multicast a : addr_ok a -> IsLinkLocalMulticast a = true -> IsMulticast a = true.
Proof.
  destruct a as [|n|n zone]; cbn [addr_ok IsLinkLocalMulticast IsMulticast]; intros Hok H; [done|..];
    apply Z.eqb_eq in H; apply Z.eqb_eq.
  - change (leading 32 4 n) with (Z.shiftr n 28). change (leading 32 24 n) with (Z.shiftr n 8) in H.
    replace 28 with (8 + 20) by done. rewrite <- Z.shiftr_shiftr by done. by rewrite H.
  - change (leading 128 8 n) with (Z.shiftr n 120). change (leading 128 16 n) with (Z.shiftr n 112) in H.
    replace 120 with (112 + 8) by done. rewrite <- Z.shiftr_shiftr by done. set (x := Z.shiftr n 112) in *.
    assert (Hx : 0 <= Z.shiftr x 8 < 2 ^ 8).
    { subst x. rewrite Z.shiftr_shiftr, Z.shiftr_div_pow2 by lia. split; [apply Z.div_pos; lia|].
      apply Z.div_lt_upper_bound; lia. }
    assert (Hs : Z.shiftr (Z.land x 65295) 8 = Z.shiftr 65282 8) by by rewrite H.
    rewrite Z.shiftr_land in Hs. change (Z.shiftr 65295 8) with (Z.ones 8) in Hs.
    rewrite Z.land_ones, Z.mod_small in Hs by lia. exact Hs.
Qed.

Lemma Contains4 m bits n :
  0 <= bits <= 32 -> Contains (mkPrefix (Addr4 m) bits) (Addr4 n) = (leading 32 bits n =? leading 32 bits m).
Proof.
  intros H. unfold Contains, Prefix_IsValid. cbn [PfAddr Bits Addr_IsValid BitLen Zone].
  rewrite !(proj2 (Z.leb_le _ _)) by lia. done.
Qed.

Lemma Contains6 m zone bits n :
  0 <= bits <= 128 -> Contains (mkPrefix (Addr6 m zone) bits) (Addr6 n "") = (leading 128 bits n =? leading 128 bits m).
Proof.
  intros H. unfold Contains, Prefix_IsValid. cbn [PfAddr Bits Addr_IsValid BitLen Zone].
  rewrite !(proj2 (Z.leb_le _ _)) by lia. done.
Qed.

Lemma Contains_other4 m zone bits n : Contains (mkPrefix (Addr6 m zone) bits) (Addr4 n) = false.
Proof. unfold Contains. by destruct (_ || _)%bool. Qed.
Lemma Contains_other6 m bits n zone : Contains (mkPrefix (Addr4 m) bits) (Addr6 n zone) = false.
Proof. unfold Contains. by destruct (_ || _)%bool. Qed.

(** Computes the membership of an address in a list of networks. *)
Ltac compute_networks :=
  cbn [existsb];
  unfold ipv4;
  rewrite ?Contains_other4, ?Contains_other6, ?Contains4, ?Contains6 by lia;
  repeat match goal with
  | |- context [leading ?l ?b ?m] =>
      first [is_var m; fail 1 | let v := eval vm_compute in (leading l b m) in change (leading l b m) with v]
  end.

Lemma leading_all len n : leading len len n = n.
Proof. unfold leading. by rewrite Z.sub_diag, Z.shiftr_0_r. Qed.

Lemma loopback_spec a : a <> AddrInvalid -> Zone a = "" -> IsLoopback a = existsb (λ p, Contains p a) loopback_networks.
Proof.
  intros Ha Hz. destruct a as [|n|n zone]; [done|..]; unfold loopback_networks.
  - compute_networks. by rewrite !orb_false_r.
  - simpl in Hz. subst zone. compute_networks. rewrite leading_all. by rewrite orb_false_r.
Qed.

Lemma closed_spec a :
  a <> AddrInvalid -> Zone a = "" -> addr_ok a ->
  (IsUnspecified a || IsLinkLocalUnicast a || IsLinkLocalMulticast a || IsMulticast a)%bool =
  existsb (λ p, Contains p a) closed_networks.
Proof.
  intros Ha Hz Hok.
  assert (Hm : (IsLinkLocalMulticast a || IsMulticast a)%bool = IsMulticast a).
  { pose proof (link_local_multicast a Hok) as H. destruct (IsLinkLocalMulticast a); [by rewrite H|done]. }
  rewrite <- orb_assoc, Hm. clear Hm. destruct a as [|n|n zone]; [done|..]; unfold closed_networks.
  - compute_networks. rewrite leading_all. cbn [IsUnspecified IsLinkLocalUnicast IsMulticast]. by rewrite !orb_false_r, orb_assoc.
  - simpl in Hz. subst zone. compute_networks. rewrite leading_all.
    cbn [IsUnspecified IsLinkLocalUnicast IsMulticast orb]. rewrite andb_true_r. by rewrite !orb_false_r, orb_assoc.
Qed.

Lemma private_spec a : a <> AddrInvalid -> Zone a = "" -> IsPrivate a = existsb (λ p, Contains p a) private_networks.
Proof.
  intros Ha Hz. destruct a as [|n|n zone]; [done|..]; unfold private_networks.
  - compute_networks. cbn [IsPrivate]. by rewrite !orb_false_r, orb_assoc.
  - simpl in Hz. subst zone. compute_networks. cbn [IsPrivate orb]. by rewrite orb_false_r.
Qed.

(** The broadcast address is reserved, so nothing else is missing from the
    global unicast addresses. *)
Lemma global_spec a :
  a <> AddrInvalid -> IsLoopback a = false -> IsUnspecified a = false -> IsLinkLocalUnicast a = false ->
  IsMulticast a = false ->
  (negb (IsGlobalUnicast a) || isReservedAddress a)%bool = isReservedAddress a.
Proof.
  intros Ha H1 H2 H3 H4. destruct a as [|n|n zone]; [done|..].
  - unfold IsGlobalUnicast. rewrite H1, H3, H4. cbn [IsUnspecified] in H2. rewrite H2. cbn [negb andb orb].
    destruct (Z.eqb_spec n 4294967295) as [->|]; [|done]. vm_compute. reflexivity.
  - unfold IsGlobalUnicast. by rewrite H1, H2, H3, H4.
Qed.

(** ** Theorems *)

Lemma validateAddress_Reachable v a : addr_ok a -> validateAddress v a = None <-> Reachable v a.
Proof.
  intros Hok. unfold Reachable. destruct (decide (a = AddrInvalid)) as [->|Ha]; [naive_solver|].
  assert (Hv : Addr_IsValid a = true) by by destruct a. unfold validateAddress. rewrite Hv.
  case_bool_decide as Hz; [|naive_solver]. cbn [negb andb orb].
  rewrite <- (within_existsb loopback_networks), <- loopback_spec by done.
  rewrite <- (within_existsb closed_networks), <- closed_spec by done.
  rewrite <- (within_existsb private_networks), <- private_spec by done.
  rewrite <- !within_existsb. fold (isReservedAddress a). unfold isMetadataAddress.
  destruct (IsLoopback a) eqn:Hl; cbn [andb orb].
  { destruct (allowLoopback v); [naive_solver|]. rewrite orb_true_r. naive_solver. }
  case_bool_decide as Hmeta; cbn [orb]; [naive_solver|].
  destruct (IsUnspecified a) eqn:Hu; cbn [orb]; [naive_solver|].
  destruct (IsLinkLocalUnicast a) eqn:Hll; cbn [orb]; [naive_solver|].
  destruct (IsLinkLocalMulticast a) eqn:Hlm; cbn [orb]; [naive_solver|].
  destruct (IsMulticast a) eqn:Hm; cbn [orb]; [naive_solver|].
  rewrite global_spec by done.
  destruct (existsb _ (allowedResolvedPrefixes v)), (IsPrivate a), (existsb _ (allowedPrivatePrefixes v)),
    (isReservedAddress a); naive_solver.
Qed.

Lemma Unmap_ok a : addr_ok a -> addr_ok (Unmap a).
Proof.
  destruct a as [|n|n zone]; intros Hok; [done..|]. unfold Unmap. destruct (Is4In6 _); [|done].
  cbn [addr_ok]. apply Z.mod_pos_bound. done.
Qed.

Lemma validate_all_spec v host seen addresses out :
  validate_all v host seen addresses = Ok out -> NoDup seen ->
  NoDup out /\ (forall a, a ∈ out <-> a ∈ seen \/ a ∈ (Unmap <$> addresses)) /\
  Forall (λ a, validateAddress v (Unmap a) = None) addresses.
Proof.
  revert seen. induction addresses as [|a addresses IH]; intros seen; cbn [validate_all].
  { intros [= <-] Hnd. split_and!; [done| |done]. intros a. rewrite fmap_nil, elem_of_nil. tauto. }
  destruct (validateAddress v (Unmap a)) eqn:Ha; [done|]. rewrite fmap_cons. setoid_rewrite elem_of_cons.
  case_bool_decide as Hin; intros Hout Hnd.
  - apply IH in Hout as (H1 & H2 & H3); [|done]. split_and!; [done| |by constructor].
    intros b. rewrite H2. naive_solver.
  - apply IH in Hout as (H1 & H2 & H3).
    + split_and!; [done| |by constructor]. intros b. rewrite H2, elem_of_app, list_elem_of_singleton. tauto.
    + apply NoDup_app. split_and!; [done| |apply NoDup_singleton]. intros b Hb. rewrite list_elem_of_singleton.
      by intros ->.
Qed.

Lemma resolve_accepted ParseAddr v lookup host out a :
  resolveAndValidate ParseAddr v lookup host = Ok out -> a ∈ out ->
  validateAddress v a = None /\
  exists b, a = Unmap b /\ (ParseAddr host = Some b \/ exists bs, lookup = Ok bs /\ b ∈ bs).
Proof.
  unfold resolveAndValidate. destruct (ParseAddr host) as [b|] eqn:Hp.
  - destruct (validateAddress v (Unmap b)) eqn:Hb; [done|]. intros [= <-]. rewrite list_elem_of_singleton.
    intros ->. split; [done|]. eauto.
  - destruct lookup as [[|b bs]|]; [done| |done]. intros Hout Hin.
    apply validate_all_spec in Hout as (_ & H2 & H3); [|apply NoDup_nil_2].
    apply H2 in Hin as [Hin%elem_of_nil|Hin]; [done|]. apply list_elem_of_fmap in Hin as (b' & -> & Hb').
    rewrite Forall_forall in H3. split; [by apply H3|]. eauto 10.
Qed.

Lemma dial_loop_spec network dial addresses dialled connected :
  dial_loop network dial addresses = (dialled, connected) ->
  dialled ⊆ addresses /\ (forall a, connected = Some a -> a ∈ dialled /\ dial a = true).
Proof.
  revert dialled. induction addresses as [|a addresses IH]; intros dialled; cbn [dial_loop].
  { intros [= <- <-]. done. }
  destruct (_ || _)%bool.
  { intros H. apply IH in H as [H1 H2]. split; [set_solver|done]. }
  destruct (dial a) eqn:Ha.
  { intros [= <- <-]. split; [set_solver|]. intros ? [= <-]. split; [by left|done]. }
  destruct (dial_loop network dial addresses) as [d c] eqn:Hd. intros [= <- <-].
  destruct (IH d eq_refl) as [H1 H2]. split; [set_solver|]. intros b Hb. apply H2 in Hb as [? ?]. set_solver.
Qed.

(** The addresses a parser and a resolver return have the width of their
    family. *)
Definition answers_ok (ParseAddr : string -> option Addr) (lookup : string -> result string (list Addr)) : Prop :=
  (forall host a, ParseAddr host = Some a -> addr_ok a) /\
  (forall host addresses, lookup host = Ok addresses -> Forall addr_ok addresses).

(** C14.  No connection leaves the policy: whatever name is dialled, and
    whatever the resolver answers at that moment, every address dialled is
    reachable under the policy -- none is unspecified, link-local, multicast or
    a metadata service, loopback and private networks only where they are
    allowed, reserved networks only where a resolved prefix covers them -- and
    the connection is to one of them. *)
Theorem dial_within_policy ParseAddr policy v lookup dial network split dialled r :
  NewSSRFSafeClient policy = Ok v -> answers_ok ParseAddr lookup ->
  dialContext ParseAddr v lookup dial network split = (dialled, r) ->
  Forall (Reachable v) dialled /\ (forall a, r = Ok a -> a ∈ dialled /\ dial a = true) /\
  allowLoopback v = AllowLoopback policy.
Proof.
  intros Hnew [Hparse Hlookup] Hdial.
  assert (Hloop : allowLoopback v = AllowLoopback policy).
  { unfold NewSSRFSafeClient, NewURLValidator in Hnew. repeat (case_match; simplify_eq/=). done. }
  unfold dialContext in Hdial. destruct split as [host0|]; [|by injection Hdial as <- <-].
  set (host := TrimSuffix_dot host0) in *.
  destruct (resolveAndValidate _ _ _ _) as [addresses|e] eqn:Hr; [|by injection Hdial as <- <-].
  destruct (dial_loop network dial addresses) as [d c] eqn:Hd. apply dial_loop_spec in Hd as [Hsub Hc].
  assert (Hreach : Forall (Reachable v) d).
  { rewrite Forall_forall. intros a Ha%Hsub. destruct (resolve_accepted _ _ _ _ _ _ Hr Ha) as (Hv & b & -> & Hb).
    apply validateAddress_Reachable; [|done]. apply Unmap_ok.
    destruct Hb as [Hb|(bs & Hbs & Hb)]; [by eapply Hparse|]. apply Hlookup in Hbs. rewrite Forall_forall in Hbs. auto. }
  destruct c as [a|], d as [|a' d]; injection Hdial as <- <-; naive_solver.
Qed.

(** A resolver that answers with a public and with a private address. *)
Definition demo_resolver (host : string) : result string (list Addr) :=
  if bool_decide (host = "api.example.com") then Ok [ipv4 93 184 216 34; ipv4 93 184 216 34]
  else Ok [ipv4 93 184 216 34; ipv4 10 0 0 7].

Definition demo_ssrf : SSRFPolicy := mkSSRFPolicy [] [] false 3.

Lemma dial_within_policy_witness :
  Reachable (mkURLValidator [] [] false) (ipv4 93 184 216 34) /\
  (dialContext (λ _, None) (mkURLValidator [] [] false) demo_resolver (λ _, true) "tcp" (Some "rebound.example.com")).1 = [].
Proof.
  split; [|vm_compute; reflexivity].
  destruct (dial_within_policy (λ _, None) demo_ssrf (mkURLValidator [] [] false) demo_resolver (λ _, true) "tcp"
              (Some "api.example.com.") [ipv4 93 184 216 34] (Ok (ipv4 93 184 216 34))) as (H & _).
  - vm_compute. reflexivity.
  - split; [intros ? ? [=]|]. intros host addresses. unfold demo_resolver.
    destruct (bool_decide _); intros [= <-]; repeat constructor; vm_compute; ((split; [discriminate|reflexivity]) || discriminate).
  - vm_compute. reflexivity.
  - exact (Forall_inv H).
Defined.
