(* ===== verification/Renewal.v ===== *)
(** * Leases that renew themselves

    Models the concurrency of [src/internal/requestflow/coordination_adapter.go]:
    the lease of an attempt ([renewingLease]: [renew], [Release]) and the
    admission permit shared between gateways ([sharedAdmissionPermit]:
    [renew], [Release]), each with a goroutine that renews the lease until it
    is told to stop, and any number of callers that release it; and
    [AdmissionAdapter.Acquire], the wait for such a permit.

    A state holds the two channels, the context, where the goroutine is and
    where each caller is; a step is one of their actions, in any order.  The
    calls to the coordination server are recorded. *)

From S2P Require Import Prelude GoStrings Valkey Lease Rate Canonical Capacity.

Local Open Scope Z_scope.

(** A call to the coordination server, or to the local gate. *)
Inductive Call := CallRenew | CallRelease | CallLocalRelease.

#[export] Instance Call_eq_dec : EqDecision Call.
Proof. solve_decision. Defined.

(** The goroutine: in its [select], inside [RenewLease], or returned. *)
Inductive Worker := WSelect | WRenewing | WStopped.

(** A caller of [Release]. *)
Inductive Releaser := RWaiting | RReleasing | RDone (ok : bool).

(** ** [renewingLease] *)

Module RenewingLease.

Record LeaseState := mkLeaseState {
  done : bool;        (* the channel [done] is closed *)
  canceled : bool;    (* the context is canceled *)
  stopped : bool;     (* the channel [stopped] is closed *)
  worker : Worker;
  releasers : list Releaser;
  calls : list Call;
}.

(** After [Acquire] has started the goroutine. *)
Definition lease_start : LeaseState := mkLeaseState false false false WSelect [] [].

Inductive lease_step : LeaseState -> LeaseState -> Prop :=
(* the parent of the context is canceled *)
| parent_canceled s :
    lease_step s (mkLeaseState (done s) true (stopped s) (worker s) (releasers s) (calls s))
(* renew: case <-l.done, case <-l.context.Done() *)
| worker_returns s :
    worker s = WSelect -> done s = true \/ canceled s = true ->
    lease_step s (mkLeaseState (done s) (canceled s) true WStopped (releasers s) (calls s))
(* renew: case <-ticker.C *)
| worker_renews s :
    worker s = WSelect ->
    lease_step s (mkLeaseState (done s) (canceled s) (stopped s) WRenewing (releasers s) (calls s ++ [CallRenew]))
| worker_renewed s :
    worker s = WRenewing ->
    lease_step s (mkLeaseState (done s) (canceled s) (stopped s) WSelect (releasers s) (calls s))
| worker_failed s :
    worker s = WRenewing ->
    lease_step s (mkLeaseState (done s) true true WStopped (releasers s) (calls s))
(* Release: once.Do { close(l.done); l.cancel() } *)
| release_called s :
    lease_step s (mkLeaseState true true (stopped s) (worker s) (releasers s ++ [RWaiting]) (calls s))
(* Release: case <-l.stopped, then ReleaseLease *)
| release_proceeds s i :
    releasers s !! i = Some RWaiting -> stopped s = true ->
    lease_step s (mkLeaseState (done s) (canceled s) (stopped s) (worker s) (<[i := RReleasing]> (releasers s))
              (calls s ++ [CallRelease]))
(* Release: case <-ctx.Done() *)
| release_gives_up s i :
    releasers s !! i = Some RWaiting ->
    lease_step s (mkLeaseState (done s) (canceled s) (stopped s) (worker s) (<[i := RDone false]> (releasers s)) (calls s))
| release_returns s i ok :
    releasers s !! i = Some RReleasing ->
    lease_step s (mkLeaseState (done s) (canceled s) (stopped s) (worker s) (<[i := RDone ok]> (releasers s)) (calls s)).

Definition reachable (s : LeaseState) : Prop := rtc lease_step lease_start s.
End RenewingLease.

(** ** [sharedAdmissionPermit] *)

Module SharedPermit.

(** [once] runs its body for the first caller; later callers wait until it is
    done. *)
Inductive Once := OnceNew | OnceRunning (at_ : Releaser) | OnceDone.

Record PermitState := mkPermitState {
  done : bool;
  stopped : bool;
  worker : Worker;
  once : Once;
  calls : list Call;
}.

Definition permit_start : PermitState := mkPermitState false false WSelect OnceNew [].

Inductive permit_step : PermitState -> PermitState -> Prop :=
| worker_returns s :
    worker s = WSelect -> done s = true ->
    permit_step s (mkPermitState (done s) true WStopped (once s) (calls s))
| worker_renews s :
    worker s = WSelect ->
    permit_step s (mkPermitState (done s) (stopped s) WRenewing (once s) (calls s ++ [CallRenew]))
| worker_renewed s :
    worker s = WRenewing ->
    permit_step s (mkPermitState (done s) (stopped s) WSelect (once s) (calls s))
| worker_failed s :
    worker s = WRenewing ->
    permit_step s (mkPermitState (done s) true WStopped (once s) (calls s))
| release_called s :
    once s = OnceNew ->
    permit_step s (mkPermitState true (stopped s) (worker s) (OnceRunning RWaiting) (calls s))
| release_proceeds s :
    once s = OnceRunning RWaiting -> stopped s = true ->
    permit_step s (mkPermitState (done s) (stopped s) (worker s) (OnceRunning RReleasing) (calls s ++ [CallRelease]))
| release_returns s :
    once s = OnceRunning RReleasing ->
    permit_step s (mkPermitState (done s) (stopped s) (worker s) OnceDone (calls s ++ [CallLocalRelease])).

Definition reachable (s : PermitState) : Prop := rtc permit_step permit_start s.
End SharedPermit.

(** ** [AdmissionAdapter] *)

Module AdmissionAdapter.

Record Config := mkConfig { MaxActive : Z; MaxQueueWait : Z; RetryInterval : Z; LeaseTTL : Z }.

Definition NewAdmissionAdapter (gate_present coordinator_present : bool) (config : Config) : result string Config :=
  if (negb gate_present || negb coordinator_present || (MaxActive config <? 1) || (MaxQueueWait config <=? 0) ||
      (RetryInterval config <? 10 * Millisecond) || (Second <? RetryInterval config) ||
      (LeaseTTL config <? 3 * Second) || (Hour <? LeaseTTL config))%bool
  then Err "admission coordination configuration is invalid"
  else Ok config.

(** What the local gate may fail with. *)
Inductive GateError := GateContextEnded (e : GoError) | GateQueueTimeout | GateQueueFull | GateOther (message : string).

Definition admissionGateError (err : GateError) : GoError :=
  match err with
  | GateContextEnded _ => Wrapped "admission" ErrAdmissionCanceled
  | GateQueueTimeout => Wrapped "admission" ErrAdmissionTimedOut
  | GateQueueFull => Wrapped "admission" ErrAdmissionQueueFull
  | GateOther _ => Wrapped "admission" ErrCoordinationFailed
  end.

(** One turn of the loop, as the world answers it. *)
Record Round := mkRound {
  gate : option GateError;               (* the local gate: a permit, or an error *)
  lease : result string LeaseDecision;   (* the shared lease *)
  now : Z;                               (* the clock at [time.Until] *)
  fired : bool;                          (* the timer fires before the wait ends *)
  wait_error : option GoError;           (* [waitContext.Err()] when it is asked for *)
  caller_error : option GoError;         (* [ctx.Err()] when it is asked for *)
}.

(** What the loop does to the local gate and the timer. *)
Inductive Action := TakeLocal | GiveLocal | WaitFor (delay : Z).

Definition timed_out (r : Round) : bool :=
  match wait_error r, caller_error r with Some ErrContextDeadline, None => true | _, _ => false end.

(** [None] when the rounds end before the loop does. *)
Fixpoint acquire_loop (config : Config) (rounds : list Round) : list Action * option (result GoError LeaseRef) :=
  match rounds with
  | [] => ([], None)
  | r :: rounds' =>
      match gate r with
      | Some err =>
          ([], Some (Err (if timed_out r then Wrapped "shared admission wait timed out" ErrAdmissionTimedOut
                          else admissionGateError err)))
      | None =>
          match lease r with
          | Err _ => ([TakeLocal; GiveLocal], Some (Err (coordination_failed "acquire shared admission")))
          | Ok decision =>
              if Granted decision then ([TakeLocal], Some (Ok (DecLease decision)))
              else
                let untilRetry := time_sub (RetryAt decision) (now r) in
                let delay :=
                  if ((0 <? untilRetry) && (untilRetry <? RetryInterval config))%bool then untilRetry
                  else RetryInterval config in
                if fired r then
                  let '(actions, result) := acquire_loop config rounds' in
                  (TakeLocal :: GiveLocal :: WaitFor delay :: actions, result)
                else
                  ([TakeLocal; GiveLocal; WaitFor delay],
                   Some (Err (if timed_out r then Wrapped "shared admission wait timed out" ErrAdmissionTimedOut
                              else Wrapped "admission" ErrAdmissionCanceled)))
          end
      end
  end.

Definition Acquire (config : Config) (requestID userID : UUID) (rounds : list Round) :
    list Action * option (result GoError LeaseRef) :=
  if (bool_decide (requestID = uuid_Nil) || bool_decide (userID = uuid_Nil))%bool then
    ([], Some (Err (coordination_failed "admission identity is required")))
  else acquire_loop config rounds.

(** The local permits held after some actions. *)
Definition local_held (actions : list Action) : Z :=
  foldr (λ a n, match a with TakeLocal => n + 1 | GiveLocal => n - 1 | WaitFor _ => n end) 0 actions.

(** The local permit is kept exactly when the shared lease was granted, and a
    wait between two tries is positive and at most the retry interval. *)
Lemma Acquire_local config requestID userID rounds actions r :
  0 < RetryInterval config -> Acquire config requestID userID rounds = (actions, r) ->
  local_held actions = (match r with Some (Ok _) => 1 | _ => 0 end) /\
  Forall (λ a, match a with WaitFor d => 0 < d <= RetryInterval config | _ => True end) actions.
Proof.
  intros Hint. unfold Acquire. destruct (_ || _)%bool; [by intros [= <- <-]|].
  revert actions. induction rounds as [|x rounds IH]; intros actions; cbn [acquire_loop]; [by intros [= <- <-]|].
  destruct (gate x); [by intros [= <- <-]|]. destruct (lease x) as [d|]; [|intros [= <- <-]; split; [done|by rewrite ?Forall_cons, ?Forall_nil]].
  destruct (Granted d); [intros [= <- <-]; split; [done|by rewrite ?Forall_cons, ?Forall_nil]|]. cbv zeta.
  set (delay := if (_ && _)%bool then _ else _).
  assert (Hd : 0 < delay <= RetryInterval config).
  { subst delay. destruct (Z.ltb_spec 0 (time_sub (RetryAt d) (now x))), (Z.ltb_spec (time_sub (RetryAt d) (now x)) (RetryInterval config)); simpl; lia. }
  clearbody delay. destruct (fired x); [|intros [= <- <-]; split; [done|by rewrite ?Forall_cons, ?Forall_nil]].
  destruct (acquire_loop config rounds) as [acts res]. intros [= <- <-]. destruct (IH acts eq_refl) as [H1 H2].
  split; [cbn [local_held foldr]; fold (local_held acts); rewrite H1; destruct res as [[]|]; lia|by rewrite ?Forall_cons, ?Forall_nil].
Qed.
End AdmissionAdapter.

(** ** Theorems *)

(** No renewal once the lease is being released. *)
Definition renewals_first (calls : list Call) : Prop :=
  forall pre post, calls = pre ++ CallRelease :: post -> CallRenew ∉ post.

Lemma renewals_first_nil : renewals_first [].
Proof. intros [|] post H; done. Qed.

Lemma renewals_first_release cs c : c <> CallRenew -> renewals_first cs -> renewals_first (cs ++ [c]).
Proof.
  intros Hc Hcs pre post Heq. destruct post as [|x post _] using rev_ind.
  { apply not_elem_of_nil. }
  rewrite app_comm_cons, app_assoc in Heq. apply app_inj_tail in Heq as [Heq ->].
  rewrite not_elem_of_app, not_elem_of_cons. split; [by eapply Hcs|]. split; [done|apply not_elem_of_nil].
Qed.

Lemma renewals_first_none cs : CallRelease ∉ cs -> renewals_first cs.
Proof. intros Hcs pre post ->. exfalso. apply Hcs. apply elem_of_app. right. left. Qed.

Lemma renewals_first_renew cs : CallRelease ∉ cs -> renewals_first (cs ++ [CallRenew]).
Proof.
  intros Hcs pre post Heq. destruct post as [|x post _] using rev_ind; [apply not_elem_of_nil|].
  rewrite app_comm_cons, app_assoc in Heq. apply app_inj_tail in Heq as [Heq _].
  exfalso. apply Hcs. rewrite Heq. apply elem_of_app. right. left.
Qed.

(** What holds in every state: a release has been sent only after the
    goroutine has returned, and then no renewal follows. *)
Lemma renewing_invariant s :
  RenewingLease.reachable s ->
  (RenewingLease.stopped s = true <-> RenewingLease.worker s = WStopped) /\
  (RenewingLease.stopped s = false -> CallRelease ∉ RenewingLease.calls s) /\
  renewals_first (RenewingLease.calls s).
Proof.
  intros Hr. unfold RenewingLease.reachable in Hr. revert s Hr. refine (rtc_ind_r _ _ _ _).
  { split_and!; [done| |apply renewals_first_nil]. intros _. apply not_elem_of_nil. }
  clear. intros s1 s2 _ Hstep (Hw & Hn & Hf).
  destruct Hstep as [s|s Hsel _|s Hsel|s Hren|s Hren|s|s i Hi Hst|s i Hi|s i ok Hi]; simpl; try done.
  - rewrite Hsel in Hw. assert (Hns : RenewingLease.stopped s = false) by (destruct (RenewingLease.stopped s); naive_solver).
    split_and!; [by rewrite Hns| |by apply renewals_first_renew, Hn].
    intros _. rewrite not_elem_of_app, list_elem_of_singleton. split; [by apply Hn|done].
  - rewrite Hren in Hw. assert (Hns : RenewingLease.stopped s = false) by (destruct (RenewingLease.stopped s); naive_solver).
    split_and!; [by rewrite Hns|done..].
  - split_and!; [done| |by apply renewals_first_release]. by rewrite Hst.
Qed.

Lemma shared_invariant s :
  SharedPermit.reachable s ->
  (SharedPermit.stopped s = true <-> SharedPermit.worker s = WStopped) /\
  match SharedPermit.once s with
  | SharedPermit.OnceNew | SharedPermit.OnceRunning RWaiting =>
      (CallRelease ∉ SharedPermit.calls s) /\ (CallLocalRelease ∉ SharedPermit.calls s)
  | SharedPermit.OnceRunning _ =>
      SharedPermit.stopped s = true /\ exists pre, SharedPermit.calls s = pre ++ [CallRelease] /\ (CallRelease ∉ pre) /\
        (CallLocalRelease ∉ pre)
  | SharedPermit.OnceDone =>
      SharedPermit.stopped s = true /\ exists pre, SharedPermit.calls s = pre ++ [CallRelease; CallLocalRelease] /\
        (CallRelease ∉ pre) /\ (CallLocalRelease ∉ pre)
  end.
Proof.
  intros Hr. unfold SharedPermit.reachable in Hr. revert s Hr.
  assert (Happ : forall cs (c d : Call), c ∉ cs -> d <> c -> c ∉ cs ++ [d]).
  { intros cs c d Hc Hd. rewrite not_elem_of_app, list_elem_of_singleton. naive_solver. }
  intros s Hr. revert s Hr. refine (rtc_ind_r _ _ _ _).
  { split; [done|]. simpl. split; apply not_elem_of_nil. }
  intros s1 s2 _ Hstep (Hw & Ho).
  destruct Hstep as [s Hsel Hd|s Hsel|s Hren|s Hren|s Hnew|s Hrun Hst|s Hrun]; simpl.
  - split; [done|]. rewrite Hsel in Hw. destruct (SharedPermit.once s) as [|[]|]; naive_solver.
  - rewrite Hsel in Hw. assert (Hns : SharedPermit.stopped s = false) by (destruct (SharedPermit.stopped s); naive_solver).
    rewrite Hns in Ho. split; [by rewrite Hns|]. destruct (SharedPermit.once s) as [|[]|]; naive_solver.
  - rewrite Hren in Hw. assert (Hns : SharedPermit.stopped s = false) by (destruct (SharedPermit.stopped s); naive_solver).
    rewrite Hns in *. split; [done|]. done.
  - split; [done|]. destruct (SharedPermit.once s) as [|[]|]; naive_solver.
  - rewrite Hnew in Ho. done.
  - rewrite Hrun in Ho. split; [done|]. split; [done|]. exists (SharedPermit.calls s). naive_solver.
  - rewrite Hrun in Ho. destruct Ho as (Hst & pre & -> & H1 & H2). split; [done|]. split; [done|].
    exists pre. by rewrite <- app_assoc.
Qed.

(** Renewal and release do not race: in every interleaving of the
    renewing goroutine with any number of callers of [Release], no renewal of
    a lease is sent once its release has been sent, so a released lease is
    never revived.  The shared admission permit is released at most once, the
    lease before the local permit. *)
Theorem release_ends_renewal :
  (forall s, RenewingLease.reachable s -> renewals_first (RenewingLease.calls s)) /\
  (forall s, SharedPermit.reachable s ->
     renewals_first (SharedPermit.calls s) /\
     exists renewals tail, SharedPermit.calls s = renewals ++ tail /\ (CallRelease ∉ renewals) /\
       (CallLocalRelease ∉ renewals) /\ tail ∈ [[]; [CallRelease]; [CallRelease; CallLocalRelease]]).
Proof.
  split; intros s Hr; [apply (renewing_invariant s Hr)|].
  destruct (shared_invariant s Hr) as [_ Ho].
  assert (Hparts : exists renewals tail, SharedPermit.calls s = renewals ++ tail /\ (CallRelease ∉ renewals) /\
       (CallLocalRelease ∉ renewals) /\ tail ∈ [[]; [CallRelease]; [CallRelease; CallLocalRelease]]).
  { destruct (SharedPermit.once s) as [|[]|].
    1,2: exists (SharedPermit.calls s), []; rewrite app_nil_r; set_solver.
    all: destruct Ho as (_ & pre & Hc & H1 & H2); exists pre; eexists; split_and!; [exact Hc|done..|set_solver]. }
  split; [|done]. destruct Hparts as (pre & tail & -> & H1 & H2 & Ht).
  assert (Hpre : renewals_first pre) by (by apply renewals_first_none).
  rewrite !elem_of_cons in Ht. destruct Ht as [->|[->|[->|Ht%elem_of_nil]]]; [|by apply renewals_first_release| |done].
  - by rewrite app_nil_r.
  - change [CallRelease; CallLocalRelease] with ([CallRelease] ++ [CallLocalRelease]). rewrite app_assoc. apply renewals_first_release; [done|]. by apply renewals_first_release.
Qed.

(** Two ways to reach the end: a renewal, then the release. *)
Lemma renewed_and_released :
  RenewingLease.reachable (RenewingLease.mkLeaseState true true true WStopped [RReleasing] [CallRenew; CallRelease]).
Proof.
  unfold RenewingLease.reachable.
  eapply rtc_l; [by apply RenewingLease.worker_renews|]. eapply rtc_l; [by apply RenewingLease.worker_renewed|].
  eapply rtc_l; [apply RenewingLease.release_called|].
  eapply rtc_l; [apply RenewingLease.worker_returns; [done|by left]|].
  eapply rtc_l; [by apply (RenewingLease.release_proceeds _ 0)|]. apply rtc_refl.
Qed.

Lemma permit_released :
  SharedPermit.reachable
    (SharedPermit.mkPermitState true true WStopped SharedPermit.OnceDone [CallRenew; CallRelease; CallLocalRelease]).
Proof.
  unfold SharedPermit.reachable.
  eapply rtc_l; [by apply SharedPermit.worker_renews|]. eapply rtc_l; [by apply SharedPermit.release_called|].
  eapply rtc_l; [by apply SharedPermit.worker_failed|]. eapply rtc_l; [by apply SharedPermit.release_proceeds|].
  eapply rtc_l; [by apply SharedPermit.release_returns|]. apply rtc_refl.
Qed.

Lemma release_ends_renewal_witness :
  renewals_first [CallRenew; CallRelease] /\ renewals_first [CallRenew; CallRelease; CallLocalRelease] /\
  ~ renewals_first [CallRelease; CallRenew].
Proof.
  split; [exact (proj1 release_ends_renewal _ renewed_and_released)|].
  split; [exact (proj1 (proj2 release_ends_renewal _ permit_released))|].
  intros H. apply (H [] [CallRenew] eq_refl). left.
Defined.
