(* ===== verification/Wire.v ===== *)
(** * Provider wires: capabilities and policies

    Models the data of [src/internal/providers]: the adapter capabilities of
    [capabilities.go], the wire policies of [policy.go], [kimi.go], [zhipu.go]
    and [agnes.go], the error bodies and their classification ([errors.go]) and
    the model profiles of [model_profile.go] and [catalog.go].

    A header is known by its [Get]; [None] is the nil header.  A decimal
    literal of the code is the [float64] it denotes. *)

From stdpp Require Import pretty.
From S2P Require Import Prelude GoStrings Canonical Capabilities Sse.

Local Open Scope Z_scope.

(** ** adapter.go *)

Inductive ProviderKind := KindSiliconFlow | KindZhipu | KindAgnes | KindKimi.

#[export] Instance ProviderKind_eq_dec : EqDecision ProviderKind.
Proof. solve_decision. Defined.

Definition kind_string (k : ProviderKind) : string :=
  match k with
  | KindSiliconFlow => "siliconflow" | KindZhipu => "zhipu" | KindAgnes => "agnes" | KindKimi => "kimi"
  end.

Definition Header : Type := option (string -> string).
Definition header_Get (h : Header) (name : string) : string := match h with Some get => get name | None => "" end.

(** ** capabilities.go *)

Record AdapterCaps := mkAdapterCaps {
  AdChat : bool;
  AdModels : bool;
  AdResponses : bool;
  AdStreaming : bool;
  AdTools : bool;
  AdToolStreaming : bool;
  AdToolChoiceNone : bool;
  AdToolChoiceAuto : bool;
  AdToolChoiceRequired : bool;
  AdToolChoiceNamed : bool;
  AdParallelToolCalls : bool;
  AdStrictTools : bool;
  AdImageInput : bool;
  AdVideoInput : bool;
  AdPartialMode : bool;
  AdJSONOutput : bool;
  AdJSONSchemaOutput : bool;
  AdMessageName : bool;
  AdPromptCacheKey : bool;
  AdSafetyIdentifier : bool;
  AdReasoningToggle : bool;
  AdReasoningAlwaysOn : bool;
  AdReasoningDefaultEnabled : bool;
  AdReasoningConfig : bool;
  AdReasoningEffort : bool;
  AdReasoningContent : bool;
  AdReasoningReplay : bool;
  AdAllowedReasoningEfforts : list ReasoningEffort;
  AdToolChoiceModesWithReasoning : list ToolChoiceMode;
  AdParameters : ParameterCapabilities;
  AdResponseUsage : bool;
  AdStreamUsage : bool;
  AdResponseRequestID : bool;
}.

Definition with_ResponseRequestID (value : bool) (c : AdapterCaps) : AdapterCaps :=
  mkAdapterCaps
    (AdChat c) (AdModels c) (AdResponses c) (AdStreaming c) (AdTools c) (AdToolStreaming c) (AdToolChoiceNone
    c) (AdToolChoiceAuto c) (AdToolChoiceRequired c) (AdToolChoiceNamed c) (AdParallelToolCalls c)
    (AdStrictTools c) (AdImageInput c) (AdVideoInput c) (AdPartialMode c) (AdJSONOutput c) (AdJSONSchemaOutput
    c) (AdMessageName c) (AdPromptCacheKey c) (AdSafetyIdentifier c) (AdReasoningToggle c)
    (AdReasoningAlwaysOn c) (AdReasoningDefaultEnabled c) (AdReasoningConfig c) (AdReasoningEffort c)
    (AdReasoningContent c) (AdReasoningReplay c) (AdAllowedReasoningEfforts c) (AdToolChoiceModesWithReasoning
    c) (AdParameters c) (AdResponseUsage c) (AdStreamUsage c) value.

Definition noInteger : IntegerParameterLimit := mkIntegerLimit false None None [].
Definition noNumber : NumberParameterLimit := mkNumberLimit false None None [].

Definition integerAtLeast (minimum : Z) : IntegerParameterLimit := mkIntegerLimit true (Some minimum) None [].
Definition integerBetween (minimum maximum : Z) : IntegerParameterLimit :=
  mkIntegerLimit true (Some minimum) (Some maximum) [].
Definition fixedIntegers (values : list Z) : IntegerParameterLimit := mkIntegerLimit true None None values.
Definition numberBetween (minimum maximum : Q) : NumberParameterLimit :=
  mkNumberLimit true (Some minimum) (Some maximum) [].
Definition numberAtMost (maximum : Q) : NumberParameterLimit := mkNumberLimit true None (Some maximum) [].
Definition fixedNumbers (values : list Q) : NumberParameterLimit := mkNumberLimit true None None values.

(** The doubles nearest to 0.6, 0.95, 0.01 and 0.1. *)
Definition f_0_6 : Q := 5404319552844595 # 9007199254740992.
Definition f_0_95 : Q := 4278419646001971 # 4503599627370496.
Definition f_0_01 : Q := 5764607523034235 # 576460752303423488.
Definition f_0_1 : Q := 3602879701896397 # 36028797018963968.

(** [reasoning] is the flag of [siliconFlowModel]; [SiliconFlowCapabilities]
    is without it. *)
Definition siliconFlowFamily (reasoning : bool) : AdapterCaps := {|
  AdChat := true; AdModels := true; AdResponses := false; AdStreaming := true; AdTools := true;
  AdToolStreaming := false; AdToolChoiceNone := false; AdToolChoiceAuto := false; AdToolChoiceRequired := false;
  AdToolChoiceNamed := false; AdParallelToolCalls := false; AdStrictTools := false; AdImageInput := false;
  AdVideoInput := false; AdPartialMode := false; AdJSONOutput := true; AdJSONSchemaOutput := true;
  AdMessageName := true; AdPromptCacheKey := false; AdSafetyIdentifier := false; AdReasoningToggle := reasoning;
  AdReasoningAlwaysOn := false; AdReasoningDefaultEnabled := false; AdReasoningConfig := false;
  AdReasoningEffort := false; AdReasoningContent := reasoning; AdReasoningReplay := false;
  AdAllowedReasoningEfforts := []; AdToolChoiceModesWithReasoning := [];
  AdParameters := {|
    PcMaxOutputTokens := integerAtLeast 1; PcTemperature := numberBetween 0 2; PcTopP := numberBetween f_0_1 1;
    PcPresencePenalty := numberBetween (-2) 2; PcFrequencyPenalty := numberBetween (-2) 2; PcN := integerAtLeast 1;
    PcTopK := numberAtMost 100; PcThinkingBudget := if reasoning then integerBetween 128 32768 else noInteger; PcSamplingConditions := [] |};
  AdResponseUsage := true; AdStreamUsage := true; AdResponseRequestID := false |}.

Definition SiliconFlowCapabilities : AdapterCaps := siliconFlowFamily false.

(** ** kimi.go *)

Definition kimiK3Capabilities : AdapterCaps := {|
  AdChat := true; AdModels := true; AdResponses := false; AdStreaming := true; AdTools := true;
  AdToolStreaming := true; AdToolChoiceNone := true; AdToolChoiceAuto := true; AdToolChoiceRequired := true;
  AdToolChoiceNamed := true; AdParallelToolCalls := false; AdStrictTools := true; AdImageInput := true;
  AdVideoInput := true; AdPartialMode := true; AdJSONOutput := true; AdJSONSchemaOutput := true;
  AdMessageName := true; AdPromptCacheKey := true; AdSafetyIdentifier := true; AdReasoningToggle := false;
  AdReasoningAlwaysOn := true; AdReasoningDefaultEnabled := false; AdReasoningConfig := false;
  AdReasoningEffort := true; AdReasoningContent := true; AdReasoningReplay := true;
  AdAllowedReasoningEfforts := [ReasoningEffortLow; ReasoningEffortHigh; ReasoningEffortMax];
  AdToolChoiceModesWithReasoning := [];
  AdParameters := {|
    PcMaxOutputTokens := integerAtLeast 1; PcTemperature := numberBetween 0 1; PcTopP := noNumber;
    PcPresencePenalty := noNumber; PcFrequencyPenalty := noNumber; PcN := integerAtLeast 1; PcTopK := noNumber;
    PcThinkingBudget := noInteger; PcSamplingConditions := [] |};
  AdResponseUsage := true; AdStreamUsage := true; AdResponseRequestID := false |}.

Definition kimiK27CodeCapabilities : AdapterCaps := {|
  AdChat := true; AdModels := true; AdResponses := false; AdStreaming := true; AdTools := true;
  AdToolStreaming := true; AdToolChoiceNone := true; AdToolChoiceAuto := true; AdToolChoiceRequired := false;
  AdToolChoiceNamed := true; AdParallelToolCalls := false; AdStrictTools := true; AdImageInput := false;
  AdVideoInput := false; AdPartialMode := true; AdJSONOutput := true; AdJSONSchemaOutput := true;
  AdMessageName := true; AdPromptCacheKey := true; AdSafetyIdentifier := true; AdReasoningToggle := false;
  AdReasoningAlwaysOn := true; AdReasoningDefaultEnabled := false; AdReasoningConfig := true;
  AdReasoningEffort := false; AdReasoningContent := true; AdReasoningReplay := true;
  AdAllowedReasoningEfforts := []; AdToolChoiceModesWithReasoning := [];
  AdParameters := AdParameters kimiK3Capabilities;
  AdResponseUsage := true; AdStreamUsage := true; AdResponseRequestID := false |}.

Definition kimiK26Parameters : ParameterCapabilities := {|
  PcMaxOutputTokens := integerAtLeast 1; PcTemperature := fixedNumbers [f_0_6; 1%Q]; PcTopP := fixedNumbers [f_0_95];
  PcPresencePenalty := fixedNumbers [0%Q]; PcFrequencyPenalty := fixedNumbers [0%Q]; PcN := fixedIntegers [1];
  PcTopK := noNumber; PcThinkingBudget := noInteger;
  PcSamplingConditions :=
    [mkSamplingCondition (Some true) (Some 1%Q) None None; mkSamplingCondition (Some false) (Some f_0_6) None None] |}.

(** [video] is whether [VideoInput] is kept, which is all [kimiK25Capabilities]
    changes. *)
Definition kimiK26Family (video : bool) : AdapterCaps := {|
  AdChat := true; AdModels := true; AdResponses := false; AdStreaming := true; AdTools := true;
  AdToolStreaming := true; AdToolChoiceNone := true; AdToolChoiceAuto := true; AdToolChoiceRequired := false;
  AdToolChoiceNamed := true; AdParallelToolCalls := false; AdStrictTools := true; AdImageInput := true;
  AdVideoInput := video; AdPartialMode := true; AdJSONOutput := true; AdJSONSchemaOutput := true;
  AdMessageName := true; AdPromptCacheKey := true; AdSafetyIdentifier := true; AdReasoningToggle := true;
  AdReasoningAlwaysOn := false; AdReasoningDefaultEnabled := true; AdReasoningConfig := false;
  AdReasoningEffort := false; AdReasoningContent := true; AdReasoningReplay := true;
  AdAllowedReasoningEfforts := []; AdToolChoiceModesWithReasoning := [ToolChoiceAuto; ToolChoiceNone];
  AdParameters := kimiK26Parameters;
  AdResponseUsage := true; AdStreamUsage := true; AdResponseRequestID := false |}.

Definition kimiK26Capabilities : AdapterCaps := kimiK26Family true.
Definition kimiK25Capabilities : AdapterCaps := kimiK26Family false.

(** ** zhipu.go and agnes.go *)

(** [image], [toolStreaming], [effort] and [efforts] are the fields
    [zhipuTextModel] and [zhipuVisionModel] set. *)
Definition zhipuFamily (image toolStreaming effort : bool) (efforts : list ReasoningEffort) : AdapterCaps := {|
  AdChat := true; AdModels := true; AdResponses := false; AdStreaming := true; AdTools := true;
  AdToolStreaming := toolStreaming; AdToolChoiceNone := false; AdToolChoiceAuto := true;
  AdToolChoiceRequired := false; AdToolChoiceNamed := false; AdParallelToolCalls := false; AdStrictTools := false;
  AdImageInput := image; AdVideoInput := false; AdPartialMode := false; AdJSONOutput := true;
  AdJSONSchemaOutput := false; AdMessageName := false; AdPromptCacheKey := false; AdSafetyIdentifier := false;
  AdReasoningToggle := true; AdReasoningAlwaysOn := false; AdReasoningDefaultEnabled := false;
  AdReasoningConfig := false; AdReasoningEffort := effort; AdReasoningContent := true; AdReasoningReplay := true;
  AdAllowedReasoningEfforts := efforts; AdToolChoiceModesWithReasoning := [];
  AdParameters := {|
    PcMaxOutputTokens := integerBetween 1 131072; PcTemperature := numberBetween 0 1;
    PcTopP := numberBetween f_0_01 1; PcPresencePenalty := noNumber; PcFrequencyPenalty := noNumber;
    PcN := noInteger; PcTopK := noNumber; PcThinkingBudget := noInteger; PcSamplingConditions := [] |};
  AdResponseUsage := true; AdStreamUsage := true; AdResponseRequestID := true |}.

Definition zhipuCapabilities : AdapterCaps := zhipuFamily false true true [].

(** [advanced] is the flag of [agnesTextModel]; [agnesCapabilities] has all of
    what it removes. *)
Definition agnesFamily (advanced : bool) : AdapterCaps := {|
  AdChat := true; AdModels := true; AdResponses := false; AdStreaming := true; AdTools := advanced;
  AdToolStreaming := true; AdToolChoiceNone := false; AdToolChoiceAuto := advanced; AdToolChoiceRequired := false;
  AdToolChoiceNamed := advanced; AdParallelToolCalls := false; AdStrictTools := false; AdImageInput := true;
  AdVideoInput := false; AdPartialMode := false; AdJSONOutput := false; AdJSONSchemaOutput := false;
  AdMessageName := false; AdPromptCacheKey := false; AdSafetyIdentifier := false; AdReasoningToggle := advanced;
  AdReasoningAlwaysOn := false; AdReasoningDefaultEnabled := false; AdReasoningConfig := false;
  AdReasoningEffort := false; AdReasoningContent := false; AdReasoningReplay := false;
  AdAllowedReasoningEfforts := []; AdToolChoiceModesWithReasoning := [];
  AdParameters := {|
    PcMaxOutputTokens := integerAtLeast 1; PcTemperature := numberBetween 0 2; PcTopP := numberBetween 0 1;
    PcPresencePenalty := numberBetween (-2) 2; PcFrequencyPenalty := numberBetween (-2) 2; PcN := noInteger;
    PcTopK := noNumber; PcThinkingBudget := noInteger; PcSamplingConditions := [] |};
  AdResponseUsage := true; AdStreamUsage := true; AdResponseRequestID := false |}.

Definition agnesCapabilities : AdapterCaps := agnesFamily true.

(** ** model_profile.go and the profiles of catalog.go *)

Record ModelProfile := mkModelProfile {
  PfUpstreamName : string;
  PfCapabilities : AdapterCaps;
  PfContextTokens : Z;
  PfOutputTokens : Z;
}.

Definition siliconFlowModel (name : string) (context output : Z) (reasoning : bool) : ModelProfile :=
  mkModelProfile name (siliconFlowFamily reasoning) context output.

Definition zhipuTextModel (name : string) (context output : Z) (effort toolStreaming : bool) : ModelProfile :=
  mkModelProfile name
    (zhipuFamily false toolStreaming effort
       (if effort then
          [ReasoningEffortNone; ReasoningEffortMinimal; ReasoningEffortLow; ReasoningEffortMedium;
           ReasoningEffortHigh; ReasoningEffortXHigh; ReasoningEffortMax]
        else [])) context output.

Definition zhipuVisionModel (name : string) (context output : Z) : ModelProfile :=
  mkModelProfile name (zhipuFamily true false false []) context output.

Definition agnesTextModel (name : string) (context output : Z) (advanced : bool) : ModelProfile :=
  mkModelProfile name (agnesFamily advanced) context output.

Definition kimiK3Model : ModelProfile := mkModelProfile "kimi-k3" kimiK3Capabilities 1000000 0.
Definition kimiK27CodeModel (name : string) : ModelProfile := mkModelProfile name kimiK27CodeCapabilities 256000 0.
Definition kimiK26Model : ModelProfile := mkModelProfile "kimi-k2.6" kimiK26Capabilities 256000 0.
Definition kimiK25Model : ModelProfile := mkModelProfile "kimi-k2.5" kimiK25Capabilities 256000 0.

(** The [Models] of each definition of [defaultCatalog]. *)
Definition catalogModels (kind : ProviderKind) : list ModelProfile :=
  match kind with
  | KindKimi =>
      [kimiK3Model; kimiK27CodeModel "kimi-k2.7-code"; kimiK27CodeModel "kimi-k2.7-code-highspeed"; kimiK26Model;
       kimiK25Model]
  | KindSiliconFlow =>
      [siliconFlowModel "Qwen/Qwen3.5-9B" 0 0 true; siliconFlowModel "Pro/zai-org/GLM-4.7" 0 0 true]
  | KindZhipu =>
      [zhipuTextModel "glm-5.2" 1000000 131072 true true; zhipuTextModel "glm-5.1" 0 0 false true;
       zhipuTextModel "glm-5" 0 0 false true; zhipuTextModel "glm-5-turbo" 0 0 false false;
       zhipuTextModel "glm-4.7-flash" 200000 131072 false true; zhipuTextModel "glm-4.7" 0 0 false true;
       zhipuTextModel "glm-4.6" 0 0 false false; zhipuTextModel "glm-4.5" 0 0 false false;
       zhipuVisionModel "glm-5v-turbo" 200000 131072]
  | KindAgnes =>
      [agnesTextModel "agnes-1.5-flash" 256000 65536 false; agnesTextModel "agnes-2.0-flash" 512000 65536 true]
  end.

(** [validateModelProfiles]; [seen] is the set of names so far. *)
Fixpoint validate_profiles (seen : gset string) (profiles : list ModelProfile) : bool :=
  match profiles with
  | [] => true
  | profile :: profiles' =>
      if (bool_decide (PfUpstreamName profile = "") || negb (AdChat (PfCapabilities profile)) ||
          negb (AdModels (PfCapabilities profile)))%bool then false
      else if ((PfContextTokens profile <? 0) || (PfOutputTokens profile <? 0) ||
               ((0 <? PfContextTokens profile) && (PfContextTokens profile <? PfOutputTokens profile)))%bool then false
      else if bool_decide (PfUpstreamName profile ∈ seen) then false
      else validate_profiles ({[PfUpstreamName profile]} ∪ seen) profiles'
  end.

Definition validateModelProfiles (profiles : list ModelProfile) : bool :=
  match profiles with [] => false | _ => validate_profiles ∅ profiles end.

(** [Catalog.ModelCapabilities] *)
Definition profileOf (kind : ProviderKind) (upstreamName : string) : option ModelProfile :=
  find (λ profile, String.eqb (PfUpstreamName profile) upstreamName) (catalogModels kind).

(** ** Error bodies *)

Record wireErrorDetail := mkWireErrorDetail {
  WdType : string;
  WdRetryDelay : string;
  WdViolations : list string;
}.

Record wireError := mkWireError {
  WeMessage : string;
  WeType : string;
  WeStatus : string;
  WeParameter : string;
  WeCode : string;
  WeDetails : list wireErrorDetail;
}.

Record wireErrorEnvelope := mkWireErrorEnvelope {
  EnError : option wireError;
  EnMessage : string;
  EnType : string;
  EnParameter : string;
  EnCode : string;
  EnRequestID : string;
}.

(** ** policy.go *)

Inductive reasoningWire := reasoningWireStandard | reasoningWireZhipu | reasoningWireAgnes | reasoningWireKimi.

#[export] Instance reasoningWire_eq_dec : EqDecision reasoningWire.
Proof. solve_decision. Defined.

Inductive outputTokenWire := outputTokenWireUnset | outputTokenWireMaxTokens | outputTokenWireMaxCompletionTokens.

Record wirePolicy := mkWirePolicy {
  PoKind : ProviderKind;
  PoCapabilities : AdapterCaps;
  PoChatPath : string;
  PoModelsPath : string;
  PoReasoning : reasoningWire;
  PoOutputTokens : outputTokenWire;
  PoIncludeStreamUsage : bool;
  PoSendToolStream : bool;
  PoResponseRequestIDBody : bool;
  PoStreamRequestIDBody : bool;
  PoResponseRequestIDHeader : string;
  PoMaxTools : Z;
  PoMaxStops : Z;
  PoRejectSamplingWithReasoning : bool;
  PoAllowedReasoningEfforts : option (list ReasoningEffort);
  PoFinishReasons : gmap string FinishReason;
  PoFinishReasonErrors : gmap string ErrorKind;
  PoTransformToolSchema : option (string -> result GoError string);
  PoClassify : Z -> option wireError -> ErrorKind;
  PoRetryAfter : Header -> option wireError -> option RetryAfter;
  PoReplaySafe : option (Z -> option wireError -> bool);
}.

(** ** errors.go *)

Definition explicitRejectionReplaySafe (kind : ErrorKind) : bool :=
  match kind with
  | ErrorAuthentication | ErrorPermission | ErrorQuota | ErrorRateLimit => true
  | _ => false
  end.

Definition classifyHTTPError (statusCode : Z) (_ : option wireError) : ErrorKind :=
  if ((statusCode =? 400) || (statusCode =? 422))%bool then ErrorInvalidRequest
  else if statusCode =? 401 then ErrorAuthentication
  else if statusCode =? 402 then ErrorQuota
  else if statusCode =? 403 then ErrorPermission
  else if statusCode =? 404 then ErrorProviderConfiguration
  else if statusCode =? 408 then ErrorProviderTemporary
  else if statusCode =? 429 then ErrorRateLimit
  else if 500 <=? statusCode then ErrorProviderTemporary
  else ErrorProviderPermanent.

Definition one_of (code : string) (codes : list string) : bool := existsb (String.eqb code) codes.

Definition classifyZhipuError (statusCode : Z) (providerError : option wireError) : ErrorKind :=
  let code := match providerError with Some e => WeCode e | None => "" end in
  if one_of code ["1000"; "1001"; "1002"; "1003"; "1004"; "1110"; "1111"; "1112"] then ErrorAuthentication
  else if one_of code ["1113"; "1304"; "1308"; "1309"; "1310"] then ErrorQuota
  else if one_of code ["1210"; "1213"; "1214"; "1215"; "1261"] then ErrorInvalidRequest
  else if one_of code ["1211"; "1221"; "1222"] then ErrorProviderConfiguration
  else if one_of code ["1212"] then ErrorUnsupportedCapability
  else if one_of code ["1220"; "1301"; "1311"] then ErrorPermission
  else if one_of code ["1302"] then ErrorRateLimit
  else if one_of code ["500"; "1120"; "1230"; "1234"; "1305"] then ErrorProviderTemporary
  else if one_of code ["1121"; "1231"; "1300"] then ErrorProviderPermanent
  else classifyHTTPError statusCode providerError.

(** An error literal of an adapter: the remaining fields are zero. *)
Definition adapter_error (policy : wirePolicy) (kind : ErrorKind) (code message parameter : string)
    (cause : option GoError) : Error :=
  mkError kind code message parameter (kind_string (PoKind policy)) "" "" "" "" 0 None false cause.

Definition requestError (policy : wirePolicy) (kind : ErrorKind) (code message parameter : string) : Error :=
  adapter_error policy kind code message parameter None.

Definition unsupportedBy (policy : wirePolicy) (parameter : string) : Error :=
  requestError policy ErrorUnsupportedCapability "unsupported_capability"
    "provider cannot represent the requested capability" parameter.

Definition contractError (policy : wirePolicy) (code message : string) (cause : option GoError) : Error :=
  adapter_error policy ErrorProviderPermanent code message "" cause.

Definition finishReasonError (policy : wirePolicy) (reason : string) (kind : ErrorKind) : Error :=
  adapter_error policy kind reason "provider could not complete the request" "" None.

Definition classifyWireError (policy : wirePolicy) (statusCode : Z) (headers : Header) (providerError : wireError)
    (requestID : string) : Error :=
  let kind := PoClassify policy statusCode (Some providerError) in
  let replaySafe :=
    match PoReplaySafe policy with
    | Some safe => (explicitRejectionReplaySafe kind || safe statusCode (Some providerError))%bool
    | None => explicitRejectionReplaySafe kind
    end in
  let message := TrimSpace (WeMessage providerError) in
  let message := if bool_decide (message = "") then "provider request failed" else message in
  let requestID :=
    if (bool_decide (requestID = "") && negb (bool_decide (PoResponseRequestIDHeader policy = "")))%bool
    then header_Get headers (PoResponseRequestIDHeader policy) else requestID in
  let providerType :=
    if bool_decide (WeType providerError = "") then WeStatus providerError else WeType providerError in
  mkError kind (WeCode providerError) message (WeParameter providerError) (kind_string (PoKind policy)) providerType
    "" "" requestID statusCode (PoRetryAfter policy headers (Some providerError)) replaySafe None.

(** ** Calls to the standard library

    What the adapters use of [encoding/json] and [net/http]: a decoder reads
    one value of the target's type from the front of the input and answers it
    with what is left, [decode_any] does the same for a value of any type,
    [parse_time] is [http.ParseTime], [parse_url] is [url.Parse]. *)

Record ParsedURL := mkParsedURL {
  UrScheme : string;
  UrHost : string;
  UrHasUser : bool;
  UrForceQuery : bool;
  UrRawQuery : string;
  UrFragment : string;
}.

Record Std := mkStd {
  decode_error : string -> result GoError (wireErrorEnvelope * string);
  decode_any : string -> option GoError;
  parse_time : string -> option Z;
  parse_url : string -> result GoError ParsedURL;
}.

Definition json_space (c : ascii) : bool :=
  ((code c =? 32) || (code c =? 9) || (code c =? 10) || (code c =? 13))%bool.

Fixpoint only_json_space (s : string) : bool :=
  match s with EmptyString => true | String c s' => (json_space c && only_json_space s')%bool end.

(** [decodeJSON]: one value, then the end of the input.  A second [Decode]
    answers [io.EOF] exactly when only white space is left. *)
Definition decodeJSON {A} (std : Std) (decode : string -> result GoError (A * string)) (body : string) :
    result GoError A :=
  if bool_decide (TrimSpace body = "") then Err (OtherError "empty JSON body")
  else
    let? (target, rest) := decode body in
    if only_json_space rest then Ok target
    else
      match decode_any std rest with
      | None => Err (OtherError "multiple JSON values")
      | Some err => Err (Wrapped "trailing JSON data" err)
      end.

Section errors.
Variable std : Std.

Definition parseRetryAfter (headers : Header) : option RetryAfter :=
  match headers with
  | None => None
  | Some _ =>
      let raw := TrimSpace (header_Get headers "Retry-After") in
      if bool_decide (raw = "") then None
      else
        match ParseInt (String.list_ascii_of_string raw) with
        | Some seconds =>
            if 0 <=? seconds then Some (mkRetryAfter (Some seconds) None)
            else (λ at_, mkRetryAfter None (Some at_)) <$> parse_time std raw
        | None => (λ at_, mkRetryAfter None (Some at_)) <$> parse_time std raw
        end
  end.

Definition standardRetryAfter (headers : Header) (_ : option wireError) : option RetryAfter := parseRetryAfter headers.

Definition ClassifyError (policy : wirePolicy) (statusCode : Z) (headers : Header) (body : string) : Error :=
  match decodeJSON std (decode_error std) body with
  | Err _ =>
      mkError (PoClassify policy statusCode None) (pretty statusCode) "provider request failed" ""
        (kind_string (PoKind policy)) "" "" "" "" statusCode (PoRetryAfter policy headers None) false None
  | Ok envelope =>
      let providerError :=
        match EnError envelope with
        | Some e => e
        | None => mkWireError (EnMessage envelope) (EnType envelope) "" (EnParameter envelope) (EnCode envelope) []
        end in
      classifyWireError policy statusCode headers providerError (EnRequestID envelope)
  end.

(** ** The four policies *)

Definition siliconFlowPolicy (capabilities : AdapterCaps) (requestIDHeader : string) : wirePolicy := {|
  PoKind := KindSiliconFlow; PoCapabilities := capabilities; PoChatPath := "chat/completions"; PoModelsPath := "models";
  PoReasoning := reasoningWireStandard; PoOutputTokens := outputTokenWireUnset;
  PoIncludeStreamUsage := AdStreamUsage capabilities; PoSendToolStream := false; PoResponseRequestIDBody := false;
  PoStreamRequestIDBody := false; PoResponseRequestIDHeader := requestIDHeader; PoMaxTools := 128; PoMaxStops := 4;
  PoRejectSamplingWithReasoning := false; PoAllowedReasoningEfforts := None; PoFinishReasons := ∅;
  PoFinishReasonErrors := ∅; PoTransformToolSchema := None; PoClassify := classifyHTTPError;
  PoRetryAfter := standardRetryAfter; PoReplaySafe := None |}.

Definition kimiPolicy (capabilities : AdapterCaps) : wirePolicy := {|
  PoKind := KindKimi; PoCapabilities := capabilities; PoChatPath := "chat/completions"; PoModelsPath := "models";
  PoReasoning := reasoningWireKimi; PoOutputTokens := outputTokenWireMaxCompletionTokens;
  PoIncludeStreamUsage := AdStreamUsage capabilities; PoSendToolStream := false; PoResponseRequestIDBody := false;
  PoStreamRequestIDBody := false; PoResponseRequestIDHeader := ""; PoMaxTools := 0; PoMaxStops := 0;
  PoRejectSamplingWithReasoning := false; PoAllowedReasoningEfforts := None; PoFinishReasons := ∅;
  PoFinishReasonErrors := ∅; PoTransformToolSchema := None; PoClassify := classifyHTTPError;
  PoRetryAfter := standardRetryAfter; PoReplaySafe := None |}.

Definition zhipuPolicy (capabilities : AdapterCaps) : wirePolicy := {|
  PoKind := KindZhipu; PoCapabilities := capabilities; PoChatPath := "chat/completions"; PoModelsPath := "models";
  PoReasoning := reasoningWireZhipu; PoOutputTokens := outputTokenWireUnset;
  PoIncludeStreamUsage := AdStreamUsage capabilities; PoSendToolStream := true; PoResponseRequestIDBody := true;
  PoStreamRequestIDBody := false; PoResponseRequestIDHeader := ""; PoMaxTools := 0; PoMaxStops := 4;
  PoRejectSamplingWithReasoning := false; PoAllowedReasoningEfforts := None;
  PoFinishReasons := {["sensitive" := FinishReasonContentFilter]};
  PoFinishReasonErrors :=
    {["network_error" := ErrorProviderTemporary; "model_context_window_exceeded" := ErrorInvalidRequest]};
  PoTransformToolSchema := None; PoClassify := classifyZhipuError; PoRetryAfter := standardRetryAfter;
  PoReplaySafe := None |}.

Definition agnesPolicy (capabilities : AdapterCaps) : wirePolicy := {|
  PoKind := KindAgnes; PoCapabilities := capabilities; PoChatPath := "chat/completions"; PoModelsPath := "models";
  PoReasoning := reasoningWireAgnes; PoOutputTokens := outputTokenWireUnset;
  PoIncludeStreamUsage := AdStreamUsage capabilities; PoSendToolStream := false; PoResponseRequestIDBody := false;
  PoStreamRequestIDBody := false; PoResponseRequestIDHeader := ""; PoMaxTools := 0; PoMaxStops := 4;
  PoRejectSamplingWithReasoning := false; PoAllowedReasoningEfforts := None; PoFinishReasons := ∅;
  PoFinishReasonErrors := ∅; PoTransformToolSchema := None; PoClassify := classifyHTTPError;
  PoRetryAfter := standardRetryAfter; PoReplaySafe := None |}.

(** ** newAdapter and the default catalogue *)

(** The adapter that results is known by its policy. *)
Definition newAdapter (rawBaseURL : string) (policy : wirePolicy) : result GoError wirePolicy :=
  match parse_url std rawBaseURL with
  | Err err => Err (Wrapped "parse provider base URL" err)
  | Ok baseURL =>
      if ((negb (bool_decide (UrScheme baseURL = "http")) && negb (bool_decide (UrScheme baseURL = "https"))) ||
          bool_decide (UrHost baseURL = "") || UrHasUser baseURL || UrForceQuery baseURL ||
          negb (bool_decide (UrRawQuery baseURL = "")) || negb (bool_decide (UrFragment baseURL = "")))%bool then
        Err (OtherError "provider base URL must be an absolute HTTP URL without credentials, query, or fragment")
      else Ok policy
  end.

Definition NewSiliconFlow (baseURL : string) (capabilities : AdapterCaps) (requestIDHeader : string) :
    result GoError wirePolicy :=
  if negb (AdChat capabilities) then Err (OtherError "SiliconFlow chat capability is required")
  else if AdResponses capabilities then
    Err (OtherError "SiliconFlow chat adapter cannot declare Responses capability")
  else
    let capabilities :=
      if bool_decide (requestIDHeader = "") then capabilities else with_ResponseRequestID true capabilities in
    newAdapter baseURL (siliconFlowPolicy capabilities requestIDHeader).

(** [Catalog.Build] over [defaultCatalog] *)
Definition Build (kind : ProviderKind) (baseURL : string) (capabilities : AdapterCaps) : result GoError wirePolicy :=
  match kind with
  | KindKimi => newAdapter baseURL (kimiPolicy capabilities)
  | KindSiliconFlow => NewSiliconFlow baseURL capabilities ""
  | KindZhipu => newAdapter baseURL (zhipuPolicy capabilities)
  | KindAgnes => newAdapter baseURL (agnesPolicy capabilities)
  end.
End errors.
