(* ===== verification/ProviderRequest.v ===== *)
(** * Provider requests

    Models how an adapter turns a canonical request into the provider's wire
    request: [src/internal/providers/request.go], [request_options.go],
    [messages.go] and [tools.go].

    A field the JSON encoding omits when empty is [None] or the empty value.
    Reading and writing JSON, quoting and building the HTTP request are
    arguments ([RequestStd]). *)

From stdpp Require Import pretty.
From S2P Require Import Prelude GoStrings Canonical Capabilities Wire.

Local Open Scope Z_scope.

(** ** Wire types of request.go *)

Record wireImageURL := mkWireImageURL { WiURL : string; WiDetail : string }.
Record wireVideoURL := mkWireVideoURL { WvURL : string }.

Record wireContentPart := mkWireContentPart {
  WcType : ContentPartType;
  WcText : string;
  WcImageURL : option wireImageURL;
  WcVideoURL : option wireVideoURL;
}.

(** The [any] of a message's content: null, a text or blocks. *)
Inductive wireContent := ContentNull | ContentText (text : string) | ContentParts (parts : list wireContentPart).

Record wireFunctionCall := mkWireFunctionCall { WfName : string; WfArguments : string }.
Record wireToolCall := mkWireToolCall { WtID : string; WtType : string; WtFunction : wireFunctionCall }.

Record wireMessage := mkWireMessage {
  WmRole : Role;
  WmName : string;
  WmContent : wireContent;
  WmToolCalls : list wireToolCall;
  WmToolCallID : string;
  WmReasoningContent : string;
  WmPartial : bool;
}.

Record wireToolFunction := mkWireToolFunction {
  WuName : string;
  WuDescription : string;
  WuParameters : string;
  WuStrict : option bool;
}.
Record wireTool := mkWireTool { WoType : string; WoFunction : wireToolFunction }.

(** The [any] of a tool choice: its mode, or a named function. *)
Inductive wireToolChoice := ChoiceMode (mode : string) | ChoiceFunction (name : string).

Record wireJSONSchema := mkWireJSONSchema {
  WjName : string;
  WjDescription : string;
  WjSchema : string;
  WjStrict : option bool;
}.
Record wireResponseFormat := mkWireResponseFormat { WrType : ResponseFormatType; WrJSONSchema : option wireJSONSchema }.

Record wireThinking := mkWireThinking { WhType : string; WhClearThinking : option bool; WhKeep : string }.

Record wireChatRequest := mkWireChatRequest {
  WqModel : string;
  WqMessages : list wireMessage;
  WqStream : bool;
  WqMaxTokens : option Z;
  WqMaxCompletionTokens : option Z;
  WqN : option Z;
  WqTemperature : option Q;
  WqTopP : option Q;
  WqTopK : option Q;
  WqPresencePenalty : option Q;
  WqFrequencyPenalty : option Q;
  WqThinkingBudget : option Z;
  WqStop : list string;
  WqResponseFormat : option wireResponseFormat;
  WqTools : list wireTool;
  WqToolChoice : option wireToolChoice;
  WqParallelToolCalls : option bool;
  WqIncludeUsage : option bool;
  WqThinking : option wireThinking;
  WqReasoningEffort : string;
  WqEnableThinking : option bool;
  WqToolStream : option bool;
  WqRequestID : string;
  WqPromptCacheKey : string;
  WqSafetyIdentifier : string;
  WqTemplateThinking : option bool;
}.

(** [encodeReasoning] writes four fields of the request it is given. *)
Record reasoningFields := mkReasoningFields {
  FiThinking : option wireThinking;
  FiReasoningEffort : string;
  FiEnableThinking : option bool;
  FiTemplateThinking : option bool;
}.

(** ** Standard library *)

(** [utf8.RuneCountInString]: a valid encoding counts once, any other byte
    counts by itself. *)
Definition continuation (c : ascii) : bool := between 128 191 (code c).

Definition rune_len (s : list ascii) : nat :=
  match s with
  | a :: b :: rest =>
      let x := code a in
      if (between 194 223 x && continuation b)%bool then 2%nat
      else
        match rest with
        | c :: rest' =>
            let second :=
              if x =? 224 then between 160 191 (code b)
              else if x =? 237 then between 128 159 (code b)
              else (between 225 239 x && continuation b)%bool in
            if (between 224 239 x && second && continuation c)%bool then 3%nat
            else
              match rest' with
              | d :: _ =>
                  let second :=
                    if x =? 240 then between 144 191 (code b)
                    else if x =? 244 then between 128 143 (code b)
                    else (between 241 243 x && continuation b)%bool in
                  if (between 240 244 x && second && continuation c && continuation d)%bool then 4%nat else 1%nat
              | [] => 1%nat
              end
        | [] => 1%nat
        end
  | _ => 1%nat
  end.

Fixpoint count_runes (skip : nat) (s : list ascii) : Z :=
  match s with
  | [] => 0
  | _ :: s' => match skip with S k => count_runes k s' | O => 1 + count_runes (Nat.pred (rune_len s)) s' end
  end.

Definition RuneCount (s : string) : Z := count_runes 0 (String.list_ascii_of_string s).

(** [toolNamePattern]: [^[A-Za-z0-9_-]{1,64}$] *)
Definition tool_name_char (c : ascii) : bool :=
  (between 65 90 (code c) || between 97 122 (code c) || between 48 57 (code c) || (code c =? 95) || (code c =? 45))%bool.

Definition toolNamePattern (name : string) : bool :=
  (between 1 64 (slen_ name) && forallb tool_name_char (String.list_ascii_of_string name))%bool.

(** [decode_object] reads one JSON value into a map and answers whether it is
    not null, with the rest of the input; [quote] is the verb [%q];
    [marshal] is [json.Marshal]; [new_request] is [http.NewRequestWithContext]
    at the endpoint of a path below the base URL. *)
Record RequestStd := mkRequestStd {
  decode_object : string -> result GoError (bool * string);
  quote : string -> string;
  marshal : wireChatRequest -> result GoError string;
  new_request : string -> option GoError;
}.

Definition role_other (r : Role) : bool := match r with RoleOther _ => true | _ => false end.

Definition validRole (role : Role) : bool := negb (role_other role).

Definition validReasoningEffort (effort : ReasoningEffort) : bool :=
  match effort with ReasoningEffortOther _ => false | _ => true end.

Definition enabledType (enabled : bool) : string := if enabled then "enabled" else "disabled".

Definition part_type_string (t : ContentPartType) : string :=
  match t with
  | ContentPartText => "text" | ContentPartImageURL => "image_url" | ContentPartVideoURL => "video_url"
  | ContentPartOther s => s
  end.

Section request.
Variable rstd : RequestStd.
Variable policy : wirePolicy.

Let caps : AdapterCaps := PoCapabilities policy.

(** ** messages.go *)

Definition encodePart (part : ContentPart) : result string wireContentPart :=
  match CpType part with
  | ContentPartText => Ok (mkWireContentPart ContentPartText (CpText part) None None)
  | ContentPartImageURL =>
      if negb (AdImageInput caps) then Err "provider cannot represent image_url content without loss"
      else
        match CpImageURL part with
        | None => Err "image_url content requires a URL"
        | Some image =>
            if bool_decide (TrimSpace (ImURL image) = "") then Err "image_url content requires a URL"
            else Ok (mkWireContentPart ContentPartImageURL "" (Some (mkWireImageURL (ImURL image) (ImDetail image))) None)
        end
  | ContentPartVideoURL =>
      if negb (AdVideoInput caps) then Err "provider cannot represent video_url content without loss"
      else
        match CpVideoURL part with
        | None => Err "video_url content requires a URL"
        | Some video =>
            if bool_decide (TrimSpace (ViURL video) = "") then Err "video_url content requires a URL"
            else Ok (mkWireContentPart ContentPartVideoURL "" None (Some (mkWireVideoURL (ViURL video))))
        end
  | ContentPartOther s => Err ("content part type " +:+ quote rstd s +:+ " is invalid")
  end.

Fixpoint encodeParts (content : list ContentPart) : result string (list wireContentPart) :=
  match content with
  | [] => Ok []
  | part :: content' =>
      let? encoded := encodePart part in
      let? parts := encodeParts content' in
      Ok (encoded :: parts)
  end.

Definition encodeContent (role : Role) (content : list ContentPart) (hasToolCalls : bool) : result string wireContent :=
  let blocks :=
    if (negb (AdImageInput caps) && negb (AdVideoInput caps))%bool then
      Err "provider cannot represent this content without loss"
    else if negb (bool_decide (role = RoleUser)) then Err "content blocks are only supported for user messages"
    else let? parts := encodeParts content in Ok (ContentParts parts) in
  match content with
  | [] =>
      if (bool_decide (role = RoleAssistant) && hasToolCalls)%bool then Ok ContentNull
      else Err "message content is required"
  | [part] => if bool_decide (CpType part = ContentPartText) then Ok (ContentText (CpText part)) else blocks
  | _ => blocks
  end.

(** [messages[%d]], [messages[%d].tool_calls[%d]] *)
Definition at_message (index : N) : string := "messages[" +:+ pretty index +:+ "]".
Definition at_call (message index : N) : string := at_message message +:+ ".tool_calls[" +:+ pretty index +:+ "]".

Fixpoint encode_calls (message index : N) (toolCalls : list ToolCall) : result Error (list wireToolCall) :=
  match toolCalls with
  | [] => Ok []
  | toolCall :: toolCalls' =>
      if (bool_decide (TcID toolCall = "") || negb (toolNamePattern (TfName (TcFunction toolCall))))%bool then
        Err (requestError policy ErrorInvalidRequest "invalid_tool_call" "tool call ID and function name are required"
               (at_call message index))
      else
        let toolType := if bool_decide (TcType toolCall = "") then "function" else TcType toolCall in
        if negb (bool_decide (toolType = "function")) then Err (unsupportedBy policy (at_call message index +:+ ".type"))
        else
          let? encoded := encode_calls message (N.succ index) toolCalls' in
          Ok (mkWireToolCall (TcID toolCall) toolType
                (mkWireFunctionCall (TfName (TcFunction toolCall)) (TfArguments (TcFunction toolCall))) :: encoded)
  end.

Definition encodeToolCalls (toolCalls : list ToolCall) (message : N) : result Error (list wireToolCall) :=
  match toolCalls with
  | [] => Ok []
  | _ =>
      if negb (AdTools caps) then Err (unsupportedBy policy (at_message message +:+ ".tool_calls"))
      else encode_calls message 0 toolCalls
  end.

(** The body of the loop of [encodeMessages]. *)
Definition encodeMessage (index : N) (message : ChatMessage) : result Error wireMessage :=
  if negb (validRole (MsRole message)) then
    Err (requestError policy ErrorInvalidRequest "invalid_role" "message role is invalid" (at_message index +:+ ".role"))
  else if bool_decide (MsRole message = RoleDeveloper) then Err (unsupportedBy policy (at_message index +:+ ".role"))
  else if (negb (bool_decide (MsName message = "")) && negb (AdMessageName caps))%bool then
    Err (unsupportedBy policy (at_message index +:+ ".name"))
  else if (MsPartial message && negb (AdPartialMode caps))%bool then
    Err (unsupportedBy policy (at_message index +:+ ".partial"))
  else
    match encodeContent (MsRole message) (MsContent message) (0 <? Z.of_nat (length (MsToolCalls message))) with
    | Err text => Err (requestError policy ErrorInvalidRequest "invalid_content" text (at_message index +:+ ".content"))
    | Ok content =>
        if (bool_decide (MsRole message = RoleTool) && bool_decide (TrimSpace (MsToolCallID message) = ""))%bool then
          Err (requestError policy ErrorInvalidRequest "missing_tool_call_id" "tool messages require tool_call_id"
                 (at_message index +:+ ".tool_call_id"))
        else if (match MsReasoning message with Some _ => true | None => false end && negb (AdReasoningReplay caps))%bool
        then Err (unsupportedBy policy (at_message index +:+ ".reasoning"))
        else
          let? toolCalls := encodeToolCalls (MsToolCalls message) index in
          Ok (mkWireMessage (MsRole message) (MsName message) content toolCalls (MsToolCallID message)
                (match MsReasoning message with Some reasoning => RcText reasoning | None => "" end) (MsPartial message))
    end.

Fixpoint encode_messages (index : N) (messages : list ChatMessage) : result Error (list wireMessage) :=
  match messages with
  | [] => Ok []
  | message :: messages' =>
      let? encoded := encodeMessage index message in
      let? rest := encode_messages (N.succ index) messages' in
      Ok (encoded :: rest)
  end.

Definition encodeMessages (messages : list ChatMessage) : result Error (list wireMessage) := encode_messages 0 messages.

(** ** tools.go *)

Definition validJSONObject (value : string) : bool :=
  match decode_object rstd value with
  | Ok (true, rest) => only_json_space rest
  | _ => false
  end.

Definition at_tool (index : N) : string := "tools[" +:+ pretty index +:+ "].function".

Definition encodeTool (index : N) (tool : ToolDefinition) : result Error wireTool :=
  if negb (toolNamePattern (TdName tool)) then
    Err (requestError policy ErrorInvalidRequest "invalid_tool_name"
           "tool name must contain 1-64 letters, digits, underscores, or dashes" (at_tool index +:+ ".name"))
  else
    let parameters := if bool_decide (TdParameters tool = "") then "{}" else TdParameters tool in
    if negb (validJSONObject parameters) then
      Err (requestError policy ErrorInvalidRequest "invalid_tool_schema" "tool parameters must be one JSON object"
             (at_tool index +:+ ".parameters"))
    else
      let transformed :=
        match PoTransformToolSchema policy with
        | None => Some parameters
        | Some transform =>
            match transform parameters with
            | Ok t => if validJSONObject t then Some t else None
            | Err _ => None
            end
        end in
      match transformed with
      | None =>
          Err (requestError policy ErrorInvalidRequest "invalid_tool_schema"
                 "tool parameters cannot be represented by the provider" (at_tool index +:+ ".parameters"))
      | Some parameters =>
          if (match TdStrict tool with Some _ => true | None => false end && negb (AdStrictTools caps))%bool then
            Err (unsupportedBy policy (at_tool index +:+ ".strict"))
          else
            Ok (mkWireTool "function" (mkWireToolFunction (TdName tool) (TdDescription tool) parameters (TdStrict tool)))
      end.

Fixpoint encode_tools (index : N) (tools : list ToolDefinition) : result Error (list wireTool) :=
  match tools with
  | [] => Ok []
  | tool :: tools' =>
      let? encoded := encodeTool index tool in
      let? rest := encode_tools (N.succ index) tools' in
      Ok (encoded :: rest)
  end.

Definition encodeTools (tools : list ToolDefinition) : result Error (list wireTool) :=
  match tools with
  | [] => Ok []
  | _ =>
      if negb (AdTools caps) then Err (unsupportedBy policy "tools")
      else if ((0 <? PoMaxTools policy) && (PoMaxTools policy <? Z.of_nat (length tools)))%bool then
        Err (requestError policy ErrorInvalidRequest "too_many_tools" "tool count exceeds provider limit" "tools")
      else encode_tools 0 tools
  end.

Definition encodeToolChoice (choice : option ToolChoice) (toolCount : Z) : result Error (option wireToolChoice) :=
  match choice with
  | None => Ok None
  | Some choice =>
      if ((toolCount =? 0) && negb (String.eqb (mode_string (Mode choice)) "none"))%bool then
        Err (requestError policy ErrorInvalidRequest "tool_choice_without_tools" "tool_choice requires tools" "tool_choice")
      else
        let by_mode (allowed : bool) :=
          if negb allowed then Err (unsupportedBy policy "tool_choice")
          else Ok (Some (ChoiceMode (mode_string (Mode choice)))) in
        match Mode choice with
        | ToolChoiceNone => by_mode (AdToolChoiceNone caps)
        | ToolChoiceAuto => by_mode (AdToolChoiceAuto caps)
        | ToolChoiceRequired => by_mode (AdToolChoiceRequired caps)
        | ToolChoiceFunction =>
            if negb (AdToolChoiceNamed caps) then Err (unsupportedBy policy "tool_choice")
            else if negb (toolNamePattern (ChFunctionName choice)) then
              Err (requestError policy ErrorInvalidRequest "invalid_tool_choice"
                     "named tool choice requires a valid function name" "tool_choice")
            else Ok (Some (ChoiceFunction (ChFunctionName choice)))
        | ToolChoiceOther _ =>
            Err (requestError policy ErrorInvalidRequest "invalid_tool_choice" "tool choice is invalid" "tool_choice")
        end
  end.

(** ** request_options.go *)

Definition supportsReasoningEffort (effort : ReasoningEffort) : bool :=
  if negb (validReasoningEffort effort) then false
  else
    match PoAllowedReasoningEfforts policy with
    | Some allowed => existsb (λ e, String.eqb (effort_string effort) (effort_string e)) allowed
    | None =>
        match AdAllowedReasoningEfforts caps with
        | [] => true
        | allowed => existsb (λ e, String.eqb (effort_string effort) (effort_string e)) allowed
        end
    end.

Definition no_effort (effort : ReasoningEffort) : bool := String.eqb (effort_string effort) "".

(** [Enabled] and [Preserve] are pointers: nil, or the value. *)
Definition is_set (b : option bool) : bool := match b with Some _ => true | None => false end.
Definition is_false (b : option bool) : bool := match b with Some false => true | _ => false end.
Definition is_true (b : option bool) : bool := match b with Some true => true | _ => false end.

(** The conditions on the reasoning options, in order. *)
Definition checkReasoning (reasoning : ReasoningConfig) : option Error :=
  let enabled := Enabled reasoning in
  let preserve := Preserve reasoning in
  if (is_set enabled && negb (AdReasoningToggle caps) && negb (AdReasoningAlwaysOn caps))%bool then
    Some (unsupportedBy policy "reasoning.enabled")
  else if (negb (no_effort (Effort reasoning)) && negb (AdReasoningEffort caps))%bool then
    Some (unsupportedBy policy "reasoning.effort")
  else if (is_set preserve && negb (bool_decide (PoReasoning policy = reasoningWireZhipu)) &&
           negb (bool_decide (PoReasoning policy = reasoningWireKimi)))%bool then
    Some (unsupportedBy policy "reasoning.preserve")
  else if (is_set preserve && negb (is_set enabled) && negb (AdReasoningAlwaysOn caps))%bool then
    Some (requestError policy ErrorInvalidRequest "preserve_without_thinking"
            "reasoning preservation requires an explicit thinking mode" "reasoning.preserve")
  else if (is_false enabled && (negb (no_effort (Effort reasoning)) || is_set preserve))%bool then
    Some (requestError policy ErrorInvalidRequest "reasoning_options_without_thinking"
            "reasoning effort and preservation require thinking mode" "reasoning")
  else if (negb (no_effort (Effort reasoning)) && negb (supportsReasoningEffort (Effort reasoning)))%bool then
    Some (requestError policy ErrorInvalidRequest "invalid_reasoning_effort" "reasoning effort is invalid"
            "reasoning.effort")
  else None.

Definition thinking_type (enabled : option bool) : string :=
  match enabled with Some b => enabledType b | None => "" end.

(** [encodeReasoning]: the fields it leaves in the wire request, which start
    out empty. *)
Definition encodeReasoning (reasoning : option ReasoningConfig) : result Error reasoningFields :=
  match reasoning with
  | None =>
      Ok (mkReasoningFields None ""
            (if (bool_decide (PoReasoning policy = reasoningWireStandard) && AdReasoningToggle caps)%bool
             then Some false else None) None)
  | Some reasoning =>
      match checkReasoning reasoning with
      | Some e => Err e
      | None =>
          let enabled := Enabled reasoning in
          let preserve := Preserve reasoning in
          let effort := effort_string (Effort reasoning) in
          match PoReasoning policy with
          | reasoningWireStandard =>
              Ok (mkReasoningFields None effort
                    (match enabled with Some b => Some b | None => if AdReasoningToggle caps then Some false else None end)
                    None)
          | reasoningWireZhipu =>
              Ok (mkReasoningFields
                    (if (is_set enabled || is_set preserve)%bool
                     then Some (mkWireThinking (thinking_type enabled) (negb <$> preserve) "") else None)
                    effort None None)
          | reasoningWireAgnes => Ok (mkReasoningFields None "" None enabled)
          | reasoningWireKimi =>
              if AdReasoningAlwaysOn caps then
                if is_false enabled then Err (unsupportedBy policy "reasoning.enabled")
                else if is_false preserve then Err (unsupportedBy policy "reasoning.preserve")
                else
                  Ok (mkReasoningFields
                        (if (AdReasoningConfig caps && (is_set enabled || is_set preserve))%bool
                         then Some (mkWireThinking "enabled" None (if is_true preserve then "all" else "")) else None)
                        effort None None)
              else
                Ok (mkReasoningFields
                      (if (is_set enabled || is_set preserve)%bool
                       then Some (mkWireThinking (thinking_type enabled) None (if is_true preserve then "all" else ""))
                       else None)
                      effort None None)
          end
      end
  end.

Definition reasoningEnabledByRequest (capabilities : AdapterCaps) (request : ChatRequest) : bool :=
  match Reasoning_ request with
  | Some (mkReasoningConfig (Some enabled) _ _) => enabled
  | _ => (AdReasoningAlwaysOn capabilities || AdReasoningDefaultEnabled capabilities)%bool
  end.

Definition containsToolChoiceMode (values : list ToolChoiceMode) (value : ToolChoiceMode) : bool :=
  existsb (λ candidate, String.eqb (mode_string candidate) (mode_string value)) values.
Definition containsNumber (values : list Q) (value : Q) : bool := existsb (λ candidate, Qeq_bool candidate value) values.
Definition containsInteger (values : list Z) (value : Z) : bool := existsb (λ candidate, candidate =? value) values.

Definition out_of_range (parameter : string) : Error :=
  requestError policy ErrorInvalidRequest "parameter_out_of_range" (parameter +:+ " is outside the provider range")
    parameter.

Definition validateNumber (parameter : string) (value : option Q) (limit : NumberParameterLimit) : option Error :=
  match value with
  | None => None
  | Some v =>
      if negb (NlSupported limit) then Some (unsupportedBy policy parameter)
      else if (match NlMinimum limit with Some m => Qlt_b v m | None => false end ||
               match NlMaximum limit with Some m => Qlt_b m v | None => false end ||
               match NlExactValues limit with [] => false | vs => negb (containsNumber vs v) end)%bool then
        Some (out_of_range parameter)
      else None
  end.

Definition validateInteger (parameter : string) (value : option Z) (limit : IntegerParameterLimit) : option Error :=
  match value with
  | None => None
  | Some v =>
      if negb (IlSupported limit) then Some (unsupportedBy policy parameter)
      else if (match IlMinimum limit with Some m => v <? m | None => false end ||
               match IlMaximum limit with Some m => m <? v | None => false end ||
               match IlExactValues limit with [] => false | vs => negb (containsInteger vs v) end)%bool then
        Some (out_of_range parameter)
      else None
  end.

Definition condition_violation (message parameter : string) : Error :=
  requestError policy ErrorInvalidRequest "parameter_condition_violation" message parameter.

(** The body of the loop of [validateSamplingConditions]. *)
Definition validateCondition (request : ChatRequest) (condition : SamplingCondition) : option Error :=
  if match ScThinkingEnabled condition with
     | Some thinking => negb (Bool.eqb thinking (reasoningEnabledByRequest caps request))
     | None => false
     end then None
  else if match ScTemperatureExact condition, Temperature request with
          | Some exact, Some t => negb (Qeq_bool t exact)
          | _, _ => false
          end then
    Some (condition_violation "temperature conflicts with the model's thinking-mode requirement" "temperature")
  else if match ScTemperatureAtMost condition, Temperature request, ScNMaximum condition, N_ request with
          | Some at_most, Some t, Some n_max, Some n => (Qle_bool t at_most && (n_max <? n))%bool
          | _, _, _, _ => false
          end then
    Some (condition_violation "n exceeds the model limit for this temperature" "n")
  else None.

Definition validateSamplingConditions (request : ChatRequest) (conditions : list SamplingCondition) : option Error :=
  first_failure (validateCondition request <$> conditions).

Fixpoint replay_missing (index : N) (messages : list ChatMessage) : option Error :=
  match messages with
  | [] => None
  | message :: messages' =>
      if (bool_decide (MsRole message = RoleAssistant) && (0 <? Z.of_nat (length (MsToolCalls message))) &&
          match MsReasoning message with None => true | Some _ => false end)%bool then
        Some (requestError policy ErrorInvalidRequest "missing_reasoning_replay"
                "assistant tool calls require their preserved reasoning content" (at_message index +:+ ".reasoning"))
      else replay_missing (N.succ index) messages'
  end.

Definition validateReasoningReplay (request : ChatRequest) : option Error :=
  let replayRequired :=
    match PoReasoning policy, Reasoning_ request with
    | reasoningWireZhipu, Some reasoning => (is_true (Enabled reasoning) && is_true (Preserve reasoning))%bool
    | _, _ => false
    end in
  if negb replayRequired then None else replay_missing 0 (Messages request).

Definition validateParameters (request : ChatRequest) : option Error :=
  let parameters := AdParameters caps in
  first_failure
    [validateReasoningReplay request;
     validateInteger "max_tokens" (MaxOutputTokens request) (PcMaxOutputTokens parameters);
     validateInteger "n" (N_ request) (PcN parameters);
     validateNumber "temperature" (Temperature request) (PcTemperature parameters);
     validateNumber "top_p" (TopP request) (PcTopP parameters);
     validateNumber "top_k" (TopK request) (PcTopK parameters);
     validateNumber "presence_penalty" (PresencePenalty request) (PcPresencePenalty parameters);
     validateNumber "frequency_penalty" (FrequencyPenalty request) (PcFrequencyPenalty parameters);
     validateInteger "thinking_budget" (ThinkingBudget request) (PcThinkingBudget parameters);
     validateSamplingConditions request (PcSamplingConditions parameters);
     if ((0 <? PoMaxStops policy) && (PoMaxStops policy <? Z.of_nat (length (Stop request))))%bool then
       Some (requestError policy ErrorInvalidRequest "too_many_stop_sequences"
               "stop sequence count exceeds provider limit" "stop")
     else None;
     if existsb (String.eqb "") (Stop request) then
       Some (requestError policy ErrorInvalidRequest "empty_stop_sequence" "stop sequences must not be empty" "stop")
     else None;
     match ResponseFormat_ request with
     | Some format =>
         match RfType format with
         | ResponseFormatText => None
         | ResponseFormatJSONSchema =>
             if negb (AdJSONSchemaOutput caps) then Some (unsupportedBy policy "response_format.json_schema") else None
         | ResponseFormatJSONObject =>
             if negb (AdJSONOutput caps) then Some (unsupportedBy policy "response_format") else None
         | ResponseFormatOther _ => Some (unsupportedBy policy "response_format")
         end
     | None => None
     end;
     if (is_set (ParallelToolCalls request) && negb (AdParallelToolCalls caps))%bool then
       Some (unsupportedBy policy "parallel_tool_calls")
     else None;
     match ToolChoice_ request with
     | Some choice =>
         if (match AdToolChoiceModesWithReasoning caps with [] => false | _ => true end &&
             reasoningEnabledByRequest caps request &&
             negb (containsToolChoiceMode (AdToolChoiceModesWithReasoning caps) (Mode choice)))%bool then
           Some (requestError policy ErrorInvalidRequest "tool_choice_with_thinking"
                   "this model only accepts auto or none tool_choice while thinking is enabled" "tool_choice")
         else None
     | None => None
     end;
     if (negb (bool_decide (PromptCacheKey request = "")) && negb (AdPromptCacheKey caps))%bool then
       Some (unsupportedBy policy "prompt_cache_key")
     else None;
     if (negb (bool_decide (SafetyIdentifier request = "")) && negb (AdSafetyIdentifier caps))%bool then
       Some (unsupportedBy policy "safety_identifier")
     else None;
     if (PoResponseRequestIDBody policy && negb (bool_decide (CrRequestID request = "")) &&
         negb (between 6 64 (RuneCount (CrRequestID request))))%bool then
       Some (requestError policy ErrorInvalidRequest "invalid_request_id" "request ID must contain 6-64 characters"
               "request_id")
     else None;
     if (PoRejectSamplingWithReasoning policy &&
         match Reasoning_ request with None => true | Some reasoning => negb (is_false (Enabled reasoning)) end &&
         (match Temperature request with Some _ => true | None => false end ||
          match TopP request with Some _ => true | None => false end ||
          match PresencePenalty request with Some _ => true | None => false end ||
          match FrequencyPenalty request with Some _ => true | None => false end))%bool then
       Some (requestError policy ErrorInvalidRequest "sampling_with_thinking"
               "sampling parameters are not effective in thinking mode" "reasoning")
     else None].

(** ** request.go *)

Definition encodeResponseFormat (format : option ResponseFormat) : option wireResponseFormat :=
  match format with
  | Some format =>
      if bool_decide (RfType format = ResponseFormatText) then None
      else
        Some (mkWireResponseFormat (RfType format)
                ((λ schema, mkWireJSONSchema (JsName schema) (JsDescription schema) (JsSchema schema) (JsStrict schema))
                   <$> RfJSONSchema format))
  | None => None
  end.

Definition buildWireRequest (request : ChatRequest) : result Error wireChatRequest :=
  if bool_decide (TrimSpace (CrModel request) = "") then
    Err (requestError policy ErrorInvalidRequest "missing_model" "model is required" "model")
  else if bool_decide (length (Messages request) = 0%nat) then
    Err (requestError policy ErrorInvalidRequest "missing_messages" "at least one message is required" "messages")
  else if (Stream_ request && negb (AdStreaming caps))%bool then Err (unsupportedBy policy "stream")
  else
    let? messages := encodeMessages (Messages request) in
    let? tools := encodeTools (Tools request) in
    let? toolChoice := encodeToolChoice (ToolChoice_ request) (Z.of_nat (length tools)) in
    match validateParameters request with
    | Some e => Err e
    | None =>
        let completion := match PoOutputTokens policy with outputTokenWireMaxCompletionTokens => true | _ => false end in
        let? fields := encodeReasoning (Reasoning_ request) in
        Ok {| WqModel := CrModel request;
              WqMessages := messages;
              WqStream := Stream_ request;
              WqMaxTokens := if completion then None else MaxOutputTokens request;
              WqMaxCompletionTokens := if completion then MaxOutputTokens request else None;
              WqN := N_ request;
              WqTemperature := Temperature request;
              WqTopP := TopP request;
              WqTopK := TopK request;
              WqPresencePenalty := PresencePenalty request;
              WqFrequencyPenalty := FrequencyPenalty request;
              WqThinkingBudget := ThinkingBudget request;
              WqStop := Stop request;
              WqResponseFormat := encodeResponseFormat (ResponseFormat_ request);
              WqTools := tools;
              WqToolChoice := toolChoice;
              WqParallelToolCalls := ParallelToolCalls request;
              WqIncludeUsage := if (Stream_ request && PoIncludeStreamUsage policy)%bool then Some true else None;
              WqThinking := FiThinking fields;
              WqReasoningEffort := FiReasoningEffort fields;
              WqEnableThinking := FiEnableThinking fields;
              WqToolStream :=
                if (Stream_ request && (0 <? Z.of_nat (length tools)) && PoSendToolStream policy)%bool
                then Some true else None;
              WqRequestID := if PoResponseRequestIDBody policy then CrRequestID request else "";
              WqPromptCacheKey := PromptCacheKey request;
              WqSafetyIdentifier := SafetyIdentifier request;
              WqTemplateThinking := FiTemplateThinking fields |}
    end.

(** The HTTP request: its body and the headers that are set. *)
Record HttpRequest := mkHttpRequest {
  HrPath : string;
  HrBody : string;
  HrAuthorization : string;
  HrContentType : string;
  HrAccept : string;
}.

Definition BuildRequest (apiKey : string) (request : ChatRequest) : result Error HttpRequest :=
  if bool_decide (TrimSpace apiKey = "") then
    Err (requestError policy ErrorProviderConfiguration "missing_api_key" "provider API key is required" "")
  else
    let? wireRequest := buildWireRequest request in
    match marshal rstd wireRequest with
    | Err _ =>
        Err (requestError policy ErrorInternalInvariant "encode_request" "could not encode provider request" "")
    | Ok body =>
        match new_request rstd (PoChatPath policy) with
        | Some _ =>
            Err (requestError policy ErrorProviderConfiguration "build_request" "could not build provider request" "")
        | None =>
            Ok (mkHttpRequest (PoChatPath policy) body ("Bearer " +:+ apiKey) "application/json"
                  (if Stream_ request then "text/event-stream" else "application/json"))
        end
    end.
End request.
