(* ===== verification/ProviderResponse.v ===== *)
(** * Provider responses and streams

    Models [src/internal/providers/response.go] and the stream parser of
    [src/internal/providers/stream.go], which runs on the event decoder of
    [Sse]. *)

From S2P Require Import Prelude GoStrings Canonical Capabilities Wire.
From S2P Require Import ProviderRequest Sse.

Local Open Scope Z_scope.

(** ** Wire types *)

Record wireResponseMessage := mkWireResponseMessage {
  RmRole : Role;
  RmContent : option string;
  RmReasoningContent : option string;
  RmToolCalls : list wireToolCall;
}.

Record wireResponseChoice := mkWireResponseChoice {
  RcIndex : option Z;
  RcMessage : wireResponseMessage;
  RcFinishReason : option string;
}.

(** The two details objects are pointers to a record of one pointer. *)
Record wireUsage := mkWireUsage {
  WsPromptTokens : option Z;
  WsCompletionTokens : option Z;
  WsTotalTokens : option Z;
  WsPromptCacheHitTokens : option Z;
  WsPromptCacheMissTokens : option Z;
  WsPromptTokensDetails : option (option Z);
  WsCompletionTokensDetails : option (option Z);
}.

Record wireChatResponse := mkWireChatResponse {
  WpID : string;
  WpRequestID : string;
  WpCreated : option Z;
  WpModel : string;
  WpChoices : list wireResponseChoice;
  WpUsage : option wireUsage;
  WpError : option wireError;
}.

Record wireToolCallDelta := mkWireToolCallDelta {
  DlIndex : option Z;
  DlID : string;
  DlType : string;
  DlName : string;
  DlArguments : string;
}.

Record wireStreamDelta := mkWireStreamDelta {
  SdRole : option Role;
  SdContent : option string;
  SdReasoningContent : option string;
  SdToolCalls : list wireToolCallDelta;
}.

Record wireStreamChoice := mkWireStreamChoice {
  ScIndex : option Z;
  ScDelta : wireStreamDelta;
  ScFinishReason : option string;
}.

Record wireStreamChunk := mkWireStreamChunk {
  WkID : string;
  WkRequestID : string;
  WkCreated : option Z;
  WkModel : string;
  WkChoices : list wireStreamChoice;
  WkUsage : option wireUsage;
  WkError : option wireError;
}.

(** What the parsers use of [encoding/json] beyond [Std]. *)
Record ResponseStd := mkResponseStd {
  decode_response : string -> result GoError (wireChatResponse * string);
  decode_chunk : string -> result GoError (wireStreamChunk * string);
}.

(** [time.Unix(sec, 0).UTC()]: the seconds since the zero time are an [int64]. *)
Definition time_Unix (sec : Z) : Z := wrap64 (sec + 62135596800) * Second.

Section response.
Variable std : Std.
Variable pstd : ResponseStd.
Variable policy : wirePolicy.

Let caps : AdapterCaps := PoCapabilities policy.

(** ** response.go *)

Definition parseFinishReason (reason : string) : result Error FinishReason :=
  if bool_decide (reason = "stop") then Ok FinishReasonStop
  else if bool_decide (reason = "length") then Ok FinishReasonLength
  else if bool_decide (reason = "tool_calls") then Ok FinishReasonToolCalls
  else if bool_decide (reason = "content_filter") then Ok FinishReasonContentFilter
  else
    match PoFinishReasons policy !! reason with
    | Some mapped => Ok mapped
    | None =>
        match PoFinishReasonErrors policy !! reason with
        | Some kind => Err (finishReasonError policy reason kind)
        | None => Err (finishReasonError policy reason ErrorProviderPermanent)
        end
    end.

Definition negative (count : option Z) : bool := match count with Some n => n <? 0 | None => false end.
Definition unset (count : option Z) : bool := match count with Some _ => false | None => true end.

Definition counters (u : ReportedUsage) : list (option Z) :=
  [RuInputTokens u; RuOutputTokens u; RuTotalTokens u; RuCachedInputTokens u; RuCacheMissInputTokens u;
   RuReasoningTokens u].

Definition parseUsage (usage : option wireUsage) : result GoError (option ReportedUsage) :=
  match usage with
  | None => Ok None
  | Some usage =>
      let cached :=
        match WsPromptTokensDetails usage, WsPromptCacheHitTokens usage with
        | Some details, None => details
        | _, hit => hit
        end in
      let reasoning := match WsCompletionTokensDetails usage with Some details => details | None => None end in
      let parsed :=
        mkReportedUsage (WsPromptTokens usage) (WsCompletionTokens usage) (WsTotalTokens usage) cached
          (WsPromptCacheMissTokens usage) reasoning UsageAuthoritative in
      if forallb unset (counters parsed) then Err (OtherError "usage object has no token counters")
      else if existsb negative (counters parsed) then Err (OtherError "usage contains a negative token counter")
      else Ok (Some parsed)
  end.

Definition parseToolCall (toolCall : wireToolCall) : result Error ToolCall :=
  if (bool_decide (WtID toolCall = "") || negb (bool_decide (WtType toolCall = "function")) ||
      negb (toolNamePattern (WfName (WtFunction toolCall))))%bool then
    Err (contractError policy "invalid_tool_call" "provider returned an invalid tool call" None)
  else
    Ok (mkToolCall (WtID toolCall) (WtType toolCall)
          (mkToolFunctionCall (WfName (WtFunction toolCall)) (WfArguments (WtFunction toolCall)))).

(** A loop that appends one result per element and returns the first error. *)
Fixpoint traverse {A B} (f : A -> result Error B) (l : list A) : result Error (list B) :=
  match l with
  | [] => Ok []
  | a :: l' => let? b := f a in let? bs := traverse f l' in Ok (b :: bs)
  end.

Definition parseToolCalls (toolCalls : list wireToolCall) : result Error (list ToolCall) :=
  match toolCalls with
  | [] => Ok []
  | _ =>
      if negb (AdTools caps) then
        Err (contractError policy "unexpected_tool_calls" "provider returned unsupported tool calls" None)
      else traverse parseToolCall toolCalls
  end.

Definition parseChoice (choice : wireResponseChoice) : result Error ChatChoice :=
  let message := RcMessage choice in
  match RcIndex choice, RcFinishReason choice with
  | Some index, Some reason =>
      if ((index <? 0) || negb (validRole (RmRole message)))%bool then
        Err (contractError policy "invalid_choice" "provider response choice is incomplete" None)
      else if negb (bool_decide (RmRole message = RoleAssistant)) then
        Err (contractError policy "invalid_choice_role" "provider response choice role is invalid" None)
      else
        let? finishReason := parseFinishReason reason in
        let content := match RmContent message with Some text => TextContent text | None => [] end in
        let reasoning :=
          match RmReasoningContent message with
          | Some text => if AdReasoningContent caps then Some (mkReasoningContent text) else None
          | None => None
          end in
        let? toolCalls := parseToolCalls (RmToolCalls message) in
        match content, toolCalls, reasoning with
        | [], [], None => Err (contractError policy "empty_choice" "provider returned an empty response choice" None)
        | _, _, _ =>
            Ok (mkChatChoice index (mkMessage (RmRole message) "" content false toolCalls "" reasoning) finishReason)
        end
  | _, _ => Err (contractError policy "invalid_choice" "provider response choice is incomplete" None)
  end.

Definition ParseResponse (statusCode : Z) (headers : Header) (body : string) : result Error ChatResponse :=
  if ((statusCode <? 200) || (300 <=? statusCode))%bool then Err (ClassifyError std policy statusCode headers body)
  else
    match decodeJSON std (decode_response pstd) body with
    | Err cause => Err (contractError policy "malformed_response" "provider returned malformed JSON" (Some cause))
    | Ok response =>
        let incomplete :=
          contractError policy "incomplete_response" "provider response is missing required completion fields" None in
        match WpError response with
        | Some _ => Err (ClassifyError std policy statusCode headers body)
        | None =>
            if (bool_decide (WpID response = "") || bool_decide (WpModel response = "") ||
                match WpCreated response with Some created => created <? 0 | None => true end ||
                bool_decide (length (WpChoices response) = 0%nat))%bool then Err incomplete
            else if (PoResponseRequestIDBody policy && bool_decide (WpRequestID response = ""))%bool then
              Err (contractError policy "missing_request_id" "provider response is missing its request ID" None)
            else
              let? choices := traverse parseChoice (WpChoices response) in
              match parseUsage (WpUsage response) with
              | Err cause => Err (contractError policy "invalid_usage" "provider returned invalid usage" (Some cause))
              | Ok usage =>
                  let requestID :=
                    if PoResponseRequestIDBody policy then WpRequestID response
                    else if negb (bool_decide (PoResponseRequestIDHeader policy = "")) then
                      header_Get headers (PoResponseRequestIDHeader policy)
                    else "" in
                  Ok (mkChatResponse (WpID response) requestID (WpModel response)
                        (time_Unix (match WpCreated response with Some created => created | None => 0 end)) choices usage)
              end
        end
    end.

(** ** stream.go *)

Record chatStreamParser := mkParser {
  PsDecoder : SSEDecoder;
  PsDone : bool;
  PsFailed : bool;
  PsClosed : bool;
  PsCompletionID : string;
  PsRequestID : string;
  PsModel : string;
  PsCreatedAt : Z;
}.

Definition with_decoder (d : SSEDecoder) (p : chatStreamParser) : chatStreamParser :=
  mkParser d (PsDone p) (PsFailed p) (PsClosed p) (PsCompletionID p) (PsRequestID p) (PsModel p) (PsCreatedAt p).
Definition set_done (p : chatStreamParser) : chatStreamParser :=
  mkParser (PsDecoder p) true (PsFailed p) (PsClosed p) (PsCompletionID p) (PsRequestID p) (PsModel p) (PsCreatedAt p).
Definition set_failed (b : bool) (p : chatStreamParser) : chatStreamParser :=
  mkParser (PsDecoder p) (PsDone p) (PsFailed p || b) (PsClosed p) (PsCompletionID p) (PsRequestID p) (PsModel p)
    (PsCreatedAt p).
Definition set_parser_closed (p : chatStreamParser) : chatStreamParser :=
  mkParser (PsDecoder p) (PsDone p) (PsFailed p) true (PsCompletionID p) (PsRequestID p) (PsModel p) (PsCreatedAt p).
Definition set_metadata (completionID model : string) (createdAt : Z) (p : chatStreamParser) : chatStreamParser :=
  mkParser (PsDecoder p) (PsDone p) (PsFailed p) (PsClosed p) completionID (PsRequestID p) model createdAt.
Definition set_requestID (requestID : string) (p : chatStreamParser) : chatStreamParser :=
  mkParser (PsDecoder p) (PsDone p) (PsFailed p) (PsClosed p) (PsCompletionID p) requestID (PsModel p) (PsCreatedAt p).

Definition ParseStream : chatStreamParser :=
  mkParser (NewSSEDecoder DefaultMaxSSEEventBytes) false false false "" "" "" 0.

(** An event literal: the zero value of the fields it leaves out. *)
Definition zero_event (type : StreamEventType) : StreamEvent :=
  mkStreamEvent type "" "" "" 0 0 (RoleOther "") "" "" None (FinishReasonOther "") None None.

(** [event]: the literal with the parser's metadata. *)
Definition stamp (p : chatStreamParser) (e : StreamEvent) : StreamEvent :=
  mkStreamEvent (SeType e) (PsCompletionID p) (PsRequestID p) (PsModel p) (PsCreatedAt p) (SeChoiceIndex e) (SeRole e)
    (SeContentDelta e) (SeReasoningDelta e) (SeToolCallDelta e) (SeFinishReason e) (SeUsage e) (SeError e).

Definition event_start (index : Z) (role : Role) : StreamEvent :=
  mkStreamEvent StreamMessageStart "" "" "" 0 index role "" "" None (FinishReasonOther "") None None.
Definition event_content (index : Z) (text : string) : StreamEvent :=
  mkStreamEvent StreamContentDelta "" "" "" 0 index (RoleOther "") text "" None (FinishReasonOther "") None None.
Definition event_reasoning (index : Z) (text : string) : StreamEvent :=
  mkStreamEvent StreamReasoningDelta "" "" "" 0 index (RoleOther "") "" text None (FinishReasonOther "") None None.
Definition event_tool (index : Z) (delta : ToolCallDelta) : StreamEvent :=
  mkStreamEvent StreamToolCallDelta "" "" "" 0 index (RoleOther "") "" "" (Some delta) (FinishReasonOther "") None None.
Definition event_finish (index : Z) (reason : FinishReason) : StreamEvent :=
  mkStreamEvent StreamFinish "" "" "" 0 index (RoleOther "") "" "" None reason None None.
Definition event_usage (usage : ReportedUsage) : StreamEvent :=
  mkStreamEvent StreamUsageEvent "" "" "" 0 0 (RoleOther "") "" "" None (FinishReasonOther "") (Some usage) None.
Definition event_error (index : Z) (error : Error) : StreamEvent :=
  mkStreamEvent StreamErrorEvent "" "" "" 0 index (RoleOther "") "" "" None (FinishReasonOther "") None (Some error).

Definition acceptMetadata (p : chatStreamParser) (completionID requestID model : string) (created : option Z) :
    result Error unit * chatStreamParser :=
  match created with
  | Some created =>
      if (bool_decide (completionID = "") || bool_decide (model = "") || (created <? 0) ||
          (PoStreamRequestIDBody policy && bool_decide (requestID = "")))%bool then
        (Err (contractError policy "incomplete_stream_chunk" "provider stream chunk is missing completion metadata" None), p)
      else if (negb (bool_decide (PsCompletionID p = "")) && negb (bool_decide (PsCompletionID p = completionID)))%bool then
        (Err (contractError policy "changed_completion_id" "provider changed completion ID during the stream" None), p)
      else if (negb (bool_decide (PsModel p = "")) && negb (bool_decide (PsModel p = model)))%bool then
        (Err (contractError policy "changed_model" "provider changed model during the stream" None), p)
      else
        let createdAt := time_Unix created in
        if (negb (IsZero (PsCreatedAt p)) && negb (PsCreatedAt p =? createdAt))%bool then
          (Err (contractError policy "changed_created_at" "provider changed creation time during the stream" None), p)
        else
          let p := set_metadata completionID model createdAt p in
          if ((PoResponseRequestIDBody policy || PoStreamRequestIDBody policy) &&
              negb (bool_decide (requestID = "")))%bool then
            if (negb (bool_decide (PsRequestID p = "")) && negb (bool_decide (PsRequestID p = requestID)))%bool then
              (Err (contractError policy "changed_request_id" "provider changed request ID during the stream" None), p)
            else (Ok tt, set_requestID requestID p)
          else (Ok tt, p)
  | None =>
      (Err (contractError policy "incomplete_stream_chunk" "provider stream chunk is missing completion metadata" None), p)
  end.

Definition parseToolDelta (p : chatStreamParser) (choice : Z) (toolCall : wireToolCallDelta) : result Error StreamEvent :=
  if negb (AdTools caps) then
    Err (contractError policy "unexpected_tool_delta" "provider returned unsupported tool call deltas" None)
  else
    let invalid := contractError policy "invalid_tool_delta" "provider returned an invalid tool call delta" None in
    match DlIndex toolCall with
    | None => Err invalid
    | Some index =>
        if ((index <? 0) ||
            (negb (bool_decide (DlType toolCall = "")) && negb (bool_decide (DlType toolCall = "function"))))%bool then
          Err invalid
        else
          Ok (stamp p (event_tool choice
                (mkToolCallDelta index (DlID toolCall) (DlType toolCall) (DlName toolCall) (DlArguments toolCall))))
    end.

Definition parseStreamChoice (p : chatStreamParser) (choice : wireStreamChoice) : result Error (list StreamEvent) :=
  let delta := ScDelta choice in
  match ScIndex choice with
  | None => Err (contractError policy "invalid_stream_choice" "provider stream choice is missing its index" None)
  | Some index =>
      if index <? 0 then
        Err (contractError policy "invalid_stream_choice" "provider stream choice is missing its index" None)
      else
        match ScFinishReason choice ≫= λ reason, PoFinishReasons policy !! reason with
        | Some mapped => Ok [stamp p (event_finish index mapped)]
        | None =>
            let? start :=
              (match SdRole delta with
               | Some role =>
                   if (negb (validRole role) || negb (bool_decide (role = RoleAssistant)))%bool then
                     Err (contractError policy "invalid_stream_role" "provider stream role is invalid" None)
                   else Ok [stamp p (event_start index role)]
               | None => Ok []
               end) in
            let reasoning :=
              match SdReasoningContent delta with
              | Some text => if AdReasoningContent caps then [stamp p (event_reasoning index text)] else []
              | None => []
              end in
            let content := match SdContent delta with Some text => [stamp p (event_content index text)] | None => [] end in
            let? tools := traverse (parseToolDelta p index) (SdToolCalls delta) in
            let events := start ++ reasoning ++ content ++ tools in
            match ScFinishReason choice with
            | None => Ok events
            | Some reason =>
                match parseFinishReason reason with
                | Err providerError => Ok (events ++ [stamp p (event_error index providerError)])
                | Ok finishReason => Ok (events ++ [stamp p (event_finish index finishReason)])
                end
            end
        end
  end.

Definition is_error (e : StreamEvent) : bool := bool_decide (SeType e = StreamErrorEvent).

(** The loop over the choices of a chunk. *)
Fixpoint parseChoices (p : chatStreamParser) (choices : list wireStreamChoice) :
    result Error (list StreamEvent) * chatStreamParser :=
  match choices with
  | [] => (Ok [], p)
  | choice :: choices' =>
      match parseStreamChoice p choice with
      | Err e => (Err e, p)
      | Ok parsed =>
          match parseChoices (set_failed (existsb is_error parsed) p) choices' with
          | (Ok events, p) => (Ok (parsed ++ events), p)
          | r => r
          end
      end
  end.

(** The body of the loop of [parseSSEEvents], for one event. *)
Definition parseSSEEvent (p : chatStreamParser) (sseEvent : SSEEvent) : result Error (list StreamEvent) * chatStreamParser :=
  let data := TrimSpace (String.string_of_list_ascii (Data sseEvent)) in
  if bool_decide (data = "[DONE]") then
    if PsDone p then
      (Err (contractError policy "duplicate_done" "provider sent duplicate stream completion" None), p)
    else (Ok [stamp p (zero_event StreamDone)], set_done p)
  else if PsDone p then
    (Err (contractError policy "data_after_done" "provider sent data after stream completion" None), p)
  else
    match decodeJSON std (decode_chunk pstd) data with
    | Err cause =>
        (Err (contractError policy "malformed_stream_chunk" "provider returned malformed stream JSON" (Some cause)), p)
    | Ok streamChunk =>
        match WkError streamChunk with
        | Some wire =>
            (Ok [event_error 0 (classifyWireError policy 200 None wire (WkRequestID streamChunk))], set_failed true p)
        | None =>
            match acceptMetadata p (WkID streamChunk) (WkRequestID streamChunk) (WkModel streamChunk)
                    (WkCreated streamChunk) with
            | (Err e, p) => (Err e, p)
            | (Ok _, p) =>
                match parseChoices p (WkChoices streamChunk) with
                | (Err e, p) => (Err e, p)
                | (Ok events, p) =>
                    match parseUsage (WkUsage streamChunk) with
                    | Err cause =>
                        (Err (contractError policy "invalid_stream_usage" "provider returned invalid stream usage"
                                (Some cause)), p)
                    | Ok None => (Ok events, p)
                    | Ok (Some usage) => (Ok (events ++ [stamp p (event_usage usage)]), p)
                    end
                end
            end
        end
    end.

Fixpoint parseSSEEvents (p : chatStreamParser) (sseEvents : list SSEEvent) :
    result Error (list StreamEvent) * chatStreamParser :=
  match sseEvents with
  | [] => (Ok [], p)
  | sseEvent :: sseEvents' =>
      match parseSSEEvent p sseEvent with
      | (Err e, p) => (Err e, p)
      | (Ok parsed, p) =>
          match parseSSEEvents p sseEvents' with
          | (Ok events, p) => (Ok (parsed ++ events), p)
          | r => r
          end
      end
  end.

Definition closedError : GoError := OtherError "provider stream parser is closed".

(** The text of a decoder error names the limit of the decoder. *)
Definition sse_error (e : SSEError) : GoError :=
  OtherError match e with
             | ErrClosed => "SSE decoder is closed"
             | ErrLineTooLong => "SSE line exceeds 1048576 bytes"
             | ErrEventTooLong => "SSE event exceeds 1048576 bytes"
             end.

Definition malformed (e : SSEError) : GoError :=
  CanonicalError (contractError policy "malformed_sse" "provider returned malformed SSE" (Some (sse_error e))).

(** The error of [parseSSEEvents] as a Go error. *)
Definition lift_result {A} (r : result Error A) : result GoError A :=
  match r with Ok a => Ok a | Err e => Err (CanonicalError e) end.

Definition parserFeed (p : chatStreamParser) (chunk : string) : result GoError (list StreamEvent) * chatStreamParser :=
  if PsClosed p then (Err closedError, p)
  else if PsDone p then
    if bool_decide (TrimSpace chunk = "") then (Ok [], p)
    else
      (Err (CanonicalError (contractError policy "data_after_done" "provider sent data after stream completion" None)), p)
  else
    match Feed (PsDecoder p) (String.list_ascii_of_string chunk) with
    | (Err e, d) => (Err (malformed e), with_decoder d p)
    | (Ok sseEvents, d) =>
        let '(r, p) := parseSSEEvents (with_decoder d p) sseEvents in (lift_result r, p)
    end.

Definition interrupted (p : chatStreamParser) : StreamEvent :=
  stamp p (event_error 0 (adapter_error policy ErrorStreamInterrupted "stream_ended_before_done"
                            "provider stream ended before completion" "" None)).

Definition parserClose (p : chatStreamParser) : result GoError (list StreamEvent) * chatStreamParser :=
  if PsClosed p then (Err closedError, p)
  else
    let p := set_parser_closed p in
    match Close (PsDecoder p) with
    | (Err e, d) => (Err (malformed e), with_decoder d p)
    | (Ok sseEvents, d) =>
        match parseSSEEvents (with_decoder d p) sseEvents with
        | (Err e, p) => (Err (CanonicalError e), p)
        | (Ok events, p) =>
            (Ok (if (negb (PsDone p) && negb (PsFailed p))%bool then events ++ [interrupted p] else events), p)
        end
    end.
End response.
