(* ===== verification/ProviderCatalog.v ===== *)
(** * Capabilities between catalogue, registry and adapter

    Models [ModelCapabilitiesFromProfile] and [AdapterCapabilities] of
    [src/internal/registry/types.go]: the conversion of a catalogue profile into
    the persisted model contract and back into what an adapter is built with. *)

From S2P Require Import Prelude GoStrings Canonical Capabilities Wire.

Local Open Scope Z_scope.

(** Go's string types: the constant a string is, or any other. *)
Definition effort_of_string (s : string) : ReasoningEffort :=
  if bool_decide (s = "none") then ReasoningEffortNone
  else if bool_decide (s = "minimal") then ReasoningEffortMinimal
  else if bool_decide (s = "low") then ReasoningEffortLow
  else if bool_decide (s = "medium") then ReasoningEffortMedium
  else if bool_decide (s = "high") then ReasoningEffortHigh
  else if bool_decide (s = "xhigh") then ReasoningEffortXHigh
  else if bool_decide (s = "max") then ReasoningEffortMax
  else ReasoningEffortOther s.

Definition mode_of_string (s : string) : ToolChoiceMode :=
  if bool_decide (s = "none") then ToolChoiceNone
  else if bool_decide (s = "auto") then ToolChoiceAuto
  else if bool_decide (s = "required") then ToolChoiceRequired
  else if bool_decide (s = "function") then ToolChoiceFunction
  else ToolChoiceOther s.

Definition ModelCapabilitiesFromProfile (profile : ModelProfile) : ModelCapabilities :=
  let c := PfCapabilities profile in
  let reasoningMode :=
    if AdReasoningAlwaysOn c then ReasoningAlwaysOnMode
    else if (AdReasoningToggle c && AdReasoningEffort c)%bool then ReasoningHybrid
    else if AdReasoningToggle c then ReasoningToggle
    else if AdReasoningEffort c then ReasoningEffortMode
    else ReasoningModeOther "" in
  let toolChoice :=
    (if AdToolChoiceNone c then ["none"] else []) ++ (if AdToolChoiceAuto c then ["auto"] else []) ++
    (if AdToolChoiceRequired c then ["required"] else []) ++ (if AdToolChoiceNamed c then ["function"] else []) in
  {| McChat := AdChat c; McStreaming := AdStreaming c; McTools := AdTools c; McToolChoiceModes := toolChoice;
     McStrictTools := AdStrictTools c; McParallelToolCalls := AdParallelToolCalls c;
     McToolStreaming := AdToolStreaming c; McImageInput := AdImageInput c; McVideoInput := AdVideoInput c;
     McPartialMode := AdPartialMode c;
     McReasoning := (AdReasoningToggle c || AdReasoningAlwaysOn c || AdReasoningEffort c || AdReasoningContent c)%bool;
     McReasoningMode := reasoningMode; McReasoningAlwaysOn := AdReasoningAlwaysOn c;
     McReasoningDefaultEnabled := AdReasoningDefaultEnabled c; McReasoningConfig := AdReasoningConfig c;
     McReasoningContent := AdReasoningContent c; McReasoningPreserve := AdReasoningReplay c;
     McReasoningEfforts := effort_string <$> AdAllowedReasoningEfforts c;
     McToolChoiceModesWithReasoning := mode_string <$> AdToolChoiceModesWithReasoning c;
     McStructuredOutput := AdJSONOutput c; McJSONSchemaOutput := AdJSONSchemaOutput c;
     McMessageName := AdMessageName c; McPromptCacheKey := AdPromptCacheKey c;
     McSafetyIdentifier := AdSafetyIdentifier c; McResponseUsage := AdResponseUsage c;
     McStreamUsage := AdStreamUsage c; McContextTokens := PfContextTokens profile;
     McOutputTokens := PfOutputTokens profile; McParameters := AdParameters c |}.

Definition has_mode (c : ModelCapabilities) (mode : string) : bool := existsb (String.eqb mode) (McToolChoiceModes c).

Definition AdapterCapabilities (c : ModelCapabilities) : AdapterCaps :=
  {| AdChat := McChat c; AdModels := true; AdResponses := false; AdStreaming := McStreaming c; AdTools := McTools c;
     AdToolStreaming := McToolStreaming c; AdToolChoiceNone := has_mode c "none"; AdToolChoiceAuto := has_mode c "auto";
     AdToolChoiceRequired := has_mode c "required"; AdToolChoiceNamed := has_mode c "function";
     AdParallelToolCalls := McParallelToolCalls c; AdStrictTools := McStrictTools c; AdImageInput := McImageInput c;
     AdVideoInput := McVideoInput c; AdPartialMode := McPartialMode c; AdJSONOutput := McStructuredOutput c;
     AdJSONSchemaOutput := McJSONSchemaOutput c; AdMessageName := McMessageName c; AdPromptCacheKey := McPromptCacheKey c;
     AdSafetyIdentifier := McSafetyIdentifier c;
     AdReasoningToggle :=
       (bool_decide (McReasoningMode c = ReasoningToggle) || bool_decide (McReasoningMode c = ReasoningHybrid))%bool;
     AdReasoningAlwaysOn := McReasoningAlwaysOn c; AdReasoningDefaultEnabled := McReasoningDefaultEnabled c;
     AdReasoningConfig := McReasoningConfig c;
     AdReasoningEffort :=
       (bool_decide (McReasoningMode c = ReasoningEffortMode) || bool_decide (McReasoningMode c = ReasoningHybrid) ||
        (0 <? Z.of_nat (length (McReasoningEfforts c))))%bool;
     AdReasoningContent := McReasoningContent c; AdReasoningReplay := McReasoningPreserve c;
     AdAllowedReasoningEfforts := effort_of_string <$> McReasoningEfforts c;
     AdToolChoiceModesWithReasoning := mode_of_string <$> McToolChoiceModesWithReasoning c;
     AdParameters := McParameters c; AdResponseUsage := McResponseUsage c; AdStreamUsage := McStreamUsage c;
     AdResponseRequestID := false |}.

(** ** Facts about the string types *)

Lemma mode_string_of s : mode_string (mode_of_string s) = s.
Proof. unfold mode_of_string. by repeat case_bool_decide. Qed.

Lemma effort_string_of s : effort_string (effort_of_string s) = s.
Proof. unfold effort_of_string. by repeat case_bool_decide. Qed.

(** A profile whose facts the persisted contract can hold. *)
Record storable (c : AdapterCaps) : Prop := {
  st_models : AdModels c = true;
  st_responses : AdResponses c = false;
  st_toggle : AdReasoningAlwaysOn c = true -> AdReasoningToggle c = false;
  st_effort_on : AdReasoningAlwaysOn c = true -> AdReasoningEffort c = true -> AdAllowedReasoningEfforts c <> [];
  st_effort_off : AdReasoningEffort c = false -> AdAllowedReasoningEfforts c = [];
  st_efforts : Forall (λ e, effort_of_string (effort_string e) = e) (AdAllowedReasoningEfforts c);
  st_modes : Forall (λ m, mode_of_string (mode_string m) = m) (AdToolChoiceModesWithReasoning c);
}.

Lemma fmap_id_forall {A} (f : A -> A) l : Forall (λ x, f x = x) l -> f <$> l = l.
Proof. induction 1 as [|x l Hx _ IH]; [done|]. rewrite fmap_cons. by rewrite Hx, IH. Qed.

Lemma storable_roundtrip profile :
  storable (PfCapabilities profile) ->
  AdapterCapabilities (ModelCapabilitiesFromProfile profile) =
  with_ResponseRequestID false (PfCapabilities profile).
Proof.
  destruct profile as [name c context output]. cbn [PfCapabilities]. intros [Hm Hr Ht Hon Hoff He Hmo].
  unfold AdapterCapabilities, ModelCapabilitiesFromProfile, has_mode, with_ResponseRequestID. cbn [PfCapabilities].
  destruct c as [chat models responses streaming tools tstream cnone cauto creq cnamed parallel strict image video
    partial json schema mname cache safety toggle always default config effort content replay efforts modes params
    usage susage rid].
  cbn in Hm, Hr, Ht, Hon, Hoff, He, Hmo. subst.
  cbn -[fmap length effort_string effort_of_string mode_string mode_of_string Z.ltb Z.of_nat existsb app].
  rewrite <- !list_fmap_compose, length_fmap. f_equal; [by destruct cnone, cauto, creq, cnamed..| | | |].
  - destruct always; [by rewrite Ht|]. by destruct toggle, effort.
  - destruct always, toggle, effort; try done; try (by specialize (Ht eq_refl)); simpl;
      try (by rewrite Hoff). by destruct efforts; [destruct (Hon eq_refl eq_refl)|].
  - by apply fmap_id_forall.
  - by apply fmap_id_forall.
Qed.
