(* ===== verification/ProviderProps.v ===== *)
(** * What the provider adapters guarantee

    Theorems about [Wire], [ProviderRequest] and [ProviderCatalog]: how errors
    are classified, that the catalogue's facts survive being stored, and that
    a request the gateway has validated can be put on the provider's wire. *)

From S2P Require Import Prelude GoStrings Canonical Capabilities CapabilitiesProps.
From S2P Require Import Wire ProviderRequest ProviderCatalog Effects Monitor.

Local Open Scope Z_scope.

(** ** Classification *)

Definition classified_kind (kind : ErrorKind) : bool :=
  match kind with
  | ErrorInvalidRequest | ErrorAuthentication | ErrorPermission | ErrorQuota | ErrorRateLimit
  | ErrorUnsupportedCapability | ErrorProviderConfiguration | ErrorProviderTemporary | ErrorProviderPermanent => true
  | _ => false
  end.

Lemma classifyHTTPError_kind status e : classified_kind (classifyHTTPError status e) = true.
Proof. unfold classifyHTTPError. by repeat case_match. Qed.

Lemma classifyZhipuError_kind status e : classified_kind (classifyZhipuError status e) = true.
Proof. unfold classifyZhipuError. cbv zeta. repeat (destruct (one_of _ _); [done|]). apply classifyHTTPError_kind. Qed.

Lemma classified_reported (e : Error) : classified_kind (Kind e) = true -> reported e.
Proof. unfold reported. by destruct (Kind e). Qed.

(** What [Build] puts into a policy. *)
Record built (std : Std) (kind : ProviderKind) (caps : AdapterCaps) (policy : wirePolicy) : Prop := {
  bu_kind : PoKind policy = kind;
  bu_caps : PoCapabilities policy = caps;
  bu_classify : PoClassify policy = match kind with KindZhipu => classifyZhipuError | _ => classifyHTTPError end;
  bu_retry : PoRetryAfter policy = standardRetryAfter std;
  bu_replay : PoReplaySafe policy = None;
  bu_efforts : PoAllowedReasoningEfforts policy = None;
  bu_sampling : PoRejectSamplingWithReasoning policy = false;
  bu_reasoning : PoReasoning policy = match kind with
    | KindSiliconFlow => reasoningWireStandard | KindZhipu => reasoningWireZhipu
    | KindAgnes => reasoningWireAgnes | KindKimi => reasoningWireKimi end;
}.

Lemma newAdapter_policy std url policy policy' : newAdapter std url policy = Ok policy' -> policy' = policy.
Proof. unfold newAdapter. repeat case_match; congruence. Qed.

Lemma Build_makes std kind url caps policy : Build std kind url caps = Ok policy -> built std kind caps policy.
Proof.
  unfold Build, NewSiliconFlow. destruct kind; [repeat (case_match; [done|])|..]; intros ->%newAdapter_policy; by split.
Qed.

Section classify.
Context (std : Std) (kind : ProviderKind) (caps : AdapterCaps) (policy : wirePolicy) (Hb : built std kind caps policy).

Lemma classify_kind status e : classified_kind (PoClassify policy status e) = true.
Proof using Hb.
  rewrite (bu_classify _ _ _ _ Hb). destruct kind; (apply classifyZhipuError_kind || apply classifyHTTPError_kind).
Qed.

Lemma classifyWireError_facts status headers wire requestID :
  let e := classifyWireError policy status headers wire requestID in
  classified_kind (Kind e) = true /\ ReplaySafe e = explicitRejectionReplaySafe (Kind e) /\ HTTPStatus e = status /\
  Provider e = kind_string kind /\ Kind e = PoClassify policy status (Some wire).
Proof using Hb.
  unfold classifyWireError. rewrite (bu_replay _ _ _ _ Hb). cbv zeta. cbn [Kind ReplaySafe HTTPStatus Provider].
  rewrite (bu_kind _ _ _ _ Hb). split; [apply classify_kind|done].
Qed.

Lemma ClassifyError_facts status headers body :
  let e := Wire.ClassifyError std policy status headers body in
  classified_kind (Kind e) = true /\ HTTPStatus e = status /\ Provider e = kind_string kind /\
  (ReplaySafe e = true -> explicitRejectionReplaySafe (Kind e) = true) /\
  exists wire, Kind e = PoClassify policy status wire.
Proof using Hb.
  unfold Wire.ClassifyError. destruct (decodeJSON _ _ _) as [envelope|]; cbv zeta.
  - match goal with |- context [classifyWireError ?p ?s ?h ?w ?r] =>
      destruct (classifyWireError_facts s h w r) as (H1 & H2 & H3 & H4 & H5) end.
    rewrite H2. eauto 10.
  - cbn [Kind ReplaySafe HTTPStatus Provider]. rewrite (bu_kind _ _ _ _ Hb).
    split; [apply classify_kind|]. split; [done|]. split; [done|]. split; [done|]. by exists None.
Qed.

Lemma server_error_temporary status wire :
  kind <> KindZhipu -> 500 <= status -> PoClassify policy status wire = ErrorProviderTemporary.
Proof using Hb.
  intros Hz Hs. rewrite (bu_classify _ _ _ _ Hb).
  assert (classifyHTTPError status wire = ErrorProviderTemporary) as H; [|by destruct kind].
  unfold classifyHTTPError. repeat match goal with |- context [?a =? ?b] => replace (a =? b) with false by lia end.
  simpl. by replace (500 <=? status) with true by lia.
Qed.
End classify.

(** The error an adapter makes of a provider's answer names the provider
    and the status, never claims what only the workflow can know (an uncertain
    outcome, a broken stream), and is marked safe to replay only when the
    provider turned the request away (authentication, permission, quota or
    rate limit); outside Zhipu a server error never is. *)
Theorem classification_lawful std kind url caps policy status headers body :
  Build std kind url caps = Ok policy ->
  let e := Wire.ClassifyError std policy status headers body in
  reported e /\ HTTPStatus e = status /\ Provider e = kind_string kind /\
  (ReplaySafe e = true -> Kind e ∈ [ErrorAuthentication; ErrorPermission; ErrorQuota; ErrorRateLimit]) /\
  (kind <> KindZhipu -> 500 <= status -> Kind e = ErrorProviderTemporary /\ ReplaySafe e = false).
Proof.
  intros Hb%Build_makes e. destruct (ClassifyError_facts std kind caps policy Hb status headers body)
    as (H1 & H2 & H3 & H4 & wire & H5). fold e in H1, H2, H3, H4, H5.
  split; [by apply classified_reported|]. split; [done|]. split; [done|]. split.
  - intros Hr%H4. destruct (Kind e); simpl in Hr; try done; set_solver.
  - intros Hz Hs. rewrite (server_error_temporary std kind caps policy Hb status wire Hz Hs) in H5.
    split; [done|]. destruct (ReplaySafe e); [|done]. specialize (H4 eq_refl). by rewrite H5 in H4.
Qed.

(** ** Stored capabilities *)

Lemma catalog_storable kind profile : profile ∈ catalogModels kind -> storable (PfCapabilities profile).
Proof.
  assert (Forall (λ p, storable (PfCapabilities p)) (catalogModels kind)) as H.
  { destruct kind; repeat (apply Forall_cons; split); try apply Forall_nil_2; split; try done;
      by repeat constructor. }
  rewrite Forall_forall in H. apply H.
Qed.

Lemma catalog_valid kind : validateModelProfiles (catalogModels kind) = true.
Proof. destruct kind; vm_compute; reflexivity. Qed.

(** The catalogue's facts survive being stored: turning a profile of the
    catalogue into the persisted model contract and back gives the adapter
    exactly the profile's capabilities, the request-ID note apart, and every
    profile of the catalogue is found by its name. *)
Theorem catalog_roundtrip kind profile :
  profile ∈ catalogModels kind ->
  AdapterCapabilities (ModelCapabilitiesFromProfile profile) = with_ResponseRequestID false (PfCapabilities profile) /\
  profileOf kind (PfUpstreamName profile) = Some profile.
Proof.
  intros Hin. split; [by apply storable_roundtrip, (catalog_storable kind)|].
  assert (Forall (λ p, profileOf kind (PfUpstreamName p) = Some p) (catalogModels kind)) as H.
  { destruct kind; repeat (apply Forall_cons; split); try apply Forall_nil_2; reflexivity. }
  rewrite Forall_forall in H. by apply H.
Qed.

Lemma catalog_roundtrip_witness :
  AdapterCapabilities (ModelCapabilitiesFromProfile kimiK26Model) = kimiK26Capabilities.
Proof. refine (proj1 (catalog_roundtrip KindKimi kimiK26Model _)). apply list_elem_of_In. simpl. tauto. Defined.

(** ** Refused requests *)

(** How an adapter refuses to encode a request: by its own fault or the
    caller's, never as an answer of the upstream, never safe to replay. *)
Definition refusal (policy : wirePolicy) (e : Error) : Prop :=
  Kind e ∈ [ErrorInvalidRequest; ErrorUnsupportedCapability; ErrorProviderConfiguration; ErrorInternalInvariant] /\
  ReplaySafe e = false /\ HTTPStatus e = 0 /\ Provider e = kind_string (PoKind policy) /\ Cause e = None.

Section refusals.
Context (rstd : RequestStd) (policy : wirePolicy).

Lemma requestError_refusal kind code message parameter :
  kind ∈ [ErrorInvalidRequest; ErrorUnsupportedCapability; ErrorProviderConfiguration; ErrorInternalInvariant] ->
  refusal policy (requestError policy kind code message parameter).
Proof. by split. Qed.

Ltac refuse := apply requestError_refusal; set_solver.
Ltac refused := intros [= <-]; refuse.

Lemma encode_calls_refusal message index calls e : encode_calls policy message index calls = Err e -> refusal policy e.
Proof.
  revert index. induction calls as [|call calls IH]; intros index; simpl; [done|].
  destruct (_ || _)%bool; [refused|]. destruct (negb _); [refused|].
  destruct (encode_calls policy message (N.succ index) calls) eqn:He; [done|]. intros [= <-]. by eapply IH.
Qed.

Lemma encodeMessage_refusal index m e : encodeMessage rstd policy index m = Err e -> refusal policy e.
Proof.
  unfold encodeMessage, encodeToolCalls.
  repeat (match goal with |- (if ?b then _ else _) = _ -> _ => destruct b; [refused|] end).
  destruct (encodeContent _ _ _ _ _); [|refused].
  repeat (match goal with |- (if ?b then _ else _) = _ -> _ => destruct b; [refused|] end).
  destruct (MsToolCalls m) as [|call calls]; [done|]. destruct (negb _); [refused|].
  destruct (encode_calls _ _ _ _) eqn:He; [done|]. intros [= <-]. by eapply encode_calls_refusal.
Qed.

Lemma encode_messages_refusal index ms e : encode_messages rstd policy index ms = Err e -> refusal policy e.
Proof.
  revert index. induction ms as [|m ms IH]; intros index; simpl; [done|].
  destruct (encodeMessage rstd policy index m) eqn:H1; [|intros [= <-]; by eapply encodeMessage_refusal].
  destruct (encode_messages rstd policy (N.succ index) ms) eqn:H2; [done|]. intros [= <-]. by eapply IH.
Qed.

Lemma encodeTools_refusal tools e : encodeTools rstd policy tools = Err e -> refusal policy e.
Proof.
  unfold encodeTools. destruct tools as [|t ts]; [done|]. destruct (negb _); [refused|]. destruct (_ && _)%bool; [refused|].
  generalize 0%N (t :: ts). clear. intros index tools. revert index.
  induction tools as [|tool tools IH]; intros index; simpl; [done|].
  destruct (encodeTool rstd policy index tool) as [w|e1] eqn:H1.
  - destruct (encode_tools rstd policy (N.succ index) tools) eqn:H2; [done|]. intros [= <-]. by eapply IH.
  - intros [= <-]. revert H1. unfold encodeTool. cbv zeta. repeat case_match; try done; refused.
Qed.

Lemma encodeToolChoice_refusal choice count e : encodeToolChoice policy choice count = Err e -> refusal policy e.
Proof. unfold encodeToolChoice. cbv zeta. repeat case_match; try done; refused. Qed.

Lemma validateInteger_refusal parameter value limit e :
  validateInteger policy parameter value limit = Some e -> refusal policy e.
Proof. unfold validateInteger, out_of_range. repeat case_match; try done; refused. Qed.

Lemma validateNumber_refusal parameter value limit e :
  validateNumber policy parameter value limit = Some e -> refusal policy e.
Proof. unfold validateNumber, out_of_range. repeat case_match; try done; refused. Qed.

Lemma validateCondition_refusal r s e : validateCondition policy r s = Some e -> refusal policy e.
Proof.
  unfold validateCondition, condition_violation.
  repeat match goal with |- (if ?b then _ else _) = _ -> _ => destruct b; [first [done|refused]|] end. done.
Qed.

Lemma replay_refusal index ms e : replay_missing policy index ms = Some e -> refusal policy e.
Proof.
  revert index. induction ms as [|m ms IH]; intros index; simpl; [done|]. destruct (_ && _)%bool; [refused|apply IH].
Qed.

Lemma validateParameters_refusal r e : validateParameters policy r = Some e -> refusal policy e.
Proof.
  unfold validateParameters. intros H%first_failure_some. revert H. rewrite !elem_of_cons, elem_of_nil.
  intros H. repeat destruct H as [H|H]; try done; symmetry in H;
    first [by eapply validateInteger_refusal|by eapply validateNumber_refusal|idtac].
  - revert H. unfold validateReasoningReplay. destruct (negb _); [done|]. apply replay_refusal.
  - revert H. apply first_failure_fmap_some. intros s. apply validateCondition_refusal.
  - revert H. destruct (_ && _)%bool; [refused|done].
  - revert H. destruct (existsb _ _); [refused|done].
  - revert H. repeat case_match; try done; refused.
  - revert H. destruct (_ && _)%bool; [refused|done].
  - revert H. destruct (ToolChoice_ r); [|done]. destruct (_ && _)%bool; [refused|done].
  - revert H. destruct (_ && _)%bool; [refused|done].
  - revert H. destruct (_ && _)%bool; [refused|done].
  - revert H. destruct (_ && _)%bool; [refused|done].
  - revert H. destruct (_ && _)%bool; [refused|done].
Qed.

Lemma encodeReasoning_refusal reasoning e : encodeReasoning policy reasoning = Err e -> refusal policy e.
Proof.
  unfold encodeReasoning, checkReasoning. destruct reasoning as [cfg|]; [|done]. cbv zeta.
  repeat match goal with |- context [if ?b then Some _ else _] => destruct b; [refused|] end.
  repeat case_match; try done; refused.
Qed.

#[local] Hint Resolve encode_messages_refusal encodeTools_refusal encodeToolChoice_refusal validateParameters_refusal
  encodeReasoning_refusal : go.

Lemma BuildRequest_refusal apiKey r e : ProviderRequest.BuildRequest rstd policy apiKey r = Err e -> refusal policy e.
Proof.
  unfold ProviderRequest.BuildRequest, buildWireRequest. destruct (bool_decide _); [refused|].
  destruct (bool_decide (TrimSpace (CrModel r) = "")); [refused|]. destruct (bool_decide (length _ = _)); [refused|].
  destruct (Stream_ r && _)%bool; [refused|].
  destruct (encodeMessages rstd policy _) eqn:H1; [|intros [= <-]; eauto with go].
  destruct (encodeTools rstd policy _) eqn:H2; [|intros [= <-]; eauto with go].
  destruct (encodeToolChoice policy _ _) eqn:H3; [|intros [= <-]; eauto with go].
  destruct (validateParameters policy r) eqn:H4; [intros [= <-]; eauto with go|].
  cbv zeta. destruct (encodeReasoning policy _) eqn:H5; [|intros [= <-]; eauto with go].
  destruct (marshal _ _); [|refused]. destruct (new_request _ _); [refused|done].
Qed.
End refusals.

(** ** Concrete answers *)

Definition classify_std : Std :=
  mkStd (λ body, if bool_decide (body = "quota") then Ok (mkWireErrorEnvelope None "out of credit" "" "" "1113" "r1", "")
                 else Err (OtherError "invalid character"))
    (λ _, None) (λ _, None) (λ _, Ok (mkParsedURL "https" "open.bigmodel.cn" false false "" "")).

Lemma classification_lawful_witness :
  let policy := zhipuPolicy classify_std zhipuCapabilities in
  Kind (Wire.ClassifyError classify_std policy 500 None "quota") = ErrorQuota /\
  ReplaySafe (Wire.ClassifyError classify_std policy 500 None "quota") = true /\
  reported (Wire.ClassifyError classify_std policy 500 None "quota").
Proof.
  split; [vm_compute; reflexivity|]. split; [vm_compute; reflexivity|].
  exact (proj1 (classification_lawful classify_std KindZhipu "https://open.bigmodel.cn" zhipuCapabilities _ 500 None "quota"
                  eq_refl)).
Defined.
