(* ===== verification/ProviderStreamProps.v ===== *)
(** * What the stream parser promises

    Theorems about [ProviderResponse]: the parser reads exactly the events of
    the whole stream however it is cut, ends it once, and keeps one identity. *)

From S2P Require Import Prelude GoStrings Sse SseProps Canonical Capabilities Wire ProviderRequest ProviderResponse ProviderProps.

Local Open Scope Z_scope.

(** Every chunk in turn, up to the first error. *)
Fixpoint feedAll (std : Std) (pstd : ResponseStd) (policy : wirePolicy) (p : chatStreamParser) (chunks : list string) :
    result GoError (list StreamEvent) * chatStreamParser :=
  match chunks with
  | [] => (Ok [], p)
  | chunk :: chunks' =>
      match parserFeed std pstd policy p chunk with
      | (Err e, p) => (Err e, p)
      | (Ok events, p) =>
          match feedAll std pstd policy p chunks' with
          | (Ok events', p) => (Ok (events ++ events'), p)
          | r => r
          end
      end
  end.

(** A whole response body: its chunks, then the end. *)
Definition parseAll (std : Std) (pstd : ResponseStd) (policy : wirePolicy) (chunks : list string) :
    result GoError (list StreamEvent) :=
  match feedAll std pstd policy ParseStream chunks with
  | (Err e, _) => Err e
  | (Ok events, p) => let? last := (parserClose std pstd policy p).1 in Ok (events ++ last)
  end.

(** JSON numbers decoded into an [int64] are one. *)
Class LawfulDecode (pstd : ResponseStd) : Prop :=
  created_int64 body chunk rest created :
    decode_chunk pstd body = Ok (chunk, rest) -> WkCreated chunk = Some created -> int64_ok created.

Lemma time_Unix_nonzero sec : int64_ok sec -> 0 <= sec -> time_Unix sec <> 0.
Proof.
  unfold int64_ok, min_int64, max_int64, time_Unix, wrap64. intros H H0 Heq.
  apply Z.mul_eq_0 in Heq as [Heq|Heq]; [|done].
  destruct (Z.lt_ge_cases (sec + 62135596800) (2 ^ 63)) as [Hlt|Hge].
  - rewrite Z.mod_small in Heq; lia.
  - replace (sec + 62135596800 + 2 ^ 63) with ((sec + 62135596800 - 2 ^ 63) + 1 * 2 ^ 64) in Heq by lia.
    rewrite Z.mod_add, Z.mod_small in Heq; lia.
Qed.

Section parser.
Context (std : Std) (pstd : ResponseStd) (policy : wirePolicy).

Abbreviation parse1 := (parseSSEEvent std pstd policy).
Abbreviation parse := (parseSSEEvents std pstd policy).

(** ** The decoder plays no part in reading events *)

Definition frame (d : SSEDecoder) (c : bool) (p : chatStreamParser) : chatStreamParser :=
  mkParser d (PsDone p) (PsFailed p) c (PsCompletionID p) (PsRequestID p) (PsModel p) (PsCreatedAt p).

Lemma parseChoices_frame d c p choices :
  parseChoices policy (frame d c p) choices = let '(r, p') := parseChoices policy p choices in (r, frame d c p').
Proof.
  revert p. induction choices as [|choice choices IH]; intros p; simpl; [done|].
  change (parseStreamChoice policy (frame d c p) choice) with (parseStreamChoice policy p choice).
  destruct (parseStreamChoice policy p choice) as [parsed|e]; [|done].
  change (set_failed (existsb is_error parsed) (frame d c p)) with (frame d c (set_failed (existsb is_error parsed) p)).
  rewrite IH. by destruct (parseChoices policy (set_failed (existsb is_error parsed) p) choices) as [[?|?] ?].
Qed.

Lemma acceptMetadata_frame d c p id request model created :
  acceptMetadata policy (frame d c p) id request model created =
  let '(r, p') := acceptMetadata policy p id request model created in (r, frame d c p').
Proof.
  unfold acceptMetadata. destruct created as [x|]; [|done].
  cbn [frame PsCompletionID PsModel PsCreatedAt PsRequestID set_metadata]. repeat (case_match; try done).
Qed.

Lemma parse1_frame d c p e : parse1 (frame d c p) e = let '(r, p') := parse1 p e in (r, frame d c p').
Proof.
  unfold parseSSEEvent. cbv zeta. destruct (bool_decide _); [cbn [PsDone frame]; by destruct (PsDone p)|].
  cbn [PsDone frame]. destruct (PsDone p); [done|].
  destruct (decodeJSON _ _ _) as [chunk|]; [|done]. destruct (WkError chunk); [done|].
  rewrite acceptMetadata_frame. destruct (acceptMetadata _ p _ _ _ _) as [[?|?] q]; [|done].
  rewrite parseChoices_frame. destruct (parseChoices _ q _) as [[?|?] q']; [|done].
  by destruct (parseUsage _) as [[?|]|].
Qed.

Lemma parse_frame d c p es : parse (frame d c p) es = let '(r, p') := parse p es in (r, frame d c p').
Proof.
  revert p. induction es as [|e es IH]; intros p; simpl; [done|]. rewrite parse1_frame.
  destruct (parse1 p e) as [[?|?] q]; [|done]. rewrite IH. by destruct (parse q es) as [[?|?] ?].
Qed.

Lemma parse_closed p es : PsClosed (parse p es).2 = PsClosed p.
Proof.
  pose proof (parse_frame (PsDecoder p) (PsClosed p) p es) as H.
  replace (frame (PsDecoder p) (PsClosed p) p) with p in H by (by destruct p).
  destruct (parse p es) as [r q]. injection H as H. simpl. rewrite H. done.
Qed.

Lemma parse_app p es es' :
  parse p (es ++ es') =
  match parse p es with
  | (Ok out, p') => match parse p' es' with (Ok out', p'') => (Ok (out ++ out'), p'') | r => r end
  | r => r
  end.
Proof.
  revert p. induction es as [|e es IH]; intros p; simpl; [by destruct (parse p es') as [[?|?] ?]|].
  destruct (parse1 p e) as [[out|?] q]; [|done]. rewrite IH.
  destruct (parse q es) as [[?|?] q']; [|done]. destruct (parse q' es') as [[?|?] ?]; [|done]. by rewrite app_assoc.
Qed.

(** ** Feeding follows the decoder *)

Abbreviation bytes_of := (fmap (M := list) String.list_ascii_of_string).

(** After the end of the stream only blank chunks are accepted, and they add
    nothing. *)
Lemma feedAll_done p chunks out p' :
  PsDone p = true -> feedAll std pstd policy p chunks = (Ok out, p') ->
  out = [] /\ p' = p /\ Forall (λ c, TrimSpace c = "") chunks.
Proof.
  intros Hd. revert out p'. induction chunks as [|chunk chunks IH]; intros out p'; simpl; [by intros [= <- <-]|].
  unfold parserFeed. rewrite Hd. destruct (PsClosed p); [done|]. case_bool_decide as Hb; [|done].
  destruct (feedAll std pstd policy p chunks) as [[out'|?] q]; [|done]. intros [= <- <-].
  destruct (IH out' q eq_refl) as (-> & -> & Hall). split; [done|]. split; [done|]. by constructor.
Qed.

Lemma feedAll_follows p chunks out p' :
  PsDone p = false -> PsClosed p = false -> feedAll std pstd policy p chunks = (Ok out, p') ->
  exists pre post es d q,
    chunks = pre ++ post /\ feeds (PsDecoder p) (bytes_of pre) = (Ok es, d) /\ parse p es = (Ok out, q) /\
    p' = frame d false q /\ Forall (λ c, TrimSpace c = "") post /\ (post = [] \/ PsDone q = true).
Proof.
  revert p out p'. induction chunks as [|chunk chunks IH]; intros p out p' Hd Hc; simpl.
  { intros [= <- <-]. exists [], [], [], (PsDecoder p), p. repeat split; try done; [|by left]. destruct p. simpl in *. by subst. }
  unfold parserFeed at 1. rewrite Hd, Hc. destruct (Feed _ _) as [[es|?] d] eqn:Hf; [|done].
  change (with_decoder d p) with (frame d (PsClosed p) p). rewrite parse_frame, Hc.
  pose proof (parse_closed p es) as Hcl. rewrite Hc in Hcl.
  destruct (parse p es) as [[out1|?] q] eqn:Hq; [|done]. cbn [lift_result]. simpl in Hcl.
  destruct (feedAll std pstd policy (frame d false q) chunks) as [[out2|?] q2] eqn:Hrest; [|done].
  intros [= <- <-]. destruct (PsDone q) eqn:Hdone.
  - destruct (feedAll_done (frame d false q) chunks out2 q2) as (-> & -> & Hall); [done|done|].
    exists [chunk], chunks, es, d, q. simpl. rewrite Hf, !app_nil_r. auto 10.
  - destruct (IH (frame d false q) out2 q2) as (pre & post & es2 & d2 & q' & -> & Hfs & Hp & -> & Hpost & Hor); [done|done|done|].
    exists (chunk :: pre), post, (es ++ es2), d2. rewrite parse_frame in Hp.
    destruct (parse q es2) as [r2 q3] eqn:Hq3. injection Hp as -> <-. exists q3.
    rewrite fmap_cons. cbn [feeds app]. rewrite Hf. cbn [PsDecoder frame] in Hfs. rewrite Hfs, parse_app, Hq, Hq3. auto 10.
Qed.

(** The reference: the whole stream's events, and the interruption when the
    stream has neither ended nor failed. *)
Definition terminal (p : chatStreamParser) : list StreamEvent :=
  if (negb (PsDone p) && negb (PsFailed p))%bool then [interrupted policy p] else [].

Lemma parseAll_reads chunks out :
  parseAll std pstd policy chunks = Ok out ->
  exists pre post evs q,
    chunks = pre ++ post /\ Forall (λ c, TrimSpace c = "") post /\ (post = [] \/ PsDone q = true) /\
    parse ParseStream (stream_events (concat (bytes_of pre))) = (Ok evs, q) /\ out = evs ++ terminal q.
Proof.
  unfold parseAll. destruct (feedAll _ _ _ _ _) as [[fed|?] p1] eqn:Hf; [|done].
  destruct (feedAll_follows ParseStream chunks fed p1) as (pre & post & es & d & q & -> & Hfs & Hp & -> & Hpost & Hor);
    [done..|].
  unfold parserClose. cbn [PsClosed frame set_parser_closed PsDecoder].
  destruct (Close d) as [[es'|?] d'] eqn:Hc; [|done].
  change (with_decoder d' (set_parser_closed (frame d false q))) with (frame d' true q). rewrite parse_frame.
  destruct (parse q es') as [[out'|?] q'] eqn:Hq'; [|done]. cbn [fst]. intros [= <-].
  destruct (decode_agrees DefaultMaxSSEEventBytes (bytes_of pre)) as [Hdec _].
  specialize (Hdec (es ++ es')). unfold decode in Hdec. cbn [PsDecoder ParseStream] in Hfs. rewrite Hfs in Hdec.
  rewrite Hc in Hdec. cbn [fst] in Hdec. specialize (Hdec eq_refl).
  exists pre, post, (fed ++ out'), q'. rewrite <- Hdec, parse_app, Hp, Hq'. split; [done|]. split; [done|]. split.
  { destruct Hor as [->|Hd]; [by left|]. right.
    (* once ended, an event would be an error: there is none *)
    destruct es' as [|e es']; [by simplify_eq/=|]. simpl in Hq'. unfold parseSSEEvent in Hq'. rewrite Hd in Hq'.
    by destruct (bool_decide _). }
  split; [done|]. unfold terminal. cbn [PsDone PsFailed frame].
  destruct (negb (PsDone q') && negb (PsFailed q'))%bool; [by rewrite app_assoc|by rewrite app_nil_r].
Qed.

(** ** Well-formed streams are accepted *)

(** Once a stream has ended, any further event is refused. *)
Lemma parse_after_done p es out q : PsDone p = true -> parse p es = (Ok out, q) -> es = [] /\ q = p.
Proof.
  intros Hd. destruct es as [|e es]; simpl; [by intros [= _ <-]|].
  unfold parseSSEEvent. rewrite Hd. by destruct (bool_decide _).
Qed.

Lemma parserFeed_step p chunk es d :
  PsDone p = false -> PsClosed p = false -> Feed (PsDecoder p) (String.list_ascii_of_string chunk) = (Ok es, d) ->
  parserFeed std pstd policy p chunk =
  let '(r, q) := parse p es in (lift_result r, frame d false q).
Proof.
  intros Hd Hc Hf. unfold parserFeed. rewrite Hd, Hc, Hf.
  change (with_decoder d p) with (frame d (PsClosed p) p). rewrite parse_frame, Hc. by destruct (parse p es).
Qed.

Lemma feedAll_forward p chunks es d out q :
  PsDone p = false -> PsClosed p = false -> feeds (PsDecoder p) (bytes_of chunks) = (Ok es, d) ->
  parse p es = (Ok out, q) -> PsDone q = false ->
  feedAll std pstd policy p chunks = (Ok out, frame d false q).
Proof.
  revert p es out q. induction chunks as [|chunk chunks IH]; intros p es out q Hd Hc.
  { intros [= <- <-] [= <- <-] _. simpl. f_equal. destruct p. simpl in *. by subst. }
  rewrite fmap_cons. cbn [feeds feedAll].
  destruct (Feed (PsDecoder p) (String.list_ascii_of_string chunk)) as [[es1|] d1] eqn:Hf; [|done].
  destruct (feeds d1 _) as [[es2|] d2] eqn:Hfs; [|done]. intros [= <- <-]. rewrite parse_app.
  rewrite (parserFeed_step p chunk es1 d1 Hd Hc Hf).
  destruct (parse p es1) as [[out1|] q1] eqn:H1; [|done]. cbn [lift_result].
  destruct (parse q1 es2) as [[out2|] q2] eqn:H2; [|done]. intros [= <- <-] Hd2.
  assert (Hd1 : PsDone q1 = false).
  { destruct (PsDone q1) eqn:Hd1; [|done]. apply parse_after_done in H2 as [-> ->]; congruence. }
  pose proof (λ q, IH (frame d1 false q1) es2 out2 q Hd1 eq_refl Hfs) as Hx. rewrite parse_frame, H2 in Hx.
  by rewrite (Hx _ eq_refl Hd2).
Qed.

Lemma feeds_app d chunks chunk :
  feeds d (chunks ++ [chunk]) =
  match feeds d chunks with
  | (Ok es, d') => match Feed d' chunk with (Ok es', d'') => (Ok (es ++ es'), d'') | r => r end
  | r => r
  end.
Proof.
  revert d. induction chunks as [|c chunks IH]; intros d; simpl.
  { destruct (Feed d chunk) as [[?|] ?]; [by rewrite app_nil_r|done]. }
  destruct (Feed d c) as [[?|] d1]; [|done]. rewrite IH.
  destruct (feeds d1 chunks) as [[?|] d2]; [|done]. destruct (Feed d2 chunk) as [[?|] ?]; [by rewrite app_assoc|done].
Qed.

Lemma feedAll_app p chunks chunk :
  feedAll std pstd policy p (chunks ++ [chunk]) =
  match feedAll std pstd policy p chunks with
  | (Ok es, p') => match parserFeed std pstd policy p' chunk with (Ok es', p'') => (Ok (es ++ es'), p'') | r => r end
  | r => r
  end.
Proof.
  revert p. induction chunks as [|c chunks IH]; intros p; simpl.
  { destruct (parserFeed std pstd policy p chunk) as [[?|] ?]; [by rewrite app_nil_r|done]. }
  destruct (parserFeed std pstd policy p c) as [[?|] p1]; [|done]. rewrite IH.
  destruct (feedAll std pstd policy p1 chunks) as [[?|] p2]; [|done].
  destruct (parserFeed std pstd policy p2 chunk) as [[?|] ?]; [by rewrite app_assoc|done].
Qed.

(** The end of the stream is not read before the last chunk. *)
Definition ends_last (chunks : list string) : Prop :=
  forall es d, feeds (NewSSEDecoder DefaultMaxSSEEventBytes) (bytes_of chunks) = (Ok es, d) ->
    PsDone (parse ParseStream es).2 = false.

Lemma parseAll_accepts chunks chunk evs q :
  fits (limit DefaultMaxSSEEventBytes) (concat (bytes_of (chunks ++ [chunk]))) -> ends_last chunks ->
  parse ParseStream (stream_events (concat (bytes_of (chunks ++ [chunk])))) = (Ok evs, q) ->
  parseAll std pstd policy (chunks ++ [chunk]) = Ok (evs ++ terminal q).
Proof.
  intros Hfit Hlast. destruct (decode_agrees DefaultMaxSSEEventBytes (bytes_of (chunks ++ [chunk]))) as [_ Hdec].
  specialize (Hdec Hfit). revert Hdec. unfold decode. rewrite fmap_app. cbn [fmap list_fmap]. rewrite feeds_app.
  destruct (feeds _ (bytes_of chunks)) as [[es|] d] eqn:Hfs; [|done].
  destruct (Feed d _) as [[es1|] d1] eqn:Hf; [|done]. destruct (Close d1) as [[es2|] d2] eqn:Hc; [|done].
  cbn [fst]. intros [= <-]. rewrite !parse_app. specialize (Hlast es d Hfs).
  destruct (parse ParseStream es) as [[out|] q0] eqn:H0; [|done]. cbn [snd] in Hlast.
  destruct (parse q0 es1) as [[out1|] q1] eqn:H1; [|done]. destruct (parse q1 es2) as [[out2|] q2] eqn:H2; [|done].
  intros [= <- <-]. unfold parseAll.
  rewrite feedAll_app, (feedAll_forward ParseStream chunks es d out q0 eq_refl eq_refl Hfs H0 Hlast).
  rewrite (parserFeed_step (frame d false q0) chunk es1 d1 Hlast eq_refl Hf), parse_frame, H1. cbn [lift_result].
  unfold parserClose. cbn [PsClosed frame set_parser_closed PsDecoder]. rewrite Hc.
  change (with_decoder d2 (set_parser_closed (frame d1 false (frame d false q1)))) with (frame d2 true q1).
  rewrite parse_frame, H2. cbn [fst]. unfold terminal. cbn [PsDone PsFailed frame].
  destruct (negb (PsDone q2) && negb (PsFailed q2))%bool; [by rewrite !app_assoc|by rewrite app_nil_r].
Qed.

(** ** What every emitted event carries *)

Definition ident (p : chatStreamParser) : string * string * Z := (PsCompletionID p, PsModel p, PsCreatedAt p).
Definition eident (e : StreamEvent) : string * string * Z := (SeCompletionID e, SeModel e, SeCreatedAt e).
Definition nameless : string * string * Z := ("", "", 0).

(** All three parts of an identity are there. *)
Definition named (i : string * string * Z) : Prop := i.1.1 <> "" /\ i.1.2 <> "" /\ i.2 <> 0.

Definition is_done (e : StreamEvent) : bool := bool_decide (SeType e = StreamDone).

(** Only the end of a stream and an error may come without its identity. *)
Definition identified (i : string * string * Z) (e : StreamEvent) : Prop :=
  (eident e = i /\ (named i \/ is_done e = true \/ is_error e = true)) \/
  (eident e = nameless /\ (is_done e = true \/ is_error e = true)).

(** What a choice yields: stamped, and not the end. *)
Definition chosen (p : chatStreamParser) (e : StreamEvent) : Prop :=
  eident e = ident p /\ SeRequestID e = PsRequestID p /\ is_done e = false.

Lemma stamp_chosen p e : is_done e = false -> chosen p (stamp p e).
Proof. done. Qed.

Lemma traverse_forall {A B} (f : A -> result Error B) (P : B -> Prop) l bs :
  (forall a b, f a = Ok b -> P b) -> traverse f l = Ok bs -> Forall P bs.
Proof.
  intros Hf. revert bs. induction l as [|a l IH]; intros bs; simpl; [intros [= <-]; constructor|].
  destruct (f a) as [b|] eqn:Hb; [|done]. destruct (traverse f l) as [bs'|]; [|done]. intros [= <-].
  constructor; eauto.
Qed.

Lemma parseToolDelta_chosen p index delta e : parseToolDelta policy p index delta = Ok e -> chosen p e.
Proof. unfold parseToolDelta. repeat case_match; intros; simplify_eq. by apply stamp_chosen. Qed.

Lemma parseStreamChoice_chosen p choice events :
  parseStreamChoice policy p choice = Ok events -> Forall (chosen p) events.
Proof.
  unfold parseStreamChoice. destruct (ScIndex choice) as [index|]; [|done]. destruct (index <? 0); [done|].
  destruct (ScFinishReason choice ≫= _); [intros [= <-]; by repeat constructor|].
  set (start := match SdRole (ScDelta choice) with Some role => _ | None => _ end).
  assert (Hstart : forall es, start = Ok es -> Forall (chosen p) es).
  { unfold start. intros es. repeat case_match; intros [= <-]; by repeat constructor. }
  destruct start as [es|]; [|done]. specialize (Hstart es eq_refl).
  destruct (traverse _ _) as [tools|] eqn:Ht; [|done].
  apply (traverse_forall _ (chosen p)) in Ht; [|intros; by eapply parseToolDelta_chosen].
  assert (Hev : Forall (chosen p) (es ++ match SdReasoningContent (ScDelta choice) with
      | Some text => if AdReasoningContent (PoCapabilities policy) then [stamp p (event_reasoning index text)] else []
      | None => [] end ++ match SdContent (ScDelta choice) with
      | Some text => [stamp p (event_content index text)] | None => [] end ++ tools)).
  { rewrite !Forall_app. split; [done|]. split; [by repeat case_match; repeat constructor|].
    split; [by repeat case_match; repeat constructor|done]. }
  destruct (ScFinishReason choice) as [reason|]; [|by intros [= <-]].
  destruct (parseFinishReason policy reason); intros [= <-]; rewrite Forall_app; (split; [done|by repeat constructor]).
Qed.

Lemma set_failed_set_failed a b p : set_failed a (set_failed b p) = set_failed (b || a) p.
Proof. unfold set_failed. simpl. by rewrite orb_assoc. Qed.

Lemma parseChoices_chosen p choices events p' :
  parseChoices policy p choices = (Ok events, p') ->
  Forall (chosen p) events /\ p' = set_failed (existsb is_error events) p.
Proof.
  revert p events p'. induction choices as [|choice choices IH]; intros p events p'; simpl.
  { intros [= <- <-]. split; [constructor|]. destruct p. unfold set_failed. simpl. by rewrite orb_false_r. }
  destruct (parseStreamChoice policy p choice) as [parsed|] eqn:Hc; [|done].
  destruct (parseChoices policy (set_failed (existsb is_error parsed) p) choices) as [[events'|] q] eqn:Hr; [|done].
  intros [= <- <-]. apply IH in Hr as [Hev ->]. split.
  - apply Forall_app. split; [by eapply parseStreamChoice_chosen|done].
  - rewrite set_failed_set_failed, existsb_app. done.
Qed.

Lemma acceptMetadata_names p id request model created p' :
  (forall c, created = Some c -> int64_ok c) -> ident p = nameless \/ named (ident p) ->
  acceptMetadata policy p id request model created = (Ok tt, p') ->
  named (ident p') /\ (named (ident p) -> ident p' = ident p) /\ PsDone p' = PsDone p /\ PsFailed p' = PsFailed p /\
  (PsRequestID p = "" \/ PsRequestID p' = PsRequestID p).
Proof.
  intros Hint Hid. unfold acceptMetadata. destruct created as [c|]; [|done]. specialize (Hint c eq_refl).
  destruct (_ || _ || _ || _)%bool eqn:Hfull; [done|].
  destruct (negb (bool_decide (PsCompletionID p = "")) && _)%bool eqn:H1; [done|].
  destruct (negb (bool_decide (PsModel p = "")) && _)%bool eqn:H2; [done|].
  destruct (negb (IsZero (PsCreatedAt p)) && _)%bool eqn:H3; [done|].
  to_prop. apply andb_false_iff in H1, H2, H3.
  assert (Hne : time_Unix c <> 0) by (by apply time_Unix_nonzero).
  assert (Hnamed : named (id, model, time_Unix c)) by done.
  assert (Hsame : named (ident p) -> (id, model, time_Unix c) = ident p).
  { intros (Ha & Hb & Hc). unfold ident in *. simpl in *. unfold IsZero in H3.
    destruct H1 as [H1|H1], H2 as [H2|H2], H3 as [H3|H3]; to_prop; simplify_eq; try done; congruence. }
  destruct (_ && negb (bool_decide (request = "")))%bool.
  - cbn [PsRequestID set_metadata]. destruct (negb (bool_decide (PsRequestID p = "")) && _)%bool eqn:Hreq; [done|]. intros [= <-].
    apply andb_false_iff in Hreq. repeat split; try done. cbn [PsRequestID set_requestID].
    destruct Hreq; to_prop; auto.
  - intros [= <-]. repeat split; try done. by right.
Qed.

(** ** The invariant of the parser and what it has emitted *)

Record Emitted (p : chatStreamParser) (out : list StreamEvent) : Prop := {
  em_end :
    if PsDone p then exists before e, out = before ++ [e] /\ is_done e = true /\ existsb is_done before = false
    else existsb is_done out = false;
  em_failed : PsFailed p = existsb is_error out;
  em_ident : ident p = nameless \/ named (ident p);
  em_events : Forall (identified (ident p)) out;
  em_request : Forall (λ e, SeRequestID e = "" \/ SeRequestID e = PsRequestID p) out;
}.

Lemma identified_keep p p' e :
  (named (ident p) -> ident p' = ident p) -> ident p = nameless \/ named (ident p) ->
  identified (ident p) e -> identified (ident p') e.
Proof.
  intros Hk [Hn|Hn] [[He Hor]|He]; [| by right | by left; rewrite (Hk Hn) | by right].
  right. rewrite He, Hn. split; [done|]. destruct Hor as [(H & _)|Hor]; [by rewrite Hn in H|done].
Qed.

Lemma chosen_identified p e : named (ident p) -> chosen p e -> identified (ident p) e.
Proof. intros Hn (He & _). left. auto. Qed.

Lemma no_done_chosen p es : Forall (chosen p) es -> existsb is_done es = false.
Proof. induction 1 as [|e es (_ & _ & He) _ IH]; simpl; [done|]. by rewrite He. Qed.

(** Events that neither end the stream nor change the parser's identity. *)
Lemma emitted_more p q out es failed :
  Emitted p out -> PsDone p = false -> q = set_failed failed p -> failed = existsb is_error es ->
  existsb is_done es = false -> Forall (identified (ident p)) es ->
  Forall (λ e, SeRequestID e = "" \/ SeRequestID e = PsRequestID p) es -> Emitted q (out ++ es).
Proof.
  intros [He Hf Hi Hev Hr] Hd -> -> Hnd Hid Hreq. rewrite Hd in He.
  split; cbn [PsDone PsFailed set_failed PsRequestID].
  - rewrite Hd, existsb_app, He. done.
  - by rewrite existsb_app, Hf.
  - done.
  - change (ident (set_failed (existsb is_error es) p)) with (ident p). by apply Forall_app.
  - by apply Forall_app.
Qed.

Lemma chosen_request p es :
  Forall (chosen p) es -> Forall (λ e, SeRequestID e = "" \/ SeRequestID e = PsRequestID p) es.
Proof. intros H. eapply Forall_impl; [exact H|]. intros e (_ & Hr & _). by right. Qed.

(** The metadata of a chunk is accepted. *)
Lemma emitted_accept p p' out :
  Emitted p out -> named (ident p') -> (named (ident p) -> ident p' = ident p) -> PsDone p' = PsDone p ->
  PsFailed p' = PsFailed p -> PsRequestID p = "" \/ PsRequestID p' = PsRequestID p -> Emitted p' out.
Proof.
  intros [He Hf Hi Hev Hr] Hn Hk Hd Hfl Hreq. split; rewrite ?Hd, ?Hfl; try done; [by right|..].
  - eapply Forall_impl; [exact Hev|]. intros e. by apply identified_keep.
  - eapply Forall_impl; [exact Hr|]. intros e. destruct Hreq as [->| ->]; [|done]. intros [?|?]; by left.
Qed.

Context `{!LawfulDecode pstd}.

Lemma parse1_emitted p e out events p' :
  Emitted p out -> parse1 p e = (Ok events, p') -> Emitted p' (out ++ events).
Proof.
  intros Hem. unfold parseSSEEvent. set (data := TrimSpace _). cbv zeta. case_bool_decide.
  { destruct (PsDone p) eqn:Hd; [done|]. intros [= <- <-]. destruct Hem as [He Hf Hi Hev Hr]. rewrite Hd in He.
    split; cbn [PsDone PsFailed set_done PsRequestID].
    - eexists _, _. by split.
    - rewrite existsb_app, Hf. simpl. by rewrite orb_false_r.
    - done.
    - apply Forall_app. split; [done|]. constructor; [|constructor]. left. auto.
    - apply Forall_app. split; [done|]. constructor; [by right|constructor]. }
  destruct (PsDone p) eqn:Hd; [done|].
  destruct (decodeJSON _ _ _) as [chunk|] eqn:Hdec; [|done].
  destruct (WkError chunk) as [wire|].
  { intros [= <- <-]. eapply emitted_more; [done|done|done|done|done|..]; (constructor; [|constructor]).
    - right. auto.
    - by left. }
  destruct (acceptMetadata policy p _ _ _ _) as [[[]|] q] eqn:Ha; [|done].
  apply acceptMetadata_names in Ha as (Hn & Hk & Hdn & Hfl & Hreq); [|..|apply Hem].
  2:{ intros c Hc. unfold decodeJSON in Hdec. case_bool_decide; [done|].
      destruct (decode_chunk pstd data) as [[target rest]|] eqn:Hraw; [|done].
      assert (target = chunk) as -> by (repeat case_match; congruence). by eapply created_int64. }
  assert (Hem' : Emitted q out) by (by eapply emitted_accept).
  destruct (parseChoices policy q _) as [[choices|] q'] eqn:Hch; [|done].
  apply parseChoices_chosen in Hch as [Hcho ->].
  assert (Hem'' : Emitted (set_failed (existsb is_error choices) q) (out ++ choices)).
  { eapply emitted_more; try done; [by rewrite Hdn|by eapply no_done_chosen| |by apply chosen_request].
    eapply Forall_impl; [exact Hcho|]. intros ?. by apply chosen_identified. }
  destruct (parseUsage _) as [[usage|]|]; [|by intros [= <- <-]|done]. intros [= <- <-]. rewrite app_assoc.
  eapply (emitted_more _ _ _ _ false); [done|by rewrite <- Hd, <- Hdn| |done|done|..].
  - rewrite set_failed_set_failed. by rewrite orb_false_r.
  - constructor; [|constructor]. left. auto.
  - constructor; [by right|constructor].
Qed.

Lemma parse_emitted p es out events p' :
  Emitted p out -> parse p es = (Ok events, p') -> Emitted p' (out ++ events).
Proof using LawfulDecode0.
  revert p out events. induction es as [|e es IH]; intros p out events Hem; simpl.
  { intros [= <- <-]. by rewrite app_nil_r. }
  destruct (parse1 p e) as [[ev|] q] eqn:H1; [|done].
  destruct (parse q es) as [[ev'|] q'] eqn:H2; [|done]. intros [= <- <-].
  rewrite app_assoc. eapply IH; [|exact H2]. by eapply parse1_emitted.
Qed.

Lemma emitted_start : Emitted ParseStream [].
Proof. split; simpl; auto. Qed.

(** How a delivered stream ends: with its end mark, once and last, or with an
    error among its events and no end mark. *)
Definition well_ended (out : list StreamEvent) : Prop :=
  (exists before e, out = before ++ [e] /\ is_done e = true /\ existsb is_done before = false) \/
  (existsb is_done out = false /\ existsb is_error out = true).

Lemma emitted_ends p out : Emitted p out -> well_ended (out ++ terminal p).
Proof.
  intros [He Hf _ _ _]. unfold terminal. destruct (PsDone p) eqn:Hd; simpl.
  - rewrite app_nil_r. by left.
  - right. destruct (PsFailed p); simpl.
    + rewrite app_nil_r. by split.
    + rewrite !existsb_app, He. simpl. by rewrite orb_true_r.
Qed.

Lemma emitted_terminal p out :
  Emitted p out ->
  Forall (identified (ident p)) (out ++ terminal p) /\
  Forall (λ e, SeRequestID e = "" \/ SeRequestID e = PsRequestID p) (out ++ terminal p).
Proof.
  intros [_ _ _ Hev Hr]. unfold terminal. rewrite !Forall_app. destruct (_ && _)%bool; [|by repeat constructor].
  split; (split; [done|]); (constructor; [|constructor]); [left; auto|by right].
Qed.
End parser.


(** Every stream the parser accepts ends properly: its end mark comes
    once and last, or there is no end mark and an error is among the events.
    All events carry one completion ID, model and creation time, which only an
    end mark or an error may lack, and one request ID, where one is known. *)
Theorem stream_parser_contract std pstd policy chunks out :
  LawfulDecode pstd -> parseAll std pstd policy chunks = Ok out ->
  well_ended out /\
  exists i request, Forall (identified i) out /\ Forall (λ e, SeRequestID e = "" \/ SeRequestID e = request) out.
Proof.
  intros Hl (pre & post & evs & q & _ & _ & _ & Hp & ->)%parseAll_reads.
  apply (parse_emitted _ _ _ _ _ [] _ _ emitted_start) in Hp. simpl in Hp.
  split; [by eapply emitted_ends|]. exists (ident q), (PsRequestID q). by apply emitted_terminal.
Qed.

(** ** A stream read in two chunks *)

Definition demo_std : Std :=
  mkStd (λ _, Err (OtherError "invalid character")) (λ _, None) (λ _, None) (λ _, Err (OtherError "invalid URL")).

Definition demo_chunk : wireStreamChunk :=
  mkWireStreamChunk "c1" "" (Some 1700000000) "m"
    [mkWireStreamChoice (Some 0) (mkWireStreamDelta (Some RoleAssistant) (Some "hi") None []) (Some "stop")] None None.

Definition demo_pstd : ResponseStd :=
  mkResponseStd (λ _, Err (OtherError "invalid character"))
    (λ body, if bool_decide (body = "{}") then Ok (demo_chunk, "") else Err (OtherError "invalid character")).

#[export] Instance demo_lawful : LawfulDecode demo_pstd.
Proof.
  intros body chunk rest created. unfold demo_pstd. simpl. case_bool_decide; [|done]. intros [= <- <-] [= <-].
  by unfold int64_ok, min_int64, max_int64.
Qed.

Definition newline : string := String (byte 10) "".
Definition demo_chunks : list string :=
  ["data: {}" +:+ newline +:+ newline +:+ "data: [DO"; "NE]" +:+ newline +:+ newline].
Definition demo_policy : wirePolicy := kimiPolicy demo_std kimiK3Capabilities.


Lemma stream_parser_contract_witness :
  exists out, parseAll demo_std demo_pstd demo_policy demo_chunks = Ok out /\ length out = 4%nat /\ well_ended out.
Proof.
  eexists. split; [vm_compute; reflexivity|]. split; [reflexivity|].
  eapply (stream_parser_contract demo_std demo_pstd demo_policy demo_chunks); [apply _|vm_compute; reflexivity].
Defined.

(** A comment after the end mark is accepted in the same chunk and refused in
    a later one. *)
Lemma trailing_comment_depends_on_chunks :
  let done := "data: [DONE]" +:+ newline +:+ newline in
  let comment := ": bye" +:+ newline in
  (exists out, parseAll demo_std demo_pstd demo_policy [done +:+ comment] = Ok out) /\
  (exists e, parseAll demo_std demo_pstd demo_policy [done; comment] = Err e).
Proof. split; eexists; vm_compute; reflexivity. Qed.

(** * What an accepted response is

    Theorems about [ParseResponse] of [ProviderResponse]: the shape of every
    response that is passed on. *)

Definition known_finish (policy : wirePolicy) (reason : FinishReason) : Prop :=
  match reason with FinishReasonOther _ => exists s, PoFinishReasons policy !! s = Some reason | _ => True end.

Record well_formed_call (call : ToolCall) : Prop := {
  wc_id : TcID call <> "";
  wc_type : TcType call = "function";
  wc_name : toolNamePattern (TfName (TcFunction call)) = true;
}.

Record well_formed_choice (policy : wirePolicy) (choice : ChatChoice) : Prop := {
  wf_index : 0 <= CcIndex choice;
  wf_role : MsRole (CcMessage choice) = RoleAssistant;
  wf_content : MsContent (CcMessage choice) <> [] \/ MsToolCalls (CcMessage choice) <> [] \/
               MsReasoning (CcMessage choice) <> None;
  wf_calls : Forall well_formed_call (MsToolCalls (CcMessage choice));
  wf_tools : MsToolCalls (CcMessage choice) <> [] -> AdTools (PoCapabilities policy) = true;
  wf_reasoning : MsReasoning (CcMessage choice) <> None -> AdReasoningContent (PoCapabilities policy) = true;
  wf_finish : known_finish policy (CcFinishReason choice);
}.

(** Some counter is there and none is negative. *)
Definition well_formed_usage (usage : ReportedUsage) : Prop :=
  RuSource usage = UsageAuthoritative /\ Exists is_Some (counters usage) /\
  Forall (λ count, forall n, count = Some n -> 0 <= n) (counters usage).

Record well_formed_response (policy : wirePolicy) (response : ChatResponse) : Prop := {
  wr_id : RsID response <> "";
  wr_model : RsModel response <> "";
  wr_choices : RsChoices response <> [];
  wr_each : Forall (well_formed_choice policy) (RsChoices response);
  wr_usage : forall usage, RsUsage response = Some usage -> well_formed_usage usage;
  wr_request : PoResponseRequestIDBody policy = true -> RsRequestID response <> "";
}.

Section response.
Context (std : Std) (pstd : ResponseStd) (policy : wirePolicy).

Lemma some_counter counts : forallb unset counts = false -> Exists is_Some counts.
Proof.
  induction counts as [|[n|] counts IH]; simpl; [done|by constructor; eexists|]. intros H. apply Exists_cons_tl. auto.
Qed.

Lemma parseUsage_well_formed wire usage : parseUsage wire = Ok (Some usage) -> well_formed_usage usage.
Proof.
  unfold parseUsage. destruct wire as [wire|]; [|done]. cbv zeta. set (parsed := mkReportedUsage _ _ _ _ _ _ _).
  destruct (forallb unset (counters parsed)) eqn:Hsome; [done|].
  destruct (existsb negative (counters parsed)) eqn:Hneg; [done|]. intros [= <-]. split; [done|]. split.
  - by apply some_counter.
  - apply Forall_forall. intros o Ho n ->. apply not_true_iff_false in Hneg.
    destruct (Z.lt_ge_cases n 0) as [Hlt|]; [|done]. destruct Hneg. apply existsb_exists. exists (Some n).
    split; [by apply list_elem_of_In|]. simpl. lia.
Qed.

Lemma parseFinishReason_known reason finish : parseFinishReason policy reason = Ok finish -> known_finish policy finish.
Proof.
  unfold parseFinishReason. repeat (case_bool_decide; [by intros [= <-]|]).
  destruct (PoFinishReasons policy !! reason) as [mapped|] eqn:Hm; [|by case_match].
  intros [= <-]. unfold known_finish. destruct mapped; eauto.
Qed.

Lemma parseToolCall_well_formed wire call : parseToolCall policy wire = Ok call -> well_formed_call call.
Proof.
  unfold parseToolCall. destruct (_ || _ || _)%bool eqn:Hb; [done|]. intros [= <-]. to_prop. by split.
Qed.

Lemma parseToolCalls_well_formed wires calls :
  parseToolCalls policy wires = Ok calls ->
  Forall well_formed_call calls /\ (calls <> [] -> AdTools (PoCapabilities policy) = true).
Proof.
  unfold parseToolCalls. destruct wires as [|w ws]; [by intros [= <-]|].
  destruct (AdTools _); [|done]. cbn [negb]. intros H. split; [|done].
  by apply (traverse_forall _ _ _ _ parseToolCall_well_formed) in H.
Qed.

Lemma parseChoice_well_formed wire choice : parseChoice policy wire = Ok choice -> well_formed_choice policy choice.
Proof.
  unfold parseChoice. destruct (RcIndex wire) as [index|]; [|done]. destruct (RcFinishReason wire) as [reason|]; [|done].
  cbv zeta. destruct ((index <? 0) || _)%bool eqn:Hi; [done|]. case_bool_decide as Hr; [|done]. cbn [negb].
  destruct (parseFinishReason policy reason) as [finish|] eqn:Hf; [|done]. apply parseFinishReason_known in Hf.
  destruct (parseToolCalls policy _) as [calls|] eqn:Hc; [|done]. apply parseToolCalls_well_formed in Hc as [Hc Ht].
  set (content := match RmContent (RcMessage wire) with Some _ => _ | None => _ end).
  set (reasoning := match RmReasoningContent (RcMessage wire) with Some _ => _ | None => _ end).
  assert (Hreas : reasoning <> None -> AdReasoningContent (PoCapabilities policy) = true).
  { unfold reasoning. destruct (RmReasoningContent _); [|done]. by destruct (AdReasoningContent _). }
  intros Hok.
  assert ((content <> [] \/ calls <> [] \/ reasoning <> None) /\
    choice = mkChatChoice index (mkMessage (RmRole (RcMessage wire)) "" content false calls "" reasoning) finish) as [Hne ->].
  { destruct content, calls, reasoning; simplify_eq; (split; [|done]); auto. }
  to_prop. by split.
Qed.

Lemma traverse_nonempty {A B} (f : A -> result Error B) l bs : traverse f l = Ok bs -> length bs = length l.
Proof.
  revert bs. induction l as [|a l IH]; intros bs; simpl; [by intros [= <-]|]. destruct (f a); [|done].
  destruct (traverse f l) as [bs'|]; [|done]. intros [= <-]. simpl. by rewrite (IH bs').
Qed.

Lemma ParseResponse_well_formed status headers body response :
  ParseResponse std pstd policy status headers body = Ok response ->
  200 <= status < 300 /\ well_formed_response policy response.
Proof.
  unfold ParseResponse. destruct ((status <? 200) || _)%bool eqn:Hs; [done|].
  destruct (decodeJSON _ _ _) as [wire|]; [|done]. destruct (WpError wire); [done|].
  destruct (_ || _ || _ || _)%bool eqn:Hfull; [done|].
  destruct (PoResponseRequestIDBody policy && _)%bool eqn:Hreq; [done|].
  destruct (traverse _ _) as [choices|] eqn:Hc; [|done]. destruct (parseUsage _) as [usage|] eqn:Hu; [|done].
  intros [= <-]. to_prop. split; [lia|]. split; cbn [RsID RsModel RsChoices RsUsage RsRequestID]; try done.
  - intros ->. apply traverse_nonempty in Hc. by destruct (WpChoices wire).
  - by apply (traverse_forall _ _ _ _ parseChoice_well_formed) in Hc.
  - intros u ->. by eapply parseUsage_well_formed.
  - intros Hb. rewrite Hb in *. cbn [andb] in Hreq. by apply bool_decide_eq_false in Hreq.
Qed.

End response.

(** Every response an adapter passes on is well formed: it answers a
    success status, has an ID, a model and at least one choice, each an
    assistant message with something in it, tool calls complete and only where
    the model has tools, reasoning only where it is supported, a finish reason
    of the canonical set, and usage counters none of which is negative. *)
Theorem accepted_response_well_formed std pstd policy status headers body response :
  ParseResponse std pstd policy status headers body = Ok response ->
  200 <= status < 300 /\ well_formed_response policy response.
Proof. apply ParseResponse_well_formed. Qed.

Definition demo_wire_response : wireChatResponse :=
  mkWireChatResponse "c1" "r1" (Some 1700000000) "m"
    [mkWireResponseChoice (Some 0)
       (mkWireResponseMessage RoleAssistant None None [mkWireToolCall "t1" "function" (mkWireFunctionCall "look_up" "{}")])
       (Some "tool_calls")]
    (Some (mkWireUsage (Some 3) (Some 5) None None None (Some (Some 1)) None)) None.

Definition demo_response_std : ResponseStd :=
  mkResponseStd (λ _, Ok (demo_wire_response, " ")) (λ _, Err (OtherError "invalid character")).

Lemma accepted_response_well_formed_witness :
  exists response,
    ParseResponse demo_std demo_response_std (zhipuPolicy demo_std zhipuCapabilities) 200 None "{}" = Ok response /\
    well_formed_response (zhipuPolicy demo_std zhipuCapabilities) response /\ RsRequestID response = "r1".
Proof.
  eexists. split; [vm_compute; reflexivity|]. split; [|reflexivity].
  eapply (accepted_response_well_formed demo_std demo_response_std _ 200 None "{}"). vm_compute. reflexivity.
Defined.
