(* ===== verification/ProviderRepresents.v ===== *)
(** * Validated requests can be put on the wire

    The gateway's capability validation and the adapter's own checks are two
    pieces of code over two records of capabilities.  This file proves that
    they agree: what the first passes, the second never refuses for want of a
    capability or for a parameter out of range. *)

From S2P Require Import Prelude GoStrings Canonical Capabilities CapabilitiesProps.
From S2P Require Import Effects Workflow.
From S2P Require Import Wire ProviderRequest ProviderCatalog ProviderProps.

Local Open Scope Z_scope.

(** An error that is not about what the model supports. *)
Definition structural (e : Error) : bool :=
  (negb (bool_decide (Kind e = ErrorUnsupportedCapability)) &&
   negb (one_of (Code e) ["parameter_out_of_range"; "parameter_condition_violation"; "tool_choice_with_thinking"]))%bool.

(** What the gateway's validation does not look at: developer messages,
    reasoning and tool calls replayed in messages, and unknown formats. *)
Definition plain_message (c : ModelCapabilities) (m : ChatMessage) : Prop :=
  MsRole m <> RoleDeveloper /\ (MsReasoning m <> None -> McReasoningPreserve c = true) /\
  (MsToolCalls m <> [] -> McTools c = true) /\
  Forall (λ call, TcType call = "" \/ TcType call = "function") (MsToolCalls m).

Definition plain_request (c : ModelCapabilities) (r : ChatRequest) : Prop :=
  Forall (plain_message c) (Messages r) /\
  (forall f s, ResponseFormat_ r = Some f -> RfType f <> ResponseFormatOther s).

(** The reasoning facts of a model fit together and fit the provider. *)
Definition coherent (kind : ProviderKind) (c : ModelCapabilities) : Prop :=
  (McReasoningMode c = ReasoningAlwaysOnMode -> McReasoningAlwaysOn c = true) /\
  (McReasoningPreserve c = true -> kind = KindZhipu \/ kind = KindKimi).

Lemma catalog_coherent kind profile :
  profile ∈ catalogModels kind -> coherent kind (ModelCapabilitiesFromProfile profile).
Proof.
  assert (Forall (λ p, coherent kind (ModelCapabilitiesFromProfile p)) (catalogModels kind)) as H.
  { destruct kind; repeat (apply Forall_cons; split); try apply Forall_nil_2; split; vm_compute; auto; done. }
  rewrite Forall_forall in H. apply H.
Qed.

Section represents.
Context (rstd : RequestStd) (std : Std) (kind : ProviderKind) (c : ModelCapabilities) (policy : wirePolicy).
Context (Hb : built std kind (AdapterCapabilities c) policy) (Hco : coherent kind c).

Let Hcaps : PoCapabilities policy = AdapterCapabilities c := bu_caps _ _ _ _ Hb.

Ltac caps := rewrite ?Hcaps; cbn [AdapterCapabilities AdImageInput AdVideoInput AdTools AdMessageName AdPartialMode
  AdReasoningReplay AdStrictTools AdStreaming AdParameters AdJSONOutput AdJSONSchemaOutput AdParallelToolCalls
  AdPromptCacheKey AdSafetyIdentifier AdReasoningToggle AdReasoningAlwaysOn AdReasoningEffort AdAllowedReasoningEfforts
  AdToolChoiceModesWithReasoning AdToolChoiceNone AdToolChoiceAuto AdToolChoiceRequired AdToolChoiceNamed AdReasoningConfig
  AdReasoningDefaultEnabled].

Lemma encode_calls_structural message index calls e :
  Forall (λ call, TcType call = "" \/ TcType call = "function") calls ->
  encode_calls policy message index calls = Err e -> structural e = true.
Proof.
  intros Hc. revert index. induction Hc as [|call calls Ht _ IH]; intros index; simpl; [done|].
  destruct (_ || _)%bool; [by intros [= <-]|].
  assert ((if bool_decide (TcType call = "") then "function" else TcType call) = "function") as ->.
  { case_bool_decide; [done|]. by destruct Ht. }
  simpl. destruct (encode_calls policy message (N.succ index) calls) as [|e'] eqn:He; [done|]. intros [= <-]. by eapply IH.
Qed.

Lemma encodeMessage_structural index m e :
  message_supported c m -> (MsPartial m = true -> McPartialMode c = true) -> plain_message c m ->
  encodeMessage rstd policy index m = Err e -> structural e = true.
Proof using Hb.
  intros (Hname & _) Hpartial (Hdev & Hreas & Htools & Hcalls). unfold encodeMessage, encodeToolCalls. caps.
  destruct (negb (validRole (MsRole m))); [by intros [= <-]|]. rewrite (bool_decide_eq_false_2 _ Hdev).
  assert ((negb (bool_decide (MsName m = "")) && negb (McMessageName c))%bool = false) as ->.
  { case_bool_decide; [done|]. by rewrite Hname. }
  assert ((MsPartial m && negb (McPartialMode c))%bool = false) as ->.
  { destruct (MsPartial m); [|done]. by rewrite Hpartial. }
  destruct (encodeContent _ _ _ _ _) as [content|text]; [|by intros [= <-]].
  destruct (_ && bool_decide (TrimSpace _ = ""))%bool; [by intros [= <-]|].
  assert ((match MsReasoning m with Some _ => true | None => false end && negb (McReasoningPreserve c))%bool = false) as ->.
  { destruct (MsReasoning m); [|done]. by rewrite Hreas. }
  destruct (MsToolCalls m) as [|call calls] eqn:Hm; [done|]. rewrite Htools by done. cbn [negb].
  destruct (encode_calls _ _ _ _) as [|e'] eqn:He; [done|]. intros [= <-]. by eapply encode_calls_structural.
Qed.

Lemma encode_messages_structural index ms e :
  Forall (message_supported c) ms -> (forall m, m ∈ ms -> MsPartial m = true -> McPartialMode c = true) ->
  Forall (plain_message c) ms -> encode_messages rstd policy index ms = Err e -> structural e = true.
Proof using Hb.
  intros Hs Hp Hpl. revert index Hs Hp. induction Hpl as [|m ms Hm _ IH]; intros index Hs Hp; simpl; [done|].
  apply Forall_cons in Hs as [Hs1 Hs2].
  destruct (encodeMessage rstd policy index m) as [w|e1] eqn:H1.
  - destruct (encode_messages rstd policy (N.succ index) ms) as [|e2] eqn:H2; [done|]. intros [= <-].
    eapply IH; [done| |exact H2]. intros m' Hin. apply Hp. by right.
  - intros [= <-]. eapply encodeMessage_structural; [done| |done|exact H1]. apply Hp. by left.
Qed.

Lemma encode_tools_structural index tools e :
  ((exists t, t ∈ tools /\ TdStrict t <> None) -> McStrictTools c = true) ->
  encode_tools rstd policy index tools = Err e -> structural e = true.
Proof using Hb.
  revert index. induction tools as [|tool tools IH]; intros index Hs; simpl; [done|].
  destruct (encodeTool rstd policy index tool) as [w|e1] eqn:H1.
  - destruct (encode_tools rstd policy (N.succ index) tools) as [|e2] eqn:H2; [done|]. intros [= <-].
    eapply IH; [|exact H2]. intros (t & Ht & Hn). apply Hs. exists t. split; [by right|done].
  - intros [= <-]. revert H1. unfold encodeTool. caps. destruct (negb (toolNamePattern _)); [by intros [= <-]|].
    cbv zeta. destruct (negb (validJSONObject _ _)); [by intros [= <-]|].
    destruct (match PoTransformToolSchema policy with Some _ => _ | None => _ end); [|by intros [= <-]].
    destruct (TdStrict tool) eqn:Ht; [|done]. rewrite Hs; [done|]. exists tool. split; [by left|by rewrite Ht].
Qed.

Lemma encodeToolChoice_structural choice count e :
  (forall ch, choice = Some ch -> mode_string (Mode ch) ∈ McToolChoiceModes c) ->
  encodeToolChoice policy choice count = Err e -> structural e = true.
Proof using Hb.
  intros Hin. unfold encodeToolChoice. destruct choice as [ch|]; [|done]. specialize (Hin ch eq_refl).
  destruct (_ && _)%bool; [by intros [= <-]|]. cbv zeta. caps.
  assert (Hm : has_mode c (mode_string (Mode ch)) = true).
  { unfold has_mode. apply existsb_exists. exists (mode_string (Mode ch)). rewrite String.eqb_refl.
    split; [by apply list_elem_of_In|done]. }
  destruct (Mode ch); simpl in Hm; rewrite ?Hm; cbn [negb]; try done; [|by intros [= <-]].
  destruct (negb (toolNamePattern _)); [by intros [= <-]|done].
Qed.

Lemma validateInteger_within parameter value limit :
  (forall v, value = Some v -> within_integer limit v) -> validateInteger policy parameter value limit = None.
Proof.
  intros Hw. unfold validateInteger. destruct value as [v|]; [|done].
  destruct (Hw v eq_refl) as (-> & Hmin & Hmax & Hex). cbn [negb].
  assert (match IlMinimum limit with Some m => v <? m | None => false end = false) as ->.
  { destruct (IlMinimum limit) as [m|]; [|done]. specialize (Hmin m eq_refl). lia. }
  assert (match IlMaximum limit with Some m => m <? v | None => false end = false) as ->.
  { destruct (IlMaximum limit) as [m|]; [|done]. specialize (Hmax m eq_refl). lia. }
  destruct (IlExactValues limit) as [|w ws]; [done|].
  assert (containsInteger (w :: ws) v = true) as ->; [|done].
  apply existsb_exists. exists v. split; [apply list_elem_of_In; by apply Hex|lia].
Qed.

Lemma validateNumber_within parameter value limit :
  (forall v, value = Some v -> within_number limit v) -> validateNumber policy parameter value limit = None.
Proof.
  intros Hw. unfold validateNumber. destruct value as [v|]; [|done].
  destruct (Hw v eq_refl) as (-> & Hmin & Hmax & Hex). cbn [negb].
  assert (match NlMinimum limit with Some m => Qlt_b v m | None => false end = false) as ->.
  { destruct (NlMinimum limit) as [m|]; [|done]. apply Qlt_b_false. by apply Hmin. }
  assert (match NlMaximum limit with Some m => Qlt_b m v | None => false end = false) as ->.
  { destruct (NlMaximum limit) as [m|]; [|done]. apply Qlt_b_false. by apply Hmax. }
  destruct (NlExactValues limit) as [|w ws]; [done|].
  assert (containsNumber (w :: ws) v = true) as ->; [|done].
  destruct Hex as (x & Hx & Heq); [done|]. apply existsb_exists. exists x.
  split; [by apply list_elem_of_In|]. apply Qeq_bool_iff. by symmetry.
Qed.

Lemma reasoningEnabled_agree r : reasoningEnabledByRequest (AdapterCapabilities c) r = reasoningEnabledForModel c r.
Proof. done. Qed.

Lemma validateCondition_met r s : condition_met c r s -> validateCondition policy r s = None.
Proof using Hb.
  unfold validateCondition. rewrite Hcaps, reasoningEnabled_agree. intros Hm.
  destruct (match ScThinkingEnabled s with Some _ => _ | None => false end) eqn:Ht; [done|].
  destruct Hm as [He Ha].
  { intros b Hs. rewrite Hs in Ht. apply negb_false_iff, Bool.eqb_prop in Ht. done. }
  assert (match ScTemperatureExact s, Temperature r with Some exact, Some t => negb (Qeq_bool t exact) | _, _ => false end
          = false) as ->.
  { destruct (ScTemperatureExact s) as [x|], (Temperature r) as [t|]; try done.
    apply negb_false_iff, Qeq_bool_iff. by apply He. }
  destruct (ScTemperatureAtMost s) as [a|], (Temperature r) as [t|], (ScNMaximum s) as [n_max|], (N_ r) as [n|]; try done.
  destruct (Qle_bool t a && (n_max <? n))%bool eqn:Hq; [|done]. to_prop. exfalso.
  assert (n <= n_max); [|lia]. eapply Ha; try done. by apply Qle_bool_iff.
Qed.

Lemma replay_missing_structural index ms e : replay_missing policy index ms = Some e -> structural e = true.
Proof.
  revert index. induction ms as [|m ms IH]; intros index; simpl; [done|]. destruct (_ && _)%bool; [by intros [= <-]|eauto].
Qed.

Lemma contains_mode modes mode :
  mode_string mode ∈ modes -> containsToolChoiceMode (mode_of_string <$> modes) mode = true.
Proof.
  intros Hin. apply existsb_exists. exists (mode_of_string (mode_string mode)).
  rewrite mode_string_of, String.eqb_refl. split; [|done]. apply list_elem_of_In, list_elem_of_fmap. eauto.
Qed.

Lemma validateParameters_structural r e :
  Supports c r -> plain_request c r -> validateParameters policy r = Some e -> structural e = true.
Proof using Hb.
  intros Hs [_ Hf]. unfold validateParameters. rewrite (bu_sampling _ _ _ _ Hb). caps.
  rewrite !(validateInteger_within _ _ _ (su_max _ _ Hs)), !(validateInteger_within _ _ _ (su_n _ _ Hs)),
    !(validateInteger_within _ _ _ (su_budget _ _ Hs)), !(validateNumber_within _ _ _ (su_temperature _ _ Hs)),
    !(validateNumber_within _ _ _ (su_top_p _ _ Hs)), !(validateNumber_within _ _ _ (su_top_k _ _ Hs)),
    !(validateNumber_within _ _ _ (su_presence _ _ Hs)), !(validateNumber_within _ _ _ (su_frequency _ _ Hs)).
  assert (validateSamplingConditions policy r (PcSamplingConditions (McParameters c)) = None) as ->.
  { apply first_failure_fmap_none. eapply Forall_impl; [apply (su_conditions _ _ Hs)|]. intros s. apply validateCondition_met. }
  intros H%first_failure_some. revert H. rewrite !elem_of_cons, elem_of_nil. cbn [andb].
  intros H. repeat destruct H as [H|H]; try done; symmetry in H; revert H.
  - unfold validateReasoningReplay. destruct (negb _); [done|]. apply replay_missing_structural.
  - destruct (_ && _)%bool; [by intros [= <-]|done].
  - destruct (existsb _ _); [by intros [= <-]|done].
  - destruct (ResponseFormat_ r) as [f|] eqn:Hr; [|done]. destruct (su_format _ _ Hs f Hr) as [Ho Hj].
    destruct (RfType f) eqn:Ht; [done|by rewrite Ho|by rewrite Hj|by destruct (Hf f s eq_refl)].
  - destruct (ParallelToolCalls r) eqn:Hp; [|done]. rewrite (su_parallel _ _ Hs); [done|by rewrite Hp].
  - destruct (ToolChoice_ r) as [ch|] eqn:Hch; [|done]. destruct (su_choice _ _ Hs ch Hch) as [_ Hin].
    rewrite ?Hcaps, reasoningEnabled_agree.
    destruct (McToolChoiceModesWithReasoning c) as [|m ms] eqn:Hw; [done|]. rewrite fmap_cons. cbn [andb].
    destruct (reasoningEnabledForModel c r); [|done]. rewrite <- fmap_cons, contains_mode; [done|]. by apply Hin.
  - case_bool_decide; [done|]. by rewrite (su_cache _ _ Hs).
  - case_bool_decide; [done|]. by rewrite (su_safety _ _ Hs).
  - destruct (_ && _)%bool; [by intros [= <-]|done].
Qed.

Lemma encodeReasoning_structural reasoning e :
  (forall cfg, reasoning = Some cfg -> reasoning_supported c cfg) ->
  encodeReasoning policy reasoning = Err e -> structural e = true.
Proof using Hb Hco.
  intros Hs. unfold encodeReasoning. destruct reasoning as [cfg|]; [|done].
  destruct (Hs cfg eq_refl) as [_ Htog Halw Heff Hpre Hkeep]. destruct Hco as [Hon Hprov].
  assert (Henabled : (is_set (Enabled cfg) && negb (AdReasoningToggle (AdapterCapabilities c)) &&
                      negb (AdReasoningAlwaysOn (AdapterCapabilities c)))%bool = false).
  { destruct (Enabled cfg) eqn:He; [|done]. cbn [is_set andb AdapterCapabilities AdReasoningToggle AdReasoningAlwaysOn].
    assert (McReasoningMode c ∈ [ReasoningToggle; ReasoningHybrid; ReasoningAlwaysOnMode]) as Hm by by apply Htog.
    rewrite !elem_of_cons, elem_of_nil in Hm. destruct Hm as [Hm|[Hm|[Hm|[]]]]; rewrite Hm; [done|done|].
    rewrite Hon by done. by rewrite andb_false_r. }
  assert (Heffort : (negb (no_effort (Effort cfg)) && negb (AdReasoningEffort (AdapterCapabilities c)))%bool = false).
  { unfold no_effort. destruct (String.eqb_spec (effort_string (Effort cfg)) "") as [|Hne]; [done|].
    specialize (Heff Hne). cbn [AdapterCapabilities AdReasoningEffort].
    destruct (McReasoningEfforts c); [by apply not_elem_of_nil in Heff|]. simpl. by rewrite orb_true_r. }
  assert (Hpreserve : (is_set (Preserve cfg) && negb (bool_decide (PoReasoning policy = reasoningWireZhipu)) &&
                       negb (bool_decide (PoReasoning policy = reasoningWireKimi)))%bool = false).
  { destruct (Preserve cfg) eqn:Hp; [|done]. rewrite (bu_reasoning _ _ _ _ Hb).
    assert (McReasoningPreserve c = true) as Hk by (apply Hpre; by rewrite ?Hp).
    destruct (Hprov Hk) as [Hz|Hz]; rewrite Hz; cbn [is_set andb]; reflexivity. }
  destruct (checkReasoning policy cfg) as [e'|] eqn:Hchk.
  - intros [= <-]. revert Hchk. unfold checkReasoning. rewrite Hcaps. cbv zeta. rewrite Henabled, Heffort, Hpreserve.
    repeat match goal with |- context [if ?b then _ else _] => destruct b; [by intros [= <-]|] end. done.
  - destruct (PoReasoning policy); try discriminate. caps. destruct (McReasoningAlwaysOn c) eqn:Hao; [|done].
    destruct (Enabled cfg) as [[]|] eqn:He; [|by specialize (Halw eq_refl)|];
      (destruct (Preserve cfg) as [[]|] eqn:Hp; [done|by specialize (Hkeep eq_refl)|done]).
Qed.

Lemma buildWireRequest_structural r e :
  Supports c r -> plain_request c r -> buildWireRequest rstd policy r = Err e -> structural e = true.
Proof using Hb Hco.
  intros Hs Hpl. unfold buildWireRequest. caps.
  destruct (bool_decide (TrimSpace _ = "")); [by intros [= <-]|].
  destruct (bool_decide (length _ = _)); [by intros [= <-]|].
  assert ((Stream_ r && negb (McStreaming c))%bool = false) as ->.
  { destruct (Stream_ r) eqn:Hst; [|done]. by rewrite (su_stream _ _ Hs). }
  destruct (encodeMessages rstd policy (Messages r)) as [messages|e1] eqn:Hm.
  2:{ intros [= <-]. eapply encode_messages_structural; [apply (su_messages _ _ Hs)| |apply Hpl|exact Hm].
      intros m (i & Hi)%list_elem_of_lookup Hp. by destruct (su_partial _ _ Hs i m Hi Hp). }
  destruct (encodeTools rstd policy (Tools r)) as [tools|e1] eqn:Ht.
  2:{ intros [= <-]. revert Ht. unfold encodeTools. caps. destruct (Tools r) as [|t ts] eqn:Htr; [done|].
      destruct (su_tools _ _ Hs) as [-> _]; [by rewrite Htr|]. cbn [negb]. destruct (_ && _)%bool; [by intros [= <-]|].
      apply encode_tools_structural. rewrite <- Htr. apply (su_strict _ _ Hs). }
  destruct (encodeToolChoice policy _ _) as [choice|e1] eqn:Hc.
  2:{ intros [= <-]. eapply encodeToolChoice_structural; [|exact Hc]. intros ch Hch. by apply (su_choice _ _ Hs ch). }
  destruct (validateParameters policy r) as [e1|] eqn:Hp; [intros [= <-]; by eapply validateParameters_structural|].
  cbv zeta. destruct (encodeReasoning policy _) as [fields|e1] eqn:Hr; [done|]. intros [= <-].
  eapply encodeReasoning_structural; [|exact Hr]. apply (su_reasoning _ _ Hs).
Qed.
End represents.

Lemma supports_with_model c r name : Supports c r -> Supports c (with_model r name).
Proof. intros []. by constructor. Qed.

(** C16.  The two capability checks agree: for every model of the catalogue, a
    request that passes the gateway's validation is never refused by the
    adapter as an unsupported capability, nor for a parameter out of range or
    in conflict with the model's conditions, unless it replays what the model
    does not keep, has developer messages or an unknown response format. *)
Theorem validated_requests_fit rstd std kind profile url policy model r apiKey e :
  profile ∈ catalogModels kind ->
  MoCapabilities model = ModelCapabilitiesFromProfile profile ->
  Build std kind url (AdapterCapabilities (MoCapabilities model)) = Ok policy ->
  validateCapabilities model r = None ->
  plain_request (MoCapabilities model) r ->
  ProviderRequest.BuildRequest rstd policy apiKey (with_model r (MoUpstreamName model)) = Err e ->
  Kind e <> ErrorUnsupportedCapability /\
  Code e ∉ ["parameter_out_of_range"; "parameter_condition_violation"; "tool_choice_with_thinking"].
Proof.
  intros Hin Hc Hb%Build_makes Hv%validate_supports Hpl He.
  assert (structural e = true) as Hs.
  { revert He. unfold ProviderRequest.BuildRequest. destruct (bool_decide _); [by intros [= <-]|].
    destruct (buildWireRequest _ _ _) as [wire|e1] eqn:Hw; [repeat case_match; intros; by simplify_eq|].
    intros [= <-]. eapply buildWireRequest_structural; [exact Hb| | | |exact Hw].
    - rewrite Hc. by apply catalog_coherent.
    - by apply supports_with_model.
    - exact Hpl. }
  unfold structural in Hs. to_prop. split; [done|]. intros Hin'.
  apply not_true_iff_false in H0. apply H0. unfold one_of. apply existsb_exists.
  exists (Code e). rewrite String.eqb_refl. split; [by apply list_elem_of_In|done].
Qed.

(** ** A concrete model *)

Definition represents_std : Std :=
  mkStd (λ _, Err (OtherError "invalid character")) (λ _, None) (λ _, None)
    (λ _, Ok (mkParsedURL "https" "api.moonshot.cn" false false "" "")).

(** Encoding fails for this request only: its schema is no JSON. *)
Definition represents_rstd : RequestStd :=
  mkRequestStd (λ s, Ok (bool_decide (s = "{}"), "")) (λ s, s)
    (λ w, match WqResponseFormat w with Some _ => Err (OtherError "invalid schema") | None => Ok "{}" end) (λ _, None).

Definition represents_model : Model :=
  mkModel "m" "public" "kimi-k2.6" "p" "kimi" "kimi" "https://api.moonshot.cn/v1"
    (ModelCapabilitiesFromProfile kimiK26Model) 0.

Definition represents_request (format : option ResponseFormat) : ChatRequest :=
  mkChatRequest "request" "public" [text_message "hello"] [] None None true None (Some 10) (Some 1) (Some 1%Q) None None
    None None None [] format (Some (mkReasoningConfig (Some true) (ReasoningEffortOther "") (Some true))) "" "".

Definition represents_format : option ResponseFormat :=
  Some (mkResponseFormat ResponseFormatJSONSchema (Some (mkJSONSchema "s" "" "not json" None))).

Lemma validated_requests_fit_witness :
  exists e,
    ProviderRequest.BuildRequest represents_rstd (kimiPolicy represents_std (AdapterCapabilities (MoCapabilities represents_model)))
      "key" (with_model (represents_request represents_format) "kimi-k2.6") = Err e /\
    Code e = "encode_request" /\ Kind e <> ErrorUnsupportedCapability.
Proof.
  eexists. split; [vm_compute; reflexivity|]. split; [reflexivity|].
  eapply (validated_requests_fit represents_rstd represents_std KindKimi kimiK26Model "https://api.moonshot.cn/v1" _
            represents_model (represents_request represents_format) "key");
    [apply list_elem_of_In; simpl; tauto|reflexivity|reflexivity|vm_compute; reflexivity| |vm_compute; reflexivity].
  split; [|by intros f s [= <-]]. repeat constructor; done.
Defined.

(** A developer message is refused by every adapter, whatever the model: the
    Responses protocol turns the caller's instructions into one. *)
Lemma developer_message_refused rstd policy messages m :
  (forall i m', messages !! i = Some m' -> exists w, encodeMessage rstd policy (N.of_nat i) m' = Ok w) ->
  MsRole m = RoleDeveloper ->
  exists e, encodeMessages rstd policy (messages ++ [m]) = Err e /\ Kind e = ErrorUnsupportedCapability.
Proof.
  intros Hok Hm. unfold encodeMessages.
  assert (forall k, (forall i m', messages !! i = Some m' -> exists w, encodeMessage rstd policy (k + N.of_nat i) m' = Ok w) ->
    exists e, encode_messages rstd policy k (messages ++ [m]) = Err e /\ Kind e = ErrorUnsupportedCapability) as Hk;
    [|apply Hk; intros i m'; rewrite N.add_0_l; apply Hok].
  clear Hok. induction messages as [|m1 messages IH]; intros k Hok; simpl.
  - unfold encodeMessage. rewrite Hm. simpl. by eexists.
  - destruct (Hok 0%nat m1 eq_refl) as (w & Hw). rewrite N.add_0_r in Hw. rewrite Hw.
    destruct (IH (N.succ k)) as (e & -> & He).
    + intros i m' Hi. destruct (Hok (S i) m' Hi) as (w' & Hw'). exists w'. rewrite <- Hw'. f_equal. lia.
    + by exists e.
Qed.
