(* ===== verification/ProviderEnv.v ===== *)
(** * The workflow over the real adapters

    The workflow's theorems hold over any environment that keeps the adapter's
    promise.  Here the calls of the workflow to a provider adapter are answered
    by the modelled adapters: [ProviderFactory.Adapter] of
    [src/internal/requestflow/factory.go] over the default catalogue, the
    request encoder, the error classifier, the response and the stream parser.
    Everything else is answered by an arbitrary environment, which also knows
    the headers of the current HTTP response.  The promise then holds without
    an assumption. *)

From S2P Require Import Prelude GoStrings Canonical Capabilities Capacity Effects Monitor Workflow WorkflowProps.
From S2P Require Import Wire ProviderRequest ProviderResponse ProviderCatalog ProviderProps ProviderStreamProps.

Local Open Scope Z_scope.

(** [up_adapter] is the model the current adapter was made for. *)
Record Upstream (W : Type) := mkUpstream {
  up_base : W;
  up_adapter : option Model;
  up_parser : chatStreamParser;
}.
Arguments mkUpstream {W}.
Arguments up_base {W} u.
Arguments up_adapter {W} u.
Arguments up_parser {W} u.

Definition kind_of_string (s : string) : option ProviderKind :=
  if bool_decide (s = "siliconflow") then Some KindSiliconFlow
  else if bool_decide (s = "zhipu") then Some KindZhipu
  else if bool_decide (s = "agnes") then Some KindAgnes
  else if bool_decide (s = "kimi") then Some KindKimi
  else None.

(** [ProviderFactory.Adapter] *)
Definition factoryAdapter (std : Std) (model : Model) : result GoError wirePolicy :=
  match kind_of_string (MoProviderKind model) with
  | Some kind => Build std kind (MoProviderBaseURL model) (AdapterCapabilities (MoCapabilities model))
  | None => Err (OtherError "unsupported Provider kind")
  end.

Definition error_of {A} (r : result Error A) : option GoError :=
  match r with Ok _ => None | Err e => Some (CanonicalError e) end.

(** Before [FactoryAdapter] has succeeded there is no adapter to call; the
    workflow never does. *)
Definition no_adapter : GoError := OtherError "no adapter".
Definition no_adapter_error : Error := new_error ErrorProviderConfiguration "no_adapter" "no adapter".

Lemma classified_refusal (e : Error) :
  Kind e ∈ [ErrorInvalidRequest; ErrorUnsupportedCapability; ErrorProviderConfiguration; ErrorInternalInvariant] ->
  reported e.
Proof. unfold reported. rewrite !elem_of_cons, elem_of_nil. intros H. split; intros Heq; rewrite Heq in H; naive_solver. Qed.

Section env.
Context {W : Type} `{!Env W} (std : Std) (rstd : RequestStd) (pstd : ResponseStd) (headers : W -> Header).

Definition adapter (u : Upstream W) : option wirePolicy :=
  match up_adapter u with
  | Some model => match factoryAdapter std model with Ok policy => Some policy | Err _ => None end
  | None => None
  end.

Definition upstream_answer {R} (op : Op R) (u : Upstream W) : R * Upstream W :=
  match op in Op R return R * Upstream W with
  | FactoryAdapter model =>
      match factoryAdapter std model with
      | Ok _ => (None, mkUpstream (up_base u) (Some model) (up_parser u))
      | Err err => (Some err, u)
      end
  | Effects.BuildRequest secret request =>
      match adapter u with
      | Some policy => (error_of (ProviderRequest.BuildRequest rstd policy secret request), u)
      | None => (Some no_adapter, u)
      end
  | Effects.ClassifyError status body =>
      match adapter u with
      | Some policy => (Wire.ClassifyError std policy status (headers (up_base u)) body, u)
      | None => (no_adapter_error, u)
      end
  | Effects.ParseResponse status body =>
      match adapter u with
      | Some policy =>
          (lift_result (ProviderResponse.ParseResponse std pstd policy status (headers (up_base u)) body), u)
      | None => (Err no_adapter, u)
      end
  | Effects.ParseStream => (tt, mkUpstream (up_base u) (up_adapter u) ProviderResponse.ParseStream)
  | ParserFeed chunk =>
      match adapter u with
      | Some policy =>
          let '(r, p) := parserFeed std pstd policy (up_parser u) chunk in (r, mkUpstream (up_base u) (up_adapter u) p)
      | None => (Err no_adapter, u)
      end
  | ParserClose =>
      match adapter u with
      | Some policy =>
          let '(r, p) := parserClose std pstd policy (up_parser u) in (r, mkUpstream (up_base u) (up_adapter u) p)
      | None => (Err no_adapter, u)
      end
  | op => let '(r, w) := answer _ op (up_base u) in (r, mkUpstream w (up_adapter u) (up_parser u))
  end.


#[export] Instance UpstreamEnv : Env (Upstream W) := {| answer := @upstream_answer |}.

Lemma adapter_built u policy : adapter u = Some policy -> exists kind caps, built std kind caps policy.
Proof.
  unfold adapter, factoryAdapter. destruct (up_adapter u) as [m|]; [|done].
  destruct (kind_of_string _) as [kind|]; [|done]. destruct (Build _ _ _ _) as [p|] eqn:Hb; [|done].
  intros [= <-]. exists kind, (AdapterCapabilities (MoCapabilities m)). by apply Build_makes in Hb.
Qed.

#[export] Instance UpstreamLawful : LawfulEnv (Upstream W).
Proof.
  split. intros R op u. destruct op; try done; cbn [allowed answer UpstreamEnv upstream_answer].
  - destruct (adapter u) as [policy|] eqn:Hu; cbn [fst].
    + unfold error_of. intros err e. destruct (ProviderRequest.BuildRequest _ _ _ _) as [|e'] eqn:Hbr; [done|].
      intros [= <-] [= <-]. apply BuildRequest_refusal in Hbr as (Hk & _). apply classified_refusal. done.
    + intros err e [= <-] He. done.
  - destruct (adapter u) as [policy|] eqn:Hu; cbn [fst]; [|done].
    apply adapter_built in Hu as (kind & caps & Hb). apply classified_reported.
    by destruct (ClassifyError_facts std kind caps policy Hb status (headers (up_base u)) body).
Qed.

End env.

(** ** A stream through the whole path *)

Definition path_model : Model :=
  mkModel "m" "public" "kimi-k3" "p" "kimi" "kimi" "https://api.moonshot.cn/v1"
    (ModelCapabilitiesFromProfile kimiK3Model) 0.

Definition path_answer {R} (op : Op R) (w : nat) : R * nat :=
  match op in Op R return R * nat with
  | ResolveAvailableModel _ _ => (Ok path_model, w)
  | BodyRead => ((String.concat "" demo_chunks, ReadEOF), w)
  | op => demo_answer op w
  end.

#[local] Instance path_env : Env nat := {| answer := @path_answer |}.

Definition path_std : Std :=
  mkStd (decode_error demo_std) (decode_any demo_std) (parse_time demo_std)
    (λ _, Ok (mkParsedURL "https" "api.moonshot.cn" false false "" "")).

Definition path_rstd : RequestStd := mkRequestStd (λ s, Ok (true, "")) (λ s, s) (λ _, Ok "{}") (λ _, None).

#[local] Instance path_upstream : Env (Upstream nat) := UpstreamEnv path_std path_rstd demo_pstd (λ _, Some (λ _, "")).

(** The first credential is turned away with 429, the second one's stream is
    parsed and delivered to the caller. *)
Example path_stream :
  let '(r, st) := Stream demo_service 5 true (demo_command true) (mkSt (mkUpstream 0%nat None ParseStream) []) in
  (r, length (filter (λ e, is_send e = true) (trace st)), length (filter (λ e, is_sink e = true) (trace st))) =
  (Some None, 2%nat, 4%nat).
Proof. vm_compute. reflexivity. Qed.
