(* ===== verification/ResponseStream.v ===== *)
(** * The Responses event stream

    Models the presentation of responses ([src/internal/protocol/responses_present.go])
    and the state machine that turns the workflow's stream events into the
    numbered events of the Responses protocol
    ([src/internal/publicapi/responses_stream_state.go]), with the handler that
    drives it ([responses_stream.go]).

    A JSON object of the protocol is a record or a constructor with its fields;
    the fields that are constants are left out.  Writing to the client may fail
    at any event: [write] tells the error of the write of a sequence number. *)

From stdpp Require Import pretty.
From S2P Require Import Prelude GoStrings Canonical Capabilities.

Local Open Scope Z_scope.

(** ** Standard library *)

Fixpoint strip (p s : string) : option string :=
  match p, s with
  | EmptyString, _ => Some s
  | String a p', String b s' => if decide (a = b) then strip p' s' else None
  | _, _ => None
  end.

(** [strings.TrimPrefix] and [strings.HasPrefix] *)
Definition TrimPrefix (s p : string) : string := match strip p s with Some r => r | None => s end.
Definition HasPrefix (s p : string) : bool := match strip p s with Some _ => true | None => false end.

(** [Time.Unix] *)
Definition Unix (t : Z) : Z := (t - unixEpoch) `div` Second.

(** ** responses_present.go *)

Record ResponsesRequest := mkResponsesRequest {
  ReChat : ChatRequest;
  ReInstructions : string;
  RePreviousResponseID : string;
  ReStore : bool;
  ReBackground : bool;
  ReInput : string;
}.

(** An output item.  [ItStatus] is empty for reasoning, which has no status;
    [ItText] is the text of a message or a summary, the arguments of a call;
    [ItFilled] is whether the content or summary list holds its one part. *)
Inductive ItemType := ItemMessage | ItemReasoning | ItemFunctionCall.

#[export] Instance ItemType_eq_dec : EqDecision ItemType.
Proof. solve_decision. Defined.

Record Item := mkItem {
  ItId : string;
  ItType : ItemType;
  ItStatus : string;
  ItCallID : string;
  ItName : string;
  ItText : string;
  ItFilled : bool;
}.

Record PresentedUsage := mkPresentedUsage {
  PuInput : Z;
  PuOutput : Z;
  PuTotal : Z;
  PuCached : Z;
  PuReasoning : Z;
}.

Inductive PresentedChoice := PresentMode (mode : string) | PresentFunction (name : string).

Record PresentedResponse := mkPresented {
  PrId : string;
  PrStatus : string;
  PrModel : string;
  PrError : option Error;
  PrInstructions : option string;
  PrMaxOutputTokens : option Z;
  PrPreviousResponseID : option string;
  PrStore : bool;
  PrTemperature : option Q;
  PrTopP : option Q;
  PrBackground : bool;
  PrEffort : option string;
  PrFormat : string;
  PrToolChoice : PresentedChoice;
  PrTools : list ToolDefinition;
  PrCreatedAt : Z;
  PrCompletedAt : option Z;
  PrOutput : list Item;
  PrOutputText : string;
  PrUsage : option PresentedUsage;
}.

Definition format_string (t : ResponseFormatType) : string :=
  match t with
  | ResponseFormatText => "text" | ResponseFormatJSONObject => "json_object" | ResponseFormatJSONSchema => "json_schema"
  | ResponseFormatOther s => s
  end.

Definition reasoningEffort (reasoning : option ReasoningConfig) : option string :=
  match reasoning with
  | Some r => if bool_decide (effort_string (Effort r) = "") then None else Some (effort_string (Effort r))
  | None => None
  end.

Definition responseToolChoice (choice : option ToolChoice) : PresentedChoice :=
  match choice with
  | None => PresentMode "auto"
  | Some choice =>
      match Mode choice with
      | ToolChoiceFunction => PresentFunction (ChFunctionName choice)
      | mode => PresentMode (mode_string mode)
      end
  end.

Definition non_empty (s : string) : option string := if bool_decide (s = "") then None else Some s.

(** [responseBase], with the creation time its callers add. *)
Definition responseBase (id model : string) (request : ResponsesRequest) (status : string) (createdAt : Z) :
    PresentedResponse :=
  let chat := ReChat request in
  {| PrId := id; PrStatus := status; PrModel := model; PrError := None;
     PrInstructions := non_empty (ReInstructions request); PrMaxOutputTokens := MaxOutputTokens chat;
     PrPreviousResponseID := non_empty (RePreviousResponseID request); PrStore := ReStore request;
     PrTemperature := Temperature chat; PrTopP := TopP chat; PrBackground := ReBackground request;
     PrEffort := reasoningEffort (Reasoning_ chat);
     PrFormat := match ResponseFormat_ chat with Some f => format_string (RfType f) | None => "text" end;
     PrToolChoice := responseToolChoice (ToolChoice_ chat); PrTools := Tools chat; PrCreatedAt := createdAt;
     PrCompletedAt := None; PrOutput := []; PrOutputText := ""; PrUsage := None |}.

Definition PresentResponseInProgress (id model : string) (createdAt : Z) (request : ResponsesRequest) : PresentedResponse :=
  responseBase id model request "in_progress" createdAt.
Definition PresentResponseQueued (id model : string) (createdAt : Z) (request : ResponsesRequest) : PresentedResponse :=
  responseBase id model request "queued" createdAt.

Definition with_error (e : Error) (p : PresentedResponse) : PresentedResponse :=
  mkPresented (PrId p) (PrStatus p) (PrModel p) (Some e) (PrInstructions p) (PrMaxOutputTokens p)
    (PrPreviousResponseID p) (PrStore p) (PrTemperature p) (PrTopP p) (PrBackground p) (PrEffort p) (PrFormat p)
    (PrToolChoice p) (PrTools p) (PrCreatedAt p) (PrCompletedAt p) (PrOutput p) (PrOutputText p) (PrUsage p).

(** The error is presented from the canonical one. *)
Definition PresentResponseFailed (id model : string) (createdAt : Z) (request : ResponsesRequest) (e : Error) :
    PresentedResponse := with_error e (responseBase id model request "failed" createdAt).

Definition itemIdentifier (prefix responseID : string) (index : Z) : string :=
  prefix +:+ "_" +:+ TrimPrefix responseID "resp_" +:+ "_" +:+ pretty index.

Definition responseIdentifier (completionID : string) : string :=
  if HasPrefix completionID "resp_" then completionID
  else "resp_" +:+ TrimPrefix (TrimPrefix completionID "chatcmpl-") "chatcmpl_".

Definition ResponseIdentifierForRequest (requestID : string) : string := "resp_" +:+ drop_dashes requestID.

Fixpoint messageText (parts : list ContentPart) : string :=
  match parts with
  | [] => ""
  | part :: parts' => (if bool_decide (CpType part = ContentPartText) then CpText part else "") +:+ messageText parts'
  end.

Definition valueOrZero (value : option Z) : Z := match value with Some v => v | None => 0 end.

Definition responseUsage (usage : ReportedUsage) : PresentedUsage :=
  let input := valueOrZero (RuInputTokens usage) in
  let output := valueOrZero (RuOutputTokens usage) in
  mkPresentedUsage input output (wrap64 (input + output)) (valueOrZero (RuCachedInputTokens usage))
    (valueOrZero (RuReasoningTokens usage)).

Definition responseMessageItem (id text status : string) : Item := mkItem id ItemMessage status "" "" text true.

Fixpoint call_items (responseID : string) (choice index : Z) (calls : list ToolCall) : list Item :=
  match calls with
  | [] => []
  | call :: calls' =>
      mkItem (itemIdentifier "fc" responseID (choice * 1000 + index)) ItemFunctionCall "completed" (TcID call)
        (TfName (TcFunction call)) (TfArguments (TcFunction call)) true ::
      call_items responseID choice (index + 1) calls'
  end.

Definition choice_items (responseID : string) (index : Z) (choice : ChatChoice) : list Item :=
  let message := CcMessage choice in
  let text := messageText (MsContent message) in
  match MsReasoning message with
  | Some reasoning =>
      if bool_decide (RcText reasoning = "") then []
      else [mkItem (itemIdentifier "rs" responseID index) ItemReasoning "" "" "" (RcText reasoning) true]
  | None => []
  end ++
  (if bool_decide (text = "") then [] else [responseMessageItem (itemIdentifier "msg" responseID index) text "completed"]) ++
  call_items responseID index 0 (MsToolCalls message).

Fixpoint present_choices (responseID : string) (index : Z) (choices : list ChatChoice) : list Item * string :=
  match choices with
  | [] => ([], "")
  | choice :: choices' =>
      let '(items, text) := present_choices responseID (index + 1) choices' in
      (choice_items responseID index choice ++ items, messageText (MsContent (CcMessage choice)) +:+ text)
  end.

Definition PresentResponseWithID (responseID : string) (response : ChatResponse) (request : ResponsesRequest) :
    PresentedResponse :=
  let '(output, text) := present_choices responseID 0 (RsChoices response) in
  let base := responseBase responseID (RsModel response) request "completed" (Unix (RsCreatedAt response)) in
  mkPresented (PrId base) (PrStatus base) (PrModel base) (PrError base) (PrInstructions base) (PrMaxOutputTokens base)
    (PrPreviousResponseID base) (PrStore base) (PrTemperature base) (PrTopP base) (PrBackground base) (PrEffort base)
    (PrFormat base) (PrToolChoice base) (PrTools base) (PrCreatedAt base) (Some (Unix (RsCreatedAt response))) output text
    (responseUsage <$> RsUsage response).

Definition PresentResponse (response : ChatResponse) (request : ResponsesRequest) : PresentedResponse :=
  PresentResponseWithID (responseIdentifier (RsID response)) response request.

(** ** The state machine *)

Inductive ResponseEvent :=
| Created (response : PresentedResponse)
| InProgress (response : PresentedResponse)
| ItemAdded (output_index : Z) (item : Item)
| ItemDone (output_index : Z) (item : Item)
| PartAdded (item_id : string) (output_index : Z)
| PartDone (item_id : string) (output_index : Z) (text : string)
| TextDelta (item_id : string) (output_index : Z) (delta : string)
| TextDone (item_id : string) (output_index : Z) (text : string)
| SummaryDelta (item_id : string) (output_index : Z) (delta : string)
| SummaryDone (item_id : string) (output_index : Z) (text : string)
| ArgumentsDelta (item_id : string) (output_index : Z) (delta : string)
| ArgumentsDone (item_id : string) (name : string) (output_index : Z) (arguments : string)
| Completed (response : PresentedResponse)
| Failed (response : PresentedResponse).

(** [responseMessageStream] and [responseReasoningStream] have the same fields. *)
Record textStream := mkTextStream {
  TsStarted : bool;
  TsClosed : bool;
  TsId : string;
  TsOutputIndex : Z;
  TsText : string;
}.

Record responseToolStream := mkToolStream {
  ToClosed : bool;
  ToId : string;
  ToCallID : string;
  ToName : string;
  ToArguments : string;
  ToOutputIndex : Z;
}.

(** What the handler asks of the store of responses. *)
Inductive StoreCall := StoreBegin | StoreComplete (response : PresentedResponse) | StoreFail (e : Error).

(** The last three fields are what the handler does outside the struct: the
    events written, the calls to the store, and whether the response is in the
    table of running responses. *)
Record responseStream := mkResponseStream {
  RtRequest : ResponsesRequest;
  RtResponseID : string;
  RtModel : string;
  RtCreatedAt : Z;
  RtSequence : Z;
  RtStarted : bool;
  RtNextOutput : Z;
  RtMessage : textStream;
  RtReasoning : textStream;
  RtTools : gmap Z responseToolStream;
  RtUsage : option ReportedUsage;
  RtFinish : FinishReason;
  RtWritten : list (Z * ResponseEvent);
  RtStored : list StoreCall;
  RtRunning : bool;
}.

Definition no_text : textStream := mkTextStream false false "" 0 "".

Definition newResponseStream (request : ResponsesRequest) : responseStream :=
  mkResponseStream request "" (CrModel (ReChat request)) 0 0 false 0 no_text no_text ∅ None (FinishReasonOther "") [] [] false.

Definition set_sequence (n : Z) (w : list (Z * ResponseEvent)) (s : responseStream) : responseStream :=
  mkResponseStream (RtRequest s) (RtResponseID s) (RtModel s) (RtCreatedAt s) n (RtStarted s) (RtNextOutput s) (RtMessage s)
    (RtReasoning s) (RtTools s) (RtUsage s) (RtFinish s) w
    (RtStored s) (RtRunning s).
Definition set_started (id : string) (createdAt : Z) (s : responseStream) : responseStream :=
  mkResponseStream (RtRequest s) id (RtModel s) createdAt (RtSequence s) true (RtNextOutput s) (RtMessage s)
    (RtReasoning s) (RtTools s) (RtUsage s) (RtFinish s) (RtWritten s)
    (RtStored s) (RtRunning s).
Definition set_message (m : textStream) (s : responseStream) : responseStream :=
  mkResponseStream (RtRequest s) (RtResponseID s) (RtModel s) (RtCreatedAt s) (RtSequence s) (RtStarted s) (RtNextOutput s) m
    (RtReasoning s) (RtTools s) (RtUsage s) (RtFinish s) (RtWritten s)
    (RtStored s) (RtRunning s).
Definition set_reasoning (m : textStream) (s : responseStream) : responseStream :=
  mkResponseStream (RtRequest s) (RtResponseID s) (RtModel s) (RtCreatedAt s) (RtSequence s) (RtStarted s) (RtNextOutput s)
    (RtMessage s) m (RtTools s) (RtUsage s) (RtFinish s) (RtWritten s)
    (RtStored s) (RtRunning s).
Definition set_tool (index : Z) (t : responseToolStream) (s : responseStream) : responseStream :=
  mkResponseStream (RtRequest s) (RtResponseID s) (RtModel s) (RtCreatedAt s) (RtSequence s) (RtStarted s) (RtNextOutput s)
    (RtMessage s) (RtReasoning s) (<[index := t]> (RtTools s)) (RtUsage s) (RtFinish s) (RtWritten s)
    (RtStored s) (RtRunning s).
Definition set_usage (u : option ReportedUsage) (s : responseStream) : responseStream :=
  mkResponseStream (RtRequest s) (RtResponseID s) (RtModel s) (RtCreatedAt s) (RtSequence s) (RtStarted s) (RtNextOutput s)
    (RtMessage s) (RtReasoning s) (RtTools s) u (RtFinish s) (RtWritten s)
    (RtStored s) (RtRunning s).
Definition set_finish (f : FinishReason) (s : responseStream) : responseStream :=
  mkResponseStream (RtRequest s) (RtResponseID s) (RtModel s) (RtCreatedAt s) (RtSequence s) (RtStarted s) (RtNextOutput s)
    (RtMessage s) (RtReasoning s) (RtTools s) (RtUsage s) f (RtWritten s)
    (RtStored s) (RtRunning s).

(** [allocateOutput] is the index [RtNextOutput] and this change. *)
Definition allocateOutput (s : responseStream) : responseStream :=
  mkResponseStream (RtRequest s) (RtResponseID s) (RtModel s) (RtCreatedAt s) (RtSequence s) (RtStarted s)
    (RtNextOutput s + 1) (RtMessage s) (RtReasoning s) (RtTools s) (RtUsage s) (RtFinish s) (RtWritten s)
    (RtStored s) (RtRunning s).

Definition stored (c : StoreCall) (s : responseStream) : responseStream :=
  mkResponseStream (RtRequest s) (RtResponseID s) (RtModel s) (RtCreatedAt s) (RtSequence s) (RtStarted s) (RtNextOutput s)
    (RtMessage s) (RtReasoning s) (RtTools s) (RtUsage s) (RtFinish s) (RtWritten s) (RtStored s ++ [c]) (RtRunning s).
Definition set_running (b : bool) (s : responseStream) : responseStream :=
  mkResponseStream (RtRequest s) (RtResponseID s) (RtModel s) (RtCreatedAt s) (RtSequence s) (RtStarted s) (RtNextOutput s)
    (RtMessage s) (RtReasoning s) (RtTools s) (RtUsage s) (RtFinish s) (RtWritten s) (RtStored s) b.

Definition append_text (delta : string) (t : textStream) : textStream :=
  mkTextStream (TsStarted t) (TsClosed t) (TsId t) (TsOutputIndex t) (TsText t +:+ delta).
Definition close_text (t : textStream) : textStream :=
  mkTextStream (TsStarted t) true (TsId t) (TsOutputIndex t) (TsText t).
Definition close_tool (t : responseToolStream) : responseToolStream :=
  mkToolStream true (ToId t) (ToCallID t) (ToName t) (ToArguments t) (ToOutputIndex t).

(** A method that may fail: the error, and the state it leaves. *)
Definition Act : Type := responseStream -> option GoError * responseStream.

(** [if err := m(); err != nil { return err }; return k()] *)
Definition andthen (m k : Act) : Act := λ s, match m s with (None, s') => k s' | r => r end.
Definition skip : Act := λ s, (None, s).
Definition change (f : responseStream -> responseStream) : Act := λ s, (None, f s).

Declare Scope act_scope.
Delimit Scope act_scope with act.
Infix ";>" := andthen (at level 60, right associativity) : act_scope.

Section stream.
Variable write : Z -> option GoError.

Definition emit (event : ResponseEvent) : Act := λ s,
  let n := RtSequence s + 1 in
  match write n with
  | Some err => (Some err, set_sequence n (RtWritten s) s)
  | None => (None, set_sequence n (RtWritten s ++ [(n, event)]) s)
  end.

Local Open Scope act_scope.

(** [start]; [now] is the current time. *)
Definition start (now : Z) (event : StreamEvent) : Act := λ s,
  let createdAt := if IsZero (SeCreatedAt event) then Unix now else Unix (SeCreatedAt event) in
  let s := set_started (RtResponseID s) createdAt s in
  let base := PresentResponseInProgress (RtResponseID s) (RtModel s) createdAt (RtRequest s) in
  (emit (Created base) ;> emit (InProgress base)) s.

Definition ensureMessage : Act := λ s,
  if TsStarted (RtMessage s) then (None, s)
  else
    let m := mkTextStream true false ("msg_" +:+ TrimPrefix (RtResponseID s) "resp_") (RtNextOutput s) "" in
    (emit (ItemAdded (TsOutputIndex m) (mkItem (TsId m) ItemMessage "in_progress" "" "" "" false)) ;>
     emit (PartAdded (TsId m) (TsOutputIndex m))) (set_message m (allocateOutput s)).

Definition ensureReasoning : Act := λ s,
  if TsStarted (RtReasoning s) then (None, s)
  else
    let m := mkTextStream true false ("rs_" +:+ TrimPrefix (RtResponseID s) "resp_") (RtNextOutput s) "" in
    emit (ItemAdded (TsOutputIndex m) (mkItem (TsId m) ItemReasoning "" "" "" "" false)) (set_reasoning m (allocateOutput s)).

(** The new tool stream of [consumeToolDelta]. *)
Definition ensureTool (delta : ToolCallDelta) : Act := λ s,
  match RtTools s !! DeIndex delta with
  | Some _ => (None, s)
  | None =>
      let id :=
        if bool_decide (DeID delta = "") then
          "fc_" +:+ TrimPrefix (RtResponseID s) "resp_" +:+ "_" +:+ pretty (DeIndex delta)
        else DeID delta in
      let tool := mkToolStream false id (DeID delta) (DeFunctionName delta) "" (RtNextOutput s) in
      emit (ItemAdded (ToOutputIndex tool) (mkItem id ItemFunctionCall "in_progress" (ToCallID tool) (ToName tool) "" true))
        (set_tool (DeIndex delta) tool (allocateOutput s))
  end.

Definition append_tool (delta : ToolCallDelta) (t : responseToolStream) : responseToolStream :=
  mkToolStream (ToClosed t) (ToId t) (if bool_decide (DeID delta = "") then ToCallID t else DeID delta)
    (if bool_decide (DeFunctionName delta = "") then ToName t else DeFunctionName delta)
    (ToArguments t +:+ DeArgumentsFragment delta) (ToOutputIndex t).

Definition consumeToolDelta (delta : option ToolCallDelta) : Act :=
  match delta with
  | None => skip
  | Some delta =>
      ensureTool delta ;>
      λ s,
        match RtTools s !! DeIndex delta with
        | Some tool =>
            emit (ArgumentsDelta (ToId tool) (ToOutputIndex tool) (DeArgumentsFragment delta))
              (set_tool (DeIndex delta) (append_tool delta tool) s)
        | None => (None, s)
        end
  end.

Definition closeReasoning : Act := λ s,
  let r := RtReasoning s in
  if (negb (TsStarted r) || TsClosed r)%bool then (None, s)
  else
    (emit (SummaryDone (TsId r) (TsOutputIndex r) (TsText r)) ;>
     emit (ItemDone (TsOutputIndex r) (mkItem (TsId r) ItemReasoning "" "" "" (TsText r) true))) (set_reasoning (close_text r) s).

Definition closeMessage : Act := λ s,
  let m := RtMessage s in
  if (negb (TsStarted m) || TsClosed m)%bool then (None, s)
  else
    (emit (TextDone (TsId m) (TsOutputIndex m) (TsText m)) ;>
     emit (PartDone (TsId m) (TsOutputIndex m) (TsText m)) ;>
     emit (ItemDone (TsOutputIndex m) (responseMessageItem (TsId m) (TsText m) "completed"))) (set_message (close_text m) s).

(** The keys of the tools, sorted. *)
Definition indices (s : responseStream) : list Z := merge_sort Z.le (fst <$> map_to_list (RtTools s)).

Definition tool_item (t : responseToolStream) : Item :=
  mkItem (ToId t) ItemFunctionCall "completed" (ToCallID t) (ToName t) (ToArguments t) true.

(** The body of the loop of [closeTools]. *)
Definition closeTool (index : Z) : Act := λ s,
  match RtTools s !! index with
  | Some tool =>
      if ToClosed tool then (None, s)
      else
        (emit (ArgumentsDone (ToId tool) (ToName tool) (ToOutputIndex tool) (ToArguments tool)) ;>
         emit (ItemDone (ToOutputIndex tool) (tool_item tool))) (set_tool index (close_tool tool) s)
  | None => (None, s)
  end.

Fixpoint closeEach (l : list Z) : Act :=
  match l with [] => skip | index :: l' => closeTool index ;> closeEach l' end.

Definition closeTools : Act := λ s, closeEach (indices s) s.

Definition closeOutput : Act := closeReasoning ;> closeMessage ;> closeTools.

Definition tool_call (t : responseToolStream) : ToolCall :=
  mkToolCall (ToCallID t) "function" (mkToolFunctionCall (ToName t) (ToArguments t)).

Definition completedResponse (s : responseStream) : PresentedResponse :=
  let message :=
    mkMessage RoleAssistant ""
      (if TsStarted (RtMessage s) then TextContent (TsText (RtMessage s)) else []) false
      (omap (λ index, tool_call <$> RtTools s !! index) (indices s)) ""
      (if TsStarted (RtReasoning s) then Some (mkReasoningContent (TsText (RtReasoning s))) else None) in
  PresentResponseWithID (RtResponseID s)
    (mkChatResponse (RtResponseID s) "" (RtModel s) (unixEpoch + RtCreatedAt s * Second)
       [mkChatChoice 0 message (RtFinish s)] (RtUsage s)) (RtRequest s).

(** [consume]; [complete] is the callback, [marshal] whether the response
    cannot be encoded. *)
Definition consume (marshal : PresentedResponse -> option GoError) (complete : PresentedResponse -> Act)
    (event : StreamEvent) : Act :=
  match SeType event with
  | StreamMessageStart => ensureMessage
  | StreamContentDelta =>
      ensureMessage ;> change (λ s, set_message (append_text (SeContentDelta event) (RtMessage s)) s) ;>
      λ s, emit (TextDelta (TsId (RtMessage s)) (TsOutputIndex (RtMessage s)) (SeContentDelta event)) s
  | StreamReasoningDelta =>
      ensureReasoning ;> change (λ s, set_reasoning (append_text (SeReasoningDelta event) (RtReasoning s)) s) ;>
      λ s, emit (SummaryDelta (TsId (RtReasoning s)) (TsOutputIndex (RtReasoning s)) (SeReasoningDelta event)) s
  | StreamToolCallDelta => consumeToolDelta (SeToolCallDelta event)
  | StreamFinish => change (set_finish (SeFinishReason event)) ;> closeOutput
  | StreamUsageEvent => change (set_usage (SeUsage event))
  | StreamDone =>
      closeOutput ;>
      λ s,
        let response := completedResponse s in
        match marshal response with
        | Some err => (Some err, s)
        | None => (complete response ;> emit (Completed response)) s
        end
  | _ => skip
  end.

(** ** responses_stream.go *)

(** What the stored response answers to [Begin] and [Complete]. *)
Record StoreFate := mkStoreFate {
  on_begin : option GoError;
  on_complete : PresentedResponse -> option GoError;
}.

Definition set_responseID (id : string) (s : responseStream) : responseStream :=
  mkResponseStream (RtRequest s) id (RtModel s) (RtCreatedAt s) (RtSequence s) (RtStarted s) (RtNextOutput s) (RtMessage s)
    (RtReasoning s) (RtTools s) (RtUsage s) (RtFinish s) (RtWritten s)
    (RtStored s) (RtRunning s).

Section handler.
Variable now : Z.
Variable recordID : string.
Variable marshal : PresentedResponse -> option GoError.
Variable fate : StoreFate.

(** The callbacks of [streamResponse] that reach the store. *)
Definition beginStored : Act := λ s, if ReStore (RtRequest s) then (on_begin fate, stored StoreBegin s) else (None, s).
Definition completeStored (r : PresentedResponse) : Act := λ s,
  if ReStore (RtRequest s) then (on_complete fate r, stored (StoreComplete r) s) else (None, s).

(** What the sink does at the first event. *)
Definition startStream (event : StreamEvent) : Act := λ s,
  if RtStarted s then (None, s)
  else
    (change (set_responseID (ResponseIdentifierForRequest recordID)) ;> beginStored ;> change (set_running true) ;>
     start now event) s.

(** The sink of [streamResponse]. *)
Definition sink (event : StreamEvent) : Act := startStream event ;> consume marshal completeStored event.

(** The events the workflow hands to the sink, up to its first error. *)
Fixpoint deliver (events : list StreamEvent) : Act :=
  match events with [] => skip | event :: events' => sink event ;> deliver events' end.

(** [streamResponse] once the workflow has returned: an error before the
    stream started is an HTTP error, the first component; after that the stored
    response fails and a last event says so, and the failure of either is
    ignored. *)
Definition finishStream (workflowError : option Error) (s : responseStream) : option Error * responseStream :=
  let s := set_running false s in
  match workflowError with
  | None => (None, s)
  | Some e =>
      if negb (RtStarted s) then (Some e, s)
      else
        let s := if ReStore (RtRequest s) then stored (StoreFail e) s else s in
        (None, (emit (Failed (PresentResponseFailed (RtResponseID s) (RtModel s) (RtCreatedAt s) (RtRequest s) e)) s).2)
  end.

(** The workflow hands its events to the sink until one fails, then returns
    [workflowError]. *)
Definition streamResponse (request : ResponsesRequest) (events : list StreamEvent) (workflowError : option Error) :
    option Error * responseStream := finishStream workflowError (deliver events (newResponseStream request)).2.
End handler.
End stream.
