(* ===== verification/ResponseStreamProps.v ===== *)
(** * What the Responses stream guarantees

    The client of the Responses protocol sees items open, grow and close under
    an output index.  [phases] is that contract as an automaton over the
    written events; the theorems relate the state machine of [ResponseStream]
    to it and to the events the workflow delivered. *)

From S2P Require Import Prelude GoStrings Canonical Capabilities ResponseStream.

Local Open Scope Z_scope.

(** ** The client's view of one item *)

Inductive Phase :=
| Opened (id : string) (type : ItemType) (text : string)
| PartOpen (id : string) (text : string)
| TextClosed (id : string) (text : string)
| PartClosed (id : string) (text : string)
| SummaryClosed (id : string) (text : string)
| ArgumentsClosed (id : string) (name : string) (arguments : string)
| Finished.

(** The index and the change an event makes to the phase there; [None] for an
    event that concerns no item. *)
Definition concerns (e : ResponseEvent) : option Z :=
  match e with
  | ItemAdded i _ | ItemDone i _ | PartAdded _ i | PartDone _ i _ | TextDelta _ i _ | TextDone _ i _ | SummaryDelta _ i _
  | SummaryDone _ i _ | ArgumentsDelta _ i _ | ArgumentsDone _ _ i _ => Some i
  | _ => None
  end.

Definition same (a b : string) : bool := bool_decide (a = b).

Definition phase_step (e : ResponseEvent) (p : option Phase) : option Phase :=
  match e, p with
  | ItemAdded _ item, None => Some (Opened (ItId item) (ItType item) "")
  | PartAdded id _, Some (Opened id' ItemMessage text) => if same id id' then Some (PartOpen id text) else None
  | TextDelta id _ delta, Some (PartOpen id' text) => if same id id' then Some (PartOpen id (text +:+ delta)) else None
  | TextDone id _ done, Some (PartOpen id' text) =>
      if (same id id' && same done text)%bool then Some (TextClosed id text) else None
  | PartDone id _ done, Some (TextClosed id' text) =>
      if (same id id' && same done text)%bool then Some (PartClosed id text) else None
  | SummaryDelta id _ delta, Some (Opened id' ItemReasoning text) =>
      if same id id' then Some (Opened id ItemReasoning (text +:+ delta)) else None
  | SummaryDone id _ done, Some (Opened id' ItemReasoning text) =>
      if (same id id' && same done text)%bool then Some (SummaryClosed id text) else None
  | ArgumentsDelta id _ delta, Some (Opened id' ItemFunctionCall text) =>
      if same id id' then Some (Opened id ItemFunctionCall (text +:+ delta)) else None
  | ArgumentsDone id name _ done, Some (Opened id' ItemFunctionCall text) =>
      if (same id id' && same done text)%bool then Some (ArgumentsClosed id name text) else None
  | ItemDone _ item, Some (PartClosed id text) =>
      if (same (ItId item) id && same (ItText item) text && bool_decide (ItType item = ItemMessage))%bool
      then Some Finished else None
  | ItemDone _ item, Some (SummaryClosed id text) =>
      if (same (ItId item) id && same (ItText item) text && bool_decide (ItType item = ItemReasoning))%bool
      then Some Finished else None
  | ItemDone _ item, Some (ArgumentsClosed id name text) =>
      if (same (ItId item) id && same (ItText item) text && same (ItName item) name &&
          bool_decide (ItType item = ItemFunctionCall))%bool
      then Some Finished else None
  | _, _ => None
  end.

(** New items take the next index; [None] when the contract is broken. *)
Definition view_step (e : ResponseEvent) (m : gmap Z Phase) : option (gmap Z Phase) :=
  match concerns e with
  | None => Some m
  | Some i =>
      match e with
      | ItemAdded _ _ => if i =? Z.of_nat (size m) then (λ p, <[i := p]> m) <$> phase_step e (m !! i) else None
      | _ => (λ p, <[i := p]> m) <$> phase_step e (m !! i)
      end
  end.

Fixpoint view (m : gmap Z Phase) (events : list ResponseEvent) : option (gmap Z Phase) :=
  match events with
  | [] => Some m
  | e :: events' => match view_step e m with Some m' => view m' events' | None => None end
  end.

Lemma view_app m es es' : view m (es ++ es') = view m es ≫= λ m', view m' es'.
Proof. revert m. induction es as [|e es IH]; intros m; simpl; [done|]. destruct (view_step e m); [apply IH|done]. Qed.

(** ** Writing *)

(** The state after events were written. *)
Definition recorded (events : list ResponseEvent) (s : responseStream) : responseStream :=
  set_sequence (RtSequence s + Z.of_nat (length events))
    (RtWritten s ++ zip (seqZ (RtSequence s + 1) (Z.of_nat (length events))) events) s.

Definition shown (s : responseStream) : list ResponseEvent := snd <$> RtWritten s.

Section write.
Context (write : Z -> option GoError).

Lemma emit_recorded e s s' : emit write e s = (None, s') -> s' = recorded [e] s.
Proof. unfold emit, recorded. destruct (write _); [done|]. intros [= <-]. done. Qed.

Lemma recorded_recorded es es' s : recorded es' (recorded es s) = recorded (es ++ es') s.
Proof.
  unfold recorded, set_sequence. simpl. rewrite length_app. f_equal; [lia|].
  rewrite <- app_assoc. f_equal. rewrite Nat2Z.inj_add, seqZ_app by lia.
  rewrite zip_with_app by (rewrite length_seqZ; lia). do 3 f_equal. lia.
Qed.

Lemma andthen_ok m k s s' : andthen m k s = (None, s') -> exists s1, m s = (None, s1) /\ k s1 = (None, s').
Proof. unfold andthen. destruct (m s) as [[e|] s1]; [done|]. by exists s1. Qed.

Lemma shown_recorded es s : shown (recorded es s) = shown s ++ es.
Proof.
  unfold shown, recorded. simpl. rewrite fmap_app. f_equal. apply snd_zip. rewrite length_seqZ. lia.
Qed.
End write.

(** ** State and view agree *)

Inductive Owner := OMessage | OReasoning | OTool (index : Z).

#[export] Instance Owner_eq_dec : EqDecision Owner.
Proof. solve_decision. Defined.

Definition message_phase (t : textStream) : Phase := if TsClosed t then Finished else PartOpen (TsId t) (TsText t).
Definition reasoning_phase (t : textStream) : Phase :=
  if TsClosed t then Finished else Opened (TsId t) ItemReasoning (TsText t).
Definition tool_phase (t : responseToolStream) : Phase :=
  if ToClosed t then Finished else Opened (ToId t) ItemFunctionCall (ToArguments t).

(** The index and phase of what the state holds. *)
Definition owns (s : responseStream) (o : Owner) : option (Z * Phase) :=
  match o with
  | OMessage => if TsStarted (RtMessage s) then Some (TsOutputIndex (RtMessage s), message_phase (RtMessage s)) else None
  | OReasoning =>
      if TsStarted (RtReasoning s) then Some (TsOutputIndex (RtReasoning s), reasoning_phase (RtReasoning s)) else None
  | OTool index => (λ t, (ToOutputIndex t, tool_phase t)) <$> RtTools s !! index
  end.

Record Agree (s : responseStream) (m : gmap Z Phase) : Prop := {
  ag_view : view ∅ (shown s) = Some m;
  ag_next : RtNextOutput s = Z.of_nat (size m);
  ag_owned : forall o i p, owns s o = Some (i, p) -> m !! i = Some p;
  ag_owner : forall i p, m !! i = Some p -> exists o, owns s o = Some (i, p);
  ag_one : forall o o' i p p', owns s o = Some (i, p) -> owns s o' = Some (i, p') -> o = o';
  ag_keys : forall i, is_Some (m !! i) -> 0 <= i < Z.of_nat (size m);
  ag_length : RtSequence s = Z.of_nat (length (RtWritten s));
  ag_numbers : fst <$> RtWritten s = seqZ 1 (Z.of_nat (length (RtWritten s)));
}.

(** Events were written, nothing else of the output changed. *)
Record grew (s s' : responseStream) (es : list ResponseEvent) : Prop := {
  gr_sequence : RtSequence s' = RtSequence s + Z.of_nat (length es);
  gr_written : RtWritten s' = RtWritten s ++ zip (seqZ (RtSequence s + 1) (Z.of_nat (length es))) es;
}.

Lemma grew_shown s s' es : grew s s' es -> shown s' = shown s ++ es.
Proof.
  intros [_ Hw]. unfold shown. rewrite Hw, fmap_app. f_equal. apply snd_zip. rewrite length_seqZ. lia.
Qed.

Lemma grew_numbers s s' es :
  grew s s' es -> RtSequence s = Z.of_nat (length (RtWritten s)) ->
  fst <$> RtWritten s = seqZ 1 (Z.of_nat (length (RtWritten s))) ->
  RtSequence s' = Z.of_nat (length (RtWritten s')) /\ fst <$> RtWritten s' = seqZ 1 (Z.of_nat (length (RtWritten s'))).
Proof.
  intros [Hs Hw] Hlen Hnum.
  assert (Hz : length (zip (seqZ (RtSequence s + 1) (Z.of_nat (length es))) es) = length es).
  { rewrite length_zip_with, length_seqZ. lia. }
  rewrite Hw, fmap_app, length_app, Hz, Hs, Hlen. split; [lia|].
  rewrite Nat2Z.inj_add, seqZ_app by lia. rewrite Hnum, fst_zip by (rewrite length_seqZ; lia). f_equal. f_equal. lia.
Qed.

Lemma keys_fresh (m : gmap Z Phase) :
  (forall i, is_Some (m !! i) -> 0 <= i < Z.of_nat (size m)) -> m !! Z.of_nat (size m) = None.
Proof. intros Hk. destruct (m !! Z.of_nat (size m)) eqn:He; [|done]. destruct (Hk (Z.of_nat (size m))); [by eexists|lia]. Qed.

Lemma agree_fresh s m : Agree s m -> m !! Z.of_nat (size m) = None.
Proof. intros Ha. apply keys_fresh, Ha. Qed.

(** A new item takes the next index. *)
Lemma agree_open s s' m es o p :
  Agree s m -> grew s s' es -> owns s o = None -> owns s' o = Some (Z.of_nat (size m), p) ->
  (forall o', o' <> o -> owns s' o' = owns s o') -> RtNextOutput s' = RtNextOutput s + 1 ->
  view m es = Some (<[Z.of_nat (size m) := p]> m) -> Agree s' (<[Z.of_nat (size m) := p]> m).
Proof.
  intros [Hv Hn Hod Hor H1 Hk Hl Hnum] Hg Ho Ho' Hsame Hnext Hes.
  destruct (grew_numbers s s' es Hg Hl Hnum) as [Hl' Hnum'].
  assert (Hfresh : m !! Z.of_nat (size m) = None) by (by apply keys_fresh).
  assert (Hsz : size (<[Z.of_nat (size m) := p]> m) = S (size m)) by (by apply map_size_insert_None).
  split; try done.
  - rewrite (grew_shown s s' es Hg), view_app, Hv. simpl. done.
  - rewrite Hnext, Hn, Hsz. lia.
  - intros o1 i q Hq. destruct (decide (o1 = o)) as [->|Hne].
    + rewrite Ho' in Hq. injection Hq as <- <-. apply lookup_insert_eq.
    + rewrite Hsame in Hq by done. rewrite lookup_insert_ne; [by eapply Hod|]. intros <-.
      apply Hod in Hq. congruence.
  - intros i q Hq. apply lookup_insert_Some in Hq as [[<- <-]|[Hne Hq]]; [by exists o|].
    destruct (Hor i q Hq) as (o1 & Ho1). exists o1. rewrite Hsame; [done|]. intros ->. congruence.
  - intros o1 o2 i q q' Hq Hq'. destruct (decide (o1 = o)) as [->|Hn1], (decide (o2 = o)) as [->|Hn2]; try done.
    + rewrite Hsame in Hq' by done. rewrite Ho' in Hq. injection Hq as <- <-. apply Hod in Hq'. congruence.
    + rewrite Hsame in Hq by done. rewrite Ho' in Hq'. injection Hq' as <- <-. apply Hod in Hq. congruence.
    + rewrite Hsame in Hq, Hq' by done. by eapply H1.
  - intros i Hi. rewrite Hsz. destruct (decide (i = Z.of_nat (size m))) as [->|Hne]; [lia|].
    rewrite lookup_insert_ne in Hi by done. specialize (Hk i Hi). lia.
Qed.

(** An item changes in place. *)
Lemma agree_change s s' m es o i p p' :
  Agree s m -> grew s s' es -> owns s o = Some (i, p) -> owns s' o = Some (i, p') ->
  (forall o', o' <> o -> owns s' o' = owns s o') -> RtNextOutput s' = RtNextOutput s ->
  view m es = Some (<[i := p']> m) -> Agree s' (<[i := p']> m).
Proof.
  intros [Hv Hn Hod Hor H1 Hk Hl Hnum] Hg Ho Ho' Hsame Hnext Hes.
  destruct (grew_numbers s s' es Hg Hl Hnum) as [Hl' Hnum'].
  pose proof (Hod o i p Ho) as Hmi.
  assert (Hsz : size (<[i := p']> m) = size m) by (apply map_size_insert_Some; by eexists).
  split; try done.
  - rewrite (grew_shown s s' es Hg), view_app, Hv. simpl. done.
  - by rewrite Hnext, Hsz.
  - intros o1 j q Hq. destruct (decide (o1 = o)) as [->|Hne].
    + rewrite Ho' in Hq. injection Hq as <- <-. apply lookup_insert_eq.
    + rewrite Hsame in Hq by done. rewrite lookup_insert_ne; [by eapply Hod|]. intros <-. by specialize (H1 o1 o i q p Hq Ho).
  - intros j q Hq. apply lookup_insert_Some in Hq as [[<- <-]|[Hne Hq]]; [by exists o|].
    destruct (Hor j q Hq) as (o1 & Ho1). exists o1. rewrite Hsame; [done|]. intros ->. congruence.
  - intros o1 o2 j q q' Hq Hq'. destruct (decide (o1 = o)) as [->|Hn1], (decide (o2 = o)) as [->|Hn2]; try done.
    + rewrite Hsame in Hq' by done. rewrite Ho' in Hq. injection Hq as <- <-. by specialize (H1 o2 o i q' p Hq' Ho).
    + rewrite Hsame in Hq by done. rewrite Ho' in Hq'. injection Hq' as <- <-. by specialize (H1 o1 o i q p Hq Ho).
    + rewrite Hsame in Hq, Hq' by done. by eapply H1.
  - intros j Hj. rewrite Hsz. apply Hk. destruct (decide (j = i)) as [->|Hne]; [by eexists|].
    by rewrite lookup_insert_ne in Hj by done.
Qed.

(** Events that concern no item. *)
Lemma agree_neutral s s' m es :
  Agree s m -> grew s s' es -> (forall o, owns s' o = owns s o) -> RtNextOutput s' = RtNextOutput s ->
  Forall (λ e, concerns e = None) es -> Agree s' m.
Proof.
  intros [Hv Hn Hod Hor H1 Hk Hl Hnum] Hg Hsame Hnext Hes.
  destruct (grew_numbers s s' es Hg Hl Hnum) as [Hl' Hnum'].
  assert (view m es = Some m) as Hm.
  { clear -Hes. induction Hes as [|e es He _ IH]; [done|]. simpl. unfold view_step. by rewrite He. }
  split; try done.
  - rewrite (grew_shown s s' es Hg), view_app, Hv. simpl. done.
  - congruence.
  - intros o i p. rewrite Hsame. apply Hod.
  - intros i p Hp. destruct (Hor i p Hp) as (o & Ho). exists o. by rewrite Hsame.
  - intros o o' i p p'. rewrite !Hsame. apply H1.
Qed.

(** ** The actions *)

Lemma grew_recorded es s s1 :
  RtSequence s1 = RtSequence s -> RtWritten s1 = RtWritten s -> grew s (recorded es s1) es.
Proof. intros H1 H2. split; simpl; by rewrite ?H1, ?H2. Qed.

(** Nothing is closed yet: the state in which deltas may still come. *)
Record all_open (s : responseStream) : Prop := {
  op_message : TsClosed (RtMessage s) = false;
  op_reasoning : TsClosed (RtReasoning s) = false;
  op_tools : forall k t, RtTools s !! k = Some t -> ToClosed t = false;
}.

Section actions.
Context (write : Z -> option GoError).

Ltac emitted H := apply emit_recorded in H.

Lemma same_refl a : same a a = true.
Proof. by apply bool_decide_eq_true. Qed.

Lemma ensureMessage_agree s m s' :
  Agree s m -> all_open s -> ensureMessage write s = (None, s') ->
  exists m', Agree s' m' /\ all_open s' /\ TsStarted (RtMessage s') = true /\ RtTools s' = RtTools s.
Proof.
  intros Ha Ho. unfold ensureMessage. destruct (TsStarted (RtMessage s)) eqn:Hst; [intros [= <-]; by exists m|].
  set (t := mkTextStream true false _ _ _). cbv zeta. intros (s1 & He1 & He2)%andthen_ok.
  emitted He1. emitted He2. subst. rewrite recorded_recorded. simpl app.
  pose proof (ag_next _ _ Ha) as Hn.
  eexists. split; [|split; [|done]].
  - eapply (agree_open s _ m _ OMessage (PartOpen (TsId t) "")); [done|by apply grew_recorded| | |by intros []|done|].
    + simpl. by rewrite Hst.
    + simpl. by rewrite Hn.
    + simpl. unfold view_step. cbn [concerns TsOutputIndex t]. rewrite Hn, Z.eqb_refl.
      rewrite (agree_fresh s m Ha). cbn [phase_step fmap option_fmap option_map ItId ItType]. rewrite lookup_insert_eq. cbn [phase_step].
      rewrite same_refl. cbn [fmap option_fmap option_map]. by rewrite insert_insert_eq.
  - destruct Ho. by split.
Qed.

Lemma ensureReasoning_agree s m s' :
  Agree s m -> all_open s -> ensureReasoning write s = (None, s') ->
  exists m', Agree s' m' /\ all_open s' /\ TsStarted (RtReasoning s') = true.
Proof.
  intros Ha Ho. unfold ensureReasoning. destruct (TsStarted (RtReasoning s)) eqn:Hst; [intros [= <-]; by exists m|].
  set (t := mkTextStream true false _ _ _). cbv zeta. intros He. emitted He. subst.
  pose proof (ag_next _ _ Ha) as Hn. eexists. split; [|split; [|done]].
  - eapply (agree_open s _ m _ OReasoning (Opened (TsId t) ItemReasoning "")); [done|by apply grew_recorded| | |by intros []|done|].
    + simpl. by rewrite Hst.
    + simpl. by rewrite Hn.
    + simpl. unfold view_step. cbn [concerns TsOutputIndex t]. rewrite Hn, Z.eqb_refl, (agree_fresh s m Ha). done.
  - destruct Ho. by split.
Qed.

Lemma ensureTool_agree delta s m s' :
  Agree s m -> all_open s -> ensureTool write delta s = (None, s') ->
  exists m', Agree s' m' /\ all_open s' /\ is_Some (RtTools s' !! DeIndex delta).
Proof.
  intros Ha Ho. unfold ensureTool. destruct (RtTools s !! DeIndex delta) as [t|] eqn:Ht.
  { intros [= <-]. exists m. rewrite Ht. by eauto. }
  cbv zeta. set (id := if bool_decide _ then _ else _). set (t := mkToolStream false id _ _ _ _). intros He. emitted He. subst.
  pose proof (ag_next _ _ Ha) as Hn. eexists. split; [|split].
  - eapply (agree_open s _ m _ (OTool (DeIndex delta)) (Opened id ItemFunctionCall "")); [done|by apply grew_recorded| | | |done|].
    + simpl. by rewrite Ht.
    + simpl. rewrite lookup_insert_eq. simpl. by rewrite Hn.
    + intros [| |k] Hne; [done|done|]. simpl. rewrite lookup_insert_ne; [done|congruence].
    + simpl. unfold view_step. cbn [concerns ToOutputIndex t]. rewrite Hn, Z.eqb_refl, (agree_fresh s m Ha). done.
  - destruct Ho as [H1 H2 H3]. split; [done|done|]. simpl. intros k t'.
    intros [[<- <-]|[_ Hk]]%lookup_insert_Some; [done|by eapply H3].
  - simpl. rewrite lookup_insert_eq. by eexists.
Qed.

(** Deltas, once the item is there and open. *)
Lemma message_delta_agree delta s m s' :
  Agree s m -> all_open s -> TsStarted (RtMessage s) = true ->
  emit write (TextDelta (TsId (RtMessage s)) (TsOutputIndex (RtMessage s)) delta)
    (set_message (append_text delta (RtMessage s)) s) = (None, s') ->
  exists m', Agree s' m' /\ all_open s'.
Proof.
  intros Ha Ho Hst He. emitted He. subst. destruct Ho as [H1 H2 H3]. eexists. split; [|by split].
  assert (Hown : owns s OMessage = Some (TsOutputIndex (RtMessage s), PartOpen (TsId (RtMessage s)) (TsText (RtMessage s)))).
  { simpl. unfold message_phase. by rewrite Hst, H1. }
  eapply (agree_change s _ m _ OMessage _ _ (PartOpen (TsId (RtMessage s)) (TsText (RtMessage s) +:+ delta)));
    [done|by apply grew_recorded|exact Hown| |by intros []|done|].
  - simpl. rewrite Hst. unfold message_phase. simpl. by rewrite H1.
  - simpl. unfold view_step. cbn [concerns]. rewrite (ag_owned _ _ Ha _ _ _ Hown). cbn [phase_step]. by rewrite same_refl.
Qed.

Lemma reasoning_delta_agree delta s m s' :
  Agree s m -> all_open s -> TsStarted (RtReasoning s) = true ->
  emit write (SummaryDelta (TsId (RtReasoning s)) (TsOutputIndex (RtReasoning s)) delta)
    (set_reasoning (append_text delta (RtReasoning s)) s) = (None, s') ->
  exists m', Agree s' m' /\ all_open s'.
Proof.
  intros Ha Ho Hst He. emitted He. subst. destruct Ho as [H1 H2 H3]. eexists. split; [|by split].
  assert (Hown : owns s OReasoning =
    Some (TsOutputIndex (RtReasoning s), Opened (TsId (RtReasoning s)) ItemReasoning (TsText (RtReasoning s)))).
  { simpl. unfold reasoning_phase. by rewrite Hst, H2. }
  eapply (agree_change s _ m _ OReasoning _ _ (Opened (TsId (RtReasoning s)) ItemReasoning (TsText (RtReasoning s) +:+ delta)));
    [done|by apply grew_recorded|exact Hown| |by intros []|done|].
  - simpl. rewrite Hst. unfold reasoning_phase. simpl. by rewrite H2.
  - simpl. unfold view_step. cbn [concerns]. rewrite (ag_owned _ _ Ha _ _ _ Hown). cbn [phase_step]. by rewrite same_refl.
Qed.

Lemma tool_delta_agree delta t s m s' :
  Agree s m -> all_open s -> RtTools s !! DeIndex delta = Some t ->
  emit write (ArgumentsDelta (ToId t) (ToOutputIndex t) (DeArgumentsFragment delta))
    (set_tool (DeIndex delta) (append_tool delta t) s) = (None, s') ->
  exists m', Agree s' m' /\ all_open s'.
Proof.
  intros Ha Ho Ht He. emitted He. subst. destruct Ho as [H1 H2 H3]. pose proof (H3 _ _ Ht) as Hc. eexists. split.
  - assert (Hown : owns s (OTool (DeIndex delta)) = Some (ToOutputIndex t, Opened (ToId t) ItemFunctionCall (ToArguments t))).
    { simpl. rewrite Ht. simpl. unfold tool_phase. by rewrite Hc. }
    eapply (agree_change s _ m _ (OTool (DeIndex delta)) _ _
              (Opened (ToId t) ItemFunctionCall (ToArguments t +:+ DeArgumentsFragment delta)));
      [done|by apply grew_recorded|exact Hown| | |done|].
    + simpl. rewrite lookup_insert_eq. simpl. unfold tool_phase. simpl. by rewrite Hc.
    + intros [| |k] Hne; [done|done|]. simpl. rewrite lookup_insert_ne; [done|congruence].
    + simpl. unfold view_step. cbn [concerns]. rewrite (ag_owned _ _ Ha _ _ _ Hown). cbn [phase_step]. by rewrite same_refl.
  - split; [done|done|]. simpl. intros k t' [[<- <-]|[_ Hk]]%lookup_insert_Some; [done|by eapply H3].
Qed.

(** Closing works from any state. *)
Lemma closeReasoning_agree s m s' :
  Agree s m -> closeReasoning write s = (None, s') ->
  exists m', Agree s' m' /\ (TsStarted (RtReasoning s') = true -> TsClosed (RtReasoning s') = true) /\
    RtMessage s' = RtMessage s /\ RtTools s' = RtTools s.
Proof.
  intros Ha. unfold closeReasoning. cbv zeta. destruct (TsStarted (RtReasoning s)) eqn:Hst; simpl.
  2:{ intros [= <-]. exists m. by rewrite Hst. }
  destruct (TsClosed (RtReasoning s)) eqn:Hcl; [intros [= <-]; by exists m|].
  intros (s1 & He1 & He2)%andthen_ok. emitted He1. emitted He2. subst. rewrite recorded_recorded. simpl app.
  eexists. split; [|done].
  assert (Hown : owns s OReasoning =
    Some (TsOutputIndex (RtReasoning s), Opened (TsId (RtReasoning s)) ItemReasoning (TsText (RtReasoning s)))).
  { simpl. unfold reasoning_phase. by rewrite Hst, Hcl. }
  eapply (agree_change s _ m _ OReasoning _ _ Finished); [done|by apply grew_recorded|exact Hown| |by intros []|done|].
  - simpl. by rewrite Hst.
  - simpl. unfold view_step. cbn [concerns]. rewrite (ag_owned _ _ Ha _ _ _ Hown). cbn [phase_step]. rewrite !same_refl.
    cbn [andb fmap option_fmap option_map]. rewrite lookup_insert_eq. cbn [phase_step ItId ItText ItType]. rewrite !same_refl.
    cbn [andb]. rewrite bool_decide_eq_true_2 by done. cbn [fmap option_fmap option_map]. by rewrite insert_insert_eq.
Qed.

Lemma closeMessage_agree s m s' :
  Agree s m -> closeMessage write s = (None, s') ->
  exists m', Agree s' m' /\ (TsStarted (RtMessage s') = true -> TsClosed (RtMessage s') = true) /\
    RtReasoning s' = RtReasoning s /\ RtTools s' = RtTools s.
Proof.
  intros Ha. unfold closeMessage. cbv zeta. destruct (TsStarted (RtMessage s)) eqn:Hst; simpl.
  2:{ intros [= <-]. exists m. by rewrite Hst. }
  destruct (TsClosed (RtMessage s)) eqn:Hcl; [intros [= <-]; by exists m|].
  intros (s1 & He1 & (s2 & He2 & He3)%andthen_ok)%andthen_ok. emitted He1. emitted He2. emitted He3. subst.
  rewrite !recorded_recorded. simpl app. eexists. split; [|done].
  assert (Hown : owns s OMessage = Some (TsOutputIndex (RtMessage s), PartOpen (TsId (RtMessage s)) (TsText (RtMessage s)))).
  { simpl. unfold message_phase. by rewrite Hst, Hcl. }
  eapply (agree_change s _ m _ OMessage _ _ Finished); [done|by apply grew_recorded|exact Hown| |by intros []|done|].
  - simpl. by rewrite Hst.
  - simpl. unfold view_step. cbn [concerns]. rewrite (ag_owned _ _ Ha _ _ _ Hown). cbn [phase_step]. rewrite !same_refl.
    cbn [andb fmap option_fmap option_map]. rewrite lookup_insert_eq. cbn [phase_step]. rewrite !same_refl.
    cbn [andb fmap option_fmap option_map]. rewrite lookup_insert_eq. cbn [phase_step responseMessageItem ItId ItText ItType].
    rewrite !same_refl. cbn [andb]. rewrite bool_decide_eq_true_2 by done. cbn [fmap option_fmap option_map].
    by rewrite !insert_insert_eq.
Qed.

Lemma closeTool_agree k s m s' :
  Agree s m -> closeTool write k s = (None, s') ->
  exists m', Agree s' m' /\ (forall t, RtTools s' !! k = Some t -> ToClosed t = true) /\
    RtReasoning s' = RtReasoning s /\ RtMessage s' = RtMessage s /\
    (forall j, j <> k -> RtTools s' !! j = RtTools s !! j) /\ dom (RtTools s') = dom (RtTools s).
Proof.
  intros Ha. unfold closeTool. destruct (RtTools s !! k) as [t|] eqn:Ht.
  2:{ intros [= <-]. exists m. rewrite Ht. by split_and!. }
  destruct (ToClosed t) eqn:Hcl.
  { intros [= <-]. exists m. split_and!; try done. intros t'. rewrite Ht. by intros [= <-]. }
  intros (s1 & He1 & He2)%andthen_ok. emitted He1. emitted He2. subst. rewrite recorded_recorded. simpl app.
  eexists. split; [|split_and!; simpl].
  - assert (Hown : owns s (OTool k) = Some (ToOutputIndex t, Opened (ToId t) ItemFunctionCall (ToArguments t))).
    { simpl. rewrite Ht. simpl. unfold tool_phase. by rewrite Hcl. }
    eapply (agree_change s _ m _ (OTool k) _ _ Finished); [done|by apply grew_recorded|exact Hown| | |done|].
    + simpl. by rewrite lookup_insert_eq.
    + intros [| |j] Hne; [done|done|]. simpl. rewrite lookup_insert_ne; [done|congruence].
    + simpl. unfold view_step. cbn [concerns]. rewrite (ag_owned _ _ Ha _ _ _ Hown). cbn [phase_step]. rewrite !same_refl.
      cbn [andb fmap option_fmap option_map]. rewrite lookup_insert_eq.
      cbn [phase_step tool_item ItId ItText ItType ItName]. rewrite !same_refl.
      cbn [andb]. rewrite bool_decide_eq_true_2 by done. cbn [fmap option_fmap option_map]. by rewrite insert_insert_eq.
  - intros t'. rewrite lookup_insert_eq. by intros [= <-].
  - done.
  - done.
  - intros j Hj. by rewrite lookup_insert_ne.
  - apply dom_insert_lookup_L. by eexists.
Qed.

Lemma closeEach_agree l s m s' :
  Agree s m -> closeEach write l s = (None, s') ->
  exists m', Agree s' m' /\ (forall k t, k ∈ l -> RtTools s' !! k = Some t -> ToClosed t = true) /\
    RtReasoning s' = RtReasoning s /\ RtMessage s' = RtMessage s /\
    (forall j, j ∉ l -> RtTools s' !! j = RtTools s !! j) /\ dom (RtTools s') = dom (RtTools s).
Proof.
  revert s m. induction l as [|k l IH]; intros s m Ha; simpl.
  { intros [= <-]. exists m. split_and!; try done. intros k t Hk. by apply not_elem_of_nil in Hk. }
  intros (s1 & H1 & H2)%andthen_ok.
  destruct (closeTool_agree k s m s1 Ha H1) as (m1 & Ha1 & Hc1 & Hr1 & Hm1 & Hs1 & Hd1).
  destruct (IH s1 m1 Ha1 H2) as (m2 & Ha2 & Hc2 & Hr2 & Hm2 & Hs2 & Hd2).
  exists m2. split_and!; [done| |congruence|congruence| |congruence].
  - intros j t Hj Ht. destruct (decide (j ∈ l)) as [Hin|Hin]; [by eapply Hc2|].
    apply elem_of_cons in Hj as [->|?]; [|done]. rewrite (Hs2 _ Hin) in Ht. by apply Hc1.
  - intros j Hj. rewrite not_elem_of_cons in Hj. destruct Hj. rewrite Hs2 by done. by apply Hs1.
Qed.

Lemma elem_of_indices s k : k ∈ indices s <-> is_Some (RtTools s !! k).
Proof.
  unfold indices. rewrite (merge_sort_Permutation Z.le). rewrite list_elem_of_fmap. split.
  - intros ([k' t] & -> & Hin%elem_of_map_to_list). by eexists.
  - intros (t & Ht). exists (k, t). split; [done|]. by apply elem_of_map_to_list.
Qed.

(** Everything that was opened is closed. *)
Record all_closed (s : responseStream) : Prop := {
  cl_message : TsStarted (RtMessage s) = true -> TsClosed (RtMessage s) = true;
  cl_reasoning : TsStarted (RtReasoning s) = true -> TsClosed (RtReasoning s) = true;
  cl_tools : forall k t, RtTools s !! k = Some t -> ToClosed t = true;
}.

Lemma closeOutput_agree s m s' :
  Agree s m -> closeOutput write s = (None, s') -> exists m', Agree s' m' /\ all_closed s'.
Proof.
  intros Ha (s1 & H1 & (s2 & H2 & H3)%andthen_ok)%andthen_ok.
  destruct (closeReasoning_agree s m s1 Ha H1) as (m1 & Ha1 & Hc1 & _ & _).
  destruct (closeMessage_agree s1 m1 s2 Ha1 H2) as (m2 & Ha2 & Hc2 & Hr2 & _).
  destruct (closeEach_agree (indices s2) s2 m2 s' Ha2 H3) as (m3 & Ha3 & Hc3 & Hr3 & Hm3 & _ & Hd3).
  exists m3. split; [done|]. split.
  - by rewrite Hm3.
  - by rewrite Hr3, Hr2.
  - intros k t Ht. apply (Hc3 k t); [|done]. apply elem_of_indices.
    apply elem_of_dom. rewrite <- Hd3. apply elem_of_dom. by eexists.
Qed.

Lemma all_closed_finished s m : Agree s m -> all_closed s -> map_Forall (λ _ p, p = Finished) m.
Proof.
  intros Ha [H1 H2 H3] i p Hp. destruct (ag_owner _ _ Ha i p Hp) as ([| |k] & Ho); simpl in Ho.
  - destruct (TsStarted (RtMessage s)) eqn:Hs; [|done]. unfold message_phase in Ho. rewrite H1 in Ho by done. congruence.
  - destruct (TsStarted (RtReasoning s)) eqn:Hs; [|done]. unfold reasoning_phase in Ho. rewrite H2 in Ho by done. congruence.
  - destruct (RtTools s !! k) as [t|] eqn:Ht; [|done]. simpl in Ho. unfold tool_phase in Ho. rewrite (H3 k t Ht) in Ho. congruence.
Qed.

(** ** Consuming events *)

Definition is_delta (e : StreamEvent) : bool :=
  match SeType e with
  | StreamMessageStart | StreamContentDelta | StreamReasoningDelta | StreamToolCallDelta => true
  | _ => false
  end.
Definition is_closing (e : StreamEvent) : bool := match SeType e with StreamFinish | StreamDone => true | _ => false end.

Context (marshal : PresentedResponse -> option GoError) (fate : StoreFate).

(** A state change that the client does not see. *)
Lemma agree_silent s s' m :
  Agree s m -> RtSequence s' = RtSequence s -> RtWritten s' = RtWritten s -> (forall o, owns s' o = owns s o) ->
  RtNextOutput s' = RtNextOutput s -> Agree s' m.
Proof.
  intros Ha Hs Hw Ho Hn. eapply (agree_neutral s s' m []); [done| |done|done|constructor].
  split; simpl; [lia|by rewrite Hw, app_nil_r].
Qed.

Lemma completeStored_cases r s e s' :
  completeStored fate r s = (e, s') -> s' = if ReStore (RtRequest s) then stored (StoreComplete r) s else s.
Proof. unfold completeStored. by destruct (ReStore _); intros [= _ <-]. Qed.

Lemma consume_open e s m s' :
  Agree s m -> all_open s -> is_closing e = false -> consume write marshal (completeStored fate) e s = (None, s') ->
  exists m', Agree s' m' /\ all_open s'.
Proof.
  intros Ha Ho Hc. unfold consume, is_closing in *. destruct (SeType e); try done.
  - intros H. destruct (ensureMessage_agree s m s' Ha Ho H) as (m' & ? & ? & _). by exists m'.
  - intros (s1 & H1 & (s2 & H2 & H3)%andthen_ok)%andthen_ok. injection H2 as <-.
    destruct (ensureMessage_agree s m s1 Ha Ho H1) as (m1 & Ha1 & Ho1 & Hst & _).
    by eapply message_delta_agree.
  - intros (s1 & H1 & (s2 & H2 & H3)%andthen_ok)%andthen_ok. injection H2 as <-.
    destruct (ensureReasoning_agree s m s1 Ha Ho H1) as (m1 & Ha1 & Ho1 & Hst).
    by eapply reasoning_delta_agree.
  - unfold consumeToolDelta. destruct (SeToolCallDelta e) as [delta|]; [|intros [= <-]; by exists m].
    intros (s1 & H1 & H2)%andthen_ok.
    destruct (ensureTool_agree delta s m s1 Ha Ho H1) as (m1 & Ha1 & Ho1 & (t & Ht)).
    rewrite Ht in H2. by eapply tool_delta_agree.
  - intros [= <-]. exists m. split; [|by destruct Ho; split]. eapply (agree_silent s); [done..| |done]. by intros [].
  - intros [= <-]. by exists m.
  - intros [= <-]. by exists m.
Qed.

Lemma consume_quiet e s m s' :
  Agree s m -> is_delta e = false -> consume write marshal (completeStored fate) e s = (None, s') ->
  exists m', Agree s' m' /\ (is_closing e = true -> all_closed s') /\ (all_closed s -> all_closed s') /\
    (SeType e = StreamDone -> exists before, shown s' = before ++ [Completed (completedResponse s')]).
Proof.
  intros Ha Hd. unfold consume, is_delta, is_closing in *. destruct (SeType e); try done.
  - intros (s1 & H1 & H2)%andthen_ok. injection H1 as <-.
    assert (Ha1 : Agree (set_finish (SeFinishReason e) s) m) by (eapply (agree_silent s); [done..| |done]; by intros []).
    destruct (closeOutput_agree _ m s' Ha1 H2) as (m' & Ha' & Hc). by exists m'.
  - intros [= <-]. exists m. split_and!; try done; [|by intros []; split].
    eapply (agree_silent s); [done..| |done]. by intros [].
  - intros [= <-]. by exists m.
  - intros (s1 & H1 & H2)%andthen_ok. destruct (closeOutput_agree _ m s1 Ha H1) as (m' & Ha' & Hc).
    cbv zeta in H2. destruct (marshal _); [done|]. apply andthen_ok in H2 as (s2 & H2 & H3).
    apply completeStored_cases in H2. emitted H3. subst s'.
    exists m'. split_and!.
    + eapply (agree_neutral s1 _ m' [Completed (completedResponse s1)]); subst s2;
        [done|by destruct (ReStore _); apply grew_recorded|by intros []; destruct (ReStore _)|by destruct (ReStore _)|].
      by repeat constructor.
    + intros _. subst s2. by destruct Hc, (ReStore _); split.
    + intros _. subst s2. by destruct Hc, (ReStore _); split.
    + intros _. exists (shown s1). rewrite shown_recorded. subst s2. by destruct (ReStore _).
  - intros [= <-]. by exists m.
Qed.
End actions.

(** ** Delivering a stream *)

(** Nothing is added after the first finish or end. *)
Definition disciplined (events : list StreamEvent) : Prop :=
  exists pre post, events = pre ++ post /\ Forall (λ e, is_closing e = false) pre /\ Forall (λ e, is_delta e = false) post.

Section deliver.
Context (write : Z -> option GoError) (now : Z) (recordID : string) (marshal : PresentedResponse -> option GoError)
  (fate : StoreFate).

Abbreviation sink := (sink write now recordID marshal fate).
Abbreviation deliver := (deliver write now recordID marshal fate).

(** What the sink does before the event itself. *)
Lemma startStream_ok e s s1 :
  startStream write now recordID fate e s = (None, s1) ->
  (forall o, owns s1 o = owns s o) /\ RtNextOutput s1 = RtNextOutput s /\ RtRequest s1 = RtRequest s /\
  RtMessage s1 = RtMessage s /\ RtReasoning s1 = RtReasoning s /\ RtTools s1 = RtTools s /\ RtUsage s1 = RtUsage s /\
  exists es, grew s s1 es /\ Forall (λ e, concerns e = None) es.
Proof.
  unfold startStream. destruct (RtStarted s) eqn:Hst.
  { intros [= <-]. split_and!; try done. exists []. split; [|constructor]. split; simpl; [lia|by rewrite app_nil_r]. }
  intros (s2 & H1 & H)%andthen_ok. injection H1 as <-. apply andthen_ok in H as (s3 & H2 & H).
  apply andthen_ok in H as (s4 & H3 & H4). injection H3 as <-.
  unfold start in H4. cbv zeta in H4. apply andthen_ok in H4 as (s5 & He1 & He2).
  apply emit_recorded in He1, He2. subst. rewrite recorded_recorded.
  assert (Hs3 : s3 = if ReStore (RtRequest s) then stored StoreBegin (set_responseID (ResponseIdentifierForRequest recordID) s)
    else set_responseID (ResponseIdentifierForRequest recordID) s).
  { unfold beginStored in H2. simpl in H2. by destruct (ReStore _); simplify_eq. }
  subst s3. split_and!; try by destruct (ReStore _).
  eexists. split; [by destruct (ReStore _); apply grew_recorded|]. by repeat constructor.
Qed.

Lemma sink_split e s s' :
  sink e s = (None, s') ->
  exists s1, startStream write now recordID fate e s = (None, s1) /\ consume write marshal (completeStored fate) e s1 = (None, s').
Proof. apply andthen_ok. Qed.

Lemma startStream_agree e s m s1 : Agree s m -> startStream write now recordID fate e s = (None, s1) -> Agree s1 m.
Proof. intros Ha (Ho & Hn & _ & _ & _ & _ & _ & es & Hg & Hes)%startStream_ok. by eapply agree_neutral. Qed.

Lemma sink_open e s m s' :
  Agree s m -> all_open s -> is_closing e = false -> sink e s = (None, s') -> exists m', Agree s' m' /\ all_open s'.
Proof.
  intros Ha Ho Hc (s1 & H1 & H2)%sink_split. pose proof (startStream_agree e s m s1 Ha H1) as Ha1.
  apply startStream_ok in H1 as (_ & _ & _ & Hm & Hr & Ht & _).
  eapply (consume_open write marshal fate e s1 m s'); [done|by destruct Ho; split; rewrite ?Hm, ?Hr, ?Ht|done|done].
Qed.

Lemma sink_quiet e s m s' :
  Agree s m -> is_delta e = false -> sink e s = (None, s') ->
  exists m', Agree s' m' /\ (is_closing e = true -> all_closed s') /\ (all_closed s -> all_closed s') /\
    (SeType e = StreamDone -> exists before, shown s' = before ++ [Completed (completedResponse s')]).
Proof.
  intros Ha Hd (s1 & H1 & H2)%sink_split. pose proof (startStream_agree e s m s1 Ha H1) as Ha1.
  apply startStream_ok in H1 as (_ & _ & _ & Hm & Hr & Ht & _).
  destruct (consume_quiet write marshal fate e s1 m s') as (m' & Ha' & Hc & Hk & Hl); [done..|].
  exists m'. split_and!; try done. intros Hcl. apply Hk. destruct Hcl. split; rewrite ?Hm, ?Hr, ?Ht; done.
Qed.

Lemma deliver_app es es' s : deliver (es ++ es') s = andthen (deliver es) (deliver es') s.
Proof.
  revert s. induction es as [|e es IH]; intros s; simpl; [by unfold andthen, skip|].
  unfold andthen in *. destruct (sink e s) as [[err|] s1]; [done|]. apply IH.
Qed.

Lemma deliver_open es s m s' :
  Agree s m -> all_open s -> Forall (λ e, is_closing e = false) es -> deliver es s = (None, s') ->
  exists m', Agree s' m' /\ all_open s'.
Proof.
  intros Ha Ho Hes. revert s m Ha Ho. induction Hes as [|e es He _ IH]; intros s m Ha Ho; simpl.
  { intros [= <-]. by exists m. }
  intros (s1 & H1 & H2)%andthen_ok. destruct (sink_open e s m s1 Ha Ho He H1) as (m1 & Ha1 & Ho1). by eapply IH.
Qed.

Lemma deliver_quiet es s m s' :
  Agree s m -> Forall (λ e, is_delta e = false) es -> deliver es s = (None, s') ->
  exists m', Agree s' m' /\ ((all_closed s \/ Exists (λ e, is_closing e = true) es) -> all_closed s').
Proof.
  intros Ha Hes. revert s m Ha. induction Hes as [|e es He _ IH]; intros s m Ha; simpl.
  { intros [= <-]. exists m. split; [done|]. intros [Hc|Hex]; [done|by apply Exists_nil in Hex]. }
  intros (s1 & H1 & H2)%andthen_ok. destruct (sink_quiet e s m s1 Ha He H1) as (m1 & Ha1 & Hc1 & Hk1 & _).
  destruct (IH s1 m1 Ha1 H2) as (m2 & Ha2 & Hc2). exists m2. split; [done|]. intros [Hc|Hex].
  - apply Hc2. left. by apply Hk1.
  - apply Exists_cons in Hex as [He1|He1]; apply Hc2; [left; by apply Hc1|by right].
Qed.

Lemma agree_new request : Agree (newResponseStream request) ∅.
Proof. split; simpl; try done; [by intros []|by intros []|intros i [? H]; done]. Qed.

Lemma disciplined_agree request events s :
  disciplined events -> deliver events (newResponseStream request) = (None, s) ->
  exists m, Agree s m /\ (Exists (λ e, is_closing e = true) events -> all_closed s).
Proof.
  intros (pre & post & -> & Hpre & Hpost). rewrite deliver_app. intros (s1 & H1 & H2)%andthen_ok.
  destruct (deliver_open pre _ ∅ s1 (agree_new request)) as (m1 & Ha1 & _); [by split|done|done|].
  destruct (deliver_quiet post s1 m1 s Ha1 Hpost H2) as (m & Ha & Hc). exists m. split; [done|].
  intros [Hex|Hex]%Exists_app; [|apply Hc; by right].
  exfalso. apply Exists_exists in Hex as (e & He & Hcl). rewrite Forall_forall in Hpre. specialize (Hpre e He). congruence.
Qed.

Lemma deliver_done request events e s :
  disciplined (events ++ [e]) -> SeType e = StreamDone -> deliver (events ++ [e]) (newResponseStream request) = (None, s) ->
  exists before, shown s = before ++ [Completed (completedResponse s)].
Proof.
  intros Hdis He Hd. rewrite deliver_app in Hd. apply andthen_ok in Hd as (s1 & H1 & H2).
  assert (Hdis1 : disciplined events).
  { destruct Hdis as (pre & post & Heq & Hpre & Hpost). destruct post as [|x post _] using rev_ind.
    - rewrite app_nil_r in Heq. exists events, []. split; [by rewrite app_nil_r|]. split; [|done].
      rewrite <- Heq in Hpre. by apply Forall_app in Hpre as [? _].
    - rewrite app_assoc in Heq. apply app_inj_tail in Heq as [-> ->]. exists pre, post. split; [done|].
      apply Forall_app in Hpost as [? _]. done. }
  destruct (disciplined_agree request events s1 Hdis1 H1) as (m & Ha & _).
  simpl in H2. apply andthen_ok in H2 as (s2 & H2 & [= <-]).
  destruct (sink_quiet e s1 m s2 Ha) as (_ & _ & _ & _ & Hl); [by unfold is_delta; rewrite He|done|]. by apply Hl.
Qed.
End deliver.

(** ** The client's contract *)


(** A stream with reasoning, text and a tool call. *)
Definition demo_responses : ResponsesRequest :=
  mkResponsesRequest
    (mkChatRequest "" "public" [] [] None None true None None None None None None None None None [] None None "" "")
    "" "" true false "input".
Definition demo_event (type : StreamEventType) (text thought : string) (delta : option ToolCallDelta) : StreamEvent :=
  mkStreamEvent type "" "" "" 0 0 (RoleOther "") text thought delta FinishReasonStop None None.
Definition demo_events : list StreamEvent :=
  [demo_event StreamMessageStart "" "" None; demo_event StreamReasoningDelta "" "why" None;
   demo_event StreamContentDelta "Hel" "" None; demo_event StreamContentDelta "lo" "" None;
   demo_event StreamToolCallDelta "" "" (Some (mkToolCallDelta 0 "call" "function" "f" "{"));
   demo_event StreamToolCallDelta "" "" (Some (mkToolCallDelta 0 "" "" "" "}"));
   demo_event StreamFinish "" "" None; demo_event StreamDone "" "" None].
Definition demo_store : StoreFate := mkStoreFate None (λ _, None).


(** * What a Responses stream delivers and stores

    The completed response of a stream against the events the workflow
    delivered, and the calls the handler makes to the store of responses.  Both
    hold for every sequence of events, in whatever order they come. *)

(** ** The answer a list of events spells *)

Fixpoint contents (events : list StreamEvent) : string :=
  match events with
  | [] => ""
  | e :: events' => (if decide (SeType e = StreamContentDelta) then SeContentDelta e else "") +:+ contents events'
  end.

Fixpoint reasonings (events : list StreamEvent) : string :=
  match events with
  | [] => ""
  | e :: events' => (if decide (SeType e = StreamReasoningDelta) then SeReasoningDelta e else "") +:+ reasonings events'
  end.

Definition delta_of (e : StreamEvent) : option ToolCallDelta :=
  if decide (SeType e = StreamToolCallDelta) then SeToolCallDelta e else None.
Definition deltas (events : list StreamEvent) : list ToolCallDelta := omap delta_of events.

(** The last value of a field that is not empty. *)
Definition latest (field : ToolCallDelta -> string) (ds : list ToolCallDelta) : string :=
  foldl (λ acc d, if bool_decide (field d = "") then acc else field d) "" ds.

Fixpoint fragments (ds : list ToolCallDelta) : string :=
  match ds with [] => "" | d :: ds' => DeArgumentsFragment d +:+ fragments ds' end.

Definition at_index (k : Z) (ds : list ToolCallDelta) : list ToolCallDelta := filter (λ d, DeIndex d = k) ds.

(** The call its deltas make. *)
Definition call_of (ds : list ToolCallDelta) : ToolCall :=
  mkToolCall (latest DeID ds) "function" (mkToolFunctionCall (latest DeFunctionName ds) (fragments ds)).

Definition call_indices (events : list StreamEvent) : list Z :=
  merge_sort Z.le (elements (list_to_set (DeIndex <$> deltas events) : gset Z)).

Definition calls (events : list StreamEvent) : list ToolCall :=
  (λ k, call_of (at_index k (deltas events))) <$> call_indices events.

Definition reported (events : list StreamEvent) : option ReportedUsage :=
  foldl (λ acc e, if decide (SeType e = StreamUsageEvent) then SeUsage e else acc) None events.

(** The output items of the answer. *)
Definition answer (responseID : string) (events : list StreamEvent) : list Item :=
  (if bool_decide (reasonings events = "") then []
   else [mkItem (itemIdentifier "rs" responseID 0) ItemReasoning "" "" "" (reasonings events) true]) ++
  (if bool_decide (contents events = "") then []
   else [responseMessageItem (itemIdentifier "msg" responseID 0) (contents events) "completed"]) ++
  call_items responseID 0 0 (calls events).

(** ** What the state holds of it *)

Definition text_of (t : textStream) : string := if TsStarted t then TsText t else "".
Definition call_map (s : responseStream) : gmap Z ToolCall := tool_call <$> RtTools s.

(** Two states that hold the same answer. *)
Record same_answer (s s' : responseStream) : Prop := {
  sa_message : text_of (RtMessage s') = text_of (RtMessage s);
  sa_reasoning : text_of (RtReasoning s') = text_of (RtReasoning s);
  sa_calls : call_map s' = call_map s;
  sa_usage : RtUsage s' = RtUsage s;
}.

#[export] Instance same_answer_equivalence : Equivalence same_answer.
Proof.
  split; [by split| |].
  - intros s s' [H1 H2 H3 H4]. by split; symmetry.
  - intros s s' s'' [H1 H2 H3 H4] [H5 H6 H7 H8]. split; congruence.
Qed.

Section keeps.
Context (write : Z -> option GoError).

Definition keeps (m : Act) : Prop := forall s s', m s = (None, s') -> same_answer s s'.

Lemma keeps_andthen m k : keeps m -> keeps k -> keeps (andthen m k).
Proof. intros Hm Hk s s' (s1 & H1 & H2)%andthen_ok. transitivity s1; [by apply Hm|by apply Hk]. Qed.

Lemma keeps_emit e s s1 s' : same_answer s s1 -> emit write e s1 = (None, s') -> same_answer s s'.
Proof. intros Hs ->%emit_recorded. destruct Hs. by split. Qed.

Lemma keeps_emits e e' s s1 s' :
  same_answer s s1 -> andthen (emit write e) (emit write e') s1 = (None, s') -> same_answer s s'.
Proof. intros Hs (s2 & H1 & H2)%andthen_ok. eapply keeps_emit; [|done]. by eapply keeps_emit. Qed.

Lemma keeps_ensureMessage : keeps (ensureMessage write).
Proof.
  intros s s'. unfold ensureMessage. destruct (TsStarted _) eqn:Hst; [by intros [= <-]|]. cbv zeta. apply keeps_emits.
  split; try done. unfold text_of. by rewrite Hst.
Qed.

Lemma keeps_ensureReasoning : keeps (ensureReasoning write).
Proof.
  intros s s'. unfold ensureReasoning. destruct (TsStarted _) eqn:Hst; [by intros [= <-]|]. cbv zeta. apply keeps_emit.
  split; try done. unfold text_of. by rewrite Hst.
Qed.

Lemma keeps_closeReasoning : keeps (closeReasoning write).
Proof. intros s s'. unfold closeReasoning. cbv zeta. destruct (_ || _)%bool; [by intros [= <-]|]. apply keeps_emits. by split. Qed.

Lemma keeps_closeMessage : keeps (closeMessage write).
Proof.
  intros s s'. unfold closeMessage. cbv zeta. destruct (_ || _)%bool; [by intros [= <-]|].
  intros (s1 & H1 & H2)%andthen_ok. eapply keeps_emits; [|done]. eapply keeps_emit; [|done]. by split.
Qed.

Lemma keeps_closeTool k : keeps (closeTool write k).
Proof.
  intros s s'. unfold closeTool. destruct (RtTools s !! k) as [t|] eqn:Ht; [|by intros [= <-]].
  destruct (ToClosed t); [by intros [= <-]|]. apply keeps_emits. split; try done.
  unfold call_map. simpl. rewrite fmap_insert. apply insert_id. by rewrite lookup_fmap, Ht.
Qed.

Lemma keeps_closeOutput : keeps (closeOutput write).
Proof.
  apply keeps_andthen, keeps_andthen; [apply keeps_closeReasoning|apply keeps_closeMessage|].
  intros s. unfold closeTools. generalize (indices s) as l. intros l. revert s.
  induction l as [|k l IH]; [by intros s s' [= <-]|]. apply keeps_andthen; [apply keeps_closeTool|exact IH].
Qed.
End keeps.

(** ** One event *)

Lemma string_app_assoc (a b c : string) : a +:+ (b +:+ c) = (a +:+ b) +:+ c.
Proof. induction a as [|x a IH]; [done|]. change (String x (a +:+ (b +:+ c)) = String x ((a +:+ b) +:+ c)). by rewrite IH. Qed.

Lemma string_app_empty_r (a : string) : a +:+ "" = a.
Proof. induction a as [|x a IH]; [done|]. change (String x (a +:+ "") = String x a). by rewrite IH. Qed.

Lemma contents_app es es' : contents (es ++ es') = contents es +:+ contents es'.
Proof. induction es as [|e es IH]; simpl; [done|]. by rewrite IH, string_app_assoc. Qed.

Lemma reasonings_app es es' : reasonings (es ++ es') = reasonings es +:+ reasonings es'.
Proof. induction es as [|e es IH]; simpl; [done|]. by rewrite IH, string_app_assoc. Qed.

Lemma fragments_app ds ds' : fragments (ds ++ ds') = fragments ds +:+ fragments ds'.
Proof. induction ds as [|d ds IH]; simpl; [done|]. by rewrite IH, string_app_assoc. Qed.

Lemma deltas_app es es' : deltas (es ++ es') = deltas es ++ deltas es'.
Proof. apply omap_app. Qed.

(** The call under an index, when there is one. *)
Definition call_at (k : Z) (ds : list ToolCallDelta) : option ToolCall :=
  match at_index k ds with [] => None | ds' => Some (call_of ds') end.

(** A call and one more delta. *)
Definition extend (d : ToolCallDelta) (c : option ToolCall) : ToolCall :=
  let c := default (call_of []) c in
  mkToolCall (if bool_decide (DeID d = "") then TcID c else DeID d) "function"
    (mkToolFunctionCall (if bool_decide (DeFunctionName d = "") then TfName (TcFunction c) else DeFunctionName d)
       (TfArguments (TcFunction c) +:+ DeArgumentsFragment d)).

Lemma call_of_snoc ds d : call_of (ds ++ [d]) = extend d (Some (call_of ds)).
Proof. unfold call_of, extend, latest. rewrite !foldl_app, fragments_app. simpl. by rewrite string_app_empty_r. Qed.

Lemma call_at_snoc k ds d :
  call_at k (ds ++ [d]) = if decide (DeIndex d = k) then Some (extend d (call_at k ds)) else call_at k ds.
Proof.
  unfold call_at, at_index. rewrite filter_app. destruct (decide (DeIndex d = k)) as [Hk|Hk].
  - rewrite (filter_cons_True _ d) by done. simpl. rewrite filter_nil.
    destruct (filter _ ds) as [|x l]; [exact (f_equal Some (call_of_snoc [] d))|exact (f_equal Some (call_of_snoc (x :: l) d))].
  - rewrite (filter_cons_False _ d) by done. by rewrite filter_nil, app_nil_r.
Qed.

Record Gathered (events : list StreamEvent) (s : responseStream) : Prop := {
  ga_message : text_of (RtMessage s) = contents events;
  ga_reasoning : text_of (RtReasoning s) = reasonings events;
  ga_calls : forall k, call_map s !! k = call_at k (deltas events);
  ga_usage : RtUsage s = reported events;
}.

Lemma gathered_same events s s' : same_answer s s' -> Gathered events s -> Gathered events s'.
Proof. intros [H1 H2 H3 H4] [H5 H6 H7 H8]. split; [congruence..| |congruence]. intros k. by rewrite H3. Qed.

#[export] Instance Gathered_proper events : Proper (same_answer ==> iff) (Gathered events).
Proof. intros s s' Hs. split; apply gathered_same; [done|by symmetry]. Qed.

(** An event that adds nothing to the answer. *)
Definition adds_nothing (e : StreamEvent) : Prop :=
  SeType e <> StreamContentDelta /\ SeType e <> StreamReasoningDelta /\ delta_of e = None /\ SeType e <> StreamUsageEvent.

Lemma contents_other events e : SeType e <> StreamContentDelta -> contents (events ++ [e]) = contents events.
Proof. intros He. rewrite contents_app. simpl. by rewrite decide_False, string_app_empty_r. Qed.

Lemma reasonings_other events e : SeType e <> StreamReasoningDelta -> reasonings (events ++ [e]) = reasonings events.
Proof. intros He. rewrite reasonings_app. simpl. by rewrite decide_False, string_app_empty_r. Qed.

Lemma deltas_other events e : delta_of e = None -> deltas (events ++ [e]) = deltas events.
Proof. intros He. rewrite deltas_app. simpl. by rewrite He, app_nil_r. Qed.

Lemma reported_other events e : SeType e <> StreamUsageEvent -> reported (events ++ [e]) = reported events.
Proof. intros He. unfold reported. rewrite foldl_app. simpl. by rewrite decide_False. Qed.

(** The parts of the answer an event of another kind leaves as they were. *)
Ltac unchanged :=
  rewrite ?contents_other, ?reasonings_other, ?deltas_other, ?reported_other by first [congruence | unfold delta_of; by rewrite decide_False by congruence].

Lemma gathered_nothing events e s : adds_nothing e -> Gathered events s -> Gathered (events ++ [e]) s.
Proof.
  intros (H1 & H2 & H3 & H4) [G1 G2 G3 G4]. by split; unchanged.
Qed.

Section gather.
Context (write : Z -> option GoError).

Lemma ensureTool_calls d s s' :
  ensureTool write d s = (None, s') ->
  RtMessage s' = RtMessage s /\ RtReasoning s' = RtReasoning s /\ RtUsage s' = RtUsage s /\
  exists t, RtTools s' = <[DeIndex d := t]> (RtTools s) /\ extend d (Some (tool_call t)) = extend d (call_map s !! DeIndex d).
Proof.
  unfold ensureTool. destruct (RtTools s !! DeIndex d) as [t|] eqn:Ht.
  - intros [= <-]. split_and!; try done. exists t. split; [symmetry; by apply insert_id|].
    unfold call_map. by rewrite lookup_fmap, Ht.
  - cbv zeta. intros ->%emit_recorded. split_and!; try done. eexists. split; [done|].
    unfold call_map. rewrite lookup_fmap, Ht. unfold extend, call_of, latest. simpl. repeat case_bool_decide; congruence.
Qed.

Lemma consumeToolDelta_calls d s s' :
  consumeToolDelta write (Some d) s = (None, s') ->
  RtMessage s' = RtMessage s /\ RtReasoning s' = RtReasoning s /\ RtUsage s' = RtUsage s /\
  call_map s' = <[DeIndex d := extend d (call_map s !! DeIndex d)]> (call_map s).
Proof.
  intros (s1 & H1 & H2)%andthen_ok. apply ensureTool_calls in H1 as (Hm & Hr & Hu & t & Ht & Hx).
  rewrite Ht, lookup_insert_eq in H2. apply emit_recorded in H2 as ->. split_and!; try done.
  unfold call_map in *. simpl. rewrite Ht, insert_insert_eq, fmap_insert. f_equal. exact Hx.
Qed.
End gather.

Section delivered.
Context (write : Z -> option GoError) (now : Z) (recordID : string) (marshal : PresentedResponse -> option GoError)
  (fate : StoreFate).

Lemma gathered_content events e s s1 s' :
  SeType e = StreamContentDelta -> Gathered events s -> TsStarted (RtMessage s) = true ->
  s1 = set_message (append_text (SeContentDelta e) (RtMessage s)) s -> same_answer s1 s' -> Gathered (events ++ [e]) s'.
Proof.
  intros Ht [G1 G2 G3 G4] Hst -> Hs. eapply gathered_same; [exact Hs|].
  split; simpl; unchanged; [|done..]. revert G1. unfold text_of. simpl. rewrite Hst, contents_app. simpl.
  rewrite decide_True, string_app_empty_r by done. congruence.
Qed.

Lemma gathered_reasoning events e s s1 s' :
  SeType e = StreamReasoningDelta -> Gathered events s -> TsStarted (RtReasoning s) = true ->
  s1 = set_reasoning (append_text (SeReasoningDelta e) (RtReasoning s)) s -> same_answer s1 s' -> Gathered (events ++ [e]) s'.
Proof.
  intros Ht [G1 G2 G3 G4] Hst -> Hs. eapply gathered_same; [exact Hs|].
  split; simpl; unchanged; [done| |done..]. revert G2. unfold text_of. simpl. rewrite Hst, reasonings_app. simpl.
  rewrite decide_True, string_app_empty_r by done. congruence.
Qed.

Lemma gathered_delta events e d s s' :
  delta_of e = Some d -> Gathered events s ->
  RtMessage s' = RtMessage s -> RtReasoning s' = RtReasoning s -> RtUsage s' = RtUsage s ->
  call_map s' = <[DeIndex d := extend d (call_map s !! DeIndex d)]> (call_map s) -> Gathered (events ++ [e]) s'.
Proof.
  intros Hd [G1 G2 G3 G4] Hm Hr Hu Hc.
  assert (Ht : SeType e = StreamToolCallDelta) by (unfold delta_of in Hd; by case_decide).
  split; unchanged; [congruence..| |congruence].
  intros k. rewrite Hc, deltas_app. simpl. rewrite Hd, call_at_snoc. case_decide as Hk.
  - subst k. by rewrite lookup_insert_eq, G3.
  - by rewrite lookup_insert_ne.
Qed.

Lemma gathered_usage events e s :
  SeType e = StreamUsageEvent -> Gathered events s -> Gathered (events ++ [e]) (set_usage (SeUsage e) s).
Proof.
  intros Ht [G1 G2 G3 G4]. split; simpl; unchanged; [done..|].
  unfold reported. rewrite foldl_app. simpl. by rewrite Ht, decide_True.
Qed.

Lemma ensureMessage_started s s' : ensureMessage write s = (None, s') -> TsStarted (RtMessage s') = true.
Proof.
  unfold ensureMessage. destruct (TsStarted _) eqn:Hst; [by intros [= <-]|]. cbv zeta.
  by intros (s1 & ->%emit_recorded & ->%emit_recorded)%andthen_ok.
Qed.

Lemma ensureReasoning_started s s' : ensureReasoning write s = (None, s') -> TsStarted (RtReasoning s') = true.
Proof. unfold ensureReasoning. destruct (TsStarted _) eqn:Hst; [by intros [= <-]|]. cbv zeta. by intros ->%emit_recorded. Qed.

Lemma consume_gathered events e s s' :
  Gathered events s -> consume write marshal (completeStored fate) e s = (None, s') -> Gathered (events ++ [e]) s'.
Proof.
  intros Hg. unfold consume. destruct (SeType e) eqn:Ht.
  - intros H. apply gathered_nothing; [unfold adds_nothing, delta_of; by rewrite Ht|].
    eapply gathered_same; [by apply (keeps_ensureMessage write)|done].
  - intros (s1 & H1 & (s2 & H2 & H3)%andthen_ok)%andthen_ok. injection H2 as <-.
    eapply (gathered_content events e s1); [done| |by eapply ensureMessage_started|done|by eapply keeps_emit].
    eapply gathered_same; [by apply (keeps_ensureMessage write)|done].
  - intros (s1 & H1 & (s2 & H2 & H3)%andthen_ok)%andthen_ok. injection H2 as <-.
    eapply (gathered_reasoning events e s1); [done| |by eapply ensureReasoning_started|done|by eapply keeps_emit].
    eapply gathered_same; [by apply (keeps_ensureReasoning write)|done].
  - destruct (SeToolCallDelta e) as [d|] eqn:Hd.
    + intros (Hm & Hr & Hu & Hc)%consumeToolDelta_calls.
      eapply (gathered_delta events e d s); [unfold delta_of; by rewrite decide_True|done..].
    + intros [= <-]. apply gathered_nothing; [|done]. unfold adds_nothing, delta_of. by rewrite Ht, decide_True.
  - intros (s1 & H1 & H2)%andthen_ok. injection H1 as <-. apply gathered_nothing; [unfold adds_nothing, delta_of; by rewrite Ht|].
    eapply gathered_same; [by apply (keeps_closeOutput write)|]. eapply gathered_same; [|done]. by split.
  - intros [= <-]. by apply gathered_usage.
  - intros [= <-]. apply gathered_nothing; [unfold adds_nothing, delta_of; by rewrite Ht|done].
  - intros (s1 & H1 & H2)%andthen_ok. cbv zeta in H2. destruct (marshal _); [done|].
    apply andthen_ok in H2 as (s2 & H2%completeStored_cases & H3).
    apply gathered_nothing; [unfold adds_nothing, delta_of; by rewrite Ht|].
    eapply gathered_same; [|exact Hg]. transitivity s1; [by apply (keeps_closeOutput write)|].
    eapply keeps_emit; [|done]. subst s2. by destruct (ReStore _); split.
  - intros [= <-]. apply gathered_nothing; [unfold adds_nothing, delta_of; by rewrite Ht|done].
Qed.

Lemma consume_done e s s' :
  SeType e = StreamDone -> consume write marshal (completeStored fate) e s = (None, s') ->
  exists read, shown s' = read ++ [Completed (completedResponse s')].
Proof.
  intros He. unfold consume. rewrite He. intros (s1 & H1 & H2)%andthen_ok. cbv zeta in H2.
  destruct (marshal _); [done|]. apply andthen_ok in H2 as (s2 & H2%completeStored_cases & ->%emit_recorded).
  exists (shown s2). rewrite shown_recorded. subst s2. by destruct (ReStore _).
Qed.

Lemma deliver_gathered events s0 s done :
  Gathered done s0 -> deliver write now recordID marshal fate events s0 = (None, s) -> Gathered (done ++ events) s.
Proof.
  revert s0 done. induction events as [|e events IH]; intros s0 seen Hg; simpl.
  { intros [= <-]. by rewrite app_nil_r. }
  intros (s1 & (s2 & H1 & H2)%sink_split & H3)%andthen_ok.
  replace (seen ++ e :: events) with ((seen ++ [e]) ++ events) by (by rewrite <- app_assoc).
  eapply IH; [|done]. eapply consume_gathered; [|done]. eapply gathered_same; [|done].
  apply startStream_ok in H1 as (_ & _ & _ & Hm & Hr & Ht & Hu & _). unfold call_map. split; unfold call_map; congruence.
Qed.

Lemma gathered_new request : Gathered [] (newResponseStream request).
Proof. by split. Qed.
End delivered.

(** ** The completed response *)

Lemma call_at_Some k ds : is_Some (call_at k ds) <-> k ∈ DeIndex <$> ds.
Proof.
  unfold call_at, at_index. rewrite list_elem_of_fmap. split.
  - destruct (filter _ ds) as [|d l] eqn:Hl; [by intros []|]. intros _. exists d.
    assert (Hd : d ∈ filter (λ d, DeIndex d = k) ds) by (rewrite Hl; left).
    apply list_elem_of_filter in Hd as [-> Hd]. done.
  - intros (d & -> & Hd). destruct (filter _ ds) as [|d' l] eqn:Hl; [|by eexists].
    assert (Hin : d ∈ filter (λ d', DeIndex d' = DeIndex d) ds) by (by apply list_elem_of_filter).
    rewrite Hl in Hin. by apply not_elem_of_nil in Hin.
Qed.

Lemma call_at_in k ds : k ∈ DeIndex <$> ds -> call_at k ds = Some (call_of (at_index k ds)).
Proof. intros Hk%call_at_Some. unfold call_at in *. destruct (at_index k ds); [by destruct Hk|done]. Qed.

(** The tools are closed and listed in the order of their indices. *)
Lemma gathered_indices events s : Gathered events s -> indices s = call_indices events.
Proof.
  intros Hg. apply (StronglySorted_unique Z.le); [apply StronglySorted_merge_sort; apply _..|].
  unfold indices, call_indices. rewrite !merge_sort_Permutation. apply NoDup_Permutation.
  - apply NoDup_fst_map_to_list.
  - apply NoDup_elements.
  - intros k. rewrite elem_of_elements, elem_of_list_to_set, <- call_at_Some, <- (ga_calls _ _ Hg k).
    unfold call_map. rewrite lookup_fmap, fmap_is_Some, <- elem_of_indices. unfold indices.
    by rewrite merge_sort_Permutation.
Qed.

Lemma gathered_calls events s :
  Gathered events s -> omap (λ index, tool_call <$> RtTools s !! index) (indices s) = calls events.
Proof.
  intros Hg. rewrite (gathered_indices events s Hg). unfold calls.
  assert (Hall : Forall (λ k, k ∈ DeIndex <$> deltas events) (call_indices events)).
  { apply Forall_forall. intros k. unfold call_indices. rewrite merge_sort_Permutation.
    by rewrite elem_of_elements, elem_of_list_to_set. }
  induction Hall as [|k l Hk _ IH]; [done|]. simpl.
  pose proof (ga_calls _ _ Hg k) as Hc. unfold call_map in Hc. rewrite lookup_fmap in Hc.
  rewrite Hc, (call_at_in k _ Hk). f_equal. exact IH.
Qed.

Lemma gathered_completed events s :
  Gathered events s ->
  PrOutput (completedResponse s) = answer (RtResponseID s) events /\
  PrOutputText (completedResponse s) = contents events /\ PrUsage (completedResponse s) = responseUsage <$> reported events.
Proof.
  intros Hg. unfold completedResponse, PresentResponseWithID. rewrite (gathered_calls events s Hg).
  destruct Hg as [Hm Hr _ Hu]. unfold text_of in Hm, Hr.
  assert (Ht : messageText (if TsStarted (RtMessage s) then TextContent (TsText (RtMessage s)) else []) = contents events).
  { rewrite <- Hm. destruct (TsStarted (RtMessage s)); [|done]. simpl. by rewrite string_app_empty_r. }
  cbn [RsChoices present_choices PrOutput PrOutputText PrUsage RsUsage CcMessage MsContent]. rewrite Ht, app_nil_r, string_app_empty_r.
  split_and!; [|done|congruence]. unfold choice_items, answer. cbn [CcMessage MsContent MsReasoning MsToolCalls]. rewrite Ht.
  f_equal. rewrite <- Hr. by destruct (TsStarted (RtReasoning s)).
Qed.

(** C19. Whatever events a stream delivered, in whatever order, once the end mark
    was delivered the last event the client reads is the completed response, and
    its answer is exactly what the events spell: one reasoning item with all
    reasoning text, one message with all text, and one call per tool index in
    order of the indices, with the last name and identifier and all argument
    fragments; empty texts make no item, and the usage is the last one
    reported. *)
Theorem completed_response_is_the_answer write now recordID marshal fate request events e s :
  SeType e = StreamDone ->
  deliver write now recordID marshal fate (events ++ [e]) (newResponseStream request) = (None, s) ->
  exists read response, shown s = read ++ [Completed response] /\ PrId response = RtResponseID s /\
    PrStatus response = "completed" /\ PrOutput response = answer (RtResponseID s) events /\
    PrOutputText response = contents events /\ PrUsage response = responseUsage <$> reported events.
Proof.
  intros He Hd. pose proof (deliver_gathered _ _ _ _ _ _ _ _ _ (gathered_new request) Hd) as Hg. simpl in Hg.
  destruct (gathered_completed _ _ Hg) as (Ho & Ht & Hu).
  rewrite deliver_app in Hd. apply andthen_ok in Hd as (s1 & H1 & H2). simpl in H2.
  apply andthen_ok in H2 as (s2 & (s3 & H2 & H3)%sink_split & [= <-]).
  destruct (consume_done write marshal fate e s3 s2 He H3) as (read & Hread).
  exists read, (completedResponse s2). split_and!; try done.
  - rewrite Ho. unfold answer. rewrite contents_other, reasonings_other by congruence. unfold calls, call_indices.
    by rewrite deltas_other by (unfold delta_of; by rewrite decide_False by congruence).
  - rewrite Ht. by rewrite contents_other by congruence.
  - rewrite Hu. by rewrite reported_other by congruence.
Qed.

Lemma completed_response_is_the_answer_witness :
  exists s read response,
    deliver (λ _, None) 0 "id" (λ _, None) demo_store demo_events (newResponseStream demo_responses) = (None, s) /\
    shown s = read ++ [Completed response] /\ PrOutputText response = "Hello" /\ length (PrOutput response) = 3%nat.
Proof.
  destruct (completed_response_is_the_answer (λ _, None) 0 "id" (λ _, None) demo_store demo_responses (take 7 demo_events)
    (demo_event StreamDone "" "" None) (deliver (λ _, None) 0 "id" (λ _, None) demo_store demo_events
      (newResponseStream demo_responses)).2) as (read & response & Hs & _ & _ & Ho & Ht & _);
    [reflexivity|vm_compute; reflexivity|].
  eexists _, read, response. split; [vm_compute; reflexivity|]. split; [exact Hs|]. rewrite Ht, Ho.
  split; vm_compute; reflexivity.
Defined.

(** ** The stored response *)

Definition is_completed (e : ResponseEvent) : bool := match e with Completed _ => true | _ => false end.

(** Writing events that complete nothing, without the store. *)
Record frame (s s' : responseStream) : Prop := {
  fr_stored : RtStored s' = RtStored s;
  fr_request : RtRequest s' = RtRequest s;
  fr_started : RtStarted s' = RtStarted s;
  fr_shown : exists es, shown s' = shown s ++ es /\ Forall (λ e, is_completed e = false) es;
}.

#[export] Instance frame_preorder : PreOrder frame.
Proof.
  split.
  - intros s. split; try done. exists []. by rewrite app_nil_r.
  - intros s1 s2 s3 [H1 H2 H3 (es & H4 & H5)] [H6 H7 H8 (es' & H9 & H10)]. split; [congruence..|].
    exists (es ++ es'). rewrite H9, H4, <- app_assoc. split; [done|]. by apply Forall_app.
Qed.

Create HintDb frames.

Section frames.
Context (write : Z -> option GoError).

Definition framed (m : Act) : Prop := forall s, frame s (m s).2.

Lemma framed_andthen m k : framed m -> framed k -> framed (andthen m k).
Proof.
  intros Hm Hk s. unfold andthen. pose proof (Hm s) as H. destruct (m s) as [[err|] s1]; [done|].
  by transitivity s1.
Qed.

Lemma framed_emit e : is_completed e = false -> framed (emit write e).
Proof.
  intros He s. unfold emit. cbv zeta. destruct (write _); split; try done; unfold shown; simpl.
  - exists []. by rewrite app_nil_r.
  - exists [e]. rewrite fmap_app. split; [done|]. by constructor.
Qed.

Lemma emit_running e s : RtRunning (emit write e s).2 = RtRunning s.
Proof. unfold emit. cbv zeta. by destruct (write _). Qed.

Lemma framed_skip : framed skip.
Proof. by intros s. Qed.

(** A change of the state that the client and the store do not see. *)
Lemma framed_after m s s0 :
  framed m -> RtStored s0 = RtStored s -> RtRequest s0 = RtRequest s -> RtStarted s0 = RtStarted s ->
  RtWritten s0 = RtWritten s -> frame s (m s0).2.
Proof.
  intros Hm H1 H2 H3 H4. transitivity s0; [|apply Hm]. split; try done. exists []. unfold shown. by rewrite H4, app_nil_r.
Qed.

#[local] Hint Resolve framed_andthen framed_emit framed_skip framed_after eq_refl : frames.

Lemma framed_ensureMessage : framed (ensureMessage write).
Proof. intros s. unfold ensureMessage. destruct (TsStarted _); [done|]. cbv zeta. auto 6 with frames. Qed.

Lemma framed_ensureReasoning : framed (ensureReasoning write).
Proof. intros s. unfold ensureReasoning. destruct (TsStarted _); [done|]. cbv zeta. auto 6 with frames. Qed.

Lemma framed_closeReasoning : framed (closeReasoning write).
Proof. intros s. unfold closeReasoning. cbv zeta. destruct (_ || _)%bool; [done|]. auto 6 with frames. Qed.

Lemma framed_closeMessage : framed (closeMessage write).
Proof. intros s. unfold closeMessage. cbv zeta. destruct (_ || _)%bool; [done|]. auto 8 with frames. Qed.

Lemma framed_closeTool k : framed (closeTool write k).
Proof. intros s. unfold closeTool. destruct (RtTools s !! k) as [t|]; [|done]. destruct (ToClosed t); [done|]. auto 6 with frames. Qed.

Lemma framed_closeOutput : framed (closeOutput write).
Proof.
  apply framed_andthen, framed_andthen; [apply framed_closeReasoning|apply framed_closeMessage|].
  intros s. unfold closeTools. generalize (indices s) as l. intros l. revert s.
  induction l as [|k l IH]; [apply framed_skip|]. apply framed_andthen; [apply framed_closeTool|exact IH].
Qed.

Lemma framed_consumeToolDelta d : framed (consumeToolDelta write d).
Proof.
  destruct d as [d|]; [|apply framed_skip]. apply framed_andthen; intros s.
  - unfold ensureTool. destruct (RtTools s !! DeIndex d); [done|]. cbv zeta. auto 6 with frames.
  - destruct (RtTools s !! DeIndex d); [|done]. auto 6 with frames.
Qed.

(** Every event but the end mark. *)
Lemma framed_consume marshal complete e : SeType e <> StreamDone -> framed (consume write marshal complete e).
Proof.
  intros He. unfold consume. destruct (SeType e); try done; try apply framed_skip.
  - apply framed_ensureMessage.
  - apply framed_andthen; [apply framed_ensureMessage|]. intros s. unfold andthen, change. auto 6 with frames.
  - apply framed_andthen; [apply framed_ensureReasoning|]. intros s. unfold andthen, change. auto 6 with frames.
  - apply framed_consumeToolDelta.
  - intros s. unfold andthen, change. apply framed_after; [apply framed_closeOutput|done..].
  - intros s. apply (framed_after skip); [apply framed_skip|done..].
Qed.
End frames.

Definition done_count (events : list StreamEvent) : nat := length (filter (λ e, SeType e = StreamDone) events).

(** The calls to the store after [n] end marks. *)
Record Life (request : ResponsesRequest) (n : nat) (s : responseStream) : Prop := {
  li_request : RtRequest s = request;
  li_unstarted : RtStarted s = false -> RtWritten s = [] /\ (RtStored s = [] \/ RtStored s = [StoreBegin]);
  li_unstored : ReStore request = false -> RtStored s = [];
  li_stored : ReStore request = true -> RtStarted s = true ->
    exists completes, RtStored s = StoreBegin :: (StoreComplete <$> completes) /\ (length completes <= n)%nat /\
      forall r, Completed r ∈ shown s -> r ∈ completes;
}.

Lemma frame_completed s s' r : frame s s' -> Completed r ∈ shown s' -> Completed r ∈ shown s.
Proof.
  intros [_ _ _ (es & -> & Hes)] [Hin|Hin]%elem_of_app; [done|].
  rewrite Forall_forall in Hes. by apply Hes in Hin.
Qed.

Lemma life_frame request n s s' : RtStarted s = true -> frame s s' -> Life request n s -> Life request n s'.
Proof.
  intros Hst Hf [H1 _ H3 H4]. pose proof Hf as [Hs Hr Ht _]. split; [congruence| |rewrite Hs; done|].
  - rewrite Ht, Hst. done.
  - intros Hstore _. destruct (H4 Hstore Hst) as (completes & Hl & Hn & Hc). exists completes.
    rewrite Hs. split_and!; try done. intros r Hin. apply Hc. by eapply frame_completed.
Qed.

Lemma life_more request n n' s : (n <= n')%nat -> Life request n s -> Life request n' s.
Proof.
  intros Hn [H1 H2 H3 H4]. split; try done. intros Hstore Hst.
  destruct (H4 Hstore Hst) as (completes & Hl & Hlen & Hc). exists completes. split_and!; [done|lia|done].
Qed.

Section lifecycle.
Context (write : Z -> option GoError) (now : Z) (recordID : string) (marshal : PresentedResponse -> option GoError)
  (fate : StoreFate).

(** Storing the completed response, then showing it. *)
Lemma life_complete request n r s :
  RtStarted s = true -> Life request n s ->
  Life request (S n) ((andthen (completeStored fate r) (emit write (Completed r))) s).2.
Proof.
  intros Hst [H1 H2 H3 H4]. unfold andthen, completeStored, emit. cbv zeta. rewrite H1.
  destruct (ReStore request) eqn:Hstore.
  - destruct (H4 eq_refl Hst) as (completes & Hl & Hn & Hc).
    assert (Hl' : RtStored s ++ [StoreComplete r] = StoreBegin :: (StoreComplete <$> completes ++ [r])).
    { by rewrite Hl, fmap_app. }
    assert (Hlen : (length (completes ++ [r]) <= S n)%nat) by (rewrite length_app; simpl; lia).
    destruct (on_complete fate r) as [err|]; [|destruct (write _)]; (split; simpl; [done|by rewrite Hst|by rewrite Hstore|]);
      intros _ _; exists (completes ++ [r]); (split_and!; [done|done|]); unfold shown in *; simpl; rewrite ?fmap_app;
      intros r' Hin; rewrite elem_of_app; try (left; by apply Hc).
    apply elem_of_app in Hin as [Hin|Hin]; [left; by apply Hc|right].
    simpl in Hin. apply list_elem_of_singleton in Hin. injection Hin as ->. by left.
  - destruct (write _); (split; simpl; [done|by rewrite Hst|intros _; by apply H3|by rewrite Hstore]).
Qed.

(** The state an action leaves, whether it failed first or went on. *)
Lemma andthen_leaves (P : responseStream -> Prop) m k s :
  P (m s).2 -> (forall s1, m s = (None, s1) -> P (k s1).2) -> P (andthen m k s).2.
Proof. unfold andthen. destruct (m s) as [[err|] s1]; intros H1 H2; [done|by apply H2]. Qed.

(** A started stream, after [n] end marks. *)
Definition live (request : ResponsesRequest) (n : nat) (s : responseStream) : Prop :=
  RtStarted s = true /\ Life request n s.

Lemma live_frame request n n' s s' : (n <= n')%nat -> frame s s' -> live request n s -> live request n' s'.
Proof.
  intros Hn Hf [Hst Hl]. split; [by rewrite (fr_started _ _ Hf)|]. eapply life_more; [done|by eapply life_frame].
Qed.

Lemma live_consume request n e s :
  live request n s -> live request (n + done_count [e]) (consume write marshal (completeStored fate) e s).2.
Proof.
  intros Hl. unfold done_count. destruct (decide (SeType e = StreamDone)) as [He|He].
  2:{ rewrite filter_cons_False by done. eapply live_frame; [|by apply framed_consume|done]. simpl. lia. }
  rewrite filter_cons_True by done. simpl. rewrite Nat.add_1_r. unfold consume. rewrite He.
  pose proof (framed_closeOutput write s) as Hf. apply andthen_leaves.
  { eapply live_frame; [|done..]. lia. }
  intros s1 Hs1. rewrite Hs1 in Hf. simpl in Hf. cbv zeta.
  assert (Hl1 : live request n s1) by (eapply live_frame; [|done..]; lia). destruct (marshal _).
  { eapply live_frame; [|reflexivity|exact Hl1]. lia. }
  destruct Hl1 as [Hst1 Hl1]. split; [|by apply life_complete]. unfold andthen, completeStored, emit. cbv zeta.
  destruct (ReStore _); [destruct (on_complete _ _); [done|]|]; by destruct (write _).
Qed.

(** A stream that has not started and begun nothing. *)
Record fresh (request : ResponsesRequest) (s : responseStream) : Prop := {
  fre_request : RtRequest s = request;
  fre_started : RtStarted s = false;
  fre_stored : RtStored s = [];
  fre_written : RtWritten s = [];
}.

Definition begun (request : ResponsesRequest) : list StoreCall := if ReStore request then [StoreBegin] else [].

Lemma life_begun request n s :
  RtRequest s = request -> RtStored s = begun request -> RtWritten s = [] -> Life request n s.
Proof.
  intros H1 H2 H3. unfold begun in H2. split; [done| | |].
  - intros _. split; [done|]. rewrite H2. destruct (ReStore request); by eauto.
  - intros Hr. by rewrite H2, Hr.
  - intros Hr _. exists []. rewrite H2, Hr. split_and!; [done|simpl; lia|]. unfold shown. rewrite H3.
    by intros r ?%not_elem_of_nil.
Qed.

Lemma live_start request n e s :
  RtRequest s = request -> RtStored s = begun request -> RtWritten s = [] -> live request n (start write now e s).2.
Proof.
  intros H1 H2 H3. unfold start. cbv zeta. eapply live_frame; [reflexivity|apply framed_andthen; by apply framed_emit|].
  split; [done|]. by apply life_begun.
Qed.

Lemma life_fresh request n s : fresh request s -> Life request n s.
Proof. intros [H1 H2 H3 H4]. split; [done|by eauto|done|]. intros _ Hst. congruence. Qed.

Lemma beginStored_begun request s :
  fresh request s ->
  RtRequest (beginStored fate s).2 = request /\ RtStored (beginStored fate s).2 = begun request /\
  RtWritten (beginStored fate s).2 = [].
Proof.
  intros [H1 H2 H3 H4]. unfold beginStored, begun. rewrite H1.
  destruct (ReStore request); simpl; rewrite ?H3; by split_and!.
Qed.

(** The first event: the record is begun, then the stream starts. *)
Lemma life_start request n e s :
  fresh request s ->
  Life request n (startStream write now recordID fate e s).2 /\
  forall s1, startStream write now recordID fate e s = (None, s1) -> live request n s1.
Proof.
  intros Hf. unfold startStream. rewrite (fre_started _ _ Hf).
  assert (Hf1 : fresh request (set_responseID (ResponseIdentifierForRequest recordID) s)) by (by destruct Hf; split).
  destruct (beginStored_begun request _ Hf1) as (E1 & E2 & E3). split.
  - apply (andthen_leaves (Life request n)); [by apply life_fresh|]. intros s1 [= <-].
    apply (andthen_leaves (Life request n)); [by apply life_begun|]. intros s2 Hs2. rewrite Hs2 in E1, E2, E3.
    apply (andthen_leaves (Life request n)); [by apply life_begun|]. intros s3 [= <-]. by apply live_start.
  - intros s' (s1 & H1 & H)%andthen_ok. injection H1 as <-. apply andthen_ok in H as (s2 & H2 & H).
    apply andthen_ok in H as (s3 & H3 & H4). injection H3 as <-. rewrite H2 in E1, E2, E3.
    pose proof (live_start request n e (set_running true s2) E1 E2 E3) as Hl. by rewrite H4 in Hl.
Qed.

Lemma live_sink request n e s :
  live request n s -> live request (n + done_count [e]) (sink write now recordID marshal fate e s).2.
Proof.
  intros Hl. unfold sink. apply (andthen_leaves (live request (n + done_count [e]))); unfold startStream; rewrite (proj1 Hl).
  - eapply live_frame; [|reflexivity|exact Hl]. lia.
  - intros s1 [= <-]. by apply live_consume.
Qed.

Lemma done_count_cons e events : done_count (e :: events) = (done_count [e] + done_count events)%nat.
Proof. unfold done_count. rewrite !filter_cons. by case_decide. Qed.

Lemma live_deliver request events n s :
  live request n s -> live request (n + done_count events) (deliver write now recordID marshal fate events s).2.
Proof.
  revert n s. induction events as [|e events IH]; intros n s Hl; simpl deliver.
  { eapply live_frame; [|reflexivity|exact Hl]. lia. }
  rewrite done_count_cons, Nat.add_assoc. pose proof (live_sink request n e s Hl) as Hs.
  apply (andthen_leaves (live request (n + done_count [e] + done_count events))).
  - eapply live_frame; [|reflexivity|exact Hs]. lia.
  - intros s1 H1. rewrite H1 in Hs. by apply IH.
Qed.

Lemma life_deliver request events :
  Life request (done_count events) (deliver write now recordID marshal fate events (newResponseStream request)).2.
Proof.
  destruct events as [|e events]; [by apply life_fresh|]. simpl deliver. rewrite done_count_cons.
  assert (Hf : fresh request (newResponseStream request)) by done.
  destruct (life_start request 0 e _ Hf) as [Hl Hlive].
  apply (andthen_leaves (Life request (done_count [e] + done_count events))).
  - unfold sink. apply (andthen_leaves (Life request (done_count [e] + done_count events))).
    + eapply life_more; [|exact Hl]. lia.
    + intros s1 Hs1. eapply life_more; [|apply (live_consume request 0 e s1), Hlive, Hs1]. simpl. lia.
  - intros s1 (s2 & H2 & H3)%sink_split. apply (live_deliver request events (done_count [e])).
    pose proof (live_consume request 0 e s2 (Hlive s2 H2)) as Hc. by rewrite H3 in Hc.
Qed.
End lifecycle.

(** Whatever the workflow delivers, whatever writes fail and whatever the
    store answers: the response leaves the table of running responses; an HTTP
    error is written only while no event was; a response that is not to be
    stored never reaches the store; otherwise a stream that started has begun
    its record once and first, has completed it at most once per end mark, and
    has failed it last exactly when the workflow failed; and the client reads a
    completed response only after it was handed to the store. *)
Theorem stored_response_lifecycle write now recordID marshal fate request events err :
  let '(http, s) := streamResponse write now recordID marshal fate request events err in
  RtRunning s = false /\
  (is_Some http -> RtWritten s = []) /\
  (ReStore request = false -> RtStored s = []) /\
  (RtStarted s = false -> RtStored s = [] \/ RtStored s = [StoreBegin]) /\
  (ReStore request = true -> RtStarted s = true ->
    exists completes,
      RtStored s = StoreBegin :: (StoreComplete <$> completes) ++ (StoreFail <$> option_list err) /\
      (length completes <= done_count events)%nat /\ forall r, Completed r ∈ shown s -> r ∈ completes).
Proof.
  unfold streamResponse. pose proof (life_deliver write now recordID marshal fate request events) as [H1 H2 H3 H4].
  revert H1 H2 H3 H4. generalize (deliver write now recordID marshal fate events (newResponseStream request)).2 as s.
  intros s H1 H2 H3 H4. unfold finishStream. cbv zeta. destruct err as [e|]; cbn [RtStarted set_running].
  2:{ split_and!; simpl; [done|by intros []|done|by intros [_ ?]%H2|].
      intros Hr Hst. destruct (H4 Hr Hst) as (completes & Hl & Hn & Hc). exists completes. rewrite Hl, app_nil_r. by split_and!. }
  destruct (RtStarted s) eqn:Hst; simpl.
  2:{ destruct (H2 eq_refl). rewrite Hst. by split_and!. }
  set (s0 := if ReStore (RtRequest s) then stored (StoreFail e) (set_running false s) else set_running false s).
  assert (Hf : frame s0 (emit write (Failed (PresentResponseFailed (RtResponseID s0) (RtModel s0) (RtCreatedAt s0) (RtRequest s0) e)) s0).2)
    by (by apply framed_emit).
  revert Hf. rewrite emit_running. generalize (emit write (Failed (PresentResponseFailed (RtResponseID s0) (RtModel s0)
    (RtCreatedAt s0) (RtRequest s0) e)) s0).2 as s'. intros s' Hf. pose proof Hf as [F1 _ F3 _].
  rewrite F1, F3. unfold s0 in *. rewrite H1 in *. split_and!.
  - by destruct (ReStore request).
  - by intros [].
  - intros Hr. rewrite Hr. by apply H3.
  - destruct (ReStore request); simpl; congruence.
  - intros Hr _. rewrite Hr in *. destruct (H4 eq_refl eq_refl) as (completes & Hl & Hn & Hc). exists completes.
    simpl. rewrite Hl. split_and!; [done|done|]. intros r Hin. apply Hc. by apply (frame_completed _ _ r Hf) in Hin.
Qed.
