(* ===== verification/Json.v ===== *)
(** * JSON texts

    [json.Valid] of Go's encoding/json, as its scanner works: a state per
    position, a stack of the objects and arrays that are open, and one step per
    byte.  The stored responses rely on it to keep anything but JSON out of
    the store. *)

From S2P Require Import Prelude GoStrings.

Local Open Scope Z_scope.

(** What the innermost open value is waiting for. *)
Inductive ParseState := parseObjectKey | parseObjectValue | parseArrayValue.

#[export] Instance ParseState_eq_dec : EqDecision ParseState.
Proof. solve_decision. Defined.

Inductive Step :=
| BeginValue | BeginValueOrEmpty | BeginString | BeginStringOrEmpty | EndValue | EndTop
| InString | InStringEsc | InStringEscU (more : nat)
| Neg | Digits | Zero | Dot | Dot0 | Exp | ExpSign | Exp0
| Literal (rest : list Z).

#[export] Instance Step_eq_dec : EqDecision Step.
Proof. solve_decision. Defined.

Definition maxNestingDepth : Z := 10000.

Record Scanner := mkScanner { ScStep : Step; ScStack : list ParseState }.

Definition isSpace (c : Z) : bool := ((c =? 32) || (c =? 9) || (c =? 13) || (c =? 10))%bool.
Definition isDigit (c : Z) : bool := ((48 <=? c) && (c <=? 57))%bool.
Definition isHex (c : Z) : bool := (isDigit c || ((97 <=? c) && (c <=? 102)) || ((65 <=? c) && (c <=? 70)))%bool.

(** [pushParseState] with its limit. *)
Definition push (next : Step) (p : ParseState) (st : list ParseState) : option Scanner :=
  if Z.of_nat (length st) + 1 <=? maxNestingDepth then Some (mkScanner next (p :: st)) else None.

(** [popParseState] *)
Definition pop (st : list ParseState) : Scanner :=
  mkScanner (if bool_decide (st = []) then EndTop else EndValue) st.

Definition endTop (c : Z) : option Scanner := if isSpace c then Some (mkScanner EndTop []) else None.

(** [stateEndValue]: after a complete value. *)
Definition endValue (st : list ParseState) (c : Z) : option Scanner :=
  match st with
  | [] => endTop c
  | p :: st' =>
      if isSpace c then Some (mkScanner EndValue st)
      else
        match p with
        | parseObjectKey => if c =? 58 then Some (mkScanner BeginValue (parseObjectValue :: st')) else None
        | parseObjectValue =>
            if c =? 44 then Some (mkScanner BeginString (parseObjectKey :: st'))
            else if c =? 125 then Some (pop st') else None
        | parseArrayValue =>
            if c =? 44 then Some (mkScanner BeginValue st) else if c =? 93 then Some (pop st') else None
        end
  end.

Definition beginValue (st : list ParseState) (c : Z) : option Scanner :=
  if isSpace c then Some (mkScanner BeginValue st)
  else if c =? 123 then push BeginStringOrEmpty parseObjectKey st
  else if c =? 91 then push BeginValueOrEmpty parseArrayValue st
  else if c =? 34 then Some (mkScanner InString st)
  else if c =? 45 then Some (mkScanner Neg st)
  else if c =? 48 then Some (mkScanner Zero st)
  else if c =? 116 then Some (mkScanner (Literal [114; 117; 101]) st)
  else if c =? 102 then Some (mkScanner (Literal [97; 108; 115; 101]) st)
  else if c =? 110 then Some (mkScanner (Literal [117; 108; 108]) st)
  else if isDigit c then Some (mkScanner Digits st)
  else None.

Definition beginString (st : list ParseState) (c : Z) : option Scanner :=
  if isSpace c then Some (mkScanner BeginString st) else if c =? 34 then Some (mkScanner InString st) else None.

Definition zero (st : list ParseState) (c : Z) : option Scanner :=
  if c =? 46 then Some (mkScanner Dot st)
  else if ((c =? 101) || (c =? 69))%bool then Some (mkScanner Exp st)
  else endValue st c.

Definition expSign (st : list ParseState) (c : Z) : option Scanner :=
  if isDigit c then Some (mkScanner Exp0 st) else None.

(** One byte. *)
Definition scan (s : Scanner) (c : Z) : option Scanner :=
  let st := ScStack s in
  match ScStep s with
  | BeginValue => beginValue st c
  | BeginValueOrEmpty =>
      if isSpace c then Some s else if c =? 93 then endValue st c else beginValue st c
  | BeginStringOrEmpty =>
      if isSpace c then Some s
      else if c =? 125 then endValue (match st with [] => [] | _ :: st' => parseObjectValue :: st' end) c
      else beginString st c
  | BeginString => beginString st c
  | EndValue => endValue st c
  | EndTop => endTop c
  | InString =>
      if c =? 34 then Some (mkScanner EndValue st)
      else if c =? 92 then Some (mkScanner InStringEsc st)
      else if c <? 32 then None else Some s
  | InStringEsc =>
      if bool_decide (c ∈ [98; 102; 110; 114; 116; 92; 47; 34]) then Some (mkScanner InString st)
      else if c =? 117 then Some (mkScanner (InStringEscU 3) st) else None
  | InStringEscU more =>
      if isHex c then Some (mkScanner (match more with O => InString | S n => InStringEscU n end) st) else None
  | Neg => if c =? 48 then Some (mkScanner Zero st) else if isDigit c then Some (mkScanner Digits st) else None
  | Digits => if isDigit c then Some s else zero st c
  | Zero => zero st c
  | Dot => if isDigit c then Some (mkScanner Dot0 st) else None
  | Dot0 =>
      if isDigit c then Some s
      else if ((c =? 101) || (c =? 69))%bool then Some (mkScanner Exp st) else endValue st c
  | Exp => if ((c =? 43) || (c =? 45))%bool then Some (mkScanner ExpSign st) else expSign st c
  | ExpSign => expSign st c
  | Exp0 => if isDigit c then Some s else endValue st c
  | Literal [] => None
  | Literal (x :: rest) =>
      if c =? x then Some (mkScanner (match rest with [] => EndValue | _ => Literal rest end) st) else None
  end.

Fixpoint scan_all (s : Scanner) (text : list ascii) : option Scanner :=
  match text with
  | [] => Some s
  | c :: text' => match scan s (code c) with Some s' => scan_all s' text' | None => None end
  end.

(** [scanner.eof]: a blank may end the last value. *)
Definition at_end (s : Scanner) : bool :=
  match ScStep s with
  | EndTop => true
  | _ => match scan s 32 with Some s' => bool_decide (ScStep s' = EndTop) | None => false end
  end.

(** [json.Valid] *)
Definition Valid (text : list ascii) : bool :=
  match scan_all (mkScanner BeginValue []) text with Some s => at_end s | None => false end.

Definition chars (s : string) : list ascii := String.list_ascii_of_string s.

Definition bytes_of (codes : list N) : list ascii := byte <$> codes.

(** The object with the key [a] and the escaped value [\u00e9]. *)
Example valid_object : Valid (bytes_of [123; 34; 97; 34; 58; 34; 92; 117; 48; 48; 101; 57; 34; 125]%N) = true.
Proof. vm_compute. reflexivity. Qed.

Example valid_array : Valid (chars " [1, -2.5e+3, null, [], {}, true ] ") = true.
Proof. vm_compute. reflexivity. Qed.

Example invalid_numbers : Valid (chars "01") = false /\ Valid (chars "1.") = false /\ Valid (chars "-") = false.
Proof. vm_compute. done. Qed.

(** The empty text is no JSON value, and blanks around a text change nothing. *)
Lemma Valid_empty : Valid [] = false.
Proof. reflexivity. Qed.

Lemma scan_all_app s a b : scan_all s (a ++ b) = scan_all s a ≫= λ s', scan_all s' b.
Proof. revert s. induction a as [|c a IH]; intros s; simpl; [done|]. destruct (scan s (code c)); [apply IH|done]. Qed.

Lemma Valid_leading_space c text : isSpace (code c) = true -> Valid (c :: text) = Valid text.
Proof. intros Hc. unfold Valid. simpl. unfold scan, beginValue. simpl. by rewrite Hc. Qed.
