(* ===== verification/Sql.v ===== *)
(** * Single SQL statements over a table

    The repositories of [src/internal/store] run one statement at a time
    against PostgreSQL (the texts are in [src/internal/store/db]).  A table is
    a map from the primary key to its rows; a statement is one atomic step: it
    fails without effect, or takes effect and returns its rows.  A statement
    that updates a row by its key waits for a concurrent writer of the row and
    then evaluates its condition on the new row, so an interleaving of such
    statements is a sequence of such steps.

    [Conn] is what the outside decides about one statement: the time [now()]
    gives, a failure of the database, and the rows other transactions hold
    locked. *)

From S2P Require Import Prelude GoStrings Canonical.

Local Open Scope Z_scope.

(** [pgx.ErrNoRows], a [pgconn.PgError] by its code, or any other failure. *)
Inductive PgError := NoRows | PgCode (sqlstate : string) | PgFailure (message : string).

#[export] Instance PgError_eq_dec : EqDecision PgError.
Proof. solve_decision. Defined.

Record Conn := mkConn { cn_now : Z; cn_fault : option PgError; cn_locked : UUID -> bool }.

Definition check_violation : string := "23514".
Definition unique_violation : string := "23505".
Definition foreign_key_violation : string := "23503".
Definition numeric_out_of_range : string := "22003".

(** [length(text)]: the characters of a UTF-8 string. *)
Fixpoint char_length (s : string) : Z :=
  match s with
  | EmptyString => 0
  | String c s' => (if (128 <=? code c) && (code c <=? 191) then 0 else 1)%bool + char_length s'
  end.

(** Nullable values: [=] is not true of [NULL]. *)
Definition sql_eq {A} `{EqDecision A} (a : option A) (b : A) : bool := bool_decide (a = Some b).
Definition is_null {A} (a : option A) : bool := match a with None => true | Some _ => false end.
Definition coalesce {A} (a : option A) (b : A) : A := default b a.

(** [bytea] and other slices: [nil] is stored as [NULL]. *)
Definition is_nil {A} (l : list A) : bool := match l with [] => true | _ => false end.

(** Another row of the table, not the one under [id]. *)
Definition other_row {R} (t : gmap UUID R) (id : UUID) (p : R -> bool) : bool :=
  existsb (λ kr : UUID * R, (negb (bool_decide (kr.1 = id)) && p kr.2)%bool) (map_to_list t).

Section statements.
Context {R : Type}.

(** The constraints of a table: what a row must satisfy by itself, whether it
    clashes with another row, and whether the rows it refers to are there.
    They are evaluated in this order. *)
Record Constraints := mkConstraints {
  ct_check : R -> bool;
  ct_clash : gmap UUID R -> UUID -> R -> bool;
  ct_refers : gmap UUID R -> R -> bool;
}.

Context (ct : Constraints).

Definition violates (t : gmap UUID R) (key_clash : bool) (id : UUID) (r : R) : option string :=
  if negb (ct_check ct r) then Some check_violation
  else if (key_clash || ct_clash ct t id r)%bool then Some unique_violation
  else if negb (ct_refers ct t r) then Some foreign_key_violation
  else None.

(** [UPDATE ... WHERE id = $1 AND guard ... RETURNING *] *)
Definition update_one (c : Conn) (id : UUID) (guard : R -> bool) (f : R -> R) (t : gmap UUID R) :
    result PgError R * gmap UUID R :=
  match cn_fault c with
  | Some e => (Err e, t)
  | None =>
      match t !! id with
      | Some r =>
          if guard r then
            match violates t false id (f r) with
            | Some sqlstate => (Err (PgCode sqlstate), t)
            | None => (Ok (f r), <[id := f r]> t)
            end
          else (Err NoRows, t)
      | None => (Err NoRows, t)
      end
  end.

(** [INSERT INTO ... VALUES ... RETURNING *] *)
Definition insert_one (c : Conn) (id : UUID) (r : R) (t : gmap UUID R) : result PgError R * gmap UUID R :=
  match cn_fault c with
  | Some e => (Err e, t)
  | None =>
      match violates t (bool_decide (is_Some (t !! id))) id r with
      | Some sqlstate => (Err (PgCode sqlstate), t)
      | None => (Ok r, <[id := r]> t)
      end
  end.

(** [SELECT * ... WHERE id = $1 AND guard] *)
Definition select_one (c : Conn) (id : UUID) (guard : R -> bool) (t : gmap UUID R) : result PgError R :=
  match cn_fault c with
  | Some e => Err e
  | None => match t !! id with Some r => if guard r then Ok r else Err NoRows | None => Err NoRows end
  end.

(** ** What a statement did *)

(** A row that was let in. *)
Record admitted (t : gmap UUID R) (id : UUID) (r : R) : Prop := {
  ad_check : ct_check ct r = true;
  ad_clash : ct_clash ct t id r = false;
  ad_refers : ct_refers ct t r = true;
}.

Lemma violates_None t k id r : violates t k id r = None <-> k = false /\ admitted t id r.
Proof.
  unfold violates. split.
  - destruct (ct_check ct r) eqn:H1; [|done]. simpl. destruct k; [done|]. simpl.
    destruct (ct_clash ct t id r) eqn:H2; [done|]. destruct (ct_refers ct t r) eqn:H3; [|done]. done.
  - intros (-> & [-> -> ->]). done.
Qed.

Lemma update_one_inv c id guard f t res t' :
  update_one c id guard f t = (res, t') ->
  (exists r, t !! id = Some r /\ guard r = true /\ admitted t id (f r) /\ res = Ok (f r) /\ t' = <[id := f r]> t) \/
  (t' = t /\ exists e, res = Err e).
Proof.
  unfold update_one. destruct (cn_fault c); [intros [= <- <-]; right; by eauto|].
  destruct (t !! id) as [r|] eqn:Hr; [|intros [= <- <-]; right; by eauto].
  destruct (guard r) eqn:Hg; [|intros [= <- <-]; right; by eauto].
  destruct (violates t false id (f r)) eqn:Hv; intros [= <- <-]; [right; by eauto|]. left.
  apply violates_None in Hv as [_ Hv]. by exists r.
Qed.

Lemma update_one_ok c id guard f t r t' :
  update_one c id guard f t = (Ok r, t') ->
  exists r0, t !! id = Some r0 /\ guard r0 = true /\ r = f r0 /\ t' = <[id := r]> t.
Proof. intros [(r0 & ? & ? & _ & [= ->] & ->)|(_ & e & [=])]%update_one_inv. by exists r0. Qed.

Lemma insert_one_inv c id r t res t' :
  insert_one c id r t = (res, t') ->
  (t !! id = None /\ admitted t id r /\ res = Ok r /\ t' = <[id := r]> t) \/ (t' = t /\ exists e, res = Err e).
Proof.
  unfold insert_one. destruct (cn_fault c); [intros [= <- <-]; right; by eauto|].
  destruct (violates t _ id r) eqn:Hv; [intros [= <- <-]; right; by eauto|].
  apply violates_None in Hv as [Hk Hv]. intros [= <- <-]. left. split; [|done].
  by apply bool_decide_eq_false, eq_None_not_Some in Hk.
Qed.

(** Without a failure of the database, a row that does not meet the condition
    is not there. *)
Lemma update_one_refused c id guard f t :
  cn_fault c = None -> (forall r, t !! id = Some r -> guard r = false) -> update_one c id guard f t = (Err NoRows, t).
Proof. intros Hc Hg. unfold update_one. rewrite Hc. destruct (t !! id) as [r|]; [|done]. by rewrite Hg. Qed.
End statements.
Arguments Constraints : clear implicits.
Arguments mkConstraints {R}.

Lemma other_row_spec {R} (t : gmap UUID R) id p :
  other_row t id p = true <-> exists k r, k <> id /\ t !! k = Some r /\ p r = true.
Proof.
  unfold other_row. rewrite existsb_exists. split.
  - intros ([k r] & Hin & [Hk Hp]%andb_true_iff). exists k, r. apply list_elem_of_In, elem_of_map_to_list in Hin.
    apply negb_true_iff, bool_decide_eq_false in Hk. done.
  - intros (k & r & Hk & Hr & Hp). exists (k, r). split; [by apply list_elem_of_In, elem_of_map_to_list|].
    apply andb_true_iff. split; [|done]. by apply negb_true_iff, bool_decide_eq_false.
Qed.
