(* ===== verification/ResponseTable.v ===== *)
(** * The table of stored responses

    Models the statements of [src/internal/store/db/responses.sql.go] on the
    table [response_records] with its constraints
    ([src/migrations/00001_baseline.sql], lines 408 to 457), and the repository
    over them ([src/internal/store/response_repository.go]) with its
    translation of errors, as the service of [src/internal/responses] sees it.

    A [bytea] column that is [NULL] is the empty list: the service passes no
    empty slice that is not [nil]. *)

From S2P Require Import Prelude GoStrings Canonical Envelope Sql.

Local Open Scope Z_scope.

Abbreviation Bytes := (list ascii).

(** ** types.go *)

Inductive Status := StatusQueued | StatusInProgress | StatusCompleted | StatusFailed | StatusCanceled | StatusUncertain.

#[export] Instance Status_eq_dec : EqDecision Status.
Proof. solve_decision. Defined.

Definition status_text (s : Status) : string :=
  match s with
  | StatusQueued => "queued" | StatusInProgress => "in_progress" | StatusCompleted => "completed"
  | StatusFailed => "failed" | StatusCanceled => "canceled" | StatusUncertain => "uncertain"
  end.

Record EncryptedRecord := mkEncryptedRecord {
  ErID : UUID;
  ErRequestID : option UUID;
  ErGatewayKeyID : UUID;
  ErPreviousResponseID : option UUID;
  ErIdempotencyKey : option string;
  ErRequestDigest : Bytes;
  ErStatus : Status;
  ErBackground : bool;
  EncryptedInput : Bytes;
  EncryptedRequest : Bytes;
  EncryptedOutput : Bytes;
  EncryptedError : Bytes;
  ErExecutionID : option UUID;
  ErExecutionGeneration : Z;
  ErExecutionClaimedAt : option Z;
  ErExecutionHeartbeatAt : option Z;
  ErCancelRequestedAt : option Z;
  ErCompletedAt : option Z;
  ErCreatedAt : Z;
  ErUpdatedAt : Z;
}.

Record ResponseClaim := mkResponseClaim { RcResponseID : UUID; RcExecutionID : UUID; RcGeneration : Z }.

Definition ResponseClaim_Valid (c : ResponseClaim) : bool :=
  (negb (bool_decide (RcResponseID c = uuid_Nil)) && negb (bool_decide (RcExecutionID c = uuid_Nil)) &&
   (0 <? RcGeneration c))%bool.

Record Recovery := mkRecovery {
  ReResponseID : UUID;
  ReResponseStatus : Status;
  ReHasOutput : bool;
  ReRequestStatus : string;
  ReErrorKind : option string;
  ReErrorDetail : option string;
}.

(** The errors of the package; [RStore] is [fmt.Errorf("response store: %w")],
    the last two wrap an envelope error and [ErrConflict]. *)
Inductive RespError :=
| RInvalidInput | RNotFound | RNotCancelable | RConflict | RFenced
| RStore (e : PgError)
| REnvelope (context : string) (e : EnvelopeError)
| RNotJSON (field : string).

(** [errors.Is] with [ErrNotFound] and [ErrConflict] *)
Definition is_NotFound (e : RespError) : bool := match e with RNotFound => true | _ => false end.
Definition is_Conflict (e : RespError) : bool := match e with RConflict | RNotJSON _ => true | _ => false end.

(** ** The database *)

(** What the statements read of the table [requests]. *)
Record RequestInfo := mkRequestInfo { RqStatus : string; RqErrorKind : option string; RqErrorDetail : option string }.

Record Db := mkDb {
  db_responses : gmap UUID EncryptedRecord;
  db_requests : gmap UUID RequestInfo;
  db_keys : gset UUID;
}.

Definition set_responses (t : gmap UUID EncryptedRecord) (db : Db) : Db := mkDb t (db_requests db) (db_keys db).

(** The [CHECK] constraints of the table; [encrypted_input] is [NOT NULL]. *)
Definition response_check (r : EncryptedRecord) : bool :=
  ((0 <=? ErExecutionGeneration r) && negb (is_nil (EncryptedInput r)) &&
   (negb (ErBackground r) || negb (is_nil (EncryptedRequest r))) &&
   match ErIdempotencyKey r with
   | None => is_nil (ErRequestDigest r)
   | Some key =>
       (1 <=? char_length key) && (char_length key <=? 200) && (Z.of_nat (length (ErRequestDigest r)) =? 32)
   end &&
   match ErExecutionID r with
   | None => is_null (ErExecutionClaimedAt r) && is_null (ErExecutionHeartbeatAt r)
   | Some _ =>
       ErBackground r && (0 <? ErExecutionGeneration r) && negb (is_null (ErExecutionClaimedAt r)) &&
       negb (is_null (ErExecutionHeartbeatAt r))
   end)%bool.

(** [request_id] is unique, and so is an owner's idempotency key. *)
Definition response_clash (t : gmap UUID EncryptedRecord) (id : UUID) (r : EncryptedRecord) : bool :=
  (match ErRequestID r with Some q => other_row t id (λ r', sql_eq (ErRequestID r') q) | None => false end ||
   match ErIdempotencyKey r with
   | Some k =>
       other_row t id (λ r', (bool_decide (ErGatewayKeyID r' = ErGatewayKeyID r) && sql_eq (ErIdempotencyKey r') k)%bool)
   | None => false
   end)%bool.

Definition response_refers (db : Db) (t : gmap UUID EncryptedRecord) (r : EncryptedRecord) : bool :=
  (match ErRequestID r with Some q => bool_decide (is_Some (db_requests db !! q)) | None => true end &&
   bool_decide (ErGatewayKeyID r ∈ db_keys db) &&
   match ErPreviousResponseID r with Some p => bool_decide (is_Some (t !! p)) || bool_decide (p = ErID r) | None => true end)%bool.

Definition response_constraints (db : Db) : Constraints EncryptedRecord :=
  mkConstraints response_check response_clash (response_refers db).

Definition on_responses {A} (f : gmap UUID EncryptedRecord -> A * gmap UUID EncryptedRecord) (db : Db) : A * Db :=
  let '(a, t) := f (db_responses db) in (a, set_responses t db).

(** The columns a statement sets, others kept.  [updated_at] is set by all. *)
Definition touch (now : Z) (r : EncryptedRecord) : EncryptedRecord :=
  mkEncryptedRecord (ErID r) (ErRequestID r) (ErGatewayKeyID r) (ErPreviousResponseID r) (ErIdempotencyKey r)
    (ErRequestDigest r) (ErStatus r) (ErBackground r) (EncryptedInput r) (EncryptedRequest r) (EncryptedOutput r)
    (EncryptedError r) (ErExecutionID r) (ErExecutionGeneration r) (ErExecutionClaimedAt r) (ErExecutionHeartbeatAt r)
    (ErCancelRequestedAt r) (ErCompletedAt r) (ErCreatedAt r) now.
Definition set_request (q : option UUID) (r : EncryptedRecord) : EncryptedRecord :=
  mkEncryptedRecord (ErID r) q (ErGatewayKeyID r) (ErPreviousResponseID r) (ErIdempotencyKey r)
    (ErRequestDigest r) (ErStatus r) (ErBackground r) (EncryptedInput r) (EncryptedRequest r) (EncryptedOutput r)
    (EncryptedError r) (ErExecutionID r) (ErExecutionGeneration r) (ErExecutionClaimedAt r) (ErExecutionHeartbeatAt r)
    (ErCancelRequestedAt r) (ErCompletedAt r) (ErCreatedAt r) (ErUpdatedAt r).
Definition set_previous (p : option UUID) (r : EncryptedRecord) : EncryptedRecord :=
  mkEncryptedRecord (ErID r) (ErRequestID r) (ErGatewayKeyID r) p (ErIdempotencyKey r)
    (ErRequestDigest r) (ErStatus r) (ErBackground r) (EncryptedInput r) (EncryptedRequest r) (EncryptedOutput r)
    (EncryptedError r) (ErExecutionID r) (ErExecutionGeneration r) (ErExecutionClaimedAt r) (ErExecutionHeartbeatAt r)
    (ErCancelRequestedAt r) (ErCompletedAt r) (ErCreatedAt r) (ErUpdatedAt r).
Definition set_output (b : Bytes) (r : EncryptedRecord) : EncryptedRecord :=
  mkEncryptedRecord (ErID r) (ErRequestID r) (ErGatewayKeyID r) (ErPreviousResponseID r) (ErIdempotencyKey r)
    (ErRequestDigest r) (ErStatus r) (ErBackground r) (EncryptedInput r) (EncryptedRequest r) b
    (EncryptedError r) (ErExecutionID r) (ErExecutionGeneration r) (ErExecutionClaimedAt r) (ErExecutionHeartbeatAt r)
    (ErCancelRequestedAt r) (ErCompletedAt r) (ErCreatedAt r) (ErUpdatedAt r).
Definition set_error (b : Bytes) (r : EncryptedRecord) : EncryptedRecord :=
  mkEncryptedRecord (ErID r) (ErRequestID r) (ErGatewayKeyID r) (ErPreviousResponseID r) (ErIdempotencyKey r)
    (ErRequestDigest r) (ErStatus r) (ErBackground r) (EncryptedInput r) (EncryptedRequest r) (EncryptedOutput r)
    b (ErExecutionID r) (ErExecutionGeneration r) (ErExecutionClaimedAt r) (ErExecutionHeartbeatAt r)
    (ErCancelRequestedAt r) (ErCompletedAt r) (ErCreatedAt r) (ErUpdatedAt r).
Definition set_status (s : Status) (completedAt : option Z) (r : EncryptedRecord) : EncryptedRecord :=
  mkEncryptedRecord (ErID r) (ErRequestID r) (ErGatewayKeyID r) (ErPreviousResponseID r) (ErIdempotencyKey r)
    (ErRequestDigest r) s (ErBackground r) (EncryptedInput r) (EncryptedRequest r) (EncryptedOutput r)
    (EncryptedError r) (ErExecutionID r) (ErExecutionGeneration r) (ErExecutionClaimedAt r) (ErExecutionHeartbeatAt r)
    (ErCancelRequestedAt r) completedAt (ErCreatedAt r) (ErUpdatedAt r).
Definition set_execution (e : UUID) (g : Z) (claimedAt heartbeatAt : option Z) (r : EncryptedRecord) : EncryptedRecord :=
  mkEncryptedRecord (ErID r) (ErRequestID r) (ErGatewayKeyID r) (ErPreviousResponseID r) (ErIdempotencyKey r)
    (ErRequestDigest r) (ErStatus r) (ErBackground r) (EncryptedInput r) (EncryptedRequest r) (EncryptedOutput r)
    (EncryptedError r) (Some e) g claimedAt heartbeatAt
    (ErCancelRequestedAt r) (ErCompletedAt r) (ErCreatedAt r) (ErUpdatedAt r).
Definition set_heartbeat (at_ : option Z) (r : EncryptedRecord) : EncryptedRecord :=
  mkEncryptedRecord (ErID r) (ErRequestID r) (ErGatewayKeyID r) (ErPreviousResponseID r) (ErIdempotencyKey r)
    (ErRequestDigest r) (ErStatus r) (ErBackground r) (EncryptedInput r) (EncryptedRequest r) (EncryptedOutput r)
    (EncryptedError r) (ErExecutionID r) (ErExecutionGeneration r) (ErExecutionClaimedAt r) at_
    (ErCancelRequestedAt r) (ErCompletedAt r) (ErCreatedAt r) (ErUpdatedAt r).
Definition set_cancel (at_ : option Z) (r : EncryptedRecord) : EncryptedRecord :=
  mkEncryptedRecord (ErID r) (ErRequestID r) (ErGatewayKeyID r) (ErPreviousResponseID r) (ErIdempotencyKey r)
    (ErRequestDigest r) (ErStatus r) (ErBackground r) (EncryptedInput r) (EncryptedRequest r) (EncryptedOutput r)
    (EncryptedError r) (ErExecutionID r) (ErExecutionGeneration r) (ErExecutionClaimedAt r) (ErExecutionHeartbeatAt r)
    at_ (ErCompletedAt r) (ErCreatedAt r) (ErUpdatedAt r).

(** ** The statements *)

Definition has_status (s : Status) (r : EncryptedRecord) : bool := bool_decide (ErStatus r = s).
Definition unfinished (r : EncryptedRecord) : bool := (has_status StatusQueued r || has_status StatusInProgress r)%bool.
Definition request_exists (db : Db) (id : UUID) : bool := bool_decide (is_Some (db_requests db !! id)).

(** [id = ... AND execution_id = ... AND execution_generation = ... AND status = 'in_progress'] *)
Definition held (claim : ResponseClaim) (r : EncryptedRecord) : bool :=
  (sql_eq (ErExecutionID r) (RcExecutionID claim) && (ErExecutionGeneration r =? RcGeneration claim) &&
   has_status StatusInProgress r)%bool.
Definition not_canceled (r : EncryptedRecord) : bool := is_null (ErCancelRequestedAt r).

Section queries.
Context (c : Conn).

Definition update_response (id : UUID) (guard : EncryptedRecord -> bool) (f : EncryptedRecord -> EncryptedRecord) (db : Db) :
    result PgError EncryptedRecord * Db :=
  on_responses (update_one (response_constraints db) c id guard (λ r, touch (cn_now c) (f r))) db.

Definition insert_response (r : EncryptedRecord) (db : Db) : result PgError EncryptedRecord * Db :=
  on_responses (insert_one (response_constraints db) c (ErID r) r) db.

Definition AttachBackgroundResponseRequest (id : UUID) (db : Db) : result PgError EncryptedRecord * Db :=
  update_response id
    (λ r, ErBackground r && (is_null (ErRequestID r) || sql_eq (ErRequestID r) id) && request_exists db id)%bool
    (set_request (Some id)) db.

(** The order of [ORDER BY created_at, id]; a UUID sorts as its text. *)
Definition older (a b : EncryptedRecord) : Prop :=
  ErCreatedAt a < ErCreatedAt b \/ ErCreatedAt a = ErCreatedAt b /\ String.le (ErID a) (ErID b).

#[export] Instance older_dec : RelDecision older.
Proof. intros a b. unfold older. apply _. Defined.

Definition claimable (staleBefore : Z) (db : Db) (r : EncryptedRecord) : bool :=
  (ErBackground r && not_canceled r &&
   (has_status StatusQueued r ||
    (has_status StatusInProgress r &&
     match ErExecutionHeartbeatAt r with Some h => h <? staleBefore | None => false end &&
     is_null (ErRequestID r) && negb (request_exists db (ErID r)))))%bool.

Fixpoint oldest (rows : list EncryptedRecord) : option EncryptedRecord :=
  match rows with
  | [] => None
  | r :: rows' =>
      match oldest rows' with
      | Some r' => if decide (older r r') then Some r else Some r'
      | None => Some r
      end
  end.

Definition ClaimBackgroundResponse (executionID : UUID) (staleBefore : Z) (db : Db) : result PgError EncryptedRecord * Db :=
  match cn_fault c with
  | Some e => (Err e, db)
  | None =>
      match oldest (filter (λ r, claimable staleBefore db r = true /\ cn_locked c (ErID r) = false)
                      (snd <$> map_to_list (db_responses db))) with
      | None => (Err NoRows, db)
      | Some candidate =>
          if 2 ^ 63 - 1 <=? ErExecutionGeneration candidate then (Err (PgCode numeric_out_of_range), db)
          else
            update_response (ErID candidate) (λ _, true)
              (λ r, set_status StatusInProgress (ErCompletedAt r)
                      (set_execution executionID (ErExecutionGeneration r + 1) (Some (cn_now c)) (Some (cn_now c)) r)) db
      end
  end.

Definition CompleteBackgroundResponse (claim : ResponseClaim) (requestID : UUID) (db : Db) : result PgError EncryptedRecord * Db :=
  update_response (RcResponseID claim)
    (λ r, held claim r && not_canceled r && negb (is_nil (EncryptedOutput r)))%bool
    (λ r, set_request (Some requestID) (set_status StatusCompleted (Some (cn_now c)) (set_error [] r))) db.

Definition CompleteResponseRecord (id : UUID) (output : Bytes) (db : Db) : result PgError EncryptedRecord * Db :=
  update_response id (has_status StatusInProgress)
    (λ r, set_status StatusCompleted (Some (cn_now c)) (set_output output (set_error [] r))) db.

(** The row of the three [INSERT]s; columns they leave out take their default. *)
Definition new_row (id : UUID) (requestID : option UUID) (keyID : UUID) (previous : option UUID) (idempotency : option string)
    (digest : Bytes) (status : Status) (background : bool) (input request output : Bytes) (completedAt : option Z) : EncryptedRecord :=
  mkEncryptedRecord id requestID keyID previous idempotency digest status background input request output [] None 0 None None
    None completedAt (cn_now c) (cn_now c).

(** [ON CONFLICT (gateway_key_id, idempotency_key)]: the row of an earlier use
    of the key is returned unless its digest differs.  Other constraints are
    checked first, and a clash of the identifier is an error. *)
Definition CreateBackgroundResponseRecord (record : EncryptedRecord) (db : Db) : result PgError EncryptedRecord * Db :=
  let row := new_row (ErID record) None (ErGatewayKeyID record) (ErPreviousResponseID record) (ErIdempotencyKey record)
    (ErRequestDigest record) StatusQueued true (EncryptedInput record) (EncryptedRequest record) [] None in
  match cn_fault c with
  | Some e => (Err e, db)
  | None =>
      if negb (response_check row) then (Err (PgCode check_violation), db)
      else
        match ErIdempotencyKey record with
        | None => insert_response row db
        | Some key =>
            match List.find
                    (λ r, bool_decide (ErGatewayKeyID r = ErGatewayKeyID record) && sql_eq (ErIdempotencyKey r) key)%bool
                    (snd <$> map_to_list (db_responses db)) with
            | Some existing =>
                if bool_decide (ErRequestDigest existing = ErRequestDigest record) then (Ok existing, db)
                else (Err NoRows, db)
            | None => insert_response row db
            end
        end
  end.

Definition CreateCompletedResponseRecord (record : EncryptedRecord) (db : Db) : result PgError EncryptedRecord * Db :=
  insert_response
    (new_row (ErID record) (ErRequestID record) (ErGatewayKeyID record) (ErPreviousResponseID record) None [] StatusCompleted
       false (EncryptedInput record) [] (EncryptedOutput record) (Some (cn_now c))) db.

Definition CreateResponseRecord (record : EncryptedRecord) (db : Db) : result PgError EncryptedRecord * Db :=
  insert_response
    (new_row (ErID record) (ErRequestID record) (ErGatewayKeyID record) (ErPreviousResponseID record) None [] (ErStatus record)
       (ErBackground record) (EncryptedInput record) [] [] None) db.

(** [ON DELETE SET NULL] clears the rows that continue the deleted one. *)
Definition DeleteResponseRecord (id keyID : UUID) (db : Db) : result PgError UUID * Db :=
  match select_one c id (λ r, bool_decide (ErGatewayKeyID r = keyID)) (db_responses db) with
  | Err e => (Err e, db)
  | Ok _ =>
      (Ok id,
       set_responses ((λ r, if sql_eq (ErPreviousResponseID r) id then set_previous None r else r) <$>
                        delete id (db_responses db)) db)
  end.

Definition FailResponseRecord (id : UUID) (error : Bytes) (db : Db) : result PgError EncryptedRecord * Db :=
  update_response id (has_status StatusInProgress)
    (λ r, set_status StatusFailed (Some (cn_now c)) (set_error error r)) db.

Definition FinalizeRecoveredBackgroundResponse (id : UUID) (status : Status) (error : Bytes) (db : Db) :
    result PgError EncryptedRecord * Db :=
  update_response id (λ r, ErBackground r && unfinished r && request_exists db id)%bool
    (λ r, set_request (Some id) (set_status status (Some (cn_now c)) (set_error error r))) db.

Definition GetResponseRecord (id keyID : UUID) (db : Db) : result PgError EncryptedRecord :=
  select_one c id (λ r, bool_decide (ErGatewayKeyID r = keyID)) (db_responses db).

Definition HeartbeatBackgroundResponse (claim : ResponseClaim) (db : Db) : result PgError EncryptedRecord * Db :=
  update_response (RcResponseID claim) (λ r, held claim r && not_canceled r)%bool (set_heartbeat (Some (cn_now c))) db.

Definition LinkBackgroundResponseRequest (claim : ResponseClaim) (requestID : UUID) (db : Db) :
    result PgError EncryptedRecord * Db :=
  update_response (RcResponseID claim) (λ r, held claim r && not_canceled r)%bool (set_request (Some requestID)) db.

Definition recency (a b : EncryptedRecord * RequestInfo) : Prop :=
  ErUpdatedAt a.1 < ErUpdatedAt b.1 \/ ErUpdatedAt a.1 = ErUpdatedAt b.1 /\ String.le (ErID a.1) (ErID b.1).

#[export] Instance recency_dec : RelDecision recency.
Proof. intros a b. unfold recency. apply _. Defined.

Definition recoverable (db : Db) (r : EncryptedRecord) : option (EncryptedRecord * RequestInfo) :=
  if (ErBackground r && unfinished r)%bool then (λ q, (r, q)) <$> db_requests db !! ErID r else None.

Definition ListBackgroundResponseRecoveries (batchSize : Z) (db : Db) : result PgError (list (EncryptedRecord * RequestInfo)) :=
  match cn_fault c with
  | Some e => Err e
  | None => Ok (take (Z.to_nat batchSize) (merge_sort recency (omap (recoverable db) (snd <$> map_to_list (db_responses db)))))
  end.

Definition RequestResponseCancellation (id keyID : UUID) (db : Db) : result PgError EncryptedRecord * Db :=
  update_response id
    (λ r, bool_decide (ErGatewayKeyID r = keyID) && ErBackground r && (unfinished r || has_status StatusCanceled r))%bool
    (λ r, set_cancel (Some (coalesce (ErCancelRequestedAt r) (cn_now c)))
            (set_status StatusCanceled (Some (coalesce (ErCompletedAt r) (cn_now c))) r)) db.

Definition StageBackgroundResponseOutput (claim : ResponseClaim) (requestID : UUID) (output : Bytes) (db : Db) :
    result PgError EncryptedRecord * Db :=
  update_response (RcResponseID claim) (λ r, held claim r && not_canceled r)%bool
    (λ r, set_request (Some requestID) (set_output output r)) db.

Definition TerminateBackgroundResponse (claim : ResponseClaim) (requestID : option UUID) (status : Status) (error : Bytes) (db : Db) :
    result PgError EncryptedRecord * Db :=
  update_response (RcResponseID claim) (held claim)
    (λ r, set_request (match requestID with Some q => Some q | None => ErRequestID r end)
            (set_status status (Some (cn_now c)) (set_error error r))) db.
End queries.

(** ** response_repository.go *)

Definition translateResponseError (e : PgError) : RespError :=
  match e with
  | NoRows => RNotFound
  | PgCode sqlstate =>
      if bool_decide (sqlstate = "23503") then RNotFound
      else if bool_decide (sqlstate ∈ ["23505"; "40001"; "40P01"]) then RConflict
      else if bool_decide (sqlstate ∈ ["23514"; "23502"; "22P02"]) then RInvalidInput
      else RStore e
  | PgFailure _ => RStore e
  end.

Definition translateResponseExecutionError (e : PgError) : RespError :=
  match e with NoRows => RFenced | _ => translateResponseError e end.

Definition translated {A B} (translate : PgError -> RespError) (p : result PgError A * B) : result RespError A * B :=
  (match p.1 with Ok a => Ok a | Err e => Err (translate e) end, p.2).

(** The methods that return only an error. *)
Definition executed {A B} (p : result PgError A * B) : result RespError unit * B :=
  (match p.1 with Ok _ => Ok tt | Err e => Err (translateResponseExecutionError e) end, p.2).

Section repository.
Context (c : Conn).

Definition Repo_Create (record : EncryptedRecord) (db : Db) : result RespError EncryptedRecord * Db :=
  translated translateResponseError (CreateResponseRecord c record db).
Definition Repo_CreateCompleted (record : EncryptedRecord) (db : Db) : result RespError EncryptedRecord * Db :=
  translated translateResponseError (CreateCompletedResponseRecord c record db).
Definition Repo_CreateBackground (record : EncryptedRecord) (db : Db) : result RespError EncryptedRecord * Db :=
  translated translateResponseError (CreateBackgroundResponseRecord c record db).
Definition Repo_Complete (id : UUID) (output : Bytes) (db : Db) : result RespError EncryptedRecord * Db :=
  translated translateResponseError (CompleteResponseRecord c id output db).
Definition Repo_Fail (id : UUID) (error : Bytes) (db : Db) : result RespError EncryptedRecord * Db :=
  translated translateResponseError (FailResponseRecord c id error db).
Definition Repo_Get (id keyID : UUID) (db : Db) : result RespError EncryptedRecord :=
  match GetResponseRecord c id keyID db with Ok r => Ok r | Err e => Err (translateResponseError e) end.
Definition Repo_Delete (id keyID : UUID) (db : Db) : result RespError UUID * Db :=
  translated translateResponseError (DeleteResponseRecord c id keyID db).
Definition Repo_RequestCancellation (id keyID : UUID) (db : Db) : result RespError EncryptedRecord * Db :=
  translated translateResponseError (RequestResponseCancellation c id keyID db).
Definition Repo_ClaimBackground (executionID : UUID) (staleBefore : Z) (db : Db) : result RespError EncryptedRecord * Db :=
  translated translateResponseError (ClaimBackgroundResponse c executionID staleBefore db).
Definition Repo_HeartbeatBackground (claim : ResponseClaim) (db : Db) : result RespError unit * Db :=
  executed (HeartbeatBackgroundResponse c claim db).
Definition Repo_LinkBackgroundRequest (claim : ResponseClaim) (requestID : UUID) (db : Db) : result RespError unit * Db :=
  executed (LinkBackgroundResponseRequest c claim requestID db).
Definition Repo_StageBackgroundOutput (claim : ResponseClaim) (requestID : UUID) (output : Bytes) (db : Db) :
    result RespError unit * Db := executed (StageBackgroundResponseOutput c claim requestID output db).
Definition Repo_CompleteBackground (claim : ResponseClaim) (requestID : UUID) (db : Db) : result RespError unit * Db :=
  executed (CompleteBackgroundResponse c claim requestID db).
Definition Repo_TerminateBackground (claim : ResponseClaim) (requestID : option UUID) (status : Status) (error : Bytes) (db : Db) :
    result RespError unit * Db := executed (TerminateBackgroundResponse c claim requestID status error db).

Definition recovery_of (row : EncryptedRecord * RequestInfo) : Recovery :=
  mkRecovery (ErID row.1) (ErStatus row.1) (negb (is_nil (EncryptedOutput row.1))) (RqStatus row.2) (RqErrorKind row.2)
    (RqErrorDetail row.2).

Definition Repo_ListBackgroundRecoveries (batchSize : Z) (db : Db) : result RespError (list Recovery) :=
  match ListBackgroundResponseRecoveries c batchSize db with
  | Ok rows => Ok (recovery_of <$> rows)
  | Err e => Err (translateResponseError e)
  end.
Definition Repo_AttachBackgroundRequest (id : UUID) (db : Db) : result RespError EncryptedRecord * Db :=
  translated translateResponseError (AttachBackgroundResponseRequest c id db).
Definition Repo_FinalizeRecoveredBackground (id : UUID) (status : Status) (error : Bytes) (db : Db) :
    result RespError EncryptedRecord * Db :=
  translated translateResponseError (FinalizeRecoveredBackgroundResponse c id status error db).
End repository.
