(* ===== verification/Responses.v ===== *)
(** * Stored responses

    Models the service of [src/internal/responses/service.go] over the
    repository of [ResponseTable], the envelopes of [Envelope] and the JSON
    test of [Json].

    The [n]-th statement of a call runs on [conn n].  The random bytes of an
    envelope are those of its record and field; [encode_error] is
    [json.Marshal] of the object with the fields [code] and [message]. *)

From S2P Require Import Prelude GoStrings Canonical Json Envelope Sql ResponseTable.

Local Open Scope Z_scope.

Record ResponseRecord := mkResponseRecord {
  RrID : UUID;
  RrRequestID : option UUID;
  RrGatewayKeyID : UUID;
  RrPreviousResponseID : option UUID;
  RrIdempotencyKey : option string;
  RrRequestDigest : Bytes;
  RrStatus : Status;
  RrBackground : bool;
  RrInput : Bytes;
  RrRequest : Bytes;
  RrOutput : Bytes;
  RrError : Bytes;
  RrCancelRequestedAt : option Z;
  RrCompletedAt : option Z;
  RrCreatedAt : Z;
  RrUpdatedAt : Z;
}.

Definition responseAAD (responseID : UUID) (field : string) : Bytes :=
  chars ("response-record:" +:+ responseID +:+ ":" +:+ field).

Definition recoveryOwnershipLost (e : RespError) : bool := (is_Conflict e || is_NotFound e)%bool.

Definition valueOr (value : option string) (fallback : string) : string :=
  match value with None => fallback | Some v => if bool_decide (v = "") then fallback else v end.

(** The database and what the observer was told. *)
Record World := mkWorld { w_db : Db; w_seen : list string }.

Definition on_db {A} (f : Db -> A * Db) (w : World) : A * World :=
  let '(a, db) := f (w_db w) in (a, mkWorld db (w_seen w)).
Definition observe (outcome : string) (w : World) : World := mkWorld (w_db w) (w_seen w ++ [outcome]).

(** [_, err := ...; return err] *)
Definition only_error {A} (p : result RespError A * World) : option RespError * World :=
  (match p.1 with Ok _ => None | Err e => Some e end, p.2).

Section service.
Context `{!AEAD} (envelope : EnvelopeCipher) (random : UUID -> string -> nat -> result string bytes)
  (encode_error : string -> string -> Bytes).

Definition encryptField (responseID : UUID) (field : string) (value : Bytes) : result RespError Bytes :=
  if (bool_decide (responseID = uuid_Nil) || negb (Valid value))%bool then Err RInvalidInput
  else
    match Encrypt envelope (random responseID field) value (responseAAD responseID field) with
    | Ok b => Ok b
    | Err e => Err (REnvelope "" e)
    end.

Definition decryptField (responseID : UUID) (field : string) (value : Bytes) : result RespError Bytes :=
  match Decrypt envelope value (responseAAD responseID field) with
  | Err e => Err (REnvelope ("decrypt response " +:+ field) e)
  | Ok plaintext => if Valid plaintext then Ok plaintext else Err (RNotJSON field)
  end.

(** An assignment [x, err = encryptField(...)]: the value, and the error that
    replaces the one before. *)
Definition assign (r : result RespError Bytes) : Bytes * option RespError :=
  match r with Ok b => (b, None) | Err e => ([], Some e) end.

Definition invalid_record (record : ResponseRecord) : bool :=
  (bool_decide (RrID record = uuid_Nil) || bool_decide (RrGatewayKeyID record = uuid_Nil) || negb (Valid (RrInput record)) ||
   bool_decide (RrRequestID record = Some uuid_Nil) || (RrBackground record && negb (Valid (RrRequest record))) ||
   match RrIdempotencyKey record with
   | Some key => negb (bool_decide (length (RrRequestDigest record) = 32%nat)) || bool_decide (key = "")
   | None => negb (is_nil (RrRequestDigest record))
   end)%bool.

Definition encryptRecord (record : ResponseRecord) : result RespError EncryptedRecord :=
  if invalid_record record then Err RInvalidInput
  else
    match encryptField (RrID record) "input" (RrInput record) with
    | Err e => Err e
    | Ok input =>
        let '(request, err) :=
          if is_nil (RrRequest record) then ([], None) else assign (encryptField (RrID record) "request" (RrRequest record)) in
        let '(output, err) :=
          if is_nil (RrOutput record) then ([], err) else assign (encryptField (RrID record) "output" (RrOutput record)) in
        let '(error, err) :=
          match err with
          | Some _ => ([], err)
          | None => if is_nil (RrError record) then ([], None) else assign (encryptField (RrID record) "error" (RrError record))
          end in
        match err with
        | Some e => Err e
        | None =>
            Ok (mkEncryptedRecord (RrID record) (RrRequestID record) (RrGatewayKeyID record) (RrPreviousResponseID record)
                  (RrIdempotencyKey record) (RrRequestDigest record) (RrStatus record) (RrBackground record) input request
                  output error None 0 None None None None 0 0)
        end
    end.

Definition decryptRecord (record : EncryptedRecord) : result RespError ResponseRecord :=
  match decryptField (ErID record) "input" (EncryptedInput record) with
  | Err e => Err e
  | Ok input =>
      let '(output, err) :=
        if is_nil (EncryptedOutput record) then ([], None) else assign (decryptField (ErID record) "output" (EncryptedOutput record)) in
      let '(request, err) :=
        match err with
        | Some _ => ([], err)
        | None =>
            if is_nil (EncryptedRequest record) then ([], None)
            else assign (decryptField (ErID record) "request" (EncryptedRequest record))
        end in
      let '(error, err) :=
        match err with
        | Some _ => ([], err)
        | None =>
            if is_nil (EncryptedError record) then ([], None)
            else assign (decryptField (ErID record) "error" (EncryptedError record))
        end in
      match err with
      | Some e => Err e
      | None =>
          Ok (mkResponseRecord (ErID record) (ErRequestID record) (ErGatewayKeyID record) (ErPreviousResponseID record)
                (ErIdempotencyKey record) (ErRequestDigest record) (ErStatus record) (ErBackground record) input request output
                error (ErCancelRequestedAt record) (ErCompletedAt record) (ErCreatedAt record) (ErUpdatedAt record))
      end
  end.

(** A record as the callers below fill it in. *)
Definition draft (responseID : UUID) (requestID : option UUID) (keyID : UUID) (previous : option UUID)
    (idempotency : option string) (digest : Bytes) (status : Status) (background : bool) (input request output : Bytes) :
    ResponseRecord :=
  mkResponseRecord responseID requestID keyID previous idempotency digest status background input request output [] None None 0 0.

(** ** Operations *)

Section call.
Context (conn : nat -> Conn).

Definition Begin_ (responseID requestID keyID : UUID) (previous : option UUID) (input : Bytes) (w : World) :
    option RespError * World :=
  match encryptRecord (draft responseID (Some requestID) keyID previous None [] StatusInProgress false input [] []) with
  | Err e => (Some e, w)
  | Ok record => only_error (on_db (Repo_Create (conn 0%nat) record) w)
  end.

Definition SaveCompleted (responseID requestID keyID : UUID) (previous : option UUID) (input output : Bytes) (w : World) :
    option RespError * World :=
  match encryptRecord (draft responseID (Some requestID) keyID previous None [] StatusCompleted false input [] output) with
  | Err e => (Some e, w)
  | Ok record => only_error (on_db (Repo_CreateCompleted (conn 0%nat) record) w)
  end.

Definition Enqueue (responseID keyID : UUID) (previous : option UUID) (idempotency : option string)
    (digest input request : Bytes) (w : World) : result RespError ResponseRecord * World :=
  match encryptRecord (draft responseID None keyID previous idempotency digest StatusQueued true input request []) with
  | Err e => (Err e, w)
  | Ok record =>
      match on_db (Repo_CreateBackground (conn 0%nat) record) w with
      | (Err e, w') => (Err e, w')
      | (Ok created, w') => let w'' := observe "queued" w' in (decryptRecord created, w'')
      end
  end.

Definition ClaimNext (executionID : UUID) (staleBefore : Z) (w : World) : result RespError (ResponseClaim * ResponseRecord) * World :=
  if (bool_decide (executionID = uuid_Nil) || IsZero staleBefore)%bool then (Err RInvalidInput, w)
  else
    match on_db (Repo_ClaimBackground (conn 0%nat) executionID staleBefore) w with
    | (Err e, w') => (Err e, w')
    | (Ok encrypted, w') =>
        match decryptRecord encrypted with
        | Err e => (Err e, w')
        | Ok record =>
            let claim := mkResponseClaim (RrID record) executionID (ErExecutionGeneration encrypted) in
            if (negb (ResponseClaim_Valid claim) || negb (RrBackground record) || is_nil (RrRequest record))%bool
            then (Err RConflict, w')
            else (Ok (claim, record), observe "claimed" w')
        end
    end.

Definition Heartbeat (claim : ResponseClaim) (w : World) : option RespError * World :=
  if negb (ResponseClaim_Valid claim) then (Some RInvalidInput, w)
  else only_error (on_db (Repo_HeartbeatBackground (conn 0%nat) claim) w).

Definition LinkRequest (claim : ResponseClaim) (requestID : UUID) (w : World) : option RespError * World :=
  if (negb (ResponseClaim_Valid claim) || bool_decide (requestID = uuid_Nil) || negb (bool_decide (requestID = RcResponseID claim)))%bool
  then (Some RInvalidInput, w)
  else only_error (on_db (Repo_LinkBackgroundRequest (conn 0%nat) claim requestID) w).

Definition StageOutput (claim : ResponseClaim) (requestID : UUID) (output : Bytes) (w : World) : option RespError * World :=
  if (negb (ResponseClaim_Valid claim) || bool_decide (requestID = uuid_Nil))%bool then (Some RInvalidInput, w)
  else
    match encryptField (RcResponseID claim) "output" output with
    | Err e => (Some e, w)
    | Ok encrypted => only_error (on_db (Repo_StageBackgroundOutput (conn 0%nat) claim requestID encrypted) w)
    end.

(** The observer is told only of success. *)
Definition observed (outcome : string) (p : option RespError * World) : option RespError * World :=
  match p with (None, w) => (None, observe outcome w) | _ => p end.

Definition CompleteClaim (claim : ResponseClaim) (requestID : UUID) (w : World) : option RespError * World :=
  if (negb (ResponseClaim_Valid claim) || bool_decide (requestID = uuid_Nil))%bool then (Some RInvalidInput, w)
  else observed "completed" (only_error (on_db (Repo_CompleteBackground (conn 0%nat) claim requestID) w)).

Definition TerminateClaim (claim : ResponseClaim) (requestID : option UUID) (status : Status) (responseError : Bytes) (w : World) :
    option RespError * World :=
  if (negb (ResponseClaim_Valid claim) || negb (bool_decide (status ∈ [StatusFailed; StatusCanceled; StatusUncertain])))%bool
  then (Some RInvalidInput, w)
  else
    match encryptField (RcResponseID claim) "error" responseError with
    | Err e => (Some e, w)
    | Ok encrypted =>
        observed (status_text status)
          (only_error (on_db (Repo_TerminateBackground (conn 0%nat) claim requestID status encrypted) w))
    end.

Definition Complete_ (responseID : UUID) (output : Bytes) (w : World) : option RespError * World :=
  match encryptField responseID "output" output with
  | Err e => (Some e, w)
  | Ok encrypted => only_error (on_db (Repo_Complete (conn 0%nat) responseID encrypted) w)
  end.

Definition FailStored (responseID : UUID) (responseError : Bytes) (w : World) : option RespError * World :=
  match encryptField responseID "error" responseError with
  | Err e => (Some e, w)
  | Ok encrypted => only_error (on_db (Repo_Fail (conn 0%nat) responseID encrypted) w)
  end.

Definition Get (responseID keyID : UUID) (w : World) : result RespError ResponseRecord :=
  if (bool_decide (responseID = uuid_Nil) || bool_decide (keyID = uuid_Nil))%bool then Err RInvalidInput
  else
    match Repo_Get (conn 0%nat) responseID keyID (w_db w) with
    | Err e => Err e
    | Ok encrypted => decryptRecord encrypted
    end.

Definition Delete_ (responseID keyID : UUID) (w : World) : option RespError * World :=
  if (bool_decide (responseID = uuid_Nil) || bool_decide (keyID = uuid_Nil))%bool then (Some RInvalidInput, w)
  else only_error (on_db (Repo_Delete (conn 0%nat) responseID keyID) w).

Definition RequestCancellation (responseID keyID : UUID) (w : World) : option RespError * World :=
  if (bool_decide (responseID = uuid_Nil) || bool_decide (keyID = uuid_Nil))%bool then (Some RInvalidInput, w)
  else
    match Repo_Get (conn 0%nat) responseID keyID (w_db w) with
    | Err e => (Some e, w)
    | Ok record =>
        if negb (ErBackground record) then (Some RNotCancelable, w)
        else only_error (on_db (Repo_RequestCancellation (conn 1%nat) responseID keyID) w)
    end.

(** ** Recovery *)

(** The status a recovered response takes from its request. *)
Definition recovered_status (r : Recovery) : option Status :=
  if bool_decide (ReRequestStatus r = "completed") then Some (if ReHasOutput r then StatusCompleted else StatusFailed)
  else if bool_decide (ReRequestStatus r = "failed") then Some StatusFailed
  else if bool_decide (ReRequestStatus r = "canceled") then Some StatusCanceled
  else if bool_decide (ReRequestStatus r = "uncertain") then Some StatusUncertain
  else None.

Definition recovery_body (r : Recovery) : Bytes :=
  encode_error (valueOr (ReErrorKind r) "background_execution_failed")
    (valueOr (ReErrorDetail r) "background response did not complete").

(** A failed repository call: forgotten when another instance was first. *)
Definition recovery_failed (e : RespError) : option RespError := if recoveryOwnershipLost e then None else Some e.

(** One turn of the loop of [RecoverOnce]: whether a response was recovered,
    the error to report, and the world.  It runs at most two statements. *)
Definition recoverOne (n : nat) (r : Recovery) (w : World) : bool * option RespError * World :=
  match on_db (Repo_AttachBackgroundRequest (conn n) (ReResponseID r)) w with
  | (Err e, w1) => (false, recovery_failed e, w1)
  | (Ok _, w1) =>
      match recovered_status r with
      | None => (false, None, w1)
      | Some status =>
          match (if bool_decide (status = StatusCompleted) then Ok [] else encryptField (ReResponseID r) "error" (recovery_body r)) with
          | Err e => (false, Some e, w1)
          | Ok encryptedError =>
              match on_db (Repo_FinalizeRecoveredBackground (conn (S n)) (ReResponseID r) status encryptedError) w1 with
              | (Err e, w2) => (false, recovery_failed e, w2)
              | (Ok _, w2) => (true, None, observe ("recovered_" +:+ status_text status) w2)
              end
          end
      end
  end.

Fixpoint recover_all (n : nat) (rs : list Recovery) (w : World) : Z * list RespError * World :=
  match rs with
  | [] => (0, [], w)
  | r :: rs' =>
      let '(done, err, w1) := recoverOne n r w in
      let '(completed, errs, w2) := recover_all (S (S n)) rs' w1 in
      ((if done then 1 else 0) + completed, option_list err ++ errs, w2)
  end.

(** The errors of [errors.Join]. *)
Definition RecoverOnce (batchSize : Z) (w : World) : Z * list RespError * World :=
  if ((batchSize <? 1) || (1000 <? batchSize))%bool then (0, [RInvalidInput], w)
  else
    match Repo_ListBackgroundRecoveries (conn 0%nat) batchSize (w_db w) with
    | Err e => (0, [e], w)
    | Ok recoveries => recover_all 1 recoveries w
    end.
End call.
End service.
