(* ===== verification/ResponseProps.v ===== *)
(** * Theorems about stored responses

    Every operation of the service is a sequence of statements; a statement
    changes a row only along the edges of [changed].  From this follow the
    fencing of executions that lost their claim and the finality of finished
    responses, for every interleaving of operations. *)

From S2P Require Import Prelude GoStrings Canonical Json Envelope EnvelopeProps Sql ResponseTable Responses.

Local Open Scope Z_scope.

(** ** One statement *)

Definition terminal (r : EncryptedRecord) : bool := negb (unfinished r).

(** The columns no statement changes, and those that hold the outcome. *)
Definition fixed (r : EncryptedRecord) :=
  (ErID r, ErGatewayKeyID r, ErIdempotencyKey r, ErRequestDigest r, ErBackground r, EncryptedInput r, EncryptedRequest r,
   ErCreatedAt r).
Definition outcome (r : EncryptedRecord) := (ErStatus r, EncryptedOutput r, EncryptedError r).

(** What a statement may do besides changing rows in place. *)
Inductive Power := Plain | Claiming (execution : UUID) | Deleting.

(** A statement turned [r] into [r']. *)
Record changed (x : Power) (r r' : EncryptedRecord) : Prop := {
  ch_fixed : fixed r' = fixed r;
  ch_final : terminal r = true -> outcome r' = outcome r;
  ch_completed at_ : terminal r = true -> ErCompletedAt r = Some at_ -> ErCompletedAt r' = Some at_;
  ch_queued : ErStatus r' = StatusQueued -> ErStatus r = StatusQueued;
  ch_execution :
    (ErExecutionID r' = ErExecutionID r /\ ErExecutionGeneration r' = ErExecutionGeneration r /\
     (ErStatus r' = StatusInProgress -> ErStatus r = StatusInProgress)) \/
    (exists e, x = Claiming e /\ ErExecutionID r' = Some e /\ ErExecutionGeneration r' = ErExecutionGeneration r + 1 /\
       ErStatus r' = StatusInProgress /\ terminal r = false);
  ch_running :
    ErStatus r' = StatusInProgress ->
    (not_canceled r = true -> not_canceled r' = true) /\
    (is_nil (EncryptedOutput r) = false -> is_nil (EncryptedOutput r') = false);
}.

Inductive evolve (x : Power) (id : UUID) : option EncryptedRecord -> option EncryptedRecord -> Prop :=
| ev_same o : evolve x id o o
| ev_insert r : ErID r = id -> ErExecutionID r = None -> evolve x id None (Some r)
| ev_delete r : x = Deleting -> evolve x id (Some r) None
| ev_change r r' : changed x r r' -> evolve x id (Some r) (Some r').

(** A statement of the service or a change of the other tables. *)
Definition stmt (x : Power) (db db' : Db) : Prop :=
  forall id, evolve x id (db_responses db !! id) (db_responses db' !! id).

Lemma stmt_same x db db' : db_responses db' = db_responses db -> stmt x db db'.
Proof. intros H id. rewrite H. constructor. Qed.

Lemma changed_refl x r : changed x r r.
Proof. split; try done. by left. Qed.

Section statements.
Context (c : Conn).

Lemma update_response_stmt x id guard f db res db' :
  (forall r, guard r = true -> changed x r (touch (cn_now c) (f r))) ->
  update_response c id guard f db = (res, db') -> stmt x db db'.
Proof.
  intros Hf. unfold update_response, on_responses.
  destruct (update_one _ _ _ _ _ _) as [res' t] eqn:Hu. intros [= <- <-] id'. simpl.
  apply update_one_inv in Hu as [(r & Hr & Hg & _ & _ & ->)|(-> & _)]; [|constructor].
  destruct (decide (id' = id)) as [->|Hne]; [|rewrite lookup_insert_ne by done; constructor].
  rewrite lookup_insert_eq, Hr. apply ev_change. by apply Hf.
Qed.

Lemma insert_response_stmt x r db res db' :
  ErExecutionID r = None -> insert_response c r db = (res, db') -> stmt x db db'.
Proof.
  intros He. unfold insert_response, on_responses. destruct (insert_one _ _ _ _ _) as [res' t] eqn:Hu. intros [= <- <-] id'. simpl.
  apply insert_one_inv in Hu as [(Hn & _ & _ & ->)|(-> & _)]; [|constructor].
  destruct (decide (id' = ErID r)) as [->|Hne]; [|rewrite lookup_insert_ne by done; constructor].
  rewrite lookup_insert_eq, Hn. by constructor.
Qed.
End statements.

(** A guarded change of some columns is an allowed one. *)
Ltac guards :=
  unfold held, not_canceled, has_status, unfinished, sql_eq in *;
  repeat match goal with
         | H : (_ && _)%bool = true |- _ => apply andb_true_iff in H as [? ?]
         | H : bool_decide _ = true |- _ => apply bool_decide_eq_true in H
         end.

Ltac by_status :=
  unfold terminal, unfinished, has_status; guards; simpl;
  repeat match goal with H : ErStatus ?r = _ |- _ => rewrite H; clear H end; simpl; try done.

Ltac solve_changed :=
  intros r Hg; split; simpl;
  [ done
  | by_status
  | intros at_; by_status
  | try done
  | left; simpl; done
  | by_status ].

Lemma Heartbeat_stmt c x claim db res db' : HeartbeatBackgroundResponse c claim db = (res, db') -> stmt x db db'.
Proof. apply update_response_stmt. solve_changed. Qed.

Lemma Link_stmt c x claim q db res db' : LinkBackgroundResponseRequest c claim q db = (res, db') -> stmt x db db'.
Proof. apply update_response_stmt. solve_changed. Qed.

Lemma Stage_stmt c x claim q b db res db' :
  is_nil b = false -> StageBackgroundResponseOutput c claim q b db = (res, db') -> stmt x db db'.
Proof. intros Hb. apply update_response_stmt. solve_changed. Qed.

Lemma CompleteBackground_stmt c x claim q db res db' : CompleteBackgroundResponse c claim q db = (res, db') -> stmt x db db'.
Proof. apply update_response_stmt. solve_changed. Qed.

Lemma Attach_stmt c x id db res db' : AttachBackgroundResponseRequest c id db = (res, db') -> stmt x db db'.
Proof. apply update_response_stmt. solve_changed. Qed.

Lemma Complete_stmt c x id b db res db' : CompleteResponseRecord c id b db = (res, db') -> stmt x db db'.
Proof. apply update_response_stmt. solve_changed. Qed.

Lemma Fail_stmt c x id b db res db' : FailResponseRecord c id b db = (res, db') -> stmt x db db'.
Proof. apply update_response_stmt. solve_changed. Qed.

(** The statuses a finished response may take. *)
Definition ending (s : Status) : Prop := s <> StatusQueued /\ s <> StatusInProgress.

Lemma Terminate_stmt c x claim q s b db res db' :
  ending s -> TerminateBackgroundResponse c claim q s b db = (res, db') -> stmt x db db'.
Proof. intros [H1 H2]. apply update_response_stmt. solve_changed. Qed.

Lemma Finalize_stmt c x id s b db res db' :
  ending s -> FinalizeRecoveredBackgroundResponse c id s b db = (res, db') -> stmt x db db'.
Proof.
  intros [H1 H2]. apply update_response_stmt. intros r Hg. apply andb_true_iff in Hg as [[_ Hu]%andb_true_iff _].
  split; simpl; [done|unfold terminal; by rewrite Hu|unfold terminal; by rewrite Hu|done|by left|done].
Qed.

Lemma Cancellation_stmt c x id k db res db' : RequestResponseCancellation c id k db = (res, db') -> stmt x db db'.
Proof.
  apply update_response_stmt. intros r Hg. apply andb_true_iff in Hg as [_ Hg]. split; simpl; unfold terminal; [done| | |done|by left|done].
  - destruct (unfinished r) eqn:Hu; [done|]. simpl in Hg. unfold has_status in Hg. apply bool_decide_eq_true in Hg. intros _.
    unfold outcome. simpl. by rewrite Hg.
  - intros at_ _ ->. done.
Qed.

Lemma oldest_elem l r : oldest l = Some r -> r ∈ l.
Proof.
  revert r. induction l as [|a l IH]; intros r; simpl; [done|].
  destruct (oldest l) as [b|]; [|intros [= <-]; left]. case_decide; intros [= <-]; [left|right; by apply IH].
Qed.

(** The row a claim takes: a claimable one. *)
Lemma Claim_inv c e stale db res db' :
  ClaimBackgroundResponse c e stale db = (res, db') ->
  (db' = db /\ exists err, res = Err err) \/ exists k r, db_responses db !! k = Some r /\ claimable stale db r = true /\
    ClaimBackgroundResponse c e stale db =
      update_response c (ErID r) (λ _, true)
        (λ r, set_status StatusInProgress (ErCompletedAt r)
                (set_execution e (ErExecutionGeneration r + 1) (Some (cn_now c)) (Some (cn_now c)) r)) db.
Proof.
  unfold ClaimBackgroundResponse. destruct (cn_fault c); [intros [= <- <-]; left; by eauto|].
  destruct (oldest _) as [r|] eqn:Ho; [|intros [= <- <-]; left; by eauto].
  apply oldest_elem, list_elem_of_filter in Ho as [[Hc _] Hin].
  apply list_elem_of_fmap in Hin as ([k r'] & -> & Hin%elem_of_map_to_list). simpl in *.
  case_match; [intros [= <- <-]; left; by eauto|]. intros _. right. by exists k, r'.
Qed.

(** Rows are stored under their identifier. *)
Definition keyed (db : Db) : Prop := forall id r, db_responses db !! id = Some r -> ErID r = id.

Lemma claimable_unfinished stale db r : claimable stale db r = true -> terminal r = false.
Proof.
  unfold claimable, terminal, unfinished. intros [_ [->|H]%orb_true_iff]%andb_true_iff; [done|].
  apply andb_true_iff in H as [[[-> _]%andb_true_iff _]%andb_true_iff _]. by rewrite orb_true_r.
Qed.

Lemma Claim_stmt c e stale db res db' :
  keyed db -> ClaimBackgroundResponse c e stale db = (res, db') -> stmt (Claiming e) db db'.
Proof.
  intros Hk H. destruct (Claim_inv c e stale db res db' H) as [[-> _]|(k & r & Hr & Hc & Heq)]; [by apply stmt_same|].
  rewrite Heq in H. clear Heq. unfold update_response, on_responses in H.
  destruct (update_one _ _ _ _ _ _) as [res' t] eqn:Hu. injection H as <- <-. intros id'. simpl.
  pose proof (Hk k r Hr) as <-.
  apply update_one_inv in Hu as [(r0 & Hr0 & _ & _ & _ & ->)|(-> & _)]; [|constructor].
  rewrite Hr in Hr0. injection Hr0 as <-.
  destruct (decide (id' = ErID r)) as [->|Hne]; [|rewrite lookup_insert_ne by done; constructor].
  rewrite lookup_insert_eq, Hr. apply ev_change. pose proof (claimable_unfinished _ _ _ Hc) as Ht.
  split; simpl; [done|by rewrite Ht|by rewrite Ht|done| |done]. right. by exists e.
Qed.

Lemma Create_stmt c x r db res db' : CreateResponseRecord c r db = (res, db') -> stmt x db db'.
Proof. by apply insert_response_stmt. Qed.

Lemma CreateCompleted_stmt c x r db res db' : CreateCompletedResponseRecord c r db = (res, db') -> stmt x db db'.
Proof. by apply insert_response_stmt. Qed.

Lemma CreateBackground_stmt c x r db res db' : CreateBackgroundResponseRecord c r db = (res, db') -> stmt x db db'.
Proof.
  unfold CreateBackgroundResponseRecord. cbv zeta. destruct (cn_fault c); [intros [= _ <-]; by apply stmt_same|].
  destruct (negb _); [intros [= _ <-]; by apply stmt_same|].
  destruct (ErIdempotencyKey r) as [k|]; [|by apply insert_response_stmt].
  destruct (List.find _ _); [|by apply insert_response_stmt].
  case_bool_decide; intros [= _ <-]; by apply stmt_same.
Qed.

Lemma Delete_stmt c id k db res db' : DeleteResponseRecord c id k db = (res, db') -> stmt Deleting db db'.
Proof.
  unfold DeleteResponseRecord. destruct (select_one _ _ _ _); [|intros [= _ <-]; by apply stmt_same].
  intros [= _ <-] id'. simpl. rewrite lookup_fmap. destruct (decide (id' = id)) as [->|Hne].
  - rewrite lookup_delete_eq. simpl. destruct (db_responses db !! id); by constructor.
  - rewrite lookup_delete_ne by done. destruct (db_responses db !! id') as [r|]; [|constructor]. simpl.
    apply ev_change. destruct (sql_eq _ _); [|apply changed_refl]. split; simpl; try done. by left.
Qed.

(** ** The service as a sequence of statements *)

Lemma stmt_keyed x db db' : stmt x db db' -> keyed db -> keyed db'.
Proof.
  intros Hs Hk id r Hr. specialize (Hs id). rewrite Hr in Hs.
  inversion Hs as [o Ho Ho'|r0 Hi _ Hn Hr0|r0 _|r0 r1 Hc Hr0 Hr1]; subst; [by apply Hk|done|].
  symmetry in Hr0. apply Hk in Hr0 as <-. by apply ch_fixed in Hc as [= -> _].
Qed.

Definition runs (x : Power) : Db -> Db -> Prop := rtc (stmt x).

Lemma runs_keyed x db db' : runs x db db' -> keyed db -> keyed db'.
Proof. induction 1 as [|a b c H1 _ IH]; [done|]. intros Hk. by apply IH, (stmt_keyed x a). Qed.

Lemma runs_on_db {A} x (f : Db -> A * Db) w :
  (forall res db', f (w_db w) = (res, db') -> stmt x (w_db w) db') -> runs x (w_db w) (w_db (on_db f w).2).
Proof.
  intros H. unfold on_db. destruct (f (w_db w)) as [a db'] eqn:Hf. simpl. apply rtc_once. by apply (H a).
Qed.

Lemma runs_only {A} x (f : Db -> result RespError A * Db) w :
  (forall res db', f (w_db w) = (res, db') -> stmt x (w_db w) db') -> runs x (w_db w) (w_db (only_error (on_db f w)).2).
Proof. apply runs_on_db. Qed.

Lemma runs_observed x outcome w p : runs x w (w_db p.2) -> runs x w (w_db (observed outcome p).2).
Proof. by destruct p as [[]]. Qed.

(** A repository method has the effect of its statement. *)
Lemma translated_stmt {A} x (q : Db -> result PgError A * Db) translate db :
  (forall res db', q db = (res, db') -> stmt x db db') ->
  forall res db', translated translate (q db) = (res, db') -> stmt x db db'.
Proof. intros H res db'. unfold translated. destruct (q db) as [r d] eqn:Hq. intros [= _ <-]. by apply (H r). Qed.

Lemma executed_stmt {A} x (q : Db -> result PgError A * Db) db :
  (forall res db', q db = (res, db') -> stmt x db db') -> forall res db', executed (q db) = (res, db') -> stmt x db db'.
Proof. intros H res db'. unfold executed. destruct (q db) as [r d] eqn:Hq. intros [= _ <-]. by apply (H r). Qed.

Create HintDb statements.
#[export] Hint Resolve Heartbeat_stmt Link_stmt Stage_stmt CompleteBackground_stmt Attach_stmt Complete_stmt Fail_stmt
  Cancellation_stmt Create_stmt CreateCompleted_stmt CreateBackground_stmt Delete_stmt Terminate_stmt Finalize_stmt Claim_stmt
  : statements.

Ltac run_statement :=
  first [apply runs_only | apply runs_on_db];
  first [ apply translated_stmt | apply executed_stmt ]; eauto with statements.

Section service.
Context {aead : AEAD} (envelope : EnvelopeCipher) (random : UUID -> string -> nat -> result string bytes)
  (encode_error : string -> string -> Bytes) (conn : nat -> Conn).

Lemma Begin_runs x a b k p i w : runs x (w_db w) (w_db (Begin_ envelope random conn a b k p i w).2).
Proof. unfold Begin_. destruct (encryptRecord _ _ _); [run_statement|apply rtc_refl]. Qed.

Lemma SaveCompleted_runs x a b k p i o w : runs x (w_db w) (w_db (SaveCompleted envelope random conn a b k p i o w).2).
Proof. unfold SaveCompleted. destruct (encryptRecord _ _ _); [run_statement|apply rtc_refl]. Qed.

Lemma Enqueue_runs x a k p key d i q w : runs x (w_db w) (w_db (Enqueue envelope random conn a k p key d i q w).2).
Proof.
  unfold Enqueue. destruct (encryptRecord _ _ _) as [r|]; [|apply rtc_refl].
  assert (H : runs x (w_db w) (w_db (on_db (Repo_CreateBackground (conn 0%nat) r) w).2)) by run_statement.
  by destruct (on_db _ w) as [[] w'].
Qed.

Lemma ClaimNext_runs e stale w : keyed (w_db w) -> runs (Claiming e) (w_db w) (w_db (ClaimNext envelope conn e stale w).2).
Proof.
  intros Hk. unfold ClaimNext. destruct (_ || _)%bool; [apply rtc_refl|].
  assert (H : runs (Claiming e) (w_db w) (w_db (on_db (Repo_ClaimBackground (conn 0%nat) e stale) w).2)) by run_statement.
  destruct (on_db _ w) as [[] w']; [|done]. destruct (decryptRecord _ _); [|done]. simpl in *. by case_match.
Qed.

Lemma Heartbeat_runs x claim w : runs x (w_db w) (w_db (Heartbeat conn claim w).2).
Proof. unfold Heartbeat. case_match; [apply rtc_refl|run_statement]. Qed.

Lemma LinkRequest_runs x claim q w : runs x (w_db w) (w_db (LinkRequest conn claim q w).2).
Proof. unfold LinkRequest. case_match; [apply rtc_refl|run_statement]. Qed.

Lemma encryptField_some id field value b : encryptField envelope random id field value = Ok b -> is_nil b = false.
Proof.
  unfold encryptField, Encrypt. destruct (_ || _)%bool; [done|]. destruct (_ !! _); [|done].
  destruct (random id field NonceSize) as [nonce|]; [|done]. by intros [= <-].
Qed.

Lemma StageOutput_runs x claim q o w : runs x (w_db w) (w_db (StageOutput envelope random conn claim q o w).2).
Proof.
  unfold StageOutput. case_match; [apply rtc_refl|]. destruct (encryptField _ _ _ _ _) eqn:He; [|apply rtc_refl].
  apply encryptField_some in He. run_statement.
Qed.

Lemma CompleteClaim_runs x claim q w : runs x (w_db w) (w_db (CompleteClaim conn claim q w).2).
Proof. unfold CompleteClaim. case_match; [apply rtc_refl|]. apply runs_observed. run_statement. Qed.

Lemma TerminateClaim_runs x claim q s e w : runs x (w_db w) (w_db (TerminateClaim envelope random conn claim q s e w).2).
Proof.
  unfold TerminateClaim. destruct (_ || _)%bool eqn:Hg; [apply rtc_refl|].
  apply orb_false_iff in Hg as [_ Hs%negb_false_iff%bool_decide_eq_true].
  destruct (encryptField _ _ _ _ _); [|apply rtc_refl]. apply runs_observed. run_statement.
  intros res db'. apply Terminate_stmt. split; set_solver.
Qed.

Lemma Complete_runs x id o w : runs x (w_db w) (w_db (Complete_ envelope random conn id o w).2).
Proof. unfold Complete_. destruct (encryptField _ _ _ _ _); [run_statement|apply rtc_refl]. Qed.

Lemma FailStored_runs x id e w : runs x (w_db w) (w_db (FailStored envelope random conn id e w).2).
Proof. unfold FailStored. destruct (encryptField _ _ _ _ _); [run_statement|apply rtc_refl]. Qed.

Lemma DeleteService_stmt id k w : stmt Deleting (w_db w) (w_db (Delete_ conn id k w).2).
Proof.
  unfold Delete_. case_match; [by apply stmt_same|]. unfold Repo_Delete, on_db, translated. simpl.
  destruct (DeleteResponseRecord (conn 0%nat) id k (w_db w)) as [res db'] eqn:Hd. by apply Delete_stmt in Hd.
Qed.

Lemma RequestCancellation_runs x id k w : runs x (w_db w) (w_db (RequestCancellation conn id k w).2).
Proof.
  unfold RequestCancellation. case_match; [apply rtc_refl|]. destruct (Repo_Get _ _ _ _); [|apply rtc_refl].
  case_match; [apply rtc_refl|run_statement].
Qed.

Lemma recovered_ending r s : recovered_status r = Some s -> ending s.
Proof. unfold recovered_status. intros H. repeat case_match; simplify_eq; by split. Qed.

Lemma recoverOne_runs x n r w : runs x (w_db w) (w_db (recoverOne envelope random encode_error conn n r w).2).
Proof.
  unfold recoverOne.
  assert (H1 : runs x (w_db w) (w_db (on_db (Repo_AttachBackgroundRequest (conn n) (ReResponseID r)) w).2)) by run_statement.
  destruct (on_db _ w) as [[] w1]; simpl in H1; [|done]. destruct (recovered_status r) as [s|] eqn:Hs; [|done].
  destruct (if bool_decide _ then _ else _) as [b|]; [|done].
  assert (H2 : runs x (w_db w1) (w_db (on_db (Repo_FinalizeRecoveredBackground (conn (S n)) (ReResponseID r) s b) w1).2)).
  { run_statement. intros res db'. apply Finalize_stmt. by eapply recovered_ending. }
  destruct (on_db _ w1) as [[] w2]; simpl in *; by etransitivity.
Qed.

Lemma RecoverOnce_runs x n w : runs x (w_db w) (w_db (RecoverOnce envelope random encode_error conn n w).2).
Proof.
  unfold RecoverOnce. case_match; [apply rtc_refl|]. destruct (Repo_ListBackgroundRecoveries _ _ _) as [rs|]; [|apply rtc_refl].
  generalize 1%nat as k. revert w. induction rs as [|r rs IH]; intros w k; simpl; [apply rtc_refl|].
  pose proof (recoverOne_runs x k r w) as H1. destruct (recoverOne _ _ _ _ k r w) as [[d e] w1].
  specialize (IH w1 (S (S k))). destruct (recover_all _ _ _ _ _ rs w1) as [[n' es] w2]. simpl in *. by etransitivity.
Qed.
End service.

(** ** Interleavings *)

(** The table of requests and the keys change outside the service; a request
    that goes away is cleared from its response. *)
Definition forget_request (requests : gmap UUID RequestInfo) (r : EncryptedRecord) : EncryptedRecord :=
  match ErRequestID r with
  | Some q => if decide (is_Some (requests !! q)) then r else set_request None r
  | None => r
  end.

(** The world and the execution identifiers handed out so far: a worker draws
    a new one for each claim.  The keys of the envelope, the random bytes and
    the answers of the database may differ from call to call. *)
Definition State : Type := World * gset UUID.

Inductive step `{!AEAD} : State -> State -> Prop :=
| StepBegin env rnd conn a b k p inp w i : step (w, i) ((Begin_ env rnd conn a b k p inp w).2, i)
| StepSave env rnd conn a b k p inp o w i : step (w, i) ((SaveCompleted env rnd conn a b k p inp o w).2, i)
| StepEnqueue env rnd conn a k p key d inp q w i : step (w, i) ((Enqueue env rnd conn a k p key d inp q w).2, i)
| StepClaim env conn e stale w i : e ∉ i -> step (w, i) ((ClaimNext env conn e stale w).2, {[e]} ∪ i)
| StepHeartbeat conn claim w i : step (w, i) ((Heartbeat conn claim w).2, i)
| StepLink conn claim q w i : step (w, i) ((LinkRequest conn claim q w).2, i)
| StepStage env rnd conn claim q o w i : step (w, i) ((StageOutput env rnd conn claim q o w).2, i)
| StepCompleteClaim conn claim q w i : step (w, i) ((CompleteClaim conn claim q w).2, i)
| StepTerminate env rnd conn claim q s e w i : step (w, i) ((TerminateClaim env rnd conn claim q s e w).2, i)
| StepComplete env rnd conn id o w i : step (w, i) ((Complete_ env rnd conn id o w).2, i)
| StepFail env rnd conn id e w i : step (w, i) ((FailStored env rnd conn id e w).2, i)
| StepDelete conn id k w i : step (w, i) ((Delete_ conn id k w).2, i)
| StepCancel conn id k w i : step (w, i) ((RequestCancellation conn id k w).2, i)
| StepRecover env rnd enc conn n w i : step (w, i) ((RecoverOnce env rnd enc conn n w).2, i)
| StepOutside requests keys w i :
    step (w, i) (mkWorld (mkDb (forget_request requests <$> db_responses (w_db w)) requests keys) (w_seen w), i).

Lemma outside_stmt x requests keys db : stmt x db (mkDb (forget_request requests <$> db_responses db) requests keys).
Proof.
  intros id. simpl. rewrite lookup_fmap. destruct (db_responses db !! id) as [r|]; [|constructor]. simpl. apply ev_change.
  unfold forget_request. destruct (ErRequestID r); [|apply changed_refl]. case_decide; [apply changed_refl|].
  split; simpl; try done. by left.
Qed.

(** A step is a run of statements without further powers, a claim with a new
    execution, or one deletion. *)
Inductive effect (i i' : gset UUID) (db db' : Db) : Prop :=
| EffPlain : i' = i -> runs Plain db db' -> effect i i' db db'
| EffClaim e : e ∉ i -> i' = {[e]} ∪ i -> runs (Claiming e) db db' -> effect i i' db db'
| EffDelete : i' = i -> stmt Deleting db db' -> effect i i' db db'.

#[export] Hint Resolve Begin_runs SaveCompleted_runs Enqueue_runs Heartbeat_runs LinkRequest_runs StageOutput_runs
  CompleteClaim_runs TerminateClaim_runs Complete_runs FailStored_runs RequestCancellation_runs RecoverOnce_runs : statements.

Lemma step_effect `{!AEAD} s s' : keyed (w_db s.1) -> step s s' -> effect s.2 s'.2 (w_db s.1) (w_db s'.1).
Proof.
  intros Hk. destruct 1; simpl in *; try (apply EffPlain; [done|]; by auto with statements).
  - eapply EffClaim; [done|done|]. by apply ClaimNext_runs.
  - apply EffDelete; [done|]. apply DeleteService_stmt.
  - apply EffPlain; [done|]. apply rtc_once, outside_stmt.
Qed.

Lemma effect_keyed i i' db db' : effect i i' db db' -> keyed db -> keyed db'.
Proof. intros [_ H|e _ _ H|_ H]; [by eapply runs_keyed..|by eapply stmt_keyed]. Qed.

(** ** Executions that lost their claim *)

Definition fenced (claim : ResponseClaim) (db : Db) : Prop :=
  forall r, db_responses db !! RcResponseID claim = Some r -> held claim r = false.

Lemma held_spec claim r :
  held claim r = true <->
  ErExecutionID r = Some (RcExecutionID claim) /\ ErExecutionGeneration r = RcGeneration claim /\ ErStatus r = StatusInProgress.
Proof.
  unfold held, sql_eq, has_status. rewrite !andb_true_iff, !bool_decide_eq_true, Z.eqb_eq. tauto.
Qed.

Lemma stmt_fenced x claim db db' :
  x <> Claiming (RcExecutionID claim) -> stmt x db db' -> fenced claim db -> fenced claim db'.
Proof.
  intros Hx Hs Hf r Hr. apply not_true_is_false. intros (He & Hg & Hst)%held_spec.
  specialize (Hs (RcResponseID claim)). rewrite Hr in Hs. unfold fenced in Hf.
  inversion Hs as [o Ho Ho'|r0 _ Hn Ho Ho'|r0 _|r0 r1 Hc Ho Ho']; subst.
  - assert (Hh : held claim r = true) by (by apply held_spec). rewrite Hf in Hh; [done|congruence].
  - congruence.
  - destruct (ch_execution _ _ _ Hc) as [(E1 & E2 & E3)|(e & -> & E1 & _)]; [|congruence].
    assert (Hh : held claim r0 = true) by (apply held_spec; split_and!; [congruence..|by apply E3]).
    rewrite Hf in Hh; [done|congruence].
Qed.

Lemma runs_fenced x claim db db' :
  x <> Claiming (RcExecutionID claim) -> runs x db db' -> fenced claim db -> fenced claim db'.
Proof. intros Hx. induction 1 as [|a b d H1 _ IH]; [done|]. intros Hf. apply IH. by eapply stmt_fenced. Qed.

Lemma steps_fenced `{!AEAD} claim s s' :
  rtc step s s' -> keyed (w_db s.1) -> RcExecutionID claim ∈ s.2 -> fenced claim (w_db s.1) -> fenced claim (w_db s'.1).
Proof.
  induction 1 as [|a b d H1 _ IH]; [done|]. intros Hk Hi Hf. pose proof (step_effect a b Hk H1) as He.
  apply IH; [by eapply effect_keyed| |].
  - destruct He as [-> _|e _ -> _| -> _]; set_solver.
  - destruct He as [_ Hr|e Hn _ Hr|_ Hr]; [by eapply (runs_fenced Plain)| |by eapply (stmt_fenced Deleting)].
    eapply (runs_fenced (Claiming e)); [|done..]. intros [= ->]. by apply Hn.
Qed.

(** The operations a worker does with its claim. *)
Inductive claim_op `{!AEAD} (claim : ResponseClaim) : (World -> option RespError * World) -> Prop :=
| OpHeartbeat conn : claim_op claim (Heartbeat conn claim)
| OpLink conn q : claim_op claim (LinkRequest conn claim q)
| OpStage env rnd conn q o : claim_op claim (StageOutput env rnd conn claim q o)
| OpComplete conn q : claim_op claim (CompleteClaim conn claim q)
| OpTerminate env rnd conn q s e : claim_op claim (TerminateClaim env rnd conn claim q s e).

(** A statement guarded by a claim that is not held has no effect. *)
Lemma update_not_held c claim guard f db :
  fenced claim db -> (forall r, guard r = true -> held claim r = true) ->
  exists e, update_response c (RcResponseID claim) guard f db = (Err e, db) /\ (cn_fault c = None -> e = NoRows).
Proof.
  intros Hf Hg. unfold update_response, on_responses, update_one. destruct (cn_fault c) as [e|] eqn:Hc.
  { exists e. by destruct db. }
  exists NoRows. destruct (db_responses db !! _) as [r|] eqn:Hr; [|by destruct db].
  destruct (guard r) eqn:Hgr; [|by destruct db]. apply Hg in Hgr. rewrite (Hf r Hr) in Hgr. done.
Qed.

Lemma executed_not_held c claim guard f w :
  fenced claim (w_db w) -> (forall r, guard r = true -> held claim r = true) ->
  exists e, only_error (on_db (λ db, executed (update_response c (RcResponseID claim) guard f db)) w) = (Some e, w) /\
    (cn_fault c = None -> e = RFenced).
Proof.
  intros Hf Hg. destruct (update_not_held c claim guard f (w_db w) Hf Hg) as (e & He & Hn).
  unfold only_error, on_db, executed. rewrite He. simpl. destruct w. eexists. split; [done|].
  intros Hc. by rewrite Hn.
Qed.

Lemma observed_error outcome (p : option RespError * World) e w : p = (Some e, w) -> observed outcome p = (Some e, w).
Proof. by intros ->. Qed.

Lemma fenced_op `{!AEAD} claim op w : fenced claim (w_db w) -> claim_op claim op -> exists e, op w = (Some e, w).
Proof.
  intros Hf.
  assert (Hx : forall c guard f, (forall r, guard r = true -> held claim r = true) ->
    exists e, only_error (on_db (λ db, executed (update_response c (RcResponseID claim) guard f db)) w) = (Some e, w)).
  { intros c guard f Hg. destruct (executed_not_held c claim guard f w Hf Hg) as (e & He & _). by exists e. }
  assert (Hl : forall r, (held claim r && not_canceled r)%bool = true -> held claim r = true) by (by intros r [? _]%andb_true_iff).
  destruct 1; unfold Heartbeat, LinkRequest, StageOutput, CompleteClaim, TerminateClaim.
  - destruct (negb _); [by eauto|]. by apply Hx.
  - destruct (_ || _)%bool; [by eauto|]. by apply Hx.
  - destruct (_ || _)%bool; [by eauto|]. destruct (encryptField _ _ _ _ _); [|by eauto]. by apply Hx.
  - destruct (_ || _)%bool; [by eauto|]. edestruct (Hx (conn 0%nat)) as (e & He); [|exists e; by apply observed_error].
    intros r [? _]%andb_true_iff. by apply Hl.
  - destruct (_ || _)%bool; [by eauto|]. destruct (encryptField _ _ _ _ _); [|by eauto].
    edestruct (Hx (conn 0%nat)) as (e' & He); [|exists e'; by apply observed_error]. done.
Qed.

(** A successful claim: a claimable response is taken over. *)
Lemma claim_takes_over `{!AEAD} env conn e stale w claim record w' :
  keyed (w_db w) -> ClaimNext env conn e stale w = (Ok (claim, record), w') ->
  RcExecutionID claim = e /\
  (exists r r', db_responses (w_db w) !! RcResponseID claim = Some r /\ claimable stale (w_db w) r = true /\
     db_responses (w_db w') !! RcResponseID claim = Some r' /\
     ErCancelRequestedAt r' = ErCancelRequestedAt r /\ RcGeneration claim = ErExecutionGeneration r + 1 /\
     held claim r' = true) /\
  forall other, RcResponseID other = RcResponseID claim -> RcExecutionID other <> e -> fenced other (w_db w').
Proof.
  intros Hk. unfold ClaimNext. destruct (_ || _)%bool; [done|]. unfold Repo_ClaimBackground, on_db, translated. simpl.
  destruct (ClaimBackgroundResponse _ _ _ _) as [res db'] eqn:Hc. destruct res as [enc|]; [|done]. simpl.
  destruct (decryptRecord env enc) as [rec|] eqn:Hd; [|done]. case_match; [done|]. intros [= <- <- <-]. simpl.
  assert (Hid : RrID rec = ErID enc).
  { unfold decryptRecord in Hd. destruct (decryptField _ _ _ _); [|done]. repeat case_match; by simplify_eq. }
  rewrite Hid. destruct (Claim_inv _ _ _ _ _ _ Hc) as [[-> (? & [=])]|(k & r & Hr & Hcl & Heq)].
  rewrite Heq in Hc. clear Heq. unfold update_response, on_responses in Hc.
  destruct (update_one _ _ _ _ _ _) as [res t] eqn:Hu. injection Hc as -> <-. pose proof (Hk k r Hr) as <-.
  apply update_one_ok in Hu as (r0 & Hr0 & _ & -> & ->). rewrite Hr in Hr0. injection Hr0 as <-. simpl.
  split; [done|]. split.
  - exists r. eexists. rewrite lookup_insert_eq. split_and!; try done. by apply held_spec.
  - intros other Ho Hne r'. simpl. rewrite Ho, lookup_insert_eq. intros [= <-]. apply not_true_is_false.
    intros (He & _)%held_spec. simpl in He. congruence.
Qed.

(** C20. An execution that no longer holds its claim on a background response
    (another worker took it over, the response was canceled, finished or
    deleted) never gets it back: whatever operations of the service follow, in
    whatever order, with whatever failures of the database and changes of the
    other tables, each operation with the stale claim fails and changes nothing,
    and a valid heartbeat that reaches the database says it is fenced. *)
Theorem stale_execution_fenced `{!AEAD} claim s s' :
  keyed (w_db s.1) -> RcExecutionID claim ∈ s.2 -> fenced claim (w_db s.1) -> rtc step s s' ->
  (forall op, claim_op claim op -> exists e, op s'.1 = (Some e, s'.1)) /\
  (forall conn, ResponseClaim_Valid claim = true -> cn_fault (conn 0%nat) = None ->
     Heartbeat conn claim s'.1 = (Some RFenced, s'.1)).
Proof.
  intros Hk Hi Hf Hs. pose proof (steps_fenced claim s s' Hs Hk Hi Hf) as Hf'. split.
  - intros op. by apply fenced_op.
  - intros conn Hv Hc. unfold Heartbeat. rewrite Hv. simpl.
    edestruct (executed_not_held (conn 0%nat) claim) as (e & He & Hn); [exact Hf'| |etransitivity; [exact He|by rewrite Hn]].
    by intros r [? _]%andb_true_iff.
Qed.

(** ** Finished responses *)

(** What the life of a response keeps: its fixed columns, its outcome once it
    is finished, and the order of its statuses and executions. *)
Record aged (r r' : EncryptedRecord) : Prop := {
  ag_fixed : fixed r' = fixed r;
  ag_final : terminal r = true -> outcome r' = outcome r;
  ag_completed at_ : terminal r = true -> ErCompletedAt r = Some at_ -> ErCompletedAt r' = Some at_;
  ag_queued : ErStatus r' = StatusQueued -> ErStatus r = StatusQueued;
  ag_generation : ErExecutionGeneration r <= ErExecutionGeneration r';
}.

Lemma outcome_terminal r r' : outcome r' = outcome r -> terminal r' = terminal r.
Proof. intros [= Hs _ _]. unfold terminal, unfinished, has_status. by rewrite Hs. Qed.

#[export] Instance aged_preorder : PreOrder aged.
Proof.
  split; [intros r; by split|]. intros a b c [H1 H2 H3 H4 H5] [H6 H7 H8 H9 H10].
  split; [congruence| | |auto|lia].
  - intros Ht. rewrite H7; [by apply H2|]. rewrite (outcome_terminal a b); auto.
  - intros at_ Ht Hat. apply H8; [rewrite (outcome_terminal a b); auto|]. by apply H3.
Qed.

Lemma changed_aged x r r' : changed x r r' -> aged r r'.
Proof.
  intros [H1 H2 H3 H4 H5]. split; try done. destruct H5 as [(_ & -> & _)|(e & _ & _ & -> & _)]; lia.
Qed.

Lemma stmt_aged x db db' id r r' :
  stmt x db db' -> db_responses db !! id = Some r -> db_responses db' !! id = Some r' -> aged r r'.
Proof.
  intros Hs Hr Hr'. specialize (Hs id). rewrite Hr, Hr' in Hs. inversion Hs; subst; [reflexivity|by eapply changed_aged].
Qed.

(** Without deletions a row stays. *)
Lemma runs_aged x db db' id r :
  x <> Deleting -> runs x db db' -> db_responses db !! id = Some r -> exists r', db_responses db' !! id = Some r' /\ aged r r'.
Proof.
  intros Hx Hruns. revert r. induction Hruns as [|a b d Hs _ IH]; intros r Hr; [by exists r|].
  assert (Hb : exists r1, db_responses b !! id = Some r1).
  { specialize (Hs id). rewrite Hr in Hs. inversion Hs; subst; [by eauto|done|by eauto]. }
  destruct Hb as (r1 & Hr1). destruct (IH r1 Hr1) as (r' & Hr' & Ha). exists r'. split; [done|].
  transitivity r1; [by eapply stmt_aged|done].
Qed.

(** A step after which the response is still there. *)
Definition keeping `{!AEAD} (id : UUID) (a b : State) : Prop := step a b /\ is_Some (db_responses (w_db b.1) !! id).

Lemma keeping_aged `{!AEAD} id s s' r :
  keyed (w_db s.1) -> db_responses (w_db s.1) !! id = Some r -> rtc (keeping id) s s' ->
  exists r', db_responses (w_db s'.1) !! id = Some r' /\ aged r r'.
Proof.
  intros Hk Hr Hs. revert r Hk Hr. induction Hs as [|a b d [Hab [r1 Hr1]] _ IH]; intros r Hk Hr; [by exists r|].
  pose proof (step_effect a b Hk Hab) as He. pose proof (effect_keyed _ _ _ _ He Hk) as Hk'.
  destruct (IH r1 Hk' Hr1) as (r' & Hr' & Ha). exists r'. split; [done|]. transitivity r1; [|done].
  destruct He as [_ Hp|e _ _ Hp|_ Hp].
  - destruct (runs_aged Plain _ _ id r ltac:(done) Hp Hr) as (r2 & Hr2 & Ha2). congruence.
  - destruct (runs_aged (Claiming e) _ _ id r ltac:(done) Hp Hr) as (r2 & Hr2 & Ha2). congruence.
  - by eapply stmt_aged.
Qed.

(** A response only moves forward: as long as it is not deleted, whatever
    operations of the service follow in whatever order, its identity, owner,
    input and request stay as they were stored, it never returns to the queue,
    the generation of its execution never decreases, and once it has finished
    its status, output, error and completion time never change again. *)
Theorem finished_response_is_final `{!AEAD} id s s' r :
  keyed (w_db s.1) -> db_responses (w_db s.1) !! id = Some r -> rtc (keeping id) s s' ->
  exists r', db_responses (w_db s'.1) !! id = Some r' /\ fixed r' = fixed r /\
    ErExecutionGeneration r <= ErExecutionGeneration r' /\
    (ErStatus r' = StatusQueued -> ErStatus r = StatusQueued) /\
    (terminal r = true -> outcome r' = outcome r /\
       forall at_, ErCompletedAt r = Some at_ -> ErCompletedAt r' = Some at_).
Proof.
  intros Hk Hr Hs. destruct (keeping_aged id s s' r Hk Hr Hs) as (r' & Hr' & [H1 H2 H3 H4 H5]).
  exists r'. split_and!; try done. intros Ht. split; [by apply H2|]. intros at_. by apply H3.
Qed.
