(* ===== verification/ResponseVault.v ===== *)
(** * What a stored response gives back

    The encryption of records as a round trip through the table, the meaning
    of an idempotency key, and the recovery of background responses. *)

From S2P Require Import Prelude GoStrings Canonical Json Envelope EnvelopeProps Sql ResponseTable Responses ResponseProps.

Local Open Scope Z_scope.

(** A cipher with its active key, and a source of nonces. *)
Definition usable (c : EnvelopeCipher) : Prop := is_Some (keys c !! activeKeyVersion c) /\ 0 < activeKeyVersion c < 2 ^ 32.
Definition honest (random : UUID -> string -> nat -> result string bytes) : Prop :=
  forall id field nonce, random id field NonceSize = Ok nonce -> length nonce = NonceSize.

(** A later cipher that still has the key. *)
Definition succeeds (c c' : EnvelopeCipher) : Prop := keys c' !! activeKeyVersion c = keys c !! activeKeyVersion c.

Section vault.
Context {aead : AEAD} {laws : AEADLaws} (env env' : EnvelopeCipher) (random : UUID -> string -> nat -> result string bytes).
Hypothesis env_usable : usable env.
Hypothesis random_honest : honest random.
Hypothesis env_later : succeeds env env'.

Lemma Encrypt_sealed rnd plaintext ad b :
  Encrypt env rnd plaintext ad = Ok b ->
  exists key nonce, keys env !! activeKeyVersion env = Some key /\ rnd NonceSize = Ok nonce /\
    b = sealed (activeKeyVersion env) key nonce plaintext ad.
Proof using.
  unfold Encrypt. destruct (keys env !! _) as [key|]; [|done]. destruct (rnd NonceSize) as [nonce|]; [|done].
  intros [= <-]. by exists key, nonce.
Qed.

Lemma field_roundtrip id field v b :
  encryptField env random id field v = Ok b -> decryptField env' id field b = Ok v /\ b <> [].
Proof using laws env_usable random_honest env_later.
  unfold encryptField. destruct (_ || _)%bool eqn:Hg; [done|]. apply orb_false_iff in Hg as [_ Hv%negb_false_iff].
  destruct (Encrypt _ _ _ _) as [b'|] eqn:He; [|done]. intros [= ->].
  apply Encrypt_sealed in He as (key & nonce & Hk & Hn & ->). destruct env_usable as [_ Hr]. split; [|done].
  unfold decryptField. rewrite (Decrypt_sealed env' _ key nonce); [by rewrite Hv|done|by eapply random_honest|].
  by rewrite env_later.
Qed.

(** An optional field. *)
Lemma assign_roundtrip id field v b :
  (if is_nil v then ([], None) else assign (encryptField env random id field v)) = (b, None) ->
  (if is_nil b then ([], None) else assign (decryptField env' id field b)) = (v, None).
Proof using laws env_usable random_honest env_later.
  destruct v as [|a v]; [by intros [= <-]|]. simpl. destruct (encryptField _ _ _ _ _) as [b'|] eqn:He; [|done]. intros [= ->].
  apply field_roundtrip in He as [-> Hb]. by destruct b.
Qed.

(** What the record stored as [e] reads as. *)
Definition as_stored (r : ResponseRecord) (e : EncryptedRecord) : ResponseRecord :=
  mkResponseRecord (RrID r) (ErRequestID e) (RrGatewayKeyID r) (ErPreviousResponseID e) (RrIdempotencyKey r)
    (RrRequestDigest r) (ErStatus e) (RrBackground r) (RrInput r) (RrRequest r) (RrOutput r) (RrError r)
    (ErCancelRequestedAt e) (ErCompletedAt e) (ErCreatedAt e) (ErUpdatedAt e).

(** With both a request and an output, an error of the request is lost. *)
Lemma record_roundtrip r e :
  RrRequest r = [] \/ RrOutput r = [] -> encryptRecord env random r = Ok e -> decryptRecord env' e = Ok (as_stored r e).
Proof using laws env_usable random_honest env_later.
  intros Hro. unfold encryptRecord. destruct (invalid_record r); [done|].
  destruct (encryptField _ _ _ "input" _) as [input|] eqn:Hi; [|done]. apply field_roundtrip in Hi as [Hi _].
  destruct (if is_nil (RrRequest r) then _ else _) as [request err1] eqn:Hq.
  destruct (if is_nil (RrOutput r) then _ else _) as [output err2] eqn:Ho.
  assert (H12 : err2 = None -> err1 = None).
  { intros ->. destruct Hro as [Hro|Hro]; rewrite Hro in *; simpl in *; congruence. }
  destruct err2 as [e2|]; [done|]. specialize (H12 eq_refl) as ->.
  destruct (if is_nil (RrError r) then _ else _) as [error err3] eqn:He. destruct err3 as [e3|]; [done|].
  intros [= <-]. unfold decryptRecord. simpl. rewrite Hi.
  assert (Ho' : (if is_nil (RrOutput r) then ([], None) else assign (encryptField env random (RrID r) "output" (RrOutput r))) = (output, None))
    by (by destruct (is_nil (RrOutput r))).
  apply assign_roundtrip in Hq, Ho', He. rewrite Ho', Hq, He. done.
Qed.

(** The record that later statements only age reads the same. *)
Lemma decrypt_aged r e e' :
  fixed e' = fixed e -> EncryptedOutput e' = EncryptedOutput e -> EncryptedError e' = EncryptedError e ->
  decryptRecord env' e = Ok (as_stored r e) -> decryptRecord env' e' = Ok (as_stored r e').
Proof using.
  intros [= F1 F2 F3 F4 F5 F6 F7 F8] Ho He. unfold decryptRecord. rewrite F1, F2, F3, F4, F5, F6, F7, Ho, He.
  destruct (decryptField _ _ _ _); [|done]. repeat case_match; try done; unfold as_stored; intros [=]; congruence.
Qed.

(** ** Through the table *)

Lemma only_error_ok {A} (p : result RespError A * World) w : only_error p = (None, w) -> exists a, p = (Ok a, w).
Proof using. destruct p as [[a|e] w']; intros [= ->]; by eauto. Qed.

Lemma insert_response_ok c r db r' db' :
  insert_response c r db = (Ok r', db') ->
  r' = r /\ db_responses db !! ErID r = None /\ db' = set_responses (<[ErID r := r]> (db_responses db)) db /\
  response_clash (db_responses db) (ErID r) r = false.
Proof using.
  unfold insert_response, on_responses. destruct (insert_one _ _ _ _ _) as [res t] eqn:Hu. intros [= -> <-].
  apply insert_one_inv in Hu as [(Hn & [_ Hc _] & [= ->] & ->)|(_ & ? & [=])]. done.
Qed.

Lemma update_response_ok c id guard f db r db' :
  update_response c id guard f db = (Ok r, db') ->
  exists r0, db_responses db !! id = Some r0 /\ guard r0 = true /\ r = touch (cn_now c) (f r0) /\
    db' = set_responses (<[id := r]> (db_responses db)) db.
Proof using.
  unfold update_response, on_responses. destruct (update_one _ _ _ _ _ _) as [res t] eqn:Hu. intros [= -> <-].
  apply update_one_ok in Hu as (r0 & Hr0 & Hg & -> & ->). by exists r0.
Qed.

Lemma translated_ok {A B} tr (p : result PgError A * B) a b : translated tr p = (Ok a, b) -> p = (Ok a, b).
Proof using. destruct p as [[|] ?]; by intros [= -> ->]. Qed.

Lemma on_db_ok {A} (f : Db -> A * Db) w a w' : on_db f w = (a, w') -> f (w_db w) = (a, w_db w') /\ w_seen w' = w_seen w.
Proof using. unfold on_db. destruct (f (w_db w)). by intros [= -> <-]. Qed.

(** What [Begin] stored. *)
Lemma Begin_stored conn id q k p input w w1 :
  Begin_ env random conn id q k p input w = (None, w1) ->
  id <> uuid_Nil /\ k <> uuid_Nil /\
  exists b, encryptField env random id "input" input = Ok b /\
    db_responses (w_db w1) = <[id := new_row (conn 0%nat) id (Some q) k p None [] StatusInProgress false b [] [] None]>
      (db_responses (w_db w)).
Proof using.
  unfold Begin_. destruct (encryptRecord _ _ _) as [e|] eqn:He; [|done]. intros [r Hr]%only_error_ok.
  apply on_db_ok in Hr as [Hr _]. apply translated_ok, insert_response_ok in Hr as (_ & _ & Hdb & _).
  unfold encryptRecord in He. destruct (invalid_record _) eqn:Hv; [done|]. simpl in He.
  destruct (encryptField _ _ _ _ _) as [b|] eqn:Hb; [|done]. injection He as <-.
  unfold invalid_record in Hv. simpl in Hv. rewrite !orb_false_iff, !bool_decide_eq_false in Hv.
  destruct Hv as (((((H1 & H2) & _) & _) & _) & _). split_and!; [done..|]. exists b. split; [done|]. by rewrite Hdb.
Qed.

(** A streamed response that was begun and completed is given back to its
    owner as it was: after any further operations that do not delete it, and
    under a cipher whose active key may have changed meanwhile, reading it
    returns exactly the input and output that were stored, as completed; under
    any other key it is not found. *)
Theorem stored_response_roundtrip conn conn' conn'' id q k p input output w w1 w2 i s3 :
  keyed (w_db w) ->
  Begin_ env random conn id q k p input w = (None, w1) -> Complete_ env random conn' id output w1 = (None, w2) ->
  rtc (keeping id) (w2, i) s3 -> cn_fault (conn'' 0%nat) = None ->
  (exists r, Get env' conn'' id k s3.1 = Ok r /\ RrInput r = input /\ RrOutput r = output /\ RrStatus r = StatusCompleted /\
     RrError r = [] /\ RrGatewayKeyID r = k) /\
  (forall k', k' <> k -> k' <> uuid_Nil -> Get env' conn'' id k' s3.1 = Err RNotFound).
Proof using laws env_usable random_honest env_later.
  intros Hk HB HC Hs Hc.
  pose proof (Begin_runs env random conn Plain id q k p input w) as Hruns. rewrite HB in Hruns. simpl in Hruns.
  pose proof (runs_keyed _ _ _ Hruns Hk) as Hk1.
  pose proof (Complete_runs env random conn' Plain id output w1) as Hruns2. rewrite HC in Hruns2. simpl in Hruns2.
  pose proof (runs_keyed _ _ _ Hruns2 Hk1) as Hk2.
  apply Begin_stored in HB as (Hid & Hkey & b & Hb & Hdb).
  unfold Complete_ in HC. destruct (encryptField env random id "output" output) as [o|] eqn:Ho; [|done].
  apply only_error_ok in HC as [r HC]. apply on_db_ok in HC as [HC _].
  apply translated_ok, update_response_ok in HC as (r0 & Hr0 & _ & -> & Hdb2).
  rewrite Hdb, lookup_insert_eq in Hr0. injection Hr0 as <-.
  destruct (keeping_aged id (w2, i) s3 (touch (cn_now (conn' 0%nat)) (set_status StatusCompleted (Some (cn_now (conn' 0%nat)))
    (set_output o (set_error [] (new_row (conn 0%nat) id (Some q) k p None [] StatusInProgress false b [] [] None)))))) as (r3 & Hr3 & Ha).
  { done. } { simpl. rewrite Hdb2. simpl. apply lookup_insert_eq. } { done. }
  pose proof (ag_fixed _ _ Ha) as [= F1 F2 F3 F4 F5 F6 F7 F8]. pose proof (ag_final _ _ Ha eq_refl) as [= O1 O2 O3].
  apply field_roundtrip in Hb as [Hb _], Ho as [Ho Hne].
  split; [|intros k' Hk' Hn']; unfold Get, Repo_Get, GetResponseRecord, select_one.
  - rewrite (bool_decide_eq_false_2 (id = _)), (bool_decide_eq_false_2 (k = _)) by done. simpl.
    rewrite Hc, Hr3, F2. rewrite bool_decide_eq_true_2 by done. unfold decryptRecord.
    rewrite F1, F6, F7, Hb, O2, O3. simpl. destruct o as [|x o]; [done|]. simpl. rewrite Ho. simpl.
    eexists. split; [done|]. simpl. by rewrite F2, O1.
  - rewrite (bool_decide_eq_false_2 (id = _)), (bool_decide_eq_false_2 (k' = _)) by done. simpl.
    rewrite Hc, Hr3, F2. by rewrite bool_decide_eq_false_2 by done.
Qed.
End vault.

(** ** Idempotency keys *)

Section enqueue.
Context {aead : AEAD} (env : EnvelopeCipher) (random : UUID -> string -> nat -> result string bytes).

Definition same_key (k : UUID) (key : string) (r : EncryptedRecord) : bool :=
  (bool_decide (ErGatewayKeyID r = k) && sql_eq (ErIdempotencyKey r) key)%bool.

Lemma find_unique (t : gmap UUID EncryptedRecord) id r p :
  t !! id = Some r -> p r = true -> other_row t id p = false -> List.find p (snd <$> map_to_list t) = Some r.
Proof.
  intros Hr Hp Ho. destruct (List.find p _) as [r'|] eqn:Hf.
  - apply List.find_some in Hf as [Hin Hp']. apply list_elem_of_In, list_elem_of_fmap in Hin as ([k r0] & -> & Hin).
    apply elem_of_map_to_list in Hin. simpl in *. destruct (decide (k = id)) as [->|Hne]; [congruence|].
    assert (other_row t id p = true) by (apply other_row_spec; by exists k, r0). congruence.
  - exfalso. assert (Hin : List.In r (snd <$> map_to_list t)).
    { apply list_elem_of_In, list_elem_of_fmap. exists (id, r). split; [done|]. by apply elem_of_map_to_list. }
    pose proof (List.find_none _ _ Hf r Hin). congruence.
Qed.

Lemma encryptField_nonempty id field v b : encryptField env random id field v = Ok b -> b <> [].
Proof.
  unfold encryptField. destruct (_ || _)%bool; [done|]. destruct (Encrypt _ _ _ _) as [b'|] eqn:He; [|done]. intros [= ->].
  by apply Encrypt_sealed in He as (key & nonce & _ & _ & ->).
Qed.

(** A queued record as it reaches the repository. *)
Definition queued (id k : UUID) (p : option UUID) (key : option string) (digest input request : Bytes) : ResponseRecord :=
  draft id None k p key digest StatusQueued true input request [].

Lemma queued_encrypted id k p key digest input request e :
  encryptRecord env random (queued id k p key digest input request) = Ok e ->
  ErID e = id /\ ErGatewayKeyID e = k /\ ErIdempotencyKey e = key /\ ErRequestDigest e = digest /\
  EncryptedInput e <> [] /\ EncryptedRequest e <> [] /\
  match key with Some x => length digest = 32%nat | None => digest = [] end.
Proof.
  unfold encryptRecord. destruct (invalid_record _) eqn:Hv; [done|]. simpl.
  destruct (encryptField _ _ _ "input" _) as [b|] eqn:Hb; [|done]. apply encryptField_nonempty in Hb.
  unfold invalid_record in Hv. simpl in Hv. rewrite !orb_false_iff in Hv. destruct Hv as (((_ & _) & Hq) & Hkey).
  destruct request as [|x request]; [done|]. simpl.
  destruct (encryptField _ _ _ "request" _) as [c|] eqn:Hc; [|done]. apply encryptField_nonempty in Hc. simpl.
  intros [= <-]. simpl. split_and!; try done. destruct key as [key|].
  - apply orb_false_iff in Hkey as [Hd%negb_false_iff%bool_decide_eq_true _]. done.
  - apply negb_false_iff in Hkey. by destruct digest.
Qed.

Lemma queued_check c id k p key digest input request e :
  encryptRecord env random (queued id k p (Some key) digest input request) = Ok e ->
  response_check (new_row c (ErID e) None (ErGatewayKeyID e) (ErPreviousResponseID e) (ErIdempotencyKey e)
    (ErRequestDigest e) StatusQueued true (EncryptedInput e) (EncryptedRequest e) [] None) =
  ((1 <=? char_length key) && (char_length key <=? 200))%bool.
Proof.
  intros (_ & _ & Hk & Hd & Hi & Hq & Hl)%queued_encrypted. unfold response_check. simpl. rewrite Hk, Hd, Hl. simpl.
  destruct (EncryptedInput e); [done|]. destruct (EncryptedRequest e); [done|]. simpl. by rewrite !andb_true_r.
Qed.

(** A background response that was accepted is the only one of its key. *)
Lemma Enqueue_stored conn id k p key digest input request w r w1 :
  Enqueue env random conn id k p (Some key) digest input request w = (Ok r, w1) ->
  exists row, decryptRecord env row = Ok r /\ ErRequestDigest row = digest /\
    List.find (same_key k key) (snd <$> map_to_list (db_responses (w_db w1))) = Some row /\
    ((1 <=? char_length key) && (char_length key <=? 200))%bool = true.
Proof.
  unfold Enqueue. fold (queued id k p (Some key) digest input request).
  destruct (encryptRecord _ _ _) as [e|] eqn:He; [|done].
  pose proof (queued_encrypted _ _ _ _ _ _ _ _ He) as (Hid & Hk & Hkey & Hd & _).
  pose proof (queued_check (conn 0%nat) _ _ _ _ _ _ _ _ He) as Hcheck.
  destruct (on_db _ w) as [[row|] w'] eqn:Hdb; [|done]. intros [= Hr <-]. simpl.
  apply on_db_ok in Hdb as [Hdb _]. apply translated_ok in Hdb. unfold CreateBackgroundResponseRecord in Hdb. cbv zeta in Hdb.
  rewrite Hcheck in Hdb. destruct (cn_fault _); [done|]. destruct (_ && _)%bool; [|done]. cbn [negb] in Hdb.
  rewrite Hkey, Hk in Hdb. fold (same_key k key) in Hdb.
  destruct (List.find _ _) as [row0|] eqn:Hf.
  - rewrite Hd in Hdb. case_bool_decide as Hdig; [|done]. injection Hdb as <- <-. by exists row0.
  - apply insert_response_ok in Hdb as (-> & _ & Hdb & Hc). rewrite Hdb. simpl.
    eexists. split; [done|]. split; [done|]. split; [|done]. apply (find_unique _ (ErID e)).
    + apply lookup_insert_eq.
    + unfold same_key, sql_eq. simpl. by rewrite !bool_decide_eq_true_2 by done.
    + apply not_true_is_false. intros (a & ra & Ha & Hra & Hp)%other_row_spec.
      rewrite lookup_insert_ne in Hra by done. assert (Hin : List.In ra (snd <$> map_to_list (db_responses (w_db w)))).
      { apply list_elem_of_In, list_elem_of_fmap. exists (a, ra). split; [done|]. by apply elem_of_map_to_list. }
      pose proof (List.find_none _ _ Hf ra Hin) as Hn. simpl in Hn. congruence.
Qed.

(** A second use of the key finds the first response. *)
Lemma Enqueue_again conn id k p key digest input request w row :
  List.find (same_key k key) (snd <$> map_to_list (db_responses (w_db w))) = Some row ->
  ((1 <=? char_length key) && (char_length key <=? 200))%bool = true -> cn_fault (conn 0%nat) = None ->
  is_ok (encryptRecord env random (queued id k p (Some key) digest input request)) = true ->
  Enqueue env random conn id k p (Some key) digest input request w =
    if bool_decide (ErRequestDigest row = digest) then (decryptRecord env row, observe "queued" w) else (Err RNotFound, w).
Proof.
  intros Hf Hlen Hc Henc. unfold Enqueue. fold (queued id k p (Some key) digest input request).
  destruct (encryptRecord _ _ _) as [e|] eqn:He; [|done].
  pose proof (queued_encrypted _ _ _ _ _ _ _ _ He) as (_ & Hk & Hkey & Hd & _).
  pose proof (queued_check (conn 0%nat) _ _ _ _ _ _ _ _ He) as Hcheck.
  unfold Repo_CreateBackground, on_db, translated, CreateBackgroundResponseRecord. cbv zeta.
  rewrite Hc, Hcheck, Hlen. cbn [negb]. rewrite Hkey, Hk, Hd. unfold same_key in Hf. rewrite Hf.
  case_bool_decide; simpl; by destruct w.
Qed.

(** An idempotency key names one background response of its owner: once a
    request with the key was accepted, every later request under the key with
    the same digest is answered with that very response and stores nothing, and
    one with another digest is refused. *)
Theorem idempotency_key_names_one conn conn' id id' k p p' key digest digest' input input' request request' w r w1 :
  Enqueue env random conn id k p (Some key) digest input request w = (Ok r, w1) -> cn_fault (conn' 0%nat) = None ->
  is_ok (encryptRecord env random (queued id' k p' (Some key) digest' input' request')) = true ->
  Enqueue env random conn' id' k p' (Some key) digest' input' request' w1 =
    if bool_decide (digest' = digest) then (Ok r, observe "queued" w1) else (Err RNotFound, w1).
Proof.
  intros (row & Hr & Hd & Hf & Hl)%Enqueue_stored Hc Henc. rewrite (Enqueue_again conn' id' k p' key digest' input' request' w1 row) by done.
  rewrite Hd, Hr. destruct (decide (digest' = digest)) as [->|Hne]; [by rewrite !bool_decide_eq_true_2|].
  by rewrite !bool_decide_eq_false_2.
Qed.

(** The handler always passes the digest of the body, and without a key that is
    refused: a background response needs an idempotency key. *)
Lemma background_without_key_refused conn id k p digest input request w :
  digest <> [] -> Enqueue env random conn id k p None digest input request w = (Err RInvalidInput, w).
Proof.
  intros Hd. unfold Enqueue, encryptRecord, invalid_record. simpl. destruct digest as [|x digest]; [done|]. simpl.
  by rewrite orb_true_r.
Qed.
End enqueue.

(** ** Recovery *)

(** The columns the constraints read, the request aside. *)
Definition constrained (r : EncryptedRecord) :=
  (fixed r, ErPreviousResponseID r, ErExecutionID r, ErExecutionGeneration r, ErExecutionClaimedAt r, ErExecutionHeartbeatAt r).

(** A table as the statements leave it: the constraints hold, a background
    response has no other request than its own, and nobody else has that. *)
Record ready (db : Db) : Prop := {
  rd_keyed : keyed db;
  rd_check id r : db_responses db !! id = Some r -> response_check r = true;
  rd_clash id r : db_responses db !! id = Some r -> response_clash (db_responses db) id (set_request None r) = false;
  rd_refers id r : db_responses db !! id = Some r -> response_refers db (db_responses db) (set_request None r) = true;
  rd_back id r : db_responses db !! id = Some r -> ErBackground r = true -> ErRequestID r = None \/ ErRequestID r = Some id;
  rd_own a ra b rb : db_responses db !! a = Some ra -> db_responses db !! b = Some rb -> ErBackground rb = true ->
    ErRequestID ra = Some b -> a = b;
}.

Lemma check_constrained r r' : constrained r' = constrained r -> response_check r' = response_check r.
Proof.
  unfold constrained, fixed. intros Hs. injection Hs as _ _ E3 E4 E5 E6 E7 _ _ E10 E11 E12 E13.
  unfold response_check. by rewrite E3, E4, E5, E6, E7, E10, E11, E12, E13.
Qed.

(** A change that gives a background response its request. *)
Section attach.
Context (db : Db) (id : UUID) (r r' : EncryptedRecord).
Hypothesis db_ready : ready db.
Hypothesis r_there : db_responses db !! id = Some r.
Hypothesis r_background : ErBackground r = true.
Hypothesis request_there : is_Some (db_requests db !! id).
Hypothesis r'_same : constrained r' = constrained r.
Hypothesis r'_request : ErRequestID r' = Some id.

Lemma attach_admitted : admitted (response_constraints db) (db_responses db) id r'.
Proof using All.
  pose proof r'_same as Hs. unfold constrained, fixed in Hs. injection Hs as E1 E2 E3 E4 E5 E6 E7 E8 E9 E10 E11 E12 E13.
  split; simpl.
  - rewrite (check_constrained r r') by done. by eapply rd_check.
  - pose proof (rd_clash _ db_ready id r r_there) as Hc. unfold response_clash in *. simpl in Hc. rewrite r'_request, E2, E3, Hc.
    rewrite orb_false_r. apply not_true_is_false. intros (a & ra & Ha & Hra & Hq%bool_decide_eq_true)%other_row_spec.
    by apply Ha, (rd_own _ db_ready a ra id r).
  - pose proof (rd_refers _ db_ready id r r_there) as Hf. unfold response_refers in *. simpl in Hf.
    rewrite r'_request, E1, E2, E9, (bool_decide_eq_true_2 (is_Some (db_requests db !! id))) by done. exact Hf.
Qed.

Lemma attach_ready : ready (set_responses (<[id := r']> (db_responses db)) db).
Proof using All.
  pose proof r'_same as Hs. unfold constrained, fixed in Hs. injection Hs as E1 E2 E3 E4 E5 E6 E7 E8 E9 E10 E11 E12 E13.
  destruct db_ready as [H1 H2 H3 H4 H5 H6].
  assert (Hother : forall a p, (p r' = true -> p r = true) ->
    other_row (db_responses db) a p = false -> other_row (<[id := r']> (db_responses db)) a p = false).
  { intros a p Hp Ho. apply not_true_is_false. intros (b & rb & Hb & Hrb & Hpb)%other_row_spec.
    assert (other_row (db_responses db) a p = true); [|congruence]. apply other_row_spec.
    apply lookup_insert_Some in Hrb as [[<- <-]|[Hne Hrb]]; [exists id, r|exists b, rb]; by auto. }
  split; simpl.
  - unfold keyed. simpl. intros a ra [[<- <-]|[_ Ha]]%lookup_insert_Some; [|by apply H1]. rewrite E1. by apply H1.
  - intros a ra [[<- <-]|[_ Ha]]%lookup_insert_Some; [|by eapply H2]. rewrite (check_constrained r r') by done. by eapply H2.
  - assert (Hclash : forall a ra, db_responses db !! a = Some ra -> response_clash (<[id := r']> (db_responses db)) a (set_request None ra) = false).
    { intros a ra Ha. specialize (H3 a ra Ha). unfold response_clash in *. simpl in *. destruct (ErIdempotencyKey ra); [|done].
      apply Hother; [|done]. intros Hp. by rewrite E2, E3 in Hp. }
    intros a ra [[<- <-]|[_ Ha]]%lookup_insert_Some; [|by apply Hclash]. specialize (Hclash id r r_there).
    unfold response_clash in *. simpl in *. by rewrite E2, E3.
  - assert (Hrefers : forall a ra, db_responses db !! a = Some ra ->
      response_refers (set_responses (<[id := r']> (db_responses db)) db) (<[id := r']> (db_responses db)) (set_request None ra) = true).
    { intros a ra Ha. specialize (H4 a ra Ha). unfold response_refers in *. simpl in *.
      destruct (ErPreviousResponseID ra) as [p|]; [|done]. apply andb_true_iff in H4 as [-> Hp]. simpl.
      apply orb_true_iff in Hp as [Hp%bool_decide_eq_true| ->]; [|by rewrite orb_true_r].
      rewrite bool_decide_eq_true_2; [done|]. apply lookup_insert_is_Some. destruct (decide (id = p)); [by left|by right]. }
    intros a ra [[<- <-]|[_ Ha]]%lookup_insert_Some; [|by eapply Hrefers]. specialize (Hrefers id r r_there).
    unfold response_refers in *. simpl in *. by rewrite E1, E2, E9.
  - intros a ra [[<- <-]|[_ Ha]]%lookup_insert_Some; [by right|by eapply H5].
  - intros a ra b rb Ha Hb Hbg Hq. assert (Hb' : exists rb', db_responses db !! b = Some rb' /\ ErBackground rb' = true).
    { apply lookup_insert_Some in Hb as [[<- <-]|[_ Hb]]; [exists r|exists rb]; by rewrite ?E5 in *. }
    destruct Hb' as (rb' & Hrb' & Hbg'). apply lookup_insert_Some in Ha as [[<- <-]|[_ Ha]]; [congruence|by eapply H6].
Qed.
End attach.

Lemma update_response_does c id guard f db r :
  cn_fault c = None -> db_responses db !! id = Some r -> guard r = true ->
  admitted (response_constraints db) (db_responses db) id (touch (cn_now c) (f r)) ->
  update_response c id guard f db =
    (Ok (touch (cn_now c) (f r)), set_responses (<[id := touch (cn_now c) (f r)]> (db_responses db)) db).
Proof.
  intros Hc Hr Hg Ha. unfold update_response, on_responses, update_one. rewrite Hc, Hr, Hg.
  assert (violates (response_constraints db) (db_responses db) false id (touch (cn_now c) (f r)) = None) as ->
    by (by apply violates_None).
  done.
Qed.

Section recovery.
Context {aead : AEAD} (env : EnvelopeCipher) (random : UUID -> string -> nat -> result string bytes)
  (encode_error : string -> string -> Bytes) (conn : nat -> Conn).
Hypothesis conn_up : forall n, cn_fault (conn n) = None.
Hypothesis encrypts : forall id r, id <> uuid_Nil -> is_ok (encryptField env random id "error" (recovery_body encode_error r)) = true.

(** A background response that is not finished, and its request. *)
Definition pending (db : Db) (rq : EncryptedRecord * RequestInfo) : Prop :=
  db_responses db !! ErID rq.1 = Some rq.1 /\ ErBackground rq.1 = true /\ unfinished rq.1 = true /\
  db_requests db !! ErID rq.1 = Some rq.2 /\ ErID rq.1 <> uuid_Nil.

(** The status an ended request gives its response, by the status of the
    request and whether an output was stored. *)
Definition ended : gmap string (Status * Status) :=
  {["completed" := (StatusCompleted, StatusFailed); "failed" := (StatusFailed, StatusFailed);
    "canceled" := (StatusCanceled, StatusCanceled); "uncertain" := (StatusUncertain, StatusUncertain)]}.

Definition expected (rq : EncryptedRecord * RequestInfo) : option Status :=
  (λ ss : Status * Status, if is_nil (EncryptedOutput rq.1) then ss.2 else ss.1) <$> ended !! RqStatus rq.2.

Lemma recovered_status_expected rq : recovered_status (recovery_of rq) = expected rq.
Proof.
  unfold recovered_status, expected, ended. simpl. destruct (is_nil (EncryptedOutput rq.1)); simpl;
    repeat case_bool_decide; simplify_map_eq; try done;
    by repeat match goal with H : RqStatus rq.2 = _ |- _ => rewrite H end.
Qed.

(** What recovery makes of it. *)
Definition settled (rq : EncryptedRecord * RequestInfo) (r' : EncryptedRecord) : Prop :=
  constrained r' = constrained rq.1 /\ ErStatus r' = default (ErStatus rq.1) (expected rq) /\
  EncryptedOutput r' = EncryptedOutput rq.1 /\ ErRequestID r' = Some (ErID rq.1).

Lemma recoverOne_settles n rq w :
  ready (w_db w) -> pending (w_db w) rq ->
  exists r' w', recoverOne env random encode_error conn n (recovery_of rq) w =
      (match recovered_status (recovery_of rq) with Some _ => true | None => false end, None, w') /\
    w_db w' = set_responses (<[ErID rq.1 := r']> (db_responses (w_db w))) (w_db w) /\ ready (w_db w') /\ settled rq r'.
Proof using All.
  intros Hready (Hr & Hbg & Hun & Hq & Hnil). destruct rq as [r q]. simpl in *. set (id := ErID r) in *.
  set (r1 := touch (cn_now (conn n)) (set_request (Some id) r)).
  assert (Hreq : is_Some (db_requests (w_db w) !! id)) by (by exists q).
  assert (Ha1 : admitted (response_constraints (w_db w)) (db_responses (w_db w)) id r1) by (by eapply (attach_admitted _ _ r)).
  pose proof (attach_ready (w_db w) id r r1 Hready Hr Hbg Hreq eq_refl eq_refl) as Hready1.
  unfold recoverOne. change (ReResponseID (recovery_of (r, q))) with id.
  unfold Repo_AttachBackgroundRequest, on_db at 1, translated. unfold AttachBackgroundResponseRequest.
  rewrite (update_response_does (conn n) id _ _ _ r); [|by apply conn_up|done| |done].
  2:{ unfold request_exists. rewrite Hbg, bool_decide_eq_true_2 by done. simpl. rewrite andb_true_r.
      destruct (rd_back _ Hready id r Hr Hbg) as [-> | ->]; [done|]. simpl. unfold sql_eq. by rewrite bool_decide_eq_true_2. }
  fold r1. simpl fst. simpl snd.
  destruct (recovered_status (recovery_of (r, q))) as [s|] eqn:Hs.
  2:{ eexists r1, _. split; [done|]. split; [done|]. split; [done|]. unfold settled. rewrite <- recovered_status_expected, Hs. done. }
  assert (Henc : exists b, (if bool_decide (s = StatusCompleted) then Ok []
    else encryptField env random id "error" (recovery_body encode_error (recovery_of (r, q)))) = Ok b).
  { case_bool_decide; [by eexists|]. specialize (encrypts id (recovery_of (r, q)) Hnil).
    destruct (encryptField _ _ _ _ _); [by eexists|done]. }
  destruct Henc as (b & ->).
  set (w1 := mkWorld _ _). set (r2 := touch (cn_now (conn (S n))) (set_request (Some id) (set_status s (Some (cn_now (conn (S n)))) (set_error b r1)))).
  assert (Hr1 : db_responses (w_db w1) !! id = Some r1) by (simpl; apply lookup_insert_eq).
  assert (Ha2 : admitted (response_constraints (w_db w1)) (db_responses (w_db w1)) id r2) by (by eapply (attach_admitted _ _ r1)).
  pose proof (attach_ready (w_db w1) id r1 r2 Hready1 Hr1 Hbg Hreq eq_refl eq_refl) as Hready2.
  unfold Repo_FinalizeRecoveredBackground, on_db, translated, FinalizeRecoveredBackgroundResponse.
  rewrite (update_response_does (conn (S n)) id _ _ _ r1); [|by apply conn_up|done| |done].
  2:{ unfold request_exists. simpl. rewrite Hbg, bool_decide_eq_true_2 by done. by rewrite andb_true_r. }
  fold r2. simpl fst. simpl snd. eexists r2, _. split; [done|]. simpl. split; [|split].
  - unfold set_responses. simpl. by rewrite insert_insert_eq.
  - exact Hready2.
  - unfold settled. rewrite <- recovered_status_expected, Hs. done.
Qed.

Lemma pending_other db id r' rq :
  ErID rq.1 <> id -> pending db rq -> pending (set_responses (<[id := r']> (db_responses db)) db) rq.
Proof. intros Hne (H1 & H2). split; [|done]. simpl. by rewrite lookup_insert_ne. Qed.

Lemma recover_all_settles rqs n w :
  ready (w_db w) -> Forall (pending (w_db w)) rqs -> NoDup ((λ rq : EncryptedRecord * RequestInfo, ErID rq.1) <$> rqs) ->
  exists completed w', recover_all env random encode_error conn n (recovery_of <$> rqs) w = (completed, [], w') /\
    (forall rq, rq ∈ rqs -> exists r', db_responses (w_db w') !! ErID rq.1 = Some r' /\ settled rq r') /\
    (forall id, id ∉ (λ rq : EncryptedRecord * RequestInfo, ErID rq.1) <$> rqs ->
       db_responses (w_db w') !! id = db_responses (w_db w) !! id).
Proof using All.
  revert n w. induction rqs as [|rq rqs IH]; intros n w Hready Hp Hd.
  { exists 0, w. split_and!; [done| |done]. intros rq Hin. by apply not_elem_of_nil in Hin. }
  apply Forall_cons in Hp as [Hp Hps]. rewrite fmap_cons in Hd. apply NoDup_cons in Hd as [Hn Hd].
  destruct (recoverOne_settles n rq w Hready Hp) as (r' & w1 & Hone & Hdb & Hready1 & Hs).
  rewrite fmap_cons. cbn [recover_all]. rewrite Hone.
  destruct (IH (S (S n)) w1 Hready1) as (completed & w2 & Hall & Hsettled & Hsame); [|done|].
  { rewrite Hdb. apply Forall_forall. intros rq' Hin. rewrite Forall_forall in Hps. apply pending_other; [|by apply Hps].
    intros Heq. apply Hn. rewrite <- Heq. by apply (list_elem_of_fmap_2 (λ rq : EncryptedRecord * RequestInfo, ErID rq.1)). }
  rewrite Hall. eexists _, w2. split; [done|]. split.
  - intros rq' [->|Hin]%elem_of_cons; [|by apply Hsettled]. exists r'. split; [|done].
    rewrite Hsame by done. rewrite Hdb. simpl. apply lookup_insert_eq.
  - intros id Hid. apply not_elem_of_cons in Hid as [Hid1 Hid2]. rewrite Hsame by done. rewrite Hdb. simpl.
    by rewrite lookup_insert_ne.
Qed.

Lemma recoverable_spec db r rq :
  recoverable db r = Some rq <-> rq.1 = r /\ ErBackground r = true /\ unfinished r = true /\ db_requests db !! ErID r = Some rq.2.
Proof.
  unfold recoverable. destruct (ErBackground r && unfinished r)%bool eqn:Hg.
  - apply andb_true_iff in Hg as [-> ->]. rewrite fmap_Some. split; [intros (q & Hq & ->); done|].
    intros (<- & _ & _ & Hq). exists rq.2. by destruct rq.
  - split; [done|]. intros (_ & H1 & H2 & _). by rewrite H1, H2 in Hg.
Qed.

(** The responses recovery looks at. *)
Definition candidates (db : Db) : list (EncryptedRecord * RequestInfo) :=
  omap (recoverable db) (snd <$> map_to_list (db_responses db)).

Lemma elem_of_candidates db rq :
  keyed db -> rq ∈ candidates db <->
  db_responses db !! ErID rq.1 = Some rq.1 /\ ErBackground rq.1 = true /\ unfinished rq.1 = true /\
  db_requests db !! ErID rq.1 = Some rq.2.
Proof.
  intros Hk. unfold candidates. rewrite list_elem_of_omap. split.
  - intros (r & Hin & (Hr & H1 & H2 & H3)%recoverable_spec). subst r.
    apply list_elem_of_fmap in Hin as ([id r] & Heq & Hin%elem_of_map_to_list). simpl in Heq. rewrite Heq in *.
    rewrite (Hk id r Hin) in *. done.
  - intros (H0 & H1 & H2 & H3). exists rq.1. split; [|by apply recoverable_spec].
    apply list_elem_of_fmap. exists (ErID rq.1, rq.1). split; [done|]. by apply elem_of_map_to_list.
Qed.

Lemma candidates_NoDup db : keyed db -> NoDup ((λ rq : EncryptedRecord * RequestInfo, ErID rq.1) <$> candidates db).
Proof.
  intros Hk. unfold candidates.
  assert (Hl : Forall (λ kr : UUID * EncryptedRecord, ErID kr.2 = kr.1) (map_to_list (db_responses db))).
  { apply Forall_forall. intros [id r] Hin%elem_of_map_to_list. by apply Hk. }
  pose proof (NoDup_fst_map_to_list (db_responses db)) as Hd. revert Hl Hd.
  induction (map_to_list (db_responses db)) as [|[id r] l IH]; intros Hl Hd; [constructor|]. simpl.
  apply Forall_cons in Hl as [Hid Hl]. simpl in Hid. simpl in Hd. apply NoDup_cons in Hd as [Hn Hd].
  destruct (recoverable db r) as [rq|] eqn:Hr; [|by apply IH]. simpl. apply NoDup_cons. split; [|by apply IH].
  apply recoverable_spec in Hr as (-> & _). rewrite Hid. intros ([r2 q2] & Heq & Hin)%list_elem_of_fmap. simpl in Heq.
  apply list_elem_of_omap in Hin as (r3 & Hin & (Hr3 & _)%recoverable_spec). simpl in Hr3. subst r3.
  apply Hn. apply list_elem_of_fmap in Hin as ([id3 r3] & Heq3 & Hin3). simpl in Heq3. subst r3.
  apply list_elem_of_fmap. exists (id3, r2). split; [|done]. simpl. rewrite Forall_forall in Hl.
  specialize (Hl (id3, r2) Hin3). simpl in Hl. congruence.
Qed.

Lemma candidates_length db : (length (candidates db) <= size (db_responses db))%nat.
Proof.
  rewrite <- length_map_to_list, <- (length_fmap snd (map_to_list (db_responses db))). unfold candidates.
  generalize (snd <$> map_to_list (db_responses db)) as l. intros l. induction l as [|r l IH]; [done|].
  unfold omap in *. cbn [list_omap length]. destruct (recoverable db r); cbn [length]; lia.
Qed.

(** When the database answers, one pass of the recovery with a batch as
    large as the table settles every background response whose request has
    ended, and only those: it reports no error, an ended request gives its
    response its own outcome (completed only with a stored output, else failed),
    a response whose request still runs stays unfinished with the request
    attached, and nothing else in the table changes. *)
Theorem recovery_settles batchSize w :
  ready (w_db w) -> db_responses (w_db w) !! uuid_Nil = None -> 1 <= batchSize <= 1000 ->
  Z.of_nat (size (db_responses (w_db w))) <= batchSize ->
  exists completed w', RecoverOnce env random encode_error conn batchSize w = (completed, [], w') /\
    (forall id r q, db_responses (w_db w) !! id = Some r -> ErBackground r = true -> unfinished r = true ->
       db_requests (w_db w) !! id = Some q ->
       exists r', db_responses (w_db w') !! id = Some r' /\ settled (r, q) r') /\
    (forall id, (forall r, db_responses (w_db w) !! id = Some r -> ErBackground r = true -> unfinished r = true ->
       db_requests (w_db w) !! id = None) -> db_responses (w_db w') !! id = db_responses (w_db w) !! id).
Proof using All.
  intros Hready Hnil Hb Hsize. pose proof (rd_keyed _ Hready) as Hk. unfold RecoverOnce.
  replace ((batchSize <? 1) || (1000 <? batchSize))%bool with false by (symmetry; apply orb_false_iff; split; apply Z.ltb_ge; lia).
  unfold Repo_ListBackgroundRecoveries, ListBackgroundResponseRecoveries. rewrite conn_up. fold (candidates (w_db w)).
  assert (Hp : merge_sort recency (candidates (w_db w)) ≡ₚ candidates (w_db w)) by apply merge_sort_Permutation.
  rewrite firstn_all2 by (rewrite Hp; pose proof (candidates_length (w_db w)); lia).
  destruct (recover_all_settles (merge_sort recency (candidates (w_db w))) 1 w Hready) as (n & w' & Hall & Hset & Hsame).
  - apply Forall_forall. intros rq. rewrite Hp, elem_of_candidates by done. intros (H0 & H1 & H2 & H3).
    split_and!; try done. intros Heq. congruence.
  - rewrite Hp. by apply candidates_NoDup.
  - exists n, w'. split; [done|]. split.
    + intros id r q Hr Hbg Hun Hq. pose proof (Hk id r Hr) as <-. apply (Hset (r, q)). rewrite Hp. by apply elem_of_candidates.
    + intros id Hno. apply Hsame. rewrite Hp. intros ([r q] & -> & Hin)%list_elem_of_fmap. simpl in *.
      apply elem_of_candidates in Hin as (H0 & H1 & H2 & H3); [|done]. simpl in *. specialize (Hno r H0 H1 H2). congruence.
Qed.
End recovery.
