(* ===== verification/ResponseDemo.v ===== *)
(** * Concrete runs of the stored responses

    Small tables on which the hypotheses of the theorems of [ResponseProps] and
    [ResponseVault] hold, with a toy cipher in place of AES-GCM. *)

From S2P Require Import Prelude GoStrings Canonical Json Envelope EnvelopeProps Sql ResponseTable Responses ResponseProps ResponseVault.

Local Open Scope Z_scope.

#[local] Existing Instance demo_aead.
#[local] Existing Instance demo_aead_laws.

Definition demo_cipher : EnvelopeCipher := mkEnvelopeCipher 1 old_keys.
Definition demo_nonces (id : UUID) (field : string) (n : nat) : result string bytes := demo_random n.
Definition demo_conn (now : Z) (n : nat) : Conn := mkConn now None (λ _, false).
Definition demo_digest : Bytes := replicate 32 "d"%char.
Definition demo_db : Db := mkDb ∅ {["q" := mkRequestInfo "streaming" None None; "job" := mkRequestInfo "completed" None None]} {["key"]}.
Definition demo_world : World := mkWorld demo_db [].

Lemma demo_usable : usable demo_cipher.
Proof. split; [by eexists|done]. Qed.

Lemma demo_honest : honest demo_nonces.
Proof. by intros id field nonce [= <-]. Qed.

Lemma demo_keyed db : map_Forall (λ id r, ErID r = id) (db_responses db) -> keyed db.
Proof. done. Qed.

Ltac by_table := apply (bool_decide_unpack _); vm_compute; exact I.

(** Began at 10, completed at 20, read at 30 under the rotated cipher. *)
Definition began : World := (Begin_ demo_cipher demo_nonces (demo_conn 10) "a" "q" "key" None (chars "1") demo_world).2.
Definition finished : World := (Complete_ demo_cipher demo_nonces (demo_conn 20) "a" (chars "2") began).2.

Lemma stored_response_roundtrip_witness :
  (exists r, Get rotated (demo_conn 30) "a" "key" finished = Ok r /\ RrOutput r = chars "2") /\
  Get rotated (demo_conn 30) "a" "other" finished = Err RNotFound.
Proof.
  destruct (stored_response_roundtrip demo_cipher rotated demo_nonces demo_usable demo_honest eq_refl
    (demo_conn 10) (demo_conn 20) (demo_conn 30) "a" "q" "key" None (chars "1") (chars "2") demo_world began finished ∅
    (finished, ∅)) as [(r & Hr & _ & Ho & _) Hn].
  - apply demo_keyed. by_table.
  - vm_compute. reflexivity.
  - vm_compute. reflexivity.
  - apply rtc_refl.
  - reflexivity.
  - split; [exists r; split; [exact Hr|exact Ho]|]. apply Hn; discriminate.
Defined.

(** A background response, claimed by one worker and then by another. *)
Definition enqueued : World :=
  (Enqueue demo_cipher demo_nonces (demo_conn 10) "job" "key" None (Some "once") demo_digest (chars "1") (chars "{}") demo_world).2.
Definition without_request : World := mkWorld (mkDb (db_responses (w_db enqueued)) ∅ {["key"]}) [].
Definition claimed : World := (ClaimNext demo_cipher (demo_conn 20) "worker-1" 5 without_request).2.
Definition taken : World := (ClaimNext demo_cipher (demo_conn 90) "worker-2" 80 claimed).2.
Definition first_claim : ResponseClaim := mkResponseClaim "job" "worker-1" 1.

Lemma stale_execution_fenced_witness :
  Heartbeat (demo_conn 95) first_claim taken = (Some RFenced, taken) /\
  exists e, CompleteClaim (demo_conn 95) first_claim "job" taken = (Some e, taken).
Proof.
  destruct (stale_execution_fenced first_claim (taken, {["worker-1"; "worker-2"]}) (taken, {["worker-1"; "worker-2"]}))
    as [Hop Hhb].
  - apply demo_keyed. by_table.
  - by_table.
  - intros r Hr. vm_compute in Hr. injection Hr as <-. vm_compute. reflexivity.
  - apply rtc_refl.
  - split; [apply Hhb; reflexivity|]. apply (Hop (CompleteClaim (demo_conn 95) first_claim "job")). constructor.
Defined.

(** A cancellation after the completion changes nothing. *)
Lemma finished_response_is_final_witness :
  exists r r', db_responses (w_db finished) !! "a" = Some r /\ terminal r = true /\
    db_responses (w_db (FailStored demo_cipher demo_nonces (demo_conn 40) "a" (chars "3") finished).2) !! "a" = Some r' /\
    outcome r' = outcome r.
Proof.
  destruct (db_responses (w_db finished) !! "a") as [r|] eqn:Hr; [|vm_compute in Hr; discriminate].
  destruct (finished_response_is_final "a" (finished, ∅)
    ((FailStored demo_cipher demo_nonces (demo_conn 40) "a" (chars "3") finished).2, ∅) r) as (r' & Hr' & _ & _ & _ & Hf).
  - apply demo_keyed. by_table.
  - exact Hr.
  - apply rtc_once. split; [constructor|]. vm_compute. eexists. reflexivity.
  - assert (Ht : terminal r = true) by (vm_compute in Hr; injection Hr as <-; reflexivity).
    exists r, r'. split; [reflexivity|]. split; [exact Ht|]. split; [exact Hr'|]. apply Hf. exact Ht.
Defined.

Lemma idempotency_key_names_one_witness :
  exists r, Enqueue demo_cipher demo_nonces (demo_conn 50) "again" "key" None (Some "once") demo_digest (chars "1")
    (chars "{}") enqueued = (Ok r, observe "queued" enqueued) /\ RrID r = "job".
Proof.
  destruct ((Enqueue demo_cipher demo_nonces (demo_conn 10) "job" "key" None (Some "once") demo_digest (chars "1") (chars "{}")
    demo_world).1) as [r|] eqn:Hr; [|vm_compute in Hr; discriminate].
  exists r. split; [|vm_compute in Hr; injection Hr as <-; reflexivity].
  rewrite (idempotency_key_names_one demo_cipher demo_nonces (demo_conn 10) (demo_conn 50) "job" "again" "key" None None "once"
    demo_digest demo_digest (chars "1") (chars "1") (chars "{}") (chars "{}") demo_world r enqueued).
  - vm_compute. reflexivity.
  - rewrite <- Hr. unfold enqueued. apply surjective_pairing.
  - reflexivity.
  - vm_compute. reflexivity.
Defined.

(** The worker died after its request was completed. *)
Definition orphaned : World := mkWorld (mkDb (db_responses (w_db claimed)) (db_requests demo_db) {["key"]}) [].
Definition demo_encode (code_ message : string) : Bytes := chars "0".

Lemma orphaned_ready : ready (w_db orphaned).
Proof.
  split.
  - apply demo_keyed. by_table.
  - change (map_Forall (λ _ r, response_check r = true) (db_responses (w_db orphaned))). by_table.
  - change (map_Forall (λ id r, response_clash (db_responses (w_db orphaned)) id (set_request None r) = false)
      (db_responses (w_db orphaned))). by_table.
  - change (map_Forall (λ _ r, response_refers (w_db orphaned) (db_responses (w_db orphaned)) (set_request None r) = true)
      (db_responses (w_db orphaned))). by_table.
  - change (map_Forall (λ id r, ErBackground r = true -> ErRequestID r = None \/ ErRequestID r = Some id)
      (db_responses (w_db orphaned))). by_table.
  - assert (H : map_Forall (λ a ra, map_Forall (λ b rb, ErBackground rb = true -> ErRequestID ra = Some b -> a = b)
      (db_responses (w_db orphaned))) (db_responses (w_db orphaned))) by by_table.
    intros a ra b rb Ha Hb. apply (H a ra Ha b rb Hb).
Qed.

Lemma recovery_settles_witness :
  exists completed w' r', RecoverOnce demo_cipher demo_nonces demo_encode (demo_conn 99) 10 orphaned = (completed, [], w') /\
    db_responses (w_db w') !! "job" = Some r' /\ ErStatus r' = StatusFailed.
Proof.
  destruct (recovery_settles demo_cipher demo_nonces demo_encode (demo_conn 99)) with (batchSize := 10) (w := orphaned)
    as (completed & w' & Hrec & Hset & _).
  - reflexivity.
  - intros id r Hid. unfold encryptField. rewrite bool_decide_eq_false_2 by exact Hid. reflexivity.
  - apply orphaned_ready.
  - vm_compute. reflexivity.
  - lia.
  - vm_compute. discriminate.
  - destruct (db_responses (w_db orphaned) !! "job") as [r|] eqn:Hr; [|vm_compute in Hr; discriminate].
    destruct (Hset "job" r (mkRequestInfo "completed" None None) Hr) as (r' & Hr' & _ & Hst & _).
    1-2: vm_compute in Hr; injection Hr as <-; reflexivity.
    1: vm_compute; reflexivity.
    exists completed, w', r'. split; [exact Hrec|]. split; [exact Hr'|]. rewrite Hst.
    vm_compute in Hr. injection Hr as <-. reflexivity.
Defined.

(** An error of encrypting the request is lost when there is an output too:
    the record is accepted without its request. *)
Lemma lost_request :
  exists e, encryptRecord demo_cipher demo_nonces
    (mkResponseRecord "a" None "key" None None [] StatusQueued false (chars "1") (chars "no JSON") (chars "2") [] None None 0 0) = Ok e /\
    EncryptedRequest e = [].
Proof. eexists. split; vm_compute; reflexivity. Qed.
