(* ===== verification/ChatParse.v ===== *)
(** * Parsing public requests

    Models [src/internal/protocol/chat.go] and [responses_parse.go]: the chat
    and Responses requests of the public API, turned into canonical requests.

    Decoding a JSON text into a Go value of a given type is an argument
    ([Decoders]): a decoder reads one value from the front of the input and
    answers it with what is left, an [Unmarshal] takes the whole text.
    [json.Valid] is that of [Json]. *)

From stdpp Require Import pretty.
From S2P Require Import Prelude GoStrings Canonical Capabilities Wire ProviderCatalog ResponseStream Json.

Local Open Scope Z_scope.

(** ** The wire records of chat.go *)

Record wireToolFunction := mkWireToolFunction {
  WfName : string;
  WfDescription : string;
  WfParameters : string;
  WfStrict : option bool;
}.
Record wireTool := mkWireTool { WtType : string; WtFunction : wireToolFunction }.
Record wireToolCall := mkWireToolCall { WcID : string; WcType : string; WcName : string; WcArguments : string }.

Record wireMessage := mkWireMessage {
  WmRole : string;
  WmName : string;
  WmPartial : bool;
  WmContent : string;
  WmToolCalls : list wireToolCall;
  WmToolCallID : string;
  WmReasoningContent : string;
}.

Record wireSchema := mkWireSchema { WsName : string; WsDescription : string; WsSchema : string; WsStrict : option bool }.
Record wireFormat := mkWireFormat { WrfType : string; WrfSchema : option wireSchema }.
Record wireThinking := mkWireThinking { WkType : string; WkClear : option bool; WkKeep : string }.

Record wireChat := mkWireChat {
  WhModel : string;
  WhMessages : list wireMessage;
  WhTools : list wireTool;
  WhToolChoice : string;
  WhParallelToolCalls : option bool;
  WhStream : bool;
  WhStreamOptions : option (option bool);
  WhMaxTokens : option Z;
  WhMaxOutputTokens : option Z;
  WhN : option Z;
  WhTemperature : option Q;
  WhTopP : option Q;
  WhTopK : option Q;
  WhPresencePenalty : option Q;
  WhFrequencyPenalty : option Q;
  WhThinkingBudget : option Z;
  WhStop : string;
  WhResponseFormat : option wireFormat;
  WhReasoningEffort : string;
  WhThinking : option wireThinking;
  WhPromptCacheKey : string;
  WhSafetyIdentifier : string;
}.

(** An element of a content array; the URL and detail of an image. *)
Record wirePart := mkWirePart {
  WpType : string;
  WpText : string;
  WpImage : option (string * string);
  WpVideo : option string;
}.

(** ** The wire records of responses_parse.go *)

Record wireResponseTool := mkWireResponseTool {
  WqType : string;
  WqName : string;
  WqDescription : string;
  WqParameters : string;
  WqStrict : option bool;
}.

Record responseInputItem := mkInputItem {
  IiType : string;
  IiRole : string;
  IiContent : string;
  IiCallID : string;
  IiName : string;
  IiArguments : string;
  IiOutput : string;
}.

Record wireResponses := mkWireResponses {
  WnModel : string;
  WnInput : string;
  WnInstructions : string;
  WnTools : list wireResponseTool;
  WnToolChoice : string;
  WnStream : bool;
  WnStore : option bool;
  WnBackground : bool;
  WnPreviousResponseID : string;
  WnMaxOutputTokens : option Z;
  WnTemperature : option Q;
  WnTopP : option Q;
  WnReasoning : option string;
  WnText : option wireFormat;
}.

(** An item of a stored output: content and summary are parts with a type and
    a text. *)
Record storedItem := mkStoredItem {
  SiType : string;
  SiRole : string;
  SiCallID : string;
  SiName : string;
  SiArguments : string;
  SiContent : list (string * string);
  SiSummary : list (string * string);
}.

Record Decoders := mkDecoders {
  dc_chat : string -> result GoError (wireChat * string);
  dc_responses : string -> result GoError (wireResponses * string);
  dc_trailing : string -> option GoError;
  dc_string : string -> result GoError string;
  dc_parts : string -> result GoError (list wirePart);
  dc_object : string -> result GoError bool;
  dc_named : string -> result GoError (string * string);
  dc_named_response : string -> result GoError (string * string);
  dc_strings : string -> result GoError (list string);
  dc_items : string -> result GoError (list responseInputItem);
  dc_text_parts : string -> result GoError (list (string * string));
  dc_output : string -> result GoError (list storedItem);
}.

(** ** Helpers *)

Definition invalid (code_ message parameter : string) (cause : option GoError) : Error :=
  mkError ErrorInvalidRequest code_ message parameter "" "" "" "" "" 400 None false cause.

(** [io.LimitReader] *)
Fixpoint limit (n : Z) (s : string) : string :=
  match s with
  | EmptyString => EmptyString
  | String c s' => if n <=? 0 then EmptyString else String c (limit (n - 1) s')
  end.

Definition maxBody : Z := 8 * 2 ^ 20.

(** [len(raw) == 0 || bytes.Equal(bytes.TrimSpace(raw), []byte("null"))] *)
Definition absent (raw : string) : bool := (bool_decide (raw = "") || bool_decide (TrimSpace raw = "null"))%bool.

Definition valid_text (raw : string) : bool := Valid (chars raw).

Definition role_of_string (s : string) : Role :=
  if bool_decide (s = "system") then RoleSystem else if bool_decide (s = "developer") then RoleDeveloper
  else if bool_decide (s = "user") then RoleUser else if bool_decide (s = "assistant") then RoleAssistant
  else if bool_decide (s = "tool") then RoleTool else RoleOther s.

Definition part_of_string (s : string) : ContentPartType :=
  if bool_decide (s = "text") then ContentPartText else if bool_decide (s = "image_url") then ContentPartImageURL
  else if bool_decide (s = "video_url") then ContentPartVideoURL else ContentPartOther s.

Definition below (v : option Q) (bound : Q) : bool := match v with Some x => negb (Qle_bool bound x) | None => false end.
Definition above (v : option Q) (bound : Q) : bool := match v with Some x => negb (Qle_bool x bound) | None => false end.
Definition at_most (v : option Q) (bound : Q) : bool := match v with Some x => Qle_bool x bound | None => false end.
Definition under_one (v : option Z) : bool := match v with Some x => x <? 1 | None => false end.

(** The parameter of an error in the element of a list. *)
Definition nested (field : string) (index : Z) (e : Error) : Error :=
  with_parameter e (field +:+ "." +:+ pretty index +:+ "." +:+ Parameter_ e).

(** A [for] loop that parses each element or stops at the first error. *)
Fixpoint parse_each {A B} (field : string) (parse : A -> result Error B) (index : Z) (items : list A) : result Error (list B) :=
  match items with
  | [] => Ok []
  | item :: items' =>
      match parse item with
      | Err e => Err (nested field index e)
      | Ok b => match parse_each field parse (index + 1) items' with Err e => Err e | Ok bs => Ok (b :: bs) end
      end
  end.

Section parsing.
Variable dc : Decoders.

(** Which penalty the range over the map visits first. *)
Variable presence_first : bool.

Definition penalty (parameter : string) (v : option Q) : option Error :=
  if (below v (-2) || above v 2)%bool
  then Some (invalid "invalid_penalty" (parameter +:+ " must be between -2 and 2") parameter None) else None.

Definition validateSampling (r : ChatRequest) : option Error :=
  if under_one (MaxOutputTokens r) then
    Some (invalid "invalid_max_tokens" "max output tokens must be positive" "max_completion_tokens" None)
  else if under_one (N_ r) then Some (invalid "invalid_n" "n must be positive" "n" None)
  else if below (TopK r) 0 then Some (invalid "invalid_top_k" "top_k must not be negative" "top_k" None)
  else if under_one (ThinkingBudget r) then
    Some (invalid "invalid_thinking_budget" "thinking_budget must be positive" "thinking_budget" None)
  else if (below (Temperature r) 0 || above (Temperature r) 2)%bool then
    Some (invalid "invalid_temperature" "temperature must be between 0 and 2" "temperature" None)
  else if (at_most (TopP r) 0 || above (TopP r) 1)%bool then
    Some (invalid "invalid_top_p" "top_p must be greater than 0 and at most 1" "top_p" None)
  else
    let presence := penalty "presence_penalty" (PresencePenalty r) in
    let frequency := penalty "frequency_penalty" (FrequencyPenalty r) in
    let '(a, b) := if presence_first then (presence, frequency) else (frequency, presence) in
    match a with Some e => Some e | None => b end.

(** ** chat.go *)

Definition content_parameter (index : Z) (rest : string) : string := "content." +:+ pretty index +:+ "." +:+ rest.

Definition parsePart (index : Z) (part : wirePart) : result Error ContentPart :=
  match part_of_string (WpType part) with
  | ContentPartText => Ok (mkContentPart ContentPartText (WpText part) None None)
  | ContentPartImageURL =>
      match WpImage part with
      | Some (url, detail) =>
          if bool_decide (url = "") then
            Err (invalid "invalid_image_url" "image_url content requires a URL" (content_parameter index "image_url.url") None)
          else Ok (mkContentPart ContentPartImageURL "" (Some (mkImageURL url detail)) None)
      | None => Err (invalid "invalid_image_url" "image_url content requires a URL" (content_parameter index "image_url.url") None)
      end
  | ContentPartVideoURL =>
      match WpVideo part with
      | Some url =>
          if bool_decide (url = "") then
            Err (invalid "invalid_video_url" "video_url content requires a URL" (content_parameter index "video_url.url") None)
          else Ok (mkContentPart ContentPartVideoURL "" None (Some (mkVideoURL url)))
      | None => Err (invalid "invalid_video_url" "video_url content requires a URL" (content_parameter index "video_url.url") None)
      end
  | ContentPartOther _ =>
      Err (invalid "unsupported_content_part" "content part type is not supported" (content_parameter index "type") None)
  end.

Fixpoint parseParts (index : Z) (parts : list wirePart) : result Error (list ContentPart) :=
  match parts with
  | [] => Ok []
  | part :: parts' =>
      match parsePart index part with
      | Err e => Err e
      | Ok p => match parseParts (index + 1) parts' with Err e => Err e | Ok ps => Ok (p :: ps) end
      end
  end.

Definition parseContent (raw : string) : result Error (list ContentPart) :=
  match dc_string dc raw with
  | Ok text => Ok (TextContent text)
  | Err _ =>
      let unsupported cause := Err (invalid "unsupported_content" "content must be text or supported content parts" "content" cause) in
      match dc_parts dc raw with
      | Err err => unsupported (Some err)
      | Ok [] => unsupported None
      | Ok parts => parseParts 0 parts
      end
  end.

Fixpoint parseCalls (calls : list wireToolCall) : result Error (list ToolCall) :=
  match calls with
  | [] => Ok []
  | call :: calls' =>
      if (bool_decide (WcID call = "") || negb (bool_decide (WcType call = "function")) || bool_decide (WcName call = "") ||
          negb (valid_text (WcArguments call)))%bool
      then Err (invalid "invalid_tool_call" "assistant tool call is invalid" "tool_calls" None)
      else
        match parseCalls calls' with
        | Err e => Err e
        | Ok rest => Ok (mkToolCall (WcID call) (WcType call) (mkToolFunctionCall (WcName call) (WcArguments call)) :: rest)
        end
  end.

Definition is_other (r : Role) : bool := match r with RoleOther _ => true | _ => false end.

Definition parseMessage (item : wireMessage) : result Error ChatMessage :=
  let role := role_of_string (WmRole item) in
  if is_other role then Err (invalid "invalid_role" "message role is invalid" "role" None)
  else
    match (if absent (WmContent item) then Ok [] else parseContent (WmContent item)) with
    | Err e => Err e
    | Ok content =>
        match parseCalls (WmToolCalls item) with
        | Err e => Err e
        | Ok calls =>
            let reasoning :=
              if bool_decide (WmReasoningContent item = "") then None else Some (mkReasoningContent (WmReasoningContent item)) in
            let parsed := mkMessage role (WmName item) content (WmPartial item) calls (WmToolCallID item) reasoning in
            if (bool_decide (role = RoleTool) && bool_decide (WmToolCallID item = ""))%bool then
              Err (invalid "missing_tool_call_id" "tool message requires tool_call_id" "tool_call_id" None)
            else if (WmPartial item && negb (bool_decide (role = RoleAssistant)))%bool then
              Err (invalid "invalid_partial_message" "partial is only valid on an assistant message" "partial" None)
            else
              match content, calls, reasoning with
              | [], [], None =>
                  Err (invalid "empty_message" "message must contain text, reasoning, or tool calls" "content" None)
              | _, _, _ => Ok parsed
              end
        end
    end.

Definition parseTool (item : wireTool) : result Error ToolDefinition :=
  let f := WtFunction item in
  if (negb (bool_decide (WtType item = "function")) || bool_decide (WfName f = "") || negb (valid_text (WfParameters f)))%bool
  then Err (invalid "invalid_tool" "tool definition is invalid" "function" None)
  else
    let refused cause := Err (invalid "invalid_tool_schema" "tool parameters must be a JSON object" "function.parameters" cause) in
    match dc_object dc (WfParameters f) with
    | Err err => refused (Some err)
    | Ok false => refused None
    | Ok true => Ok (mkToolDefinition (WfName f) (WfDescription f) (WfParameters f) (WfStrict f))
    end.

Definition schemaObject (raw : string) : bool := match dc_object dc raw with Ok b => b | Err _ => false end.

Definition refusedChoice (message : string) (cause : option GoError) : result Error (option ToolChoice) :=
  Err (invalid "invalid_tool_choice" message "tool_choice" cause).

(** [parseToolChoice] and [parseResponseToolChoice] differ in the decoder of a
    named choice. *)
Definition choiceOf (named : string -> result GoError (string * string)) (raw : string) : result Error (option ToolChoice) :=
  if absent raw then Ok None
  else
    match dc_string dc raw with
    | Ok mode =>
        match mode_of_string mode with
        | (ToolChoiceNone | ToolChoiceAuto | ToolChoiceRequired) as m => Ok (Some (mkToolChoice m ""))
        | _ => refusedChoice "tool_choice mode is invalid" None
        end
    | Err _ =>
        match named raw with
        | Err err => refusedChoice "named tool_choice is invalid" (Some err)
        | Ok (type, name) =>
            if (negb (bool_decide (type = "function")) || bool_decide (name = ""))%bool
            then refusedChoice "named tool_choice is invalid" None
            else Ok (Some (mkToolChoice ToolChoiceFunction name))
        end
    end.

Definition parseToolChoice : string -> result Error (option ToolChoice) := choiceOf (dc_named dc).
Definition parseResponseToolChoice : string -> result Error (option ToolChoice) := choiceOf (dc_named_response dc).

Definition parseStop (raw : string) : result Error (list string) :=
  if absent raw then Ok []
  else
    match dc_string dc raw with
    | Ok one => Ok [one]
    | Err _ =>
        let refused cause := Err (invalid "invalid_stop" "stop must be a string or at most four strings" "stop" cause) in
        match dc_strings dc raw with
        | Err err => refused (Some err)
        | Ok many => if 4 <? Z.of_nat (length many) then refused None else Ok many
        end
    end.

Definition parseFormat (format : option wireFormat) : result Error (option ResponseFormat) :=
  match format with
  | None => Ok None
  | Some f =>
      if bool_decide (WrfType f = "text") then Ok (Some (mkResponseFormat ResponseFormatText None))
      else if bool_decide (WrfType f = "json_object") then Ok (Some (mkResponseFormat ResponseFormatJSONObject None))
      else if bool_decide (WrfType f = "json_schema") then
        let refused :=
          Err (invalid "invalid_json_schema" "response_format.json_schema requires a name and one JSON object schema"
                 "response_format.json_schema" None) in
        match WrfSchema f with
        | None => refused
        | Some s =>
            if (bool_decide (WsName s = "") || negb (schemaObject (WsSchema s)))%bool then refused
            else
              Ok (Some (mkResponseFormat ResponseFormatJSONSchema
                          (Some (mkJSONSchema (WsName s) (WsDescription s) (WsSchema s) (WsStrict s)))))
        end
      else Err (invalid "unsupported_response_format" "response_format.type is not supported" "response_format.type" None)
  end.

Definition parseThinking (effort : string) (thinking : option wireThinking) : result Error (option ReasoningConfig) :=
  match thinking with
  | None => Ok (if bool_decide (effort = "") then None else Some (mkReasoningConfig None (effort_of_string effort) None))
  | Some t =>
      let enabled :=
        if bool_decide (WkType t = "enabled") then Some true else if bool_decide (WkType t = "disabled") then Some false else None in
      match enabled with
      | None => Err (invalid "invalid_thinking" "thinking.type must be enabled or disabled" "thinking.type" None)
      | Some b =>
          if (match WkClear t with Some _ => true | None => false end && negb (bool_decide (WkKeep t = "")))%bool then
            Err (invalid "ambiguous_thinking_preserve" "thinking.keep and thinking.clear_thinking cannot be combined" "thinking" None)
          else if (negb (bool_decide (WkKeep t = "")) && negb (bool_decide (WkKeep t = "all")))%bool then
            Err (invalid "invalid_thinking_keep" "thinking.keep must be all" "thinking.keep" None)
          else
            let preserve := if bool_decide (WkKeep t = "") then negb <$> WkClear t else Some true in
            Ok (Some (mkReasoningConfig (Some b) (effort_of_string effort) preserve))
      end
  end.

(** The request before its messages, tools and options are parsed. *)
Definition chat_base (requestID : string) (w : wireChat) (streamUsage : option bool) : ChatRequest :=
  mkChatRequest requestID (WhModel w) [] [] None (WhParallelToolCalls w) (WhStream w) streamUsage
    (match WhMaxOutputTokens w with Some m => Some m | None => WhMaxTokens w end) (WhN w) (WhTemperature w) (WhTopP w) (WhTopK w)
    (WhPresencePenalty w) (WhFrequencyPenalty w) (WhThinkingBudget w) [] None None (WhPromptCacheKey w) (WhSafetyIdentifier w).

Definition chat_filled (r : ChatRequest) (messages : list ChatMessage) (tools : list ToolDefinition) (choice : option ToolChoice)
    (stop : list string) (format : option ResponseFormat) (reasoning : option ReasoningConfig) : ChatRequest :=
  mkChatRequest (CrRequestID r) (CrModel r) messages tools choice (ParallelToolCalls r) (Stream_ r) (StreamUsage_ r)
    (MaxOutputTokens r) (N_ r) (Temperature r) (TopP r) (TopK r) (PresencePenalty r) (FrequencyPenalty r) (ThinkingBudget r) stop
    format reasoning (PromptCacheKey r) (SafetyIdentifier r).

Definition conflicting (w : wireChat) : bool :=
  match WhMaxTokens w, WhMaxOutputTokens w with Some a, Some b => negb (a =? b) | _, _ => false end.

(** [ParseChatRequest] once the body is decoded. *)
Definition parse_chat (requestID : string) (w : wireChat) : result Error ChatRequest :=
  if bool_decide (WhModel w = "") then Err (invalid "missing_model" "model is required" "model" None)
  else
    match WhMessages w with
    | [] => Err (invalid "missing_messages" "messages must not be empty" "messages" None)
    | _ =>
        if (match WhStreamOptions w with Some _ => true | None => false end && negb (WhStream w))%bool then
          Err (invalid "stream_options_without_stream" "stream_options requires stream=true" "stream_options" None)
        else if conflicting w then
          Err (invalid "conflicting_max_tokens" "max_tokens and max_completion_tokens disagree" "max_completion_tokens" None)
        else
          let base := chat_base requestID w (match WhStreamOptions w with Some u => u | None => None end) in
          match validateSampling base with
          | Some e => Err e
          | None =>
              let? messages := parse_each "messages" parseMessage 0 (WhMessages w) in
              let? tools := parse_each "tools" parseTool 0 (WhTools w) in
              let? choice := parseToolChoice (WhToolChoice w) in
              let? stop := parseStop (WhStop w) in
              let? format := parseFormat (WhResponseFormat w) in
              let? reasoning := parseThinking (WhReasoningEffort w) (WhThinking w) in
              Ok (chat_filled base messages tools choice stop format reasoning)
          end
    end.

(** One value, then only white space up to the limit. *)
Definition decoded {A} (decode : string -> result GoError (A * string)) (what body : string) : result Error A :=
  match decode (limit maxBody body) with
  | Err err => Err (invalid "invalid_json" what "" (Some err))
  | Ok (wire, rest) =>
      if only_json_space rest then Ok wire
      else Err (invalid "invalid_json" "request body must contain exactly one JSON object" "" (dc_trailing dc rest))
  end.

Definition ParseChatRequest (body requestID : string) : result Error ChatRequest :=
  let? w := decoded (dc_chat dc) "request body must be one valid JSON object" body in parse_chat requestID w.
End parsing.

(** * Parsing Responses requests and stored conversations

    Models [src/internal/protocol/responses_parse.go]: a Responses request
    turned into a canonical one, its input items into messages, and a stored
    exchange (input and presented output) back into the messages it was. *)

Section parsing.
Variable dc : Decoders.

(** ** Input items *)

Fixpoint joinParts (parts : list (string * string)) : result GoError string :=
  match parts with
  | [] => Ok ""
  | (type, text) :: parts' =>
      if (negb (bool_decide (type = "input_text")) && negb (bool_decide (type = "output_text")))%bool
      then Err (OtherError ("unsupported content type " +:+ type))
      else match joinParts parts' with Err e => Err e | Ok rest => Ok (text +:+ rest) end
  end.

Definition responseContentText (raw : string) : result GoError string :=
  match dc_string dc raw with
  | Ok text => Ok text
  | Err _ => match dc_text_parts dc raw with Err err => Err err | Ok parts => joinParts parts end
  end.

Definition plain_message (role : Role) (content : list ContentPart) : ChatMessage := mkMessage role "" content false [] "" None.

Definition function_call (callID name arguments : string) : ToolCall :=
  mkToolCall callID "function" (mkToolFunctionCall name arguments).

(** A call that can be replayed. *)
Definition callable (callID name arguments : string) : bool :=
  (negb (bool_decide (callID = "")) && negb (bool_decide (name = "")) && valid_text arguments)%bool.

Definition is_tool_or_other (r : Role) : bool := match r with RoleTool | RoleOther _ => true | _ => false end.

Definition parseResponseInputItem (item : responseInputItem) : result Error ChatMessage :=
  if (bool_decide (IiType item = "") || bool_decide (IiType item = "message"))%bool then
    let role := role_of_string (IiRole item) in
    if is_tool_or_other role then Err (invalid "invalid_role" "message role is invalid" "role" None)
    else
      let unsupported cause := Err (invalid "unsupported_content" "only text Responses input is supported" "content" cause) in
      match responseContentText (IiContent item) with
      | Err err => unsupported (Some err)
      | Ok text => if bool_decide (text = "") then unsupported None else Ok (plain_message role (TextContent text))
      end
  else if bool_decide (IiType item = "function_call") then
    if callable (IiCallID item) (IiName item) (IiArguments item)
    then Ok (mkMessage RoleAssistant "" [] false [function_call (IiCallID item) (IiName item) (IiArguments item)] "" None)
    else Err (invalid "invalid_function_call" "function call replay is invalid" "" None)
  else if bool_decide (IiType item = "function_call_output") then
    if bool_decide (IiCallID item = "")
    then Err (invalid "invalid_function_output" "function output requires call_id" "call_id" None)
    else
      match responseContentText (IiOutput item) with
      | Err err => Err (invalid "unsupported_function_output" "only text function output is supported" "output" (Some err))
      | Ok text => Ok (mkMessage RoleTool "" (TextContent text) false [] (IiCallID item) None)
      end
  else Err (invalid "unsupported_input_item" "input item type is not supported" "type" None).

Definition parseResponseInput (raw : string) : result Error (list ChatMessage) :=
  if absent raw then Err (invalid "missing_input" "input is required" "input" None)
  else
    match dc_string dc raw with
    | Ok text =>
        if bool_decide (text = "") then Err (invalid "empty_input" "input must not be empty" "input" None)
        else Ok [plain_message RoleUser (TextContent text)]
    | Err _ =>
        let refused cause :=
          Err (invalid "invalid_input" "input must be text or a non-empty input item array" "input" cause) in
        match dc_items dc raw with
        | Err err => refused (Some err)
        | Ok [] => refused None
        | Ok items => parse_each "input" parseResponseInputItem 0 items
        end
    end.

(** ** The request *)

Fixpoint parseResponseTools (index : Z) (tools : list wireResponseTool) : result Error (list ToolDefinition) :=
  match tools with
  | [] => Ok []
  | item :: tools' =>
      if (negb (bool_decide (WqType item = "function")) || bool_decide (WqName item = "") ||
          negb (valid_text (WqParameters item)))%bool
      then Err (invalid "invalid_tool" "only valid function tools are supported" ("tools." +:+ pretty index) None)
      else
        match parseResponseTools (index + 1) tools' with
        | Err e => Err e
        | Ok rest => Ok (mkToolDefinition (WqName item) (WqDescription item) (WqParameters item) (WqStrict item) :: rest)
        end
  end.

Definition parseTextFormat (text : option wireFormat) : result Error (option ResponseFormat) :=
  match text with
  | None => Ok None
  | Some f =>
      if bool_decide (WrfType f = "text") then Ok (Some (mkResponseFormat ResponseFormatText None))
      else if bool_decide (WrfType f = "json_object") then Ok (Some (mkResponseFormat ResponseFormatJSONObject None))
      else Err (invalid "unsupported_text_format" "text.format.type is not supported" "text.format.type" None)
  end.

Definition instructed (instructions : string) (messages : list ChatMessage) : list ChatMessage :=
  if bool_decide (instructions = "") then messages
  else plain_message RoleDeveloper (TextContent instructions) :: messages.

Definition responses_base (requestID : string) (w : wireResponses) (messages : list ChatMessage) : ChatRequest :=
  mkChatRequest requestID (WnModel w) messages [] None None (WnStream w) (if WnStream w then Some true else None)
    (WnMaxOutputTokens w) None (WnTemperature w) (WnTopP w) None None None None [] None None "" "".

Definition responseReasoning (effort : option string) : option ReasoningConfig :=
  match effort with
  | Some e => if bool_decide (e = "") then None else Some (mkReasoningConfig None (effort_of_string e) None)
  | None => None
  end.

(** [ParseResponsesRequest] once the body is decoded.  The request has no
    penalties, so the order in which they are checked is immaterial. *)
Definition parse_responses (requestID : string) (w : wireResponses) : result Error ResponsesRequest :=
  if bool_decide (WnModel w = "") then Err (invalid "missing_model" "model is required" "model" None)
  else if (WnBackground w && WnStream w)%bool then
    Err (invalid "unsupported_background_stream" "background streaming is not supported" "stream" None)
  else
    let? messages := parseResponseInput (WnInput w) in
    let base := responses_base requestID w (instructed (WnInstructions w) messages) in
    match validateSampling true base with
    | Some e => Err e
    | None =>
        let? tools := parseResponseTools 0 (WnTools w) in
        let? choice := parseResponseToolChoice dc (WnToolChoice w) in
        let? format := parseTextFormat (WnText w) in
        Ok (mkResponsesRequest (chat_filled base (Messages base) tools choice [] format (responseReasoning (WnReasoning w)))
              (WnInstructions w) (WnPreviousResponseID w) (default true (WnStore w)) (WnBackground w) (WnInput w))
    end.

Definition ParseResponsesRequest (body requestID : string) : result Error ResponsesRequest :=
  let? w := decoded dc (dc_responses dc) "request body must be one valid Responses object" body in parse_responses requestID w.

(** ** Stored conversations *)

Definition add_summary (m : ChatMessage) (summary : string * string) : ChatMessage :=
  if bool_decide (summary.1 = "summary_text") then
    let before := match MsReasoning m with Some r => RcText r | None => "" end in
    mkMessage (MsRole m) (MsName m) (MsContent m) (MsPartial m) (MsToolCalls m) (MsToolCallID m)
      (Some (mkReasoningContent (before +:+ summary.2)))
  else m.

Definition add_content (m : ChatMessage) (part : string * string) : ChatMessage :=
  if bool_decide (part.1 = "output_text") then
    mkMessage (MsRole m) (MsName m) (MsContent m ++ TextContent part.2) (MsPartial m) (MsToolCalls m) (MsToolCallID m) (MsReasoning m)
  else m.

Definition add_call (m : ChatMessage) (call : ToolCall) : ChatMessage :=
  mkMessage (MsRole m) (MsName m) (MsContent m) (MsPartial m) (MsToolCalls m ++ [call]) (MsToolCallID m) (MsReasoning m).

(** One item of the stored output. *)
Definition add_item (m : ChatMessage) (item : storedItem) : ChatMessage :=
  if bool_decide (SiType item = "reasoning") then foldl add_summary m (SiSummary item)
  else if bool_decide (SiType item = "message") then
    if bool_decide (SiRole item = "assistant") then foldl add_content m (SiContent item) else m
  else if bool_decide (SiType item = "function_call") then
    if callable (SiCallID item) (SiName item) (SiArguments item)
    then add_call m (function_call (SiCallID item) (SiName item) (SiArguments item)) else m
  else m.

Definition says_something (m : ChatMessage) : bool :=
  match MsContent m, MsToolCalls m, MsReasoning m with [], [], None => false | _, _, _ => true end.

Definition StoredResponseMessages (input output : string) : result Error (list ChatMessage) :=
  let? messages := parseResponseInput input in
  match dc_output dc output with
  | Err err => Err (invalid "stored_response_invalid" "previous response output is invalid" "previous_response_id" (Some err))
  | Ok items =>
      let assistant := foldl add_item (plain_message RoleAssistant []) items in
      Ok (if says_something assistant then messages ++ [assistant] else messages)
  end.
End parsing.
