(* ===== verification/Present.v ===== *)
(** * Presentation of chat responses, streams and errors

    Models [src/internal/protocol/present.go].  A JSON object is a record with
    the fields the code sets; constant fields are left out and a field that is
    set on some path only is an option.  [Marshal] is an argument where the text
    of a value matters. *)

From stdpp Require Import pretty.
From S2P Require Import Prelude GoStrings Canonical Capabilities Workflow ResponseStream.

Local Open Scope Z_scope.

Definition PublicProvider : string := "llm2api".

(** ** Responses *)

Record PresentedMessage := mkPresentedMessage {
  PmRole : Role;
  PmContent : string;
  PmReasoning : option string;
  PmToolCalls : option (list ToolCall);
}.

Record ChatUsage := mkChatUsage {
  CuPrompt : option Z;
  CuCompletion : option Z;
  CuTotal : option Z;
  CuCached : option Z;
  CuReasoning : option Z;
}.

Record PresentedChat := mkPresentedChat {
  PhId : string;
  PhCreated : Z;
  PhModel : string;
  PhChoices : list (Z * PresentedMessage * FinishReason);
  PhUsage : option ChatUsage;
}.

Definition presentMessage (m : ChatMessage) : PresentedMessage :=
  mkPresentedMessage (MsRole m) (messageText (MsContent m)) (RcText <$> MsReasoning m)
    (match MsToolCalls m with [] => None | calls => Some calls end).

Definition presentUsage (u : ReportedUsage) : ChatUsage :=
  mkChatUsage (RuInputTokens u) (RuOutputTokens u) (RuTotalTokens u) (RuCachedInputTokens u) (RuReasoningTokens u).

Definition PresentChatResponse (r : ChatResponse) : PresentedChat :=
  mkPresentedChat (RsID r) (Unix (RsCreatedAt r)) (RsModel r)
    ((λ c, (CcIndex c, presentMessage (CcMessage c), CcFinishReason c)) <$> RsChoices r) (presentUsage <$> RsUsage r).

(** ** Stream events *)

Record Delta := mkDelta {
  DlRole : option Role;
  DlContent : option string;
  DlReasoning : option string;
  DlToolCall : option ToolCallDelta;
}.

Record Chunk := mkChunk {
  CkId : string;
  CkCreated : Z;
  CkModel : string;
  CkChoices : list (Z * Delta * option FinishReason);
  CkUsage : option ChatUsage;
}.

Definition delta_of_event (e : StreamEvent) : Delta :=
  match SeType e with
  | StreamMessageStart => mkDelta (Some (SeRole e)) None None None
  | StreamContentDelta => mkDelta None (Some (SeContentDelta e)) None None
  | StreamReasoningDelta => mkDelta None None (Some (SeReasoningDelta e)) None
  | StreamToolCallDelta => mkDelta None None None (SeToolCallDelta e)
  | _ => mkDelta None None None None
  end.

Definition PresentStreamEvent (now : Z) (e : StreamEvent) : Chunk :=
  let finish := match SeType e with StreamFinish => Some (SeFinishReason e) | _ => None end in
  let choice := (SeChoiceIndex e, delta_of_event e, finish) in
  match SeType e, SeUsage e with
  | StreamUsageEvent, Some usage => mkChunk (SeCompletionID e) (Unix now) (SeModel e) [] (Some (presentUsage usage))
  | _, _ => mkChunk (SeCompletionID e) (Unix now) (SeModel e) [choice] None
  end.

(** ** Errors *)

Record ErrorEnvelope := mkErrorEnvelope {
  EvMessage : string;
  EvType : string;
  EvParam : string;
  EvCode : string;
  EvModel : string;
  EvProvider : string;
  EvCapability : string;
  EvRequestID : string;
}.

Definition publicUpstreamError (kind : ErrorKind) : string * string :=
  match kind with
  | ErrorAuthentication => ("model_authentication_failed", "the selected model is temporarily unavailable")
  | ErrorPermission => ("model_access_denied", "the selected model is not currently accessible")
  | ErrorQuota => ("model_capacity_exhausted", "the selected model has no available upstream capacity")
  | ErrorRateLimit => ("model_rate_limited", "the selected model is temporarily rate limited")
  | ErrorInvalidRequest => ("model_request_rejected", "the selected model rejected the request")
  | ErrorUnsupportedCapability =>
      ("model_capability_unsupported", "the selected model cannot represent the requested capability")
  | ErrorProviderConfiguration => ("model_service_unavailable", "the selected model is temporarily unavailable")
  | ErrorProviderTemporary => ("model_service_temporarily_unavailable", "the selected model service is temporarily unavailable")
  | ErrorProviderPermanent => ("model_request_failed", "the selected model could not complete the request")
  | ErrorStreamInterrupted => ("model_stream_interrupted", "the model stream was interrupted")
  | ErrorUncertain => ("model_outcome_uncertain", "the model request outcome is uncertain")
  | _ => ("model_request_failed", "the selected model request failed")
  end.

Definition PresentError (requestID : string) (e : Error) : ErrorEnvelope :=
  let '(shownCode, message) :=
    if (negb (bool_decide (Provider e = "")) && bool_decide (Capability_ e = ""))%bool
    then publicUpstreamError (Kind e) else (Code e, Message e) in
  mkErrorEnvelope message (kind_string (Kind e)) (Parameter_ e) shownCode (EModel e) PublicProvider (Capability_ e) requestID.

(** The envelope without its request identifier. *)
Definition PresentErrorDetail (e : Error) : ErrorEnvelope := PresentError "" e.

Definition statusForError (kind : ErrorKind) : Z :=
  match kind with
  | ErrorInvalidRequest | ErrorUnsupportedCapability => 400
  | ErrorAuthentication => 401
  | ErrorPermission => 403
  | ErrorQuota => 402
  | ErrorAdmissionTimeout | ErrorRateLimit => 429
  | ErrorProviderTemporary | ErrorStorageUnavailable => 503
  | ErrorProviderConfiguration | ErrorProviderPermanent => 502
  | ErrorUncertain => 409
  | ErrorStreamInterrupted => 502
  | ErrorInternalInvariant => 500
  end.

(** The Retry-After header: seconds, or the time it formats. *)
Inductive RetryHeader := RetrySeconds (n : Z) | RetryDate (at_ : Z).

Record ErrorReply := mkErrorReply { EpStatus : Z; EpRetryAfter : option RetryHeader; EpBody : ErrorEnvelope }.

Definition retry_header (r : option RetryAfter) : option RetryHeader :=
  match r with
  | Some (mkRetryAfter (Some n) _) => Some (RetrySeconds n)
  | Some (mkRetryAfter None (Some at_)) => Some (RetryDate at_)
  | _ => None
  end.

Definition WriteError (requestID : string) (e : Error) : ErrorReply :=
  let status := if ((HTTPStatus e <? 400) || (599 <? HTTPStatus e))%bool then statusForError (Kind e) else HTTPStatus e in
  mkErrorReply status (retry_header (RetryAfter_ e)) (PresentError requestID e).

(** ** Frames of an event stream *)

Definition newline : string := String (byte 10) "".

Definition data_frame (encoded : string) : string := "data: " +:+ encoded +:+ newline +:+ newline.

(** The bytes [WriteSSE] and [WriteNamedSSE] write of an encoded value, and
    [WriteSSEDone]. *)
Definition WriteSSE (encoded : string) : string := data_frame encoded.
Definition WriteNamedSSE (name encoded : string) : string := "event: " +:+ name +:+ newline +:+ data_frame encoded.
Definition WriteSSEDone : string := data_frame "[DONE]".
