(* ===== verification/ProtocolProps.v ===== *)
(** * The requests the public parsers let through

    Every request [ParseChatRequest] or [ParseResponsesRequest] accepts is well
    formed, and every refusal is an error of the client that names no
    provider. *)

From Stdlib Require Import QArith Lqa.
From S2P Require Import Prelude GoStrings Canonical Capabilities Json Wire ProviderCatalog ResponseStream ChatParse.

Local Open Scope Z_scope.

(** ** Well-formed requests *)

Definition wf_part (p : ContentPart) : Prop :=
  match CpType p with
  | ContentPartText => CpImageURL p = None /\ CpVideoURL p = None
  | ContentPartImageURL => CpVideoURL p = None /\ exists i, CpImageURL p = Some i /\ ImURL i <> ""
  | ContentPartVideoURL => CpImageURL p = None /\ exists v, CpVideoURL p = Some v /\ ViURL v <> ""
  | ContentPartOther _ => False
  end.

Record wf_call (c : ToolCall) : Prop := {
  wc_id : TcID c <> "";
  wc_type : TcType c = "function";
  wc_name : TfName (TcFunction c) <> "";
  wc_arguments : valid_text (TfArguments (TcFunction c)) = true;
}.

Record wf_message (m : ChatMessage) : Prop := {
  wm_role : is_other (MsRole m) = false;
  wm_parts : Forall wf_part (MsContent m);
  wm_calls : Forall wf_call (MsToolCalls m);
  wm_tool : MsRole m = RoleTool -> MsToolCallID m <> "";
  wm_partial : MsPartial m = true -> MsRole m = RoleAssistant;
  wm_says : says_something m = true;
}.

Record wf_tool (t : ToolDefinition) : Prop := {
  wt_name : TdName t <> "";
  wt_parameters : valid_text (TdParameters t) = true;
}.

Definition wf_choice (c : ToolChoice) : Prop :=
  match Mode c with
  | ToolChoiceNone | ToolChoiceAuto | ToolChoiceRequired => ChFunctionName c = ""
  | ToolChoiceFunction => ChFunctionName c <> ""
  | ToolChoiceOther _ => False
  end.

Definition wf_format (f : ResponseFormat) : Prop :=
  match RfType f with
  | ResponseFormatText | ResponseFormatJSONObject => RfJSONSchema f = None
  | ResponseFormatJSONSchema => exists s, RfJSONSchema f = Some s /\ JsName s <> ""
  | ResponseFormatOther _ => False
  end.

Definition opt {A} (P : A -> Prop) (o : option A) : Prop := match o with Some a => P a | None => True end.

Record sampled (r : ChatRequest) : Prop := {
  sm_max : opt (λ n, 1 <= n) (MaxOutputTokens r);
  sm_n : opt (λ n, 1 <= n) (N_ r);
  sm_budget : opt (λ n, 1 <= n) (ThinkingBudget r);
  sm_top_k : opt (λ x, 0 <= x)%Q (TopK r);
  sm_temperature : opt (λ x, 0 <= x <= 2)%Q (Temperature r);
  sm_top_p : opt (λ x, 0 < x <= 1)%Q (TopP r);
  sm_presence : opt (λ x, -2 <= x <= 2)%Q (PresencePenalty r);
  sm_frequency : opt (λ x, -2 <= x <= 2)%Q (FrequencyPenalty r);
}.

Record wf_request (requestID : string) (r : ChatRequest) : Prop := {
  wr_id : CrRequestID r = requestID;
  wr_model : CrModel r <> "";
  wr_some : Messages r <> [];
  wr_messages : Forall wf_message (Messages r);
  wr_tools : Forall wf_tool (Tools r);
  wr_choice : opt wf_choice (ToolChoice_ r);
  wr_stop : (length (Stop r) <= 4)%nat;
  wr_format : opt wf_format (ResponseFormat_ r);
  wr_usage : StreamUsage_ r <> None -> Stream_ r = true;
  wr_sampled : sampled r;
}.

(** An error of the client, shown to it as it is. *)
Record refusal (e : Error) : Prop := {
  rf_kind : Kind e = ErrorInvalidRequest;
  rf_status : HTTPStatus e = 400;
  rf_provider : Provider e = "";
  rf_code : Code e <> "";
}.

(** ** Verdicts of the parsers *)

Definition verdict {A} (P : A -> Prop) (r : result Error A) : Prop :=
  match r with Ok a => P a | Err e => refusal e end.

Lemma refusal_invalid c m p cause : c <> "" -> refusal (invalid c m p cause).
Proof. by split. Qed.

Lemma refusal_nested f i e : refusal e -> refusal (nested f i e).
Proof. by intros [H1 H2 H3 H4]. Qed.

#[export] Hint Resolve refusal_invalid refusal_nested : core.

(** Refusals with a literal code. *)
Ltac refuse := simpl; apply refusal_invalid; discriminate.

Lemma verdict_bind {A B} (P : A -> Prop) (Q : B -> Prop) m k :
  verdict P m -> (forall a, P a -> verdict Q (k a)) -> verdict Q (let? a := m in k a).
Proof. intros Hm Hk. destruct m as [a|e]; simpl in *; [by apply Hk|done]. Qed.

Lemma verdict_mono {A} (P Q : A -> Prop) m : verdict P m -> (forall a, P a -> Q a) -> verdict Q m.
Proof. destruct m; simpl; auto. Qed.

Lemma verdict_each {A B} (P : B -> Prop) field (parse : A -> result Error B) items :
  (forall a, verdict P (parse a)) -> forall index,
  verdict (λ bs, Forall P bs /\ length bs = length items) (parse_each field parse index items).
Proof.
  intros Hp. induction items as [|a items IH]; intros index; simpl; [by split|].
  pose proof (Hp a) as Ha. destruct (parse a) as [b|e]; simpl in *; [|by apply refusal_nested].
  specialize (IH (index + 1)). destruct (parse_each _ _ _ _) as [bs|e]; simpl in *; [|done].
  destruct IH as [H1 H2]. split; [by constructor|by rewrite H2].
Qed.

(** ** Sampling *)

Lemma below_spec v b : below v b = false -> opt (λ x, b <= x)%Q v.
Proof. destruct v as [x|]; simpl; [|done]. intros H%negb_false_iff. by apply Qle_bool_iff. Qed.

Lemma above_spec v b : above v b = false -> opt (λ x, x <= b)%Q v.
Proof. destruct v as [x|]; simpl; [|done]. intros H%negb_false_iff. by apply Qle_bool_iff. Qed.

Lemma at_most_spec v b : at_most v b = false -> opt (λ x, b < x)%Q v.
Proof. destruct v as [x|]; simpl; [|done]. intros H. apply Qnot_le_lt. intros Hle%Qle_bool_iff. congruence. Qed.

Lemma under_one_spec v : under_one v = false -> opt (λ n, 1 <= n) v.
Proof. destruct v as [x|]; simpl; [lia|done]. Qed.

Lemma opt_and {A} (P Q : A -> Prop) o : opt P o -> opt Q o -> opt (λ a, P a /\ Q a) o.
Proof. by destruct o. Qed.

Lemma penalty_spec p v : penalty p v = None -> opt (λ x, -2 <= x <= 2)%Q v.
Proof.
  unfold penalty. destruct (below v (-2)) eqn:H1, (above v 2) eqn:H2; try discriminate. intros _.
  by apply opt_and; [apply below_spec|apply above_spec].
Qed.

Lemma penalty_refuses p v e : penalty p v = Some e -> refusal e.
Proof. unfold penalty. destruct (_ || _)%bool; [|done]. intros [= <-]. refuse. Qed.

Lemma validateSampling_spec first r :
  match validateSampling first r with None => sampled r | Some e => refusal e end.
Proof.
  unfold validateSampling. destruct (under_one (MaxOutputTokens r)) eqn:?; [refuse|].
  destruct (under_one (N_ r)) eqn:?; [refuse|]. destruct (below (TopK r) 0) eqn:?; [refuse|].
  destruct (under_one (ThinkingBudget r)) eqn:?; [refuse|].
  destruct (below (Temperature r) 0) eqn:?; [refuse|]. destruct (above (Temperature r) 2) eqn:?; [refuse|].
  destruct (at_most (TopP r) 0) eqn:?; [refuse|]. destruct (above (TopP r) 1) eqn:?; [refuse|]. simpl.
  destruct (penalty "presence_penalty" _) as [e|] eqn:Hp; destruct (penalty "frequency_penalty" _) as [e'|] eqn:Hf;
    destruct first; simpl; eauto using penalty_refuses.
  all: split; first [by apply under_one_spec | by apply below_spec | by eapply penalty_spec
    | by apply opt_and; [apply below_spec|apply above_spec] | by apply opt_and; [apply at_most_spec|apply above_spec]].
Qed.

(** ** Parts of a request *)

Section parsers.
Variable dc : Decoders.

Lemma parsePart_wf index part : verdict wf_part (parsePart index part).
Proof.
  unfold parsePart. destruct (part_of_string _); simpl; [done| | |refuse].
  - destruct (WpImage part) as [[url detail]|]; [|refuse]. case_bool_decide; [refuse|]. simpl. split; [done|]. eauto.
  - destruct (WpVideo part) as [url|]; [|refuse]. case_bool_decide; [refuse|]. simpl. split; [done|]. eauto.
Qed.

Lemma parseParts_wf parts index : verdict (Forall wf_part) (parseParts index parts).
Proof.
  revert index. induction parts as [|p parts IH]; intros index; simpl; [constructor|].
  eapply verdict_bind; [apply parsePart_wf|]. intros b Hb. eapply verdict_bind; [apply IH|]. simpl. eauto.
Qed.

Lemma wf_TextContent text : Forall wf_part (TextContent text).
Proof. by repeat constructor. Qed.

Lemma parseContent_wf raw : verdict (Forall wf_part) (parseContent dc raw).
Proof.
  unfold parseContent. destruct (dc_string dc raw); [apply wf_TextContent|].
  destruct (dc_parts dc raw) as [[|p parts]|]; [refuse|apply parseParts_wf|refuse].
Qed.

Lemma parseCalls_wf calls : verdict (Forall wf_call) (parseCalls calls).
Proof.
  induction calls as [|c calls IH]; simpl; [constructor|].
  destruct (bool_decide (WcID c = "")) eqn:H1; [refuse|]. destruct (bool_decide (WcType c = "function")) eqn:H2; [|refuse].
  destruct (bool_decide (WcName c = "")) eqn:H3; [refuse|]. destruct (valid_text _) eqn:H4; [|refuse]. simpl.
  eapply verdict_bind; [apply IH|]. simpl. intros cs Hcs. constructor; [|done].
  split; simpl; try done; [by eapply bool_decide_eq_false|by eapply bool_decide_eq_true|by eapply bool_decide_eq_false].
Qed.

Lemma parseMessage_wf item : verdict wf_message (parseMessage dc item).
Proof.
  unfold parseMessage. destruct (is_other _) eqn:Hrole; [refuse|].
  apply verdict_bind with (P := Forall wf_part);
    [destruct (absent _); [constructor|apply parseContent_wf]|].
  intros content Hcontent. eapply verdict_bind; [apply parseCalls_wf|]. intros calls Hcalls.
  destruct (bool_decide (role_of_string (WmRole item) = RoleTool) && _)%bool eqn:Htool; [refuse|].
  destruct (WmPartial item && _)%bool eqn:Hpartial; [refuse|].
  set (reasoning := if bool_decide (WmReasoningContent item = "") then None else _).
  set (m := mkMessage _ _ _ _ _ _ _).
  assert (Hm : says_something m = true -> wf_message m).
  { intros Hsays. split; try done.
    - intros Hr Hid. simpl in *. rewrite Hr, Hid in Htool. done.
    - simpl. intros Hp. rewrite Hp in Hpartial. by apply negb_false_iff, bool_decide_eq_true in Hpartial. }
  destruct content as [|c cs], calls as [|d ds], reasoning as [x|]; simpl; first [refuse | by apply Hm].
Qed.

Lemma parseTool_wf item : verdict wf_tool (parseTool dc item).
Proof.
  unfold parseTool. destruct (bool_decide (WtType item = _)); [|refuse].
  destruct (bool_decide (WfName _ = "")) eqn:Hn; [refuse|]. destruct (valid_text _) eqn:Hv; [|refuse]. simpl.
  destruct (dc_object _ _) as [[]|]; [|refuse|refuse]. split; [|done]. by eapply bool_decide_eq_false.
Qed.

Lemma choiceOf_wf named raw : verdict (opt wf_choice) (choiceOf dc named raw).
Proof.
  unfold choiceOf. destruct (absent raw); [done|]. destruct (dc_string dc raw) as [mode|].
  - destruct (mode_of_string mode); first [done | refuse].
  - destruct (named raw) as [[type name]|]; [|refuse]. destruct (bool_decide (type = _)); [|refuse].
    case_bool_decide; [refuse|done].
Qed.

Lemma parseStop_wf raw : verdict (λ l, (length l <= 4)%nat) (parseStop dc raw).
Proof.
  unfold parseStop. destruct (absent raw); [simpl; lia|]. destruct (dc_string dc raw); [simpl; lia|].
  destruct (dc_strings dc raw) as [many|]; [|refuse]. destruct (4 <? _) eqn:Hl; [refuse|simpl; lia].
Qed.

Lemma parseFormat_wf f : verdict (opt wf_format) (parseFormat dc f).
Proof.
  unfold parseFormat. destruct f as [f|]; [|done]. do 2 (case_bool_decide; [done|]). case_bool_decide; [|refuse].
  destruct (WrfSchema f) as [s|]; [|refuse]. case_bool_decide; [refuse|]. destruct (schemaObject _ _); [|refuse].
  simpl. unfold wf_format. simpl. eauto.
Qed.

Lemma parseThinking_refuses effort t : verdict (λ _, True) (parseThinking effort t).
Proof. unfold parseThinking. repeat first [done | refuse | case_match]. Qed.

Lemma decoded_refuses {A} (decode : string -> result GoError (A * string)) what body :
  verdict (λ _, True) (decoded dc decode what body).
Proof. unfold decoded. destruct (decode _) as [[w rest]|]; [|refuse]. destruct (only_json_space rest); [done|refuse]. Qed.

Lemma sampled_filled r ms ts c st f re : sampled r -> sampled (chat_filled r ms ts c st f re).
Proof. by intros []. Qed.

Lemma wf_filled requestID r ms ts c st f re :
  CrRequestID r = requestID -> CrModel r <> "" -> ms <> [] -> Forall wf_message ms -> Forall wf_tool ts ->
  opt wf_choice c -> (length st <= 4)%nat -> opt wf_format f -> (StreamUsage_ r <> None -> Stream_ r = true) -> sampled r ->
  wf_request requestID (chat_filled r ms ts c st f re).
Proof. intros. by split; try apply sampled_filled. Qed.

(** ** Whole requests *)

Lemma parse_chat_wf first requestID w : verdict (wf_request requestID) (parse_chat dc first requestID w).
Proof.
  unfold parse_chat. case_bool_decide as Hmodel; [refuse|]. destruct (WhMessages w) as [|m0 ms0] eqn:Hms; [refuse|].
  rewrite <- Hms. assert (Hne : length (WhMessages w) <> 0%nat) by (by rewrite Hms). clear Hms.
  set (usage := match WhStreamOptions w with Some u => u | None => None end).
  destruct (_ && negb (WhStream w))%bool eqn:Hstream; [refuse|]. destruct (conflicting w); [refuse|]. cbv zeta.
  assert (Husage : usage <> None -> WhStream w = true).
  { intros Hu. unfold usage in Hu. destruct (WhStreamOptions w); [|done]. by apply negb_false_iff in Hstream. }
  pose proof (validateSampling_spec first (chat_base requestID w usage)) as Hs.
  destruct (validateSampling _ _) as [e|]; [done|].
  eapply verdict_bind; [apply verdict_each, parseMessage_wf|]. intros ms [Hms Hlen].
  eapply verdict_bind; [apply verdict_each, parseTool_wf|]. intros ts [Hts _].
  eapply verdict_bind; [apply choiceOf_wf|]. intros c Hc. eapply verdict_bind; [apply parseStop_wf|]. intros st Hst.
  eapply verdict_bind; [apply parseFormat_wf|]. intros f Hf. eapply verdict_bind; [apply parseThinking_refuses|].
  intros re _. apply wf_filled; try done. by intros ->.
Qed.

Lemma wf_plain role text :
  is_tool_or_other role = false -> wf_message (plain_message role (TextContent text)).
Proof. intros Hr. destruct role; try discriminate; split; try done; by repeat constructor. Qed.

Lemma parseResponseInputItem_wf item : verdict wf_message (parseResponseInputItem dc item).
Proof.
  unfold parseResponseInputItem. destruct (_ || _)%bool; [|case_bool_decide; [|case_bool_decide; [|refuse]]].
  - destruct (is_tool_or_other _) eqn:Hr; [refuse|]. destruct (responseContentText _ _) as [text|]; [|refuse].
    case_bool_decide; [refuse|]. by apply wf_plain.
  - destruct (callable _ _ _) eqn:Hc; [|refuse]. unfold callable in Hc. apply andb_true_iff in Hc as [Hc Hv].
    apply andb_true_iff in Hc as [H1%negb_true_iff H2%negb_true_iff].
    apply bool_decide_eq_false in H1, H2. split; try done. by repeat constructor.
  - case_bool_decide as Hid; [refuse|]. destruct (responseContentText _ _) as [text|]; [|refuse].
    split; try done. by repeat constructor.
Qed.

Lemma parseResponseInput_wf raw : verdict (λ ms, Forall wf_message ms /\ ms <> []) (parseResponseInput dc raw).
Proof.
  unfold parseResponseInput. destruct (absent raw); [refuse|]. destruct (dc_string dc raw) as [text|].
  - case_bool_decide; [refuse|]. split; [|done]. constructor; [|constructor]. by apply wf_plain.
  - destruct (dc_items dc raw) as [[|i items]|]; [refuse| |refuse].
    eapply verdict_mono; [apply verdict_each, parseResponseInputItem_wf|]. intros ms [H1 H2]. split; [done|]. by intros ->.
Qed.

Lemma parseResponseTools_wf tools index : verdict (Forall wf_tool) (parseResponseTools index tools).
Proof.
  revert index. induction tools as [|t tools IH]; intros index; simpl; [constructor|].
  destruct (bool_decide (WqType t = _)); [|refuse]. destruct (bool_decide (WqName t = "")) eqn:Hn; [refuse|].
  destruct (valid_text _) eqn:Hv; [|refuse]. simpl. eapply verdict_bind; [apply IH|]. simpl. intros ts Hts.
  constructor; [|done]. split; [|done]. by eapply bool_decide_eq_false.
Qed.

Lemma parseTextFormat_wf f : verdict (opt wf_format) (parseTextFormat f).
Proof. unfold parseTextFormat. destruct f as [f|]; [|done]. do 2 (case_bool_decide; [done|]). refuse. Qed.

Lemma instructed_wf i ms : Forall wf_message ms /\ ms <> [] -> Forall wf_message (instructed i ms) /\ instructed i ms <> [].
Proof.
  intros [H1 H2]. unfold instructed. case_bool_decide; [done|]. split; [|done]. constructor; [|done]. by apply wf_plain.
Qed.

(** What [ParseResponsesRequest] accepts: a well-formed request, with streaming
    only in the foreground and always with usage. *)
Record wf_responses (requestID : string) (q : ResponsesRequest) : Prop := {
  wq_chat : wf_request requestID (ReChat q);
  wq_foreground : ReBackground q = true -> Stream_ (ReChat q) = false;
  wq_usage : Stream_ (ReChat q) = true -> StreamUsage_ (ReChat q) = Some true;
  wq_instructions : ReInstructions q <> "" ->
    head (Messages (ReChat q)) = Some (plain_message RoleDeveloper (TextContent (ReInstructions q)));
}.

Lemma parse_responses_wf requestID w : verdict (wf_responses requestID) (parse_responses dc requestID w).
Proof.
  unfold parse_responses. case_bool_decide as Hmodel; [refuse|]. destruct (WnBackground w && WnStream w)%bool eqn:Hbg; [refuse|].
  eapply verdict_bind; [apply parseResponseInput_wf|]. intros ms Hms%(instructed_wf (WnInstructions w)). cbv zeta.
  pose proof (validateSampling_spec true (responses_base requestID w (instructed (WnInstructions w) ms))) as Hs.
  destruct (validateSampling _ _) as [e|]; [done|]. destruct Hms as [Hms Hne].
  eapply verdict_bind; [apply parseResponseTools_wf|]. intros ts Hts.
  eapply verdict_bind; [apply choiceOf_wf|]. intros c Hc. eapply verdict_bind; [apply parseTextFormat_wf|]. intros f Hf.
  split; simpl.
  - apply wf_filled; try done; [simpl; lia|]. simpl. by destruct (WnStream w).
  - intros Hb. by rewrite Hb in Hbg.
  - by intros ->.
  - intros Hi. unfold instructed. by rewrite bool_decide_eq_false_2.
Qed.
End parsers.

(** C21.  Whatever the body and however it is decoded, a request that
    [ParseChatRequest] or [ParseResponsesRequest] accepts is well formed: it
    has a model and messages; every message has a known role and says
    something, its parts are supported and carry their URLs, its calls can be
    replayed; tools, tool choice, stop sequences, output format and sampling
    parameters are in range.  Every other body is refused as an error of the
    client that names no provider. *)
Theorem parsed_requests_well_formed dc first body requestID :
  verdict (wf_request requestID) (ParseChatRequest dc first body requestID) /\
  verdict (wf_responses requestID) (ParseResponsesRequest dc body requestID).
Proof.
  split; unfold ParseChatRequest, ParseResponsesRequest; (eapply verdict_bind; [apply decoded_refuses|]); intros w _;
    [apply parse_chat_wf|apply parse_responses_wf].
Qed.
