(* ===== verification/PublicApi.v ===== *)
(** * The public API

    Models the handlers of [src/internal/publicapi]: authentication
    ([auth.go]), chat completions ([chat.go]), stored responses
    ([responses.go]) and the catalogue of models ([models.go]), over the
    parsers of [ChatParse] and [ChatParse], the presentation of [Present]
    and [ResponseStream] and the service of [Responses].

    A handler answers with a [Reply], the status, headers and body it writes.
    The workflow is an argument: it takes a command and the database to a
    result and the database it leaves, whatever ran meanwhile.  So are
    [uuid.Parse], [sha256.Sum256] and [json.Marshal]. *)

From stdpp Require Import pretty.
From S2P Require Import Prelude GoStrings Canonical Capabilities Effects Json Envelope Sse Sql ResponseTable Responses ResponseStream ChatParse Present.

Local Open Scope Z_scope.

(** ** Requests and replies *)

(** What a handler reads: the body as read up to the limit and one byte, the
    header [Idempotency-Key], the path parameter, and the query. *)
Record PublicRequest := mkPublicRequest {
  PqRequestID : string;
  PqBody : result GoError string;
  PqIdempotencyKey : string;
  PqResponseID : string;
  PqLimit : string;
  PqOrder : string;
  PqAfter : string;
}.

(** An input item: its [id], which may be any JSON value or missing, and the
    rest of the object. *)
Inductive IdValue := IdText (s : string) | IdOther (raw : string).
Record InputItem := mkInputItem { InId : option IdValue; InRest : string }.

#[export] Instance IdValue_eq_dec : EqDecision IdValue.
Proof. solve_decision. Defined.

Record Page := mkPage {
  PgData : list InputItem;
  PgFirst : option IdValue;
  PgLast : option IdValue;
  PgHasMore : bool;
}.

(** An entry of the catalogue: nothing of the provider is in it. *)
Record PublicModel := mkPublicModel {
  MpId : string;
  MpCreated : Z;
  MpCapabilities : ModelCapabilities;
  MpConfigurable : bool;
}.

Inductive Reply :=
| ReplyError (e : ErrorReply)
| ReplyUnauthorized (e : ErrorReply)
| ReplyChat (gatewayRequest : UUID) (body : PresentedChat)
| ReplyResponse (gatewayRequest : option UUID) (body : PresentedResponse)
| ReplyStored (body : Bytes)
| ReplyState (id status : string) (error : Bytes)
| ReplyDeleted (id : string)
| ReplyPage (page : Page)
| ReplyModels (models : list PublicModel)
| ReplyProblem (status : Z) (problem requestID : string)
| ReplyChatStream (command : ChatCommand)
| ReplyResponseStream (request : ResponsesRequest) (command : ChatCommand) (previous : option UUID).

Definition refuse (q : PublicRequest) (e : Error) : Reply := ReplyError (WriteError (PqRequestID q) e).

Definition client_error (code message parameter : string) (status : Z) : Error :=
  mkError ErrorInvalidRequest code message parameter "" "" "" "" "" status None false None.

Definition storage_error (code message : string) (cause : option GoError) : Error :=
  mkError ErrorStorageUnavailable code message "" "" "" "" "" "" 0 None false cause.

Definition invariant_error (code message : string) (cause : option GoError) : Error :=
  mkError ErrorInternalInvariant code message "" "" "" "" "" "" 0 None false cause.

(** ** auth.go *)

(** [strings.Cut(s, " ")] *)
Fixpoint cut_space (s : string) : option (string * string) :=
  match s with
  | EmptyString => None
  | String c s' =>
      if decide (c = byte 32) then Some ("", s')
      else match cut_space s' with Some (a, b) => Some (String c a, b) | None => None end
  end.

Definition lower_ascii (c : ascii) : ascii := if between 65 90 (code c) then byte (Z.to_N (code c + 32)) else c.
Fixpoint lower (s : string) : string :=
  match s with EmptyString => EmptyString | String c s' => String (lower_ascii c) (lower s') end.

(** [strings.EqualFold(s, "Bearer")]: no letter of it has another fold than its
    two cases. *)
Definition is_bearer (s : string) : bool := bool_decide (lower s = "bearer").

Definition authenticationError : Error :=
  mkError ErrorAuthentication "invalid_api_key" "invalid API key" "" "" "" "" "" "" 401 None false None.

(** The secret of an Authorization header. *)
Definition bearer_secret (authorization : string) : option string :=
  match cut_space (TrimSpace authorization) with
  | None => None
  | Some (scheme, secret) =>
      if (negb (is_bearer scheme) || bool_decide (TrimSpace secret = ""))%bool then None else Some (TrimSpace secret)
  end.

(** The gateway key and user a request acts for. *)
Record GatewayPrincipal := mkGatewayPrincipal { GpKeyID : UUID; GpUserID : UUID }.

Definition authenticate (lookup : string -> result GoError GatewayPrincipal) (requestID authorization : string)
    (next : GatewayPrincipal -> Reply) : Reply :=
  match bearer_secret authorization with
  | None => ReplyUnauthorized (WriteError requestID authenticationError)
  | Some secret =>
      match lookup secret with
      | Err _ => ReplyUnauthorized (WriteError requestID authenticationError)
      | Ok principal => next principal
      end
  end.

(** ** chat.go *)

Definition maxPublicRequestBytes : Z := 4 * 2 ^ 20.

Definition request_too_large : Error := client_error "request_too_large" "request body exceeds the configured limit" "" 413.

Definition readBody (q : PublicRequest) : result Error string :=
  match PqBody q with
  | Err _ => Err request_too_large
  | Ok body => if maxPublicRequestBytes <? Z.of_nat (String.length body) then Err request_too_large else Ok body
  end.

Fixpoint contains_control (s : string) : bool :=
  match s with
  | EmptyString => false
  | String c s' => ((code c =? 13) || (code c =? 10) || (code c =? 0) || contains_control s')%bool
  end.

Definition parseIdempotencyKey (raw : string) : result Error (option string) :=
  let value := TrimSpace raw in
  if bool_decide (value = "") then Ok None
  else if ((200 <? Z.of_nat (String.length value)) || contains_control value)%bool
  then Err (client_error "invalid_idempotency_key" "Idempotency-Key is invalid" "" 400)
  else Ok (Some value).

Definition command_of (principal : GatewayPrincipal) (request : ChatRequest) (digest : string) (key : option string) : ChatCommand :=
  mkChatCommand (GpKeyID principal) (GpUserID principal) request digest key uuid_Nil false false.

Section handlers.
Context (dc : Decoders) (presence_first : bool) (sha256 : string -> string).

(** What the workflow makes of a command. *)
Context {W : Type} (chat : ChatCommand -> W -> result Error ChatResult * W).

Definition answered (q : PublicRequest) (r : result Error Reply) : Reply := match r with Ok reply => reply | Err e => refuse q e end.

(** What [chatCompletions] does before the workflow. *)
Definition chat_command (principal : GatewayPrincipal) (q : PublicRequest) : result Error ChatCommand :=
  let? body := readBody q in
  let? request := ParseChatRequest dc presence_first body (PqRequestID q) in
  let? key := parseIdempotencyKey (PqIdempotencyKey q) in
  Ok (command_of principal request (sha256 body) key).

Definition chatCompletions (principal : GatewayPrincipal) (q : PublicRequest) (w : W) : Reply * W :=
  match chat_command principal q with
  | Err e => (refuse q e, w)
  | Ok command =>
      if Stream_ (CmRequest command) then (ReplyChatStream command, w)
      else
        match chat command w with
        | (Err e, w') => (refuse q e, w')
        | (Ok result, w') => (ReplyChat (CrsRequestID result) (PresentChatResponse (CrsResponse result)), w')
        end
  end.
End handlers.

(** ** streamChat *)

Inductive Frame := FrameChunk (chunk : Chunk) | FrameError (e : ErrorEnvelope) | FrameDone.

(** What was written: the header [X-Gateway-Request-ID] of a committed stream
    and the frames handed to the writer, or an error before that. *)
Record ChatStream := mkChatStream {
  SwCommitted : option UUID;
  SwFrames : list Frame;
  SwRefused : option ErrorReply;
}.

Section streamChat.
(** The clock and the error of the write or flush of the n-th frame. *)
Context (now : nat -> Z) (write : nat -> option GoError).

Definition frame_of (now : Z) (event : StreamEvent) : Frame :=
  match SeType event with StreamDone => FrameDone | _ => FrameChunk (PresentStreamEvent now event) end.

(** The sink: commit the headers once, then write the frame and flush. *)
Definition chatSink (requestID : UUID) (event : StreamEvent) (s : ChatStream) : option GoError * ChatStream :=
  let n := length (SwFrames s) in
  let committed := match SwCommitted s with Some id => Some id | None => Some requestID end in
  (write n, mkChatStream committed (SwFrames s ++ [frame_of (now n) event]) (SwRefused s)).

(** The workflow hands its events to the sink until one fails. *)
Fixpoint deliverChat (requestID : UUID) (events : list StreamEvent) (s : ChatStream) : ChatStream :=
  match events with
  | [] => s
  | event :: events' =>
      match chatSink requestID event s with
      | (None, s') => deliverChat requestID events' s'
      | (Some _, s') => s'
      end
  end.

(** [streamChat] when the workflow delivers [events] under [gatewayRequest] and
    returns [workflowError]; [flusher] is whether the writer can flush. *)
Definition streamChat (requestID : string) (flusher : bool) (gatewayRequest : UUID) (events : list StreamEvent)
    (workflowError : option Error) : ChatStream :=
  let idle := mkChatStream None [] None in
  if negb flusher then
    mkChatStream None [] (Some (WriteError requestID (invariant_error "streaming_unavailable" "HTTP streaming is unavailable" None)))
  else
    let s := deliverChat gatewayRequest events idle in
    match workflowError with
    | None => s
    | Some e =>
        match SwCommitted s with
        | None => mkChatStream None (SwFrames s) (Some (WriteError requestID e))
        | Some _ => mkChatStream (SwCommitted s) (SwFrames s ++ [FrameError (PresentError requestID e); FrameDone]) None
        end
    end.
End streamChat.

(** The bytes of a frame; [Marshal] of a chunk and of an error. *)
Definition frame_text (marshal : Chunk + ErrorEnvelope -> string) (f : Frame) : string :=
  match f with
  | FrameChunk c => WriteSSE (marshal (inl c))
  | FrameError e => WriteSSE (marshal (inr e))
  | FrameDone => WriteSSEDone
  end.

(** ** models.go *)

Definition reasoningConfigurable (c : ModelCapabilities) : bool :=
  (McReasoningConfig c || bool_decide (McReasoningMode c = ReasoningToggle) || bool_decide (McReasoningMode c = ReasoningHybrid))%bool.

(** [CatalogService.Models] of requestflow/catalog.go *)
Definition Models (list_models : UUID -> result GoError (list Model)) (keyID : UUID) : result GoError (list Model) :=
  if bool_decide (keyID = uuid_Nil) then Err ErrModelNotAuthorized else list_models keyID.

Definition present_model (m : Model) : PublicModel :=
  mkPublicModel (MoPublicName m) (Unix (MoCreatedAt m)) (MoCapabilities m) (reasoningConfigurable (MoCapabilities m)).

Definition models (list_models : UUID -> result GoError (list Model)) (principal : GatewayPrincipal) (q : PublicRequest) : Reply :=
  match Models list_models (GpKeyID principal) with
  | Err _ => ReplyProblem 503 "model_catalog_unavailable" (PqRequestID q)
  | Ok ms => ReplyModels (present_model <$> ms)
  end.
