(* ===== verification/PublicResponses.v ===== *)
(** * Stored responses over HTTP

    Models the handlers of [src/internal/publicapi/responses.go] and the worker
    of [responses_background.go] over the service of [Responses].  Every call
    of the service runs on a connection of its own; the database a call finds
    is the one the previous call or the workflow left, or any other where the
    theorems say so. *)

From stdpp Require Import pretty.
From S2P Require Import Prelude GoStrings Sse Canonical Capabilities Effects Envelope ResponseStream Json Sql ResponseTable Responses ChatParse Present PublicApi.

Local Open Scope Z_scope.

Definition text (b : Bytes) : string := String.string_of_list_ascii b.

(** ** Identifiers *)

Section identifiers.
Context (uuid_Parse : string -> result GoError UUID).

Definition parseResponseIdentifier (value : string) : result GoError UUID :=
  if HasPrefix value "resp_" then uuid_Parse (TrimPrefix value "resp_")
  else Err (OtherError "response ID must start with resp_").

Definition response_not_found : Error := client_error "response_not_found" "response was not found" "" 404.

(** [parseResponseID]: the path parameter, or the reply. *)
Definition parseResponseID (q : PublicRequest) : result Reply UUID :=
  match parseResponseIdentifier (PqResponseID q) with Ok id => Ok id | Err _ => Err (refuse q response_not_found) end.

(** ** Pages of input items *)

(** Items without an identifier get one from their position. *)
Fixpoint identify (prefix : string) (index : Z) (items : list InputItem) : list InputItem :=
  match items with
  | [] => []
  | item :: items' =>
      (match InId item with
       | Some _ => item
       | None => mkInputItem (Some (IdText (prefix +:+ pretty index))) (InRest item)
       end) :: identify prefix (index + 1) items'
  end.

(** [responseInputItems], [text_item] being the object made of a plain text. *)
Definition responseInputItems (dc : Decoders) (decode_items : string -> result GoError (list InputItem)) (text_item : string -> string)
    (responseID : UUID) (input : string) : result GoError (list InputItem) :=
  let raw :=
    match dc_string dc input with
    | Ok t => Ok [mkInputItem None (text_item t)]
    | Err _ => decode_items input
    end in
  match raw with
  | Err e => Err e
  | Ok items => Ok (identify ("item_" +:+ drop_dashes responseID +:+ "_") 0 items)
  end.

(** The items after the first one with the identifier. *)
Fixpoint after_id (after : string) (items : list InputItem) : option (list InputItem) :=
  match items with
  | [] => None
  | item :: items' => if bool_decide (InId item = Some (IdText after)) then Some items' else after_id after items'
  end.

Definition page_limit (raw : string) : result Error Z :=
  if bool_decide (raw = "") then Ok 20
  else
    match ParseInt (String.list_ascii_of_string raw) with
    | Some n =>
        if ((n <? 1) || (100 <? n))%bool then Err (client_error "invalid_limit" "limit must be between 1 and 100" "limit" 400) else Ok n
    | None => Err (client_error "invalid_limit" "limit must be between 1 and 100" "limit" 400)
    end.

Definition page_order (raw : string) (items : list InputItem) : result Error (list InputItem) :=
  if (bool_decide (raw = "") || bool_decide (raw = "desc"))%bool then Ok (reverse items)
  else if bool_decide (raw = "asc") then Ok items
  else Err (client_error "invalid_order" "order must be asc or desc" "order" 400).

Definition page_of (limit : Z) (ordered : list InputItem) : Page :=
  let hasMore := limit <? Z.of_nat (length ordered) in
  let shown := if hasMore then take (Z.to_nat limit) ordered else ordered in
  mkPage shown (head shown ≫= InId) (last shown ≫= InId) hasMore.

Definition paginateResponseItems (limit order after : string) (items : list InputItem) : result Error Page :=
  let? limit := page_limit limit in
  let? ordered := page_order order items in
  if bool_decide (after = "") then Ok (page_of limit ordered)
  else
    match after_id after ordered with
    | None => Err (client_error "invalid_after" "after does not identify an input item" "after" 400)
    | Some rest => Ok (page_of limit rest)
    end.

(** ** Conversations *)

Definition previous_not_found : Error :=
  client_error "response_not_found" "previous response was not found" "previous_response_id" 404.
Definition previous_not_ready : Error :=
  client_error "previous_response_not_ready" "previous response is not completed" "previous_response_id" 409.
Definition chain_too_long : Error :=
  client_error "response_chain_too_long" "previous response chain exceeds the supported length" "previous_response_id" 400.
Definition stored_invalid (cause : Error) : Error :=
  invariant_error "stored_response_invalid" "previous response state is invalid" (Some (CanonicalError cause)).

(** The loop: the records from the newest to the oldest, and whether the
    oldest one read continues another.  [get n] answers the n-th read. *)
Fixpoint chain (get : nat -> UUID -> result RespError ResponseRecord) (fuel n : nat) (current : UUID) :
    result Error (list ResponseRecord * bool) :=
  match fuel with
  | O => Ok ([], true)
  | S fuel' =>
      match get n current with
      | Err _ => Err previous_not_found
      | Ok record =>
          if (negb (bool_decide (RrStatus record = StatusCompleted)) || is_nil (RrOutput record))%bool then Err previous_not_ready
          else
            match RrPreviousResponseID record with
            | None => Ok ([record], false)
            | Some next =>
                match chain get fuel' (S n) next with
                | Err e => Err e
                | Ok (records, more) => Ok (record :: records, more)
                end
            end
      end
  end.

(** The messages of the records, in order. *)
Fixpoint replay (dc : Decoders) (records : list ResponseRecord) : result Error (list ChatMessage) :=
  match records with
  | [] => Ok []
  | record :: records' =>
      match StoredResponseMessages dc (text (RrInput record)) (text (RrOutput record)) with
      | Err e => Err (stored_invalid e)
      | Ok messages => let? rest := replay dc records' in Ok (messages ++ rest)
      end
  end.

Definition previousResponseMessages (dc : Decoders) (get : nat -> UUID -> result RespError ResponseRecord) (externalID : string) :
    result Error (option UUID * list ChatMessage) :=
  if bool_decide (externalID = "") then Ok (None, [])
  else
    match parseResponseIdentifier externalID with
    | Err _ => Err previous_not_found
    | Ok responseID =>
        match chain get 100 0 responseID with
        | Err e => Err e
        | Ok (records, true) => Err chain_too_long
        | Ok (records, false) =>
            let? messages := replay dc (reverse records) in Ok (Some responseID, messages)
        end
    end.
End identifiers.

(** ** Handlers *)

Definition with_messages (r : ChatRequest) (messages : list ChatMessage) : ChatRequest :=
  chat_filled r messages (Tools r) (ToolChoice_ r) (Stop r) (ResponseFormat_ r) (Reasoning_ r).

Definition with_history (request : ResponsesRequest) (previous : list ChatMessage) : ResponsesRequest :=
  mkResponsesRequest (with_messages (ReChat request) (previous ++ Messages (ReChat request))) (ReInstructions request)
    (RePreviousResponseID request) (ReStore request) (ReBackground request) (ReInput request).

Definition external (id : UUID) : string := ResponseIdentifierForRequest id.

(** [writeStoredResponse] *)
Definition writeStoredResponse (stored : ResponseRecord) (request : ResponsesRequest) : Reply :=
  if (bool_decide (RrStatus stored = StatusCompleted) && negb (is_nil (RrOutput stored)))%bool then ReplyStored (RrOutput stored)
  else if bool_decide (RrStatus stored = StatusQueued)
  then ReplyResponse None (PresentResponseQueued (external (RrID stored)) (CrModel (ReChat request)) (Unix (RrCreatedAt stored)) request)
  else ReplyState (external (RrID stored)) (status_text (RrStatus stored)) (RrError stored).

(** The status [readStoredResponse] shows. *)
Definition shown_status (allowCanceled : bool) (s : Status) : string :=
  let status := status_text s in
  if (allowCanceled && negb (bool_decide (status = "completed")) && negb (bool_decide (status = "failed")))%bool
  then "canceled" else status.

Definition show_stored (allowCanceled : bool) (responseID : UUID) (stored : ResponseRecord) : Reply :=
  if (bool_decide (RrStatus stored = StatusCompleted) && negb (is_nil (RrOutput stored)))%bool then ReplyStored (RrOutput stored)
  else ReplyState (external responseID) (shown_status allowCanceled (RrStatus stored)) (RrError stored).

Definition enqueue_failed (e : RespError) : Error :=
  if (is_Conflict e || is_NotFound e)%bool
  then client_error "idempotency_conflict" "Idempotency-Key was reused with a different request" "" 409
  else storage_error "response_persistence_failed" "background response could not be accepted" None.

Section api.
Context {aead : AEAD} (envelope : EnvelopeCipher) (random : UUID -> string -> nat -> result string bytes).
Context (dc : Decoders) (sha256 : string -> string) (uuid_Parse : string -> result GoError UUID)
  (marshal : PresentedResponse -> result GoError Bytes).
Context (decode_items : string -> result GoError (list InputItem)) (text_item : string -> string).

(** The connection of the statements of the n-th call of the service. *)
Context (conns : nat -> nat -> Conn).

(** Whether the API has a store of responses. *)
Context (has_store : bool).

Definition getResponse_from (principal : GatewayPrincipal) (w : World) (n : nat) (id : UUID) : result RespError ResponseRecord :=
  Get envelope (conns n) id (GpKeyID principal) w.

Definition readStoredResponse (principal : GatewayPrincipal) (q : PublicRequest) (allowCanceled : bool) (n : nat) (w : World) : Reply :=
  match parseResponseID uuid_Parse q with
  | Err reply => reply
  | Ok responseID =>
      if negb has_store then refuse q response_not_found
      else
        match getResponse_from principal w n responseID with
        | Err _ => refuse q response_not_found
        | Ok stored => show_stored allowCanceled responseID stored
        end
  end.

Definition getResponse (principal : GatewayPrincipal) (q : PublicRequest) (w : World) : Reply * World :=
  (readStoredResponse principal q false 0 w, w).

Definition deleteResponse (principal : GatewayPrincipal) (q : PublicRequest) (w : World) : Reply * World :=
  match parseResponseID uuid_Parse q with
  | Err reply => (reply, w)
  | Ok responseID =>
      if negb has_store then (refuse q response_not_found, w)
      else
        match Delete_ (conns 0%nat) responseID (GpKeyID principal) w with
        | (Some RNotFound, w') => (refuse q response_not_found, w')
        | (_, w') => (ReplyDeleted (external responseID), w')
        end
  end.

(** The handler [responseInputItems]. *)
Definition inputItems (principal : GatewayPrincipal) (q : PublicRequest) (w : World) : Reply * World :=
  match parseResponseID uuid_Parse q with
  | Err reply => (reply, w)
  | Ok responseID =>
      if negb has_store then (refuse q response_not_found, w)
      else
        match getResponse_from principal w 0 responseID with
        | Err _ => (refuse q response_not_found, w)
        | Ok stored =>
            match responseInputItems dc decode_items text_item (RrID stored) (text (RrInput stored)) with
            | Err _ => (refuse q (invariant_error "stored_input_invalid" "stored response input is invalid" None), w)
            | Ok items =>
                match paginateResponseItems (PqLimit q) (PqOrder q) (PqAfter q) items with
                | Err e => (refuse q e, w)
                | Ok page => (ReplyPage page, w)
                end
            end
        end
  end.

(** [cancelResponse]; the second component is whether it cancels the running
    execution of this process, when there is one. *)
Definition cancelResponse (principal : GatewayPrincipal) (q : PublicRequest) (w : World) : Reply * option UUID * World :=
  match parseResponseID uuid_Parse q with
  | Err reply => (reply, None, w)
  | Ok responseID =>
      if negb has_store then (refuse q response_not_found, None, w)
      else
        match RequestCancellation (conns 0%nat) responseID (GpKeyID principal) w with
        | (Some RNotFound, w') => (refuse q response_not_found, None, w')
        | (Some RNotCancelable, w') =>
            (refuse q (client_error "response_not_cancelable" "only background Responses can be canceled" "" 400), None, w')
        | (Some _, w') =>
            (refuse q (storage_error "response_cancel_failed" "response cancellation could not be persisted" None), None, w')
        | (None, w') => (readStoredResponse principal q true 1 w', Some responseID, w')
        end
  end.

(** ** createResponse *)

(** What [createResponse] does before it branches: the body, the request with
    its history, the previous response and the key. *)
Definition prepareResponse (principal : GatewayPrincipal) (q : PublicRequest) (w : World) :
    result Error (string * ResponsesRequest * option UUID * option string) :=
  let? body := readBody q in
  let? request := ParseResponsesRequest dc body (PqRequestID q) in
  if (ReStore request && negb has_store)%bool
  then Err (storage_error "response_store_unavailable" "stored Responses are unavailable" None)
  else
    let? (previous, messages) :=
      previousResponseMessages uuid_Parse dc (getResponse_from principal w) (RePreviousResponseID request) in
    let request := match messages with [] => request | _ => with_history request messages end in
    let? key := parseIdempotencyKey (PqIdempotencyKey q) in
    Ok (body, request, previous, key).

(** The background branch: the request is queued for the worker.  The service
    calls of the chain were at most 100. *)
Definition enqueueResponse (principal : GatewayPrincipal) (q : PublicRequest) (recordID : UUID) (body : string)
    (request : ResponsesRequest) (previous : option UUID) (key : option string) (w : World) : Reply * World :=
  if negb (ReStore request)
  then (refuse q (client_error "background_requires_store" "background Responses must be stored" "store" 400), w)
  else
    match Enqueue envelope random (conns 100%nat) recordID (GpKeyID principal) previous key (chars (sha256 body))
            (chars (ReInput request)) (chars body) w with
    | (Err e, w') => (refuse q (enqueue_failed e), w')
    | (Ok stored, w') => (writeStoredResponse stored request, w')
    end.

(** The foreground branch once the workflow answered. *)
Definition saveResponse (principal : GatewayPrincipal) (q : PublicRequest) (recordID : UUID) (request : ResponsesRequest)
    (previous : option UUID) (result : ChatResult) (w : World) : Reply * World :=
  let presented := PresentResponseWithID (external recordID) (CrsResponse result) request in
  let not_stored := refuse q (storage_error "response_persistence_failed" "response could not be stored" None) in
  if negb (ReStore request) then (ReplyResponse (Some (CrsRequestID result)) presented, w)
  else
    match marshal presented with
    | Err _ => (not_stored, w)
    | Ok encoded =>
        match SaveCompleted envelope random (conns 100%nat) recordID (CrsRequestID result) (GpKeyID principal) previous
                (chars (ReInput request)) encoded w with
        | (Some _, w') => (not_stored, w')
        | (None, w') => (ReplyResponse (Some (CrsRequestID result)) presented, w')
        end
    end.

(** [recordID] is the identifier [uuid.New] answers; [chat] the workflow. *)
Definition createResponse (chat : ChatCommand -> World -> result Error ChatResult * World) (recordID : UUID)
    (principal : GatewayPrincipal) (q : PublicRequest) (w : World) : Reply * World :=
  match prepareResponse principal q w with
  | Err e => (refuse q e, w)
  | Ok (body, request, previous, key) =>
      if ReBackground request then enqueueResponse principal q recordID body request previous key w
      else
        let command := command_of principal (ReChat request) (sha256 body) key in
        if Stream_ (ReChat request) then (ReplyResponseStream request command previous, w)
        else
          match chat command w with
          | (Err e, w') => (refuse q e, w')
          | (Ok result, w') => saveResponse principal q recordID request previous result w'
          end
  end.
End api.

(** * The worker of background responses

    Models [src/internal/publicapi/responses_background.go]: the poll that
    recovers and claims queued responses, and the execution of a claimed one.

    The workflow of an execution is an argument, a [ChatProgram]: the calls of
    the two sinks it makes, each continuing with the answer of the sink, what
    the heartbeat and other processes do meanwhile, and what it returns.  Every
    call of the service runs on a connection of its own. *)

Record ResponseWorkerConfig := mkWorkerConfig {
  PollInterval : Z;
  HeartbeatInterval : Z;
  StaleAfter : Z;
  RecoveryBatchSize : Z;
  MaxWorkers : Z;
}.

Definition valid_config (has_store : bool) (c : ResponseWorkerConfig) : bool :=
  (has_store && (0 <? PollInterval c) && (0 <? HeartbeatInterval c) && (wrap64 (2 * HeartbeatInterval c) <? StaleAfter c) &&
   (1 <=? RecoveryBatchSize c) && (1 <=? MaxWorkers c))%bool.

(** The workflow: what it returns with whether the context was canceled, the
    calls of [AcceptedSink] and [ResultSink], and the work of others. *)
Inductive ChatProgram :=
| ChatReturns (outcome : result Error ChatResult) (canceled : bool)
| ChatAccepts (request : UUID) (k : option RespError -> ChatProgram)
| ChatDelivers (result : ChatResult) (k : bool -> ChatProgram)
| ChatMeanwhile (others : World -> World) (k : ChatProgram).

(** The outcome of an execution: the error it logs, when there is one. *)
Definition logged (e : option RespError) : option RespError := match e with Some RFenced => None | _ => e end.

Section worker.
Context {aead : AEAD} (envelope : EnvelopeCipher) (random : UUID -> string -> nat -> result string bytes)
  (encode_error : string -> string -> Bytes).
Context (dc : Decoders) (sha256 : string -> string) (uuid_Parse : string -> result GoError UUID)
  (marshal : PresentedResponse -> result GoError Bytes).
Context (conns : nat -> nat -> Conn).

Definition terminateBackgroundResponse (n : nat) (claim : ResponseClaim) (requestID : option UUID) (status : Status)
    (code message : string) (w : World) : option RespError * World :=
  let '(err, w') := TerminateClaim envelope random (conns n) claim requestID status (encode_error code message) w in
  (logged err, w').

(** The sinks of the command; [None] is success.  An output that cannot be
    encoded is not staged. *)
Definition acceptedSink (n : nat) (claim : ResponseClaim) (requestID : UUID) (w : World) : option RespError * World :=
  LinkRequest (conns n) claim requestID w.

Definition resultSink (n : nat) (claim : ResponseClaim) (record : ResponseRecord) (request : ResponsesRequest) (result : ChatResult)
    (w : World) : bool * World :=
  match marshal (PresentResponseWithID (external (RrID record)) (CrsResponse result) request) with
  | Err _ => (false, w)
  | Ok encoded =>
      let '(err, w') := StageOutput envelope random (conns n) claim (CrsRequestID result) encoded w in
      (match err with None => true | Some _ => false end, w')
  end.

(** The run of the workflow from the n-th call on: its outcome, whether the
    context was canceled, the accepted request and the number of calls. *)
Fixpoint run_chat (claim : ResponseClaim) (record : ResponseRecord) (request : ResponsesRequest) (p : ChatProgram)
    (n : nat) (accepted : option UUID) (w : World) : result Error ChatResult * bool * option UUID * nat * World :=
  match p with
  | ChatReturns outcome canceled => (outcome, canceled, accepted, n, w)
  | ChatAccepts requestID k =>
      let '(err, w') := acceptedSink n claim requestID w in
      run_chat claim record request (k err) (S n) (match err with None => Some requestID | Some _ => accepted end) w'
  | ChatDelivers result k =>
      let '(ok, w') := resultSink n claim record request result w in
      run_chat claim record request (k ok) (S n) accepted w'
  | ChatMeanwhile others k => run_chat claim record request k n accepted (others w)
  end.

Definition failedStatus (e : Error) (canceled : bool) : Status :=
  if bool_decide (Kind e = ErrorUncertain) then StatusUncertain
  else if (bool_decide (Code e = "request_canceled") || canceled)%bool then StatusCanceled
  else StatusFailed.

(** [executeBackgroundResponse]; [principal] is the answer of the identity
    service, [chat] the workflow for the command.  The first 101 calls of the
    service are the reads of the conversation. *)
Definition executeBackgroundResponse (claim : ResponseClaim) (record : ResponseRecord) (principal : result GoError GatewayPrincipal)
    (chat : ChatCommand -> ChatProgram) (w : World) : option RespError * World :=
  match principal with
  | Err _ =>
      terminateBackgroundResponse 0 claim None StatusFailed "api_key_inactive" "the API key or its owner is no longer active" w
  | Ok principal =>
      let invalid_request :=
        terminateBackgroundResponse 0 claim None StatusFailed "stored_request_invalid" "the stored background request is invalid" w in
      match ParseResponsesRequest dc (text (RrRequest record)) (RrID record) with
      | Err _ => invalid_request
      | Ok request =>
          if (negb (ReBackground request) || Stream_ (ReChat request))%bool then invalid_request
          else
            match previousResponseMessages uuid_Parse dc (getResponse_from envelope conns principal w) (RePreviousResponseID request) with
            | Err e => terminateBackgroundResponse 100 claim None StatusFailed (Code e) (Message e) w
            | Ok (_, messages) =>
                let request := match messages with [] => request | _ => with_history request messages end in
                let command :=
                  mkChatCommand (GpKeyID principal) (GpUserID principal) (ReChat request) (sha256 (text (RrRequest record)))
                    (Some ("response:" +:+ RrID record)) (RrID record) true true in
                let '(outcome, canceled, accepted, n, w') := run_chat claim record request (chat command) 101 None w in
                match outcome with
                | Err e =>
                    let shown := PresentErrorDetail e in
                    terminateBackgroundResponse n claim accepted (failedStatus e canceled) (EvCode shown) (EvMessage shown) w'
                | Ok result =>
                    let '(err, w'') := CompleteClaim (conns n) claim (CrsRequestID result) w' in (logged err, w'')
                end
            end
      end
  end.

(** ** The poll *)

(** The claims of one turn while workers are free: [ids] are the identifiers
    [uuid.New] answers. *)
Fixpoint claimResponses (free : nat) (ids : list UUID) (staleBefore : Z) (n : nat) (w : World) :
    list (ResponseClaim * ResponseRecord) * World :=
  match free, ids with
  | S free', id :: ids' =>
      match ClaimNext envelope (conns n) id staleBefore w with
      | (Err _, w') => ([], w')
      | (Ok claimed, w') =>
          let '(rest, w'') := claimResponses free' ids' staleBefore (S n) w' in (claimed :: rest, w'')
      end
  | _, _ => ([], w)
  end.

(** One turn of [RunResponseWorker] with [running] workers busy: recover, then
    claim what can run. *)
Definition pollResponses (c : ResponseWorkerConfig) (now running : Z) (ids : list UUID) (w : World) :
    list (ResponseClaim * ResponseRecord) * World :=
  let '(_, _, w') := RecoverOnce envelope random encode_error (conns 0%nat) (RecoveryBatchSize c) w in
  claimResponses (Z.to_nat (MaxWorkers c - running)) ids (now - StaleAfter c) 1 w'.
End worker.
