(* ===== verification/PublicWorkerProps.v ===== *)
(** * Background executions settle their responses

    Once a worker has claimed a response and its execution ends without
    reporting an error, the response is no longer in progress under that claim:
    it was completed, failed, canceled or left uncertain by the execution, or
    another worker, a cancellation or a deletion was first. *)

From S2P Require Import Prelude GoStrings Canonical Capabilities Effects Json Envelope Sql ResponseTable Responses ResponseProps ResponseStream ChatParse Present PublicApi PublicResponses.

Local Open Scope Z_scope.

(** ** What others may do meanwhile *)

(** Statements of the service other than a claim under the same execution. *)
Definition elsewhere (claim : ResponseClaim) : Db -> Db -> Prop :=
  rtc (λ db db', exists x, x <> Claiming (RcExecutionID claim) /\ stmt x db db').

Lemma elsewhere_runs claim x db db' : x <> Claiming (RcExecutionID claim) -> runs x db db' -> elsewhere claim db db'.
Proof. intros Hx. apply rtc_subrel. intros a b H. by exists x. Qed.

(** Whatever the service does while the execution identifier is in use. *)
Lemma elsewhere_steps `{!AEAD} claim s s' :
  rtc step s s' -> keyed (w_db s.1) -> RcExecutionID claim ∈ s.2 -> elsewhere claim (w_db s.1) (w_db s'.1).
Proof.
  induction 1 as [|a b d H1 _ IH]; [done|]. intros Hk Hi. pose proof (step_effect a b Hk H1) as He.
  etransitivity; [|apply IH; [by eapply effect_keyed|destruct He as [-> _|e _ -> _| -> _]; set_solver]].
  destruct He as [_ Hr|e Hn _ Hr|_ Hr]; [by eapply (elsewhere_runs claim Plain)| |].
  - eapply (elsewhere_runs claim (Claiming e)); [|done]. intros [= ->]. by apply Hn.
  - apply rtc_once. by exists Deleting.
Qed.

(** ** What holds of a response while the claim is held *)

Definition while_held (P : EncryptedRecord -> bool) (claim : ResponseClaim) (db : Db) : Prop :=
  forall r, db_responses db !! RcResponseID claim = Some r -> held claim r = true -> P r = true.

Definition has_output (r : EncryptedRecord) : bool := negb (is_nil (EncryptedOutput r)).

(** A test that statements keep true of a running row. *)
Definition lasting (P : EncryptedRecord -> bool) : Prop :=
  forall x r r', changed x r r' -> ErStatus r' = StatusInProgress -> P r = true -> P r' = true.

Lemma lasting_not_canceled : lasting not_canceled.
Proof. intros x r r' Hc Hs. by apply (ch_running _ _ _ Hc). Qed.

Lemma lasting_output : lasting has_output.
Proof. intros x r r' Hc Hs. unfold has_output. rewrite !negb_true_iff. by apply (ch_running _ _ _ Hc). Qed.

#[export] Hint Resolve lasting_not_canceled lasting_output : core.

Lemma stmt_while_held P x claim db db' :
  lasting P -> x <> Claiming (RcExecutionID claim) -> stmt x db db' -> while_held P claim db -> while_held P claim db'.
Proof.
  intros Hl Hx Hs Hw r Hr Hh. specialize (Hs (RcResponseID claim)). rewrite Hr in Hs. unfold while_held in Hw.
  apply held_spec in Hh as (He & Hg & Hst).
  inversion Hs as [o Ho Ho'|r0 _ Hn Ho Ho'|r0 _|r0 r1 Hc Ho Ho']; subst; [| congruence|].
  - apply Hw; [congruence|by apply held_spec].
  - destruct (ch_execution _ _ _ Hc) as [(E1 & E2 & E3)|(e & -> & E1 & _)]; [|congruence].
    eapply Hl; [exact Hc|done|]. apply Hw; [congruence|]. apply held_spec. split_and!; [congruence..|by apply E3].
Qed.

Lemma elsewhere_while_held P claim db db' :
  lasting P -> elsewhere claim db db' -> while_held P claim db -> while_held P claim db'.
Proof.
  intros Hl. induction 1 as [|a b d (x & Hx & H1) _ IH]; [done|]. intros Hw. apply IH. by eapply stmt_while_held.
Qed.

(** A plain run of the service, seen from the claim. *)
Lemma plain_while_held P claim db db' : lasting P -> runs Plain db db' -> while_held P claim db -> while_held P claim db'.
Proof. intros Hl Hr. apply elsewhere_while_held; [done|]. by apply (elsewhere_runs claim Plain). Qed.

(** ** Statements that end an execution *)

(** A guarded statement that reports no error, or that the claim is lost: the
    row was changed, or no row passes the guard. *)
Lemma executed_outcome c claim guard f w err w' :
  cn_fault c <> Some NoRows ->
  only_error (on_db (λ db, executed (update_response c (RcResponseID claim) guard f db)) w) = (err, w') ->
  logged err = None ->
  (exists r, db_responses (w_db w) !! RcResponseID claim = Some r /\ guard r = true /\
     db_responses (w_db w') !! RcResponseID claim = Some (touch (cn_now c) (f r))) \/
  w_db w' = w_db w /\ (forall r, db_responses (w_db w) !! RcResponseID claim = Some r -> guard r = false).
Proof.
  intros Hf. unfold only_error, on_db, executed, update_response, on_responses, update_one. simpl.
  destruct (cn_fault c) as [e|] eqn:Hc; simpl.
  { intros [= <- <-]. simpl. destruct e; [congruence| |done]. simpl. by repeat case_match. }
  destruct (db_responses (w_db w) !! RcResponseID claim) as [r|] eqn:Hr; simpl.
  - destruct (guard r) eqn:Hg; simpl.
    + destruct (violates _ _ _ _ _) as [s|]; simpl; intros [= <- <-]; simpl; [by repeat case_match|].
      intros _. left. exists r. by rewrite lookup_insert_eq.
    + intros [= <- <-] _. right. simpl. split; [by destruct (w_db w)|]. by intros r' [= <-].
  - intros [= <- <-] _. right. simpl. split; [by destruct (w_db w)|done].
Qed.

Lemma executed_done c claim guard f w w' :
  only_error (on_db (λ db, executed (update_response c (RcResponseID claim) guard f db)) w) = (None, w') ->
  exists r, db_responses (w_db w') !! RcResponseID claim = Some (touch (cn_now c) (f r)).
Proof.
  unfold only_error, on_db, executed, update_response, on_responses.
  destruct (update_one _ _ _ _ _ _) as [res t] eqn:Hu. destruct res as [r|]; simpl; [|done]. intros [= <-].
  apply update_one_ok in Hu as (r0 & _ & _ & -> & ->). simpl. exists r0. by rewrite lookup_insert_eq.
Qed.

Lemma observed_logged o p err w' :
  observed o p = (err, w') -> logged err = None -> exists w0, p = (err, w0) /\ w_db w0 = w_db w'.
Proof.
  destruct p as [[e|] w]; simpl; intros [= <- <-] Hl; eexists; split; reflexivity.
Qed.

(** The row of a claim left in a status other than in progress. *)
Lemma fenced_status claim db r :
  db_responses db !! RcResponseID claim = Some r -> ErStatus r <> StatusInProgress -> fenced claim db.
Proof. intros Hr Hs r' Hr'. rewrite Hr in Hr'. injection Hr' as <-. apply not_true_is_false. by intros (_ & _ & ?)%held_spec. Qed.

Section worker.
Context {aead : AEAD} (envelope : EnvelopeCipher) (random : UUID -> string -> nat -> result string bytes)
  (encode_error : string -> string -> Bytes).
Context (dc : Decoders) (sha256 : string -> string) (uuid_Parse : string -> result GoError UUID)
  (marshal : PresentedResponse -> result GoError Bytes).
Context (conns : nat -> nat -> Conn).

(** A failing connection does not answer that no row matched. *)
Hypothesis conns_ok : forall n m, cn_fault (conns n m) <> Some NoRows.

Lemma encryptField_logged id field value e :
  encryptField envelope random id field value = Err e -> logged (Some e) <> None.
Proof. unfold encryptField. by repeat case_match; intros; simplify_eq. Qed.

Lemma terminate_settles n claim q s code message w w' :
  terminateBackgroundResponse envelope random encode_error conns n claim q s code message w = (None, w') -> fenced claim (w_db w').
Proof using conns_ok.
  unfold terminateBackgroundResponse. destruct (TerminateClaim _ _ _ _ _ _ _ w) as [err w1] eqn:Ht. intros [= Hl <-].
  unfold TerminateClaim in Ht. destruct (_ || _)%bool eqn:Hg; [injection Ht as <- <-; done|].
  apply orb_false_iff in Hg as [_ Hs%negb_false_iff%bool_decide_eq_true].
  destruct (encryptField _ _ _ _ _) as [b|e] eqn:He; [|injection Ht as <- <-; by apply encryptField_logged in He].
  apply observed_logged in Ht as (w2 & Ht & <-); [|done].
  apply executed_outcome in Ht as [(r & _ & _ & Hr)|[Hdb Hn]]; [|by rewrite Hdb|by apply conns_ok|done].
  eapply fenced_status; [exact Hr|]. simpl. clear - Hs. set_solver.
Qed.

Lemma complete_settles n claim q w err w' :
  while_held not_canceled claim (w_db w) -> while_held has_output claim (w_db w) ->
  CompleteClaim (conns n) claim q w = (err, w') -> logged err = None -> fenced claim (w_db w').
Proof using conns_ok.
  intros H1 H2 Hc Hl. unfold CompleteClaim in Hc. destruct (_ || _)%bool; [injection Hc as <- <-; done|].
  apply observed_logged in Hc as (w2 & Hc & <-); [|done].
  apply executed_outcome in Hc as [(r & _ & _ & Hr)|[Hdb Hn]]; [by eapply fenced_status| |by apply conns_ok|done].
  rewrite Hdb. intros r Hr. apply not_true_is_false. intros Hh. specialize (Hn r Hr). specialize (H1 r Hr Hh). specialize (H2 r Hr Hh).
  unfold has_output in H2. rewrite Hh, H1, H2 in Hn. done.
Qed.

(** ** The workflow *)

(** What the execution relies on: a result is returned only after the sink
    took it, which [s] records, and others act through the service. *)
Inductive lawful (claim : ResponseClaim) : bool -> ChatProgram -> Prop :=
| lawful_failed s e canceled : lawful claim s (ChatReturns (Err e) canceled)
| lawful_result r canceled : lawful claim true (ChatReturns (Ok r) canceled)
| lawful_accepts s q k : (forall a, lawful claim s (k a)) -> lawful claim s (ChatAccepts q k)
| lawful_delivers s r k : (forall ok, lawful claim (ok || s)%bool (k ok)) -> lawful claim s (ChatDelivers r k)
| lawful_meanwhile s others k :
    (forall w, elsewhere claim (w_db w) (w_db (others w))) -> lawful claim s k -> lawful claim s (ChatMeanwhile others k).

Lemma staged_output n claim q o w w' :
  StageOutput envelope random (conns n) claim q o w = (None, w') -> while_held has_output claim (w_db w').
Proof.
  unfold StageOutput. destruct (_ || _)%bool; [done|]. destruct (encryptField _ _ _ _ _) as [b|] eqn:He; [|done].
  apply encryptField_some in He. intros (r & Hr)%executed_done r' Hr' _. rewrite Hr in Hr'. injection Hr' as <-.
  unfold has_output. simpl. by rewrite He.
Qed.

(** The sinks and the work of others keep what holds of a running response. *)
Lemma run_chat_keeps P claim record request p n accepted w outcome canceled accepted' n' w' s :
  lasting P -> lawful claim s p ->
  run_chat envelope random marshal conns claim record request p n accepted w = (outcome, canceled, accepted', n', w') ->
  while_held P claim (w_db w) -> while_held P claim (w_db w').
Proof.
  intros Hl Hp. revert n accepted w. induction Hp as [s e c|r c|s q k _ IH|s r k _ IH|s f k Hf _ IH]; intros n accepted w; simpl.
  - by intros [= _ _ _ _ <-].
  - by intros [= _ _ _ _ <-].
  - unfold acceptedSink. destruct (LinkRequest _ _ _ w) as [err w1] eqn:Hs. intros Hr Hw. apply (IH err) in Hr; [done|].
    eapply plain_while_held; [done| |done]. pose proof (LinkRequest_runs (conns n) Plain claim q w) as H1. by rewrite Hs in H1.
  - unfold resultSink. destruct (marshal _) as [o|]; [|intros Hr Hw; by eapply (IH false)].
    destruct (StageOutput _ _ _ _ _ _ w) as [err w1] eqn:Hs. intros Hr Hw.
    eapply IH; [exact Hr|]. eapply plain_while_held; [done| |done].
    pose proof (StageOutput_runs envelope random (conns n) Plain claim (CrsRequestID r) o w) as H1. by rewrite Hs in H1.
  - intros Hr Hw. eapply IH; [exact Hr|]. eapply elsewhere_while_held; [done|apply Hf|done].
Qed.

(** When the workflow answers with a result, an output is staged. *)
Lemma run_chat_staged claim record request p n accepted w outcome canceled accepted' n' w' s :
  lawful claim s p ->
  run_chat envelope random marshal conns claim record request p n accepted w = (outcome, canceled, accepted', n', w') ->
  (s = true -> while_held has_output claim (w_db w)) -> is_ok outcome = true -> while_held has_output claim (w_db w').
Proof.
  intros Hp. revert n accepted w.
  induction Hp as [s e c|r c|s q k _ IH|s r k Hk IH|s f k Hf Hp' IH]; intros n accepted w; simpl.
  - by intros [= <- _ _ _ _].
  - intros [= <- _ _ _ <-] Hw _. by apply Hw.
  - unfold acceptedSink. destruct (LinkRequest _ _ _ w) as [err w1] eqn:Hs. intros Hr Hw. eapply (IH err); [exact Hr|].
    intros Hst. eapply plain_while_held; [done| |by apply Hw].
    pose proof (LinkRequest_runs (conns n) Plain claim q w) as H1. by rewrite Hs in H1.
  - unfold resultSink. destruct (marshal _) as [o|]; [|intros Hr Hw; by eapply (IH false)].
    destruct (StageOutput _ _ _ _ _ _ w) as [err w1] eqn:Hs. intros Hr Hw. eapply IH; [exact Hr|]. destruct err as [e|].
    + simpl. intros Hst. eapply plain_while_held; [done| |by apply Hw].
      pose proof (StageOutput_runs envelope random (conns n) Plain claim (CrsRequestID r) o w) as H1. by rewrite Hs in H1.
    + intros _. by eapply staged_output.
  - intros Hr Hw. eapply IH; [exact Hr|]. intros Hst. eapply elsewhere_while_held; [done|by apply Hf|by apply Hw].
Qed.

Lemma execution_settles claim record principal chat w w' :
  (forall command, lawful claim false (chat command)) -> while_held not_canceled claim (w_db w) ->
  executeBackgroundResponse envelope random encode_error dc sha256 uuid_Parse marshal conns claim record principal chat w = (None, w') ->
  fenced claim (w_db w').
Proof using conns_ok.
  intros Hchat Hnc. unfold executeBackgroundResponse. destruct principal as [principal|]; [|apply terminate_settles].
  destruct (ParseResponsesRequest _ _ _) as [request|]; [|apply terminate_settles].
  destruct (_ || _)%bool; [apply terminate_settles|].
  destruct (previousResponseMessages _ _ _ _) as [[prev messages]|]; [|apply terminate_settles]. cbv zeta.
  destruct (run_chat _ _ _ _ _ _ _ _ _ _ w) as [[[[outcome canceled] accepted] n] w1] eqn:Hr.
  destruct outcome as [result|e]; [|apply terminate_settles].
  destruct (CompleteClaim _ _ _ w1) as [err w2] eqn:Hc. intros [= Hl <-]. eapply complete_settles; [| |exact Hc|exact Hl].
  - eapply run_chat_keeps; [done|apply Hchat|exact Hr|done].
  - eapply run_chat_staged; [apply Hchat|exact Hr|done|done].
Qed.
End worker.

(** A fresh claim is held by a response that is not canceled. *)
Lemma claimed_not_canceled `{!AEAD} env conn e stale w claim record w' :
  keyed (w_db w) -> ClaimNext env conn e stale w = (Ok (claim, record), w') -> while_held not_canceled claim (w_db w').
Proof.
  intros Hk Hc r' Hr' _. destruct (claim_takes_over env conn e stale w claim record w' Hk Hc) as (_ & (r & r1 & _ & Hcl & Hr1 & Hnc & _) & _).
  rewrite Hr1 in Hr'. injection Hr' as <-. unfold not_canceled. rewrite Hnc.
  unfold claimable in Hcl. by apply andb_true_iff in Hcl as [[_ ?]%andb_true_iff _].
Qed.

