(* ===== verification/PublicProps.v ===== *)
(** * Pages, conversations and privacy

    Walking the pages of the input items lists each item once; a conversation
    stored exchange by exchange is replayed message by message. *)

From stdpp Require Import pretty.
From S2P Require Import Prelude GoStrings Sse Canonical Capabilities Effects Envelope ResponseStream Json Sql ResponseTable Responses ResponseProps ChatParse Present PublicApi PublicResponses.

Local Open Scope Z_scope.

(** ** Pages *)

(** A client that follows [last_id] while there is more. *)
Fixpoint walk (fuel : nat) (limit order after : string) (items : list InputItem) : option (list (list InputItem)) :=
  match fuel with
  | O => None
  | S fuel' =>
      match paginateResponseItems limit order after items with
      | Err _ => None
      | Ok page =>
          if PgHasMore page then
            match PgLast page with
            | Some (IdText id) => (λ rest, PgData page :: rest) <$> walk fuel' limit order id items
            | _ => None
            end
          else Some [PgData page]
      end
  end.

(** Items a client can name: their identifiers are texts, not empty and
    distinct. *)
Definition named (i : InputItem) : Prop := exists s, InId i = Some (IdText s) /\ s <> "".
Definition distinct (items : list InputItem) : Prop := Forall named items /\ NoDup (InId <$> items).

Lemma after_id_found pre x rest id :
  InId x = Some (IdText id) -> NoDup (InId <$> pre ++ x :: rest) -> after_id id (pre ++ x :: rest) = Some rest.
Proof.
  intros Hx. induction pre as [|p pre IH]; simpl; intros Hn.
  - by rewrite bool_decide_eq_true_2.
  - apply NoDup_cons in Hn as [Hp Hn]. rewrite bool_decide_eq_false_2; [by apply IH|]. intros Heq. apply Hp.
    rewrite Heq, <- Hx. apply list_elem_of_fmap. exists x. split; [done|]. set_solver.
Qed.

Lemma page_limit_range raw n : page_limit raw = Ok n -> 1 <= n <= 100.
Proof.
  unfold page_limit. case_bool_decide; [intros [= <-]; lia|]. destruct (ParseInt _) as [k|]; [|done].
  destruct (_ || _)%bool eqn:Hr; [done|]. intros [= <-]. apply orb_false_iff in Hr as [? ?]. lia.
Qed.

(** What the client reads from a position on. *)
Definition reads (n : Z) (rest : list InputItem) (pages : list (list InputItem)) : Prop :=
  concat pages = rest /\ Forall (λ p, Z.of_nat (length p) <= n) pages.

Lemma walk_from raw_limit order items n ordered :
  page_limit raw_limit = Ok n -> page_order order items = Ok ordered -> distinct ordered ->
  forall fuel pre rest after, ordered = pre ++ rest -> (length rest < fuel)%nat ->
    (pre = [] /\ after = "" \/ exists x pre', pre = pre' ++ [x] /\ InId x = Some (IdText after) /\ after <> "") ->
    exists pages, walk fuel raw_limit order after items = Some pages /\ reads n rest pages.
Proof.
  intros Hl Ho [Hnamed Hnodup] fuel. pose proof (page_limit_range _ _ Hl) as Hn.
  induction fuel as [|fuel IH]; intros pre rest after Heq Hfuel Hpos; [lia|].
  assert (Hpage : paginateResponseItems raw_limit order after items = Ok (page_of n rest)).
  { unfold paginateResponseItems. rewrite Hl, Ho. destruct Hpos as [[-> ->]|(x & pre' & -> & Hx & Hne)].
    - by rewrite bool_decide_eq_true_2, Heq.
    - rewrite bool_decide_eq_false_2 by done. rewrite Heq, <- app_assoc. simpl. rewrite (after_id_found _ _ _ after); [done|done|].
      by rewrite Heq, <- app_assoc in Hnodup. }
  simpl. rewrite Hpage. unfold page_of. destruct (n <? Z.of_nat (length rest)) eqn:Hmore; simpl.
  2: { exists [rest]. split; [done|]. split; [simpl; apply app_nil_r|]. apply Forall_singleton. lia. }
  destruct (last (take (Z.to_nat n) rest)) as [x|] eqn:Hlast.
  2: { apply last_None in Hlast. assert (length (take (Z.to_nat n) rest) = 0%nat) by (by rewrite Hlast).
       rewrite length_take in *. lia. }
  apply last_Some in Hlast as (shown & Hshown).
  assert (Hx : named x).
  { rewrite Forall_forall in Hnamed. apply Hnamed. rewrite Heq, <- (take_drop (Z.to_nat n) rest), Hshown. set_solver. }
  destruct Hx as (id & Hid & Hne). simpl. rewrite Hid.
  destruct (IH (pre ++ take (Z.to_nat n) rest) (drop (Z.to_nat n) rest) id) as (pages & -> & Hc & Hs).
  - rewrite <- app_assoc, take_drop. done.
  - rewrite length_drop. lia.
  - right. exists x, (pre ++ shown). by rewrite Hshown, app_assoc.
  - exists (take (Z.to_nat n) rest :: pages). split; [done|]. split; [simpl; by rewrite Hc, take_drop|].
    constructor; [rewrite length_take; lia|done].
Qed.

(** A client that pages through the input items of a response, asking each
    time for what follows the last item it saw, gets every item exactly once,
    in the order asked for, in pages of at most the limit, and is done after
    the last: at every limit and order the API accepts, when the items carry
    distinct identifiers. *)
Theorem pages_list_every_item_once limit order items n ordered :
  page_limit limit = Ok n -> page_order order items = Ok ordered -> distinct ordered ->
  exists pages, walk (S (length items)) limit order "" items = Some pages /\ concat pages = ordered /\
    Permutation ordered items /\ Forall (λ p, Z.of_nat (length p) <= n) pages.
Proof.
  intros Hl Ho Hd.
  assert (Hp : Permutation ordered items).
  { unfold page_order in Ho. repeat case_match; simplify_eq; [|done]. apply reverse_Permutation. }
  destruct (walk_from limit order items n ordered Hl Ho Hd (S (length items)) [] ordered "") as (pages & Hw & Hc & Hs).
  - done.
  - rewrite Hp. lia.
  - by left.
  - by exists pages.
Qed.

(** ** The message a stored output replays *)

Definition item_type (t : ItemType) : string :=
  match t with ItemMessage => "message" | ItemReasoning => "reasoning" | ItemFunctionCall => "function_call" end.

(** The fields of an output item as [StoredResponseMessages] decodes them. *)
Definition stored_view (i : Item) : storedItem :=
  match ItType i with
  | ItemMessage => mkStoredItem "message" "assistant" "" "" "" (if ItFilled i then [("output_text", ItText i)] else []) []
  | ItemReasoning => mkStoredItem "reasoning" "" "" "" "" [] (if ItFilled i then [("summary_text", ItText i)] else [])
  | ItemFunctionCall => mkStoredItem "function_call" "" (ItCallID i) (ItName i) (ItText i) [] []
  end.

Definition replayable (c : ToolCall) : bool := callable (TcID c) (TfName (TcFunction c)) (TfArguments (TcFunction c)).
Definition replayed_call (c : ToolCall) : ToolCall := function_call (TcID c) (TfName (TcFunction c)) (TfArguments (TcFunction c)).

Definition thought (m : ChatMessage) : string := match MsReasoning m with Some r => RcText r | None => "" end.

(** What one choice adds to the assistant's message. *)
Definition add_choice (m : ChatMessage) (c : ChatChoice) : ChatMessage :=
  let said := messageText (MsContent (CcMessage c)) in
  let reasoned := thought (CcMessage c) in
  mkMessage (MsRole m) (MsName m) (MsContent m ++ (if bool_decide (said = "") then [] else TextContent said)) (MsPartial m)
    (MsToolCalls m ++ (replayed_call <$> filter (λ c, replayable c = true) (MsToolCalls (CcMessage c)))) (MsToolCallID m)
    (if bool_decide (reasoned = "") then MsReasoning m else Some (mkReasoningContent (thought m +:+ reasoned))).

(** The assistant's message: the texts, calls and reasoning of all choices. *)
Definition assistant_of (choices : list ChatChoice) : ChatMessage := foldl add_choice (plain_message RoleAssistant []) choices.

Lemma message_eta m :
  m = mkMessage (MsRole m) (MsName m) (MsContent m) (MsPartial m) (MsToolCalls m) (MsToolCallID m) (MsReasoning m).
Proof. by destruct m. Qed.

Lemma add_calls calls responseID choice index m :
  foldl add_item m (stored_view <$> call_items responseID choice index calls) =
  mkMessage (MsRole m) (MsName m) (MsContent m) (MsPartial m)
    (MsToolCalls m ++ (replayed_call <$> filter (λ c, replayable c = true) calls)) (MsToolCallID m) (MsReasoning m).
Proof.
  revert index m. induction calls as [|c calls IH]; intros index m; simpl.
  - rewrite app_nil_r. apply message_eta.
  - rewrite IH, filter_cons.
    assert (Ha : forall m id, add_item m (stored_view (mkItem id ItemFunctionCall "completed" (TcID c) (TfName (TcFunction c))
                   (TfArguments (TcFunction c)) true)) = if replayable c then add_call m (replayed_call c) else m) by done.
    rewrite Ha. destruct (replayable c) eqn:Hc.
    + rewrite decide_True by done. simpl. by rewrite <- app_assoc.
    + by rewrite decide_False by done.
Qed.

Lemma add_choice_items responseID index choice m :
  foldl add_item m (stored_view <$> choice_items responseID index choice) = add_choice m choice.
Proof.
  unfold choice_items. rewrite !fmap_app, !foldl_app, add_calls. unfold add_choice, thought.
  destruct (MsReasoning (CcMessage choice)) as [r|]; [case_bool_decide as Hr|]; simpl;
    case_bool_decide as Ht; simpl; rewrite ?app_nil_r; done.
Qed.

Lemma assistant_replayed responseID choices index m :
  foldl add_item m (stored_view <$> (present_choices responseID index choices).1) = foldl add_choice m choices.
Proof.
  revert index m. induction choices as [|c choices IH]; intros index m; simpl; [done|].
  destruct (present_choices responseID (index + 1) choices) as [items t] eqn:Hp. simpl.
  rewrite fmap_app, foldl_app, add_choice_items, <- IH with (index := index + 1). by rewrite Hp.
Qed.

(** ** Conversations *)

(** One exchange of a conversation: the input of a request, the messages it
    was parsed into, the answer and its stored text. *)
Record Exchange := mkExchange {
  ExID : UUID;
  ExInput : string;
  ExMessages : list ChatMessage;
  ExRequest : ResponsesRequest;
  ExResponse : ChatResponse;
  ExOutput : Bytes;
}.

(** What an exchange contributes to the next request. *)
Definition exchanged (x : Exchange) : list ChatMessage :=
  let assistant := assistant_of (RsChoices (ExResponse x)) in
  if says_something assistant then ExMessages x ++ [assistant] else ExMessages x.

Section conversation.
Context (dc : Decoders) (uuid_Parse : string -> result GoError UUID) (marshal : PresentedResponse -> result GoError Bytes).
Context (get : nat -> UUID -> result RespError ResponseRecord).

(** Decoding the output of an encoded response answers its items. *)
Hypothesis decode_marshal : forall p b, marshal p = Ok b -> dc_output dc (text b) = Ok (stored_view <$> PrOutput p).

(** The exchange is stored, completed, as one that continues [previous]. *)
Record kept (previous : option UUID) (x : Exchange) : Prop := {
  kp_read n : exists r, get n (ExID x) = Ok r /\ RrStatus r = StatusCompleted /\ RrPreviousResponseID r = previous /\
    text (RrInput r) = ExInput x /\ RrOutput r = ExOutput x;
  kp_some : ExOutput x <> [];
  kp_output : marshal (PresentResponseWithID (external (ExID x)) (ExResponse x) (ExRequest x)) = Ok (ExOutput x);
  kp_input : parseResponseInput dc (ExInput x) = Ok (ExMessages x);
}.

(** A conversation, the latest exchange first. *)
Fixpoint linked (xs : list Exchange) : Prop :=
  match xs with [] => True | x :: xs' => kept (ExID <$> head xs') x /\ linked xs' end.

Definition records_of (r : ResponseRecord) (x : Exchange) : Prop := text (RrInput r) = ExInput x /\ RrOutput r = ExOutput x.

Lemma chain_linked xs x fuel n :
  linked (x :: xs) ->
  exists records, chain get (S fuel) n (ExID x) = Ok (records, bool_decide (fuel < length xs)%nat) /\
    (length xs <= fuel -> Forall2 records_of records (x :: xs))%nat.
Proof.
  revert x fuel n. induction xs as [|y xs IH]; intros x fuel n [Hx Hxs]; simpl.
  all: destruct (kp_read _ _ Hx n) as (r & -> & Hs & Hp & Hi & Ho); rewrite Hs, Hp, Ho; simpl.
  all: destruct (ExOutput x) eqn:Hout; [by destruct (kp_some _ _ Hx)|]; simpl.
  - exists [r]. split; [done|]. intros _. repeat constructor; [done|congruence].
  - destruct fuel as [|fuel]; simpl.
    + exists [r]. split; [done|]. lia.
    + destruct (IH y fuel (S n) Hxs) as (records & Hc & Hr). simpl in Hc. rewrite Hc. exists (r :: records). split.
      * do 2 f_equal. f_equal. apply bool_decide_ext. lia.
      * intros Hl. constructor; [by split; [|congruence]|]. apply Hr. lia.
Qed.

Lemma stored_messages x previous :
  kept previous x -> StoredResponseMessages dc (ExInput x) (text (ExOutput x)) = Ok (exchanged x).
Proof using decode_marshal.
  intros Hx. unfold StoredResponseMessages. rewrite (kp_input _ _ Hx), (decode_marshal _ _ (kp_output _ _ Hx)).
  unfold PresentResponseWithID, exchanged, assistant_of. destruct (present_choices _ _ _) as [items t] eqn:Hp. simpl.
  rewrite <- (assistant_replayed (external (ExID x)) (RsChoices (ExResponse x)) 0), Hp. done.
Qed.

Lemma replay_linked records xs :
  Forall2 records_of records xs -> Forall (λ x, exists previous, kept previous x) xs ->
  replay dc records = Ok (concat (exchanged <$> xs)).
Proof using decode_marshal.
  induction 1 as [|r x records xs [Hi Ho] _ IH]; [done|]. intros [(previous & Hx) Hxs]%Forall_cons. simpl.
  rewrite Hi, Ho, (stored_messages x previous Hx), (IH Hxs). done.
Qed.

Lemma linked_kept xs : linked xs -> Forall (λ x, exists previous, kept previous x) xs.
Proof. induction xs as [|x xs IH]; [constructor|]. intros [Hx Hxs]. constructor; [by eexists|by apply IH]. Qed.
End conversation.

(** The identifier shown to clients names the response. *)
Lemma parse_external uuid_Parse id :
  uuid_Parse (drop_dashes id) = Ok id -> parseResponseIdentifier uuid_Parse (external id) = Ok id.
Proof. done. Qed.


(** * Stored responses are private to their key

    What the handlers of the stored responses answer a gateway key depends only
    on the responses of that key, and what they change are its responses. *)

Definition owned (k : UUID) (r : EncryptedRecord) : Prop := ErGatewayKeyID r = k.

#[export] Instance owned_dec k r : Decision (owned k r).
Proof. unfold owned. apply _. Defined.

(** The responses of a key. *)
Definition visible (k : UUID) (db : Db) : gmap UUID EncryptedRecord := filter (λ p, owned k p.2) (db_responses db).

(** Conversations stay within a key. *)
Definition own_threads (db : Db) : Prop :=
  forall id r p, db_responses db !! id = Some r -> ErPreviousResponseID r = Some p ->
  exists r', db_responses db !! p = Some r' /\ ErGatewayKeyID r' = ErGatewayKeyID r.

(** The responses of other keys are as they were. *)
Definition untouched (k : UUID) (db db' : Db) : Prop :=
  forall id r, db_responses db !! id = Some r -> ErGatewayKeyID r <> k -> db_responses db' !! id = Some r.

Record guarded (k : UUID) (db db' : Db) : Prop := {
  gd_untouched : untouched k db db';
  gd_threads : own_threads db';
}.

Lemma guarded_same k db db' : db_responses db' = db_responses db -> own_threads db -> guarded k db db'.
Proof. intros Heq Ho. split; [intros id r; by rewrite Heq|]. intros id r p. rewrite !Heq. apply Ho. Qed.

(** ** Reads *)

Lemma select_visible c id k db :
  GetResponseRecord c id k db =
  match cn_fault c with
  | Some e => Err e
  | None => match visible k db !! id with Some r => Ok r | None => Err NoRows end
  end.
Proof.
  unfold GetResponseRecord, select_one, visible. destruct (cn_fault c); [done|]. rewrite map_lookup_filter.
  destruct (db_responses db !! id) as [r|]; [|done]. simpl. unfold owned. case_bool_decide; case_guard; naive_solver.
Qed.

Section reads.
Context {aead : AEAD} (envelope : EnvelopeCipher) (dc : Decoders) (uuid_Parse : string -> result GoError UUID)
  (decode_items : string -> result GoError (list InputItem)) (text_item : string -> string) (conns : nat -> nat -> Conn)
  (has_store : bool) (principal : GatewayPrincipal) (w w' : World).

Hypothesis same_view : visible (GpKeyID principal) (w_db w) = visible (GpKeyID principal) (w_db w').

Lemma getResponse_from_visible n id :
  getResponse_from envelope conns principal w n id = getResponse_from envelope conns principal w' n id.
Proof using same_view.
  unfold getResponse_from, Get, Repo_Get. rewrite !select_visible. by rewrite same_view.
Qed.

Lemma chain_ext (get get' : nat -> UUID -> result RespError ResponseRecord) fuel n id :
  (forall n id, get n id = get' n id) -> chain get fuel n id = chain get' fuel n id.
Proof.
  intros Hg. revert n id. induction fuel as [|fuel IH]; intros n id; simpl; [done|]. rewrite Hg.
  destruct (get' n id) as [r|]; [|done]. destruct (_ || _)%bool; [done|]. destruct (RrPreviousResponseID r); [|done]. by rewrite IH.
Qed.

Lemma previous_visible id :
  previousResponseMessages uuid_Parse dc (getResponse_from envelope conns principal w) id =
  previousResponseMessages uuid_Parse dc (getResponse_from envelope conns principal w') id.
Proof using same_view.
  unfold previousResponseMessages. case_bool_decide; [done|]. destruct (parseResponseIdentifier _ _) as [r|]; [|done].
  rewrite (chain_ext _ (getResponse_from envelope conns principal w')); [done|]. apply getResponse_from_visible.
Qed.

Lemma prepare_visible q :
  prepareResponse envelope dc uuid_Parse conns has_store principal q w =
  prepareResponse envelope dc uuid_Parse conns has_store principal q w'.
Proof using same_view.
  unfold prepareResponse. destruct (readBody q) as [body|]; [|done].
  destruct (ParseResponsesRequest _ _ _) as [request|]; [|done]. destruct (_ && _)%bool; [done|]. by rewrite previous_visible.
Qed.

Lemma read_visible q allow n :
  readStoredResponse envelope uuid_Parse conns has_store principal q allow n w =
  readStoredResponse envelope uuid_Parse conns has_store principal q allow n w'.
Proof using same_view.
  unfold readStoredResponse. destruct (parseResponseID _ _); [|done]. destruct (negb _); [done|].
  by rewrite getResponse_from_visible.
Qed.

Lemma items_visible q :
  (inputItems envelope dc uuid_Parse decode_items text_item conns has_store principal q w).1 =
  (inputItems envelope dc uuid_Parse decode_items text_item conns has_store principal q w').1.
Proof using same_view.
  unfold inputItems. destruct (parseResponseID _ _); [|done]. destruct (negb _); [done|].
  rewrite getResponse_from_visible. destruct (getResponse_from _ _ _ _ _ _) as [r|]; [|done].
  destruct (responseInputItems _ _ _ _ _) as [items|]; [|done]. by destruct (paginateResponseItems _ _ _ _).
Qed.

Lemma delete_visible q :
  (deleteResponse uuid_Parse conns has_store principal q w).1 = (deleteResponse uuid_Parse conns has_store principal q w').1.
Proof using same_view.
  unfold deleteResponse. destruct (parseResponseID _ _) as [id|]; [|done]. destruct (negb _); [done|].
  unfold Delete_. destruct (_ || _)%bool; [done|]. unfold Repo_Delete, on_db, translated, only_error, DeleteResponseRecord.
  change (select_one ?c ?i _ (db_responses ?d)) with (GetResponseRecord c i (GpKeyID principal) d).
  rewrite !select_visible, <- same_view. destruct (cn_fault _) as [e|]; simpl; [by repeat case_match|].
  by destruct (visible _ _ !! id).
Qed.
End reads.

(** ** Writes *)

(** Two rows alike in what a conversation is made of. *)
Definition same_thread (r r' : EncryptedRecord) : Prop :=
  ErGatewayKeyID r' = ErGatewayKeyID r /\ ErPreviousResponseID r' = ErPreviousResponseID r.

Lemma update_guarded c k id guard f db res db' :
  (forall r, guard r = true -> ErGatewayKeyID r = k) -> (forall r, same_thread r (f r)) ->
  own_threads db -> update_response c id guard f db = (res, db') -> guarded k db db'.
Proof.
  intros Hg Hf Ho. unfold update_response, on_responses.
  destruct (update_one _ _ _ _ _ _) as [res' t] eqn:Hu. intros [= <- <-].
  apply update_one_inv in Hu as [(r & Hr & Hgr & _ & _ & ->)|(-> & _)]; [|by apply guarded_same].
  destruct (Hf r) as [Hk Hp]. split.
  - intros id' r' Hr' Hne. simpl. rewrite lookup_insert_ne; [done|]. intros <-. rewrite Hr in Hr'. injection Hr' as <-.
    by apply Hne, Hg.
  - assert (Hkept : forall p r0, db_responses db !! p = Some r0 ->
      exists r', <[id:=touch (cn_now c) (f r)]> (db_responses db) !! p = Some r' /\ ErGatewayKeyID r' = ErGatewayKeyID r0).
    { intros p r0 Hp0. destruct (decide (p = id)) as [->|Hne]; [|rewrite lookup_insert_ne by done; by exists r0].
      rewrite lookup_insert_eq. eexists. split; [done|]. simpl. rewrite Hr in Hp0. by injection Hp0 as <-. }
    intros id' r' p Hr' Hprev. simpl in *.
    assert (Horig : exists r0, db_responses db !! id' = Some r0 /\ ErPreviousResponseID r0 = Some p /\ ErGatewayKeyID r0 = ErGatewayKeyID r').
    { destruct (decide (id' = id)) as [->|Hne]; [|rewrite lookup_insert_ne in Hr' by done; by exists r'].
      rewrite lookup_insert_eq in Hr'. injection Hr' as <-. exists r. simpl in *. split_and!; congruence. }
    destruct Horig as (r0 & H0 & H1 & <-). destruct (Ho id' r0 p H0 H1) as (rp & Hrp & <-). by apply Hkept.
Qed.

Lemma delete_guarded c k id db res db' : own_threads db -> DeleteResponseRecord c id k db = (res, db') -> guarded k db db'.
Proof.
  intros Ho. unfold DeleteResponseRecord. destruct (select_one _ _ _ _) as [r|] eqn:Hs; [|intros [= _ <-]; by apply guarded_same].
  intros [= _ <-]. unfold select_one in Hs. destruct (cn_fault c); [done|].
  destruct (db_responses db !! id) as [r0|] eqn:Hr; [|done]. case_bool_decide as Hk; [|done]. injection Hs as ->. split.
  - intros id' r' Hr' Hne. simpl. rewrite lookup_fmap, lookup_delete_ne, Hr' by congruence. simpl.
    destruct (sql_eq _ _) eqn:Hq; [|done]. unfold sql_eq in Hq. apply bool_decide_eq_true in Hq.
    destruct (Ho id' r' id Hr' Hq) as (rp & Hrp & Hrk). congruence.
  - intros id' r' p. simpl. rewrite !lookup_fmap. destruct (decide (id' = id)) as [->|Hne]; [by rewrite lookup_delete_eq|].
    rewrite lookup_delete_ne by done. destruct (db_responses db !! id') as [r1|] eqn:H1; [|done]. simpl. intros [= <-] Hp.
    destruct (sql_eq (ErPreviousResponseID r1) id) eqn:Hq; [done|].
    assert (Hpne : p <> id) by (intros ->; unfold sql_eq in Hq; by rewrite bool_decide_eq_false in Hq).
    rewrite lookup_delete_ne by done. destruct (Ho id' r1 p H1 Hp) as (rp & -> & Hrk). simpl. eexists. split; [done|].
    rewrite <- Hrk. by destruct (sql_eq (ErPreviousResponseID rp) id).
Qed.

(** A new row of the key that continues a row of the key. *)
Definition own_previous (k : UUID) (previous : option UUID) (db : Db) : Prop :=
  match previous with Some p => exists r, db_responses db !! p = Some r /\ ErGatewayKeyID r = k | None => True end.

Lemma insert_guarded c k r db res db' :
  ErGatewayKeyID r = k -> own_previous k (ErPreviousResponseID r) db -> own_threads db ->
  insert_response c r db = (res, db') -> guarded k db db'.
Proof.
  intros Hk Hp Ho. unfold insert_response, on_responses. destruct (insert_one _ _ _ _ _) as [res' t] eqn:Hu. intros [= <- <-].
  apply insert_one_inv in Hu as [(Hn & _ & _ & ->)|(-> & _)]; [|by apply guarded_same].
  assert (Hne : forall id r0, db_responses db !! id = Some r0 -> <[ErID r:=r]> (db_responses db) !! id = Some r0).
  { intros id r0 H0. rewrite lookup_insert_ne; [done|]. intros <-. congruence. }
  split.
  - intros id r0 H0 _. by apply Hne.
  - intros id r0 p. simpl. destruct (decide (id = ErID r)) as [->|Hid].
    + rewrite lookup_insert_eq. intros [= <-] Hpr. rewrite Hpr in Hp. destruct Hp as (rp & Hrp & Hrk).
      exists rp. split; [by apply Hne|congruence].
    + rewrite lookup_insert_ne by done. intros H0 H1. destruct (Ho id r0 p H0 H1) as (rp & Hrp & Hrk).
      exists rp. split; [by apply Hne|done].
Qed.

Lemma createBackground_guarded c k r db res db' :
  ErGatewayKeyID r = k -> own_previous k (ErPreviousResponseID r) db -> own_threads db ->
  CreateBackgroundResponseRecord c r db = (res, db') -> guarded k db db'.
Proof.
  intros Hk Hp Ho. unfold CreateBackgroundResponseRecord. cbv zeta.
  destruct (cn_fault c); [intros [= _ <-]; by apply guarded_same|]. destruct (negb _); [intros [= _ <-]; by apply guarded_same|].
  destruct (ErIdempotencyKey r) as [key|]; [|by apply insert_guarded]. destruct (List.find _ _); [|by apply insert_guarded].
  case_bool_decide; intros [= _ <-]; by apply guarded_same.
Qed.

Lemma encryptRecord_thread `{!AEAD} env rnd record e :
  encryptRecord env rnd record = Ok e ->
  ErGatewayKeyID e = RrGatewayKeyID record /\ ErPreviousResponseID e = RrPreviousResponseID record.
Proof. unfold encryptRecord. intros He. repeat case_match; by simplify_eq. Qed.

Section writes.
Context {aead : AEAD} (envelope : EnvelopeCipher) (random : UUID -> string -> nat -> result string bytes).
Context (dc : Decoders) (sha256 : string -> string) (uuid_Parse : string -> result GoError UUID)
  (marshal : PresentedResponse -> result GoError Bytes) (conns : nat -> nat -> Conn) (has_store : bool)
  (principal : GatewayPrincipal).

Lemma delete_private q w :
  own_threads (w_db w) ->
  guarded (GpKeyID principal) (w_db w) (w_db (deleteResponse uuid_Parse conns has_store principal q w).2).
Proof.
  intros Ho. unfold deleteResponse. destruct (parseResponseID _ _) as [id|]; [|by apply guarded_same].
  destruct (negb _); [by apply guarded_same|]. unfold Delete_. destruct (_ || _)%bool; [by apply guarded_same|].
  unfold Repo_Delete, on_db, translated, only_error. simpl.
  destruct (DeleteResponseRecord _ _ _ _) as [res db'] eqn:Hd. apply delete_guarded in Hd; [|done]. simpl.
  destruct res as [u|e]; [done|]. by destruct (translateResponseError e).
Qed.

Lemma cancel_private q w :
  own_threads (w_db w) ->
  guarded (GpKeyID principal) (w_db w) (w_db (cancelResponse envelope uuid_Parse conns has_store principal q w).2).
Proof.
  intros Ho. unfold cancelResponse. destruct (parseResponseID _ _) as [id|]; [|by apply guarded_same].
  destruct (negb _); [by apply guarded_same|]. unfold RequestCancellation. destruct (_ || _)%bool; [by apply guarded_same|].
  destruct (Repo_Get _ _ _ _) as [r|e]; [|destruct e; by apply guarded_same].
  destruct (negb _); [by apply guarded_same|]. unfold Repo_RequestCancellation, on_db, translated, only_error. simpl.
  destruct (RequestResponseCancellation _ _ _ _) as [res db'] eqn:Hd.
  apply (update_guarded _ (GpKeyID principal)) in Hd; [| |done|done].
  - destruct res as [u|e]; [done|]. simpl. by destruct (translateResponseError e).
  - intros r0 Hg. apply andb_true_iff in Hg as [Hg _]. apply andb_true_iff in Hg as [Hg _]. by apply bool_decide_eq_true in Hg.
Qed.

(** A response named as the previous one was read under the key. *)
Lemma previous_own w id previous messages :
  previousResponseMessages uuid_Parse dc (getResponse_from envelope conns principal w) id = Ok (previous, messages) ->
  own_previous (GpKeyID principal) previous (w_db w).
Proof.
  unfold previousResponseMessages. case_bool_decide; [by intros [= <- _]|]. destruct (parseResponseIdentifier _ _) as [p|]; [|done].
  destruct (chain _ 100 0 p) as [[records more]|] eqn:Hc; [|done]. destruct more; [done|].
  destruct (replay _ _); [|done]. intros [= <- _]. simpl in *.
  destruct (getResponse_from envelope conns principal w 0 p) as [r|] eqn:Hg; [|done].
  unfold getResponse_from, Get, Repo_Get, GetResponseRecord, select_one in Hg. destruct (_ || _)%bool; [done|].
  destruct (cn_fault _); [done|]. destruct (db_responses (w_db w) !! p) as [e|] eqn:He; [|done].
  destruct (bool_decide (ErGatewayKeyID e = _)) eqn:Hk; [|done]. exists e. by apply bool_decide_eq_true in Hk.
Qed.

Lemma enqueue_private q id body request previous key w :
  own_threads (w_db w) -> own_previous (GpKeyID principal) previous (w_db w) ->
  guarded (GpKeyID principal) (w_db w)
    (w_db (enqueueResponse envelope random sha256 conns principal q id body request previous key w).2).
Proof.
  intros Ho Hp. unfold enqueueResponse. destruct (negb _); [by apply guarded_same|]. unfold Enqueue.
  destruct (encryptRecord _ _ _) as [record|] eqn:He; [|by apply guarded_same]. apply encryptRecord_thread in He as [H1 H2].
  unfold Repo_CreateBackground, on_db, translated. simpl.
  destruct (CreateBackgroundResponseRecord _ _ _) as [res db'] eqn:Hc.
  apply (createBackground_guarded _ (GpKeyID principal)) in Hc; [|done|by rewrite H2|done]. simpl.
  destruct res as [created|e]; [|done]. simpl. by destruct (decryptRecord _ _).
Qed.

Lemma save_private q id request previous result w :
  own_threads (w_db w) -> own_previous (GpKeyID principal) previous (w_db w) ->
  guarded (GpKeyID principal) (w_db w)
    (w_db (saveResponse envelope random marshal conns principal q id request previous result w).2).
Proof.
  intros Ho Hp. unfold saveResponse. cbv zeta. destruct (negb _); [by apply guarded_same|].
  destruct (marshal _) as [encoded|]; [|by apply guarded_same]. unfold SaveCompleted.
  destruct (encryptRecord _ _ _) as [record|] eqn:He; [|by apply guarded_same]. apply encryptRecord_thread in He as [H1 H2].
  unfold Repo_CreateCompleted, on_db, translated, only_error. simpl.
  destruct (CreateCompletedResponseRecord _ _ _) as [res db'] eqn:Hc.
  apply (insert_guarded _ (GpKeyID principal)) in Hc; [|done|simpl; by rewrite H2|done]. simpl. by destruct res.
Qed.

Lemma create_private chat id q w :
  (forall command w, db_responses (w_db (chat command w).2) = db_responses (w_db w)) -> own_threads (w_db w) ->
  guarded (GpKeyID principal) (w_db w)
    (w_db (createResponse envelope random dc sha256 uuid_Parse marshal conns has_store chat id principal q w).2).
Proof.
  intros Hchat Ho. unfold createResponse.
  destruct (prepareResponse _ _ _ _ _ _ _ w) as [[[[body request] previous] key]|] eqn:Hp; [|by apply guarded_same].
  assert (Hprev : own_previous (GpKeyID principal) previous (w_db w)).
  { unfold prepareResponse in Hp. destruct (readBody q); [|done]. destruct (ParseResponsesRequest _ _ _); [|done].
    destruct (_ && _)%bool; [done|]. destruct (previousResponseMessages _ _ _ _) as [[p ms]|] eqn:Hm; [|done].
    destruct (parseIdempotencyKey _); [|done]. injection Hp as _ _ <- _. by eapply previous_own. }
  destruct (ReBackground request); [by apply enqueue_private|]. cbv zeta. destruct (Stream_ _); [by apply guarded_same|].
  specialize (Hchat (command_of principal (ReChat request) (sha256 body) key) w).
  destruct (chat _ w) as [[result|e] w1]; simpl in Hchat; [|by apply guarded_same].
  assert (Ho1 : own_threads (w_db w1)) by (intros a b d; rewrite !Hchat; apply Ho).
  assert (Hp1 : own_previous (GpKeyID principal) previous (w_db w1)).
  { unfold own_previous in *. destruct previous; [|done]. by rewrite Hchat. }
  destruct (save_private q id request previous result w1 Ho1 Hp1) as [H1 H2]. split; [|done].
  intros a b Ha. apply H1. by rewrite Hchat.
Qed.
End writes.

