(* ===== verification/PresentProps.v ===== *)
(** * What the public presentation shows

    Errors of an upstream reach the client only by their kind; the event
    stream of a chat, read with the decoder the gateway itself uses, is the
    sequence of frames that was written. *)

From S2P Require Import Prelude GoStrings Canonical Capabilities Effects Json Wire Sse SseProps ResponseStream Present PublicApi.

Local Open Scope Z_scope.

(** ** Errors *)

Definition public_status (e : ErrorReply) : Prop := 400 <= EpStatus e <= 599.

Lemma WriteError_status requestID e : public_status (WriteError requestID e).
Proof.
  unfold public_status, WriteError. simpl. destruct (_ || _)%bool eqn:Hs.
  - by destruct (Kind e).
  - apply orb_false_iff in Hs as [? ?]. lia.
Qed.

(** An error of an upstream, as opposed to one of the gateway. *)
Definition upstream (e : Error) : Prop := Provider e <> "" /\ Capability_ e = "".

(** What the client may learn of it. *)
Definition exposed (e : Error) := (Kind e, Parameter_ e, EModel e, HTTPStatus e, RetryAfter_ e).

Lemma upstream_hidden requestID e e' :
  upstream e -> upstream e' -> exposed e = exposed e' -> WriteError requestID e = WriteError requestID e'.
Proof.
  intros [H1 H2] [H3 H4] [= Hk Hp Hm Hs Hr]. unfold WriteError, PresentError.
  rewrite Hk, Hp, Hm, Hs, Hr, H2, H4.
  by rewrite (bool_decide_eq_false_2 _ H1), (bool_decide_eq_false_2 _ H3).
Qed.

Lemma ClassifyError_upstream std policy status headers body : upstream (ClassifyError std policy status headers body).
Proof.
  unfold ClassifyError. destruct (decodeJSON _ _ _) as [envelope|]; [|split; [by destruct (PoKind policy)|done]].
  cbv zeta. unfold classifyWireError. split; simpl; [by destruct (PoKind policy)|done].
Qed.

Lemma ClassifyError_constants std policy status headers body :
  EModel (ClassifyError std policy status headers body) = "" /\ HTTPStatus (ClassifyError std policy status headers body) = status.
Proof. unfold ClassifyError. by destruct (decodeJSON std (decode_error std) body). Qed.

(** The text of an upstream's error is hidden: whatever a provider answers,
    two answers that agree on the kind of error, the parameter named and the
    retry time are presented by the same status, headers and body, with the
    gateway as the provider and a code and message of its own.  Every error is
    presented with a status between 400 and 599. *)
Theorem upstream_errors_hidden std policy headers requestID status body body' :
  let e := ClassifyError std policy status headers body in
  let e' := ClassifyError std policy status headers body' in
  Kind e = Kind e' -> Parameter_ e = Parameter_ e' -> RetryAfter_ e = RetryAfter_ e' ->
  WriteError requestID e = WriteError requestID e' /\ public_status (WriteError requestID e) /\
  EvProvider (EpBody (WriteError requestID e)) = PublicProvider /\
  (EvCode (EpBody (WriteError requestID e)), EvMessage (EpBody (WriteError requestID e))) = publicUpstreamError (Kind e).
Proof.
  cbv zeta. intros Hk Hp Hr. pose proof (ClassifyError_upstream std policy status headers body) as He.
  pose proof (ClassifyError_upstream std policy status headers body') as He'. split_and!.
  - apply upstream_hidden; [done|done|]. unfold exposed.
    destruct (ClassifyError_constants std policy status headers body) as [-> ->].
    destruct (ClassifyError_constants std policy status headers body') as [-> ->]. by rewrite Hk, Hp, Hr.
  - apply WriteError_status.
  - unfold WriteError, PresentError. simpl. by case_match.
  - destruct He as [H1 H2]. unfold WriteError, PresentError. simpl. rewrite H2, (bool_decide_eq_false_2 _ H1). simpl.
    by destruct (publicUpstreamError _).
Qed.

(** ** Frames *)

Section frames.
Context (marshal : Chunk + ErrorEnvelope -> string).

(** The data of a frame. *)
Definition payload (f : Frame) : bytes :=
  chars (match f with FrameChunk c => marshal (inl c) | FrameError e => marshal (inr e) | FrameDone => "[DONE]" end).

Definition frame_bytes (f : Frame) : bytes := chars (frame_text marshal f).

Definition prefix : bytes := chars "data: ".

Lemma chars_app a b : chars (a +:+ b) = chars a ++ chars b.
Proof. induction a as [|c a IH]; [done|]. unfold chars in *. simpl. f_equal. apply IH. Qed.

Lemma frame_bytes_eq f : frame_bytes f = prefix ++ payload f ++ [LF; LF].
Proof. unfold frame_bytes, frame_text. destruct f; unfold WriteSSE, WriteSSEDone, data_frame; by rewrite !chars_app. Qed.

(** The event a client reads. *)
Definition frame_event (f : Frame) : SSEEvent := mkSSEEvent [] (payload f) [] None.

(** [json.Marshal] escapes line ends. *)
Hypothesis one_line : forall v, clean (chars (marshal v)).

Lemma clean_app a b : clean a -> clean b -> clean (a ++ b).
Proof. unfold clean. set_solver. Qed.

Lemma clean_payload f : clean (prefix ++ payload f).
Proof using one_line.
  apply clean_app; [|destruct f; [apply one_line..|]]; split; apply (bool_decide_unpack _); vm_compute; exact I.
Qed.

Lemma split_line l rest : clean l -> split_lines [] (l ++ LF :: rest) = l :: split_lines [] rest.
Proof. intros Hl. by rewrite split_clean by done. Qed.

Lemma split_frames fs :
  split_lines [] (concat (frame_bytes <$> fs)) = concat ((λ f, [prefix ++ payload f; []]) <$> fs).
Proof using one_line.
  induction fs as [|f fs IH]; [done|]. cbn [fmap list_fmap concat]. rewrite frame_bytes_eq.
  replace ((prefix ++ payload f ++ [LF; LF]) ++ concat (frame_bytes <$> fs))
    with ((prefix ++ payload f) ++ LF :: [] ++ LF :: concat (frame_bytes <$> fs)) by (by rewrite <- !app_assoc).
  rewrite (split_line (prefix ++ payload f)) by apply clean_payload. rewrite (split_line []) by apply clean_nil. by rewrite IH.
Qed.

Lemma stream_lines_frames fs :
  stream_lines (concat (frame_bytes <$> fs)) = concat ((λ f, [prefix ++ payload f; []]) <$> fs).
Proof using one_line. unfold stream_lines. rewrite split_frames. by destruct fs. Qed.

Lemma blocks_frame f ls : blocks [] ((prefix ++ payload f) :: [] :: ls) = [prefix ++ payload f] :: blocks [] ls.
Proof. done. Qed.

Lemma blocks_frames fs : blocks [] (concat ((λ f, [prefix ++ payload f; []]) <$> fs)) = ((λ f, [prefix ++ payload f]) <$> fs) ++ [[]].
Proof. induction fs as [|f fs IH]; [done|]. cbn [fmap list_fmap concat app]. by rewrite blocks_frame, IH. Qed.

Lemma value_payload name f :
  value_of name (prefix ++ payload f) = if decide (name = "data") then Some (payload f) else None.
Proof.
  unfold value_of. simpl. unfold split_field. simpl. unfold field_is.
  case_decide as Hn; [by subst|]. rewrite bool_decide_eq_false_2; [done|].
  intros Heq. apply Hn. apply (f_equal String.string_of_list_ascii) in Heq.
  by rewrite String.string_of_list_ascii_of_string in Heq.
Qed.

Lemma block_event_frame f : block_event [] [prefix ++ payload f] = Some (frame_event f).
Proof.
  unfold block_event, values. cbn [omap list_omap]. rewrite value_payload. simpl decide. unfold frame_event.
  unfold block_name, block_id, block_retry, values. cbn [omap list_omap]. rewrite !value_payload. done.
Qed.

Lemma block_id_frame f : block_id [] [prefix ++ payload f] = [].
Proof. unfold block_id, values. cbn [omap list_omap]. by rewrite value_payload. Qed.

Lemma stream_events_frames fs : stream_events (concat (frame_bytes <$> fs)) = frame_event <$> fs.
Proof using one_line.
  unfold stream_events. rewrite stream_lines_frames, blocks_frames.
  induction fs as [|f fs IH]; [done|]. cbn [fmap list_fmap app block_events].
  rewrite block_event_frame, block_id_frame. simpl. by rewrite <- IH.
Qed.

Lemma frames_fit max fs : Forall (λ f, blen (payload f) + 6 < limit max) fs -> fits (limit max) (concat (frame_bytes <$> fs)).
Proof using one_line.
  intros Hf. pose proof (limit_pos max) as Hp. split.
  - rewrite split_frames. induction Hf as [|f fs Hb _ IH]; [constructor|].
    cbn [fmap list_fmap concat app]. constructor; [|constructor; [unfold blen; simpl; lia|exact IH]].
    unfold blen in *. rewrite length_app. change (length prefix) with 6%nat. lia.
  - rewrite stream_lines_frames, blocks_frames. apply Forall_app. split.
    + induction Hf as [|f fs Hb _ IH]; [constructor|]. constructor; [|exact IH].
      unfold values. cbn [omap list_omap]. rewrite value_payload. simpl. lia.
    + apply Forall_singleton. unfold blen. simpl. lia.
Qed.
End frames.

(** ** The chat stream *)

Section chat.
Context (now : nat -> Z) (write : nat -> option GoError).

(** The frames of a list of events from the n-th frame on, up to the first
    write that fails. *)
Fixpoint delivered (n : nat) (events : list StreamEvent) : list Frame :=
  match events with
  | [] => []
  | e :: events' => frame_of (now n) e :: match write n with None => delivered (S n) events' | Some _ => [] end
  end.

Lemma deliverChat_frames id events s :
  SwFrames (deliverChat now write id events s) = SwFrames s ++ delivered (length (SwFrames s)) events.
Proof.
  revert s. induction events as [|e events IH]; intros s; simpl; [by rewrite app_nil_r|].
  unfold chatSink. destruct (write _); simpl; [done|]. rewrite IH. simpl. rewrite <- app_assoc, length_app. simpl.
  by rewrite Nat.add_1_r.
Qed.

Lemma deliverChat_kept id events s :
  SwCommitted s = Some id ->
  SwCommitted (deliverChat now write id events s) = Some id /\ SwRefused (deliverChat now write id events s) = SwRefused s.
Proof.
  revert s. induction events as [|e events IH]; intros s Hs; simpl; [done|].
  unfold chatSink. rewrite Hs. destruct (write _); simpl; [done|].
  by apply (IH (mkChatStream (Some id) _ (SwRefused s))).
Qed.

Lemma deliverChat_committed id events :
  let s := deliverChat now write id events (mkChatStream None [] None) in
  SwCommitted s = match events with [] => None | _ => Some id end /\ SwRefused s = None.
Proof.
  destruct events as [|e events]; simpl; [done|]. destruct (write 0); [done|]. by apply deliverChat_kept.
Qed.

(** Without failing writes every event is delivered. *)
Lemma delivered_all events n :
  (forall k, write k = None) -> delivered n events = imap (λ k e, frame_of (now (n + k)) e) events.
Proof.
  intros Hw. revert n. induction events as [|e events IH]; intros n; simpl; [done|].
  rewrite Hw, IH, Nat.add_0_r. f_equal. apply imap_ext. intros k x _. simpl. by rewrite Nat.add_succ_r.
Qed.
End chat.

(** The stream of a chat completion, however it is cut on its way, is read
    by the decoder the gateway uses for its own upstreams as exactly the frames
    written: one per event the workflow delivered, up to a failed write, then,
    if the workflow failed, the presented error and the end mark.  An HTTP
    error is written instead exactly when it failed before any event. *)
Theorem chat_stream_read_back marshal now write requestID gatewayRequest events workflowError max chunks :
  (forall v, clean (chars (marshal v))) ->
  let s := streamChat now write requestID true gatewayRequest events workflowError in
  Forall (λ f, blen (payload marshal f) + 6 < limit max) (SwFrames s) ->
  concat chunks = concat (frame_bytes marshal <$> SwFrames s) ->
  decode max chunks = Ok (frame_event marshal <$> SwFrames s) /\
  SwFrames s = delivered now write 0 events ++
    match workflowError, events with
    | Some e, _ :: _ => [FrameError (PresentError requestID e); FrameDone]
    | _, _ => []
    end /\
  SwRefused s = match workflowError, events with Some e, [] => Some (WriteError requestID e) | _, _ => None end /\
  ((forall k, write k = None) -> delivered now write 0 events = imap (λ k e, frame_of (now k) e) events).
Proof.
  intros Hm s Hf Hc. split_and!.
  - rewrite <- (stream_events_frames marshal Hm), <- Hc. apply decode_agrees. rewrite Hc. by apply frames_fit.
  - unfold s, streamChat. simpl. destruct (deliverChat_committed now write gatewayRequest events) as [Hco _].
    pose proof (deliverChat_frames now write gatewayRequest events (mkChatStream None [] None)) as Hfr. simpl in Hfr.
    destruct workflowError as [e|]; [|by rewrite Hfr, app_nil_r]. simpl in Hco. rewrite Hco.
    destruct events as [|ev events]; [done|]. cbn [SwFrames]. by rewrite Hfr.
  - unfold s, streamChat. simpl. destruct (deliverChat_committed now write gatewayRequest events) as [Hco Hre].
    simpl in Hco, Hre. destruct workflowError as [e|]; [|done]. rewrite Hco. by destruct events.
  - intros Hw. by apply delivered_all.
Qed.
