(* ===== verification/PublicDemo.v ===== *)
(** * Concrete runs of the public API

    Inputs on which the hypotheses of the theorems on the public API hold, with
    small tables in place of the JSON decoders. *)

From S2P Require Import Prelude GoStrings Canonical Capabilities Effects Json Envelope EnvelopeProps Wire Sse SseProps Sql ResponseTable Responses ResponseProps ResponseVault ResponseDemo ResponseStream ChatParse Present PublicApi PublicResponses PublicProps PublicWorkerProps PresentProps.

Local Open Scope Z_scope.

#[local] Existing Instance demo_aead.

#[export] Instance storedItem_eq_dec : EqDecision storedItem.
Proof. solve_decision. Defined.

(** ** Pages *)

Definition demo_items : list InputItem :=
  [mkInputItem (Some (IdText "i1")) "x"; mkInputItem (Some (IdText "i2")) "y"; mkInputItem (Some (IdText "i3")) "z"].

Lemma pages_list_every_item_once_witness :
  exists pages, walk 4 "2" "" "" demo_items = Some pages /\ concat pages = reverse demo_items.
Proof.
  destruct (pages_list_every_item_once "2" "" demo_items 2 (reverse demo_items)) as (pages & Hw & Hc & _).
  - vm_compute. reflexivity.
  - reflexivity.
  - split; [repeat constructor; eexists; split; done|]. by_table.
  - exists pages. split; [exact Hw|exact Hc].
Defined.

(** Two items that share an identifier: following [last_id] never ends. *)
Lemma repeated_identifier_loops fuel :
  walk fuel "1" "asc" "i" [mkInputItem (Some (IdText "i")) "x"; mkInputItem (Some (IdText "i")) "y"; mkInputItem (Some (IdText "j")) "z"] = None.
Proof. induction fuel as [|fuel IH]; [done|]. cbn [walk]. vm_compute paginateResponseItems. cbn. by rewrite IH. Qed.

(** ** Requests and conversations *)

Definition demo_wire : wireResponses :=
  mkWireResponses "m" "hi" "" [] "" false None true "" None None None None None.

Definition demo_call : ToolCall := mkToolCall "c1" "function" (mkToolFunctionCall "f" "{}").
Definition demo_answer : ChatMessage := mkMessage RoleAssistant "" (TextContent "hello") false [demo_call] "" (Some (mkReasoningContent "so")).
Definition demo_response : ChatResponse := mkChatResponse "r" "" "m" 0 [mkChatChoice 0 demo_answer FinishReasonStop] None.
Definition demo_view : list storedItem := stored_view <$> choice_items "resp_x" 0 (mkChatChoice 0 demo_answer FinishReasonStop).

Definition no_json {A} (_ : string) : result GoError A := Err (OtherError "invalid character").

Definition demo_dc : Decoders :=
  mkDecoders no_json (λ _, Ok (demo_wire, "")) (λ _, None) (λ s, Ok s) no_json no_json no_json no_json no_json no_json no_json
    (λ _, Ok demo_view).

(** Encodes the answers with the expected items. *)
Definition demo_marshal (p : PresentedResponse) : result GoError Bytes :=
  if decide (stored_view <$> PrOutput p = demo_view) then Ok (chars "1") else Err (OtherError "unsupported value").

Definition demo_request : ResponsesRequest :=
  mkResponsesRequest (responses_base "r" demo_wire []) "" "" true false "hi".

Definition demo_exchange (id : UUID) : Exchange :=
  mkExchange id "hi" [plain_message RoleUser (TextContent "hi")] demo_request demo_response (chars "1").

Definition demo_record (id : UUID) (previous : option UUID) : ResponseRecord :=
  mkResponseRecord id None "key" previous None [] StatusCompleted false (chars "hi") [] (chars "1") [] None None 0 0.

Definition demo_get (_ : nat) (id : UUID) : result RespError ResponseRecord :=
  if decide (id = "b") then Ok (demo_record "b" (Some "a")) else if decide (id = "a") then Ok (demo_record "a" None) else Err RNotFound.

Lemma demo_kept id previous :
  (forall n, demo_get n id = Ok (demo_record id previous)) ->
  kept demo_dc demo_marshal demo_get previous (demo_exchange id).
Proof.
  intros Hg. split.
  - intros n. exists (demo_record id previous). simpl. rewrite Hg. by split_and!.
  - done.
  - unfold demo_marshal. by rewrite decide_True.
  - vm_compute. reflexivity.
Qed.


(** ** Errors *)

(** The message is the body; the parameter names the account when asked to. *)
Definition error_std : Std :=
  mkStd (λ body, Ok (mkWireErrorEnvelope None body "" (if bool_decide (body = "leak") then "account 42" else "") "1302" "", ""))
    (λ _, None) (λ _, None) (λ _, Err (OtherError "invalid URL")).
Definition error_policy : wirePolicy := zhipuPolicy error_std zhipuCapabilities.

Lemma upstream_errors_hidden_witness :
  WriteError "r" (Wire.ClassifyError error_std error_policy 429 None "zhipu account 42 is exhausted") =
    WriteError "r" (Wire.ClassifyError error_std error_policy 429 None "try later") /\
  EvCode (EpBody (WriteError "r" (Wire.ClassifyError error_std error_policy 429 None "zhipu account 42 is exhausted"))) =
    "model_rate_limited".
Proof.
  destruct (upstream_errors_hidden error_std error_policy None "r" 429 "zhipu account 42 is exhausted" "try later") as (H & _ & _ & Hc).
  - vm_compute. reflexivity.
  - vm_compute. reflexivity.
  - vm_compute. reflexivity.
  - split; [exact H|]. exact (f_equal fst Hc).
Defined.

(** The parameter an upstream names is shown to the client as it is. *)
Lemma upstream_parameter_shown :
  EvParam (EpBody (WriteError "r" (Wire.ClassifyError error_std error_policy 429 None "leak"))) = "account 42".
Proof. vm_compute. reflexivity. Qed.

(** ** A chat stream *)

Definition demo_event (t : StreamEventType) (content : string) : StreamEvent :=
  mkStreamEvent t "c1" "r" "m" 0 0 RoleAssistant content "" None FinishReasonStop None None.
Definition demo_events : list StreamEvent := [demo_event StreamContentDelta "hello"; demo_event StreamDone ""].
Definition demo_plain (v : Chunk + ErrorEnvelope) : string := match v with inl _ => "{1}" | inr _ => "{2}" end.

Lemma chat_stream_read_back_witness :
  decode 64 [chars "data: {1}"; [LF; LF] ++ chars "data: [DONE]"; [LF; LF]] =
    Ok [mkSSEEvent [] (chars "{1}") [] None; mkSSEEvent [] (chars "[DONE]") [] None].
Proof.
  destruct (chat_stream_read_back demo_plain (λ _, 0) (λ _, None) "r" "q" demo_events None 64
    [chars "data: {1}"; [LF; LF] ++ chars "data: [DONE]"; [LF; LF]]) as [Hd _].
  - intros [c|e]; split; by_table.
  - repeat constructor.
  - vm_compute. reflexivity.
  - rewrite Hd. vm_compute. reflexivity.
Defined.

(** ** A background execution *)

Definition demo_principal : GatewayPrincipal := mkGatewayPrincipal "key" "user".
Definition demo_result : ChatResult := mkChatResult "job" demo_response.

(** Meanwhile the request is accepted in its own table. *)
Definition accept_request (w : World) : World :=
  mkWorld (mkDb (db_responses (w_db w)) {["job" := mkRequestInfo "accepted" None None]} (db_keys (w_db w))) (w_seen w).

Definition demo_program (_ : ChatCommand) : ChatProgram :=
  ChatMeanwhile accept_request
    (ChatAccepts "job" (λ _,
       ChatDelivers demo_result (λ ok,
         if ok then ChatReturns (Ok demo_result) false
         else ChatReturns (Err (storage_error "result_persistence_failed" "request state could not be persisted" None)) false))).

(** The record of the claimed response. *)
Definition demo_job : ResponseRecord :=
  mkResponseRecord "job" None "key" None (Some "once") demo_digest StatusInProgress true (chars "1") (chars "{}") [] [] None None 10 20.

Definition demo_execution : option RespError * World :=
  executeBackgroundResponse demo_cipher demo_nonces demo_encode demo_dc (λ _, "") Ok demo_marshal (λ n, demo_conn (30 + Z.of_nat n))
    first_claim demo_job (Ok demo_principal) demo_program claimed.

Lemma demo_claimed : ClaimNext demo_cipher (demo_conn 20) "worker-1" 5 without_request = (Ok (first_claim, demo_job), claimed).
Proof. vm_compute. reflexivity. Qed.

Lemma demo_executed : demo_execution.1 = None.
Proof. vm_compute. reflexivity. Qed.

Lemma demo_lawful command : lawful first_claim false (demo_program command).
Proof.
  constructor.
  - intros w. apply rtc_once. exists Plain. split; [done|]. by apply stmt_same.
  - constructor. intros _. constructor. intros []; constructor.
Qed.


(** ** Two keys *)

(** The table of [finished] with a response of another key added. *)
Definition shared : World :=
  mkWorld (mkDb (<["z" := mkEncryptedRecord "z" None "other" None None [] StatusCompleted false (chars "x") [] (chars "y") [] None 0
                             None None None None 0 0]> (db_responses (w_db finished))) (db_requests (w_db finished)) {["key"; "other"]}) [].

Definition demo_read : PublicRequest := mkPublicRequest "r" (Ok "") "" "resp_a" "" "" "".
Definition demo_other_key : GatewayPrincipal := mkGatewayPrincipal "other" "user".

Lemma finished_threads : own_threads (w_db shared).
Proof.
  assert (H : map_Forall (λ _ r, ErPreviousResponseID r = None) (db_responses (w_db shared))) by by_table.
  intros id r p Hr Hp. rewrite (H id r Hr) in Hp. discriminate.
Qed.

