(* ===== verification/RequestTable.v ===== *)
(** * The tables behind the accounting of requests

    Models the statements of [src/internal/store/db/requests.sql.go] that the
    gateway runs for a request, with those of [providers.sql.go],
    [identity.sql.go] and [subscriptions.sql.go] it needs, on the tables
    [requests], [request_attempts] and [provider_credentials] with their
    constraints ([src/migrations/00001_baseline.sql], lines 184 to 215 and 339
    to 395).  The tables these statements only read are a [Directory], with
    the columns they read.

    A statement is one step (see [Sql]).  [UpdateAttempt] and [CreateAttempt]
    read the row of the request while they write an attempt. *)

From S2P Require Import Prelude GoStrings Canonical Sql.

Local Open Scope Z_scope.

(** ** models.go *)

Inductive RequestStatus :=
| RequestQueued | RequestDispatching | RequestStreaming | RequestCompleted | RequestFailed | RequestCanceled | RequestUncertain.

#[export] Instance RequestStatus_eq_dec : EqDecision RequestStatus.
Proof. solve_decision. Defined.

Inductive AttemptState :=
| AttemptCreated | AttemptSending | AttemptStreaming | AttemptCompleted | AttemptFailed | AttemptUncertain.

#[export] Instance AttemptState_eq_dec : EqDecision AttemptState.
Proof. solve_decision. Defined.

Inductive UserRole := UserAdministrator | UserMember.

#[export] Instance UserRole_eq_dec : EqDecision UserRole.
Proof. solve_decision. Defined.

Inductive UserStatus := UserActive | UserDisabled | UserDeleted.

#[export] Instance UserStatus_eq_dec : EqDecision UserStatus.
Proof. solve_decision. Defined.

Inductive SubscriptionStatus :=
| SubscriptionScheduled | SubscriptionActive | SubscriptionSuspended | SubscriptionCanceled | SubscriptionExpired.

#[export] Instance SubscriptionStatus_eq_dec : EqDecision SubscriptionStatus.
Proof. solve_decision. Defined.

(** [resource_pool_status] and [credential_status] have the same values. *)
Inductive ResourceStatus := ResourceActive | ResourceDisabled | ResourceRetired.

#[export] Instance ResourceStatus_eq_dec : EqDecision ResourceStatus.
Proof. solve_decision. Defined.

Inductive HealthStatus := HealthHealthy | HealthCooling | HealthProbing | HealthRepairRequired.

#[export] Instance HealthStatus_eq_dec : EqDecision HealthStatus.
Proof. solve_decision. Defined.

Record RequestRow := mkRequestRow {
  RwID : UUID;
  RwIdempotencyKey : option string;
  RwRequestDigest : string;
  RwUserID : UUID;
  RwGatewayKeyID : UUID;
  RwModelID : UUID;
  RwSubscriptionID : option UUID;
  RwResourcePoolID : UUID;
  RwStatus : RequestStatus;
  RwStream : bool;
  RwExecutionID : option UUID;
  RwExecutionGeneration : Z;
  RwExecutionClaimedAt : option Z;
  RwExecutionHeartbeatAt : option Z;
  RwInputTokens : option Z;
  RwOutputTokens : option Z;
  RwUsageSource : UsageSource;
  RwErrorKind : option string;
  RwErrorDetail : option string;
  RwAcceptedAt : Z;
  RwCompletedAt : option Z;
  RwUpdatedAt : Z;
}.

Record AttemptRow := mkAttemptRow {
  AtID : UUID;
  AtRequestID : UUID;
  AtExecutionID : UUID;
  AtExecutionGeneration : Z;
  AtCredentialID : UUID;
  AtSequence : Z;
  AtStatus : AttemptState;
  AtUpstreamRequestID : option string;
  AtHttpStatus : option Z;
  AtErrorKind : option string;
  AtRetryAfterAt : option Z;
  AtSentAt : option Z;
  AtFirstByteAt : option Z;
  AtCompletedAt : option Z;
  AtInputTokens : option Z;
  AtOutputTokens : option Z;
  AtUsageSource : UsageSource;
  AtCreatedAt : Z;
}.

Record CredentialRow := mkCredentialRow {
  CdID : UUID;
  CdResourcePoolID : UUID;
  CdName : string;
  CdEncryptedSecret : list ascii;
  CdSecretFingerprint : string;
  CdStatus : ResourceStatus;
  CdHealthStatus : HealthStatus;
  CdHealthGeneration : Z;
  CdRpmLimit : option Z;
  CdTpmLimit : option Z;
  CdConcurrencyLimit : option Z;
  CdPriority : Z;
  CdWeight : Z;
  CdSharedCapacityScopeID : option UUID;
  CdCooldownUntil : option Z;
  CdConsecutiveFailures : Z;
  CdLastSuccessAt : option Z;
  CdLastErrorKind : option string;
  CdLastProbeAt : option Z;
  CdLastProbeLatencyMs : option Z;
  CdLastProbeKind : option string;
  CdLastProbeStatus : option string;
  CdLastProbeErrorKind : option string;
  CdRetiredAt : option Z;
  CdCreatedAt : Z;
  CdUpdatedAt : Z;
}.

Record UserRow := mkUserRow { UrRole : UserRole; UrStatus : UserStatus; UrDisplayName : string; UrEmail : string }.
Record KeyRow := mkKeyRow { KrUserID : UUID; KrPrefix : string; KrExpiresAt : option Z; KrDeletedAt : option Z }.
Record PoolRow := mkPoolRow { PrProviderID : UUID; PrName : string; PrSlug : string; PrStatus : ResourceStatus }.
Record SubscriptionRow := mkSubscriptionRow {
  SrUserID : UUID;
  SrServicePlanVersionID : UUID;
  SrStatus : SubscriptionStatus;
  SrStartsAt : Z;
  SrExpiresAt : option Z;
  SrCreatedAt : Z;
}.
Record ScopeRow := mkScopeRow {
  ScName : string;
  ScRpmLimit : Z;
  ScTpmLimit : Z;
  ScConcurrencyLimit : Z;
  ScDailyTokenLimit : option Z;
  ScDailyResetMinuteUtc : option Z;
}.
Record ModelRow := mkModelRow {
  MrProviderID : UUID;
  MrPublicName : string;
  MrUpstreamName : string;
  MrCapabilities : string;
  MrCreatedAt : Z;
}.
Record ProviderRow := mkProviderRow { PvName : string; PvSlug : string; PvKind : string; PvBaseUrl : string }.

(** The tables that are only read.  [dr_routes] is [gateway_key_models], from
    the key and the model to the pool; [dr_plan_routes] holds the rows (plan
    version, model, pool) of [service_plan_version_routes]; [dr_bindings] the
    rows (credential, model) of [credential_models]. *)
Record Directory := mkDirectory {
  dr_users : gmap UUID UserRow;
  dr_keys : gmap UUID KeyRow;
  dr_routes : gmap (UUID * UUID) UUID;
  dr_subscriptions : gmap UUID SubscriptionRow;
  dr_plan_routes : gset (UUID * UUID * UUID);
  dr_pools : gmap UUID PoolRow;
  dr_models : gmap UUID ModelRow;
  dr_providers : gmap UUID ProviderRow;
  dr_scopes : gmap UUID ScopeRow;
  dr_bindings : gset (UUID * UUID);
}.

Record Store := mkStore {
  st_requests : gmap UUID RequestRow;
  st_attempts : gmap UUID AttemptRow;
  st_credentials : gmap UUID CredentialRow;
  st_dir : Directory;
}.

Definition set_requests (t : gmap UUID RequestRow) (s : Store) : Store :=
  mkStore t (st_attempts s) (st_credentials s) (st_dir s).
Definition set_attempts (t : gmap UUID AttemptRow) (s : Store) : Store :=
  mkStore (st_requests s) t (st_credentials s) (st_dir s).
Definition set_credentials (t : gmap UUID CredentialRow) (s : Store) : Store :=
  mkStore (st_requests s) (st_attempts s) t (st_dir s).

(** ** Columns a statement sets *)

Definition put_status (v : RequestStatus) (r : RequestRow) : RequestRow :=
  mkRequestRow (RwID r) (RwIdempotencyKey r) (RwRequestDigest r) (RwUserID r) (RwGatewayKeyID r) (RwModelID r)
    (RwSubscriptionID r) (RwResourcePoolID r) v (RwStream r) (RwExecutionID r) (RwExecutionGeneration r)
    (RwExecutionClaimedAt r) (RwExecutionHeartbeatAt r) (RwInputTokens r) (RwOutputTokens r) (RwUsageSource r)
    (RwErrorKind r) (RwErrorDetail r) (RwAcceptedAt r) (RwCompletedAt r) (RwUpdatedAt r).
Definition put_execution (e : UUID) (g : Z) (claimedAt : option Z) (r : RequestRow) : RequestRow :=
  mkRequestRow (RwID r) (RwIdempotencyKey r) (RwRequestDigest r) (RwUserID r) (RwGatewayKeyID r) (RwModelID r)
    (RwSubscriptionID r) (RwResourcePoolID r) (RwStatus r) (RwStream r) (Some e) g
    claimedAt (RwExecutionHeartbeatAt r) (RwInputTokens r) (RwOutputTokens r) (RwUsageSource r)
    (RwErrorKind r) (RwErrorDetail r) (RwAcceptedAt r) (RwCompletedAt r) (RwUpdatedAt r).
Definition put_heartbeat (at_ : Z) (r : RequestRow) : RequestRow :=
  mkRequestRow (RwID r) (RwIdempotencyKey r) (RwRequestDigest r) (RwUserID r) (RwGatewayKeyID r) (RwModelID r)
    (RwSubscriptionID r) (RwResourcePoolID r) (RwStatus r) (RwStream r) (RwExecutionID r) (RwExecutionGeneration r)
    (RwExecutionClaimedAt r) (Some at_) (RwInputTokens r) (RwOutputTokens r) (RwUsageSource r)
    (RwErrorKind r) (RwErrorDetail r) (RwAcceptedAt r) (RwCompletedAt r) at_.
Definition put_usage (input output : option Z) (source : UsageSource) (r : RequestRow) : RequestRow :=
  mkRequestRow (RwID r) (RwIdempotencyKey r) (RwRequestDigest r) (RwUserID r) (RwGatewayKeyID r) (RwModelID r)
    (RwSubscriptionID r) (RwResourcePoolID r) (RwStatus r) (RwStream r) (RwExecutionID r) (RwExecutionGeneration r)
    (RwExecutionClaimedAt r) (RwExecutionHeartbeatAt r) input output source
    (RwErrorKind r) (RwErrorDetail r) (RwAcceptedAt r) (RwCompletedAt r) (RwUpdatedAt r).
(** The end of a request: its status, error and [completed_at = updated_at = now()]. *)
Definition put_end (v : RequestStatus) (kind detail : option string) (now : Z) (r : RequestRow) : RequestRow :=
  mkRequestRow (RwID r) (RwIdempotencyKey r) (RwRequestDigest r) (RwUserID r) (RwGatewayKeyID r) (RwModelID r)
    (RwSubscriptionID r) (RwResourcePoolID r) v (RwStream r) (RwExecutionID r) (RwExecutionGeneration r)
    (RwExecutionClaimedAt r) (RwExecutionHeartbeatAt r) (RwInputTokens r) (RwOutputTokens r) (RwUsageSource r)
    kind detail (RwAcceptedAt r) (Some now) now.

(** ** Constraints *)

Definition request_check (r : RequestRow) : bool :=
  (match RwIdempotencyKey r with
   | Some key => (1 <=? char_length key) && (char_length key <=? 200)
   | None => true
   end &&
   (Z.of_nat (String.length (RwRequestDigest r)) =? 32) &&
   (0 <=? RwExecutionGeneration r) &&
   match RwExecutionID r with
   | None => (RwExecutionGeneration r =? 0) && is_null (RwExecutionClaimedAt r) && is_null (RwExecutionHeartbeatAt r)
   | Some _ =>
       (0 <? RwExecutionGeneration r) && negb (is_null (RwExecutionClaimedAt r)) && negb (is_null (RwExecutionHeartbeatAt r))
   end)%bool.

(** [UNIQUE (gateway_key_id, idempotency_key)] *)
Definition request_clash (t : gmap UUID RequestRow) (id : UUID) (r : RequestRow) : bool :=
  match RwIdempotencyKey r with
  | Some k =>
      other_row t id (λ r', bool_decide (RwGatewayKeyID r' = RwGatewayKeyID r) && sql_eq (RwIdempotencyKey r') k)%bool
  | None => false
  end.

(** The attempts refer to a request by its identifier, execution and
    generation. *)
Definition attempt_of (r : RequestRow) (a : AttemptRow) : bool :=
  (bool_decide (AtRequestID a = RwID r) && sql_eq (RwExecutionID r) (AtExecutionID a) &&
   (AtExecutionGeneration a =? RwExecutionGeneration r))%bool.

Definition exists_in {A} (t : gmap UUID A) (id : UUID) : bool := bool_decide (is_Some (t !! id)).

Definition request_refers (s : Store) (t : gmap UUID RequestRow) (r : RequestRow) : bool :=
  (exists_in (dr_users (st_dir s)) (RwUserID r) && exists_in (dr_keys (st_dir s)) (RwGatewayKeyID r) &&
   exists_in (dr_models (st_dir s)) (RwModelID r) && exists_in (dr_pools (st_dir s)) (RwResourcePoolID r) &&
   match RwSubscriptionID r with Some q => exists_in (dr_subscriptions (st_dir s)) q | None => true end &&
   forallb (λ a, negb (bool_decide (AtRequestID a = RwID r)) || attempt_of r a) (snd <$> map_to_list (st_attempts s)))%bool.

Definition request_constraints (s : Store) : Constraints RequestRow :=
  mkConstraints request_check request_clash (request_refers s).

Definition nonneg (v : option Z) : bool := match v with Some n => 0 <=? n | None => true end.

Definition attempt_check (a : AttemptRow) : bool :=
  ((0 <? AtExecutionGeneration a) && nonneg (AtInputTokens a) && nonneg (AtOutputTokens a) &&
   Bool.eqb (is_null (AtInputTokens a)) (is_null (AtOutputTokens a)) &&
   (negb (is_null (AtInputTokens a)) || bool_decide (AtUsageSource a = UsageUnknown)))%bool.

Definition attempt_clash (t : gmap UUID AttemptRow) (id : UUID) (a : AttemptRow) : bool :=
  other_row t id (λ a', bool_decide (AtRequestID a' = AtRequestID a) && (AtSequence a' =? AtSequence a))%bool.

Definition attempt_refers (s : Store) (t : gmap UUID AttemptRow) (a : AttemptRow) : bool :=
  (exists_in (st_credentials s) (AtCredentialID a) &&
   match st_requests s !! AtRequestID a with Some r => attempt_of r a | None => false end)%bool.

Definition attempt_constraints (s : Store) : Constraints AttemptRow :=
  mkConstraints attempt_check attempt_clash (attempt_refers s).

(** The values of [usage_source]; another one is refused when it is read. *)
Definition known_source (u : UsageSource) : bool := match u with UsageSourceOther _ => false | _ => true end.
Definition invalid_text : string := "22P02".

(** ** Statements on requests *)

Definition request_in (states : list RequestStatus) (r : RequestRow) : bool := bool_decide (RwStatus r ∈ states).
Definition live (r : RequestRow) : bool := request_in [RequestDispatching; RequestStreaming] r.

(** [execution_id = ... AND execution_generation = ... AND status IN
    ('dispatching', 'streaming')] *)
Definition held_by (e : option UUID) (g : Z) (r : RequestRow) : bool :=
  (match e with Some x => sql_eq (RwExecutionID r) x | None => false end && (RwExecutionGeneration r =? g) && live r)%bool.

Definition usage_given (source : UsageSource) (p : result PgError RequestRow * Store) (s : Store) :
    result PgError RequestRow * Store :=
  if known_source source then p else (Err (PgCode invalid_text), s).

Definition open_attempt (a : AttemptRow) : bool :=
  bool_decide (AtStatus a ∈ [AttemptCreated; AttemptSending; AttemptStreaming]).

(** An attempt that ended well and whose usage is known. *)
Definition completed_with_usage (a : AttemptRow) : bool :=
  (bool_decide (AtStatus a = AttemptCompleted) && negb (is_null (AtInputTokens a)) && negb (is_null (AtOutputTokens a)) &&
   bool_decide (AtUsageSource a ∈ [UsageAuthoritative; UsageEstimated]))%bool.

Definition put_uncertain (now : Z) (a : AttemptRow) : AttemptRow :=
  mkAttemptRow (AtID a) (AtRequestID a) (AtExecutionID a) (AtExecutionGeneration a) (AtCredentialID a) (AtSequence a)
    AttemptUncertain (AtUpstreamRequestID a) (AtHttpStatus a) (Some "uncertain") (AtRetryAfterAt a) (AtSentAt a)
    (AtFirstByteAt a) (Some now) (AtInputTokens a) (AtOutputTokens a) (AtUsageSource a) (AtCreatedAt a).

(** [ORDER BY time, id] *)
Definition earlier (key : RequestRow -> Z) (a b : RequestRow) : Prop :=
  key a < key b \/ key a = key b /\ String.le (RwID a) (RwID b).

#[export] Instance earlier_dec key : RelDecision (earlier key).
Proof. intros a b. unfold earlier. apply _. Defined.

Definition rows {A} (t : gmap UUID A) : list A := snd <$> map_to_list t.

Definition heartbeat_of (r : RequestRow) : Z := coalesce (RwExecutionHeartbeatAt r) 0.
Definition heartbeat_before (limit : Z) (r : RequestRow) : bool :=
  match RwExecutionHeartbeatAt r with Some h => h <? limit | None => false end.

Section request_statements.
Context (c : Conn).

Definition on_requests (f : gmap UUID RequestRow -> result PgError RequestRow * gmap UUID RequestRow) (s : Store) :
    result PgError RequestRow * Store :=
  let '(a, t) := f (st_requests s) in (a, set_requests t s).

Definition update_request (id : UUID) (guard : RequestRow -> bool) (f : RequestRow -> RequestRow) (s : Store) :
    result PgError RequestRow * Store :=
  on_requests (update_one (request_constraints s) c id guard f) s.

Definition ClaimRequestExecution (executionID id : UUID) (s : Store) : result PgError RequestRow * Store :=
  update_request id
    (λ r, (request_in [RequestQueued] r && is_null (RwExecutionID r)) ||
          (request_in [RequestDispatching] r && sql_eq (RwExecutionID r) executionID))%bool
    (λ r, put_status RequestDispatching (put_heartbeat (cn_now c)
            (if is_null (RwExecutionID r) then put_execution executionID (RwExecutionGeneration r + 1) (Some (cn_now c)) r
             else put_execution executionID (RwExecutionGeneration r) (RwExecutionClaimedAt r) r))) s.

Definition CompleteRequest (input output : option Z) (source : UsageSource) (id : UUID) (e : option UUID) (g : Z) (s : Store) :
    result PgError RequestRow * Store :=
  usage_given source
    (update_request id (held_by e g) (λ r, put_end RequestCompleted None None (cn_now c) (put_usage input output source r)) s) s.

Definition CreateRequest (id : UUID) (idempotencyKey : option string) (digest : string) (userID keyID modelID : UUID)
    (subscriptionID : option UUID) (poolID : UUID) (status : RequestStatus) (stream : bool) (s : Store) :
    result PgError RequestRow * Store :=
  on_requests
    (insert_one (request_constraints s) c id
       (mkRequestRow id idempotencyKey digest userID keyID modelID subscriptionID poolID status stream None 0 None None
          None None UsageUnknown None None (cn_now c) None (cn_now c))) s.

Definition FailRequest (kind detail : option string) (id : UUID) (e : option UUID) (g : Z) (s : Store) :
    result PgError RequestRow * Store :=
  update_request id
    (λ r, request_in [RequestQueued; RequestDispatching; RequestStreaming] r &&
          match e with
          | None => is_null (RwExecutionID r) && (RwExecutionGeneration r =? 0)
          | Some x => sql_eq (RwExecutionID r) x && (RwExecutionGeneration r =? g)
          end)%bool
    (put_end RequestFailed kind detail (cn_now c)) s.

Definition FailRequestWithUsage (input output : option Z) (source : UsageSource) (kind detail : option string) (id : UUID)
    (e : option UUID) (g : Z) (s : Store) : result PgError RequestRow * Store :=
  usage_given source
    (update_request id (held_by e g) (λ r, put_end RequestFailed kind detail (cn_now c) (put_usage input output source r)) s) s.

Definition GetRequestForUpdate (id : UUID) (s : Store) : result PgError RequestRow :=
  select_one c id (λ _, true) (st_requests s).

(** The columns make at most one row. *)
Definition GetRequestByIdempotencyKey (keyID : UUID) (key : string) (s : Store) : result PgError RequestRow :=
  match cn_fault c with
  | Some e => Err e
  | None =>
      match List.find (λ r, bool_decide (RwGatewayKeyID r = keyID) && sql_eq (RwIdempotencyKey r) key)%bool
              (rows (st_requests s)) with
      | Some r => Ok r
      | None => Err NoRows
      end
  end.

Definition HeartbeatRequestExecution (id : UUID) (e : UUID) (g : Z) (s : Store) : result PgError RequestRow * Store :=
  update_request id (held_by (Some e) g) (put_heartbeat (cn_now c)) s.

Definition MarkRequestExecutionStreaming (id : UUID) (e : UUID) (g : Z) (s : Store) : result PgError RequestRow * Store :=
  update_request id (held_by (Some e) g) (λ r, put_status RequestStreaming (put_heartbeat (cn_now c) r)) s.

Definition MarkRequestExecutionUncertain (kind detail : option string) (id : UUID) (e : UUID) (g : Z) (s : Store) :
    result PgError RequestRow * Store :=
  update_request id (held_by (Some e) g) (put_end RequestUncertain kind detail (cn_now c)) s.

Definition ListStaleQueuedRequests (before limit : Z) (s : Store) : result PgError (list UUID) :=
  match cn_fault c with
  | Some e => Err e
  | None =>
      Ok (take (Z.to_nat limit)
            (RwID <$> merge_sort (earlier RwUpdatedAt)
               (filter (λ r, request_in [RequestQueued] r && is_null (RwExecutionID r) && (RwExecutionGeneration r =? 0) &&
                             (RwUpdatedAt r <? before) = true)%bool (rows (st_requests s)))))
  end.

(** The completed attempts of the request's execution, and the last of them
    by [ORDER BY sequence DESC LIMIT 1]. *)
Definition recorded_completions (s : Store) (r : RequestRow) : list AttemptRow :=
  filter (λ a, attempt_of r a && completed_with_usage a = true)%bool (rows (st_attempts s)).

Fixpoint last_by_sequence (l : list AttemptRow) : option AttemptRow :=
  match l with
  | [] => None
  | a :: l' =>
      match last_by_sequence l' with
      | Some b => if AtSequence a <? AtSequence b then Some b else Some a
      | None => Some a
      end
  end.

Definition ListRecoverableRequestCompletions (before limit : Z) (s : Store) :
    result PgError (list (RequestRow * AttemptRow)) :=
  match cn_fault c with
  | Some e => Err e
  | None =>
      Ok (take (Z.to_nat limit)
            (omap (λ r, (λ a, (r, a)) <$> last_by_sequence (recorded_completions s r))
               (merge_sort (earlier heartbeat_of)
                  (filter (λ r, live r && negb (is_null (RwExecutionID r)) && heartbeat_before before r = true)%bool
                     (rows (st_requests s))))))
  end.

(** The rows [stale] of the recovery: live, without a heartbeat since
    [before], without a recorded completion, not locked, oldest first. *)
Definition stale_rows (before limit : Z) (s : Store) : list RequestRow :=
  take (Z.to_nat limit)
    (merge_sort (earlier heartbeat_of)
       (filter (λ r, live r && heartbeat_before before r && is_nil (recorded_completions s r) &&
                     negb (cn_locked c (RwID r)) = true)%bool (rows (st_requests s)))).

Definition expired_detail : string := "request execution heartbeat expired; upstream outcome requires recovery".

Definition fence_request (stale : list RequestRow) (r : RequestRow) : RequestRow :=
  if bool_decide (RwID r ∈ (RwID <$> stale)) then put_end RequestUncertain (Some "uncertain") (Some expired_detail) (cn_now c) r
  else r.
Definition fence_attempt (stale : list RequestRow) (a : AttemptRow) : AttemptRow :=
  if (existsb (λ r, attempt_of r a) stale && open_attempt a)%bool then put_uncertain (cn_now c) a else a.

Definition RecoverStaleRequestExecutions (before limit : Z) (s : Store) : result PgError Z * Store :=
  match cn_fault c with
  | Some e => (Err e, s)
  | None =>
      let stale := stale_rows before limit s in
      (Ok (Z.of_nat (length stale)),
       set_attempts (fence_attempt stale <$> st_attempts s) (set_requests (fence_request stale <$> st_requests s) s))
  end.
End request_statements.

(** ** Statements on attempts *)

Section attempt_statements.
Context (c : Conn).

Definition on_attempts (f : gmap UUID AttemptRow -> result PgError AttemptRow * gmap UUID AttemptRow) (s : Store) :
    result PgError AttemptRow * Store :=
  let '(a, t) := f (st_attempts s) in (a, set_attempts t s).

(** [INSERT ... SELECT ... FROM requests WHERE ...]; [id] is the identifier
    [gen_random_uuid()] gives. *)
Definition CreateAttempt (id requestID executionID : UUID) (g : Z) (credentialID : UUID) (sequence : Z) (status : AttemptState)
    (s : Store) : result PgError AttemptRow * Store :=
  match select_one c requestID (held_by (Some executionID) g) (st_requests s) with
  | Err e => (Err e, s)
  | Ok _ =>
      on_attempts
        (insert_one (attempt_constraints s) c id
           (mkAttemptRow id requestID executionID g credentialID sequence status None None None None None None None None None
              UsageUnknown (cn_now c))) s
  end.

Record UpdateAttemptParams := mkUpdateAttemptParams {
  UpStatus : AttemptState;
  UpUpstreamRequestID : option string;
  UpHttpStatus : option Z;
  UpErrorKind : option string;
  UpRetryAfterAt : option Z;
  UpSentAt : option Z;
  UpFirstByteAt : option Z;
  UpCompletedAt : option Z;
  UpInputTokens : option Z;
  UpOutputTokens : option Z;
  UpUsageSource : UsageSource;
  UpID : UUID;
  UpRequestID : UUID;
  UpExecutionID : UUID;
  UpExecutionGeneration : Z;
}.

(** The [CASE] of the statement: from where an attempt may come. *)
Definition may_become (target : AttemptState) (a : AttemptRow) : bool :=
  match target with
  | AttemptSending => bool_decide (AtStatus a = AttemptCreated)
  | AttemptStreaming | AttemptCompleted => bool_decide (AtStatus a ∈ [AttemptSending; AttemptStreaming])
  | AttemptFailed | AttemptUncertain => open_attempt a
  | AttemptCreated => false
  end.

Definition put_attempt (p : UpdateAttemptParams) (a : AttemptRow) : AttemptRow :=
  mkAttemptRow (AtID a) (AtRequestID a) (AtExecutionID a) (AtExecutionGeneration a) (AtCredentialID a) (AtSequence a)
    (UpStatus p) (UpUpstreamRequestID p) (UpHttpStatus p) (UpErrorKind p) (UpRetryAfterAt p)
    (match AtSentAt a with Some t => Some t | None => UpSentAt p end)
    (match AtFirstByteAt a with Some t => Some t | None => UpFirstByteAt p end)
    (UpCompletedAt p) (UpInputTokens p) (UpOutputTokens p) (UpUsageSource p) (AtCreatedAt a).

Definition UpdateAttempt (p : UpdateAttemptParams) (s : Store) : result PgError AttemptRow * Store :=
  if known_source (UpUsageSource p) then
    on_attempts
      (update_one (attempt_constraints s) c (UpID p)
         (λ a, bool_decide (AtRequestID a = UpRequestID p) && bool_decide (AtExecutionID a = UpExecutionID p) &&
               (AtExecutionGeneration a =? UpExecutionGeneration p) &&
               match st_requests s !! AtRequestID a with
               | Some r => held_by (Some (AtExecutionID a)) (AtExecutionGeneration a) r
               | None => false
               end &&
               may_become (UpStatus p) a)%bool
         (put_attempt p)) s
  else (Err (PgCode invalid_text), s).
End attempt_statements.

(** ** Statements on credentials *)

Definition put_health (h : HealthStatus) (generation : Z) (cooldown : option Z) (failures : Z) (success : option Z)
    (kind : option string) (updatedAt : Z) (r : CredentialRow) : CredentialRow :=
  mkCredentialRow (CdID r) (CdResourcePoolID r) (CdName r) (CdEncryptedSecret r) (CdSecretFingerprint r) (CdStatus r) h
    generation (CdRpmLimit r) (CdTpmLimit r) (CdConcurrencyLimit r) (CdPriority r) (CdWeight r) (CdSharedCapacityScopeID r)
    cooldown failures success kind (CdLastProbeAt r) (CdLastProbeLatencyMs r) (CdLastProbeKind r) (CdLastProbeStatus r)
    (CdLastProbeErrorKind r) (CdRetiredAt r) (CdCreatedAt r) updatedAt.

Definition has_health (h : HealthStatus) (r : CredentialRow) : bool := bool_decide (CdHealthStatus r = h).

(** [health_status = 'healthy' OR (health_status = 'cooling' AND cooldown_until <= now())] *)
Definition usable (now : Z) (r : CredentialRow) : bool :=
  (bool_decide (CdStatus r = ResourceActive) &&
   (has_health HealthHealthy r ||
    (has_health HealthCooling r && match CdCooldownUntil r with Some t => t <=? now | None => false end)))%bool.

(** [UPDATE ... WHERE id = $1 AND guard]: [f] may find a number that does not
    fit its column; the other constraints are not affected. *)
Definition update_credential (c : Conn) (id : UUID) (guard : CredentialRow -> bool) (f : CredentialRow -> option CredentialRow)
    (s : Store) : result PgError CredentialRow * Store :=
  match cn_fault c with
  | Some e => (Err e, s)
  | None =>
      match st_credentials s !! id with
      | Some r =>
          if guard r then
            match f r with
            | Some r' => (Ok r', set_credentials (<[id := r']> (st_credentials s)) s)
            | None => (Err (PgCode numeric_out_of_range), s)
            end
          else (Err NoRows, s)
      | None => (Err NoRows, s)
      end
  end.

Definition AcquireCredentialHealthPermit (c : Conn) (id : UUID) (s : Store) : result PgError Z * Store :=
  let '(r, s') :=
    update_credential c id (usable (cn_now c))
      (λ r, if has_health HealthCooling r then
              if 2 ^ 63 - 1 <=? CdHealthGeneration r then None
              else Some (put_health HealthProbing (CdHealthGeneration r + 1) (CdCooldownUntil r) (CdConsecutiveFailures r)
                           (CdLastSuccessAt r) (CdLastErrorKind r) (cn_now c) r)
            else Some r) s in
  (match r with Ok row => Ok (CdHealthGeneration row) | Err e => Err e end, s').

(** [:exec]: that no row was met is not an error. *)
Definition exec_one {A S} (p : result PgError A * S) : option PgError * S :=
  (match p.1 with Ok _ | Err NoRows => None | Err e => Some e end, p.2).

Definition observed_by (generation : Z) (r : CredentialRow) : bool :=
  (bool_decide (CdStatus r = ResourceActive) && (CdHealthGeneration r =? generation))%bool.

Definition RecordCredentialRuntimeSuccess (c : Conn) (observedAt : option Z) (id : UUID) (generation : Z) (s : Store) :
    option PgError * Store :=
  exec_one (update_credential c id (observed_by generation)
    (λ r, Some (put_health HealthHealthy (CdHealthGeneration r) None 0 observedAt None (CdUpdatedAt r) r)) s).

Definition RecordCredentialRuntimeFailure (c : Conn) (health : HealthStatus) (cooldown : option Z) (kind : option string)
    (id : UUID) (generation : Z) (s : Store) : option PgError * Store :=
  exec_one (update_credential c id (observed_by generation)
    (λ r, if 2 ^ 31 - 1 <=? CdConsecutiveFailures r then None
          else Some (put_health health (CdHealthGeneration r) cooldown (CdConsecutiveFailures r + 1) (CdLastSuccessAt r) kind
                       (CdUpdatedAt r) r)) s).

(** [ORDER BY priority, last_success_at NULLS FIRST, id] *)
Definition null_first (a b : option Z) : comparison :=
  match a, b with
  | None, None => Eq
  | None, Some _ => Lt
  | Some _, None => Gt
  | Some x, Some y => x ?= y
  end.

Definition preferred (a b : CredentialRow) : Prop :=
  CdPriority a < CdPriority b \/
  (CdPriority a = CdPriority b /\
   (null_first (CdLastSuccessAt a) (CdLastSuccessAt b) = Lt \/
    (null_first (CdLastSuccessAt a) (CdLastSuccessAt b) = Eq /\ String.le (CdID a) (CdID b)))).

#[export] Instance preferred_dec : RelDecision preferred.
Proof. intros a b. unfold preferred. apply _. Defined.

Definition pool_active (d : Directory) (id : UUID) : bool :=
  match dr_pools d !! id with Some p => bool_decide (PrStatus p = ResourceActive) | None => false end.

Definition ListResourcePoolCandidates (c : Conn) (poolID modelID : UUID) (s : Store) :
    result PgError (list (CredentialRow * option ScopeRow)) :=
  match cn_fault c with
  | Some e => Err e
  | None =>
      Ok ((λ r, (r, CdSharedCapacityScopeID r ≫= λ q, dr_scopes (st_dir s) !! q)) <$>
          merge_sort preferred
            (filter (λ r, bool_decide (CdResourcePoolID r = poolID) && bool_decide ((CdID r, modelID) ∈ dr_bindings (st_dir s)) &&
                          pool_active (st_dir s) (CdResourcePoolID r) && usable (cn_now c) r = true)%bool
               (rows (st_credentials s))))
  end.

(** ** Statements on the directory *)

Section directory.
Context (c : Conn).

Definition not_past (now : Z) (t : option Z) : bool := match t with Some e => now <? e | None => true end.

Definition active_key (d : Directory) (now : Z) (keyID userID : UUID) : option UserRow :=
  match dr_keys d !! keyID, dr_users d !! userID with
  | Some k, Some u =>
      if (bool_decide (KrUserID k = userID) && is_null (KrDeletedAt k) && not_past now (KrExpiresAt k) &&
          bool_decide (UrStatus u = UserActive))%bool then Some u
      else None
  | _, _ => None
  end.

Definition GetActiveGatewayKeyForRequest (keyID userID : UUID) (s : Store) : result PgError UserRole :=
  match cn_fault c with
  | Some e => Err e
  | None => match active_key (st_dir s) (cn_now c) keyID userID with Some u => Ok (UrRole u) | None => Err NoRows end
  end.

Definition GetGatewayKeyRoute (keyID modelID : UUID) (s : Store) : result PgError UUID :=
  match cn_fault c with
  | Some e => Err e
  | None => match dr_routes (st_dir s) !! (keyID, modelID) with Some pool => Ok pool | None => Err NoRows end
  end.

(** A subscription that is running. *)
Definition in_force (now : Z) (states : list SubscriptionStatus) (sub : SubscriptionRow) : bool :=
  (bool_decide (SrStatus sub ∈ states) && (SrStartsAt sub <=? now) && not_past now (SrExpiresAt sub))%bool.

(** [ORDER BY expires_at NULLS LAST, created_at, id] *)
Definition null_last (a b : option Z) : comparison :=
  match a, b with
  | None, None => Eq
  | None, Some _ => Gt
  | Some _, None => Lt
  | Some x, Some y => x ?= y
  end.

Definition sooner (a b : UUID * SubscriptionRow * UUID) : Prop :=
  let '(i, x, _) := a in
  let '(j, y, _) := b in
  null_last (SrExpiresAt x) (SrExpiresAt y) = Lt \/
  (null_last (SrExpiresAt x) (SrExpiresAt y) = Eq /\
   (SrCreatedAt x < SrCreatedAt y \/ SrCreatedAt x = SrCreatedAt y /\ String.le i j)).

#[export] Instance sooner_dec : RelDecision sooner.
Proof. intros [[i x] p] [[j y] q]. unfold sooner. apply _. Defined.

(** The pools to which a plan version sends a model. *)
Definition plan_pools (d : Directory) (version modelID : UUID) : list UUID :=
  omap (λ t : UUID * UUID * UUID, let '(v, m, p) := t in if bool_decide (v = version /\ m = modelID) then Some p else None)
    (elements (dr_plan_routes d)).

(** The identifier of the subscription and the pool of the route. *)
Definition GetApplicableSubscriptionRoutesForUpdate (userID modelID : UUID) (s : Store) : result PgError (list (UUID * UUID)) :=
  let d := st_dir s in
  match cn_fault c with
  | Some e => Err e
  | None =>
      Ok ((λ t : UUID * SubscriptionRow * UUID, let '(i, _, p) := t in (i, p)) <$>
          merge_sort sooner
            (concat ((λ ix : UUID * SubscriptionRow,
                        let '(i, x) := ix in
                        if (bool_decide (SrUserID x = userID) && in_force (cn_now c) [SubscriptionScheduled; SubscriptionActive] x)%bool
                        then (λ p, (i, x, p)) <$> filter (λ p, pool_active d p = true) (plan_pools d (SrServicePlanVersionID x) modelID)
                        else [])
                     <$> map_to_list (dr_subscriptions d))))
  end.

(** A model a key can list: its row with its provider. *)
Definition listed_for_key (d : Directory) (now : Z) (keyID modelID : UUID) : bool :=
  match dr_keys d !! keyID, dr_routes d !! (keyID, modelID) with
  | Some k, Some pool =>
      (is_null (KrDeletedAt k) && not_past now (KrExpiresAt k) && pool_active d pool &&
       match dr_users d !! KrUserID k with
       | Some u =>
           bool_decide (UrRole u = UserAdministrator) ||
           existsb (λ x, bool_decide (SrUserID x = KrUserID k) && in_force now [SubscriptionActive] x &&
                         bool_decide (pool ∈ plan_pools d (SrServicePlanVersionID x) modelID)) (rows (dr_subscriptions d))
       | None => false
       end)%bool
  | _, _ => false
  end.

(** [ORDER BY public_name, id]; how texts are compared is the database's
    collation. *)
Definition model_order (collate : string -> string -> comparison) (a b : UUID * ModelRow * ProviderRow) : Prop :=
  collate (MrPublicName a.1.2) (MrPublicName b.1.2) = Lt \/
  collate (MrPublicName a.1.2) (MrPublicName b.1.2) = Eq /\ String.le a.1.1 b.1.1.

#[export] Instance model_order_dec collate : RelDecision (model_order collate).
Proof. intros a b. unfold model_order. apply _. Defined.

Definition with_provider (d : Directory) (im : UUID * ModelRow) : option (UUID * ModelRow * ProviderRow) :=
  (λ p, (im, p)) <$> dr_providers d !! MrProviderID im.2.

Definition ListAvailableModelsForKey (collate : string -> string -> comparison) (keyID : UUID) (s : Store) :
    result PgError (list (UUID * ModelRow * ProviderRow)) :=
  let d := st_dir s in
  match cn_fault c with
  | Some e => Err e
  | None =>
      Ok (merge_sort (model_order collate)
            (omap (with_provider d)
               (filter (λ im, listed_for_key d (cn_now c) keyID im.1 = true) (map_to_list (dr_models d)))))
  end.

Definition ResolveAvailableModelForKey (keyID : UUID) (publicName : string) (s : Store) :
    result PgError (UUID * ModelRow * ProviderRow * bool) :=
  let d := st_dir s in
  match cn_fault c with
  | Some e => Err e
  | None =>
      match omap (with_provider d) (filter (λ im, MrPublicName im.2 = publicName) (map_to_list (dr_models d))) with
      | (i, m, p) :: _ => Ok (i, m, p, bool_decide (is_Some (dr_routes d !! (keyID, i))))
      | [] => Err NoRows
      end
  end.
End directory.
