(* ===== verification/RequestStore.v ===== *)
(** * The repositories of requests and their usage

    Models [src/internal/store/request_repository.go], [request_acceptance.go],
    [request_resolution.go] and the errors of [usage_repository.go] over the
    statements of [RequestTable]; then [src/internal/usage/service.go] and
    [src/internal/requestflow/usage_adapter.go], through which the workflow
    reaches them.

    A transaction is one step: it takes effect when it commits, or not at all.
    Each of them locks what it decides on before it decides, or checks it
    again in the statement that writes: [resolve] locks the row of the
    request; the updates of an attempt lock its row and each of their
    statements asks again for a live execution of the same generation;
    [acceptRequestOnce] shares a lock on the key and its owner and holds an
    advisory lock on the idempotency key.  [Tx] is what the outside decides of
    a transaction: its time, the failure of any of its statements, how its
    commit ends. *)

From S2P Require Import Prelude GoStrings Canonical Capabilities Effects Workflow ProviderRequest Sql RequestTable.

Local Open Scope Z_scope.

(** ** Transactions *)

(** The acknowledgement of a commit can be lost after it took effect. *)
Inductive CommitOutcome := Committed | CommitRefused (e : PgError) | CommitLost (message : string).

Record Tx := mkTx {
  tx_now : Z;
  tx_begin : option PgError;
  tx_fault : nat -> option PgError;
  tx_locked : UUID -> bool;
  tx_commit : CommitOutcome;
}.

(** The [i]-th statement. *)
Definition statement (t : Tx) (i : nat) : Conn := mkConn (tx_now t) (tx_fault t i) (tx_locked t).

Definition Commit {A S} (t : Tx) (a : A) (before after : S) : result PgError A * S :=
  match tx_commit t with
  | Committed => (Ok a, after)
  | CommitRefused e => (Err e, before)
  | CommitLost message => (Err (PgFailure message), after)
  end.

Definition smooth (t : Tx) : Prop := tx_begin t = None /\ (forall i, tx_fault t i = None) /\ tx_commit t = Committed.

(** ** request_repository.go *)

Definition pg_error (e : PgError) : GoError :=
  match e with
  | NoRows => OtherError "no rows in result set"
  | PgCode sqlstate => OtherError sqlstate
  | PgFailure message => OtherError message
  end.

Definition executionWriteError (e : PgError) : GoError := match e with NoRows => ErrFenced | _ => pg_error e end.

Definition wrote {A S} (p : result PgError A * S) : option GoError * S :=
  (match p.1 with Ok _ => None | Err e => Some (executionWriteError e) end, p.2).

Definition wrap32 (z : Z) : Z := (z + 2 ^ 31) `mod` 2 ^ 32 - 2 ^ 31.

Definition optionalString (s : string) : option string := if bool_decide (s = "") then None else Some s.

(** The statuses an update can have; [attemptStatus] accepts all of them. *)
Definition attemptStatus (s : AttemptStatus) : AttemptState :=
  match s with
  | StSending => AttemptSending
  | StStreaming => AttemptStreaming
  | StCompleted => AttemptCompleted
  | StFailed => AttemptFailed
  | StUncertain => AttemptUncertain
  end.

Definition attemptUpdateParams (claim : Claim) (attemptID : UUID) (update : AttemptUpdate) : UpdateAttemptParams :=
  mkUpdateAttemptParams (attemptStatus (AuStatus update)) (AuUpstreamRequestID update) (wrap32 <$> AuHTTPStatus update)
    (kind_string <$> AuErrorKind update) (AuRetryAfterAt update) (AuSentAt update) (AuFirstByteAt update) (AuCompletedAt update)
    (InputTokens <$> AuUsage update) (OutputTokens <$> AuUsage update)
    (match AuUsage update with Some u => Source u | None => UsageUnknown end)
    attemptID (ClRequestID claim) (ClExecutionID claim) (ClGeneration claim).

(** The model column [capabilities] is JSON, read by [json.Unmarshal]. *)
Definition model_of (decodeCapabilities : string -> result GoError ModelCapabilities)
    (row : UUID * ModelRow * ProviderRow) : result GoError Model :=
  let '(id, m, p) := row in
  let? capabilities := decodeCapabilities (MrCapabilities m) in
  Ok (mkModel id (MrPublicName m) (MrUpstreamName m) (MrProviderID m) (PvSlug p) (PvKind p) (PvBaseUrl p) capabilities
        (MrCreatedAt m)).

Fixpoint models_of (decodeCapabilities : string -> result GoError ModelCapabilities)
    (l : list (UUID * ModelRow * ProviderRow)) : result GoError (list Model) :=
  match l with
  | [] => Ok []
  | row :: l' =>
      match model_of decodeCapabilities row with
      | Ok m => match models_of decodeCapabilities l' with Ok ms => Ok (m :: ms) | Err e => Err e end
      | Err e => Err (Wrapped ("decode capabilities for model " +:+ row.1.1) e)
      end
  end.

Definition candidate_of (p : CredentialRow * option ScopeRow) : Candidate :=
  let '(r, scope) := p in
  mkCandidate (CdID r) (CdRpmLimit r) (CdTpmLimit r) (CdConcurrencyLimit r) (CdPriority r) (CdWeight r)
    (ScName <$> scope) (ScRpmLimit <$> scope) (ScTpmLimit <$> scope) (ScConcurrencyLimit <$> scope)
    (scope ≫= ScDailyTokenLimit) (scope ≫= ScDailyResetMinuteUtc)
    (CdConsecutiveFailures r) (CdLastSuccessAt r) (CdCooldownUntil r) (CdHealthGeneration r).

Definition recovery_range (before limit : Z) : bool := (negb (IsZero before) && (1 <=? limit) && (limit <=? 1000))%bool.

Section request_repository.
Context (decodeCapabilities : string -> result GoError ModelCapabilities) (collate : string -> string -> comparison).

Definition Repo_ListAvailableModels (c : Conn) (keyID : UUID) (s : Store) : result GoError (list Model) :=
  match ListAvailableModelsForKey c collate keyID s with
  | Ok l => models_of decodeCapabilities l
  | Err e => Err (pg_error e)
  end.

Definition Repo_ResolveAvailableModel (c : Conn) (keyID : UUID) (publicName : string) (s : Store) : result GoError Model :=
  match ResolveAvailableModelForKey c keyID publicName s with
  | Err NoRows => Err ErrModelNotFound
  | Err e => Err (pg_error e)
  | Ok (row, authorized) =>
      if (authorized : bool) then
        match model_of decodeCapabilities row with
        | Ok m => Ok m
        | Err e => Err (Wrapped "decode model capabilities" e)
        end
      else Err ErrModelNotAuthorized
  end.

Definition Repo_ListResourcePoolCandidates (c : Conn) (poolID modelID : UUID) (s : Store) : result GoError (list Candidate) :=
  match RequestTable.ListResourcePoolCandidates c poolID modelID s with
  | Ok l => Ok (candidate_of <$> l)
  | Err e => Err (pg_error e)
  end.

Definition Repo_AcquireCredentialHealthPermit (c : Conn) (credentialID : UUID) (s : Store) : result GoError Z * Store :=
  let '(r, s') := RequestTable.AcquireCredentialHealthPermit c credentialID s in
  (match r with Ok g => Ok g | Err NoRows => Err ErrNoEligibleUpstream | Err e => Err (pg_error e) end, s').

Definition Repo_ClaimExecution (c : Conn) (requestID executionID : UUID) (s : Store) : result GoError Claim * Store :=
  if (bool_decide (requestID = uuid_Nil) || bool_decide (executionID = uuid_Nil))%bool then (Err ErrNotClaimable, s)
  else
    let '(r, s') := ClaimRequestExecution c executionID requestID s in
    (match r with
     | Err NoRows => Err ErrNotClaimable
     | Err e => Err (pg_error e)
     | Ok record =>
         if (sql_eq (RwExecutionID record) executionID && (1 <=? RwExecutionGeneration record))%bool
         then Ok (mkClaim requestID executionID (RwExecutionGeneration record))
         else Err ErrFenced
     end, s').

Definition Repo_HeartbeatExecution (c : Conn) (claim : Claim) (s : Store) : option GoError * Store :=
  if Claim_Valid claim then
    wrote (HeartbeatRequestExecution c (ClRequestID claim) (ClExecutionID claim) (ClGeneration claim) s)
  else (Some ErrFenced, s).

(** What an observation says of the credential's health. *)
Definition recordCredentialObservation (c : Conn) (credentialID : UUID) (observation : option CredentialObservation) (s : Store) :
    option GoError * Store :=
  match observation with
  | None => (None, s)
  | Some ob =>
      if (bool_decide (credentialID = uuid_Nil) || IsZero (ObObservedAt ob))%bool then
        (Some (OtherError "invalid credential observation"), s)
      else
        match ObKind ob with
        | CredentialSucceeded =>
            let '(e, s') := RecordCredentialRuntimeSuccess c (Some (ObObservedAt ob)) credentialID (ObHealthGeneration ob) s in
            (pg_error <$> e, s')
        | CredentialFailed =>
            match ObErrorKind ob with
            | None => (Some (OtherError "credential failure requires an error kind"), s)
            | Some kind =>
                let health := match ObCooldownUntil ob with Some _ => HealthCooling | None => HealthRepairRequired end in
                let '(e, s') :=
                  RecordCredentialRuntimeFailure c health (ObCooldownUntil ob) (Some (kind_string kind)) credentialID
                    (ObHealthGeneration ob) s in
                (pg_error <$> e, s')
            end
        end
  end.

(** [Begin], statements, [Commit]; whatever fails before the commit leaves the
    store as it was. *)
Definition in_tx (t : Tx) (body : Store -> option GoError * Store) (s : Store) : option GoError * Store :=
  match tx_begin t with
  | Some e => (Some (pg_error e), s)
  | None =>
      match body s with
      | (Some e, _) => (Some e, s)
      | (None, s') =>
          let '(r, s'') := Commit t tt s s' in
          (match r with Ok _ => None | Err e => Some (pg_error e) end, s'')
      end
  end.

Definition update_and_observe (t : Tx) (claim : Claim) (attemptID : UUID) (update : AttemptUpdate) (s : Store) :
    option GoError * Store :=
  match RequestTable.UpdateAttempt (statement t 0) (attemptUpdateParams claim attemptID update) s with
  | (Err e, _) => (Some (executionWriteError e), s)
  | (Ok attempt, s1) => recordCredentialObservation (statement t 1) (AtCredentialID attempt) (AuCredential update) s1
  end.

Definition Repo_MarkExecutionStreaming (t : Tx) (claim : Claim) (attemptID : UUID) (update : AttemptUpdate) (s : Store) :
    option GoError * Store :=
  if (negb (Claim_Valid claim) || bool_decide (attemptID = uuid_Nil) ||
      match AuStatus update with StStreaming => false | _ => true end)%bool then (Some ErrFenced, s)
  else
    in_tx t (λ s0,
      match update_and_observe t claim attemptID update s0 with
      | (Some e, s1) => (Some e, s1)
      | (None, s1) =>
          wrote (MarkRequestExecutionStreaming (statement t 2) (ClRequestID claim) (ClExecutionID claim) (ClGeneration claim) s1)
      end) s.

Definition Repo_MarkExecutionUncertain (t : Tx) (claim : Claim) (attemptID : UUID) (update : AttemptUpdate)
    (errorKind errorDetail : string) (s : Store) : option GoError * Store :=
  if (negb (Claim_Valid claim) || bool_decide (attemptID = uuid_Nil))%bool then (Some ErrFenced, s)
  else
    in_tx t (λ s0,
      match RequestTable.UpdateAttempt (statement t 0) (attemptUpdateParams claim attemptID update) s0 with
      | (Err e, s1) => (Some (executionWriteError e), s1)
      | (Ok _, s1) =>
          wrote (MarkRequestExecutionUncertain (statement t 1) (Some errorKind) (optionalString errorDetail)
                   (ClRequestID claim) (ClExecutionID claim) (ClGeneration claim) s1)
      end) s.

Definition Repo_RecoverStaleExecutions (c : Conn) (before limit : Z) (s : Store) : (Z * option GoError) * Store :=
  if recovery_range before limit then
    let '(r, s') := RecoverStaleRequestExecutions c before limit s in
    (match r with Ok n => (n, None) | Err e => (0, Some (pg_error e)) end, s')
  else ((0, Some (OtherError "invalid stale execution recovery input")), s).

Definition recoverable_of (p : RequestRow * AttemptRow) : option RecoverableCompletion :=
  match RwExecutionID p.1, AtInputTokens p.2, AtOutputTokens p.2 with
  | Some e, Some input, Some output =>
      if 1 <=? RwExecutionGeneration p.1 then
        Some (mkRecoverable (mkClaim (RwID p.1) e (RwExecutionGeneration p.1)) (mkUsage input output (AtUsageSource p.2)))
      else None
  | _, _, _ => None
  end.

Definition first_incomplete (l : list (RequestRow * AttemptRow)) : UUID :=
  match List.find (λ p, is_null (recoverable_of p)) l with Some p => RwID p.1 | None => "" end.

Definition Repo_ListRecoverableCompletions (c : Conn) (before limit : Z) (s : Store) : result GoError (list RecoverableCompletion) :=
  if recovery_range before limit then
    match ListRecoverableRequestCompletions c before limit s with
    | Err e => Err (pg_error e)
    | Ok l =>
        match mapM recoverable_of l with
        | Some completions => Ok completions
        | None => Err (OtherError ("recoverable completion for request " +:+ first_incomplete l +:+ " is incomplete"))
        end
    end
  else Err (OtherError "invalid recoverable completion input").

Definition Repo_ListStaleQueuedRequests (c : Conn) (before limit : Z) (s : Store) : result GoError (list UUID) :=
  if recovery_range before limit then
    match RequestTable.ListStaleQueuedRequests c before limit s with Ok l => Ok l | Err e => Err (pg_error e) end
  else Err (OtherError "invalid stale queued request input").

Definition Repo_CreateAttempt (c : Conn) (newID : UUID) (claim : Claim) (credentialID : UUID) (sequence : Z) (s : Store) :
    result GoError UUID * Store :=
  if (negb (Claim_Valid claim) || bool_decide (credentialID = uuid_Nil) || (sequence <? 1))%bool then (Err ErrFenced, s)
  else
    let '(r, s') :=
      RequestTable.CreateAttempt c newID (ClRequestID claim) (ClExecutionID claim) (ClGeneration claim) credentialID
        (wrap32 sequence) AttemptCreated s in
    (match r with Ok a => Ok (AtID a) | Err e => Err (executionWriteError e) end, s').

Definition Repo_UpdateAttempt (t : Tx) (claim : Claim) (attemptID : UUID) (update : AttemptUpdate) (s : Store) :
    option GoError * Store :=
  if (negb (Claim_Valid claim) || bool_decide (attemptID = uuid_Nil))%bool then (Some ErrFenced, s)
  else
    match AuCredential update with
    | None => wrote (RequestTable.UpdateAttempt (statement t 0) (attemptUpdateParams claim attemptID update) s)
    | Some _ => in_tx t (update_and_observe t claim attemptID update) s
    end.
End request_repository.

(** ** usage/types.go *)

(** The errors of the package, the two of [execution] it passes on, and those
    of the database, as they are or ([UStore]) wrapped; [UWrapped] is [fmt.Errorf("usage store: %w", err)]. *)
Inductive UsageError :=
| UInvalidInput | UForbidden | UNotFound | UConflict | UModelNotAuthorized | UUsageUnknown | UOutcomeUnknown | UInvariant
| UFenced
| UDatabase (e : PgError)
| UStore (e : PgError)
| UWrapped (e : UsageError).

(** [errors.Is(err, target)] *)
Fixpoint usage_Is (is_target : UsageError -> bool) (e : UsageError) : bool :=
  (is_target e || match e with UWrapped inner => usage_Is is_target inner | _ => false end)%bool.

Record AcceptInput := mkAcceptInput {
  AiRequestID : UUID;
  AiUserID : UUID;
  AiGatewayKeyID : UUID;
  AiModelID : UUID;
  AiStream : bool;
  AiRequestDigest : string;
  AiIdempotencyKey : option string;
}.

Record UsageRequest := mkUsageRequest {
  UqID : UUID;
  UqIdempotencyKey : option string;
  UqUserID : UUID;
  UqGatewayKeyID : UUID;
  UqModelID : UUID;
  UqSubscriptionID : option UUID;
  UqResourcePoolID : UUID;
  UqStatus : RequestStatus;
  UqStream : bool;
  UqInputTokens : option Z;
  UqOutputTokens : option Z;
  UqUsageSource : UsageSource;
  UqErrorKind : option string;
  UqErrorDetail : option string;
  UqAcceptedAt : Z;
  UqCompletedAt : option Z;
  UqUpdatedAt : Z;
}.

Record AcceptedRequest := mkAcceptedRequest { AqRequest : UsageRequest; AqReplayed : bool }.

(** ** usage_repository.go: errors *)

(** What a transaction ends with: an error of the database or one of [usage]. *)
Definition TxError : Type := PgError + UsageError.

Definition translateUsageError (e : TxError) : UsageError :=
  match e with
  | inl NoRows => UNotFound
  | inl (PgCode sqlstate) =>
      if bool_decide (sqlstate = "23503") then UNotFound
      else if bool_decide (sqlstate ∈ ["23505"; "40001"; "40P01"]) then UConflict
      else if bool_decide (sqlstate ∈ ["23514"; "23502"; "22P02"]) then UInvalidInput
      else UStore (PgCode sqlstate)
  | inl e => UStore e
  | inr e => UWrapped e
  end.

Definition retryableTransaction (e : TxError) : bool :=
  match e with inl (PgCode sqlstate) => bool_decide (sqlstate ∈ ["40001"; "40P01"]) | _ => false end.

Definition requestTransactionAttempts : nat := 4.

Definition requestFromDB (r : RequestRow) : UsageRequest :=
  mkUsageRequest (RwID r) (RwIdempotencyKey r) (RwUserID r) (RwGatewayKeyID r) (RwModelID r) (RwSubscriptionID r)
    (RwResourcePoolID r) (RwStatus r) (RwStream r) (RwInputTokens r) (RwOutputTokens r) (RwUsageSource r) (RwErrorKind r)
    (RwErrorDetail r) (RwAcceptedAt r) (RwCompletedAt r) (RwUpdatedAt r).

(** ** request_acceptance.go *)

Definition same_request (input : AcceptInput) (existing : RequestRow) : bool :=
  (bool_decide (RwUserID existing = AiUserID input) && bool_decide (RwGatewayKeyID existing = AiGatewayKeyID input) &&
   bool_decide (RwModelID existing = AiModelID input) && Bool.eqb (RwStream existing) (AiStream input) &&
   bool_decide (RwRequestDigest existing = AiRequestDigest input))%bool.

(** A transaction's last step. *)
Definition commit_tx {A} (t : Tx) (a : A) (before after : Store) : result TxError A * Store :=
  let '(r, s) := Commit t a before after in (match r with Ok a => Ok a | Err e => Err (inl e) end, s).

Definition replayAcceptedRequest (t : Tx) (input : AcceptInput) (existing : RequestRow) (s : Store) :
    result TxError AcceptedRequest * Store :=
  if same_request input existing then commit_tx t (mkAcceptedRequest (requestFromDB existing) true) s s
  else (Err (inr UConflict), s).

(** The subscription a member's request is charged to: the first that sends
    the model to the pool of the key. *)
Definition covering (pool : UUID) (routes : list (UUID * UUID)) : option UUID :=
  match List.find (λ p : UUID * UUID, bool_decide (p.2 = pool)) routes with Some p => Some p.1 | None => None end.

(** Who may call the model through which pool, and on which subscription. *)
Definition authorize (t : Tx) (input : AcceptInput) (s : Store) : result TxError (UUID * option UUID) :=
  match GetActiveGatewayKeyForRequest (statement t 2) (AiGatewayKeyID input) (AiUserID input) s with
  | Err NoRows => Err (inr UForbidden)
  | Err e => Err (inl e)
  | Ok role =>
      match GetGatewayKeyRoute (statement t 3) (AiGatewayKeyID input) (AiModelID input) s with
      | Err NoRows => Err (inr UModelNotAuthorized)
      | Err e => Err (inl e)
      | Ok pool =>
          match role with
          | UserAdministrator => Ok (pool, None)
          | UserMember =>
              match GetApplicableSubscriptionRoutesForUpdate (statement t 4) (AiUserID input) (AiModelID input) s with
              | Err e => Err (inl e)
              | Ok routes =>
                  match covering pool routes with
                  | Some sub => Ok (pool, Some sub)
                  | None => Err (inr UModelNotAuthorized)
                  end
              end
          end
      end
  end.

Definition create_accepted (t : Tx) (input : AcceptInput) (s : Store) : result TxError AcceptedRequest * Store :=
  match authorize t input s with
  | Err e => (Err e, s)
  | Ok (pool, sub) =>
      match CreateRequest (statement t 5) (AiRequestID input) (AiIdempotencyKey input) (AiRequestDigest input) (AiUserID input)
              (AiGatewayKeyID input) (AiModelID input) sub pool RequestQueued (AiStream input) s with
      | (Err e, _) => (Err (inl e), s)
      | (Ok record, s') => commit_tx t (mkAcceptedRequest (requestFromDB record) false) s s'
      end
  end.

(** Statement 0 takes the advisory lock. *)
Definition acceptRequestOnce (t : Tx) (input : AcceptInput) (s : Store) : result TxError AcceptedRequest * Store :=
  match tx_begin t with
  | Some e => (Err (inl e), s)
  | None =>
      match AiIdempotencyKey input with
      | None => create_accepted t input s
      | Some key =>
          match tx_fault t 0 with
          | Some e => (Err (inl e), s)
          | None =>
              match GetRequestByIdempotencyKey (statement t 1) (AiGatewayKeyID input) key s with
              | Ok existing => replayAcceptedRequest t input existing s
              | Err NoRows => create_accepted t input s
              | Err e => (Err (inl e), s)
              end
          end
      end
  end.

(** The attempts left, and the error of the last one. *)
Fixpoint accept_loop (n : nat) (txs : nat -> Tx) (input : AcceptInput) (last : TxError) (s : Store) :
    result UsageError AcceptedRequest * Store :=
  match n with
  | O => (Err (translateUsageError last), s)
  | S n' =>
      match acceptRequestOnce (txs (requestTransactionAttempts - n)%nat) input s with
      | (Ok accepted, s') => (Ok accepted, s')
      | (Err e, s') =>
          if retryableTransaction e then accept_loop n' txs input e s' else (Err (translateUsageError e), s')
      end
  end.

Definition Repo_AcceptRequest (txs : nat -> Tx) (input : AcceptInput) (s : Store) : result UsageError AcceptedRequest * Store :=
  accept_loop requestTransactionAttempts txs input (inl NoRows) s.

(** ** request_resolution.go *)

Inductive ResolutionKind :=
| ResolutionComplete (input output : Z) (source : UsageSource)
| ResolutionFail (kind detail : string)
| ResolutionFailWithUsage (input output : Z) (source : UsageSource) (kind detail : string).

Definition validateRequestFence (request : RequestRow) (claim : option Claim) : bool :=
  match claim with
  | None => (is_null (RwExecutionID request) && (RwExecutionGeneration request =? 0) && request_in [RequestQueued] request)%bool
  | Some cl =>
      (Claim_Valid cl && bool_decide (ClRequestID cl = RwID request) && sql_eq (RwExecutionID request) (ClExecutionID cl) &&
       (RwExecutionGeneration request =? ClGeneration cl) && live request)%bool
  end.

Definition resolution_statement (c : Conn) (requestID : UUID) (claim : option Claim) (kind : ResolutionKind) (s : Store) :
    result PgError RequestRow * Store :=
  let e := ClExecutionID <$> claim in
  let g := match claim with Some cl => ClGeneration cl | None => 0 end in
  match kind with
  | ResolutionComplete input output source => CompleteRequest c (Some input) (Some output) source requestID e g s
  | ResolutionFail kind detail => FailRequest c (Some kind) (optionalString detail) requestID e g s
  | ResolutionFailWithUsage input output source kind detail =>
      FailRequestWithUsage c (Some input) (Some output) source (Some kind) (optionalString detail) requestID e g s
  end.

Definition resolve (t : Tx) (requestID : UUID) (claim : option Claim) (kind : ResolutionKind) (s : Store) :
    result UsageError UsageRequest * Store :=
  match tx_begin t with
  | Some e => (Err (UDatabase e), s)
  | None =>
      match GetRequestForUpdate (statement t 0) requestID s with
      | Err e => (Err (translateUsageError (inl e)), s)
      | Ok request =>
          if validateRequestFence request claim then
            match resolution_statement (statement t 1) requestID claim kind s with
            | (Err e, _) => (Err (translateUsageError (inl e)), s)
            | (Ok resolved, s') =>
                match commit_tx t (requestFromDB resolved) s s' with
                | (Ok r, s'') => (Ok r, s'')
                | (Err e, s'') => (Err (translateUsageError e), s'')
                end
            end
          else (Err UFenced, s)
      end
  end.

(** ** usage/service.go *)

Definition validKnownUsage (inputTokens outputTokens : Z) (source : UsageSource) : bool :=
  ((0 <=? inputTokens) && (0 <=? outputTokens) && (inputTokens <=? wrap64 (max_int64 - outputTokens)) &&
   bool_decide (source ∈ [UsageAuthoritative; UsageEstimated]))%bool.

Definition normalizeFailure (kind detail : string) : string * string :=
  let kind := TrimSpace kind in
  let detail := TrimSpace detail in
  if ((100 <? RuneCount kind) || (2000 <? RuneCount detail))%bool then ("", "") else (kind, detail).

Definition owned_claim (requestID : UUID) (claim : Claim) : bool :=
  (negb (bool_decide (requestID = uuid_Nil)) && bool_decide (ClRequestID claim = requestID) && Claim_Valid claim)%bool.

Definition valid_input (input : AcceptInput) : bool :=
  (negb (bool_decide (AiRequestID input = uuid_Nil)) && negb (bool_decide (AiUserID input = uuid_Nil)) &&
   negb (bool_decide (AiGatewayKeyID input = uuid_Nil)) && negb (bool_decide (AiModelID input = uuid_Nil)) &&
   (Z.of_nat (String.length (AiRequestDigest input)) =? 32))%bool.

(** The idempotency key without surrounding spaces, when it is acceptable. *)
Definition normal_key (key : option string) : option (option string) :=
  match key with
  | None => Some None
  | Some key =>
      let value := TrimSpace key in
      if (bool_decide (value = "") || (200 <? RuneCount value))%bool then None else Some (Some value)
  end.

Definition Service_AcceptRequest (txs : nat -> Tx) (input : AcceptInput) (s : Store) : result UsageError AcceptedRequest * Store :=
  if valid_input input then
    match normal_key (AiIdempotencyKey input) with
    | Some key =>
        Repo_AcceptRequest txs
          (mkAcceptInput (AiRequestID input) (AiUserID input) (AiGatewayKeyID input) (AiModelID input) (AiStream input)
             (AiRequestDigest input) key) s
    | None => (Err UInvalidInput, s)
    end
  else (Err UInvalidInput, s).

Definition Service_Complete (t : Tx) (requestID : UUID) (claim : Claim) (input output : Z) (source : UsageSource) (s : Store) :
    result UsageError UsageRequest * Store :=
  if (bool_decide (source = UsageUnknown) && (input =? 0) && (output =? 0))%bool then (Err UUsageUnknown, s)
  else if (owned_claim requestID claim && validKnownUsage input output source)%bool then
    resolve t requestID (Some claim) (ResolutionComplete input output source) s
  else (Err UInvalidInput, s).

Definition Service_Fail (t : Tx) (requestID : UUID) (claim : Claim) (kind detail : string) (s : Store) :
    result UsageError UsageRequest * Store :=
  let '(kind, detail) := normalizeFailure kind detail in
  if (owned_claim requestID claim && negb (bool_decide (kind = "")))%bool then
    resolve t requestID (Some claim) (ResolutionFail kind detail) s
  else (Err UInvalidInput, s).

Definition Service_FailAccepted (t : Tx) (requestID : UUID) (kind detail : string) (s : Store) :
    result UsageError UsageRequest * Store :=
  let '(kind, detail) := normalizeFailure kind detail in
  if (negb (bool_decide (requestID = uuid_Nil)) && negb (bool_decide (kind = "")))%bool then
    resolve t requestID None (ResolutionFail kind detail) s
  else (Err UInvalidInput, s).

Definition Service_FailWithUsage (t : Tx) (requestID : UUID) (claim : Claim) (input output : Z) (source : UsageSource)
    (kind detail : string) (s : Store) : result UsageError UsageRequest * Store :=
  let '(kind, detail) := normalizeFailure kind detail in
  if (bool_decide (source = UsageUnknown) && (input =? 0) && (output =? 0))%bool then (Err UUsageUnknown, s)
  else if (owned_claim requestID claim && negb (bool_decide (kind = "")) && validKnownUsage input output source)%bool then
    resolve t requestID (Some claim) (ResolutionFailWithUsage input output source kind detail) s
  else (Err UInvalidInput, s).

(** ** usage_adapter.go *)

(** The error as the workflow sees it. *)
Fixpoint usage_go (e : UsageError) : GoError :=
  match e with
  | UInvalidInput => OtherError "invalid usage input"
  | UForbidden => OtherError "usage operation forbidden"
  | UNotFound => OtherError "usage record not found"
  | UConflict => OtherError "usage conflict"
  | UModelNotAuthorized => OtherError "model is not authorized"
  | UUsageUnknown => OtherError "usage is unknown"
  | UOutcomeUnknown => OtherError "usage operation outcome is unknown"
  | UInvariant => OtherError "usage invariant violated"
  | UFenced => ErrFenced
  | UDatabase e => pg_error e
  | UStore e => Wrapped "usage store" (pg_error e)
  | UWrapped e => Wrapped "usage store" (usage_go e)
  end.

Definition accountingError (e : UsageError) : GoError :=
  if usage_Is (λ e, match e with UModelNotAuthorized => true | _ => false end) e then ErrModelNotAuthorized
  else if usage_Is (λ e, match e with UConflict => true | _ => false end) e then ErrIdempotencyConflict
  else if usage_Is (λ e, match e with UInvalidInput | UUsageUnknown => true | _ => false end) e then ErrInvalidAccounting
  else usage_go e.

Definition settled {A S} (p : result UsageError A * S) : option GoError * S :=
  (match p.1 with Ok _ => None | Err e => Some (accountingError e) end, p.2).

Definition Adapter_AcceptRequest (txs : nat -> Tx) (command : AcceptCommand) (s : Store) : result GoError Accepted * Store :=
  let '(r, s') :=
    Service_AcceptRequest txs
      (mkAcceptInput (AmRequestID command) (AmUserID command) (AmGatewayKeyID command) (AmModelID command) (AmStream command)
         (AmRequestDigest command) (AmIdempotencyKey command)) s in
  (match r with
   | Ok accepted => Ok (mkAccepted (UqID (AqRequest accepted)) (UqResourcePoolID (AqRequest accepted)) (AqReplayed accepted))
   | Err e => Err (accountingError e)
   end, s').

Definition Adapter_Complete (t : Tx) (claim : Claim) (u : Usage) (s : Store) : option GoError * Store :=
  settled (Service_Complete t (ClRequestID claim) claim (InputTokens u) (OutputTokens u) (Source u) s).
Definition Adapter_Fail (t : Tx) (claim : Claim) (kind detail : string) (s : Store) : option GoError * Store :=
  settled (Service_Fail t (ClRequestID claim) claim kind detail s).
Definition Adapter_FailAccepted (t : Tx) (requestID : UUID) (kind detail : string) (s : Store) : option GoError * Store :=
  settled (Service_FailAccepted t requestID kind detail s).
Definition Adapter_FailWithUsage (t : Tx) (claim : Claim) (u : Usage) (detail : string) (s : Store) : option GoError * Store :=
  settled (Service_FailWithUsage t (ClRequestID claim) claim (InputTokens u) (OutputTokens u) (Source u)
             (kind_string ErrorUncertain) detail s).
