(* ===== verification/RequestHistory.v ===== *)
(** * Histories of the accounting store

    The calls several gateways, their heartbeats, the recovery and the
    administration make on the store of [RequestStore], as steps.  Every call
    moves the rows of [requests] and [request_attempts] along a few edges
    ([row_step], [attempt_step]); the theorems about histories are consequences
    of [exec_moves] and [exec_attempts]. *)

From S2P Require Import Prelude GoStrings Canonical Capabilities Effects Workflow Sql RequestTable RequestStore.

Local Open Scope Z_scope.

Inductive Call :=
| CAccept (txs : nat -> Tx) (input : AcceptInput)
| CClaim (c : Conn) (requestID executionID : UUID)
| CHeartbeat (c : Conn) (claim : Claim)
| CStreaming (t : Tx) (claim : Claim) (attemptID : UUID) (update : AttemptUpdate)
| CUncertain (t : Tx) (claim : Claim) (attemptID : UUID) (update : AttemptUpdate) (kind detail : string)
| CRecover (c : Conn) (before limit : Z)
| CCreateAttempt (c : Conn) (newID : UUID) (claim : Claim) (credentialID : UUID) (sequence : Z)
| CUpdateAttempt (t : Tx) (claim : Claim) (attemptID : UUID) (update : AttemptUpdate)
| CComplete (t : Tx) (claim : Claim) (usage : Usage)
| CFail (t : Tx) (claim : Claim) (kind detail : string)
| CFailAccepted (t : Tx) (requestID : UUID) (kind detail : string)
| CFailWithUsage (t : Tx) (claim : Claim) (usage : Usage) (detail : string)
| CPermit (c : Conn) (credentialID : UUID)
| CAdmin (d : Directory) (credentials : gmap UUID CredentialRow).

(** The administration changes anything but requests and attempts. *)
Definition exec (call : Call) (s : Store) : Store :=
  match call with
  | CAccept txs input => (Service_AcceptRequest txs input s).2
  | CClaim c requestID executionID => (Repo_ClaimExecution c requestID executionID s).2
  | CHeartbeat c claim => (Repo_HeartbeatExecution c claim s).2
  | CStreaming t claim attemptID update => (Repo_MarkExecutionStreaming t claim attemptID update s).2
  | CUncertain t claim attemptID update kind detail => (Repo_MarkExecutionUncertain t claim attemptID update kind detail s).2
  | CRecover c before limit => (Repo_RecoverStaleExecutions c before limit s).2
  | CCreateAttempt c newID claim credentialID sequence => (Repo_CreateAttempt c newID claim credentialID sequence s).2
  | CUpdateAttempt t claim attemptID update => (Repo_UpdateAttempt t claim attemptID update s).2
  | CComplete t claim usage => (Adapter_Complete t claim usage s).2
  | CFail t claim kind detail => (Adapter_Fail t claim kind detail s).2
  | CFailAccepted t requestID kind detail => (Adapter_FailAccepted t requestID kind detail s).2
  | CFailWithUsage t claim usage detail => (Adapter_FailWithUsage t claim usage detail s).2
  | CPermit c credentialID => (Repo_AcquireCredentialHealthPermit c credentialID s).2
  | CAdmin d credentials => mkStore (st_requests s) (st_attempts s) credentials d
  end.

Fixpoint history (calls : list Call) (s : Store) : Store :=
  match calls with [] => s | call :: calls' => history calls' (exec call s) end.

(** On whose behalf a call acts. *)
Inductive Actor := ByClaim (claim : Claim) | ByRecovery (before : Z) | Unclaimed | Accepting (id : UUID) | Neutral.

Definition actor (call : Call) : Actor :=
  match call with
  | CStreaming _ claim _ _ | CUncertain _ claim _ _ _ _ | CCreateAttempt _ _ claim _ _ | CUpdateAttempt _ claim _ _
  | CComplete _ claim _ | CFail _ claim _ _ | CFailWithUsage _ claim _ _ | CHeartbeat _ claim => ByClaim claim
  | CRecover _ before _ => ByRecovery before
  | CFailAccepted _ _ _ _ => Unclaimed
  | CAccept _ input => Accepting (AiRequestID input)
  | CClaim _ _ _ | CPermit _ _ | CAdmin _ _ => Neutral
  end.

(** ** Rows of requests *)

Definition ended (r : RequestRow) : bool := negb (request_in [RequestQueued; RequestDispatching; RequestStreaming] r).

Definition rank (s : RequestStatus) : Z :=
  match s with RequestQueued => 0 | RequestDispatching => 1 | RequestStreaming => 2 | _ => 3 end.

(** The columns written when the request is accepted. *)
Definition origin (r : RequestRow) :=
  (RwID r, RwIdempotencyKey r, RwRequestDigest r, RwUserID r, RwGatewayKeyID r, RwModelID r, RwSubscriptionID r,
   RwResourcePoolID r, RwStream r, RwAcceptedAt r).

Record advances (r r' : RequestRow) : Prop := {
  adv_origin : origin r' = origin r;
  adv_ended : ended r = true -> r' = r;
  adv_execution e : RwExecutionID r = Some e ->
    RwExecutionID r' = Some e /\ RwExecutionGeneration r' = RwExecutionGeneration r;
  adv_rank : rank (RwStatus r) <= rank (RwStatus r');
}.

#[export] Instance advances_preorder : PreOrder advances.
Proof.
  split.
  - intros r. split; done.
  - intros r1 r2 r3 H12 H23. split.
    + rewrite (adv_origin _ _ H23). apply H12.
    + intros He. pose proof (adv_ended _ _ H12 He) as ->. by apply H23.
    + intros e He. apply (adv_execution _ _ H12) in He as [He Hg]. apply (adv_execution _ _ H23) in He as [He Hg'].
      split; [done|congruence].
    + pose proof (adv_rank _ _ H12). pose proof (adv_rank _ _ H23). lia.
Qed.

(** Who may end a request that has not ended. *)
Definition settles (x : Actor) (s : Store) (id : UUID) (r : RequestRow) : Prop :=
  match x with
  | ByClaim claim =>
      ClRequestID claim = id /\ RwExecutionID r = Some (ClExecutionID claim) /\
      RwExecutionGeneration r = ClGeneration claim /\ live r = true
  | ByRecovery before => live r = true /\ heartbeat_before before r = true /\ recorded_completions s r = []
  | Unclaimed => RwStatus r = RequestQueued /\ RwExecutionID r = None
  | Accepting _ | Neutral => False
  end.

(** A row that meets the constraints of the table; one that waits has no
    execution, one that runs has. *)
Definition row_ok (r : RequestRow) : Prop :=
  request_check r = true /\ (RwStatus r = RequestQueued -> RwExecutionID r = None) /\
  (live r = true -> is_Some (RwExecutionID r)).

Record row_step (x : Actor) (s : Store) (id : UUID) (r r' : RequestRow) : Prop := {
  rs_advances : advances r r';
  rs_ok : row_ok r -> row_ok r';
  rs_settles : ended r = false -> ended r' = true -> settles x s id r;
}.

(** What a newly accepted request looks like. *)
Definition newborn (id : UUID) (r : RequestRow) : Prop :=
  RwID r = id /\ RwStatus r = RequestQueued /\ RwExecutionID r = None /\ RwExecutionGeneration r = 0 /\ request_check r = true.

Inductive row_move (x : Actor) (s : Store) (id : UUID) : option RequestRow -> option RequestRow -> Prop :=
| rm_same o : row_move x s id o o
| rm_accepted r : x = Accepting id -> newborn id r -> request_clash (st_requests s) id r = false -> row_move x s id None (Some r)
| rm_step r r' : row_step x s id r r' -> row_move x s id (Some r) (Some r').

(** [s0] is the store the call began with. *)
Definition moves (x : Actor) (s0 s s' : Store) : Prop :=
  forall id, row_move x s0 id (st_requests s !! id) (st_requests s' !! id).

Lemma moves_same x s0 s s' : st_requests s' = st_requests s -> moves x s0 s s'.
Proof. intros H id. rewrite H. constructor. Qed.

Lemma row_step_refl x s id r : row_step x s id r r.
Proof. split; [done..|]. intros H1 H2. congruence. Qed.

(** ** Rows of attempts *)

Definition attempt_origin (a : AttemptRow) :=
  (AtID a, AtRequestID a, AtExecutionID a, AtExecutionGeneration a, AtCredentialID a, AtSequence a, AtCreatedAt a).

Definition attempt_rank (st : AttemptState) : Z :=
  match st with AttemptCreated => 0 | AttemptSending => 1 | AttemptStreaming => 2 | _ => 3 end.

Record attempt_step (x : Actor) (s : Store) (a a' : AttemptRow) : Prop := {
  as_origin : attempt_origin a' = attempt_origin a;
  as_open : open_attempt a = true;
  as_rank : attempt_rank (AtStatus a) <= attempt_rank (AtStatus a');
  as_live : exists r, st_requests s !! AtRequestID a = Some r /\ held_by (Some (AtExecutionID a)) (AtExecutionGeneration a) r = true;
  as_check : attempt_check a = true -> attempt_check a' = true;
  as_actor :
    match x with
    | ByClaim claim =>
        AtRequestID a = ClRequestID claim /\ AtExecutionID a = ClExecutionID claim /\ AtExecutionGeneration a = ClGeneration claim
    | ByRecovery _ => AtStatus a' = AttemptUncertain
    | _ => False
    end;
}.

Inductive attempt_move (x : Actor) (s : Store) (id : UUID) : option AttemptRow -> option AttemptRow -> Prop :=
| am_same o : attempt_move x s id o o
| am_created claim a r : x = ByClaim claim -> AtID a = id -> AtStatus a = AttemptCreated ->
    AtRequestID a = ClRequestID claim -> st_requests s !! ClRequestID claim = Some r ->
    held_by (Some (AtExecutionID a)) (AtExecutionGeneration a) r = true -> attempt_check a = true ->
    attempt_move x s id None (Some a)
| am_step a a' : attempt_step x s a a' -> attempt_move x s id (Some a) (Some a').

Definition attempts_move (x : Actor) (s s' : Store) : Prop :=
  forall id, attempt_move x s id (st_attempts s !! id) (st_attempts s' !! id).

Lemma attempts_move_same x s s' : st_attempts s' = st_attempts s -> attempts_move x s s'.
Proof. intros H id. rewrite H. constructor. Qed.

(** ** Single statements *)

Lemma held_by_spec e g r :
  held_by (Some e) g r = true <-> RwExecutionID r = Some e /\ RwExecutionGeneration r = g /\ live r = true.
Proof. unfold held_by, sql_eq. rewrite !andb_true_iff, Z.eqb_eq, bool_decide_eq_true. tauto. Qed.

Lemma live_not_ended r : live r = true -> ended r = false.
Proof. unfold live, ended, request_in. rewrite bool_decide_eq_true, negb_false_iff, bool_decide_eq_true. set_solver. Qed.

Lemma live_rank r : live r = true -> 1 <= rank (RwStatus r) <= 2.
Proof. unfold live, request_in. rewrite bool_decide_eq_true. destruct (RwStatus r); simpl; set_solver by lia. Qed.

Lemma unended_rank r : ended r = false -> rank (RwStatus r) <= 2.
Proof. unfold ended, request_in. rewrite negb_false_iff, bool_decide_eq_true. destruct (RwStatus r); simpl; set_solver by lia. Qed.

(** The three kinds of change a statement makes to a row. *)
Lemma put_heartbeat_step x s id now e g r :
  held_by (Some e) g r = true -> request_check (put_heartbeat now r) = true -> row_step x s id r (put_heartbeat now r).
Proof.
  intros (He & _ & Hl)%held_by_spec Hc. pose proof (live_not_ended _ Hl) as Hn. split.
  - split; try done. congruence.
  - intros (_ & Hq & _). split_and!; [done..|]. intros _. simpl. eauto.
  - intros _. unfold ended, request_in in *. simpl. congruence.
Qed.

Lemma put_streaming_step x s id now e g r :
  held_by (Some e) g r = true -> request_check (put_status RequestStreaming (put_heartbeat now r)) = true ->
  row_step x s id r (put_status RequestStreaming (put_heartbeat now r)).
Proof.
  intros (He & _ & Hl)%held_by_spec Hc. pose proof (live_not_ended _ Hl) as Hn. pose proof (live_rank _ Hl). split.
  - split; try done; [congruence|]. simpl. lia.
  - intros _. split_and!; [done..|]. intros _. simpl. eauto.
  - intros _. done.
Qed.

Lemma put_end_step x s id v kind detail now r r' :
  ended r = false -> rank v = 3 -> settles x s id r ->
  origin r' = origin r -> RwExecutionID r' = RwExecutionID r -> RwExecutionGeneration r' = RwExecutionGeneration r ->
  request_check r' = request_check r -> row_step x s id r (put_end v kind detail now r').
Proof.
  intros He Hv Hs Ho Hx Hg Hc. split; [split; simpl| |done].
  - exact Ho.
  - congruence.
  - intros e Hxe. split; congruence.
  - pose proof (unended_rank _ He). lia.
  - intros (Hr & _ & _). split_and!; [by rewrite <- Hr, <- Hc|..].
    + simpl. intros ->. done.
    + unfold live, request_in. simpl. by destruct v.
Qed.

Section statements.
Context (x : Actor) (s0 : Store) (c : Conn).

Lemma update_request_moves id guard f s :
  (forall r, st_requests s !! id = Some r -> guard r = true -> request_check (f r) = true -> row_step x s0 id r (f r)) ->
  moves x s0 s (update_request c id guard f s).2.
Proof.
  intros Hf. unfold update_request, on_requests. destruct (update_one _ _ _ _ _ _) as [res t] eqn:Hu. intros id'. simpl.
  apply update_one_inv in Hu as [(r & Hr & Hg & Had & _ & ->)|(-> & _)]; [|constructor].
  destruct (decide (id' = id)) as [->|Hne]; [|rewrite lookup_insert_ne by done; constructor].
  rewrite lookup_insert_eq, Hr. apply rm_step. apply Hf; [done..|]. apply Had.
Qed.

Lemma update_request_attempts id guard f s : st_attempts (update_request c id guard f s).2 = st_attempts s.
Proof. unfold update_request, on_requests. by destruct (update_one _ _ _ _ _ _). Qed.

Lemma held_not_ended e g r : held_by (Some e) g r = true -> ended r = false.
Proof. intros (_ & _ & Hl)%held_by_spec. by apply live_not_ended. Qed.
End statements.

(** ** Requests, call by call *)

Lemma request_in_one v r : request_in [v] r = true -> RwStatus r = v.
Proof. unfold request_in. rewrite bool_decide_eq_true. set_solver. Qed.

Lemma Claim_moves x s0 c e id s : moves x s0 s (ClaimRequestExecution c e id s).2.
Proof.
  apply update_request_moves. intros r _ Hg Hc. apply orb_true_iff in Hg.
  assert (Hn : ended r = false).
  { unfold ended, request_in. destruct Hg as [[->%request_in_one _]%andb_true_iff|[->%request_in_one _]%andb_true_iff]; done. }
  split; [split; simpl|..].
  - by destruct (is_null _).
  - congruence.
  - intros e' He'. rewrite He'. simpl. destruct Hg as [[_ Hx]%andb_true_iff|[_ Hx]%andb_true_iff]; [by rewrite He' in Hx|].
    unfold sql_eq in Hx. apply bool_decide_eq_true in Hx. split; congruence.
  - destruct Hg as [[->%request_in_one _]%andb_true_iff|[->%request_in_one _]%andb_true_iff]; simpl; lia.
  - intros _. split_and!; [done..|]. intros _. simpl. destruct (is_null _); simpl; eauto.
  - done.
Qed.

Lemma Create_moves c id key digest user keyID model sub pool stream s :
  moves (Accepting id) s s (CreateRequest c id key digest user keyID model sub pool RequestQueued stream s).2.
Proof.
  unfold CreateRequest, on_requests. destruct (insert_one _ _ _ _ _) as [res t] eqn:Hu. intros id'. simpl.
  apply insert_one_inv in Hu as [(Hn & Had & _ & ->)|(-> & _)]; [|constructor].
  destruct (decide (id' = id)) as [->|Hne]; [|rewrite lookup_insert_ne by done; constructor].
  rewrite lookup_insert_eq, Hn. constructor; [done| |apply Had]. split_and!; try done. apply Had.
Qed.

(** What [Commit] leaves is the state before or after. *)
Lemma Commit_either {A S} (P : S -> Prop) t (a : A) (s s' : S) : P s -> P s' -> P (Commit t a s s').2.
Proof. unfold Commit. destruct (tx_commit t); done. Qed.

Lemma in_tx_either (P : Store -> Prop) t body s :
  P s -> (forall s', body s = (None, s') -> P s') -> P (in_tx t body s).2.
Proof.
  intros H0 Hb. unfold in_tx. destruct (tx_begin t); [done|]. destruct (body s) as [[e|] s'] eqn:Hs; [done|].
  pose proof (Commit_either P t () s s' H0 (Hb _ eq_refl)) as Hc. by destruct (Commit t () s s').
Qed.

Lemma commit_tx_either {A} (P : Store -> Prop) t (a : A) s s' : P s -> P s' -> P (commit_tx t a s s').2.
Proof. intros H0 H1. unfold commit_tx. pose proof (Commit_either P t a s s' H0 H1). by destruct (Commit t a s s'). Qed.

Lemma create_accepted_either (P : Store -> Prop) t input s :
  P s ->
  (forall pool sub, authorize t input s = Ok (pool, sub) ->
     P (CreateRequest (statement t 5) (AiRequestID input) (AiIdempotencyKey input) (AiRequestDigest input) (AiUserID input)
          (AiGatewayKeyID input) (AiModelID input) sub pool RequestQueued (AiStream input) s).2) ->
  P (create_accepted t input s).2.
Proof.
  intros H0 H1. unfold create_accepted. destruct (authorize t input s) as [[pool sub]|] eqn:Ha; [|done].
  specialize (H1 _ _ eq_refl). destruct (CreateRequest _ _ _ _ _ _ _ _ _ _ _ s) as [[record|e] s'] eqn:Hc; [|done].
  by apply commit_tx_either.
Qed.

Lemma acceptRequestOnce_either (P : Store -> Prop) t input s :
  P s -> P (create_accepted t input s).2 -> P (acceptRequestOnce t input s).2.
Proof.
  intros H0 H1. unfold acceptRequestOnce, replayAcceptedRequest. repeat case_match; try done. by apply commit_tx_either.
Qed.

(** An attempt that is to be repeated had no effect. *)
Lemma commit_tx_retry {A} t (a : A) s s' e s'' :
  commit_tx t a s s' = (Err e, s'') -> retryableTransaction e = true -> s'' = s.
Proof. unfold commit_tx, Commit. destruct (tx_commit t); intros [= <- <-]; done. Qed.

Lemma acceptRequestOnce_retry t input s e s' :
  acceptRequestOnce t input s = (Err e, s') -> retryableTransaction e = true -> s' = s.
Proof.
  unfold acceptRequestOnce, replayAcceptedRequest, create_accepted. intros H Hr. repeat (case_match; simplify_eq; try done).
  all: by eapply commit_tx_retry.
Qed.

Lemma accept_loop_either (P : Store -> Prop) n txs input last s :
  P s -> (forall t, P (acceptRequestOnce t input s).2) -> P (accept_loop n txs input last s).2.
Proof.
  intros H0 H1. revert last. induction n as [|n IH]; intros last; [done|]. cbn [accept_loop].
  set (t := txs _). pose proof (H1 t) as Ht. destruct (acceptRequestOnce t input s) as [[a|e] s'] eqn:Ha; [done|].
  destruct (retryableTransaction e) eqn:Hr; [|done]. by rewrite (acceptRequestOnce_retry _ _ _ _ _ Ha Hr).
Qed.

Lemma Accept_moves txs input s : moves (Accepting (AiRequestID input)) s s (Service_AcceptRequest txs input s).2.
Proof.
  set (P := moves (Accepting (AiRequestID input)) s s). assert (Hs : P s) by by apply moves_same.
  assert (Hl : forall i, AiRequestID i = AiRequestID input -> P (Repo_AcceptRequest txs i s).2).
  { intros i Hi. apply (accept_loop_either P); [done|]. intros t. apply (acceptRequestOnce_either P); [done|].
    apply (create_accepted_either P); [done|]. intros pool sub _. unfold P. rewrite <- Hi. apply Create_moves. }
  unfold Service_AcceptRequest. repeat case_match; try done; by apply Hl.
Qed.

(** Rows are found under their identifier. *)
Definition keyed (s : Store) : Prop := forall id r, st_requests s !! id = Some r -> RwID r = id.

(** Whoever resolves a request may do it. *)
Definition resolver (claim : option Claim) : Actor := match claim with Some cl => ByClaim cl | None => Unclaimed end.

Lemma fence_settles s id r claim :
  RwID r = id -> validateRequestFence r claim = true -> settles (resolver claim) s id r /\ ended r = false.
Proof.
  intros Hid. destruct claim as [cl|]; simpl; rewrite !andb_true_iff.
  - intros ((((_ & Hr) & He) & Hg) & Hl). unfold sql_eq in He. rewrite bool_decide_eq_true in Hr, He. apply Z.eqb_eq in Hg.
    split; [|by apply live_not_ended]. split_and!; [congruence|done..].
  - intros ((Hn & _) & Hq). unfold request_in in Hq. apply bool_decide_eq_true in Hq.
    assert (Hs : RwStatus r = RequestQueued) by set_solver. destruct (RwExecutionID r); [done|].
    split; [done|]. unfold ended, request_in. by rewrite Hs.
Qed.

Lemma resolution_moves c id claim kind s r :
  keyed s -> st_requests s !! id = Some r -> validateRequestFence r claim = true ->
  moves (resolver claim) s s (resolution_statement c id claim kind s).2.
Proof.
  intros Hk Hr Hv. destruct (fence_settles s id r claim (Hk _ _ Hr) Hv) as [Hs He].
  assert (Hu : forall guard f, (forall r0, r0 = r -> row_step (resolver claim) s id r0 (f r0)) ->
    moves (resolver claim) s s (update_request c id guard f s).2).
  { intros guard f Hf. apply update_request_moves. intros r0 Hr0 _ _. apply Hf. congruence. }
  unfold resolution_statement, CompleteRequest, FailRequestWithUsage, FailRequest, usage_given.
  destruct kind; repeat case_match; try (by apply moves_same); apply Hu; intros r0 ->; by apply put_end_step.
Qed.

Lemma resolve_either (P : Store -> Prop) t id claim kind s :
  P s ->
  (forall r, st_requests s !! id = Some r -> validateRequestFence r claim = true ->
     P (resolution_statement (statement t 1) id claim kind s).2) ->
  P (resolve t id claim kind s).2.
Proof.
  intros H0 H1. unfold resolve, GetRequestForUpdate, select_one. destruct (tx_begin t); [done|].
  destruct (cn_fault _); [done|]. destruct (st_requests s !! id) as [r|] eqn:Hr; [|done].
  destruct (validateRequestFence r claim) eqn:Hv; [|done]. specialize (H1 _ eq_refl Hv).
  destruct (resolution_statement _ _ _ _ _) as [[row|e] s']; [|done].
  pose proof (commit_tx_either P t (requestFromDB row) s s' H0 H1). by destruct (commit_tx t _ s s') as [[]].
Qed.

Lemma resolve_moves t id claim kind s : keyed s -> moves (resolver claim) s s (resolve t id claim kind s).2.
Proof. intros Hk. apply (resolve_either (moves (resolver claim) s s)); [by apply moves_same|]. intros r Hr Hv. by eapply resolution_moves. Qed.

(** ** The recovery *)

Lemma rows_spec {A} (t : gmap UUID A) r : r ∈ rows t <-> exists id, t !! id = Some r.
Proof.
  unfold rows. rewrite list_elem_of_fmap. split.
  - intros ([id r'] & -> & H). exists id. by apply elem_of_map_to_list in H.
  - intros (id & H). exists (id, r). split; [done|]. by apply elem_of_map_to_list.
Qed.

Lemma stale_rows_spec c before limit s r :
  r ∈ stale_rows c before limit s ->
  (exists id, st_requests s !! id = Some r) /\ live r = true /\ heartbeat_before before r = true /\ recorded_completions s r = [].
Proof.
  unfold stale_rows. intros H. apply elem_of_take in H as (i & H & _). apply list_elem_of_lookup_2 in H.
  rewrite merge_sort_Permutation, list_elem_of_filter in H. destruct H as [H Hr]. apply rows_spec in Hr.
  rewrite !andb_true_iff in H. destruct H as (((Hl & Hh) & Hn) & _). split_and!; try done.
  unfold is_nil in Hn. by destruct (recorded_completions s r).
Qed.

Lemma stale_row_of c before limit s id r :
  keyed s -> st_requests s !! id = Some r -> RwID r ∈ (RwID <$> stale_rows c before limit s) -> r ∈ stale_rows c before limit s.
Proof.
  intros Hk Hr (r' & He & Hin)%list_elem_of_fmap. destruct (stale_rows_spec _ _ _ _ _ Hin) as ((id' & Hr') & _).
  assert (id' = id) as -> by (rewrite <- (Hk _ _ Hr'), <- (Hk _ _ Hr); congruence). congruence.
Qed.

Lemma Recover_moves c before limit s :
  keyed s -> moves (ByRecovery before) s s (RecoverStaleRequestExecutions c before limit s).2.
Proof.
  intros Hk. unfold RecoverStaleRequestExecutions. destruct (cn_fault c); [by apply moves_same|]. intros id. simpl.
  rewrite lookup_fmap. destruct (st_requests s !! id) as [r|] eqn:Hr; [|constructor]. simpl. apply rm_step. unfold fence_request.
  destruct (bool_decide _) eqn:Hb; [|apply row_step_refl]. apply bool_decide_eq_true in Hb.
  destruct (stale_rows_spec _ _ _ _ _ (stale_row_of _ _ _ _ _ _ Hk Hr Hb)) as (_ & Hl & Hh & Hn).
  apply put_end_step; try done. by apply live_not_ended.
Qed.

(** ** Every call *)

Lemma observation_keeps c id ob s :
  st_requests (recordCredentialObservation c id ob s).2 = st_requests s /\
  st_attempts (recordCredentialObservation c id ob s).2 = st_attempts s.
Proof.
  unfold recordCredentialObservation, RecordCredentialRuntimeSuccess, RecordCredentialRuntimeFailure, exec_one, update_credential.
  repeat (case_match; simplify_eq/=); done.
Qed.

Lemma UpdateAttempt_requests c p s : st_requests (RequestTable.UpdateAttempt c p s).2 = st_requests s.
Proof. unfold RequestTable.UpdateAttempt, on_attempts. case_match; [|done]. by destruct (update_one _ _ _ _ _ _). Qed.

Lemma CreateAttempt_requests c id q e g cred sq st s :
  st_requests (RequestTable.CreateAttempt c id q e g cred sq st s).2 = st_requests s.
Proof. unfold RequestTable.CreateAttempt, on_attempts. case_match; [|done]. by destruct (insert_one _ _ _ _ _). Qed.

Lemma update_and_observe_requests t claim id update s :
  st_requests (update_and_observe t claim id update s).2 = st_requests s.
Proof.
  unfold update_and_observe. pose proof (UpdateAttempt_requests (statement t 0) (attemptUpdateParams claim id update) s) as Hu.
  destruct (RequestTable.UpdateAttempt _ _ _) as [[a|e] s1]; [|done]. simpl in Hu. rewrite <- Hu. apply observation_keeps.
Qed.

(** A change of a request that its holder makes. *)
Lemma holder_moves c claim s s1 f :
  st_requests s1 = st_requests s ->
  (forall r, held_by (Some (ClExecutionID claim)) (ClGeneration claim) r = true -> request_check (f r) = true ->
     settles (ByClaim claim) s (ClRequestID claim) r -> row_step (ByClaim claim) s (ClRequestID claim) r (f r)) ->
  moves (ByClaim claim) s s
    (update_request c (ClRequestID claim) (held_by (Some (ClExecutionID claim)) (ClGeneration claim)) f s1).2.
Proof.
  intros He Hf id. rewrite <- He. apply update_request_moves. intros r _ Hh Hc. apply Hf; [done..|].
  by apply held_by_spec in Hh as (? & ? & ?).
Qed.

Lemma permit_keeps c id s :
  st_requests (Repo_AcquireCredentialHealthPermit c id s).2 = st_requests s /\
  st_attempts (Repo_AcquireCredentialHealthPermit c id s).2 = st_attempts s.
Proof.
  unfold Repo_AcquireCredentialHealthPermit, RequestTable.AcquireCredentialHealthPermit, update_credential.
  repeat (case_match; simplify_eq/=); done.
Qed.

Lemma exec_moves call s : keyed s -> moves (actor call) s s (exec call s).
Proof.
  intros Hk. destruct call; cbn [actor exec].
  - apply Accept_moves.
  - unfold Repo_ClaimExecution. case_match; [by apply moves_same|].
    pose proof (Claim_moves Neutral s c executionID requestID s). by destruct (ClaimRequestExecution _ _ _ _).
  - unfold Repo_HeartbeatExecution. case_match; [|by apply moves_same]. apply holder_moves; [done|].
    intros r Hh Hc _. by eapply put_heartbeat_step.
  - unfold Repo_MarkExecutionStreaming. case_match; [by apply moves_same|].
    apply (in_tx_either (moves (ByClaim claim) s s)); [by apply moves_same|]. intros s' Hb.
    pose proof (update_and_observe_requests t claim attemptID update s) as Hu.
    destruct (update_and_observe _ _ _ _ _) as [[e|] s1]; [done|]. simpl in Hu.
    match type of Hb with wrote ?p = _ => assert (s' = p.2) as -> by (unfold wrote in Hb; congruence) end.
    apply holder_moves; [done|]. intros r Hh Hc _. by eapply put_streaming_step.
  - unfold Repo_MarkExecutionUncertain. case_match; [by apply moves_same|].
    apply (in_tx_either (moves (ByClaim claim) s s)); [by apply moves_same|]. intros s' Hb.
    pose proof (UpdateAttempt_requests (statement t 0) (attemptUpdateParams claim attemptID update) s) as Hu.
    destruct (RequestTable.UpdateAttempt _ _ _) as [[a|e] s1]; [|done]. simpl in Hu.
    match type of Hb with wrote ?p = _ => assert (s' = p.2) as -> by (unfold wrote in Hb; congruence) end.
    apply holder_moves; [done|]. intros r Hh _ Hs. apply put_end_step; try done. by eapply held_not_ended.
  - unfold Repo_RecoverStaleExecutions. case_match; [|by apply moves_same].
    pose proof (Recover_moves c before limit s Hk). by destruct (RecoverStaleRequestExecutions _ _ _ _).
  - unfold Repo_CreateAttempt. case_match; [by apply moves_same|]. apply moves_same.
    match goal with |- context [RequestTable.CreateAttempt ?a ?b ?d ?e ?f ?g ?h ?i ?j] =>
      pose proof (CreateAttempt_requests a b d e f g h i j); by destruct (RequestTable.CreateAttempt a b d e f g h i j) end.
  - unfold Repo_UpdateAttempt. repeat case_match; try (by apply moves_same).
    + apply (in_tx_either (moves (ByClaim claim) s s)); [by apply moves_same|]. intros s' Hb. apply moves_same.
      pose proof (update_and_observe_requests t claim attemptID update s) as Hu. by rewrite Hb in Hu.
    + apply moves_same. apply UpdateAttempt_requests.
  - unfold Adapter_Complete, settled, Service_Complete. simpl. repeat case_match; try (by apply moves_same).
    by apply (resolve_moves t _ (Some claim)).
  - unfold Adapter_Fail, settled, Service_Fail. simpl. repeat case_match; try (by apply moves_same).
    by apply (resolve_moves t _ (Some claim)).
  - unfold Adapter_FailAccepted, settled, Service_FailAccepted. simpl. repeat case_match; try (by apply moves_same).
    by apply (resolve_moves t _ None).
  - unfold Adapter_FailWithUsage, settled, Service_FailWithUsage. simpl. repeat case_match; try (by apply moves_same).
    by apply (resolve_moves t _ (Some claim)).
  - apply moves_same, permit_keeps.
  - by apply moves_same.
Qed.

(** ** Attempts *)

Lemma may_become_open target a :
  may_become target a = true -> open_attempt a = true /\ attempt_rank (AtStatus a) <= attempt_rank target.
Proof.
  unfold may_become, open_attempt. intros H.
  destruct target; try done; apply bool_decide_eq_true in H; (split; [apply bool_decide_eq_true; set_solver|]);
    destruct (AtStatus a); simpl; try lia; set_solver.
Qed.

Lemma UpdateAttempt_moves c claim id update s :
  attempts_move (ByClaim claim) s (RequestTable.UpdateAttempt c (attemptUpdateParams claim id update) s).2.
Proof.
  unfold RequestTable.UpdateAttempt, on_attempts. case_match; [|by apply attempts_move_same].
  destruct (update_one _ _ _ _ _ _) as [res t] eqn:Hu. intros id'. simpl.
  apply update_one_inv in Hu as [(a & Ha & Hg & Had & _ & ->)|(-> & _)]; [|constructor].
  destruct (decide (id' = id)) as [->|Hne]; [|rewrite lookup_insert_ne by done; constructor].
  simpl in Ha. simpl. rewrite lookup_insert_eq, Ha. apply am_step. simpl in Hg. rewrite !andb_true_iff in Hg.
  destruct Hg as ((((Hq & He) & Hgen) & Hlive) & Hm). rewrite bool_decide_eq_true in Hq, He. apply Z.eqb_eq in Hgen.
  destruct (may_become_open _ _ Hm) as [Ho Hr]. destruct (st_requests s !! AtRequestID a) as [r|] eqn:Hrow; [|done].
  split; try done; [by exists r|]. intros _. apply Had.
Qed.

Lemma CreateAttempt_moves c id claim cred sq s :
  attempts_move (ByClaim claim) s
    (RequestTable.CreateAttempt c id (ClRequestID claim) (ClExecutionID claim) (ClGeneration claim) cred sq AttemptCreated s).2.
Proof.
  unfold RequestTable.CreateAttempt, on_attempts, select_one.
  destruct (cn_fault c); [by apply attempts_move_same|].
  destruct (st_requests s !! ClRequestID claim) as [r|] eqn:Hr; [|by apply attempts_move_same].
  destruct (held_by _ _ r) eqn:Hh; [|by apply attempts_move_same].
  destruct (insert_one _ _ _ _ _) as [res t] eqn:Hu. intros id'. simpl.
  apply insert_one_inv in Hu as [(Hn & Had & _ & ->)|(-> & _)]; [|constructor].
  destruct (decide (id' = id)) as [->|Hne]; [|rewrite lookup_insert_ne by done; constructor].
  rewrite lookup_insert_eq, Hn. eapply am_created; try done. apply Had.
Qed.

Lemma attempt_of_spec r a :
  attempt_of r a = true <->
  AtRequestID a = RwID r /\ RwExecutionID r = Some (AtExecutionID a) /\ AtExecutionGeneration a = RwExecutionGeneration r.
Proof. unfold attempt_of, sql_eq. rewrite !andb_true_iff, !bool_decide_eq_true, Z.eqb_eq. tauto. Qed.

Lemma Recover_attempts c before limit s :
  keyed s -> attempts_move (ByRecovery before) s (RecoverStaleRequestExecutions c before limit s).2.
Proof.
  intros Hk. unfold RecoverStaleRequestExecutions. destruct (cn_fault c); [by apply attempts_move_same|]. intros id. simpl.
  rewrite lookup_fmap. destruct (st_attempts s !! id) as [a|] eqn:Ha; [|constructor]. simpl.
  unfold fence_attempt. destruct (_ && _)%bool eqn:Hb; [|constructor]. apply am_step.
  apply andb_true_iff in Hb as [Hx Ho]. apply existsb_exists in Hx as (r & Hin & (Hq & He & Hg)%attempt_of_spec).
  apply list_elem_of_In in Hin. destruct (stale_rows_spec _ _ _ _ _ Hin) as ((id' & Hr) & Hl & _ & _).
  pose proof (Hk _ _ Hr) as Hid. split; try done.
  - simpl. unfold open_attempt in Ho. apply bool_decide_eq_true in Ho. destruct (AtStatus a); simpl; lia.
  - exists r. split; [by rewrite Hq, Hid|]. by apply held_by_spec.
Qed.

Lemma attempts_move_after x s s1 s2 : st_attempts s2 = st_attempts s1 -> attempts_move x s s1 -> attempts_move x s s2.
Proof. intros He H id. rewrite He. apply H. Qed.

Lemma resolve_attempts t id claim kind s : st_attempts (resolve t id claim kind s).2 = st_attempts s.
Proof.
  apply (resolve_either (λ s', st_attempts s' = st_attempts s)); [done|]. intros r _ _.
  unfold resolution_statement, CompleteRequest, FailRequest, FailRequestWithUsage, usage_given.
  destruct kind; repeat case_match; try done; apply update_request_attempts.
Qed.

Lemma Accept_attempts txs input s : st_attempts (Service_AcceptRequest txs input s).2 = st_attempts s.
Proof.
  set (P := λ s' : Store, st_attempts s' = st_attempts s).
  assert (Hl : forall i, P (Repo_AcceptRequest txs i s).2).
  { intros i. apply (accept_loop_either P); [done|]. intros t. apply (acceptRequestOnce_either P); [done|].
    apply (create_accepted_either P); [done|]. intros pool sub _. unfold P, CreateRequest, on_requests.
    by destruct (insert_one _ _ _ _ _). }
  unfold Service_AcceptRequest. repeat case_match; try done; apply Hl.
Qed.

Lemma update_and_observe_attempts t claim id update s :
  attempts_move (ByClaim claim) s (update_and_observe t claim id update s).2.
Proof.
  unfold update_and_observe. pose proof (UpdateAttempt_moves (statement t 0) claim id update s) as Hu.
  destruct (RequestTable.UpdateAttempt _ _ _) as [[a|e] s1]; [|by apply attempts_move_same].
  eapply attempts_move_after; [apply observation_keeps|done].
Qed.

Lemma exec_attempts call s : keyed s -> attempts_move (actor call) s (exec call s).
Proof.
  intros Hk. destruct call; cbn [actor exec].
  - apply attempts_move_same, Accept_attempts.
  - unfold Repo_ClaimExecution. case_match; [by apply attempts_move_same|]. apply attempts_move_same.
    unfold ClaimRequestExecution.
    match goal with |- context [update_request ?a ?b ?d ?e ?f] =>
      pose proof (update_request_attempts a b d e f); by destruct (update_request a b d e f) end.
  - unfold Repo_HeartbeatExecution. case_match; apply attempts_move_same; [|done]. apply update_request_attempts.
  - unfold Repo_MarkExecutionStreaming. case_match; [by apply attempts_move_same|].
    apply (in_tx_either (attempts_move (ByClaim claim) s)); [by apply attempts_move_same|]. intros s' Hb.
    pose proof (update_and_observe_attempts t claim attemptID update s) as Hu.
    destruct (update_and_observe _ _ _ _ _) as [[e|] s1]; [done|]. unfold wrote in Hb. injection Hb as _ <-.
    eapply attempts_move_after; [apply update_request_attempts|done].
  - unfold Repo_MarkExecutionUncertain. case_match; [by apply attempts_move_same|].
    apply (in_tx_either (attempts_move (ByClaim claim) s)); [by apply attempts_move_same|]. intros s' Hb.
    pose proof (UpdateAttempt_moves (statement t 0) claim attemptID update s) as Hu.
    destruct (RequestTable.UpdateAttempt _ _ _) as [[a|e] s1]; [|done]. unfold wrote in Hb. injection Hb as _ <-.
    eapply attempts_move_after; [apply update_request_attempts|done].
  - unfold Repo_RecoverStaleExecutions. case_match; [|by apply attempts_move_same].
    pose proof (Recover_attempts c before limit s Hk). by destruct (RecoverStaleRequestExecutions _ _ _ _).
  - unfold Repo_CreateAttempt. case_match; [by apply attempts_move_same|].
    pose proof (CreateAttempt_moves c newID claim credentialID (wrap32 sequence) s) as Hc.
    by destruct (RequestTable.CreateAttempt _ _ _ _ _ _ _ _ _).
  - unfold Repo_UpdateAttempt. repeat case_match; try (by apply attempts_move_same); [|apply UpdateAttempt_moves].
    apply (in_tx_either (attempts_move (ByClaim claim) s)); [by apply attempts_move_same|]. intros s' Hb.
    pose proof (update_and_observe_attempts t claim attemptID update s) as Hu. by rewrite Hb in Hu.
  - unfold Adapter_Complete, settled, Service_Complete. simpl. repeat case_match; apply attempts_move_same; auto using resolve_attempts.
  - unfold Adapter_Fail, settled, Service_Fail. simpl. repeat case_match; apply attempts_move_same; auto using resolve_attempts.
  - unfold Adapter_FailAccepted, settled, Service_FailAccepted. simpl.
    repeat case_match; apply attempts_move_same; auto using resolve_attempts.
  - unfold Adapter_FailWithUsage, settled, Service_FailWithUsage. simpl.
    repeat case_match; apply attempts_move_same; auto using resolve_attempts.
  - apply attempts_move_same, permit_keeps.
  - by apply attempts_move_same.
Qed.
