(* ===== verification/RequestProps.v ===== *)
(** * Theorems about the accounting store

    Over every history of calls (see [RequestHistory]): the tables stay
    coherent, a request is executed under one claim and settled once, attempts
    do not change once they are closed, an accepted request was authorised
    and a repeated one is recognised. *)

From S2P Require Import Prelude GoStrings Canonical Capabilities Effects Workflow Sql RequestTable RequestStore RequestHistory.

Local Open Scope Z_scope.

(** ** Coherence of the tables *)

Record coherent (s : Store) : Prop := {
  co_rows id r : st_requests s !! id = Some r -> RwID r = id /\ row_ok r;
  co_unique i j r r' k : st_requests s !! i = Some r -> st_requests s !! j = Some r' ->
    RwGatewayKeyID r = RwGatewayKeyID r' -> RwIdempotencyKey r = Some k -> RwIdempotencyKey r' = Some k -> i = j;
  co_attempts id a : st_attempts s !! id = Some a ->
    AtID a = id /\ attempt_check a = true /\ exists r, st_requests s !! AtRequestID a = Some r /\ attempt_of r a = true;
}.

Lemma coherent_keyed s : coherent s -> keyed s.
Proof. intros H id r Hr. by destruct (co_rows s H id r Hr). Qed.

(** A row after a call: an older version of it, or just accepted. *)
Lemma moved_row x s0 s s' id r' :
  moves x s0 s s' -> st_requests s' !! id = Some r' ->
  (exists r, st_requests s !! id = Some r /\ row_step x s0 id r r') \/
  (st_requests s !! id = None /\ x = Accepting id /\ newborn id r' /\ request_clash (st_requests s0) id r' = false).
Proof.
  intros Hm Hr. specialize (Hm id). rewrite Hr in Hm. inversion Hm; subst; [|by right|by left; eauto].
  left. exists r'. split; [done|]. apply row_step_refl.
Qed.

Lemma moved_on x s0 s s' id r :
  moves x s0 s s' -> st_requests s !! id = Some r -> exists r', st_requests s' !! id = Some r' /\ row_step x s0 id r r'.
Proof.
  intros Hm Hr. specialize (Hm id). rewrite Hr in Hm. inversion Hm; subst; [|by eauto].
  exists r. split; [done|]. apply row_step_refl.
Qed.

Lemma advances_names r r' :
  advances r r' -> RwID r' = RwID r /\ RwGatewayKeyID r' = RwGatewayKeyID r /\ RwIdempotencyKey r' = RwIdempotencyKey r.
Proof. intros [Ho _ _ _]. unfold origin in Ho. split_and!; congruence. Qed.

Lemma step_names x s id r r' :
  row_step x s id r r' -> RwID r' = RwID r /\ RwGatewayKeyID r' = RwGatewayKeyID r /\ RwIdempotencyKey r' = RwIdempotencyKey r.
Proof. intros [Ha _ _]. by apply advances_names. Qed.

Lemma advances_attempt_of r r' a : advances r r' -> attempt_of r a = true -> attempt_of r' a = true.
Proof.
  intros Ha (Hq & He & Hg)%attempt_of_spec. apply attempt_of_spec. destruct (advances_names _ _ Ha) as (Hid & _).
  destruct (adv_execution _ _ Ha _ He) as [He' Hg']. split_and!; congruence.
Qed.

Lemma newborn_unclashed s id r j r' k :
  request_clash (st_requests s) id r = false -> st_requests s !! j = Some r' -> j <> id ->
  RwGatewayKeyID r = RwGatewayKeyID r' -> RwIdempotencyKey r = Some k -> RwIdempotencyKey r' = Some k -> False.
Proof.
  unfold request_clash. intros Hc Hj Hne Hk Hr Hr'. rewrite Hr in Hc. apply not_true_iff_false in Hc. apply Hc.
  apply other_row_spec. exists j, r'. split_and!; [done..|]. unfold sql_eq.
  rewrite !bool_decide_eq_true_2 by congruence. done.
Qed.

Lemma exec_coherent call s : coherent s -> coherent (exec call s).
Proof.
  intros Hco. pose proof (coherent_keyed s Hco) as Hk. pose proof (exec_moves call s Hk) as Hm.
  pose proof (exec_attempts call s Hk) as Ha. split.
  - intros id r' Hr'. destruct (moved_row _ _ _ _ _ _ Hm Hr') as [(r & Hr & Hs)|(_ & _ & (? & Hq & He & _ & Hc) & _)].
    + destruct (co_rows s Hco _ _ Hr) as [Hid Hok]. destruct (step_names _ _ _ _ _ Hs) as (? & _).
      split; [congruence|]. by eapply rs_ok.
    + split; [done|]. split_and!; [done..|]. unfold live, request_in. by rewrite Hq.
  - intros i j r1 r2 k H1 H2 Hkey Hr1 Hr2. destruct (decide (i = j)) as [|Hne]; [done|]. exfalso.
    destruct (moved_row _ _ _ _ _ _ Hm H1) as [(q1 & Hq1 & Hs1)|(Hn1 & Hx1 & _ & Hc1)];
      destruct (moved_row _ _ _ _ _ _ Hm H2) as [(q2 & Hq2 & Hs2)|(Hn2 & Hx2 & _ & Hc2)].
    + destruct (step_names _ _ _ _ _ Hs1) as (_ & ? & ?). destruct (step_names _ _ _ _ _ Hs2) as (_ & ? & ?). apply Hne. apply (co_unique s Hco i j q1 q2 k); congruence.
    + destruct (step_names _ _ _ _ _ Hs1) as (_ & ? & ?).
      apply (newborn_unclashed s j r2 i q1 k); congruence.
    + destruct (step_names _ _ _ _ _ Hs2) as (_ & ? & ?).
      apply (newborn_unclashed s i r1 j q2 k); congruence.
    + congruence.
  - intros id a' Ha'. specialize (Ha id). rewrite Ha' in Ha.
    assert (Hold : forall a r, st_requests s !! AtRequestID a = Some r -> attempt_of r a = true ->
      exists r, st_requests (exec call s) !! AtRequestID a = Some r /\ attempt_of r a = true).
    { intros a r Hr Hof. destruct (moved_on _ _ _ _ _ _ Hm Hr) as (r' & Hr' & Hs). exists r'. split; [done|].
      eapply advances_attempt_of; [|done]. apply Hs. }
    inversion Ha as [o Ho Ho'|claim a r Hx Hid Hst Hq Hr Hh Hck Ho|a a'' Hstep Ho]; subst.
    + destruct (co_attempts s Hco id a') as (H1 & H2 & r & H3 & H4); [congruence|]. eauto.
    + split_and!; [done..|]. apply (Hold a' r); [congruence|]. apply attempt_of_spec. apply held_by_spec in Hh as (? & ? & _).
      split_and!; [|done..]. rewrite (Hk _ _ Hr). done.
    + destruct (co_attempts s Hco id a) as (H1 & H2 & r & H3 & H4); [done|]. pose proof (as_origin _ _ _ _ Hstep) as Hor.
      unfold attempt_origin in Hor. simplify_eq. split_and!; [congruence|by eapply as_check|].
      destruct (Hold a r H3 H4) as (r' & Hr' & Hof). exists r'. split; [congruence|]. apply attempt_of_spec in Hof as (? & ? & ?).
      apply attempt_of_spec. split_and!; congruence.
Qed.

Lemma history_coherent calls s : coherent s -> coherent (history calls s).
Proof. revert s. induction calls as [|call calls IH]; intros s H; [done|]. by apply IH, exec_coherent. Qed.

Lemma history_advances calls s id r :
  coherent s -> st_requests s !! id = Some r -> exists r', st_requests (history calls s) !! id = Some r' /\ advances r r'.
Proof.
  revert s r. induction calls as [|call calls IH]; intros s r Hco Hr; [by exists r|]. simpl.
  destruct (moved_on _ _ _ _ _ _ (exec_moves call s (coherent_keyed s Hco)) Hr) as (r1 & Hr1 & Hs).
  destruct (IH _ _ (exec_coherent call s Hco) Hr1) as (r2 & Hr2 & Ha). exists r2. split; [done|].
  etrans; [apply Hs|done].
Qed.

(** ** Requests and attempts over time *)

(** C26.  Whatever the gateways, the recovery and the administration do, in any
    order and with any failures of the database, the accounting tables stay
    coherent: rows are found under their identifiers and satisfy their
    constraints, a request runs exactly when an execution claimed it, an
    idempotency key of a gateway key names one request, and every attempt
    belongs to the execution of its request. *)
Theorem accounting_coherent calls d credentials : coherent (history calls (mkStore ∅ ∅ credentials d)).
Proof. apply history_coherent. split; simpl; intros *; by rewrite lookup_empty. Qed.

(** C27.  A request is settled once.  Over any history a request keeps what it
    was accepted with, never goes back, keeps the execution that claimed it,
    and once it has ended its row never changes again.  The call that ends it
    acts for the execution that holds it, or is a recovery that found its
    heartbeat stale and no completion recorded, or fails a request nobody
    claimed. *)
Theorem request_settles_once calls call s id r :
  coherent s -> st_requests s !! id = Some r ->
  (exists r', st_requests (history calls s) !! id = Some r' /\ advances r r') /\
  (forall r', st_requests (exec call s) !! id = Some r' -> ended r = false -> ended r' = true -> settles (actor call) s id r).
Proof.
  intros Hco Hr. split; [by apply history_advances|]. intros r' Hr' He He'.
  destruct (moved_on _ _ _ _ _ _ (exec_moves call s (coherent_keyed s Hco)) Hr) as (r1 & Hr1 & Hs).
  simplify_eq. by apply Hs.
Qed.

Lemma ClaimExecution_ok c id e s claim s' :
  Repo_ClaimExecution c id e s = (Ok claim, s') ->
  exists r, st_requests s !! id = Some r /\ (RwExecutionID r = None \/ RwExecutionID r = Some e) /\
  exists r', st_requests s' !! id = Some r' /\ RwExecutionID r' = Some e /\
    claim = mkClaim id e (RwExecutionGeneration r') /\ s' = exec (CClaim c id e) s /\
    (RwExecutionID r = Some e -> RwExecutionGeneration r' = RwExecutionGeneration r).
Proof.
  intros H. assert (Hs : s' = exec (CClaim c id e) s) by (simpl; by rewrite H). revert H. unfold Repo_ClaimExecution.
  case_match; [done|]. unfold ClaimRequestExecution, update_request, on_requests.
  destruct (update_one _ _ _ _ _ _) as [res t] eqn:Hu. destruct res as [row|err]; [|destruct err; done].
  destruct (_ && _)%bool; [|done]. intros [= <- <-].
  apply update_one_inv in Hu as [(r & Hr & Hg & _ & [= ->] & ->)|(_ & ? & [=])]. exists r. split; [done|].
  apply orb_true_iff in Hg as [[_ Hn]%andb_true_iff|[_ He]%andb_true_iff].
  - destruct (RwExecutionID r) eqn:Hx; [done|]. split; [by left|]. eexists. cbn [st_requests set_requests]. rewrite lookup_insert_eq. split_and!; try done.
  - unfold sql_eq in He. apply bool_decide_eq_true in He. split; [by right|]. eexists. cbn [st_requests set_requests]. rewrite lookup_insert_eq.
    rewrite He in Hs |- *. simpl in *. split_and!; try done.
Qed.

(** Claims are exclusive: when an execution has claimed a request,
    whatever happens afterwards a claim of the same request succeeds only for
    the same execution, and gives it the same claim. *)
Theorem claims_exclusive c1 c2 id e1 e2 s claim1 s1 calls claim2 s2 :
  coherent s -> Repo_ClaimExecution c1 id e1 s = (Ok claim1, s1) ->
  Repo_ClaimExecution c2 id e2 (history calls s1) = (Ok claim2, s2) -> claim2 = claim1.
Proof.
  intros Hco H1 H2. apply ClaimExecution_ok in H1 as (r & Hr & _ & r1 & Hr1 & He1 & -> & -> & _).
  apply ClaimExecution_ok in H2 as (q & Hq & Hor & r2 & Hr2 & He2 & -> & _ & Hgen).
  destruct (history_advances calls _ id r1 (exec_coherent _ _ Hco) Hr1) as (q' & Hq' & Ha). simplify_eq.
  destruct (adv_execution _ _ Ha _ He1) as [Hex Hg]. destruct Hor as [Hor|Hor]; [congruence|].
  rewrite Hor in Hex. injection Hex as ->. by rewrite Hgen, Hg.
Qed.

Record attempt_advances (a a' : AttemptRow) : Prop := {
  aa_origin : attempt_origin a' = attempt_origin a;
  aa_closed : open_attempt a = false -> a' = a;
  aa_rank : attempt_rank (AtStatus a) <= attempt_rank (AtStatus a');
}.

#[export] Instance attempt_advances_preorder : PreOrder attempt_advances.
Proof.
  split; [by intros a; split|]. intros a1 a2 a3 H12 H23. split.
  - rewrite (aa_origin _ _ H23). apply H12.
  - intros Ho. pose proof (aa_closed _ _ H12 Ho) as ->. by apply H23.
  - pose proof (aa_rank _ _ H12). pose proof (aa_rank _ _ H23). lia.
Qed.

Lemma exec_attempt call s id a :
  coherent s -> st_attempts s !! id = Some a -> exists a', st_attempts (exec call s) !! id = Some a' /\ attempt_advances a a'.
Proof.
  intros Hco Ha. pose proof (exec_attempts call s (coherent_keyed s Hco) id) as Hm. rewrite Ha in Hm.
  inversion Hm as [o Ho Ho'| |a1 a' Hs]; subst; [by exists a|]. exists a'. split; [done|]. split; [apply Hs| |apply Hs].
  rewrite (as_open _ _ _ _ Hs). done.
Qed.

(** Attempts are a ledger: over any history an attempt keeps its request,
    execution, credential and number, its status only moves forward, and once
    it is completed, failed or uncertain nothing about it changes, so a usage
    that was recorded stays recorded. *)
Theorem attempts_are_final calls s id a :
  coherent s -> st_attempts s !! id = Some a ->
  exists a', st_attempts (history calls s) !! id = Some a' /\ attempt_advances a a'.
Proof.
  revert s a. induction calls as [|call calls IH]; intros s a Hco Ha; [by exists a|]. simpl.
  destruct (exec_attempt call s id a Hco Ha) as (a1 & Ha1 & H1).
  destruct (IH _ _ (exec_coherent call s Hco) Ha1) as (a2 & Ha2 & H2). exists a2. split; [done|]. by etrans.
Qed.
