(* ===== verification/RequestAcceptance.v ===== *)
(** * Theorems about accepting requests

    A request enters the accounting through [Service.AcceptRequest]: it is
    authorised against the directory, and one that repeats an idempotency key
    is recognised. *)

From S2P Require Import Prelude GoStrings Canonical Capabilities Effects Workflow Sql RequestTable RequestStore RequestHistory RequestProps.

Local Open Scope Z_scope.

(** What lets a user call a model through a key: the key is the user's and
    valid, the user is active, the key sends the model to the pool, and a
    member has a subscription in force whose plan sends it there too. *)
Definition authorised (d : Directory) (now : Z) (userID keyID modelID pool : UUID) (sub : option UUID) : Prop :=
  exists k u,
    dr_keys d !! keyID = Some k /\ KrUserID k = userID /\ KrDeletedAt k = None /\ not_past now (KrExpiresAt k) = true /\
    dr_users d !! userID = Some u /\ UrStatus u = UserActive /\ dr_routes d !! (keyID, modelID) = Some pool /\
    match UrRole u with
    | UserAdministrator => sub = None
    | UserMember =>
        exists q x, sub = Some q /\ dr_subscriptions d !! q = Some x /\ SrUserID x = userID /\
          in_force now [SubscriptionScheduled; SubscriptionActive] x = true /\
          (SrServicePlanVersionID x, modelID, pool) ∈ dr_plan_routes d /\ pool_active d pool = true
    end.

Lemma active_key_spec d now keyID userID u :
  active_key d now keyID userID = Some u ->
  exists k, dr_keys d !! keyID = Some k /\ KrUserID k = userID /\ KrDeletedAt k = None /\ not_past now (KrExpiresAt k) = true /\
    dr_users d !! userID = Some u /\ UrStatus u = UserActive.
Proof.
  unfold active_key. destruct (dr_keys d !! keyID) as [k|]; [|done]. destruct (dr_users d !! userID) as [v|] eqn:Hu; [|done].
  destruct (_ && _)%bool eqn:Hb; [|done]. intros [= ->]. rewrite !andb_true_iff, !bool_decide_eq_true in Hb.
  destruct Hb as (((H1 & H2) & H3) & H4). exists k. split_and!; try done. by destruct (KrDeletedAt k).
Qed.

Lemma plan_pools_spec d version model pool :
  pool ∈ plan_pools d version model -> (version, model, pool) ∈ dr_plan_routes d.
Proof.
  unfold plan_pools. rewrite list_elem_of_omap. intros ([[v m] p] & Hin & Hp). apply elem_of_elements in Hin.
  case_bool_decide as Hb; [|done]. destruct Hb as [-> ->]. by injection Hp as ->.
Qed.

Lemma applicable_spec c user model s routes q pool :
  GetApplicableSubscriptionRoutesForUpdate c user model s = Ok routes -> (q, pool) ∈ routes ->
  exists x, dr_subscriptions (st_dir s) !! q = Some x /\ SrUserID x = user /\
    in_force (cn_now c) [SubscriptionScheduled; SubscriptionActive] x = true /\
    (SrServicePlanVersionID x, model, pool) ∈ dr_plan_routes (st_dir s) /\ pool_active (st_dir s) pool = true.
Proof.
  unfold GetApplicableSubscriptionRoutesForUpdate. destruct (cn_fault c); [done|]. intros [= <-] Hin.
  apply list_elem_of_fmap in Hin as ([[i x] p] & [= <- <-] & Hin). rewrite merge_sort_Permutation in Hin.
  apply list_elem_of_In, in_concat in Hin as (l & Hl & Hin). apply list_elem_of_In, list_elem_of_fmap in Hl as ([j y] & -> & Hj).
  apply elem_of_map_to_list in Hj. destruct (_ && _)%bool eqn:Hb; [|done]. apply andb_true_iff in Hb as [Hu Hf].
  apply bool_decide_eq_true in Hu. apply list_elem_of_In, list_elem_of_fmap in Hin as (p' & [= -> -> ->] & Hp).
  apply list_elem_of_filter in Hp as [Ha Hp]. exists y. split_and!; try done. by apply plan_pools_spec.
Qed.

Lemma authorize_ok t input s pool sub :
  authorize t input s = Ok (pool, sub) ->
  authorised (st_dir s) (tx_now t) (AiUserID input) (AiGatewayKeyID input) (AiModelID input) pool sub.
Proof.
  unfold authorize, GetActiveGatewayKeyForRequest, GetGatewayKeyRoute.
  destruct (cn_fault (statement t 2)) as [[]|]; try done.
  destruct (active_key _ _ _ _) as [u|] eqn:Hk; [|done]. destruct (cn_fault (statement t 3)) as [[]|]; try done.
  destruct (dr_routes _ !! _) as [p|] eqn:Hp; [|done].
  destruct (active_key_spec _ _ _ _ _ Hk) as (k & H1 & H2 & H3 & H4 & H5 & H6).
  destruct (UrRole u) eqn:Hrole; [intros [= <- <-]; exists k, u; rewrite Hrole; by split_and!|].
  destruct (GetApplicableSubscriptionRoutesForUpdate _ _ _ _) as [routes|] eqn:Hr; [|done].
  unfold covering. destruct (List.find _ _) as [[q p']|] eqn:Hf; [|done]. intros [= <- <-].
  apply List.find_some in Hf as [Hin Hb]. apply bool_decide_eq_true in Hb. simpl in Hb. subst p'.
  apply list_elem_of_In in Hin. destruct (applicable_spec _ _ _ _ _ _ _ Hr Hin) as (x & ? & ? & ? & ? & ?).
  exists k, u. rewrite Hrole. split_and!; try done. by exists q, x.
Qed.

(** ** One transaction *)

(** The row a request is accepted with. *)
Definition accepted_row (input : AcceptInput) (now : Z) (pool : UUID) (sub : option UUID) : RequestRow :=
  mkRequestRow (AiRequestID input) (AiIdempotencyKey input) (AiRequestDigest input) (AiUserID input) (AiGatewayKeyID input)
    (AiModelID input) sub pool RequestQueued (AiStream input) None 0 None None None None UsageUnknown None None now None now.

(** How an acceptance succeeds. *)
Definition accepts (t : Tx) (input : AcceptInput) (s : Store) (a : AcceptedRequest) (s' : Store) : Prop :=
  (AqReplayed a = true /\ s' = s /\ exists id r key, st_requests s !! id = Some r /\ AiIdempotencyKey input = Some key /\
     RwGatewayKeyID r = AiGatewayKeyID input /\ RwIdempotencyKey r = Some key /\ same_request input r = true /\
     AqRequest a = requestFromDB r) \/
  (AqReplayed a = false /\ exists pool sub,
     authorised (st_dir s) (tx_now t) (AiUserID input) (AiGatewayKeyID input) (AiModelID input) pool sub /\
     st_requests s !! AiRequestID input = None /\
     s' = set_requests (<[AiRequestID input := accepted_row input (tx_now t) pool sub]> (st_requests s)) s /\
     AqRequest a = requestFromDB (accepted_row input (tx_now t) pool sub)).

Lemma commit_tx_ok {A} t (a b : A) s s1 s2 : commit_tx t a s s1 = (Ok b, s2) -> b = a /\ s2 = s1.
Proof. unfold commit_tx, Commit. destruct (tx_commit t); naive_solver. Qed.

Lemma create_accepted_ok t input s a s' : create_accepted t input s = (Ok a, s') -> accepts t input s a s'.
Proof.
  unfold create_accepted. destruct (authorize t input s) as [[pool sub]|] eqn:Hau; [|done].
  unfold CreateRequest, on_requests. destruct (insert_one _ _ _ _ _) as [[record|e] tbl] eqn:Hi; [|done].
  intros [-> ->]%commit_tx_ok. apply insert_one_inv in Hi as [(Hn & _ & [= ->] & ->)|(_ & ? & [=])]. right. split; [done|].
  exists pool, sub. split_and!; try done. by apply authorize_ok.
Qed.

Lemma by_key_ok c keyID key s r :
  GetRequestByIdempotencyKey c keyID key s = Ok r ->
  exists id, st_requests s !! id = Some r /\ RwGatewayKeyID r = keyID /\ RwIdempotencyKey r = Some key.
Proof.
  unfold GetRequestByIdempotencyKey. destruct (cn_fault c); [done|]. destruct (List.find _ _) as [r0|] eqn:Hf; [|done].
  intros [= ->]. apply List.find_some in Hf as [Hin Hb]. apply list_elem_of_In, rows_spec in Hin as (id & Hr).
  unfold sql_eq in Hb. rewrite andb_true_iff, !bool_decide_eq_true in Hb. exists id. tauto.
Qed.

Lemma acceptRequestOnce_ok t input s a s' : acceptRequestOnce t input s = (Ok a, s') -> accepts t input s a s'.
Proof.
  unfold acceptRequestOnce. destruct (tx_begin t); [done|].
  destruct (AiIdempotencyKey input) as [key|] eqn:Hkey; [|apply create_accepted_ok].
  destruct (tx_fault t 0); [done|].
  destruct (GetRequestByIdempotencyKey _ _ _ _) as [r|[]] eqn:Hg; try done; [|apply create_accepted_ok].
  unfold replayAcceptedRequest. destruct (same_request input r) eqn:Hs; [|done]. intros [-> ->]%commit_tx_ok. left.
  apply by_key_ok in Hg as (id & ? & ? & ?). split_and!; try done. by exists id, r, key.
Qed.

Lemma accept_loop_ok n txs input last s a s' :
  accept_loop n txs input last s = (Ok a, s') -> exists t, accepts t input s a s'.
Proof.
  revert last. induction n as [|n IH]; intros last; [done|]. cbn [accept_loop]. set (t := txs _).
  destruct (acceptRequestOnce t input s) as [[b|e] s1] eqn:Ha.
  - intros [= -> ->]. exists t. by apply acceptRequestOnce_ok.
  - destruct (retryableTransaction e) eqn:Hr; [|done]. rewrite (acceptRequestOnce_retry _ _ _ _ _ Ha Hr). apply IH.
Qed.

(** The input with its key normalised. *)
Definition with_key (key : option string) (input : AcceptInput) : AcceptInput :=
  mkAcceptInput (AiRequestID input) (AiUserID input) (AiGatewayKeyID input) (AiModelID input) (AiStream input)
    (AiRequestDigest input) key.

Lemma Service_AcceptRequest_ok txs input s a s' :
  Service_AcceptRequest txs input s = (Ok a, s') ->
  valid_input input = true /\ exists key t, normal_key (AiIdempotencyKey input) = Some key /\ accepts t (with_key key input) s a s'.
Proof.
  unfold Service_AcceptRequest. destruct (valid_input input); [|done]. destruct (normal_key _) as [key|]; [|done].
  intros (t & H)%accept_loop_ok. split; [done|]. by exists key, t.
Qed.

(** ** Completeness *)

(** The foreign keys of the directory: a key's route names a model and a pool
    that exist. *)
Definition directory_ok (d : Directory) : Prop :=
  forall keyID modelID pool, dr_routes d !! (keyID, modelID) = Some pool ->
    is_Some (dr_models d !! modelID) /\ is_Some (dr_pools d !! pool).

Lemma plan_pools_complete d version model pool :
  (version, model, pool) ∈ dr_plan_routes d -> pool ∈ plan_pools d version model.
Proof.
  intros H. unfold plan_pools. apply list_elem_of_omap. exists (version, model, pool). split; [by apply elem_of_elements|].
  by rewrite bool_decide_eq_true_2.
Qed.

Lemma applicable_complete c user model s q x pool :
  cn_fault c = None -> dr_subscriptions (st_dir s) !! q = Some x -> SrUserID x = user ->
  in_force (cn_now c) [SubscriptionScheduled; SubscriptionActive] x = true ->
  (SrServicePlanVersionID x, model, pool) ∈ dr_plan_routes (st_dir s) -> pool_active (st_dir s) pool = true ->
  exists routes, GetApplicableSubscriptionRoutesForUpdate c user model s = Ok routes /\ (q, pool) ∈ routes.
Proof.
  intros Hc Hx Hu Hf Hr Hp. unfold GetApplicableSubscriptionRoutesForUpdate. rewrite Hc. eexists. split; [done|].
  apply list_elem_of_fmap. exists (q, x, pool). split; [done|]. rewrite merge_sort_Permutation.
  apply list_elem_of_In, in_concat.
  exists ((λ p, (q, x, p)) <$> filter (λ p, pool_active (st_dir s) p = true) (plan_pools (st_dir s) (SrServicePlanVersionID x) model)).
  split; apply list_elem_of_In, list_elem_of_fmap.
  - exists (q, x). split; [|by apply elem_of_map_to_list]. by rewrite bool_decide_eq_true_2, Hf.
  - exists pool. split; [done|]. apply list_elem_of_filter. split; [done|]. by apply plan_pools_complete.
Qed.

Lemma authorize_complete t input s pool sub :
  smooth t -> authorised (st_dir s) (tx_now t) (AiUserID input) (AiGatewayKeyID input) (AiModelID input) pool sub ->
  exists sub', authorize t input s = Ok (pool, sub').
Proof.
  intros (_ & Hf & _) (k & u & Hk & Hku & Hd & He & Hu & Hst & Hr & Hsub). unfold authorize, GetActiveGatewayKeyForRequest, GetGatewayKeyRoute.
  cbn [cn_fault cn_now statement]. rewrite !Hf. unfold active_key. rewrite Hk, Hu, Hd, He, Hr.
  rewrite !bool_decide_eq_true_2 by done. cbn [is_null andb]. destruct (UrRole u); [eauto|].
  destruct Hsub as (q & x & _ & Hx & Hxu & Hin & Hroute & Hp).
  destruct (applicable_complete (statement t 4) (AiUserID input) (AiModelID input) s q x pool (Hf 4%nat) Hx Hxu Hin Hroute Hp)
    as (routes & -> & Hq).
  unfold covering. destruct (List.find _ routes) as [[q' p']|] eqn:Hfind; [eauto|].
  apply list_elem_of_In in Hq. apply List.find_none with (x := (q, pool)) in Hfind; [|done].
  by rewrite bool_decide_eq_true_2 in Hfind.
Qed.

Lemma authorize_route t input s pool sub :
  authorize t input s = Ok (pool, sub) ->
  (forall q, sub = Some q -> is_Some (dr_subscriptions (st_dir s) !! q)) /\
  is_Some (dr_users (st_dir s) !! AiUserID input) /\ is_Some (dr_keys (st_dir s) !! AiGatewayKeyID input) /\
  dr_routes (st_dir s) !! (AiGatewayKeyID input, AiModelID input) = Some pool.
Proof.
  intros (k & u & Hk & _ & _ & _ & Hu & _ & Hr & Hsub)%authorize_ok. split_and!; eauto. intros q ->.
  destruct (UrRole u); [done|]. destruct Hsub as (q' & x & [= <-] & Hx & _). eauto.
Qed.

Lemma create_complete t input s pool sub :
  coherent s -> directory_ok (st_dir s) -> smooth t -> authorize t input s = Ok (pool, sub) ->
  st_requests s !! AiRequestID input = None -> AiIdempotencyKey input = None ->
  Z.of_nat (String.length (AiRequestDigest input)) = 32 ->
  create_accepted t input s =
    (Ok (mkAcceptedRequest (requestFromDB (accepted_row input (tx_now t) pool sub)) false),
     set_requests (<[AiRequestID input := accepted_row input (tx_now t) pool sub]> (st_requests s)) s).
Proof.
  intros Hco Hd (_ & Hf & Hcm) Ha Hn Hk H32. unfold create_accepted. rewrite Ha. unfold CreateRequest, on_requests, insert_one.
  cbn [cn_fault statement]. rewrite Hf. change (mkRequestRow _ _ _ _ _ _ _ _ _ _ _ _ _ _ _ _ _ _ _ _ _ _) with (accepted_row input (tx_now t) pool sub).
  assert (Hv : violates (request_constraints s) (st_requests s) false (AiRequestID input) (accepted_row input (tx_now t) pool sub) = None).
  { apply violates_None. split; [done|]. destruct (authorize_route _ _ _ _ _ Ha) as (Hs & Hu & Hkey & Hr).
    destruct (Hd _ _ _ Hr) as [Hm Hp]. split; simpl.
    - unfold request_check. simpl. by rewrite Hk, H32.
    - unfold request_clash. simpl. by rewrite Hk.
    - unfold request_refers, exists_in. simpl. rewrite !bool_decide_eq_true_2 by done. simpl. apply andb_true_iff. split.
      + destruct sub as [q|]; [|done]. apply bool_decide_eq_true_2. by apply Hs.
      + apply forallb_forall. intros a Hin. change (snd <$> map_to_list (st_attempts s)) with (rows (st_attempts s)) in Hin.
        apply list_elem_of_In, rows_spec in Hin as (id & Hat). destruct (co_attempts s Hco _ _ Hat) as (_ & _ & r & Hrow & _).
        rewrite bool_decide_eq_false_2; [done|]. congruence. }
  rewrite bool_decide_eq_false_2 by (rewrite Hn; by intros [? [=]]). rewrite Hv. unfold commit_tx, Commit. by rewrite Hcm.
Qed.

(** Without failures a refusal is final. *)
Lemma authorize_error t input s e : smooth t -> authorize t input s = Err e -> exists u, e = inr u.
Proof.
  intros (_ & Hf & _). unfold authorize, GetActiveGatewayKeyForRequest, GetGatewayKeyRoute, GetApplicableSubscriptionRoutesForUpdate.
  cbn [cn_fault statement]. rewrite !Hf. repeat case_match; naive_solver.
Qed.

Lemma create_final t input s e s' :
  smooth t -> create_accepted t input s = (Err e, s') -> retryableTransaction e = false.
Proof.
  intros Hs. unfold create_accepted. destruct (authorize t input s) as [[pool sub]|e'] eqn:Ha.
  - unfold CreateRequest, on_requests, insert_one, violates. cbn [cn_fault statement]. destruct Hs as (_ & -> & Hc).
    unfold commit_tx, Commit. rewrite Hc. repeat case_match; intros; by simplify_eq/=.
  - intros [= <- <-]. by destruct (authorize_error _ _ _ _ Hs Ha) as [u ->].
Qed.

(** A request without a key under a smooth transaction is one attempt. *)
Lemma accept_keyless txs input s :
  smooth (txs 0%nat) -> valid_input input = true -> AiIdempotencyKey input = None ->
  Service_AcceptRequest txs input s =
    (match (create_accepted (txs 0%nat) input s).1 with Ok a => Ok a | Err e => Err (translateUsageError e) end,
     (create_accepted (txs 0%nat) input s).2).
Proof.
  intros Hs Hv Hk. unfold Service_AcceptRequest. rewrite Hv, Hk. cbn [normal_key]. unfold Repo_AcceptRequest.
  replace (mkAcceptInput _ _ _ _ _ _ None) with input by (destruct input; simpl in *; congruence).
  unfold requestTransactionAttempts. cbn [accept_loop]. replace (requestTransactionAttempts - 4)%nat with 0%nat by done.
  unfold acceptRequestOnce. rewrite (proj1 Hs), Hk. destruct (create_accepted _ _ _) as [[x|e] s'] eqn:Hc; [done|].
  by rewrite (create_final _ _ _ _ _ Hs Hc).
Qed.


(** ** Repetition *)

(** The two calls ask for the same thing. *)
Definition same_call (a b : AcceptInput) : bool :=
  (bool_decide (AiUserID a = AiUserID b) && bool_decide (AiModelID a = AiModelID b) && Bool.eqb (AiStream a) (AiStream b) &&
   bool_decide (AiRequestDigest a = AiRequestDigest b))%bool.

(** The row an accepted request with a key has from then on. *)
Lemma accepted_named t input s a s' :
  coherent s -> accepts t input s a s' -> forall key, AiIdempotencyKey input = Some key ->
  exists r, st_requests s' !! UqID (AqRequest a) = Some r /\ RwID r = UqID (AqRequest a) /\ RwGatewayKeyID r = AiGatewayKeyID input /\
    RwIdempotencyKey r = Some key /\ same_request input r = true.
Proof.
  intros Hco [(_ & -> & id & r & k & Hr & Hk & Hg & Hi & Hs & ->)|(_ & pool & sub & _ & _ & -> & ->)] key Hkey.
  - simplify_eq. destruct (co_rows s Hco _ _ Hr) as [Hid _]. exists r. simpl. rewrite Hid. done.
  - eexists. simpl. rewrite lookup_insert_eq. split_and!; try done. unfold same_request. simpl.
    rewrite !bool_decide_eq_true_2 by done. by rewrite Bool.eqb_reflx.
Qed.

Lemma by_key_unique c keyID key s id r :
  coherent s -> cn_fault c = None -> st_requests s !! id = Some r -> RwGatewayKeyID r = keyID -> RwIdempotencyKey r = Some key ->
  GetRequestByIdempotencyKey c keyID key s = Ok r.
Proof.
  intros Hco Hc Hr Hg Hk. destruct (GetRequestByIdempotencyKey c keyID key s) as [r'|e] eqn:Hq.
  - apply by_key_ok in Hq as (id' & Hr' & Hg' & Hk').
    assert (id' = id) as -> by (apply (co_unique s Hco id' id r' r key); congruence). congruence.
  - exfalso. revert Hq. unfold GetRequestByIdempotencyKey. rewrite Hc. destruct (List.find _ _) eqn:Hf; [done|].
    apply List.find_none with (x := r) in Hf; [|apply list_elem_of_In, rows_spec; eauto].
    unfold sql_eq in Hf. rewrite !bool_decide_eq_true_2 in Hf by done. done.
Qed.

Lemma same_request_call i1 i2 r :
  AiGatewayKeyID i1 = AiGatewayKeyID i2 -> same_request i1 r = true -> same_request i2 r = same_call i2 i1.
Proof.
  unfold same_request, same_call. rewrite !andb_true_iff, !bool_decide_eq_true. intros Hg ((((-> & ->) & ->) & He) & ->).
  apply Bool.eqb_prop in He as ->. rewrite (bool_decide_eq_true_2 (AiGatewayKeyID i1 = AiGatewayKeyID i2)) by done.
  rewrite andb_true_r, (bool_decide_ext (AiUserID i1 = AiUserID i2) (AiUserID i2 = AiUserID i1)) by done.
  rewrite (bool_decide_ext (AiModelID i1 = AiModelID i2) (AiModelID i2 = AiModelID i1)) by done.
  rewrite (bool_decide_ext (AiRequestDigest i1 = AiRequestDigest i2) (AiRequestDigest i2 = AiRequestDigest i1)) by done.
  by destruct (AiStream i1), (AiStream i2).
Qed.

Lemma same_request_advances i r r' : advances r r' -> same_request i r = true -> same_request i r' = true.
Proof. intros [Ho _ _ _]. unfold origin in Ho.
  injection Ho as _ _ Hd Hu Hk Hm _ _ Hst _. unfold same_request. by rewrite Hd, Hu, Hk, Hm, Hst. Qed.

Lemma accept_known txs input s id r key :
  coherent s -> smooth (txs 0%nat) -> AiIdempotencyKey input = Some key -> st_requests s !! id = Some r ->
  RwGatewayKeyID r = AiGatewayKeyID input -> RwIdempotencyKey r = Some key ->
  Repo_AcceptRequest txs input s =
    (if same_request input r then Ok (mkAcceptedRequest (requestFromDB r) true) else Err (UWrapped UConflict), s).
Proof.
  intros Hco (Hb & Hf & Hc) Hk Hr Hg Hi. unfold Repo_AcceptRequest, requestTransactionAttempts. cbn [accept_loop].
  replace (requestTransactionAttempts - 4)%nat with 0%nat by done. unfold acceptRequestOnce. rewrite Hb, Hk, Hf.
  rewrite (by_key_unique (statement (txs 0%nat) 1) _ _ _ id r Hco (Hf 1%nat) Hr Hg Hi). unfold replayAcceptedRequest.
  destruct (same_request input r); [|done]. unfold commit_tx, Commit. by rewrite Hc.
Qed.

(** C29.  Accepting is idempotent.  After a request with an idempotency key was
    accepted, whatever happened since, a well-formed request of the same
    gateway key with the same idempotency key creates nothing: if it asks for
    the same thing it is answered with the first request in its present
    state, marked as a repetition; otherwise it is a conflict. *)
Theorem acceptance_idempotent txs1 i1 s a s1 calls txs2 i2 key :
  coherent s -> Service_AcceptRequest txs1 i1 s = (Ok a, s1) ->
  normal_key (AiIdempotencyKey i1) = Some (Some key) -> normal_key (AiIdempotencyKey i2) = Some (Some key) ->
  AiGatewayKeyID i2 = AiGatewayKeyID i1 -> valid_input i2 = true -> smooth (txs2 0%nat) ->
  exists r, st_requests (history calls s1) !! UqID (AqRequest a) = Some r /\ RwID r = UqID (AqRequest a) /\
    Service_AcceptRequest txs2 i2 (history calls s1) =
      (if same_call i2 i1 then Ok (mkAcceptedRequest (requestFromDB r) true) else Err (UWrapped UConflict), history calls s1).
Proof.
  intros Hco Ha Hk1 Hk2 Hg Hv Hsm.
  assert (Hco1 : coherent s1) by (pose proof (exec_coherent (CAccept txs1 i1) s Hco) as H; simpl in H; by rewrite Ha in H).
  apply Service_AcceptRequest_ok in Ha as (_ & key' & t & Hk' & Ha). rewrite Hk1 in Hk'. injection Hk' as <-.
  destruct (accepted_named _ _ _ _ _ Hco Ha key eq_refl) as (r & Hr & Hid & Hgk & Hik & Hsame).
  destruct (history_advances calls s1 _ r Hco1 Hr) as (r' & Hr' & Hadv). destruct (advances_names _ _ Hadv) as (Hid' & Hgk' & Hik').
  exists r'. split_and!; [done|congruence|]. unfold Service_AcceptRequest. rewrite Hv, Hk2.
  change (mkAcceptInput _ _ _ _ _ _ (Some key)) with (with_key (Some key) i2).
  rewrite (accept_known txs2 (with_key (Some key) i2) _ _ r' key (history_coherent calls s1 Hco1) Hsm eq_refl Hr');
    [|simpl in *; congruence..].
  rewrite (same_request_call (with_key (Some key) i1)); [done|done|]. by eapply same_request_advances.
Qed.
