(* ===== verification/CredentialHealth.v ===== *)
(** * The health of a credential

    A credential is healthy, cooling after a failure until a time, probing
    (one request tries it after the cooldown) or in need of repair.  This file
    models the statements of the administration on [provider_credentials]
    ([src/internal/store/db/providers.sql.go]) beside those of [RequestTable]
    and shows how the health of a credential changes: by observations of the
    current generation only. *)

From S2P Require Import Prelude GoStrings Canonical Capabilities Effects Sql RequestTable RequestStore.

Local Open Scope Z_scope.

(** ** Constraints of the table *)

Definition in_range (low high v : Z) : bool := ((low <=? v) && (v <=? high))%bool.
Definition positive (v : option Z) : bool := match v with Some n => 0 <? n | None => true end.

Definition credential_check (r : CredentialRow) : bool :=
  (in_range 1 120 (char_length (CdName r)) && (char_length (CdSecretFingerprint r) =? 43) && (0 <=? CdHealthGeneration r) &&
   positive (CdRpmLimit r) && positive (CdTpmLimit r) && positive (CdConcurrencyLimit r) &&
   in_range 1 1000 (CdPriority r) && in_range 1 1000 (CdWeight r) && nonneg (CdLastProbeLatencyMs r) &&
   match CdLastProbeStatus r with
   | Some st => bool_decide (st ∈ ["succeeded"; "failed"; "unavailable"; "uncertain"])
   | None => true
   end &&
   Bool.eqb (bool_decide (CdStatus r = ResourceRetired)) (negb (is_null (CdRetiredAt r))))%bool.

Definition credential_clash (t : gmap UUID CredentialRow) (id : UUID) (r : CredentialRow) : bool :=
  other_row t id (λ r', bool_decide (CdSecretFingerprint r' = CdSecretFingerprint r)).

Definition credential_refers (s : Store) (t : gmap UUID CredentialRow) (r : CredentialRow) : bool :=
  (exists_in (dr_pools (st_dir s)) (CdResourcePoolID r) &&
   match CdSharedCapacityScopeID r with Some q => exists_in (dr_scopes (st_dir s)) q | None => true end)%bool.

Definition credential_constraints (s : Store) : Constraints CredentialRow :=
  mkConstraints credential_check credential_clash (credential_refers s).

Definition on_credentials (f : gmap UUID CredentialRow -> result PgError CredentialRow * gmap UUID CredentialRow) (s : Store) :
    result PgError CredentialRow * Store :=
  let '(a, t) := f (st_credentials s) in (a, set_credentials t s).

(** [updated_at = GREATEST(clock_timestamp(), updated_at + interval '1 microsecond')] *)
Definition next_version (clock : Z) (r : CredentialRow) : Z := Z.max clock (CdUpdatedAt r + 1000).

(** [status <> 'retired' AND updated_at = $n] *)
Definition at_version (expected : Z) (r : CredentialRow) : bool :=
  (negb (bool_decide (CdStatus r = ResourceRetired)) && (CdUpdatedAt r =? expected))%bool.

Section statements.
Context (c : Conn) (clock : Z).

Definition CreateCredential (id poolID : UUID) (name : string) (secret : list ascii) (fingerprint : string)
    (rpm tpm concurrency : option Z) (priority weight : Z) (scope : option UUID) (s : Store) : result PgError CredentialRow * Store :=
  on_credentials
    (insert_one (credential_constraints s) c id
       (mkCredentialRow id poolID name secret fingerprint ResourceActive HealthHealthy 0 rpm tpm concurrency priority weight scope
          None 0 None None None None None None None None (cn_now c) (cn_now c))) s.

Definition RecordCredentialProbe (at_ latency : option Z) (kind status errorKind : option string) (id : UUID) (s : Store) :
    result PgError CredentialRow * Store :=
  on_credentials
    (update_one (credential_constraints s) c id (λ r, negb (bool_decide (CdStatus r = ResourceRetired)))
       (λ r, mkCredentialRow (CdID r) (CdResourcePoolID r) (CdName r) (CdEncryptedSecret r) (CdSecretFingerprint r) (CdStatus r)
               (CdHealthStatus r) (CdHealthGeneration r) (CdRpmLimit r) (CdTpmLimit r) (CdConcurrencyLimit r) (CdPriority r)
               (CdWeight r) (CdSharedCapacityScopeID r) (CdCooldownUntil r) (CdConsecutiveFailures r) (CdLastSuccessAt r)
               (CdLastErrorKind r) at_ latency kind status errorKind (CdRetiredAt r) (CdCreatedAt r) (next_version clock r))) s.

Definition RetireCredential (tombstone : list ascii) (id : UUID) (expected : Z) (s : Store) : result PgError CredentialRow * Store :=
  on_credentials
    (update_one (credential_constraints s) c id (at_version expected)
       (λ r, mkCredentialRow (CdID r) (CdResourcePoolID r) (CdName r) tombstone (CdSecretFingerprint r) ResourceRetired
               HealthRepairRequired (CdHealthGeneration r) (CdRpmLimit r) (CdTpmLimit r) (CdConcurrencyLimit r) (CdPriority r)
               (CdWeight r) (CdSharedCapacityScopeID r) None (CdConsecutiveFailures r) (CdLastSuccessAt r)
               (CdLastErrorKind r) (CdLastProbeAt r) (CdLastProbeLatencyMs r) (CdLastProbeKind r) (CdLastProbeStatus r)
               (CdLastProbeErrorKind r) (Some (cn_now c)) (CdCreatedAt r) (next_version clock r))) s.

Definition SetCredentialStatus (status : ResourceStatus) (id : UUID) (expected : Z) (s : Store) :
    result PgError CredentialRow * Store :=
  on_credentials
    (update_one (credential_constraints s) c id
       (λ r, at_version expected r && negb (bool_decide (status = ResourceRetired)))%bool
       (λ r, mkCredentialRow (CdID r) (CdResourcePoolID r) (CdName r) (CdEncryptedSecret r) (CdSecretFingerprint r) status
               (CdHealthStatus r) (CdHealthGeneration r) (CdRpmLimit r) (CdTpmLimit r) (CdConcurrencyLimit r) (CdPriority r)
               (CdWeight r) (CdSharedCapacityScopeID r) (CdCooldownUntil r) (CdConsecutiveFailures r) (CdLastSuccessAt r)
               (CdLastErrorKind r) (CdLastProbeAt r) (CdLastProbeLatencyMs r) (CdLastProbeKind r) (CdLastProbeStatus r)
               (CdLastProbeErrorKind r) (CdRetiredAt r) (CdCreatedAt r) (next_version clock r))) s.

Definition UpdateCredential (name : string) (replace : bool) (secret : list ascii) (fingerprint : string)
    (rpm tpm concurrency : option Z) (priority weight : Z) (scope : option UUID) (id : UUID) (expected : Z) (s : Store) :
    result PgError CredentialRow * Store :=
  on_credentials
    (update_one (credential_constraints s) c id (at_version expected)
       (λ r, mkCredentialRow (CdID r) (CdResourcePoolID r) name (if replace then secret else CdEncryptedSecret r)
               (if replace then fingerprint else CdSecretFingerprint r) (CdStatus r)
               (CdHealthStatus r) (CdHealthGeneration r) rpm tpm concurrency priority
               weight scope (CdCooldownUntil r) (CdConsecutiveFailures r) (CdLastSuccessAt r)
               (CdLastErrorKind r) (CdLastProbeAt r) (CdLastProbeLatencyMs r) (CdLastProbeKind r) (CdLastProbeStatus r)
               (CdLastProbeErrorKind r) (CdRetiredAt r) (CdCreatedAt r) (next_version clock r))) s.
End statements.

(** ** Histories of the table of credentials *)

Inductive CredentialCall :=
| KCreate (c : Conn) (id poolID : UUID) (name : string) (secret : list ascii) (fingerprint : string)
    (rpm tpm concurrency : option Z) (priority weight : Z) (scope : option UUID)
| KProbe (c : Conn) (clock : Z) (at_ latency : option Z) (kind status errorKind : option string) (id : UUID)
| KRetire (c : Conn) (clock : Z) (tombstone : list ascii) (id : UUID) (expected : Z)
| KStatus (c : Conn) (clock : Z) (status : ResourceStatus) (id : UUID) (expected : Z)
| KUpdate (c : Conn) (clock : Z) (name : string) (replace : bool) (secret : list ascii) (fingerprint : string)
    (rpm tpm concurrency : option Z) (priority weight : Z) (scope : option UUID) (id : UUID) (expected : Z)
| KPermit (c : Conn) (id : UUID)
| KObserve (c : Conn) (id : UUID) (observation : CredentialObservation)
| KOther (requests : gmap UUID RequestRow) (attempts : gmap UUID AttemptRow) (d : Directory).

(** Every statement of the program that writes the table; the rest of the
    store may change in between. *)
Definition credential_exec (call : CredentialCall) (s : Store) : Store :=
  match call with
  | KCreate c id poolID name secret fingerprint rpm tpm concurrency priority weight scope =>
      (CreateCredential c id poolID name secret fingerprint rpm tpm concurrency priority weight scope s).2
  | KProbe c clock at_ latency kind status errorKind id => (RecordCredentialProbe c clock at_ latency kind status errorKind id s).2
  | KRetire c clock tombstone id expected => (RetireCredential c clock tombstone id expected s).2
  | KStatus c clock status id expected => (SetCredentialStatus c clock status id expected s).2
  | KUpdate c clock name replace secret fingerprint rpm tpm concurrency priority weight scope id expected =>
      (UpdateCredential c clock name replace secret fingerprint rpm tpm concurrency priority weight scope id expected s).2
  | KPermit c id => (Repo_AcquireCredentialHealthPermit c id s).2
  | KObserve c id observation => (recordCredentialObservation c id (Some observation) s).2
  | KOther requests attempts d => mkStore requests attempts (st_credentials s) d
  end.

Fixpoint credential_history (calls : list CredentialCall) (s : Store) : Store :=
  match calls with [] => s | call :: calls' => credential_history calls' (credential_exec call s) end.

(** The call records an observation of generation [g] of credential [id]. *)
Definition observes (id : UUID) (g : Z) (call : CredentialCall) : bool :=
  match call with
  | KObserve _ id' ob => (bool_decide (id' = id) && (ObHealthGeneration ob =? g))%bool
  | _ => false
  end.

(** Out of service: neither healthy nor cooling. *)
Definition blocked (r : CredentialRow) : Prop := CdHealthStatus r = HealthProbing \/ CdHealthStatus r = HealthRepairRequired.

(** ** How a statement changes a credential *)

Definition health (r : CredentialRow) : HealthStatus * Z := (CdHealthStatus r, CdHealthGeneration r).

Inductive health_move (id : UUID) (call : CredentialCall) (r r' : CredentialRow) : Prop :=
| hm_kept : health r' = health r -> health_move id call r r'
| hm_permit c : call = KPermit c id -> usable (cn_now c) r = true -> health r = (HealthCooling, CdHealthGeneration r) ->
    health r' = (HealthProbing, CdHealthGeneration r + 1) -> health_move id call r r'
| hm_observed : observes id (CdHealthGeneration r) call = true -> CdHealthGeneration r' = CdHealthGeneration r ->
    health_move id call r r'
| hm_retired : CdStatus r' = ResourceRetired -> health r' = (HealthRepairRequired, CdHealthGeneration r) ->
    health_move id call r r'.

(** The row [id] after a statement that updates the row [id']. *)
Lemma admin_update (s : Store) c id' guard f id r (P : CredentialRow -> Prop) :
  st_credentials s !! id = Some r -> P r -> P (f r) ->
  exists r', st_credentials (on_credentials (update_one (credential_constraints s) c id' guard f) s).2 !! id = Some r' /\ P r'.
Proof.
  intros Hr Hp Hf. unfold on_credentials. destruct (update_one _ _ _ _ _ _) as [res t] eqn:Hu. simpl.
  apply update_one_inv in Hu as [(r1 & Hr1 & _ & _ & _ & ->)|(-> & _)]; [|by exists r].
  destruct (decide (id' = id)) as [->|Hne]; [|exists r; by rewrite lookup_insert_ne].
  exists (f r1). rewrite lookup_insert_eq. simplify_eq. auto.
Qed.

Lemma update_credential_row c id' guard f s id r :
  st_credentials s !! id = Some r ->
  exists r', st_credentials (update_credential c id' guard f s).2 !! id = Some r' /\
    (r' = r \/ id' = id /\ guard r = true /\ f r = Some r').
Proof.
  intros Hr. unfold update_credential. destruct (cn_fault c); [by eauto|].
  destruct (st_credentials s !! id') as [r1|] eqn:Hr1; [|by eauto]. destruct (guard r1) eqn:Hg; [|by eauto].
  destruct (f r1) as [r2|] eqn:Hf; [|by eauto]. simpl. destruct (decide (id' = id)) as [->|Hne].
  - exists r2. rewrite lookup_insert_eq. simplify_eq. auto.
  - exists r. rewrite lookup_insert_ne by done. auto.
Qed.

Lemma permit_row c id' s id r :
  st_credentials s !! id = Some r ->
  exists r', st_credentials (Repo_AcquireCredentialHealthPermit c id' s).2 !! id = Some r' /\
    health_move id (KPermit c id') r r'.
Proof.
  intros Hr. unfold Repo_AcquireCredentialHealthPermit, RequestTable.AcquireCredentialHealthPermit.
  match goal with |- context [update_credential ?a ?b ?g ?f s] =>
    destruct (update_credential_row a b g f s id r Hr) as (r' & Hr' & Hor); destruct (update_credential a b g f s) as [res s'] end.
  exists r'. split; [done|]. destruct Hor as [->|(-> & Hg & Hf)]; [by apply hm_kept|].
  destruct (has_health HealthCooling r) eqn:Hc; [|simplify_eq; by apply hm_kept].
  apply bool_decide_eq_true in Hc. case_match; simplify_eq. eapply hm_permit; try done. unfold health. by rewrite Hc.
Qed.

Lemma observe_row c id' ob s id r :
  st_credentials s !! id = Some r ->
  exists r', st_credentials (recordCredentialObservation c id' (Some ob) s).2 !! id = Some r' /\
    health_move id (KObserve c id' ob) r r'.
Proof.
  intros Hr. unfold recordCredentialObservation, RecordCredentialRuntimeSuccess, RecordCredentialRuntimeFailure, exec_one.
  assert (Hsame : exists r', st_credentials s !! id = Some r' /\ health_move id (KObserve c id' ob) r r')
    by (exists r; split; [done|]; by apply hm_kept).
  assert (Hstep : forall g f, (forall r0 r1, f r0 = Some r1 -> CdHealthGeneration r1 = CdHealthGeneration r0) -> g = ObHealthGeneration ob ->
    exists r', st_credentials (update_credential c id' (observed_by g) f s).2 !! id = Some r' /\ health_move id (KObserve c id' ob) r r').
  { intros g f Hf ->. destruct (update_credential_row c id' (observed_by (ObHealthGeneration ob)) f s id r Hr) as (r' & Hr' & Hor).
    exists r'. split; [done|]. destruct Hor as [->|(-> & Hg & Hfr)]; [by apply hm_kept|].
    apply andb_true_iff in Hg as [_ Hg]. apply hm_observed; [|by eapply Hf]. simpl. rewrite bool_decide_eq_true_2, Z.eqb_sym by done. done. }
  destruct (_ || _)%bool; [done|]. destruct (ObKind ob).
  - match goal with |- context [update_credential ?a ?b (observed_by ?g) ?f s] =>
      destruct (Hstep g f) as (r' & Hr' & Hm); [by intros ?? [= <-]|done|] end. by exists r'.
  - destruct (ObErrorKind ob) as [kind|]; [|done].
    match goal with |- context [update_credential ?a ?b (observed_by ?g) ?f s] =>
      destruct (Hstep g f) as (r' & Hr' & Hm); [intros r0 r1 Hf; by destruct (2 ^ 31 - 1 <=? _); simplify_eq|done|] end. by exists r'.
Qed.

Lemma credential_moves call s id r :
  st_credentials s !! id = Some r ->
  exists r', st_credentials (credential_exec call s) !! id = Some r' /\ health_move id call r r'.
Proof.
  intros Hr. destruct call; cbn [credential_exec]; try (by apply permit_row); try (by apply observe_row).
  - unfold CreateCredential, on_credentials. destruct (insert_one _ _ _ _ _) as [res t] eqn:Hi. simpl.
    exists r. split; [|by apply hm_kept]. apply insert_one_inv in Hi as [(Hn & _ & _ & ->)|(-> & _)]; [|done].
    rewrite lookup_insert_ne; [done|]. congruence.
  - apply (admin_update s c id0 _ _ id r (health_move id _ r)); [done|by apply hm_kept..].
  - apply (admin_update s c id0 _ _ id r (health_move id _ r)); [done|by apply hm_kept|by apply hm_retired].
  - apply (admin_update s c id0 _ _ id r (health_move id _ r)); [done|by apply hm_kept..].
  - apply (admin_update s c id0 _ _ id r (health_move id _ r)); [done|by apply hm_kept..].
  - exists r. split; [done|]. by apply hm_kept.
Qed.

(** ** Theorems *)

(** A blocked credential stays blocked, with its generation. *)
Lemma blocked_step call s id r :
  st_credentials s !! id = Some r -> blocked r -> observes id (CdHealthGeneration r) call = false ->
  exists r', st_credentials (credential_exec call s) !! id = Some r' /\ blocked r' /\ CdHealthGeneration r' = CdHealthGeneration r.
Proof.
  intros Hr Hb Ho. destruct (credential_moves call s id r Hr) as (r' & Hr' & Hm). exists r'. split; [done|].
  unfold blocked in *. destruct Hm as [Hh|c _ _ Hh _|Hobs _|_ Hh]; try unfold health in Hh.
  - injection Hh as -> ->. done.
  - injection Hh as Hh. rewrite Hh in Hb. destruct Hb; done.
  - congruence.
  - injection Hh as -> ->. auto.
Qed.

Lemma blocked_history calls s id r g :
  st_credentials s !! id = Some r -> blocked r -> CdHealthGeneration r = g ->
  Forall (λ call, observes id g call = false) calls ->
  exists r', st_credentials (credential_history calls s) !! id = Some r' /\ blocked r' /\ CdHealthGeneration r' = g.
Proof.
  revert s r. induction calls as [|call calls IH]; intros s r Hr Hb Hg Hall; [by exists r|]. apply Forall_cons in Hall as [Ho Hall].
  rewrite <- Hg in Ho. destruct (blocked_step call s id r Hr Hb Ho) as (r' & Hr' & Hb' & Hg').
  apply (IH _ r' Hr' Hb'); [congruence|done].
Qed.

Lemma blocked_unusable now r : blocked r -> usable now r = false.
Proof. unfold usable, has_health. intros [->| ->]; by rewrite andb_false_r. Qed.

(** The credential gets no permit and is not listed as a candidate. *)
Definition out_of_service (id : UUID) (s : Store) : Prop :=
  (forall c, cn_fault c = None -> Repo_AcquireCredentialHealthPermit c id s = (Err ErrNoEligibleUpstream, s)) /\
  (forall c pool model l r, RequestTable.ListResourcePoolCandidates c pool model s = Ok l ->
     st_credentials s !! id = Some r -> r ∉ l.*1).

Lemma blocked_out_of_service s id r : st_credentials s !! id = Some r -> blocked r -> out_of_service id s.
Proof.
  intros Hr Hb. split.
  - intros c Hc. unfold Repo_AcquireCredentialHealthPermit, RequestTable.AcquireCredentialHealthPermit, update_credential.
    by rewrite Hc, Hr, (blocked_unusable (cn_now c) r Hb).
  - intros c pool model l r' Hl Hr'. simplify_eq. unfold RequestTable.ListResourcePoolCandidates in Hl.
    destruct (cn_fault c); [done|]. injection Hl as <-. rewrite <- list_fmap_compose. intros Hin.
    apply list_elem_of_fmap in Hin as (r1 & -> & Hin). simpl in *. rewrite merge_sort_Permutation, list_elem_of_filter in Hin.
    destruct Hin as [Hu _]. apply andb_true_iff in Hu as [_ Hu]. rewrite (blocked_unusable (cn_now c) r1 Hb) in Hu. done.
Qed.

(** C31.  A cooled-down credential is tried by one request at a time.  When a
    request was given the permit to try a credential that was not healthy,
    the permit has a new generation, and until an observation of exactly that
    generation is recorded, whatever else happens to the credential
    (observations of earlier requests, changes by the administration,
    probes), nobody gets a permit for it and no request has it as a
    candidate. *)
Theorem probe_is_exclusive c id s r g s1 calls :
  st_credentials s !! id = Some r -> CdHealthStatus r <> HealthHealthy ->
  Repo_AcquireCredentialHealthPermit c id s = (Ok g, s1) ->
  Forall (λ call, observes id g call = false) calls ->
  g = CdHealthGeneration r + 1 /\ out_of_service id (credential_history calls s1).
Proof.
  intros Hr Hh Hp Hall. destruct (permit_row c id s id r Hr) as (r1 & Hr1 & Hm). rewrite Hp in Hr1. simpl in Hr1.
  assert (Hprobing : health r1 = (HealthProbing, g) /\ g = CdHealthGeneration r + 1).
  { revert Hp. unfold Repo_AcquireCredentialHealthPermit, RequestTable.AcquireCredentialHealthPermit, update_credential.
    destruct (cn_fault c) as [e|]; [by destruct e|]. rewrite Hr. destruct (usable (cn_now c) r) eqn:Hu; [|done].
    unfold usable in Hu. apply andb_true_iff in Hu as [_ Hu]. apply orb_true_iff in Hu as [Hu|Hu]; [by apply bool_decide_eq_true in Hu|].
    apply andb_true_iff in Hu as [Hu _].
    rewrite Hu. destruct (2 ^ 63 - 1 <=? _) eqn:Hmax; [done|]. intros [= <- <-]. simpl in Hr1. rewrite lookup_insert_eq in Hr1. by injection Hr1 as <-. }
  destruct Hprobing as [Hh1 ->]. split; [done|]. destruct (blocked_history calls s1 id r1 (CdHealthGeneration r + 1) Hr1) as (r2 & Hr2 & Hb & _);
    [left; unfold health in Hh1; congruence|unfold health in Hh1; congruence|done|].
  by eapply blocked_out_of_service.
Qed.

Lemma MarkExecutionUncertain_credentials t claim attemptID update kind detail s :
  st_credentials (Repo_MarkExecutionUncertain t claim attemptID update kind detail s).2 = st_credentials s.
Proof.
  unfold Repo_MarkExecutionUncertain, in_tx, Commit, wrote, MarkRequestExecutionUncertain, update_request, on_requests.
  unfold RequestTable.UpdateAttempt, on_attempts. repeat (case_match; simplify_eq/=); done.
Qed.

(** When the outcome of a request is uncertain, the observation of its
    credential is lost: [MarkExecutionUncertain] is given the observation and
    leaves the credentials as they are, so a credential that was being tried
    stays out of service for good, unless an observation of its generation
    comes from elsewhere. *)
Theorem uncertain_probe_never_ends t claim attemptID update kind detail s id r calls :
  st_credentials s !! id = Some r -> CdHealthStatus r = HealthProbing ->
  Forall (λ call, observes id (CdHealthGeneration r) call = false) calls ->
  out_of_service id (credential_history calls (Repo_MarkExecutionUncertain t claim attemptID update kind detail s).2).
Proof.
  intros Hr Hh Hall. set (s1 := (Repo_MarkExecutionUncertain t claim attemptID update kind detail s).2).
  assert (Hr1 : st_credentials s1 !! id = Some r) by (unfold s1; by rewrite MarkExecutionUncertain_credentials).
  destruct (blocked_history calls s1 id r _ Hr1 (or_introl Hh) eq_refl Hall) as (r2 & Hr2 & Hb & _).
  by eapply blocked_out_of_service.
Qed.
