(* ===== verification/StoreEnv.v ===== *)
(** * The workflow and the accounting store

    First what a computation does to the world, then the workflow over the
    store.

    A computation of the workflow touches the world only through its calls:
    [walks tr w w'] says that the calls of [tr], answered by the environment
    one after the other, give the replies of [tr] and lead from [w] to [w'].
    [faithful m] says that [m] does just that; it holds for the whole
    workflow, so that a theorem about its calls is a theorem about the state
    of the environment it runs in. *)

From S2P Require Import Prelude GoStrings Canonical Capabilities Capacity Effects Workflow Monitor Protocol WorkflowSpec WorkflowProps Sql RequestTable RequestStore RequestHistory RequestProps.

Local Open Scope Z_scope.

Section walks.
Context {W : Type} `{!Env W}.

Definition steps (e : Ev) (w w' : W) : Prop := match e with Called op reply => answer _ op w = (reply, w') end.

Inductive walks : list Ev -> W -> W -> Prop :=
| walks_nil w : walks [] w w
| walks_cons e tr w w1 w' : steps e w w1 -> walks tr w1 w' -> walks (e :: tr) w w'.

Lemma walks_app tr1 tr2 w w' : walks (tr1 ++ tr2) w w' <-> exists w1, walks tr1 w w1 /\ walks tr2 w1 w'.
Proof.
  split.
  - revert w. induction tr1 as [|e tr1 IH]; intros w H; [exists w; split; [constructor|done]|]. simpl in H.
    inversion H as [|e' tr w0 w1 w2 Hs H1]; subst. destruct (IH _ H1) as (w3 & Ha & Hb). exists w3. split; [by econstructor|done].
  - intros (w1 & Ha & Hb). induction Ha; [done|]. simpl. econstructor; eauto.
Qed.

(** A call of the walk: before it, the call itself, after it. *)
Lemma walks_event tr w w' e :
  walks tr w w' -> e ∈ tr -> exists tr1 tr2 w1 w2, walks tr1 w w1 /\ steps e w1 w2 /\ walks tr2 w2 w'.
Proof.
  intros H (tr1 & tr2 & ->)%list_elem_of_split. apply walks_app in H as (w1 & H1 & H2).
  inversion H2 as [|e' tr w0 w2 w3 Hs H3]; subst. by exists tr1, tr2, w1, w2.
Qed.

Definition faithful {A} (m : M W A) : Prop :=
  forall st, exists tr, trace (m st).2 = trace st ++ tr /\ walks tr (world st) (world (m st).2).

Lemma faithful_ret {A} (a : A) : faithful (ret a).
Proof. intros st. exists []. rewrite app_nil_r. split; [done|constructor]. Qed.

Lemma faithful_out_of_fuel {A} : faithful (@out_of_fuel W A).
Proof. intros st. exists []. rewrite app_nil_r. split; [done|constructor]. Qed.

Lemma faithful_call {R} (op : Op R) : faithful (call op).
Proof.
  intros st. unfold call. exists [Called op (answer R op (world st)).1].
  destruct (answer R op (world st)) as [r w] eqn:Ha. split; [done|]. simpl. econstructor; [exact Ha|constructor].
Qed.

Lemma faithful_bind {A B} (m : M W A) (k : A -> M W B) : faithful m -> (forall a, faithful (k a)) -> faithful (bind m k).
Proof.
  intros Hm Hk st. unfold bind. destruct (Hm st) as (tr & Htr & Hw). destruct (m st) as [[a|] st1]; simpl in *; [|by exists tr].
  destruct (Hk a st1) as (tr' & Htr' & Hw'). exists (tr ++ tr'). rewrite Htr', Htr, app_assoc. split; [done|].
  apply walks_app. eauto.
Qed.

Lemma faithful_ignore {A} (m : M W A) : faithful m -> faithful (ignore m).
Proof. intros H. apply faithful_bind; [done|]. intros a. apply faithful_ret. Qed.

Lemma faithful_deferred {A} (cleanup : M W unit) (body : M W A) : faithful cleanup -> faithful body -> faithful (deferred cleanup body).
Proof. intros Hc Hb. apply faithful_bind; [done|]. intros a. apply faithful_bind; [done|]. intros u. apply faithful_ret. Qed.
End walks.

Create HintDb walk.
#[export] Hint Resolve faithful_ret faithful_out_of_fuel faithful_call : walk.

(** One step into a computation. *)
Ltac walk_step :=
  match goal with
  | |- faithful (bind _ _) => apply faithful_bind; [|intros ?]
  | |- faithful (deferred _ _) => apply faithful_deferred
  | |- faithful (ignore _) => apply faithful_ignore
  | |- faithful (match ?x with _ => _ end) => destruct x
  | |- faithful (let _ := _ in _) => cbv zeta
  | |- faithful (if ?b then _ else _) => destruct b
  | |- faithful ?m => match m with context [match ?x with _ => _ end] => destruct x end
  end.
Ltac walk := repeat first [solve [eauto with walk] | walk_step].

(** ** The workflow *)

Lemma walk_observeAttempt {W} `{!Env W} x1 x2 : faithful (observeAttempt x1 x2 : M W _).
Proof. unfold observeAttempt. walk. Qed.
#[export] Hint Resolve walk_observeAttempt : walk.

Lemma walk_prepare_accepted {W} `{!Env W} x1 x2 x3 x4 x5 : faithful (prepare_accepted x1 x2 x3 x4 x5 : M W _).
Proof. unfold prepare_accepted. walk. Qed.
#[export] Hint Resolve walk_prepare_accepted : walk.

Lemma walk_prepare {W} `{!Env W} x1 : faithful (prepare x1 : M W _).
Proof. unfold prepare. walk. Qed.
#[export] Hint Resolve walk_prepare : walk.

Lemma walk_selectCandidate {W} `{!Env W} x1 x2 : faithful (selectCandidate x1 x2 : M W _).
Proof. unfold selectCandidate. walk. Qed.
#[export] Hint Resolve walk_selectCandidate : walk.

Lemma walk_candidate_loop {W} `{!Env W} x1 x2 x3 x4 x5 x6 : faithful (candidate_loop x1 x2 x3 x4 x5 x6 : M W _).
Proof. revert x2 x3 x4 x5 x6. induction x1 as [|? IH]; intros; cbn [candidate_loop]; walk. Qed.
#[export] Hint Resolve walk_candidate_loop : walk.

Lemma walk_candidateDecision {W} `{!Env W} x1 x2 : faithful (candidateDecision x1 x2 : M W _).
Proof. unfold candidateDecision. walk. Qed.
#[export] Hint Resolve walk_candidateDecision : walk.

Lemma walk_attempt_loop {W} `{!Env W} x1 x2 x3 x4 x5 : faithful (attempt_loop x1 x2 x3 x4 x5 : M W _).
Proof. revert x2 x3 x4 x5. induction x1 as [|? IH]; intros; cbn [attempt_loop]; walk. Qed.
#[export] Hint Resolve walk_attempt_loop : walk.

Lemma walk_attemptDecision {W} `{!Env W} x1 x2 : faithful (attemptDecision x1 x2 : M W _).
Proof. unfold attemptDecision. walk. Qed.
#[export] Hint Resolve walk_attemptDecision : walk.

Lemma walk_readResponse {W} `{!Env W} x1 : faithful (readResponse x1 : M W _).
Proof. unfold readResponse. walk. Qed.
#[export] Hint Resolve walk_readResponse : walk.

Lemma walk_failAttempt {W} `{!Env W} x1 x2 x3 x4 x5 x6 : faithful (failAttempt x1 x2 x3 x4 x5 x6 : M W _).
Proof. unfold failAttempt. walk. Qed.
#[export] Hint Resolve walk_failAttempt : walk.

Lemma walk_markNonStreamUncertain {W} `{!Env W} x1 x2 x3 x4 x5 x6 : faithful (markNonStreamUncertain x1 x2 x3 x4 x5 x6 : M W _).
Proof. unfold markNonStreamUncertain. walk. Qed.
#[export] Hint Resolve walk_markNonStreamUncertain : walk.

Lemma walk_buildUpstream {W} `{!Env W} x1 x2 : faithful (buildUpstream x1 x2 : M W _).
Proof. unfold buildUpstream. walk. Qed.
#[export] Hint Resolve walk_buildUpstream : walk.

Lemma walk_reconcileLease {W} `{!Env W} x1 x2 x3 : faithful (reconcileLease x1 x2 x3 : M W _).
Proof. unfold reconcileLease. walk. Qed.
#[export] Hint Resolve walk_reconcileLease : walk.

Lemma walk_ensureClientRetryAfter {W} `{!Env W} x1 x2 : faithful (ensureClientRetryAfter x1 x2 : M W _).
Proof. unfold ensureClientRetryAfter. walk. Qed.
#[export] Hint Resolve walk_ensureClientRetryAfter : walk.

Lemma walk_waitUntil {W} `{!Env W} x1 x2 : faithful (waitUntil x1 x2 : M W _).
Proof. unfold waitUntil. walk. Qed.
#[export] Hint Resolve walk_waitUntil : walk.

Lemma walk_finishChat {W} `{!Env W} x1 x2 x3 x4 x5 x6 : faithful (finishChat x1 x2 x3 x4 x5 x6 : M W _).
Proof. unfold finishChat. walk. Qed.
#[export] Hint Resolve walk_finishChat : walk.

Lemma walk_receiveChat {W} `{!Env W} x1 x2 x3 x4 x5 x6 : faithful (receiveChat x1 x2 x3 x4 x5 x6 : M W _).
Proof. unfold receiveChat. walk. Qed.
#[export] Hint Resolve walk_receiveChat : walk.

Lemma walk_sendAttempt {W} `{!Env W} x1 x2 x3 x4 : faithful (sendAttempt x1 x2 x3 x4 : M W _).
Proof. unfold sendAttempt. walk. Qed.
#[export] Hint Resolve walk_sendAttempt : walk.

Lemma walk_attemptLease {W} `{!Env W} x1 x2 x3 : faithful (attemptLease x1 x2 x3 : M W _).
Proof. unfold attemptLease. walk. Qed.
#[export] Hint Resolve walk_attemptLease : walk.

Lemma walk_nonStreamAttempt {W} `{!Env W} x1 x2 x3 x4 x5 : faithful (nonStreamAttempt x1 x2 x3 x4 x5 : M W _).
Proof. unfold nonStreamAttempt. walk. Qed.
#[export] Hint Resolve walk_nonStreamAttempt : walk.

Lemma walk_nextAttempt {W} `{!Env W} x1 x2 x3 x4 x5 x6 x7 : faithful (nextAttempt x1 x2 x3 x4 x5 x6 x7 : M W _).
Proof. unfold nextAttempt. walk. Qed.
#[export] Hint Resolve walk_nextAttempt : walk.

Lemma walk_chat_loop {W} `{!Env W} x1 x2 x3 x4 x5 x6 : faithful (chat_loop x1 x2 x3 x4 x5 x6 : M W _).
Proof. revert x3 x4 x5 x6. induction x2 as [|? IH]; intros; cbn [chat_loop]; walk. Qed.
#[export] Hint Resolve walk_chat_loop : walk.

Lemma walk_Chat {W} `{!Env W} x1 x2 : faithful (Chat x1 x2 : M W _).
Proof. unfold Chat. walk. Qed.
#[export] Hint Resolve walk_Chat : walk.

Lemma walk_emitEvents {W} `{!Env W} x1 x2 x3 x4 x5 : faithful (emitEvents x1 x2 x3 x4 x5 : M W _).
Proof. revert x1 x2 x3 x4. induction x5 as [|? ? IH]; intros; cbn [emitEvents]; walk. Qed.
#[export] Hint Resolve walk_emitEvents : walk.

Lemma walk_finishBrokenStream {W} `{!Env W} x1 x2 x3 x4 x5 x6 : faithful (finishBrokenStream x1 x2 x3 x4 x5 x6 : M W _).
Proof. unfold finishBrokenStream. walk. Qed.
#[export] Hint Resolve walk_finishBrokenStream : walk.

Lemma walk_read_loop {W} `{!Env W} x1 x2 x3 x4 x5 : faithful (read_loop x1 x2 x3 x4 x5 : M W _).
Proof. revert x2 x3 x4 x5. induction x1 as [|? IH]; intros; cbn [read_loop]; walk. Qed.
#[export] Hint Resolve walk_read_loop : walk.

Lemma walk_closeStream {W} `{!Env W} x1 x2 x3 x4 : faithful (closeStream x1 x2 x3 x4 : M W _).
Proof. unfold closeStream. walk. Qed.
#[export] Hint Resolve walk_closeStream : walk.

Lemma walk_finishStream {W} `{!Env W} x1 x2 x3 x4 x5 x6 : faithful (finishStream x1 x2 x3 x4 x5 x6 : M W _).
Proof. unfold finishStream. walk. Qed.
#[export] Hint Resolve walk_finishStream : walk.

Lemma walk_receiveStream {W} `{!Env W} x1 x2 x3 x4 x5 x6 x7 : faithful (receiveStream x1 x2 x3 x4 x5 x6 x7 : M W _).
Proof. unfold receiveStream. walk. Qed.
#[export] Hint Resolve walk_receiveStream : walk.

Lemma walk_streamAttempt {W} `{!Env W} x1 x2 x3 x4 x5 x6 : faithful (streamAttempt x1 x2 x3 x4 x5 x6 : M W _).
Proof. unfold streamAttempt. walk. Qed.
#[export] Hint Resolve walk_streamAttempt : walk.

Lemma walk_stream_loop {W} `{!Env W} x1 x2 x3 x4 x5 x6 x7 : faithful (stream_loop x1 x2 x3 x4 x5 x6 x7 : M W _).
Proof. revert x3 x4 x5 x6 x7. induction x2 as [|? IH]; intros; cbn [stream_loop]; walk. Qed.
#[export] Hint Resolve walk_stream_loop : walk.

Lemma walk_Stream {W} `{!Env W} x1 x2 x3 x4 : faithful (Stream x1 x2 x3 x4 : M W _).
Proof. unfold Stream. walk. Qed.
#[export] Hint Resolve walk_Stream : walk.

Lemma walk_recover_completions {W} `{!Env W} x1 x2 x3 : faithful (recover_completions x1 x2 x3 : M W _).
Proof. revert x2 x3. induction x1 as [|? ? IH]; intros; cbn [recover_completions]; walk. Qed.
#[export] Hint Resolve walk_recover_completions : walk.

Lemma walk_recover_queued {W} `{!Env W} x1 x2 x3 : faithful (recover_queued x1 x2 x3 : M W _).
Proof. revert x2 x3. induction x1 as [|? ? IH]; intros; cbn [recover_queued]; walk. Qed.
#[export] Hint Resolve walk_recover_queued : walk.

Lemma walk_RecoverOnce {W} `{!Env W} x1 x2 : faithful (RecoverOnce x1 x2 : M W _).
Proof. unfold RecoverOnce. walk. Qed.
#[export] Hint Resolve walk_RecoverOnce : walk.

(** * The workflow over the accounting store

    The calls of the workflow to its repository and its accounting are
    answered by the modelled repositories ([RequestStore]) over the tables;
    everything else by an arbitrary environment.  Between any two calls other
    gateways, heartbeats, the recovery and the administration may make any
    calls on the same store, and every statement and commit may fail: [plan]
    is what the outside decides for each call.  The theorems carry what the
    workflow guarantees of its calls over to the rows of the database. *)

Record Outside := mkOutside {
  ou_conn : Conn;
  ou_txs : nat -> Tx;
  ou_newID : UUID;
  ou_before : list Call;
}.

Record Gateway (W : Type) := mkGateway { gw_base : W; gw_store : Store }.
Arguments mkGateway {W}.
Arguments gw_base {W} g.
Arguments gw_store {W} g.

Section env.
Context {W : Type} `{!Env W} (plan : W -> Outside).
Context (decodeCapabilities : string -> result GoError ModelCapabilities).

Definition store_call {R} (op : Op R) (o : Outside) (s : Store) : option (R * Store) :=
  match op in Op R return option (R * Store) with
  | ResolveAvailableModel key name => Some (Repo_ResolveAvailableModel decodeCapabilities (ou_conn o) key name s, s)
  | Effects.ListResourcePoolCandidates pool model => Some (Repo_ListResourcePoolCandidates (ou_conn o) pool model s, s)
  | Effects.AcquireCredentialHealthPermit credential => Some (Repo_AcquireCredentialHealthPermit (ou_conn o) credential s)
  | ClaimExecution request execution => Some (Repo_ClaimExecution (ou_conn o) request execution s)
  | MarkExecutionStreaming claim attempt update => Some (Repo_MarkExecutionStreaming (ou_txs o 0%nat) claim attempt update s)
  | MarkExecutionUncertain claim attempt update kind detail =>
      Some (Repo_MarkExecutionUncertain (ou_txs o 0%nat) claim attempt update (kind_string kind) detail s)
  | Effects.CreateAttempt claim credential sequence =>
      Some (Repo_CreateAttempt (ou_conn o) (ou_newID o) claim credential sequence s)
  | Effects.UpdateAttempt claim attempt update => Some (Repo_UpdateAttempt (ou_txs o 0%nat) claim attempt update s)
  | ListRecoverableCompletions before limit => Some (Repo_ListRecoverableCompletions (ou_conn o) before limit s, s)
  | Effects.ListStaleQueuedRequests before limit => Some (Repo_ListStaleQueuedRequests (ou_conn o) before limit s, s)
  | RecoverStaleExecutions before limit => Some (Repo_RecoverStaleExecutions (ou_conn o) before limit s)
  | AcceptRequest command => Some (Adapter_AcceptRequest (ou_txs o) command s)
  | Complete claim usage => Some (Adapter_Complete (ou_txs o 0%nat) claim usage s)
  | Fail_ claim kind detail => Some (Adapter_Fail (ou_txs o 0%nat) claim kind detail s)
  | FailAccepted request kind detail => Some (Adapter_FailAccepted (ou_txs o 0%nat) request kind detail s)
  | _ => None
  end.

Definition gateway_answer (R : Type) (op : Op R) (g : Gateway W) : R * Gateway W :=
  let '(reply, w) := answer R op (gw_base g) in
  let o := plan (gw_base g) in
  let s := history (ou_before o) (gw_store g) in
  match store_call op o s with
  | Some (r, s') => (r, mkGateway w s')
  | None => (reply, mkGateway w s)
  end.

#[local] Instance GatewayEnv : Env (Gateway W) := {| answer := gateway_answer |}.

#[local] Instance GatewayLawful `{!LawfulEnv W} : LawfulEnv (Gateway W).
Proof.
  split. intros R op g. cbn [answer GatewayEnv]. unfold gateway_answer. pose proof (lawful R op (gw_base g)) as Hl.
  destruct (answer R op (gw_base g)) as [reply w]. destruct op; try done; by repeat case_match.
Qed.

(** ** The store along a run *)

(** The call of the store an operation makes. *)
Definition as_call {R} (op : Op R) (o : Outside) : list Call :=
  match op with
  | Effects.AcquireCredentialHealthPermit credential => [CPermit (ou_conn o) credential]
  | ClaimExecution request execution => [CClaim (ou_conn o) request execution]
  | MarkExecutionStreaming claim attempt update => [CStreaming (ou_txs o 0%nat) claim attempt update]
  | MarkExecutionUncertain claim attempt update kind detail =>
      [CUncertain (ou_txs o 0%nat) claim attempt update (kind_string kind) detail]
  | Effects.CreateAttempt claim credential sequence => [CCreateAttempt (ou_conn o) (ou_newID o) claim credential sequence]
  | Effects.UpdateAttempt claim attempt update => [CUpdateAttempt (ou_txs o 0%nat) claim attempt update]
  | RecoverStaleExecutions before limit => [CRecover (ou_conn o) before limit]
  | AcceptRequest cmd =>
      [CAccept (ou_txs o) (mkAcceptInput (AmRequestID cmd) (AmUserID cmd) (AmGatewayKeyID cmd) (AmModelID cmd) (AmStream cmd)
         (AmRequestDigest cmd) (AmIdempotencyKey cmd))]
  | Complete claim usage => [CComplete (ou_txs o 0%nat) claim usage]
  | Fail_ claim kind detail => [CFail (ou_txs o 0%nat) claim kind detail]
  | FailAccepted request kind detail => [CFailAccepted (ou_txs o 0%nat) request kind detail]
  | _ => []
  end.

Lemma store_call_history {R} (op : Op R) o s r s' : store_call op o s = Some (r, s') -> s' = history (as_call op o) s.
Proof.
  destruct op; simpl; try done; intros [= H].
  all: try (by rewrite H). all: try done.
  unfold Adapter_AcceptRequest in H. destruct (Service_AcceptRequest _ _ _) as [r1 s1]. simpl. congruence.
Qed.

Lemma history_app calls1 calls2 s : history (calls1 ++ calls2) s = history calls2 (history calls1 s).
Proof. revert s. induction calls1 as [|call calls1 IH]; intros s; [done|]. apply IH. Qed.

Lemma answer_history {R} (op : Op R) (g : Gateway W) :
  exists calls, gw_store (answer R op g).2 = history calls (gw_store g).
Proof.
  cbn [answer GatewayEnv]. unfold gateway_answer. destruct (answer R op (gw_base g)) as [reply w].
  destruct (store_call op _ _) as [[r s']|] eqn:Hs; [|by eexists].
  apply store_call_history in Hs as ->. eexists (_ ++ _). by rewrite history_app.
Qed.

Lemma walks_history tr g g' : walks tr g g' -> exists calls, gw_store g' = history calls (gw_store g).
Proof.
  induction 1 as [g|[R op reply] tr g g1 g' Hs _ (calls & IH)]; [by exists []|]. destruct (answer_history op g) as (calls1 & H1).
  cbn [steps] in Hs. rewrite Hs in H1. exists (calls1 ++ calls). by rewrite history_app, <- H1.
Qed.
End env.
