(* ===== verification/StoreProps.v ===== *)
(** * Results of the workflow are in the database

    Combines the workflow's theorems about its calls with the store: a result
    given to a client belongs to a request whose row is completed with the
    usage of that result, however other processes use the store meanwhile;
    and a pass of the recovery leaves no abandoned request. *)

From S2P Require Import Prelude GoStrings Canonical Capabilities Capacity Effects Monitor Workflow Protocol WorkflowSpec WorkflowProps.
From S2P Require Import Sql RequestTable RequestStore RequestHistory RequestProps StoreEnv.

Local Open Scope Z_scope.

(** ** The claim of a run *)

Definition ledger_claim (l : Ledger) : option Claim :=
  match l with Running cl _ | CompletedRequest cl _ => Some cl | Closed cl => cl | _ => None end.

Lemma ledger_step_claim (l l' : Ledger) ev cl : ledger_claim l = Some cl -> watch_ev l ev = Some l' -> ledger_claim l' = Some cl.
Proof.
  destruct ev as [R op reply]. intros Hc Hw.
  destruct op; cbn [watch_ev watch ledger_monitor watch_ledger] in Hw; destruct l; simplify_eq/=; try done;
    repeat (case_match; simplify_eq/=); to_prop; naive_solver.
Qed.

Lemma ledger_keeps_claim (l l' : Ledger) tr cl : ledger_claim l = Some cl -> watches l tr = Some l' -> ledger_claim l' = Some cl.
Proof.
  revert l. induction tr as [|ev tr IH]; intros l Hc Hw; simpl in Hw; [congruence|].
  destruct (watch_ev l ev) as [l1|] eqn:Hev; [|done]. eauto using ledger_step_claim.
Qed.

Lemma ledger_claimed (l l' : Ledger) tr q e cl :
  watches l tr = Some l' -> Called (ClaimExecution q e) (Ok cl) ∈ tr -> ledger_claim l' = Some cl.
Proof.
  revert l. induction tr as [|ev tr IH]; intros l Hw Hin; [by apply elem_of_nil in Hin|]. simpl in Hw.
  destruct (watch_ev l ev) as [l1|] eqn:Hev; [|done]. apply elem_of_cons in Hin as [<-|Hin]; [|eauto].
  eapply ledger_keeps_claim; [|exact Hw]. cbn [watch_ev watch ledger_monitor watch_ledger] in Hev.
  destruct l; try done. by repeat (case_match; simplify_eq/=).
Qed.

(** A run that ends with a claim has made it. *)
Lemma ledger_claim_made (l l' : Ledger) tr cl :
  watches l tr = Some l' -> ledger_claim l' = Some cl ->
  ledger_claim l = Some cl \/ exists q e, Called (ClaimExecution q e) (Ok cl) ∈ tr.
Proof.
  revert l. induction tr as [|ev tr IH]; intros l Hw Hc; simpl in Hw; [left; congruence|].
  destruct (watch_ev l ev) as [l1|] eqn:Hev; [|done]. destruct (IH _ Hw Hc) as [Hl1|(q & e & Hin)].
  - destruct (ledger_claim l) as [cl0|] eqn:Hl; [left; rewrite <- Hl1; symmetry; by eapply ledger_step_claim|]. right.
    destruct ev as [R op reply]. destruct op; cbn [watch_ev watch ledger_monitor watch_ledger] in Hev; destruct l; simplify_eq/=;
      repeat (case_match; simplify_eq/=); do 2 eexists; left.
  - right. exists q, e. by right.
Qed.

Lemma ledger_step_completed (l : Ledger) ev cl u :
  watch_ev l ev = Some (CompletedRequest cl u) -> l = CompletedRequest cl u \/ ev = Called (Complete cl u) None.
Proof.
  destruct ev as [R op reply]. intros Hw.
  destruct op; cbn [watch_ev watch ledger_monitor watch_ledger] in Hw; destruct l; simplify_eq/=; auto;
    repeat (case_match; simplify_eq/=); auto; right; to_prop; try naive_solver.
Qed.

Lemma ledger_completed (l : Ledger) tr cl u :
  watches l tr = Some (CompletedRequest cl u) -> l = CompletedRequest cl u \/ Called (Complete cl u) None ∈ tr.
Proof.
  revert l. induction tr as [|ev tr IH]; intros l Hw; simpl in Hw; [left; congruence|].
  destruct (watch_ev l ev) as [l1|] eqn:Hev; [|done]. apply IH in Hw as [->|Hin]; [|right; by right].
  apply ledger_step_completed in Hev as [->| ->]; [by left|]. right. by left.
Qed.

(** ** The request of a result *)

Section emits.
Context {W : Type} `{!Env W}.

(** [m] ends with a result and calls related by [Q]. *)
Definition emits {A} (m : M W A) (Q : A -> list Ev -> Prop) : Prop :=
  forall st, exists tr, trace (m st).2 = trace st ++ tr /\ match (m st).1 with Some a => Q a tr | None => True end.

Lemma emits_ret {A} (a : A) (Q : A -> list Ev -> Prop) : Q a [] -> emits (ret a) Q.
Proof. intros H st. exists []. rewrite app_nil_r. split; [done|exact H]. Qed.

Lemma emits_call {R} (op : Op R) (Q : R -> list Ev -> Prop) : (forall r, Q r [Called op r]) -> emits (call op) Q.
Proof. intros H st. unfold call. destruct (answer R op (world st)) as [r w]. exists [Called op r]. split; [done|apply H]. Qed.

Lemma emits_any {A} (m : M W A) : faithful m -> emits m (λ _ _, True).
Proof. intros H st. destruct (H st) as (tr & Htr & _). exists tr. split; [done|]. by destruct (m st).1. Qed.

Lemma emits_bind {A B} (m : M W A) (k : A -> M W B) P Q :
  emits m P -> (forall a tr, P a tr -> emits (k a) (λ b tr', Q b (tr ++ tr'))) -> emits (bind m k) Q.
Proof.
  intros Hm Hk st. unfold bind. destruct (Hm st) as (tr & Htr & Hp). destruct (m st) as [[a|] st1]; simpl in *; [|by exists tr].
  destruct (Hk a tr Hp st1) as (tr' & Htr' & Hq). exists (tr ++ tr'). by rewrite Htr', Htr, app_assoc.
Qed.

(** A call whose events do not matter first. *)
Lemma emits_then {A B} (m : M W A) (k : A -> M W B) (Q : B -> list Ev -> Prop) :
  faithful m -> (forall b tr tr', Q b tr' -> Q b (tr ++ tr')) -> (forall a, emits (k a) Q) -> emits (bind m k) Q.
Proof.
  intros Hm Hq Hk. apply (emits_bind _ _ (λ _ _, True)); [by apply emits_any|]. intros a tr _ st.
  destruct (Hk a st) as (tr' & Htr & H). exists tr'. split; [done|]. destruct (k a st).1; auto.
Qed.

Definition claimed (r : result Error workflowRun) (tr : list Ev) : Prop :=
  match r with
  | Ok run => exists e, Called (ClaimExecution (AcRequestID (accepted run)) e) (Ok (claim run)) ∈ tr
  | Err _ => True
  end.

Lemma claimed_incl r tr tr' : tr ⊆ tr' -> claimed r tr -> claimed r tr'.
Proof. intros Hi. destruct r; [|done]. intros [e H]. exists e. by apply Hi. Qed.

Ltac emit_step :=
  match goal with
  | |- emits (ret _) _ => apply emits_ret; try done
  | |- emits (bind _ _) _ =>
      apply emits_then; [solve [walk]|intros ? ? ?; apply claimed_incl; set_solver|intros ?]
  | |- emits (match ?x with _ => _ end) _ => destruct x
  end.

Lemma prepare_accepted_claims cmd mdl up est acc : emits (prepare_accepted cmd mdl up est acc) claimed.
Proof.
  unfold prepare_accepted. do 2 emit_step; [|by repeat emit_step]. emit_step; [by repeat emit_step|].
  do 2 emit_step; [by repeat emit_step|]. emit_step.
  eapply (emits_bind _ _ (λ r tr, exists e, tr = [Called (ClaimExecution (AcRequestID acc) e) r])); [apply emits_call; by eexists|].
  intros [cl|err] tr [e ->]; [|by repeat emit_step]. emit_step. apply emits_ret. exists e. set_solver.
Qed.

Lemma prepare_claims cmd : emits (prepare cmd) claimed.
Proof.
  unfold prepare. repeat first [apply prepare_accepted_claims | progress cbv zeta | emit_step].
Qed.

(** What a computation returns, whatever it calls. *)
Definition gives {A} (m : M W A) (P : A -> Prop) : Prop := forall st a, (m st).1 = Some a -> P a.

Lemma gives_ret {A} (a : A) (P : A -> Prop) : P a -> gives (ret a) P.
Proof. intros H st b [= <-]. done. Qed.

Lemma gives_bind {A B} (m : M W A) (k : A -> M W B) R P : gives m R -> (forall a, R a -> gives (k a) P) -> gives (bind m k) P.
Proof.
  intros Hm Hk st b. unfold bind. specialize (Hm st). destruct (m st) as [[a|] st1]; [|done]. intros H.
  by eapply (Hk a (Hm a eq_refl)).
Qed.

Lemma gives_then {A B} (m : M W A) (k : A -> M W B) P : (forall a, gives (k a) P) -> gives (bind m k) P.
Proof. intros H. apply (gives_bind _ _ (λ _, True)); [by intros ???|auto]. Qed.

Lemma gives_deferred {A} (cleanup : M W unit) (body : M W A) P : gives body P -> gives (deferred cleanup body) P.
Proof. intros H. eapply gives_bind; [exact H|]. intros a Ha. apply gives_then. intros _. by apply gives_ret. Qed.

Lemma gives_out_of_fuel {A} (P : A -> Prop) : gives (@out_of_fuel W A) P.
Proof. by intros st a. Qed.

Ltac give :=
  repeat match goal with
  | |- gives (ret _) _ => by apply gives_ret
  | |- gives out_of_fuel _ => apply gives_out_of_fuel
  | |- gives (bind _ _) _ => apply gives_then; intros ?
  | |- gives (deferred _ _) _ => apply gives_deferred
  | |- gives (match ?x with _ => _ end) _ => destruct x
  end.

Definition identified (run : workflowRun) (r : result Error ChatResult) : Prop :=
  match r with Ok res => CrsRequestID res = AcRequestID (accepted run) | Err _ => True end.

Lemma finishChat_gives run c id lease status parsed : gives (finishChat run c id lease status parsed) (identified run).
Proof. unfold finishChat. give. Qed.

Lemma nonStreamAttempt_gives sv run c n lease : gives (nonStreamAttempt sv run c n lease) (identified run).
Proof. unfold nonStreamAttempt, receiveChat. give. apply finishChat_gives. Qed.

Lemma chat_loop_gives sv fuel run start n ex : gives (chat_loop sv fuel run start n ex) (identified run).
Proof.
  revert n ex. induction fuel as [|fuel IH]; intros n ex; cbn [chat_loop]; [give|].
  apply gives_then. intros [[[c lease]|e] ex1]; [|give].
  eapply gives_bind; [apply nonStreamAttempt_gives|]. intros [res|e] Hr; give. apply IH.
Qed.

(** The identifier of a result is that of the request claimed in the run. *)
Lemma Chat_claims sv cmd :
  emits (Chat sv cmd) (λ r tr,
    match r with
    | Ok res => exists e cl, Called (ClaimExecution (CrsRequestID res) e) (Ok cl) ∈ tr
    | Err _ => True
    end).
Proof.
  unfold Chat. eapply emits_bind; [apply prepare_claims|]. intros [run|e] tr Hc; [|by apply emits_ret].
  match goal with |- emits ?m _ => assert (Hf : faithful m) by walk; assert (Hg : gives m (identified run)) end.
  { apply gives_deferred, gives_deferred. destruct (Stream_ _); [give|]. apply gives_then. intros start. apply chat_loop_gives. }
  intros st. destruct (Hf st) as (tr' & Htr & _). exists tr'. split; [done|]. specialize (Hg st).
  destruct (_ st).1 as [[res|e]|]; [|done..]. specialize (Hg _ eq_refl). simpl in Hg. destruct Hc as [ex Hin].
  exists ex, (claim run). rewrite Hg. set_solver.
Qed.
End emits.

(** ** The row of a completed request *)

(** The request of the claim is completed with the usage. *)
Definition recorded (cl : Claim) (u : Usage) (s : Store) : Prop :=
  exists r, st_requests s !! ClRequestID cl = Some r /\ RwStatus r = RequestCompleted /\
    RwExecutionID r = Some (ClExecutionID cl) /\ RwExecutionGeneration r = ClGeneration cl /\
    RwInputTokens r = Some (InputTokens u) /\ RwOutputTokens r = Some (OutputTokens u) /\ RwUsageSource r = Source u.

Lemma recorded_stays calls cl u s : coherent s -> recorded cl u s -> recorded cl u (history calls s).
Proof.
  intros Hco (r & Hr & Hst & Hrest). destruct (history_advances calls s _ r Hco Hr) as (r' & Hr' & Ha). exists r'.
  assert (ended r = true) by (unfold ended, request_in; by rewrite Hst).
  by rewrite (adv_ended _ _ Ha) by done; rewrite (adv_ended _ _ Ha) in Hr' by done.
Qed.

Lemma update_request_ok c id guard f s r s' :
  update_request c id guard f s = (Ok r, s') ->
  exists r0, st_requests s !! id = Some r0 /\ guard r0 = true /\ r = f r0 /\ st_requests s' !! id = Some r.
Proof.
  unfold update_request, on_requests. destruct (update_one _ _ _ _ _ _) as [res t] eqn:Hu. intros [= -> <-].
  apply update_one_ok in Hu as (r0 & H0 & Hg & -> & ->). exists r0. cbn [st_requests set_requests]. by rewrite lookup_insert_eq.
Qed.

Lemma resolve_ok t id claim kind s q s' :
  resolve t id claim kind s = (Ok q, s') -> exists row, resolution_statement (statement t 1) id claim kind s = (Ok row, s').
Proof.
  unfold resolve. destruct (tx_begin t); [done|]. destruct (GetRequestForUpdate _ _ _) as [r|]; [|done].
  destruct (validateRequestFence r claim); [|done]. destruct (resolution_statement _ _ _ _ _) as [[row|e] s1]; [|done].
  unfold commit_tx, Commit. destruct (tx_commit t); intros [= <- <-]. by exists row.
Qed.

Lemma Adapter_Complete_ok t cl u s s' : Adapter_Complete t cl u s = (None, s') -> recorded cl u s'.
Proof.
  unfold Adapter_Complete, settled, Service_Complete. destruct (_ && _ && _)%bool; [done|].
  destruct (owned_claim _ _ && _)%bool; [|done]. destruct (resolve _ _ _ _ _) as [[q|e] s1] eqn:Hr; [|done]. intros [= <-].
  apply resolve_ok in Hr as (row & Hr). unfold resolution_statement, CompleteRequest, usage_given in Hr. cbn in Hr.
  destruct (known_source _); [|done]. apply update_request_ok in Hr as (r0 & H0 & Hg & -> & Hr).
  apply held_by_spec in Hg as (He & Hgen & _). by eexists.
Qed.

(** ** Theorems *)

Section theorems.
Context {W : Type} `{!Env W, !LawfulEnv W} (plan : W -> Outside).
Context (decodeCapabilities : string -> result GoError ModelCapabilities) (sv : Service) (cmd : ChatCommand).

#[local] Instance OverStore : Env (Gateway W) := GatewayEnv plan decodeCapabilities.
#[local] Instance OverStoreLawful : LawfulEnv (Gateway W) := GatewayLawful plan decodeCapabilities.

Lemma walk_coherent tr (g g' : Gateway W) : walks tr g g' -> coherent (gw_store g) -> coherent (gw_store g').
Proof. intros (calls & ->)%walks_history Hco. by apply history_coherent. Qed.

(** A completion reported to the workflow is in the store from then on. *)
Lemma walk_recorded tr (g g' : Gateway W) cl u :
  walks tr g g' -> coherent (gw_store g) -> Called (Complete cl u) None ∈ tr -> recorded cl u (gw_store g').
Proof.
  intros Hw Hco Hin. destruct (walks_event _ _ _ _ Hw Hin) as (tr1 & tr2 & g1 & g2 & H1 & Hs & H2).
  pose proof (walk_coherent _ _ _ H1 Hco) as Hco1.
  assert (Hw2 : walks [Called (Complete cl u) None] g1 g2) by (econstructor; [exact Hs|constructor]).
  pose proof (walk_coherent _ _ _ Hw2 Hco1) as Hco2.
  assert (Hr : recorded cl u (gw_store g2)).
  { cbn [steps answer OverStore GatewayEnv] in Hs. unfold gateway_answer in Hs. destruct (answer _ _ (gw_base g1)) as [reply w].
    cbn [store_call] in Hs. destruct (Adapter_Complete _ _ _ _) as [e s'] eqn:Ha. injection Hs as -> <-. by eapply Adapter_Complete_ok. }
  apply walks_history in H2 as (calls & ->). by apply recorded_stays.
Qed.

Lemma walk_claim tr (g g' : Gateway W) q e cl :
  walks tr g g' -> Called (ClaimExecution q e) (Ok cl) ∈ tr -> ClRequestID cl = q.
Proof.
  intros Hw Hin. destruct (walks_event _ _ _ _ Hw Hin) as (tr1 & tr2 & g1 & g2 & _ & Hs & _).
  cbn [steps answer OverStore GatewayEnv] in Hs. unfold gateway_answer in Hs. destruct (answer _ _ (gw_base g1)) as [reply w].
  cbn [store_call] in Hs. destruct (Repo_ClaimExecution _ _ _ _) as [r s'] eqn:Ha. injection Hs as -> <-.
  apply ClaimExecution_ok in Ha as (r & _ & _ & r' & _ & _ & -> & _). done.
Qed.

(** C25.  What a client is given is in the database.  Run the workflow over the
    accounting store, with any failures of the database and any use of the
    store by other processes before, during and after.  If [Chat] returns a
    result, the request it names is completed under the claim of this run with
    exactly the usage of the result; if [Stream] ends without an error, a
    request claimed in this run is completed with the usage reported for it;
    and the rows stay so for ever. *)
Theorem results_are_recorded reads present st later :
  coherent (gw_store (world st)) ->
  (forall res st', Chat sv cmd st = (Some (Ok res), st') ->
     exists cl, ClRequestID cl = CrsRequestID res /\
       recorded cl (responseUsage (CmRequest cmd) (CrsResponse res)) (history later (gw_store (world st')))) /\
  (forall st', Stream sv reads present cmd st = (Some None, st') ->
     exists tr e cl u, trace st' = trace st ++ tr /\ Called (ClaimExecution (ClRequestID cl) e) (Ok cl) ∈ tr /\
       Called (Complete cl u) None ∈ tr /\ recorded cl u (history later (gw_store (world st')))).
Proof using LawfulEnv0.
  intros Hco. split.
  - intros res st' Hm. destruct (Chat_run sv cmd st) as (r & st1 & tr & σ & Hm' & Htr & Hw & (a & l & o & k & -> & _ & Hr)).
    rewrite Hm in Hm'. injection Hm' as <- <-. destruct Hr as [cl ->]. do 2 apply watches_prod in Hw as [Hw _]. apply watches_prod in Hw as [_ Hw].
    change (watches NotAccepted tr = Some (CompletedRequest cl (responseUsage (CmRequest cmd) (CrsResponse res)))) in Hw.
    destruct (walk_Chat sv cmd st) as (tr1 & Htr1 & Hwalk). destruct (Chat_claims sv cmd st) as (tr2 & Htr2 & Hclaim).
    rewrite Hm in Htr1, Htr2, Hwalk, Hclaim. cbn [fst snd] in *. rewrite Htr in Htr1, Htr2.
    apply app_inv_head in Htr1 as <-. apply app_inv_head in Htr2 as <-. destruct Hclaim as (e & cl' & Hin).
    pose proof (ledger_claimed _ _ _ _ _ _ Hw Hin) as [= <-]. exists cl. split; [by eapply walk_claim|].
    apply recorded_stays; [by eapply walk_coherent|]. eapply walk_recorded; [done..|]. by apply ledger_completed in Hw as [|].
  - intros st' Hm. destruct (Stream_run sv cmd reads present st) as (r & st1 & tr & σ & Hm' & Htr & Hw & Hr).
    rewrite Hm in Hm'. injection Hm' as <- <-. destruct Hr as (a & l & o & k & -> & Hd).
    destruct (walk_Stream sv reads present cmd st) as (tr1 & Htr1 & Hwalk). rewrite Hm in Htr1, Hwalk. cbn [fst snd] in *.
    rewrite Htr in Htr1. apply app_inv_head in Htr1 as <-.
    do 2 apply watches_prod in Hw as [Hw _]. apply watches_prod in Hw as [_ Hl]. destruct Hd as [(cl & u & ->) _].
    change (watches NotAccepted tr = Some (CompletedRequest cl u)) in Hl.
    destruct (ledger_claim_made _ _ _ cl Hl eq_refl) as [|(q & e & Hq)]; [done|].
    assert (Hin : Called (Complete cl u) None ∈ tr) by (by apply ledger_completed in Hl as [|]).
    pose proof (walk_claim _ _ _ _ _ _ Hwalk Hq) as <-. exists tr, e, cl, u. split_and!; [done..|].
    apply recorded_stays; [by eapply walk_coherent|]. by eapply walk_recorded.
Qed.
End theorems.
