(* ===== verification/RecoveryProps.v ===== *)
(** * A pass of the recovery leaves nothing behind

    [RecoverOnce] of [src/internal/requestflow/recovery.go] over the accounting
    store: when nothing else uses the store and nothing fails during the pass,
    and the batch is large enough, every request that was abandoned before the
    limit is settled: completed if a completion was recorded, failed if nobody
    claimed it, uncertain otherwise. *)

From S2P Require Import Prelude GoStrings Canonical Capabilities Capacity Effects Monitor Workflow.
From S2P Require Import Sql RequestTable RequestStore RequestHistory RequestProps StoreEnv.

Local Open Scope Z_scope.

(** Left by whoever was to serve it. *)
Definition abandoned (before : Z) (r : RequestRow) : Prop :=
  (live r = true /\ heartbeat_before before r = true) \/ (RwStatus r = RequestQueued /\ RwUpdatedAt r < before).

(** The foreign keys of a request, and identifiers that are not nil. *)
Definition refers_to (d : Directory) (r : RequestRow) : Prop :=
  is_Some (dr_users d !! RwUserID r) /\ is_Some (dr_keys d !! RwGatewayKeyID r) /\ is_Some (dr_models d !! RwModelID r) /\
  is_Some (dr_pools d !! RwResourcePoolID r) /\
  (forall q, RwSubscriptionID r = Some q -> is_Some (dr_subscriptions d !! q)).

Definition named (r : RequestRow) : Prop := RwID r <> uuid_Nil /\ RwExecutionID r <> Some uuid_Nil.

Record sound (s : Store) : Prop := {
  so_coherent : coherent s;
  so_refers id r : st_requests s !! id = Some r -> refers_to (st_dir s) r;
  so_named id r : st_requests s !! id = Some r -> named r;
}.

(** Rows stay as they are or end. *)
Record fades (s s' : Store) : Prop := {
  fa_attempts : st_attempts s' = st_attempts s;
  fa_dir : st_dir s' = st_dir s;
  fa_rows j r' : st_requests s' !! j = Some r' -> exists r, st_requests s !! j = Some r /\
    (r' = r \/ ended r' = true /\ origin r' = origin r /\ RwExecutionID r' = RwExecutionID r);
  fa_kept j r : st_requests s !! j = Some r -> exists r', st_requests s' !! j = Some r' /\ advances r r';
}.

Lemma fades_refl s : fades s s.
Proof. split; try done; [intros j r' H; by eauto|]. intros j r H. by exists r. Qed.

Lemma fades_trans s1 s2 s3 : fades s1 s2 -> fades s2 s3 -> fades s1 s3.
Proof.
  intros H12 H23. split.
  - by rewrite (fa_attempts _ _ H23), (fa_attempts _ _ H12).
  - by rewrite (fa_dir _ _ H23), (fa_dir _ _ H12).
  - intros j r3 Hr3. destruct (fa_rows _ _ H23 j r3 Hr3) as (r2 & Hr2 & H2). destruct (fa_rows _ _ H12 j r2 Hr2) as (r1 & Hr1 & H1).
    exists r1. split; [done|]. destruct H2 as [->|(He & Ho & Hx)]; [done|]. destruct H1 as [->|(He1 & Ho1 & Hx1)]; [by right|].
    right. split_and!; congruence.
  - intros j r1 Hr1. destruct (fa_kept _ _ H12 j r1 Hr1) as (r2 & Hr2 & H1). destruct (fa_kept _ _ H23 j r2 Hr2) as (r3 & Hr3 & H2).
    exists r3. split; [done|]. by etrans.
Qed.

Lemma refers_origin d r r' : origin r' = origin r -> refers_to d r -> refers_to d r'.
Proof.
  unfold origin, refers_to. intros Ho. injection Ho as _ _ _ -> -> -> -> -> _ _. done.
Qed.

Lemma fades_sound s s' : fades s s' -> coherent s' -> sound s -> sound s'.
Proof.
  intros Hf Hco Hs. split; [done|..]; intros j r' Hr'; destruct (fa_rows _ _ Hf j r' Hr') as (r & Hr & Hor).
  - rewrite (fa_dir _ _ Hf). destruct Hor as [->|(_ & Ho & _)]; [by eapply so_refers|].
    eapply refers_origin; [exact Ho|]. by eapply so_refers.
  - destruct (so_named s Hs j r Hr) as [Hn Hx]. destruct Hor as [->|(_ & Ho & Hx')]; [done|].
    unfold origin in Ho. split; [congruence|by rewrite Hx'].
Qed.

(** ** Settling one request *)

Definition ends_row (f : RequestRow -> RequestRow) : Prop :=
  forall r, ended (f r) = true /\ origin (f r) = origin r /\ RwExecutionID (f r) = RwExecutionID r /\
    RwExecutionGeneration (f r) = RwExecutionGeneration r /\ request_check (f r) = request_check r.

(** An update that ends a row meets the constraints of the table. *)
Lemma ending_admitted s id r f :
  sound s -> st_requests s !! id = Some r -> ends_row f ->
  violates (request_constraints s) (st_requests s) false id (f r) = None.
Proof.
  intros Hs Hr Hf. destruct (Hf r) as (_ & Ho & Hx & Hg & Hc). destruct (co_rows s (so_coherent s Hs) id r Hr) as [Hid Hok].
  pose proof (so_refers s Hs id r Hr) as Href. apply violates_None. split; [done|].
  assert (Hn : RwID (f r) = RwID r /\ RwGatewayKeyID (f r) = RwGatewayKeyID r /\ RwIdempotencyKey (f r) = RwIdempotencyKey r)
    by (unfold origin in Ho; split_and!; congruence). destruct Hn as (Hn1 & Hn2 & Hn3). split; simpl.
  - rewrite Hc. apply Hok.
  - unfold request_clash. rewrite Hn3. destruct (RwIdempotencyKey r) as [k|] eqn:Hk; [|done].
    apply not_true_iff_false. intros (j & r' & Hne & Hj & Hb)%other_row_spec. apply andb_true_iff in Hb as [Hb1 Hb2].
    unfold sql_eq in Hb2. rewrite bool_decide_eq_true in Hb1, Hb2. apply Hne.
    apply (co_unique s (so_coherent s Hs) j id r' r k); congruence.
  - apply (refers_origin _ _ _ Ho) in Href as (H1 & H2 & H3 & H4 & H5). unfold request_refers, exists_in.
    rewrite !bool_decide_eq_true_2 by done. cbn [andb]. apply andb_true_iff. split.
    + destruct (RwSubscriptionID (f r)) as [q|]; [|done]. apply bool_decide_eq_true_2. by apply H5.
    + apply forallb_forall. intros a Hin. change (snd <$> map_to_list (st_attempts s)) with (rows (st_attempts s)) in Hin.
      apply list_elem_of_In, rows_spec in Hin as (aid & Ha). destruct (co_attempts s (so_coherent s Hs) aid a Ha) as (_ & _ & r0 & Hr0 & Hof).
      case_bool_decide as Hb; [|done]. simpl. assert (r0 = r) as -> by congruence.
      apply attempt_of_spec in Hof as (Hq & He & Hgen). apply attempt_of_spec. split_and!; congruence.
Qed.

Lemma ending_update c id guard f s r :
  sound s -> cn_fault c = None -> st_requests s !! id = Some r -> guard r = true -> ends_row f ->
  update_request c id guard f s = (Ok (f r), set_requests (<[id := f r]> (st_requests s)) s).
Proof.
  intros Hs Hc Hr Hg Hf. unfold update_request, on_requests, update_one. by rewrite Hc, Hr, Hg, (ending_admitted s id r f Hs Hr Hf).
Qed.

Lemma ended_rank r : ended r = true -> rank (RwStatus r) = 3.
Proof. unfold ended, request_in. rewrite negb_true_iff, bool_decide_eq_false. intros H.
  destruct (RwStatus r); try done; exfalso; apply H; set_solver. Qed.

Lemma rank_at_most s : rank s <= 3.
Proof. destruct s; simpl; lia. Qed.

Lemma ending_fades id r f s :
  st_requests s !! id = Some r -> ended r = false -> ends_row f -> fades s (set_requests (<[id := f r]> (st_requests s)) s).
Proof.
  intros Hr He Hf. destruct (Hf r) as (Hen & Ho & Hx & Hg & _). split; [done|done|..].
  - intros j r' Hr'. simpl in Hr'. destruct (decide (j = id)) as [->|Hne]; [|rewrite lookup_insert_ne in Hr' by done; by eauto].
    rewrite lookup_insert_eq in Hr'. injection Hr' as <-. exists r. auto.
  - intros j r0 Hr0. simpl. destruct (decide (j = id)) as [->|Hne]; [|rewrite lookup_insert_ne by done; by exists r0].
    rewrite lookup_insert_eq. assert (r0 = r) as -> by congruence. exists (f r). split; [done|]. split; [done|congruence|..].
    + intros e. rewrite Hx, Hg. done.
    + rewrite (ended_rank _ Hen). apply rank_at_most.
Qed.

(** A row that changed has the status. *)
Definition becomes (v : RequestStatus) (s s' : Store) : Prop :=
  forall j r', st_requests s' !! j = Some r' -> st_requests s !! j = Some r' \/ RwStatus r' = v.

Lemma becomes_refl v s : becomes v s s.
Proof. intros j r' H. by left. Qed.

Lemma becomes_trans v s1 s2 s3 : becomes v s1 s2 -> becomes v s2 s3 -> becomes v s1 s3.
Proof. intros H12 H23 j r' H3. destruct (H23 j r' H3) as [H2|]; [by apply H12|by right]. Qed.

(** No row but these has changed. *)
Definition only (ids : list UUID) (s s' : Store) : Prop := forall j, j ∉ ids -> st_requests s' !! j = st_requests s !! j.

Lemma only_refl ids s : only ids s s.
Proof. done. Qed.

Lemma only_cons id ids s1 s2 s3 : only [id] s1 s2 -> only ids s2 s3 -> only (id :: ids) s1 s3.
Proof. intros H12 H23 j Hj. rewrite H23 by set_solver. apply H12. set_solver. Qed.

(** A resolution without failures. *)
Lemma resolve_quiet t id claim kind s r f guard :
  sound s -> smooth t -> st_requests s !! id = Some r -> validateRequestFence r claim = true -> ends_row f ->
  resolution_statement (statement t 1) id claim kind s = update_request (statement t 1) id guard f s -> guard r = true ->
  exists s', resolve t id claim kind s = (Ok (requestFromDB (f r)), s') /\ fades s s' /\
    st_requests s' !! id = Some (f r) /\ becomes (RwStatus (f r)) s s' /\ only [id] s s'.
Proof.
  intros Hs (Hb & Hft & Hcm) Hr Hv Hf Hst Hg. exists (set_requests (<[id := f r]> (st_requests s)) s). split_and!.
  - unfold resolve, GetRequestForUpdate, select_one. rewrite Hb. cbn [cn_fault statement]. rewrite Hft, Hr, Hv, Hst.
    rewrite (ending_update (statement t 1) id guard f s r Hs (Hft 1%nat) Hr Hg Hf). unfold commit_tx, Commit. by rewrite Hcm.
  - apply ending_fades; [done| |done].
    by destruct (fence_settles s id r claim (proj1 (co_rows s (so_coherent s Hs) id r Hr)) Hv).
  - simpl. by rewrite lookup_insert_eq.
  - intros j r' Hr'. simpl in Hr'. destruct (decide (j = id)) as [->|Hne]; [|rewrite lookup_insert_ne in Hr' by done; by left].
    rewrite lookup_insert_eq in Hr'. right. congruence.
  - intros j Hj. simpl. rewrite lookup_insert_ne; [done|]. set_solver.
Qed.

Lemma resolve_fenced t id claim kind s r :
  smooth t -> st_requests s !! id = Some r -> validateRequestFence r claim = false -> resolve t id claim kind s = (Err UFenced, s).
Proof.
  intros (Hb & Hft & _) Hr Hv. unfold resolve, GetRequestForUpdate, select_one. rewrite Hb. cbn [cn_fault statement]. by rewrite Hft, Hr, Hv.
Qed.

(** What one call of the recovery does. *)
Definition settles_row (v : RequestStatus) (id : UUID) (s : Store) (p : option GoError * Store) : Prop :=
  (p.1 = None \/ p.1 = Some ErrFenced) /\ sound p.2 /\ fades s p.2 /\ becomes v s p.2 /\ only [id] s p.2 /\
  exists r, st_requests p.2 !! id = Some r /\ ended r = true.

Lemma settles_unchanged v id s r : sound s -> st_requests s !! id = Some r -> ended r = true -> settles_row v id s (Some ErrFenced, s).
Proof. intros Hs Hr He. split_and!; [by right|done|apply fades_refl|apply becomes_refl|apply only_refl|by eauto]. Qed.

Lemma complete_quiet t cl u s r :
  sound s -> smooth t -> st_requests s !! ClRequestID cl = Some r -> RwExecutionID r = Some (ClExecutionID cl) ->
  RwExecutionGeneration r = ClGeneration cl -> validKnownUsage (InputTokens u) (OutputTokens u) (Source u) = true ->
  settles_row RequestCompleted (ClRequestID cl) s (Adapter_Complete t cl u s).
Proof.
  intros Hs Ht Hr He Hg Hu. destruct (co_rows s (so_coherent s Hs) _ r Hr) as [Hid (Hck & Hq & Hl)].
  destruct (so_named s Hs _ r Hr) as [Hn1 Hn2].
  assert (Hgen : 0 < ClGeneration cl).
  { unfold request_check in Hck. rewrite He, Hg in Hck. rewrite !andb_true_iff in Hck. lia. }
  assert (Hval : Claim_Valid cl = true).
  { unfold Claim_Valid. rewrite !bool_decide_eq_false_2 by congruence. simpl. by apply Z.ltb_lt. }
  assert (Hown : owned_claim (ClRequestID cl) cl = true).
  { unfold owned_claim. rewrite Hval, bool_decide_eq_false_2, bool_decide_eq_true_2 by congruence. done. }
  assert (Hk : bool_decide (Source u = UsageUnknown) = false /\ known_source (Source u) = true).
  { unfold validKnownUsage in Hu. rewrite !andb_true_iff, bool_decide_eq_true in Hu. destruct Hu as [_ Hu].
    split; [apply bool_decide_eq_false|]; destruct (Source u); set_solver. }
  pose proof (exec_coherent (CComplete t cl u) s (so_coherent s Hs)) as Hco. cbn [exec] in Hco.
  unfold Adapter_Complete, settled, Service_Complete in *. rewrite (proj1 Hk), Hown, Hu in *. cbn [andb] in *.
  destruct (live r) eqn:Hlive.
  - destruct (resolve_quiet t (ClRequestID cl) (Some cl) (ResolutionComplete (InputTokens u) (OutputTokens u) (Source u)) s r
      (λ r, put_end RequestCompleted None None (tx_now t) (put_usage (Some (InputTokens u)) (Some (OutputTokens u)) (Source u) r))
      (held_by (Some (ClExecutionID cl)) (ClGeneration cl))) as (s' & Hrun & Hfade & Hrow & Hbec & Honly); try done.
    + simpl. rewrite Hval, Hlive. unfold sql_eq. rewrite He, Hg, !bool_decide_eq_true_2, Z.eqb_refl by done. done.
    + simpl. unfold CompleteRequest, usage_given. by rewrite (proj2 Hk).
    + by apply held_by_spec.
    + rewrite Hrun in *. cbn [fst snd] in *. split_and!; [by left|by eapply fades_sound|done|done|done|by eauto].
  - assert (Hend : ended r = true).
    { destruct (ended r) eqn:Hend; [done|]. unfold live, request_in in Hlive. apply bool_decide_eq_false in Hlive.
      unfold ended, request_in in Hend. apply negb_false_iff, bool_decide_eq_true in Hend.
      assert (RwStatus r = RequestQueued) as Hrq by set_solver. rewrite (Hq Hrq) in He. done. }
    rewrite (resolve_fenced _ _ _ _ _ r) by (done || simpl; by rewrite Hlive, andb_false_r). by apply (settles_unchanged _ _ _ r).
Qed.

Definition abandoned_kind : string := "execution_abandoned".
Definition abandoned_detail : string := "request was accepted but no execution claimed it".

Lemma fail_quiet t id s r :
  sound s -> smooth t -> st_requests s !! id = Some r -> RwStatus r = RequestQueued \/ ended r = true ->
  settles_row RequestFailed id s (Adapter_FailAccepted t id abandoned_kind abandoned_detail s).
Proof.
  intros Hs Ht Hr Hor. destruct (co_rows s (so_coherent s Hs) _ r Hr) as [Hid (Hck & Hq & _)].
  destruct (so_named s Hs _ r Hr) as [Hn _].
  pose proof (exec_coherent (CFailAccepted t id abandoned_kind abandoned_detail) s (so_coherent s Hs)) as Hco. cbn [exec] in Hco.
  unfold Adapter_FailAccepted, settled, Service_FailAccepted in *.
  replace (normalizeFailure abandoned_kind abandoned_detail) with (abandoned_kind, abandoned_detail) in * by by vm_compute.
  cbv zeta in *. rewrite (bool_decide_eq_false_2 (id = uuid_Nil)) in * by congruence.
  rewrite (bool_decide_eq_false_2 (abandoned_kind = "")) in * by done. cbn [negb andb] in *. destruct Hor as [Hqueued|Hend].
  - specialize (Hq Hqueued).
    assert (Hgen : RwExecutionGeneration r = 0).
    { unfold request_check in Hck. rewrite Hq in Hck. rewrite !andb_true_iff in Hck. lia. }
    destruct (resolve_quiet t id None (ResolutionFail abandoned_kind abandoned_detail) s r
      (put_end RequestFailed (Some abandoned_kind) (optionalString abandoned_detail) (tx_now t))
      (λ r, request_in [RequestQueued; RequestDispatching; RequestStreaming] r && (is_null (RwExecutionID r) && (RwExecutionGeneration r =? 0)))%bool)
      as (s' & Hrun & Hfade & Hrow & Hbec & Honly); try done.
    + simpl. unfold request_in. by rewrite Hq, Hgen, Hqueued.
    + unfold request_in. by rewrite Hq, Hgen, Hqueued.
    + rewrite Hrun in *. cbn [fst snd] in *. split_and!; [by left|by eapply fades_sound|done|done|done|by eauto].
  - rewrite (resolve_fenced _ _ _ _ _ r); [by apply (settles_unchanged _ _ _ r)|done..|].
    apply not_true_iff_false. intros Hv. apply (fence_settles s id r None Hid) in Hv as [_ Hv]. congruence.
Qed.

(** ** A pass over a quiet store *)

Definition quiet (o : Outside) : Prop :=
  ou_before o = [] /\ cn_fault (ou_conn o) = None /\ (forall id, cn_locked (ou_conn o) id = false) /\ forall i, smooth (ou_txs o i).

Section pass.
Context {W : Type} `{!Env W} (plan : W -> Outside) (decodeCapabilities : string -> result GoError ModelCapabilities).
Context (Hquiet : forall w, quiet (plan w)).

#[local] Instance QuietStore : Env (Gateway W) := GatewayEnv plan decodeCapabilities.

Definition store (st : St (Gateway W)) : Store := gw_store (world st).

Lemma call_quiet {R} (op : Op R) (st : St (Gateway W)) :
  exists o, quiet o /\ forall r s', store_call decodeCapabilities op o (store st) = Some (r, s') ->
    exists st', call op st = (Some r, st') /\ store st' = s'.
Proof using Hquiet.
  exists (plan (gw_base (world st))). split; [apply Hquiet|]. intros r s' Hs. unfold call. cbn [answer QuietStore GatewayEnv].
  unfold gateway_answer. destruct (answer R op (gw_base (world st))) as [reply w].
  rewrite (proj1 (Hquiet (gw_base (world st)))). cbn [history]. change (gw_store (world st)) with (store st). rewrite Hs. by eexists.
Qed.

Lemma bind_run {A B} (m : M (Gateway W) A) (k : A -> M (Gateway W) B) st a st' : m st = (Some a, st') -> bind m k st = k a st'.
Proof. intros H. unfold bind. by rewrite H. Qed.

(** The completions the first loop repeats. *)
Definition repeatable (s : Store) (c : RecoverableCompletion) : Prop :=
  validKnownUsage (InputTokens (RvUsage c)) (OutputTokens (RvUsage c)) (Source (RvUsage c)) = true /\
  exists r, st_requests s !! ClRequestID (RvClaim c) = Some r /\ RwExecutionID r = Some (ClExecutionID (RvClaim c)) /\
    RwExecutionGeneration r = ClGeneration (RvClaim c).

Definition ended_at (s : Store) (id : UUID) : Prop := exists r, st_requests s !! id = Some r /\ ended r = true.

Lemma fades_ended s s' id : fades s s' -> ended_at s id -> ended_at s' id.
Proof.
  intros Hf (r & Hr & He). destruct (fa_kept _ _ Hf id r Hr) as (r' & Hr' & Ha). exists r'. by rewrite (adv_ended _ _ Ha He) in Hr' |- *.
Qed.

Lemma fades_repeatable s s' c : fades s s' -> repeatable s c -> repeatable s' c.
Proof.
  intros Hf [Hu (r & Hr & He & Hg)]. split; [done|]. destruct (fa_kept _ _ Hf _ r Hr) as (r' & Hr' & Ha). exists r'.
  destruct (adv_execution _ _ Ha _ He) as [-> ->]. done.
Qed.

Lemma completions_run completions n errs st :
  sound (store st) -> Forall (repeatable (store st)) completions ->
  exists n' st', recover_completions completions n errs st = (Some (n', errs), st') /\ sound (store st') /\
    fades (store st) (store st') /\ becomes RequestCompleted (store st) (store st') /\
    only ((λ c, ClRequestID (RvClaim c)) <$> completions) (store st) (store st') /\ Forall (λ c, ended_at (store st') (ClRequestID (RvClaim c))) completions.
Proof using Hquiet.
  revert n st. induction completions as [|c completions IH]; intros n st Hs Hall.
  - exists n, st. split_and!; [done|done|apply fades_refl|apply becomes_refl|apply only_refl|constructor].
  - apply Forall_cons in Hall as [[Hu (r & Hr & He & Hg)] Hall]. cbn [recover_completions].
    destruct (call_quiet (Complete (RvClaim c) (RvUsage c)) st) as (o & Ho & Hcall).
    pose proof (complete_quiet (ou_txs o 0%nat) (RvClaim c) (RvUsage c) (store st) r Hs (proj2 (proj2 (proj2 Ho)) 0%nat) Hr He Hg Hu) as Hset.
    destruct (Adapter_Complete (ou_txs o 0%nat) (RvClaim c) (RvUsage c) (store st)) as [err s1] eqn:Ha.
    destruct (Hcall err s1) as (st1 & Hc1 & Hs1); [simpl; by rewrite Ha|]. destruct Hset as (Herr & Hso & Hfade & Hbec & Honly & Hend).
    rewrite (bind_run _ _ _ _ _ Hc1). simpl in *. rewrite <- Hs1 in *.
    assert (Hall1 : Forall (repeatable (store st1)) completions) by (eapply Forall_impl; [exact Hall|]; intros; by eapply fades_repeatable).
    destruct Herr as [-> | ->]; [destruct (IH (wrap64 (n + 1)) st1 Hso Hall1) as (n' & st' & Hrun & Hs' & Hf' & Hb' & Hy' & Hall')
      |destruct (IH n st1 Hso Hall1) as (n' & st' & Hrun & Hs' & Hf' & Hb' & Hy' & Hall')];
      exists n', st'; (split_and!; [exact Hrun|done|by eapply fades_trans|by eapply becomes_trans|by eapply only_cons|]); apply Forall_cons; (split; [by eapply fades_ended|done]).
Qed.
Lemma queued_run ids n errs st :
  sound (store st) ->
  Forall (λ id, exists r, st_requests (store st) !! id = Some r /\ (RwStatus r = RequestQueued \/ ended r = true)) ids ->
  exists n' st', recover_queued ids n errs st = (Some (n', errs), st') /\ sound (store st') /\
    fades (store st) (store st') /\ becomes RequestFailed (store st) (store st') /\ only ids (store st) (store st') /\
    Forall (ended_at (store st')) ids.
Proof using Hquiet.
  revert n st. induction ids as [|id ids IH]; intros n st Hs Hall.
  - exists n, st. split_and!; [done|done|apply fades_refl|apply becomes_refl|apply only_refl|constructor].
  - apply Forall_cons in Hall as [(r & Hr & Hor) Hall]. cbn [recover_queued].
    destruct (call_quiet (FailAccepted id abandoned_kind abandoned_detail) st) as (o & Ho & Hcall).
    pose proof (fail_quiet (ou_txs o 0%nat) id (store st) r Hs (proj2 (proj2 (proj2 Ho)) 0%nat) Hr Hor) as Hset.
    destruct (Adapter_FailAccepted (ou_txs o 0%nat) id abandoned_kind abandoned_detail (store st)) as [err s1] eqn:Ha.
    destruct (Hcall err s1) as (st1 & Hc1 & Hs1); [cbn [store_call]; by rewrite Ha|]. destruct Hset as (Herr & Hso & Hfade & Hbec & Honly & Hend).
    rewrite (bind_run _ _ _ _ _ Hc1). simpl in *. rewrite <- Hs1 in *.
    assert (Hall1 : Forall (λ id, exists r, st_requests (store st1) !! id = Some r /\ (RwStatus r = RequestQueued \/ ended r = true)) ids).
    { eapply Forall_impl; [exact Hall|]. intros id' (r0 & Hr0 & H0). destruct (fa_kept _ _ Hfade id' r0 Hr0) as (r1 & Hr1 & _).
      exists r1. split; [done|]. destruct (fa_rows _ _ Hfade id' r1 Hr1) as (r2 & Hr2 & [->|(Hx & _)]); [|by right]. congruence. }
    destruct Herr as [-> | ->]; [destruct (IH (wrap64 (n + 1)) st1 Hso Hall1) as (n' & st' & Hrun & Hs' & Hf' & Hb' & Hy' & Hall')
      |destruct (IH n st1 Hso Hall1) as (n' & st' & Hrun & Hs' & Hf' & Hb' & Hy' & Hall')];
      exists n', st'; (split_and!; [exact Hrun|done|by eapply fades_trans|by eapply becomes_trans|by eapply only_cons|]); apply Forall_cons; (split; [by eapply fades_ended|done]).
Qed.
End pass.

(** ** What the lists hold *)

(** The recorded usages fit the counters of a request. *)
Definition records_fit (s : Store) : Prop :=
  forall id a input output, st_attempts s !! id = Some a -> completed_with_usage a = true ->
    AtInputTokens a = Some input -> AtOutputTokens a = Some output -> validKnownUsage input output (AtUsageSource a) = true.

Lemma rows_length {A} (t : gmap UUID A) : length (rows t) = size t.
Proof. unfold rows. by rewrite length_fmap, length_map_to_list. Qed.

Lemma filter_length_le {A} (P : A -> Prop) `{!forall x, Decision (P x)} (l : list A) : (length (filter P l) <= length l)%nat.
Proof. apply length_filter. Qed.

Lemma last_by_sequence_in l a : last_by_sequence l = Some a -> a ∈ l.
Proof.
  revert a. induction l as [|b l IH]; intros a; simpl; [done|]. destruct (last_by_sequence l) as [c|].
  - destruct (_ <? _); intros [= <-]; [right; by apply IH|left].
  - intros [= <-]. left.
Qed.

Lemma last_by_sequence_some a l : is_Some (last_by_sequence (a :: l)).
Proof. simpl. destruct (last_by_sequence l); [|by eauto]. destruct (_ <? _); eauto. Qed.

Lemma omap_length {A B} (f : A -> option B) l : (length (omap f l) <= length l)%nat.
Proof. induction l as [|x l IH]; csimpl; [done|]. destruct (f x); csimpl; lia. Qed.

Lemma recorded_spec s r a :
  a ∈ recorded_completions s r <-> (exists id, st_attempts s !! id = Some a) /\ attempt_of r a = true /\ completed_with_usage a = true.
Proof. unfold recorded_completions. rewrite list_elem_of_filter, rows_spec, andb_true_iff. tauto. Qed.

Lemma recoverable_of_some s r a before :
  sound s -> (exists id, st_requests s !! id = Some r) -> live r = true -> heartbeat_before before r = true ->
  a ∈ recorded_completions s r -> records_fit s ->
  exists c, recoverable_of (r, a) = Some c /\ repeatable s c /\ ClRequestID (RvClaim c) = RwID r.
Proof.
  intros Hs (id & Hr) Hl _ Ha Hfit. apply recorded_spec in Ha as ((aid & Ha) & Hof & Hc).
  destruct (co_rows s (so_coherent s Hs) id r Hr) as [Hid (Hck & _ & Hex)]. destruct (Hex Hl) as [e He].
  assert (Hgen : 0 < RwExecutionGeneration r).
  { unfold request_check in Hck. rewrite He in Hck. rewrite !andb_true_iff in Hck. lia. }
  pose proof Hc as Hc'. unfold completed_with_usage in Hc'. rewrite !andb_true_iff in Hc'. destruct Hc' as (((_ & Hi) & Ho) & _).
  unfold recoverable_of. simpl. rewrite He. destruct (AtInputTokens a) as [input|] eqn:Hin; [|done].
  destruct (AtOutputTokens a) as [output|] eqn:Hout; [|done]. rewrite (proj2 (Z.leb_le 1 (RwExecutionGeneration r))) by lia.
  eexists. split; [done|]. split; [|done]. split; [by eapply Hfit|]. exists r. simpl. rewrite Hid. done.
Qed.

(** The rows of the first list. *)
Definition listed (before : Z) (s : Store) : list (RequestRow * AttemptRow) :=
  omap (λ r, (λ a, (r, a)) <$> last_by_sequence (recorded_completions s r))
    (merge_sort (earlier heartbeat_of)
       (filter (λ r, live r && negb (is_null (RwExecutionID r)) && heartbeat_before before r = true)%bool (rows (st_requests s)))).

Lemma listed_all c before limit s :
  cn_fault c = None -> Z.of_nat (size (st_requests s)) <= limit ->
  ListRecoverableRequestCompletions c before limit s = Ok (listed before s).
Proof.
  intros Hc Hsz. unfold ListRecoverableRequestCompletions. rewrite Hc. f_equal. apply take_ge.
  etrans; [apply omap_length|]. rewrite merge_sort_Permutation. etrans; [apply filter_length_le|]. rewrite rows_length. lia.
Qed.

Lemma listed_spec before s r a :
  (r, a) ∈ listed before s ->
  (exists id, st_requests s !! id = Some r) /\ live r = true /\ heartbeat_before before r = true /\ a ∈ recorded_completions s r.
Proof.
  unfold listed. rewrite list_elem_of_omap. intros (r0 & Hin & Ho). rewrite merge_sort_Permutation, list_elem_of_filter, rows_spec in Hin.
  destruct Hin as [Hb Hr]. rewrite !andb_true_iff in Hb. destruct (last_by_sequence _) as [a0|] eqn:Hl; [|done].
  injection Ho as <- <-. split_and!; [done|tauto|tauto|]. by apply last_by_sequence_in.
Qed.

Lemma listed_complete before s id r :
  sound s -> st_requests s !! id = Some r -> live r = true -> heartbeat_before before r = true -> recorded_completions s r <> [] ->
  exists a, (r, a) ∈ listed before s.
Proof.
  intros Hs Hr Hl Hh Hn. destruct (recorded_completions s r) as [|a0 l] eqn:Hrec; [done|].
  destruct (last_by_sequence_some a0 l) as [a Ha]. exists a. unfold listed. apply list_elem_of_omap. exists r. rewrite Hrec, Ha. split; [|done].
  rewrite merge_sort_Permutation, list_elem_of_filter, rows_spec. split; [|by eauto].
  destruct (co_rows s (so_coherent s Hs) id r Hr) as [_ (_ & _ & Hex)]. destruct (Hex Hl) as [e ->]. by rewrite Hl, Hh.
Qed.

Lemma completions_listed c before limit s :
  cn_fault c = None -> recovery_range before limit = true -> Z.of_nat (size (st_requests s)) <= limit -> sound s -> records_fit s ->
  exists l, Repo_ListRecoverableCompletions c before limit s = Ok l /\ Forall (repeatable s) l /\
    (forall id, id ∈ ((λ x, ClRequestID (RvClaim x)) <$> l) -> exists r, st_requests s !! id = Some r /\ abandoned before r) /\
    forall id r, st_requests s !! id = Some r -> live r = true -> heartbeat_before before r = true ->
      recorded_completions s r <> [] -> id ∈ ((λ x, ClRequestID (RvClaim x)) <$> l).
Proof.
  intros Hc Hrange Hsz Hs Hfit. unfold Repo_ListRecoverableCompletions. rewrite Hrange, (listed_all c before limit s Hc Hsz).
  assert (Hall : forall p, p ∈ listed before s -> exists x, recoverable_of p = Some x /\ repeatable s x /\ ClRequestID (RvClaim x) = RwID p.1).
  { intros [r a] (Hr & Hl & Hh & Ha)%listed_spec. by eapply recoverable_of_some. }
  assert (Hm : is_Some (mapM recoverable_of (listed before s))).
  { apply mapM_is_Some_2, Forall_forall. intros p Hp. destruct (Hall p Hp) as (x & Hx & _). by exists x. }
  destruct Hm as [l Hm]. rewrite Hm. apply mapM_Some_1 in Hm. exists l. split_and!; [done|..].
  - apply Forall_forall. intros x Hx. apply list_elem_of_lookup in Hx as [i Hi].
    destruct (Forall2_lookup_r _ _ _ _ _ Hm Hi) as (p & Hp & Hpx). destruct (Hall p (list_elem_of_lookup_2 _ _ _ Hp)) as (x' & Hx' & Hrep & _).
    congruence.
  - intros id (x & -> & Hx)%list_elem_of_fmap. apply list_elem_of_lookup in Hx as [i Hi].
    destruct (Forall2_lookup_r _ _ _ _ _ Hm Hi) as ([r a] & Hp & Hpx). pose proof (list_elem_of_lookup_2 _ _ _ Hp) as Hin.
    destruct (Hall _ Hin) as (x' & Hx' & _ & Hid). assert (x' = x) as -> by congruence. rewrite Hid. simpl.
    apply listed_spec in Hin as ((j & Hr) & Hl & Hh & _). exists r. rewrite (proj1 (co_rows s (so_coherent s Hs) j r Hr)).
    split; [done|by left].
  - intros id r Hr Hl Hh Hn. destruct (listed_complete before s id r Hs Hr Hl Hh Hn) as [a Hin].
    apply list_elem_of_lookup in Hin as [i Hi]. destruct (Forall2_lookup_l _ _ _ _ _ Hm Hi) as (x & Hx & Hrx).
    apply list_elem_of_fmap. exists x. split; [|by eapply list_elem_of_lookup_2].
    destruct (Hall (r, a) (list_elem_of_lookup_2 _ _ _ Hi)) as (x' & Hx' & _ & Hid). simpl in Hid.
    assert (x' = x) as -> by congruence. rewrite Hid. symmetry. apply (co_rows s (so_coherent s Hs) id r Hr).
Qed.

Lemma queued_listed c before limit s :
  cn_fault c = None -> recovery_range before limit = true -> Z.of_nat (size (st_requests s)) <= limit -> sound s ->
  exists ids, Repo_ListStaleQueuedRequests c before limit s = Ok ids /\
    (forall id, id ∈ ids -> exists r, st_requests s !! id = Some r /\ abandoned before r) /\
    Forall (λ id, exists r, st_requests s !! id = Some r /\ (RwStatus r = RequestQueued \/ ended r = true)) ids /\
    forall id r, st_requests s !! id = Some r -> RwStatus r = RequestQueued -> RwUpdatedAt r < before -> id ∈ ids.
Proof.
  intros Hc Hrange Hsz Hs. unfold Repo_ListStaleQueuedRequests, RequestTable.ListStaleQueuedRequests. rewrite Hrange, Hc.
  rewrite take_ge; [|rewrite length_fmap, merge_sort_Permutation; etrans; [apply filter_length_le|rewrite rows_length; lia]].
  eexists. split; [done|]. split_and!.
  - intros id (r & -> & Hin)%list_elem_of_fmap. rewrite merge_sort_Permutation, list_elem_of_filter, rows_spec in Hin.
    destruct Hin as [Hb (j & Hr)]. rewrite !andb_true_iff in Hb. destruct Hb as (((Hq & _) & _) & Hu). exists r.
    rewrite (proj1 (co_rows s (so_coherent s Hs) j r Hr)). split; [done|]. right. split; [by apply request_in_one|lia].
  - apply Forall_forall. intros id (r & -> & Hin)%list_elem_of_fmap. rewrite merge_sort_Permutation, list_elem_of_filter, rows_spec in Hin.
    destruct Hin as [Hb (j & Hr)]. rewrite !andb_true_iff in Hb. destruct Hb as (((Hq & _) & _) & _). exists r.
    rewrite (proj1 (co_rows s (so_coherent s Hs) j r Hr)). split; [done|]. left. by apply request_in_one.
  - intros id r Hr Hq Hu. destruct (co_rows s (so_coherent s Hs) id r Hr) as [Hid (Hck & Hex & _)]. specialize (Hex Hq).
    apply list_elem_of_fmap. exists r. split; [done|]. rewrite merge_sort_Permutation, list_elem_of_filter, rows_spec. split; [|by eauto].
    assert (Hgen : RwExecutionGeneration r = 0).
    { unfold request_check in Hck. rewrite Hex in Hck. rewrite !andb_true_iff in Hck. lia. }
    unfold request_in. rewrite Hex, Hgen, Hq, (proj2 (Z.ltb_lt _ _) Hu). done.
Qed.

(** The last statement of a pass ends every live row left behind. *)
Lemma stale_recovered c before limit s id r :
  keyed s -> cn_fault c = None -> (forall id, cn_locked c id = false) -> recovery_range before limit = true ->
  Z.of_nat (size (st_requests s)) <= limit ->
  st_requests (Repo_RecoverStaleExecutions c before limit s).2 !! id = Some r ->
  (ended r = true /\ (exists r0, st_requests s !! id = Some r0 /\ (abandoned before r0 /\ recorded_completions s r0 = [] \/ r = r0)) \/
   st_requests s !! id = Some r /\ (live r = true -> heartbeat_before before r = true -> recorded_completions s r <> [])).
Proof.
  intros Hk Hc Hl Hrange Hsz. unfold Repo_RecoverStaleExecutions, RecoverStaleRequestExecutions. rewrite Hrange, Hc. simpl.
  rewrite lookup_fmap. destruct (st_requests s !! id) as [r0|] eqn:Hr0; [|done]. simpl. intros [= <-].
  unfold fence_request. case_bool_decide as Hin.
  { left. split; [done|]. exists r0. split; [done|]. left.
    destruct (stale_rows_spec _ _ _ _ _ (stale_row_of _ _ _ _ _ _ Hk Hr0 Hin)) as (_ & Hl0 & Hh0 & Hn0). split; [by left|done]. } right. split; [done|]. intros Hlive Hh Hn. apply Hin.
  apply list_elem_of_fmap. exists r0. split; [done|]. unfold stale_rows.
  rewrite take_ge by (rewrite merge_sort_Permutation; etrans; [apply filter_length_le|rewrite rows_length; lia]).
  rewrite merge_sort_Permutation, list_elem_of_filter, rows_spec. split; [|by eauto]. by rewrite Hlive, Hh, Hn, Hl.
Qed.

Lemma fades_size s s' : fades s s' -> size (st_requests s') = size (st_requests s).
Proof.
  intros Hf. rewrite <- !size_dom. f_equal. apply set_eq. intros j. rewrite !elem_of_dom. split.
  - intros [r' Hr']. destruct (fa_rows _ _ Hf j r' Hr') as (r & Hr & _). by eauto.
  - intros [r Hr]. destruct (fa_kept _ _ Hf j r Hr) as (r' & Hr' & _). by eauto.
Qed.

(** What a row has been through after the three phases [s0], [s1], [s2], [s3]. *)
Record phases (before : Z) (s0 s1 s2 s3 : Store) : Prop := {
  ph_1 : fades s0 s1;
  ph_2 : fades s1 s2;
  ph_done id r : st_requests s0 !! id = Some r -> live r = true -> heartbeat_before before r = true ->
    recorded_completions s0 r <> [] -> exists r1, st_requests s1 !! id = Some r1 /\ ended r1 = true /\ RwStatus r1 = RequestCompleted;
  ph_queued id r : st_requests s1 !! id = Some r -> RwStatus r = RequestQueued -> RwUpdatedAt r < before -> ended_at s2 id;
  ph_3 id r : st_requests s3 !! id = Some r ->
    ended r = true \/
    st_requests s2 !! id = Some r /\ (live r = true -> heartbeat_before before r = true -> recorded_completions s2 r <> []);
}.

Lemma abandoned_not_ended before r : abandoned before r -> ended r = false.
Proof.
  intros [[Hl _]|[Hq _]]; [by apply live_not_ended|]. unfold ended, request_in. by rewrite Hq.
Qed.

Lemma unended_unchanged s s' id r : fades s s' -> st_requests s' !! id = Some r -> ended r = false -> st_requests s !! id = Some r.
Proof. intros Hf Hr He. destruct (fa_rows _ _ Hf id r Hr) as (r0 & Hr0 & [->|(He' & _)]); [done|congruence]. Qed.

Lemma phases_clean before s0 s1 s2 s3 id r :
  phases before s0 s1 s2 s3 -> st_requests s3 !! id = Some r -> ~ abandoned before r.
Proof.
  intros [H1 H2 Hd Hq H3] Hr Ha. pose proof (abandoned_not_ended _ _ Ha) as He.
  destruct (H3 id r Hr) as [|[Hr2 Hn]]; [congruence|]. pose proof (unended_unchanged _ _ _ _ H2 Hr2 He) as Hr1.
  pose proof (unended_unchanged _ _ _ _ H1 Hr1 He) as Hr0. destruct Ha as [[Hl Hh]|[Hst Hu]].
  - destruct (Hd id r Hr0 Hl Hh) as (r1 & Hr1' & He1 & _).
    + specialize (Hn Hl Hh). unfold recorded_completions in *. by rewrite <- (fa_attempts _ _ H1), <- (fa_attempts _ _ H2).
    + congruence.
  - destruct (Hq id r Hr1 Hst Hu) as (r2 & Hr2' & He2). congruence.
Qed.

(** ** The theorem *)

Section theorem.
Context {W : Type} `{!Env W} (plan : W -> Outside) (decodeCapabilities : string -> result GoError ModelCapabilities).

#[local] Instance PassStore : Env (Gateway W) := GatewayEnv plan decodeCapabilities.

Context (Hquiet : forall w, quiet (plan w)) (before limit : Z) (Hrange : recovery_range before limit = true).

(** The first phase: the recorded completions. *)
Lemma phase_completions (st : St (Gateway W)) :
  Z.of_nat (size (st_requests (store st))) <= limit -> sound (store st) -> records_fit (store st) ->
  exists l n st1 st2, call (ListRecoverableCompletions before limit) st = (Some (Ok l), st1) /\
    recover_completions l 0 [] st1 = (Some (n, []), st2) /\ sound (store st2) /\ fades (store st) (store st2) /\
    (forall id r, st_requests (store st) !! id = Some r -> ~ abandoned before r -> st_requests (store st2) !! id = Some r) /\
    (forall id r, st_requests (store st) !! id = Some r -> live r = true -> heartbeat_before before r = true ->
       recorded_completions (store st) r <> [] ->
       exists r1, st_requests (store st2) !! id = Some r1 /\ ended r1 = true /\ RwStatus r1 = RequestCompleted).
Proof using Hquiet Hrange.
  intros Hsz Hs Hfit.
  destruct (call_quiet plan decodeCapabilities Hquiet (ListRecoverableCompletions before limit) st) as (o & Ho & Hcall).
  destruct (completions_listed (ou_conn o) before limit (store st) (proj1 (proj2 Ho)) Hrange Hsz Hs Hfit) as (l & Hl & Hrep & Hab & Hall).
  destruct (Hcall (Ok l) (store st)) as (st1 & Hc & Hst1); [simpl; by rewrite Hl|].
  destruct (completions_run plan decodeCapabilities Hquiet l 0 [] st1) as (n & st2 & Hrun & Hs2 & Hf & Hb & Hy & Hend);
    [by rewrite Hst1|by rewrite Hst1|]. rewrite Hst1 in Hf, Hb, Hy. exists l, n, st1, st2. split_and!; [done..| |].
  - intros id r Hr Hn. rewrite Hy; [done|]. intros Hin. destruct (Hab id Hin) as (r0 & Hr0 & Ha). congruence.
  - intros id r Hr Hl' Hh Hn. specialize (Hall id r Hr Hl' Hh Hn). apply list_elem_of_fmap in Hall as (x & -> & Hx).
    rewrite Forall_forall in Hend. destruct (Hend x Hx) as (r1 & Hr1 & He). exists r1. split_and!; [done..|].
    destruct (Hb _ r1 Hr1) as [Hold|]; [|done]. apply live_not_ended in Hl'. congruence.
Qed.

(** The second phase: the requests nobody claimed. *)
Lemma phase_queued (st : St (Gateway W)) :
  Z.of_nat (size (st_requests (store st))) <= limit -> sound (store st) ->
  exists l n st1 st2, call (Effects.ListStaleQueuedRequests before limit) st = (Some (Ok l), st1) /\
    recover_queued l 0 [] st1 = (Some (n, []), st2) /\ sound (store st2) /\ fades (store st) (store st2) /\
    (forall id r, st_requests (store st) !! id = Some r -> ~ abandoned before r -> st_requests (store st2) !! id = Some r) /\
    (forall id r, st_requests (store st) !! id = Some r -> RwStatus r = RequestQueued -> RwUpdatedAt r < before -> ended_at (store st2) id).
Proof using Hquiet Hrange.
  intros Hsz Hs.
  destruct (call_quiet plan decodeCapabilities Hquiet (Effects.ListStaleQueuedRequests before limit) st) as (o & Ho & Hcall).
  destruct (queued_listed (ou_conn o) before limit (store st) (proj1 (proj2 Ho)) Hrange Hsz Hs) as (l & Hl & Hab & Hok & Hall).
  destruct (Hcall (Ok l) (store st)) as (st1 & Hc & Hst1); [simpl; by rewrite Hl|].
  destruct (queued_run plan decodeCapabilities Hquiet l 0 [] st1) as (n & st2 & Hrun & Hs2 & Hf & Hb & Hy & Hend);
    [by rewrite Hst1|by rewrite Hst1|]. rewrite Hst1 in Hf, Hb, Hy. exists l, n, st1, st2. split_and!; [done..| |].
  - intros id r Hr Hn. rewrite Hy; [done|]. intros Hin. destruct (Hab id Hin) as (r0 & Hr0 & Ha). congruence.
  - intros id r Hr Hq Hu. rewrite Forall_forall in Hend. apply Hend. by eapply Hall.
Qed.

(** The third phase: the executions without a heartbeat. *)
Lemma phase_stale (st : St (Gateway W)) :
  Z.of_nat (size (st_requests (store st))) <= limit -> sound (store st) ->
  exists n st1 call_, call (RecoverStaleExecutions before limit) st = (Some (n, None), st1) /\ store st1 = exec call_ (store st) /\
    (forall id r, st_requests (store st) !! id = Some r -> ~ abandoned before r -> st_requests (store st1) !! id = Some r) /\
    (forall id r, st_requests (store st1) !! id = Some r -> ended r = true \/ st_requests (store st) !! id = Some r /\
       (live r = true -> heartbeat_before before r = true -> recorded_completions (store st) r <> [])).
Proof using Hquiet Hrange.
  intros Hsz Hs. destruct (call_quiet plan decodeCapabilities Hquiet (RecoverStaleExecutions before limit) st) as (o & Ho & Hcall).
  destruct Ho as (_ & Hfault & Hlock & _). pose proof (coherent_keyed _ (so_coherent _ Hs)) as Hk.
  pose proof (fun id r => stale_recovered (ou_conn o) before limit (store st) id r Hk Hfault Hlock Hrange Hsz) as Hrec.
  assert (Hn : exists n, (Repo_RecoverStaleExecutions (ou_conn o) before limit (store st)).1 = (n, None)).
  { unfold Repo_RecoverStaleExecutions, RecoverStaleRequestExecutions. rewrite Hrange, Hfault. by eexists. }
  destruct Hn as [n Hn]. destruct (Hcall (n, None) (exec (CRecover (ou_conn o) before limit) (store st))) as (st1 & Hc & Hst1).
  { cbn [store_call exec]. rewrite <- Hn. by destruct (Repo_RecoverStaleExecutions _ _ _ _). }
  exists n, st1, (CRecover (ou_conn o) before limit). rewrite Hst1. split_and!; [done|done|..].
  - intros id r Hr Ha.
    destruct (moved_on _ _ _ _ _ _ (exec_moves (CRecover (ou_conn o) before limit) (store st) Hk) Hr) as (r' & Hr' & _).
    destruct (Hrec id r' Hr') as [(_ & r0 & Hr0 & [[Hab _]|Hsame])|[Hold _]]; [congruence| |congruence]. simplify_eq. done.
  - intros id r Hr. destruct (Hrec id r Hr) as [[He _]|[Hold Hn']]; [by left|by right].
Qed.

End theorem.
