(* ===== verification/RequestLogs.v ===== *)
(** * The log of requests

    Models [ListRequestLogs] and [GetRequestLog] of
    [src/internal/usage/service.go] and [src/internal/store/usage_repository.go]
    over the statements [CountRequestLogs], [ListRequestLogs], [GetRequestLog]
    and [ListRequestLogAttempts] of [src/internal/store/db/requests.sql.go].
    How the database matches a text with [ILIKE] is a parameter. *)

From S2P Require Import Prelude GoStrings Canonical Capabilities Effects Sql RequestTable RequestStore RequestHistory.

Local Open Scope Z_scope.

(** ** Types *)

(** The fields of [identity.Principal] the service reads. *)
Record Principal := mkPrincipal { PcUserID : UUID; PcRole : UserRole; PcStatus : UserStatus }.

Definition CanManageUsers (p : Principal) : bool := bool_decide (PcRole p = UserAdministrator).

Record Page := mkPage { PgOffset : Z; PgSize : Z }.

Record RequestLogQuery := mkRequestLogQuery {
  QuUserID : option UUID;
  QuGatewayKeyID : option UUID;
  QuModelID : option UUID;
  QuResourcePoolID : option UUID;
  QuSearch : string;
  QuStatus : string;
  QuFrom : Z;
  QuTo : Z;
  QuPage : Page;
}.

Record RequestLog := mkRequestLog {
  LgRequestID : UUID;
  LgUserID : UUID;
  LgUserName : string;
  LgGatewayKeyID : UUID;
  LgKeyPrefix : string;
  LgModelID : UUID;
  LgModelAlias : string;
  LgResourcePoolID : UUID;
  LgResourcePoolName : string;
  LgResourcePoolSlug : string;
  LgStatus : RequestStatus;
  LgStream : bool;
  LgInputTokens : option Z;
  LgOutputTokens : option Z;
  LgUsageSource : UsageSource;
  LgErrorKind : option string;
  LgAcceptedAt : Z;
  LgCompletedAt : option Z;
  LgUpdatedAt : Z;
  LgAttemptCount : Z;
  LgLastAttemptStatus : option string;
}.

Record RequestAttempt := mkRequestAttempt {
  RaID : UUID;
  RaSequence : Z;
  RaStatus : string;
  RaProviderName : string;
  RaCredentialName : string;
  RaUpstreamRequestID : option string;
  RaHTTPStatus : option Z;
  RaErrorKind : option string;
  RaRetryAfterAt : option Z;
  RaSentAt : option Z;
  RaFirstByteAt : option Z;
  RaCompletedAt : option Z;
  RaInputTokens : option Z;
  RaOutputTokens : option Z;
  RaUsageSource : UsageSource;
  RaCreatedAt : Z;
}.

Definition request_status_text (s : RequestStatus) : string :=
  match s with
  | RequestQueued => "queued" | RequestDispatching => "dispatching" | RequestStreaming => "streaming"
  | RequestCompleted => "completed" | RequestFailed => "failed" | RequestCanceled => "canceled" | RequestUncertain => "uncertain"
  end.

Definition attempt_state_text (s : AttemptState) : string :=
  match s with
  | AttemptCreated => "created" | AttemptSending => "sending" | AttemptStreaming => "streaming"
  | AttemptCompleted => "completed" | AttemptFailed => "failed" | AttemptUncertain => "uncertain"
  end.

(** ** The statements *)

(** A request with the rows it is joined with. *)
Definition joined (s : Store) (r : RequestRow) : option (RequestRow * UserRow * KeyRow * ModelRow * PoolRow) :=
  match dr_users (st_dir s) !! RwUserID r, dr_keys (st_dir s) !! RwGatewayKeyID r, dr_models (st_dir s) !! RwModelID r,
        dr_pools (st_dir s) !! RwResourcePoolID r with
  | Some u, Some k, Some m, Some p => Some (r, u, k, m, p)
  | _, _, _, _ => None
  end.

(** [$1::uuid IS NULL OR column = $1] *)
Definition matches_id (wanted : option UUID) (id : UUID) : bool :=
  match wanted with Some w => bool_decide (id = w) | None => true end.

(** [concat_ws(' ', ...)] *)
Definition search_text (t : RequestRow * UserRow * KeyRow * ModelRow * PoolRow) : string :=
  let '(r, u, k, m, p) := t in
  UrDisplayName u +:+ " " +:+ UrEmail u +:+ " " +:+ KrPrefix k +:+ " " +:+ MrPublicName m +:+ " " +:+ PrName p +:+ " " +:+ RwID r.

Definition attempts_of (s : Store) (id : UUID) : list AttemptRow := filter (λ a, AtRequestID a = id) (rows (st_attempts s)).

(** [ORDER BY sequence DESC, id DESC LIMIT 1] *)
Fixpoint last_attempt (l : list AttemptRow) : option AttemptRow :=
  match l with
  | [] => None
  | a :: l' =>
      match last_attempt l' with
      | Some b =>
          if ((AtSequence a <? AtSequence b) || (AtSequence a =? AtSequence b) && bool_decide (String.le (AtID a) (AtID b)))%bool
          then Some b else Some a
      | None => Some a
      end
  end.

(** [requestLogFromParts] of the row a statement returns. *)
Definition log_of (s : Store) (t : RequestRow * UserRow * KeyRow * ModelRow * PoolRow) : RequestLog :=
  let '(r, u, k, m, p) := t in
  mkRequestLog (RwID r) (RwUserID r) (UrDisplayName u) (RwGatewayKeyID r) (KrPrefix k) (RwModelID r) (MrPublicName m)
    (RwResourcePoolID r) (PrName p) (PrSlug p) (RwStatus r) (RwStream r) (RwInputTokens r) (RwOutputTokens r) (RwUsageSource r)
    (RwErrorKind r) (RwAcceptedAt r) (RwCompletedAt r) (RwUpdatedAt r) (Z.of_nat (length (attempts_of s (RwID r))))
    ((λ a, attempt_state_text (AtStatus a)) <$> last_attempt (attempts_of s (RwID r))).

(** [ORDER BY accepted_at DESC, id DESC] *)
Definition newer (a b : RequestRow * UserRow * KeyRow * ModelRow * PoolRow) : Prop :=
  RwAcceptedAt b.1.1.1.1 < RwAcceptedAt a.1.1.1.1 \/
  RwAcceptedAt b.1.1.1.1 = RwAcceptedAt a.1.1.1.1 /\ String.le (RwID b.1.1.1.1) (RwID a.1.1.1.1).

#[export] Instance newer_dec : RelDecision newer.
Proof. intros a b. unfold newer. apply _. Defined.

Section logs.
Context (ilike : string -> string -> bool).

Definition selected (q : RequestLogQuery) (t : RequestRow * UserRow * KeyRow * ModelRow * PoolRow) : bool :=
  let r := t.1.1.1.1 in
  (matches_id (QuUserID q) (RwUserID r) && matches_id (QuGatewayKeyID q) (RwGatewayKeyID r) && matches_id (QuModelID q) (RwModelID r) &&
   (bool_decide (QuStatus q = "") || bool_decide (request_status_text (RwStatus r) = QuStatus q)) &&
   (QuFrom q <=? RwAcceptedAt r) && (RwAcceptedAt r <? QuTo q) &&
   (bool_decide (QuSearch q = "") || ilike (search_text t) ("%" +:+ QuSearch q +:+ "%")) &&
   matches_id (QuResourcePoolID q) (RwResourcePoolID r))%bool.

Definition log_rows (q : RequestLogQuery) (s : Store) : list (RequestRow * UserRow * KeyRow * ModelRow * PoolRow) :=
  filter (λ t, selected q t = true) (omap (joined s) (rows (st_requests s))).

Definition CountRequestLogs (c : Conn) (q : RequestLogQuery) (s : Store) : result PgError Z :=
  match cn_fault c with Some e => Err e | None => Ok (Z.of_nat (length (log_rows q s))) end.

Definition ListRequestLogs (c : Conn) (q : RequestLogQuery) (s : Store) : result PgError (list RequestLog) :=
  match cn_fault c with
  | Some e => Err e
  | None =>
      Ok (log_of s <$> take (Z.to_nat (PgSize (QuPage q))) (drop (Z.to_nat (PgOffset (QuPage q))) (merge_sort newer (log_rows q s))))
  end.

Definition GetRequestLog (c : Conn) (requestID : UUID) (userID : option UUID) (s : Store) : result PgError RequestLog :=
  match cn_fault c with
  | Some e => Err e
  | None =>
      match st_requests s !! requestID ≫= joined s with
      | Some t => if matches_id userID (RwUserID t.1.1.1.1) then Ok (log_of s t) else Err NoRows
      | None => Err NoRows
      end
  end.

Definition by_sequence (a b : AttemptRow) : Prop :=
  AtSequence a < AtSequence b \/ AtSequence a = AtSequence b /\ String.le (AtID a) (AtID b).

#[local] Instance by_sequence_dec : RelDecision by_sequence.
Proof. intros a b. unfold by_sequence. apply _. Defined.

Definition attempt_log (s : Store) (a : AttemptRow) : option RequestAttempt :=
  cr ← st_credentials s !! AtCredentialID a;
  p ← dr_pools (st_dir s) !! CdResourcePoolID cr;
  v ← dr_providers (st_dir s) !! PrProviderID p;
  Some (mkRequestAttempt (AtID a) (AtSequence a) (attempt_state_text (AtStatus a)) (PvName v) (CdName cr) (AtUpstreamRequestID a)
    (AtHttpStatus a) (AtErrorKind a) (AtRetryAfterAt a) (AtSentAt a) (AtFirstByteAt a) (AtCompletedAt a) (AtInputTokens a)
    (AtOutputTokens a) (AtUsageSource a) (AtCreatedAt a)).

Definition ListRequestLogAttempts (c : Conn) (requestID : UUID) (s : Store) : result PgError (list RequestAttempt) :=
  match cn_fault c with
  | Some e => Err e
  | None => Ok (omap (attempt_log s) (merge_sort by_sequence (attempts_of s requestID)))
  end.

(** ** usage_repository.go *)

(** The two statements of a list; [c1] and [s1] are for the second. *)
Definition Repo_ListRequestLogs (c c1 : Conn) (q : RequestLogQuery) (s s1 : Store) : result UsageError (list RequestLog * Z) :=
  match CountRequestLogs c q s with
  | Err e => Err (translateUsageError (inl e))
  | Ok total =>
      match ListRequestLogs c1 q s1 with
      | Err e => Err (translateUsageError (inl e))
      | Ok items => Ok (items, total)
      end
  end.

Definition Repo_GetRequestLog (c c1 : Conn) (requestID : UUID) (userID : option UUID) (s s1 : Store) :
    result UsageError (RequestLog * list RequestAttempt) :=
  match GetRequestLog c requestID userID s with
  | Err e => Err (translateUsageError (inl e))
  | Ok log =>
      match ListRequestLogAttempts c1 requestID s1 with
      | Err e => Err (translateUsageError (inl e))
      | Ok attempts => Ok (log, attempts)
      end
  end.

(** ** usage/service.go *)

Definition validRequestStatus (status : string) : bool :=
  bool_decide (status ∈ ["queued"; "dispatching"; "streaming"; "completed"; "failed"; "canceled"; "uncertain"]).

Definition normalizePage (page : Page) : Page :=
  let offset := if PgOffset page <? 0 then 0 else PgOffset page in
  let size := if PgSize page <? 1 then 50 else PgSize page in
  mkPage offset (if 200 <? size then 200 else size).

Definition with_page (page : Page) (search : string) (q : RequestLogQuery) : RequestLogQuery :=
  mkRequestLogQuery (QuUserID q) (QuGatewayKeyID q) (QuModelID q) (QuResourcePoolID q) search (QuStatus q) (QuFrom q) (QuTo q) page.
Definition with_user (userID : option UUID) (q : RequestLogQuery) : RequestLogQuery :=
  mkRequestLogQuery userID (QuGatewayKeyID q) (QuModelID q) (QuResourcePoolID q) (QuSearch q) (QuStatus q) (QuFrom q) (QuTo q) (QuPage q).

Definition Service_ListRequestLogs (c c1 : Conn) (actor : Principal) (query : RequestLogQuery) (s s1 : Store) :
    result UsageError (list RequestLog * Z) :=
  let query := with_page (normalizePage (QuPage query)) (TrimSpace (QuSearch query)) query in
  if (negb (bool_decide (PcStatus actor = UserActive)) || (200 <? Z.of_nat (String.length (QuSearch query))) ||
      (negb (bool_decide (QuStatus query = "")) && negb (validRequestStatus (QuStatus query))) || IsZero (QuFrom query) ||
      IsZero (QuTo query) || negb (After (QuTo query) (QuFrom query)) ||
      (31 * 24 * Hour <? time_sub (QuTo query) (QuFrom query)))%bool then Err UInvalidInput
  else if CanManageUsers actor then Repo_ListRequestLogs c c1 query s s1
  else if (negb (bool_decide (PcRole actor = UserMember)) ||
           match QuUserID query with Some u => negb (bool_decide (u = PcUserID actor)) | None => false end)%bool then Err UForbidden
  else Repo_ListRequestLogs c c1 (with_user (Some (PcUserID actor)) query) s s1.

Definition Service_GetRequestLog (c c1 : Conn) (actor : Principal) (requestID : UUID) (s s1 : Store) :
    result UsageError (RequestLog * list RequestAttempt) :=
  if (negb (bool_decide (PcStatus actor = UserActive)) || bool_decide (requestID = uuid_Nil))%bool then Err UForbidden
  else if CanManageUsers actor then Repo_GetRequestLog c c1 requestID None s s1
  else if negb (bool_decide (PcRole actor = UserMember)) then Err UForbidden
  else Repo_GetRequestLog c c1 requestID (Some (PcUserID actor)) s s1.
End logs.

(** ** Theorems *)

Section theorems.
Context (ilike : string -> string -> bool).

Lemma joined_row s r t : joined s r = Some t -> t.1.1.1.1 = r.
Proof. unfold joined. repeat case_match; intros [= <-]. done. Qed.

Lemma log_rows_spec q s t :
  t ∈ log_rows ilike q s <-> (exists id, st_requests s !! id = Some t.1.1.1.1) /\ joined s t.1.1.1.1 = Some t /\ selected ilike q t = true.
Proof.
  unfold log_rows. rewrite list_elem_of_filter, list_elem_of_omap. split.
  - intros [Hs (r & Hin & Hj)]. pose proof (joined_row _ _ _ Hj) as Heq. rewrite Heq. by apply rows_spec in Hin.
  - intros (Hr & Hj & Hs). split; [done|]. exists t.1.1.1.1. by rewrite rows_spec.
Qed.

(** The items of a page are taken from the matching requests. *)
Lemma page_items c q s items l :
  ListRequestLogs ilike c q s = Ok items -> l ∈ items -> exists t, t ∈ log_rows ilike q s /\ l = log_of s t.
Proof.
  unfold ListRequestLogs. destruct (cn_fault c); [done|]. intros [= <-] Hin. apply list_elem_of_fmap in Hin as (t & -> & Hin).
  apply elem_of_take in Hin as (i & Hi & _). rewrite lookup_drop in Hi. apply list_elem_of_lookup_2 in Hi as Hj. rewrite merge_sort_Permutation in Hj. by exists t.
Qed.

Lemma selected_user q t u : selected ilike q t = true -> QuUserID q = Some u -> RwUserID t.1.1.1.1 = u.
Proof.
  unfold selected. rewrite !andb_true_iff. intros (((((((Hu & _) & _) & _) & _) & _) & _) & _) Hq. rewrite Hq in Hu.
  by apply bool_decide_eq_true in Hu.
Qed.

Lemma log_user s t : LgUserID (log_of s t) = RwUserID t.1.1.1.1 /\ LgRequestID (log_of s t) = RwID t.1.1.1.1.
Proof. by destruct t as [[[[r u] k] m] p]. Qed.

(** The log is private.  Whoever is not an administrator gets from the
    list of requests only requests of their own, whatever user, key, model,
    pool or search they ask for, the total counts only such requests, and the
    detail of a request is given only to its owner. *)
Theorem logs_are_private c c1 actor query requestID s s1 :
  CanManageUsers actor = false ->
  (forall items total, Service_ListRequestLogs ilike c c1 actor query s s1 = Ok (items, total) ->
     Forall (λ l, LgUserID l = PcUserID actor) items /\
     exists own, total = Z.of_nat (length own) /\ Forall (λ t, RwUserID t.1.1.1.1 = PcUserID actor) own /\
       Forall (λ t, exists id, st_requests s !! id = Some t.1.1.1.1) (own : list (RequestRow * UserRow * KeyRow * ModelRow * PoolRow))) /\
  (forall log attempts, Service_GetRequestLog c c1 actor requestID s s1 = Ok (log, attempts) -> LgUserID log = PcUserID actor).
Proof.
  intros Hm. split.
  - intros items total. unfold Service_ListRequestLogs. destruct (_ || _)%bool; [done|]. rewrite Hm. destruct (_ || _)%bool; [done|].
    set (q := with_user _ _). unfold Repo_ListRequestLogs. destruct (CountRequestLogs _ _ _ _) as [n|] eqn:Hc; [|done].
    destruct (ListRequestLogs _ _ _ _) as [l|] eqn:Hl; [|done]. intros [= <- <-]. split.
    + apply Forall_forall. intros x Hx. destruct (page_items _ _ _ _ _ Hl Hx) as (t & Ht & ->). rewrite (proj1 (log_user s1 t)).
      apply log_rows_spec in Ht as (_ & _ & Hs). by apply (selected_user q).
    + unfold CountRequestLogs in Hc. destruct (cn_fault c); [done|]. injection Hc as <-. exists (log_rows ilike q s). split_and!; [done|..];
        apply Forall_forall; intros t (Hr & _ & Hs)%log_rows_spec; [by apply (selected_user q)|done].
  - intros log attempts. unfold Service_GetRequestLog. destruct (_ || _)%bool; [done|]. rewrite Hm. destruct (negb _); [done|].
    unfold Repo_GetRequestLog, GetRequestLog. destruct (cn_fault c); [done|]. destruct (_ ≫= joined s) as [t|]; [|done].
    cbn [matches_id]. case_bool_decide as Hu; [|done]. destruct (ListRequestLogAttempts _ _ _); [|done]. intros [= <- _].
    by rewrite (proj1 (log_user s t)).
Qed.
End theorems.
