(* ===== verification/RequestDemo.v ===== *)
(** * A small accounting store

    One member with a key and a subscription, one model in one pool with two
    credentials.  The concrete inputs of the theorems about the store are
    evaluated here. *)

From S2P Require Import Prelude GoStrings Canonical Capabilities CapabilitiesProps Capacity Effects Monitor Workflow WorkflowProps.
From S2P Require Import Sql RequestTable RequestStore RequestHistory RequestProps RequestAcceptance CredentialHealth StoreEnv StoreProps.
From S2P Require Import RecoveryProps RequestLogs.

Local Open Scope Z_scope.

(** ** The tables *)

Definition demo_key : KeyRow := mkKeyRow "user" "sk-" None None.
Definition demo_user : UserRow := mkUserRow UserMember UserActive "Ada" "ada@example.org".
Definition demo_pool : PoolRow := mkPoolRow "provider" "Pool" "pool" ResourceActive.
Definition demo_subscription (status : SubscriptionStatus) : SubscriptionRow := mkSubscriptionRow "user" "plan" status 10 None 5.
Definition demo_model_row : ModelRow := mkModelRow "provider" "public" "upstream" "{}" 1.

Definition demo_directory (status : SubscriptionStatus) : Directory :=
  mkDirectory {[ "user" := demo_user ]} {[ "key" := demo_key ]} {[ ("key", "model") := "pool" ]}
    {[ "subscription" := demo_subscription status ]} {[ ("plan", "model", "pool") ]} {[ "pool" := demo_pool ]}
    {[ "model" := demo_model_row ]} {[ "provider" := mkProviderRow "Provider" "slug" "kimi" "https://example.org" ]} ∅
    {[ ("c1", "model"); ("c2", "model") ]}.

Definition demo_credential_row (id : UUID) (h : HealthStatus) (g : Z) (cooldown : option Z) : CredentialRow :=
  mkCredentialRow id "pool" id [] id ResourceActive h g None None None 1 1 None cooldown 0 None None None None None None None None 1 1.

Definition demo_store : Store :=
  mkStore ∅ ∅ {[ "c1" := demo_credential_row "c1" HealthHealthy 0 None; "c2" := demo_credential_row "c2" HealthHealthy 0 None ]}
    (demo_directory SubscriptionActive).

Definition demo_conn (now : Z) : Conn := mkConn now None (λ _, false).
Definition demo_tx (now : Z) : Tx := mkTx now None (λ _, None) (λ _, false) Committed.
Definition demo_txs (now : Z) : nat -> Tx := λ _, demo_tx now.
Definition demo_digest : string := "0123456789abcdef0123456789abcdef".
Definition demo_input (id : UUID) (key : option string) (stream : bool) : AcceptInput :=
  mkAcceptInput id "user" "key" "model" stream demo_digest key.

Lemma demo_smooth now : smooth (demo_tx now).
Proof. done. Qed.

Lemma demo_coherent credentials d : coherent (mkStore ∅ ∅ credentials d).
Proof. split; simpl; intros *; by rewrite lookup_empty. Qed.

(** A request is accepted, claimed, attempted and completed; another is only
    accepted. *)
Definition demo_claim : Claim := mkClaim "r1" "e1" 1.
Definition demo_update (st : AttemptStatus) (u : option Usage) : AttemptUpdate :=
  mkAttemptUpdate st None None None None None None (Some 50) u None.

Definition demo_begin : list Call :=
  [CAccept (demo_txs 20) (demo_input "r1" None false); CClaim (demo_conn 21) "r1" "e1";
   CCreateAttempt (demo_conn 22) "a1" demo_claim "c1" 1; CUpdateAttempt (demo_tx 23) demo_claim "a1" (demo_update StSending None)].
Definition demo_usage : Usage := mkUsage 3 4 UsageAuthoritative.
Definition demo_finish : list Call :=
  [CUpdateAttempt (demo_tx 24) demo_claim "a1" (demo_update StCompleted (Some demo_usage));
   CComplete (demo_tx 25) demo_claim demo_usage; CFail (demo_tx 26) demo_claim "late" ""].

Example demo_story :
  (RwStatus <$> st_requests (history demo_begin demo_store) !! "r1",
   AtStatus <$> st_attempts (history demo_begin demo_store) !! "a1",
   RwStatus <$> st_requests (history demo_finish (history demo_begin demo_store)) !! "r1",
   AtInputTokens <$> st_attempts (history demo_finish (history demo_begin demo_store)) !! "a1") =
  (Some RequestDispatching, Some AttemptSending, Some RequestCompleted, Some (Some 3)).
Proof. vm_compute. reflexivity. Qed.

(** ** Requests *)

Lemma request_settles_once_witness :
  exists r', st_requests (history demo_finish (history demo_begin demo_store)) !! "r1" = Some r' /\ RwStatus r' = RequestCompleted /\
    settles (actor (CComplete (demo_tx 25) demo_claim demo_usage)) (history demo_begin demo_store) "r1"
      (default (accepted_row (demo_input "r1" None false) 0 "" None) (st_requests (history demo_begin demo_store) !! "r1")).
Proof.
  destruct (st_requests (history demo_begin demo_store) !! "r1") as [r|] eqn:Hr; [|by vm_compute in Hr].
  destruct (request_settles_once demo_finish (CComplete (demo_tx 25) demo_claim demo_usage) (history demo_begin demo_store) "r1" r
    (history_coherent _ _ (demo_coherent _ _)) Hr) as [(r' & Hr' & Ha) Hs].
  exists r'. split; [exact Hr'|]. split; [vm_compute in Hr'; by injection Hr' as <-|]. simpl.
  destruct (st_requests (exec (CComplete (demo_tx 25) demo_claim demo_usage) (history demo_begin demo_store)) !! "r1") as [q|] eqn:Hq;
    [|by vm_compute in Hq].
  apply (Hs q Hq); [vm_compute in Hr; injection Hr as <-; reflexivity|vm_compute in Hq; injection Hq as <-; reflexivity].
Defined.

Lemma claims_exclusive_witness :
  (Repo_ClaimExecution (demo_conn 30) "r1" "e1" (history [CHeartbeat (demo_conn 29) demo_claim]
     (exec (CClaim (demo_conn 21) "r1" "e1") (exec (CAccept (demo_txs 20) (demo_input "r1" None false)) demo_store)))).1 = Ok demo_claim /\
  (Repo_ClaimExecution (demo_conn 30) "r1" "e2"
     (exec (CClaim (demo_conn 21) "r1" "e1") (exec (CAccept (demo_txs 20) (demo_input "r1" None false)) demo_store))).1 = Err ErrNotClaimable.
Proof.
  split; [|vm_compute; reflexivity].
  set (s := exec (CAccept (demo_txs 20) (demo_input "r1" None false)) demo_store).
  assert (Hs : coherent s) by exact (exec_coherent _ demo_store (demo_coherent _ _)).
  destruct (Repo_ClaimExecution (demo_conn 21) "r1" "e1" s) as [[c1|e] s1] eqn:H1; [|by vm_compute in H1].
  assert (Hc1 : c1 = demo_claim) by (vm_compute in H1; by injection H1 as <- _).
  change (exec (CClaim (demo_conn 21) "r1" "e1") s) with (Repo_ClaimExecution (demo_conn 21) "r1" "e1" s).2. rewrite H1. cbn [snd].
  destruct (Repo_ClaimExecution (demo_conn 30) "r1" "e1" (history [CHeartbeat (demo_conn 29) demo_claim] s1)) as [[c2|e] s2] eqn:H2.
  - cbn [fst]. f_equal. rewrite <- Hc1. exact (claims_exclusive _ _ _ _ _ _ _ _ _ _ _ Hs H1 H2).
  - exfalso. assert (Hs1 : s1 = (Repo_ClaimExecution (demo_conn 21) "r1" "e1" s).2) by by rewrite H1. rewrite Hs1 in H2.
    apply (f_equal fst) in H2. vm_compute in H2. discriminate H2.
Defined.

Lemma attempts_are_final_witness :
  exists a', st_attempts (history [CFail (demo_tx 26) demo_claim "late" ""; CUpdateAttempt (demo_tx 27) demo_claim "a1" (demo_update StFailed None)]
      (history demo_finish (history demo_begin demo_store))) !! "a1" = Some a' /\
    AtInputTokens a' = Some 3 /\ AtStatus a' = AttemptCompleted.
Proof.
  set (s := history demo_finish (history demo_begin demo_store)).
  destruct (st_attempts s !! "a1") as [a|] eqn:Ha; [|by vm_compute in Ha].
  destruct (attempts_are_final [CFail (demo_tx 26) demo_claim "late" ""; CUpdateAttempt (demo_tx 27) demo_claim "a1" (demo_update StFailed None)]
    s "a1" a (history_coherent _ _ (history_coherent _ _ (demo_coherent _ _))) Ha) as (a' & Ha' & Hadv).
  exists a'. split; [exact Ha'|]. vm_compute in Ha. injection Ha as <-. rewrite (aa_closed _ _ Hadv eq_refl).
  split; reflexivity.
Defined.

(** ** Acceptance *)

Lemma demo_directory_ok status : directory_ok (demo_directory status).
Proof.
  intros keyID modelID pool H. simpl in *. apply lookup_singleton_Some in H as [[= <- <-] <-].
  rewrite !lookup_singleton_eq. split; eauto.
Qed.


(** The key is repeated with spaces around it, for another request
    identifier, after the first request was claimed. *)
Lemma acceptance_idempotent_witness :
  exists r, Service_AcceptRequest (demo_txs 40) (demo_input "r2" (Some " once ") false)
      (history [CClaim (demo_conn 21) "r1" "e1"] (exec (CAccept (demo_txs 20) (demo_input "r1" (Some "once") false)) demo_store)) =
    (Ok (mkAcceptedRequest (requestFromDB r) true),
     history [CClaim (demo_conn 21) "r1" "e1"] (exec (CAccept (demo_txs 20) (demo_input "r1" (Some "once") false)) demo_store)) /\
    RwID r = "r1".
Proof.
  simpl. destruct (Service_AcceptRequest (demo_txs 20) (demo_input "r1" (Some "once") false) demo_store) as [[a|e] s1] eqn:Ha;
    [|by vm_compute in Ha].
  destruct (acceptance_idempotent (demo_txs 20) (demo_input "r1" (Some "once") false) demo_store a s1 [CClaim (demo_conn 21) "r1" "e1"]
    (demo_txs 40) (demo_input "r2" (Some " once ") false) "once" (demo_coherent _ _) Ha eq_refl eq_refl eq_refl eq_refl (demo_smooth 40))
    as (r & _ & Hid & Hs).
  exists r. split; [exact Hs|]. rewrite Hid. vm_compute in Ha. injection Ha as <- _. reflexivity.
Defined.

(** A scheduled subscription whose start has passed covers a request, but the
    model it covers is not listed for the key. *)
Example scheduled_unlisted :
  match Service_AcceptRequest (demo_txs 20) (demo_input "r1" None false) (mkStore ∅ ∅ ∅ (demo_directory SubscriptionScheduled)) with
  | (Ok a, _) => UqSubscriptionID (AqRequest a)
  | _ => None
  end = Some "subscription" /\
  listed_for_key (demo_directory SubscriptionScheduled) 20 "key" "model" = false /\
  listed_for_key (demo_directory SubscriptionActive) 20 "key" "model" = true.
Proof. vm_compute. done. Qed.

(** ** Credentials *)

Definition cooling_store : Store :=
  mkStore ∅ ∅ {[ "c1" := demo_credential_row "c1" HealthCooling 4 (Some 10) ]} (demo_directory SubscriptionActive).

(** A late observation of the request that failed and another request asking
    for the permit. *)
Definition demo_meanwhile : list CredentialCall :=
  [KObserve (demo_conn 31) "c1" (mkCredentialObservation CredentialSucceeded 4 31 None None); KPermit (demo_conn 32) "c1"].

Lemma probe_is_exclusive_witness :
  exists s1, Repo_AcquireCredentialHealthPermit (demo_conn 30) "c1" cooling_store = (Ok 5, s1) /\
    out_of_service "c1" (credential_history demo_meanwhile s1).
Proof.
  destruct (Repo_AcquireCredentialHealthPermit (demo_conn 30) "c1" cooling_store) as [[g|e] s1] eqn:Hp; [|by vm_compute in Hp].
  assert (g = 5) as -> by (vm_compute in Hp; by injection Hp as <- _).
  exists s1. split; [reflexivity|].
  apply (probe_is_exclusive (demo_conn 30) "c1" cooling_store (demo_credential_row "c1" HealthCooling 4 (Some 10)) 5 s1 demo_meanwhile
    eq_refl); [done|exact Hp|]. repeat constructor.
Defined.

Definition probing_store : Store :=
  mkStore ∅ ∅ {[ "c1" := demo_credential_row "c1" HealthProbing 5 (Some 10) ]} (demo_directory SubscriptionActive).

Lemma uncertain_probe_never_ends_witness :
  out_of_service "c1" (credential_history demo_meanwhile
    (Repo_MarkExecutionUncertain (demo_tx 30) demo_claim "a1" (demo_update StUncertain None) "uncertain" "" probing_store).2).
Proof.
  apply (uncertain_probe_never_ends _ _ _ _ _ _ probing_store "c1" (demo_credential_row "c1" HealthProbing 5 (Some 10)) demo_meanwhile
    eq_refl eq_refl). repeat constructor.
Defined.

(** ** The workflow over the store *)

#[local] Existing Instances demo_env demo_lawful.

Definition demo_plan (w : nat) : Outside :=
  mkOutside (demo_conn 1000) (demo_txs 1000) (match w with O => "a1" | _ => "a2" end) [].

Definition demo_gateway : St (Gateway nat) := mkSt (mkGateway 0%nat demo_store) [].

Definition demo_call (stream : bool) : ChatCommand :=
  mkChatCommand "key" "user" (CmRequest (demo_command stream)) demo_digest None "request" false false.

Definition demo_decode (_ : string) : result GoError ModelCapabilities := Ok demo_capabilities.

Definition stored_chat : option (result Error ChatResult) * St (Gateway nat) :=
  @Chat (Gateway nat) (GatewayEnv demo_plan demo_decode) demo_service (demo_call false) demo_gateway.

Example stored_chat_run :
  match stored_chat with
  | (Some (Ok res), st) => Some (CrsRequestID res, RwStatus <$> st_requests (gw_store (world st)) !! "request")
  | _ => None
  end = Some ("request", Some RequestCompleted).
Proof. vm_compute. reflexivity. Qed.

(** The row of the request holds the usage of the answer. *)
Lemma results_are_recorded_witness :
  exists res cl, stored_chat.1 = Some (Ok res) /\ CrsRequestID res = "request" /\
    recorded cl (responseUsage (CmRequest (demo_call false)) (CrsResponse res))
      (history [CFail (demo_tx 2000) (mkClaim "request" "execution" 1) "late" ""] (gw_store (world stored_chat.2))).
Proof.
  assert (Hid : match stored_chat.1 with Some (Ok res) => CrsRequestID res | _ => "" end = "request") by (vm_compute; reflexivity).
  destruct stored_chat as [r st] eqn:Hs. destruct r as [[res|e]|]; [|discriminate Hid..]. cbn [fst snd] in *.
  set (later := [CFail (demo_tx 2000) (mkClaim "request" "execution" 1) "late" ""]).
  destruct (results_are_recorded demo_plan demo_decode demo_service (demo_call false) 5%nat true demo_gateway later
    (demo_coherent _ _)) as [H _].
  destruct (H res st Hs) as (cl & Hcl & Hrec). exists res, cl. split; [reflexivity|]. split; [exact Hid|].
  exact Hrec.
Defined.

(** ** The recovery *)

(** A request whose completion was recorded but which was not completed, one
    that was left running, one nobody claimed, and one that is being served. *)
Definition stale_calls : list Call :=
  demo_begin ++
  [CUpdateAttempt (demo_tx 24) demo_claim "a1" (demo_update StCompleted (Some demo_usage));
   CAccept (demo_txs 25) (demo_input "r2" None false); CClaim (demo_conn 26) "r2" "e2";
   CAccept (demo_txs 27) (demo_input "r3" None false);
   CAccept (demo_txs 1000) (demo_input "r4" None false); CClaim (demo_conn 1001) "r4" "e4"].

Definition stale_store : Store := history stale_calls demo_store.

Definition status_of (s : Store) (id : UUID) : option RequestStatus := RwStatus <$> st_requests s !! id.

Example recovery_run :
  match @RecoverOnce (Gateway nat) (GatewayEnv demo_plan demo_decode) 500 100 (mkSt (mkGateway 0%nat stale_store) []) with
  | (Some (res, errs), st) => Some (res, errs, status_of (store st) <$> ["r1"; "r2"; "r3"; "r4"])
  | _ => None
  end = Some (mkRecoveryResult 1 1 1, [],
    [Some RequestCompleted; Some RequestUncertain; Some RequestFailed; Some RequestDispatching]).
Proof. vm_compute. reflexivity. Qed.

Definition fits (a : AttemptRow) : bool :=
  match AtInputTokens a, AtOutputTokens a with
  | Some input, Some output => negb (completed_with_usage a) || validKnownUsage input output (AtUsageSource a)
  | _, _ => true
  end%bool.

Definition row_sound (s : Store) (r : RequestRow) : bool :=
  (request_refers s ∅ r && negb (bool_decide (RwID r = uuid_Nil)) && negb (bool_decide (RwExecutionID r = Some uuid_Nil)))%bool.

Lemma row_sound_spec s r : row_sound s r = true -> refers_to (st_dir s) r /\ named r.
Proof.
  unfold row_sound, request_refers, exists_in, refers_to, named. rewrite !andb_true_iff, !negb_true_iff, !bool_decide_eq_true, !bool_decide_eq_false.
  intros [[(((((Hu & Hk) & Hm) & Hp) & Hq) & _) Hn] Hx]. split_and!; try done. intros q Hs. rewrite Hs in Hq. by apply bool_decide_eq_true in Hq.
Qed.

Lemma sound_store s :
  coherent s -> forallb (row_sound s) (rows (st_requests s)) = true -> forallb fits (rows (st_attempts s)) = true ->
  sound s /\ records_fit s.
Proof.
  rewrite !forallb_forall. intros Hco Hr Ha.
  assert (Hrow : forall id r, st_requests s !! id = Some r -> refers_to (st_dir s) r /\ named r).
  { intros id r Hid. apply row_sound_spec, Hr, list_elem_of_In, rows_spec. by exists id. }
  split; [split; [done|..]; intros id r Hid; by destruct (Hrow id r Hid)|].
  intros id a input output Hid Hc Hi Ho. assert (Hf : fits a = true) by (apply Ha, list_elem_of_In, rows_spec; by exists id).
  unfold fits in Hf. by rewrite Hi, Ho, Hc in Hf.
Qed.

Lemma stale_sound : sound stale_store /\ records_fit stale_store.
Proof. apply sound_store; [exact (history_coherent stale_calls demo_store (demo_coherent _ _))|vm_compute; reflexivity..]. Qed.

Lemma demo_quiet w : quiet (demo_plan w).
Proof. by split_and!. Qed.


(** ** The log *)

Definition demo_query (userID : option UUID) : RequestLogQuery :=
  mkRequestLogQuery userID None None None "" "" 1 2000 (mkPage 0 50).

(** Another member asks for the requests of all users. *)
Definition stranger : Principal := mkPrincipal "eve" UserMember UserActive.
Definition owner : Principal := mkPrincipal "user" UserMember UserActive.
Definition no_match (_ _ : string) : bool := false.

Lemma logs_are_private_witness :
  (exists items total, Service_ListRequestLogs no_match (demo_conn 50) (demo_conn 50) owner (demo_query None) stale_store stale_store =
     Ok (items, total) /\ length items = 4%nat /\ Forall (λ l, LgUserID l = PcUserID owner) items) /\
  (exists items total, Service_ListRequestLogs no_match (demo_conn 50) (demo_conn 50) stranger (demo_query None) stale_store stale_store =
     Ok (items, total) /\ total = 0 /\ Forall (λ l, LgUserID l = PcUserID stranger) items).
Proof.
  split.
  - destruct (logs_are_private no_match (demo_conn 50) (demo_conn 50) owner (demo_query None) "r1" stale_store stale_store eq_refl) as [H _].
    destruct (Service_ListRequestLogs no_match (demo_conn 50) (demo_conn 50) owner (demo_query None) stale_store stale_store)
      as [[items total]|e] eqn:Hl; [|vm_compute in Hl; discriminate Hl].
    exists items, total. split; [reflexivity|]. destruct (H items total eq_refl) as [Hall _]. split; [|exact Hall].
    vm_compute in Hl. injection Hl as <- _. reflexivity.
  - destruct (logs_are_private no_match (demo_conn 50) (demo_conn 50) stranger (demo_query None) "r1" stale_store stale_store eq_refl) as [H _].
    destruct (Service_ListRequestLogs no_match (demo_conn 50) (demo_conn 50) stranger (demo_query None) stale_store stale_store)
      as [[items total]|e] eqn:Hl; [|vm_compute in Hl; discriminate Hl].
    exists items, total. split; [reflexivity|]. destruct (H items total eq_refl) as [Hall _]. split; [|exact Hall].
    vm_compute in Hl. injection Hl as _ <-. reflexivity.
Defined.
