(* ===== verification/Password.v ===== *)
(** * Passwords and tokens

    Base64 without padding, then [src/internal/security/password.go] and
    [token.go], then their theorems.

    Go's [encoding/base64] as the code uses it: [RawStdEncoding] and
    [RawURLEncoding] to encode, and their [Strict] versions to decode.  A
    decoder skips carriage returns and line feeds; [Strict] asks for the unused
    bits of the last character to be zero. *)

From S2P Require Import Prelude GoStrings Envelope.

Local Open Scope Z_scope.

(** ** Alphabets *)

Inductive Alphabet := StdAlphabet | UrlAlphabet.

Definition last_two (a : Alphabet) : ascii * ascii :=
  match a with StdAlphabet => ("+", "/")%char | UrlAlphabet => ("-", "_")%char end.

Definition char_of (a : Alphabet) (v : Z) : ascii :=
  if v <? 26 then byte_of (65 + v)
  else if v <? 52 then byte_of (71 + v)
  else if v <? 62 then byte_of (v - 4)
  else if v =? 62 then (last_two a).1 else (last_two a).2.

Definition value_of (a : Alphabet) (c : ascii) : option Z :=
  if between 65 90 (code c) then Some (code c - 65)
  else if between 97 122 (code c) then Some (code c - 71)
  else if between 48 57 (code c) then Some (code c + 4)
  else if bool_decide (c = (last_two a).1) then Some 62
  else if bool_decide (c = (last_two a).2) then Some 63
  else None.

(** ** Encoding and decoding *)

Fixpoint EncodeToString (a : Alphabet) (b : bytes) : string :=
  match b with
  | [] => ""
  | [x] => let v := code x in String (char_of a (v / 4)) (String (char_of a (v `mod` 4 * 16)) "")
  | [x; y] =>
      let v := code x * 256 + code y in
      String (char_of a (v / 1024)) (String (char_of a ((v / 16) `mod` 64)) (String (char_of a (v `mod` 16 * 4)) ""))
  | x :: y :: z :: b' =>
      let v := code x * 65536 + code y * 256 + code z in
      String (char_of a (v / 262144)) (String (char_of a ((v / 4096) `mod` 64))
        (String (char_of a ((v / 64) `mod` 64)) (String (char_of a (v `mod` 64)) (EncodeToString a b'))))
  end.

(** The values of the characters that count. *)
Fixpoint sextets (a : Alphabet) (s : string) : option (list Z) :=
  match s with
  | EmptyString => Some []
  | String c s' =>
      if (bool_decide (c = byte 10) || bool_decide (c = byte 13))%bool then sextets a s'
      else v ← value_of a c; l ← sextets a s'; Some (v :: l)
  end.

Fixpoint join_sextets (l : list Z) : option bytes :=
  match l with
  | [] => Some []
  | [_] => None
  | [v; w] => if w `mod` 16 =? 0 then Some [byte_of (v * 4 + w / 16)] else None
  | [v; w; x] =>
      if x `mod` 4 =? 0 then Some [byte_of (v * 4 + w / 16); byte_of (w `mod` 16 * 16 + x / 4)] else None
  | v :: w :: x :: y :: l' =>
      b ← join_sextets l';
      Some (byte_of (v * 4 + w / 16) :: byte_of (w `mod` 16 * 16 + x / 4) :: byte_of (x `mod` 4 * 64 + y) :: b)
  end.

Definition DecodeString (a : Alphabet) (s : string) : option bytes := l ← sextets a s; join_sextets l.

(** [RawURLEncoding.EncodedLen] *)
Definition EncodedLen (n : Z) : Z := n / 3 * 4 + (n `mod` 3 * 8 + 5) / 6.

(** ** What was encoded is decoded *)

(** Arithmetic with quotients and remainders of constants. *)
Ltac sextet := Z.div_mod_to_equations; lia.

Lemma value_char_all a : forallb (λ v, bool_decide (value_of a (char_of a v) = Some v) &&
    negb (bool_decide (char_of a v = byte 10)) && negb (bool_decide (char_of a v = byte 13)))%bool (seqZ 0 64) = true.
Proof. by destruct a; vm_compute. Qed.

Lemma value_char a v : 0 <= v < 64 -> value_of a (char_of a v) = Some v /\ char_of a v <> byte 10 /\ char_of a v <> byte 13.
Proof.
  intros Hv. pose proof (value_char_all a) as H. rewrite forallb_forall in H. specialize (H v).
  rewrite <- list_elem_of_In, elem_of_seqZ in H. specialize (H ltac:(lia)).
  rewrite !andb_true_iff, !negb_true_iff, bool_decide_eq_true, !bool_decide_eq_false in H. naive_solver.
Qed.

Lemma sextets_char a v s : 0 <= v < 64 -> sextets a (String (char_of a v) s) = (l ← sextets a s; Some (v :: l)).
Proof.
  intros Hv. destruct (value_char a v Hv) as (Hval & H1 & H2). simpl.
  rewrite !bool_decide_eq_false_2 by done. simpl. by rewrite Hval.
Qed.

(** Induction on three bytes at a time. *)
Lemma bytes_ind3 (P : bytes -> Prop) :
  P [] -> (forall x, P [x]) -> (forall x y, P [x; y]) -> (forall x y z b, P b -> P (x :: y :: z :: b)) -> forall b, P b.
Proof.
  intros H0 H1 H2 H3. fix IH 1. intros [|x [|y [|z b]]]; [done|apply H1|apply H2|]. apply H3, IH.
Qed.

Lemma join_char x z : z = code x -> byte_of z = x.
Proof. intros ->. apply byte_of_code. Qed.

Lemma decode_encode a b : DecodeString a (EncodeToString a b) = Some b.
Proof.
  unfold DecodeString. induction b as [|x|x y|x y z b IH] using bytes_ind3; [done|..]; cbn [EncodeToString].
  - pose proof (code_range x). rewrite !sextets_char by sextet. cbn [mbind option_bind sextets join_sextets].
    destruct (_ =? 0) eqn:E; [|apply Z.eqb_neq in E; sextet]. do 2 f_equal. apply join_char; sextet.
  - pose proof (code_range x). pose proof (code_range y). rewrite !sextets_char by sextet. cbn [mbind option_bind sextets join_sextets].
    destruct (_ =? 0) eqn:E; [|apply Z.eqb_neq in E; sextet]. do 2 f_equal; [|f_equal]; apply join_char; sextet.
  - pose proof (code_range x). pose proof (code_range y). pose proof (code_range z). rewrite !sextets_char by sextet.
    destruct (sextets a (EncodeToString a b)) as [l|]; [|done]. cbn [mbind option_bind join_sextets] in *. rewrite IH. cbn [mbind option_bind].
    do 2 f_equal; [|f_equal; [|f_equal]]; apply join_char; sextet.
Qed.

Lemma encode_length a b : Z.of_nat (String.length (EncodeToString a b)) = EncodedLen (Z.of_nat (length b)).
Proof.
  induction b as [|x|x y|x y z b IH] using bytes_ind3; [done..|]. cbn [EncodeToString String.length length].
  rewrite !Nat2Z.inj_succ, IH. unfold EncodedLen. sextet.
Qed.

(** The characters of an encoding. *)
Fixpoint all_chars (p : ascii -> bool) (s : string) : bool :=
  match s with EmptyString => true | String c s' => (p c && all_chars p s')%bool end.

Definition alphabetic (a : Alphabet) (c : ascii) : bool := match value_of a c with Some _ => true | None => false end.

Lemma encode_chars a b : all_chars (alphabetic a) (EncodeToString a b) = true.
Proof.
  assert (Hc : forall v, 0 <= v < 64 -> alphabetic a (char_of a v) = true).
  { intros v Hv. unfold alphabetic. by rewrite (proj1 (value_char a v Hv)). }
  induction b as [|x|x y|x y z b IH] using bytes_ind3; [done|..]; cbn [EncodeToString all_chars].
  - pose proof (code_range x). by rewrite !Hc by sextet.
  - pose proof (code_range x). pose proof (code_range y). by rewrite !Hc by sextet.
  - pose proof (code_range x). pose proof (code_range y). pose proof (code_range z). by rewrite !Hc by sextet.
Qed.

(** * Passwords and tokens

    Models [src/internal/security/password.go] and [token.go]: the encoded form
    of a password hash with its parameters, verification, and digests of
    tokens.  Argon2, HMAC-SHA256 and the random source are arguments. *)

(** ** Text of numbers, splitting *)

Fixpoint print_digits (fuel : nat) (n : Z) (rest : string) : string :=
  match fuel with
  | O => rest
  | S f =>
      let rest := String (byte_of (48 + n `mod` 10)) rest in
      if n <? 10 then rest else print_digits f (n / 10) rest
  end.

(** [%d] of an unsigned number of at most 64 bits, which has at most 20 digits. *)
Definition print_uint (n : Z) : string := print_digits 20 n "".

Fixpoint digits_value (acc : Z) (s : string) : option Z :=
  match s with
  | EmptyString => Some acc
  | String c s' => if between 48 57 (code c) then digits_value (acc * 10 + (code c - 48)) s' else None
  end.

(** [strconv.ParseUint(s, 10, bitSize)] *)
Definition ParseUint (s : string) (bitSize : Z) : option Z :=
  if bool_decide (s = "") then None
  else match digits_value 0 s with Some n => if n <? 2 ^ bitSize then Some n else None | None => None end.

(** [strings.Split] by one character. *)
Fixpoint Split (s : string) (sep : ascii) : list string :=
  match s with
  | EmptyString => [""]
  | String c s' =>
      if bool_decide (c = sep) then "" :: Split s' sep
      else match Split s' sep with [] => [String c ""] | p :: l => String c p :: l end
  end.

Fixpoint strip_prefix (p s : string) : option string :=
  match p, s with
  | EmptyString, _ => Some s
  | String a p', String b s' => if bool_decide (a = b) then strip_prefix p' s' else None
  | String _ _, EmptyString => None
  end.

(** ** password.go *)

Definition minimumPasswordMemoryKiB : Z := 19 * 1024.
Definition maximumPasswordMemoryKiB : Z := 256 * 1024.
Definition maximumPasswordIterations : Z := 10.
Definition maximumPasswordParallelism : Z := 16.
Definition maximumPasswordOutputBytes : Z := 64.
Definition maximumEncodedPasswordBytes : Z := 1024.

Inductive PasswordError :=
| ErrInvalidPasswordParameters (detail : string) | ErrInvalidPasswordHash | ErrUnsupportedPasswordHash | SaltFailed (e : string).

Record PasswordParameters := mkPasswordParameters {
  MemoryKiB : Z;
  Iterations : Z;
  Parallelism : Z;
  SaltBytes : Z;
  OutputBytes : Z;
}.

Definition RecommendedPasswordParameters : PasswordParameters := mkPasswordParameters (64 * 1024) 3 2 16 32.

Definition Validate (p : PasswordParameters) : option PasswordError :=
  if ((MemoryKiB p <? minimumPasswordMemoryKiB) || (maximumPasswordMemoryKiB <? MemoryKiB p))%bool then
    Some (ErrInvalidPasswordParameters "memory must be between 19456 and 262144 KiB")
  else if ((Iterations p <? 2) || (maximumPasswordIterations <? Iterations p))%bool then
    Some (ErrInvalidPasswordParameters "iterations must be between 2 and 10")
  else if ((Parallelism p =? 0) || (maximumPasswordParallelism <? Parallelism p))%bool then
    Some (ErrInvalidPasswordParameters "parallelism must be between 1 and 16")
  else if ((SaltBytes p <? 16) || (maximumPasswordOutputBytes <? SaltBytes p))%bool then
    Some (ErrInvalidPasswordParameters "salt must be between 16 and 64 bytes")
  else if ((OutputBytes p <? 32) || (maximumPasswordOutputBytes <? OutputBytes p))%bool then
    Some (ErrInvalidPasswordParameters "output must be between 32 and 64 bytes")
  else None.

Record PasswordVerification := mkPasswordVerification { Match_ : bool; NeedsUpgrade : bool; VerifiedParameters : PasswordParameters }.

(** [argon2.Version] *)
Definition argon2_Version : Z := 19.

Definition encodePasswordHash (p : PasswordParameters) (salt hash : bytes) : string :=
  "$argon2id$v=" +:+ print_uint argon2_Version +:+ "$m=" +:+ print_uint (MemoryKiB p) +:+ ",t=" +:+ print_uint (Iterations p) +:+
  ",p=" +:+ print_uint (Parallelism p) +:+ "$" +:+ EncodeToString StdAlphabet salt +:+ "$" +:+ EncodeToString StdAlphabet hash.

Definition validateStoredPasswordParameters (p : PasswordParameters) : option PasswordError :=
  if ((MemoryKiB p <? 8 * 1024) || (maximumPasswordMemoryKiB <? MemoryKiB p) ||
      (Iterations p =? 0) || (maximumPasswordIterations <? Iterations p) ||
      (Parallelism p =? 0) || (maximumPasswordParallelism <? Parallelism p) ||
      (SaltBytes p <? 8) || (maximumPasswordOutputBytes <? SaltBytes p) ||
      (OutputBytes p <? 16) || (maximumPasswordOutputBytes <? OutputBytes p))%bool
  then Some ErrInvalidPasswordHash else None.

Definition parseNamedUint (value name : string) (bitSize : Z) : option Z :=
  match strip_prefix (name +:+ "=") value with Some digits => ParseUint digits bitSize | None => None end.

(** The parameter part, [m=...,t=...,p=...]. *)
Definition parseParameters (part : string) : option (Z * Z * Z) :=
  match Split part "," with
  | [m; t; p] =>
      memoryKiB ← parseNamedUint m "m" 32;
      iterations ← parseNamedUint t "t" 32;
      parallelism ← parseNamedUint p "p" 8;
      Some (memoryKiB, iterations, parallelism)
  | _ => None
  end.

Definition parsePasswordHash (encodedHash : string) : result PasswordError (PasswordParameters * bytes * bytes) :=
  if (bool_decide (encodedHash = "") || (maximumEncodedPasswordBytes <? Z.of_nat (String.length encodedHash)))%bool then
    Err ErrInvalidPasswordHash
  else
    match Split encodedHash "$" with
    | [p0; p1; p2; p3; p4; p5] =>
        if negb (bool_decide (p0 = "")) then Err ErrInvalidPasswordHash
        else if negb (bool_decide (p1 = "argon2id")) then Err ErrUnsupportedPasswordHash
        else
          match parseNamedUint p2 "v" 8 with
          | None => Err ErrInvalidPasswordHash
          | Some version =>
              if negb (version =? argon2_Version) then Err ErrUnsupportedPasswordHash
              else
                match parseParameters p3, DecodeString StdAlphabet p4, DecodeString StdAlphabet p5 with
                | Some (memoryKiB, iterations, parallelism), Some salt, Some expected =>
                    let stored :=
                      mkPasswordParameters memoryKiB iterations parallelism (Z.of_nat (length salt)) (Z.of_nat (length expected)) in
                    match validateStoredPasswordParameters stored with
                    | Some e => Err e
                    | None => Ok (stored, salt, expected)
                    end
                | _, _, _ => Err ErrInvalidPasswordHash
                end
          end
    | _ => Err ErrInvalidPasswordHash
    end.

Definition passwordParametersNeedUpgrade (stored target : PasswordParameters) : bool :=
  ((MemoryKiB stored <? MemoryKiB target) || (Iterations stored <? Iterations target) ||
   (Parallelism stored <? Parallelism target) || (SaltBytes stored <? SaltBytes target) ||
   (OutputBytes stored <? OutputBytes target))%bool.

Section passwords.
(** [argon2.IDKey(password, salt, time, memory, threads, keyLen)] *)
Context (IDKey : string -> bytes -> Z -> Z -> Z -> Z -> bytes).

Definition derive (password : string) (salt : bytes) (p : PasswordParameters) : bytes :=
  IDKey password salt (Iterations p) (MemoryKiB p) (Parallelism p) (OutputBytes p).

Definition HashPassword (random : nat -> result string bytes) (password : string) (p : PasswordParameters) :
    result PasswordError string :=
  match Validate p with
  | Some e => Err e
  | None =>
      match random (Z.to_nat (SaltBytes p)) with
      | Err e => Err (SaltFailed e)
      | Ok salt => Ok (encodePasswordHash p salt (derive password salt p))
      end
  end.

Definition VerifyPassword (password encodedHash : string) (target : PasswordParameters) : result PasswordError PasswordVerification :=
  match Validate target with
  | Some e => Err e
  | None =>
      let? (stored, salt, expected) := parsePasswordHash encodedHash in
      let actual := derive password salt stored in
      let matches := bool_decide (actual = expected) in
      Ok (mkPasswordVerification matches (matches && passwordParametersNeedUpgrade stored target) stored)
  end.
End passwords.

(** ** token.go *)

Definition TokenEntropyBytes : nat := 32.
Definition MinimumHMACKeyBytes : nat := 32.

Inductive TokenError := ErrWeakHMACKey | ErrInvalidDigest | ErrTokenGeneration (cause : string).

Definition GenerateToken (random : nat -> result string bytes) : result TokenError string :=
  match random TokenEntropyBytes with
  | Err e => Err (ErrTokenGeneration e)
  | Ok randomBytes => Ok (EncodeToString UrlAlphabet randomBytes)
  end.

Section tokens.
Context (hmac_sha256 : bytes -> bytes -> bytes).

Definition HMACSHA256 (key value : bytes) : result TokenError bytes :=
  if (length key <? MinimumHMACKeyBytes)%nat then Err ErrWeakHMACKey else Ok (hmac_sha256 key value).

Definition VerifyHMACSHA256 (key value expected : bytes) : result TokenError bool :=
  let? actual := HMACSHA256 key value in
  Ok (bool_decide (actual = expected)).

Definition Encode (digest : bytes) : string := EncodeToString UrlAlphabet digest.

Definition ParseHMACDigest (encoded : string) : result TokenError bytes :=
  if negb (Z.of_nat (String.length encoded) =? EncodedLen 32) then Err ErrInvalidDigest
  else
    match DecodeString UrlAlphabet encoded with
    | Some decoded => if (length decoded =? 32)%nat then Ok decoded else Err ErrInvalidDigest
    | None => Err ErrInvalidDigest
    end.

Definition DigestToken (token : string) (pepper : bytes) : result TokenError string :=
  let? digest := HMACSHA256 pepper (String.list_ascii_of_string token) in
  Ok (Encode digest).

Definition VerifyTokenDigest (token : string) (pepper : bytes) (encodedDigest : string) : result TokenError bool :=
  let? digest := ParseHMACDigest encodedDigest in
  VerifyHMACSHA256 pepper (String.list_ascii_of_string token) digest.
End tokens.

(** * Theorems about passwords and tokens

    A hash that was made is parsed back and accepts exactly the passwords with
    the same key; whatever is stored as a hash, verifying it costs no more than
    the limits allow; digests of tokens are verified. *)

(** ** Numbers *)

Lemma code_digit d : 0 <= d < 10 -> code (byte_of (48 + d)) = 48 + d.
Proof. intros H. rewrite code_byte_of. apply Z.mod_small. lia. Qed.

Lemma digits_value_digit acc d s : 0 <= d < 10 -> digits_value acc (String (byte_of (48 + d)) s) = digits_value (acc * 10 + d) s.
Proof.
  intros H. cbn [digits_value]. rewrite (code_digit d H). unfold between.
  rewrite (proj2 (Z.leb_le 48 _)), (proj2 (Z.leb_le _ 57)) by lia. cbn [andb]. f_equal. lia.
Qed.

Lemma digits_printed fuel n rest :
  0 <= n < 10 ^ Z.of_nat fuel -> digits_value 0 (print_digits fuel n rest) = digits_value n rest.
Proof.
  revert n rest. induction fuel as [|fuel IH]; intros n rest Hn; [simpl in *; f_equal; lia|].
  cbn [print_digits]. pose proof (Z.mod_pos_bound n 10). destruct (Z.ltb_spec n 10).
  - rewrite digits_value_digit by lia. f_equal. rewrite Z.mod_small by lia. lia.
  - rewrite Nat2Z.inj_succ, Z.pow_succ_r in Hn by lia.
    rewrite IH by (Z.div_mod_to_equations; lia). rewrite digits_value_digit by lia. f_equal. Z.div_mod_to_equations. lia.
Qed.

Lemma print_digits_nonempty fuel n rest : print_digits (S fuel) n rest <> "".
Proof.
  revert n rest. induction fuel as [|fuel IH]; intros n rest; cbn [print_digits]; destruct (n <? 10); try done.
  exact (IH (n / 10) (String (byte_of (48 + n `mod` 10)) rest)).
Qed.

Lemma ParseUint_print n bits : 0 <= n < 2 ^ bits -> n < 10 ^ 20 -> ParseUint (print_uint n) bits = Some n.
Proof.
  intros Hn Hmax. unfold ParseUint, print_uint. rewrite bool_decide_eq_false_2 by apply print_digits_nonempty.
  rewrite digits_printed by (change (10 ^ Z.of_nat 20) with (10 ^ 20); lia). cbn [digits_value].
  by rewrite (proj2 (Z.ltb_lt _ _)) by lia.
Qed.

(** ** Characters and parts *)

Definition free_of (sep : ascii) (s : string) : Prop := all_chars (λ c, negb (bool_decide (c = sep))) s = true.

Lemma all_chars_app p s1 s2 : all_chars p (s1 +:+ s2) = (all_chars p s1 && all_chars p s2)%bool.
Proof. induction s1 as [|c s1 IH]; [done|]. simpl. rewrite IH. by rewrite andb_assoc. Qed.

Lemma all_chars_impl (p q : ascii -> bool) s : (forall c, p c = true -> q c = true) -> all_chars p s = true -> all_chars q s = true.
Proof. intros Hpq. induction s as [|c s IH]; [done|]. simpl. rewrite !andb_true_iff. naive_solver. Qed.

Lemma free_of_app sep s1 s2 : free_of sep s1 -> free_of sep s2 -> free_of sep (s1 +:+ s2).
Proof. unfold free_of. rewrite all_chars_app, andb_true_iff. done. Qed.

Lemma print_digits_chars p fuel n rest :
  (forall d, 0 <= d < 10 -> p (byte_of (48 + d)) = true) -> 0 <= n -> all_chars p rest = true ->
  all_chars p (print_digits fuel n rest) = true.
Proof.
  intros Hp. revert n rest. induction fuel as [|fuel IH]; intros n rest Hn Hr; [done|]. cbn [print_digits].
  assert (Hr' : all_chars p (String (byte_of (48 + n `mod` 10)) rest) = true).
  { simpl. rewrite Hr, Hp by (apply Z.mod_pos_bound; lia). done. }
  destruct (n <? 10); [done|]. apply IH; [|done]. apply Z.div_pos; lia.
Qed.

Lemma print_free sep n : 0 <= n -> (code sep < 48 \/ 57 < code sep) -> free_of sep (print_uint n).
Proof.
  intros Hn Hs. apply print_digits_chars; [|done..]. intros d Hd. apply negb_true_iff, bool_decide_eq_false. intros <-.
  rewrite code_digit in Hs by done. lia.
Qed.

Lemma encode_free a sep b : alphabetic a sep = false -> free_of sep (EncodeToString a b).
Proof.
  intros Hs. eapply all_chars_impl; [|apply encode_chars]. intros c Hc. apply negb_true_iff, bool_decide_eq_false. intros ->. congruence.
Qed.

Lemma Split_free sep s : free_of sep s -> Split s sep = [s].
Proof.
  unfold free_of. induction s as [|c s IH]; [done|]. simpl. rewrite andb_true_iff, negb_true_iff. intros [-> Hs]. by rewrite (IH Hs).
Qed.

Lemma Split_app sep s1 s2 : free_of sep s1 -> Split (s1 +:+ String sep s2) sep = s1 :: Split s2 sep.
Proof.
  unfold free_of. induction s1 as [|c s1 IH]; simpl; [by rewrite bool_decide_eq_true_2|].
  rewrite andb_true_iff, negb_true_iff. intros [-> Hs]. by rewrite (IH Hs).
Qed.

Lemma strip_prefix_app p s : strip_prefix p (p +:+ s) = Some s.
Proof. induction p as [|c p IH]; [by destruct s|]. simpl. by rewrite bool_decide_eq_true_2. Qed.

Lemma parseNamedUint_print name n bits :
  0 <= n < 2 ^ bits -> n < 10 ^ 20 -> parseNamedUint ((name +:+ "=") +:+ print_uint n) name bits = Some n.
Proof. intros H1 H2. unfold parseNamedUint. by rewrite strip_prefix_app, ParseUint_print. Qed.

(** ** The encoded hash *)

(** The ranges of the fields. *)
Record in_limits (p : PasswordParameters) : Prop := {
  il_memory : 8 * 1024 <= MemoryKiB p <= maximumPasswordMemoryKiB;
  il_iterations : 1 <= Iterations p <= maximumPasswordIterations;
  il_parallelism : 1 <= Parallelism p <= maximumPasswordParallelism;
  il_salt : 8 <= SaltBytes p <= maximumPasswordOutputBytes;
  il_output : 16 <= OutputBytes p <= maximumPasswordOutputBytes;
}.

Ltac limits := unfold minimumPasswordMemoryKiB, maximumPasswordMemoryKiB, maximumPasswordIterations, maximumPasswordParallelism,
  maximumPasswordOutputBytes, maximumEncodedPasswordBytes, argon2_Version in *.

(** Unsigned fields. *)
Definition unsigned (p : PasswordParameters) : Prop := 0 <= Iterations p /\ 0 <= Parallelism p.

Lemma Validate_limits p : unsigned p -> Validate p = None -> in_limits p /\ 16 <= SaltBytes p.
Proof.
  intros [H1 H2]. unfold Validate. limits. repeat (case_match; [done|]).
  repeat match goal with H : (_ || _)%bool = false |- _ => apply orb_false_iff in H as [? ?] end. split; [|lia]. split; limits; lia.
Qed.

Lemma stored_limits p : unsigned p -> validateStoredPasswordParameters p = None <-> in_limits p.
Proof.
  intros [H1 H2]. unfold validateStoredPasswordParameters. split.
  - case_match eqn:H; [done|]. intros _. repeat rewrite orb_false_iff in H. limits. split; limits; lia.
  - intros [? ? ? ? ?]. limits. case_match eqn:H; [|done]. exfalso. repeat rewrite orb_true_iff in H. lia.
Qed.

Lemma append_assoc (a b c : string) : (a +:+ b) +:+ c = a +:+ (b +:+ c).
Proof. induction a as [|x a IH]; [done|]. exact (f_equal (String x) IH). Qed.

Lemma append_cons c (a b : string) : String c a +:+ b = String c (a +:+ b).
Proof. done. Qed.

Lemma print_digits_length fuel n rest : (String.length (print_digits fuel n rest) <= fuel + String.length rest)%nat.
Proof.
  revert n rest. induction fuel as [|fuel IH]; intros n rest; [done|]. cbn [print_digits]. destruct (n <? 10); simpl; [lia|].
  etrans; [apply IH|]. simpl. lia.
Qed.

Definition parameters_text (p : PasswordParameters) : string :=
  ("m=" +:+ print_uint (MemoryKiB p)) +:+ String "," (("t=" +:+ print_uint (Iterations p)) +:+ String "," ("p=" +:+ print_uint (Parallelism p))).

Lemma parseParameters_text p : in_limits p -> parseParameters (parameters_text p) = Some (MemoryKiB p, Iterations p, Parallelism p).
Proof.
  intros [Hm Hi Hp _ _]. limits. unfold parseParameters, parameters_text.
  assert (Hfree : forall name n, free_of "," name -> 0 <= n -> free_of "," (name +:+ print_uint n)).
  { intros name n Hf Hn. apply free_of_app; [done|]. apply print_free; [done|]. vm_compute. by left. }
  rewrite Split_app by (apply Hfree; [done|lia]). rewrite Split_app by (apply Hfree; [done|lia]).
  rewrite Split_free by (apply Hfree; [done|lia]).
  change "m=" with ("m" +:+ "="). change "t=" with ("t" +:+ "="). change "p=" with ("p" +:+ "=").
  by rewrite !parseNamedUint_print by lia.
Qed.

(** The text in the order in which it is taken apart. *)
Lemma encoded_parts p salt hash :
  encodePasswordHash p salt hash =
  "" +:+ String "$" ("argon2id" +:+ String "$" (("v=" +:+ print_uint argon2_Version) +:+ String "$" (parameters_text p +:+
    String "$" (EncodeToString StdAlphabet salt +:+ String "$" (EncodeToString StdAlphabet hash))))).
Proof.
  unfold encodePasswordHash, parameters_text. repeat first [rewrite append_assoc | rewrite append_cons]. reflexivity.
Qed.

Lemma parse_encoded p salt hash :
  in_limits p -> Z.of_nat (length salt) = SaltBytes p -> Z.of_nat (length hash) = OutputBytes p ->
  parsePasswordHash (encodePasswordHash p salt hash) = Ok (p, salt, hash).
Proof.
  intros Hl Hs Hh. pose proof Hl as [Hm Hi Hp Hsl Hol]. limits. unfold parsePasswordHash.
  assert (Hlen : Z.of_nat (String.length (encodePasswordHash p salt hash)) <= 1024).
  { unfold encodePasswordHash. rewrite !append_length. repeat rewrite Nat2Z.inj_add. rewrite !encode_length, Hs, Hh.
    pose proof (fun n => print_digits_length 20 n "") as Hd. unfold print_uint.
    pose proof (Hd (MemoryKiB p)). pose proof (Hd (Iterations p)). pose proof (Hd (Parallelism p)). pose proof (Hd 19).
    unfold argon2_Version, EncodedLen. simpl String.length in *. Z.div_mod_to_equations. lia. }
  rewrite bool_decide_eq_false_2 by (unfold encodePasswordHash; done).
  rewrite (proj2 (Z.ltb_ge _ _)) by (unfold maximumEncodedPasswordBytes; lia). cbn [orb]. rewrite encoded_parts.
  assert (Hfree : free_of "$" (parameters_text p)).
  { unfold parameters_text. repeat first [apply free_of_app | apply print_free; [lia|vm_compute; by left] | done
      | match goal with |- free_of ?c (String ?d ?s) => change (free_of c (String d "" +:+ s)) end]. }
  rewrite Split_app by done. rewrite Split_app by done. rewrite Split_app by (apply free_of_app; [done|]; by vm_compute).
  rewrite Split_app by done. rewrite Split_app by by apply encode_free. rewrite Split_free by by apply encode_free.
  cbn [negb bool_decide]. rewrite !bool_decide_eq_true_2 by done. cbn [negb].
  change "v=" with ("v" +:+ "="). rewrite parseNamedUint_print by (unfold argon2_Version; lia). cbn [Z.eqb argon2_Version Pos.eqb negb].
  assert (Hu : unsigned p) by (split; lia).
  rewrite (parseParameters_text p Hl), !decode_encode, Hs, Hh. replace (mkPasswordParameters _ _ _ _ _) with p by by destruct p.
  by rewrite (proj2 (stored_limits p Hu) Hl).
Qed.

(** ** Theorems about passwords *)

Lemma ParseUint_unsigned s bits n : ParseUint s bits = Some n -> 0 <= n.
Proof.
  assert (H : forall s acc n, 0 <= acc -> digits_value acc s = Some n -> 0 <= n).
  { clear. intros s. induction s as [|c s IH]; intros acc n Ha; simpl; [by intros [= <-]|]. unfold between.
    destruct (_ && _)%bool eqn:Hc; [|done]. apply IH. lia. }
  unfold ParseUint. case_bool_decide; [done|]. destruct (digits_value 0 s) eqn:Hd; [|done]. destruct (_ <? _); [|done].
  intros [= <-]. by eapply H.
Qed.

Lemma parseNamedUint_unsigned value name bits n : parseNamedUint value name bits = Some n -> 0 <= n.
Proof. unfold parseNamedUint. destruct (strip_prefix _ _); [|done]. apply ParseUint_unsigned. Qed.

(** Whatever was parsed is within the limits. *)
Lemma parsed_in_limits encoded p salt hash :
  parsePasswordHash encoded = Ok (p, salt, hash) ->
  in_limits p /\ Z.of_nat (length salt) = SaltBytes p /\ Z.of_nat (length hash) = OutputBytes p.
Proof.
  unfold parsePasswordHash. destruct (_ || _)%bool; [done|]. repeat (case_match; try done). intros [= <- <- <-]. cbn.
  split; [|done]. apply stored_limits; [|done].
  match goal with H : parseParameters _ = Some _ |- _ => revert H end. unfold parseParameters. repeat (case_match; try done).
  destruct (parseNamedUint _ "m" 32) eqn:?; [|done]. destruct (parseNamedUint _ "t" 32) eqn:?; [|done]. cbn.
  destruct (parseNamedUint _ "p" 8) eqn:?; [|done]. intros [= -> -> ->]. split; cbn; by eapply parseNamedUint_unsigned.
Qed.

(** A stored password accepts its password.  For parameters that pass
    validation and a random source that gives as many bytes as it is asked
    for, hashing succeeds, and verifying any password against the result,
    with any valid target, succeeds: it matches exactly when the key derived
    with the stored salt is the same, reports the parameters it was made with
    and asks for an upgrade exactly when it matches and one of them is below
    the target's. *)
Theorem password_roundtrip IDKey random password p salt target candidate :
  (forall pw s t m th n, 0 <= n -> Z.of_nat (length (IDKey pw s t m th n)) = n) ->
  unsigned p -> Validate p = None -> random (Z.to_nat (SaltBytes p)) = Ok salt -> Z.of_nat (length salt) = SaltBytes p ->
  Validate target = None ->
  exists encoded, HashPassword IDKey random password p = Ok encoded /\
    VerifyPassword IDKey candidate encoded target =
      Ok (mkPasswordVerification (bool_decide (derive IDKey candidate salt p = derive IDKey password salt p))
            (bool_decide (derive IDKey candidate salt p = derive IDKey password salt p) && passwordParametersNeedUpgrade p target) p) /\
    VerifyPassword IDKey password encoded p = Ok (mkPasswordVerification true false p).
Proof.
  intros Hlen Hu Hv Hr Hs Ht. unfold HashPassword. rewrite Hv, Hr. eexists. split; [done|]. destruct (Validate_limits p Hu Hv) as [Hl _].
  assert (Hp : parsePasswordHash (encodePasswordHash p salt (derive IDKey password salt p)) = Ok (p, salt, derive IDKey password salt p)).
  { apply parse_encoded; [done..|]. apply Hlen. pose proof (il_output p Hl). lia. }
  unfold VerifyPassword. rewrite Ht, Hv, Hp. split; [done|]. rewrite bool_decide_eq_true_2 by done. unfold passwordParametersNeedUpgrade.
  by rewrite !Z.ltb_irrefl.
Qed.

(** Verifying costs no more than the limits allow, whatever is stored:
    key derivations that agree on parameters within the limits (at most 256
    MiB, 10 iterations, 16 lanes, 64 bytes of salt and of output) give the
    same answer, so no others are asked for. *)
Theorem password_work_bounded IDKey IDKey' password encoded target :
  (forall salt p, in_limits p -> Z.of_nat (length salt) = SaltBytes p -> derive IDKey password salt p = derive IDKey' password salt p) ->
  VerifyPassword IDKey password encoded target = VerifyPassword IDKey' password encoded target.
Proof.
  intros Hagree. unfold VerifyPassword. destruct (Validate target); [done|].
  destruct (parsePasswordHash encoded) as [[[p salt] hash]|] eqn:Hp; [|done]. apply parsed_in_limits in Hp as (Hl & Hs & _).
  by rewrite Hagree.
Qed.

(** ** Tokens *)

(** The digest of a token, stored as text, is verified: for a pepper of
    at least 32 bytes the token is accepted, and another token exactly when
    it has the same HMAC. *)
Theorem token_digest_verified hmac token candidate pepper :
  (forall k v, length (hmac k v) = 32%nat) -> (MinimumHMACKeyBytes <= length pepper)%nat ->
  exists encoded, DigestToken hmac token pepper = Ok encoded /\
    VerifyTokenDigest hmac token pepper encoded = Ok true /\
    VerifyTokenDigest hmac candidate pepper encoded =
      Ok (bool_decide (hmac pepper (String.list_ascii_of_string candidate) = hmac pepper (String.list_ascii_of_string token))).
Proof.
  intros Hlen Hp. unfold DigestToken, HMACSHA256. rewrite (proj2 (Nat.ltb_ge _ _)) by done. eexists. split; [done|].
  assert (Hd : forall d : bytes, length d = 32%nat -> ParseHMACDigest (Encode d) = Ok d).
  { intros d Hd. unfold ParseHMACDigest, Encode. rewrite encode_length, Hd. cbn [negb Z.of_nat]. rewrite Z.eqb_refl. cbn [negb].
    by rewrite decode_encode, Hd. }
  unfold VerifyTokenDigest, VerifyHMACSHA256, HMACSHA256. rewrite !(Hd _ (Hlen _ _)), !(proj2 (Nat.ltb_ge _ _)) by done.
  split; [by rewrite bool_decide_eq_true_2|done].
Qed.

(** ** Concrete inputs *)

Definition demo_IDKey (password : string) (salt : bytes) (t m threads n : Z) : bytes :=
  take (Z.to_nat n) (String.list_ascii_of_string password ++ replicate (Z.to_nat n) "0"%char).

Lemma demo_IDKey_length pw s t m th n : 0 <= n -> Z.of_nat (length (demo_IDKey pw s t m th n)) = n.
Proof. intros Hn. unfold demo_IDKey. rewrite length_take, length_app, length_replicate. lia. Qed.

Definition demo_salt (n : nat) : result string bytes := Ok (replicate n "s"%char).

(** The right password is accepted, another one is not; a stronger target asks
    for an upgrade. *)
Lemma password_roundtrip_witness :
  exists encoded, HashPassword demo_IDKey demo_salt "correct horse" RecommendedPasswordParameters = Ok encoded /\
    VerifyPassword demo_IDKey "correct horse" encoded RecommendedPasswordParameters =
      Ok (mkPasswordVerification true false RecommendedPasswordParameters) /\
    VerifyPassword demo_IDKey "correct house" encoded (mkPasswordParameters (64 * 1024) 4 2 16 32) =
      Ok (mkPasswordVerification false false RecommendedPasswordParameters).
Proof.
  destruct (password_roundtrip demo_IDKey demo_salt "correct horse" RecommendedPasswordParameters (replicate 16 "s"%char)
    (mkPasswordParameters (64 * 1024) 4 2 16 32) "correct house" demo_IDKey_length) as (encoded & H1 & H2 & H3);
    [by split|reflexivity..|].
  exists encoded. split; [exact H1|]. split; [exact H3|]. rewrite H2. reflexivity.
Defined.

(** A hash asking for a gibibyte is refused before anything is derived. *)
Lemma password_work_bounded_witness :
  VerifyPassword demo_IDKey "x" "$argon2id$v=19$m=1048576,t=3,p=2$c3Nzc3Nzc3Nzc3Nzc3Nzcw$c3Nzc3Nzc3Nzc3Nzc3Nzcw" RecommendedPasswordParameters =
  VerifyPassword (λ pw s t m th n, if m <=? maximumPasswordMemoryKiB then demo_IDKey pw s t m th n else []) "x"
    "$argon2id$v=19$m=1048576,t=3,p=2$c3Nzc3Nzc3Nzc3Nzc3Nzcw$c3Nzc3Nzc3Nzc3Nzc3Nzcw" RecommendedPasswordParameters.
Proof.
  apply password_work_bounded. intros salt p [Hm _ _ _ _] _. unfold derive. rewrite (proj2 (Z.leb_le _ _)) by lia. reflexivity.
Defined.

Example excessive_hash_refused :
  VerifyPassword demo_IDKey "x" "$argon2id$v=19$m=1048576,t=3,p=2$c3Nzc3Nzc3Nzc3Nzc3Nzcw$c3Nzc3Nzc3Nzc3Nzc3Nzcw" RecommendedPasswordParameters =
  Err ErrInvalidPasswordHash.
Proof. vm_compute. reflexivity. Qed.

Lemma token_digest_verified_witness :
  exists encoded, DigestToken (λ _ v, take 32 (v ++ replicate 32 "0"%char)) "token" (replicate 32 "p"%char) = Ok encoded /\
    VerifyTokenDigest (λ _ v, take 32 (v ++ replicate 32 "0"%char)) "token" (replicate 32 "p"%char) encoded = Ok true.
Proof.
  destruct (token_digest_verified (λ _ v, take 32 (v ++ replicate 32 "0"%char)) "token" "other" (replicate 32 "p"%char))
    as (encoded & H1 & H2 & _).
  - intros _ v. rewrite length_take, length_app, length_replicate. lia.
  - reflexivity.
  - exists encoded. split; [exact H1|exact H2].
Defined.
