(* ===== verification/IdentityTable.v ===== *)
(** * The tables behind users, sessions and gateway keys

    Models the statements of [src/internal/store/db/identity.sql.go] on the
    tables of [src/migrations/00001_baseline.sql] (lines 16 to 98, 243 to 250
    and 397 to 406), and [CreateAuditEvent] of [audit.sql.go].  The tables of
    models, pools, plans and subscriptions, which they only read, are a
    [Catalog].  PostgreSQL's [lower] and its order of texts are parameters.

    Results of mutations are stored as JSON; a document is represented by what
    it decodes to (a password hash is not part of it). *)

From S2P Require Import Prelude GoStrings Canonical Envelope Sql RequestTable.

Local Open Scope Z_scope.

(** ** models.go *)

Record UserRecord := mkUserRecord {
  UdID : UUID;
  UdEmail : string;
  UdDisplayName : string;
  UdPasswordHash : string;
  UdRole : UserRole;
  UdStatus : UserStatus;
  UdDisabledAt : option Z;
  UdDeletedAt : option Z;
  UdCreatedAt : Z;
  UdUpdatedAt : Z;
}.

Record SessionRecord := mkSessionRecord {
  SsID : UUID;
  SsUserID : UUID;
  SsTokenDigest : bytes;
  SsCsrfDigest : bytes;
  SsExpiresAt : Z;
  SsRevokedAt : option Z;
  SsLastSeenAt : Z;
  SsCreatedAt : Z;
}.

Record KeyRecord := mkKeyRecord {
  GkID : UUID;
  GkUserID : UUID;
  GkName : string;
  GkPrefix : string;
  GkSecretDigest : bytes;
  GkEncryptedSecret : bytes;
  GkExpiresAt : option Z;
  GkDeletedAt : option Z;
  GkLastUsedAt : option Z;
  GkCreatedAt : Z;
}.

(** [identity.User], [identity.GatewayKeyRoute] and [identity.GatewayKey] *)
Record User := mkUser {
  UsID : UUID;
  UsEmail : string;
  UsDisplayName : string;
  UsRole : UserRole;
  UsStatus : UserStatus;
  UsDisabledAt : option Z;
  UsDeletedAt : option Z;
  UsCreatedAt : Z;
  UsUpdatedAt : Z;
  UsPasswordHash : string;
}.

Record GatewayKeyRoute := mkGatewayKeyRoute { RtModelID : UUID; RtModelName : string; RtPoolID : UUID; RtPoolName : string }.

Record GatewayKey := mkGatewayKey {
  KyID : UUID;
  KyUserID : UUID;
  KyName : string;
  KyPrefix : string;
  KySecret : string;
  KyRoutes : list GatewayKeyRoute;
  KyExpiresAt : option Z;
  KyDeletedAt : option Z;
  KyLastUsedAt : option Z;
  KyCreatedAt : Z;
}.

(** The documents in [member_mutations.result] and [gateway_key_mutations.result]. *)
Inductive MemberResult := MrEmpty | MrUser (u : User) | MrRevocation (n : Z).
Inductive KeyResult := KmEmpty | KmKey (k : GatewayKey).

Record MemberMutationRecord := mkMemberMutationRecord {
  MmID : UUID;
  MmActorUserID : UUID;
  MmAction : string;
  MmIdempotencyKey : UUID;
  MmUserID : option UUID;
  MmRequestFingerprint : bytes;
  MmRequestID : string;
  MmEncryptedOneTimeSecret : option bytes;
  MmResult : MemberResult;
  MmCreatedAt : Z;
}.

Record KeyMutationRecord := mkKeyMutationRecord {
  GmID : UUID;
  GmActorUserID : UUID;
  GmIdempotencyKey : UUID;
  GmRequestFingerprint : bytes;
  GmRequestID : string;
  GmGatewayKeyID : option UUID;
  GmResult : KeyResult;
  GmCreatedAt : Z;
}.

Inductive DetailValue := DetailText (s : string) | DetailNumber (n : Z) | DetailTime (t : option Z) | DetailRoutes (l : list GatewayKeyRoute).

Record AuditRecord := mkAuditRecord {
  AdActorUserID : option UUID;
  AdAction : string;
  AdTargetType : string;
  AdTargetID : option string;
  AdRequestID : option string;
  AdDetail : list (string * DetailValue);
}.

(** The tables that are only read.  [ct_pool_models] are the rows (pool,
    model) of [resource_pool_models], [ct_plan_routes] those (plan version,
    model, pool) of [service_plan_version_routes]. *)
Record Catalog := mkCatalog {
  ct_models : gmap UUID ModelRow;
  ct_pools : gmap UUID PoolRow;
  ct_pool_models : gset (UUID * UUID);
  ct_subscriptions : gmap UUID SubscriptionRow;
  ct_plan_routes : gset (UUID * UUID * UUID);
}.

(** [id_key_models] is [gateway_key_models], from the key and the model to the
    pool; [id_bootstrapped_at] the one row of [system_state]. *)
Record IdStore := mkIdStore {
  id_bootstrapped_at : option Z;
  id_users : gmap UUID UserRecord;
  id_sessions : gmap UUID SessionRecord;
  id_keys : gmap UUID KeyRecord;
  id_key_models : gmap (UUID * UUID) UUID;
  id_member_mutations : gmap UUID MemberMutationRecord;
  id_key_mutations : gmap UUID KeyMutationRecord;
  id_audit : list AuditRecord;
  id_catalog : Catalog;
}.

Definition set_bootstrapped (v : option Z) (s : IdStore) : IdStore :=
  mkIdStore v (id_users s) (id_sessions s) (id_keys s) (id_key_models s) (id_member_mutations s) (id_key_mutations s) (id_audit s) (id_catalog s).
Definition set_users (t : gmap UUID UserRecord) (s : IdStore) : IdStore :=
  mkIdStore (id_bootstrapped_at s) t (id_sessions s) (id_keys s) (id_key_models s) (id_member_mutations s) (id_key_mutations s) (id_audit s) (id_catalog s).
Definition set_sessions (t : gmap UUID SessionRecord) (s : IdStore) : IdStore :=
  mkIdStore (id_bootstrapped_at s) (id_users s) t (id_keys s) (id_key_models s) (id_member_mutations s) (id_key_mutations s) (id_audit s) (id_catalog s).
Definition set_keys (t : gmap UUID KeyRecord) (s : IdStore) : IdStore :=
  mkIdStore (id_bootstrapped_at s) (id_users s) (id_sessions s) t (id_key_models s) (id_member_mutations s) (id_key_mutations s) (id_audit s) (id_catalog s).
Definition set_key_models (t : gmap (UUID * UUID) UUID) (s : IdStore) : IdStore :=
  mkIdStore (id_bootstrapped_at s) (id_users s) (id_sessions s) (id_keys s) t (id_member_mutations s) (id_key_mutations s) (id_audit s) (id_catalog s).
Definition set_member_mutations (t : gmap UUID MemberMutationRecord) (s : IdStore) : IdStore :=
  mkIdStore (id_bootstrapped_at s) (id_users s) (id_sessions s) (id_keys s) (id_key_models s) t (id_key_mutations s) (id_audit s) (id_catalog s).
Definition set_key_mutations (t : gmap UUID KeyMutationRecord) (s : IdStore) : IdStore :=
  mkIdStore (id_bootstrapped_at s) (id_users s) (id_sessions s) (id_keys s) (id_key_models s) (id_member_mutations s) t (id_audit s) (id_catalog s).
Definition set_audit (l : list AuditRecord) (s : IdStore) : IdStore :=
  mkIdStore (id_bootstrapped_at s) (id_users s) (id_sessions s) (id_keys s) (id_key_models s) (id_member_mutations s) (id_key_mutations s) l (id_catalog s).
Definition set_catalog (c : Catalog) (s : IdStore) : IdStore :=
  mkIdStore (id_bootstrapped_at s) (id_users s) (id_sessions s) (id_keys s) (id_key_models s) (id_member_mutations s) (id_key_mutations s) (id_audit s) c.

(** ** Statements in general *)

(** A statement on a store, given what the outside decides about it. *)
Definition Statement (S A : Type) : Type := Conn -> S -> result PgError A * S.
Abbreviation Query := (Statement IdStore).

Definition reads {S A} (f : Z -> S -> result PgError A) : Statement S A :=
  λ c s, (match cn_fault c with Some e => Err e | None => f (cn_now c) s end, s).

(** [UPDATE ... WHERE guard] of any number of rows; the columns it sets are
    not constrained.  The answer is the number of rows. *)
Definition update_where {R} (guard : R -> bool) (f : R -> R) (t : gmap UUID R) : Z * gmap UUID R :=
  (Z.of_nat (length (filter (λ r, guard r = true) (rows t))), (λ r, if guard r then f r else r) <$> t).

Definition on_users {A} (f : Conn -> gmap UUID UserRecord -> result PgError A * gmap UUID UserRecord) : Query A :=
  λ c s, let '(a, t) := f c (id_users s) in (a, set_users t s).
Definition on_sessions {A} (f : Conn -> IdStore -> gmap UUID SessionRecord -> result PgError A * gmap UUID SessionRecord) : Query A :=
  λ c s, let '(a, t) := f c s (id_sessions s) in (a, set_sessions t s).
Definition on_keys {A} (f : Conn -> IdStore -> gmap UUID KeyRecord -> result PgError A * gmap UUID KeyRecord) : Query A :=
  λ c s, let '(a, t) := f c s (id_keys s) in (a, set_keys t s).

Definition counted {R} (c : Conn) (p : Z * gmap UUID R) (t : gmap UUID R) : result PgError Z * gmap UUID R :=
  match cn_fault c with Some e => (Err e, t) | None => (Ok p.1, p.2) end.

Definition find_row {R} (p : R -> bool) (t : gmap UUID R) : option R := List.find p (rows t).

Definition found {R} (o : option R) : result PgError R := match o with Some r => Ok r | None => Err NoRows end.

(** [GREATEST(clock_timestamp(), updated_at + interval '1 microsecond')] *)
Definition next_update (clock : Z) (u : UserRecord) : Z := Z.max clock (UdUpdatedAt u + 1000).

(** ** Users *)

Definition user_check (u : UserRecord) : bool :=
  ((1 <=? char_length (UdDisplayName u)) && (char_length (UdDisplayName u) <=? 120) &&
   Bool.eqb (bool_decide (UdStatus u = UserDisabled)) (negb (is_null (UdDisabledAt u))) &&
   Bool.eqb (bool_decide (UdStatus u = UserDeleted)) (negb (is_null (UdDeletedAt u))) &&
   (negb (bool_decide (UdStatus u = UserDeleted)) || is_null (UdDisabledAt u)))%bool.

Definition is_member (u : UserRecord) : bool := bool_decide (UdRole u = UserMember).
Definition not_deleted (u : UserRecord) : bool := negb (bool_decide (UdStatus u = UserDeleted)).

Section users.
Context (lower : string -> string).

(** [UNIQUE (lower(email)) WHERE status <> 'deleted'] *)
Definition user_clash (t : gmap UUID UserRecord) (id : UUID) (u : UserRecord) : bool :=
  (not_deleted u && other_row t id (λ u', not_deleted u' && bool_decide (lower (UdEmail u') = lower (UdEmail u))))%bool.

Definition user_constraints : Constraints UserRecord := mkConstraints user_check user_clash (λ _ _, true).

Definition update_user (id : UUID) (guard : UserRecord -> bool) (f : Conn -> UserRecord -> UserRecord) : Query UserRecord :=
  on_users (λ c, update_one user_constraints c id guard (f c)).

Definition CreateUser (id : UUID) (email displayName passwordHash : string) (role : UserRole) (status : UserStatus) : Query UserRecord :=
  on_users (λ c, insert_one user_constraints c id
    (mkUserRecord id (lower email) displayName passwordHash role status None None (cn_now c) (cn_now c))).

Definition UpdateUserProfile (clock : Z) (email displayName : string) (id : UUID) (expectedUpdatedAt : Z) : Query UserRecord :=
  update_user id (λ u, is_member u && not_deleted u && (UdUpdatedAt u =? expectedUpdatedAt))%bool
    (λ _ u, mkUserRecord (UdID u) (lower email) displayName (UdPasswordHash u) (UdRole u) (UdStatus u) (UdDisabledAt u) (UdDeletedAt u)
              (UdCreatedAt u) (next_update clock u)).

Definition UpdateUserStatus (clock : Z) (status : UserStatus) (id : UUID) : Query UserRecord :=
  update_user id (λ u, is_member u && not_deleted u)%bool
    (λ c u, mkUserRecord (UdID u) (UdEmail u) (UdDisplayName u) (UdPasswordHash u) (UdRole u) status
              (if bool_decide (status = UserDisabled) then Some (cn_now c) else None) None (UdCreatedAt u) (next_update clock u)).

Definition MarkUserDeleted (clock : Z) (id : UUID) : Query UserRecord :=
  update_user id (λ u, is_member u && not_deleted u)%bool
    (λ c u, mkUserRecord (UdID u) (UdEmail u) (UdDisplayName u) (UdPasswordHash u) (UdRole u) UserDeleted None (Some (cn_now c))
              (UdCreatedAt u) (next_update clock u)).

Definition put_password (hash : string) (now : Z) (u : UserRecord) : UserRecord :=
  mkUserRecord (UdID u) (UdEmail u) (UdDisplayName u) hash (UdRole u) (UdStatus u) (UdDisabledAt u) (UdDeletedAt u) (UdCreatedAt u) now.

Definition UpdateUserPassword (hash : string) (id : UUID) : Query UserRecord :=
  update_user id not_deleted (λ c, put_password hash (cn_now c)).

(** The number of rows. *)
Definition execrows {S A} (q : Statement S A) : Statement S Z :=
  λ c s, let '(r, s') := q c s in (match r with Ok _ => Ok 1 | Err NoRows => Ok 0 | Err e => Err e end, s').

Definition UpdateOwnPassword (replacementHash : string) (id : UUID) (expectedHash : string) : Query Z :=
  execrows (update_user id (λ u, bool_decide (UdPasswordHash u = expectedHash) && bool_decide (UdStatus u = UserActive))%bool
              (λ c, put_password replacementHash (cn_now c))).

Definition GetUserByEmail (email : string) : Query UserRecord :=
  reads (λ _ s, found (find_row (λ u, bool_decide (lower (UdEmail u) = lower email) && not_deleted u)%bool (id_users s))).

(** [administrator_recovery.go]: the two statements it runs on users. *)
Definition SelectUserByEmail (email : string) : Query UserRecord :=
  reads (λ _ s, found (find_row (λ u, bool_decide (lower (UdEmail u) = lower email)) (id_users s))).
Definition UpdateRecoveredUser (hash : string) (id : UUID) : Query Z :=
  execrows (update_user id (λ _, true)
    (λ c u, mkUserRecord (UdID u) (UdEmail u) (UdDisplayName u) hash (UdRole u) UserActive None (UdDeletedAt u) (UdCreatedAt u) (cn_now c))).
End users.

Definition GetUserByID (id : UUID) : Query UserRecord := reads (λ _ s, found (id_users s !! id)).
Definition GetUserForAdministrativeRecovery (id : UUID) : Query UserRecord := reads (λ _ s, found (id_users s !! id)).
Definition GetUserForGatewayKeyCreation (id : UUID) : Query UserRecord :=
  reads (λ _ s, match id_users s !! id with
                | Some u => if bool_decide (UdStatus u = UserActive) then Ok u else Err NoRows
                | None => Err NoRows
                end).

Definition IsBootstrapped : Query bool := reads (λ _ s, Ok (negb (is_null (id_bootstrapped_at s)))).
Definition MarkBootstrapped : Query Z :=
  λ c s, match cn_fault c with
         | Some e => (Err e, s)
         | None => match id_bootstrapped_at s with Some _ => (Ok 0, s) | None => (Ok 1, set_bootstrapped (Some (cn_now c)) s) end
         end.

Section listing.
Context (ilike : string -> string -> bool).

Definition listed_user (status : option UserStatus) (search : string) (u : UserRecord) : bool :=
  (not_deleted u && match status with Some v => bool_decide (UdStatus u = v) | None => true end &&
   (bool_decide (search = "") || ilike (UdEmail u +:+ " " +:+ UdDisplayName u) ("%" +:+ search +:+ "%")))%bool.

(** [ORDER BY created_at DESC, id] *)
Definition newest_user (a b : UserRecord) : Prop :=
  UdCreatedAt b < UdCreatedAt a \/ UdCreatedAt b = UdCreatedAt a /\ String.le (UdID a) (UdID b).

#[local] Instance newest_user_dec : RelDecision newest_user.
Proof. intros a b. unfold newest_user. apply _. Defined.

Definition CountUsers (status : option UserStatus) (search : string) : Query Z :=
  reads (λ _ s, Ok (Z.of_nat (length (filter (λ u, listed_user status search u = true) (rows (id_users s)))))).
Definition ListUsers (status : option UserStatus) (search : string) (offset size : Z) : Query (list UserRecord) :=
  reads (λ _ s, Ok (take (Z.to_nat size) (drop (Z.to_nat offset)
    (merge_sort newest_user (filter (λ u, listed_user status search u = true) (rows (id_users s))))))).
End listing.

(** [ORDER BY id] *)
Definition ids_before {R} (id : R -> UUID) (a b : R) : Prop := String.le (id a) (id b).

#[export] Instance ids_before_dec {R} (id : R -> UUID) : RelDecision (ids_before id).
Proof. intros a b. unfold ids_before. apply _. Defined.

Definition ListUserDisplayNames (ids : list UUID) : Query (list (UUID * string)) :=
  reads (λ _ s, Ok ((λ u, (UdID u, UdDisplayName u)) <$>
    merge_sort (ids_before UdID) (filter (λ u, UdID u ∈ ids) (rows (id_users s))))).

(** ** Sessions *)

Definition session_constraints (s : IdStore) : Constraints SessionRecord :=
  mkConstraints (λ _, true)
    (λ t id r, other_row t id (λ r', bool_decide (SsTokenDigest r' = SsTokenDigest r)))
    (λ _ r, exists_in (id_users s) (SsUserID r)).

Definition CreateSession (id userID : UUID) (tokenDigest csrfDigest : bytes) (expiresAt : Z) : Query SessionRecord :=
  on_sessions (λ c s, insert_one (session_constraints s) c id
    (mkSessionRecord id userID tokenDigest csrfDigest expiresAt None (cn_now c) (cn_now c))).

Definition put_revoked (now : Z) (r : SessionRecord) : SessionRecord :=
  mkSessionRecord (SsID r) (SsUserID r) (SsTokenDigest r) (SsCsrfDigest r) (SsExpiresAt r) (Some now) (SsLastSeenAt r) (SsCreatedAt r).

Definition revoke_where (guard : SessionRecord -> bool) : Query Z :=
  on_sessions (λ c _ t, counted c (update_where (λ r, guard r && is_null (SsRevokedAt r))%bool (put_revoked (cn_now c)) t) t).

Definition RevokeSession (id : UUID) : Query Z := revoke_where (λ r, bool_decide (SsID r = id)).
Definition RevokeUserSessions (userID : UUID) : Query Z := revoke_where (λ r, bool_decide (SsUserID r = userID)).
Definition RevokeUserSessionsExcept (userID preserved : UUID) : Query Z :=
  revoke_where (λ r, bool_decide (SsUserID r = userID) && negb (bool_decide (SsID r = preserved)))%bool.

Definition TouchSession (id : UUID) : Query Z :=
  on_sessions (λ c _ t, counted c (update_where (λ r, bool_decide (SsID r = id) && is_null (SsRevokedAt r))%bool
    (λ r, mkSessionRecord (SsID r) (SsUserID r) (SsTokenDigest r) (SsCsrfDigest r) (SsExpiresAt r) (SsRevokedAt r) (cn_now c) (SsCreatedAt r)) t) t).

Definition GetSessionByDigest (digest : bytes) : Query (SessionRecord * UserRecord) :=
  reads (λ now s,
    match find_row (λ r, bool_decide (SsTokenDigest r = digest) && is_null (SsRevokedAt r) && (now <? SsExpiresAt r))%bool (id_sessions s) with
    | Some r => match id_users s !! SsUserID r with Some u => Ok (r, u) | None => Err NoRows end
    | None => Err NoRows
    end).

(** ** Gateway keys *)

Definition key_check (k : KeyRecord) : bool := ((1 <=? char_length (GkName k)) && (char_length (GkName k) <=? 120))%bool.

Definition key_constraints (s : IdStore) : Constraints KeyRecord :=
  mkConstraints key_check
    (λ t id k, other_row t id (λ k', bool_decide (GkSecretDigest k' = GkSecretDigest k)))
    (λ _ k, exists_in (id_users s) (GkUserID k)).

(** [deleted_at IS NULL AND (expires_at IS NULL OR expires_at > now())] *)
Definition key_valid (now : Z) (k : KeyRecord) : bool := (is_null (GkDeletedAt k) && not_past now (GkExpiresAt k))%bool.

Definition CreateGatewayKey (id userID : UUID) (name prefix : string) (digest encrypted : bytes) (expiresAt : option Z) : Query KeyRecord :=
  on_keys (λ c s, insert_one (key_constraints s) c id
    (mkKeyRecord id userID name prefix digest encrypted expiresAt None None (cn_now c))).

(** The foreign keys of [gateway_key_models]. *)
Definition route_refers (s : IdStore) (keyID modelID poolID : UUID) : bool :=
  (exists_in (id_keys s) keyID && exists_in (ct_models (id_catalog s)) modelID &&
   bool_decide ((poolID, modelID) ∈ ct_pool_models (id_catalog s)))%bool.

Definition BindGatewayKeyRoute (keyID modelID poolID : UUID) : Query unit :=
  λ c s, match cn_fault c with
         | Some e => (Err e, s)
         | None =>
             match id_key_models s !! (keyID, modelID) with
             | Some _ => (Err (PgCode unique_violation), s)
             | None =>
                 if route_refers s keyID modelID poolID then (Ok tt, set_key_models (<[(keyID, modelID) := poolID]> (id_key_models s)) s)
                 else (Err (PgCode foreign_key_violation), s)
             end
         end.

Definition key_by (p : KeyRecord -> bool) (s : IdStore) : result PgError (KeyRecord * UserRecord) :=
  match find_row p (id_keys s) with
  | Some k => match id_users s !! GkUserID k with Some u => Ok (k, u) | None => Err NoRows end
  | None => Err NoRows
  end.

Definition GetGatewayKeyByDigest (digest : bytes) : Query (KeyRecord * UserRecord) :=
  reads (λ now, key_by (λ k, bool_decide (GkSecretDigest k = digest) && key_valid now k)%bool).
Definition GetGatewayKeyPrincipalByID (id : UUID) : Query (KeyRecord * UserRecord) :=
  reads (λ now, key_by (λ k, bool_decide (GkID k = id) && key_valid now k)%bool).

Definition GetEncryptedGatewayKey (id : UUID) : Query bytes :=
  reads (λ now s, match id_keys s !! id with Some k => if key_valid now k then Ok (GkEncryptedSecret k) else Err NoRows | None => Err NoRows end).
Definition GetGatewayKeyForReplacement (id : UUID) : Query KeyRecord :=
  reads (λ now s, match id_keys s !! id with Some k => if key_valid now k then Ok k else Err NoRows | None => Err NoRows end).
Definition GetGatewayKeyForDeletion (id : UUID) : Query (UUID * option Z) :=
  reads (λ _ s, match id_keys s !! id with Some k => Ok (GkUserID k, GkDeletedAt k) | None => Err NoRows end).
Definition GetGatewayKeyDeletionState (id : UUID) : Query (UUID * option Z) :=
  reads (λ _ s, match id_keys s !! id with Some k => Ok (GkUserID k, GkDeletedAt k) | None => Err NoRows end).

Definition put_deleted (now : Z) (k : KeyRecord) : KeyRecord :=
  mkKeyRecord (GkID k) (GkUserID k) (GkName k) (GkPrefix k) (GkSecretDigest k) (GkEncryptedSecret k) (GkExpiresAt k) (Some now)
    (GkLastUsedAt k) (GkCreatedAt k).

Definition delete_keys_where (guard : KeyRecord -> bool) : Query Z :=
  on_keys (λ c _ t, counted c (update_where (λ k, guard k && is_null (GkDeletedAt k))%bool (put_deleted (cn_now c)) t) t).

Definition MarkGatewayKeyDeleted (id : UUID) : Query Z := delete_keys_where (λ k, bool_decide (GkID k = id)).
Definition DeleteGatewayKeysForUser (userID : UUID) : Query Z := delete_keys_where (λ k, bool_decide (GkUserID k = userID)).

Definition TouchGatewayKey (id : UUID) : Query Z :=
  on_keys (λ c _ t, counted c (update_where (λ k, bool_decide (GkID k = id))
    (λ k, mkKeyRecord (GkID k) (GkUserID k) (GkName k) (GkPrefix k) (GkSecretDigest k) (GkEncryptedSecret k) (GkExpiresAt k) (GkDeletedAt k)
            (Some (cn_now c)) (GkCreatedAt k)) t) t).

(** [GetRouteForGatewayKeyBinding]: what an owner may bind a key to. *)
Definition bindable (s : IdStore) (now : Z) (owner : UserRecord) (modelID poolID : UUID) : bool :=
  (bool_decide ((poolID, modelID) ∈ ct_pool_models (id_catalog s)) &&
   match ct_pools (id_catalog s) !! poolID with Some p => bool_decide (PrStatus p = ResourceActive) | None => false end &&
   (bool_decide (UdRole owner = UserAdministrator) ||
    existsb (λ x, bool_decide (SrUserID x = UdID owner) && in_force now [SubscriptionActive] x &&
                  bool_decide ((SrServicePlanVersionID x, modelID, poolID) ∈ ct_plan_routes (id_catalog s)))
      (rows (ct_subscriptions (id_catalog s)))))%bool.

Definition GetRouteForGatewayKeyBinding (modelID poolID userID : UUID) : Query GatewayKeyRoute :=
  reads (λ now s,
    match ct_models (id_catalog s) !! modelID, ct_pools (id_catalog s) !! poolID, id_users s !! userID with
    | Some m, Some p, Some u =>
        if bindable s now u modelID poolID then Ok (mkGatewayKeyRoute modelID (MrPublicName m) poolID (PrName p)) else Err NoRows
    | _, _, _ => Err NoRows
    end).

Section key_lists.
Context (collate : string -> string -> comparison).

(** The routes of a key with the names of their models and pools. *)
Definition routes_of (s : IdStore) (keyID : UUID) : list GatewayKeyRoute :=
  omap (λ e : (UUID * UUID) * UUID,
          let '((k, m), p) := e in
          if bool_decide (k = keyID) then
            match ct_models (id_catalog s) !! m, ct_pools (id_catalog s) !! p with
            | Some row, Some pool => Some (mkGatewayKeyRoute m (MrPublicName row) p (PrName pool))
            | _, _ => None
            end
          else None) (map_to_list (id_key_models s)).

(** [ORDER BY public_name, model_id] *)
Definition route_order (a b : GatewayKeyRoute) : Prop :=
  collate (RtModelName a) (RtModelName b) = Lt \/ collate (RtModelName a) (RtModelName b) = Eq /\ String.le (RtModelID a) (RtModelID b).

#[local] Instance route_order_dec : RelDecision route_order.
Proof. intros a b. unfold route_order. apply _. Defined.

Definition ListGatewayKeyModelBindingsByKey (keyID : UUID) : Query (list GatewayKeyRoute) :=
  reads (λ _ s, Ok (merge_sort route_order (routes_of s keyID))).

(** [ORDER BY created_at DESC, id] *)
Definition newest_key (a b : KeyRecord) : Prop :=
  GkCreatedAt b < GkCreatedAt a \/ GkCreatedAt b = GkCreatedAt a /\ String.le (GkID a) (GkID b).

#[local] Instance newest_key_dec : RelDecision newest_key.
Proof. intros a b. unfold newest_key. apply _. Defined.

Definition ListGatewayKeysByUser (userID : UUID) : Query (list KeyRecord) :=
  reads (λ _ s, Ok (merge_sort newest_key
    (filter (λ k, bool_decide (GkUserID k = userID) && is_null (GkDeletedAt k) = true)%bool (rows (id_keys s))))).

(** [ORDER BY gateway_key_id, public_name, model_id] *)
Definition ListGatewayKeyModelBindingsByUser (userID : UUID) : Query (list (UUID * GatewayKeyRoute)) :=
  reads (λ _ s, Ok (concat ((λ k, (λ r, (GkID k, r)) <$> merge_sort route_order (routes_of s (GkID k))) <$>
    merge_sort (ids_before GkID) (filter (λ k, GkUserID k = userID) (rows (id_keys s)))))).
End key_lists.

(** ** Mutations and audit *)

Definition member_mutation_constraints (s : IdStore) : Constraints MemberMutationRecord :=
  mkConstraints (λ m, (length (MmRequestFingerprint m) =? 32)%nat) (λ _ _ _, false)
    (λ _ m, exists_in (id_users s) (MmActorUserID m) && match MmUserID m with Some u => exists_in (id_users s) u | None => true end)%bool.

Definition same_member_mutation (actorID : UUID) (action : string) (key : UUID) (m : MemberMutationRecord) : bool :=
  (bool_decide (MmActorUserID m = actorID) && bool_decide (MmAction m = action) && bool_decide (MmIdempotencyKey m = key))%bool.

(** [ON CONFLICT DO NOTHING]: no row is returned when the key was used; the
    row is checked before the conflict is looked for. *)
Definition ClaimMemberMutation (id actorID : UUID) (action : string) (key : UUID) (userID : option UUID) (fingerprint : bytes)
    (requestID : string) : Query MemberMutationRecord :=
  λ c s,
    if (negb (is_null (cn_fault c)) || negb (length fingerprint =? 32)%nat ||
        is_null (find_row (same_member_mutation actorID action key) (id_member_mutations s)))%bool then
      let '(r, t) := insert_one (member_mutation_constraints s) c id
        (mkMemberMutationRecord id actorID action key userID fingerprint requestID None MrEmpty (cn_now c)) (id_member_mutations s) in
      (r, set_member_mutations t s)
    else (Err NoRows, s).

Definition CompleteMemberMutation (userID : option UUID) (result : MemberResult) (id : UUID) : Query MemberMutationRecord :=
  λ c s,
    let '(r, t) := update_one (member_mutation_constraints s) c id (λ _, true)
      (λ m, mkMemberMutationRecord (MmID m) (MmActorUserID m) (MmAction m) (MmIdempotencyKey m) userID (MmRequestFingerprint m)
              (MmRequestID m) (MmEncryptedOneTimeSecret m) result (MmCreatedAt m)) (id_member_mutations s) in
    (r, set_member_mutations t s).

Definition GetMemberMutation (actorID : UUID) (action : string) (key : UUID) : Query MemberMutationRecord :=
  reads (λ _ s, found (find_row (same_member_mutation actorID action key) (id_member_mutations s))).

Definition key_mutation_constraints (s : IdStore) : Constraints KeyMutationRecord :=
  mkConstraints (λ m, (length (GmRequestFingerprint m) =? 32)%nat) (λ _ _ _, false)
    (λ _ m, exists_in (id_users s) (GmActorUserID m) && match GmGatewayKeyID m with Some k => exists_in (id_keys s) k | None => true end)%bool.

Definition same_key_mutation (actorID key : UUID) (m : KeyMutationRecord) : bool :=
  (bool_decide (GmActorUserID m = actorID) && bool_decide (GmIdempotencyKey m = key))%bool.

Definition ClaimGatewayKeyMutation (id actorID key : UUID) (fingerprint : bytes) (requestID : string) : Query KeyMutationRecord :=
  λ c s,
    if (negb (is_null (cn_fault c)) || negb (length fingerprint =? 32)%nat ||
        is_null (find_row (same_key_mutation actorID key) (id_key_mutations s)))%bool then
      let '(r, t) := insert_one (key_mutation_constraints s) c id
        (mkKeyMutationRecord id actorID key fingerprint requestID None KmEmpty (cn_now c)) (id_key_mutations s) in
      (r, set_key_mutations t s)
    else (Err NoRows, s).

Definition CompleteGatewayKeyMutation (keyID : option UUID) (result : KeyResult) (id : UUID) : Query KeyMutationRecord :=
  λ c s,
    let '(r, t) := update_one (key_mutation_constraints s) c id (λ _, true)
      (λ m, mkKeyMutationRecord (GmID m) (GmActorUserID m) (GmIdempotencyKey m) (GmRequestFingerprint m) (GmRequestID m) keyID result
              (GmCreatedAt m)) (id_key_mutations s) in
    (r, set_key_mutations t s).

Definition GetGatewayKeyMutation (actorID key : UUID) : Query KeyMutationRecord :=
  reads (λ _ s, found (find_row (same_key_mutation actorID key) (id_key_mutations s))).

Definition CreateAuditEvent (e : AuditRecord) : Query AuditRecord :=
  λ c s,
    match cn_fault c with
    | Some err => (Err err, s)
    | None =>
        if match AdActorUserID e with Some u => exists_in (id_users s) u | None => true end then (Ok e, set_audit (id_audit s ++ [e]) s)
        else (Err (PgCode foreign_key_violation), s)
    end.
