(* ===== verification/IdentityStore.v ===== *)
(** * The repository of users, sessions and gateway keys

    Models [src/internal/store/identity_repository.go] and
    [administrator_recovery.go] over the statements of [IdentityTable].

    What changes the store is one transaction or one statement; these are the
    atomic calls [IdCall].  A transaction is a program of statements in the
    monad [TxM], which counts them so that each may fail.  After a commit that
    failed the repository looks for the mutation it may have recorded; these
    reads are later steps, between which anything may happen, so the functions
    that make them are given what happens before each of their steps. *)

From S2P Require Import Prelude GoStrings Canonical Envelope Password Sql RequestTable RequestStore IdentityTable.

Local Open Scope Z_scope.

(** ** Errors *)

(** [IOutcomeUnknown] carries the failure of the commit and the last one of
    the reconciliation; [IStoreError] is ["identity store: %w"]. *)
Inductive IdError :=
| IConflict | INotFound | IInvalidCredential | IDisabled | IForbidden | IInvalidInput | IIdempotencyConflict
| IOutcomeUnknown (commit : PgError) (reconciliation : option PgError)
| IDatabase (e : PgError)
| IStoreError (e : PgError)
| IText (s : string)
| IPassword (e : PasswordError)
| IHashing (e : IdError)
| IToken (e : TokenError)
| IEnvelope (what : string) (e : EnvelopeError).

Definition translateStoreError (e : PgError) : IdError :=
  match e with
  | NoRows => INotFound
  | PgCode sqlstate =>
      if bool_decide (sqlstate = "23503") then INotFound
      else if bool_decide (sqlstate ∈ ["23505"; "40001"]) then IConflict
      else IStoreError e
  | _ => IStoreError e
  end.

(** ** Transactions *)

(** A body ends by asking for the commit, or returns and is rolled back. *)
Inductive Ending (A : Type) := Finish (a : A) | Leave (a : A).
Arguments Finish {A} a.
Arguments Leave {A} a.

(** A program of statements on a store of type [S] with errors [E]. *)
Definition Program (S E A : Type) : Type := Tx -> nat -> S -> result E A * nat * S.

Inductive TxResult (E A : Type) := TxOk (a : A) | TxErr (e : E) | TxCommitFailed (e : PgError).
Arguments TxOk {E A} a.
Arguments TxErr {E A} e.
Arguments TxCommitFailed {E A} e.

Section programs.
Context {S E : Type}.

Definition tx_ret {A} (a : A) : Program S E A := λ _ n s, (Ok a, n, s).
Definition tx_fail {A} (e : E) : Program S E A := λ _ n s, (Err e, n, s).
Definition tx_bind {A B} (m : Program S E A) (k : A -> Program S E B) : Program S E B :=
  λ t n s, match m t n s with (Ok a, n', s') => k a t n' s' | (Err e, n', s') => (Err e, n', s') end.

(** Runs a statement; its failure is a value. *)
Definition ask {A} (q : Statement S A) : Program S E (result PgError A) :=
  λ t n s, let '(r, s') := q (statement t n) s in (Ok r, Datatypes.S n, s').

(** Runs a statement and ends with its failure. *)
Definition query_with {A} (translate : PgError -> E) (q : Statement S A) : Program S E A :=
  tx_bind (ask q) (λ r, match r with Ok a => tx_ret a | Err e => tx_fail (translate e) end).

Definition run_with {A} (translate : PgError -> E) (m : Program S E (Ending A)) (t : Tx) (s : S) : TxResult E A * S :=
  match tx_begin t with
  | Some e => (TxErr (translate e), s)
  | None =>
      match m t 0%nat s with
      | (Err e, _, _) => (TxErr e, s)
      | (Ok (Leave a), _, _) => (TxOk a, s)
      | (Ok (Finish a), _, s') =>
          match tx_commit t with
          | Committed => (TxOk a, s')
          | CommitRefused e => (TxCommitFailed e, s)
          | CommitLost message => (TxCommitFailed (PgFailure message), s')
          end
      end
  end.
End programs.

(** A step of a function: what others did before it, and what the outside
    decides about it. *)
Record Step (Call C : Type) := mkTurn { tn_before : list Call; tn_conn : C }.
Arguments mkTurn {Call C}.
Arguments tn_before {Call C} s.
Arguments tn_conn {Call C} s.

Section reconciliation.
Context {Call S E : Type} (history : list Call -> S -> S) (unknown : PgError -> option PgError -> E).

(** The reads after a failed commit, until one succeeds or the time is over:
    [tries] are the reads there is time for, at least one. *)
Fixpoint reconcile_with {R A} (read : Statement S R) (result_of : R -> result E A) (commitErr : PgError) (first : Step Call Conn)
    (tries : list (Step Call Conn)) (s : S) : result E A * S :=
  let s := history (tn_before first) s in
  match (read (tn_conn first) s).1 with
  | Ok operation => (result_of operation, s)
  | Err e =>
      match tries with
      | [] => (Err (unknown commitErr (Some e)), s)
      | next :: tries' => reconcile_with read result_of commitErr next tries' s
      end
  end.

Definition reconciled_with {R A} (read : Statement S R) (result_of : R -> result E A) (first : Step Call Conn) (tries : list (Step Call Conn))
    (p : TxResult E A * S) : result E A * S :=
  match p with
  | (TxOk a, s) => (Ok a, s)
  | (TxErr e, s) => (Err e, s)
  | (TxCommitFailed e, s) => reconcile_with read result_of e first tries s
  end.
End reconciliation.

Notation "'let!' x ':=' m 'in' k" := (tx_bind m (λ x, k))
  (at level 10, x pattern, m at level 100, k at level 200, format "'[v' 'let!'  x  ':='  m  'in' '/' k ']'") : go_scope.

Abbreviation TxM := (Program IdStore IdError).

Definition query {A} (q : Query A) : TxM A := query_with translateStoreError q.

(** A failure is passed on as it is. *)
Definition query_raw {A} (q : Query A) : TxM A := query_with IDatabase q.

Definition run_tx {A} (m : TxM (Ending A)) (t : Tx) (s : IdStore) : TxResult IdError A * IdStore := run_with IDatabase m t s.

(** A failed commit is reported as any other failure. *)
Definition plain {A} (translate : PgError -> IdError) (r : TxResult IdError A) : result IdError A :=
  match r with TxOk a => Ok a | TxErr e => Err e | TxCommitFailed e => Err (translate e) end.

(** ** Values *)

Definition userFromDB (u : UserRecord) : User :=
  mkUser (UdID u) (UdEmail u) (UdDisplayName u) (UdRole u) (UdStatus u) (UdDisabledAt u) (UdDeletedAt u) (UdCreatedAt u) (UdUpdatedAt u)
    (UdPasswordHash u).

Definition gatewayKeyFromDB (k : KeyRecord) (routes : list GatewayKeyRoute) : GatewayKey :=
  mkGatewayKey (GkID k) (GkUserID k) (GkName k) (GkPrefix k) "" routes (GkExpiresAt k) (GkDeletedAt k) (GkLastUsedAt k) (GkCreatedAt k).

Record Principal := mkPrincipal {
  PnSessionID : UUID;
  PnUserID : UUID;
  PnEmail : string;
  PnDisplayName : string;
  PnRole : UserRole;
  PnStatus : UserStatus;
  PnCSRFDigest : bytes;
  PnExpiresAt : Z;
}.

Definition principal_of (r : SessionRecord) (u : UserRecord) : Principal :=
  mkPrincipal (SsID r) (UdID u) (UdEmail u) (UdDisplayName u) (UdRole u) (UdStatus u) (SsCsrfDigest r) (SsExpiresAt r).

Record GatewayPrincipal := mkGatewayPrincipal {
  GpKeyID : UUID;
  GpUserID : UUID;
  GpRole : UserRole;
  GpStatus : UserStatus;
  GpKeyPrefix : string;
  GpExpiresAt : option Z;
}.

Definition gateway_principal_of (k : KeyRecord) (u : UserRecord) : GatewayPrincipal :=
  mkGatewayPrincipal (GkID k) (GkUserID k) (UdRole u) (UdStatus u) (GkPrefix k) (GkExpiresAt k).

Record NewUser := mkNewUser { NuEmail : string; NuDisplayName : string; NuPasswordHash : string; NuRole : UserRole; NuStatus : UserStatus }.
Record SessionCreation := mkSessionCreation { ScTokenDigest : bytes; ScCSRFDigest : bytes; ScExpiresAt : Z }.
Record MemberChange := mkMemberChange { McID : UUID; McEmail : string; McDisplayName : string; McExpectedUpdatedAt : Z }.
Record NewGatewayKey := mkNewGatewayKey {
  NkID : UUID;
  NkUserID : UUID;
  NkName : string;
  NkPrefix : string;
  NkSecretDigest : bytes;
  NkEncryptedSecret : bytes;
  NkRoutes : list GatewayKeyRoute;
  NkExpiresAt : option Z;
  NkReplacesKeyID : option UUID;
}.

Inductive MemberMutationAction := MutationCreate | MutationUpdate | MutationStatus | MutationDelete | MutationPassword.

Definition action_text (a : MemberMutationAction) : string :=
  match a with
  | MutationCreate => "member.create" | MutationUpdate => "member.update" | MutationStatus => "member.status"
  | MutationDelete => "member.delete" | MutationPassword => "member.password"
  end.

Record MemberMutation := mkMemberMutation {
  MuAction : MemberMutationAction;
  MuIdempotencyKey : UUID;
  MuRequestFingerprint : bytes;
  MuRequestID : string;
}.

Record GatewayKeyMutation := mkGatewayKeyMutation { KuIdempotencyKey : UUID; KuRequestFingerprint : bytes; KuRequestID : string }.

Definition status_text (v : UserStatus) : string :=
  match v with UserActive => "active" | UserDisabled => "disabled" | UserDeleted => "deleted" end.

Definition auditParams (actorID : option UUID) (action targetType targetID : string) (requestID : option string)
    (detail : list (string * DetailValue)) : AuditRecord :=
  mkAuditRecord actorID action targetType (Some targetID) requestID detail.

(** ** Results of mutations *)

(** [json.Marshal] of a user leaves out the password hash. *)
Definition user_json (u : User) : User :=
  mkUser (UsID u) (UsEmail u) (UsDisplayName u) (UsRole u) (UsStatus u) (UsDisabledAt u) (UsDeletedAt u) (UsCreatedAt u) (UsUpdatedAt u) "".

(** A document without the fields of a user decodes to the zero user, whose
    identifier is nil. *)
Definition memberMutationUserResult (operation : MemberMutationRecord) (mutation : MemberMutation) : result IdError User :=
  if (negb (bool_decide (MmAction operation = action_text (MuAction mutation))) ||
      negb (bool_decide (MmRequestFingerprint operation = MuRequestFingerprint mutation)))%bool then Err IIdempotencyConflict
  else
    match MmResult operation with
    | MrUser u =>
        if (bool_decide (UsID u = uuid_Nil) || negb (sql_eq (MmUserID operation) (UsID u)))%bool
        then Err (IText "identity store: invalid member mutation result") else Ok u
    | _ => Err (IText "identity store: invalid member mutation result")
    end.

Definition memberMutationRevocationResult (operation : MemberMutationRecord) (userID : UUID) (mutation : MemberMutation) : result IdError Z :=
  if (negb (bool_decide (MmAction operation = action_text (MuAction mutation))) ||
      negb (bool_decide (MmRequestFingerprint operation = MuRequestFingerprint mutation)) ||
      negb (sql_eq (MmUserID operation) userID))%bool then Err IIdempotencyConflict
  else Ok (match MmResult operation with MrRevocation n => n | _ => 0 end).

Definition gatewayKeyMutationResult (operation : KeyMutationRecord) (mutation : GatewayKeyMutation) : result IdError GatewayKey :=
  if negb (bool_decide (GmRequestFingerprint operation = KuRequestFingerprint mutation)) then Err IIdempotencyConflict
  else
    match GmResult operation with
    | KmKey k =>
        if (bool_decide (KyID k = uuid_Nil) || negb (sql_eq (GmGatewayKeyID operation) (KyID k)))%bool
        then Err (IText "identity store: invalid gateway-key mutation result") else Ok k
    | KmEmpty => Err (IText "identity store: invalid gateway-key mutation result")
    end.

(** What one mutation of a member does; the identifier is the one
    [gen_random_uuid()] gives. *)
Inductive MemberApply :=
| ApplyCreate (newID : UUID) (input : NewUser)
| ApplyUpdate (change : MemberChange)
| ApplyStatus (userID : UUID) (status : UserStatus)
| ApplyDelete (userID : UUID).

Definition apply_target (a : MemberApply) : option UUID :=
  match a with ApplyCreate _ _ => None | ApplyUpdate change => Some (McID change) | ApplyStatus id _ | ApplyDelete id => Some id end.

Section repository.
Context (lower : string -> string) (collate : string -> string -> comparison).

(** ** Members *)

Definition apply_member (clock : Z) (a : MemberApply) : TxM (User * string * list (string * DetailValue)) :=
  match a with
  | ApplyCreate newID input =>
      let! created := query (CreateUser lower newID (NuEmail input) (NuDisplayName input) (NuPasswordHash input) UserMember UserActive) in
      tx_ret (userFromDB created, "identity.member_created", [("email", DetailText (UdEmail created))])
  | ApplyUpdate change =>
      let! updated := query (UpdateUserProfile lower clock (McEmail change) (McDisplayName change) (McID change) (McExpectedUpdatedAt change)) in
      tx_ret (userFromDB updated, "identity.member_updated", [("email", DetailText (UdEmail updated))])
  | ApplyStatus userID status =>
      let! updated := query (UpdateUserStatus lower clock status userID) in
      let! revoked := if bool_decide (status = UserDisabled) then query (RevokeUserSessions userID) else tx_ret 0 in
      tx_ret (userFromDB updated, "identity.member_status_changed",
              [("status", DetailText (status_text status)); ("revoked_sessions", DetailNumber revoked)])
  | ApplyDelete userID =>
      let! updated := query (MarkUserDeleted lower clock userID) in
      let! revoked := query (RevokeUserSessions userID) in
      let! deleted := query (DeleteGatewayKeysForUser userID) in
      tx_ret (userFromDB updated, "identity.member_deleted",
              [("revoked_sessions", DetailNumber revoked); ("deleted_api_keys", DetailNumber deleted)])
  end.

(** [ClaimMemberMutation], or the mutation that used the key before. *)
Definition claim_member {A} (opID actorID : UUID) (userID : option UUID) (mutation : MemberMutation)
    (replay : MemberMutationRecord -> result IdError A) (work : MemberMutationRecord -> TxM (Ending A)) : TxM (Ending A) :=
  let! claimed := ask (ClaimMemberMutation opID actorID (action_text (MuAction mutation)) (MuIdempotencyKey mutation) userID
                         (MuRequestFingerprint mutation) (MuRequestID mutation)) in
  match claimed with
  | Err NoRows =>
      let! existing := query (GetMemberMutation actorID (action_text (MuAction mutation)) (MuIdempotencyKey mutation)) in
      match replay existing with Ok a => tx_ret (Leave a) | Err e => tx_fail e end
  | Err e => tx_fail (translateStoreError e)
  | Ok operation => work operation
  end.

Definition mutate_body (clock : Z) (opID actorID : UUID) (mutation : MemberMutation) (a : MemberApply) : TxM (Ending User) :=
  claim_member opID actorID (apply_target a) mutation (λ existing, memberMutationUserResult existing mutation)
    (λ operation,
      let! (user, auditAction, detail) := apply_member clock a in
      let! _ := query (CreateAuditEvent (auditParams (Some actorID) auditAction "user" (UsID user) (Some (MuRequestID mutation)) detail)) in
      let! _ := query (CompleteMemberMutation (Some (UsID user)) (MrUser (user_json user)) (MmID operation)) in
      tx_ret (Finish user)).

Definition reset_body (opID userID : UUID) (passwordHash : string) (actorID : UUID) (mutation : MemberMutation) : TxM (Ending Z) :=
  claim_member opID actorID (Some userID) mutation (λ existing, memberMutationRevocationResult existing userID mutation)
    (λ operation,
      let! user := query (GetUserForAdministrativeRecovery userID) in
      if (negb (is_member user) || negb (not_deleted user))%bool then tx_fail IForbidden
      else
        let! _ := query (UpdateUserPassword lower passwordHash userID) in
        let! revoked := query (RevokeUserSessions userID) in
        let! _ := query (CreateAuditEvent (auditParams (Some actorID) "identity.member_password_reset" "user" userID
                           (Some (MuRequestID mutation)) [("revoked_sessions", DetailNumber revoked)])) in
        let! _ := query (CompleteMemberMutation (Some userID) (MrRevocation revoked) (MmID operation)) in
        tx_ret (Finish revoked)).

Definition change_own_body (userID sessionID : UUID) (expectedHash replacementHash requestID : string) : TxM (Ending Z) :=
  let! updated := query (UpdateOwnPassword lower replacementHash userID expectedHash) in
  if negb (updated =? 1) then tx_fail IInvalidCredential
  else
    let! revoked := query (RevokeUserSessionsExcept userID sessionID) in
    let! _ := query (CreateAuditEvent (auditParams (Some userID) "identity.password_changed" "user" userID (Some requestID)
                       [("revoked_sessions", DetailNumber revoked)])) in
    tx_ret (Finish revoked).

Definition revoke_body (userID actorID : UUID) (preserved : option UUID) (requestID : string) : TxM (Ending Z) :=
  let! revoked := query (match preserved with
                         | None => RevokeUserSessions userID
                         | Some sessionID => RevokeUserSessionsExcept userID sessionID
                         end) in
  let! _ := query (CreateAuditEvent (auditParams (Some actorID) "identity.sessions_revoked" "user" userID (Some requestID)
                     [("revoked_sessions", DetailNumber revoked)])) in
  tx_ret (Finish revoked).

Definition bootstrap_body (newUserID newSessionID : UUID) (input : NewUser) (session : SessionCreation) : TxM (Ending Principal) :=
  let! bootstrapped := query IsBootstrapped in
  if (bootstrapped : bool) then tx_fail IConflict
  else
    let! user := query (CreateUser lower newUserID (NuEmail input) (NuDisplayName input) (NuPasswordHash input) (NuRole input) (NuStatus input)) in
    let! marked := ask MarkBootstrapped in
    if match marked with Ok n => negb (n =? 1) | Err _ => true end then tx_fail IConflict
    else
      let! _ := query (CreateAuditEvent (auditParams (Some (UdID user)) "system.bootstrap" "system" "singleton" None
                         [("administrator_user_id", DetailText (UdID user))])) in
      let! created := query (CreateSession newSessionID (UdID user) (ScTokenDigest session) (ScCSRFDigest session) (ScExpiresAt session)) in
      tx_ret (Finish (principal_of created user)).

(** [administrator_recovery.go]; its failures are passed on as they are. *)
Definition recover_body (email passwordHash requestID : string) : TxM (Ending Z) :=
  let! found := ask (SelectUserByEmail lower email) in
  match found with
  | Err NoRows => tx_fail INotFound
  | Err e => tx_fail (IDatabase e)
  | Ok user =>
      if negb (bool_decide (UdRole user = UserAdministrator)) then tx_fail IForbidden
      else
        let! updated := query_raw (UpdateRecoveredUser lower passwordHash (UdID user)) in
        if negb (updated =? 1) then tx_fail (IText ("administrator recovery updated " +:+ print_uint updated +:+ " users"))
        else
          let! revoked := query_raw (RevokeUserSessions (UdID user)) in
          let! _ := query_raw (CreateAuditEvent (auditParams None "identity.administrator_recovered" "user" (UdID user) (Some requestID)
                                 [("previous_status", DetailText (status_text (UdStatus user))); ("revoked_sessions", DetailNumber revoked)])) in
          tx_ret (Finish revoked)
  end.

(** ** Gateway keys *)

(** [sort.Slice] by the text of the model's identifier. *)
Definition by_model (a b : GatewayKeyRoute) : Prop := String.le (RtModelID a) (RtModelID b).

#[export] Instance by_model_dec : RelDecision by_model.
Proof. intros a b. unfold by_model. apply _. Defined.

Definition same_route (a b : GatewayKeyRoute) : bool := (bool_decide (RtModelID a = RtModelID b) && bool_decide (RtPoolID a = RtPoolID b))%bool.

(** [slices.EqualFunc] *)
Fixpoint same_routes (a b : list GatewayKeyRoute) : bool :=
  match a, b with
  | [], [] => true
  | x :: a', y :: b' => (same_route x y && same_routes a' b')%bool
  | _, _ => false
  end.

(** The key that is replaced is the one the caller saw. *)
Definition check_replaced (input : NewGatewayKey) : TxM unit :=
  match NkReplacesKeyID input with
  | None => tx_ret tt
  | Some replaced =>
      let! original := query (GetGatewayKeyForReplacement replaced) in
      if (negb (bool_decide (GkUserID original = NkUserID input)) || negb (bool_decide (GkExpiresAt original = NkExpiresAt input)))%bool
      then tx_fail IConflict
      else
        let! bindings := query_raw (ListGatewayKeyModelBindingsByKey collate replaced) in
        if same_routes (merge_sort by_model bindings) (NkRoutes input) then tx_ret tt else tx_fail IConflict
  end.

Fixpoint validate_routes (userID : UUID) (routes : list GatewayKeyRoute) : TxM (list GatewayKeyRoute) :=
  match routes with
  | [] => tx_ret []
  | r :: routes' =>
      let! validated := query (GetRouteForGatewayKeyBinding (RtModelID r) (RtPoolID r) userID) in
      let! rest := validate_routes userID routes' in
      tx_ret (validated :: rest)
  end.

Fixpoint bind_routes (keyID : UUID) (routes : list GatewayKeyRoute) : TxM unit :=
  match routes with
  | [] => tx_ret tt
  | r :: routes' =>
      let! _ := query (BindGatewayKeyRoute keyID (RtModelID r) (RtPoolID r)) in
      bind_routes keyID routes'
  end.

Definition key_detail (input : NewGatewayKey) (routes : list GatewayKeyRoute) : list (string * DetailValue) :=
  [("user_id", DetailText (NkUserID input)); ("prefix", DetailText (NkPrefix input)); ("routes", DetailRoutes routes);
   ("expires_at", DetailTime (NkExpiresAt input))] ++
  match NkReplacesKeyID input with Some id => [("replaces_key_id", DetailText id)] | None => [] end.

Definition create_key_body (opID : UUID) (input : NewGatewayKey) (actorID : UUID) (mutation : GatewayKeyMutation) : TxM (Ending GatewayKey) :=
  let! claimed := ask (ClaimGatewayKeyMutation opID actorID (KuIdempotencyKey mutation) (KuRequestFingerprint mutation) (KuRequestID mutation)) in
  match claimed with
  | Err NoRows =>
      let! existing := query (GetGatewayKeyMutation actorID (KuIdempotencyKey mutation)) in
      match gatewayKeyMutationResult existing mutation with Ok a => tx_ret (Leave a) | Err e => tx_fail e end
  | Err e => tx_fail (translateStoreError e)
  | Ok operation =>
      let! _ := check_replaced input in
      let! user := query (GetUserForGatewayKeyCreation (NkUserID input)) in
      if negb (bool_decide (UdStatus user = UserActive)) then tx_fail IDisabled
      else
        let! validated := validate_routes (NkUserID input) (NkRoutes input) in
        let! created := query (CreateGatewayKey (NkID input) (NkUserID input) (NkName input) (NkPrefix input) (NkSecretDigest input)
                                 (NkEncryptedSecret input) (NkExpiresAt input)) in
        let! _ := bind_routes (GkID created) validated in
        let key := gatewayKeyFromDB created validated in
        let action := match NkReplacesKeyID input with Some _ => "gateway_key.replaced" | None => "gateway_key.created" end in
        let! _ := query_raw (CreateAuditEvent (auditParams (Some actorID) action "gateway_key" (GkID created) (Some (KuRequestID mutation))
                               (key_detail input validated))) in
        let! _ := query_raw (CompleteGatewayKeyMutation (Some (KyID key)) (KmKey key) (GmID operation)) in
        tx_ret (Finish key)
  end.

Definition delete_key_body (keyID actorID : UUID) (allowAny : bool) : TxM (Ending unit) :=
  let! (owner, deletedAt) := query (GetGatewayKeyForDeletion keyID) in
  if (negb (bool_decide (owner = actorID)) && negb allowAny)%bool then tx_fail IForbidden
  else if negb (is_null deletedAt) then tx_ret (Leave tt)
  else
    let! marked := query (MarkGatewayKeyDeleted keyID) in
    if negb (marked =? 1) then tx_fail IConflict
    else
      let! _ := query_raw (CreateAuditEvent (auditParams (Some actorID) "gateway_key.deleted" "gateway_key" keyID None
                             [("owner_id", DetailText owner)])) in
      tx_ret (Finish tt).

(** ** The atomic calls *)

Inductive IdCall :=
| ABootstrap (t : Tx) (newUserID newSessionID : UUID) (input : NewUser) (session : SessionCreation)
| AMutate (t : Tx) (clock : Z) (opID actorID : UUID) (mutation : MemberMutation) (a : MemberApply)
| AReset (t : Tx) (opID userID : UUID) (passwordHash : string) (actorID : UUID) (mutation : MemberMutation)
| AChangeOwn (t : Tx) (userID sessionID : UUID) (expectedHash replacementHash requestID : string)
| ARevokeAll (t : Tx) (userID actorID : UUID) (preserved : option UUID) (requestID : string)
| ARecover (t : Tx) (email passwordHash requestID : string)
| ACreateKey (t : Tx) (opID : UUID) (input : NewGatewayKey) (actorID : UUID) (mutation : GatewayKeyMutation)
| ADeleteKey (t : Tx) (keyID actorID : UUID) (allowAny : bool)
| ACreateSession (c : Conn) (id userID : UUID) (tokenDigest csrfDigest : bytes) (expiresAt : Z)
| ARevokeSession (c : Conn) (id : UUID)
| ATouchSession (c : Conn) (id : UUID)
| ATouchKey (c : Conn) (id : UUID)
| AReveal (c : Conn) (keyID actorID : UUID)
| ACatalog (catalog : Catalog).

Definition reveal_event (keyID actorID : UUID) : AuditRecord :=
  auditParams (Some actorID) "gateway_key.revealed" "gateway_key" keyID None [].

(** [ACatalog] is any change of the tables that are only read here. *)
Definition id_exec (call : IdCall) (s : IdStore) : IdStore :=
  match call with
  | ABootstrap t newUserID newSessionID input session => (run_tx (bootstrap_body newUserID newSessionID input session) t s).2
  | AMutate t clock opID actorID mutation a => (run_tx (mutate_body clock opID actorID mutation a) t s).2
  | AReset t opID userID passwordHash actorID mutation => (run_tx (reset_body opID userID passwordHash actorID mutation) t s).2
  | AChangeOwn t userID sessionID expectedHash replacementHash requestID =>
      (run_tx (change_own_body userID sessionID expectedHash replacementHash requestID) t s).2
  | ARevokeAll t userID actorID preserved requestID => (run_tx (revoke_body userID actorID preserved requestID) t s).2
  | ARecover t email passwordHash requestID => (run_tx (recover_body email passwordHash requestID) t s).2
  | ACreateKey t opID input actorID mutation => (run_tx (create_key_body opID input actorID mutation) t s).2
  | ADeleteKey t keyID actorID allowAny => (run_tx (delete_key_body keyID actorID allowAny) t s).2
  | ACreateSession c id userID tokenDigest csrfDigest expiresAt => (CreateSession id userID tokenDigest csrfDigest expiresAt c s).2
  | ARevokeSession c id => (RevokeSession id c s).2
  | ATouchSession c id => (TouchSession id c s).2
  | ATouchKey c id => (TouchGatewayKey id c s).2
  | AReveal c keyID actorID => (CreateAuditEvent (reveal_event keyID actorID) c s).2
  | ACatalog catalog => set_catalog catalog s
  end.

Abbreviation Turn := (Step IdCall).

Fixpoint id_history (calls : list IdCall) (s : IdStore) : IdStore :=
  match calls with [] => s | call :: calls' => id_history calls' (id_exec call s) end.

(** ** The repository *)

(** The reads after a failed commit. *)
Definition reconcile {R A} (read : Query R) (result_of : R -> result IdError A) (commitErr : PgError) (first : Turn Conn)
    (tries : list (Turn Conn)) (s : IdStore) : result IdError A * IdStore :=
  reconcile_with id_history IOutcomeUnknown read result_of commitErr first tries s.

Definition reconciled {R A} (read : Query R) (result_of : R -> result IdError A) (first : Turn Conn) (tries : list (Turn Conn))
    (p : TxResult IdError A * IdStore) : result IdError A * IdStore :=
  reconciled_with id_history IOutcomeUnknown read result_of first tries p.

Definition memberMutationLookup (actorID : UUID) (mutation : MemberMutation) : Query MemberMutationRecord :=
  GetMemberMutation actorID (action_text (MuAction mutation)) (MuIdempotencyKey mutation).

Definition Id_mutateMember (t : Tx) (first : Turn Conn) (tries : list (Turn Conn)) (clock : Z) (opID actorID : UUID)
    (mutation : MemberMutation) (a : MemberApply) (s : IdStore) : result IdError User * IdStore :=
  reconciled (memberMutationLookup actorID mutation) (λ operation, memberMutationUserResult operation mutation) first tries
    (run_tx (mutate_body clock opID actorID mutation a) t s).

Definition Id_ResetMemberPassword (t : Tx) (first : Turn Conn) (tries : list (Turn Conn)) (opID userID : UUID) (passwordHash : string)
    (actorID : UUID) (mutation : MemberMutation) (s : IdStore) : result IdError Z * IdStore :=
  reconciled (memberMutationLookup actorID mutation) (λ operation, memberMutationRevocationResult operation userID mutation) first tries
    (run_tx (reset_body opID userID passwordHash actorID mutation) t s).

Definition Id_CreateGatewayKey (t : Tx) (first : Turn Conn) (tries : list (Turn Conn)) (opID : UUID) (input : NewGatewayKey)
    (actorID : UUID) (mutation : GatewayKeyMutation) (s : IdStore) : result IdError GatewayKey * IdStore :=
  reconciled (GetGatewayKeyMutation actorID (KuIdempotencyKey mutation)) (λ operation, gatewayKeyMutationResult operation mutation)
    first tries (run_tx (create_key_body opID input actorID mutation) t s).

(** The deletion is found done, or not, or cannot be found out. *)
Fixpoint reconcileGatewayKeyDeletion (keyID actorID : UUID) (allowAny : bool) (commitErr : PgError) (first : Turn Conn)
    (tries : list (Turn Conn)) (s : IdStore) : result IdError unit * IdStore :=
  let s := id_history (tn_before first) s in
  let again e := match tries with
                 | [] => (Err (IOutcomeUnknown commitErr e), s)
                 | next :: tries' => reconcileGatewayKeyDeletion keyID actorID allowAny commitErr next tries' s
                 end in
  match (GetGatewayKeyDeletionState keyID (tn_conn first) s).1 with
  | Ok (owner, deletedAt) =>
      if (negb (bool_decide (owner = actorID)) && negb allowAny)%bool then (Err IForbidden, s)
      else if negb (is_null deletedAt) then (Ok tt, s)
      else again None
  | Err e => again (Some e)
  end.

Definition Id_DeleteGatewayKey (t : Tx) (first : Turn Conn) (tries : list (Turn Conn)) (keyID actorID : UUID) (allowAny : bool)
    (s : IdStore) : result IdError unit * IdStore :=
  match run_tx (delete_key_body keyID actorID allowAny) t s with
  | (TxOk _, s') => (Ok tt, s')
  | (TxErr e, s') => (Err e, s')
  | (TxCommitFailed e, s') => reconcileGatewayKeyDeletion keyID actorID allowAny e first tries s'
  end.

Definition translated {A} (p : TxResult IdError A * IdStore) : result IdError A * IdStore := (plain translateStoreError p.1, p.2).

Definition Id_Bootstrap (t : Tx) (newUserID newSessionID : UUID) (input : NewUser) (session : SessionCreation) (s : IdStore) :
    result IdError Principal * IdStore := translated (run_tx (bootstrap_body newUserID newSessionID input session) t s).
Definition Id_ChangeOwnPassword (t : Tx) (userID sessionID : UUID) (expectedHash replacementHash requestID : string) (s : IdStore) :
    result IdError Z * IdStore := translated (run_tx (change_own_body userID sessionID expectedHash replacementHash requestID) t s).
Definition Id_RevokeUserSessions (t : Tx) (userID actorID : UUID) (preserved : option UUID) (requestID : string) (s : IdStore) :
    result IdError Z * IdStore := translated (run_tx (revoke_body userID actorID preserved requestID) t s).

Definition RecoverAdministratorAccess (t : Tx) (email passwordHash requestID : string) (s : IdStore) : result IdError Z * IdStore :=
  if (bool_decide (email = "") || bool_decide (passwordHash = ""))%bool then (Err IInvalidInput, s)
  else let '(r, s') := run_tx (recover_body email passwordHash requestID) t s in (plain IDatabase r, s').

Definition read_with {A} (translate : PgError -> IdError) (q : Query A) (c : Conn) (s : IdStore) : result IdError A :=
  match (q c s).1 with Ok a => Ok a | Err e => Err (translate e) end.

Definition Id_FindUserByEmail (c : Conn) (email : string) (s : IdStore) : result IdError User :=
  match read_with translateStoreError (GetUserByEmail lower email) c s with Ok u => Ok (userFromDB u) | Err e => Err e end.

(** Two statements without a transaction. *)
Definition Id_CreateSession (c : Conn) (next : Turn Conn) (newID userID : UUID) (tokenDigest csrfDigest : bytes) (expiresAt : Z) (s : IdStore) :
    result IdError Principal * IdStore :=
  match (GetUserByID userID c s).1 with
  | Ok user =>
      if bool_decide (UdStatus user = UserActive) then
        let s := id_history (tn_before next) s in
        let '(r, s') := CreateSession newID userID tokenDigest csrfDigest expiresAt (tn_conn next) s in
        (match r with Ok session => Ok (principal_of session user) | Err e => Err (translateStoreError e) end, s')
      else (Err IDisabled, s)
  | Err _ => (Err IDisabled, s)
  end.

Definition Id_FindSession (c : Conn) (digest : bytes) (s : IdStore) : result IdError Principal :=
  match read_with translateStoreError (GetSessionByDigest digest) c s with Ok (r, u) => Ok (principal_of r u) | Err e => Err e end.

Definition Id_FindGatewayPrincipal (c : Conn) (digest : bytes) (s : IdStore) : result IdError GatewayPrincipal :=
  match read_with translateStoreError (GetGatewayKeyByDigest digest) c s with Ok (k, u) => Ok (gateway_principal_of k u) | Err e => Err e end.
Definition Id_FindGatewayPrincipalByID (c : Conn) (id : UUID) (s : IdStore) : result IdError GatewayPrincipal :=
  match read_with translateStoreError (GetGatewayKeyPrincipalByID id) c s with Ok (k, u) => Ok (gateway_principal_of k u) | Err e => Err e end.

Definition Id_GetEncryptedGatewayKey (c : Conn) (id : UUID) (s : IdStore) : result IdError bytes :=
  read_with translateStoreError (GetEncryptedGatewayKey id) c s.

(** The second statement sees what happened in between. *)
Definition Id_GatewayKeyForReplacement (c : Conn) (next : Turn Conn) (keyID : UUID) (s : IdStore) : result IdError GatewayKey * IdStore :=
  match read_with translateStoreError (GetGatewayKeyForReplacement keyID) c s with
  | Err e => (Err e, s)
  | Ok k =>
      let s := id_history (tn_before next) s in
      (match read_with IDatabase (ListGatewayKeyModelBindingsByKey collate keyID) (tn_conn next) s with
       | Err e => Err e
       | Ok [] => Err IConflict
       | Ok routes => Ok (gatewayKeyFromDB k routes)
       end, s)
  end.

Definition Id_ListGatewayKeys (c : Conn) (next : Turn Conn) (userID : UUID) (s : IdStore) : result IdError (list GatewayKey) * IdStore :=
  match read_with IDatabase (ListGatewayKeysByUser userID) c s with
  | Err e => (Err e, s)
  | Ok items =>
      let s := id_history (tn_before next) s in
      (match read_with IDatabase (ListGatewayKeyModelBindingsByUser collate userID) (tn_conn next) s with
       | Err e => Err e
       | Ok bindings =>
           Ok ((λ k, gatewayKeyFromDB k (omap (λ b : UUID * GatewayKeyRoute, if bool_decide (b.1 = GkID k) then Some b.2 else None) bindings))
               <$> items)
       end, s)
  end.

Definition Id_ListUsers (ilike : string -> string -> bool) (c : Conn) (next : Turn Conn) (status : option UserStatus) (search : string)
    (offset size : Z) (s : IdStore) : result IdError (list User * Z) * IdStore :=
  match read_with translateStoreError (ListUsers ilike status search offset size) c s with
  | Err e => (Err e, s)
  | Ok items =>
      let s := id_history (tn_before next) s in
      (match read_with translateStoreError (CountUsers ilike status search) (tn_conn next) s with
       | Err e => Err e
       | Ok total => Ok (userFromDB <$> items, total)
       end, s)
  end.

Definition Id_UserDisplayNames (c : Conn) (ids : list UUID) (s : IdStore) : result IdError (gmap UUID string) :=
  match ids with
  | [] => Ok ∅
  | _ => match read_with IDatabase (ListUserDisplayNames ids) c s with Ok items => Ok (list_to_map items) | Err e => Err e end
  end.
End repository.

Abbreviation Turn := (Step IdCall).
