(* ===== verification/Identity.v ===== *)
(** * The identity service

    Models [src/internal/identity/service.go], [recovery.go],
    [member_mutation.go] and [gateway_key_mutation.go] over the repository of
    [IdentityStore].  An operation that runs several statements is given what
    others do before each of them ([Turn]).

    Parameters: HMAC-SHA256, Argon2, the block cipher, [strings.ToLower],
    [mail.ParseAddress], and the SHA-256 digests of the JSON of a mutation's
    payload, which is [member_digest] or [key_digest] of that payload. *)

From S2P Require Import Prelude GoStrings Canonical ProviderRequest Envelope Password Sql RequestTable RequestStore IdentityTable IdentityStore.

Local Open Scope Z_scope.

Definition minimumPasswordBytes : Z := 12.
Definition maximumPasswordBytes : Z := 1024.
Definition maximumNameRunes : Z := 80.
Definition credentialPrefixBytes : nat := 13.
Definition defaultSessionLength : Z := 12 * Hour.
Definition maximumKeyModels : Z := 100.
Definition initialAdministratorDisplayName : string := "Administrator".

Definition text_bytes (s : string) : bytes := String.list_ascii_of_string s.

Definition credentialPrefix (value : string) : string :=
  if (String.length value <=? credentialPrefixBytes)%nat then value else String.substring 0 credentialPrefixBytes value.

Definition GatewayKeyEncryptionContext (id : UUID) : bytes := text_bytes ("gateway-key:" +:+ id).

Definition has_prefix (s p : string) : bool := match strip_prefix p s with Some _ => true | None => false end.

Fixpoint contains_nul (s : string) : bool :=
  match s with EmptyString => false | String c s' => (bool_decide (c = byte 0) || contains_nul s')%bool end.

(** [string([]rune(s)[:n])] of a text of the database, which is valid UTF-8. *)
Fixpoint take_runes (n : Z) (s : string) : string :=
  match s with
  | EmptyString => EmptyString
  | String c s' =>
      if ((128 <=? code c) && (code c <=? 191))%bool then String c (take_runes n s')
      else if n <=? 0 then EmptyString else String c (take_runes (n - 1) s')
  end.

Record MutationRequest := mkMutationRequest { MqIdempotencyKey : UUID; MqRequestID : string }.

(** What is digested for a mutation of a member. *)
Inductive MemberPayload :=
| PayloadCreate (email displayName : string)
| PayloadUpdate (change : MemberChange)
| PayloadStatus (userID : UUID) (status : UserStatus)
| PayloadDelete (userID : UUID).

Record SessionCredentials := mkSessionCredentials { ScPrincipal : Principal; ScToken : string; ScCSRFToken : string }.
Record SessionMaterial := mkSessionMaterial { SmToken : string; SmCSRFToken : string; SmCreation : SessionCreation }.

Definition CanManageUsers (p : Principal) : bool := bool_decide (PnRole p = UserAdministrator).
Definition CanOperateProviders (p : Principal) : bool := bool_decide (PnRole p = UserAdministrator).
Definition is_active (p : Principal) : bool := bool_decide (PnStatus p = UserActive).

(** An administrator, or a member acting on what is theirs. *)
Definition may_act_for (actor : Principal) (userID : UUID) : bool :=
  (bool_decide (PnRole actor = UserAdministrator) || (bool_decide (PnRole actor = UserMember) && bool_decide (PnUserID actor = userID)))%bool.

Definition normalizePage (offset size : Z) : Z * Z :=
  (if offset <? 0 then 0 else offset, if size <? 1 then 50 else if 200 <? size then 200 else size).

(** The routes of a new key, sorted by the text of their models, when they
    name a model and a pool and no model twice. *)
Fixpoint routes_valid (previous : option UUID) (l : list GatewayKeyRoute) : bool :=
  match l with
  | [] => true
  | r :: l' =>
      (negb (bool_decide (RtModelID r = uuid_Nil)) && negb (bool_decide (RtPoolID r = uuid_Nil)) &&
       negb (sql_eq previous (RtModelID r)) && routes_valid (Some (RtModelID r)) l')%bool
  end.

(** The identifiers without repetitions, in order of appearance. *)
Fixpoint unique_ids (seen : list UUID) (l : list UUID) : option (list UUID) :=
  match l with
  | [] => Some []
  | id :: l' =>
      if bool_decide (id = uuid_Nil) then None
      else if bool_decide (id ∈ seen) then unique_ids seen l'
      else match unique_ids (id :: seen) l' with Some ids => Some (id :: ids) | None => None end
  end.

Section service.
Context `{!AEAD} (hmac_sha256 : bytes -> bytes -> bytes) (IDKey : string -> bytes -> Z -> Z -> Z -> Z -> bytes).
Context (ToLower : string -> string) (ParseAddress : string -> option string).
Context (member_digest : MemberPayload -> bytes).
Context (key_digest : UUID -> string -> list GatewayKeyRoute -> option Z -> option UUID -> bytes).
Context (lower : string -> string) (collate : string -> string -> comparison) (ilike : string -> string -> bool).

Record IdService := mkIdService {
  sv_envelope : EnvelopeCipher;
  sv_passwordParams : PasswordParameters;
  sv_sessionPepper : bytes;
  sv_apiKeyPepper : bytes;
  sv_dummyPasswordHash : string;
}.

(** [NewService]: the dummy hash is made with the recommended parameters. *)
Definition NewService (envelope : EnvelopeCipher) (random : nat -> result string bytes) (sessionPepper apiKeyPepper : bytes) :
    result IdError IdService :=
  match HashPassword IDKey random "not-a-valid-login-password" RecommendedPasswordParameters with
  | Err e => Err (IPassword e)
  | Ok dummyHash =>
      if ((length sessionPepper <? MinimumHMACKeyBytes)%nat || (length apiKeyPepper <? MinimumHMACKeyBytes)%nat)%bool
      then Err (IText "identity peppers must contain at least 32 bytes")
      else Ok (mkIdService envelope RecommendedPasswordParameters sessionPepper apiKeyPepper dummyHash)
  end.

Context (sv : IdService).

(** ** Preparation *)

Definition normalizeEmail (value : string) : option string :=
  let value := ToLower (TrimSpace value) in
  match ParseAddress value with
  | Some address =>
      if (negb (bool_decide (address = value)) || (254 <? Z.of_nat (String.length value)))%bool then None else Some value
  | None => None
  end.

Definition hashPassword (random : nat -> result string bytes) (password : string) : result IdError string :=
  if ((Z.of_nat (String.length password) <? minimumPasswordBytes) || (maximumPasswordBytes <? Z.of_nat (String.length password)) ||
      contains_nul password)%bool then Err IInvalidInput
  else match HashPassword IDKey random password (sv_passwordParams sv) with Ok h => Ok h | Err e => Err (IPassword e) end.

Definition prepareUser (random : nat -> result string bytes) (email displayName password : string) (role : UserRole) (status : UserStatus) :
    result IdError NewUser :=
  match normalizeEmail email with
  | None => Err IInvalidInput
  | Some email =>
      let displayName := TrimSpace displayName in
      if ((RuneCount displayName <? 2) || (maximumNameRunes <? RuneCount displayName))%bool then Err IInvalidInput
      else
        match hashPassword random password with
        | Err e => Err (IHashing e)
        | Ok hash => Ok (mkNewUser email displayName hash role status)
        end
  end.

Definition session_hmac (value : string) : result IdError bytes :=
  match HMACSHA256 hmac_sha256 (sv_sessionPepper sv) (text_bytes value) with Ok d => Ok d | Err e => Err (IToken e) end.
Definition key_hmac (value : string) : result IdError bytes :=
  match HMACSHA256 hmac_sha256 (sv_apiKeyPepper sv) (text_bytes value) with Ok d => Ok d | Err e => Err (IToken e) end.

Definition generate (random : nat -> result string bytes) : result IdError string :=
  match GenerateToken random with Ok t => Ok t | Err e => Err (IToken e) end.

(** [random1] and [random2] are the two draws. *)
Definition prepareSession (random1 random2 : nat -> result string bytes) (now : Z) : result IdError SessionMaterial :=
  let? token := generate random1 in
  let? csrfToken := generate random2 in
  let? tokenDigest := session_hmac token in
  let? csrfDigest := session_hmac csrfToken in
  Ok (mkSessionMaterial token csrfToken (mkSessionCreation tokenDigest csrfDigest (time_add now defaultSessionLength))).

Definition valid_mutation (request : MutationRequest) : bool :=
  (negb (bool_decide (MqIdempotencyKey request = uuid_Nil)) && negb (bool_decide (MqRequestID request = "")) &&
   (Z.of_nat (String.length (MqRequestID request)) <=? 128))%bool.

Definition newMemberMutation (action : MemberMutationAction) (request : MutationRequest) (payload : MemberPayload) : result IdError MemberMutation :=
  if valid_mutation request
  then Ok (mkMemberMutation action (MqIdempotencyKey request) (member_digest payload) (MqRequestID request))
  else Err IInvalidInput.

Definition newGatewayKeyMutation (request : MutationRequest) (userID : UUID) (name : string) (routes : list GatewayKeyRoute)
    (expiresAt : option Z) (replaces : option UUID) : result IdError GatewayKeyMutation :=
  if valid_mutation request
  then Ok (mkGatewayKeyMutation (MqIdempotencyKey request) (key_digest userID name routes expiresAt replaces) (MqRequestID request))
  else Err IInvalidInput.

(** ** Sessions *)

Definition Bootstrap (random randomSalt random1 random2 : nat -> result string bytes) (now : Z) (t : Tx) (newUserID newSessionID : UUID)
    (email : string) (s : IdStore) : result IdError (SessionCredentials * string) * IdStore :=
  match generate random with
  | Err e => (Err e, s)
  | Ok initialPassword =>
      match prepareUser randomSalt email initialAdministratorDisplayName initialPassword UserAdministrator UserActive with
      | Err e => (Err e, s)
      | Ok newUser =>
          match prepareSession random1 random2 now with
          | Err e => (Err e, s)
          | Ok material =>
              let '(r, s') := Id_Bootstrap lower t newUserID newSessionID newUser (SmCreation material) s in
              (match r with
               | Ok principal => Ok (mkSessionCredentials principal (SmToken material) (SmCSRFToken material), initialPassword)
               | Err e => Err e
               end, s')
          end
      end
  end.

Definition issueSession (random1 random2 : nat -> result string bytes) (now : Z) (c : Conn) (next : Turn Conn) (newID : UUID) (user : User)
    (s : IdStore) : result IdError SessionCredentials * IdStore :=
  match prepareSession random1 random2 now with
  | Err e => (Err e, s)
  | Ok material =>
      let '(r, s') := Id_CreateSession lower collate c next newID (UsID user) (ScTokenDigest (SmCreation material)) (ScCSRFDigest (SmCreation material))
                        (ScExpiresAt (SmCreation material)) s in
      (match r with Ok principal => Ok (mkSessionCredentials principal (SmToken material) (SmCSRFToken material)) | Err e => Err e end, s')
  end.

Definition Login (random1 random2 : nat -> result string bytes) (now : Z) (c : Conn) (turn next : Turn Conn) (newID : UUID)
    (email password : string) (s : IdStore) : result IdError SessionCredentials * IdStore :=
  match normalizeEmail email with
  | None => (Err IInvalidCredential, s)
  | Some email =>
      let lookup := Id_FindUserByEmail lower c email s in
      let hash := match lookup with Ok user => UsPasswordHash user | Err _ => sv_dummyPasswordHash sv end in
      match VerifyPassword IDKey password hash (sv_passwordParams sv), lookup with
      | Ok verification, Ok user =>
          if Match_ verification then
            match UsStatus user with
            | UserDisabled => (Err IDisabled, s)
            | UserActive =>
                issueSession random1 random2 now (tn_conn turn) next newID user (id_history lower collate (tn_before turn) s)
            | UserDeleted => (Err IInvalidCredential, s)
            end
          else (Err IInvalidCredential, s)
      | _, _ => (Err IInvalidCredential, s)
      end
  end.

(** The session is touched afterwards; a failure of that is ignored. *)
Definition AuthenticateSession (c : Conn) (turn : Turn Conn) (token : string) (s : IdStore) : result IdError Principal * IdStore :=
  match session_hmac token with
  | Err _ => (Err IInvalidCredential, s)
  | Ok digest =>
      match Id_FindSession c digest s with
      | Err _ => (Err IInvalidCredential, s)
      | Ok principal =>
          if is_active principal then
            (Ok principal, (TouchSession (PnSessionID principal) (tn_conn turn) (id_history lower collate (tn_before turn) s)).2)
          else (Err IDisabled, s)
      end
  end.

Definition VerifyCSRF (principal : Principal) (token : string) : bool :=
  match session_hmac token with Ok digest => bool_decide (digest = PnCSRFDigest principal) | Err _ => false end.

Definition Logout (c : Conn) (principal : Principal) (s : IdStore) : option IdError * IdStore :=
  let '(r, s') := RevokeSession (PnSessionID principal) c s in
  (match r with Ok _ => None | Err e => Some (IDatabase e) end, s').

Definition ChangePassword (random : nat -> result string bytes) (c : Conn) (turn : Turn Tx) (principal : Principal)
    (currentPassword replacementPassword requestID : string) (s : IdStore) : result IdError Z * IdStore :=
  if (bool_decide (PnUserID principal = uuid_Nil) || bool_decide (PnSessionID principal = uuid_Nil) || negb (is_active principal) ||
      blank requestID)%bool then (Err IForbidden, s)
  else
    match Id_FindUserByEmail lower c (PnEmail principal) s with
    | Err _ => (Err IInvalidCredential, s)
    | Ok user =>
        if negb (bool_decide (UsID user = PnUserID principal)) then (Err IInvalidCredential, s)
        else
          match VerifyPassword IDKey currentPassword (UsPasswordHash user) (sv_passwordParams sv) with
          | Err _ => (Err IInvalidCredential, s)
          | Ok verification =>
              if negb (Match_ verification) then (Err IInvalidCredential, s)
              else if match VerifyPassword IDKey replacementPassword (UsPasswordHash user) (sv_passwordParams sv) with
                      | Ok v => Match_ v
                      | Err _ => false
                      end then (Err IInvalidInput, s)
              else
                match hashPassword random replacementPassword with
                | Err e => (Err e, s)
                | Ok replacementHash =>
                    Id_ChangeOwnPassword lower (tn_conn turn) (PnUserID principal) (PnSessionID principal) (UsPasswordHash user)
                      replacementHash requestID (id_history lower collate (tn_before turn) s)
                end
          end
    end.

Definition RevokeUserSessions (t : Tx) (actor : Principal) (userID : UUID) (requestID : string) (s : IdStore) : result IdError Z * IdStore :=
  if (negb (is_active actor) || negb (CanManageUsers actor))%bool then (Err IForbidden, s)
  else if (bool_decide (userID = uuid_Nil) || bool_decide (requestID = "") || (128 <? Z.of_nat (String.length requestID)))%bool then (Err IInvalidInput, s)
  else if bool_decide (PnUserID actor = userID) then
    if bool_decide (PnSessionID actor = uuid_Nil) then (Err IInvalidInput, s)
    else Id_RevokeUserSessions t userID (PnUserID actor) (Some (PnSessionID actor)) requestID s
  else Id_RevokeUserSessions t userID (PnUserID actor) None requestID s.

(** ** Members *)

Definition deriveMemberPassword (actorID idempotencyKey : UUID) : result IdError string :=
  if (bool_decide (actorID = uuid_Nil) || bool_decide (idempotencyKey = uuid_Nil))%bool then Err IInvalidInput
  else
    let? derived := session_hmac ("llm2api:member-initial-password:" +:+ actorID +:+ ":" +:+ idempotencyKey) in
    Ok ("Lm!" +:+ EncodeToString UrlAlphabet derived).

(** What the outside decides of a mutation: its transaction, the reads after a
    failed commit, the clock and the identifier of the record. *)
Record Mutating := mkMutating { mu_tx : Tx; mu_first : Turn Conn; mu_tries : list (Turn Conn); mu_clock : Z; mu_opID : UUID }.

Definition mutate (o : Mutating) (actorID : UUID) (mutation : MemberMutation) (a : MemberApply) (s : IdStore) : result IdError User * IdStore :=
  Id_mutateMember lower collate (mu_tx o) (mu_first o) (mu_tries o) (mu_clock o) (mu_opID o) actorID mutation a s.

Definition CreateMember (random : nat -> result string bytes) (o : Mutating) (newID : UUID) (actor : Principal) (email displayName : string)
    (request : MutationRequest) (s : IdStore) : result IdError (User * string) * IdStore :=
  if (negb (is_active actor) || negb (CanManageUsers actor))%bool then (Err IForbidden, s)
  else
    match deriveMemberPassword (PnUserID actor) (MqIdempotencyKey request) with
    | Err e => (Err e, s)
    | Ok password =>
        match prepareUser random email displayName password UserMember UserActive with
        | Err e => (Err e, s)
        | Ok member =>
            match newMemberMutation MutationCreate request (PayloadCreate (NuEmail member) (NuDisplayName member)) with
            | Err e => (Err e, s)
            | Ok mutation =>
                let '(r, s') := mutate o (PnUserID actor) mutation (ApplyCreate newID member) s in
                (match r with Ok created => Ok (created, password) | Err e => Err e end, s')
            end
        end
    end.

Definition UpdateMember (o : Mutating) (actor : Principal) (change : MemberChange) (request : MutationRequest) (s : IdStore) :
    result IdError User * IdStore :=
  if (negb (is_active actor) || negb (CanManageUsers actor) || bool_decide (PnUserID actor = McID change))%bool then (Err IForbidden, s)
  else
    match normalizeEmail (McEmail change) with
    | None => (Err IInvalidInput, s)
    | Some email =>
        let change := mkMemberChange (McID change) email (TrimSpace (McDisplayName change)) (McExpectedUpdatedAt change) in
        if (bool_decide (McID change = uuid_Nil) || bool_decide (McDisplayName change = "") ||
            (maximumNameRunes <? RuneCount (McDisplayName change)) || IsZero (McExpectedUpdatedAt change))%bool then (Err IInvalidInput, s)
        else
          match newMemberMutation MutationUpdate request (PayloadUpdate change) with
          | Err e => (Err e, s)
          | Ok mutation => mutate o (PnUserID actor) mutation (ApplyUpdate change) s
          end
    end.

Definition SetUserStatus (o : Mutating) (actor : Principal) (userID : UUID) (status : UserStatus) (request : MutationRequest) (s : IdStore) :
    result IdError User * IdStore :=
  if (negb (is_active actor) || negb (CanManageUsers actor) || bool_decide (PnUserID actor = userID))%bool then (Err IForbidden, s)
  else if bool_decide (status = UserDeleted) then (Err IInvalidInput, s)
  else
    match newMemberMutation MutationStatus request (PayloadStatus userID status) with
    | Err e => (Err e, s)
    | Ok mutation => mutate o (PnUserID actor) mutation (ApplyStatus userID status) s
    end.

Definition DeleteMember (o : Mutating) (actor : Principal) (userID : UUID) (request : MutationRequest) (s : IdStore) :
    result IdError User * IdStore :=
  if (negb (is_active actor) || negb (CanManageUsers actor) || bool_decide (PnUserID actor = userID) || bool_decide (userID = uuid_Nil))%bool
  then (Err IForbidden, s)
  else
    match newMemberMutation MutationDelete request (PayloadDelete userID) with
    | Err e => (Err e, s)
    | Ok mutation => mutate o (PnUserID actor) mutation (ApplyDelete userID) s
    end.

Definition ResetMemberPassword (random : nat -> result string bytes) (o : Mutating) (actor : Principal) (userID : UUID) (password : string)
    (request : MutationRequest) (s : IdStore) : result IdError Z * IdStore :=
  if (negb (is_active actor) || negb (CanManageUsers actor) || bool_decide (PnUserID actor = userID))%bool then (Err IForbidden, s)
  else if (bool_decide (userID = uuid_Nil) || negb (valid_mutation request))%bool then (Err IInvalidInput, s)
  else
    match hashPassword random password with
    | Err e => (Err e, s)
    | Ok passwordHash =>
        match session_hmac ("llm2api:member-password-reset:" +:+ userID +:+ String (byte 0) password) with
        | Err e => (Err e, s)
        | Ok fingerprint =>
            Id_ResetMemberPassword lower collate (mu_tx o) (mu_first o) (mu_tries o) (mu_opID o) userID passwordHash (PnUserID actor)
              (mkMemberMutation MutationPassword (MqIdempotencyKey request) fingerprint (MqRequestID request)) s
        end
    end.

Definition ListUsers (c : Conn) (next : Turn Conn) (actor : Principal) (status : option UserStatus) (search : string) (offset size : Z)
    (s : IdStore) : result IdError (list User * Z) * IdStore :=
  let search := TrimSpace search in
  if (negb (is_active actor) || negb (CanManageUsers actor))%bool then (Err IForbidden, s)
  else if (match status with Some v => bool_decide (v = UserDeleted) | None => false end || (200 <? RuneCount search))%bool then (Err IInvalidInput, s)
  else
    let '(offset, size) := normalizePage offset size in
    Id_ListUsers lower collate ilike c next status search offset size s.

Definition UserDisplayNames (c : Conn) (actor : Principal) (userIDs : list UUID) (s : IdStore) : result IdError (gmap UUID string) :=
  if (negb (is_active actor) || negb (CanOperateProviders actor))%bool then Err IForbidden
  else match unique_ids [] userIDs with None => Err IInvalidInput | Some ids => Id_UserDisplayNames c ids s end.

(** ** Gateway keys *)

Definition deriveGatewayKeySecret (actorID idempotencyKey : UUID) : result IdError string :=
  let? derived := key_hmac ("llm2api:gateway-key-secret:" +:+ actorID +:+ ":" +:+ idempotencyKey) in
  Ok ("llmg_" +:+ EncodeToString UrlAlphabet derived).

Definition with_secret (secret : string) (k : GatewayKey) : GatewayKey :=
  mkGatewayKey (KyID k) (KyUserID k) (KyName k) (KyPrefix k) secret (KyRoutes k) (KyExpiresAt k) (KyDeletedAt k) (KyLastUsedAt k) (KyCreatedAt k).

Definition createGatewayKey (random : nat -> result string bytes) (o : Mutating) (keyID : UUID) (actor : Principal) (userID : UUID)
    (name : string) (routes : list GatewayKeyRoute) (expiresAt : option Z) (replaces : option UUID) (request : MutationRequest) (s : IdStore) :
    result IdError GatewayKey * IdStore :=
  match newGatewayKeyMutation request userID name routes expiresAt replaces with
  | Err e => (Err e, s)
  | Ok mutation =>
      match deriveGatewayKeySecret (PnUserID actor) (MqIdempotencyKey request) with
      | Err e => (Err e, s)
      | Ok secret =>
          match key_hmac secret with
          | Err e => (Err e, s)
          | Ok digest =>
              match Encrypt (sv_envelope sv) random (text_bytes secret) (GatewayKeyEncryptionContext keyID) with
              | Err e => (Err (IEnvelope "encrypt gateway key" e), s)
              | Ok encrypted =>
                  let '(r, s') := Id_CreateGatewayKey lower collate (mu_tx o) (mu_first o) (mu_tries o) (mu_opID o)
                    (mkNewGatewayKey keyID userID name (credentialPrefix secret) digest encrypted routes expiresAt replaces)
                    (PnUserID actor) mutation s in
                  (match r with Ok key => Ok (with_secret secret key) | Err e => Err e end, s')
              end
          end
      end
  end.

Definition CreateGatewayKey (random : nat -> result string bytes) (o : Mutating) (keyID : UUID) (now : Z) (actor : Principal) (userID : UUID)
    (name : string) (routes : list GatewayKeyRoute) (expiresAt : option Z) (request : MutationRequest) (s : IdStore) :
    result IdError GatewayKey * IdStore :=
  if (negb (is_active actor) || negb (may_act_for actor userID))%bool then (Err IForbidden, s)
  else
    let name := TrimSpace name in
    if (bool_decide (userID = uuid_Nil) || bool_decide (name = "") || (maximumNameRunes <? RuneCount name) ||
        (Z.of_nat (length routes) =? 0) || (maximumKeyModels <? Z.of_nat (length routes)))%bool then (Err IInvalidInput, s)
    else
      let normalizedRoutes := merge_sort by_model routes in
      if negb (routes_valid None normalizedRoutes) then (Err IInvalidInput, s)
      else if match expiresAt with Some e => negb (After e now) | None => false end then (Err IInvalidInput, s)
      else createGatewayKey random o keyID actor userID name normalizedRoutes expiresAt None request s.

Definition replacement_suffix : string := " replacement".

Definition replacement_name (name : string) : string :=
  let runes := if maximumNameRunes <? char_length name + char_length replacement_suffix
               then take_runes (maximumNameRunes - char_length replacement_suffix) name else name in
  TrimSpace runes +:+ replacement_suffix.

Definition ReplaceGatewayKey (random : nat -> result string bytes) (o : Mutating) (newKeyID : UUID) (c : Conn) (next : Turn Conn) (before : list IdCall)
    (actor : Principal) (keyID : UUID) (request : MutationRequest) (s : IdStore) : result IdError GatewayKey * IdStore :=
  if (negb (is_active actor) || bool_decide (keyID = uuid_Nil))%bool then (Err IForbidden, s)
  else
    let '(r, s) := Id_GatewayKeyForReplacement lower collate c next keyID s in
    match r with
    | Err e => (Err e, s)
    | Ok original =>
        if negb (may_act_for actor (KyUserID original)) then (Err IForbidden, s)
        else
          createGatewayKey random o newKeyID actor (KyUserID original) (replacement_name (KyName original)) (KyRoutes original)
            (KyExpiresAt original) (Some (KyID original)) request (id_history lower collate before s)
    end.

Definition RevealGatewayKey (c : Conn) (next second third : Turn Conn) (actor : Principal) (keyID : UUID) (s : IdStore) :
    result IdError string * IdStore :=
  if (negb (is_active actor) || bool_decide (keyID = uuid_Nil))%bool then (Err IForbidden, s)
  else
    let '(r, s) := Id_GatewayKeyForReplacement lower collate c next keyID s in
    match r with
    | Err e => (Err e, s)
    | Ok key =>
        if negb (may_act_for actor (KyUserID key)) then (Err IForbidden, s)
        else
          let s := id_history lower collate (tn_before second) s in
          match Id_GetEncryptedGatewayKey (tn_conn second) keyID s with
          | Err e => (Err e, s)
          | Ok encrypted =>
              match Decrypt (sv_envelope sv) encrypted (GatewayKeyEncryptionContext keyID) with
              | Err e => (Err (IEnvelope "decrypt gateway key" e), s)
              | Ok plaintext =>
                  let secret := String.string_of_list_ascii plaintext in
                  if (negb (has_prefix secret "llmg_") || negb (bool_decide (credentialPrefix secret = KyPrefix key)))%bool
                  then (Err IInvalidCredential, s)
                  else
                    let '(a, s) := CreateAuditEvent (reveal_event keyID (PnUserID actor)) (tn_conn third) (id_history lower collate (tn_before third) s) in
                    (match a with Ok _ => Ok secret | Err e => Err (translateStoreError e) end, s)
              end
          end
    end.

Definition AuthenticateGatewayKey (c : Conn) (turn : Turn Conn) (secret : string) (s : IdStore) : result IdError GatewayPrincipal * IdStore :=
  if negb (has_prefix secret "llmg_") then (Err IInvalidCredential, s)
  else
    match key_hmac secret with
    | Err _ => (Err IInvalidCredential, s)
    | Ok digest =>
        match Id_FindGatewayPrincipal c digest s with
        | Err _ => (Err IInvalidCredential, s)
        | Ok principal =>
            if bool_decide (GpStatus principal = UserActive) then
              (Ok principal, (TouchGatewayKey (GpKeyID principal) (tn_conn turn) (id_history lower collate (tn_before turn) s)).2)
            else (Err IInvalidCredential, s)
        end
    end.

Definition GatewayPrincipalByID (c : Conn) (keyID : UUID) (s : IdStore) : result IdError GatewayPrincipal :=
  if bool_decide (keyID = uuid_Nil) then Err IInvalidCredential
  else
    match Id_FindGatewayPrincipalByID c keyID s with
    | Err _ => Err IInvalidCredential
    | Ok principal => if bool_decide (GpStatus principal = UserActive) then Ok principal else Err IInvalidCredential
    end.

Definition ListGatewayKeys (c : Conn) (next : Turn Conn) (actor : Principal) (userID : UUID) (s : IdStore) :
    result IdError (list GatewayKey) * IdStore :=
  if (negb (bool_decide (PnUserID actor = userID)) && negb (CanManageUsers actor))%bool then (Err IForbidden, s)
  else Id_ListGatewayKeys lower collate c next userID s.

Definition DeleteGatewayKey (o : Mutating) (actor : Principal) (keyID : UUID) (s : IdStore) : result IdError unit * IdStore :=
  Id_DeleteGatewayKey lower collate (mu_tx o) (mu_first o) (mu_tries o) keyID (PnUserID actor) (CanManageUsers actor) s.
End service.
