(* ===== verification/IdentityHistory.v ===== *)
(** * How the tables of identities change

    Every atomic call keeps the tables well formed ([id_wf]) and lets their
    rows only move on ([grows]): a user keeps its role and stays deleted, a
    session and a key keep whose they are and stay revoked or deleted.  The
    proofs go by statement and are lifted to transactions and histories. *)

From S2P Require Import Prelude GoStrings Canonical Envelope Sql RequestTable RequestStore RequestHistory Password IdentityTable IdentityStore.

Local Open Scope Z_scope.

Create HintDb idtx.

(** ** Rows that move on *)

Record user_moves (u u' : UserRecord) : Prop := {
  um_id : UdID u' = UdID u;
  um_role : UdRole u' = UdRole u;
  um_deleted : UdStatus u = UserDeleted -> UdStatus u' = UserDeleted;
  um_active : UdRole u = UserAdministrator -> UdStatus u = UserActive -> UdStatus u' = UserActive;
}.

Record session_moves (r r' : SessionRecord) : Prop := {
  sm_fixed : (SsID r', SsUserID r', SsTokenDigest r', SsCsrfDigest r', SsExpiresAt r') =
             (SsID r, SsUserID r, SsTokenDigest r, SsCsrfDigest r, SsExpiresAt r);
  sm_revoked : is_null (SsRevokedAt r) = false -> SsRevokedAt r' = SsRevokedAt r;
}.

Record key_moves (k k' : KeyRecord) : Prop := {
  km_fixed : (GkID k', GkUserID k', GkName k', GkPrefix k', GkSecretDigest k', GkEncryptedSecret k', GkExpiresAt k') =
             (GkID k, GkUserID k, GkName k, GkPrefix k, GkSecretDigest k, GkEncryptedSecret k, GkExpiresAt k);
  km_deleted : is_null (GkDeletedAt k) = false -> GkDeletedAt k' = GkDeletedAt k;
}.

#[export] Instance user_moves_preorder : PreOrder user_moves.
Proof. split; [by intros u; split|]. intros u1 u2 u3 [? Hr ? ?] [? ? ? ?]. split; [congruence..|auto|]. rewrite Hr in *. auto. Qed.
#[export] Instance session_moves_preorder : PreOrder session_moves.
Proof.
  split; [by intros u; split|]. intros r1 r2 r3 [H1 H2] [H3 H4]. split; [congruence|]. intros H. rewrite <- (H2 H). apply H4. by rewrite (H2 H).
Qed.
#[export] Instance key_moves_preorder : PreOrder key_moves.
Proof.
  split; [by intros u; split|]. intros r1 r2 r3 [H1 H2] [H3 H4]. split; [congruence|]. intros H. rewrite <- (H2 H). apply H4. by rewrite (H2 H).
Qed.

(** Rows stay in a table and move by [M]. *)
Definition table_grows {R} (M : R -> R -> Prop) (t t' : gmap UUID R) : Prop :=
  forall id r, t !! id = Some r -> exists r', t' !! id = Some r' /\ M r r'.

#[export] Instance table_grows_preorder {R} (M : R -> R -> Prop) `{!PreOrder M} : PreOrder (table_grows M).
Proof.
  split; [intros t id r Hr; by exists r|]. intros t1 t2 t3 H12 H23 id r Hr. destruct (H12 id r Hr) as (r2 & Hr2 & H2).
  destruct (H23 id r2 Hr2) as (r3 & Hr3 & H3). exists r3. split; [done|]. by etrans.
Qed.

Record grows (s s' : IdStore) : Prop := {
  gr_users : table_grows user_moves (id_users s) (id_users s');
  gr_sessions : table_grows session_moves (id_sessions s) (id_sessions s');
  gr_keys : table_grows key_moves (id_keys s) (id_keys s');
  gr_routes : id_key_models s ⊆ id_key_models s';
}.

#[export] Instance grows_preorder : PreOrder grows.
Proof.
  split; [intros s; by split|]. intros s1 s2 s3 [? ? ? ?] [? ? ? ?]. split; by etrans.
Qed.

(** ** Statements and transactions that stay within a relation *)

Definition query_rel {S A} (Rel : relation S) (q : Statement S A) : Prop := forall c s, Rel s (q c s).2.
Definition tx_rel {S E A} (Rel : relation S) (m : Program S E A) : Prop := forall t n s, Rel s (m t n s).2.

Section lifting.
Context {S E : Type} {Rel : relation S} `{!PreOrder Rel}.

Lemma rel_ret {A} (a : A) : tx_rel Rel (tx_ret (E:=E) a).
Proof. intros t n s. reflexivity. Qed.

Lemma rel_fail {A} (e : E) : tx_rel Rel (tx_fail (A:=A) e).
Proof. intros t n s. reflexivity. Qed.

Lemma rel_bind {A B} (m : Program S E A) (k : A -> Program S E B) : tx_rel Rel m -> (forall a, tx_rel Rel (k a)) -> tx_rel Rel (tx_bind m k).
Proof.
  intros Hm Hk t n s. unfold tx_bind. specialize (Hm t n s). destruct (m t n s) as [[[a|e] n'] s']; simpl in *; [|done].
  etrans; [exact Hm|]. apply Hk.
Qed.

Lemma rel_ask {A} (q : Statement S A) : query_rel Rel q -> tx_rel Rel (ask (E:=E) q).
Proof. intros Hq t n s. unfold ask. specialize (Hq (statement t n) s). by destruct (q (statement t n) s). Qed.

Lemma rel_query_with {A} translate (q : Statement S A) : query_rel Rel q -> tx_rel Rel (query_with (E:=E) translate q).
Proof. intros Hq. apply rel_bind; [by apply rel_ask|]. intros [a|e]; [apply rel_ret|apply rel_fail]. Qed.

Lemma rel_reads {A} (f : Z -> S -> result PgError A) : query_rel Rel (reads f).
Proof. intros c s. reflexivity. Qed.

Lemma rel_execrows {A} (q : Statement S A) : query_rel Rel q -> query_rel Rel (execrows q).
Proof. intros Hq c s. unfold execrows. specialize (Hq c s). by destruct (q c s). Qed.

Lemma rel_run_with {A} translate (m : Program S E (Ending A)) t s : tx_rel Rel m -> Rel s (run_with translate m t s).2.
Proof.
  intros Hm. unfold run_with. destruct (tx_begin t); [reflexivity|]. specialize (Hm t 0%nat s).
  destruct (m t 0%nat s) as [[[[a|a]|e] n] s']; simpl in *; [|reflexivity..]. destruct (tx_commit t); [exact Hm|reflexivity|exact Hm].
Qed.
End lifting.

Lemma rel_query {Rel : relation IdStore} `{!PreOrder Rel} {A} (q : Query A) : query_rel Rel q -> tx_rel Rel (query q).
Proof. apply rel_query_with. Qed.
Lemma rel_query_raw {Rel : relation IdStore} `{!PreOrder Rel} {A} (q : Query A) : query_rel Rel q -> tx_rel Rel (query_raw q).
Proof. apply rel_query_with. Qed.
Lemma rel_run {Rel : relation IdStore} `{!PreOrder Rel} {A} (m : TxM (Ending A)) t s : tx_rel Rel m -> Rel s (run_tx m t s).2.
Proof. apply rel_run_with. Qed.

#[export] Hint Resolve rel_ret rel_fail rel_ask rel_query_with rel_query rel_query_raw rel_reads rel_execrows : idtx.
#[export] Hint Extern 0 (PreOrder _) => solve [apply _] : idtx.

(** Walks through a transaction body. *)
Ltac rel_step :=
  match goal with
  | |- tx_rel _ (tx_bind _ _) => apply rel_bind; [|let x := fresh "x" in intros x]
  | |- tx_rel _ (match ?x with _ => _ end) => destruct x
  | |- tx_rel _ (if ?x then _ else _) => destruct x
  | |- tx_rel _ ((λ _, _) _) => simpl
  | |- _ => solve [eauto 4 with idtx]
  end.
Ltac rel_steps := repeat rel_step.

(** ** Well-formed tables *)

Section wf.
Context (lower : string -> string).

(** A column names one row. *)
Definition unique_on {R K} (p : R -> bool) (key : R -> K) (t : gmap UUID R) : Prop :=
  forall i j r r', t !! i = Some r -> t !! j = Some r' -> p r = true -> p r' = true -> key r = key r' -> i = j.

Record id_wf (s : IdStore) : Prop := {
  iw_users id u : id_users s !! id = Some u -> UdID u = id /\ user_check u = true;
  iw_emails : unique_on not_deleted (λ u, lower (UdEmail u)) (id_users s);
  iw_sessions id r : id_sessions s !! id = Some r -> SsID r = id /\ is_Some (id_users s !! SsUserID r);
  iw_tokens : unique_on (λ _, true) SsTokenDigest (id_sessions s);
  iw_keys id k : id_keys s !! id = Some k -> GkID k = id /\ is_Some (id_users s !! GkUserID k);
  iw_digests : unique_on (λ _, true) GkSecretDigest (id_keys s);
  iw_mutations id m : id_member_mutations s !! id = Some m -> MmID m = id;
  iw_mutation_keys : unique_on (λ _, true) (λ m, (MmActorUserID m, MmAction m, MmIdempotencyKey m)) (id_member_mutations s);
  iw_key_mutations id m : id_key_mutations s !! id = Some m -> GmID m = id;
  iw_key_mutation_keys : unique_on (λ _, true) (λ m, (GmActorUserID m, GmIdempotencyKey m)) (id_key_mutations s);
}.

Definition moves_on (s s' : IdStore) : Prop := id_wf s -> id_wf s' /\ grows s s'.

#[local] Instance moves_on_preorder : PreOrder moves_on.
Proof.
  split; [by intros s Hs|]. intros s1 s2 s3 H12 H23 H1. destruct (H12 H1) as [H2 G2]. destruct (H23 H2) as [H3 G3]. split; [done|by etrans].
Qed.

Abbreviation sound_query := (query_rel moves_on).
Abbreviation sound_tx := (tx_rel moves_on).

(** ** Tables *)

Lemma unique_on_insert {R K} (p : R -> bool) (key : R -> K) t id r :
  unique_on p key t -> (forall j r', j <> id -> t !! j = Some r' -> p r = true -> p r' = true -> key r' <> key r) ->
  unique_on p key (<[id := r]> t).
Proof.
  intros Hu Hn i j r1 r2 H1 H2 Hp1 Hp2 Hk. destruct (decide (i = id)) as [->|Hi]; destruct (decide (j = id)) as [->|Hj]; [done|..].
  - rewrite lookup_insert_eq in H1. rewrite lookup_insert_ne in H2 by done. simplify_eq. exfalso. by eapply Hn.
  - rewrite lookup_insert_eq in H2. rewrite lookup_insert_ne in H1 by done. simplify_eq. exfalso. by eapply (Hn i r1).
  - rewrite lookup_insert_ne in H1, H2 by done. eauto.
Qed.

Lemma unique_on_fmap {R K} (p : R -> bool) (key : R -> K) (f : R -> R) t :
  unique_on p key t -> (forall r, key (f r) = key r /\ p (f r) = p r) -> unique_on p key (f <$> t).
Proof.
  intros Hu Hf i j r1 r2 H1 H2 Hp1 Hp2 Hk. rewrite !lookup_fmap in *. apply fmap_Some in H1 as (q1 & H1 & ->). apply fmap_Some in H2 as (q2 & H2 & ->).
  destruct (Hf q1) as [E1 P1]. destruct (Hf q2) as [E2 P2]. apply (Hu i j q1 q2); congruence.
Qed.

Lemma grows_insert {R} (M : R -> R -> Prop) `{!PreOrder M} t id r :
  (forall r0, t !! id = Some r0 -> M r0 r) -> table_grows M t (<[id := r]> t).
Proof.
  intros H j r0 Hj. destruct (decide (j = id)) as [->|Hne]; [rewrite lookup_insert_eq; eauto|].
  rewrite lookup_insert_ne by done. exists r0. split; [done|reflexivity].
Qed.

Lemma grows_fmap {R} (M : R -> R -> Prop) (f : R -> R) t : (forall r, M r (f r)) -> table_grows M t (f <$> t).
Proof. intros H j r Hj. exists (f r). by rewrite lookup_fmap, Hj. Qed.

Lemma table_grows_some {R} (M : R -> R -> Prop) t t' id : table_grows M t t' -> is_Some (t !! id) -> is_Some (t' !! id).
Proof. intros Hg [r Hr]. destruct (Hg id r Hr) as (r' & Hr' & _). eauto. Qed.

Lemma wf_set_users s t :
  id_wf s -> (forall id u, t !! id = Some u -> UdID u = id /\ user_check u = true) ->
  unique_on not_deleted (λ u, lower (UdEmail u)) t -> table_grows user_moves (id_users s) t ->
  id_wf (set_users t s) /\ grows s (set_users t s).
Proof.
  intros Hs Hu He Hg. split; [|by split]. destruct Hs. split; simpl; try done.
  - intros id r Hr. destruct (iw_sessions0 id r Hr). split; [done|]. by eapply table_grows_some.
  - intros id r Hr. destruct (iw_keys0 id r Hr). split; [done|]. by eapply table_grows_some.
Qed.

Lemma wf_set_sessions s t :
  id_wf s -> (forall id r, t !! id = Some r -> SsID r = id /\ is_Some (id_users s !! SsUserID r)) ->
  unique_on (λ _, true) SsTokenDigest t -> table_grows session_moves (id_sessions s) t ->
  id_wf (set_sessions t s) /\ grows s (set_sessions t s).
Proof. intros Hs Hr Hu Hg. split; [|by split]. destruct Hs. by split. Qed.

Lemma wf_set_keys s t :
  id_wf s -> (forall id k, t !! id = Some k -> GkID k = id /\ is_Some (id_users s !! GkUserID k)) ->
  unique_on (λ _, true) GkSecretDigest t -> table_grows key_moves (id_keys s) t ->
  id_wf (set_keys t s) /\ grows s (set_keys t s).
Proof. intros Hs Hr Hu Hg. split; [|by split]. destruct Hs. by split. Qed.

(** ** Statements *)

Lemma sound_update_user id guard f :
  (forall c u, user_check u = true -> guard u = true -> user_check (f c u) = true -> user_moves u (f c u)) ->
  sound_query (update_user lower id guard f).
Proof.
  intros Hf c s Hs. unfold update_user, on_users. destruct (update_one _ c id guard (f c) (id_users s)) as [r t] eqn:Hu. simpl.
  apply update_one_inv in Hu as [(u & Hr & Hg & [Hck Hcl _] & _ & ->)|(-> & _)]; simpl in *.
  2:{ destruct s. by apply moves_on_preorder. }
  destruct (iw_users s Hs id u Hr) as [Hid Huc]. pose proof (Hf c u Huc Hg Hck) as Hm. apply wf_set_users; [done|..].
  - intros j v Hv. destruct (decide (j = id)) as [->|Hne]; [|rewrite lookup_insert_ne in Hv by done; by eapply iw_users].
    rewrite lookup_insert_eq in Hv. injection Hv as <-. split; [|done]. rewrite (um_id _ _ Hm). done.
  - apply unique_on_insert; [by apply iw_emails|]. intros j v Hne Hv Hd Hd' Heq. unfold user_clash in Hcl. rewrite Hd in Hcl. cbn [andb] in Hcl.
    apply not_true_iff_false in Hcl. apply Hcl, other_row_spec. exists j, v. split_and!; [done..|]. rewrite Hd', bool_decide_eq_true_2; done.
  - apply grows_insert; [apply _|]. intros v Hv. by simplify_eq.
Qed.

Lemma sound_CreateUser id email name hash role status : sound_query (CreateUser lower id email name hash role status).
Proof.
  intros c s Hs. unfold CreateUser, on_users. destruct (insert_one _ _ _ _ _) as [r t] eqn:Hi. simpl.
  apply insert_one_inv in Hi as [(Hn & [Hck Hcl _] & _ & ->)|(-> & _)]; simpl in *.
  2:{ destruct s. by apply moves_on_preorder. }
  apply wf_set_users; [done|..].
  - intros j v Hv. destruct (decide (j = id)) as [->|Hne]; [|rewrite lookup_insert_ne in Hv by done; by eapply iw_users].
    rewrite lookup_insert_eq in Hv. injection Hv as <-. done.
  - apply unique_on_insert; [by apply iw_emails|]. intros j v Hne Hv Hd Hd' Heq. unfold user_clash in Hcl. rewrite Hd in Hcl. cbn [andb] in Hcl.
    apply not_true_iff_false in Hcl. apply Hcl, other_row_spec. exists j, v. split_and!; [done..|]. rewrite Hd', bool_decide_eq_true_2; done.
  - apply grows_insert; [apply _|]. intros v Hv. congruence.
Qed.

Lemma sound_on_sessions_fmap (g : Conn -> SessionRecord -> bool) (f : Conn -> SessionRecord -> SessionRecord) :
  (forall c r, g c r = true -> session_moves r (f c r)) ->
  sound_query (on_sessions (λ c _ t, counted c (update_where (g c) (f c) t) t)).
Proof.
  intros Hf c s Hs. unfold on_sessions, counted. destruct (cn_fault c) as [e|]; simpl; [destruct s; by apply moves_on_preorder|].
  set (h := λ r, if g c r then f c r else r). assert (Hh : forall r, session_moves r (h r)).
  { intros r. unfold h. destruct (g c r) eqn:Hg; [by apply Hf|reflexivity]. }
  apply wf_set_sessions; [done|..].
  - intros id r Hr. rewrite lookup_fmap in Hr. apply fmap_Some in Hr as (r0 & Hr0 & ->). destruct (iw_sessions s Hs id r0 Hr0) as [Hid Huser].
    fold (h r0). pose proof (sm_fixed _ _ (Hh r0)) as Hfix. split; congruence.
  - apply (unique_on_fmap _ _ h); [by apply iw_tokens|]. intros r. split; [|done]. pose proof (sm_fixed _ _ (Hh r)). congruence.
  - by apply (grows_fmap _ h).
Qed.

Lemma sound_on_keys_fmap (g : Conn -> KeyRecord -> bool) (f : Conn -> KeyRecord -> KeyRecord) :
  (forall c r, g c r = true -> key_moves r (f c r)) ->
  sound_query (on_keys (λ c _ t, counted c (update_where (g c) (f c) t) t)).
Proof.
  intros Hf c s Hs. unfold on_keys, counted. destruct (cn_fault c) as [e|]; simpl; [destruct s; by apply moves_on_preorder|].
  set (h := λ r, if g c r then f c r else r). assert (Hh : forall r, key_moves r (h r)).
  { intros r. unfold h. destruct (g c r) eqn:Hg; [by apply Hf|reflexivity]. }
  apply wf_set_keys; [done|..].
  - intros id r Hr. rewrite lookup_fmap in Hr. apply fmap_Some in Hr as (r0 & Hr0 & ->). destruct (iw_keys s Hs id r0 Hr0) as [Hid Huser].
    fold (h r0). pose proof (km_fixed _ _ (Hh r0)) as Hfix. split; congruence.
  - apply (unique_on_fmap _ _ h); [by apply iw_digests|]. intros r. split; [|done]. pose proof (km_fixed _ _ (Hh r)). congruence.
  - by apply (grows_fmap _ h).
Qed.

Lemma sound_revoke_where guard : sound_query (revoke_where guard).
Proof.
  apply (sound_on_sessions_fmap (λ _ r, guard r && is_null (SsRevokedAt r))%bool (λ c, put_revoked (cn_now c))).
  intros c r [_ Hn]%andb_true_iff. split; [done|]. intros Hr. congruence.
Qed.

Lemma sound_TouchSession id : sound_query (TouchSession id).
Proof.
  apply (sound_on_sessions_fmap (λ _ r, bool_decide (SsID r = id) && is_null (SsRevokedAt r))%bool). intros c r _. by split.
Qed.

Lemma sound_delete_keys_where guard : sound_query (delete_keys_where guard).
Proof.
  apply (sound_on_keys_fmap (λ _ r, guard r && is_null (GkDeletedAt r))%bool (λ c, put_deleted (cn_now c))).
  intros c r [_ Hn]%andb_true_iff. split; [done|]. intros Hr. congruence.
Qed.

Lemma sound_TouchGatewayKey id : sound_query (TouchGatewayKey id).
Proof. apply (sound_on_keys_fmap (λ _ r, bool_decide (GkID r = id))). intros c r _. by split. Qed.

Lemma sound_CreateSession id userID token csrf expires : sound_query (CreateSession id userID token csrf expires).
Proof.
  intros c s Hs. unfold CreateSession, on_sessions. destruct (insert_one _ _ _ _ _) as [r t] eqn:Hi. simpl.
  apply insert_one_inv in Hi as [(Hn & [_ Hcl Href] & _ & ->)|(-> & _)]; simpl in *.
  2:{ destruct s. by apply moves_on_preorder. }
  unfold exists_in in Href. apply bool_decide_eq_true in Href. apply wf_set_sessions; [done|..].
  - intros j v Hv. destruct (decide (j = id)) as [->|Hne]; [|rewrite lookup_insert_ne in Hv by done; by eapply iw_sessions].
    rewrite lookup_insert_eq in Hv. injection Hv as <-. done.
  - apply unique_on_insert; [by apply iw_tokens|]. intros j v Hne Hv _ _ Heq. simpl in Heq. apply not_true_iff_false in Hcl.
    apply Hcl, other_row_spec. exists j, v. split_and!; [done..|]. by apply bool_decide_eq_true.
  - apply grows_insert; [apply _|]. intros v Hv. congruence.
Qed.

Lemma sound_CreateGatewayKey id userID name prefix digest encrypted expires :
  sound_query (CreateGatewayKey id userID name prefix digest encrypted expires).
Proof.
  intros c s Hs. unfold CreateGatewayKey, on_keys. destruct (insert_one _ _ _ _ _) as [r t] eqn:Hi. simpl.
  apply insert_one_inv in Hi as [(Hn & [_ Hcl Href] & _ & ->)|(-> & _)]; simpl in *.
  2:{ destruct s. by apply moves_on_preorder. }
  unfold exists_in in Href. apply bool_decide_eq_true in Href. apply wf_set_keys; [done|..].
  - intros j v Hv. destruct (decide (j = id)) as [->|Hne]; [|rewrite lookup_insert_ne in Hv by done; by eapply iw_keys].
    rewrite lookup_insert_eq in Hv. injection Hv as <-. done.
  - apply unique_on_insert; [by apply iw_digests|]. intros j v Hne Hv _ _ Heq. simpl in Heq. apply not_true_iff_false in Hcl.
    apply Hcl, other_row_spec. exists j, v. split_and!; [done..|]. by apply bool_decide_eq_true.
  - apply grows_insert; [apply _|]. intros v Hv. congruence.
Qed.

(** What is neither a user, a session, a key nor a route. *)
Lemma wf_frame s s' :
  id_wf s -> id_users s' = id_users s -> id_sessions s' = id_sessions s -> id_keys s' = id_keys s -> id_key_models s ⊆ id_key_models s' ->
  id_member_mutations s' = id_member_mutations s -> id_key_mutations s' = id_key_mutations s -> id_wf s' /\ grows s s'.
Proof.
  intros [] Hu Hss Hk Hr Hm Hkm. split.
  - split; rewrite ?Hu, ?Hss, ?Hk, ?Hm, ?Hkm; done.
  - split; [by rewrite Hu|by rewrite Hss|by rewrite Hk|done].
Qed.

Lemma sound_BindGatewayKeyRoute keyID modelID poolID : sound_query (BindGatewayKeyRoute keyID modelID poolID).
Proof.
  intros c s Hs. unfold BindGatewayKeyRoute. destruct (cn_fault c); [by apply moves_on_preorder|].
  destruct (id_key_models s !! (keyID, modelID)) eqn:Hl; [by apply moves_on_preorder|]. destruct (route_refers _ _ _ _); [|by apply moves_on_preorder].
  apply wf_frame; try done. by apply insert_subseteq.
Qed.

Lemma sound_MarkBootstrapped : sound_query MarkBootstrapped.
Proof.
  intros c s Hs. unfold MarkBootstrapped. destruct (cn_fault c); [by apply moves_on_preorder|].
  destruct (id_bootstrapped_at s); [by apply moves_on_preorder|]. by apply wf_frame.
Qed.

Lemma sound_CreateAuditEvent e : sound_query (CreateAuditEvent e).
Proof.
  intros c s Hs. unfold CreateAuditEvent. destruct (cn_fault c); [by apply moves_on_preorder|]. destruct (match _ with Some _ => _ | None => _ end);
    [|by apply moves_on_preorder]. by apply wf_frame.
Qed.

Lemma find_row_Some {R} (p : R -> bool) (t : gmap UUID R) r : find_row p t = Some r -> p r = true /\ exists id, t !! id = Some r.
Proof. unfold find_row. intros [Hin Hp]%List.find_some. split; [done|]. by apply rows_spec, list_elem_of_In. Qed.

Lemma find_row_None {R} (p : R -> bool) (t : gmap UUID R) id r : find_row p t = None -> t !! id = Some r -> p r = false.
Proof.
  unfold find_row. intros Hn Hr. apply (List.find_none _ _ Hn), list_elem_of_In, rows_spec. by exists id.
Qed.

(** When the row is the only one that fits, it is found. *)
Lemma find_row_unique {R} (p : R -> bool) (t : gmap UUID R) id r :
  t !! id = Some r -> p r = true -> (forall j r', t !! j = Some r' -> p r' = true -> j = id) -> find_row p t = Some r.
Proof.
  intros Hr Hp Hu. destruct (find_row p t) as [r'|] eqn:Hf.
  - apply find_row_Some in Hf as (Hp' & j & Hj). rewrite (Hu j r' Hj Hp') in Hj. congruence.
  - rewrite (find_row_None _ _ _ _ Hf Hr) in Hp. done.
Qed.

Lemma same_member_mutation_spec actorID action key m :
  same_member_mutation actorID action key m = true <-> (MmActorUserID m, MmAction m, MmIdempotencyKey m) = (actorID, action, key).
Proof. clear lower. unfold same_member_mutation. rewrite !andb_true_iff, !bool_decide_eq_true. naive_solver. Qed.

Lemma same_key_mutation_spec actorID key m :
  same_key_mutation actorID key m = true <-> (GmActorUserID m, GmIdempotencyKey m) = (actorID, key).
Proof. clear lower. unfold same_key_mutation. rewrite !andb_true_iff, !bool_decide_eq_true. naive_solver. Qed.

Lemma wf_set_member_mutations s t :
  id_wf s -> (forall id m, t !! id = Some m -> MmID m = id) ->
  unique_on (λ _, true) (λ m, (MmActorUserID m, MmAction m, MmIdempotencyKey m)) t ->
  id_wf (set_member_mutations t s) /\ grows s (set_member_mutations t s).
Proof. intros [] Hid Hu. split; [by split|]. by split. Qed.

Lemma wf_set_key_mutations s t :
  id_wf s -> (forall id m, t !! id = Some m -> GmID m = id) -> unique_on (λ _, true) (λ m, (GmActorUserID m, GmIdempotencyKey m)) t ->
  id_wf (set_key_mutations t s) /\ grows s (set_key_mutations t s).
Proof. intros [] Hid Hu. split; [by split|]. by split. Qed.

(** A claim inserts a new record, or changes nothing. *)
Lemma ClaimMemberMutation_inv id actorID action key userID fp requestID c s r s' :
  ClaimMemberMutation id actorID action key userID fp requestID c s = (r, s') ->
  (s' = s /\ (exists e, r = Err e /\ (e = NoRows -> cn_fault c = None -> exists m, find_row (same_member_mutation actorID action key) (id_member_mutations s) = Some m))) \/
  (find_row (same_member_mutation actorID action key) (id_member_mutations s) = None /\ id_member_mutations s !! id = None /\ length fp = 32%nat /\
   let m := mkMemberMutationRecord id actorID action key userID fp requestID None MrEmpty (cn_now c) in
   r = Ok m /\ s' = set_member_mutations (<[id := m]> (id_member_mutations s)) s).
Proof.
  unfold ClaimMemberMutation. destruct (negb (is_null (cn_fault c)) || _ || _)%bool eqn:Hb.
  - destruct (insert_one _ _ _ _ _) as [r0 t] eqn:Hi. intros [= <- <-].
    pose proof Hi as [(Hn & [Hck _ _] & -> & ->)|(-> & e & ->)]%insert_one_inv.
    + right. simpl in Hck. assert (Hf : cn_fault c = None) by (unfold insert_one in Hi; by destruct (cn_fault c)).
      rewrite Hf in Hb. apply Nat.eqb_eq in Hck. rewrite Hck in Hb. simpl in Hb. split_and!; try done.
      by destruct (find_row _ _).
    + left. split; [by destruct s|]. exists e. split; [done|]. intros -> Hf. unfold insert_one, violates in Hi. rewrite Hf in Hi. by repeat case_match.
  - apply orb_false_iff in Hb as [_ Hb]. intros [= <- <-]. left. split; [done|]. exists NoRows. split; [done|]. intros _ _.
    destruct (find_row _ _) as [m|] eqn:Hf; [by exists m|done].
Qed.

Lemma ClaimGatewayKeyMutation_inv id actorID key fp requestID c s r s' :
  ClaimGatewayKeyMutation id actorID key fp requestID c s = (r, s') ->
  (s' = s /\ (exists e, r = Err e /\ (e = NoRows -> cn_fault c = None -> exists m, find_row (same_key_mutation actorID key) (id_key_mutations s) = Some m))) \/
  (find_row (same_key_mutation actorID key) (id_key_mutations s) = None /\ id_key_mutations s !! id = None /\ length fp = 32%nat /\
   let m := mkKeyMutationRecord id actorID key fp requestID None KmEmpty (cn_now c) in
   r = Ok m /\ s' = set_key_mutations (<[id := m]> (id_key_mutations s)) s).
Proof.
  unfold ClaimGatewayKeyMutation. destruct (negb (is_null (cn_fault c)) || _ || _)%bool eqn:Hb.
  - destruct (insert_one _ _ _ _ _) as [r0 t] eqn:Hi. intros [= <- <-].
    pose proof Hi as [(Hn & [Hck _ _] & -> & ->)|(-> & e & ->)]%insert_one_inv.
    + right. simpl in Hck. assert (Hf : cn_fault c = None) by (unfold insert_one in Hi; by destruct (cn_fault c)).
      rewrite Hf in Hb. apply Nat.eqb_eq in Hck. rewrite Hck in Hb. simpl in Hb. split_and!; try done.
      by destruct (find_row _ _).
    + left. split; [by destruct s|]. exists e. split; [done|]. intros -> Hf. unfold insert_one, violates in Hi. rewrite Hf in Hi. by repeat case_match.
  - apply orb_false_iff in Hb as [_ Hb]. intros [= <- <-]. left. split; [done|]. exists NoRows. split; [done|]. intros _ _.
    destruct (find_row _ _) as [m|] eqn:Hf; [by exists m|done].
Qed.

Lemma wf_claimed s id m :
  id_wf s -> MmID m = id ->
  find_row (same_member_mutation (MmActorUserID m) (MmAction m) (MmIdempotencyKey m)) (id_member_mutations s) = None ->
  moves_on s (set_member_mutations (<[id := m]> (id_member_mutations s)) s).
Proof.
  intros Hs Hid Hf _. apply wf_set_member_mutations; [done|..].
  - intros j m' Hm. destruct (decide (j = id)) as [->|Hne]; [rewrite lookup_insert_eq in Hm; by injection Hm as <-|].
    rewrite lookup_insert_ne in Hm by done. by eapply iw_mutations.
  - apply unique_on_insert; [by apply iw_mutation_keys|]. intros j m' _ Hm _ _ Heq. simpl in Heq.
    pose proof (find_row_None _ _ _ _ Hf Hm) as Hx. apply not_true_iff_false in Hx. by apply Hx, same_member_mutation_spec.
Qed.

Lemma wf_claimed_key s id m :
  id_wf s -> GmID m = id -> find_row (same_key_mutation (GmActorUserID m) (GmIdempotencyKey m)) (id_key_mutations s) = None ->
  moves_on s (set_key_mutations (<[id := m]> (id_key_mutations s)) s).
Proof.
  intros Hs Hid Hf _. apply wf_set_key_mutations; [done|..].
  - intros j m' Hm. destruct (decide (j = id)) as [->|Hne]; [rewrite lookup_insert_eq in Hm; by injection Hm as <-|].
    rewrite lookup_insert_ne in Hm by done. by eapply iw_key_mutations.
  - apply unique_on_insert; [by apply iw_key_mutation_keys|]. intros j m' _ Hm _ _ Heq. simpl in Heq.
    pose proof (find_row_None _ _ _ _ Hf Hm) as Hx. apply not_true_iff_false in Hx. by apply Hx, same_key_mutation_spec.
Qed.

Lemma sound_ClaimMemberMutation id actorID action key userID fp requestID : sound_query (ClaimMemberMutation id actorID action key userID fp requestID).
Proof.
  intros c s Hs. destruct (ClaimMemberMutation _ _ _ _ _ _ _ c s) as [r s'] eqn:Hc. simpl.
  apply ClaimMemberMutation_inv in Hc as [(-> & _)|(Hf & Hn & _ & _ & ->)]; [by apply moves_on_preorder|]. by apply wf_claimed.
Qed.

Lemma sound_ClaimGatewayKeyMutation id actorID key fp requestID : sound_query (ClaimGatewayKeyMutation id actorID key fp requestID).
Proof.
  intros c s Hs. destruct (ClaimGatewayKeyMutation _ _ _ _ _ c s) as [r s'] eqn:Hc. simpl.
  apply ClaimGatewayKeyMutation_inv in Hc as [(-> & _)|(Hf & Hn & _ & _ & ->)]; [by apply moves_on_preorder|]. by apply wf_claimed_key.
Qed.

Lemma sound_CompleteMemberMutation userID res id : sound_query (CompleteMemberMutation userID res id).
Proof.
  intros c s Hs. unfold CompleteMemberMutation. destruct (update_one _ _ _ _ _ _) as [r t] eqn:Hu. simpl.
  apply update_one_inv in Hu as [(m & Hm & _ & _ & _ & ->)|(-> & _)]; [|destruct s; by apply moves_on_preorder].
  apply wf_set_member_mutations; [done|..].
  - intros j m' Hm'. destruct (decide (j = id)) as [->|Hne]; [rewrite lookup_insert_eq in Hm'; injection Hm' as <-; by apply (iw_mutations s Hs id m)|].
    rewrite lookup_insert_ne in Hm' by done. by eapply iw_mutations.
  - apply unique_on_insert; [by apply iw_mutation_keys|]. intros j m' Hne Hm' _ _ Heq. simpl in Heq. apply Hne.
    by apply (iw_mutation_keys s Hs j id m' m).
Qed.

Lemma sound_CompleteGatewayKeyMutation keyID res id : sound_query (CompleteGatewayKeyMutation keyID res id).
Proof.
  intros c s Hs. unfold CompleteGatewayKeyMutation. destruct (update_one _ _ _ _ _ _) as [r t] eqn:Hu. simpl.
  apply update_one_inv in Hu as [(m & Hm & _ & _ & _ & ->)|(-> & _)]; [|destruct s; by apply moves_on_preorder].
  apply wf_set_key_mutations; [done|..].
  - intros j m' Hm'. destruct (decide (j = id)) as [->|Hne]; [rewrite lookup_insert_eq in Hm'; injection Hm' as <-; by apply (iw_key_mutations s Hs id m)|].
    rewrite lookup_insert_ne in Hm' by done. by eapply iw_key_mutations.
  - apply unique_on_insert; [by apply iw_key_mutation_keys|]. intros j m' Hne Hm' _ _ Heq. simpl in Heq. apply Hne.
    by apply (iw_key_mutation_keys s Hs j id m' m).
Qed.

(** Updates of users. *)
Lemma member_moves u u' : (is_member u && not_deleted u)%bool = true -> UdID u' = UdID u -> UdRole u' = UdRole u -> user_moves u u'.
Proof.
  unfold is_member, not_deleted. rewrite andb_true_iff, negb_true_iff, bool_decide_eq_true, bool_decide_eq_false. intros [Hm Hn] Hid Hr.
  split; [done..|congruence].
Qed.

Lemma sound_UpdateUserProfile clock email name id expected : sound_query (UpdateUserProfile lower clock email name id expected).
Proof. apply sound_update_user. intros c u _ [Hg _]%andb_true_iff _. by apply member_moves. Qed.
Lemma sound_UpdateUserStatus clock status id : sound_query (UpdateUserStatus lower clock status id).
Proof. apply sound_update_user. intros c u _ Hg _. by apply member_moves. Qed.
Lemma sound_MarkUserDeleted clock id : sound_query (MarkUserDeleted lower clock id).
Proof. apply sound_update_user. intros c u _ Hg _. by apply member_moves. Qed.
Lemma sound_UpdateUserPassword hash id : sound_query (UpdateUserPassword lower hash id).
Proof. apply sound_update_user. intros c u _ Hg _. by split. Qed.
Lemma sound_UpdateOwnPassword hash id expected : sound_query (UpdateOwnPassword lower hash id expected).
Proof. apply rel_execrows, sound_update_user. intros c u _ Hg _. by split. Qed.
Lemma sound_UpdateRecoveredUser hash id : sound_query (UpdateRecoveredUser lower hash id).
Proof.
  apply rel_execrows, sound_update_user. intros c u Hc _ Hc'. split; [done|done| |done]. intros Hd. exfalso. revert Hc Hc'. unfold user_check. simpl.
  rewrite Hd. destruct (UdDeletedAt u); simpl; rewrite ?andb_false_r; done.
Qed.

#[local] Hint Resolve sound_CreateUser sound_revoke_where
  sound_TouchSession sound_delete_keys_where sound_TouchGatewayKey sound_CreateSession sound_CreateGatewayKey sound_BindGatewayKeyRoute
  sound_MarkBootstrapped sound_CreateAuditEvent sound_ClaimMemberMutation sound_ClaimGatewayKeyMutation sound_CompleteMemberMutation
  sound_CompleteGatewayKeyMutation sound_UpdateUserProfile sound_UpdateUserStatus sound_MarkUserDeleted sound_UpdateUserPassword
  sound_UpdateOwnPassword sound_UpdateRecoveredUser : idtx.

Lemma sound_apply_member clock a : sound_tx (apply_member lower clock a).
Proof. destruct a; simpl; rel_steps. Qed.

Lemma sound_claim_member {A} opID actorID userID mutation replay (work : MemberMutationRecord -> TxM (Ending A)) :
  (forall m, sound_tx (work m)) -> sound_tx (claim_member opID actorID userID mutation replay work).
Proof. intros Hw. unfold claim_member. rel_steps; try apply Hw. Qed.

Lemma sound_mutate_body clock opID actorID mutation a : sound_tx (mutate_body lower clock opID actorID mutation a).
Proof. apply sound_claim_member. intros m. apply rel_bind; [apply sound_apply_member|]. intros [[user action] detail]. rel_steps. Qed.

Lemma sound_reset_body opID userID hash actorID mutation : sound_tx (reset_body lower opID userID hash actorID mutation).
Proof. apply sound_claim_member. intros m. rel_steps. Qed.

Context (collate : string -> string -> comparison).

Lemma sound_validate_routes userID routes : sound_tx (validate_routes userID routes).
Proof. induction routes as [|r routes IH]; simpl; rel_steps. Qed.

Lemma sound_bind_routes keyID routes : sound_tx (bind_routes keyID routes).
Proof. induction routes as [|r routes IH]; simpl; rel_steps. Qed.

Lemma sound_create_key_body opID input actorID mutation : sound_tx (create_key_body collate opID input actorID mutation).
Proof.
  unfold create_key_body, check_replaced. rel_steps. all: first [apply sound_validate_routes|apply sound_bind_routes].
Qed.

Lemma id_exec_sound call s : moves_on s (id_exec lower collate call s).
Proof.
  destruct call; cbn [id_exec].
  - apply rel_run. unfold bootstrap_body. rel_steps.
  - apply rel_run, sound_mutate_body.
  - apply rel_run, sound_reset_body.
  - apply rel_run. unfold change_own_body. rel_steps.
  - apply rel_run. unfold revoke_body. rel_steps. apply rel_query. destruct preserved; apply sound_revoke_where.
  - apply rel_run. unfold recover_body. rel_steps.
  - apply rel_run, sound_create_key_body.
  - apply rel_run. unfold delete_key_body. rel_steps.
  - apply sound_CreateSession.
  - apply sound_revoke_where.
  - apply sound_TouchSession.
  - apply sound_TouchGatewayKey.
  - apply sound_CreateAuditEvent.
  - intros Hs. by apply wf_frame.
Qed.

Lemma id_history_app calls calls' s : id_history lower collate (calls ++ calls') s = id_history lower collate calls' (id_history lower collate calls s).
Proof. revert s. induction calls as [|call calls IH]; intros s; [done|]. simpl. apply IH. Qed.

Lemma id_history_sound calls s : moves_on s (id_history lower collate calls s).
Proof.
  revert s. induction calls as [|call calls IH]; intros s; [reflexivity|]. simpl. etrans; [apply id_exec_sound|apply IH].
Qed.
End wf.

#[export] Existing Instance moves_on_preorder.

(** * What the records of mutations say

    [calm] is the relation between stores that all statements but those of the
    bootstrap stay within; [ledger] the invariant of the calls that the service
    makes ([issued]): one administrator, and records of mutations that tell
    the truth about users and keys.  From it: what a mutation that is repeated
    answers. *)

(** ** Calm statements *)

(** The bootstrap mark stays, nobody becomes an administrator and no record of
    a mutation changes, except the ones with identifiers [mop] and [kop]. *)
Record calm (mop kop : option UUID) (s s' : IdStore) : Prop := {
  cm_mark : id_bootstrapped_at s' = id_bootstrapped_at s;
  cm_admins id u' : id_users s' !! id = Some u' -> UdRole u' = UserAdministrator ->
    exists u, id_users s !! id = Some u /\ UdRole u = UserAdministrator;
  cm_members id : Some id <> mop -> id_member_mutations s' !! id = id_member_mutations s !! id;
  cm_keys id : Some id <> kop -> id_key_mutations s' !! id = id_key_mutations s !! id;
}.

#[export] Instance calm_preorder mop kop : PreOrder (calm mop kop).
Proof.
  split; [intros s; split; [done| |done..]; eauto|]. intros s1 s2 s3 [M1 A1 R1 K1] [M2 A2 R2 K2]. split; [congruence| |..].
  - intros id u3 H3 Hr. destruct (A2 id u3 H3 Hr) as (u2 & H2 & Hr2). eauto.
  - intros id Hn. by rewrite R2, R1.
  - intros id Hn. by rewrite K2, K1.
Qed.

(** A statement that changes none of these tables. *)
Lemma calm_frame mop kop s s' :
  id_bootstrapped_at s' = id_bootstrapped_at s -> id_users s' = id_users s -> id_member_mutations s' = id_member_mutations s ->
  id_key_mutations s' = id_key_mutations s -> calm mop kop s s'.
Proof. intros Hm Hu Hr Hk. split; [done| |intros; by rewrite Hr|intros; by rewrite Hk]. rewrite Hu. eauto. Qed.

Lemma calm_users mop kop s t :
  (forall id u', t !! id = Some u' -> UdRole u' = UserAdministrator -> exists u, id_users s !! id = Some u /\ UdRole u = UserAdministrator) ->
  calm mop kop s (set_users t s).
Proof. intros H. by split. Qed.

Section calm.
Context (lower : string -> string) (collate : string -> string -> comparison) (mop kop : option UUID).

Lemma calm_update_user id guard f : (forall c u, UdRole (f c u) = UdRole u) -> query_rel (calm mop kop) (update_user lower id guard f).
Proof.
  intros Hf c s. unfold update_user, on_users. destruct (update_one _ c id guard (f c) (id_users s)) as [r t] eqn:Hu. simpl.
  apply calm_users. intros j v Hv Hrole. apply update_one_inv in Hu as [(u & Hr & _ & _ & _ & ->)|(-> & _)]; [|eauto].
  destruct (decide (j = id)) as [->|Hne]; [|rewrite lookup_insert_ne in Hv by done; eauto].
  rewrite lookup_insert_eq in Hv. injection Hv as <-. rewrite Hf in Hrole. eauto.
Qed.

Lemma calm_CreateMember id email name hash status : query_rel (calm mop kop) (CreateUser lower id email name hash UserMember status).
Proof.
  intros c s. unfold CreateUser, on_users. destruct (insert_one _ _ _ _ _) as [r t] eqn:Hi. simpl.
  apply calm_users. intros j v Hv Hrole. apply insert_one_inv in Hi as [(_ & _ & _ & ->)|(-> & _)]; [|eauto].
  destruct (decide (j = id)) as [->|Hne]; [|rewrite lookup_insert_ne in Hv by done; eauto].
  rewrite lookup_insert_eq in Hv. by injection Hv as <-.
Qed.

Lemma calm_on_sessions {A} (f : Conn -> IdStore -> gmap UUID SessionRecord -> result PgError A * gmap UUID SessionRecord) :
  query_rel (calm mop kop) (on_sessions f).
Proof. intros c s. unfold on_sessions. destruct (f c s (id_sessions s)). by apply calm_frame. Qed.

Lemma calm_on_keys {A} (f : Conn -> IdStore -> gmap UUID KeyRecord -> result PgError A * gmap UUID KeyRecord) : query_rel (calm mop kop) (on_keys f).
Proof. intros c s. unfold on_keys. destruct (f c s (id_keys s)). by apply calm_frame. Qed.

Lemma calm_BindGatewayKeyRoute keyID modelID poolID : query_rel (calm mop kop) (BindGatewayKeyRoute keyID modelID poolID).
Proof.
  intros c s. unfold BindGatewayKeyRoute. destruct (cn_fault c); [reflexivity|]. destruct (id_key_models s !! _); [reflexivity|].
  destruct (route_refers _ _ _ _); [by apply calm_frame|reflexivity].
Qed.

Lemma calm_CreateAuditEvent e : query_rel (calm mop kop) (CreateAuditEvent e).
Proof.
  intros c s. unfold CreateAuditEvent. destruct (cn_fault c); [reflexivity|].
  destruct (match _ with Some _ => _ | None => _ end); [by apply calm_frame|reflexivity].
Qed.

Lemma calm_UpdateUserProfile clock email name id expected : query_rel (calm mop kop) (UpdateUserProfile lower clock email name id expected).
Proof. by apply calm_update_user. Qed.
Lemma calm_UpdateUserStatus clock status id : query_rel (calm mop kop) (UpdateUserStatus lower clock status id).
Proof. by apply calm_update_user. Qed.
Lemma calm_MarkUserDeleted clock id : query_rel (calm mop kop) (MarkUserDeleted lower clock id).
Proof. by apply calm_update_user. Qed.
Lemma calm_UpdateUserPassword hash id : query_rel (calm mop kop) (UpdateUserPassword lower hash id).
Proof. by apply calm_update_user. Qed.
Lemma calm_UpdateOwnPassword hash id expected : query_rel (calm mop kop) (UpdateOwnPassword lower hash id expected).
Proof. apply rel_execrows. by apply calm_update_user. Qed.
Lemma calm_UpdateRecoveredUser hash id : query_rel (calm mop kop) (UpdateRecoveredUser lower hash id).
Proof. apply rel_execrows. by apply calm_update_user. Qed.
Lemma calm_revoke_where guard : query_rel (calm mop kop) (revoke_where guard).
Proof. apply calm_on_sessions. Qed.
Lemma calm_CreateSession id userID token csrf expires : query_rel (calm mop kop) (CreateSession id userID token csrf expires).
Proof. apply calm_on_sessions. Qed.
Lemma calm_delete_keys_where guard : query_rel (calm mop kop) (delete_keys_where guard).
Proof. apply calm_on_keys. Qed.
Lemma calm_CreateGatewayKey id userID name prefix digest encrypted expires :
  query_rel (calm mop kop) (CreateGatewayKey id userID name prefix digest encrypted expires).
Proof. apply calm_on_keys. Qed.
End calm.

#[export] Hint Resolve calm_CreateMember calm_BindGatewayKeyRoute calm_CreateAuditEvent calm_UpdateUserProfile calm_UpdateUserStatus
  calm_MarkUserDeleted calm_UpdateUserPassword calm_UpdateOwnPassword calm_UpdateRecoveredUser calm_revoke_where calm_CreateSession
  calm_delete_keys_where calm_CreateGatewayKey : idtx.

(** The four statements on records touch the record they name. *)
Section records.
Context (op : UUID) (mop kop : option UUID).

Lemma calm_member_record s m : calm (Some op) kop s (set_member_mutations (<[op := m]> (id_member_mutations s)) s).
Proof. split; simpl; [done|eauto| |done]. intros id Hne. rewrite lookup_insert_ne; congruence. Qed.

Lemma calm_key_record s m : calm mop (Some op) s (set_key_mutations (<[op := m]> (id_key_mutations s)) s).
Proof. split; simpl; [done|eauto|done|]. intros id Hne. rewrite lookup_insert_ne; congruence. Qed.

Lemma calm_CompleteMemberMutation userID res : query_rel (calm (Some op) kop) (CompleteMemberMutation userID res op).
Proof.
  intros c s. unfold CompleteMemberMutation. destruct (update_one _ _ _ _ _ _) as [r t] eqn:Hu. simpl.
  apply update_one_inv in Hu as [(m & _ & _ & _ & _ & ->)|(-> & _)]; [apply calm_member_record|by apply calm_frame].
Qed.

Lemma calm_CompleteGatewayKeyMutation keyID res : query_rel (calm mop (Some op)) (CompleteGatewayKeyMutation keyID res op).
Proof.
  intros c s. unfold CompleteGatewayKeyMutation. destruct (update_one _ _ _ _ _ _) as [r t] eqn:Hu. simpl.
  apply update_one_inv in Hu as [(m & _ & _ & _ & _ & ->)|(-> & _)]; [apply calm_key_record|by apply calm_frame].
Qed.
End records.

#[export] Hint Resolve calm_CompleteMemberMutation calm_CompleteGatewayKeyMutation : idtx.

(** ** What a body that succeeds has done *)

Section inversion.
Context {S E : Type}.

Lemma tx_rel_elim {A} (Rel : relation S) (m : Program S E A) t n s r n' s' : tx_rel Rel m -> m t n s = (r, n', s') -> Rel s s'.
Proof. intros Hm H. specialize (Hm t n s). by rewrite H in Hm. Qed.

Lemma query_rel_elim {A} (Rel : relation S) (q : Statement S A) c s r s' : query_rel Rel q -> q c s = (r, s') -> Rel s s'.
Proof. intros Hq H. specialize (Hq c s). by rewrite H in Hq. Qed.

Lemma bind_inv {A B} (m : Program S E A) (k : A -> Program S E B) t n s b n' s' :
  tx_bind m k t n s = (Ok b, n', s') -> exists a n1 s1, m t n s = (Ok a, n1, s1) /\ k a t n1 s1 = (Ok b, n', s').
Proof. unfold tx_bind. destruct (m t n s) as [[[a|e] n1] s1]; [|done]. intros H. by exists a, n1, s1. Qed.

Lemma ask_inv {A} (q : Statement S A) t n s r n' s' :
  ask (E:=E) q t n s = (Ok r, n', s') -> n' = Datatypes.S n /\ q (statement t n) s = (r, s').
Proof. unfold ask. destruct (q (statement t n) s). by intros [= <- <- <-]. Qed.

Lemma query_with_inv {A} translate (q : Statement S A) t n s a n' s' :
  query_with (E:=E) translate q t n s = (Ok a, n', s') -> n' = Datatypes.S n /\ q (statement t n) s = (Ok a, s').
Proof.
  unfold query_with. intros (r & n1 & s1 & [-> Hq]%ask_inv & Hr)%bind_inv. destruct r; unfold tx_ret, tx_fail in Hr; by simplify_eq.
Qed.

(** A transaction had its effect, or none. *)
Lemma run_with_inv {A} translate (m : Program S E (Ending A)) t s r s' :
  run_with translate m t s = (r, s') ->
  (exists a n, m t 0%nat s = (Ok (Finish a), n, s') /\ (r = TxOk a \/ exists e, r = TxCommitFailed e)) \/
  (s' = s /\ match r with TxOk a => exists n s1, m t 0%nat s = (Ok (Leave a), n, s1) | _ => True end).
Proof.
  unfold run_with. destruct (tx_begin t) as [e|]; [intros [= <- <-]; by right|].
  destruct (m t 0%nat s) as [[[[a|a]|e] n] s1]; [|intros [= <- <-]; right; eauto|intros [= <- <-]; by right].
  destruct (tx_commit t) as [|e|message]; intros [= <- <-]; [|by right|]; left; exists a, n; eauto.
Qed.
End inversion.

(** What others did before the first reads. *)
Definition acted {Call C} (turns : list (Step Call C)) : list Call := concat (tn_before <$> turns).

(** Reads until one succeeds; others act in between. *)
Lemma reconcile_with_inv {Call S E} (history : list Call -> S -> S) (unknown : PgError -> option PgError -> E) {R A} (read : Statement S R)
    (result_of : R -> result E A) commitErr first tries s r s' :
  (forall l l' s, history (l ++ l') s = history l' (history l s)) ->
  reconcile_with history unknown read result_of commitErr first tries s = (r, s') ->
  (exists k, s' = history (acted (take k (first :: tries))) s) /\
  ((exists c op, (read c s').1 = Ok op /\ r = result_of op) \/ exists e, r = Err (unknown commitErr (Some e))).
Proof.
  intros Happ. assert (Hone : forall (f : Step Call Conn) l, acted (take 1 (f :: l)) = tn_before f) by (intros f [|]; apply app_nil_r).
  revert first s. induction tries as [|next tries IH]; intros first s; cbn [reconcile_with]; destruct (read _ _).1 as [op|e] eqn:Hr.
  1, 3: intros [= <- <-]; split; [exists 1%nat; by rewrite Hone|left; by eauto].
  - intros [= <- <-]. split; [exists 1%nat; by rewrite Hone|right; by eauto].
  - intros H. destruct (IH _ _ H) as [[k ->] Hres]. split; [|done]. exists (Datatypes.S k). by rewrite <- Happ.
Qed.

Lemma query_inv {A} (q : Query A) t n s a n' s' : query q t n s = (Ok a, n', s') -> n' = S n /\ q (statement t n) s = (Ok a, s').
Proof. apply query_with_inv. Qed.
Lemma query_raw_inv {A} (q : Query A) t n s a n' s' : query_raw q t n s = (Ok a, n', s') -> n' = S n /\ q (statement t n) s = (Ok a, s').
Proof. apply query_with_inv. Qed.
Lemma run_tx_inv {A} (m : TxM (Ending A)) t s r s' :
  run_tx m t s = (r, s') ->
  (exists a n, m t 0%nat s = (Ok (Finish a), n, s') /\ (r = TxOk a \/ exists e, r = TxCommitFailed e)) \/
  (s' = s /\ match r with TxOk a => exists n s1, m t 0%nat s = (Ok (Leave a), n, s1) | _ => True end).
Proof. apply run_with_inv. Qed.

Ltac tx_inv :=
  match goal with
  | H : tx_bind _ _ _ _ _ = (Ok _, _, _) |- _ => apply bind_inv in H as (? & ? & ? & ? & ?)
  | H : query _ _ _ _ = (Ok _, _, _) |- _ => apply query_inv in H as [? ?]
  | H : query_with _ _ _ _ _ = (Ok _, _, _) |- _ => apply query_with_inv in H as [? ?]
  | H : query_raw _ _ _ _ = (Ok _, _, _) |- _ => apply query_raw_inv in H as [? ?]
  | H : ask _ _ _ _ = (Ok _, _, _) |- _ => apply ask_inv in H as [? ?]
  | H : tx_fail _ _ _ _ = (Ok _, _, _) |- _ => discriminate H
  | H : tx_ret _ _ _ _ = (Ok _, _, _) |- _ => unfold tx_ret in H; injection H; clear H; intros; subst
  end.

Lemma update_user_inv lower id guard f c s u s' :
  update_user lower id guard f c s = (Ok u, s') ->
  exists u0, id_users s !! id = Some u0 /\ guard u0 = true /\ u = f c u0 /\ s' = set_users (<[id := u]> (id_users s)) s.
Proof.
  unfold update_user, on_users. destruct (update_one _ _ _ _ _ _) as [r t] eqn:Hu. intros [= -> <-].
  apply update_one_inv in Hu as [(u0 & Hr & Hg & _ & [= ->] & ->)|(_ & e & [=])]. by exists u0.
Qed.

Lemma CreateUser_inv lower id email name hash role status c s u s' :
  CreateUser lower id email name hash role status c s = (Ok u, s') ->
  u = mkUserRecord id (lower email) name hash role status None None (cn_now c) (cn_now c) /\ id_users s !! id = None /\
  s' = set_users (<[id := u]> (id_users s)) s.
Proof.
  unfold CreateUser, on_users. destruct (insert_one _ _ _ _ _) as [r t] eqn:Hu. intros [= -> <-].
  apply insert_one_inv in Hu as [(Hn & _ & [= ->] & ->)|(_ & e & [=])]. done.
Qed.

Lemma revoke_where_users guard c s r s' : revoke_where guard c s = (r, s') -> id_users s' = id_users s.
Proof. unfold revoke_where, on_sessions. destruct (counted _ _ _). by intros [= _ <-]. Qed.
(** No session that fits stays in force. *)
Lemma revoked_all guard c s n s' id r :
  revoke_where guard c s = (Ok n, s') -> id_sessions s' !! id = Some r -> guard r = true -> is_null (SsRevokedAt r) = false.
Proof.
  unfold revoke_where, on_sessions, counted. destruct (cn_fault c); [done|]. intros [= _ <-]. simpl. rewrite lookup_fmap.
  intros (r0 & Hr0 & ->)%fmap_Some. destruct (guard r0) eqn:Hg; simpl; [|congruence]. destruct (is_null (SsRevokedAt r0)) eqn:Hn; simpl; [done|by rewrite Hn].
Qed.
Lemma delete_keys_where_users guard c s r s' : delete_keys_where guard c s = (r, s') -> id_users s' = id_users s.
Proof. unfold delete_keys_where, on_keys. destruct (counted _ _ _). by intros [= _ <-]. Qed.
Lemma CreateAuditEvent_inv e c s r s' : CreateAuditEvent e c s = (r, s') -> exists l, s' = set_audit l s.
Proof.
  unfold CreateAuditEvent. intros H. assert (Hs : s = set_audit (id_audit s) s) by by destruct s. repeat case_match; simplify_eq; eauto.
Qed.

Section members.
Context (lower : string -> string).

(** The row of the member after a mutation. *)
Definition applied (a : MemberApply) (row : UserRecord) : Prop :=
  match a with
  | ApplyCreate newID input =>
      (UdID row, UdEmail row, UdDisplayName row, UdPasswordHash row, UdRole row, UdStatus row) =
      (newID, lower (NuEmail input), NuDisplayName input, NuPasswordHash input, UserMember, UserActive)
  | ApplyUpdate change => (UdID row, UdEmail row, UdDisplayName row, UdRole row) = (McID change, lower (McEmail change), McDisplayName change, UserMember)
  | ApplyStatus userID status => (UdID row, UdStatus row, UdRole row) = (userID, status, UserMember)
  | ApplyDelete userID => (UdID row, UdStatus row, UdRole row) = (userID, UserDeleted, UserMember)
  end.

Definition apply_id (a : MemberApply) : UUID :=
  match a with ApplyCreate newID _ => newID | ApplyUpdate change => McID change | ApplyStatus userID _ | ApplyDelete userID => userID end.

Lemma applied_id a row : applied a row -> UdID row = apply_id a.
Proof. destruct a; simpl; congruence. Qed.

Lemma apply_member_inv clock a t n s user action detail n' s' :
  id_wf lower s -> apply_member lower clock a t n s = (Ok (user, action, detail), n', s') ->
  exists row, id_users s' !! UsID user = Some row /\ user = userFromDB row /\ applied a row.
Proof.
  intros Hs. destruct a as [newID input|change|userID status|userID]; simpl; intros H; repeat tx_inv.
  - match goal with H : CreateUser _ _ _ _ _ _ _ _ _ = _ |- _ => apply CreateUser_inv in H as (-> & _ & ->) end.
    eexists. split; [apply lookup_insert_eq|done].
  - match goal with H : UpdateUserProfile _ _ _ _ _ _ _ _ = _ |- _ => apply update_user_inv in H as (u0 & Hu & Hg & -> & ->) end.
    destruct (iw_users _ s Hs _ _ Hu) as [Hid _]. apply andb_true_iff in Hg as [[Hm _]%andb_true_iff _]. apply bool_decide_eq_true in Hm.
    eexists. simpl. rewrite Hid. split; [apply lookup_insert_eq|]. by rewrite ?Hid, ?Hm.
  - match goal with H : UpdateUserStatus _ _ _ _ _ _ = _ |- _ => apply update_user_inv in H as (u0 & Hu & Hg & -> & ->) end.
    destruct (iw_users _ s Hs _ _ Hu) as [Hid _]. apply andb_true_iff in Hg as [Hm _]. apply bool_decide_eq_true in Hm.
    assert (Hx : id_users s' = <[userID := mkUserRecord (UdID u0) (UdEmail u0) (UdDisplayName u0) (UdPasswordHash u0) (UdRole u0) status
      (if bool_decide (status = UserDisabled) then Some (cn_now (statement t n)) else None) None (UdCreatedAt u0) (next_update clock u0)]> (id_users s)).
    { case_bool_decide; repeat tx_inv; [|done]. by match goal with H : RevokeUserSessions _ _ _ = _ |- _ => rewrite (revoke_where_users _ _ _ _ _ H) end. }
    eexists. simpl. rewrite Hx, Hid. split; [apply lookup_insert_eq|]. by rewrite ?Hid, ?Hm.
  - match goal with H : MarkUserDeleted _ _ _ _ _ = _ |- _ => apply update_user_inv in H as (u0 & Hu & Hg & -> & ->) end.
    destruct (iw_users _ s Hs _ _ Hu) as [Hid _]. apply andb_true_iff in Hg as [Hm _]. apply bool_decide_eq_true in Hm.
    match goal with H : DeleteGatewayKeysForUser _ _ _ = _, H' : RevokeUserSessions _ _ _ = _ |- _ =>
      pose proof (eq_trans (delete_keys_where_users _ _ _ _ _ H) (revoke_where_users _ _ _ _ _ H')) as Hx end.
    eexists. simpl in *. rewrite Hx, Hid. split; [apply lookup_insert_eq|]. simpl. by rewrite ?Hid, ?Hm.
Qed.

(** A claim that succeeded began with a new record. *)
Lemma claim_member_finish {A} opID actorID userID mutation replay (work : MemberMutationRecord -> TxM (Ending A)) t n s a n' s' :
  claim_member opID actorID userID mutation replay work t n s = (Ok (Finish a), n', s') ->
  exists now,
    let m := mkMemberMutationRecord opID actorID (action_text (MuAction mutation)) (MuIdempotencyKey mutation) userID
               (MuRequestFingerprint mutation) (MuRequestID mutation) None MrEmpty now in
    find_row (same_member_mutation actorID (action_text (MuAction mutation)) (MuIdempotencyKey mutation)) (id_member_mutations s) = None /\
    id_member_mutations s !! opID = None /\
    work m t (S n) (set_member_mutations (<[opID := m]> (id_member_mutations s)) s) = (Ok (Finish a), n', s').
Proof.
  unfold claim_member. intros (r & n1 & s1 & [-> Hc]%ask_inv & Hw)%bind_inv.
  apply ClaimMemberMutation_inv in Hc as [(-> & e & -> & _)|(Hf & Hl & _ & -> & ->)]; [|by eexists].
  destruct e; repeat tx_inv; try done. destruct (replay _); by repeat tx_inv.
Qed.

(** A claim that was left answers what the record that was there says. *)
Lemma claim_member_leave {A} opID actorID userID mutation replay (work : MemberMutationRecord -> TxM (Ending A)) t n s a n' s' :
  (forall m t n s n' s', work m t n s <> (Ok (Leave a), n', s')) ->
  claim_member opID actorID userID mutation replay work t n s = (Ok (Leave a), n', s') ->
  exists m, find_row (same_member_mutation actorID (action_text (MuAction mutation)) (MuIdempotencyKey mutation)) (id_member_mutations s) = Some m /\
            replay m = Ok a.
Proof.
  intros Hwork. unfold claim_member. intros (r & n1 & s1 & [-> Hc]%ask_inv & Hw)%bind_inv.
  apply ClaimMemberMutation_inv in Hc as [(-> & e & -> & _)|(Hf & Hl & _ & -> & ->)]; [|by apply Hwork in Hw].
  destruct e; repeat tx_inv; try done. destruct (replay _) eqn:Hr; repeat tx_inv.
  match goal with H : GetMemberMutation _ _ _ _ _ = _ |- _ => unfold GetMemberMutation, reads in H; simpl in H end.
  destruct (tx_fault t (S n)); [done|]. destruct (find_row _ _) as [m|] eqn:Hf; simplify_eq/=. eauto.
Qed.

(** A record of the key makes the claim be left, when nothing fails. *)
Lemma claim_member_replay {A} opID actorID userID mutation replay (work : MemberMutationRecord -> TxM (Ending A)) t s m :
  find_row (same_member_mutation actorID (action_text (MuAction mutation)) (MuIdempotencyKey mutation)) (id_member_mutations s) = Some m ->
  cn_fault (statement t 0%nat) = None -> cn_fault (statement t 1%nat) = None -> length (MuRequestFingerprint mutation) = 32%nat ->
  claim_member opID actorID userID mutation replay work t 0%nat s =
  (match replay m with Ok a => Ok (Leave a) | Err e => Err e end, 2%nat, s).
Proof.
  intros Hf H0 H1 Hl. simpl in H0, H1. unfold claim_member, tx_bind, ask, ClaimMemberMutation. simpl. rewrite H0, Hl, Hf. simpl.
  unfold query, query_with, tx_bind, ask, GetMemberMutation, reads. simpl. rewrite H1, Hf. simpl. by destruct (replay m).
Qed.

Lemma calm_claim_member {A} kop opID actorID userID mutation replay (work : MemberMutationRecord -> TxM (Ending A)) :
  (forall m, MmID m = opID -> tx_rel (calm (Some opID) kop) (work m)) ->
  tx_rel (calm (Some opID) kop) (claim_member opID actorID userID mutation replay work).
Proof.
  intros Hw t n s. unfold claim_member, tx_bind at 1, ask.
  destruct (ClaimMemberMutation _ _ _ _ _ _ _ _ s) as [r s1] eqn:Hc. apply ClaimMemberMutation_inv in Hc as [(-> & e & -> & _)|(_ & _ & _ & -> & ->)].
  - destruct e; try reflexivity. generalize (S n). intros n1. match goal with |- calm _ _ _ (?m _ _ _).2 => cut (tx_rel (calm (Some opID) kop) m) end.
    { intros H. apply H. }
    rel_steps.
  - etrans; [|by apply Hw]. apply calm_member_record.
Qed.

Lemma calm_apply_member mop kop clock a : tx_rel (calm mop kop) (apply_member lower clock a).
Proof. destruct a; simpl; rel_steps. Qed.

Lemma calm_mutate_body kop clock opID actorID mutation a : tx_rel (calm (Some opID) kop) (mutate_body lower clock opID actorID mutation a).
Proof. apply calm_claim_member. intros m <-. apply rel_bind; [apply calm_apply_member|]. intros [[user action] detail]. rel_steps. Qed.

Lemma calm_reset_body kop opID userID hash actorID mutation : tx_rel (calm (Some opID) kop) (reset_body lower opID userID hash actorID mutation).
Proof. apply calm_claim_member. intros m <-. rel_steps. Qed.

Lemma CompleteMemberMutation_inv userID res id c s r s' :
  CompleteMemberMutation userID res id c s = (Ok r, s') ->
  exists m, id_member_mutations s !! id = Some m /\
    r = mkMemberMutationRecord (MmID m) (MmActorUserID m) (MmAction m) (MmIdempotencyKey m) userID (MmRequestFingerprint m)
          (MmRequestID m) (MmEncryptedOneTimeSecret m) res (MmCreatedAt m) /\
    s' = set_member_mutations (<[id := r]> (id_member_mutations s)) s.
Proof.
  unfold CompleteMemberMutation. destruct (update_one _ _ _ _ _ _) as [q t] eqn:Hu. intros [= -> <-].
  apply update_one_inv in Hu as [(m & Hm & _ & _ & [= ->] & ->)|(_ & e & [=])]. by exists m.
Qed.

Definition recorded (actorID : UUID) (mutation : MemberMutation) (m : MemberMutationRecord) : Prop :=
  (MmActorUserID m, MmAction m, MmIdempotencyKey m, MmRequestFingerprint m) =
  (actorID, action_text (MuAction mutation), MuIdempotencyKey mutation, MuRequestFingerprint mutation).

Lemma mutate_finished clock opID actorID mutation a t n s user n' s' :
  id_wf lower s -> mutate_body lower clock opID actorID mutation a t n s = (Ok (Finish user), n', s') ->
  id_member_mutations s !! opID = None /\
  (exists m, id_member_mutations s' !! opID = Some m /\ recorded actorID mutation m /\ MmUserID m = Some (UsID user) /\
             MmResult m = MrUser (user_json user)) /\
  exists row, id_users s' !! UsID user = Some row /\ user = userFromDB row /\ applied a row.
Proof.
  intros Hs (now & Hf & Hl & H)%claim_member_finish. split; [done|]. set (m0 := mkMemberMutationRecord _ _ _ _ _ _ _ _ _ _) in H.
  set (s1 := set_member_mutations _ s) in H. apply bind_inv in H as ([[user' action] detail] & n2 & s2 & Ha & H).
  assert (Hs1 : id_wf lower s1) by by apply (wf_claimed lower s opID m0).
  pose proof (apply_member_inv _ _ _ _ _ _ _ _ _ _ Hs1 Ha) as (row & Hrow & Hu & Happ).
  pose proof (cm_members _ _ _ _ (tx_rel_elim _ _ _ _ _ _ _ _ (calm_apply_member None None clock a) Ha) opID ltac:(done)) as Hrec. simpl in Hrec.
  rewrite lookup_insert_eq in Hrec. repeat tx_inv.
  match goal with H : CreateAuditEvent _ _ _ = _ |- _ => apply CreateAuditEvent_inv in H as (l & ->) end.
  match goal with H : CompleteMemberMutation _ _ _ _ _ = _ |- _ => apply CompleteMemberMutation_inv in H as (m & Hm & -> & ->) end.
  simpl in *. rewrite Hrec in Hm. injection Hm as <-. split; [|by exists row]. eexists. rewrite lookup_insert_eq. done.
Qed.

Lemma mutate_left clock opID actorID mutation a t n s user n' s' :
  mutate_body lower clock opID actorID mutation a t n s = (Ok (Leave user), n', s') ->
  exists m, find_row (same_member_mutation actorID (action_text (MuAction mutation)) (MuIdempotencyKey mutation)) (id_member_mutations s) = Some m /\
            memberMutationUserResult m mutation = Ok user.
Proof.
  apply claim_member_leave. intros m t' m' s1 n2 s2 H. apply bind_inv in H as ([[user' action] detail] & ? & ? & ? & ?). repeat tx_inv. done.
Qed.

(** A reset has recorded itself, set the hash and revoked all sessions. *)
Lemma reset_finished opID userID hash actorID mutation t n s revoked n' s' :
  reset_body lower opID userID hash actorID mutation t n s = (Ok (Finish revoked), n', s') ->
  id_member_mutations s !! opID = None /\
  (exists m, id_member_mutations s' !! opID = Some m /\ recorded actorID mutation m /\ MmUserID m = Some userID /\
             MmResult m = MrRevocation revoked) /\
  (exists u now, id_users s !! userID = Some u /\ UdRole u = UserMember /\ id_users s' !! userID = Some (put_password hash now u)) /\
  (forall id r, id_sessions s' !! id = Some r -> SsUserID r = userID -> is_null (SsRevokedAt r) = false).
Proof.
  intros (now & Hf & Hl & H)%claim_member_finish. split; [done|]. set (m0 := mkMemberMutationRecord _ _ _ _ _ _ _ _ _ _) in H.
  set (s1 := set_member_mutations _ s) in H. apply bind_inv in H as (user & n2 & s2 & [-> Hu]%query_inv & H).
  destruct (negb (is_member user) || _)%bool eqn:Hg; [by repeat tx_inv|]. apply orb_false_iff in Hg as [Hg _].
  apply negb_false_iff, bool_decide_eq_true in Hg. repeat tx_inv.
  assert (Hs2 : s2 = s1 /\ id_users s1 !! userID = Some user).
  { unfold GetUserForAdministrativeRecovery, reads in Hu. destruct (cn_fault _); [done|]. destruct (id_users s1 !! userID) eqn:E; by simplify_eq/=. }
  destruct Hs2 as [-> Huser].
  match goal with H : CreateAuditEvent _ _ _ = _ |- _ => apply CreateAuditEvent_inv in H as (l & ->) end.
  match goal with H : CompleteMemberMutation _ _ _ _ _ = _ |- _ => apply CompleteMemberMutation_inv in H as (m & Hm & -> & ->) end.
  match goal with H : UpdateUserPassword _ _ _ _ _ = _ |- _ => apply update_user_inv in H as (u0 & Hu0 & _ & -> & ->) end.
  match goal with H : RevokeUserSessions _ _ _ = _ |- _ => rename H into Hrev end.
  pose proof (query_rel_elim _ _ _ _ _ _ (calm_revoke_where None None _) Hrev) as Hc. pose proof (revoke_where_users _ _ _ _ _ Hrev) as Hus.
  pose proof (cm_members _ _ _ _ Hc opID ltac:(done)) as Hrec. simpl in *. rewrite Hm, lookup_insert_eq in Hrec. injection Hrec as ->.
  split_and!.
  - eexists. rewrite lookup_insert_eq. done.
  - exists user. eexists. simplify_eq. rewrite Hus, lookup_insert_eq. done.
  - intros id r Hr Huid. eapply revoked_all; [exact Hrev|exact Hr|]. by rewrite bool_decide_eq_true.
Qed.
End members.

(** ** Gateway keys *)

(** The table of keys stays as it is. *)
Definition keys_same (s s' : IdStore) : Prop := id_keys s' = id_keys s.

#[export] Instance keys_same_preorder : PreOrder keys_same.
Proof. unfold keys_same. split; [done|]. intros s1 s2 s3 H1 H2. congruence. Qed.

Lemma keys_same_bind_routes keyID routes : tx_rel keys_same (bind_routes keyID routes).
Proof.
  induction routes as [|r routes IH]; simpl; [apply rel_ret|]. apply rel_bind; [|intros _; exact IH]. apply rel_query.
  intros c s. unfold BindGatewayKeyRoute, keys_same. repeat case_match; done.
Qed.

Section keys.
Context (lower : string -> string) (collate : string -> string -> comparison).

Lemma calm_check_replaced mop kop input : tx_rel (calm mop kop) (check_replaced collate input).
Proof. unfold check_replaced. rel_steps. Qed.

Lemma calm_validate_routes mop kop userID routes : tx_rel (calm mop kop) (validate_routes userID routes).
Proof. induction routes as [|r routes IH]; simpl; rel_steps. Qed.

Lemma calm_bind_routes mop kop keyID routes : tx_rel (calm mop kop) (bind_routes keyID routes).
Proof. induction routes as [|r routes IH]; simpl; rel_steps. Qed.

Lemma calm_create_key_body mop opID input actorID mutation : tx_rel (calm mop (Some opID)) (create_key_body collate opID input actorID mutation).
Proof.
  intros t n s. unfold create_key_body, tx_bind at 1, ask at 1.
  destruct (ClaimGatewayKeyMutation _ _ _ _ _ _ s) as [r s1] eqn:Hc. apply ClaimGatewayKeyMutation_inv in Hc as [(-> & e & -> & _)|(_ & _ & _ & -> & ->)].
  - destruct e; try reflexivity. match goal with |- calm _ _ _ (?m _ _ _).2 => cut (tx_rel (calm mop (Some opID)) m) end.
    { intros H. apply H. }
    rel_steps.
  - etrans; [apply (calm_key_record opID mop)|]. match goal with |- calm _ _ _ (?m _ _ _).2 => cut (tx_rel (calm mop (Some opID)) m) end.
    { intros H. apply H. }
    rel_steps. all: first [apply calm_check_replaced|apply calm_validate_routes|apply calm_bind_routes].
Qed.

Lemma CompleteGatewayKeyMutation_inv keyID res id c s r s' :
  CompleteGatewayKeyMutation keyID res id c s = (Ok r, s') ->
  exists m, id_key_mutations s !! id = Some m /\
    r = mkKeyMutationRecord (GmID m) (GmActorUserID m) (GmIdempotencyKey m) (GmRequestFingerprint m) (GmRequestID m) keyID res (GmCreatedAt m) /\
    s' = set_key_mutations (<[id := r]> (id_key_mutations s)) s.
Proof.
  unfold CompleteGatewayKeyMutation. destruct (update_one _ _ _ _ _ _) as [q t] eqn:Hu. intros [= -> <-].
  apply update_one_inv in Hu as [(m & Hm & _ & _ & [= ->] & ->)|(_ & e & [=])]. by exists m.
Qed.

Lemma CreateGatewayKey_inv id userID name prefix digest encrypted expires c s k s' :
  CreateGatewayKey id userID name prefix digest encrypted expires c s = (Ok k, s') ->
  k = mkKeyRecord id userID name prefix digest encrypted expires None None (cn_now c) /\ id_keys s !! id = None /\
  s' = set_keys (<[id := k]> (id_keys s)) s.
Proof.
  unfold CreateGatewayKey, on_keys. destruct (insert_one _ _ _ _ _) as [r t] eqn:Hu. intros [= -> <-].
  apply insert_one_inv in Hu as [(Hn & _ & [= ->] & ->)|(_ & e & [=])]. done.
Qed.

(** The key that a creation has made, and its record. *)
Definition key_row (input : NewGatewayKey) (row : KeyRecord) : Prop :=
  (GkID row, GkUserID row, GkName row, GkPrefix row, GkSecretDigest row, GkEncryptedSecret row, GkExpiresAt row, GkDeletedAt row) =
  (NkID input, NkUserID input, NkName input, NkPrefix input, NkSecretDigest input, NkEncryptedSecret input, NkExpiresAt input, None).

Definition key_recorded (actorID : UUID) (mutation : GatewayKeyMutation) (m : KeyMutationRecord) : Prop :=
  (GmActorUserID m, GmIdempotencyKey m, GmRequestFingerprint m) = (actorID, KuIdempotencyKey mutation, KuRequestFingerprint mutation).

Lemma create_key_finished opID input actorID mutation t n s key n' s' :
  create_key_body collate opID input actorID mutation t n s = (Ok (Finish key), n', s') ->
  id_key_mutations s !! opID = None /\
  (exists m, id_key_mutations s' !! opID = Some m /\ key_recorded actorID mutation m /\ GmGatewayKeyID m = Some (KyID key) /\
             GmResult m = KmKey key) /\
  exists row routes, id_keys s' !! NkID input = Some row /\ key_row input row /\ key = gatewayKeyFromDB row routes.
Proof.
  unfold create_key_body. intros (r & n1 & s1 & [-> Hc]%ask_inv & H)%bind_inv.
  apply ClaimGatewayKeyMutation_inv in Hc as [(-> & e & -> & _)|(_ & Hl & _ & -> & ->)].
  { destruct e; repeat tx_inv; try done. destruct (gatewayKeyMutationResult _ _); by repeat tx_inv. }
  split; [done|]. set (s1 := set_key_mutations _ s) in H. assert (Hrec : exists m, id_key_mutations s1 !! opID = Some m /\ key_recorded actorID mutation m).
  { eexists. split; [apply lookup_insert_eq|done]. }
  destruct Hrec as (m0 & Hm0 & Hkr). clearbody s1. cbn [GmID] in H.
  apply bind_inv in H as ([] & n2 & s2 & Hck & H). apply bind_inv in H as (user & n3 & s3 & [-> Hu]%query_inv & H).
  destruct (negb _); [by repeat tx_inv|]. apply bind_inv in H as (validated & n4 & s4 & Hv & H).
  apply bind_inv in H as (row & n5 & s5 & [-> Hcr]%query_inv & H). apply bind_inv in H as ([] & n6 & s6 & Hb & H). repeat tx_inv.
  match goal with H : CreateAuditEvent _ _ _ = _ |- _ => apply CreateAuditEvent_inv in H as (l & ->) end.
  match goal with H : CompleteGatewayKeyMutation _ _ _ _ _ = _ |- _ => apply CompleteGatewayKeyMutation_inv in H as (m & Hm & -> & ->) end.
  assert (Hcalm : calm None None s1 s6).
  { etrans; [exact (tx_rel_elim _ _ _ _ _ _ _ _ (calm_check_replaced None None input) Hck)|].
    etrans; [exact (query_rel_elim _ _ _ _ _ _ (rel_reads _) Hu)|].
    etrans; [exact (tx_rel_elim _ _ _ _ _ _ _ _ (calm_validate_routes None None _ _) Hv)|].
    etrans; [exact (query_rel_elim _ _ _ _ _ _ (calm_CreateGatewayKey None None _ _ _ _ _ _ _) Hcr)|].
    exact (tx_rel_elim _ _ _ _ _ _ _ _ (calm_bind_routes None None _ _) Hb). }
  pose proof (cm_keys _ _ _ _ Hcalm opID ltac:(done)) as Hrec. rewrite Hm0 in Hrec. simpl in Hm. rewrite Hrec in Hm. injection Hm as <-.
  split; [eexists; simpl; rewrite lookup_insert_eq; done|].
  apply CreateGatewayKey_inv in Hcr as (-> & _ & ->). pose proof (tx_rel_elim _ _ _ _ _ _ _ _ (keys_same_bind_routes _ _) Hb) as Hk. unfold keys_same in Hk. simpl in Hk. eexists _, validated. simpl. rewrite Hk, lookup_insert_eq. done.
Qed.
End keys.

(** ** The ledger *)

(** The action that goes with a mutation. *)
Definition apply_action (a : MemberApply) : MemberMutationAction :=
  match a with
  | ApplyCreate _ _ => MutationCreate | ApplyUpdate _ => MutationUpdate | ApplyStatus _ _ => MutationStatus | ApplyDelete _ => MutationDelete
  end.

#[export] Instance action_text_inj : Inj (=) (=) action_text.
Proof. by intros [] []. Qed.

Section ledger.
Context (lower : string -> string) (collate : string -> string -> comparison).

(** What the service digests of a mutation, and the secrets it makes: the
    identifier, prefix, digest and envelope of the key made by an actor under
    an idempotency key. *)
Context (fingerprint_of : MemberApply -> bytes) (key_ok : UUID -> UUID -> UUID -> string -> bytes -> bytes -> Prop).

(** The calls the service makes. *)
Definition issued (call : IdCall) : Prop :=
  match call with
  | ABootstrap _ _ _ input _ => NuRole input = UserAdministrator /\ NuStatus input = UserActive
  | AMutate _ _ _ _ mutation a => MuAction mutation = apply_action a /\ MuRequestFingerprint mutation = fingerprint_of a
  | ACreateKey _ _ input actorID mutation =>
      key_ok actorID (KuIdempotencyKey mutation) (NkID input) (NkPrefix input) (NkSecretDigest input) (NkEncryptedSecret input)
  | _ => True
  end.

Definition deletion_true (s : IdStore) (m : MemberMutationRecord) : Prop :=
  forall u, MmAction m = action_text MutationDelete -> MmResult m = MrUser u ->
  MmRequestFingerprint m = fingerprint_of (ApplyDelete (UsID u)) /\
  exists row, id_users s !! UsID u = Some row /\ UdStatus row = UserDeleted.

Definition key_true (s : IdStore) (m : KeyMutationRecord) : Prop :=
  forall k, GmResult m = KmKey k ->
  exists row, id_keys s !! KyID k = Some row /\ GkUserID row = KyUserID k /\
    key_ok (GmActorUserID m) (GmIdempotencyKey m) (GkID row) (GkPrefix row) (GkSecretDigest row) (GkEncryptedSecret row).

Record ledger (s : IdStore) : Prop := {
  lg_wf : id_wf lower s;
  lg_admin id u : id_users s !! id = Some u -> UdRole u = UserAdministrator -> UdStatus u = UserActive /\ is_Some (id_bootstrapped_at s);
  lg_one id id' u u' : id_users s !! id = Some u -> id_users s !! id' = Some u' -> UdRole u = UserAdministrator ->
    UdRole u' = UserAdministrator -> id = id';
  lg_mark : is_Some (id_bootstrapped_at s) -> exists id u, id_users s !! id = Some u /\ UdRole u = UserAdministrator;
  lg_deletions id m : id_member_mutations s !! id = Some m -> deletion_true s m;
  lg_keys id m : id_key_mutations s !! id = Some m -> key_true s m;
}.

Lemma deletion_grows s s' m : grows s s' -> deletion_true s m -> deletion_true s' m.
Proof.
  intros Hg Hd u Ha Hr. destruct (Hd u Ha Hr) as (Hf & row & Hrow & Hdel). split; [done|].
  destruct (gr_users _ _ Hg _ _ Hrow) as (row' & Hrow' & Hm). exists row'. split; [done|]. by apply (um_deleted _ _ Hm).
Qed.

Lemma key_grows s s' m : grows s s' -> key_true s m -> key_true s' m.
Proof.
  intros Hg Hk k Hr. destruct (Hk k Hr) as (row & Hrow & Hu & Hok). destruct (gr_keys _ _ Hg _ _ Hrow) as (row' & Hrow' & Hm).
  pose proof (km_fixed _ _ Hm) as Hfix. exists row'. simplify_eq/=. split_and!; congruence.
Qed.

(** Calls other than the bootstrap, given what their record says. *)
Lemma ledger_calm mop kop s s' :
  ledger s -> moves_on lower s s' -> calm mop kop s s' ->
  (forall id m, mop = Some id -> id_member_mutations s' !! id = Some m -> deletion_true s' m) ->
  (forall id m, kop = Some id -> id_key_mutations s' !! id = Some m -> key_true s' m) -> ledger s'.
Proof.
  intros Hl Hmv Hc Hd Hk. destruct (Hmv (lg_wf s Hl)) as [Hw Hg]. split; [done|..].
  - intros id u' Hu' Hr'. destruct (cm_admins _ _ _ _ Hc id u' Hu' Hr') as (u & Hu & Hr). rewrite (cm_mark _ _ _ _ Hc).
    destruct (lg_admin s Hl id u Hu Hr) as [Ha Hb]. split; [|done]. destruct (gr_users _ _ Hg _ _ Hu) as (u2 & Hu2 & Hm). simplify_eq.
    by apply (um_active _ _ Hm).
  - intros id id' u u' Hu Hu' Hr Hr'. destruct (cm_admins _ _ _ _ Hc id u Hu Hr) as (v & Hv & Hvr).
    destruct (cm_admins _ _ _ _ Hc id' u' Hu' Hr') as (v' & Hv' & Hvr'). by eapply (lg_one s Hl).
  - rewrite (cm_mark _ _ _ _ Hc). intros Hb. destruct (lg_mark s Hl Hb) as (id & u & Hu & Hr).
    destruct (gr_users _ _ Hg _ _ Hu) as (u' & Hu' & Hm). exists id, u'. split; [done|]. by rewrite (um_role _ _ Hm).
  - intros id m Hm. destruct (decide (mop = Some id)) as [He|Hne]; [eauto|]. rewrite (cm_members _ _ _ _ Hc) in Hm by done.
    eapply deletion_grows; [done|]. by eapply lg_deletions.
  - intros id m Hm. destruct (decide (kop = Some id)) as [He|Hne]; [eauto|]. rewrite (cm_keys _ _ _ _ Hc) in Hm by done.
    eapply key_grows; [done|]. by eapply lg_keys.
Qed.

Lemma ledger_quiet s s' : ledger s -> moves_on lower s s' -> calm None None s s' -> ledger s'.
Proof. intros Hl Hm Hc. by eapply ledger_calm. Qed.

Lemma bootstrap_finished newUserID newSessionID input session t n s p n' s' :
  bootstrap_body lower newUserID newSessionID input session t n s = (Ok (Finish p), n', s') ->
  id_bootstrapped_at s = None /\ is_Some (id_bootstrapped_at s') /\ id_users s !! newUserID = None /\
  (exists u, id_users s' = <[newUserID := u]> (id_users s) /\ UdRole u = NuRole input /\ UdStatus u = NuStatus input) /\
  id_member_mutations s' = id_member_mutations s /\ id_key_mutations s' = id_key_mutations s.
Proof.
  unfold bootstrap_body. intros H. apply bind_inv in H as (b & n1 & s1 & [-> Hb]%query_inv & H). destruct b; [by repeat tx_inv|].
  apply bind_inv in H as (u & n2 & s2 & [-> Hu]%query_inv & H). apply bind_inv in H as (marked & n3 & s3 & [-> Hm]%ask_inv & H).
  destruct (match marked with Ok n => negb (n =? 1) | Err _ => true end) eqn:Hok; [by repeat tx_inv|].
  apply CreateUser_inv in Hu as (-> & Hn & ->). assert (Hs1 : s1 = s) by (unfold IsBootstrapped, reads in Hb; by simplify_eq/=). subst s1.
  assert (Hs3 : id_bootstrapped_at s = None /\ exists now, s3 = set_bootstrapped (Some now) (set_users (<[newUserID :=
    mkUserRecord newUserID (lower (NuEmail input)) (NuDisplayName input) (NuPasswordHash input) (NuRole input) (NuStatus input) None None
      (cn_now (statement t (S n))) (cn_now (statement t (S n)))]> (id_users s)) s)).
  { unfold MarkBootstrapped in Hm. simpl in *. destruct (tx_fault t _); [by simplify_eq|]. destruct (id_bootstrapped_at s); simplify_eq/=; eauto. }
  destruct Hs3 as (Hnone & now & ->). repeat tx_inv.
  match goal with H : CreateAuditEvent _ _ _ = _ |- _ => apply CreateAuditEvent_inv in H as (l & ->) end.
  match goal with H : CreateSession _ _ _ _ _ _ _ = _ |- _ => unfold CreateSession, on_sessions in H; destruct (insert_one _ _ _ _ _); simplify_eq/= end.
  split_and!; [done|by eexists|done| |done..]. eexists. split; [reflexivity|done].
Qed.

Lemma ledger_bootstrap t newUserID newSessionID input session s :
  NuRole input = UserAdministrator -> NuStatus input = UserActive -> ledger s ->
  ledger (id_exec lower collate (ABootstrap t newUserID newSessionID input session) s).
Proof.
  intros Hrole Hstatus Hl. pose proof (id_exec_sound lower collate (ABootstrap t newUserID newSessionID input session) s (lg_wf s Hl)) as [Hw Hg].
  cbn [id_exec] in *. destruct (run_tx _ t s) as [r s'] eqn:Hrun. simpl in *. apply run_tx_inv in Hrun as [(p & n & Hb & _)|(-> & _)]; [|done].
  apply bootstrap_finished in Hb as (Hnone & Hmark & Hnew & (u & Hu & Hur & Hus) & Hmm & Hkm).
  assert (Honly : forall id v, id_users s' !! id = Some v -> UdRole v = UserAdministrator -> id = newUserID /\ v = u).
  { intros id v Hv Hvr. rewrite Hu in Hv. destruct (decide (id = newUserID)) as [->|Hne]; [rewrite lookup_insert_eq in Hv; by simplify_eq|].
    rewrite lookup_insert_ne in Hv by done. destruct (lg_admin s Hl id v Hv Hvr) as [_ [at_ Hat]]. congruence. }
  split; [done|..].
  - intros id v Hv Hvr. destruct (Honly id v Hv Hvr) as [-> ->]. by rewrite Hus.
  - intros id id' v v' Hv Hv' Hr Hr'. destruct (Honly id v Hv Hr) as [-> _]. by destruct (Honly id' v' Hv' Hr') as [-> _].
  - intros _. exists newUserID, u. rewrite Hu, lookup_insert_eq. by rewrite Hur.
  - intros id m Hm. rewrite Hmm in Hm. eapply deletion_grows; [done|]. by eapply lg_deletions.
  - intros id m Hm. rewrite Hkm in Hm. eapply key_grows; [done|]. by eapply lg_keys.
Qed.

Lemma ledger_mutate t clock opID actorID mutation a s :
  MuAction mutation = apply_action a -> MuRequestFingerprint mutation = fingerprint_of a -> ledger s ->
  ledger (id_exec lower collate (AMutate t clock opID actorID mutation a) s).
Proof.
  intros Hact Hfp Hl. pose proof (id_exec_sound lower collate (AMutate t clock opID actorID mutation a) s) as Hm. cbn [id_exec] in *.
  destruct (run_tx _ t s) as [r s'] eqn:Hrun. simpl in *. apply run_tx_inv in Hrun as [(u & n & Hb & _)|(-> & _)]; [|done].
  apply (ledger_calm (Some opID) None s); [done|done|exact (tx_rel_elim _ _ _ _ _ _ _ _ (calm_mutate_body lower None _ _ _ _ _) Hb)| |done].
  apply mutate_finished in Hb as (_ & (m0 & Hm0 & Hrec & Huid & Hres) & row & Hrow & -> & Happ); [|by apply lg_wf].
  intros id m [= <-] Hid v Hv Hvr. rewrite Hm0 in Hid. simplify_eq. unfold recorded in Hrec. rewrite Hact in Hrec. simplify_eq.
  assert (v = user_json (userFromDB row)) as -> by congruence. destruct a; try (simpl in *; congruence). simpl in Happ. injection Happ as E1 E2 E3. split; [simpl; rewrite E1; congruence|by exists row].
Qed.

Lemma ledger_create_key t opID input actorID mutation s :
  key_ok actorID (KuIdempotencyKey mutation) (NkID input) (NkPrefix input) (NkSecretDigest input) (NkEncryptedSecret input) -> ledger s ->
  ledger (id_exec lower collate (ACreateKey t opID input actorID mutation) s).
Proof.
  intros Hok Hl. pose proof (id_exec_sound lower collate (ACreateKey t opID input actorID mutation) s) as Hm. cbn [id_exec] in *.
  destruct (run_tx _ t s) as [r s'] eqn:Hrun. simpl in *. apply run_tx_inv in Hrun as [(k & n & Hb & _)|(-> & _)]; [|done].
  apply (ledger_calm None (Some opID) s); [done|done|exact (tx_rel_elim _ _ _ _ _ _ _ _ (calm_create_key_body collate None _ _ _ _) Hb)|done|].
  apply create_key_finished in Hb as (_ & (m0 & Hm0 & Hrec & Huid & Hres) & row & routes & Hrow & Hkr & ->).
  intros id m [= <-] Hid k' Hk'. unfold key_recorded, key_row in *. rewrite Hm0 in Hid. simplify_eq. rewrite Hres in Hk'. simplify_eq.
  exists row. simpl. split_and!; congruence.
Qed.

Lemma ledger_exec call s : issued call -> ledger s -> ledger (id_exec lower collate call s).
Proof.
  intros Hi Hl. pose proof (id_exec_sound lower collate call s) as Hm.
  destruct call; simpl in Hi; [by apply ledger_bootstrap; destruct Hi|by apply ledger_mutate; destruct Hi|..].
  - cbn [id_exec] in *. destruct (run_tx _ t s) as [r s'] eqn:Hrun. simpl in *. apply run_tx_inv in Hrun as [(u & n & Hb & _)|(-> & _)]; [|done].
    apply (ledger_calm (Some opID) None s); [done|done|exact (tx_rel_elim _ _ _ _ _ _ _ _ (calm_reset_body lower None _ _ _ _ _) Hb)| |done].
    apply reset_finished in Hb as (_ & (m0 & Hm0 & _ & _ & Hres) & _). intros id m [= <-] Hid v Hv Hvr. congruence.
  - apply (ledger_quiet s); [done..|]. cbn [id_exec]. apply rel_run. unfold change_own_body. rel_steps.
  - apply (ledger_quiet s); [done..|]. cbn [id_exec]. apply rel_run. unfold revoke_body. destruct preserved; rel_steps.
  - apply (ledger_quiet s); [done..|]. cbn [id_exec]. apply rel_run. unfold recover_body. rel_steps.
  - by apply ledger_create_key.
  - apply (ledger_quiet s); [done..|]. cbn [id_exec]. apply rel_run. unfold delete_key_body. rel_steps.
  - apply (ledger_quiet s); [done..|]. apply calm_CreateSession.
  - apply (ledger_quiet s); [done..|]. apply calm_revoke_where.
  - apply (ledger_quiet s); [done..|]. apply calm_on_sessions.
  - apply (ledger_quiet s); [done..|]. apply calm_on_keys.
  - apply (ledger_quiet s); [done..|]. apply calm_CreateAuditEvent.
  - apply (ledger_quiet s); [done..|]. by apply calm_frame.
Qed.

Lemma ledger_history calls s : Forall issued calls -> ledger s -> ledger (id_history lower collate calls s).
Proof. intros Hc. revert s. induction Hc as [|call calls Hi _ IH]; intros s Hs; [done|]. apply IH. by apply ledger_exec. Qed.
End ledger.

(** ** Records stay *)

Definition records_stay (s s' : IdStore) : Prop :=
  id_member_mutations s ⊆ id_member_mutations s' /\ id_key_mutations s ⊆ id_key_mutations s'.

#[export] Instance records_stay_preorder : PreOrder records_stay.
Proof. unfold records_stay. split; [done|]. intros s1 s2 s3 [? ?] [? ?]. split; by etrans. Qed.

Lemma calm_records_stay mop kop s s' :
  calm mop kop s s' -> (forall id, mop = Some id -> id_member_mutations s !! id = None) ->
  (forall id, kop = Some id -> id_key_mutations s !! id = None) -> records_stay s s'.
Proof.
  intros Hc Hm Hk. split; apply map_subseteq_spec; intros id m Hid.
  - destruct (decide (mop = Some id)) as [->|Hne]; [by rewrite Hm in Hid|]. by rewrite (cm_members _ _ _ _ Hc).
  - destruct (decide (kop = Some id)) as [->|Hne]; [by rewrite Hk in Hid|]. by rewrite (cm_keys _ _ _ _ Hc).
Qed.

Lemma quiet_records_stay s s' : calm None None s s' -> records_stay s s'.
Proof. intros Hc. by apply (calm_records_stay None None). Qed.

Section stay.
Context (lower : string -> string) (collate : string -> string -> comparison).

Lemma records_exec call s : records_stay s (id_exec lower collate call s).
Proof.
  destruct call; cbn [id_exec].
  - destruct (run_tx _ t s) as [r s'] eqn:Hrun. simpl. apply run_tx_inv in Hrun as [(p & n & Hb & _)|(-> & _)]; [|reflexivity].
    apply bootstrap_finished in Hb as (_ & _ & _ & _ & Hm & Hk). unfold records_stay. by rewrite Hm, Hk.
  - destruct (run_tx _ t s) as [r s'] eqn:Hrun. simpl. apply run_tx_inv in Hrun as [(p & n & Hb & _)|(-> & _)]; [|reflexivity].
    apply (calm_records_stay (Some opID) None); [exact (tx_rel_elim _ _ _ _ _ _ _ _ (calm_mutate_body lower None _ _ _ _ _) Hb)| |done].
    apply claim_member_finish in Hb as (now & _ & Hn & _). by intros id [= <-].
  - destruct (run_tx _ t s) as [r s'] eqn:Hrun. simpl. apply run_tx_inv in Hrun as [(p & n & Hb & _)|(-> & _)]; [|reflexivity].
    apply (calm_records_stay (Some opID) None); [exact (tx_rel_elim _ _ _ _ _ _ _ _ (calm_reset_body lower None _ _ _ _ _) Hb)| |done].
    apply claim_member_finish in Hb as (now & _ & Hn & _). by intros id [= <-].
  - apply quiet_records_stay, rel_run. unfold change_own_body. rel_steps.
  - apply quiet_records_stay, rel_run. unfold revoke_body. destruct preserved; rel_steps.
  - apply quiet_records_stay, rel_run. unfold recover_body. rel_steps.
  - destruct (run_tx _ t s) as [r s'] eqn:Hrun. simpl. apply run_tx_inv in Hrun as [(p & n & Hb & _)|(-> & _)]; [|reflexivity].
    apply (calm_records_stay None (Some opID)); [exact (tx_rel_elim _ _ _ _ _ _ _ _ (calm_create_key_body collate None _ _ _ _) Hb)|done|].
    apply create_key_finished in Hb as (Hn & _). by intros id [= <-].
  - apply quiet_records_stay, rel_run. unfold delete_key_body. rel_steps.
  - apply quiet_records_stay, calm_CreateSession.
  - apply quiet_records_stay, calm_revoke_where.
  - apply quiet_records_stay, calm_on_sessions.
  - apply quiet_records_stay, calm_on_keys.
  - apply quiet_records_stay, calm_CreateAuditEvent.
  - by apply quiet_records_stay, calm_frame.
Qed.

Lemma records_history calls s : records_stay s (id_history lower collate calls s).
Proof. revert s. induction calls as [|call calls IH]; intros s; [reflexivity|]. simpl. etrans; [apply records_exec|apply IH]. Qed.

(** A record of the key is the one that is found. *)
Lemma record_found s id m actorID action key :
  id_wf lower s -> id_member_mutations s !! id = Some m -> (MmActorUserID m, MmAction m, MmIdempotencyKey m) = (actorID, action, key) ->
  find_row (same_member_mutation actorID action key) (id_member_mutations s) = Some m.
Proof.
  intros Hs Hm Heq. apply (find_row_unique _ _ id); [done|by apply same_member_mutation_spec|].
  intros j m' Hm' Hsame. apply same_member_mutation_spec in Hsame. apply (iw_mutation_keys lower s Hs j id m' m); congruence.
Qed.

Lemma key_record_found s id m actorID key :
  id_wf lower s -> id_key_mutations s !! id = Some m -> (GmActorUserID m, GmIdempotencyKey m) = (actorID, key) ->
  find_row (same_key_mutation actorID key) (id_key_mutations s) = Some m.
Proof.
  intros Hs Hm Heq. apply (find_row_unique _ _ id); [done|by apply same_key_mutation_spec|].
  intros j m' Hm' Hsame. apply same_key_mutation_spec in Hsame. apply (iw_key_mutation_keys lower s Hs j id m' m); congruence.
Qed.

(** ** Reconciliation *)

Lemma reconcile_inv {R A} (read : Query R) (result_of : R -> result IdError A) commitErr first tries s r s' :
  reconcile lower collate read result_of commitErr first tries s = (r, s') ->
  (exists k, s' = id_history lower collate (acted (take k (first :: tries))) s) /\
  ((exists c op, (read c s').1 = Ok op /\ r = result_of op) \/ exists e, r = Err (IOutcomeUnknown commitErr (Some e))).
Proof. apply reconcile_with_inv. apply id_history_app. Qed.
End stay.
