(* ===== verification/IdentityProps.v ===== *)
(** * Theorems about the identity service

    Whatever the service does; members and mutations; gateway keys and
    sessions.

    An operation of the service is a sequence of atomic calls, its own and
    those of others between its steps ([runs]); its own are [issued].  So the
    [ledger] holds in every store that operations can lead to ([reached]). *)

From S2P Require Import Prelude GoStrings Canonical Envelope EnvelopeProps ProviderRequest Sql RequestTable RequestStore RequestHistory Password IdentityTable IdentityStore Identity IdentityHistory.

Local Open Scope Z_scope.

(** What is digested of a mutation. *)
Definition payload_of (a : MemberApply) : MemberPayload :=
  match a with
  | ApplyCreate _ input => PayloadCreate (NuEmail input) (NuDisplayName input)
  | ApplyUpdate change => PayloadUpdate change
  | ApplyStatus userID status => PayloadStatus userID status
  | ApplyDelete userID => PayloadDelete userID
  end.

(** [io.ReadFull] of the random source gives as many bytes as asked for. *)
Definition fills (random : nat -> result string bytes) : Prop := forall n b, random n = Ok b -> length b = n.

(** The operations that may change the store, each with what the outside
    decides about it. *)
Inductive SvCall :=
| SBootstrap (random randomSalt random1 random2 : nat -> result string bytes) (now : Z) (t : Tx) (newUserID newSessionID : UUID) (email : string)
| SLogin (random1 random2 : nat -> result string bytes) (now : Z) (c : Conn) (turn next : Turn Conn) (newID : UUID) (email password : string)
| SAuthenticateSession (c : Conn) (turn : Turn Conn) (token : string)
| SLogout (c : Conn) (principal : Principal)
| SChangePassword (random : nat -> result string bytes) (c : Conn) (turn : Turn Tx) (principal : Principal) (current replacement requestID : string)
| SRevokeUserSessions (t : Tx) (actor : Principal) (userID : UUID) (requestID : string)
| SCreateMember (random : nat -> result string bytes) (o : Mutating) (newID : UUID) (actor : Principal) (email displayName : string)
    (request : MutationRequest)
| SUpdateMember (o : Mutating) (actor : Principal) (change : MemberChange) (request : MutationRequest)
| SSetUserStatus (o : Mutating) (actor : Principal) (userID : UUID) (status : UserStatus) (request : MutationRequest)
| SDeleteMember (o : Mutating) (actor : Principal) (userID : UUID) (request : MutationRequest)
| SResetMemberPassword (random : nat -> result string bytes) (o : Mutating) (actor : Principal) (userID : UUID) (password : string)
    (request : MutationRequest)
| SCreateGatewayKey (random : nat -> result string bytes) (o : Mutating) (keyID : UUID) (now : Z) (actor : Principal) (userID : UUID)
    (name : string) (routes : list GatewayKeyRoute) (expiresAt : option Z) (request : MutationRequest)
| SReplaceGatewayKey (random : nat -> result string bytes) (o : Mutating) (newKeyID : UUID) (c : Conn) (next : Turn Conn) (before : list IdCall)
    (actor : Principal) (keyID : UUID) (request : MutationRequest)
| SRevealGatewayKey (c : Conn) (next second third : Turn Conn) (actor : Principal) (keyID : UUID)
| SAuthenticateGatewayKey (c : Conn) (turn : Turn Conn) (secret : string)
| SDeleteGatewayKey (o : Mutating) (actor : Principal) (keyID : UUID)
| SRecover (t : Tx) (email passwordHash requestID : string)
| SCatalog (catalog : Catalog).

Section service.
Context {AE : AEAD} {AL : AEADLaws} (hmac_sha256 : bytes -> bytes -> bytes) (IDKey : string -> bytes -> Z -> Z -> Z -> Z -> bytes).
Context (ToLower : string -> string) (ParseAddress : string -> option string).
Context (member_digest : MemberPayload -> bytes).
Context (key_digest : UUID -> string -> list GatewayKeyRoute -> option Z -> option UUID -> bytes).
Context (lower : string -> string) (collate : string -> string -> comparison).
Context (sv : IdService).

Definition sv_exec (call : SvCall) (s : IdStore) : IdStore :=
  match call with
  | SBootstrap random randomSalt random1 random2 now t newUserID newSessionID email =>
      (Bootstrap hmac_sha256 IDKey ToLower ParseAddress lower sv random randomSalt random1 random2 now t newUserID newSessionID email s).2
  | SLogin random1 random2 now c turn next newID email password =>
      (Login hmac_sha256 IDKey ToLower ParseAddress lower collate sv random1 random2 now c turn next newID email password s).2
  | SAuthenticateSession c turn token => (AuthenticateSession hmac_sha256 lower collate sv c turn token s).2
  | SLogout c principal => (Logout c principal s).2
  | SChangePassword random c turn principal current replacement requestID =>
      (ChangePassword IDKey lower collate sv random c turn principal current replacement requestID s).2
  | SRevokeUserSessions t actor userID requestID => (Identity.RevokeUserSessions t actor userID requestID s).2
  | SCreateMember random o newID actor email displayName request =>
      (CreateMember hmac_sha256 IDKey ToLower ParseAddress member_digest lower collate sv random o newID actor email displayName request s).2
  | SUpdateMember o actor change request => (UpdateMember ToLower ParseAddress member_digest lower collate o actor change request s).2
  | SSetUserStatus o actor userID status request => (SetUserStatus member_digest lower collate o actor userID status request s).2
  | SDeleteMember o actor userID request => (DeleteMember member_digest lower collate o actor userID request s).2
  | SResetMemberPassword random o actor userID password request =>
      (ResetMemberPassword hmac_sha256 IDKey lower collate sv random o actor userID password request s).2
  | SCreateGatewayKey random o keyID now actor userID name routes expiresAt request =>
      (Identity.CreateGatewayKey hmac_sha256 key_digest lower collate sv random o keyID now actor userID name routes expiresAt request s).2
  | SReplaceGatewayKey random o newKeyID c next before actor keyID request =>
      (ReplaceGatewayKey hmac_sha256 key_digest lower collate sv random o newKeyID c next before actor keyID request s).2
  | SRevealGatewayKey c next second third actor keyID => (RevealGatewayKey lower collate sv c next second third actor keyID s).2
  | SAuthenticateGatewayKey c turn secret => (AuthenticateGatewayKey hmac_sha256 lower collate sv c turn secret s).2
  | SDeleteGatewayKey o actor keyID => (DeleteGatewayKey lower collate o actor keyID s).2
  | SRecover t email passwordHash requestID => (RecoverAdministratorAccess lower t email passwordHash requestID s).2
  | SCatalog catalog => set_catalog catalog s
  end.

Definition member_fingerprint (a : MemberApply) : bytes := member_digest (payload_of a).

(** The secret of a key is the one derived from who made it under which
    idempotency key; the row has its digest, its prefix and its envelope. *)
Definition key_genuine (actorID key id : UUID) (prefix : string) (digest encrypted : bytes) : Prop :=
  exists secret, deriveGatewayKeySecret hmac_sha256 sv actorID key = Ok secret /\ key_hmac hmac_sha256 sv secret = Ok digest /\
    prefix = credentialPrefix secret /\ Decrypt (sv_envelope sv) encrypted (GatewayKeyEncryptionContext id) = Ok (text_bytes secret).

Abbreviation genuine := (issued member_fingerprint key_genuine).

Definition turn_ok {C} (turn : Turn C) : Prop := Forall genuine (tn_before turn).
Definition mutating_ok (o : Mutating) : Prop := turn_ok (mu_first o) /\ Forall turn_ok (mu_tries o).

(** Others make only such calls, and the random source fills buffers. *)
Definition call_ok (call : SvCall) : Prop :=
  match call with
  | SLogin _ _ _ _ turn next _ _ _ => turn_ok turn /\ turn_ok next
  | SAuthenticateSession _ turn _ => turn_ok turn
  | SChangePassword _ _ turn _ _ _ _ => turn_ok turn
  | SCreateMember _ o _ _ _ _ _ | SUpdateMember o _ _ _ | SSetUserStatus o _ _ _ _ | SDeleteMember o _ _ _
  | SResetMemberPassword _ o _ _ _ _ | SDeleteGatewayKey o _ _ => mutating_ok o
  | SCreateGatewayKey random o _ _ _ _ _ _ _ _ => fills random /\ mutating_ok o
  | SReplaceGatewayKey random o _ _ next before _ _ _ => fills random /\ mutating_ok o /\ turn_ok next /\ Forall genuine before
  | SRevealGatewayKey _ next second third _ _ => turn_ok next /\ turn_ok second /\ turn_ok third
  | SAuthenticateGatewayKey _ turn _ => turn_ok turn
  | _ => True
  end.

(** The stores that operations lead to from a migrated database. *)
Definition empty_store (catalog : Catalog) : IdStore := mkIdStore None ∅ ∅ ∅ ∅ ∅ ∅ [] catalog.

Inductive reached : IdStore -> Prop :=
| reached_empty catalog : reached (empty_store catalog)
| reached_exec call s : reached s -> call_ok call -> reached (sv_exec call s).

(** ** Operations are sequences of calls *)

Definition runs (s s' : IdStore) : Prop := exists calls, Forall genuine calls /\ s' = id_history lower collate calls s.

#[local] Instance runs_preorder : PreOrder runs.
Proof.
  split; [intros s; by exists []|]. intros s1 s2 s3 (c1 & H1 & ->) (c2 & H2 & ->). exists (c1 ++ c2). rewrite id_history_app. split; [|done].
  by apply Forall_app.
Qed.

Lemma runs_before calls s : Forall genuine calls -> runs s (id_history lower collate calls s).
Proof. intros H. by exists calls. Qed.

Lemma runs_call call s : genuine call -> runs s (id_exec lower collate call s).
Proof. intros H. exists [call]. split; [by constructor|done]. Qed.

Lemma runs_reconcile {R A} (read : Query R) (result_of : R -> result IdError A) commitErr first tries s :
  turn_ok first -> Forall turn_ok tries -> runs s (reconcile lower collate read result_of commitErr first tries s).2.
Proof.
  unfold reconcile. intros Hf Ht. revert first s Hf. induction Ht as [|next tries Hn _ IH]; intros first s Hf; simpl; destruct (read _ _).1; try by apply runs_before.
  etrans; [by apply (runs_before _ _ Hf)|]. by apply IH.
Qed.

Lemma runs_reconciled {R A} (read : Query R) (result_of : R -> result IdError A) first tries p s :
  turn_ok first -> Forall turn_ok tries -> runs s p.2 -> runs s (reconciled lower collate read result_of first tries p).2.
Proof.
  intros Hf Ht Hp. destruct p as [[a|e|e] s']; simpl in *; [done|done|]. etrans; [exact Hp|]. by apply runs_reconcile.
Qed.

Lemma runs_mutate o actorID mutation a s :
  mutating_ok o -> MuAction mutation = apply_action a -> MuRequestFingerprint mutation = member_fingerprint a ->
  runs s (mutate lower collate o actorID mutation a s).2.
Proof.
  intros [Hf Ht] Ha Hfp. apply runs_reconciled; [done..|]. by apply (runs_call (AMutate (mu_tx o) (mu_clock o) (mu_opID o) actorID mutation a)).
Qed.

Lemma runs_delete_reconcile keyID actorID allowAny commitErr first tries s :
  turn_ok first -> Forall turn_ok tries -> runs s (reconcileGatewayKeyDeletion lower collate keyID actorID allowAny commitErr first tries s).2.
Proof.
  intros Hf Ht. revert first s Hf. induction Ht as [|next tries Hn _ IH]; intros first s Hf; cbn [reconcileGatewayKeyDeletion];
    destruct (GetGatewayKeyDeletionState _ _ _).1 as [[owner deletedAt]|]; repeat case_match; try by apply runs_before.
  all: etrans; [by apply (runs_before _ _ Hf)|]; by apply IH.
Qed.

Lemma newMemberMutation_inv action request payload mutation :
  newMemberMutation member_digest action request payload = Ok mutation ->
  mutation = mkMemberMutation action (MqIdempotencyKey request) (member_digest payload) (MqRequestID request) /\ valid_mutation request = true.
Proof. unfold newMemberMutation. destruct (valid_mutation request); [|done]. by intros [= <-]. Qed.

Lemma runs_session c next newID userID token csrf expires s :
  turn_ok next -> runs s (Id_CreateSession lower collate c next newID userID token csrf expires s).2.
Proof.
  intros Hn. unfold Id_CreateSession. destruct (GetUserByID _ _ _).1; [|reflexivity]. case_bool_decide; [|reflexivity].
  destruct (CreateSession _ _ _ _ _ _ _) as [r s'] eqn:Hc. simpl. etrans; [by apply (runs_before _ _ Hn)|].
  pose proof (runs_call (ACreateSession (tn_conn next) newID userID token csrf expires) (id_history lower collate (tn_before next) s) I) as Hr.
  simpl in Hr. by rewrite Hc in Hr.
Qed.

Lemma runs_replacement_read c next keyID s : turn_ok next -> runs s (Id_GatewayKeyForReplacement lower collate c next keyID s).2.
Proof.
  intros Hn. unfold Id_GatewayKeyForReplacement. destruct (read_with _ _ _ _); [|reflexivity]. by apply runs_before.
Qed.

(** The cipher has an active key version of 32 bits. *)
Context (active_version : 0 < activeKeyVersion (sv_envelope sv) < 2 ^ 32).

Lemma Encrypt_genuine random plaintext ad encrypted :
  fills random -> Encrypt (sv_envelope sv) random plaintext ad = Ok encrypted -> Decrypt (sv_envelope sv) encrypted ad = Ok plaintext.
Proof.
  intros Hfill. unfold Encrypt. destruct (keys (sv_envelope sv) !! _) as [key|] eqn:Hk; [|done].
  destruct (random NonceSize) as [nonce|] eqn:Hr; [|done]. intros [= <-]. eapply Decrypt_sealed; [exact active_version|by apply Hfill|exact Hk].
Qed.

Lemma runs_create_key random o keyID actor userID name routes expiresAt replaces request s :
  fills random -> mutating_ok o ->
  runs s (createGatewayKey hmac_sha256 key_digest lower collate sv random o keyID actor userID name routes expiresAt replaces request s).2.
Proof.
  intros Hfill [Hf Ht]. unfold createGatewayKey, newGatewayKeyMutation. destruct (valid_mutation request); [|reflexivity].
  destruct (deriveGatewayKeySecret _ _ _ _) as [secret|] eqn:Hd; [|reflexivity]. destruct (key_hmac _ _ secret) as [digest|] eqn:Hh; [|reflexivity].
  destruct (Encrypt _ _ _ _) as [encrypted|] eqn:He; [|reflexivity]. rewrite (surjective_pairing (Id_CreateGatewayKey _ _ _ _ _ _ _ _ _ _)). simpl.
  apply runs_reconciled; [done..|]. eapply (runs_call (ACreateKey _ _ _ _ _)). simpl. exists secret. split_and!; try done.
  by apply (Encrypt_genuine random).
Qed.

(** Opens the guards of an operation. *)
Ltac guards := repeat (first [reflexivity | match goal with
  | |- runs _ (let '(_, _) := ?x in _).2 => rewrite (surjective_pairing x); cbn [fst snd]
  | |- runs _ (if ?x then _ else _).2 => destruct x eqn:?
  | |- runs _ (match ?x with Ok _ => _ | Err _ => _ end).2 => destruct x eqn:?
  | |- runs _ (match ?x with Some _ => _ | None => _ end).2 => destruct x eqn:?
  end]).

Lemma runs_member_mutation o actor mutation a s request action :
  mutating_ok o -> newMemberMutation member_digest action request (payload_of a) = Ok mutation -> action = apply_action a ->
  runs s (mutate lower collate o (PnUserID actor) mutation a s).2.
Proof. intros Ho [-> _]%newMemberMutation_inv ->. by apply runs_mutate. Qed.

Lemma runs_members call s : call_ok call ->
  match call with
  | SCreateMember _ _ _ _ _ _ _ | SUpdateMember _ _ _ _ | SSetUserStatus _ _ _ _ _ | SDeleteMember _ _ _ _ => runs s (sv_exec call s)
  | _ => True
  end.
Proof.
  destruct call; try done; simpl; intros Ho.
  - unfold CreateMember. guards. by eapply (runs_member_mutation _ _ _ (ApplyCreate _ _)).
  - unfold UpdateMember. guards. by eapply (runs_member_mutation _ _ _ (ApplyUpdate _)).
  - unfold SetUserStatus. guards. by eapply (runs_member_mutation _ _ _ (ApplyStatus _ _)).
  - unfold DeleteMember. guards. by eapply (runs_member_mutation _ _ _ (ApplyDelete _)).
Qed.

Lemma prepareUser_inv random email displayName password role status user :
  prepareUser IDKey ToLower ParseAddress sv random email displayName password role status = Ok user -> NuRole user = role /\ NuStatus user = status.
Proof. unfold prepareUser. intros H. repeat case_match; by simplify_eq/=. Qed.

Lemma runs_exec call s : call_ok call -> runs s (sv_exec call s).
Proof.
  intros Hok. destruct call; try (by apply (runs_members _ s Hok)); simpl in Hok; cbn [sv_exec].
  - unfold Bootstrap. guards. match goal with H : prepareUser _ _ _ _ _ _ _ _ _ _ = Ok _ |- _ => apply prepareUser_inv in H end.
    unfold Id_Bootstrap, translated. cbn [snd]. by apply (runs_call (ABootstrap t newUserID newSessionID _ _)).
  - destruct Hok as [H1 H2]. unfold Login. guards. destruct (UsStatus _); [|reflexivity..]. etrans; [by apply (runs_before _ _ H1)|].
    unfold issueSession. guards. by apply runs_session.
  - unfold AuthenticateSession. guards. etrans; [by apply (runs_before _ _ Hok)|]. by apply (runs_call (ATouchSession _ _)).
  - unfold Logout. guards. by apply (runs_call (ARevokeSession _ _)).
  - unfold ChangePassword. guards. etrans; [by apply (runs_before _ _ Hok)|]. by apply (runs_call (AChangeOwn _ _ _ _ _ _)).
  - unfold Identity.RevokeUserSessions. guards; by apply (runs_call (ARevokeAll _ _ _ _ _)).
  - destruct Hok as [Hf Ht]. unfold ResetMemberPassword. guards. apply runs_reconciled; [done..|]. by apply (runs_call (AReset _ _ _ _ _ _)).
  - destruct Hok as [Hr Ho]. unfold Identity.CreateGatewayKey. guards; by apply runs_create_key.
  - destruct Hok as (Hr & Ho & Hn & Hb). unfold ReplaceGatewayKey. guards; try by apply runs_replacement_read.
    etrans; [by apply (runs_replacement_read c next keyID)|]. etrans; [by apply (runs_before _ _ Hb)|]. by apply runs_create_key.
  - destruct Hok as (H1 & H2 & H3). unfold RevealGatewayKey. guards; try by apply runs_replacement_read.
    all: etrans; [by apply (runs_replacement_read c next keyID)|]. all: etrans; [by apply (runs_before _ _ H2)|]; try reflexivity.
    etrans; [by apply (runs_before _ _ H3)|]. by apply (runs_call (AReveal _ _ _)).
  - unfold AuthenticateGatewayKey. guards. etrans; [by apply (runs_before _ _ Hok)|]. by apply (runs_call (ATouchKey _ _)).
  - destruct Hok as [Hf Ht]. unfold DeleteGatewayKey, Id_DeleteGatewayKey.
    pose proof (runs_call (ADeleteKey (mu_tx o) keyID (PnUserID actor) (CanManageUsers actor)) s I) as Hr. simpl in Hr.
    destruct (run_tx _ _ s) as [[a|e|e] s']; simpl in *; [done|done|]. etrans; [exact Hr|]. by apply runs_delete_reconcile.
  - unfold RecoverAdministratorAccess. guards. by apply (runs_call (ARecover _ _ _ _)).
  - by apply (runs_call (ACatalog catalog)).
Qed.

(** ** Reached stores *)

Lemma empty_wf catalog : id_wf lower (empty_store catalog).
Proof. split; try done; simpl; intros ? *; rewrite ?lookup_empty; done. Qed.

Lemma reached_ledger s : reached s -> ledger lower member_fingerprint key_genuine s.
Proof.
  induction 1 as [catalog|call s _ IH Hok].
  - split; [apply empty_wf|..]; simpl; try (intros *; rewrite lookup_empty; done). by intros [].
  - destruct (runs_exec call s Hok) as (calls & Hc & ->). by apply ledger_history.
Qed.

Lemma runs_ledger s s' : runs s s' -> ledger lower member_fingerprint key_genuine s -> ledger lower member_fingerprint key_genuine s'.
Proof. intros (calls & Hc & ->). by apply ledger_history. Qed.

Lemma runs_grows s s' : runs s s' -> id_wf lower s -> id_wf lower s' /\ grows s s'.
Proof. intros (calls & _ & ->). apply id_history_sound. Qed.

(** Any number of operations. *)
Fixpoint sv_history (calls : list SvCall) (s : IdStore) : IdStore :=
  match calls with [] => s | call :: calls' => sv_history calls' (sv_exec call s) end.

Lemma sv_history_runs calls s : Forall call_ok calls -> runs s (sv_history calls s).
Proof. intros Hc. revert s. induction Hc as [|call calls Hk _ IH]; intros s; [reflexivity|]. simpl. etrans; [by apply runs_exec|apply IH]. Qed.
End service.

(** * Theorems about members and mutations

    There is one administrator, from the bootstrap on; a mutation that is
    repeated answers the same and does nothing; a member who was deleted is
    locked out. *)

(** ** A mutation that succeeded is on record *)

Lemma memberMutationUserResult_inv m mutation u :
  memberMutationUserResult m mutation = Ok u ->
  MmAction m = action_text (MuAction mutation) /\ MmRequestFingerprint m = MuRequestFingerprint mutation /\ MmResult m = MrUser u /\
  MmUserID m = Some (UsID u) /\ UsID u <> uuid_Nil.
Proof.
  unfold memberMutationUserResult. destruct (_ || _)%bool eqn:H1; [done|]. apply orb_false_iff in H1 as [H1 H2].
  apply negb_false_iff, bool_decide_eq_true in H1, H2. destruct (MmResult m) as [|u'|]; [done| |done]. destruct (_ || _)%bool eqn:H3; [done|].
  apply orb_false_iff in H3 as [H3 H4]. apply bool_decide_eq_false in H3. apply negb_false_iff in H4. intros [= ->].
  unfold sql_eq in H4. apply bool_decide_eq_true in H4. done.
Qed.

Lemma memberMutationUserResult_recorded m mutation fp u :
  MmAction m = action_text (MuAction mutation) -> MmRequestFingerprint m = fp -> MmResult m = MrUser u -> MmUserID m = Some (UsID u) ->
  UsID u <> uuid_Nil ->
  memberMutationUserResult m mutation = if bool_decide (MuRequestFingerprint mutation = fp) then Ok u else Err IIdempotencyConflict.
Proof.
  intros Ha Hf Hr Hu Hn. unfold memberMutationUserResult. rewrite Ha, Hf, Hr, Hu, (bool_decide_eq_true_2 (action_text _ = _)) by done. simpl.
  rewrite (bool_decide_eq_false_2 (UsID u = uuid_Nil)) by done. unfold sql_eq. rewrite (bool_decide_eq_true_2 (Some (UsID u) = _)) by done.
  repeat case_bool_decide; simpl; congruence.
Qed.

Section members.
Context (lower : string -> string) (collate : string -> string -> comparison).

(** [m] records that the mutation of the actor made [u]. *)
Definition records (s : IdStore) (actorID : UUID) (mutation : MemberMutation) (u : User) : Prop :=
  exists id m u0, id_member_mutations s !! id = Some m /\ recorded actorID mutation m /\ MmResult m = MrUser u0 /\
    MmUserID m = Some (UsID u0) /\ user_json u0 = user_json u.

Lemma records_stays s s' actorID mutation u : records_stay s s' -> records s actorID mutation u -> records s' actorID mutation u.
Proof. intros [Hm _] (id & m & u0 & Hid & H). exists id, m, u0. split; [|done]. by eapply map_subseteq_spec. Qed.

Lemma lookup_found s actorID mutation c m :
  (memberMutationLookup actorID mutation c s).1 = Ok m ->
  exists id, id_member_mutations s !! id = Some m /\ MmActorUserID m = actorID /\ MmIdempotencyKey m = MuIdempotencyKey mutation.
Proof.
  unfold memberMutationLookup, GetMemberMutation, reads. simpl. destruct (cn_fault c); [done|]. destruct (find_row _ _) eqn:Hf; [|done].
  intros [= <-]. apply find_row_Some in Hf as [Hs [id Hid]]. apply same_member_mutation_spec in Hs. exists id. by simplify_eq.
Qed.

Lemma result_records s id m actorID mutation u :
  id_member_mutations s !! id = Some m -> MmActorUserID m = actorID -> MmIdempotencyKey m = MuIdempotencyKey mutation ->
  memberMutationUserResult m mutation = Ok u -> records s actorID mutation u.
Proof.
  intros Hid <- Hk (Ha & Hf & Hr & Hu & _)%memberMutationUserResult_inv. exists id, m, u. unfold recorded. split_and!; try done. congruence.
Qed.

Lemma mutate_ok t first tries clock opID actorID mutation a s u s' :
  id_wf lower s -> Id_mutateMember lower collate t first tries clock opID actorID mutation a s = (Ok u, s') ->
  id_wf lower s' /\ records s' actorID mutation u.
Proof.
  intros Hs. unfold Id_mutateMember. destruct (run_tx _ t s) as [r s1] eqn:Hrun.
  pose proof (rel_run _ t s (sound_mutate_body lower clock opID actorID mutation a)) as Hmv. rewrite Hrun in Hmv. destruct (Hmv Hs) as [Hw1 _].
  simpl in Hw1. destruct r as [a0|e|e]; simpl; [|done|].
  - intros [= -> ->]. split; [done|]. apply run_tx_inv in Hrun as [(u0 & n & Hb & Hor)|(-> & n & s2 & Hb)].
    + apply mutate_finished in Hb as (_ & (m & Hm & Hrec & Huid & Hres) & _); [|done]. destruct Hor as [[= <-]|[e [=]]].
      by exists opID, m, (user_json u).
    + apply mutate_left in Hb as (m & Hf & Hres). apply find_row_Some in Hf as [Hsame [id Hid]]. apply same_member_mutation_spec in Hsame.
      simplify_eq. by eapply result_records.
  - intros [[k ->] [(c & m & Hread & Hres)|[e' [=]]]]%reconcile_inv. split; [by apply id_history_sound|].
    apply lookup_found in Hread as (id & Hid & Ha & Hk). by eapply result_records.
Qed.
End members.

(** ** Mutations *)

(** Nothing fails in the statements of a transaction that is left. *)
Record no_fault (t : Tx) : Prop := {
  nf_begin : tx_begin t = None;
  nf_statement n : cn_fault (statement t n) = None;
}.

(** C33. After a mutation of a member succeeded, directly, as a repetition or
    found after a commit that failed, and whatever happens then, a mutation
    with its actor, action and idempotency key answers the same member when it
    has the same fingerprint and a conflict of keys when not, and changes
    nothing; the work [a'] it was to do is not done. *)
Theorem mutations_happen_once lower collate t first tries clock opID actorID mutation a s u s1 calls t' first' tries' clock' opID' mutation' a' :
  id_wf lower s -> Id_mutateMember lower collate t first tries clock opID actorID mutation a s = (Ok u, s1) -> UsID u <> uuid_Nil ->
  no_fault t' -> MuAction mutation' = MuAction mutation -> MuIdempotencyKey mutation' = MuIdempotencyKey mutation ->
  length (MuRequestFingerprint mutation') = 32%nat ->
  let s2 := id_history lower collate calls s1 in
  exists u', user_json u' = user_json u /\
    Id_mutateMember lower collate t' first' tries' clock' opID' actorID mutation' a' s2 =
    (if bool_decide (MuRequestFingerprint mutation' = MuRequestFingerprint mutation) then Ok u' else Err IIdempotencyConflict, s2).
Proof.
  intros Hs Hok Hnil [Hb Hst] Ha Hk Hlen s2. apply mutate_ok in Hok as [Hw1 Hrec]; [|done].
  destruct (id_history_sound lower collate calls s1 Hw1) as [Hw2 _]. apply (records_stays s1 s2) in Hrec; [|apply records_history].
  destruct Hrec as (id & m & u0 & Hid & Hr & Hres & Huid & Hj). exists u0. split; [done|].
  assert (Hf : find_row (same_member_mutation actorID (action_text (MuAction mutation')) (MuIdempotencyKey mutation')) (id_member_mutations s2) = Some m).
  { eapply record_found; [done|exact Hid|]. unfold recorded in Hr. congruence. }
  assert (Hans : memberMutationUserResult m mutation' =
    if bool_decide (MuRequestFingerprint mutation' = MuRequestFingerprint mutation) then Ok u0 else Err IIdempotencyConflict).
  { assert (Hnil' : UsID u0 <> uuid_Nil) by (destruct u0, u; simplify_eq/=; done). unfold recorded in Hr. simplify_eq.
    apply memberMutationUserResult_recorded; [congruence..|done|done|done]. }
  unfold Id_mutateMember, run_tx, run_with, mutate_body. rewrite Hb, (claim_member_replay _ _ _ _ _ _ _ _ m Hf (Hst 0%nat) (Hst 1%nat) Hlen), Hans.
  by case_bool_decide.
Qed.

(** C34. A mutation of a member that ends in an error other than an unknown
    outcome has changed nothing: the store is what others made of it. *)
Theorem failed_mutations_change_nothing lower collate t first tries clock opID actorID mutation a s e s1 :
  id_wf lower s -> apply_id a <> uuid_Nil ->
  Id_mutateMember lower collate t first tries clock opID actorID mutation a s = (Err e, s1) ->
  (exists commit reconciliation, e = IOutcomeUnknown commit reconciliation) \/
  exists k, s1 = id_history lower collate (acted (take k (first :: tries))) s.
Proof.
  intros Hs Hnil. unfold Id_mutateMember. destruct (run_tx _ t s) as [r s'] eqn:Hrun.
  apply run_tx_inv in Hrun as [(u & n & Hb & Hor)|(-> & _)].
  - destruct Hor as [->|[ce ->]]; simpl; [done|]. intros [[k ->] [(c & m & Hread & Hres)|[e' [= ->]]]]%reconcile_inv; [|left; eauto]. exfalso.
    pose proof (tx_rel_elim _ _ _ _ _ _ _ _ (sound_mutate_body lower clock opID actorID mutation a) Hb Hs) as [Hw' _].
    apply mutate_finished in Hb as (_ & (m0 & Hm0 & Hrec & Huid & Hr0) & row & Hrow & -> & Happ); [|done].
    destruct (id_history_sound lower collate (acted (take k (first :: tries))) s' Hw') as [Hw2 _].
    destruct (records_history lower collate (acted (take k (first :: tries))) s') as [Hsub _].
    pose proof (proj1 (map_subseteq_spec _ _) Hsub opID m0 Hm0) as Hm2. unfold memberMutationLookup, GetMemberMutation, reads in Hread. simpl in Hread.
    destruct (cn_fault c); [done|]. erewrite record_found in Hread; [|exact Hw2|exact Hm2|unfold recorded in Hrec; congruence]. injection Hread as <-.
    unfold recorded in Hrec. simplify_eq. rewrite (memberMutationUserResult_recorded m0 mutation _ _ ltac:(congruence) eq_refl Hr0 Huid) in Hres.
    + rewrite bool_decide_eq_true_2 in Hres by congruence. done.
    + simpl. by rewrite (applied_id _ _ _ Happ).
  - destruct r as [?|?|ce]; simpl; [done|..].
    + intros [= _ <-]. right. by exists 0%nat.
    + intros [Hk _]%reconcile_inv. by right.
Qed.

(** ** Who is let in *)

Section service.
Context {AE : AEAD} {AL : AEADLaws} (hmac_sha256 : bytes -> bytes -> bytes) (IDKey : string -> bytes -> Z -> Z -> Z -> Z -> bytes).
Context (ToLower : string -> string) (ParseAddress : string -> option string).
Context (member_digest : MemberPayload -> bytes).
Context (key_digest : UUID -> string -> list GatewayKeyRoute -> option Z -> option UUID -> bytes).
Context (lower : string -> string) (collate : string -> string -> comparison).
Context (sv : IdService).

Abbreviation can_reach := (reached hmac_sha256 IDKey ToLower ParseAddress member_digest key_digest lower collate sv).
Abbreviation fair_call := (call_ok hmac_sha256 member_digest sv).
Abbreviation history_of := (sv_history hmac_sha256 IDKey ToLower ParseAddress member_digest key_digest lower collate sv).

(** An account that nothing lets in: no login, session or key gives a
    principal of it. *)
Record locked_out (userID : UUID) (s : IdStore) : Prop := {
  lo_login random1 random2 now c turn next newID email password creds :
    (Login hmac_sha256 IDKey ToLower ParseAddress lower collate sv random1 random2 now c turn next newID email password s).1 = Ok creds ->
    PnUserID (ScPrincipal creds) <> userID;
  lo_session c turn token p : (AuthenticateSession hmac_sha256 lower collate sv c turn token s).1 = Ok p -> PnUserID p <> userID;
  lo_key c turn secret p : (AuthenticateGatewayKey hmac_sha256 lower collate sv c turn secret s).1 = Ok p -> GpUserID p <> userID;
  lo_key_id c keyID p : GatewayPrincipalByID c keyID s = Ok p -> GpUserID p <> userID;
}.

(** What a key or a session is found with. *)
Lemma key_by_inv p s k u : key_by p s = Ok (k, u) -> p k = true /\ (exists id, id_keys s !! id = Some k) /\ id_users s !! GkUserID k = Some u.
Proof.
  unfold key_by. destruct (find_row p (id_keys s)) as [k'|] eqn:Hf; [|done]. destruct (id_users s !! GkUserID k') eqn:Hu; [|done].
  intros [= -> ->]. by apply find_row_Some in Hf as [Hp Hid].
Qed.

Lemma FindSession_inv c digest s p :
  Id_FindSession c digest s = Ok p ->
  exists id r u, id_sessions s !! id = Some r /\ SsTokenDigest r = digest /\ is_null (SsRevokedAt r) = true /\ cn_now c < SsExpiresAt r /\
    id_users s !! SsUserID r = Some u /\ p = principal_of r u.
Proof.
  unfold Id_FindSession, read_with, GetSessionByDigest, reads. simpl. destruct (cn_fault c); [done|]. destruct (find_row _ _) as [r|] eqn:Hf; [|done].
  destruct (id_users s !! SsUserID r) as [u|] eqn:Hu; [|done]. intros [= <-]. apply find_row_Some in Hf as [Hp [id Hid]].
  apply andb_true_iff in Hp as [[Hd Hr]%andb_true_iff Hn]. apply bool_decide_eq_true in Hd. apply Z.ltb_lt in Hn. exists id, r, u. by split_and!.
Qed.

Lemma deleted_locked_out s userID row :
  id_wf lower s -> id_users s !! userID = Some row -> UdStatus row = UserDeleted -> locked_out userID s.
Proof.
  intros Hs Hrow Hdel. split.
  - intros random1 random2 now c turn next newID email password creds. unfold Login. destruct (normalizeEmail _ _ _) as [email'|]; [|done].
    cbv zeta. destruct (VerifyPassword _ _ _ _) as [v|]; [|done]. destruct (Id_FindUserByEmail _ _ _ _) as [u|]; [|done].
    destruct (Match_ v); [|done]. destruct (UsStatus u); [|done..]. unfold issueSession.
    destruct (prepareSession _ _ _ _ _); [|done]. unfold Id_CreateSession. set (s1 := id_history _ _ (tn_before turn) s).
    destruct (GetUserByID (UsID u) (tn_conn turn) s1).1 as [user|] eqn:Hu; [|done]. case_bool_decide as Hact; [|done].
    destruct (CreateSession _ _ _ _ _ _ _) as [[session|] s2]; [|done]. intros [= <-]. simpl. intros Hid.
    destruct (id_history_sound lower collate (tn_before turn) s Hs) as [Hs1 Hg]. destruct (gr_users _ _ Hg _ _ Hrow) as (row1 & Hrow1 & Hm).
    fold s1 in Hs1, Hrow1. unfold GetUserByID, reads in Hu. simpl in Hu. destruct (cn_fault _); [done|]. destruct (id_users s1 !! UsID u) eqn:Hl; [|done].
    simplify_eq/=. destruct (iw_users _ s1 Hs1 _ _ Hl) as [Hid' _]. rewrite Hid' in Hrow1. simplify_eq. rewrite (um_deleted _ _ Hm Hdel) in Hact. done.
  - intros c turn token p. unfold AuthenticateSession. destruct (session_hmac _ _ _); [|done]. destruct (Id_FindSession _ _ _) as [q|] eqn:Hf; [|done].
    destruct (is_active q) eqn:Ha; [|done]. intros [= <-] Hid. apply FindSession_inv in Hf as (id & r & u & _ & _ & _ & _ & Hu & ->).
    unfold is_active in Ha. apply bool_decide_eq_true in Ha. simpl in *. destruct (iw_users _ s Hs _ _ Hu) as [Hx _]. simplify_eq. congruence.
  - intros c turn secret p. unfold AuthenticateGatewayKey. destruct (negb _); [done|]. destruct (key_hmac _ _ _); [|done].
    destruct (Id_FindGatewayPrincipal _ _ _) as [q|] eqn:Hf; [|done]. case_bool_decide as Ha; [|done]. intros [= <-] Hid.
    unfold Id_FindGatewayPrincipal, read_with, GetGatewayKeyByDigest, reads in Hf. simpl in Hf. destruct (cn_fault c); [done|].
    destruct (key_by _ s) as [[k u]|] eqn:Hk; [|done]. apply key_by_inv in Hk as (_ & _ & Hu). simplify_eq/=. congruence.
  - intros c keyID p. unfold GatewayPrincipalByID. case_bool_decide; [done|]. destruct (Id_FindGatewayPrincipalByID _ _ _) as [q|] eqn:Hf; [|done].
    case_bool_decide as Ha; [|done]. intros [= <-] Hid.
    unfold Id_FindGatewayPrincipalByID, read_with, GetGatewayKeyPrincipalByID, reads in Hf. simpl in Hf. destruct (cn_fault c); [done|].
    destruct (key_by _ s) as [[k u]|] eqn:Hk; [|done]. apply key_by_inv in Hk as (_ & _ & Hu). simplify_eq/=. congruence.
Qed.

(** C36. From a migrated database, whatever operations run and however they
    interleave and fail: the tables are well formed, there is at most one
    administrator, who is active, and there is one exactly when the system is
    bootstrapped; and a member never becomes an administrator. *)
Theorem one_administrator s calls :
  0 < activeKeyVersion (sv_envelope sv) < 2 ^ 32 -> can_reach s -> Forall fair_call calls ->
  id_wf lower s /\
  (forall id id' u u', id_users s !! id = Some u -> id_users s !! id' = Some u' -> UdRole u = UserAdministrator ->
     UdRole u' = UserAdministrator -> id = id' /\ UdStatus u = UserActive) /\
  (is_Some (id_bootstrapped_at s) <-> exists id u, id_users s !! id = Some u /\ UdRole u = UserAdministrator) /\
  (forall id u, id_users s !! id = Some u -> exists u', id_users (history_of calls s) !! id = Some u' /\ UdRole u' = UdRole u).
Proof.
  intros Hv Hr Hc. apply reached_ledger in Hr as Hl; [|done..]. split_and!; [by apply Hl|..].
  - intros id id' u u' Hu Hu' Ha Ha'. split; [by eapply lg_one|]. by eapply lg_admin.
  - split; [by apply Hl|]. intros (id & u & Hu & Ha). by eapply lg_admin.
  - intros id u Hu. assert (Hruns : exists l, history_of calls s = id_history lower collate l s).
    { edestruct sv_history_runs as (l & _ & Hl'); [exact Hv|exact Hc|]. by exists l. }
    destruct Hruns as [l ->]. destruct (id_history_sound lower collate l s (lg_wf _ _ _ s Hl)) as [_ Hg].
    destruct (gr_users _ _ Hg _ _ Hu) as (u' & Hu' & Hm). exists u'. split; [done|]. by apply um_role.
Qed.

(** C32. Once [DeleteMember] has answered with a member, also as a repetition
    or after a commit whose outcome was found out, that member is locked out
    whatever is done later; it is the member that was to be deleted, unless
    two payloads have one digest. *)
Theorem deleted_member_locked_out o actor userID request s u s1 calls :
  0 < activeKeyVersion (sv_envelope sv) < 2 ^ 32 -> can_reach s -> mutating_ok hmac_sha256 member_digest sv o ->
  DeleteMember member_digest lower collate o actor userID request s = (Ok u, s1) -> Forall fair_call calls ->
  locked_out (UsID u) (history_of calls s1) /\
  (UsID u = userID \/ exists p q, p <> q /\ member_digest p = member_digest q).
Proof.
  intros Hv Hr Ho Hdel Hc. pose proof (reached_ledger _ _ _ _ _ _ _ _ _ Hv s Hr) as Hl.
  pose proof (runs_exec _ IDKey ToLower ParseAddress member_digest key_digest lower collate sv Hv (SDeleteMember o actor userID request) s Ho) as Hrun.
  simpl in Hrun. rewrite Hdel in Hrun. simpl in Hrun. pose proof (runs_ledger _ _ _ _ _ _ _ Hrun Hl) as Hl1.
  unfold DeleteMember in Hdel. destruct (_ || _)%bool; [done|]. destruct (newMemberMutation _ _ _ _) as [mutation|] eqn:Hm; [|done].
  apply newMemberMutation_inv in Hm as [-> _]. apply mutate_ok in Hdel as [Hw1 (id & m & u0 & Hid & Hrec & Hres & Huid & Hj)]; [|by apply Hl].
  assert (Hu0 : UsID u0 = UsID u) by (destruct u0, u; by simplify_eq/=). injection Hrec as _ Hact _ Hfp'.
  destruct (lg_deletions _ _ _ s1 Hl1 id m Hid u0) as (Hfp & row & Hrow & Hd); [exact Hact|done|]. rewrite Hu0 in *. split.
  - assert (Hruns : exists l, history_of calls s1 = id_history lower collate l s1).
    { edestruct sv_history_runs as (l & _ & Hl'); [exact Hv|exact Hc|]. by exists l. }
    destruct Hruns as [l ->]. destruct (id_history_sound lower collate l s1 Hw1) as [Hw2 Hg].
    destruct (gr_users _ _ Hg _ _ Hrow) as (row' & Hrow' & Hmv). apply (deleted_locked_out _ _ row'); [done..|]. by apply (um_deleted _ _ Hmv).
  - destruct (decide (UsID u = userID)) as [->|Hne]; [by left|right]. exists (PayloadDelete (UsID u)), (PayloadDelete userID).
    split; [congruence|]. unfold member_fingerprint in Hfp. simpl in Hfp. congruence.
Qed.
End service.

(** * Theorems about gateway keys and sessions

    The secret and the token that were given out let their owner in exactly as
    long as the row of the key or session, and the account, say so. *)

(** ** The record of a creation *)

Lemma gatewayKeyMutationResult_inv m mutation k : gatewayKeyMutationResult m mutation = Ok k -> GmResult m = KmKey k.
Proof. unfold gatewayKeyMutationResult. intros H. repeat case_match; by simplify_eq. Qed.

Section creation.
Context (lower : string -> string) (collate : string -> string -> comparison).

Definition made (s : IdStore) (actorID key : UUID) (k : GatewayKey) : Prop :=
  exists id m, id_key_mutations s !! id = Some m /\ GmActorUserID m = actorID /\ GmIdempotencyKey m = key /\ GmResult m = KmKey k.

Lemma key_lookup_found s actorID key c m :
  (GetGatewayKeyMutation actorID key c s).1 = Ok m ->
  exists id, id_key_mutations s !! id = Some m /\ GmActorUserID m = actorID /\ GmIdempotencyKey m = key.
Proof.
  unfold GetGatewayKeyMutation, reads. simpl. destruct (cn_fault c); [done|]. destruct (find_row _ _) eqn:Hf; [|done].
  intros [= <-]. apply find_row_Some in Hf as [Hs [id Hid]]. apply same_key_mutation_spec in Hs. exists id. by simplify_eq.
Qed.

Lemma create_key_left opID input actorID mutation t n s k n' s' :
  create_key_body collate opID input actorID mutation t n s = (Ok (Leave k), n', s') -> made s actorID (KuIdempotencyKey mutation) k.
Proof.
  unfold create_key_body. intros (r & n1 & s1 & [-> Hc]%ask_inv & H)%bind_inv.
  apply ClaimGatewayKeyMutation_inv in Hc as [(-> & e & -> & _)|(_ & _ & _ & -> & ->)].
  - destruct e; repeat tx_inv; try done. destruct (gatewayKeyMutationResult _ _) eqn:Hr; repeat tx_inv.
    match goal with H : GetGatewayKeyMutation _ _ _ _ = _ |- _ => pose proof (key_lookup_found s actorID _ _ x ltac:(by rewrite H)) as (id & Hid & Ha & Hk) end.
    exists id, x. split_and!; [done..|]. by eapply gatewayKeyMutationResult_inv.
  - repeat tx_inv. destruct (negb _); repeat tx_inv. done.
Qed.

Lemma create_key_ok t first tries opID input actorID mutation s k s' :
  Id_CreateGatewayKey lower collate t first tries opID input actorID mutation s = (Ok k, s') -> made s' actorID (KuIdempotencyKey mutation) k.
Proof.
  unfold Id_CreateGatewayKey. destruct (run_tx _ t s) as [r s1] eqn:Hrun. destruct r as [k0|e|e]; simpl; [|done|].
  - intros [= -> ->]. apply run_tx_inv in Hrun as [(k0 & n & Hb & Hor)|(-> & n & s2 & Hb)]; [|by eapply create_key_left].
    apply create_key_finished in Hb as (_ & (m & Hm & Hrec & _ & Hres) & _). destruct Hor as [[= <-]|[e [=]]].
    injection Hrec as Ha Hk _. by exists opID, m.
  - intros [[j ->] [(c & m & Hread & Hres)|[e' [=]]]]%reconcile_inv. apply key_lookup_found in Hread as (id & Hid & Ha & Hk).
    exists id, m. split_and!; [done..|]. by eapply gatewayKeyMutationResult_inv.
Qed.

(** ** Deletion *)

Lemma deleted_all guard c s n s' id k :
  delete_keys_where guard c s = (Ok n, s') -> id_keys s' !! id = Some k -> guard k = true -> is_null (GkDeletedAt k) = false.
Proof.
  unfold delete_keys_where, on_keys, counted. destruct (cn_fault c); [done|]. intros [= _ <-]. simpl. rewrite lookup_fmap.
  intros (k0 & Hk0 & ->)%fmap_Some. destruct (guard k0) eqn:Hg; simpl; [|congruence]. destruct (is_null (GkDeletedAt k0)) eqn:Hn; simpl; [done|by rewrite Hn].
Qed.

(** The key is there and deleted. *)
Definition key_gone (s : IdStore) (keyID : UUID) : Prop := exists k, id_keys s !! keyID = Some k /\ is_null (GkDeletedAt k) = false.

Lemma key_gone_grows s s' keyID : grows s s' -> key_gone s keyID -> key_gone s' keyID.
Proof.
  intros Hg (k & Hk & Hd). destruct (gr_keys _ _ Hg _ _ Hk) as (k' & Hk' & Hm). exists k'. split; [done|]. by rewrite (km_deleted _ _ Hm Hd).
Qed.

Lemma deletion_state_gone c s keyID owner at_ :
  (GetGatewayKeyDeletionState keyID c s).1 = Ok (owner, at_) -> is_null at_ = false -> key_gone s keyID.
Proof.
  unfold GetGatewayKeyDeletionState, reads. simpl. destruct (cn_fault c); [done|]. destruct (id_keys s !! keyID) as [k|] eqn:Hk; [|done].
  intros [= _ <-] Hd. by exists k.
Qed.

Lemma reconcile_deletion_ok keyID actorID allowAny e first tries s s' :
  reconcileGatewayKeyDeletion lower collate keyID actorID allowAny e first tries s = (Ok tt, s') -> key_gone s' keyID.
Proof.
  revert first s. induction tries as [|next tries IH]; intros first s; cbn [reconcileGatewayKeyDeletion];
    destruct (GetGatewayKeyDeletionState _ _ _).1 as [[owner at_]|] eqn:Hr; try done; try (by apply IH); destruct (_ && _)%bool; try done;
    destruct (is_null at_) eqn:Hn; simpl; try done; try (by apply IH).
  all: intros [= <-]; by eapply deletion_state_gone.
Qed.

Lemma delete_key_ok t first tries keyID actorID allowAny s s' :
  id_wf lower s -> Id_DeleteGatewayKey lower collate t first tries keyID actorID allowAny s = (Ok tt, s') -> key_gone s' keyID.
Proof.
  intros Hs. unfold Id_DeleteGatewayKey. destruct (run_tx _ t s) as [r s1] eqn:Hrun. destruct r as [[]|e|e]; [|done|apply reconcile_deletion_ok].
  intros [= ->]. apply run_tx_inv in Hrun as [([] & n & Hb & _)|(-> & n & s2 & Hb)]; unfold delete_key_body in Hb;
    apply bind_inv in Hb as ([owner at_] & n1 & s3 & [-> Hq]%query_inv & H); destruct (_ && _)%bool; try (by repeat tx_inv);
    destruct (is_null at_) eqn:Hn; simpl in H; repeat tx_inv; try done.
  - destruct (negb (_ =? 1)); repeat tx_inv. unfold GetGatewayKeyForDeletion, reads in Hq. simpl in Hq. destruct (tx_fault t 0%nat); [done|].
    destruct (id_keys s !! keyID) as [k|] eqn:Hk; [|done]. injection Hq as _ _ <-.
    match goal with H : CreateAuditEvent _ _ _ = _ |- _ => apply CreateAuditEvent_inv in H as (l & ->) end.
    match goal with H : MarkGatewayKeyDeleted _ _ _ = _ |- _ => rename H into Hmark end.
    pose proof (query_rel_elim _ _ _ _ _ _ (sound_delete_keys_where lower _) Hmark Hs) as [Hw Hg].
    destruct (gr_keys _ _ Hg _ _ Hk) as (k' & Hk' & _). exists k'. split; [done|]. eapply deleted_all; [exact Hmark|exact Hk'|].
    apply bool_decide_eq_true. by apply (iw_keys _ _ Hw).
  - destruct (negb (_ =? 1)); by repeat tx_inv.
  - unfold GetGatewayKeyForDeletion, reads in Hq. simpl in Hq. destruct (tx_fault t 0%nat); [done|].
    destruct (id_keys s !! keyID) as [k|] eqn:Hk; [|done]. injection Hq as _ <- _. by exists k.
Qed.
End creation.

Section service.
Context {AE : AEAD} {AL : AEADLaws} (hmac_sha256 : bytes -> bytes -> bytes) (IDKey : string -> bytes -> Z -> Z -> Z -> Z -> bytes).
Context (ToLower : string -> string) (ParseAddress : string -> option string).
Context (member_digest : MemberPayload -> bytes).
Context (key_digest : UUID -> string -> list GatewayKeyRoute -> option Z -> option UUID -> bytes).
Context (lower : string -> string) (collate : string -> string -> comparison).
Context (sv : IdService).

Abbreviation can_reach := (reached hmac_sha256 IDKey ToLower ParseAddress member_digest key_digest lower collate sv).
Abbreviation fair_call := (call_ok hmac_sha256 member_digest sv).
Abbreviation exec_of := (sv_exec hmac_sha256 IDKey ToLower ParseAddress member_digest key_digest lower collate sv).
Abbreviation history_of := (sv_history hmac_sha256 IDKey ToLower ParseAddress member_digest key_digest lower collate sv).

(** ** Keys *)

(** The answer to a secret, from the row of its key. *)
Definition key_answer (now : Z) (row : KeyRecord) (s : IdStore) : result IdError GatewayPrincipal :=
  match id_users s !! GkUserID row with
  | Some u => if (key_valid now row && bool_decide (UdStatus u = UserActive))%bool then Ok (gateway_principal_of row u) else Err IInvalidCredential
  | None => Err IInvalidCredential
  end.

Lemma derived_prefix actorID key secret : deriveGatewayKeySecret hmac_sha256 sv actorID key = Ok secret -> has_prefix secret "llmg_" = true.
Proof.
  unfold deriveGatewayKeySecret. destruct (key_hmac _ _ _) as [d|]; [|done]. intros H.
  assert (Hs : secret = "llmg_" +:+ EncodeToString UrlAlphabet d) by congruence. rewrite Hs. unfold has_prefix. by rewrite (strip_prefix_app "llmg_").
Qed.

Lemma authenticate_key s id row secret digest c turn :
  id_wf lower s -> id_keys s !! id = Some row -> GkSecretDigest row = digest -> has_prefix secret "llmg_" = true ->
  key_hmac hmac_sha256 sv secret = Ok digest -> cn_fault c = None ->
  (AuthenticateGatewayKey hmac_sha256 lower collate sv c turn secret s).1 = key_answer (cn_now c) row s.
Proof.
  intros Hs Hrow Hd Hp Hh Hc. unfold AuthenticateGatewayKey. rewrite Hp, Hh. simpl. unfold Id_FindGatewayPrincipal, read_with, GetGatewayKeyByDigest, reads.
  rewrite Hc. cbn [fst]. unfold key_by, key_answer. assert (Honly : forall j k, id_keys s !! j = Some k ->
    (bool_decide (GkSecretDigest k = digest) && key_valid (cn_now c) k)%bool = true -> j = id).
  { intros j k Hk [Hx _]%andb_true_iff. apply bool_decide_eq_true in Hx. apply (iw_digests lower s Hs j id k row); try done. congruence. }
  destruct (key_valid (cn_now c) row) eqn:Hv.
  - rewrite (find_row_unique _ _ id row Hrow); [|by rewrite bool_decide_eq_true_2|exact Honly].
    destruct (id_users s !! GkUserID row) as [u|]; [|done]. simpl. by case_bool_decide.
  - destruct (find_row _ _) as [k|] eqn:Hf.
    + apply find_row_Some in Hf as (Hk & j & Hj). rewrite (Honly j k Hj Hk) in Hj. simplify_eq. rewrite Hv, andb_false_r in Hk. done.
    + simpl. by destruct (id_users s !! GkUserID row).
Qed.

(** The row of a key that was made, at any later time. *)
Lemma made_row s actorID key k secret :
  ledger lower (member_fingerprint member_digest) (key_genuine hmac_sha256 sv) s -> made s actorID key k ->
  deriveGatewayKeySecret hmac_sha256 sv actorID key = Ok secret ->
  exists row, id_keys s !! KyID k = Some row /\ GkUserID row = KyUserID k /\
    Decrypt (sv_envelope sv) (GkEncryptedSecret row) (GatewayKeyEncryptionContext (KyID k)) = Ok (text_bytes secret) /\
    forall c turn, cn_fault c = None ->
    (AuthenticateGatewayKey hmac_sha256 lower collate sv c turn secret s).1 = key_answer (cn_now c) row s.
Proof.
  intros Hl (id & m & Hm & Ha & Hk & Hres) Hd. destruct (lg_keys _ _ _ s Hl id m Hm k Hres) as (row & Hrow & Hu & secret' & Hd' & Hh & _ & Hdec).
  rewrite Ha, Hk, Hd in Hd'. injection Hd' as <-. destruct (iw_keys _ _ (lg_wf _ _ _ _ Hl) _ _ Hrow) as [Hid _]. rewrite Hid in Hdec.
  exists row. split_and!; [done..|]. intros c turn Hc. by eapply authenticate_key; [apply Hl|exact Hrow|reflexivity|eapply derived_prefix|..].
Qed.

Lemma made_stays s s' actorID key k : records_stay s s' -> made s actorID key k -> made s' actorID key k.
Proof. intros [_ Hk] (id & m & Hm & H). exists id, m. split; [|done]. by eapply map_subseteq_spec. Qed.

Lemma key_gone_refused s keyID row : key_gone s keyID -> id_keys s !! keyID = Some row -> forall now, key_answer now row s = Err IInvalidCredential.
Proof.
  intros (k & Hk & Hd) Hrow now. simplify_eq. unfold key_answer, key_valid. rewrite Hd. by destruct (id_users s !! _).
Qed.

Lemma createGatewayKey_made random o keyID actor userID name routes expiresAt replaces request s k s' :
  createGatewayKey hmac_sha256 key_digest lower collate sv random o keyID actor userID name routes expiresAt replaces request s = (Ok k, s') ->
  deriveGatewayKeySecret hmac_sha256 sv (PnUserID actor) (MqIdempotencyKey request) = Ok (KySecret k) /\
  exists k0, made s' (PnUserID actor) (MqIdempotencyKey request) k0 /\ k = with_secret (KySecret k) k0.
Proof.
  unfold createGatewayKey, newGatewayKeyMutation. destruct (valid_mutation request); [|done].
  destruct (deriveGatewayKeySecret _ _ _ _) as [secret|] eqn:Hd; [|done]. destruct (key_hmac _ _ secret) as [digest|]; [|done].
  destruct (Encrypt _ _ _ _) as [encrypted|]; [|done]. destruct (Id_CreateGatewayKey _ _ _ _ _ _ _ _ _ _) as [[k0|] s1] eqn:Hc; [|done].
  intros [= <- <-]. split; [done|]. exists k0. split; [|done]. by apply create_key_ok in Hc.
Qed.

(** What a key reveals is the secret its envelope holds. *)
Lemma reveal_inv c next second third actor keyID s secret :
  (RevealGatewayKey lower collate sv c next second third actor keyID s).1 = Ok secret ->
  exists calls row plaintext, id_keys (id_history lower collate calls s) !! keyID = Some row /\
    Decrypt (sv_envelope sv) (GkEncryptedSecret row) (GatewayKeyEncryptionContext keyID) = Ok plaintext /\
    secret = String.string_of_list_ascii plaintext.
Proof.
  unfold RevealGatewayKey. destruct (_ || _)%bool; [done|].
  assert (Hread : exists calls, (Id_GatewayKeyForReplacement lower collate c next keyID s).2 = id_history lower collate calls s).
  { unfold Id_GatewayKeyForReplacement. destruct (read_with _ _ _ _); [by eexists|]. by exists []. }
  destruct (Id_GatewayKeyForReplacement _ _ _ _ _ _) as [[key|] s1]; [|done]. destruct Hread as [calls Hs1]. simpl in Hs1. subst s1.
  destruct (negb (may_act_for _ _)); [done|]. set (s2 := id_history _ _ (tn_before second) _).
  destruct (Id_GetEncryptedGatewayKey _ _ s2) as [encrypted|] eqn:He; [|done]. destruct (Decrypt _ _ _) as [plaintext|] eqn:Hd; [|done].
  cbv zeta. destruct (_ || _)%bool; [done|]. destruct (CreateAuditEvent _ _ _) as [[r|] s3]; [|done]. intros [= <-].
  unfold Id_GetEncryptedGatewayKey, read_with, GetEncryptedGatewayKey, reads in He. simpl in He. destruct (cn_fault _); [done|].
  destruct (id_keys s2 !! keyID) as [row|] eqn:Hrow; [|done]. destruct (key_valid _ row); [|done]. injection He as <-.
  exists (calls ++ tn_before second), row, plaintext. rewrite id_history_app. done.
Qed.

Lemma CreateGatewayKey_made random o keyID now actor userID name routes expiresAt request s k s' :
  Identity.CreateGatewayKey hmac_sha256 key_digest lower collate sv random o keyID now actor userID name routes expiresAt request s = (Ok k, s') ->
  deriveGatewayKeySecret hmac_sha256 sv (PnUserID actor) (MqIdempotencyKey request) = Ok (KySecret k) /\
  exists k0, made s' (PnUserID actor) (MqIdempotencyKey request) k0 /\ k = with_secret (KySecret k) k0.
Proof. unfold Identity.CreateGatewayKey. repeat (destruct (_ : bool); [done|]). apply createGatewayKey_made. Qed.

Lemma history_ok calls s :
  0 < activeKeyVersion (sv_envelope sv) < 2 ^ 32 -> Forall fair_call calls ->
  ledger lower (member_fingerprint member_digest) (key_genuine hmac_sha256 sv) s ->
  ledger lower (member_fingerprint member_digest) (key_genuine hmac_sha256 sv) (history_of calls s) /\ grows s (history_of calls s) /\
  records_stay s (history_of calls s).
Proof.
  intros Hv Hc Hl. edestruct sv_history_runs as (l & Hg & Heq); [exact Hv|exact Hc|]. rewrite Heq. split_and!; [by apply ledger_history| |apply records_history].
  apply (id_history_sound lower collate l s). by apply Hl.
Qed.

Lemma exec_ok call s :
  0 < activeKeyVersion (sv_envelope sv) < 2 ^ 32 -> fair_call call -> ledger lower (member_fingerprint member_digest) (key_genuine hmac_sha256 sv) s ->
  ledger lower (member_fingerprint member_digest) (key_genuine hmac_sha256 sv) (exec_of call s) /\ grows s (exec_of call s) /\
  records_stay s (exec_of call s).
Proof. intros Hv Hc. apply (history_ok [call] s Hv). by constructor. Qed.


(** ** Sessions *)

(** The answer to a token, from the row of its session. *)
Definition session_answer (now : Z) (row : SessionRecord) (s : IdStore) : result IdError Principal :=
  match id_users s !! SsUserID row with
  | Some u =>
      if (is_null (SsRevokedAt row) && (now <? SsExpiresAt row))%bool
      then if bool_decide (UdStatus u = UserActive) then Ok (principal_of row u) else Err IDisabled
      else Err IInvalidCredential
  | None => Err IInvalidCredential
  end.

Lemma authenticate_session s id row token c turn :
  id_wf lower s -> id_sessions s !! id = Some row -> session_hmac hmac_sha256 sv token = Ok (SsTokenDigest row) -> cn_fault c = None ->
  (AuthenticateSession hmac_sha256 lower collate sv c turn token s).1 = session_answer (cn_now c) row s.
Proof.
  intros Hs Hrow Hh Hc. unfold AuthenticateSession. rewrite Hh. unfold Id_FindSession, read_with, GetSessionByDigest, reads. rewrite Hc. cbn [fst].
  unfold session_answer. assert (Honly : forall j r, id_sessions s !! j = Some r ->
    (bool_decide (SsTokenDigest r = SsTokenDigest row) && is_null (SsRevokedAt r) && (cn_now c <? SsExpiresAt r))%bool = true -> j = id).
  { intros j r Hr [[Hx _]%andb_true_iff _]%andb_true_iff. apply bool_decide_eq_true in Hx. by apply (iw_tokens lower s Hs j id r row). }
  destruct (is_null (SsRevokedAt row) && (cn_now c <? SsExpiresAt row))%bool eqn:Hv.
  - rewrite (find_row_unique _ _ id row Hrow); [|by rewrite bool_decide_eq_true_2, andb_true_l|exact Honly].
    destruct (id_users s !! SsUserID row) as [u|]; [|done]. simpl. unfold is_active. simpl. by case_bool_decide.
  - destruct (find_row _ _) as [r|] eqn:Hf.
    + apply find_row_Some in Hf as (Hr & j & Hj). rewrite (Honly j r Hj Hr) in Hj. simplify_eq.
      rewrite bool_decide_eq_true_2, andb_true_l, Hv in Hr by done. done.
    + by destruct (id_users s !! SsUserID row).
Qed.

Lemma login_ok random1 random2 now c turn next newID email password s creds s' :
  id_wf lower s ->
  Login hmac_sha256 IDKey ToLower ParseAddress lower collate sv random1 random2 now c turn next newID email password s = (Ok creds, s') ->
  id_wf lower s' /\ exists row, id_sessions s' !! PnSessionID (ScPrincipal creds) = Some row /\ SsUserID row = PnUserID (ScPrincipal creds) /\
    SsExpiresAt row = time_add now defaultSessionLength /\ session_hmac hmac_sha256 sv (ScToken creds) = Ok (SsTokenDigest row) /\
    session_hmac hmac_sha256 sv (ScCSRFToken creds) = Ok (SsCsrfDigest row).
Proof.
  intros Hs. unfold Login. destruct (normalizeEmail _ _ _) as [email'|]; [|done].
  cbv zeta. destruct (VerifyPassword _ _ _ _) as [v|]; [|done]. destruct (Id_FindUserByEmail _ _ _ _) as [u|]; [|done].
  destruct (Match_ v); [|done]. destruct (UsStatus u); [|done..]. unfold issueSession, prepareSession. set (s1 := id_history _ _ (tn_before turn) s).
  destruct (generate random1) as [token|]; [|done]. destruct (generate random2) as [csrf|]; [|done]. simpl.
  destruct (session_hmac _ _ token) as [td|] eqn:Htd; [|done]. destruct (session_hmac _ _ csrf) as [cd|] eqn:Hcd; [|done]. simpl.
  destruct (id_history_sound lower collate (tn_before turn) s Hs) as [Hs1 _]. fold s1 in Hs1. unfold Id_CreateSession.
  destruct (GetUserByID (UsID u) (tn_conn turn) s1).1 as [user|] eqn:Hu; [|done]. case_bool_decide as Hact; [|done].
  destruct (id_history_sound lower collate (tn_before next) s1 Hs1) as [Hs2 _]. set (s2 := id_history _ _ (tn_before next) s1) in *.
  destruct (CreateSession newID (UsID u) td cd _ (tn_conn next) s2) as [[session|] s3] eqn:Hcs; [|done]. intros [= <- <-]. simpl.
  pose proof (query_rel_elim _ _ _ _ _ _ (sound_CreateSession lower _ _ _ _ _) Hcs Hs2) as [Hs3 _]. split; [done|].
  unfold CreateSession, on_sessions in Hcs. destruct (insert_one _ _ _ _ _) as [r t] eqn:Hi. injection Hcs as -> <-.
  apply insert_one_inv in Hi as [(_ & _ & [= ->] & ->)|(_ & e & [=])]. simpl. eexists. rewrite lookup_insert_eq. split_and!; [done| |done..].
  unfold GetUserByID, reads in Hu. simpl in *. destruct (cn_fault _); [done|]. destruct (id_users s1 !! UsID u) eqn:Hl; [|done]. injection Hu as ->.
  by destruct (iw_users _ s1 Hs1 _ _ Hl) as [-> _].
Qed.

Lemma session_refused s id row token c turn :
  id_wf lower s -> id_sessions s !! id = Some row -> session_hmac hmac_sha256 sv token = Ok (SsTokenDigest row) ->
  is_null (SsRevokedAt row) = false -> (AuthenticateSession hmac_sha256 lower collate sv c turn token s).1 = Err IInvalidCredential.
Proof.
  intros Hs Hrow Hh Hn. destruct (cn_fault c) eqn:Hc.
  - unfold AuthenticateSession. rewrite Hh. unfold Id_FindSession, read_with, GetSessionByDigest, reads. by rewrite Hc.
  - rewrite (authenticate_session s id row) by done. unfold session_answer. rewrite Hn. by destruct (id_users s !! _).
Qed.

(** C37. The token that [Login] answers lets the user in at any later time
    exactly while the session is neither revoked nor older than twelve hours
    and the account is active, with a principal whose CSRF token is the one
    given with it; and after a logout of the session that succeeded it is
    refused for ever. *)
Theorem session_lifecycle random1 random2 now c0 turn0 next newID email password s creds s1 calls :
  id_wf lower s ->
  Login hmac_sha256 IDKey ToLower ParseAddress lower collate sv random1 random2 now c0 turn0 next newID email password s = (Ok creds, s1) ->
  let s2 := id_history lower collate calls s1 in
  exists row, id_sessions s2 !! PnSessionID (ScPrincipal creds) = Some row /\ SsUserID row = PnUserID (ScPrincipal creds) /\
    SsExpiresAt row = time_add now defaultSessionLength /\
    (forall c turn, cn_fault c = None ->
       (AuthenticateSession hmac_sha256 lower collate sv c turn (ScToken creds) s2).1 = session_answer (cn_now c) row s2) /\
    (forall u, VerifyCSRF hmac_sha256 sv (principal_of row u) (ScCSRFToken creds) = true) /\
    (forall c p s3 calls' c' turn', PnSessionID p = PnSessionID (ScPrincipal creds) -> Logout c p s2 = (None, s3) ->
       (AuthenticateSession hmac_sha256 lower collate sv c' turn' (ScToken creds) (id_history lower collate calls' s3)).1 = Err IInvalidCredential).
Proof.
  intros Hs Hlogin s2. apply login_ok in Hlogin as (Hs1 & row1 & Hrow1 & Huser & Hexp & Htok & Hcsrf); [|done].
  destruct (id_history_sound lower collate calls s1 Hs1) as [Hs2 Hg]. destruct (gr_sessions _ _ Hg _ _ Hrow1) as (row & Hrow & Hm).
  fold s2 in Hs2, Hrow. pose proof (sm_fixed _ _ Hm) as Hfix. injection Hfix as Hid Hu Ht Hc He. exists row. rewrite <- Ht in Htok. rewrite <- Hc in Hcsrf.
  split_and!; [done|congruence|congruence| | |].
  - intros c turn Hf. by eapply authenticate_session.
  - intros u. unfold VerifyCSRF. rewrite Hcsrf. by apply bool_decide_eq_true.
  - intros c p s3 calls' c' turn' Hp. unfold Logout. destruct (RevokeSession _ _ _) as [[n|] s3'] eqn:Hr; [|done]. intros [= <-].
    pose proof (query_rel_elim _ _ _ _ _ _ (sound_revoke_where lower _) Hr Hs2) as [Hs3 Hg3].
    destruct (gr_sessions _ _ Hg3 _ _ Hrow) as (row3 & Hrow3 & Hm3). pose proof (sm_fixed _ _ Hm3) as Hfix3. injection Hfix3 as Hid3 _ Ht3 _ _.
    assert (Hrev : is_null (SsRevokedAt row3) = false).
    { eapply revoked_all; [exact Hr|exact Hrow3|]. apply bool_decide_eq_true. rewrite Hp. by apply (iw_sessions _ _ Hs3). }
    destruct (id_history_sound lower collate calls' s3' Hs3) as [Hs4 Hg4]. destruct (gr_sessions _ _ Hg4 _ _ Hrow3) as (row4 & Hrow4 & Hm4).
    pose proof (sm_fixed _ _ Hm4) as Hfix4. injection Hfix4 as _ _ Ht4 _ _.
    eapply session_refused; [done|exact Hrow4|congruence|]. by rewrite (sm_revoked _ _ Hm4 Hrev).
Qed.

(** ** Members *)

Context (ilike : string -> string -> bool).

Lemma member_cannot_manage p : PnRole p = UserMember -> CanManageUsers p = false.
Proof. intros H. unfold CanManageUsers. by rewrite H. Qed.

Lemma member_acts_for_self p userID : PnRole p = UserMember -> PnUserID p <> userID -> may_act_for p userID = false.
Proof. intros H Hne. unfold may_act_for. rewrite H. simpl. by rewrite bool_decide_eq_false_2. Qed.

Lemma replacement_owner c next keyID s key s' row :
  id_keys s !! keyID = Some row -> Id_GatewayKeyForReplacement lower collate c next keyID s = (Ok key, s') -> KyUserID key = GkUserID row.
Proof.
  intros Hrow. unfold Id_GatewayKeyForReplacement, read_with at 1, GetGatewayKeyForReplacement, reads. simpl. destruct (cn_fault c); [done|].
  rewrite Hrow. destruct (key_valid _ row); [|done]. destruct (read_with _ _ _ _) as [[|r l]|]; [done| |done]. by intros [= <- <-].
Qed.

Lemma reconcile_deletion_owner keyID actorID e first tries s s' row :
  id_wf lower s -> id_keys s !! keyID = Some row -> GkUserID row <> actorID ->
  reconcileGatewayKeyDeletion lower collate keyID actorID false e first tries s <> (Ok tt, s').
Proof.
  intros Hs Hrow Hne. assert (Hread : forall (first : Turn Conn) s, id_wf lower s -> (exists row, id_keys s !! keyID = Some row /\ GkUserID row <> actorID) ->
    id_wf lower (id_history lower collate (tn_before first) s) /\
    exists row, id_keys (id_history lower collate (tn_before first) s) !! keyID = Some row /\ GkUserID row <> actorID).
  { clear. intros f s Hs (row & Hrow & Hne). destruct (id_history_sound lower collate (tn_before f) s Hs) as [Hs' Hg]. split; [done|].
    destruct (gr_keys _ _ Hg _ _ Hrow) as (row' & Hrow' & Hm). exists row'. split; [done|]. pose proof (km_fixed _ _ Hm). congruence. }
  assert (Hex : exists row, id_keys s !! keyID = Some row /\ GkUserID row <> actorID) by eauto. clear Hrow Hne row. revert first s Hs Hex.
  induction tries as [|next tries IH]; intros first s Hs Hex; cbn [reconcileGatewayKeyDeletion];
    destruct (Hread first s Hs Hex) as [Hs1 (row & Hrow & Hne)]; unfold GetGatewayKeyDeletionState, reads; simpl;
    destruct (cn_fault _); try done; try (apply IH; by eauto); rewrite Hrow; by rewrite bool_decide_eq_false_2.
Qed.

Lemma member_cannot_delete o p keyID s row :
  id_wf lower s -> PnRole p = UserMember -> id_keys s !! keyID = Some row -> GkUserID row <> PnUserID p ->
  (DeleteGatewayKey lower collate o p keyID s).1 <> Ok tt.
Proof.
  intros Hs Hp Hrow Hne. unfold DeleteGatewayKey, Id_DeleteGatewayKey. rewrite (member_cannot_manage p Hp).
  destruct (run_tx _ _ s) as [r s1] eqn:Hrun.
  assert (Hbody : forall n a n' s', delete_key_body keyID (PnUserID p) false (mu_tx o) n s <> (Ok a, n', s')).
  { intros n a n' s' Hb. unfold delete_key_body in Hb. apply bind_inv in Hb as ([owner at_] & n1 & s3 & [-> Hq]%query_inv & Hb).
    unfold GetGatewayKeyForDeletion, reads in Hq. destruct (cn_fault _); [done|]. rewrite Hrow in Hq. injection Hq as <- _ _.
    rewrite bool_decide_eq_false_2 in Hb by done. simpl in Hb. by repeat tx_inv. }
  apply run_tx_inv in Hrun as [(a & n & Hb & _)|(-> & Hres)]; [by apply Hbody in Hb|]. destruct r as [a|e|e]; simpl; [|done|].
  - destruct Hres as (n & s2 & Hb). by apply Hbody in Hb.
  - intros Hok. destruct (reconcileGatewayKeyDeletion _ _ _ _ _ _ _ _ _) as [r s2] eqn:Hrec. simpl in Hok. subst r.
    by eapply reconcile_deletion_owner in Hrec.
Qed.

(** A member manages nobody and sees only what is theirs: every operation
    on accounts, and the creation and listing of keys for another user, is
    refused without touching the store; a key of another user is neither
    deleted, revealed nor replaced, whatever happens in between. *)
Theorem members_confined p s :
  PnRole p = UserMember -> id_wf lower s ->
  (forall random o newID email name request,
     CreateMember hmac_sha256 IDKey ToLower ParseAddress member_digest lower collate sv random o newID p email name request s = (Err IForbidden, s)) /\
  (forall o change request, UpdateMember ToLower ParseAddress member_digest lower collate o p change request s = (Err IForbidden, s)) /\
  (forall o userID status request, SetUserStatus member_digest lower collate o p userID status request s = (Err IForbidden, s)) /\
  (forall o userID request, DeleteMember member_digest lower collate o p userID request s = (Err IForbidden, s)) /\
  (forall random o userID password request,
     ResetMemberPassword hmac_sha256 IDKey lower collate sv random o p userID password request s = (Err IForbidden, s)) /\
  (forall t userID requestID, Identity.RevokeUserSessions t p userID requestID s = (Err IForbidden, s)) /\
  (forall c next status search offset size, Identity.ListUsers lower collate ilike c next p status search offset size s = (Err IForbidden, s)) /\
  (forall userID, userID <> PnUserID p ->
     (forall random o keyID now name routes expiresAt request,
        Identity.CreateGatewayKey hmac_sha256 key_digest lower collate sv random o keyID now p userID name routes expiresAt request s =
        (Err IForbidden, s)) /\
     (forall c next, Identity.ListGatewayKeys lower collate c next p userID s = (Err IForbidden, s))) /\
  (forall keyID row, id_keys s !! keyID = Some row -> GkUserID row <> PnUserID p ->
     (forall o, (DeleteGatewayKey lower collate o p keyID s).1 <> Ok tt) /\
     (forall c next second third secret, (RevealGatewayKey lower collate sv c next second third p keyID s).1 <> Ok secret) /\
     (forall random o newKeyID c next before request k,
        (ReplaceGatewayKey hmac_sha256 key_digest lower collate sv random o newKeyID c next before p keyID request s).1 <> Ok k)).
Proof.
  intros Hp Hs. pose proof (member_cannot_manage p Hp) as Hm. split_and!.
  - intros. unfold CreateMember. by rewrite Hm, orb_true_r.
  - intros. unfold UpdateMember. by rewrite Hm, orb_true_r.
  - intros. unfold SetUserStatus. by rewrite Hm, orb_true_r.
  - intros. unfold DeleteMember. by rewrite Hm, orb_true_r.
  - intros. unfold ResetMemberPassword. by rewrite Hm, orb_true_r.
  - intros. unfold Identity.RevokeUserSessions. by rewrite Hm, orb_true_r.
  - intros. unfold Identity.ListUsers. cbv zeta. by rewrite Hm, orb_true_r.
  - intros userID Hne. split; intros.
    + unfold Identity.CreateGatewayKey. by rewrite (member_acts_for_self p userID Hp), orb_true_r by done.
    + unfold Identity.ListGatewayKeys. by rewrite Hm, bool_decide_eq_false_2.
  - intros keyID row Hrow Hne. split_and!; intros.
    + by eapply member_cannot_delete.
    + unfold RevealGatewayKey. destruct (_ || _)%bool; [done|]. destruct (Id_GatewayKeyForReplacement _ _ _ _ _ _) as [[key|] s1] eqn:Hr; [|done].
      apply (replacement_owner _ _ _ _ _ _ row Hrow) in Hr. by rewrite (member_acts_for_self p _ Hp) by congruence.
    + unfold ReplaceGatewayKey. destruct (_ || _)%bool; [done|]. destruct (Id_GatewayKeyForReplacement _ _ _ _ _ _) as [[key|] s1] eqn:Hr; [|done].
      apply (replacement_owner _ _ _ _ _ _ row Hrow) in Hr. by rewrite (member_acts_for_self p _ Hp) by congruence.
Qed.
End service.
