(* ===== verification/IdentityDemo.v ===== *)
(** * Concrete runs of the identity service

    A database is bootstrapped, a member is created, a key is made, and the
    theorems are applied there.  Two runs show behaviours of the code that are
    findings: a key that cannot be replaced, and a session that survives the
    revocation of all sessions. *)

From S2P Require Import Prelude GoStrings Canonical ProviderRequest Envelope EnvelopeProps Password Sql RequestTable RequestStore RequestHistory IdentityTable IdentityStore Identity IdentityHistory IdentityProps.

Local Open Scope Z_scope.

#[local] Existing Instance demo_aead.
#[local] Existing Instance demo_aead_laws.

(** The last 16 bytes backwards, then the first 16 bytes. *)
Definition demo_hmac (k v : bytes) : bytes := take 32 (take 16 (rev v) ++ take 16 v ++ replicate 32 "0"%char).
Definition demo_digest (p : MemberPayload) : bytes :=
  replicate 32 (match p with PayloadCreate _ _ => "c" | PayloadUpdate _ => "u" | PayloadStatus _ _ => "s" | PayloadDelete _ => "d" end)%char.
Definition demo_key_digest (userID : UUID) (name : string) (routes : list GatewayKeyRoute) (expiresAt : option Z) (replaces : option UUID) : bytes :=
  replicate 32 "k"%char.
Definition plain_text (s : string) : string := s.
Definition demo_address (s : string) : option string := Some s.
Definition demo_random_of (c : ascii) (n : nat) : result string bytes := Ok (replicate n c).

Definition demo_service : IdService :=
  mkIdService (mkEnvelopeCipher 1 old_keys) RecommendedPasswordParameters (replicate 32 "p"%char) (replicate 32 "q"%char) "".

Definition demo_conn (now : Z) : Conn := mkConn now None (λ _, false).
Definition demo_tx (now : Z) : Tx := mkTx now None (λ _, None) (λ _, false) Committed.
Definition demo_turn (now : Z) : Turn Conn := mkTurn [] (demo_conn now).
Definition demo_mutating (now : Z) (opID : UUID) : Mutating := mkMutating (demo_tx now) (demo_turn now) [] now opID.

(** Two models, [m1] called ["zeta"] and [m2] called ["alpha"], in a pool. *)
Definition demo_catalog : Catalog :=
  mkCatalog {["m1" := mkModelRow "pv" "zeta" "zeta" "" 0; "m2" := mkModelRow "pv" "alpha" "alpha" "" 0]}
    {["p1" := mkPoolRow "pv" "Pool" "pool" ResourceActive]} {[("p1", "m1"); ("p1", "m2")]} ∅ ∅.

Abbreviation demo_exec :=
  (sv_exec demo_hmac demo_IDKey plain_text demo_address demo_digest demo_key_digest plain_text String.compare demo_service).
Abbreviation demo_reached :=
  (reached demo_hmac demo_IDKey plain_text demo_address demo_digest demo_key_digest plain_text String.compare demo_service).

Definition demo_bootstrap : SvCall :=
  SBootstrap (demo_random_of "a"%char) (demo_random_of "b"%char) (demo_random_of "c"%char) (demo_random_of "d"%char) 1000 (demo_tx 1000)
    "admin" "session0" "root@example.com".
Definition bootstrapped : IdStore := demo_exec demo_bootstrap (empty_store demo_catalog).

Definition demo_admin : Principal :=
  mkPrincipal "session0" "admin" "root@example.com" "Administrator" UserAdministrator UserActive [] 0.
Definition demo_member : Principal := mkPrincipal "session1" "member" "ann@example.com" "Ann" UserMember UserActive [] 0.

Definition demo_create : SvCall :=
  SCreateMember (demo_random_of "b"%char) (demo_mutating 2000 "op1") "member" demo_admin "ann@example.com" "Ann" (mkMutationRequest "key1" "req1").
Definition with_member : IdStore := demo_exec demo_create bootstrapped.

Definition demo_route (m n : string) : GatewayKeyRoute := mkGatewayKeyRoute m n "p1" "Pool".
Definition demo_make_key : result IdError GatewayKey * IdStore :=
  Identity.CreateGatewayKey demo_hmac demo_key_digest plain_text String.compare demo_service (demo_random_of "n"%char) (demo_mutating 3000 "op2") "gk1"
    3000 demo_admin "admin" "main" [demo_route "m2" ""; demo_route "m1" ""] (Some 9000) (mkMutationRequest "key2" "req2") with_member.

Definition demo_delete : result IdError User * IdStore :=
  DeleteMember demo_digest plain_text String.compare (demo_mutating 4000 "op3") demo_admin "member" (mkMutationRequest "key3" "req3") with_member.

Definition demo_login (turn : Turn Conn) : result IdError SessionCredentials * IdStore :=
  Login demo_hmac demo_IDKey plain_text demo_address plain_text String.compare demo_service (demo_random_of "e"%char) (demo_random_of "f"%char)
    5000 (demo_conn 5000) turn (demo_turn 5000) "session2" "root@example.com" (EncodeToString UrlAlphabet (replicate 32 "a"%char)) bootstrapped.

Definition ok_of {A} (d : A) (r : result IdError A) : A := match r with Ok a => a | Err _ => d end.
Definition no_key : GatewayKey := mkGatewayKey "" "" "" "" "" [] None None None 0.
Definition no_user : User := mkUser "" "" "" UserMember UserActive None None 0 0 "".
Definition no_credentials : SessionCredentials := mkSessionCredentials demo_member "" "".


Lemma ok_pair {A} (d : A) (r : result IdError A * IdStore) : is_ok r.1 = true -> r = (Ok (ok_of d r.1), r.2).
Proof. by destruct r as [[]]. Qed.

Lemma demo_version : 0 < activeKeyVersion (sv_envelope demo_service) < 2 ^ 32.
Proof. simpl. lia. Qed.

Lemma mutating_free now opID : mutating_ok demo_hmac demo_digest demo_service (demo_mutating now opID).
Proof. split; constructor. Qed.

Lemma bootstrapped_reached : demo_reached bootstrapped.
Proof. apply reached_exec; [apply reached_empty|exact I]. Qed.

Lemma with_member_reached : demo_reached with_member.
Proof. apply reached_exec; [exact bootstrapped_reached|apply mutating_free]. Qed.

Lemma bootstrapped_wf : id_wf plain_text bootstrapped.
Proof. apply (reached_ledger _ _ _ _ _ _ _ _ _ demo_version _ bootstrapped_reached). Qed.

Lemma with_member_wf : id_wf plain_text with_member.
Proof. apply (reached_ledger _ _ _ _ _ _ _ _ _ demo_version _ with_member_reached). Qed.

Lemma demo_tx_fine now : no_fault (demo_tx now).
Proof. by split. Qed.

(** ** Witnesses *)

Lemma one_administrator_witness :
  is_Some (id_bootstrapped_at bootstrapped) /\ exists id u, id_users bootstrapped !! id = Some u /\ UdRole u = UserAdministrator.
Proof.
  destruct (one_administrator demo_hmac demo_IDKey plain_text demo_address demo_digest demo_key_digest plain_text String.compare demo_service
    bootstrapped [] demo_version bootstrapped_reached (Forall_nil_2 _)) as (_ & _ & [H _] & _).
  assert (Hb : is_Some (id_bootstrapped_at bootstrapped)) by (exists 1000; vm_compute; reflexivity). split; [exact Hb|exact (H Hb)].
Defined.

Lemma deleted_member_locked_out_witness :
  locked_out demo_hmac demo_IDKey plain_text demo_address plain_text String.compare demo_service (UsID (ok_of no_user demo_delete.1)) demo_delete.2 /\
  UsID (ok_of no_user demo_delete.1) = "member".
Proof.
  split; [|vm_compute; reflexivity].
  apply (deleted_member_locked_out demo_hmac demo_IDKey plain_text demo_address demo_digest demo_key_digest plain_text String.compare demo_service
    (demo_mutating 4000 "op3") demo_admin "member" (mkMutationRequest "key3" "req3") with_member (ok_of no_user demo_delete.1) demo_delete.2 []
    demo_version with_member_reached (mutating_free _ _)); [|apply Forall_nil_2].
  apply ok_pair. vm_compute. reflexivity.
Defined.

(** The deletion asked for again, with a creation in its place: the same answer. *)
Definition demo_mutation (action : MemberMutationAction) (key : UUID) (c : ascii) : MemberMutation :=
  mkMemberMutation action key (replicate 32 c) "req".
Definition demo_mutate (key : UUID) (c : ascii) (a : MemberApply) (s : IdStore) : result IdError User * IdStore :=
  Id_mutateMember plain_text String.compare (demo_tx 4000) (demo_turn 4000) [] 4000 "op4" "admin" (demo_mutation MutationDelete key c) a s.
Definition demo_mutated : result IdError User * IdStore := demo_mutate "key4" "d"%char (ApplyDelete "member") with_member.

Lemma mutations_happen_once_witness :
  (exists u, user_json u = user_json (ok_of no_user demo_mutated.1) /\
     demo_mutate "key4" "d"%char (ApplyDelete "admin") demo_mutated.2 = (Ok u, demo_mutated.2)) /\
  demo_mutate "key4" "e"%char (ApplyDelete "admin") demo_mutated.2 = (Err IIdempotencyConflict, demo_mutated.2).
Proof.
  assert (H : demo_mutated = (Ok (ok_of no_user demo_mutated.1), demo_mutated.2)) by (apply ok_pair; vm_compute; reflexivity).
  assert (Hn : UsID (ok_of no_user demo_mutated.1) <> uuid_Nil) by (apply (bool_decide_unpack _); vm_compute; exact I).
  split.
  - destruct (mutations_happen_once plain_text String.compare (demo_tx 4000) (demo_turn 4000) [] 4000 "op4" "admin"
      (demo_mutation MutationDelete "key4" "d"%char) (ApplyDelete "member") with_member _ _ [] (demo_tx 4000) (demo_turn 4000) [] 4000 "op4"
      (demo_mutation MutationDelete "key4" "d"%char) (ApplyDelete "admin") with_member_wf H Hn (demo_tx_fine _) eq_refl eq_refl eq_refl) as (u & Hu & Ha).
    exists u. split; [exact Hu|]. exact Ha.
  - destruct (mutations_happen_once plain_text String.compare (demo_tx 4000) (demo_turn 4000) [] 4000 "op4" "admin"
      (demo_mutation MutationDelete "key4" "d"%char) (ApplyDelete "member") with_member _ _ [] (demo_tx 4000) (demo_turn 4000) [] 4000 "op4"
      (demo_mutation MutationDelete "key4" "e"%char) (ApplyDelete "admin") with_member_wf H Hn (demo_tx_fine _) eq_refl eq_refl eq_refl) as (u & _ & Ha).
    exact Ha.
Defined.

(** There is no member ["nobody"]. *)
Lemma failed_mutations_change_nothing_witness :
  exists k, (demo_mutate "key5" "d"%char (ApplyDelete "nobody") with_member).2 =
            id_history plain_text String.compare (acted (take k [demo_turn 4000])) with_member.
Proof.
  assert (Hr : (demo_mutate "key5" "d"%char (ApplyDelete "nobody") with_member).1 = Err INotFound) by (vm_compute; reflexivity).
  destruct (failed_mutations_change_nothing plain_text String.compare (demo_tx 4000) (demo_turn 4000) [] 4000 "op4" "admin"
    (demo_mutation MutationDelete "key5" "d"%char) (ApplyDelete "nobody") with_member INotFound
    (demo_mutate "key5" "d"%char (ApplyDelete "nobody") with_member).2 with_member_wf) as [(c & r & [=])|H]; [by vm_compute| |exact H].
  rewrite <- Hr. apply surjective_pairing.
Defined.

Definition demo_deleted_key : result IdError unit * IdStore :=
  DeleteGatewayKey plain_text String.compare (demo_mutating 6000 "") demo_admin (KyID (ok_of no_key demo_make_key.1)) demo_make_key.2.


Lemma session_lifecycle_witness :
  let creds := ok_of no_credentials (demo_login (demo_turn 5000)).1 in
  let s := (demo_login (demo_turn 5000)).2 in
  exists row, id_sessions s !! PnSessionID (ScPrincipal creds) = Some row /\
    (AuthenticateSession demo_hmac plain_text String.compare demo_service (demo_conn 6000) (demo_turn 6000) (ScToken creds) s).1 =
    session_answer 6000 row s /\
    (AuthenticateSession demo_hmac plain_text String.compare demo_service (demo_conn 6000) (demo_turn 6000) (ScToken creds)
       (Logout (demo_conn 6000) (ScPrincipal creds) s).2).1 = Err IInvalidCredential.
Proof.
  intros creds s.
  destruct (session_lifecycle demo_hmac demo_IDKey plain_text demo_address plain_text String.compare demo_service (demo_random_of "e"%char)
    (demo_random_of "f"%char) 5000 (demo_conn 5000) (demo_turn 5000) (demo_turn 5000) "session2" "root@example.com"
    (EncodeToString UrlAlphabet (replicate 32 "a"%char)) bootstrapped creds s [] bootstrapped_wf) as (row & Hrow & _ & _ & Ha & _ & Hl).
  - apply ok_pair. vm_compute. reflexivity.
  - exists row. split; [exact Hrow|]. split; [apply Ha; reflexivity|].
    apply (Hl (demo_conn 6000) (ScPrincipal creds) _ [] _ _ eq_refl). reflexivity.
Defined.

Definition demo_key_call : SvCall :=
  SCreateGatewayKey (demo_random_of "n"%char) (demo_mutating 3000 "op2") "gk1" 3000 demo_admin "admin" "main"
    [demo_route "m2" ""; demo_route "m1" ""] (Some 9000) (mkMutationRequest "key2" "req2").
Definition with_key : IdStore := demo_exec demo_key_call with_member.

Lemma with_key_reached : demo_reached with_key.
Proof.
  apply reached_exec; [exact with_member_reached|]. split; [intros n b [= <-]; apply length_replicate|apply mutating_free].
Qed.

Lemma with_key_wf : id_wf plain_text with_key.
Proof. apply (reached_ledger _ _ _ _ _ _ _ _ _ demo_version _ with_key_reached). Qed.

(** The member tries to delete the administrator and their key. *)
Lemma members_confined_witness :
  DeleteMember demo_digest plain_text String.compare (demo_mutating 4000 "op3") demo_member "admin" (mkMutationRequest "key3" "req3") with_key =
  (Err IForbidden, with_key) /\
  (DeleteGatewayKey plain_text String.compare (demo_mutating 6000 "") demo_member "gk1" with_key).1 <> Ok tt.
Proof.
  destruct (members_confined demo_hmac demo_IDKey plain_text demo_address demo_digest demo_key_digest plain_text String.compare demo_service
    (λ _ _, true) demo_member with_key eq_refl with_key_wf) as (_ & _ & _ & Hd & _ & _ & _ & _ & Hk).
  split; [apply Hd|]. destruct (id_keys with_key !! "gk1") as [row|] eqn:Hrow.
  - apply (Hk "gk1" row Hrow). assert (Ho : GkUserID <$> id_keys with_key !! "gk1" = Some "admin") by (vm_compute; reflexivity).
    rewrite Hrow in Ho. injection Ho as ->. discriminate.
  - exfalso. assert (Ho : GkUserID <$> id_keys with_key !! "gk1" = Some "admin") by (vm_compute; reflexivity). rewrite Hrow in Ho. discriminate.
Defined.

(** ** Findings *)

Definition demo_replace (keyID newID : UUID) (s : IdStore) : result IdError GatewayKey :=
  (ReplaceGatewayKey demo_hmac demo_key_digest plain_text String.compare demo_service (demo_random_of "n"%char) (demo_mutating 4000 "op5") newID
     (demo_conn 4000) (demo_turn 4000) [] demo_admin keyID (mkMutationRequest "key6" "req6") s).1.

(** The routes are read in the order of the models' names, ["alpha"] before
    ["zeta"], and compared with the same routes in the order of the models'
    identifiers: the replacement of an untouched key is a conflict. *)
Example key_never_replaced : demo_replace "gk1" "gk2" with_key = Err IConflict.
Proof. vm_compute. reflexivity. Qed.

(** With one model the orders agree. *)
Example key_replaced :
  is_ok (demo_replace "gk1" "gk2" (demo_exec (SCreateGatewayKey (demo_random_of "n"%char) (demo_mutating 3000 "op2") "gk1" 3000 demo_admin "admin"
    "main" [demo_route "m1" ""] None (mkMutationRequest "key2" "req2")) with_member)) = true.
Proof. vm_compute. reflexivity. Qed.

(** The administrator's password is changed and all other sessions revoked
    between the check of the old password and the creation of the session: the
    session with the old password is let in. *)
Definition racing_turn : Turn Conn :=
  mkTurn [ARecover (demo_tx 5000) "root@example.com" "replacement" "req7"] (demo_conn 5000).

Example login_survives_revocation :
  let p := demo_login racing_turn in
  (default "" (UdPasswordHash <$> id_users p.2 !! "admin"),
   is_ok (AuthenticateSession demo_hmac plain_text String.compare demo_service (demo_conn 6000) (demo_turn 6000)
            (ScToken (ok_of no_credentials p.1)) p.2).1) = ("replacement", true).
Proof. vm_compute. reflexivity. Qed.
