(* ===== verification/SubscriptionTable.v ===== *)
(** * The tables behind plans and subscriptions

    Models the statements of [src/internal/store/db/subscriptions.sql.go] on
    the tables of [src/migrations/00001_baseline.sql] (lines 252 to 337) and
    the types of [src/internal/subscription/types.go].

    Statements are those of [IdentityTable], on a store of plans, versions,
    their routes and subscriptions.  Users, models, pools and providers, which
    are only read, are a [Market].  The order of texts and ILIKE are
    parameters; so is [stored_time], what a column keeps of a time (PostgreSQL
    counts microseconds).  A stored JSON document is what it decodes to. *)

From S2P Require Import Prelude GoStrings Canonical Envelope Sql RequestTable IdentityTable.

Local Open Scope Z_scope.

(** ** models.go *)

Inductive PlanStatus := PlanActive | PlanDisabled | PlanArchived.

#[export] Instance PlanStatus_eq_dec : EqDecision PlanStatus.
Proof. solve_decision. Defined.

Record PlanRecord := mkPlanRecord {
  PlID : UUID;
  PlSlug : string;
  PlName : string;
  PlDescription : string;
  PlStatus : PlanStatus;
  PlCurrentVersionID : option UUID;
  PlCreatedBy : UUID;
  PlCreatedAt : Z;
  PlUpdatedAt : Z;
}.

Record VersionRecord := mkVersionRecord { VrID : UUID; VrPlanID : UUID; VrVersion : Z; VrCreatedBy : UUID; VrCreatedAt : Z }.

Record SubscriptionRecord := mkSubscriptionRecord {
  SbID : UUID;
  SbUserID : UUID;
  SbVersionID : UUID;
  SbStatus : SubscriptionStatus;
  SbStartsAt : Z;
  SbExpiresAt : option Z;
  SbNotes : string;
  SbAssignedBy : UUID;
  SbSuspendedAt : option Z;
  SbCanceledAt : option Z;
  SbCreatedAt : Z;
  SbUpdatedAt : Z;
}.

(** [ServicePlanMutation] and [SubscriptionMutation] have the same columns;
    the result is that of a mutation that was completed. *)
Record MutationRecord (R : Type) := mkMutationRecord {
  MnID : UUID;
  MnActorUserID : UUID;
  MnAction : string;
  MnIdempotencyKey : UUID;
  MnRequestFingerprint : bytes;
  MnRequestID : string;
  MnTargetID : option UUID;
  MnResult : option R;
  MnCreatedAt : Z;
}.
Arguments mkMutationRecord {R}.
Arguments MnID {R} m.
Arguments MnActorUserID {R} m.
Arguments MnAction {R} m.
Arguments MnIdempotencyKey {R} m.
Arguments MnRequestFingerprint {R} m.
Arguments MnRequestID {R} m.
Arguments MnTargetID {R} m.
Arguments MnResult {R} m.
Arguments MnCreatedAt {R} m.

(** ** types.go *)

Record PlanRoute := mkPlanRoute {
  PtModelID : UUID;
  PtModelName : string;
  PtResourcePoolID : UUID;
  PtResourcePoolName : string;
  PtResourcePoolSlug : string;
  PtProviderName : string;
}.

Record PlanVersion := mkPlanVersion { VnID : UUID; VnVersion : Z; VnRoutes : list PlanRoute; VnCreatedAt : Z }.

Record ServicePlan := mkServicePlan {
  SpID : UUID;
  SpSlug : string;
  SpName : string;
  SpDescription : string;
  SpStatus : PlanStatus;
  SpCurrentVersion : option PlanVersion;
  SpActiveSubscriptionCount : Z;
  SpCreatedAt : Z;
  SpUpdatedAt : Z;
}.

Record Subscription := mkSubscription {
  SnID : UUID;
  SnUserID : UUID;
  SnMemberEmail : string;
  SnMemberName : string;
  SnServicePlanID : UUID;
  SnServicePlanVersionID : UUID;
  SnServicePlanName : string;
  SnPlanVersion : Z;
  SnStatus : SubscriptionStatus;
  SnStartsAt : Z;
  SnExpiresAt : option Z;
  SnNotes : string;
  SnRoutes : list PlanRoute;
  SnSuspendedAt : option Z;
  SnCanceledAt : option Z;
  SnCreatedAt : Z;
  SnUpdatedAt : Z;
}.

Record PlanDraft := mkPlanDraft { DfID : UUID; DfSlug : string; DfName : string; DfDescription : string; DfRoutes : list PlanRoute }.
Record NewSubscription := mkNewSubscription {
  NsUserID : UUID; NsServicePlanID : UUID; NsStartsAt : Z; NsExpiresAt : option Z; NsNotes : string }.
Record SubscriptionChange := mkSubscriptionChange {
  ScID : UUID; ScStartsAt : Z; ScExpiresAt_ : option Z; ScNotes : string; ScExpectedUpdatedAt : Z }.
Record Mutation := mkMutation { MtAction : string; MtIdempotencyKey : UUID; MtRequestFingerprint : bytes; MtRequestID : string }.

(** The details of an audit event. *)
Inductive SubDetail :=
| PlanDetail (status : PlanStatus) (current : option PlanVersion)
| SubscriptionDetail (userID versionID : UUID) (status : SubscriptionStatus) (expiresAt : option Z).

Record SubAudit := mkSubAudit {
  SaActorUserID : UUID; SaAction : string; SaTargetType : string; SaTargetID : string; SaRequestID : string; SaDetail : SubDetail }.

(** ** The store *)

(** What is only read.  [mk_pool_models] are the rows (pool, model) of
    [resource_pool_models]. *)
Record Market := mkMarket {
  mk_users : gmap UUID UserRecord;
  mk_models : gmap UUID ModelRow;
  mk_pools : gmap UUID PoolRow;
  mk_providers : gmap UUID ProviderRow;
  mk_pool_models : gset (UUID * UUID);
}.

(** [sb_routes] is [service_plan_version_routes], from the version and the
    model to the pool. *)
Record SubStore := mkSubStore {
  sb_plans : gmap UUID PlanRecord;
  sb_versions : gmap UUID VersionRecord;
  sb_routes : gmap (UUID * UUID) UUID;
  sb_subscriptions : gmap UUID SubscriptionRecord;
  sb_plan_mutations : gmap UUID (MutationRecord ServicePlan);
  sb_subscription_mutations : gmap UUID (MutationRecord Subscription);
  sb_audit : list SubAudit;
  sb_market : Market;
}.

Definition set_plans (t : gmap UUID PlanRecord) (s : SubStore) : SubStore :=
  mkSubStore t (sb_versions s) (sb_routes s) (sb_subscriptions s) (sb_plan_mutations s) (sb_subscription_mutations s) (sb_audit s) (sb_market s).
Definition set_versions (t : gmap UUID VersionRecord) (s : SubStore) : SubStore :=
  mkSubStore (sb_plans s) t (sb_routes s) (sb_subscriptions s) (sb_plan_mutations s) (sb_subscription_mutations s) (sb_audit s) (sb_market s).
Definition set_routes (t : gmap (UUID * UUID) UUID) (s : SubStore) : SubStore :=
  mkSubStore (sb_plans s) (sb_versions s) t (sb_subscriptions s) (sb_plan_mutations s) (sb_subscription_mutations s) (sb_audit s) (sb_market s).
Definition set_subscriptions (t : gmap UUID SubscriptionRecord) (s : SubStore) : SubStore :=
  mkSubStore (sb_plans s) (sb_versions s) (sb_routes s) t (sb_plan_mutations s) (sb_subscription_mutations s) (sb_audit s) (sb_market s).
Definition set_plan_mutations (t : gmap UUID (MutationRecord ServicePlan)) (s : SubStore) : SubStore :=
  mkSubStore (sb_plans s) (sb_versions s) (sb_routes s) (sb_subscriptions s) t (sb_subscription_mutations s) (sb_audit s) (sb_market s).
Definition set_subscription_mutations (t : gmap UUID (MutationRecord Subscription)) (s : SubStore) : SubStore :=
  mkSubStore (sb_plans s) (sb_versions s) (sb_routes s) (sb_subscriptions s) (sb_plan_mutations s) t (sb_audit s) (sb_market s).
Definition set_sub_audit (l : list SubAudit) (s : SubStore) : SubStore :=
  mkSubStore (sb_plans s) (sb_versions s) (sb_routes s) (sb_subscriptions s) (sb_plan_mutations s) (sb_subscription_mutations s) l (sb_market s).
Definition set_market (m : Market) (s : SubStore) : SubStore :=
  mkSubStore (sb_plans s) (sb_versions s) (sb_routes s) (sb_subscriptions s) (sb_plan_mutations s) (sb_subscription_mutations s) (sb_audit s) m.

(** ** Statements in general *)

Abbreviation SubQuery := (Statement SubStore).

Definition on_plans (f : Conn -> SubStore -> gmap UUID PlanRecord -> result PgError PlanRecord * gmap UUID PlanRecord) : SubQuery PlanRecord :=
  λ c s, let '(r, t) := f c s (sb_plans s) in (r, set_plans t s).
Definition on_subscriptions
    (f : Conn -> SubStore -> gmap UUID SubscriptionRecord -> result PgError SubscriptionRecord * gmap UUID SubscriptionRecord) :
    SubQuery SubscriptionRecord :=
  λ c s, let '(r, t) := f c s (sb_subscriptions s) in (r, set_subscriptions t s).

(** [GetUserForGatewayKeyCreation] of [identity.sql.go]. *)
Definition GetActiveUser (id : UUID) : SubQuery UserRecord :=
  reads (λ _ s, match mk_users (sb_market s) !! id with
                | Some u => if bool_decide (UdStatus u = UserActive) then Ok u else Err NoRows
                | None => Err NoRows
                end).

(** ** Plans *)

Definition slug_char (c : ascii) : bool :=
  (((97 <=? code c) && (code c <=? 122)) || ((48 <=? code c) && (code c <=? 57)))%bool.

Fixpoint slug_rest (s : string) : bool :=
  match s with
  | EmptyString => false
  | String c EmptyString => slug_char c
  | String c s' => ((slug_char c || bool_decide (c = "-"%char)) && slug_rest s')%bool
  end.

(** [slug ~ '^[a-z0-9][a-z0-9-]{1,62}[a-z0-9]$'] *)
Definition slug_ok (s : string) : bool :=
  match s with
  | EmptyString => false
  | String c s' => (slug_char c && slug_rest s' && (3 <=? String.length s)%nat && (String.length s <=? 64)%nat)%bool
  end.

Definition plan_check (p : PlanRecord) : bool :=
  (slug_ok (PlSlug p) && (1 <=? char_length (PlName p)) && (char_length (PlName p) <=? 100) && (char_length (PlDescription p) <=? 500))%bool.

(** [(current_version_id, id)] refers to a version of the plan. *)
Definition current_refers (s : SubStore) (p : PlanRecord) : bool :=
  match PlCurrentVersionID p with
  | None => true
  | Some v => match sb_versions s !! v with Some r => bool_decide (VrPlanID r = PlID p) | None => false end
  end.

Definition plan_constraints (s : SubStore) : Constraints PlanRecord :=
  mkConstraints plan_check
    (λ t id p, other_row t id (λ p', bool_decide (PlSlug p' = PlSlug p)))
    (λ _ p, exists_in (mk_users (sb_market s)) (PlCreatedBy p) && current_refers s p)%bool.

Definition CreateServicePlan (id : UUID) (slug name description : string) (createdBy : UUID) : SubQuery PlanRecord :=
  on_plans (λ c s, insert_one (plan_constraints s) c id
    (mkPlanRecord id slug name description PlanActive None createdBy (cn_now c) (cn_now c))).

Definition PublishServicePlanVersion (name description : string) (versionID : UUID) (id : UUID) : SubQuery PlanRecord :=
  on_plans (λ c s, update_one (plan_constraints s) c id (λ _, true)
    (λ p, mkPlanRecord (PlID p) (PlSlug p) name description PlanActive (Some versionID) (PlCreatedBy p) (PlCreatedAt p) (cn_now c))).

Definition SetServicePlanStatus (status : PlanStatus) (id : UUID) : SubQuery PlanRecord :=
  on_plans (λ c s, update_one (plan_constraints s) c id (λ p, negb (bool_decide (PlStatus p = PlanArchived)))
    (λ p, mkPlanRecord (PlID p) (PlSlug p) (PlName p) (PlDescription p) status (PlCurrentVersionID p) (PlCreatedBy p) (PlCreatedAt p) (cn_now c))).

Definition GetServicePlanForUpdate (id : UUID) : SubQuery PlanRecord := reads (λ _ s, found (sb_plans s !! id)).

(** ** Versions and their routes *)

Definition versions_of (s : SubStore) (planID : UUID) : list VersionRecord :=
  filter (λ v, VrPlanID v = planID) (rows (sb_versions s)).

Definition max_version (l : list VersionRecord) : Z := foldr (λ v m, Z.max (VrVersion v) m) 0 l.

(** The sum is an [integer], of 32 bits. *)
Definition NextServicePlanVersion (planID : UUID) : SubQuery Z :=
  reads (λ _ s, let next := max_version (versions_of s planID) + 1 in
                if next <=? 2 ^ 31 - 1 then Ok next else Err (PgCode numeric_out_of_range)).

Definition version_constraints (s : SubStore) : Constraints VersionRecord :=
  mkConstraints (λ v, 0 <? VrVersion v)
    (λ t id v, other_row t id (λ v', bool_decide (VrPlanID v' = VrPlanID v) && (VrVersion v' =? VrVersion v))%bool)
    (λ _ v, exists_in (sb_plans s) (VrPlanID v) && exists_in (mk_users (sb_market s)) (VrCreatedBy v))%bool.

Definition CreateServicePlanVersion (id planID : UUID) (version : Z) (createdBy : UUID) : SubQuery VersionRecord :=
  λ c s, let '(r, t) := insert_one (version_constraints s) c id (mkVersionRecord id planID version createdBy (cn_now c)) (sb_versions s) in
         (r, set_versions t s).

(** The foreign keys of [service_plan_version_routes]. *)
Definition plan_route_refers (s : SubStore) (versionID modelID poolID : UUID) : bool :=
  (exists_in (sb_versions s) versionID && exists_in (mk_models (sb_market s)) modelID &&
   bool_decide ((poolID, modelID) ∈ mk_pool_models (sb_market s)))%bool.

Definition CreateServicePlanVersionRoute (versionID modelID poolID : UUID) : SubQuery unit :=
  λ c s, match cn_fault c with
         | Some e => (Err e, s)
         | None =>
             match sb_routes s !! (versionID, modelID) with
             | Some _ => (Err (PgCode unique_violation), s)
             | None =>
                 if plan_route_refers s versionID modelID poolID then (Ok tt, set_routes (<[(versionID, modelID) := poolID]> (sb_routes s)) s)
                 else (Err (PgCode foreign_key_violation), s)
             end
         end.

Definition GetCurrentServicePlanVersion (planID : UUID) : SubQuery VersionRecord :=
  reads (λ _ s,
    match sb_plans s !! planID with
    | Some p =>
        if bool_decide (PlStatus p = PlanActive) then
          match PlCurrentVersionID p with Some v => found (sb_versions s !! v) | None => Err NoRows end
        else Err NoRows
    | None => Err NoRows
    end).

(** The LEFT JOIN of a plan with its current version. *)
Definition current_version (s : SubStore) (p : PlanRecord) : option VersionRecord :=
  match PlCurrentVersionID p with Some v => sb_versions s !! v | None => None end.

(** The columns that are used; the number of routes is not. *)
Definition GetServicePlan (id : UUID) : SubQuery (PlanRecord * option VersionRecord) :=
  reads (λ _ s, match sb_plans s !! id with Some p => Ok (p, current_version s p) | None => Err NoRows end).

Section plan_lists.
Context (collate : string -> string -> comparison).

Definition then_by (a b : string) (rest : Prop) : Prop := collate a b = Lt \/ collate a b = Eq /\ rest.

(** [ORDER BY model.public_name, pool.name, route.model_id] *)
Definition plan_route_order (a b : PlanRoute) : Prop :=
  then_by (PtModelName a) (PtModelName b) (then_by (PtResourcePoolName a) (PtResourcePoolName b) (String.le (PtModelID a) (PtModelID b))).

#[local] Instance plan_route_order_dec : RelDecision plan_route_order.
Proof. intros a b. unfold plan_route_order, then_by. apply _. Defined.

(** A route with its names, where the rows it is joined with are there. *)
Definition named_route (m : Market) (modelID poolID : UUID) : option PlanRoute :=
  match mk_models m !! modelID, mk_pools m !! poolID with
  | Some model, Some pool =>
      match mk_providers m !! PrProviderID pool with
      | Some provider => Some (mkPlanRoute modelID (MrPublicName model) poolID (PrName pool) (PrSlug pool) (PvName provider))
      | None => None
      end
  | _, _ => None
  end.

Definition version_routes (s : SubStore) (versionID : UUID) : list PlanRoute :=
  omap (λ e : (UUID * UUID) * UUID, let '((v, m), p) := e in if bool_decide (v = versionID) then named_route (sb_market s) m p else None)
    (map_to_list (sb_routes s)).

Definition ListServicePlanVersionRoutes (versionID : UUID) : SubQuery (list PlanRoute) :=
  reads (λ _ s, Ok (merge_sort plan_route_order (version_routes s versionID))).

Definition plan_rank (v : PlanStatus) : Z := match v with PlanActive => 0 | PlanDisabled => 1 | PlanArchived => 2 end.

(** [ORDER BY CASE plan.status ..., plan.name, plan.id] *)
Definition plan_order (a b : PlanRecord) : Prop :=
  plan_rank (PlStatus a) < plan_rank (PlStatus b) \/
  plan_rank (PlStatus a) = plan_rank (PlStatus b) /\ then_by (PlName a) (PlName b) (String.le (PlID a) (PlID b)).

#[local] Instance plan_order_dec : RelDecision plan_order.
Proof. intros a b. unfold plan_order, then_by. apply _. Defined.

(** The subscriptions counted as active for the version of a plan. *)
Definition active_subscriptions (s : SubStore) (now : Z) (version : option VersionRecord) : Z :=
  match version with
  | Some v =>
      Z.of_nat (length (filter (λ x, (bool_decide (SbVersionID x = VrID v) &&
                                      bool_decide (SbStatus x ∈ [SubscriptionScheduled; SubscriptionActive]) &&
                                      not_past now (SbExpiresAt x))%bool = true) (rows (sb_subscriptions s))))
  | None => 0
  end.

Definition ListServicePlans (includeArchived : bool) : SubQuery (list (PlanRecord * option VersionRecord * Z)) :=
  reads (λ now s, Ok ((λ p, (p, current_version s p, active_subscriptions s now (current_version s p))) <$>
    merge_sort plan_order (filter (λ p, (includeArchived || negb (bool_decide (PlStatus p = PlanArchived)))%bool = true) (rows (sb_plans s))))).
End plan_lists.

#[export] Existing Instance plan_route_order_dec.

(** ** Subscriptions *)

Definition subscription_check (x : SubscriptionRecord) : bool :=
  ((char_length (SbNotes x) <=? 500) &&
   match SbExpiresAt x with Some e => SbStartsAt x <? e | None => true end &&
   Bool.eqb (bool_decide (SbStatus x = SubscriptionSuspended)) (negb (is_null (SbSuspendedAt x))) &&
   Bool.eqb (bool_decide (SbStatus x = SubscriptionCanceled)) (negb (is_null (SbCanceledAt x))))%bool.

Definition subscription_constraints (s : SubStore) : Constraints SubscriptionRecord :=
  mkConstraints subscription_check (λ _ _ _, false)
    (λ _ x, exists_in (mk_users (sb_market s)) (SbUserID x) && exists_in (sb_versions s) (SbVersionID x) &&
            exists_in (mk_users (sb_market s)) (SbAssignedBy x))%bool.

(** [GREATEST(clock_timestamp(), updated_at + interval '1 microsecond')] *)
Definition next_change (clock : Z) (x : SubscriptionRecord) : Z := Z.max clock (SbUpdatedAt x + 1000).

Section subscriptions.
Context (stored_time : Z -> Z).

Definition CreateSubscription (id userID versionID : UUID) (status : SubscriptionStatus) (startsAt : Z) (expiresAt : option Z)
    (notes : string) (assignedBy : UUID) : SubQuery SubscriptionRecord :=
  on_subscriptions (λ c s, insert_one (subscription_constraints s) c id
    (mkSubscriptionRecord id userID versionID status (stored_time startsAt) (stored_time <$> expiresAt) notes assignedBy None None
       (cn_now c) (cn_now c))).

(** [status <> 'canceled' AND updated_at = $n] *)
Definition may_change (expectedUpdatedAt : Z) (x : SubscriptionRecord) : bool :=
  (negb (bool_decide (SbStatus x = SubscriptionCanceled)) && (SbUpdatedAt x =? stored_time expectedUpdatedAt))%bool.

Definition put_term (clock startsAt : Z) (expiresAt : option Z) (notes : string) (status : SubscriptionStatus) (x : SubscriptionRecord) :
    SubscriptionRecord :=
  mkSubscriptionRecord (SbID x) (SbUserID x) (SbVersionID x) status (stored_time startsAt) (stored_time <$> expiresAt) notes (SbAssignedBy x)
    None None (SbCreatedAt x) (next_change clock x).

Definition UpdateSubscriptionTerm (clock startsAt : Z) (expiresAt : option Z) (notes : string) (status : SubscriptionStatus) (id : UUID)
    (expectedUpdatedAt : Z) : SubQuery SubscriptionRecord :=
  on_subscriptions (λ c s, update_one (subscription_constraints s) c id (may_change expectedUpdatedAt)
    (put_term clock startsAt expiresAt notes status)).

Definition put_status (clock now : Z) (status : SubscriptionStatus) (x : SubscriptionRecord) : SubscriptionRecord :=
  mkSubscriptionRecord (SbID x) (SbUserID x) (SbVersionID x) status (SbStartsAt x) (SbExpiresAt x) (SbNotes x) (SbAssignedBy x)
    (if bool_decide (status = SubscriptionSuspended) then Some now else None)
    (if bool_decide (status = SubscriptionCanceled) then Some now else None) (SbCreatedAt x) (next_change clock x).

Definition UpdateSubscriptionStatus (clock : Z) (status : SubscriptionStatus) (id : UUID) (expectedUpdatedAt : Z) : SubQuery SubscriptionRecord :=
  on_subscriptions (λ c s, update_one (subscription_constraints s) c id (may_change expectedUpdatedAt) (put_status clock (cn_now c) status)).
End subscriptions.

(** A subscription joined with its version, its plan and its member. *)
Definition subscription_row (s : SubStore) (x : SubscriptionRecord) : option (SubscriptionRecord * VersionRecord * PlanRecord * UserRecord) :=
  match sb_versions s !! SbVersionID x, mk_users (sb_market s) !! SbUserID x with
  | Some v, Some u => match sb_plans s !! VrPlanID v with Some p => Some (x, v, p, u) | None => None end
  | _, _ => None
  end.

Definition GetSubscription (id : UUID) : SubQuery (SubscriptionRecord * VersionRecord * PlanRecord * UserRecord) :=
  reads (λ _ s, match sb_subscriptions s !! id with Some x => found (subscription_row s x) | None => Err NoRows end).

Definition subscription_text (v : SubscriptionStatus) : string :=
  match v with
  | SubscriptionScheduled => "scheduled" | SubscriptionActive => "active" | SubscriptionSuspended => "suspended"
  | SubscriptionCanceled => "canceled" | SubscriptionExpired => "expired"
  end.

(** The [CASE] by which subscriptions are selected. *)
Definition effective_status (now : Z) (x : SubscriptionRecord) : SubscriptionStatus :=
  if bool_decide (SbStatus x ∈ [SubscriptionSuspended; SubscriptionCanceled]) then SbStatus x
  else if match SbExpiresAt x with Some e => e <=? now | None => false end then SubscriptionExpired
  else if now <? SbStartsAt x then SubscriptionScheduled
  else SubscriptionActive.

Section subscription_lists.
Context (ilike : string -> string -> bool).

Definition listed_subscription (now : Z) (userID : option UUID) (search status : string)
    (r : SubscriptionRecord * VersionRecord * PlanRecord * UserRecord) : bool :=
  let '(x, _, p, u) := r in
  (match userID with Some id => bool_decide (SbUserID x = id) | None => true end &&
   (bool_decide (search = "") || ilike (UdEmail u +:+ " " +:+ UdDisplayName u +:+ " " +:+ PlName p) ("%" +:+ search +:+ "%")) &&
   (bool_decide (status = "") || bool_decide (subscription_text (effective_status now x) = status)))%bool.

Definition selected_subscriptions (s : SubStore) (now : Z) (userID : option UUID) (search status : string) :
    list (SubscriptionRecord * VersionRecord * PlanRecord * UserRecord) :=
  filter (λ r, listed_subscription now userID search status r = true) (omap (subscription_row s) (rows (sb_subscriptions s))).

(** [ORDER BY subscription.created_at DESC, subscription.id] *)
Definition newest_subscription (a b : SubscriptionRecord * VersionRecord * PlanRecord * UserRecord) : Prop :=
  let '(x, _, _, _) := a in
  let '(y, _, _, _) := b in
  SbCreatedAt y < SbCreatedAt x \/ SbCreatedAt y = SbCreatedAt x /\ String.le (SbID x) (SbID y).

#[local] Instance newest_subscription_dec : RelDecision newest_subscription.
Proof. intros [[[x ?] ?] ?] [[[y ?] ?] ?]. unfold newest_subscription. apply _. Defined.

Definition ListSubscriptions (userID : option UUID) (search status : string) (offset size : Z) :
    SubQuery (list (SubscriptionRecord * VersionRecord * PlanRecord * UserRecord)) :=
  reads (λ now s, Ok (take (Z.to_nat size) (drop (Z.to_nat offset)
    (merge_sort newest_subscription (selected_subscriptions s now userID search status))))).

Definition CountSubscriptions (userID : option UUID) (search status : string) : SubQuery Z :=
  reads (λ now s, Ok (Z.of_nat (length (selected_subscriptions s now userID search status)))).
End subscription_lists.

(** ** Mutations and audit *)

(** A table of mutations: its rows, the table its results are in, and what
    the code makes of a result. *)
Record Book (R : Type) := mkBook {
  bk_rows : SubStore -> gmap UUID (MutationRecord R);
  bk_set : gmap UUID (MutationRecord R) -> SubStore -> SubStore;
  bk_target : SubStore -> UUID -> bool;
  bk_id : R -> UUID;
  bk_type : string;
  bk_detail : R -> SubDetail;
  bk_invalid : string;
}.
Arguments mkBook {R}.
Arguments bk_rows {R} b.
Arguments bk_set {R} b.
Arguments bk_target {R} b.
Arguments bk_id {R} b.
Arguments bk_type {R} b.
Arguments bk_detail {R} b.
Arguments bk_invalid {R} b.

Definition plan_book : Book ServicePlan :=
  mkBook sb_plan_mutations set_plan_mutations (λ s id, exists_in (sb_plans s) id) SpID "service_plan"
    (λ p, PlanDetail (SpStatus p) (SpCurrentVersion p)) "subscription store: invalid service plan mutation result".

Definition subscription_book : Book Subscription :=
  mkBook sb_subscription_mutations set_subscription_mutations (λ s id, exists_in (sb_subscriptions s) id) SnID "subscription"
    (λ x, SubscriptionDetail (SnUserID x) (SnServicePlanVersionID x) (SnStatus x) (SnExpiresAt x))
    "subscription store: invalid subscription mutation result".

Section book.
Context {R : Type} (b : Book R).

Definition mutation_constraints (s : SubStore) : Constraints (MutationRecord R) :=
  mkConstraints (λ m, (length (MnRequestFingerprint m) =? 32)%nat) (λ _ _ _, false)
    (λ _ m, exists_in (mk_users (sb_market s)) (MnActorUserID m) && match MnTargetID m with Some id => bk_target b s id | None => true end)%bool.

Definition same_mutation (actorID : UUID) (action : string) (key : UUID) (m : MutationRecord R) : bool :=
  (bool_decide (MnActorUserID m = actorID) && bool_decide (MnAction m = action) && bool_decide (MnIdempotencyKey m = key))%bool.

(** [ON CONFLICT DO NOTHING]: no row is returned when the key was used; the
    row is checked before the conflict is looked for. *)
Definition claim_mutation (id actorID : UUID) (action : string) (key : UUID) (fingerprint : bytes) (requestID : string) :
    SubQuery (MutationRecord R) :=
  λ c s,
    if (negb (is_null (cn_fault c)) || negb (length fingerprint =? 32)%nat ||
        is_null (find_row (same_mutation actorID action key) (bk_rows b s)))%bool then
      let '(r, t) := insert_one (mutation_constraints s) c id
        (mkMutationRecord id actorID action key fingerprint requestID None None (cn_now c)) (bk_rows b s) in
      (r, bk_set b t s)
    else (Err NoRows, s).

Definition complete_mutation (targetID : UUID) (result : R) (id : UUID) : SubQuery (MutationRecord R) :=
  λ c s,
    let '(r, t) := update_one (mutation_constraints s) c id (λ _, true)
      (λ m, mkMutationRecord (MnID m) (MnActorUserID m) (MnAction m) (MnIdempotencyKey m) (MnRequestFingerprint m) (MnRequestID m)
              (Some targetID) (Some result) (MnCreatedAt m)) (bk_rows b s) in
    (r, bk_set b t s).

Definition get_mutation (actorID : UUID) (action : string) (key : UUID) : SubQuery (MutationRecord R) :=
  reads (λ _ s, found (find_row (same_mutation actorID action key) (bk_rows b s))).
End book.

Definition ClaimServicePlanMutation := claim_mutation plan_book.
Definition CompleteServicePlanMutation := complete_mutation plan_book.
Definition GetServicePlanMutation := get_mutation plan_book.
Definition ClaimSubscriptionMutation := claim_mutation subscription_book.
Definition CompleteSubscriptionMutation := complete_mutation subscription_book.
Definition GetSubscriptionMutation := get_mutation subscription_book.

(** [CreateAuditEvent] of [audit.sql.go]. *)
Definition create_audit (e : SubAudit) : SubQuery SubAudit :=
  λ c s,
    match cn_fault c with
    | Some err => (Err err, s)
    | None =>
        if exists_in (mk_users (sb_market s)) (SaActorUserID e) then (Ok e, set_sub_audit (sb_audit s ++ [e]) s)
        else (Err (PgCode foreign_key_violation), s)
    end.
