(* ===== verification/Subscription.v ===== *)
(** * Plans and subscriptions

    Models [src/internal/store/plan_repository.go],
    [subscription_repository.go] and [src/internal/subscription/service.go]
    over the statements of [SubscriptionTable].

    Transactions and the reads after a failed commit are those of
    [IdentityStore].  The two mutations of the repository differ in the table
    they are recorded in, a [Book].  A transaction is one instant: it locks the
    rows it changes, and the current version of a plan, which an assignment
    reads without a lock, is the one of that instant.  Functions that run several statements
    outside a transaction are given what others do before each of them.

    [payload_digest] is the SHA-256 of the JSON of a mutation's payload, absent
    when [json.Marshal] refuses it (a time after the year 9999). *)

From S2P Require Import Prelude GoStrings Canonical ProviderRequest Envelope Sql RequestTable RequestStore Password IdentityTable IdentityStore Identity SubscriptionTable.

Local Open Scope Z_scope.

(** ** Errors *)

(** [SOutcomeUnknown] carries the failure of the commit and that of the
    reconciliation; [SStoreError] is ["subscription store: %w"]. *)
Inductive SubError :=
| SInvalidInput | SNotFound | SConflict | SForbidden | SIdempotencyConflict
| SOutcomeUnknown (commit : PgError) (reconciliation : option PgError)
| SDatabase (e : PgError)
| SStoreError (e : PgError)
| SText (s : string).

Definition translateSubscriptionError (e : PgError) : SubError :=
  match e with
  | NoRows => SNotFound
  | PgCode sqlstate =>
      if bool_decide (sqlstate = "23503") then SNotFound
      else if bool_decide (sqlstate ∈ ["23505"; "40001"; "55000"]) then SConflict
      else SStoreError e
  | _ => SStoreError e
  end.

Abbreviation SubM := (Program SubStore SubError).

Definition squery {A} (q : SubQuery A) : SubM A := query_with translateSubscriptionError q.

(** A failure is passed on as it is. *)
Definition squery_raw {A} (q : SubQuery A) : SubM A := query_with SDatabase q.

(** ** Mutations *)

Definition mutation_result {R} (b : Book R) (operation : MutationRecord R) (mutation : Mutation) : result SubError R :=
  if negb (bool_decide (MnRequestFingerprint operation = MtRequestFingerprint mutation)) then Err SIdempotencyConflict
  else
    match MnResult operation, MnTargetID operation with
    | Some result, Some target => if bool_decide (target = bk_id b result) then Ok result else Err (SText (bk_invalid b))
    | _, _ => Err (SText (bk_invalid b))
    end.

Definition planMutationResult := mutation_result plan_book.
Definition subscriptionMutationResult := mutation_result subscription_book.

Definition mutation_lookup {R} (b : Book R) (actorID : UUID) (mutation : Mutation) : SubQuery (MutationRecord R) :=
  get_mutation b actorID (MtAction mutation) (MtIdempotencyKey mutation).

Definition execute_body {R} (b : Book R) (opID actorID : UUID) (mutation : Mutation) (apply_ : SubM R) : SubM (Ending R) :=
  let! claimed := ask (claim_mutation b opID actorID (MtAction mutation) (MtIdempotencyKey mutation) (MtRequestFingerprint mutation)
                         (MtRequestID mutation)) in
  match claimed with
  | Err NoRows =>
      let! existing := squery (mutation_lookup b actorID mutation) in
      match mutation_result b existing mutation with Ok a => tx_ret (Leave a) | Err e => tx_fail e end
  | Err e => tx_fail (translateSubscriptionError e)
  | Ok operation =>
      let! result := apply_ in
      let! _ := squery_raw (create_audit (mkSubAudit actorID (MtAction mutation) (bk_type b) (bk_id b result) (MtRequestID mutation)
                              (bk_detail b result))) in
      let! _ := squery_raw (complete_mutation b (bk_id b result) result (MnID operation)) in
      tx_ret (Finish result)
  end.

(** What one mutation does; the identifiers are those [gen_random_uuid()]
    gives, [wall] is [time.Now] and [clock] PostgreSQL's [clock_timestamp]. *)
Inductive PlanApply :=
| ApplyPublish (newPlanID newVersionID : UUID) (draft : PlanDraft)
| ApplyPlanStatus (id : UUID) (status : PlanStatus).

Inductive SubscriptionApply :=
| ApplyAssign (newID : UUID) (wall : Z) (input : NewSubscription)
| ApplyTerm (clock : Z) (change : SubscriptionChange) (status : SubscriptionStatus)
| ApplySubscriptionStatus (clock : Z) (id : UUID) (status : SubscriptionStatus) (expectedUpdatedAt : Z).

(** ** Values *)

Definition subscriptionFromParts (now : Z) (r : SubscriptionRecord * VersionRecord * PlanRecord * UserRecord) (routes : list PlanRoute) : Subscription :=
  let '(x, v, p, u) := r in
  let status :=
    if (negb (bool_decide (SbStatus x = SubscriptionSuspended)) && negb (bool_decide (SbStatus x = SubscriptionCanceled)))%bool then
      if match SbExpiresAt x with Some e => negb (now <? e) | None => false end then SubscriptionExpired
      else if now <? SbStartsAt x then SubscriptionScheduled
      else SubscriptionActive
    else SbStatus x in
  mkSubscription (SbID x) (SbUserID x) (UdEmail u) (UdDisplayName u) (PlID p) (SbVersionID x) (PlName p) (VrVersion v) status
    (SbStartsAt x) (SbExpiresAt x) (SbNotes x) routes (SbSuspendedAt x) (SbCanceledAt x) (SbCreatedAt x) (SbUpdatedAt x).

Definition plan_of (p : PlanRecord) (version : option PlanVersion) : ServicePlan :=
  mkServicePlan (PlID p) (PlSlug p) (PlName p) (PlDescription p) (PlStatus p) version 0 (PlCreatedAt p) (PlUpdatedAt p).

Definition version_of (v : VersionRecord) (routes : list PlanRoute) : PlanVersion := mkPlanVersion (VrID v) (VrVersion v) routes (VrCreatedAt v).

Definition plan_count (n : Z) (p : ServicePlan) : ServicePlan :=
  mkServicePlan (SpID p) (SpSlug p) (SpName p) (SpDescription p) (SpStatus p) (SpCurrentVersion p) n (SpCreatedAt p) (SpUpdatedAt p).

Section repository.
Context (collate : string -> string -> comparison) (stored_time : Z -> Z).

(** ** The bodies of transactions *)

Definition servicePlanFromParts (row : PlanRecord * option VersionRecord) : SubM ServicePlan :=
  match row.2 with
  | None => tx_ret (plan_of row.1 None)
  | Some v =>
      let! routes := squery (ListServicePlanVersionRoutes collate (VrID v)) in
      tx_ret (plan_of row.1 (Some (version_of v routes)))
  end.

Definition servicePlanByID (id : UUID) : SubM ServicePlan :=
  let! row := squery (GetServicePlan id) in
  servicePlanFromParts row.

Definition subscriptionRoutes (versionID : UUID) : SubM (list PlanRoute) := squery (ListServicePlanVersionRoutes collate versionID).

Definition subscriptionByID (now : Z) (id : UUID) : SubM Subscription :=
  let! row := squery (GetSubscription id) in
  let! routes := subscriptionRoutes (SbVersionID row.1.1.1) in
  tx_ret (subscriptionFromParts now row routes).

Fixpoint create_routes (versionID : UUID) (routes : list PlanRoute) : SubM unit :=
  match routes with
  | [] => tx_ret tt
  | r :: routes' =>
      let! _ := squery (CreateServicePlanVersionRoute versionID (PtModelID r) (PtResourcePoolID r)) in
      create_routes versionID routes'
  end.

(** A draft without an identifier is a new plan. *)
Definition draft_plan (newPlanID : UUID) (draft : PlanDraft) (actorID : UUID) : SubM UUID :=
  if bool_decide (DfID draft = uuid_Nil) then
    let! created := squery (CreateServicePlan newPlanID (DfSlug draft) (DfName draft) (DfDescription draft) actorID) in
    tx_ret (PlID created)
  else
    let! current := squery (GetServicePlanForUpdate (DfID draft)) in
    if bool_decide (PlStatus current = PlanArchived) then tx_fail SConflict else tx_ret (DfID draft).

Definition apply_plan (actorID : UUID) (a : PlanApply) : SubM ServicePlan :=
  match a with
  | ApplyPublish newPlanID newVersionID draft =>
      let! planID := draft_plan newPlanID draft actorID in
      let! versionNumber := squery (NextServicePlanVersion planID) in
      let! version := squery (CreateServicePlanVersion newVersionID planID versionNumber actorID) in
      let! _ := create_routes (VrID version) (DfRoutes draft) in
      let! _ := squery (PublishServicePlanVersion (DfName draft) (DfDescription draft) (VrID version) planID) in
      servicePlanByID planID
  | ApplyPlanStatus id status =>
      let! _ := squery (SetServicePlanStatus status id) in
      servicePlanByID id
  end.

(** [shown] is the time at which the answer is made. *)
Definition apply_subscription (shown : Z) (actorID : UUID) (a : SubscriptionApply) : SubM Subscription :=
  match a with
  | ApplyAssign newID wall input =>
      let! user := squery (GetActiveUser (NsUserID input)) in
      if negb (bool_decide (UdStatus user = UserActive)) then tx_fail SConflict
      else
        let! version := squery (GetCurrentServicePlanVersion (NsServicePlanID input)) in
        let status := if wall <? NsStartsAt input then SubscriptionScheduled else SubscriptionActive in
        let! created := squery (CreateSubscription stored_time newID (NsUserID input) (VrID version) status (NsStartsAt input)
                                  (NsExpiresAt input) (NsNotes input) actorID) in
        subscriptionByID shown (SbID created)
  | ApplyTerm clock change status =>
      let! _ := squery (UpdateSubscriptionTerm stored_time clock (ScStartsAt change) (ScExpiresAt_ change) (ScNotes change) status (ScID change)
                          (ScExpectedUpdatedAt change)) in
      subscriptionByID shown (ScID change)
  | ApplySubscriptionStatus clock id status expectedUpdatedAt =>
      let! _ := squery (UpdateSubscriptionStatus stored_time clock status id expectedUpdatedAt) in
      subscriptionByID shown id
  end.

Definition plan_body (opID actorID : UUID) (mutation : Mutation) (a : PlanApply) : SubM (Ending ServicePlan) :=
  execute_body plan_book opID actorID mutation (apply_plan actorID a).
Definition subscription_body (shown : Z) (opID actorID : UUID) (mutation : Mutation) (a : SubscriptionApply) : SubM (Ending Subscription) :=
  execute_body subscription_book opID actorID mutation (apply_subscription shown actorID a).

(** ** The atomic calls *)

(** [SMarket] is any change of the tables that are only read here. *)
Inductive SubCall :=
| SPlan (t : Tx) (opID actorID : UUID) (mutation : Mutation) (a : PlanApply)
| SSubscription (t : Tx) (shown : Z) (opID actorID : UUID) (mutation : Mutation) (a : SubscriptionApply)
| SMarket (m : Market).

Definition sub_exec (call : SubCall) (s : SubStore) : SubStore :=
  match call with
  | SPlan t opID actorID mutation a => (run_with SDatabase (plan_body opID actorID mutation a) t s).2
  | SSubscription t shown opID actorID mutation a => (run_with SDatabase (subscription_body shown opID actorID mutation a) t s).2
  | SMarket m => set_market m s
  end.

Fixpoint sub_history (calls : list SubCall) (s : SubStore) : SubStore :=
  match calls with [] => s | call :: calls' => sub_history calls' (sub_exec call s) end.

Abbreviation SubTurn := (Step SubCall Conn).

(** ** The repository *)

(** What the outside decides of a mutation: its transaction, the reads after a
    failed commit and the identifier of the record. *)
Record Attempt := mkAttempt { at_tx : Tx; at_first : SubTurn; at_tries : list SubTurn; at_opID : UUID }.

Definition executePlanMutation (o : Attempt) (actorID : UUID) (mutation : Mutation) (a : PlanApply) (s : SubStore) :
    result SubError ServicePlan * SubStore :=
  reconciled_with sub_history SOutcomeUnknown (mutation_lookup plan_book actorID mutation) (λ operation, planMutationResult operation mutation)
    (at_first o) (at_tries o) (run_with SDatabase (plan_body (at_opID o) actorID mutation a) (at_tx o) s).

Definition executeSubscriptionMutation (o : Attempt) (shown : Z) (actorID : UUID) (mutation : Mutation) (a : SubscriptionApply) (s : SubStore) :
    result SubError Subscription * SubStore :=
  reconciled_with sub_history SOutcomeUnknown (mutation_lookup subscription_book actorID mutation)
    (λ operation, subscriptionMutationResult operation mutation) (at_first o) (at_tries o)
    (run_with SDatabase (subscription_body shown (at_opID o) actorID mutation a) (at_tx o) s).

(** A statement outside a transaction, after what others do before it. *)
Definition sub_read {A} (turn : SubTurn) (q : SubQuery A) (s : SubStore) : result SubError A * SubStore :=
  let s := sub_history (tn_before turn) s in
  (match (q (tn_conn turn) s).1 with Ok a => Ok a | Err e => Err (translateSubscriptionError e) end, s).

(** The answer for one plan; [turn] is that of the read of its routes. *)
Definition plan_read (turn : SubTurn) (row : PlanRecord * option VersionRecord) (s : SubStore) : result SubError ServicePlan * SubStore :=
  match row.2 with
  | None => (Ok (plan_of row.1 None), s)
  | Some v =>
      let '(r, s') := sub_read turn (ListServicePlanVersionRoutes collate (VrID v)) s in
      (match r with Ok routes => Ok (plan_of row.1 (Some (version_of v routes))) | Err e => Err e end, s')
  end.

Fixpoint plan_reads (turns : nat -> SubTurn) (rows_ : list (PlanRecord * option VersionRecord * Z)) (s : SubStore) :
    result SubError (list ServicePlan) * SubStore :=
  match rows_ with
  | [] => (Ok [], s)
  | (row, n) :: rest =>
      match plan_read (turns (length rest)) row s with
      | (Err e, s') => (Err e, s')
      | (Ok plan, s') =>
          match plan_reads turns rest s' with
          | (Err e, s'') => (Err e, s'')
          | (Ok items, s'') => (Ok (plan_count n plan :: items), s'')
          end
      end
  end.

Definition Sub_ListPlans (turn : SubTurn) (turns : nat -> SubTurn) (includeArchived : bool) (s : SubStore) :
    result SubError (list ServicePlan) * SubStore :=
  match sub_read turn (ListServicePlans collate includeArchived) s with
  | (Err e, s') => (Err e, s')
  | (Ok rows_, s') => plan_reads turns rows_ s'
  end.

Definition Sub_GetPlan (turn next : SubTurn) (id : UUID) (s : SubStore) : result SubError ServicePlan * SubStore :=
  match sub_read turn (GetServicePlan id) s with
  | (Err e, s') => (Err e, s')
  | (Ok row, s') => plan_read next row s'
  end.

Definition Sub_GetSubscription (turn next : SubTurn) (now : Z) (id : UUID) (s : SubStore) : result SubError Subscription * SubStore :=
  match sub_read turn (GetSubscription id) s with
  | (Err e, s') => (Err e, s')
  | (Ok row, s') =>
      match sub_read next (ListServicePlanVersionRoutes collate (SbVersionID row.1.1.1)) s' with
      | (Err e, s'') => (Err e, s'')
      | (Ok routes, s'') => (Ok (subscriptionFromParts now row routes), s'')
      end
  end.

(** The routes of a version are read once; [now] is read for each row. *)
Fixpoint subscription_reads (turns : nat -> SubTurn) (now : nat -> Z) (seen : gmap UUID (list PlanRoute))
    (rows_ : list (SubscriptionRecord * VersionRecord * PlanRecord * UserRecord)) (s : SubStore) : result SubError (list Subscription) * SubStore :=
  match rows_ with
  | [] => (Ok [], s)
  | row :: rest =>
      let version := SbVersionID row.1.1.1 in
      match (match seen !! version with
             | Some routes => (Ok routes, s)
             | None => sub_read (turns (length rest)) (ListServicePlanVersionRoutes collate version) s
             end) with
      | (Err e, s') => (Err e, s')
      | (Ok routes, s') =>
          match subscription_reads turns now (<[version := routes]> seen) rest s' with
          | (Err e, s'') => (Err e, s'')
          | (Ok items, s'') => (Ok (subscriptionFromParts (now (length rest)) row routes :: items), s'')
          end
      end
  end.

Record SubscriptionQuery := mkSubscriptionQuery { QyUserID : option UUID; QySearch : string; QyStatus : string; QyOffset : Z; QySize : Z }.

Definition Sub_ListSubscriptions (ilike : string -> string -> bool) (turn next : SubTurn) (turns : nat -> SubTurn) (now : nat -> Z)
    (query : SubscriptionQuery) (s : SubStore) : result SubError (list Subscription * Z) * SubStore :=
  match sub_read turn (ListSubscriptions ilike (QyUserID query) (QySearch query) (QyStatus query) (QyOffset query) (QySize query)) s with
  | (Err e, s') => (Err e, s')
  | (Ok rows_, s') =>
      match sub_read next (CountSubscriptions ilike (QyUserID query) (QySearch query) (QyStatus query)) s' with
      | (Err e, s'') => (Err e, s'')
      | (Ok total, s'') =>
          match subscription_reads turns now ∅ rows_ s'' with
          | (Err e, s''') => (Err e, s''')
          | (Ok items, s''') => (Ok (items, total), s''')
          end
      end
  end.
End repository.

Abbreviation SubTurn := (Step SubCall Conn).

(** ** The service *)

Inductive SubPayload :=
| PayloadPlan (draft : PlanDraft)
| PayloadPlanStatus (id : UUID) (status : PlanStatus)
| PayloadAssign (input : NewSubscription)
| PayloadTerm (change : SubscriptionChange)
| PayloadSubscriptionStatus (id : UUID) (status : SubscriptionStatus) (expectedUpdatedAt : Z).

Definition administrator (actor : Principal) : bool := (is_active actor && bool_decide (PnRole actor = UserAdministrator))%bool.

(** [seen] are the models of the routes before. *)
Fixpoint routes_distinct (seen : gset UUID) (routes : list PlanRoute) : bool :=
  match routes with
  | [] => true
  | r :: routes' =>
      (negb (bool_decide (PtModelID r = uuid_Nil)) && negb (bool_decide (PtResourcePoolID r = uuid_Nil)) &&
       negb (bool_decide (PtModelID r ∈ seen)) && routes_distinct ({[PtModelID r]} ∪ seen) routes')%bool
  end.

Definition validRoutes (routes : list PlanRoute) : bool :=
  (negb (is_nil routes) && (Z.of_nat (length routes) <=? 100) && routes_distinct ∅ routes)%bool.

(** [t.Truncate(time.Microsecond)] *)
Definition truncated (t : Z) : Z := t - t mod 1000.

Section service.
Context (payload_digest : SubPayload -> option bytes).
Context (collate : string -> string -> comparison) (ilike : string -> string -> bool) (stored_time : Z -> Z).

Definition makeMutation (request : MutationRequest) (action : string) (payload : SubPayload) : result SubError Mutation :=
  if (bool_decide (MqIdempotencyKey request = uuid_Nil) || blank (MqRequestID request) ||
      (128 <? Z.of_nat (String.length (MqRequestID request))))%bool then Err SInvalidInput
  else
    match payload_digest payload with
    | None => Err SInvalidInput
    | Some digest => Ok (mkMutation action (MqIdempotencyKey request) digest (MqRequestID request))
    end.

Definition PublishPlan (o : Attempt) (newPlanID newVersionID : UUID) (actor : Principal) (draft : PlanDraft) (request : MutationRequest)
    (s : SubStore) : result SubError ServicePlan * SubStore :=
  if negb (administrator actor) then (Err SForbidden, s)
  else
    let name := TrimSpace (DfName draft) in
    let description := TrimSpace (DfDescription draft) in
    if (bool_decide (MqIdempotencyKey request = uuid_Nil) || (RuneCount name <? 1) || (100 <? RuneCount name) ||
        (500 <? RuneCount description) || negb (validRoutes (DfRoutes draft)))%bool then (Err SInvalidInput, s)
    else
      let new := bool_decide (DfID draft = uuid_Nil) in
      let slug := if new then "plan-" +:+ drop_dashes (MqIdempotencyKey request) else DfSlug draft in
      let draft := mkPlanDraft (DfID draft) slug name description (DfRoutes draft) in
      match makeMutation request (if new then "service_plan.create" else "service_plan.publish") (PayloadPlan draft) with
      | Err e => (Err e, s)
      | Ok mutation => executePlanMutation collate stored_time o (PnUserID actor) mutation (ApplyPublish newPlanID newVersionID draft) s
      end.

Definition SetPlanStatus (o : Attempt) (actor : Principal) (id : UUID) (status : PlanStatus) (request : MutationRequest) (s : SubStore) :
    result SubError ServicePlan * SubStore :=
  if negb (administrator actor) then (Err SForbidden, s)
  else if bool_decide (id = uuid_Nil) then (Err SInvalidInput, s)
  else
    match makeMutation request "service_plan.status" (PayloadPlanStatus id status) with
    | Err e => (Err e, s)
    | Ok mutation => executePlanMutation collate stored_time o (PnUserID actor) mutation (ApplyPlanStatus id status) s
    end.

Definition ListPlans (turn : SubTurn) (turns : nat -> SubTurn) (actor : Principal) (includeArchived : bool) (s : SubStore) :
    result SubError (list ServicePlan) * SubStore :=
  if negb (is_active actor) then (Err SForbidden, s)
  else Sub_ListPlans collate stored_time turn turns (includeArchived && bool_decide (PnRole actor = UserAdministrator)) s.

(** The expiry is after the start. *)
Definition term_valid (startsAt : Z) (expiresAt : option Z) (notes : string) : bool :=
  (negb (IsZero startsAt) && match expiresAt with Some e => startsAt <? e | None => true end && (RuneCount notes <=? 500))%bool.

(** [shown] and [wall] are the times at which the repository looks at the
    clock. *)
Definition CreateSubscription (o : Attempt) (newID : UUID) (wall shown : Z) (actor : Principal) (input : NewSubscription) (request : MutationRequest)
    (s : SubStore) : result SubError Subscription * SubStore :=
  if negb (administrator actor) then (Err SForbidden, s)
  else
    let input := mkNewSubscription (NsUserID input) (NsServicePlanID input) (NsStartsAt input) (NsExpiresAt input) (TrimSpace (NsNotes input)) in
    if (bool_decide (NsUserID input = uuid_Nil) || bool_decide (NsServicePlanID input = uuid_Nil) ||
        negb (term_valid (NsStartsAt input) (NsExpiresAt input) (NsNotes input)))%bool then (Err SInvalidInput, s)
    else
      match makeMutation request "subscription.create" (PayloadAssign input) with
      | Err e => (Err e, s)
      | Ok mutation => executeSubscriptionMutation collate stored_time o shown (PnUserID actor) mutation (ApplyAssign newID wall input) s
      end.

(** [now1] and [now2] are the two readings of the clock. *)
Definition term_status (now1 now2 startsAt : Z) (expiresAt : option Z) : SubscriptionStatus :=
  if now1 <? startsAt then SubscriptionScheduled
  else if match expiresAt with Some e => negb (now2 <? e) | None => false end then SubscriptionExpired
  else SubscriptionActive.

Definition UpdateSubscription (o : Attempt) (clock now1 now2 shown : Z) (actor : Principal) (change : SubscriptionChange) (request : MutationRequest)
    (s : SubStore) : result SubError Subscription * SubStore :=
  if negb (administrator actor) then (Err SForbidden, s)
  else
    let change := mkSubscriptionChange (ScID change) (ScStartsAt change) (ScExpiresAt_ change) (TrimSpace (ScNotes change))
                    (ScExpectedUpdatedAt change) in
    if (bool_decide (ScID change = uuid_Nil) || IsZero (ScExpectedUpdatedAt change) ||
        negb (term_valid (ScStartsAt change) (ScExpiresAt_ change) (ScNotes change)))%bool then (Err SInvalidInput, s)
    else
      let status := term_status now1 now2 (ScStartsAt change) (ScExpiresAt_ change) in
      match makeMutation request "subscription.update" (PayloadTerm change) with
      | Err e => (Err e, s)
      | Ok mutation => executeSubscriptionMutation collate stored_time o shown (PnUserID actor) mutation (ApplyTerm clock change status) s
      end.

Definition SetSubscriptionStatus (o : Attempt) (clock shown : Z) (actor : Principal) (id : UUID) (status : SubscriptionStatus)
    (expectedUpdatedAt : Z) (request : MutationRequest) (s : SubStore) : result SubError Subscription * SubStore :=
  if negb (administrator actor) then (Err SForbidden, s)
  else if (bool_decide (id = uuid_Nil) || IsZero expectedUpdatedAt ||
           negb (bool_decide (status ∈ [SubscriptionActive; SubscriptionSuspended; SubscriptionCanceled])))%bool then (Err SInvalidInput, s)
  else
    match makeMutation request "subscription.status" (PayloadSubscriptionStatus id status (truncated expectedUpdatedAt)) with
    | Err e => (Err e, s)
    | Ok mutation =>
        executeSubscriptionMutation collate stored_time o shown (PnUserID actor) mutation (ApplySubscriptionStatus clock id status expectedUpdatedAt) s
    end.

(** A member sees what is theirs. *)
Definition ListSubscriptions (turn next : SubTurn) (turns : nat -> SubTurn) (now : nat -> Z) (actor : Principal) (query : SubscriptionQuery)
    (s : SubStore) : result SubError (list Subscription * Z) * SubStore :=
  if negb (is_active actor) then (Err SForbidden, s)
  else
    let userID := match PnRole actor with UserMember => Some (PnUserID actor) | UserAdministrator => QyUserID query end in
    let size := if ((QySize query <? 1) || (200 <? QySize query))%bool then 50 else QySize query in
    let search := TrimSpace (QySearch query) in
    if ((QyOffset query <? 0) || (200 <? RuneCount search))%bool then (Err SInvalidInput, s)
    else Sub_ListSubscriptions collate stored_time ilike turn next turns now (mkSubscriptionQuery userID search (QyStatus query) (QyOffset query) size) s.
End service.
