(* ===== verification/SubscriptionProps.v ===== *)
(** * How plans and subscriptions change

    What a committed transaction of the repository did to the tables
    ([execute_finished], [publish_inv], [apply_subscription_inv]), what every
    call keeps ([sub_moves], [sub_wf]), and the theorems on stores reached by
    the operations of the service. *)

From S2P Require Import Prelude GoStrings Canonical ProviderRequest Envelope Sql RequestTable RequestStore RequestHistory RequestAcceptance Password IdentityTable IdentityStore IdentityHistory Identity SubscriptionTable Subscription.

Local Open Scope Z_scope.

(** ** Tables and books *)

(** The tables other than those of mutations and audit events. *)
Definition core (s : SubStore) := (sb_plans s, sb_versions s, sb_routes s, sb_subscriptions s, sb_market s).
Definition books (s : SubStore) := (sb_plan_mutations s, sb_subscription_mutations s).

Class LawfulBook {R} (b : Book R) : Prop := {
  lb_rows t s : bk_rows b (bk_set b t s) = t;
  lb_core t s : core (bk_set b t s) = core s;
  lb_same s s' : books s' = books s -> bk_rows b s' = bk_rows b s;
  lb_self s : bk_set b (bk_rows b s) s = s;
}.

#[export] Instance plan_book_lawful : LawfulBook plan_book.
Proof. split; try done; [|by intros []]. unfold books. intros s s' [= ? ?]. done. Qed.
#[export] Instance subscription_book_lawful : LawfulBook subscription_book.
Proof. split; try done; [|by intros []]. unfold books. intros s s' [= ? ?]. done. Qed.

Definition same_books (s s' : SubStore) : Prop := books s' = books s.
#[export] Instance same_books_preorder : PreOrder same_books.
Proof. split; [done|]. unfold same_books. intros ? ? ? ? ?. congruence. Qed.

Definition same_core (s s' : SubStore) : Prop := core s' = core s.
#[export] Instance same_core_preorder : PreOrder same_core.
Proof. split; [done|]. unfold same_core. intros ? ? ? ? ?. congruence. Qed.

Lemma core_subscriptions s s' : core s' = core s -> sb_subscriptions s' = sb_subscriptions s.
Proof. unfold core. intros [=]. done. Qed.

(** ** Statements *)

Lemma reads_ok {S A} (f : Z -> S -> result PgError A) c s a s' : reads f c s = (Ok a, s') -> s' = s /\ f (cn_now c) s = Ok a.
Proof. unfold reads. destruct (cn_fault c); intros [= H1 H2]; by rewrite ?H1, ?H2. Qed.

Lemma reads_run {S A} (f : Z -> S -> result PgError A) c s : cn_fault c = None -> reads f c s = (f (cn_now c) s, s).
Proof. intros H. unfold reads. by rewrite H. Qed.

Lemma on_plans_insert c id p s r s' :
  on_plans (λ c s, insert_one (plan_constraints s) c id p) c s = (Ok r, s') ->
  sb_plans s !! id = None /\ plan_check p = true /\ r = p /\ s' = set_plans (<[id := p]> (sb_plans s)) s.
Proof.
  unfold on_plans. destruct (insert_one _ _ _ _ _) as [q t] eqn:Hi. intros [= -> <-].
  apply insert_one_inv in Hi as [(Hn & [Hck _ _] & [= ->] & ->)|(_ & e & [=])]. done.
Qed.

Lemma on_plans_update c id guard f s r s' :
  on_plans (λ c s, update_one (plan_constraints s) c id guard (f c)) c s = (Ok r, s') ->
  exists p, sb_plans s !! id = Some p /\ guard p = true /\ plan_check (f c p) = true /\ current_refers s (f c p) = true /\ r = f c p /\
            s' = set_plans (<[id := f c p]> (sb_plans s)) s.
Proof.
  unfold on_plans. destruct (update_one _ _ _ _ _ _) as [q t] eqn:Hu. intros [= -> <-].
  apply update_one_inv in Hu as [(p & Hp & Hg & [Hck _ Href] & [= ->] & ->)|(_ & e & [=])]. simpl in Href. apply andb_true_iff in Href as [_ Href].
  by exists p.
Qed.

Lemma CreateServicePlanVersion_inv id planID version by_ c s v s' :
  CreateServicePlanVersion id planID version by_ c s = (Ok v, s') ->
  sb_versions s !! id = None /\ v = mkVersionRecord id planID version by_ (cn_now c) /\ 0 < version /\ is_Some (sb_plans s !! planID) /\
  s' = set_versions (<[id := v]> (sb_versions s)) s.
Proof.
  unfold CreateServicePlanVersion. destruct (insert_one _ _ _ _ _) as [q t] eqn:Hi. intros [= -> <-].
  apply insert_one_inv in Hi as [(Hn & [Hck _ Href] & [= ->] & ->)|(_ & e & [=])]. simpl in *. apply andb_true_iff in Href as [Href _].
  apply Z.ltb_lt in Hck. apply bool_decide_eq_true in Href. done.
Qed.

Lemma CreateServicePlanVersionRoute_inv versionID modelID poolID c s u s' :
  CreateServicePlanVersionRoute versionID modelID poolID c s = (Ok u, s') ->
  sb_routes s !! (versionID, modelID) = None /\ plan_route_refers s versionID modelID poolID = true /\
  s' = set_routes (<[(versionID, modelID) := poolID]> (sb_routes s)) s.
Proof.
  unfold CreateServicePlanVersionRoute. destruct (cn_fault c); [done|]. destruct (sb_routes s !! _); [done|].
  destruct (plan_route_refers _ _ _ _) eqn:Hr; [|done]. intros [= _ <-]. done.
Qed.

Lemma on_subscriptions_insert c id x s r s' :
  on_subscriptions (λ c s, insert_one (subscription_constraints s) c id x) c s = (Ok r, s') ->
  sb_subscriptions s !! id = None /\ subscription_check x = true /\ is_Some (sb_versions s !! SbVersionID x) /\ r = x /\
  s' = set_subscriptions (<[id := x]> (sb_subscriptions s)) s.
Proof.
  unfold on_subscriptions. destruct (insert_one _ _ _ _ _) as [q t] eqn:Hi. intros [= -> <-].
  apply insert_one_inv in Hi as [(Hn & [Hck _ Href] & [= ->] & ->)|(_ & e & [=])]. simpl in Href.
  apply andb_true_iff in Href as [Href _]. apply andb_true_iff in Href as [_ Href]. by apply bool_decide_eq_true in Href.
Qed.

Lemma on_subscriptions_update c id guard f s r s' :
  on_subscriptions (λ c s, update_one (subscription_constraints s) c id guard (f c)) c s = (Ok r, s') ->
  exists x, sb_subscriptions s !! id = Some x /\ guard x = true /\ subscription_check (f c x) = true /\
            s' = set_subscriptions (<[id := f c x]> (sb_subscriptions s)) s.
Proof.
  unfold on_subscriptions. destruct (update_one _ _ _ _ _ _) as [q t] eqn:Hu. intros [= -> <-].
  apply update_one_inv in Hu as [(x & Hx & Hg & [Hck _ _] & [= ->] & ->)|(_ & e & [=])]. by exists x.
Qed.

(** ** Mutations *)

Lemma same_mutation_spec {R} actorID action key (m : MutationRecord R) :
  same_mutation actorID action key m = true <-> (MnActorUserID m, MnAction m, MnIdempotencyKey m) = (actorID, action, key).
Proof.
  unfold same_mutation. rewrite !andb_true_iff, !bool_decide_eq_true. split; [intros [[-> ->] ->]; done|intros [= -> -> ->]; done].
Qed.

Section book.
Context {R : Type} (b : Book R) `{!LawfulBook b}.

Lemma claim_mutation_inv id actorID action key fp requestID c s r s' :
  claim_mutation b id actorID action key fp requestID c s = (r, s') ->
  (s' = s /\ exists e, r = Err e) \/
  (find_row (same_mutation actorID action key) (bk_rows b s) = None /\ bk_rows b s !! id = None /\ length fp = 32%nat /\
   let m := mkMutationRecord id actorID action key fp requestID None None (cn_now c) in
   r = Ok m /\ s' = bk_set b (<[id := m]> (bk_rows b s)) s).
Proof.
  unfold claim_mutation. destruct (negb (is_null (cn_fault c)) || _ || _)%bool eqn:Hb; [|intros [= <- <-]; left; by eauto].
  destruct (insert_one _ _ _ _ _) as [r0 t] eqn:Hi. intros [= <- <-].
  pose proof Hi as [(Hn & [Hck _ _] & -> & ->)|(-> & e & ->)]%insert_one_inv; [|left; rewrite lb_self; by eauto].
  right. simpl in Hck. assert (Hf : cn_fault c = None) by (unfold insert_one in Hi; by destruct (cn_fault c)).
  rewrite Hf in Hb. apply Nat.eqb_eq in Hck. rewrite Hck in Hb. simpl in Hb. split_and!; try done. by destruct (find_row _ _).
Qed.

(** The record a mutation that succeeded leaves. *)
Definition mutation_done (opID actorID : UUID) (mutation : Mutation) (now : Z) (r : R) : MutationRecord R :=
  mkMutationRecord opID actorID (MtAction mutation) (MtIdempotencyKey mutation) (MtRequestFingerprint mutation) (MtRequestID mutation)
    (Some (bk_id b r)) (Some r) now.

(** A mutation that was applied: between the claim and the record of its
    result, which leave the other tables alone. *)
Lemma execute_finished opID actorID mutation apply_ t n s r n' s' :
  tx_rel same_books apply_ ->
  execute_body b opID actorID mutation apply_ t n s = (Ok (Finish r), n', s') ->
  find_row (same_mutation actorID (MtAction mutation) (MtIdempotencyKey mutation)) (bk_rows b s) = None /\
  bk_rows b s !! opID = None /\ length (MtRequestFingerprint mutation) = 32%nat /\
  bk_rows b s' = <[opID := mutation_done opID actorID mutation (tx_now t) r]> (bk_rows b s) /\
  exists n1 s1 n2 s2, core s1 = core s /\ apply_ t n1 s1 = (Ok r, n2, s2) /\ core s' = core s2.
Proof.
  intros Hap. unfold execute_body. intros (claimed & n1 & s1 & [-> Hc]%ask_inv & H)%bind_inv.
  apply claim_mutation_inv in Hc as [(-> & e & ->)|(Hf & Hn & Hlen & -> & ->)].
  { destruct e; repeat tx_inv; try done. unfold squery in *. repeat tx_inv. destruct (mutation_result _ _ _); by repeat tx_inv. }
  apply bind_inv in H as (r0 & n2 & s2 & Ha & H). unfold squery_raw in H. repeat tx_inv.
  match goal with H : create_audit _ _ _ = _ |- _ => unfold create_audit in H; destruct (cn_fault _); [done|]; case_match; [|done]; injection H as _ <- end.
  match goal with H : complete_mutation _ _ _ _ _ _ = _ |- _ =>
    unfold complete_mutation in H; destruct (update_one _ _ _ _ _ _) as [q t'] eqn:Hu; injection H as -> <- end.
  apply update_one_inv in Hu as [(m & Hm & _ & _ & _ & ->)|(_ & e & [=])].
  assert (Hrows : bk_rows b (set_sub_audit (sb_audit s2 ++ [mkSubAudit actorID (MtAction mutation) (bk_type b) (bk_id b r) (MtRequestID mutation) (bk_detail b r)]) s2)
                  = <[opID := mkMutationRecord opID actorID (MtAction mutation) (MtIdempotencyKey mutation) (MtRequestFingerprint mutation)
                                (MtRequestID mutation) None None (tx_now t)]> (bk_rows b s)).
  { rewrite (lb_same (b:=b) s2 (set_sub_audit _ s2)) by done. pose proof (tx_rel_elim _ _ _ _ _ _ _ _ Hap Ha) as Hs.
    rewrite (lb_same (b:=b) _ _ Hs), lb_rows. done. }
  rewrite Hrows in Hm |- *. rewrite lookup_insert_eq in Hm. injection Hm as <-. split_and!; [done..| |].
  - rewrite lb_rows, insert_insert_eq. done.
  - eexists _, _, _, s2. split; [apply lb_core|]. split; [exact Ha|]. by rewrite lb_core.
Qed.

(** A mutation that was left answers what was recorded under its key. *)
Lemma execute_left opID actorID mutation apply_ t n s r n' s' :
  execute_body b opID actorID mutation apply_ t n s = (Ok (Leave r), n', s') ->
  exists m, find_row (same_mutation actorID (MtAction mutation) (MtIdempotencyKey mutation)) (bk_rows b s) = Some m /\
            mutation_result b m mutation = Ok r.
Proof.
  unfold execute_body. intros (claimed & n1 & s1 & [-> Hc]%ask_inv & H)%bind_inv.
  apply claim_mutation_inv in Hc as [(-> & e & ->)|(Hf & Hn & Hlen & -> & ->)].
  - destruct e; repeat tx_inv; try done. unfold squery in *. repeat tx_inv. destruct (mutation_result _ _ _) eqn:Hr; repeat tx_inv.
    match goal with H : mutation_lookup _ _ _ _ _ = _ |- _ => apply reads_ok in H as [-> H]; destruct (find_row _ _) as [m|] eqn:Hf; simplify_eq/= end.
    by eauto.
  - apply bind_inv in H as (r0 & n2 & s2 & Ha & H). unfold squery_raw in H. by repeat tx_inv.
Qed.

(** A record of the key makes the mutation be left, when nothing fails. *)
Lemma execute_replay opID actorID mutation apply_ t s m :
  find_row (same_mutation actorID (MtAction mutation) (MtIdempotencyKey mutation)) (bk_rows b s) = Some m ->
  tx_fault t 0%nat = None -> tx_fault t 1%nat = None -> length (MtRequestFingerprint mutation) = 32%nat ->
  execute_body b opID actorID mutation apply_ t 0%nat s =
  (match mutation_result b m mutation with Ok a => Ok (Leave a) | Err e => Err e end, 2%nat, s).
Proof.
  intros Hf H0 H1 Hl. unfold execute_body, tx_bind, ask, claim_mutation. simpl. rewrite H0, Hl, Hf. simpl.
  unfold squery, query_with, tx_bind, ask, mutation_lookup, get_mutation, reads. simpl. rewrite H1, Hf. simpl. by destruct (mutation_result b m mutation).
Qed.
End book.

(** ** What the bodies do *)

(** The statements of the bodies leave the books alone. *)
Section same.
Context (collate : string -> string -> comparison) (stored_time : Z -> Z).

Lemma books_on_plans f : query_rel same_books (on_plans f).
Proof. intros c s. unfold on_plans. by destruct (f c s (sb_plans s)). Qed.
Lemma books_on_subscriptions f : query_rel same_books (on_subscriptions f).
Proof. intros c s. unfold on_subscriptions. by destruct (f c s (sb_subscriptions s)). Qed.
Lemma books_version id planID version by_ : query_rel same_books (CreateServicePlanVersion id planID version by_).
Proof. intros c s. unfold CreateServicePlanVersion. by destruct (insert_one _ _ _ _ _). Qed.
Lemma books_route versionID modelID poolID : query_rel same_books (CreateServicePlanVersionRoute versionID modelID poolID).
Proof. intros c s. unfold CreateServicePlanVersionRoute. by repeat case_match. Qed.

#[local] Hint Resolve books_on_plans books_on_subscriptions books_version books_route : idtx.
#[local] Hint Unfold CreateServicePlan PublishServicePlanVersion SetServicePlanStatus SubscriptionTable.CreateSubscription UpdateSubscriptionTerm
  UpdateSubscriptionStatus squery : idtx.

Lemma rel_squery {Rel : relation SubStore} `{!PreOrder Rel} {A} (q : SubQuery A) : query_rel Rel q -> tx_rel Rel (squery q).
Proof. apply rel_query_with. Qed.

#[local] Hint Resolve rel_squery : idtx.

Lemma books_create_routes versionID routes : tx_rel same_books (create_routes versionID routes).
Proof. induction routes as [|r routes IH]; simpl; rel_steps. Qed.

#[local] Hint Resolve books_create_routes : idtx.

Lemma books_apply_plan actorID a : tx_rel same_books (apply_plan collate actorID a).
Proof.
  destruct a; simpl; unfold draft_plan, servicePlanByID, servicePlanFromParts, CreateServicePlan, PublishServicePlanVersion, SetServicePlanStatus; rel_steps.
Qed.

Lemma books_apply_subscription shown actorID a : tx_rel same_books (apply_subscription collate stored_time shown actorID a).
Proof.
  destruct a; simpl; unfold subscriptionByID, subscriptionRoutes, SubscriptionTable.CreateSubscription, UpdateSubscriptionTerm, UpdateSubscriptionStatus;
    rel_steps.
Qed.
End same.

Section bodies.
Context (collate : string -> string -> comparison) (stored_time : Z -> Z).

Lemma squery_inv {A} (q : SubQuery A) t n s a n' s' : squery q t n s = (Ok a, n', s') -> n' = S n /\ q (statement t n) s = (Ok a, s').
Proof. apply query_with_inv. Qed.

(** The rows of a version's routes. *)
Definition add_routes (versionID : UUID) (routes : list PlanRoute) (t : gmap (UUID * UUID) UUID) : gmap (UUID * UUID) UUID :=
  foldl (λ t r, <[(versionID, PtModelID r) := PtResourcePoolID r]> t) t routes.

Lemma create_routes_inv versionID routes t n s u n' s' :
  create_routes versionID routes t n s = (Ok u, n', s') ->
  s' = set_routes (add_routes versionID routes (sb_routes s)) s /\ NoDup (PtModelID <$> routes) /\
  Forall (λ r, sb_routes s !! (versionID, PtModelID r) = None /\ (PtResourcePoolID r, PtModelID r) ∈ mk_pool_models (sb_market s)) routes.
Proof.
  revert n s. induction routes as [|r routes IH]; intros n s; simpl.
  { intros [= _ _ <-]. split; [by destruct s|]. split; [constructor|constructor]. }
  intros (u1 & n1 & s1 & [_ Hq]%squery_inv & H)%bind_inv. apply CreateServicePlanVersionRoute_inv in Hq as (Hn & Href & ->).
  destruct (IH _ _ H) as (-> & Hnd & Hall). split; [done|]. apply andb_true_iff in Href as [_ Href]. apply bool_decide_eq_true in Href.
  rewrite Forall_forall in Hall. split.
  - constructor; [|done]. intros (r' & Heq & Hin)%list_elem_of_fmap. destruct (Hall r' Hin) as [Hx _]. simpl in Hx. rewrite <- Heq in Hx.
    by rewrite lookup_insert_eq in Hx.
  - constructor; [done|]. apply Forall_forall. intros r' Hin. destruct (Hall r' Hin) as [Hx Hp]. split; [|done]. simpl in Hx.
    by apply lookup_insert_None in Hx as [Hx _].
Qed.

Lemma add_routes_lookup versionID routes t v m :
  NoDup (PtModelID <$> routes) ->
  add_routes versionID routes t !! (v, m) =
  match (if bool_decide (v = versionID) then list_find (λ r, PtModelID r = m) routes else None) with
  | Some (_, r) => Some (PtResourcePoolID r)
  | None => t !! (v, m)
  end.
Proof.
  revert t. induction routes as [|r routes IH]; intros t Hnd; [by case_bool_decide|]. simpl in Hnd. apply NoDup_cons in Hnd as [Hni Hnd].
  unfold add_routes in *. cbn [foldl list_find]. rewrite IH by done. destruct (bool_decide_reflect (v = versionID)) as [->|Hne].
  - destruct (decide (PtModelID r = m)) as [<-|Hm].
    + destruct (list_find _ routes) as [[i r']|] eqn:Hf; [|by rewrite lookup_insert_eq].
      apply list_find_Some in Hf as (Hi & Heq & _). destruct Hni. rewrite <- Heq. apply list_elem_of_fmap. exists r'. split; [done|].
      by eapply list_elem_of_lookup_2.
    + destruct (list_find _ routes) as [[i r']|]; simpl; [done|]. rewrite lookup_insert_ne; [done|]. congruence.
  - rewrite lookup_insert_ne; [done|]. congruence.
Qed.

(** The plan a draft names. *)
Definition draft_id (newPlanID : UUID) (draft : PlanDraft) : UUID := if bool_decide (DfID draft = uuid_Nil) then newPlanID else DfID draft.

(** What [draft_plan] leaves: a plan that is not archived. *)
Lemma draft_plan_inv newPlanID draft actorID t n s planID n' s' :
  draft_plan newPlanID draft actorID t n s = (Ok planID, n', s') ->
  planID = draft_id newPlanID draft /\
  ((s' = s /\ exists p, sb_plans s !! planID = Some p /\ PlStatus p <> PlanArchived) \/
   (DfID draft = uuid_Nil /\ sb_plans s !! planID = None /\
    exists p, PlID p = planID /\ PlCurrentVersionID p = None /\ PlSlug p = DfSlug draft /\ PlStatus p = PlanActive /\
              s' = set_plans (<[planID := p]> (sb_plans s)) s)).
Proof.
  unfold draft_plan, draft_id. case_bool_decide as Hd.
  - intros (p & n1 & s1 & [_ Hq]%squery_inv & H)%bind_inv. unfold CreateServicePlan in Hq.
    apply (on_plans_insert (statement t n)) in Hq as (Hn & _ & -> & ->). unfold tx_ret in H. injection H as <- <- <-. split; [done|].
    right. split; [done|]. split; [done|]. eexists. split_and!; [| | | |reflexivity]; done.
  - intros (p & n1 & s1 & [_ Hq]%squery_inv & H)%bind_inv. apply reads_ok in Hq as [-> Hq]. unfold found in Hq. case_bool_decide as Ha; [done|].
    unfold tx_ret in H. injection H as <- <- <-. split; [done|]. left. split; [done|]. exists p. split; [|done]. by destruct (sb_plans s !! _); simplify_eq.
Qed.

Definition published_plan (draft : PlanDraft) (versionID : UUID) (now : Z) (p : PlanRecord) : PlanRecord :=
  mkPlanRecord (PlID p) (PlSlug p) (DfName draft) (DfDescription draft) PlanActive (Some versionID) (PlCreatedBy p) (PlCreatedAt p) now.

(** What publishing a draft does to the tables. *)
Record publication (draft : PlanDraft) (planID versionID actorID : UUID) (now : Z) (s s' : SubStore) : Prop := {
  pu_plan : exists p, match sb_plans s !! planID with
                      | Some p0 => p = p0 /\ PlStatus p <> PlanArchived
                      | None => DfID draft = uuid_Nil /\ PlID p = planID /\ PlSlug p = DfSlug draft
                      end /\ sb_plans s' = <[planID := published_plan draft versionID now p]> (sb_plans s);
  pu_fresh : sb_versions s !! versionID = None;
  pu_version : sb_versions s' =
               <[versionID := mkVersionRecord versionID planID (max_version (versions_of s planID) + 1) actorID now]> (sb_versions s);
  pu_int32 : max_version (versions_of s planID) + 1 <= 2 ^ 31 - 1;
  pu_positive : 0 < max_version (versions_of s planID) + 1;
  pu_nodup : NoDup (PtModelID <$> DfRoutes draft);
  pu_models : Forall (λ r, sb_routes s !! (versionID, PtModelID r) = None /\ (PtResourcePoolID r, PtModelID r) ∈ mk_pool_models (sb_market s)) (DfRoutes draft);
  pu_routes : sb_routes s' = add_routes versionID (DfRoutes draft) (sb_routes s);
  pu_rest : (sb_subscriptions s', sb_market s') = (sb_subscriptions s, sb_market s);
}.

Lemma servicePlanByID_inv id t n s plan n' s' :
  servicePlanByID collate id t n s = (Ok plan, n', s') ->
  s' = s /\ exists p, sb_plans s !! id = Some p /\
    plan = plan_of p ((λ v, version_of v (merge_sort (plan_route_order collate) (version_routes s (VrID v)))) <$> current_version s p).
Proof.
  unfold servicePlanByID, servicePlanFromParts. intros (row & n1 & s1 & [_ Hq]%squery_inv & H)%bind_inv. apply reads_ok in Hq as [-> Hq].
  destruct (sb_plans s !! id) as [p|]; [|done]. injection Hq as <-. simpl in H. destruct (current_version s p) as [v|] eqn:Hv.
  - apply bind_inv in H as (routes & n2 & s2 & [_ Hq]%squery_inv & H). apply reads_ok in Hq as [-> [= <-]]. unfold tx_ret in H. injection H as <- <- <-. split; [done|]. exists p. by rewrite Hv.
  - injection H as <- <- <-. split; [done|]. exists p. by rewrite Hv.
Qed.

Lemma versions_of_plans s t planID : versions_of (set_plans t s) planID = versions_of s planID.
Proof. done. Qed.

Lemma publish_inv newPlanID newVersionID draft actorID t n s plan n' s' :
  apply_plan collate actorID (ApplyPublish newPlanID newVersionID draft) t n s = (Ok plan, n', s') ->
  publication draft (draft_id newPlanID draft) newVersionID actorID (tx_now t) s s' /\
  exists p, sb_plans s' !! draft_id newPlanID draft = Some p /\
    plan = plan_of p ((λ v, version_of v (merge_sort (plan_route_order collate) (version_routes s' (VrID v)))) <$> current_version s' p).
Proof.
  unfold apply_plan. intros (planID & n1 & s1 & Hd & H)%bind_inv. apply draft_plan_inv in Hd as [-> Hd].
  apply bind_inv in H as (number & n2 & s2 & [_ Hq]%squery_inv & H). apply reads_ok in Hq as [-> Hq]. cbv zeta in Hq.
  destruct (_ <=? 2 ^ 31 - 1) eqn:Hmax in Hq; [|done]. injection Hq as <-. apply Z.leb_le in Hmax.
  apply bind_inv in H as (v & n3 & s3 & [_ Hq]%squery_inv & H). apply CreateServicePlanVersion_inv in Hq as (Hfresh & -> & Hpos & _ & ->).
  apply bind_inv in H as (u & n4 & s4 & Hr & H). apply create_routes_inv in Hr as (-> & Hnd & Hall).
  apply bind_inv in H as (p' & n5 & s5 & [_ Hq]%squery_inv & H).
  apply (on_plans_update (statement t n4) _ _ (λ c p, mkPlanRecord (PlID p) (PlSlug p) (DfName draft) (DfDescription draft) PlanActive
    (Some newVersionID) (PlCreatedBy p) (PlCreatedAt p) (cn_now c))) in Hq as (p & Hp & _ & _ & _ & _ & ->).
  apply servicePlanByID_inv in H as [-> Hres]. split; [|exact Hres].
  destruct Hd as [(-> & p0 & Hp0 & Hna)|(Hnil & Hnone & p0 & Hid & _ & Hslug & _ & ->)]; simpl in *.
  - rewrite Hp0 in Hp. injection Hp as ->. split; simpl; try done. exists p. by rewrite Hp0.
  - rewrite lookup_insert_eq in Hp. injection Hp as ->. rewrite versions_of_plans in *. split; simpl; try done. exists p. rewrite Hnone. split; [done|].
    by rewrite insert_insert_eq.
Qed.

(** What a mutation of subscriptions does to their table. *)
Definition subscribed (now : Z) (actorID : UUID) (a : SubscriptionApply) (s : SubStore) (id : UUID) (x : SubscriptionRecord) : Prop :=
  match a with
  | ApplyAssign newID wall input =>
      id = newID /\ sb_subscriptions s !! id = None /\
      exists p v u, sb_plans s !! NsServicePlanID input = Some p /\ PlStatus p = PlanActive /\ PlCurrentVersionID p = Some v /\
        mk_users (sb_market s) !! NsUserID input = Some u /\ UdStatus u = UserActive /\
        exists r, sb_versions s !! v = Some r /\
        x = mkSubscriptionRecord newID (NsUserID input) (VrID r) (if wall <? NsStartsAt input then SubscriptionScheduled else SubscriptionActive)
              (stored_time (NsStartsAt input)) (stored_time <$> NsExpiresAt input) (NsNotes input) actorID None None now now
  | ApplyTerm clock change status =>
      id = ScID change /\ exists x0, sb_subscriptions s !! id = Some x0 /\ may_change stored_time (ScExpectedUpdatedAt change) x0 = true /\
        x = put_term stored_time clock (ScStartsAt change) (ScExpiresAt_ change) (ScNotes change) status x0
  | ApplySubscriptionStatus clock id' status expected =>
      id = id' /\ exists x0, sb_subscriptions s !! id = Some x0 /\ may_change stored_time expected x0 = true /\ x = put_status clock now status x0
  end.

Lemma subscriptionByID_inv shown id t n s r n' s' :
  subscriptionByID collate shown id t n s = (Ok r, n', s') ->
  s' = s /\ exists x v p u, sb_subscriptions s !! id = Some x /\ subscription_row s x = Some (x, v, p, u) /\
    r = subscriptionFromParts shown (x, v, p, u) (merge_sort (plan_route_order collate) (version_routes s (SbVersionID x))).
Proof.
  unfold subscriptionByID, subscriptionRoutes. intros (row & n1 & s1 & [_ Hq]%squery_inv & H)%bind_inv. apply reads_ok in Hq as [-> Hq].
  destruct (sb_subscriptions s !! id) as [x|]; [|done]. unfold found in Hq. destruct (subscription_row s x) as [row'|] eqn:Hrow; [|done]. injection Hq as <-.
  assert (Hx : row'.1.1.1 = x) by (unfold subscription_row in Hrow; repeat case_match; by simplify_eq).
  apply bind_inv in H as (routes & n2 & s2 & [_ Hq]%squery_inv & H). apply reads_ok in Hq as [-> [= <-]]. injection H as <- <- <-. split; [done|].
  destruct row' as [[[x' v] p] u]. simpl in Hx. subst x'. by exists x, v, p, u.
Qed.

Lemma apply_subscription_inv shown actorID a t n s r n' s' :
  apply_subscription collate stored_time shown actorID a t n s = (Ok r, n', s') ->
  exists id x, subscribed (tx_now t) actorID a s id x /\ subscription_check x = true /\
    s' = set_subscriptions (<[id := x]> (sb_subscriptions s)) s /\
    exists v p u, subscription_row s' x = Some (x, v, p, u) /\
      r = subscriptionFromParts shown (x, v, p, u) (merge_sort (plan_route_order collate) (version_routes s' (SbVersionID x))).
Proof.
  destruct a as [newID wall input|clock change status|clock id status expected]; cbn [apply_subscription].
  - intros (u & n1 & s1 & [_ Hq]%squery_inv & H)%bind_inv. apply reads_ok in Hq as [-> Hq].
    destruct (mk_users (sb_market s) !! NsUserID input) as [u0|] eqn:Hu; [|done].
    destruct (bool_decide (UdStatus u0 = UserActive)) eqn:Hact in Hq; [|done]. injection Hq as ->. apply bool_decide_eq_true in Hact.
    rewrite bool_decide_eq_true_2 in H by done. simpl in H.
    apply bind_inv in H as (v & n2 & s2 & [_ Hq]%squery_inv & H). apply reads_ok in Hq as [-> Hq].
    destruct (sb_plans s !! NsServicePlanID input) as [p|] eqn:Hp; [|done].
    destruct (bool_decide (PlStatus p = PlanActive)) eqn:Hpa in Hq; [|done]. apply bool_decide_eq_true in Hpa.
    destruct (PlCurrentVersionID p) as [vid|] eqn:Hv; [|done]. unfold found in Hq. destruct (sb_versions s !! vid) as [vr|] eqn:Hvr; [|done]. injection Hq as ->.
    apply bind_inv in H as (x & n3 & s3 & [_ Hq]%squery_inv & H). unfold SubscriptionTable.CreateSubscription in Hq.
    apply (on_subscriptions_insert (statement t n2)) in Hq as (Hn & Hck & _ & -> & ->).
    apply subscriptionByID_inv in H as [-> (x' & v' & p' & u' & Hx & Hrow & ->)]. simpl in Hx. rewrite lookup_insert_eq in Hx. injection Hx as <-.
    eexists newID, _. split; [|split; [exact Hck|split; [done|by eexists v', p', u']]]. split; [done|]. split; [done|].
    exists p, vid, u. split_and!; [done..|]. by exists v.
  - intros (x & n1 & s1 & [_ Hq]%squery_inv & H)%bind_inv.
    apply (on_subscriptions_update (statement t n) _ _ (λ _, put_term stored_time clock (ScStartsAt change) (ScExpiresAt_ change) (ScNotes change) status))
      in Hq as (x0 & Hx0 & Hg & Hck & ->).
    apply subscriptionByID_inv in H as [-> (x' & v' & p' & u' & Hx & Hrow & ->)]. simpl in Hx. rewrite lookup_insert_eq in Hx. injection Hx as <-.
    eexists (ScID change), _. split; [|split; [exact Hck|split; [done|by eexists v', p', u']]]. split; [done|]. by exists x0.
  - intros (x & n1 & s1 & [_ Hq]%squery_inv & H)%bind_inv.
    apply (on_subscriptions_update (statement t n) _ _ (λ c, put_status clock (cn_now c) status)) in Hq as (x0 & Hx0 & Hg & Hck & ->).
    apply subscriptionByID_inv in H as [-> (x' & v' & p' & u' & Hx & Hrow & ->)]. simpl in Hx. rewrite lookup_insert_eq in Hx. injection Hx as <-.
    eexists id, _. split; [|split; [exact Hck|split; [done|by eexists v', p', u']]]. split; [done|]. by exists x0.
Qed.

Lemma plan_status_inv actorID id status t n s plan n' s' :
  apply_plan collate actorID (ApplyPlanStatus id status) t n s = (Ok plan, n', s') ->
  exists p, sb_plans s !! id = Some p /\ PlStatus p <> PlanArchived /\
    s' = set_plans (<[id := mkPlanRecord (PlID p) (PlSlug p) (PlName p) (PlDescription p) status (PlCurrentVersionID p) (PlCreatedBy p)
                              (PlCreatedAt p) (tx_now t)]> (sb_plans s)) s.
Proof.
  cbn [apply_plan]. intros (q & n1 & s1 & [_ Hq]%squery_inv & H)%bind_inv.
  apply (on_plans_update (statement t n) _ _ (λ c p, mkPlanRecord (PlID p) (PlSlug p) (PlName p) (PlDescription p) status (PlCurrentVersionID p)
    (PlCreatedBy p) (PlCreatedAt p) (cn_now c))) in Hq as (p & Hp & Hg & _ & _ & _ & ->).
  apply servicePlanByID_inv in H as [-> _]. exists p. split; [done|]. split; [|done]. by apply negb_true_iff, bool_decide_eq_false in Hg.
Qed.
End bodies.

(** ** What every call keeps *)

Record subscription_moves (x x' : SubscriptionRecord) : Prop := {
  sx_fixed : (SbID x', SbUserID x', SbVersionID x', SbAssignedBy x', SbCreatedAt x') = (SbID x, SbUserID x, SbVersionID x, SbAssignedBy x, SbCreatedAt x);
  sx_canceled : SbStatus x = SubscriptionCanceled -> x' = x;
  sx_later : x' = x \/ SbUpdatedAt x < SbUpdatedAt x';
}.

#[export] Instance subscription_moves_preorder : PreOrder subscription_moves.
Proof.
  split; [intros x; split; auto|]. intros x1 x2 x3 [F1 C1 L1] [F2 C2 L2]. split; [congruence|..].
  - intros H. pose proof (C1 H). subst x2. auto.
  - destruct L1 as [->|L1]; [done|]. destruct L2 as [->|L2]; [by right|]. right. lia.
Qed.

Record plan_moves (p p' : PlanRecord) : Prop := {
  px_fixed : (PlID p', PlSlug p', PlCreatedBy p', PlCreatedAt p') = (PlID p, PlSlug p, PlCreatedBy p, PlCreatedAt p);
  px_archived : PlStatus p = PlanArchived -> p' = p;
}.

#[export] Instance plan_moves_preorder : PreOrder plan_moves.
Proof.
  split; [intros p; split; auto|]. intros p1 p2 p3 [F1 A1] [F2 A2]. split; [congruence|]. intros H. pose proof (A1 H). subst p2. auto.
Qed.

(** Versions and their routes are never changed. *)
Record sub_moves (s s' : SubStore) : Prop := {
  mv_subscriptions : table_grows subscription_moves (sb_subscriptions s) (sb_subscriptions s');
  mv_plans : table_grows plan_moves (sb_plans s) (sb_plans s');
  mv_versions : sb_versions s ⊆ sb_versions s';
  mv_routes v m : is_Some (sb_versions s !! v) -> sb_routes s' !! (v, m) = sb_routes s !! (v, m);
}.

#[export] Instance sub_moves_preorder : PreOrder sub_moves.
Proof.
  split; [intros s; by split|]. intros s1 s2 s3 [S1 P1 V1 R1] [S2 P2 V2 R2]. split; [by etrans..|].
  intros v m Hv. rewrite R2; [by apply R1|]. by apply (lookup_weaken_is_Some (sb_versions s1)).
Qed.

(** The current version of a plan is its latest; the versions of a plan are
    numbered from 1 without gaps, and each has a route. *)
Record sub_wf (s : SubStore) : Prop := {
  sw_subscriptions id x : sb_subscriptions s !! id = Some x -> SbID x = id /\ subscription_check x = true /\ is_Some (sb_versions s !! SbVersionID x);
  sw_versions id v : sb_versions s !! id = Some v -> VrID v = id /\ 0 < VrVersion v <= 2 ^ 31 - 1 /\ is_Some (sb_plans s !! VrPlanID v);
  sw_numbers i j v v' : sb_versions s !! i = Some v -> sb_versions s !! j = Some v' -> VrPlanID v = VrPlanID v' -> VrVersion v = VrVersion v' -> i = j;
  sw_gapless id v k : sb_versions s !! id = Some v -> 0 < k <= VrVersion v ->
    exists i v', sb_versions s !! i = Some v' /\ VrPlanID v' = VrPlanID v /\ VrVersion v' = k;
  sw_plans id p : sb_plans s !! id = Some p -> PlID p = id /\
    exists vid v, PlCurrentVersionID p = Some vid /\ sb_versions s !! vid = Some v /\ VrPlanID v = id /\
      forall j v', sb_versions s !! j = Some v' -> VrPlanID v' = id -> VrVersion v' <= VrVersion v;
  sw_routes v m p : sb_routes s !! (v, m) = Some p -> is_Some (sb_versions s !! v);
  sw_served v : is_Some (sb_versions s !! v) -> exists m p, sb_routes s !! (v, m) = Some p;
}.

Definition sub_sound (s s' : SubStore) : Prop := sub_wf s -> sub_wf s' /\ sub_moves s s'.

#[export] Instance sub_sound_preorder : PreOrder sub_sound.
Proof.
  split; [by intros s|]. intros s1 s2 s3 H12 H23 H1. destruct (H12 H1) as [H2 M2]. destruct (H23 H2) as [H3 M3]. split; [done|by etrans].
Qed.

(** Markets, books and audit events do not matter. *)
Lemma sub_sound_frame s s1 s2 s' :
  (sb_plans s1, sb_versions s1, sb_routes s1, sb_subscriptions s1) = (sb_plans s, sb_versions s, sb_routes s, sb_subscriptions s) ->
  (sb_plans s', sb_versions s', sb_routes s', sb_subscriptions s') = (sb_plans s2, sb_versions s2, sb_routes s2, sb_subscriptions s2) ->
  sub_sound s1 s2 -> sub_sound s s'.
Proof.
  destruct s, s1, s2, s'. simpl. intros [= -> -> -> ->] [= -> -> -> ->] H [].
  destruct H as [[] []]; [by split|]. by split; split.
Qed.

Lemma sub_sound_core s s1 s2 s' : core s1 = core s -> core s' = core s2 -> sub_sound s1 s2 -> sub_sound s s'.
Proof. unfold core. intros [= P V Ro X _] [= P' V' Ro' X' _]. apply sub_sound_frame; congruence. Qed.

(** ** The greatest version *)

Lemma max_version_nonneg l : 0 <= max_version l.
Proof. induction l as [|v l IH]; simpl; [done|]. lia. Qed.

Lemma max_version_ge l v : v ∈ l -> VrVersion v <= max_version l.
Proof.
  induction l as [|w l IH]; [intros H; by apply not_elem_of_nil in H|]. simpl.
  intros [->|H]%elem_of_cons; [lia|]. specialize (IH H). lia.
Qed.

Lemma max_version_attained l : max_version l = 0 \/ exists v, v ∈ l /\ VrVersion v = max_version l.
Proof.
  induction l as [|w l IH]; [by left|]. simpl. destruct (Z.max_spec (VrVersion w) (max_version l)) as [[_ ->]|[_ ->]].
  - destruct IH as [H|(v & Hv & H)]; [by left|]. right. exists v. split; [by right|done].
  - right. exists w. split; [by left|done].
Qed.

Lemma elem_of_versions s planID v : v ∈ versions_of s planID <-> VrPlanID v = planID /\ exists id, sb_versions s !! id = Some v.
Proof.
  unfold versions_of, rows. rewrite list_elem_of_filter, list_elem_of_fmap. split.
  - intros (Hp & [id w] & -> & Hin). apply elem_of_map_to_list in Hin. by eauto.
  - intros (Hp & id & Hid). split; [done|]. exists (id, v). split; [done|]. by apply elem_of_map_to_list.
Qed.

(** ** Publications *)

Section publication.
Context (draft : PlanDraft) (planID versionID actorID : UUID) (now : Z) (s s' : SubStore).
Context (Hpub : publication draft planID versionID actorID now s s') (Hwf : sub_wf s).

Let number := max_version (versions_of s planID) + 1.

Lemma pub_number_new id v : sb_versions s !! id = Some v -> VrPlanID v = planID -> VrVersion v < number.
Proof. intros Hv Hp. assert (v ∈ versions_of s planID) as H%max_version_ge by (apply elem_of_versions; eauto). unfold number. lia. Qed.

Lemma pub_previous : 1 < number -> exists id v, sb_versions s !! id = Some v /\ VrPlanID v = planID /\ VrVersion v = number - 1.
Proof.
  unfold number. destruct (max_version_attained (versions_of s planID)) as [->|(v & (Hp & id & Hid)%elem_of_versions & Hv)]; [lia|].
  intros _. exists id, v. split_and!; [done..|]. lia.
Qed.

Lemma pub_routes_old v m : v <> versionID -> sb_routes s' !! (v, m) = sb_routes s !! (v, m).
Proof.
  intros Hv. rewrite (pu_routes _ _ _ _ _ _ _ Hpub), add_routes_lookup by apply Hpub. by rewrite bool_decide_eq_false_2.
Qed.

Lemma pub_version_cases id v :
  sb_versions s' !! id = Some v ->
  (id = versionID /\ v = mkVersionRecord versionID planID number actorID now) \/ (id <> versionID /\ sb_versions s !! id = Some v).
Proof.
  rewrite (pu_version _ _ _ _ _ _ _ Hpub). destruct (decide (id = versionID)) as [->|Hne].
  - rewrite lookup_insert_eq. intros [= <-]. by left.
  - rewrite lookup_insert_ne by done. by right.
Qed.

Lemma pub_version_old id v : sb_versions s !! id = Some v -> sb_versions s' !! id = Some v /\ id <> versionID.
Proof.
  intros Hv. assert (id <> versionID) by (intros ->; by rewrite (pu_fresh _ _ _ _ _ _ _ Hpub) in Hv).
  by rewrite (pu_version _ _ _ _ _ _ _ Hpub), lookup_insert_ne.
Qed.

Lemma pub_version_new : sb_versions s' !! versionID = Some (mkVersionRecord versionID planID number actorID now).
Proof. by rewrite (pu_version _ _ _ _ _ _ _ Hpub), lookup_insert_eq. Qed.

Lemma pub_moves : sub_moves s s'.
Proof.
  pose proof (pu_rest _ _ _ _ _ _ _ Hpub) as [= Hsubs _]. split.
  - by rewrite Hsubs.
  - destruct (pu_plan _ _ _ _ _ _ _ Hpub) as (p & Hp & ->). apply grows_insert; [apply _|]. intros p0 H0. rewrite H0 in Hp. destruct Hp as [-> Hna].
    by split.
  - apply map_subseteq_spec. intros id v Hv. by apply pub_version_old.
  - intros v m [r Hv]. apply pub_routes_old. by eapply pub_version_old.
Qed.

Lemma pub_plan_id : exists p, PlID p = planID /\ sb_plans s' = <[planID := published_plan draft versionID now p]> (sb_plans s).
Proof.
  destruct (pu_plan _ _ _ _ _ _ _ Hpub) as (p & Hp & Heq). exists p. split; [|done].
  destruct (sb_plans s !! planID) as [p0|] eqn:H0; [|by destruct Hp as (_ & ? & _)]. destruct Hp as [-> _]. by destruct (sw_plans s Hwf _ _ H0).
Qed.

Lemma pub_plan_some id : is_Some (sb_plans s !! id) -> is_Some (sb_plans s' !! id).
Proof. apply (table_grows_some plan_moves), pub_moves. Qed.

Lemma pub_wf : DfRoutes draft <> [] -> sub_wf s'.
Proof.
  intros Hne. pose proof (pu_rest _ _ _ _ _ _ _ Hpub) as [= Hsubs _]. destruct pub_plan_id as (p & Hpid & Hplans). split.
  - intros id x. rewrite Hsubs. intros Hx. destruct (sw_subscriptions s Hwf _ _ Hx) as (? & ? & [r Hr]). split_and!; [done..|].
    exists r. by apply pub_version_old.
  - intros id v [[-> ->]|[_ Hv]]%pub_version_cases.
    + split; [done|]. split; [split; apply Hpub|]. rewrite Hplans. simpl. by rewrite lookup_insert_eq.
    + destruct (sw_versions s Hwf _ _ Hv) as (? & ? & ?). split; [done|]. split; [done|]. by apply pub_plan_some.
  - intros i j v v' [[-> ->]|[_ Hv]]%pub_version_cases [[-> ->]|[_ Hv']]%pub_version_cases Hp Hn; simpl in *; [done|..].
    + pose proof (pub_number_new _ _ Hv' (eq_sym Hp)). lia.
    + pose proof (pub_number_new _ _ Hv Hp). lia.
    + by eapply sw_numbers.
  - assert (Hold : forall id v k, sb_versions s !! id = Some v -> 0 < k <= VrVersion v ->
      exists i v', sb_versions s' !! i = Some v' /\ VrPlanID v' = VrPlanID v /\ VrVersion v' = k).
    { intros id v k Hv Hk. destruct (sw_gapless s Hwf _ _ _ Hv Hk) as (i & v' & Hi & ?). exists i, v'. split; [by apply pub_version_old|done]. }
    intros id v k [[-> ->]|[_ Hv]]%pub_version_cases Hk; [|by eapply Hold]. simpl in *. destruct (decide (k = number)) as [->|Hkn].
    + eexists versionID, _. split; [apply pub_version_new|done].
    + destruct pub_previous as (i & v & Hv & Hp & Hn); [lia|]. rewrite <- Hp. apply (Hold i); [done|lia].
  - intros id q Hq. rewrite Hplans in Hq. destruct (decide (id = planID)) as [->|Hid].
    + rewrite lookup_insert_eq in Hq. injection Hq as <-. split; [done|]. eexists versionID, _. split; [done|]. split; [apply pub_version_new|]. split; [done|].
      intros j v' [[-> ->]|[_ Hv]]%pub_version_cases Hp; [done|]. simpl. pose proof (pub_number_new _ _ Hv Hp). lia.
    + rewrite lookup_insert_ne in Hq by done. destruct (sw_plans s Hwf _ _ Hq) as (? & vid & v & Hc & Hv & Hp & Hmax). split; [done|].
      exists vid, v. split; [done|]. split; [by apply pub_version_old|]. split; [done|].
      intros j v' [[-> ->]|[_ Hv']]%pub_version_cases Hp'; [by simpl in Hp'|by eapply Hmax].
  - intros v m q. destruct (decide (v = versionID)) as [->|Hv]; [intros _; rewrite pub_version_new; by eauto|]. rewrite pub_routes_old by done.
    intros [r Hr]%(sw_routes s Hwf). exists r. by apply pub_version_old.
  - intros v [r [[-> ->]|[Hv Hr]]%pub_version_cases].
    + destruct (DfRoutes draft) as [|x l] eqn:Hl; [done|]. exists (PtModelID x), (PtResourcePoolID x).
      rewrite (pu_routes _ _ _ _ _ _ _ Hpub), add_routes_lookup by apply Hpub. rewrite bool_decide_eq_true_2 by done. rewrite Hl. simpl.
      by rewrite decide_True.
    + destruct (sw_served s Hwf v ltac:(by eauto)) as (m & q & Hm). exists m, q. by rewrite pub_routes_old.
Qed.

Lemma pub_sound : DfRoutes draft <> [] -> sub_wf s' /\ sub_moves s s'.
Proof. intros H. split; [by apply pub_wf|apply pub_moves]. Qed.
End publication.

(** ** Calls *)

Lemma plan_status_sound s id p status now :
  sb_plans s !! id = Some p -> PlStatus p <> PlanArchived ->
  sub_sound s (set_plans (<[id := mkPlanRecord (PlID p) (PlSlug p) (PlName p) (PlDescription p) status (PlCurrentVersionID p) (PlCreatedBy p)
                                    (PlCreatedAt p) now]> (sb_plans s)) s).
Proof.
  intros Hp Hna Hwf. assert (Hg : table_grows plan_moves (sb_plans s)
    (<[id := mkPlanRecord (PlID p) (PlSlug p) (PlName p) (PlDescription p) status (PlCurrentVersionID p) (PlCreatedBy p) (PlCreatedAt p) now]> (sb_plans s))).
  { apply grows_insert; [apply _|]. intros p0 H0. rewrite Hp in H0. injection H0 as <-. by split. }
  split; [|by split]. destruct Hwf as [W1 W2 W3 W4 W5 W6 W7]. split; simpl; try done.
  - intros i v Hv. destruct (W2 _ _ Hv) as (? & ? & ?). split; [done|]. split; [done|]. by eapply table_grows_some.
  - intros i q. destruct (decide (i = id)) as [->|Hne]; [|rewrite lookup_insert_ne by done; by apply W5].
    rewrite lookup_insert_eq. intros [= <-]. exact (W5 id p Hp).
Qed.

(** A row that is inserted or that moves on. *)
Lemma subscription_sound s id x :
  SbID x = id -> subscription_check x = true -> is_Some (sb_versions s !! SbVersionID x) ->
  (forall x0, sb_subscriptions s !! id = Some x0 -> subscription_moves x0 x) ->
  sub_sound s (set_subscriptions (<[id := x]> (sb_subscriptions s)) s).
Proof.
  intros Hid Hck Hv Hm Hwf. split.
  - destruct Hwf as [W1 W2 W3 W4 W5 W6 W7]. split; simpl; try done. intros i y. destruct (decide (i = id)) as [->|Hne].
    + rewrite lookup_insert_eq. by intros [= <-].
    + rewrite lookup_insert_ne by done. apply W1.
  - split; simpl; try done. apply grows_insert; [apply _|done].
Qed.

Section calls.
Context (collate : string -> string -> comparison) (stored_time : Z -> Z).

Lemma may_change_moves expected x x' :
  may_change stored_time expected x = true ->
  (SbID x', SbUserID x', SbVersionID x', SbAssignedBy x', SbCreatedAt x') = (SbID x, SbUserID x, SbVersionID x, SbAssignedBy x, SbCreatedAt x) ->
  SbUpdatedAt x < SbUpdatedAt x' -> subscription_moves x x'.
Proof.
  intros [Hc _]%andb_true_iff Hf Hl. apply negb_true_iff, bool_decide_eq_false in Hc. split; [done|done|by right].
Qed.

Lemma subscribed_sound now actorID a s id x :
  subscribed stored_time now actorID a s id x -> subscription_check x = true ->
  sub_sound s (set_subscriptions (<[id := x]> (sb_subscriptions s)) s).
Proof.
  intros Ha Hck Hwf. revert Hwf. destruct a as [newID wall input|clock change status|clock id' status expected]; simpl in Ha.
  - destruct Ha as (-> & Hn & p & v & u & Hp & _ & Hv & _ & _ & r & Hr & ->). intros Hwf. destruct (sw_versions s Hwf _ _ Hr) as (Hid & _).
    revert Hwf. apply subscription_sound; [done|done|simpl; rewrite Hid; by eauto|]. intros x0 H0. congruence.
  - destruct Ha as (-> & x0 & Hx0 & Hg & ->). intros Hwf. destruct (sw_subscriptions s Hwf _ _ Hx0) as (Hid & _ & Hv). revert Hwf.
    apply subscription_sound; [done..|]. intros y Hy. rewrite Hx0 in Hy. injection Hy as <-.
    apply (may_change_moves _ _ _ Hg); [done|]. simpl. unfold next_change. lia.
  - destruct Ha as (-> & x0 & Hx0 & Hg & ->). intros Hwf. destruct (sw_subscriptions s Hwf _ _ Hx0) as (Hid & _ & Hv). revert Hwf.
    apply subscription_sound; [done..|]. intros y Hy. rewrite Hx0 in Hy. injection Hy as <-.
    apply (may_change_moves _ _ _ Hg); [done|]. simpl. unfold next_change. lia.
Qed.

(** What a call of the service is: a plan has routes, and a subscription is
    set expired only when its expiry has passed, at the latest at [T]. *)
Definition sub_issued (T : Z) (call : SubCall) : Prop :=
  match call with
  | SPlan _ _ _ _ (ApplyPublish _ _ draft) => DfRoutes draft <> []
  | SSubscription _ _ _ _ _ (ApplyTerm _ change status) =>
      status = SubscriptionExpired -> exists e, ScExpiresAt_ change = Some e /\ e <= T
  | SSubscription _ _ _ _ _ (ApplySubscriptionStatus _ _ status _) => status <> SubscriptionExpired
  | _ => True
  end.

Lemma plan_exec_inv t opID actorID mutation a s :
  let s' := sub_exec collate stored_time (SPlan t opID actorID mutation a) s in
  s' = s \/ exists plan n s1 n2 s2, core s1 = core s /\ apply_plan collate actorID a t n s1 = (Ok plan, n2, s2) /\ core s' = core s2.
Proof.
  simpl. destruct (run_with _ _ t s) as [r s'] eqn:Hr. apply run_with_inv in Hr as [(plan & n & Hb & _)|[-> _]]; [|by left].
  apply execute_finished in Hb as (_ & _ & _ & _ & n1 & s1 & n2 & s2 & Hc & Ha & Hc'); [|apply _|apply books_apply_plan]. right. by eexists _, _, _, _, _.
Qed.

Lemma subscription_exec_inv t shown opID actorID mutation a s :
  let s' := sub_exec collate stored_time (SSubscription t shown opID actorID mutation a) s in
  s' = s \/ exists id x s1, core s1 = core s /\ subscribed stored_time (tx_now t) actorID a s1 id x /\ subscription_check x = true /\
              core s' = core (set_subscriptions (<[id := x]> (sb_subscriptions s1)) s1).
Proof.
  simpl. destruct (run_with _ _ t s) as [r s'] eqn:Hr. apply run_with_inv in Hr as [(y & n & Hb & _)|[-> _]]; [|by left].
  apply execute_finished in Hb as (_ & _ & _ & _ & n1 & s1 & n2 & s2 & Hc & Ha & Hc'); [|apply _|apply books_apply_subscription].
  apply apply_subscription_inv in Ha as (id & x & Hsub & Hck & -> & _). right. by exists id, x, s1.
Qed.

Lemma sub_exec_sound T call s : sub_issued T call -> sub_sound s (sub_exec collate stored_time call s).
Proof.
  destruct call as [t opID actorID mutation a|t shown opID actorID mutation a|m]; intros Hi.
  - destruct (plan_exec_inv t opID actorID mutation a s) as [->|(plan & n & s1 & n2 & s2 & Hc & Ha & Hc')]; [done|].
    apply (sub_sound_core _ _ _ _ Hc Hc'). destruct a as [newPlanID newVersionID draft|id status].
    + apply publish_inv in Ha as [Hpub _]. intros Hwf. by eapply pub_sound.
    + apply plan_status_inv in Ha as (p & Hp & Hna & ->). by apply plan_status_sound.
  - destruct (subscription_exec_inv t shown opID actorID mutation a s) as [->|(id & x & s1 & Hc & Hsub & Hck & Hc')]; [done|].
    apply (sub_sound_core _ _ _ _ Hc Hc'). by eapply subscribed_sound.
  - simpl. by apply (sub_sound_frame _ s s).
Qed.

Lemma sub_history_app calls calls' s :
  sub_history collate stored_time (calls ++ calls') s = sub_history collate stored_time calls' (sub_history collate stored_time calls s).
Proof. revert s. induction calls as [|call calls IH]; intros s; simpl; [done|]. apply IH. Qed.

Lemma sub_history_sound T calls s : Forall (sub_issued T) calls -> sub_sound s (sub_history collate stored_time calls s).
Proof.
  intros H. revert s. induction H as [|call calls Hc _ IH]; intros s; simpl; [done|]. etrans; [by eapply sub_exec_sound|apply IH].
Qed.

(** ** Stored statuses *)

(** A subscription stored as expired has ended by [T]. *)
Definition expired_by (T : Z) (s : SubStore) : Prop :=
  forall id x, sb_subscriptions s !! id = Some x -> SbStatus x = SubscriptionExpired -> exists e, SbExpiresAt x = Some e /\ e <= T.

Context (stored_le : forall t, stored_time t <= t).

Lemma expired_exec T call s : sub_issued T call -> expired_by T s -> expired_by T (sub_exec collate stored_time call s).
Proof.
  destruct call as [t opID actorID mutation a|t shown opID actorID mutation a|m]; intros Hi Hs; [| |done].
  - destruct (plan_exec_inv t opID actorID mutation a s) as [->|(plan & n & s1 & n2 & s2 & Hc & Ha & Hc')]; [done|].
    assert (Hsub : sb_subscriptions s2 = sb_subscriptions s1).
    { destruct a; [apply publish_inv in Ha as [Hpub _]; by pose proof (pu_rest _ _ _ _ _ _ _ Hpub) as [= ? _]|].
      by apply plan_status_inv in Ha as (p & _ & _ & ->). }
    unfold expired_by. by rewrite (core_subscriptions _ _ Hc'), Hsub, (core_subscriptions _ _ Hc).
  - destruct (subscription_exec_inv t shown opID actorID mutation a s) as [->|(id & x & s1 & Hc & Hsub & Hck & Hc')]; [done|].
    unfold expired_by. rewrite (core_subscriptions _ _ Hc'). simpl. rewrite (core_subscriptions _ _ Hc). intros i y.
    destruct (decide (i = id)) as [->|Hne]; [|rewrite lookup_insert_ne by done; apply Hs]. rewrite lookup_insert_eq. intros [= <-] Hst.
    destruct a as [newID wall input|clock change status|clock id' status expected]; simpl in Hsub, Hi.
    + destruct Hsub as (_ & _ & p & v & u & _ & _ & _ & _ & _ & r & _ & ->). simpl in Hst. by destruct (wall <? _).
    + destruct Hsub as (_ & x0 & _ & _ & ->). simpl in *. destruct (Hi Hst) as (e & -> & He). exists (stored_time e). split; [done|].
      specialize (stored_le e). lia.
    + destruct Hsub as (_ & x0 & _ & _ & ->). by simpl in Hst.
Qed.

Lemma expired_history T calls s : Forall (sub_issued T) calls -> expired_by T s -> expired_by T (sub_history collate stored_time calls s).
Proof. intros H. revert s. induction H as [|call calls Hc _ IH]; intros s Hs; simpl; [done|]. by apply IH, expired_exec. Qed.
End calls.

(** ** Operations of the service *)

Inductive SubOp :=
| OPublish (o : Attempt) (newPlanID newVersionID : UUID) (actor : Principal) (draft : PlanDraft) (request : MutationRequest)
| OPlanStatus (o : Attempt) (actor : Principal) (id : UUID) (status : PlanStatus) (request : MutationRequest)
| OAssign (o : Attempt) (newID : UUID) (wall shown : Z) (actor : Principal) (input : NewSubscription) (request : MutationRequest)
| OTerm (o : Attempt) (clock now1 now2 shown : Z) (actor : Principal) (change : SubscriptionChange) (request : MutationRequest)
| OStatus (o : Attempt) (clock shown : Z) (actor : Principal) (id : UUID) (status : SubscriptionStatus) (expected : Z) (request : MutationRequest)
| OMarket (m : Market).

Section service.
Context (payload_digest : SubPayload -> option bytes) (collate : string -> string -> comparison) (stored_time : Z -> Z).

Definition sub_op (op : SubOp) (s : SubStore) : SubStore :=
  match op with
  | OPublish o newPlanID newVersionID actor draft request =>
      (PublishPlan payload_digest collate stored_time o newPlanID newVersionID actor draft request s).2
  | OPlanStatus o actor id status request => (SetPlanStatus payload_digest collate stored_time o actor id status request s).2
  | OAssign o newID wall shown actor input request =>
      (CreateSubscription payload_digest collate stored_time o newID wall shown actor input request s).2
  | OTerm o clock now1 now2 shown actor change request =>
      (UpdateSubscription payload_digest collate stored_time o clock now1 now2 shown actor change request s).2
  | OStatus o clock shown actor id status expected request =>
      (SetSubscriptionStatus payload_digest collate stored_time o clock shown actor id status expected request s).2
  | OMarket m => set_market m s
  end.

Definition sub_ops (ops : list SubOp) (s : SubStore) : SubStore := foldl (λ s op, sub_op op s) s ops.

(** What others do meanwhile is also done by the service; the clock it looks
    at has not passed [T]. *)
Definition attempt_ok (T : Z) (o : Attempt) : Prop := Forall (λ turn, Forall (sub_issued T) (tn_before turn)) (at_first o :: at_tries o).

Definition op_ok (T : Z) (op : SubOp) : Prop :=
  match op with
  | OPublish o _ _ _ _ _ | OPlanStatus o _ _ _ _ | OAssign o _ _ _ _ _ _ | OStatus o _ _ _ _ _ _ _ => attempt_ok T o
  | OTerm o _ _ now2 _ _ _ _ => attempt_ok T o /\ now2 <= T
  | OMarket _ => True
  end.

Definition empty_sub (m : Market) : SubStore := mkSubStore ∅ ∅ ∅ ∅ ∅ ∅ [] m.

Inductive sub_reached (T : Z) : SubStore -> Prop :=
| sub_reached_empty m : sub_reached T (empty_sub m)
| sub_reached_op op s : sub_reached T s -> op_ok T op -> sub_reached T (sub_op op s).

Definition sub_runs (T : Z) (s s' : SubStore) : Prop := exists calls, Forall (sub_issued T) calls /\ s' = sub_history collate stored_time calls s.

#[local] Instance sub_runs_preorder T : PreOrder (sub_runs T).
Proof.
  split; [intros s; by exists []|]. intros s1 s2 s3 (c1 & H1 & ->) (c2 & H2 & ->). exists (c1 ++ c2). rewrite sub_history_app. split; [|done].
  by apply Forall_app.
Qed.

Lemma sub_runs_call T call s : sub_issued T call -> sub_runs T s (sub_exec collate stored_time call s).
Proof. intros H. exists [call]. split; [by constructor|done]. Qed.

Lemma sub_runs_reconciled T {R A} (read : SubQuery R) (result_of : R -> result SubError A) o p s :
  attempt_ok T o -> sub_runs T s p.2 ->
  sub_runs T s (reconciled_with (sub_history collate stored_time) SOutcomeUnknown read result_of (at_first o) (at_tries o) p).2.
Proof.
  intros Ho Hp. destruct p as [[a|e|e] s']; simpl in *; [done|done|]. etrans; [exact Hp|].
  destruct (reconcile_with _ _ _ _ _ _ _ s') as [r s''] eqn:Hr. apply reconcile_with_inv in Hr as [[k ->] _]; [|apply sub_history_app].
  eexists. split; [|done]. unfold acted. apply Forall_concat, Forall_fmap. by apply Forall_take.
Qed.

Lemma sub_runs_plan T o actorID mutation a s :
  attempt_ok T o -> sub_issued T (SPlan (at_tx o) (at_opID o) actorID mutation a) ->
  sub_runs T s (executePlanMutation collate stored_time o actorID mutation a s).2.
Proof. intros Ho Hi. apply sub_runs_reconciled; [done|]. by apply (sub_runs_call T (SPlan (at_tx o) (at_opID o) actorID mutation a)). Qed.

Lemma sub_runs_subscription T o shown actorID mutation a s :
  attempt_ok T o -> sub_issued T (SSubscription (at_tx o) shown (at_opID o) actorID mutation a) ->
  sub_runs T s (executeSubscriptionMutation collate stored_time o shown actorID mutation a s).2.
Proof. intros Ho Hi. apply sub_runs_reconciled; [done|]. by apply (sub_runs_call T (SSubscription (at_tx o) shown (at_opID o) actorID mutation a)). Qed.

Lemma term_status_expired now1 now2 startsAt expiresAt :
  term_status now1 now2 startsAt expiresAt = SubscriptionExpired -> exists e, expiresAt = Some e /\ e <= now2.
Proof.
  unfold term_status. destruct (now1 <? startsAt); [done|]. destruct expiresAt as [e|]; [|done]. destruct (now2 <? e) eqn:He; [done|].
  intros _. exists e. split; [done|]. by apply Z.ltb_ge in He.
Qed.

Lemma sub_op_runs T op s : op_ok T op -> sub_runs T s (sub_op op s).
Proof.
  destruct op as [o newPlanID newVersionID actor draft request|o actor id status request|o newID wall shown actor input request
    |o clock now1 now2 shown actor change request|o clock shown actor id status expected request|m]; simpl; intros Ho.
  - unfold PublishPlan. destruct (administrator actor); simpl; [|done]. cbv zeta. case_match eqn:Hb; [done|]. destruct (makeMutation _ _ _); [|done].
    apply sub_runs_plan; [done|]. simpl. intros Hnil. by rewrite Hnil, orb_true_r in Hb.
  - unfold SetPlanStatus. destruct (administrator actor); simpl; [|done]. case_match; [done|]. destruct (makeMutation _ _ _); [|done]. by apply sub_runs_plan.
  - unfold CreateSubscription. destruct (administrator actor); simpl; [|done]. case_match; [done|]. destruct (makeMutation _ _ _); [|done].
    by apply sub_runs_subscription.
  - destruct Ho as [Ho Hn]. unfold UpdateSubscription. destruct (administrator actor); simpl; [|done]. case_match; [done|].
    destruct (makeMutation _ _ _); [|done]. apply sub_runs_subscription; [done|]. simpl. intros (e & He & Hle)%term_status_expired. exists e. split; [done|lia].
  - unfold SetSubscriptionStatus. destruct (administrator actor); simpl; [|done]. case_match eqn:Hb; [done|]. destruct (makeMutation _ _ _); [|done].
    apply sub_runs_subscription; [done|]. simpl. intros ->. apply orb_false_iff in Hb as [_ Hb]. by vm_compute in Hb.
  - by apply (sub_runs_call T (SMarket m)).
Qed.

Lemma sub_ops_runs T ops s : Forall (op_ok T) ops -> sub_runs T s (sub_ops ops s).
Proof.
  intros H. revert s. induction H as [|op ops Ho _ IH]; intros s; [done|]. etrans; [by apply sub_op_runs|apply IH].
Qed.

Lemma sub_reached_runs T s : sub_reached T s -> exists m, sub_runs T (empty_sub m) s.
Proof. induction 1 as [m|op s _ [m IH] Ho]; [by exists m|]. exists m. etrans; [exact IH|]. by apply sub_op_runs. Qed.

Lemma empty_sub_wf m : sub_wf (empty_sub m).
Proof. split; simpl; intros *; by rewrite lookup_empty. Qed.

Lemma sub_reached_wf T s : sub_reached T s -> sub_wf s.
Proof. intros (m & calls & Hi & ->)%sub_reached_runs. by apply (sub_history_sound collate stored_time T calls (empty_sub m)), empty_sub_wf. Qed.

Lemma sub_reached_expired T s : (forall t, stored_time t <= t) -> sub_reached T s -> expired_by T s.
Proof. intros Hle (m & calls & Hi & ->)%sub_reached_runs. apply expired_history; [done..|]. intros id x. simpl. by rewrite lookup_empty. Qed.
End service.

(** ** Subscriptions change safely *)

(** The subscription an edit names with the time it expects, and what the edit
    makes of a row. *)
Definition edit_of (a : SubscriptionApply) : option (UUID * Z) :=
  match a with
  | ApplyAssign _ _ _ => None
  | ApplyTerm _ change _ => Some (ScID change, ScExpectedUpdatedAt change)
  | ApplySubscriptionStatus _ id _ expected => Some (id, expected)
  end.

Definition edited (stored_time : Z -> Z) (now : Z) (a : SubscriptionApply) (x : SubscriptionRecord) : SubscriptionRecord :=
  match a with
  | ApplyAssign _ _ _ => x
  | ApplyTerm clock change status => put_term stored_time clock (ScStartsAt change) (ScExpiresAt_ change) (ScNotes change) status x
  | ApplySubscriptionStatus clock _ status _ => put_status clock now status x
  end.

Lemma edit_exec collate stored_time t shown opID actorID mutation a s id expected x :
  edit_of a = Some (id, expected) -> sb_subscriptions s !! id = Some x ->
  let s' := sub_exec collate stored_time (SSubscription t shown opID actorID mutation a) s in
  sb_subscriptions s' !! id = Some x \/
  (may_change stored_time expected x = true /\ sb_subscriptions s' !! id = Some (edited stored_time (tx_now t) a x)).
Proof.
  intros He Hx s'. destruct (subscription_exec_inv collate stored_time t shown opID actorID mutation a s) as [Heq|(id' & y & s1 & Hc & Hsub & _ & Hc')].
  { left. subst s'. by rewrite Heq. }
  fold s' in Hc'. rewrite (core_subscriptions _ _ Hc'). simpl. rewrite (core_subscriptions _ _ Hc) in *. right.
  destruct a as [|clock change status|clock id0 status e]; [done|..]; injection He as <- <-; destruct Hsub as (-> & x0 & Hx0 & Hg & ->);
    rewrite (core_subscriptions _ _ Hc), Hx in Hx0; injection Hx0 as <-; split; [done|apply lookup_insert_eq|done|apply lookup_insert_eq].
Qed.

(** C38. Whatever the service does meanwhile, a subscription stays that of its
    member and of its plan version, whose routes stay the same when new
    versions are published; canceled, it never changes again; and as long as
    its time of update is the same, so is all of it.  An edit that names the
    time of update it was made for changes the row that was seen, and never
    one that was edited in between. *)
Theorem subscriptions_change_safely payload_digest collate stored_time T s id x ops :
  sub_reached payload_digest collate stored_time T s -> Forall (op_ok T) ops -> sb_subscriptions s !! id = Some x ->
  let s' := sub_ops payload_digest collate stored_time ops s in
  exists x', sb_subscriptions s' !! id = Some x' /\
    (SbID x', SbUserID x', SbVersionID x') = (id, SbUserID x, SbVersionID x) /\
    sb_versions s' !! SbVersionID x = sb_versions s !! SbVersionID x /\
    (forall m, sb_routes s' !! (SbVersionID x, m) = sb_routes s !! (SbVersionID x, m)) /\
    (SbStatus x = SubscriptionCanceled -> x' = x) /\
    (SbUpdatedAt x' = SbUpdatedAt x -> x' = x) /\
    forall t shown opID actorID mutation a expected,
      edit_of a = Some (id, expected) -> stored_time expected = SbUpdatedAt x ->
      let s'' := sub_exec collate stored_time (SSubscription t shown opID actorID mutation a) s' in
      sb_subscriptions s'' !! id = Some x' \/ (x' = x /\ sb_subscriptions s'' !! id = Some (edited stored_time (tx_now t) a x)).
Proof.
  intros Hs Hops Hx s'. apply sub_reached_wf in Hs as Hwf. destruct (sub_ops_runs payload_digest collate stored_time T ops s Hops) as (calls & Hi & Heq).
  destruct (sub_history_sound collate stored_time T calls s Hi Hwf) as [_ Hm]. rewrite <- Heq in Hm. fold s' in Hm.
  destruct (mv_subscriptions _ _ Hm id x Hx) as (x' & Hx' & [Hf Hc Hl]). exists x'. destruct (sw_subscriptions s Hwf _ _ Hx) as (Hid & _ & [v Hv]).
  assert (Hsame : SbUpdatedAt x' = SbUpdatedAt x -> x' = x) by (intros H; destruct Hl as [|]; [done|lia]).
  split_and!; [done|congruence| | |done|done|].
  - rewrite Hv. by apply (lookup_weaken _ _ _ _ Hv), Hm.
  - intros m. apply Hm. eauto.
  - intros t shown opID actorID mutation a expected He Hst s''. destruct (edit_exec collate stored_time t shown opID actorID mutation a s' id expected x' He Hx')
      as [|[[_ Hg%Z.eqb_eq]%andb_true_iff Hed]]; [by left|]. right. assert (x' = x) as -> by (apply Hsame; congruence). done.
Qed.

(** ** The status that is shown *)

(** A subscription as accounting and routing see it. *)
Definition subscription_view (x : SubscriptionRecord) : SubscriptionRow :=
  mkSubscriptionRow (SbUserID x) (SbVersionID x) (SbStatus x) (SbStartsAt x) (SbExpiresAt x) (SbCreatedAt x).

(** A directory over the tables of the store. *)
Record directory_of (s : SubStore) (d : Directory) : Prop := {
  do_subscriptions : dr_subscriptions d = subscription_view <$> sb_subscriptions s;
  do_routes v m p : (v, m, p) ∈ dr_plan_routes d <-> sb_routes s !! (v, m) = Some p;
}.

Lemma shown_effective now x v p u routes : SnStatus (subscriptionFromParts now (x, v, p, u) routes) = effective_status now x.
Proof.
  unfold subscriptionFromParts, effective_status. simpl. destruct (SbStatus x); simpl; try done;
    (destruct (SbExpiresAt x) as [e|]; [destruct (e <=? now) eqn:H1, (now <? e) eqn:H2; [lia|done..|lia]|done]).
Qed.

Lemma effective_in_force T now s id x :
  expired_by T s -> T <= now -> sb_subscriptions s !! id = Some x ->
  effective_status now x = SubscriptionActive <-> in_force now [SubscriptionScheduled; SubscriptionActive] (subscription_view x) = true.
Proof.
  intros He HT Hx. specialize (He id x Hx). unfold effective_status, in_force, not_past. simpl.
  destruct (SbStatus x) eqn:Hst; simpl.
  1, 2: destruct (SbExpiresAt x) as [e|]; rewrite ?andb_true_r;
    [destruct (e <=? now) eqn:H1, (now <? e) eqn:H2, (now <? SbStartsAt x) eqn:H3, (SbStartsAt x <=? now) eqn:H4; naive_solver lia
    |destruct (now <? SbStartsAt x) eqn:H3, (SbStartsAt x <=? now) eqn:H4; naive_solver lia].
  1, 2: done.
  destruct He as (e & -> & Hle); [done|]. rewrite (proj2 (Z.leb_le e now)) by lia. done.
Qed.

(** C39. The status a subscription is shown with is the one it is selected by,
    and the one that counts: at any time after the edits, a request of the
    member for a model may use the subscription, for a pool, when it is shown
    as active, its version sends the model to the pool and the pool is active,
    and only then. *)
Theorem shown_status_counts payload_digest collate stored_time T s d c st userID modelID id pool :
  (forall t, stored_time t <= t) -> sub_reached payload_digest collate stored_time T s ->
  directory_of s d -> st_dir st = d -> cn_fault c = None -> T <= cn_now c ->
  (forall x v p u routes, SnStatus (subscriptionFromParts (cn_now c) (x, v, p, u) routes) = effective_status (cn_now c) x) /\
  ((exists routes, GetApplicableSubscriptionRoutesForUpdate c userID modelID st = Ok routes /\ (id, pool) ∈ routes) <->
   (exists x, sb_subscriptions s !! id = Some x /\ SbUserID x = userID /\ effective_status (cn_now c) x = SubscriptionActive /\
              sb_routes s !! (SbVersionID x, modelID) = Some pool /\ pool_active d pool = true)).
Proof.
  intros Hle Hs [Hsub Hroutes] <- Hc HT. pose proof (sub_reached_expired _ _ _ _ _ Hle Hs) as He. split; [intros; apply shown_effective|]. split.
  - intros (routes & Hq & Hin). destruct (applicable_spec c userID modelID st routes id pool Hq Hin) as (x & Hx & Hu & Hf & Hr & Hp).
    rewrite Hsub, lookup_fmap in Hx. apply fmap_Some in Hx as (x0 & Hx0 & ->). exists x0. split_and!; [done|done| |by apply Hroutes in Hr|done].
    by eapply effective_in_force.
  - intros (x & Hx & Hu & Heff & Hr & Hp). apply (applicable_complete c userID modelID st id (subscription_view x) pool); [done| |done| | |done].
    + by rewrite Hsub, lookup_fmap, Hx.
    + by eapply effective_in_force.
    + by apply Hroutes.
Qed.

(** ** Versions *)

(** In every store the service reaches, a plan has a current version, of
    the plan, with the highest number; its versions are numbered from 1 to
    that number without gaps or repetitions, a number that fits 32 bits; every
    version has a route and every subscription a version. *)
Theorem plan_versions_numbered payload_digest collate stored_time T s :
  sub_reached payload_digest collate stored_time T s ->
  (forall planID p, sb_plans s !! planID = Some p ->
     exists vid v, PlCurrentVersionID p = Some vid /\ sb_versions s !! vid = Some v /\ VrPlanID v = planID /\ VrVersion v <= 2 ^ 31 - 1 /\
       (forall k, 1 <= k <= VrVersion v <-> exists i w, sb_versions s !! i = Some w /\ VrPlanID w = planID /\ VrVersion w = k) /\
       (forall i j w w', sb_versions s !! i = Some w -> sb_versions s !! j = Some w' -> VrPlanID w = planID -> VrPlanID w' = planID ->
          VrVersion w = VrVersion w' -> i = j)) /\
  (forall vid, is_Some (sb_versions s !! vid) <-> exists m pool, sb_routes s !! (vid, m) = Some pool) /\
  (forall id x, sb_subscriptions s !! id = Some x -> is_Some (sb_versions s !! SbVersionID x)).
Proof.
  intros Hwf%sub_reached_wf. split_and!.
  - intros planID p Hp. destruct (sw_plans s Hwf _ _ Hp) as (_ & vid & v & Hc & Hv & Hpl & Hmax). destruct (sw_versions s Hwf _ _ Hv) as (_ & [_ ?] & _).
    exists vid, v. split_and!; [done..| |].
    + intros k. split.
      * intros Hk. rewrite <- Hpl. apply (sw_gapless s Hwf vid); [done|lia].
      * intros (i & w & Hw & Hwp & <-). destruct (sw_versions s Hwf _ _ Hw) as (_ & [? _] & _). specialize (Hmax i w Hw Hwp). lia.
    + intros i j w w' Hi Hj Hw Hw' Hn. apply (sw_numbers s Hwf i j w w'); congruence.
  - intros vid. split; [apply (sw_served s Hwf)|]. intros (m & pool & Hr). by eapply sw_routes.
  - intros id x Hx. by destruct (sw_subscriptions s Hwf _ _ Hx) as (_ & _ & ?).
Qed.

(** ** Records of mutations *)

Definition mutation_key {R} (m : MutationRecord R) : UUID * string * UUID := (MnActorUserID m, MnAction m, MnIdempotencyKey m).

(** A call adds at most one record, under a key that was not used. *)
Definition plan_records_move (s s' : SubStore) : Prop :=
  unique_on (λ _, true) mutation_key (sb_plan_mutations s) ->
  unique_on (λ _, true) mutation_key (sb_plan_mutations s') /\ sb_plan_mutations s ⊆ sb_plan_mutations s'.

#[export] Instance plan_records_move_preorder : PreOrder plan_records_move.
Proof.
  split; [by intros s|]. intros s1 s2 s3 H12 H23 H1. destruct (H12 H1) as [H2 M2]. destruct (H23 H2) as [H3 M3]. split; [done|by etrans].
Qed.

Lemma plan_record_add s s' opID m :
  find_row (same_mutation (MnActorUserID m) (MnAction m) (MnIdempotencyKey m)) (sb_plan_mutations s) = None -> sb_plan_mutations s !! opID = None ->
  sb_plan_mutations s' = <[opID := m]> (sb_plan_mutations s) -> plan_records_move s s'.
Proof.
  intros Hf Hn Heq Hu. rewrite Heq. split; [|by apply insert_subseteq]. apply unique_on_insert; [done|]. intros j m' _ Hm' _ _ Hk.
  pose proof (find_row_None _ _ _ _ Hf Hm') as Hx. apply not_true_iff_false in Hx. by apply Hx, same_mutation_spec.
Qed.

Section records.
Context (collate : string -> string -> comparison) (stored_time : Z -> Z).

Definition same_plan_records (s s' : SubStore) : Prop := sb_plan_mutations s' = sb_plan_mutations s.
#[local] Instance same_plan_records_preorder : PreOrder same_plan_records.
Proof. split; [done|]. unfold same_plan_records. intros ? ? ? ? ?. congruence. Qed.

Lemma subscription_body_records shown opID actorID mutation a :
  tx_rel same_plan_records (subscription_body collate stored_time shown opID actorID mutation a).
Proof.
  assert (Hap : tx_rel same_plan_records (apply_subscription collate stored_time shown actorID a)).
  { intros t n s. pose proof (books_apply_subscription collate stored_time shown actorID a t n s) as H. unfold same_books, books in H. by injection H. }
  assert (H1 : forall id b c d e f, query_rel same_plan_records (claim_mutation subscription_book id b c d e f)).
  { intros * c s. unfold claim_mutation. case_match; [|done]. by destruct (insert_one _ _ _ _ _). }
  assert (H2 : forall e, query_rel same_plan_records (create_audit e)) by (intros e c s; unfold create_audit; by repeat case_match).
  assert (H3 : forall x y z, query_rel same_plan_records (complete_mutation subscription_book x y z)).
  { intros * c s. unfold complete_mutation. by destruct (update_one _ _ _ _ _ _). }
  unfold subscription_body, execute_body, mutation_lookup, get_mutation, squery, squery_raw. rel_steps; eauto 4 with idtx.
Qed.

Lemma plan_records_exec call s : plan_records_move s (sub_exec collate stored_time call s).
Proof.
  destruct call as [t opID actorID mutation a|t shown opID actorID mutation a|m]; [| |done]; simpl.
  - destruct (run_with _ _ t s) as [r s'] eqn:Hr. apply run_with_inv in Hr as [(plan & n & Hb & _)|[-> _]]; [|done].
    apply execute_finished in Hb as (Hf & Hn & _ & Hrows & _); [|apply _|apply books_apply_plan].
    by eapply (plan_record_add s s' opID (mutation_done plan_book opID actorID mutation (tx_now t) plan)).
  - pose proof (rel_run_with SDatabase _ t s (subscription_body_records shown opID actorID mutation a)) as H. unfold same_plan_records in H.
    intros Hu. by rewrite H.
Qed.

Lemma plan_records_history calls s : plan_records_move s (sub_history collate stored_time calls s).
Proof. revert s. induction calls as [|call calls IH]; intros s; simpl; [done|]. etrans; [apply plan_records_exec|apply IH]. Qed.
End records.

Lemma reached_records payload_digest collate stored_time T s :
  sub_reached payload_digest collate stored_time T s -> unique_on (λ _, true) mutation_key (sb_plan_mutations s).
Proof.
  intros (m & calls & _ & ->)%sub_reached_runs. apply (plan_records_history collate stored_time calls (empty_sub m)).
  intros i j r r' Hi. simpl in Hi. by rewrite lookup_empty in Hi.
Qed.

(** ** Published plans *)

(** The foreign keys of the tables that are only read. *)
Definition market_wf (m : Market) : Prop :=
  forall pool model, (pool, model) ∈ mk_pool_models m -> is_Some (mk_models m !! model) /\
    exists p, mk_pools m !! pool = Some p /\ is_Some (mk_providers m !! PrProviderID p).

Definition route_pair (r : PlanRoute) : UUID * UUID := (PtModelID r, PtResourcePoolID r).

Lemma named_route_pair m model pool : market_wf m -> (pool, model) ∈ mk_pool_models m -> exists r, named_route m model pool = Some r /\ route_pair r = (model, pool).
Proof.
  intros Hm Hin. destruct (Hm _ _ Hin) as ([x Hx] & p & Hp & [q Hq]). unfold named_route. rewrite Hx, Hp, Hq. by eexists.
Qed.

Lemma named_route_inv m model pool r : named_route m model pool = Some r -> route_pair r = (model, pool).
Proof. unfold named_route. repeat case_match; try done. by intros [= <-]. Qed.

Lemma version_routes_elem s v r :
  r ∈ version_routes s v -> sb_routes s !! (v, PtModelID r) = Some (PtResourcePoolID r).
Proof.
  unfold version_routes. rewrite list_elem_of_omap. intros ([[v' m] p] & Hin & Hr). apply elem_of_map_to_list in Hin. case_bool_decide; [|done]. subst v'.
  apply named_route_inv in Hr as [= -> ->]. done.
Qed.

Lemma version_routes_nodup s v : NoDup (PtModelID <$> version_routes s v).
Proof.
  unfold version_routes. pose proof (NoDup_fst_map_to_list (sb_routes s)) as Hnd. revert Hnd.
  induction (map_to_list (sb_routes s)) as [|[[v' m] p] l IH]; simpl; [constructor|]. intros [Hni Hnd]%NoDup_cons. specialize (IH Hnd).
  case_bool_decide as Hv; [|done]. subst v'. destruct (named_route (sb_market s) m p) as [r|] eqn:Hr; [|done]. simpl. constructor; [|done].
  intros (r' & Heq & Hin)%list_elem_of_fmap. apply list_elem_of_omap in Hin as ([[v' m'] p'] & Hin & Hr'). case_bool_decide; [|done]. subst v'.
  apply named_route_inv in Hr as [= Hm _]. apply named_route_inv in Hr' as [= Hm' _]. apply Hni, list_elem_of_fmap. exists (v, m', p').
  split; [|done]. simpl. congruence.
Qed.

(** The routes of a published version are those of the draft. *)
Lemma published_routes draft planID versionID actorID now s s' :
  publication draft planID versionID actorID now s s' -> sub_wf s -> market_wf (sb_market s) ->
  route_pair <$> version_routes s' versionID ≡ₚ route_pair <$> DfRoutes draft.
Proof.
  intros Hpub Hwf Hm. pose proof (pu_rest _ _ _ _ _ _ _ Hpub) as [= _ Hmk].
  assert (Hlook : forall m p, sb_routes s' !! (versionID, m) = Some p <-> (m, p) ∈ route_pair <$> DfRoutes draft).
  { intros m p. rewrite (pu_routes _ _ _ _ _ _ _ Hpub), add_routes_lookup by apply Hpub. rewrite bool_decide_eq_true_2 by done.
    destruct (list_find _ (DfRoutes draft)) as [[i r]|] eqn:Hf.
    - apply list_find_Some in Hf as (Hi & <- & _). split.
      + intros [= <-]. apply list_elem_of_fmap. exists r. split; [done|]. by eapply list_elem_of_lookup_2.
      + intros (r' & [= Hmod ->] & Hin)%list_elem_of_fmap. apply list_elem_of_lookup in Hin as [j Hj]. f_equal. f_equal.
        pose proof (pu_nodup _ _ _ _ _ _ _ Hpub) as Hnd. assert (i = j) as ->; [|congruence]. apply (NoDup_lookup _ i j (PtModelID r) Hnd).
        * by rewrite list_lookup_fmap, Hi.
        * rewrite list_lookup_fmap, Hj. simpl. congruence.
    - apply list_find_None in Hf. split.
      + intros Hr. apply (sw_routes s Hwf) in Hr. by rewrite (pu_fresh _ _ _ _ _ _ _ Hpub) in Hr; destruct Hr.
      + intros (r' & [= -> _] & Hin)%list_elem_of_fmap. rewrite Forall_forall in Hf. by destruct (Hf r' Hin). }
  apply NoDup_Permutation.
  - apply (NoDup_fmap_1 fst). rewrite <- list_fmap_compose. apply version_routes_nodup.
  - apply (NoDup_fmap_1 fst). rewrite <- list_fmap_compose. apply Hpub.
  - intros [m p]. rewrite <- Hlook. split.
    + intros (r & [= -> ->] & Hr)%list_elem_of_fmap. by apply version_routes_elem.
    + intros Hr. apply Hlook in Hr as Hd. apply list_elem_of_fmap in Hd as (r & [= -> ->] & Hin).
      pose proof (pu_models _ _ _ _ _ _ _ Hpub) as Hall. rewrite Forall_forall in Hall. destruct (Hall r Hin) as [_ Hpm].
      destruct (named_route_pair _ _ _ Hm Hpm) as (q & Hq & Hpair). apply list_elem_of_fmap. exists q. split; [done|].
      apply list_elem_of_omap. exists ((versionID, PtModelID r), PtResourcePoolID r). split; [by apply elem_of_map_to_list|].
      by rewrite bool_decide_eq_true_2, Hmk.
Qed.

Section publishing.
Context (payload_digest : SubPayload -> option bytes) (collate : string -> string -> comparison) (stored_time : Z -> Z).

(** What is not refused is one mutation of a draft without surrounding spaces. *)
Lemma PublishPlan_inv o newPlanID newVersionID actor draft request s plan s1 :
  PublishPlan payload_digest collate stored_time o newPlanID newVersionID actor draft request s = (Ok plan, s1) ->
  exists draft' mutation,
    (DfID draft', DfName draft', DfDescription draft', DfRoutes draft') =
    (DfID draft, TrimSpace (DfName draft), TrimSpace (DfDescription draft), DfRoutes draft) /\
    MtIdempotencyKey mutation = MqIdempotencyKey request /\
    forall o newPlanID newVersionID s, PublishPlan payload_digest collate stored_time o newPlanID newVersionID actor draft request s =
      executePlanMutation collate stored_time o (PnUserID actor) mutation (ApplyPublish newPlanID newVersionID draft') s.
Proof.
  unfold PublishPlan. destruct (administrator actor); [|done]. cbn [negb]. cbv zeta. case_match; [done|].
  set (draft' := mkPlanDraft _ _ _ _ _). destruct (makeMutation _ _ _) as [mutation|e] eqn:Hm; [|done]. intros _. exists draft', mutation.
  split_and!; [done| |done]. unfold makeMutation in Hm. case_match; [done|]. destruct (payload_digest _); [|done]. by injection Hm as <-.
Qed.

Lemma publication_core draft planID versionID actorID now s s1 s2 s' :
  core s1 = core s -> core s' = core s2 -> publication draft planID versionID actorID now s1 s2 -> publication draft planID versionID actorID now s s'.
Proof.
  destruct s, s1, s2, s'. unfold core. simpl. intros [= -> -> -> -> ->] [= -> -> -> -> ->] []. by split.
Qed.

(** What a publication that was applied leaves. *)
Lemma publish_finished opID actorID mutation newPlanID newVersionID draft t n s plan n' s' :
  plan_body collate opID actorID mutation (ApplyPublish newPlanID newVersionID draft) t n s = (Ok (Finish plan), n', s') ->
  publication draft (draft_id newPlanID draft) newVersionID actorID (tx_now t) s s' /\
  sb_plan_mutations s' !! opID = Some (mutation_done plan_book opID actorID mutation (tx_now t) plan) /\ length (MtRequestFingerprint mutation) = 32%nat /\
  exists p, sb_plans s' !! draft_id newPlanID draft = Some p /\
    plan = plan_of p ((λ v, version_of v (merge_sort (plan_route_order collate) (version_routes s' (VrID v)))) <$> current_version s' p).
Proof.
  intros Hb. apply execute_finished in Hb as (_ & _ & Hlen & Hrows & n1 & s1 & n2 & s2 & Hc & Ha & Hc'); [|apply _|apply books_apply_plan].
  apply publish_inv in Ha as (Hpub & p & Hp & ->). split; [by eapply publication_core|]. split; [|split; [done|]].
  - change (sb_plan_mutations s') with (bk_rows plan_book s'). rewrite Hrows. apply lookup_insert_eq.
  - exists p. unfold core in Hc'. unfold current_version, version_routes in *. injection Hc' as -> -> -> _ ->. done.
Qed.

(** A recorded result is answered again, and nothing is done. *)
Lemma plan_replay o actorID mutation a s opID now plan :
  unique_on (λ _, true) mutation_key (sb_plan_mutations s) ->
  sb_plan_mutations s !! opID = Some (mutation_done plan_book opID actorID mutation now plan) -> length (MtRequestFingerprint mutation) = 32%nat ->
  tx_begin (at_tx o) = None -> (forall n, tx_fault (at_tx o) n = None) ->
  executePlanMutation collate stored_time o actorID mutation a s = (Ok plan, s).
Proof.
  intros Hu Hrec Hlen Hb Hf. unfold executePlanMutation, run_with, plan_body. rewrite Hb.
  rewrite (execute_replay plan_book (at_opID o) actorID mutation _ (at_tx o) s (mutation_done plan_book opID actorID mutation now plan)); [|..|done|done|done].
  - unfold mutation_result. simpl. by rewrite !bool_decide_eq_true_2.
  - apply (find_row_unique _ _ opID); [done|by apply same_mutation_spec|]. intros j m Hj Hs. apply same_mutation_spec in Hs. by eapply Hu.
Qed.
(** A mutation under a key that was not used, whose commit succeeded. *)
Lemma publish_committed o actorID mutation a s plan s' :
  tx_commit (at_tx o) = Committed ->
  (forall id m, sb_plan_mutations s !! id = Some m -> (MnActorUserID m, MnIdempotencyKey m) <> (actorID, MtIdempotencyKey mutation)) ->
  executePlanMutation collate stored_time o actorID mutation a s = (Ok plan, s') ->
  s' = sub_exec collate stored_time (SPlan (at_tx o) (at_opID o) actorID mutation a) s /\
  exists n, plan_body collate (at_opID o) actorID mutation a (at_tx o) 0%nat s = (Ok (Finish plan), n, s').
Proof.
  intros Hcommit Hkey. unfold executePlanMutation. cbn [sub_exec]. unfold run_with. rewrite Hcommit. destruct (tx_begin (at_tx o)); [done|].
  destruct (plan_body _ _ _ _ _ _ _ _) as [[[[x|x]|e] n] s1] eqn:Hb; [|intros [= -> ->]|done].
  - intros [= -> ->]. split; [done|]. by exists n.
  - apply execute_left in Hb as (m & [Hsame [i Hi]]%find_row_Some & _); [|apply _]. apply same_mutation_spec in Hsame as [= Ha _ Hk].
    by destruct (Hkey i m Hi); rewrite Ha, Hk.
Qed.
End publishing.


(** ** Concrete runs *)

Definition sample_digest (p : SubPayload) : option bytes :=
  Some (replicate 32 (match p with PayloadPlan _ => "p" | PayloadPlanStatus _ _ => "s" | PayloadAssign _ => "a" | PayloadTerm _ => "t"
                      | PayloadSubscriptionStatus _ _ _ => "u" end)%char).

Definition sample_user (id : UUID) (role : UserRole) : UserRecord := mkUserRecord id (id +:+ "@example.com") id "" role UserActive None None 0 0.

(** Two models in a pool of a provider. *)
Definition sample_market : Market :=
  mkMarket {["admin" := sample_user "admin" UserAdministrator; "ann" := sample_user "ann" UserMember]}
    {["m1" := mkModelRow "pv" "zeta" "zeta" "" 0; "m2" := mkModelRow "pv" "alpha" "alpha" "" 0]}
    {["p1" := mkPoolRow "pv" "Pool" "pool" ResourceActive]} {["pv" := mkProviderRow "Provider" "pv" "kimi" "https://example.org"]}
    {[("p1", "m1"); ("p1", "m2")]}.

Definition sample_admin : Principal := mkPrincipal "session" "admin" "admin@example.com" "admin" UserAdministrator UserActive [] 0.

Definition sample_conn (now : Z) : Conn := mkConn now None (λ _, false).
Definition sample_attempt (now : Z) (opID : UUID) : Attempt :=
  mkAttempt (mkTx now None (λ _, None) (λ _, false) Committed) (mkTurn [] (sample_conn now)) [] opID.

Definition sample_draft (id : UUID) (models : list UUID) : PlanDraft :=
  mkPlanDraft id "" " Basic " "" ((λ m, mkPlanRoute m "" "p1" "" "" "") <$> models).

Abbreviation sample_publish := (PublishPlan sample_digest String.compare truncated).
Abbreviation sample_ops := (sub_ops sample_digest String.compare truncated).
Abbreviation sample_reached := (sub_reached sample_digest String.compare truncated 6000).

Definition sample_created : SubOp := OPublish (sample_attempt 1000 "op1") "plan" "v1" sample_admin (sample_draft uuid_Nil ["m1"; "m2"]) (mkMutationRequest "k1" "r1").
Definition sample_assigned : SubOp :=
  OAssign (sample_attempt 2000 "op2") "sub" 2000 2000 sample_admin (mkNewSubscription "ann" "plan" 2000 (Some 80000) "") (mkMutationRequest "k2" "r2").
Definition sample_suspended : SubOp :=
  OStatus (sample_attempt 3000 "op3") 3000 3000 sample_admin "sub" SubscriptionSuspended 2000 (mkMutationRequest "k3" "r3").
Definition sample_republished : SubOp := OPublish (sample_attempt 4000 "op4") "other" "v2" sample_admin (sample_draft "plan" ["m2"]) (mkMutationRequest "k4" "r4").
Definition sample_noted (expected : Z) : SubOp :=
  OTerm (sample_attempt 5000 "op5") 5000 5000 5000 5000 sample_admin (mkSubscriptionChange "sub" 2000 (Some 80000) "note" expected)
    (mkMutationRequest "k5" "r5").

Definition sample_store : SubStore := sample_ops [sample_created; sample_assigned] (empty_sub sample_market).

Lemma sample_attempt_ok T now opID : attempt_ok T (sample_attempt now opID).
Proof. repeat constructor. Qed.

Lemma sample_store_reached : sample_reached sample_store.
Proof.
  unfold sample_store, sub_ops. cbn [foldl]. apply sub_reached_op; [apply sub_reached_op; [apply sub_reached_empty|]|]; apply sample_attempt_ok.
Qed.

Lemma sample_market_wf : market_wf sample_market.
Proof.
  intros pool model H. apply elem_of_union in H as [H|H]; apply elem_of_singleton in H as [= -> ->];
    (split; [eexists; vm_compute; reflexivity|]; eexists; split; [vm_compute; reflexivity|]; eexists; vm_compute; reflexivity).
Qed.

Lemma truncated_le t : truncated t <= t.
Proof. unfold truncated. pose proof (Z.mod_pos_bound t 1000). lia. Qed.

(** The subscription that was assigned. *)
Definition sample_row : SubscriptionRecord :=
  mkSubscriptionRecord "sub" "ann" "v1" SubscriptionActive 2000 (Some 80000) "" "admin" None None 2000 2000.

Lemma sample_row_there : sb_subscriptions sample_store !! "sub" = Some sample_row.
Proof. vm_compute. reflexivity. Qed.

(** Two edits made for the same row: the second finds it changed. *)
Lemma subscriptions_change_safely_witness :
  let s' := sample_ops [sample_suspended; sample_republished] sample_store in
  (forall m, sb_routes s' !! ("v1", m) = sb_routes sample_store !! ("v1", m)) /\
  (exists x', sb_subscriptions s' !! "sub" = Some x' /\ SbStatus x' = SubscriptionSuspended) /\
  sb_subscriptions (sample_ops [sample_suspended; sample_noted 2000] sample_store) !! "sub" = sb_subscriptions (sample_ops [sample_suspended] sample_store) !! "sub".
Proof.
  intros s'. split_and!; [|eexists; split; vm_compute; reflexivity|vm_compute; reflexivity].
  assert (Hops : Forall (op_ok 6000) [sample_suspended; sample_republished]) by (repeat apply Forall_cons_2; try apply sample_attempt_ok; apply Forall_nil_2).
  destruct (subscriptions_change_safely sample_digest String.compare truncated 6000 sample_store "sub" sample_row [sample_suspended; sample_republished]
    sample_store_reached Hops sample_row_there) as (x' & _ & _ & _ & H & _). exact H.
Defined.

(** The tables as routing reads them. *)
Definition sample_directory : Directory :=
  mkDirectory {["ann" := mkUserRow UserMember UserActive "ann" "ann@example.com"]} ∅ ∅ (subscription_view <$> sb_subscriptions sample_store)
    {[("v1", "m1", "p1"); ("v1", "m2", "p1")]} (mk_pools sample_market) (mk_models sample_market) (mk_providers sample_market) ∅ ∅.
Definition sample_requests : Store := mkStore ∅ ∅ ∅ sample_directory.

Lemma sample_directory_of : directory_of sample_store sample_directory.
Proof.
  split; [reflexivity|]. intros v m p. unfold sample_directory. simpl. rewrite elem_of_union, !elem_of_singleton.
  assert (Hr : sb_routes sample_store = {[("v1", "m1") := "p1"; ("v1", "m2") := "p1"]}) by (vm_compute; reflexivity). rewrite Hr.
  split; [intros [[= -> -> ->]|[= -> -> ->]]; vm_compute; reflexivity|]. rewrite lookup_insert_Some, lookup_singleton_Some.
  intros [[[= <- <-] <-]|[_ [[= <- <-] <-]]]; [by left|by right].
Qed.

Lemma shown_status_counts_witness :
  effective_status 6000 sample_row = SubscriptionActive /\
  exists routes, GetApplicableSubscriptionRoutesForUpdate (sample_conn 6000) "ann" "m1" sample_requests = Ok routes /\ ("sub", "p1") ∈ routes.
Proof.
  split; [vm_compute; reflexivity|].
  apply (shown_status_counts sample_digest String.compare truncated 6000 sample_store sample_directory (sample_conn 6000) sample_requests "ann" "m1" "sub" "p1"
    truncated_le sample_store_reached sample_directory_of eq_refl eq_refl ltac:(simpl; lia)).
  exists sample_row. split; [exact sample_row_there|]. repeat (split; [vm_compute; reflexivity|]). vm_compute. reflexivity.
Defined.

Lemma plan_versions_numbered_witness :
  exists p vid v, sb_plans sample_store !! "plan" = Some p /\ PlCurrentVersionID p = Some vid /\ sb_versions sample_store !! vid = Some v /\ VrVersion v <= 2 ^ 31 - 1.
Proof.
  destruct (plan_versions_numbered sample_digest String.compare truncated 6000 sample_store sample_store_reached) as [H _].
  destruct (sb_plans sample_store !! "plan") as [p|] eqn:Hp; [|vm_compute in Hp; discriminate Hp].
  destruct (H "plan" p Hp) as (vid & v & Hc & Hv & _ & Hn & _). exists p, vid, v. repeat (split; [done|]). exact Hn.
Defined.

Definition sample_published : result SubError ServicePlan * SubStore :=
  sample_publish (sample_attempt 4000 "op4") "other" "v2" sample_admin (sample_draft "plan" ["m2"]) (mkMutationRequest "k4" "r4") sample_store.
Definition sample_plan : ServicePlan :=
  mkServicePlan "plan" "plan-k1" "Basic" "" PlanActive (Some (mkPlanVersion "v2" 2 [mkPlanRoute "m2" "alpha" "p1" "Pool" "pool" "Provider"] 4000)) 0 1000 4000.


(** A change of the notes lifts a suspension. *)
Example term_edit_lifts_suspension :
  SbStatus <$> sb_subscriptions (sample_ops [sample_suspended] sample_store) !! "sub" = Some SubscriptionSuspended /\
  SbStatus <$> sb_subscriptions (sample_ops [sample_suspended; sample_noted 3000] sample_store) !! "sub" = Some SubscriptionActive.
Proof. split; vm_compute; reflexivity. Qed.

(** After a new version is published, the list of plans counts no active
    subscription, although the one of the earlier version is. *)
Example earlier_versions_not_counted :
  (match (Sub_ListPlans String.compare truncated (mkTurn [] (sample_conn 6000)) (λ _, mkTurn [] (sample_conn 6000)) false
            (sample_ops [sample_republished] sample_store)).1 with
   | Ok plans => SpActiveSubscriptionCount <$> plans
   | Err _ => []
   end) = [0] /\
  effective_status 6000 sample_row = SubscriptionActive.
Proof. split; vm_compute; reflexivity. Qed.
